(* ===== verification/_CoqProject ===== *)
-Q . S2P
Prelude.v
Codec.v
TlsEnums.v
TlsBase.v
TlsExtensions.v
TlsHandshake.v
TlsQueries.v
TlsError.v
TlsMessage.v
Fragmenter.v
VecBuf.v
LimitedCache.v
TlsProperties.v
RecordLayer.v
Deframer.v
StateMonad.v
TlsCiphers.v
TlsSuites.v
TlsSecrets.v
TlsCommon.v
TlsConnection.v
TlsTraffic.v
TlsChannel.v
TlsDuplex.v
TlsSession.v
TlsLimits.v
Utf8.v
CsvNfa.v
CsvDfa.v
CsvReader.v
CsvStream.v
CsvEquiv.v
CsvWriter.v
CsvRecord.v
CsvFileWriter.v
CsvRoundtrip.v
CsvFileReader.v
CsvFileRows.v
CsvSeek.v
CsvIndex.v
CsvProperties.v
RingSha.v
RingDigest.v
RingFips.v
RingHmac.v
RingKdf.v
RingProperties.v
TlsTranscript.v
TlsKeySchedule.v
TlsKeyAgreement.v
Words.v
RandCore.v
RandBlock.v
RandPcg.v
RandUniform.v
RandSeq.v
RandArrange.v
RandChoice.v
RandSample.v
RandWeighted.v
RandReseed.v
RandWorks.v
RandVectors.v
RandProperties.v
TanBitpacker.v
TanBitset.v
TanVint.v
TanSstable.v
TanBlocks.v
TanTable.v
TanTermDict.v
TanProperties.v
