(* ===== verification/Prelude.v ===== *)
(** * Rustls 0.21.2, the digests of ring, the CSV crates, the samplers of rand and the index structures of tantivy, verified

    This development models parts of the crates under [src/], as the code is
    written, and proves what makes them correct.  Five parts are modelled: of rustls
    ([src/rustls-0.21.2/rustls/src]) everything between the bytes of the transport
    and the state machines of the handshake, with the transcript hash, the keys of
    TLS 1.2 and the key schedule of TLS 1.3, and the states in which application
    data flows; of ring ([src/ring]), which rustls is built on, the digests, HMAC,
    HKDF and PBKDF2; the readers and writers of rust-csv ([src/rust-csv]), its
    crates csv-core, csv and csv-index; of rand ([src/rand]) the generators of
    rand_core and rand_pcg, and what rand samples with them over integers; and of
    tantivy ([src/tantivy]) the bit packers, bit sets, integers of variable length, sorted
    tables and the term dictionary that its index is built on.

    ** How the parts work together

    Received bytes go into the buffer of a deframer ([msgs/deframer.rs]).  Its
    [pop] parses records ([msgs/message.rs]), has the record layer
    ([record_layer.rs]) decrypt them, and joins handshake records in place until
    a handshake message is complete.  The plain message is then decoded
    ([msgs/handshake.rs], [msgs/alert.rs], [msgs/ccs.rs]) with the codec of
    [msgs/codec.rs].  To send, a message is encoded, cut by the fragmenter
    ([msgs/fragmenter.rs]), encrypted by the record layer and queued in a chunk
    buffer ([vecbuf.rs]).  Sessions are kept in a cache ([limited_cache.rs]).
    A connection ([conn.rs], [common_state.rs]) owns all of these: it turns errors
    into alerts, hands messages to its state, keeps plaintext for the application
    and takes plaintext from it.  The ciphers come from the secrets of the
    handshake ([tls12/mod.rs], [tls12/prf.rs], [tls12/cipher.rs], [tls13/mod.rs]).
    In TLS 1.3 the secrets of each stage are derived from those of the one before and
    from the hash of the transcript ([hash_hs.rs], [tls13/key_schedule.rs]) with the
    HKDF of ring, which runs on its HMAC and that on its digests
    ([ring/src/hkdf.rs], [hmac.rs], [digest.rs]).

    csv-core reads and writes CSV without memory of its own: the caller hands it
    pieces of input and output buffers, and [read_record] ([csv-core/src/reader.rs])
    follows a table that was built from an automaton with epsilon moves.  The
    crate csv puts a buffered source in front of it, grows the buffers of a
    [ByteRecord] as csv-core asks for room ([src/reader.rs]), keeps the headers
    and the position, and puts a buffer behind csv-core's writer ([src/writer.rs]).

    A generator of rand makes words ([rand_core/src/lib.rs]), from blocks that a core
    fills ([block.rs]) or from one word of state ([rand_pcg]).  The samplers
    take words until one is accepted ([src/distributions/uniform.rs]); choices,
    shuffles and samples of indices ([src/seq]) and weighted choices
    ([src/distributions/weighted_index.rs]) are functions of what the samplers return.

    ** Files

    - [Prelude]: the result type [res] (a value, an error of the code, a panic,
      or fuel that ran out), bytes as [Byte.byte], integers as [Z] with their
      width written out, big-endian bytes, [splice] for slice assignment.
    - [Codec] ([msgs/codec.rs]): [Reader] with its cursor, the reader monad [Rd],
      the trait [Codec] as a class, and the class of its laws [CodecOk]: encoding
      appends, and reading is safe (no panic, the cursor stays in the buffer).
      [Delimited] and [Trailing] say how an encoding is read back: whatever
      follows it, or only at the end of the input.  Length-prefixed lists are an
      instance over any element codec.
    - [TlsEnums] ([enums.rs], [msgs/enums.rs], [msgs/macros.rs]): the macro
      [enum_builder] as the class [EnumBuilder]; one module per enum.
    - [TlsBase] ([msgs/base.rs], [key.rs], [verify.rs]): opaque payloads.
    - [TlsExtensions], [TlsHandshake], [TlsQueries] ([msgs/handshake.rs]): the
      extensions, the handshake payloads with the decoder [read_version], and
      the lookups, checks and constructors on them.
    - [TlsError] ([error.rs]): the error values.
    - [TlsMessage] ([msgs/message.rs], [msgs/alert.rs], [msgs/ccs.rs]): records
      and messages.
    - [Fragmenter], [VecBuf], [LimitedCache], [RecordLayer], [Deframer]: the file
      of the same name in the code; [RecordLayer] holds [cipher.rs] too.
    - [TlsProperties]: the theorems on encoders, decoders, framing and
      fragmentation.
    - [TlsCiphers] ([tls12/cipher.rs], [tls13/mod.rs]): the record ciphers, and the
      class [CipherPair] of what a peer's decrypter undoes; its instances.
    - [TlsSuites] ([suites.rs], [versions.rs]), [TlsSecrets] ([tls12/prf.rs],
      [tls12/mod.rs]): the choice of a suite; the keys, and that both sides have
      the same.
    - [TlsCommon] ([common_state.rs]), [TlsConnection] ([conn.rs], [check.rs]): the
      state of a connection and its methods, over any implementation of the trait
      [State] (class [ConnectionState]); [TlsTraffic] ([client/tls12.rs],
      [server/tls12.rs]): the states with application data.
    - [TlsChannel]: what sending and receiving promise.  [TlsDuplex]: two
      connections, two transports that cut, delay and lose, and the applications'
      calls; [TlsSession]: the theorems on them under the keys of TLS 1.2, with a
      run that is evaluated.  [TlsLimits]: errors, the last sequence numbers, key
      updates that wait.
    - [RingSha] ([ring/src/digest/sha1.rs], [sha2.rs]): the block functions of SHA-1
      and SHA-2.  [RingDigest] ([ring/src/digest.rs]): the algorithms, the contexts,
      the padding; [holds] and [absorbed] say what a context has taken.  [RingFips]: the
      hash functions as FIPS 180-4 defines them, with its functions and constants and
      nothing of the code ([fips_hash]).  [RingHmac] ([ring/src/hmac.rs],
      [constant_time.rs], [ring/crypto/mem.c]) and [RingKdf] ([ring/src/hkdf.rs],
      [pbkdf2.rs]) are built on it, with [key_for] saying what a key is;
      [RingProperties] has the theorems on the four.
    - [TlsTranscript] ([hash_hs.rs]): the buffer, the running hash, and how a
      HelloRetryRequest restarts them.  [TlsKeySchedule] ([tls13/key_schedule.rs]):
      the typestates of the key schedule; [expand_label], [next_stage] and the like
      are the functions of RFC 8446 on byte strings.  [TlsKeyAgreement]: the calls of
      a client and of a server, one after the other as in [client/tls13.rs] and
      [server/tls13.rs], and the theorems on the two together; the test vectors of
      the code, evaluated.
    - [StateMonad]: methods that change their object and can fail.
    - [Utf8]: the UTF-8 and the [str::trim] of Rust's standard library.
    - [CsvNfa], [CsvDfa], [CsvReader], [CsvWriter] ([csv-core/src/lib.rs],
      [reader.rs], [writer.rs]): the automaton, the table, the calls, the writer.
      [CsvStream] has the parser that knows no buffers ([parse_all]) and relates
      every call to it; [CsvEquiv] relates the calls of the two engines.
    - [CsvRecord] ([src/byte_record.rs], [src/string_record.rs]), [CsvFileWriter]
      ([src/writer.rs]), [CsvFileReader] ([src/reader.rs]): the crate csv.
      [CsvRoundtrip] relates what the writer writes to what the parser finds;
      [CsvFileRows] relates the reader over a file to the parser, [CsvSeek] what it
      reads after a seek.
    - [CsvIndex] ([csv-index/src/simple.rs]): the index of the positions of records.
    - [CsvProperties]: the theorems on both crates.
    - [Words]: words of a width, what their operations do out of range ([fit_word],
      [shl_word]: a panic with overflow checks), bytes of words in both orders.
    - [RandCore] ([rand_core/src/lib.rs], [impls.rs], [le.rs]): the traits [RngCore] and
      [SeedableRng] as classes, with [RngCoreOk] for what the first asks of its
      implementations.  [RandBlock] ([rand_core/src/block.rs]): [BlockRng] and
      [BlockRng64] over any core (class [BlockRngCore], laws [BlockRngCoreOk]); the
      stream of words as their specification ([reads], [spec_call]).  [RandReseed]
      ([src/rngs/adapter/reseeding.rs]): the core that reseeds itself, and its
      specification [spec_block], which counts the bytes that a seed has given and the
      attempts to replace it that failed.
    - [RandPcg] ([rand_pcg/src], [src/rngs/mock.rs], [xoshiro256plusplus.rs]): the
      generators, [l64_], [l128_], [m128_], [cm_], [step_], [xo_]; [affine] is one step.
      [RandWorks]: that they keep to the trait.
    - [RandUniform] ([src/distributions/uniform.rs], [integer.rs], [utils.rs], [other.rs],
      [slice.rs]): integers, characters, slices; [draw] is what one word gives, [count]
      how many words give a value, [good] an outcome that is right if there is one.
    - [RandSeq] ([src/seq/mod.rs], [index.rs]): choices, shuffles, samples of indices.
      [RandArrange] and [RandChoice]: the result as a function of the indices that are
      drawn ([decided]), and which arrangement comes from which draws.  [RandSample]: the
      same for [index::sample] and its four algorithms ([samples_by], [fair]).
    - [RandWeighted] ([src/distributions/weighted_index.rs]): [cums] are the sums that a
      distribution keeps, [apply_updates] the weights after an update.
    - [RandVectors]: the values that the tests of the code expect.  [RandProperties]: the
      theorems on all of rand.

    Tantivy, what its index is built on:

    - [TanBitpacker] ([bitpacker/src]): packers and unpackers of values of one width, [bp_],
      [bu_], and blocks of 128 values with a width each, [bbp_].
    - [TanBitset] ([common/src/bitset.rs], [ownedbytes/src/lib.rs]): words as sets, [ts_], sets
      of words, [bs_], and their serialized form, [ro_]; [repr] says of which finite set of
      stdpp they are a representation.
    - [TanVint] ([common/src/vint.rs], [postings/compression/vint.rs], [sstable/vint.rs]):
      integers of variable length, with [vint] and [cint] as the reference.
    - [TanSstable] ([src/termdict/sstable_termdict/sstable]): the sorted tables, blocks, values
      ([ValueWriter], [ValueReader]), deltas, [Writer] and [Reader].  [TanBlocks]: the
      order of keys, the shortened keys of the index, and the class [ValueCodec] of values
      that are read as they were written.  [TanTable]: a table as its blocks ([table]) and
      where a reader is in it ([reader_at]).
    - [TanTermDict] ([termdict.rs], [streamer.rs], [sstable_termdict/mod.rs]): the term
      dictionary and its stream.  [TanProperties]: the theorems on all of these.

    An operation keeps the name it has in the code, with the type in front
    where Rust has a method ([ClientHelloPayload_read] is
    [ClientHelloPayload::read]; [ch_], [sh_], [hrr_], [ce_], [cr_], [nst_],
    [cvb_], [lc_] abbreviate the type).  A method that changes its object
    returns the new one.  A slice out of range, a failed assertion, an
    [unwrap] of nothing and an integer overflow are [Panic]; where builds differ
    ([debug_assert]) the definitions take [debug].

    ** What the theorems show

    - Codecs: lists, enums, extensions, handshake messages, records and messages
      are read back as they were written, under what their encoders can
      express (the [_wf] predicates); the handshake messages that are refused or
      come back in another form are told apart ([message_read]); every decoder is total; the verdicts of
      the record reader do not depend on bytes that are yet to come; a parsed
      message turns back into the bytes it came from.
    - Handshake helpers: duplicate detection, PSK binder signing, the delayed
      decoding of a key exchange.
    - Fragmenter: lossless, bounded, and joined again by the deframer.
    - Connections: two of them are a channel in both directions, under any calls
      and any behaviour of the transports: data arrives complete and in order, the
      end of the stream is told apart from a cut, a cut is reported, and nothing is lost that rounds
      of calls would not bring over.  An error is the end of a connection; at the soft limit of
      the sequence numbers [send_single_fragment] calls itself for ever.
    - Suites: the choice is the preferred one that both sides can use.
    - Digests: in any pieces, the hash of the standard ([fips_hash]), and a panic
      exactly when the length in bits does not fit in 64 bits.  HMAC, HKDF and PBKDF2
      are those of RFC 2104, 5869 and 2898, with their limits as errors or panics.
    - TLS 1.3: the transcript hashes of both sides are equal however they buffer; the
      key schedule is the one of RFC 8446, with the labels of its text, and logs its secrets
      as they are; both
      sides hold the ends of the same ciphers after the handshake and after any
      sequence of key updates; exporting too much panics instead of failing.
    - Deframer: [pop] refines a specification [apop] on byte sequences
      that knows no buffer and no offsets, in its results, its errors and the state it
      leaves; reading only appends; [push] panics on a long payload; the close warning of the
      record layer is lost.
    - Record layer: no sequence number is handed twice to one encrypter, in every history; the
      bytes that trial decryption drops are bounded.
    - [ChunkVecBuffer] refines a byte queue, [LimitedCache] a first-in first-out
      association list, for every sequence of calls.
    - csv-core: the table is the automaton; reading does not depend on how input
      and output are cut into buffers (but for a byte order mark, which is stripped when
      the first piece has all of it), and comes to an end; both engines agree.
    - csv: a byte record is a list of fields and its iterator a deque; a string
      record is valid UTF-8; both ways to write a record write the same line
      or refuse the same record; a reader delivers the rows of its input from any source,
      trimmed as documented but for the first one without headers; and what a writer
      has written, a reader reads back.
    - csv-index: lookups through an index give the rows with these numbers.
    - Generators: in any sequence of calls, those over blocks read the words of their core
      in order, none twice and none left out but by a documented skip, on machines of both
      byte orders; [advance] is as many calls and can go back; a generator that
      reseeds asks for a seed on time, after forks too, and what a seed gives is bounded by
      the attempts that failed.
    - Samplers: every integer of a range comes from as many words as every other and at
      most half of the words are turned down, for the twelve integer types; a weighted
      index in proportion to its weight; updating weights is making the distribution anew;
      each order of a shuffle comes from one choice of draws, and [index::sample] is a
      function of its draws that favours no list of indices, whichever algorithm runs; [choose_stable] does not depend on size hints; what unsafe code takes
      for granted (characters, indices) holds.
    - Tantivy: packed values are read back at every address of 32 bits; a blocked packer is
      a vector; a bit set is a finite set under any calls, and so is its serialized form;
      all encoders of an integer agree and all decoders undo them; a sorted table is its
      entries, and its index finds the block of a key although its keys are shortened; the term
      dictionary is a map and an order of its terms, and its stream the terms that bounds
      and automaton select.

    ** Fuel and bounds

    Loops that are not structural take fuel.  [read_while_left] has one round
    per byte of input and an element takes a byte or more; [pop_loop] has one
    round per used byte and a round moves past a record of five bytes or more;
    [chunks_fuel] and the [read_loop] of [VecBuf] have one round per byte.  The
    loops of csv-core have a round per byte, times [EPSILON_CHAIN] for the
    automaton; a call of [read_byte_record] takes three rounds per byte that is
    left and eight more; [field_rounds] and its like are the rounds that a buffer
    of two bytes makes necessary.
    [send_single_fragment] calls itself through [send_close_notify]: its fuel is
    the depth of these calls, one is enough except at the soft limit of the
    sequence numbers, where none is.  [packets_loop] has a round per record, and
    [used] of the deframer plus one are enough.  [fill_okm_loop] has a round per
    value of its one-byte counter, and [chunk_lens] a round per byte.
    The loops of an integer of variable length have a round per digit, 19 for 128 bits and 5 for
    32; those of the term dictionary a round per term and one more.
    The loops over iterators in rand have a round per item and one more.  The theorems
    state that the fuel is enough: a result [NoFuel] is excluded by each of them, with one
    exception.  A sampler of rand draws until a word is accepted, which no number of rounds
    bounds; its theorems say which word ends the loop and that at least half of the words
    do, and the others are about what is drawn.

    ** What is a parameter

    Code outside [src/] and code in C and assembly: the web PKI's parser of names
    (class [WebPki]), foreign error types (class [ForeignErrors]), ring's AEADs and
    their keys (classes [Aead] and [AeadKeys], with their documented laws [AeadOk],
    [AeadKeysOk] and [AeadKeyLens]), key agreement (a function), the writers and
    readers of the transport, and the growth of a [VecDeque] ([grow]); what the crate
    ciborium writes and loads of the index of a table ([index_bytes], [index_load], with
    the hypothesis that what is written is loaded) and the automaton of a stream; the crate
    memchr (class [Memchr]) and byteorder (class [ByteOrder]), and for csv any [io::Write], [io::Read] and
    [io::Seek] (classes [Write] and [Read]), which may fail at any call.  The keys of
    TLS 1.2 are proved over any HMAC (class [Hmac], laws [HmacOk]); [ring_hmac] is
    the instance.

    ** What is not modelled, and the plan

    Of rand: floating point (but the [f32] arithmetic that chooses the algorithm of
    [index::sample]), SIMD, ChaCha (its SIMD is a crate outside the repository), the
    generators of the thread and the system, and rand_distr.
    Of rustls: the [Debug] and [Display] texts, random values, [read_buf] (a
    nightly feature), the features quic and secret_extraction, the states of the
    handshake, and signatures.  Of ring: all but the digests and what is built on
    them; where a target has assembly for SHA-2, the model is the Rust code that the
    other targets run.
    Next are stored sessions ([msgs/persist.rs]), the traffic state of TLS 1.3, then
    the states of the handshake.
    Of rust-csv: Serde support, which is driven by a crate outside the
    repository; [from_byte_record_lossy], [seek_raw], the setters of the builders
    (they are arguments here), [Drop] of the writer with its [panicked] flag, the
    hidden constructors of [Terminator] and [QuoteStyle], and the overflow of the
    capacity of a [Vec].
    Of tantivy: merging sorted tables and streams, the async variants of the term dictionary,
    [io::Read] of owned bytes, and all that is not named above: indexer, postings, queries,
    store, tokenizers and fast fields.
    Other crates of the repository are listed in the manifest with the
    reason why they are left out; the role manager of casbin and the merging of term
    dictionaries are the next candidates. *)

From Stdlib Require Import ZArith Lia Strings.Byte.
From stdpp Require Import base list numbers option sets.

(** * Results

    A Rust call either returns a value, returns an error of type [E],
    panics (a failed [unwrap], an out-of-range slice, an [assert!]), or does
    not return.  Loops are modelled with fuel, and [NoFuel] is the outcome of
    a loop that needs more iterations than its fuel allows: every component
    proves that its functions do not have this outcome. *)
Inductive res (E A : Type) : Type :=
  | Ok (a : A)
  | Err (e : E)
  | Panic
  | NoFuel.
Arguments Ok {E A} _.
Arguments Err {E A} _.
Arguments Panic {E A}.
Arguments NoFuel {E A}.

Definition res_bind {E A B} (x : res E A) (f : A → res E B) : res E B :=
  match x with
  | Ok a => f a
  | Err e => Err e
  | Panic => Panic
  | NoFuel => NoFuel
  end.

Declare Scope rust_scope.
Delimit Scope rust_scope with rust.
Open Scope rust_scope.

(** The [?] operator of Rust on a [res]. *)
Notation "'let?' x ':=' e 'in' k" := (res_bind e (λ x, k))
  (at level 10, x pattern, e at level 100, k at level 200) : rust_scope.

Definition res_map {E A B} (f : A → B) (x : res E A) : res E B :=
  let? a := x in Ok (f a).

(** [Result::map_err] *)
Definition res_map_err {E E' A} (f : E → E') (x : res E A) : res E' A :=
  match x with
  | Ok a => Ok a
  | Err e => Err (f e)
  | Panic => Panic
  | NoFuel => NoFuel
  end.

(** A result is [returned] when the call comes back to its caller, with a
    value or with an error: it neither panics nor runs forever. *)
Definition returned {E A} (x : res E A) : Prop :=
  match x with
  | Ok _ | Err _ => True
  | Panic | NoFuel => False
  end.

Lemma returned_bind {E A B} (x : res E A) (f : A → res E B) :
  returned x → (∀ a, x = Ok a → returned (f a)) → returned (res_bind x f).
Proof. destruct x; simpl; eauto. Qed.

Lemma res_bind_ok {E A B} (x : res E A) (f : A → res E B) b :
  res_bind x f = Ok b → ∃ a, x = Ok a ∧ f a = Ok b.
Proof. destruct x; simpl; naive_solver. Qed.

(** * Bytes *)

Abbreviation u8 := byte.

#[export] Instance byte_eq_dec : EqDecision byte.
Proof.
  intros x y. destruct (Byte.eqb x y) eqn:E.
  - left. by apply Byte.byte_dec_bl.
  - right. intros ->. rewrite Byte.byte_dec_lb in E; congruence.
Defined.

#[export] Instance byte_inhabited : Inhabited byte := populate x00.

(** The value of a byte, and the byte of an integer ([as u8]). *)
Definition byte_val (b : byte) : Z := Z.of_N (Byte.to_N b).
Definition byte_of (z : Z) : byte := default x00 (Byte.of_N (Z.to_N (z `mod` 256))).

Lemma byte_val_range b : (0 ≤ byte_val b < 256)%Z.
Proof. unfold byte_val. pose proof (Byte.to_N_bounded b). lia. Qed.

Lemma byte_of_val b : byte_of (byte_val b) = b.
Proof.
  unfold byte_of. rewrite Z.mod_small by apply byte_val_range.
  unfold byte_val. by rewrite N2Z.id, Byte.of_to_N.
Qed.

Lemma byte_val_of z : byte_val (byte_of z) = (z `mod` 256)%Z.
Proof.
  unfold byte_of, byte_val.
  pose proof (Z.mod_pos_bound z 256 eq_refl).
  destruct (Byte.of_N (Z.to_N (z `mod` 256))) as [b|] eqn:E.
  - apply Byte.to_of_N in E. simpl. rewrite E. lia.
  - apply Byte.of_N_None_iff in E. lia.
Qed.

Lemma byte_val_inj a b : byte_val a = byte_val b → a = b.
Proof. intros H. by rewrite <- (byte_of_val a), <- (byte_of_val b), H. Qed.

(** Every byte is the one of its number. *)
Lemma byte_val_of_small z : (0 ≤ z < 256)%Z → byte_val (byte_of z) = z.
Proof. intros. rewrite byte_val_of. by rewrite Z.mod_small. Qed.

(** * Big-endian integers

    [to_be n v] is [v.to_be_bytes()] of an [n]-byte unsigned integer and
    [from_be bs] is [from_be_bytes(bs)]. *)
Fixpoint to_be (n : nat) (v : Z) : list byte :=
  match n with
  | O => []
  | S n' => byte_of (v / 256 ^ Z.of_nat n') :: to_be n' v
  end.

Definition from_be (bs : list byte) : Z :=
  fold_left (λ acc b, acc * 256 + byte_val b)%Z bs 0%Z.

Lemma length_to_be n v : length (to_be n v) = n.
Proof. induction n; simpl; auto. Qed.

Lemma from_be_acc bs acc :
  fold_left (λ acc b, acc * 256 + byte_val b)%Z bs acc
  = (acc * 256 ^ Z.of_nat (length bs) + from_be bs)%Z.
Proof.
  unfold from_be. revert acc. induction bs as [|b bs IH]; intros acc; simpl fold_left.
  - simpl. lia.
  - rewrite IH, (IH (0 * 256 + byte_val b)%Z). simpl length.
    rewrite Nat2Z.inj_succ, Z.pow_succ_r by lia. lia.
Qed.

Lemma from_be_cons b bs :
  from_be (b :: bs) = (byte_val b * 256 ^ Z.of_nat (length bs) + from_be bs)%Z.
Proof. unfold from_be at 1. simpl. rewrite from_be_acc. lia. Qed.

Lemma from_be_range bs : (0 ≤ from_be bs < 256 ^ Z.of_nat (length bs))%Z.
Proof.
  induction bs as [|b bs IH]; [done|].
  rewrite from_be_cons. simpl length. rewrite Nat2Z.inj_succ, Z.pow_succ_r by lia.
  pose proof (byte_val_range b). nia.
Qed.

Lemma from_to_be n v : from_be (to_be n v) = (v `mod` 256 ^ Z.of_nat n)%Z.
Proof.
  revert v. induction n as [|n IH]; intros v.
  - simpl. by rewrite Z.mod_1_r.
  - simpl to_be. rewrite from_be_cons, IH, length_to_be, byte_val_of.
    rewrite Nat2Z.inj_succ, Z.pow_succ_r by lia.
    rewrite (Z.mul_comm 256), Z.rem_mul_r by lia. lia.
Qed.

Lemma from_to_be_small n v :
  (0 ≤ v < 256 ^ Z.of_nat n)%Z → from_be (to_be n v) = v.
Proof. intros. rewrite from_to_be. by apply Z.mod_small. Qed.

Lemma to_be_mod n k v :
  to_be n (v + k * 256 ^ Z.of_nat n)%Z = to_be n v.
Proof.
  revert k. induction n as [|n IH]; intros k; [done|]. simpl. f_equal.
  - rewrite Nat2Z.inj_succ, Z.pow_succ_r by lia.
    replace (k * (256 * 256 ^ Z.of_nat n))%Z
      with ((k * 256) * 256 ^ Z.of_nat n)%Z by lia.
    rewrite Z.div_add by lia.
    apply byte_val_inj. rewrite !byte_val_of. by rewrite Z.mod_add.
  - rewrite Nat2Z.inj_succ, Z.pow_succ_r by lia.
    replace (k * (256 * 256 ^ Z.of_nat n))%Z
      with ((k * 256) * 256 ^ Z.of_nat n)%Z by lia. apply IH.
Qed.

Lemma to_from_be bs : to_be (length bs) (from_be bs) = bs.
Proof.
  induction bs as [|b bs IH]; [done|].
  rewrite from_be_cons. simpl. f_equal.
  - rewrite Z.div_add_l by lia. rewrite Z.div_small by apply from_be_range.
    rewrite Z.add_0_r. apply byte_of_val.
  - rewrite Z.add_comm, to_be_mod. apply IH.
Qed.

(** Integer casts: [e as u8], [e as u16], [e as u32]. *)
Definition as_u8 (z : Z) : Z := z `mod` 256.
Definition as_u16 (z : Z) : Z := z `mod` 65536.
Definition as_u32 (z : Z) : Z := z `mod` 4294967296.

Lemma to_be_wrap n m v :
  n ≤ m → to_be n (v `mod` 256 ^ Z.of_nat m)%Z = to_be n v.
Proof.
  intros Hnm.
  assert (E : v = (v `mod` 256 ^ Z.of_nat m
    + (256 ^ Z.of_nat (m - n) * (v `div` 256 ^ Z.of_nat m)) * 256 ^ Z.of_nat n)%Z).
  { rewrite (Z.div_mod v (256 ^ Z.of_nat m)) at 1 by lia.
    replace m with (n + (m - n)) at 1 by lia.
    rewrite Nat2Z.inj_add, Z.pow_add_r by lia. lia. }
  rewrite E at 2. by rewrite to_be_mod.
Qed.

Lemma to_be_as_u8 v : to_be 1 (as_u8 v) = to_be 1 v.
Proof. by apply (to_be_wrap 1 1). Qed.
Lemma to_be_as_u16 v : to_be 2 (as_u16 v) = to_be 2 v.
Proof. by apply (to_be_wrap 2 2). Qed.
Lemma to_be_as_u32 v : to_be 3 (as_u32 v) = to_be 3 v.
Proof. apply (to_be_wrap 3 4). lia. Qed.

(** A [for] loop whose body can fail. *)
Fixpoint for_each {E A B} (f : A → B → res E A) (l : list B) (a : A) : res E A :=
  match l with
  | [] => Ok a
  | x :: l' => let? a' := f a x in for_each f l' a'
  end.

(** A loop keeps an invariant [I], and once an iteration has made [Q] hold and
    none breaks it, [Q] holds at the end. *)
Lemma for_each_inv {E A B} (f : A → B → res E A) (I Q : A → Prop) l a :
  (∀ a x, x ∈ l → I a → ∃ a', f a x = Ok a' ∧ I a' ∧ (Q a → Q a')) →
  I a →
  ∃ a', for_each f l a = Ok a' ∧ I a' ∧ (Q a → Q a') ∧
    ((∃ x, x ∈ l ∧ ∀ a a', I a → f a x = Ok a' → Q a') → Q a').
Proof.
  revert a. induction l as [|x l IH]; intros a Hf Ha; simpl.
  - exists a. split_and!; try done. intros (x & Hx & _). by apply not_elem_of_nil in Hx.
  - destruct (Hf a x) as (a' & E1 & Ha' & Hq); [constructor|done|].
    destruct (IH a') as (b & E2 & Hb & Hq2 & He); [|done|].
    { intros. apply Hf; [by constructor|done]. }
    exists b. rewrite E1. simpl. split_and!; auto.
    intros (y & Hy & HQ). apply elem_of_cons in Hy as [->|Hy]; eauto.
Qed.

(** [debug_assert!(c); k]: checked in builds with debug assertions only. *)
Definition debug_assert {E A} (debug c : bool) (k : res E A) : res E A :=
  if debug && negb c then Panic else k.

(** Indexing, which panics out of range. *)
Definition at_index {E A} (l : list A) (i : nat) : res E A :=
  match l !! i with Some x => Ok x | None => Panic end.

Definition write_at {E A} (l : list A) (i : nat) (x : A) : res E (list A) :=
  if bool_decide (i < length l) then Ok (<[i := x]> l) else Panic.

Lemma write_at_Ok {E A} (l : list A) i x : i < length l → write_at (E := E) l i x = Ok (<[i := x]> l).
Proof. intros. unfold write_at. by rewrite bool_decide_true. Qed.

(** * Lists *)

(** Overwrite [l[off .. off + length bs]] by [bs] ([copy_from_slice]). *)
Definition splice {A} (off : nat) (bs l : list A) : list A :=
  take off l ++ bs ++ drop (off + length bs) l.

Lemma splice_app {A} (pre old bs post : list A) :
  length old = length bs →
  splice (length pre) bs (pre ++ old ++ post) = pre ++ bs ++ post.
Proof.
  intros H. unfold splice. rewrite take_app_length. f_equal. f_equal.
  rewrite <- H, app_assoc. by rewrite drop_app_length' by (rewrite length_app; lia).
Qed.

(** [&l[a..b]], which panics outside the slice. *)
Definition slice {E A} (a b : nat) (l : list A) : res E (list A) :=
  if bool_decide (a ≤ b) && bool_decide (b ≤ length l) then Ok (take (b - a) (drop a l))
  else Panic.

(** [l[a..a + src.len()].copy_from_slice(src)] *)
Definition copy_at {E A} (a : nat) (src l : list A) : res E (list A) :=
  if bool_decide (a + length src ≤ length l) then Ok (splice a src l) else Panic.

Lemma slice_Ok {E A} a b (l : list A) :
  a ≤ b → b ≤ length l → slice (E := E) a b l = Ok (take (b - a) (drop a l)).
Proof. intros Ha Hb. unfold slice. by rewrite !bool_decide_true. Qed.

Lemma copy_at_Ok {E A} a (src l : list A) :
  a + length src ≤ length l → copy_at (E := E) a src l = Ok (splice a src l).
Proof. intros H. unfold copy_at. by rewrite bool_decide_true. Qed.

Lemma length_splice {A} off (bs l : list A) :
  off + length bs ≤ length l → length (splice off bs l) = length l.
Proof. intros. unfold splice. rewrite !length_app, length_take, length_drop. lia. Qed.

Lemma drop_app_inv {A} (l : list A) n bs tl :
  drop n l = bs ++ tl → drop (n + length bs) l = tl.
Proof. intros H. by rewrite <- drop_drop, H, drop_app_length. Qed.

Lemma drop_length_le {A} (l : list A) n bs :
  n ≤ length l → drop n l = bs → length l = n + length bs.
Proof. intros Hn <-. rewrite length_drop. lia. Qed.

(** Has the list a repeated element?  The loops of the source insert into a
    [HashSet] and stop at the first key that is already there. *)
Fixpoint first_repeat (seen l : list Z) : bool :=
  match l with
  | [] => false
  | x :: l' => if bool_decide (x ∈ seen) then true else first_repeat (x :: seen) l'
  end.

Lemma first_repeat_spec seen l :
  NoDup seen → first_repeat seen l = false ↔ NoDup (seen ++ l).
Proof.
  revert seen. induction l as [|x l IH]; intros seen Hs; simpl.
  - by rewrite app_nil_r.
  - case_bool_decide as Hx.
    + split; [done|]. intros Hnd. apply list.NoDup_app in Hnd as (_ & H & _).
      exfalso. apply (H x Hx). constructor.
    + rewrite IH by (by constructor).
      rewrite <- app_comm_cons, list.NoDup_cons, !list.NoDup_app, list.NoDup_cons.
      set_solver.
Qed.

(** * Automation *)

Create HintDb rust discriminated.
Create Rewrite HintDb lens.
#[export] Hint Resolve byte_val_range from_be_range : rust.
#[export] Hint Rewrite @length_app @length_take @length_drop @length_splice
  @length_to_be @length_map : lens.

(** Arithmetic on list lengths. *)
Ltac lens := autorewrite with lens in *; simpl in *; lia.
