(* ===== verification/Codec.v ===== *)
(** The byte codec of rustls (rustls-0.21.2/rustls/src/msgs/codec.rs): the
    cursor [Reader], the [Codec] interface with its laws, the integer codecs
    and the length-prefixed lists.

    A decoder is a state transformer [Rd A] over the reader, because the source
    threads [&mut Reader] through every call; an encoder appends to the byte
    vector it is given.  [CodecOk], [Delimited] and [Trailing] are the laws that
    one message type promises to the types built from it; the list codec is
    proved against these interfaces only. *)
From Stdlib Require Import ZArith Lia Strings.Byte String.
From stdpp Require Import base list numbers option.
From S2P Require Import Prelude.
Open Scope rust_scope.

(** [KeyExchangeAlgorithm] (msgs/handshake.rs) *)
Inductive KeyExchangeAlgorithm : Type :=
  | BulkOnly | DH | DHE | RSA | ECDH | ECDHE.

(** [InvalidMessage] (error.rs) *)
Inductive InvalidMessage : Type :=
  | HandshakePayloadTooLarge
  | InvalidCcs
  | InvalidContentType
  | InvalidCertificateStatusType
  | InvalidCertRequest
  | InvalidDhParams
  | InvalidEmptyPayload
  | InvalidKeyUpdate
  | InvalidServerName
  | MessageTooLarge
  | MessageTooShort
  | MissingData (what : string)
  | MissingKeyExchange
  | NoSignatureSchemes
  | TrailingData (what : string)
  | UnexpectedMessage (what : string)
  | UnknownProtocolVersion
  | UnsupportedCompression
  | UnsupportedCurveType
  | UnsupportedKeyExchangeAlgorithm (kxa : KeyExchangeAlgorithm).

(** * The reader *)

Record Reader : Type := mkReader { buffer : list byte; cursor : nat }.

Definition Reader_init (bytes : list byte) : Reader := mkReader bytes 0.

(** [left], with the subtraction of the source; [Reader_wf] keeps it from
    underflowing. *)
Definition Reader_left (r : Reader) : nat := length (buffer r) - cursor r.

Definition Reader_any_left (r : Reader) : bool := bool_decide (cursor r < length (buffer r)).

Definition Reader_used (r : Reader) : nat := cursor r.

Definition Reader_rest (r : Reader) : list byte * Reader :=
  (drop (cursor r) (buffer r), mkReader (buffer r) (length (buffer r))).

Definition Reader_take (n : nat) (r : Reader) : option (list byte) * Reader :=
  if bool_decide (Reader_left r < n) then (None, r)
  else (Some (take n (drop (cursor r) (buffer r))),
        mkReader (buffer r) (cursor r + n)).

Definition Reader_sub (n : nat) (r : Reader) : res InvalidMessage Reader * Reader :=
  match Reader_take n r with
  | (Some bytes, r') => (Ok (Reader_init bytes), r')
  | (None, r') => (Err MessageTooShort, r')
  end.

Definition Reader_expect_empty (name : string) (r : Reader) : res InvalidMessage unit :=
  if Reader_any_left r then Err (TrailingData name) else Ok tt.

(** The representation invariant of a reader. *)
Definition Reader_wf (r : Reader) : Prop := cursor r ≤ length (buffer r).

(** * Decoders *)

Definition Rd (A : Type) : Type := Reader → res InvalidMessage A * Reader.

Definition rd_ret {A} (a : A) : Rd A := λ r, (Ok a, r).
Definition rd_err {A} (e : InvalidMessage) : Rd A := λ r, (Err e, r).
Definition rd_bind {A B} (m : Rd A) (k : A → Rd B) : Rd B := λ r,
  match m r with
  | (Ok a, r') => k a r'
  | (Err e, r') => (Err e, r')
  | (Panic, r') => (Panic, r')
  | (NoFuel, r') => (NoFuel, r')
  end.

Notation "'let!' x ':=' m 'in' k" := (rd_bind m (λ x, k))
  (at level 10, x pattern, m at level 100, k at level 200) : rust_scope.

(** Reader calls as decoders. *)
Definition rd_take (n : nat) : Rd (option (list byte)) := λ r,
  let '(o, r') := Reader_take n r in (Ok o, r').
Definition rd_rest : Rd (list byte) := λ r,
  let '(bs, r') := Reader_rest r in (Ok bs, r').
Definition rd_any_left : Rd bool := λ r, (Ok (Reader_any_left r), r).
Definition rd_expect_empty (name : string) : Rd unit := λ r,
  (Reader_expect_empty name r, r).

(** [let mut sub = r.sub(n)?; m(&mut sub)]: [m] runs on its own reader, and the
    reader of the caller has moved past the [n] bytes. *)
Definition rd_sub {A} (n : nat) (m : Rd A) : Rd A := λ r,
  match Reader_sub n r with
  | (Ok sub, r') => ((m sub).1, r')
  | (Err e, r') => (Err e, r')
  | (Panic, r') => (Panic, r')
  | (NoFuel, r') => (NoFuel, r')
  end.

(** ** Safety of decoders

    A safe decoder, started on a well-formed reader, comes back, leaves the
    buffer alone, and leaves the cursor between where it was and the end. *)
Definition rd_safe {A} (m : Rd A) : Prop := ∀ r, Reader_wf r →
  returned (m r).1 ∧ buffer (m r).2 = buffer r ∧
  cursor r ≤ cursor (m r).2 ≤ length (buffer r).

(** A decoder makes progress when every success consumes at least one byte. *)
Definition rd_progress {A} (m : Rd A) : Prop := ∀ r a, Reader_wf r →
  (m r).1 = Ok a → cursor r < cursor (m r).2.

Create HintDb safe discriminated.

Lemma rd_safe_ret {A} (a : A) : rd_safe (rd_ret a).
Proof. intros r Hr. unfold Reader_wf in Hr. simpl. auto with lia. Qed.

Lemma rd_safe_err {A} e : rd_safe (@rd_err A e).
Proof. intros r Hr. unfold Reader_wf in Hr. simpl. auto with lia. Qed.

Lemma rd_safe_bind {A B} (m : Rd A) (k : A → Rd B) :
  rd_safe m → (∀ a, rd_safe (k a)) → rd_safe (rd_bind m k).
Proof.
  intros Hm Hk r Hr. unfold rd_bind. specialize (Hm r Hr).
  destruct (m r) as [[a| | |] r'] eqn:E; simpl in *; try tauto.
  destruct Hm as (_ & Hb & Hc).
  assert (Hr' : Reader_wf r') by (unfold Reader_wf; rewrite Hb; lia).
  destruct (Hk a r' Hr') as (? & Hb' & Hc').
  rewrite Hb in *. split; [done|]. split; [congruence|lia].
Qed.

Lemma rd_safe_take n : rd_safe (rd_take n).
Proof.
  intros r Hr. unfold Reader_wf, rd_take, Reader_take, Reader_left in *.
  case_bool_decide; simpl; auto with lia.
Qed.

Lemma rd_safe_rest : rd_safe rd_rest.
Proof. intros r Hr. unfold Reader_wf in Hr. simpl. auto with lia. Qed.

Lemma rd_safe_any_left : rd_safe rd_any_left.
Proof. intros r Hr. unfold Reader_wf in Hr. simpl. auto with lia. Qed.

Lemma rd_safe_expect_empty name : rd_safe (rd_expect_empty name).
Proof.
  intros r Hr. unfold rd_expect_empty, Reader_expect_empty, Reader_wf in *. simpl.
  destruct (Reader_any_left r); simpl; auto with lia.
Qed.

Lemma rd_safe_sub {A} n (m : Rd A) : rd_safe m → rd_safe (rd_sub n m).
Proof.
  intros Hm r Hr. unfold rd_sub, Reader_sub, Reader_take, Reader_left, Reader_wf in *.
  case_bool_decide; simpl; [auto with lia|].
  split; [|split; [done|lia]]. apply Hm. unfold Reader_wf. simpl. lia.
Qed.

Lemma rd_safe_if {A} (b : bool) (m1 m2 : Rd A) :
  rd_safe m1 → rd_safe m2 → rd_safe (if b then m1 else m2).
Proof. by destruct b. Qed.

#[export] Hint Resolve rd_safe_ret rd_safe_err rd_safe_bind rd_safe_take rd_safe_rest
  rd_safe_any_left rd_safe_expect_empty rd_safe_sub rd_safe_if : safe.

(** Progress is inherited from the first decoder of a sequence. *)
Lemma rd_progress_bind {A B} (m : Rd A) (k : A → Rd B) :
  rd_safe m → rd_progress m → (∀ a, rd_safe (k a)) → rd_progress (rd_bind m k).
Proof.
  intros Hs Hp Hk r b Hr. unfold rd_bind. specialize (Hs r Hr).
  pose proof (λ a, Hp r a Hr) as Hp'.
  destruct (m r) as [[a| | |] r'] eqn:E; simpl in *; try done.
  intros _. destruct Hs as (_ & Hb & Hc).
  assert (Hr' : Reader_wf r') by (unfold Reader_wf; rewrite Hb; lia).
  destruct (Hk a r' Hr') as (_ & _ & ?). specialize (Hp' a eq_refl). lia.
Qed.

(** ** What a decoder reads

    [reads m a bs]: whatever follows [bs] in the buffer, [m] returns [a] and
    stops right after [bs].  [reads_all m a bs]: the same when nothing follows. *)
Definition reads {A} (m : Rd A) (a : A) (bs : list byte) : Prop :=
  ∀ buf cur tl, cur ≤ length buf → drop cur buf = bs ++ tl →
    m (mkReader buf cur) = (Ok a, mkReader buf (cur + length bs)).

Definition reads_all {A} (m : Rd A) (a : A) (bs : list byte) : Prop :=
  ∀ buf cur, cur ≤ length buf → drop cur buf = bs →
    m (mkReader buf cur) = (Ok a, mkReader buf (cur + length bs)).

Lemma reads_reads_all {A} (m : Rd A) a bs : reads m a bs → reads_all m a bs.
Proof. intros H buf cur Hc Hd. apply (H _ _ []); [done|]. by rewrite app_nil_r. Qed.

Lemma reads_ret {A} (a : A) : reads (rd_ret a) a [].
Proof. intros buf cur tl _ _. unfold rd_ret. simpl. by rewrite Nat.add_0_r. Qed.

Lemma drop_app_bound (buf bs tl : list byte) cur :
  cur ≤ length buf → drop cur buf = bs ++ tl → cur + length bs ≤ length buf.
Proof. intros Hc Hd. apply drop_length_le in Hd; [|done]. rewrite length_app in Hd. lia. Qed.

Lemma reads_bind {A B} (m : Rd A) (k : A → Rd B) a b bs1 bs2 :
  reads m a bs1 → reads (k a) b bs2 → reads (rd_bind m k) b (bs1 ++ bs2).
Proof.
  intros Hm Hk buf cur tl Hc Hd. unfold rd_bind. rewrite <- app_assoc in Hd.
  rewrite (Hm _ _ _ Hc Hd). rewrite (Hk _ _ tl).
  - by rewrite length_app, Nat.add_assoc.
  - eapply drop_app_bound; eauto.
  - by apply drop_app_inv in Hd.
Qed.

Lemma reads_all_bind {A B} (m : Rd A) (k : A → Rd B) a b bs1 bs2 :
  reads m a bs1 → reads_all (k a) b bs2 → reads_all (rd_bind m k) b (bs1 ++ bs2).
Proof.
  intros Hm Hk buf cur Hc Hd. unfold rd_bind.
  rewrite (Hm _ _ _ Hc Hd). rewrite (Hk _ _).
  - by rewrite length_app, Nat.add_assoc.
  - eapply drop_app_bound; eauto.
  - by apply drop_app_inv in Hd.
Qed.

(** A decoder that reads to the end, followed by one that reads nothing. *)
Lemma reads_all_bind_end {A B} (m : Rd A) (k : A → Rd B) a b bs :
  reads_all m a bs → reads_all (k a) b [] → reads_all (rd_bind m k) b bs.
Proof.
  intros Hm Hk buf cur Hc Hd. unfold rd_bind. rewrite (Hm _ _ Hc Hd).
  rewrite (Hk _ _).
  - simpl. by rewrite Nat.add_0_r.
  - apply (drop_app_bound _ bs []); [done|by rewrite app_nil_r].
  - apply drop_app_inv. by rewrite app_nil_r.
Qed.

Lemma reads_take n bs : length bs = n → reads (rd_take n) (Some bs) bs.
Proof.
  intros Hn buf cur tl Hc Hd. unfold rd_take, Reader_take, Reader_left. simpl.
  pose proof (drop_app_bound _ _ _ _ Hc Hd).
  rewrite bool_decide_false by lia. simpl. rewrite Hd, take_app_length' by lia.
  by rewrite Hn.
Qed.

Lemma reads_all_rest bs : reads_all rd_rest bs bs.
Proof.
  intros buf cur Hc Hd. unfold rd_rest, Reader_rest. simpl. rewrite Hd.
  by rewrite (drop_length_le _ _ _ Hc Hd).
Qed.

Lemma reads_all_expect_empty name : reads_all (rd_expect_empty name) tt [].
Proof.
  intros buf cur Hc Hd. unfold rd_expect_empty, Reader_expect_empty, Reader_any_left. simpl.
  apply drop_length_le in Hd; [|done]. simpl in Hd.
  rewrite bool_decide_false by lia. by rewrite Nat.add_0_r.
Qed.

(** [any_left] tells whether the rest of the input is empty. *)
Lemma reads_all_any_left {B} (k : bool → Rd B) b bs :
  reads_all (k (bool_decide (bs ≠ []))) b bs → reads_all (rd_bind rd_any_left k) b bs.
Proof.
  intros Hk buf cur Hc Hd. rewrite <- (Hk buf cur Hc Hd).
  unfold rd_bind, rd_any_left, Reader_any_left. simpl.
  replace (bool_decide (cur < length buf)) with (bool_decide (bs ≠ [])); [done|].
  apply drop_length_le in Hd; [|done].
  apply bool_decide_ext. destruct bs; simpl in *; [naive_solver lia|].
  split; [lia|done].
Qed.

Lemma reads_sub {A} n (m : Rd A) a bs :
  length bs = n → reads_all m a bs → reads (rd_sub n m) a bs.
Proof.
  intros Hn Hm buf cur tl Hc Hd.
  unfold rd_sub, Reader_sub, Reader_take, Reader_left. simpl.
  pose proof (drop_app_bound _ _ _ _ Hc Hd).
  rewrite bool_decide_false by lia. simpl. rewrite Hd, take_app_length' by lia.
  unfold Reader_init. rewrite (Hm bs 0); [|lia|done]. simpl. by rewrite Hn.
Qed.

(** [fails m e bs]: on a buffer that ends with [bs], [m] returns the error [e]. *)
Definition fails {A} (m : Rd A) (e : InvalidMessage) (bs : list byte) : Prop :=
  ∀ buf cur, cur ≤ length buf → drop cur buf = bs → (m (mkReader buf cur)).1 = Err e.

Lemma fails_err {A} e bs : fails (A := A) (rd_err e) e bs.
Proof. done. Qed.

Lemma fails_bind {A B} (m : Rd A) (k : A → Rd B) a e bs1 bs2 :
  reads m a bs1 → fails (k a) e bs2 → fails (rd_bind m k) e (bs1 ++ bs2).
Proof.
  intros Hm Hk buf cur Hc Hd. unfold rd_bind. rewrite (Hm _ _ _ Hc Hd).
  apply Hk; [by eapply drop_app_bound|by apply drop_app_inv in Hd].
Qed.

Lemma fails_first {A B} (m : Rd A) (k : A → Rd B) e bs : fails m e bs → fails (rd_bind m k) e bs.
Proof.
  intros Hm buf cur Hc Hd. unfold rd_bind. specialize (Hm buf cur Hc Hd).
  destruct (m _) as [r ?]. simpl in Hm. by subst r.
Qed.

Lemma fails_any_left {A} (k : bool → Rd A) e bs :
  fails (k (bool_decide (bs ≠ []))) e bs → fails (let! b := rd_any_left in k b) e bs.
Proof.
  intros Hk buf cur Hc Hd. unfold rd_bind, rd_any_left, Reader_any_left. cbn [buffer cursor]. pose proof (drop_length_le _ _ _ Hc Hd) as Hl.
  replace (bool_decide (cur < length buf)) with (bool_decide (bs ≠ [])); [by apply Hk|].
  apply bool_decide_ext. destruct bs; simpl in Hl; split; intros; [done|lia|lia|done].
Qed.

(** A decoder that fails on its own reader: the outer one moves on all the same. *)
Lemma sub_fails {A} n (m : Rd A) e bs buf cur tl :
  length bs = n → fails m e bs → cur ≤ length buf → drop cur buf = bs ++ tl →
  rd_sub n m (mkReader buf cur) = (Err e, mkReader buf (cur + n)).
Proof.
  intros Hn Hm Hc Hd. pose proof (drop_app_bound _ _ _ _ Hc Hd).
  unfold rd_sub, Reader_sub, Reader_take, Reader_left. cbn [buffer cursor].
  rewrite bool_decide_false by lia. rewrite Hd, take_app_length' by lia.
  cbn [fst]. unfold Reader_init. by rewrite (Hm bs 0) by (done || lia).
Qed.

(** Splitting a sequence of decoders along a concatenation of encodings. *)
Ltac reads_step :=
  match goal with
  | |- reads (rd_ret _) _ [] => apply reads_ret
  | |- reads (rd_bind _ _) _ (_ ++ _) => eapply reads_bind
  | |- reads_all (rd_bind rd_any_left _) _ _ => apply reads_all_any_left
  | |- reads_all (rd_bind _ _) _ (_ ++ _) => eapply reads_all_bind
  | |- reads_all (rd_ret _) _ [] => apply reads_reads_all, reads_ret
  | |- reads_all (rd_expect_empty _) _ [] => apply reads_all_expect_empty
  | |- reads_all rd_rest _ _ => apply reads_all_rest
  end.

(** * The codec interface *)

(** [trait Codec] *)
Class Codec (A : Type) : Type := {
  encode : A → list byte → list byte;
  read : Rd A
}.

Definition get_encoding {A} `{Codec A} (a : A) : list byte := encode a [].

Definition read_bytes {A} `{Codec A} (bytes : list byte) : res InvalidMessage A :=
  (read (Reader_init bytes)).1.

(** What every codec promises: an encoder only appends, a decoder is safe. *)
Class CodecOk (A : Type) `{Codec A} : Type := {
  codec_wf : A → Prop;
  encode_get_encoding : ∀ (a : A) bs, encode a bs = bs ++ get_encoding a;
  read_safe : rd_safe (read (A := A))
}.

(** A self-delimiting codec finds the end of its value by itself; a trailing
    codec takes everything that is left. *)
Class Delimited (A : Type) `{CodecOk A} : Prop :=
  read_delimited : ∀ a : A, codec_wf a → reads read a (get_encoding a).
Class Trailing (A : Type) `{CodecOk A} : Prop :=
  read_trailing : ∀ a : A, codec_wf a → reads_all read a (get_encoding a).

#[export] Instance delimited_trailing A `{Delimited A} : Trailing A.
Proof. intros a Ha. by apply reads_reads_all, read_delimited. Qed.

Create Rewrite HintDb enc.
#[export] Hint Rewrite @encode_get_encoding using typeclasses eauto : enc.
#[export] Hint Extern 0 (rd_safe read) => apply read_safe : safe.

Lemma read_bytes_get_encoding {A} `{Trailing A} (a : A) :
  codec_wf a → read_bytes (get_encoding a) = Ok a.
Proof.
  intros Ha. unfold read_bytes, Reader_init.
  by rewrite (read_trailing a Ha _ 0); [| lia |].
Qed.

(** A self-delimiting encoding is a prefix code: decoding inverts encoding
    whatever comes after, so two values with a common extension are equal. *)
Lemma get_encoding_prefix_free {A} `{Delimited A} (a b : A) tl tl' :
  codec_wf a → codec_wf b →
  get_encoding a ++ tl = get_encoding b ++ tl' → a = b ∧ tl = tl'.
Proof.
  intros Ha Hb E.
  pose proof (read_delimited a Ha (get_encoding a ++ tl) 0 tl ltac:(lia) eq_refl) as Ra.
  pose proof (read_delimited b Hb (get_encoding a ++ tl) 0 tl' ltac:(lia) E) as Rb.
  rewrite Ra in Rb. injection Rb as -> _. split; [done|].
  by apply app_inv_head in E.
Qed.

(** The widths of the integer codecs. *)
Ltac pow256 :=
  change (256 ^ Z.of_nat 1)%Z with 256%Z in *;
  change (256 ^ Z.of_nat 2)%Z with 65536%Z in *;
  change (256 ^ Z.of_nat 3)%Z with 16777216%Z in *;
  change (256 ^ Z.of_nat 4)%Z with 4294967296%Z in *;
  change (256 ^ Z.of_nat 8)%Z with 18446744073709551616%Z in *.

(** ** Integers *)

Definition u8_encode (v : Z) (bytes : list byte) : list byte := bytes ++ [byte_of v].
Definition u8_read : Rd Z :=
  let! o := rd_take 1 in
  match o with
  | Some [b] => rd_ret (byte_val b)
  | _ => rd_err (MissingData "u8")
  end.

(** [put_u16], [put_u64]: the first bytes of [out] are overwritten. *)
Definition put_u16 (v : Z) (out : list byte) : list byte := splice 0 (to_be 2 v) out.
Definition put_u64 (v : Z) (out : list byte) : list byte := splice 0 (to_be 8 v) out.

Definition u16_encode (v : Z) (bytes : list byte) : list byte :=
  bytes ++ put_u16 v (replicate 2 x00).
Definition u16_read : Rd Z :=
  let! o := rd_take 2 in
  match o with
  | Some [b1; b2] => rd_ret (from_be [b1; b2])
  | _ => rd_err (MissingData "u8")
  end.

(** [u24] is a [u32] of which the low three bytes go on the wire. *)
Definition u24_encode (v : Z) (bytes : list byte) : list byte := bytes ++ drop 1 (to_be 4 v).
Definition u24_read : Rd Z :=
  let! o := rd_take 3 in
  match o with
  | Some [a; b; c] => rd_ret (from_be [x00; a; b; c])
  | _ => rd_err (MissingData "u24")
  end.

Definition u32_encode (v : Z) (bytes : list byte) : list byte := bytes ++ to_be 4 v.
Definition u32_read : Rd Z :=
  let! o := rd_take 4 in
  match o with
  | Some [a; b; c; d] => rd_ret (from_be [a; b; c; d])
  | _ => rd_err (MissingData "u32")
  end.

Definition u64_encode (v : Z) (bytes : list byte) : list byte :=
  bytes ++ put_u64 v (replicate 8 x00).
Definition u64_read : Rd Z :=
  let! o := rd_take 8 in
  match o with
  | Some [a; b; c; d; e; f; g; h] => rd_ret (from_be [a; b; c; d; e; f; g; h])
  | _ => rd_err (MissingData "u64")
  end.

(** The encoders append the big-endian bytes. *)
Lemma u8_encode_eq v bs : u8_encode v bs = bs ++ to_be 1 v.
Proof. unfold u8_encode. simpl. by rewrite Z.div_1_r. Qed.
Lemma u16_encode_eq v bs : u16_encode v bs = bs ++ to_be 2 v.
Proof. done. Qed.
Lemma u24_encode_eq v bs : u24_encode v bs = bs ++ to_be 3 v.
Proof. done. Qed.
Lemma u32_encode_eq v bs : u32_encode v bs = bs ++ to_be 4 v.
Proof. done. Qed.
Lemma u64_encode_eq v bs : u64_encode v bs = bs ++ to_be 8 v.
Proof. done. Qed.
#[export] Hint Rewrite u8_encode_eq u16_encode_eq u24_encode_eq u32_encode_eq
  u64_encode_eq : enc.

(** All the integer decoders have one shape. *)
Definition int_reader (n : nat) (m : Rd Z) : Prop :=
  ∃ e, ∀ r, m r = (let! o := rd_take n in
    match o with Some bs => rd_ret (from_be bs) | None => rd_err e end) r.

Lemma Reader_take_length n r bs r' : Reader_take n r = (Some bs, r') → length bs = n.
Proof.
  unfold Reader_take, Reader_left. case_bool_decide; [done|].
  intros [= <- _]. rewrite length_take, length_drop. lia.
Qed.

Ltac int_reader_tac e :=
  exists e; intros r;
  unfold u8_read, u16_read, u24_read, u32_read, u64_read, rd_bind, rd_take;
  destruct (Reader_take _ r) as [[bs|] r'] eqn:E; [|done];
  apply Reader_take_length in E;
  repeat (destruct bs as [|? bs]; simpl in E; [try lia|try lia]);
  cbv [from_be fold_left rd_ret u8_read u16_read u24_read u32_read u64_read] in *;
  reflexivity.

Lemma u8_reader : int_reader 1 u8_read. Proof. int_reader_tac (MissingData "u8"). Qed.
Lemma u16_reader : int_reader 2 u16_read. Proof. int_reader_tac (MissingData "u8"). Qed.
Lemma u24_reader : int_reader 3 u24_read. Proof. int_reader_tac (MissingData "u24"). Qed.
Lemma u32_reader : int_reader 4 u32_read. Proof. int_reader_tac (MissingData "u32"). Qed.
Lemma u64_reader : int_reader 8 u64_read. Proof. int_reader_tac (MissingData "u64"). Qed.

Lemma rd_safe_ext {A} (m m' : Rd A) : (∀ r, m r = m' r) → rd_safe m' → rd_safe m.
Proof. intros He Hs r Hr. rewrite He. by apply Hs. Qed.

Lemma int_reader_safe n m : int_reader n m → rd_safe m.
Proof.
  intros [e He]. eapply rd_safe_ext; [exact He|].
  apply rd_safe_bind; [auto with safe|]. intros [bs|]; auto with safe.
Qed.

Lemma int_reader_progress n m : 0 < n → int_reader n m → rd_progress m.
Proof.
  intros Hn [e He] r a Hr. rewrite He. unfold rd_bind, rd_take, Reader_take.
  case_bool_decide; simpl; [done|]. intros _. lia.
Qed.

Lemma int_reader_reads n m v bs :
  int_reader n m → length bs = n → from_be bs = v → reads m v bs.
Proof.
  intros [e He] Hn Hv buf cur tl Hc Hd. rewrite He.
  unfold rd_bind. rewrite (reads_take n bs Hn _ _ _ Hc Hd). by subst.
Qed.

Lemma int_reader_to_be n m v :
  int_reader n m → (0 ≤ v < 256 ^ Z.of_nat n)%Z → reads m v (to_be n v).
Proof.
  intros Hm Hv. eapply int_reader_reads; [done|apply length_to_be|by apply from_to_be_small].
Qed.

Create HintDb reads discriminated.
#[export] Hint Extern 0 (rd_safe u8_read) => apply (int_reader_safe _ _ u8_reader) : safe.
#[export] Hint Extern 0 (rd_safe u16_read) => apply (int_reader_safe _ _ u16_reader) : safe.
#[export] Hint Extern 0 (rd_safe u24_read) => apply (int_reader_safe _ _ u24_reader) : safe.
#[export] Hint Extern 0 (rd_safe u32_read) => apply (int_reader_safe _ _ u32_reader) : safe.
#[export] Hint Extern 0 (rd_safe u64_read) => apply (int_reader_safe _ _ u64_reader) : safe.
#[export] Hint Resolve u8_reader u16_reader u24_reader u32_reader u64_reader : reads.

(** * Length-prefixed lists *)

(** [enum ListLength] and [trait TlsListElement] *)
Inductive ListLength : Type := LenU8 | LenU16 | LenU24 (max : nat).

Class TlsListElement (A : Type) : Type := SIZE_LEN : ListLength.

Definition prefix_size (sl : ListLength) : nat :=
  match sl with LenU8 => 1 | LenU16 => 2 | LenU24 _ => 3 end.

(** [impl Codec for Vec<T>], [encode]: room for the length, the elements, and
    then the length written over its room. *)
Definition Vec_encode {A} `{Codec A, TlsListElement A} (l : list A) (bytes : list byte)
    : list byte :=
  let len_offset := length bytes in
  let bytes := bytes ++ match SIZE_LEN (A := A) with
    | LenU8 => [x00]
    | LenU16 => [x00; x00]
    | LenU24 _ => [x00; x00; x00]
    end in
  let bytes := fold_left (λ bs i, encode i bs) l bytes in
  match SIZE_LEN (A := A) with
  | LenU8 =>
      let len := length bytes - len_offset - 1 in
      <[len_offset := byte_of (Z.of_nat len)]> bytes
  | LenU16 =>
      let len := length bytes - len_offset - 2 in
      splice len_offset (to_be 2 (Z.of_nat len)) bytes
  | LenU24 _ =>
      let len := length bytes - len_offset - 3 in
      splice len_offset (drop 1 (to_be 4 (Z.of_nat len))) bytes
  end.

(** [while sub.any_left() { ret.push(T::read(&mut sub)?) }] *)
Fixpoint read_while_left {A} `{Codec A} (fuel : nat) (ret : list A) : Rd (list A) :=
  match fuel with
  | O => λ r, (NoFuel, r)
  | S fuel' =>
      let! any := rd_any_left in
      if any then
        let! x := read in
        read_while_left fuel' (ret ++ [x])
      else rd_ret ret
  end.

Definition Vec_read_len (sl : ListLength) : Rd nat :=
  match sl with
  | LenU8 => let! v := u8_read in rd_ret (Z.to_nat v)
  | LenU16 => let! v := u16_read in rd_ret (Z.to_nat v)
  | LenU24 max => let! v := u24_read in rd_ret (Z.to_nat v `min` max)
  end.

(** [impl Codec for Vec<T>], [read].  Each element consumes a byte, so one
    more iteration than there are bytes is enough fuel. *)
Definition Vec_read {A} `{Codec A, TlsListElement A} : Rd (list A) :=
  let! len := Vec_read_len (SIZE_LEN (A := A)) in
  rd_sub len (λ sub, read_while_left (S (Reader_left sub)) [] sub).

#[export] Instance Vec_codec A `{Codec A, TlsListElement A} : Codec (list A) :=
  {| encode := Vec_encode; read := Vec_read |}.

(** What a list needs of its elements: every element read takes a byte. *)
Class ListElementOk (A : Type) `{CodecOk A} : Prop :=
  read_progress : rd_progress (read (A := A)).

(** The longest body a list can have and be read back. *)
Definition max_body (sl : ListLength) : nat :=
  match sl with LenU8 => Z.to_nat 255 | LenU16 => Z.to_nat 65535
  | LenU24 max => Z.to_nat 16777215 `min` max end.

Definition Vec_body {A} `{Codec A} (l : list A) : list byte := mjoin (get_encoding <$> l).

Lemma Vec_body_cons {A} `{Codec A} (x : A) (l : list A) :
  Vec_body (x :: l) = get_encoding x ++ Vec_body l.
Proof. done. Qed.

Section vec_laws.
Context {A : Type} `{CodecOk A} `{!TlsListElement A}.

Lemma Vec_fold_body (l : list A) bs :
  fold_left (λ bs i, encode i bs) l bs = bs ++ Vec_body l.
Proof.
  revert bs. induction l as [|x l IH]; intros bs; simpl.
  - unfold Vec_body. simpl. by rewrite app_nil_r.
  - rewrite IH, encode_get_encoding, <- app_assoc. done.
Qed.

Lemma Vec_encode_eq (l : list A) bs :
  Vec_encode l bs
  = bs ++ to_be (prefix_size (SIZE_LEN (A := A))) (Z.of_nat (length (Vec_body l)))
       ++ Vec_body l.
Proof.
  unfold Vec_encode. rewrite !Vec_fold_body.
  destruct (SIZE_LEN (A := A)); cbn [prefix_size];
    rewrite <- ?app_assoc, !length_app; cbn [length];
    match goal with |- context [Z.of_nat (?x + (?k + ?y) - ?x - ?k)] =>
      replace (x + (k + y) - x - k) with y by lia end.
  - rewrite insert_app_r_alt by lia. rewrite Nat.sub_diag. simpl. by rewrite Z.div_1_r.
  - by apply (splice_app bs [x00; x00]).
  - by apply (splice_app bs [x00; x00; x00]).
Qed.

Lemma Vec_get_encoding (l : list A) :
  get_encoding l
  = to_be (prefix_size (SIZE_LEN (A := A))) (Z.of_nat (length (Vec_body l))) ++ Vec_body l.
Proof. apply (Vec_encode_eq l []). Qed.

Lemma rd_bind_any_left {B} (k : bool → Rd B) r :
  rd_bind rd_any_left k r = k (Reader_any_left r) r.
Proof. done. Qed.

Lemma Vec_get_encoding_nonempty (l : list A) : get_encoding l ≠ [].
Proof.
  rewrite Vec_get_encoding. intros E%(f_equal length).
  rewrite length_app, length_to_be in E. by destruct (SIZE_LEN (A := A)).
Qed.

Lemma read_while_left_safe `{!ListElementOk A} fuel ret r :
  Reader_wf r → Reader_left r < fuel →
  returned (read_while_left fuel ret r).1 ∧
  buffer (read_while_left fuel ret r).2 = buffer r ∧
  cursor r ≤ cursor (read_while_left fuel ret r).2 ≤ length (buffer r).
Proof.
  revert ret r. induction fuel as [|fuel IH]; intros ret r Hr Hf; [lia|].
  simpl. rewrite rd_bind_any_left.
  destruct (Reader_any_left r); [|by apply rd_safe_ret].
  unfold rd_bind. pose proof (read_safe (A := A) r Hr) as Hs.
  pose proof (λ a, read_progress (A := A) r a Hr) as Hp.
  destruct (read r) as [[a| | |] r'] eqn:E; cbn [fst snd] in *; try tauto.
  destruct Hs as (_ & Hb & Hc). specialize (Hp a eq_refl).
  assert (Hr' : Reader_wf r') by (unfold Reader_wf; rewrite Hb; lia).
  destruct (IH (ret ++ [a]) r' Hr') as (? & Hb' & Hc').
  { unfold Reader_left in *. rewrite Hb. lia. }
  rewrite Hb', Hb in *. auto with lia.
Qed.

Lemma Vec_read_len_safe sl : rd_safe (Vec_read_len sl).
Proof. destruct sl; apply rd_safe_bind; auto with safe. Qed.

Lemma Vec_read_safe `{!ListElementOk A} : rd_safe (Vec_read (A := A)).
Proof.
  apply rd_safe_bind; [apply Vec_read_len_safe|]. intros len. apply rd_safe_sub.
  intros r Hr. apply read_while_left_safe; [done|lia].
Qed.

#[export] Instance Vec_codec_ok `{!ListElementOk A} : CodecOk (list A) := {|
  codec_wf l := Forall codec_wf l ∧ length (Vec_body l) ≤ max_body (SIZE_LEN (A := A));
  encode_get_encoding l bs := eq_trans (Vec_encode_eq l bs)
    (f_equal (app bs) (eq_sym (Vec_get_encoding l)));
  read_safe := Vec_read_safe
|}.

(** An element encoding is not empty, because its decoder makes progress. *)
Lemma element_nonempty `{!ListElementOk A} `{!Delimited A} (a : A) :
  codec_wf a → get_encoding a ≠ [].
Proof.
  intros Ha E. pose proof (read_delimited a Ha [] 0 [] ltac:(simpl; lia)) as Hr.
  rewrite E in Hr. specialize (Hr eq_refl).
  pose proof (read_progress (A := A) (mkReader [] 0) a ltac:(unfold Reader_wf; simpl; lia)) as Hp.
  rewrite Hr in Hp. specialize (Hp eq_refl). simpl in Hp. lia.
Qed.

Lemma read_while_left_reads `{!ListElementOk A} `{!Delimited A} (l : list A) :
  Forall codec_wf l → ∀ fuel ret,
  length (Vec_body l) < fuel →
  reads_all (read_while_left fuel ret) (ret ++ l) (Vec_body l).
Proof.
  induction 1 as [|x l Hx Hl IH]; intros fuel ret Hf; destruct fuel as [|fuel]; try lia;
    cbn [read_while_left].
  - apply reads_all_any_left. rewrite app_nil_r. simpl. apply reads_reads_all, reads_ret.
  - apply reads_all_any_left. rewrite Vec_body_cons in *. rewrite length_app in Hf.
    pose proof (element_nonempty x Hx) as Hne.
    rewrite bool_decide_true by (by destruct (get_encoding x)).
    eapply reads_all_bind; [by apply read_delimited|].
    replace (ret ++ x :: l) with ((ret ++ [x]) ++ l) by (by rewrite <- app_assoc).
    apply IH.
    destruct (get_encoding x); [done|]. simpl in Hf. lia.
Qed.

Lemma Vec_read_len_reads sl n :
  n ≤ max_body sl → reads (Vec_read_len sl) n (to_be (prefix_size sl) (Z.of_nat n)).
Proof.
  intros Hn. destruct sl; unfold Vec_read_len; cbn [prefix_size max_body] in *;
    rewrite <- (app_nil_r (to_be _ _)); (eapply reads_bind;
    [eapply int_reader_to_be; [eauto with reads|pow256; lia]|]); cbv beta; rewrite Nat2Z.id.
  - apply reads_ret.
  - apply reads_ret.
  - rewrite Nat.min_l by lia. apply reads_ret.
Qed.

(** Lists round-trip: this is all their elements' codecs promise. *)
#[export] Instance Vec_delimited `{!ListElementOk A} `{!Delimited A} : Delimited (list A).
Proof.
  intros l [Hl Hlen]. rewrite Vec_get_encoding. simpl read. unfold Vec_read.
  eapply reads_bind; [by apply Vec_read_len_reads|].
  apply reads_sub; [done|]. intros buf cur Hc Hd.
  assert (E : Reader_left (mkReader buf cur) = length (Vec_body l)).
  { unfold Reader_left. simpl. rewrite <- length_drop. by rewrite Hd. }
  rewrite E. by apply (read_while_left_reads l Hl (S (length (Vec_body l))) []); [lia| |].
Qed.
End vec_laws.


(** [rd_map f m]: a value wrapped in a constructor. *)
Definition rd_map {A B} (f : A → B) (m : Rd A) : Rd B := let! x := m in rd_ret (f x).

Lemma rd_map_safe {A B} (f : A → B) m : rd_safe m → rd_safe (rd_map f m).
Proof. intros. unfold rd_map. auto with safe. Qed.
#[export] Hint Resolve rd_map_safe : safe.

Lemma reads_all_map {A B} (f : A → B) m a bs :
  reads_all m a bs → reads_all (rd_map f m) (f a) bs.
Proof. intros. eapply reads_all_bind_end; [done|]. apply reads_reads_all, reads_ret. Qed.

Lemma reads_map {A B} (f : A → B) m a bs : reads m a bs → reads (rd_map f m) (f a) bs.
Proof. intros. rewrite <- (app_nil_r bs). eapply reads_bind; [done|apply reads_ret]. Qed.

(** * Codecs of structs

    [codec_ok wf enc rd] proves the laws of an encoder that concatenates and a
    decoder that is a sequence of decoders; [delimited_by enc rd] and
    [trailing_by enc rd] follow the sequence field by field. *)
#[export] Hint Rewrite to_be_as_u8 to_be_as_u16 to_be_as_u32 : enc.

Ltac enc_norm := autorewrite with enc; rewrite ?app_nil_l, <- ?app_assoc.

(** The encoder appends: both sides are the concatenation of the fields. *)
Ltac encode_appends enc :=
  intros ? ?; unfold get_encoding;
  match goal with
  | |- encode ?a ?bs = _ => change (enc a bs = app bs (enc a nil))
  end; unfold enc; cbv zeta; enc_norm; try reflexivity.

(** The same for one variant of a sum. *)
Ltac encode_sum enc :=
  unfold get_encoding;
  match goal with
  | |- encode ?a ?bs = _ => change (enc a bs = app bs (enc a nil))
  end; unfold enc; cbv zeta; enc_norm.

Ltac safe_by rd :=
  match goal with |- rd_safe _ => change (rd_safe rd) end; unfold rd; eauto 20 with safe.

Tactic Notation "codec_ok" constr(wf) constr(enc) constr(rd) :=
  refine (Build_CodecOk _ _ wf _ _);
  [abstract (encode_appends enc) | abstract (safe_by rd)].

Ltac read_field :=
  first
  [ apply read_delimited; assumption
  | eapply int_reader_to_be; [solve [auto with reads]|pow256; (assumption || lia)]
  | apply reads_take; assumption
  | apply reads_sub; [try lia; try done|] ].

Ltac delimited_by wf enc rd :=
  let x := fresh "x" in let Hx := fresh "Hx" in
  intros x Hx; change (wf x) in Hx;
  (change (reads rd x (enc x nil)) || change (reads_all rd x (enc x nil)));
  unfold wf, enc, rd in *; cbv zeta beta; destruct_and?;
  enc_norm;
  match goal with
  | |- reads _ _ ?bs => rewrite <- (app_nil_r bs)
  | |- reads_all _ _ ?bs => idtac
  end; rewrite <- ?app_assoc;
  repeat (reads_step; [read_field|]); cbv beta;
  try (destruct x; reads_step).
