(* ===== verification/TlsEnums.v ===== *)
(** The enumerations of the TLS protocol (rustls-0.21.2/rustls/src/enums.rs and
    msgs/enums.rs) and the macro that defines them (msgs/macros.rs).

    [enum_builder!] turns a table of names and numbers into an enum with an
    [Unknown] variant, its number function, its conversion from a number and its
    [Codec].  [EnumBuilder] is the input of the macro and the generic
    definitions below are its output; one Module per invocation gives the table. *)
From Stdlib Require Import ZArith Lia Strings.Byte String.
From stdpp Require Import base list numbers option.
From S2P Require Import Prelude.
From S2P Require Import Codec.
Open Scope rust_scope.

(** * The macro *)

(** The [@U8] and [@U16] arms. *)
Inductive enum_arm : Type := W8 | W16.

Class EnumBuilder (T : Type) : Type := {
  enum_width : enum_arm;
  enum_name : string;
  enum_vals : list (T * Z);
  enum_Unknown : Z → T;
  is_unknown : T → bool;
  get_val : T → Z
}.

(** [impl From<u8>] / [impl From<u16>]: the first arm with the number, else
    the [Unknown] variant. *)
Definition enum_from {T} `{EnumBuilder T} (x : Z) : T :=
  match list_find (λ p : T * Z, p.2 = x) enum_vals with
  | Some (_, (e, _)) => e
  | None => enum_Unknown x
  end.

(** [impl Codec]: any failure of the integer decoder is reported as missing
    data of this enum. *)
Definition enum_encode {T} `{EnumBuilder T} (x : T) (bytes : list byte) : list byte :=
  match enum_width (T := T) with
  | W8 => u8_encode (get_val x) bytes
  | W16 => u16_encode (get_val x) bytes
  end.

Definition enum_read {T} `{EnumBuilder T} : Rd T := λ r,
  match (match enum_width (T := T) with W8 => u8_read | W16 => u16_read end) r with
  | (Ok x, r') => (Ok (enum_from x), r')
  | (Err _, r') => (Err (MissingData (enum_name (T := T))), r')
  | (Panic, r') => (Panic, r')
  | (NoFuel, r') => (NoFuel, r')
  end.

#[export] Instance enum_codec T `{EnumBuilder T} : Codec T :=
  {| encode := enum_encode; read := enum_read |}.

(** ** Laws *)

(** The table and the number function agree, and every variant but [Unknown]
    is in the table. *)
Class EnumBuilderOk (T : Type) `{EnumBuilder T} : Prop := {
  vals_get_val : Forall (λ p : T * Z, get_val p.1 = p.2) enum_vals;
  get_val_Unknown : ∀ x, get_val (enum_Unknown (T := T) x) = x;
  unknown_Unknown : ∀ e : T, is_unknown e = true → e = enum_Unknown (get_val e);
  known_from : ∀ e : T, is_unknown e = false → enum_from (get_val e) = e
}.

Ltac enum_ok :=
  split;
  [ repeat constructor
  | intros; reflexivity
  | intros []; done || intros; reflexivity
  | intros []; done || intros; reflexivity ].

Definition enum_bytes (a : enum_arm) : nat := match a with W8 => 1 | W16 => 2 end.

Lemma enum_bytes_pos a : 0 < enum_bytes a.
Proof. destruct a; simpl; lia. Qed.

(** The values of the enum that a decoder produces: an [Unknown] carries a
    number that fits and that no other variant has. *)
Definition enum_wf {T} `{EnumBuilder T} (e : T) : Prop :=
  (0 ≤ get_val e < 256 ^ Z.of_nat (enum_bytes (enum_width (T := T))))%Z ∧
  enum_from (get_val e) = e.

Section enum_laws.
Context {T : Type} `{EnumBuilderOk T}.

Lemma get_val_from x : get_val (enum_from (T := T) x) = x.
Proof.
  unfold enum_from. destruct (list_find _ _) as [[i [e v]]|] eqn:E.
  - apply list_find_Some in E as (Hi & Hv & _). simpl in Hv. subst v.
    pose proof (vals_get_val (T := T)) as Hall. rewrite Forall_lookup in Hall.
    by specialize (Hall _ _ Hi).
  - apply get_val_Unknown.
Qed.

Lemma enum_from_inj x y : enum_from (T := T) x = enum_from y → x = y.
Proof. intros E. by rewrite <- (get_val_from x), <- (get_val_from y), E. Qed.

#[export] Instance enum_eq_dec : EqDecision T.
Proof.
  intros x y.
  destruct (decide (get_val x = get_val y)) as [E|E]; [|right; congruence].
  destruct (is_unknown x) eqn:Hx, (is_unknown y) eqn:Hy; try (right; congruence).
  - left. rewrite (unknown_Unknown x Hx), (unknown_Unknown y Hy). by rewrite E.
  - left. by rewrite <- (known_from x Hx), <- (known_from y Hy), E.
Defined.

Lemma enum_reader :
  int_reader (enum_bytes (enum_width (T := T)))
    (match enum_width (T := T) with W8 => u8_read | W16 => u16_read end).
Proof. destruct (enum_width (T := T)); auto with reads. Qed.

Lemma enum_encode_eq (x : T) bs :
  enum_encode x bs = bs ++ to_be (enum_bytes (enum_width (T := T))) (get_val x).
Proof.
  unfold enum_encode. destruct (enum_width (T := T)); by autorewrite with enc.
Qed.

Lemma enum_read_safe : rd_safe (enum_read (T := T)).
Proof.
  intros r Hr. pose proof (int_reader_safe _ _ enum_reader r Hr) as Hs.
  unfold enum_read. by destruct (_ r) as [[]].
Qed.

#[export] Instance enum_codec_ok : CodecOk T := {|
  codec_wf := enum_wf;
  encode_get_encoding x bs := eq_trans (enum_encode_eq x bs)
    (f_equal (app bs) (eq_sym (enum_encode_eq x [])));
  read_safe := enum_read_safe
|}.

Lemma enum_get_encoding (x : T) :
  get_encoding x = to_be (enum_bytes (enum_width (T := T))) (get_val x).
Proof. apply (enum_encode_eq x []). Qed.

#[export] Instance enum_delimited : Delimited T.
Proof.
  intros x [Hv Hx] buf cur tl Hc Hd. rewrite enum_get_encoding in *. simpl. unfold enum_read.
  rewrite (int_reader_to_be _ _ (get_val x) enum_reader Hv _ _ _ Hc Hd). by rewrite Hx.
Qed.

#[export] Instance enum_list_element : ListElementOk T.
Proof.
  intros r a Hr. simpl. unfold enum_read.
  pose proof (int_reader_progress _ _ (enum_bytes_pos (enum_width (T := T))) enum_reader r) as Hp.
  destruct (_ r) as [[v| | |] r'] eqn:E; simpl in *; try done.
  intros _. by apply (Hp v).
Qed.

(** A decoded enum is a value of the enum that a decoder can produce. *)
Lemma enum_from_wf x :
  (0 ≤ x < 256 ^ Z.of_nat (enum_bytes (enum_width (T := T))))%Z → enum_wf (enum_from (T := T) x).
Proof. intros Hx. split; by rewrite get_val_from. Qed.
End enum_laws.

(** A named variant is well formed: decided by computation. *)
Ltac enum_wf_tac := split; [vm_compute; split; congruence | reflexivity].

(** * The tables *)

Module AlertDescription.
Inductive AlertDescription : Type :=
  | CloseNotify
  | UnexpectedMessage
  | BadRecordMac
  | DecryptionFailed
  | RecordOverflow
  | DecompressionFailure
  | HandshakeFailure
  | NoCertificate
  | BadCertificate
  | UnsupportedCertificate
  | CertificateRevoked
  | CertificateExpired
  | CertificateUnknown
  | IllegalParameter
  | UnknownCA
  | AccessDenied
  | DecodeError
  | DecryptError
  | ExportRestriction
  | ProtocolVersion
  | InsufficientSecurity
  | InternalError
  | InappropriateFallback
  | UserCanceled
  | NoRenegotiation
  | MissingExtension
  | UnsupportedExtension
  | CertificateUnobtainable
  | UnrecognisedName
  | BadCertificateStatusResponse
  | BadCertificateHashValue
  | UnknownPSKIdentity
  | CertificateRequired
  | NoApplicationProtocol
  | Unknown (x : Z).

Definition AlertDescription_get_u8 (x : AlertDescription) : Z :=
  match x with
  | CloseNotify => 0x00
  | UnexpectedMessage => 0x0a
  | BadRecordMac => 0x14
  | DecryptionFailed => 0x15
  | RecordOverflow => 0x16
  | DecompressionFailure => 0x1e
  | HandshakeFailure => 0x28
  | NoCertificate => 0x29
  | BadCertificate => 0x2a
  | UnsupportedCertificate => 0x2b
  | CertificateRevoked => 0x2c
  | CertificateExpired => 0x2d
  | CertificateUnknown => 0x2e
  | IllegalParameter => 0x2f
  | UnknownCA => 0x30
  | AccessDenied => 0x31
  | DecodeError => 0x32
  | DecryptError => 0x33
  | ExportRestriction => 0x3c
  | ProtocolVersion => 0x46
  | InsufficientSecurity => 0x47
  | InternalError => 0x50
  | InappropriateFallback => 0x56
  | UserCanceled => 0x5a
  | NoRenegotiation => 0x64
  | MissingExtension => 0x6d
  | UnsupportedExtension => 0x6e
  | CertificateUnobtainable => 0x6f
  | UnrecognisedName => 0x70
  | BadCertificateStatusResponse => 0x71
  | BadCertificateHashValue => 0x72
  | UnknownPSKIdentity => 0x73
  | CertificateRequired => 0x74
  | NoApplicationProtocol => 0x78
  | Unknown x => x
  end%Z.

Definition AlertDescription_vals : list (AlertDescription * Z) :=
  [(CloseNotify, 0x00);
   (UnexpectedMessage, 0x0a);
   (BadRecordMac, 0x14);
   (DecryptionFailed, 0x15);
   (RecordOverflow, 0x16);
   (DecompressionFailure, 0x1e);
   (HandshakeFailure, 0x28);
   (NoCertificate, 0x29);
   (BadCertificate, 0x2a);
   (UnsupportedCertificate, 0x2b);
   (CertificateRevoked, 0x2c);
   (CertificateExpired, 0x2d);
   (CertificateUnknown, 0x2e);
   (IllegalParameter, 0x2f);
   (UnknownCA, 0x30);
   (AccessDenied, 0x31);
   (DecodeError, 0x32);
   (DecryptError, 0x33);
   (ExportRestriction, 0x3c);
   (ProtocolVersion, 0x46);
   (InsufficientSecurity, 0x47);
   (InternalError, 0x50);
   (InappropriateFallback, 0x56);
   (UserCanceled, 0x5a);
   (NoRenegotiation, 0x64);
   (MissingExtension, 0x6d);
   (UnsupportedExtension, 0x6e);
   (CertificateUnobtainable, 0x6f);
   (UnrecognisedName, 0x70);
   (BadCertificateStatusResponse, 0x71);
   (BadCertificateHashValue, 0x72);
   (UnknownPSKIdentity, 0x73);
   (CertificateRequired, 0x74);
   (NoApplicationProtocol, 0x78)]%Z.

#[global] Instance AlertDescription_enum : EnumBuilder AlertDescription := {|
  enum_width := W8;
  enum_name := "AlertDescription";
  enum_vals := AlertDescription_vals;
  enum_Unknown := Unknown;
  is_unknown x := match x with Unknown _ => true | _ => false end;
  get_val := AlertDescription_get_u8
|}.

#[global] Instance AlertDescription_enum_ok : EnumBuilderOk AlertDescription.
Proof. enum_ok. Qed.
End AlertDescription.
Abbreviation AlertDescription := AlertDescription.AlertDescription.

Module HandshakeType.
Inductive HandshakeType : Type :=
  | HelloRequest
  | ClientHello
  | ServerHello
  | HelloVerifyRequest
  | NewSessionTicket
  | EndOfEarlyData
  | HelloRetryRequest
  | EncryptedExtensions
  | Certificate
  | ServerKeyExchange
  | CertificateRequest
  | ServerHelloDone
  | CertificateVerify
  | ClientKeyExchange
  | Finished
  | CertificateURL
  | CertificateStatus
  | KeyUpdate
  | MessageHash
  | Unknown (x : Z).

Definition HandshakeType_get_u8 (x : HandshakeType) : Z :=
  match x with
  | HelloRequest => 0x00
  | ClientHello => 0x01
  | ServerHello => 0x02
  | HelloVerifyRequest => 0x03
  | NewSessionTicket => 0x04
  | EndOfEarlyData => 0x05
  | HelloRetryRequest => 0x06
  | EncryptedExtensions => 0x08
  | Certificate => 0x0b
  | ServerKeyExchange => 0x0c
  | CertificateRequest => 0x0d
  | ServerHelloDone => 0x0e
  | CertificateVerify => 0x0f
  | ClientKeyExchange => 0x10
  | Finished => 0x14
  | CertificateURL => 0x15
  | CertificateStatus => 0x16
  | KeyUpdate => 0x18
  | MessageHash => 0xfe
  | Unknown x => x
  end%Z.

Definition HandshakeType_vals : list (HandshakeType * Z) :=
  [(HelloRequest, 0x00);
   (ClientHello, 0x01);
   (ServerHello, 0x02);
   (HelloVerifyRequest, 0x03);
   (NewSessionTicket, 0x04);
   (EndOfEarlyData, 0x05);
   (HelloRetryRequest, 0x06);
   (EncryptedExtensions, 0x08);
   (Certificate, 0x0b);
   (ServerKeyExchange, 0x0c);
   (CertificateRequest, 0x0d);
   (ServerHelloDone, 0x0e);
   (CertificateVerify, 0x0f);
   (ClientKeyExchange, 0x10);
   (Finished, 0x14);
   (CertificateURL, 0x15);
   (CertificateStatus, 0x16);
   (KeyUpdate, 0x18);
   (MessageHash, 0xfe)]%Z.

#[global] Instance HandshakeType_enum : EnumBuilder HandshakeType := {|
  enum_width := W8;
  enum_name := "HandshakeType";
  enum_vals := HandshakeType_vals;
  enum_Unknown := Unknown;
  is_unknown x := match x with Unknown _ => true | _ => false end;
  get_val := HandshakeType_get_u8
|}.

#[global] Instance HandshakeType_enum_ok : EnumBuilderOk HandshakeType.
Proof. enum_ok. Qed.
End HandshakeType.
Abbreviation HandshakeType := HandshakeType.HandshakeType.

Module ContentType.
Inductive ContentType : Type :=
  | ChangeCipherSpec
  | Alert
  | Handshake
  | ApplicationData
  | Heartbeat
  | Unknown (x : Z).

Definition ContentType_get_u8 (x : ContentType) : Z :=
  match x with
  | ChangeCipherSpec => 0x14
  | Alert => 0x15
  | Handshake => 0x16
  | ApplicationData => 0x17
  | Heartbeat => 0x18
  | Unknown x => x
  end%Z.

Definition ContentType_vals : list (ContentType * Z) :=
  [(ChangeCipherSpec, 0x14);
   (Alert, 0x15);
   (Handshake, 0x16);
   (ApplicationData, 0x17);
   (Heartbeat, 0x18)]%Z.

#[global] Instance ContentType_enum : EnumBuilder ContentType := {|
  enum_width := W8;
  enum_name := "ContentType";
  enum_vals := ContentType_vals;
  enum_Unknown := Unknown;
  is_unknown x := match x with Unknown _ => true | _ => false end;
  get_val := ContentType_get_u8
|}.

#[global] Instance ContentType_enum_ok : EnumBuilderOk ContentType.
Proof. enum_ok. Qed.
End ContentType.
Abbreviation ContentType := ContentType.ContentType.

Module ProtocolVersion.
Inductive ProtocolVersion : Type :=
  | SSLv2
  | SSLv3
  | TLSv1_0
  | TLSv1_1
  | TLSv1_2
  | TLSv1_3
  | DTLSv1_0
  | DTLSv1_2
  | DTLSv1_3
  | Unknown (x : Z).

Definition ProtocolVersion_get_u16 (x : ProtocolVersion) : Z :=
  match x with
  | SSLv2 => 0x0200
  | SSLv3 => 0x0300
  | TLSv1_0 => 0x0301
  | TLSv1_1 => 0x0302
  | TLSv1_2 => 0x0303
  | TLSv1_3 => 0x0304
  | DTLSv1_0 => 0xFEFF
  | DTLSv1_2 => 0xFEFD
  | DTLSv1_3 => 0xFEFC
  | Unknown x => x
  end%Z.

Definition ProtocolVersion_vals : list (ProtocolVersion * Z) :=
  [(SSLv2, 0x0200);
   (SSLv3, 0x0300);
   (TLSv1_0, 0x0301);
   (TLSv1_1, 0x0302);
   (TLSv1_2, 0x0303);
   (TLSv1_3, 0x0304);
   (DTLSv1_0, 0xFEFF);
   (DTLSv1_2, 0xFEFD);
   (DTLSv1_3, 0xFEFC)]%Z.

#[global] Instance ProtocolVersion_enum : EnumBuilder ProtocolVersion := {|
  enum_width := W16;
  enum_name := "ProtocolVersion";
  enum_vals := ProtocolVersion_vals;
  enum_Unknown := Unknown;
  is_unknown x := match x with Unknown _ => true | _ => false end;
  get_val := ProtocolVersion_get_u16
|}.

#[global] Instance ProtocolVersion_enum_ok : EnumBuilderOk ProtocolVersion.
Proof. enum_ok. Qed.
End ProtocolVersion.
Abbreviation ProtocolVersion := ProtocolVersion.ProtocolVersion.

Module CipherSuite.
Inductive CipherSuite : Type :=
  | TLS_NULL_WITH_NULL_NULL
  | TLS_RSA_WITH_NULL_MD5
  | TLS_RSA_WITH_NULL_SHA
  | TLS_RSA_EXPORT_WITH_RC4_40_MD5
  | TLS_RSA_WITH_RC4_128_MD5
  | TLS_RSA_WITH_RC4_128_SHA
  | TLS_RSA_EXPORT_WITH_RC2_CBC_40_MD5
  | TLS_RSA_WITH_IDEA_CBC_SHA
  | TLS_RSA_EXPORT_WITH_DES40_CBC_SHA
  | TLS_RSA_WITH_DES_CBC_SHA
  | TLS_RSA_WITH_3DES_EDE_CBC_SHA
  | TLS_DH_DSS_EXPORT_WITH_DES40_CBC_SHA
  | TLS_DH_DSS_WITH_DES_CBC_SHA
  | TLS_DH_DSS_WITH_3DES_EDE_CBC_SHA
  | TLS_DH_RSA_EXPORT_WITH_DES40_CBC_SHA
  | TLS_DH_RSA_WITH_DES_CBC_SHA
  | TLS_DH_RSA_WITH_3DES_EDE_CBC_SHA
  | TLS_DHE_DSS_EXPORT_WITH_DES40_CBC_SHA
  | TLS_DHE_DSS_WITH_DES_CBC_SHA
  | TLS_DHE_DSS_WITH_3DES_EDE_CBC_SHA
  | TLS_DHE_RSA_EXPORT_WITH_DES40_CBC_SHA
  | TLS_DHE_RSA_WITH_DES_CBC_SHA
  | TLS_DHE_RSA_WITH_3DES_EDE_CBC_SHA
  | TLS_DH_anon_EXPORT_WITH_RC4_40_MD5
  | TLS_DH_anon_WITH_RC4_128_MD5
  | TLS_DH_anon_EXPORT_WITH_DES40_CBC_SHA
  | TLS_DH_anon_WITH_DES_CBC_SHA
  | TLS_DH_anon_WITH_3DES_EDE_CBC_SHA
  | SSL_FORTEZZA_KEA_WITH_NULL_SHA
  | SSL_FORTEZZA_KEA_WITH_FORTEZZA_CBC_SHA
  | TLS_KRB5_WITH_DES_CBC_SHA_or_SSL_FORTEZZA_KEA_WITH_RC4_128_SHA
  | TLS_KRB5_WITH_3DES_EDE_CBC_SHA
  | TLS_KRB5_WITH_RC4_128_SHA
  | TLS_KRB5_WITH_IDEA_CBC_SHA
  | TLS_KRB5_WITH_DES_CBC_MD5
  | TLS_KRB5_WITH_3DES_EDE_CBC_MD5
  | TLS_KRB5_WITH_RC4_128_MD5
  | TLS_KRB5_WITH_IDEA_CBC_MD5
  | TLS_KRB5_EXPORT_WITH_DES_CBC_40_SHA
  | TLS_KRB5_EXPORT_WITH_RC2_CBC_40_SHA
  | TLS_KRB5_EXPORT_WITH_RC4_40_SHA
  | TLS_KRB5_EXPORT_WITH_DES_CBC_40_MD5
  | TLS_KRB5_EXPORT_WITH_RC2_CBC_40_MD5
  | TLS_KRB5_EXPORT_WITH_RC4_40_MD5
  | TLS_PSK_WITH_NULL_SHA
  | TLS_DHE_PSK_WITH_NULL_SHA
  | TLS_RSA_PSK_WITH_NULL_SHA
  | TLS_RSA_WITH_AES_128_CBC_SHA
  | TLS_DH_DSS_WITH_AES_128_CBC_SHA
  | TLS_DH_RSA_WITH_AES_128_CBC_SHA
  | TLS_DHE_DSS_WITH_AES_128_CBC_SHA
  | TLS_DHE_RSA_WITH_AES_128_CBC_SHA
  | TLS_DH_anon_WITH_AES_128_CBC_SHA
  | TLS_RSA_WITH_AES_256_CBC_SHA
  | TLS_DH_DSS_WITH_AES_256_CBC_SHA
  | TLS_DH_RSA_WITH_AES_256_CBC_SHA
  | TLS_DHE_DSS_WITH_AES_256_CBC_SHA
  | TLS_DHE_RSA_WITH_AES_256_CBC_SHA
  | TLS_DH_anon_WITH_AES_256_CBC_SHA
  | TLS_RSA_WITH_NULL_SHA256
  | TLS_RSA_WITH_AES_128_CBC_SHA256
  | TLS_RSA_WITH_AES_256_CBC_SHA256
  | TLS_DH_DSS_WITH_AES_128_CBC_SHA256
  | TLS_DH_RSA_WITH_AES_128_CBC_SHA256
  | TLS_DHE_DSS_WITH_AES_128_CBC_SHA256
  | TLS_RSA_WITH_CAMELLIA_128_CBC_SHA
  | TLS_DH_DSS_WITH_CAMELLIA_128_CBC_SHA
  | TLS_DH_RSA_WITH_CAMELLIA_128_CBC_SHA
  | TLS_DHE_DSS_WITH_CAMELLIA_128_CBC_SHA
  | TLS_DHE_RSA_WITH_CAMELLIA_128_CBC_SHA
  | TLS_DH_anon_WITH_CAMELLIA_128_CBC_SHA
  | TLS_ECDH_ECDSA_WITH_NULL_SHA_draft
  | TLS_ECDH_ECDSA_WITH_RC4_128_SHA_draft
  | TLS_ECDH_ECDSA_WITH_DES_CBC_SHA_draft
  | TLS_ECDH_ECDSA_WITH_3DES_EDE_CBC_SHA_draft
  | TLS_ECDH_ECDSA_WITH_AES_128_CBC_SHA_draft
  | TLS_ECDH_ECDSA_WITH_AES_256_CBC_SHA_draft
  | TLS_ECDH_ECNRA_WITH_DES_CBC_SHA_draft
  | TLS_ECDH_ECNRA_WITH_3DES_EDE_CBC_SHA_draft
  | TLS_ECMQV_ECDSA_NULL_SHA_draft
  | TLS_ECMQV_ECDSA_WITH_RC4_128_SHA_draft
  | TLS_ECMQV_ECDSA_WITH_DES_CBC_SHA_draft
  | TLS_ECMQV_ECDSA_WITH_3DES_EDE_CBC_SHA_draft
  | TLS_ECMQV_ECNRA_NULL_SHA_draft
  | TLS_ECMQV_ECNRA_WITH_RC4_128_SHA_draft
  | TLS_ECMQV_ECNRA_WITH_DES_CBC_SHA_draft
  | TLS_ECMQV_ECNRA_WITH_3DES_EDE_CBC_SHA_draft
  | TLS_ECDH_anon_NULL_WITH_SHA_draft
  | TLS_ECDH_anon_WITH_RC4_128_SHA_draft
  | TLS_ECDH_anon_WITH_DES_CBC_SHA_draft
  | TLS_ECDH_anon_WITH_3DES_EDE_CBC_SHA_draft
  | TLS_ECDH_anon_EXPORT_WITH_DES40_CBC_SHA_draft
  | TLS_ECDH_anon_EXPORT_WITH_RC4_40_SHA_draft
  | TLS_RSA_EXPORT1024_WITH_RC4_56_MD5
  | TLS_RSA_EXPORT1024_WITH_RC2_CBC_56_MD5
  | TLS_RSA_EXPORT1024_WITH_DES_CBC_SHA
  | TLS_DHE_DSS_EXPORT1024_WITH_DES_CBC_SHA
  | TLS_RSA_EXPORT1024_WITH_RC4_56_SHA
  | TLS_DHE_DSS_EXPORT1024_WITH_RC4_56_SHA
  | TLS_DHE_DSS_WITH_RC4_128_SHA
  | TLS_DHE_RSA_WITH_AES_128_CBC_SHA256
  | TLS_DH_DSS_WITH_AES_256_CBC_SHA256
  | TLS_DH_RSA_WITH_AES_256_CBC_SHA256
  | TLS_DHE_DSS_WITH_AES_256_CBC_SHA256
  | TLS_DHE_RSA_WITH_AES_256_CBC_SHA256
  | TLS_DH_anon_WITH_AES_128_CBC_SHA256
  | TLS_DH_anon_WITH_AES_256_CBC_SHA256
  | TLS_DHE_DSS_WITH_3DES_EDE_CBC_RMD
  | TLS_DHE_DSS_WITH_AES_128_CBC_RMD
  | TLS_DHE_DSS_WITH_AES_256_CBC_RMD
  | TLS_DHE_RSA_WITH_3DES_EDE_CBC_RMD
  | TLS_DHE_RSA_WITH_AES_128_CBC_RMD
  | TLS_DHE_RSA_WITH_AES_256_CBC_RMD
  | TLS_RSA_WITH_3DES_EDE_CBC_RMD
  | TLS_RSA_WITH_AES_128_CBC_RMD
  | TLS_RSA_WITH_AES_256_CBC_RMD
  | TLS_GOSTR341094_WITH_28147_CNT_IMIT
  | TLS_GOSTR341001_WITH_28147_CNT_IMIT
  | TLS_GOSTR341094_WITH_NULL_GOSTR3411
  | TLS_GOSTR341001_WITH_NULL_GOSTR3411
  | TLS_RSA_WITH_CAMELLIA_256_CBC_SHA
  | TLS_DH_DSS_WITH_CAMELLIA_256_CBC_SHA
  | TLS_DH_RSA_WITH_CAMELLIA_256_CBC_SHA
  | TLS_DHE_DSS_WITH_CAMELLIA_256_CBC_SHA
  | TLS_DHE_RSA_WITH_CAMELLIA_256_CBC_SHA
  | TLS_DH_anon_WITH_CAMELLIA_256_CBC_SHA
  | TLS_PSK_WITH_RC4_128_SHA
  | TLS_PSK_WITH_3DES_EDE_CBC_SHA
  | TLS_PSK_WITH_AES_128_CBC_SHA
  | TLS_PSK_WITH_AES_256_CBC_SHA
  | TLS_DHE_PSK_WITH_RC4_128_SHA
  | TLS_DHE_PSK_WITH_3DES_EDE_CBC_SHA
  | TLS_DHE_PSK_WITH_AES_128_CBC_SHA
  | TLS_DHE_PSK_WITH_AES_256_CBC_SHA
  | TLS_RSA_PSK_WITH_RC4_128_SHA
  | TLS_RSA_PSK_WITH_3DES_EDE_CBC_SHA
  | TLS_RSA_PSK_WITH_AES_128_CBC_SHA
  | TLS_RSA_PSK_WITH_AES_256_CBC_SHA
  | TLS_RSA_WITH_SEED_CBC_SHA
  | TLS_DH_DSS_WITH_SEED_CBC_SHA
  | TLS_DH_RSA_WITH_SEED_CBC_SHA
  | TLS_DHE_DSS_WITH_SEED_CBC_SHA
  | TLS_DHE_RSA_WITH_SEED_CBC_SHA
  | TLS_DH_anon_WITH_SEED_CBC_SHA
  | TLS_RSA_WITH_AES_128_GCM_SHA256
  | TLS_RSA_WITH_AES_256_GCM_SHA384
  | TLS_DHE_RSA_WITH_AES_128_GCM_SHA256
  | TLS_DHE_RSA_WITH_AES_256_GCM_SHA384
  | TLS_DH_RSA_WITH_AES_128_GCM_SHA256
  | TLS_DH_RSA_WITH_AES_256_GCM_SHA384
  | TLS_DHE_DSS_WITH_AES_128_GCM_SHA256
  | TLS_DHE_DSS_WITH_AES_256_GCM_SHA384
  | TLS_DH_DSS_WITH_AES_128_GCM_SHA256
  | TLS_DH_DSS_WITH_AES_256_GCM_SHA384
  | TLS_DH_anon_WITH_AES_128_GCM_SHA256
  | TLS_DH_anon_WITH_AES_256_GCM_SHA384
  | TLS_PSK_WITH_AES_128_GCM_SHA256
  | TLS_PSK_WITH_AES_256_GCM_SHA384
  | TLS_DHE_PSK_WITH_AES_128_GCM_SHA256
  | TLS_DHE_PSK_WITH_AES_256_GCM_SHA384
  | TLS_RSA_PSK_WITH_AES_128_GCM_SHA256
  | TLS_RSA_PSK_WITH_AES_256_GCM_SHA384
  | TLS_PSK_WITH_AES_128_CBC_SHA256
  | TLS_PSK_WITH_AES_256_CBC_SHA384
  | TLS_PSK_WITH_NULL_SHA256
  | TLS_PSK_WITH_NULL_SHA384
  | TLS_DHE_PSK_WITH_AES_128_CBC_SHA256
  | TLS_DHE_PSK_WITH_AES_256_CBC_SHA384
  | TLS_DHE_PSK_WITH_NULL_SHA256
  | TLS_DHE_PSK_WITH_NULL_SHA384
  | TLS_RSA_PSK_WITH_AES_128_CBC_SHA256
  | TLS_RSA_PSK_WITH_AES_256_CBC_SHA384
  | TLS_RSA_PSK_WITH_NULL_SHA256
  | TLS_RSA_PSK_WITH_NULL_SHA384
  | TLS_RSA_WITH_CAMELLIA_128_CBC_SHA256
  | TLS_DH_DSS_WITH_CAMELLIA_128_CBC_SHA256
  | TLS_DH_RSA_WITH_CAMELLIA_128_CBC_SHA256
  | TLS_DHE_DSS_WITH_CAMELLIA_128_CBC_SHA256
  | TLS_DHE_RSA_WITH_CAMELLIA_128_CBC_SHA256
  | TLS_DH_anon_WITH_CAMELLIA_128_CBC_SHA256
  | TLS_RSA_WITH_CAMELLIA_256_CBC_SHA256
  | TLS_DH_DSS_WITH_CAMELLIA_256_CBC_SHA256
  | TLS_DH_RSA_WITH_CAMELLIA_256_CBC_SHA256
  | TLS_DHE_DSS_WITH_CAMELLIA_256_CBC_SHA256
  | TLS_DHE_RSA_WITH_CAMELLIA_256_CBC_SHA256
  | TLS_DH_anon_WITH_CAMELLIA_256_CBC_SHA256
  | TLS_EMPTY_RENEGOTIATION_INFO_SCSV
  | TLS13_AES_128_GCM_SHA256
  | TLS13_AES_256_GCM_SHA384
  | TLS13_CHACHA20_POLY1305_SHA256
  | TLS13_AES_128_CCM_SHA256
  | TLS13_AES_128_CCM_8_SHA256
  | TLS_ECDH_ECDSA_WITH_NULL_SHA
  | TLS_ECDH_ECDSA_WITH_RC4_128_SHA
  | TLS_ECDH_ECDSA_WITH_3DES_EDE_CBC_SHA
  | TLS_ECDH_ECDSA_WITH_AES_128_CBC_SHA
  | TLS_ECDH_ECDSA_WITH_AES_256_CBC_SHA
  | TLS_ECDHE_ECDSA_WITH_NULL_SHA
  | TLS_ECDHE_ECDSA_WITH_RC4_128_SHA
  | TLS_ECDHE_ECDSA_WITH_3DES_EDE_CBC_SHA
  | TLS_ECDHE_ECDSA_WITH_AES_128_CBC_SHA
  | TLS_ECDHE_ECDSA_WITH_AES_256_CBC_SHA
  | TLS_ECDH_RSA_WITH_NULL_SHA
  | TLS_ECDH_RSA_WITH_RC4_128_SHA
  | TLS_ECDH_RSA_WITH_3DES_EDE_CBC_SHA
  | TLS_ECDH_RSA_WITH_AES_128_CBC_SHA
  | TLS_ECDH_RSA_WITH_AES_256_CBC_SHA
  | TLS_ECDHE_RSA_WITH_NULL_SHA
  | TLS_ECDHE_RSA_WITH_RC4_128_SHA
  | TLS_ECDHE_RSA_WITH_3DES_EDE_CBC_SHA
  | TLS_ECDHE_RSA_WITH_AES_128_CBC_SHA
  | TLS_ECDHE_RSA_WITH_AES_256_CBC_SHA
  | TLS_ECDH_anon_WITH_NULL_SHA
  | TLS_ECDH_anon_WITH_RC4_128_SHA
  | TLS_ECDH_anon_WITH_3DES_EDE_CBC_SHA
  | TLS_ECDH_anon_WITH_AES_128_CBC_SHA
  | TLS_ECDH_anon_WITH_AES_256_CBC_SHA
  | TLS_SRP_SHA_WITH_3DES_EDE_CBC_SHA
  | TLS_SRP_SHA_RSA_WITH_3DES_EDE_CBC_SHA
  | TLS_SRP_SHA_DSS_WITH_3DES_EDE_CBC_SHA
  | TLS_SRP_SHA_WITH_AES_128_CBC_SHA
  | TLS_SRP_SHA_RSA_WITH_AES_128_CBC_SHA
  | TLS_SRP_SHA_DSS_WITH_AES_128_CBC_SHA
  | TLS_SRP_SHA_WITH_AES_256_CBC_SHA
  | TLS_SRP_SHA_RSA_WITH_AES_256_CBC_SHA
  | TLS_SRP_SHA_DSS_WITH_AES_256_CBC_SHA
  | TLS_ECDHE_ECDSA_WITH_AES_128_CBC_SHA256
  | TLS_ECDHE_ECDSA_WITH_AES_256_CBC_SHA384
  | TLS_ECDH_ECDSA_WITH_AES_128_CBC_SHA256
  | TLS_ECDH_ECDSA_WITH_AES_256_CBC_SHA384
  | TLS_ECDHE_RSA_WITH_AES_128_CBC_SHA256
  | TLS_ECDHE_RSA_WITH_AES_256_CBC_SHA384
  | TLS_ECDH_RSA_WITH_AES_128_CBC_SHA256
  | TLS_ECDH_RSA_WITH_AES_256_CBC_SHA384
  | TLS_ECDHE_ECDSA_WITH_AES_128_GCM_SHA256
  | TLS_ECDHE_ECDSA_WITH_AES_256_GCM_SHA384
  | TLS_ECDH_ECDSA_WITH_AES_128_GCM_SHA256
  | TLS_ECDH_ECDSA_WITH_AES_256_GCM_SHA384
  | TLS_ECDHE_RSA_WITH_AES_128_GCM_SHA256
  | TLS_ECDHE_RSA_WITH_AES_256_GCM_SHA384
  | TLS_ECDH_RSA_WITH_AES_128_GCM_SHA256
  | TLS_ECDH_RSA_WITH_AES_256_GCM_SHA384
  | TLS_ECDHE_PSK_WITH_RC4_128_SHA
  | TLS_ECDHE_PSK_WITH_3DES_EDE_CBC_SHA
  | TLS_ECDHE_PSK_WITH_AES_128_CBC_SHA
  | TLS_ECDHE_PSK_WITH_AES_256_CBC_SHA
  | TLS_ECDHE_PSK_WITH_AES_128_CBC_SHA256
  | TLS_ECDHE_PSK_WITH_AES_256_CBC_SHA384
  | TLS_ECDHE_PSK_WITH_NULL_SHA
  | TLS_ECDHE_PSK_WITH_NULL_SHA256
  | TLS_ECDHE_PSK_WITH_NULL_SHA384
  | TLS_RSA_WITH_ARIA_128_CBC_SHA256
  | TLS_RSA_WITH_ARIA_256_CBC_SHA384
  | TLS_DH_DSS_WITH_ARIA_128_CBC_SHA256
  | TLS_DH_DSS_WITH_ARIA_256_CBC_SHA384
  | TLS_DH_RSA_WITH_ARIA_128_CBC_SHA256
  | TLS_DH_RSA_WITH_ARIA_256_CBC_SHA384
  | TLS_DHE_DSS_WITH_ARIA_128_CBC_SHA256
  | TLS_DHE_DSS_WITH_ARIA_256_CBC_SHA384
  | TLS_DHE_RSA_WITH_ARIA_128_CBC_SHA256
  | TLS_DHE_RSA_WITH_ARIA_256_CBC_SHA384
  | TLS_DH_anon_WITH_ARIA_128_CBC_SHA256
  | TLS_DH_anon_WITH_ARIA_256_CBC_SHA384
  | TLS_ECDHE_ECDSA_WITH_ARIA_128_CBC_SHA256
  | TLS_ECDHE_ECDSA_WITH_ARIA_256_CBC_SHA384
  | TLS_ECDH_ECDSA_WITH_ARIA_128_CBC_SHA256
  | TLS_ECDH_ECDSA_WITH_ARIA_256_CBC_SHA384
  | TLS_ECDHE_RSA_WITH_ARIA_128_CBC_SHA256
  | TLS_ECDHE_RSA_WITH_ARIA_256_CBC_SHA384
  | TLS_ECDH_RSA_WITH_ARIA_128_CBC_SHA256
  | TLS_ECDH_RSA_WITH_ARIA_256_CBC_SHA384
  | TLS_RSA_WITH_ARIA_128_GCM_SHA256
  | TLS_RSA_WITH_ARIA_256_GCM_SHA384
  | TLS_DHE_RSA_WITH_ARIA_128_GCM_SHA256
  | TLS_DHE_RSA_WITH_ARIA_256_GCM_SHA384
  | TLS_DH_RSA_WITH_ARIA_128_GCM_SHA256
  | TLS_DH_RSA_WITH_ARIA_256_GCM_SHA384
  | TLS_DHE_DSS_WITH_ARIA_128_GCM_SHA256
  | TLS_DHE_DSS_WITH_ARIA_256_GCM_SHA384
  | TLS_DH_DSS_WITH_ARIA_128_GCM_SHA256
  | TLS_DH_DSS_WITH_ARIA_256_GCM_SHA384
  | TLS_DH_anon_WITH_ARIA_128_GCM_SHA256
  | TLS_DH_anon_WITH_ARIA_256_GCM_SHA384
  | TLS_ECDHE_ECDSA_WITH_ARIA_128_GCM_SHA256
  | TLS_ECDHE_ECDSA_WITH_ARIA_256_GCM_SHA384
  | TLS_ECDH_ECDSA_WITH_ARIA_128_GCM_SHA256
  | TLS_ECDH_ECDSA_WITH_ARIA_256_GCM_SHA384
  | TLS_ECDHE_RSA_WITH_ARIA_128_GCM_SHA256
  | TLS_ECDHE_RSA_WITH_ARIA_256_GCM_SHA384
  | TLS_ECDH_RSA_WITH_ARIA_128_GCM_SHA256
  | TLS_ECDH_RSA_WITH_ARIA_256_GCM_SHA384
  | TLS_PSK_WITH_ARIA_128_CBC_SHA256
  | TLS_PSK_WITH_ARIA_256_CBC_SHA384
  | TLS_DHE_PSK_WITH_ARIA_128_CBC_SHA256
  | TLS_DHE_PSK_WITH_ARIA_256_CBC_SHA384
  | TLS_RSA_PSK_WITH_ARIA_128_CBC_SHA256
  | TLS_RSA_PSK_WITH_ARIA_256_CBC_SHA384
  | TLS_PSK_WITH_ARIA_128_GCM_SHA256
  | TLS_PSK_WITH_ARIA_256_GCM_SHA384
  | TLS_DHE_PSK_WITH_ARIA_128_GCM_SHA256
  | TLS_DHE_PSK_WITH_ARIA_256_GCM_SHA384
  | TLS_RSA_PSK_WITH_ARIA_128_GCM_SHA256
  | TLS_RSA_PSK_WITH_ARIA_256_GCM_SHA384
  | TLS_ECDHE_PSK_WITH_ARIA_128_CBC_SHA256
  | TLS_ECDHE_PSK_WITH_ARIA_256_CBC_SHA384
  | TLS_ECDHE_ECDSA_WITH_CAMELLIA_128_CBC_SHA256
  | TLS_ECDHE_ECDSA_WITH_CAMELLIA_256_CBC_SHA384
  | TLS_ECDH_ECDSA_WITH_CAMELLIA_128_CBC_SHA256
  | TLS_ECDH_ECDSA_WITH_CAMELLIA_256_CBC_SHA384
  | TLS_ECDHE_RSA_WITH_CAMELLIA_128_CBC_SHA256
  | TLS_ECDHE_RSA_WITH_CAMELLIA_256_CBC_SHA384
  | TLS_ECDH_RSA_WITH_CAMELLIA_128_CBC_SHA256
  | TLS_ECDH_RSA_WITH_CAMELLIA_256_CBC_SHA384
  | TLS_RSA_WITH_CAMELLIA_128_GCM_SHA256
  | TLS_RSA_WITH_CAMELLIA_256_GCM_SHA384
  | TLS_DHE_RSA_WITH_CAMELLIA_128_GCM_SHA256
  | TLS_DHE_RSA_WITH_CAMELLIA_256_GCM_SHA384
  | TLS_DH_RSA_WITH_CAMELLIA_128_GCM_SHA256
  | TLS_DH_RSA_WITH_CAMELLIA_256_GCM_SHA384
  | TLS_DHE_DSS_WITH_CAMELLIA_128_GCM_SHA256
  | TLS_DHE_DSS_WITH_CAMELLIA_256_GCM_SHA384
  | TLS_DH_DSS_WITH_CAMELLIA_128_GCM_SHA256
  | TLS_DH_DSS_WITH_CAMELLIA_256_GCM_SHA384
  | TLS_DH_anon_WITH_CAMELLIA_128_GCM_SHA256
  | TLS_DH_anon_WITH_CAMELLIA_256_GCM_SHA384
  | TLS_ECDHE_ECDSA_WITH_CAMELLIA_128_GCM_SHA256
  | TLS_ECDHE_ECDSA_WITH_CAMELLIA_256_GCM_SHA384
  | TLS_ECDH_ECDSA_WITH_CAMELLIA_128_GCM_SHA256
  | TLS_ECDH_ECDSA_WITH_CAMELLIA_256_GCM_SHA384
  | TLS_ECDHE_RSA_WITH_CAMELLIA_128_GCM_SHA256
  | TLS_ECDHE_RSA_WITH_CAMELLIA_256_GCM_SHA384
  | TLS_ECDH_RSA_WITH_CAMELLIA_128_GCM_SHA256
  | TLS_ECDH_RSA_WITH_CAMELLIA_256_GCM_SHA384
  | TLS_PSK_WITH_CAMELLIA_128_GCM_SHA256
  | TLS_PSK_WITH_CAMELLIA_256_GCM_SHA384
  | TLS_DHE_PSK_WITH_CAMELLIA_128_GCM_SHA256
  | TLS_DHE_PSK_WITH_CAMELLIA_256_GCM_SHA384
  | TLS_RSA_PSK_WITH_CAMELLIA_128_GCM_SHA256
  | TLS_RSA_PSK_WITH_CAMELLIA_256_GCM_SHA384
  | TLS_PSK_WITH_CAMELLIA_128_CBC_SHA256
  | TLS_PSK_WITH_CAMELLIA_256_CBC_SHA384
  | TLS_DHE_PSK_WITH_CAMELLIA_128_CBC_SHA256
  | TLS_DHE_PSK_WITH_CAMELLIA_256_CBC_SHA384
  | TLS_RSA_PSK_WITH_CAMELLIA_128_CBC_SHA256
  | TLS_RSA_PSK_WITH_CAMELLIA_256_CBC_SHA384
  | TLS_ECDHE_PSK_WITH_CAMELLIA_128_CBC_SHA256
  | TLS_ECDHE_PSK_WITH_CAMELLIA_256_CBC_SHA384
  | TLS_RSA_WITH_AES_128_CCM
  | TLS_RSA_WITH_AES_256_CCM
  | TLS_DHE_RSA_WITH_AES_128_CCM
  | TLS_DHE_RSA_WITH_AES_256_CCM
  | TLS_RSA_WITH_AES_128_CCM_8
  | TLS_RSA_WITH_AES_256_CCM_8
  | TLS_DHE_RSA_WITH_AES_128_CCM_8
  | TLS_DHE_RSA_WITH_AES_256_CCM_8
  | TLS_PSK_WITH_AES_128_CCM
  | TLS_PSK_WITH_AES_256_CCM
  | TLS_DHE_PSK_WITH_AES_128_CCM
  | TLS_DHE_PSK_WITH_AES_256_CCM
  | TLS_PSK_WITH_AES_128_CCM_8
  | TLS_PSK_WITH_AES_256_CCM_8
  | TLS_PSK_DHE_WITH_AES_128_CCM_8
  | TLS_PSK_DHE_WITH_AES_256_CCM_8
  | TLS_ECDHE_ECDSA_WITH_AES_128_CCM
  | TLS_ECDHE_ECDSA_WITH_AES_256_CCM
  | TLS_ECDHE_ECDSA_WITH_AES_128_CCM_8
  | TLS_ECDHE_ECDSA_WITH_AES_256_CCM_8
  | TLS_ECDHE_RSA_WITH_CHACHA20_POLY1305_SHA256
  | TLS_ECDHE_ECDSA_WITH_CHACHA20_POLY1305_SHA256
  | TLS_DHE_RSA_WITH_CHACHA20_POLY1305_SHA256
  | TLS_PSK_WITH_CHACHA20_POLY1305_SHA256
  | TLS_ECDHE_PSK_WITH_CHACHA20_POLY1305_SHA256
  | TLS_DHE_PSK_WITH_CHACHA20_POLY1305_SHA256
  | TLS_RSA_PSK_WITH_CHACHA20_POLY1305_SHA256
  | SSL_RSA_FIPS_WITH_DES_CBC_SHA
  | SSL_RSA_FIPS_WITH_3DES_EDE_CBC_SHA
  | Unknown (x : Z).

Definition CipherSuite_get_u16 (x : CipherSuite) : Z :=
  match x with
  | TLS_NULL_WITH_NULL_NULL => 0x0000
  | TLS_RSA_WITH_NULL_MD5 => 0x0001
  | TLS_RSA_WITH_NULL_SHA => 0x0002
  | TLS_RSA_EXPORT_WITH_RC4_40_MD5 => 0x0003
  | TLS_RSA_WITH_RC4_128_MD5 => 0x0004
  | TLS_RSA_WITH_RC4_128_SHA => 0x0005
  | TLS_RSA_EXPORT_WITH_RC2_CBC_40_MD5 => 0x0006
  | TLS_RSA_WITH_IDEA_CBC_SHA => 0x0007
  | TLS_RSA_EXPORT_WITH_DES40_CBC_SHA => 0x0008
  | TLS_RSA_WITH_DES_CBC_SHA => 0x0009
  | TLS_RSA_WITH_3DES_EDE_CBC_SHA => 0x000a
  | TLS_DH_DSS_EXPORT_WITH_DES40_CBC_SHA => 0x000b
  | TLS_DH_DSS_WITH_DES_CBC_SHA => 0x000c
  | TLS_DH_DSS_WITH_3DES_EDE_CBC_SHA => 0x000d
  | TLS_DH_RSA_EXPORT_WITH_DES40_CBC_SHA => 0x000e
  | TLS_DH_RSA_WITH_DES_CBC_SHA => 0x000f
  | TLS_DH_RSA_WITH_3DES_EDE_CBC_SHA => 0x0010
  | TLS_DHE_DSS_EXPORT_WITH_DES40_CBC_SHA => 0x0011
  | TLS_DHE_DSS_WITH_DES_CBC_SHA => 0x0012
  | TLS_DHE_DSS_WITH_3DES_EDE_CBC_SHA => 0x0013
  | TLS_DHE_RSA_EXPORT_WITH_DES40_CBC_SHA => 0x0014
  | TLS_DHE_RSA_WITH_DES_CBC_SHA => 0x0015
  | TLS_DHE_RSA_WITH_3DES_EDE_CBC_SHA => 0x0016
  | TLS_DH_anon_EXPORT_WITH_RC4_40_MD5 => 0x0017
  | TLS_DH_anon_WITH_RC4_128_MD5 => 0x0018
  | TLS_DH_anon_EXPORT_WITH_DES40_CBC_SHA => 0x0019
  | TLS_DH_anon_WITH_DES_CBC_SHA => 0x001a
  | TLS_DH_anon_WITH_3DES_EDE_CBC_SHA => 0x001b
  | SSL_FORTEZZA_KEA_WITH_NULL_SHA => 0x001c
  | SSL_FORTEZZA_KEA_WITH_FORTEZZA_CBC_SHA => 0x001d
  | TLS_KRB5_WITH_DES_CBC_SHA_or_SSL_FORTEZZA_KEA_WITH_RC4_128_SHA => 0x001e
  | TLS_KRB5_WITH_3DES_EDE_CBC_SHA => 0x001f
  | TLS_KRB5_WITH_RC4_128_SHA => 0x0020
  | TLS_KRB5_WITH_IDEA_CBC_SHA => 0x0021
  | TLS_KRB5_WITH_DES_CBC_MD5 => 0x0022
  | TLS_KRB5_WITH_3DES_EDE_CBC_MD5 => 0x0023
  | TLS_KRB5_WITH_RC4_128_MD5 => 0x0024
  | TLS_KRB5_WITH_IDEA_CBC_MD5 => 0x0025
  | TLS_KRB5_EXPORT_WITH_DES_CBC_40_SHA => 0x0026
  | TLS_KRB5_EXPORT_WITH_RC2_CBC_40_SHA => 0x0027
  | TLS_KRB5_EXPORT_WITH_RC4_40_SHA => 0x0028
  | TLS_KRB5_EXPORT_WITH_DES_CBC_40_MD5 => 0x0029
  | TLS_KRB5_EXPORT_WITH_RC2_CBC_40_MD5 => 0x002a
  | TLS_KRB5_EXPORT_WITH_RC4_40_MD5 => 0x002b
  | TLS_PSK_WITH_NULL_SHA => 0x002c
  | TLS_DHE_PSK_WITH_NULL_SHA => 0x002d
  | TLS_RSA_PSK_WITH_NULL_SHA => 0x002e
  | TLS_RSA_WITH_AES_128_CBC_SHA => 0x002f
  | TLS_DH_DSS_WITH_AES_128_CBC_SHA => 0x0030
  | TLS_DH_RSA_WITH_AES_128_CBC_SHA => 0x0031
  | TLS_DHE_DSS_WITH_AES_128_CBC_SHA => 0x0032
  | TLS_DHE_RSA_WITH_AES_128_CBC_SHA => 0x0033
  | TLS_DH_anon_WITH_AES_128_CBC_SHA => 0x0034
  | TLS_RSA_WITH_AES_256_CBC_SHA => 0x0035
  | TLS_DH_DSS_WITH_AES_256_CBC_SHA => 0x0036
  | TLS_DH_RSA_WITH_AES_256_CBC_SHA => 0x0037
  | TLS_DHE_DSS_WITH_AES_256_CBC_SHA => 0x0038
  | TLS_DHE_RSA_WITH_AES_256_CBC_SHA => 0x0039
  | TLS_DH_anon_WITH_AES_256_CBC_SHA => 0x003a
  | TLS_RSA_WITH_NULL_SHA256 => 0x003b
  | TLS_RSA_WITH_AES_128_CBC_SHA256 => 0x003c
  | TLS_RSA_WITH_AES_256_CBC_SHA256 => 0x003d
  | TLS_DH_DSS_WITH_AES_128_CBC_SHA256 => 0x003e
  | TLS_DH_RSA_WITH_AES_128_CBC_SHA256 => 0x003f
  | TLS_DHE_DSS_WITH_AES_128_CBC_SHA256 => 0x0040
  | TLS_RSA_WITH_CAMELLIA_128_CBC_SHA => 0x0041
  | TLS_DH_DSS_WITH_CAMELLIA_128_CBC_SHA => 0x0042
  | TLS_DH_RSA_WITH_CAMELLIA_128_CBC_SHA => 0x0043
  | TLS_DHE_DSS_WITH_CAMELLIA_128_CBC_SHA => 0x0044
  | TLS_DHE_RSA_WITH_CAMELLIA_128_CBC_SHA => 0x0045
  | TLS_DH_anon_WITH_CAMELLIA_128_CBC_SHA => 0x0046
  | TLS_ECDH_ECDSA_WITH_NULL_SHA_draft => 0x0047
  | TLS_ECDH_ECDSA_WITH_RC4_128_SHA_draft => 0x0048
  | TLS_ECDH_ECDSA_WITH_DES_CBC_SHA_draft => 0x0049
  | TLS_ECDH_ECDSA_WITH_3DES_EDE_CBC_SHA_draft => 0x004a
  | TLS_ECDH_ECDSA_WITH_AES_128_CBC_SHA_draft => 0x004b
  | TLS_ECDH_ECDSA_WITH_AES_256_CBC_SHA_draft => 0x004c
  | TLS_ECDH_ECNRA_WITH_DES_CBC_SHA_draft => 0x004d
  | TLS_ECDH_ECNRA_WITH_3DES_EDE_CBC_SHA_draft => 0x004e
  | TLS_ECMQV_ECDSA_NULL_SHA_draft => 0x004f
  | TLS_ECMQV_ECDSA_WITH_RC4_128_SHA_draft => 0x0050
  | TLS_ECMQV_ECDSA_WITH_DES_CBC_SHA_draft => 0x0051
  | TLS_ECMQV_ECDSA_WITH_3DES_EDE_CBC_SHA_draft => 0x0052
  | TLS_ECMQV_ECNRA_NULL_SHA_draft => 0x0053
  | TLS_ECMQV_ECNRA_WITH_RC4_128_SHA_draft => 0x0054
  | TLS_ECMQV_ECNRA_WITH_DES_CBC_SHA_draft => 0x0055
  | TLS_ECMQV_ECNRA_WITH_3DES_EDE_CBC_SHA_draft => 0x0056
  | TLS_ECDH_anon_NULL_WITH_SHA_draft => 0x0057
  | TLS_ECDH_anon_WITH_RC4_128_SHA_draft => 0x0058
  | TLS_ECDH_anon_WITH_DES_CBC_SHA_draft => 0x0059
  | TLS_ECDH_anon_WITH_3DES_EDE_CBC_SHA_draft => 0x005a
  | TLS_ECDH_anon_EXPORT_WITH_DES40_CBC_SHA_draft => 0x005b
  | TLS_ECDH_anon_EXPORT_WITH_RC4_40_SHA_draft => 0x005c
  | TLS_RSA_EXPORT1024_WITH_RC4_56_MD5 => 0x0060
  | TLS_RSA_EXPORT1024_WITH_RC2_CBC_56_MD5 => 0x0061
  | TLS_RSA_EXPORT1024_WITH_DES_CBC_SHA => 0x0062
  | TLS_DHE_DSS_EXPORT1024_WITH_DES_CBC_SHA => 0x0063
  | TLS_RSA_EXPORT1024_WITH_RC4_56_SHA => 0x0064
  | TLS_DHE_DSS_EXPORT1024_WITH_RC4_56_SHA => 0x0065
  | TLS_DHE_DSS_WITH_RC4_128_SHA => 0x0066
  | TLS_DHE_RSA_WITH_AES_128_CBC_SHA256 => 0x0067
  | TLS_DH_DSS_WITH_AES_256_CBC_SHA256 => 0x0068
  | TLS_DH_RSA_WITH_AES_256_CBC_SHA256 => 0x0069
  | TLS_DHE_DSS_WITH_AES_256_CBC_SHA256 => 0x006a
  | TLS_DHE_RSA_WITH_AES_256_CBC_SHA256 => 0x006b
  | TLS_DH_anon_WITH_AES_128_CBC_SHA256 => 0x006c
  | TLS_DH_anon_WITH_AES_256_CBC_SHA256 => 0x006d
  | TLS_DHE_DSS_WITH_3DES_EDE_CBC_RMD => 0x0072
  | TLS_DHE_DSS_WITH_AES_128_CBC_RMD => 0x0073
  | TLS_DHE_DSS_WITH_AES_256_CBC_RMD => 0x0074
  | TLS_DHE_RSA_WITH_3DES_EDE_CBC_RMD => 0x0077
  | TLS_DHE_RSA_WITH_AES_128_CBC_RMD => 0x0078
  | TLS_DHE_RSA_WITH_AES_256_CBC_RMD => 0x0079
  | TLS_RSA_WITH_3DES_EDE_CBC_RMD => 0x007c
  | TLS_RSA_WITH_AES_128_CBC_RMD => 0x007d
  | TLS_RSA_WITH_AES_256_CBC_RMD => 0x007e
  | TLS_GOSTR341094_WITH_28147_CNT_IMIT => 0x0080
  | TLS_GOSTR341001_WITH_28147_CNT_IMIT => 0x0081
  | TLS_GOSTR341094_WITH_NULL_GOSTR3411 => 0x0082
  | TLS_GOSTR341001_WITH_NULL_GOSTR3411 => 0x0083
  | TLS_RSA_WITH_CAMELLIA_256_CBC_SHA => 0x0084
  | TLS_DH_DSS_WITH_CAMELLIA_256_CBC_SHA => 0x0085
  | TLS_DH_RSA_WITH_CAMELLIA_256_CBC_SHA => 0x0086
  | TLS_DHE_DSS_WITH_CAMELLIA_256_CBC_SHA => 0x0087
  | TLS_DHE_RSA_WITH_CAMELLIA_256_CBC_SHA => 0x0088
  | TLS_DH_anon_WITH_CAMELLIA_256_CBC_SHA => 0x0089
  | TLS_PSK_WITH_RC4_128_SHA => 0x008a
  | TLS_PSK_WITH_3DES_EDE_CBC_SHA => 0x008b
  | TLS_PSK_WITH_AES_128_CBC_SHA => 0x008c
  | TLS_PSK_WITH_AES_256_CBC_SHA => 0x008d
  | TLS_DHE_PSK_WITH_RC4_128_SHA => 0x008e
  | TLS_DHE_PSK_WITH_3DES_EDE_CBC_SHA => 0x008f
  | TLS_DHE_PSK_WITH_AES_128_CBC_SHA => 0x0090
  | TLS_DHE_PSK_WITH_AES_256_CBC_SHA => 0x0091
  | TLS_RSA_PSK_WITH_RC4_128_SHA => 0x0092
  | TLS_RSA_PSK_WITH_3DES_EDE_CBC_SHA => 0x0093
  | TLS_RSA_PSK_WITH_AES_128_CBC_SHA => 0x0094
  | TLS_RSA_PSK_WITH_AES_256_CBC_SHA => 0x0095
  | TLS_RSA_WITH_SEED_CBC_SHA => 0x0096
  | TLS_DH_DSS_WITH_SEED_CBC_SHA => 0x0097
  | TLS_DH_RSA_WITH_SEED_CBC_SHA => 0x0098
  | TLS_DHE_DSS_WITH_SEED_CBC_SHA => 0x0099
  | TLS_DHE_RSA_WITH_SEED_CBC_SHA => 0x009a
  | TLS_DH_anon_WITH_SEED_CBC_SHA => 0x009b
  | TLS_RSA_WITH_AES_128_GCM_SHA256 => 0x009c
  | TLS_RSA_WITH_AES_256_GCM_SHA384 => 0x009d
  | TLS_DHE_RSA_WITH_AES_128_GCM_SHA256 => 0x009e
  | TLS_DHE_RSA_WITH_AES_256_GCM_SHA384 => 0x009f
  | TLS_DH_RSA_WITH_AES_128_GCM_SHA256 => 0x00a0
  | TLS_DH_RSA_WITH_AES_256_GCM_SHA384 => 0x00a1
  | TLS_DHE_DSS_WITH_AES_128_GCM_SHA256 => 0x00a2
  | TLS_DHE_DSS_WITH_AES_256_GCM_SHA384 => 0x00a3
  | TLS_DH_DSS_WITH_AES_128_GCM_SHA256 => 0x00a4
  | TLS_DH_DSS_WITH_AES_256_GCM_SHA384 => 0x00a5
  | TLS_DH_anon_WITH_AES_128_GCM_SHA256 => 0x00a6
  | TLS_DH_anon_WITH_AES_256_GCM_SHA384 => 0x00a7
  | TLS_PSK_WITH_AES_128_GCM_SHA256 => 0x00a8
  | TLS_PSK_WITH_AES_256_GCM_SHA384 => 0x00a9
  | TLS_DHE_PSK_WITH_AES_128_GCM_SHA256 => 0x00aa
  | TLS_DHE_PSK_WITH_AES_256_GCM_SHA384 => 0x00ab
  | TLS_RSA_PSK_WITH_AES_128_GCM_SHA256 => 0x00ac
  | TLS_RSA_PSK_WITH_AES_256_GCM_SHA384 => 0x00ad
  | TLS_PSK_WITH_AES_128_CBC_SHA256 => 0x00ae
  | TLS_PSK_WITH_AES_256_CBC_SHA384 => 0x00af
  | TLS_PSK_WITH_NULL_SHA256 => 0x00b0
  | TLS_PSK_WITH_NULL_SHA384 => 0x00b1
  | TLS_DHE_PSK_WITH_AES_128_CBC_SHA256 => 0x00b2
  | TLS_DHE_PSK_WITH_AES_256_CBC_SHA384 => 0x00b3
  | TLS_DHE_PSK_WITH_NULL_SHA256 => 0x00b4
  | TLS_DHE_PSK_WITH_NULL_SHA384 => 0x00b5
  | TLS_RSA_PSK_WITH_AES_128_CBC_SHA256 => 0x00b6
  | TLS_RSA_PSK_WITH_AES_256_CBC_SHA384 => 0x00b7
  | TLS_RSA_PSK_WITH_NULL_SHA256 => 0x00b8
  | TLS_RSA_PSK_WITH_NULL_SHA384 => 0x00b9
  | TLS_RSA_WITH_CAMELLIA_128_CBC_SHA256 => 0x00ba
  | TLS_DH_DSS_WITH_CAMELLIA_128_CBC_SHA256 => 0x00bb
  | TLS_DH_RSA_WITH_CAMELLIA_128_CBC_SHA256 => 0x00bc
  | TLS_DHE_DSS_WITH_CAMELLIA_128_CBC_SHA256 => 0x00bd
  | TLS_DHE_RSA_WITH_CAMELLIA_128_CBC_SHA256 => 0x00be
  | TLS_DH_anon_WITH_CAMELLIA_128_CBC_SHA256 => 0x00bf
  | TLS_RSA_WITH_CAMELLIA_256_CBC_SHA256 => 0x00c0
  | TLS_DH_DSS_WITH_CAMELLIA_256_CBC_SHA256 => 0x00c1
  | TLS_DH_RSA_WITH_CAMELLIA_256_CBC_SHA256 => 0x00c2
  | TLS_DHE_DSS_WITH_CAMELLIA_256_CBC_SHA256 => 0x00c3
  | TLS_DHE_RSA_WITH_CAMELLIA_256_CBC_SHA256 => 0x00c4
  | TLS_DH_anon_WITH_CAMELLIA_256_CBC_SHA256 => 0x00c5
  | TLS_EMPTY_RENEGOTIATION_INFO_SCSV => 0x00ff
  | TLS13_AES_128_GCM_SHA256 => 0x1301
  | TLS13_AES_256_GCM_SHA384 => 0x1302
  | TLS13_CHACHA20_POLY1305_SHA256 => 0x1303
  | TLS13_AES_128_CCM_SHA256 => 0x1304
  | TLS13_AES_128_CCM_8_SHA256 => 0x1305
  | TLS_ECDH_ECDSA_WITH_NULL_SHA => 0xc001
  | TLS_ECDH_ECDSA_WITH_RC4_128_SHA => 0xc002
  | TLS_ECDH_ECDSA_WITH_3DES_EDE_CBC_SHA => 0xc003
  | TLS_ECDH_ECDSA_WITH_AES_128_CBC_SHA => 0xc004
  | TLS_ECDH_ECDSA_WITH_AES_256_CBC_SHA => 0xc005
  | TLS_ECDHE_ECDSA_WITH_NULL_SHA => 0xc006
  | TLS_ECDHE_ECDSA_WITH_RC4_128_SHA => 0xc007
  | TLS_ECDHE_ECDSA_WITH_3DES_EDE_CBC_SHA => 0xc008
  | TLS_ECDHE_ECDSA_WITH_AES_128_CBC_SHA => 0xc009
  | TLS_ECDHE_ECDSA_WITH_AES_256_CBC_SHA => 0xc00a
  | TLS_ECDH_RSA_WITH_NULL_SHA => 0xc00b
  | TLS_ECDH_RSA_WITH_RC4_128_SHA => 0xc00c
  | TLS_ECDH_RSA_WITH_3DES_EDE_CBC_SHA => 0xc00d
  | TLS_ECDH_RSA_WITH_AES_128_CBC_SHA => 0xc00e
  | TLS_ECDH_RSA_WITH_AES_256_CBC_SHA => 0xc00f
  | TLS_ECDHE_RSA_WITH_NULL_SHA => 0xc010
  | TLS_ECDHE_RSA_WITH_RC4_128_SHA => 0xc011
  | TLS_ECDHE_RSA_WITH_3DES_EDE_CBC_SHA => 0xc012
  | TLS_ECDHE_RSA_WITH_AES_128_CBC_SHA => 0xc013
  | TLS_ECDHE_RSA_WITH_AES_256_CBC_SHA => 0xc014
  | TLS_ECDH_anon_WITH_NULL_SHA => 0xc015
  | TLS_ECDH_anon_WITH_RC4_128_SHA => 0xc016
  | TLS_ECDH_anon_WITH_3DES_EDE_CBC_SHA => 0xc017
  | TLS_ECDH_anon_WITH_AES_128_CBC_SHA => 0xc018
  | TLS_ECDH_anon_WITH_AES_256_CBC_SHA => 0xc019
  | TLS_SRP_SHA_WITH_3DES_EDE_CBC_SHA => 0xc01a
  | TLS_SRP_SHA_RSA_WITH_3DES_EDE_CBC_SHA => 0xc01b
  | TLS_SRP_SHA_DSS_WITH_3DES_EDE_CBC_SHA => 0xc01c
  | TLS_SRP_SHA_WITH_AES_128_CBC_SHA => 0xc01d
  | TLS_SRP_SHA_RSA_WITH_AES_128_CBC_SHA => 0xc01e
  | TLS_SRP_SHA_DSS_WITH_AES_128_CBC_SHA => 0xc01f
  | TLS_SRP_SHA_WITH_AES_256_CBC_SHA => 0xc020
  | TLS_SRP_SHA_RSA_WITH_AES_256_CBC_SHA => 0xc021
  | TLS_SRP_SHA_DSS_WITH_AES_256_CBC_SHA => 0xc022
  | TLS_ECDHE_ECDSA_WITH_AES_128_CBC_SHA256 => 0xc023
  | TLS_ECDHE_ECDSA_WITH_AES_256_CBC_SHA384 => 0xc024
  | TLS_ECDH_ECDSA_WITH_AES_128_CBC_SHA256 => 0xc025
  | TLS_ECDH_ECDSA_WITH_AES_256_CBC_SHA384 => 0xc026
  | TLS_ECDHE_RSA_WITH_AES_128_CBC_SHA256 => 0xc027
  | TLS_ECDHE_RSA_WITH_AES_256_CBC_SHA384 => 0xc028
  | TLS_ECDH_RSA_WITH_AES_128_CBC_SHA256 => 0xc029
  | TLS_ECDH_RSA_WITH_AES_256_CBC_SHA384 => 0xc02a
  | TLS_ECDHE_ECDSA_WITH_AES_128_GCM_SHA256 => 0xc02b
  | TLS_ECDHE_ECDSA_WITH_AES_256_GCM_SHA384 => 0xc02c
  | TLS_ECDH_ECDSA_WITH_AES_128_GCM_SHA256 => 0xc02d
  | TLS_ECDH_ECDSA_WITH_AES_256_GCM_SHA384 => 0xc02e
  | TLS_ECDHE_RSA_WITH_AES_128_GCM_SHA256 => 0xc02f
  | TLS_ECDHE_RSA_WITH_AES_256_GCM_SHA384 => 0xc030
  | TLS_ECDH_RSA_WITH_AES_128_GCM_SHA256 => 0xc031
  | TLS_ECDH_RSA_WITH_AES_256_GCM_SHA384 => 0xc032
  | TLS_ECDHE_PSK_WITH_RC4_128_SHA => 0xc033
  | TLS_ECDHE_PSK_WITH_3DES_EDE_CBC_SHA => 0xc034
  | TLS_ECDHE_PSK_WITH_AES_128_CBC_SHA => 0xc035
  | TLS_ECDHE_PSK_WITH_AES_256_CBC_SHA => 0xc036
  | TLS_ECDHE_PSK_WITH_AES_128_CBC_SHA256 => 0xc037
  | TLS_ECDHE_PSK_WITH_AES_256_CBC_SHA384 => 0xc038
  | TLS_ECDHE_PSK_WITH_NULL_SHA => 0xc039
  | TLS_ECDHE_PSK_WITH_NULL_SHA256 => 0xc03a
  | TLS_ECDHE_PSK_WITH_NULL_SHA384 => 0xc03b
  | TLS_RSA_WITH_ARIA_128_CBC_SHA256 => 0xc03c
  | TLS_RSA_WITH_ARIA_256_CBC_SHA384 => 0xc03d
  | TLS_DH_DSS_WITH_ARIA_128_CBC_SHA256 => 0xc03e
  | TLS_DH_DSS_WITH_ARIA_256_CBC_SHA384 => 0xc03f
  | TLS_DH_RSA_WITH_ARIA_128_CBC_SHA256 => 0xc040
  | TLS_DH_RSA_WITH_ARIA_256_CBC_SHA384 => 0xc041
  | TLS_DHE_DSS_WITH_ARIA_128_CBC_SHA256 => 0xc042
  | TLS_DHE_DSS_WITH_ARIA_256_CBC_SHA384 => 0xc043
  | TLS_DHE_RSA_WITH_ARIA_128_CBC_SHA256 => 0xc044
  | TLS_DHE_RSA_WITH_ARIA_256_CBC_SHA384 => 0xc045
  | TLS_DH_anon_WITH_ARIA_128_CBC_SHA256 => 0xc046
  | TLS_DH_anon_WITH_ARIA_256_CBC_SHA384 => 0xc047
  | TLS_ECDHE_ECDSA_WITH_ARIA_128_CBC_SHA256 => 0xc048
  | TLS_ECDHE_ECDSA_WITH_ARIA_256_CBC_SHA384 => 0xc049
  | TLS_ECDH_ECDSA_WITH_ARIA_128_CBC_SHA256 => 0xc04a
  | TLS_ECDH_ECDSA_WITH_ARIA_256_CBC_SHA384 => 0xc04b
  | TLS_ECDHE_RSA_WITH_ARIA_128_CBC_SHA256 => 0xc04c
  | TLS_ECDHE_RSA_WITH_ARIA_256_CBC_SHA384 => 0xc04d
  | TLS_ECDH_RSA_WITH_ARIA_128_CBC_SHA256 => 0xc04e
  | TLS_ECDH_RSA_WITH_ARIA_256_CBC_SHA384 => 0xc04f
  | TLS_RSA_WITH_ARIA_128_GCM_SHA256 => 0xc050
  | TLS_RSA_WITH_ARIA_256_GCM_SHA384 => 0xc051
  | TLS_DHE_RSA_WITH_ARIA_128_GCM_SHA256 => 0xc052
  | TLS_DHE_RSA_WITH_ARIA_256_GCM_SHA384 => 0xc053
  | TLS_DH_RSA_WITH_ARIA_128_GCM_SHA256 => 0xc054
  | TLS_DH_RSA_WITH_ARIA_256_GCM_SHA384 => 0xc055
  | TLS_DHE_DSS_WITH_ARIA_128_GCM_SHA256 => 0xc056
  | TLS_DHE_DSS_WITH_ARIA_256_GCM_SHA384 => 0xc057
  | TLS_DH_DSS_WITH_ARIA_128_GCM_SHA256 => 0xc058
  | TLS_DH_DSS_WITH_ARIA_256_GCM_SHA384 => 0xc059
  | TLS_DH_anon_WITH_ARIA_128_GCM_SHA256 => 0xc05a
  | TLS_DH_anon_WITH_ARIA_256_GCM_SHA384 => 0xc05b
  | TLS_ECDHE_ECDSA_WITH_ARIA_128_GCM_SHA256 => 0xc05c
  | TLS_ECDHE_ECDSA_WITH_ARIA_256_GCM_SHA384 => 0xc05d
  | TLS_ECDH_ECDSA_WITH_ARIA_128_GCM_SHA256 => 0xc05e
  | TLS_ECDH_ECDSA_WITH_ARIA_256_GCM_SHA384 => 0xc05f
  | TLS_ECDHE_RSA_WITH_ARIA_128_GCM_SHA256 => 0xc060
  | TLS_ECDHE_RSA_WITH_ARIA_256_GCM_SHA384 => 0xc061
  | TLS_ECDH_RSA_WITH_ARIA_128_GCM_SHA256 => 0xc062
  | TLS_ECDH_RSA_WITH_ARIA_256_GCM_SHA384 => 0xc063
  | TLS_PSK_WITH_ARIA_128_CBC_SHA256 => 0xc064
  | TLS_PSK_WITH_ARIA_256_CBC_SHA384 => 0xc065
  | TLS_DHE_PSK_WITH_ARIA_128_CBC_SHA256 => 0xc066
  | TLS_DHE_PSK_WITH_ARIA_256_CBC_SHA384 => 0xc067
  | TLS_RSA_PSK_WITH_ARIA_128_CBC_SHA256 => 0xc068
  | TLS_RSA_PSK_WITH_ARIA_256_CBC_SHA384 => 0xc069
  | TLS_PSK_WITH_ARIA_128_GCM_SHA256 => 0xc06a
  | TLS_PSK_WITH_ARIA_256_GCM_SHA384 => 0xc06b
  | TLS_DHE_PSK_WITH_ARIA_128_GCM_SHA256 => 0xc06c
  | TLS_DHE_PSK_WITH_ARIA_256_GCM_SHA384 => 0xc06d
  | TLS_RSA_PSK_WITH_ARIA_128_GCM_SHA256 => 0xc06e
  | TLS_RSA_PSK_WITH_ARIA_256_GCM_SHA384 => 0xc06f
  | TLS_ECDHE_PSK_WITH_ARIA_128_CBC_SHA256 => 0xc070
  | TLS_ECDHE_PSK_WITH_ARIA_256_CBC_SHA384 => 0xc071
  | TLS_ECDHE_ECDSA_WITH_CAMELLIA_128_CBC_SHA256 => 0xc072
  | TLS_ECDHE_ECDSA_WITH_CAMELLIA_256_CBC_SHA384 => 0xc073
  | TLS_ECDH_ECDSA_WITH_CAMELLIA_128_CBC_SHA256 => 0xc074
  | TLS_ECDH_ECDSA_WITH_CAMELLIA_256_CBC_SHA384 => 0xc075
  | TLS_ECDHE_RSA_WITH_CAMELLIA_128_CBC_SHA256 => 0xc076
  | TLS_ECDHE_RSA_WITH_CAMELLIA_256_CBC_SHA384 => 0xc077
  | TLS_ECDH_RSA_WITH_CAMELLIA_128_CBC_SHA256 => 0xc078
  | TLS_ECDH_RSA_WITH_CAMELLIA_256_CBC_SHA384 => 0xc079
  | TLS_RSA_WITH_CAMELLIA_128_GCM_SHA256 => 0xc07a
  | TLS_RSA_WITH_CAMELLIA_256_GCM_SHA384 => 0xc07b
  | TLS_DHE_RSA_WITH_CAMELLIA_128_GCM_SHA256 => 0xc07c
  | TLS_DHE_RSA_WITH_CAMELLIA_256_GCM_SHA384 => 0xc07d
  | TLS_DH_RSA_WITH_CAMELLIA_128_GCM_SHA256 => 0xc07e
  | TLS_DH_RSA_WITH_CAMELLIA_256_GCM_SHA384 => 0xc07f
  | TLS_DHE_DSS_WITH_CAMELLIA_128_GCM_SHA256 => 0xc080
  | TLS_DHE_DSS_WITH_CAMELLIA_256_GCM_SHA384 => 0xc081
  | TLS_DH_DSS_WITH_CAMELLIA_128_GCM_SHA256 => 0xc082
  | TLS_DH_DSS_WITH_CAMELLIA_256_GCM_SHA384 => 0xc083
  | TLS_DH_anon_WITH_CAMELLIA_128_GCM_SHA256 => 0xc084
  | TLS_DH_anon_WITH_CAMELLIA_256_GCM_SHA384 => 0xc085
  | TLS_ECDHE_ECDSA_WITH_CAMELLIA_128_GCM_SHA256 => 0xc086
  | TLS_ECDHE_ECDSA_WITH_CAMELLIA_256_GCM_SHA384 => 0xc087
  | TLS_ECDH_ECDSA_WITH_CAMELLIA_128_GCM_SHA256 => 0xc088
  | TLS_ECDH_ECDSA_WITH_CAMELLIA_256_GCM_SHA384 => 0xc089
  | TLS_ECDHE_RSA_WITH_CAMELLIA_128_GCM_SHA256 => 0xc08a
  | TLS_ECDHE_RSA_WITH_CAMELLIA_256_GCM_SHA384 => 0xc08b
  | TLS_ECDH_RSA_WITH_CAMELLIA_128_GCM_SHA256 => 0xc08c
  | TLS_ECDH_RSA_WITH_CAMELLIA_256_GCM_SHA384 => 0xc08d
  | TLS_PSK_WITH_CAMELLIA_128_GCM_SHA256 => 0xc08e
  | TLS_PSK_WITH_CAMELLIA_256_GCM_SHA384 => 0xc08f
  | TLS_DHE_PSK_WITH_CAMELLIA_128_GCM_SHA256 => 0xc090
  | TLS_DHE_PSK_WITH_CAMELLIA_256_GCM_SHA384 => 0xc091
  | TLS_RSA_PSK_WITH_CAMELLIA_128_GCM_SHA256 => 0xc092
  | TLS_RSA_PSK_WITH_CAMELLIA_256_GCM_SHA384 => 0xc093
  | TLS_PSK_WITH_CAMELLIA_128_CBC_SHA256 => 0xc094
  | TLS_PSK_WITH_CAMELLIA_256_CBC_SHA384 => 0xc095
  | TLS_DHE_PSK_WITH_CAMELLIA_128_CBC_SHA256 => 0xc096
  | TLS_DHE_PSK_WITH_CAMELLIA_256_CBC_SHA384 => 0xc097
  | TLS_RSA_PSK_WITH_CAMELLIA_128_CBC_SHA256 => 0xc098
  | TLS_RSA_PSK_WITH_CAMELLIA_256_CBC_SHA384 => 0xc099
  | TLS_ECDHE_PSK_WITH_CAMELLIA_128_CBC_SHA256 => 0xc09a
  | TLS_ECDHE_PSK_WITH_CAMELLIA_256_CBC_SHA384 => 0xc09b
  | TLS_RSA_WITH_AES_128_CCM => 0xc09c
  | TLS_RSA_WITH_AES_256_CCM => 0xc09d
  | TLS_DHE_RSA_WITH_AES_128_CCM => 0xc09e
  | TLS_DHE_RSA_WITH_AES_256_CCM => 0xc09f
  | TLS_RSA_WITH_AES_128_CCM_8 => 0xc0a0
  | TLS_RSA_WITH_AES_256_CCM_8 => 0xc0a1
  | TLS_DHE_RSA_WITH_AES_128_CCM_8 => 0xc0a2
  | TLS_DHE_RSA_WITH_AES_256_CCM_8 => 0xc0a3
  | TLS_PSK_WITH_AES_128_CCM => 0xc0a4
  | TLS_PSK_WITH_AES_256_CCM => 0xc0a5
  | TLS_DHE_PSK_WITH_AES_128_CCM => 0xc0a6
  | TLS_DHE_PSK_WITH_AES_256_CCM => 0xc0a7
  | TLS_PSK_WITH_AES_128_CCM_8 => 0xc0a8
  | TLS_PSK_WITH_AES_256_CCM_8 => 0xc0a9
  | TLS_PSK_DHE_WITH_AES_128_CCM_8 => 0xc0aa
  | TLS_PSK_DHE_WITH_AES_256_CCM_8 => 0xc0ab
  | TLS_ECDHE_ECDSA_WITH_AES_128_CCM => 0xc0ac
  | TLS_ECDHE_ECDSA_WITH_AES_256_CCM => 0xc0ad
  | TLS_ECDHE_ECDSA_WITH_AES_128_CCM_8 => 0xc0ae
  | TLS_ECDHE_ECDSA_WITH_AES_256_CCM_8 => 0xc0af
  | TLS_ECDHE_RSA_WITH_CHACHA20_POLY1305_SHA256 => 0xcca8
  | TLS_ECDHE_ECDSA_WITH_CHACHA20_POLY1305_SHA256 => 0xcca9
  | TLS_DHE_RSA_WITH_CHACHA20_POLY1305_SHA256 => 0xccaa
  | TLS_PSK_WITH_CHACHA20_POLY1305_SHA256 => 0xccab
  | TLS_ECDHE_PSK_WITH_CHACHA20_POLY1305_SHA256 => 0xccac
  | TLS_DHE_PSK_WITH_CHACHA20_POLY1305_SHA256 => 0xccad
  | TLS_RSA_PSK_WITH_CHACHA20_POLY1305_SHA256 => 0xccae
  | SSL_RSA_FIPS_WITH_DES_CBC_SHA => 0xfefe
  | SSL_RSA_FIPS_WITH_3DES_EDE_CBC_SHA => 0xfeff
  | Unknown x => x
  end%Z.

Definition CipherSuite_vals : list (CipherSuite * Z) :=
  [(TLS_NULL_WITH_NULL_NULL, 0x0000);
   (TLS_RSA_WITH_NULL_MD5, 0x0001);
   (TLS_RSA_WITH_NULL_SHA, 0x0002);
   (TLS_RSA_EXPORT_WITH_RC4_40_MD5, 0x0003);
   (TLS_RSA_WITH_RC4_128_MD5, 0x0004);
   (TLS_RSA_WITH_RC4_128_SHA, 0x0005);
   (TLS_RSA_EXPORT_WITH_RC2_CBC_40_MD5, 0x0006);
   (TLS_RSA_WITH_IDEA_CBC_SHA, 0x0007);
   (TLS_RSA_EXPORT_WITH_DES40_CBC_SHA, 0x0008);
   (TLS_RSA_WITH_DES_CBC_SHA, 0x0009);
   (TLS_RSA_WITH_3DES_EDE_CBC_SHA, 0x000a);
   (TLS_DH_DSS_EXPORT_WITH_DES40_CBC_SHA, 0x000b);
   (TLS_DH_DSS_WITH_DES_CBC_SHA, 0x000c);
   (TLS_DH_DSS_WITH_3DES_EDE_CBC_SHA, 0x000d);
   (TLS_DH_RSA_EXPORT_WITH_DES40_CBC_SHA, 0x000e);
   (TLS_DH_RSA_WITH_DES_CBC_SHA, 0x000f);
   (TLS_DH_RSA_WITH_3DES_EDE_CBC_SHA, 0x0010);
   (TLS_DHE_DSS_EXPORT_WITH_DES40_CBC_SHA, 0x0011);
   (TLS_DHE_DSS_WITH_DES_CBC_SHA, 0x0012);
   (TLS_DHE_DSS_WITH_3DES_EDE_CBC_SHA, 0x0013);
   (TLS_DHE_RSA_EXPORT_WITH_DES40_CBC_SHA, 0x0014);
   (TLS_DHE_RSA_WITH_DES_CBC_SHA, 0x0015);
   (TLS_DHE_RSA_WITH_3DES_EDE_CBC_SHA, 0x0016);
   (TLS_DH_anon_EXPORT_WITH_RC4_40_MD5, 0x0017);
   (TLS_DH_anon_WITH_RC4_128_MD5, 0x0018);
   (TLS_DH_anon_EXPORT_WITH_DES40_CBC_SHA, 0x0019);
   (TLS_DH_anon_WITH_DES_CBC_SHA, 0x001a);
   (TLS_DH_anon_WITH_3DES_EDE_CBC_SHA, 0x001b);
   (SSL_FORTEZZA_KEA_WITH_NULL_SHA, 0x001c);
   (SSL_FORTEZZA_KEA_WITH_FORTEZZA_CBC_SHA, 0x001d);
   (TLS_KRB5_WITH_DES_CBC_SHA_or_SSL_FORTEZZA_KEA_WITH_RC4_128_SHA, 0x001e);
   (TLS_KRB5_WITH_3DES_EDE_CBC_SHA, 0x001f);
   (TLS_KRB5_WITH_RC4_128_SHA, 0x0020);
   (TLS_KRB5_WITH_IDEA_CBC_SHA, 0x0021);
   (TLS_KRB5_WITH_DES_CBC_MD5, 0x0022);
   (TLS_KRB5_WITH_3DES_EDE_CBC_MD5, 0x0023);
   (TLS_KRB5_WITH_RC4_128_MD5, 0x0024);
   (TLS_KRB5_WITH_IDEA_CBC_MD5, 0x0025);
   (TLS_KRB5_EXPORT_WITH_DES_CBC_40_SHA, 0x0026);
   (TLS_KRB5_EXPORT_WITH_RC2_CBC_40_SHA, 0x0027);
   (TLS_KRB5_EXPORT_WITH_RC4_40_SHA, 0x0028);
   (TLS_KRB5_EXPORT_WITH_DES_CBC_40_MD5, 0x0029);
   (TLS_KRB5_EXPORT_WITH_RC2_CBC_40_MD5, 0x002a);
   (TLS_KRB5_EXPORT_WITH_RC4_40_MD5, 0x002b);
   (TLS_PSK_WITH_NULL_SHA, 0x002c);
   (TLS_DHE_PSK_WITH_NULL_SHA, 0x002d);
   (TLS_RSA_PSK_WITH_NULL_SHA, 0x002e);
   (TLS_RSA_WITH_AES_128_CBC_SHA, 0x002f);
   (TLS_DH_DSS_WITH_AES_128_CBC_SHA, 0x0030);
   (TLS_DH_RSA_WITH_AES_128_CBC_SHA, 0x0031);
   (TLS_DHE_DSS_WITH_AES_128_CBC_SHA, 0x0032);
   (TLS_DHE_RSA_WITH_AES_128_CBC_SHA, 0x0033);
   (TLS_DH_anon_WITH_AES_128_CBC_SHA, 0x0034);
   (TLS_RSA_WITH_AES_256_CBC_SHA, 0x0035);
   (TLS_DH_DSS_WITH_AES_256_CBC_SHA, 0x0036);
   (TLS_DH_RSA_WITH_AES_256_CBC_SHA, 0x0037);
   (TLS_DHE_DSS_WITH_AES_256_CBC_SHA, 0x0038);
   (TLS_DHE_RSA_WITH_AES_256_CBC_SHA, 0x0039);
   (TLS_DH_anon_WITH_AES_256_CBC_SHA, 0x003a);
   (TLS_RSA_WITH_NULL_SHA256, 0x003b);
   (TLS_RSA_WITH_AES_128_CBC_SHA256, 0x003c);
   (TLS_RSA_WITH_AES_256_CBC_SHA256, 0x003d);
   (TLS_DH_DSS_WITH_AES_128_CBC_SHA256, 0x003e);
   (TLS_DH_RSA_WITH_AES_128_CBC_SHA256, 0x003f);
   (TLS_DHE_DSS_WITH_AES_128_CBC_SHA256, 0x0040);
   (TLS_RSA_WITH_CAMELLIA_128_CBC_SHA, 0x0041);
   (TLS_DH_DSS_WITH_CAMELLIA_128_CBC_SHA, 0x0042);
   (TLS_DH_RSA_WITH_CAMELLIA_128_CBC_SHA, 0x0043);
   (TLS_DHE_DSS_WITH_CAMELLIA_128_CBC_SHA, 0x0044);
   (TLS_DHE_RSA_WITH_CAMELLIA_128_CBC_SHA, 0x0045);
   (TLS_DH_anon_WITH_CAMELLIA_128_CBC_SHA, 0x0046);
   (TLS_ECDH_ECDSA_WITH_NULL_SHA_draft, 0x0047);
   (TLS_ECDH_ECDSA_WITH_RC4_128_SHA_draft, 0x0048);
   (TLS_ECDH_ECDSA_WITH_DES_CBC_SHA_draft, 0x0049);
   (TLS_ECDH_ECDSA_WITH_3DES_EDE_CBC_SHA_draft, 0x004a);
   (TLS_ECDH_ECDSA_WITH_AES_128_CBC_SHA_draft, 0x004b);
   (TLS_ECDH_ECDSA_WITH_AES_256_CBC_SHA_draft, 0x004c);
   (TLS_ECDH_ECNRA_WITH_DES_CBC_SHA_draft, 0x004d);
   (TLS_ECDH_ECNRA_WITH_3DES_EDE_CBC_SHA_draft, 0x004e);
   (TLS_ECMQV_ECDSA_NULL_SHA_draft, 0x004f);
   (TLS_ECMQV_ECDSA_WITH_RC4_128_SHA_draft, 0x0050);
   (TLS_ECMQV_ECDSA_WITH_DES_CBC_SHA_draft, 0x0051);
   (TLS_ECMQV_ECDSA_WITH_3DES_EDE_CBC_SHA_draft, 0x0052);
   (TLS_ECMQV_ECNRA_NULL_SHA_draft, 0x0053);
   (TLS_ECMQV_ECNRA_WITH_RC4_128_SHA_draft, 0x0054);
   (TLS_ECMQV_ECNRA_WITH_DES_CBC_SHA_draft, 0x0055);
   (TLS_ECMQV_ECNRA_WITH_3DES_EDE_CBC_SHA_draft, 0x0056);
   (TLS_ECDH_anon_NULL_WITH_SHA_draft, 0x0057);
   (TLS_ECDH_anon_WITH_RC4_128_SHA_draft, 0x0058);
   (TLS_ECDH_anon_WITH_DES_CBC_SHA_draft, 0x0059);
   (TLS_ECDH_anon_WITH_3DES_EDE_CBC_SHA_draft, 0x005a);
   (TLS_ECDH_anon_EXPORT_WITH_DES40_CBC_SHA_draft, 0x005b);
   (TLS_ECDH_anon_EXPORT_WITH_RC4_40_SHA_draft, 0x005c);
   (TLS_RSA_EXPORT1024_WITH_RC4_56_MD5, 0x0060);
   (TLS_RSA_EXPORT1024_WITH_RC2_CBC_56_MD5, 0x0061);
   (TLS_RSA_EXPORT1024_WITH_DES_CBC_SHA, 0x0062);
   (TLS_DHE_DSS_EXPORT1024_WITH_DES_CBC_SHA, 0x0063);
   (TLS_RSA_EXPORT1024_WITH_RC4_56_SHA, 0x0064);
   (TLS_DHE_DSS_EXPORT1024_WITH_RC4_56_SHA, 0x0065);
   (TLS_DHE_DSS_WITH_RC4_128_SHA, 0x0066);
   (TLS_DHE_RSA_WITH_AES_128_CBC_SHA256, 0x0067);
   (TLS_DH_DSS_WITH_AES_256_CBC_SHA256, 0x0068);
   (TLS_DH_RSA_WITH_AES_256_CBC_SHA256, 0x0069);
   (TLS_DHE_DSS_WITH_AES_256_CBC_SHA256, 0x006a);
   (TLS_DHE_RSA_WITH_AES_256_CBC_SHA256, 0x006b);
   (TLS_DH_anon_WITH_AES_128_CBC_SHA256, 0x006c);
   (TLS_DH_anon_WITH_AES_256_CBC_SHA256, 0x006d);
   (TLS_DHE_DSS_WITH_3DES_EDE_CBC_RMD, 0x0072);
   (TLS_DHE_DSS_WITH_AES_128_CBC_RMD, 0x0073);
   (TLS_DHE_DSS_WITH_AES_256_CBC_RMD, 0x0074);
   (TLS_DHE_RSA_WITH_3DES_EDE_CBC_RMD, 0x0077);
   (TLS_DHE_RSA_WITH_AES_128_CBC_RMD, 0x0078);
   (TLS_DHE_RSA_WITH_AES_256_CBC_RMD, 0x0079);
   (TLS_RSA_WITH_3DES_EDE_CBC_RMD, 0x007c);
   (TLS_RSA_WITH_AES_128_CBC_RMD, 0x007d);
   (TLS_RSA_WITH_AES_256_CBC_RMD, 0x007e);
   (TLS_GOSTR341094_WITH_28147_CNT_IMIT, 0x0080);
   (TLS_GOSTR341001_WITH_28147_CNT_IMIT, 0x0081);
   (TLS_GOSTR341094_WITH_NULL_GOSTR3411, 0x0082);
   (TLS_GOSTR341001_WITH_NULL_GOSTR3411, 0x0083);
   (TLS_RSA_WITH_CAMELLIA_256_CBC_SHA, 0x0084);
   (TLS_DH_DSS_WITH_CAMELLIA_256_CBC_SHA, 0x0085);
   (TLS_DH_RSA_WITH_CAMELLIA_256_CBC_SHA, 0x0086);
   (TLS_DHE_DSS_WITH_CAMELLIA_256_CBC_SHA, 0x0087);
   (TLS_DHE_RSA_WITH_CAMELLIA_256_CBC_SHA, 0x0088);
   (TLS_DH_anon_WITH_CAMELLIA_256_CBC_SHA, 0x0089);
   (TLS_PSK_WITH_RC4_128_SHA, 0x008a);
   (TLS_PSK_WITH_3DES_EDE_CBC_SHA, 0x008b);
   (TLS_PSK_WITH_AES_128_CBC_SHA, 0x008c);
   (TLS_PSK_WITH_AES_256_CBC_SHA, 0x008d);
   (TLS_DHE_PSK_WITH_RC4_128_SHA, 0x008e);
   (TLS_DHE_PSK_WITH_3DES_EDE_CBC_SHA, 0x008f);
   (TLS_DHE_PSK_WITH_AES_128_CBC_SHA, 0x0090);
   (TLS_DHE_PSK_WITH_AES_256_CBC_SHA, 0x0091);
   (TLS_RSA_PSK_WITH_RC4_128_SHA, 0x0092);
   (TLS_RSA_PSK_WITH_3DES_EDE_CBC_SHA, 0x0093);
   (TLS_RSA_PSK_WITH_AES_128_CBC_SHA, 0x0094);
   (TLS_RSA_PSK_WITH_AES_256_CBC_SHA, 0x0095);
   (TLS_RSA_WITH_SEED_CBC_SHA, 0x0096);
   (TLS_DH_DSS_WITH_SEED_CBC_SHA, 0x0097);
   (TLS_DH_RSA_WITH_SEED_CBC_SHA, 0x0098);
   (TLS_DHE_DSS_WITH_SEED_CBC_SHA, 0x0099);
   (TLS_DHE_RSA_WITH_SEED_CBC_SHA, 0x009a);
   (TLS_DH_anon_WITH_SEED_CBC_SHA, 0x009b);
   (TLS_RSA_WITH_AES_128_GCM_SHA256, 0x009c);
   (TLS_RSA_WITH_AES_256_GCM_SHA384, 0x009d);
   (TLS_DHE_RSA_WITH_AES_128_GCM_SHA256, 0x009e);
   (TLS_DHE_RSA_WITH_AES_256_GCM_SHA384, 0x009f);
   (TLS_DH_RSA_WITH_AES_128_GCM_SHA256, 0x00a0);
   (TLS_DH_RSA_WITH_AES_256_GCM_SHA384, 0x00a1);
   (TLS_DHE_DSS_WITH_AES_128_GCM_SHA256, 0x00a2);
   (TLS_DHE_DSS_WITH_AES_256_GCM_SHA384, 0x00a3);
   (TLS_DH_DSS_WITH_AES_128_GCM_SHA256, 0x00a4);
   (TLS_DH_DSS_WITH_AES_256_GCM_SHA384, 0x00a5);
   (TLS_DH_anon_WITH_AES_128_GCM_SHA256, 0x00a6);
   (TLS_DH_anon_WITH_AES_256_GCM_SHA384, 0x00a7);
   (TLS_PSK_WITH_AES_128_GCM_SHA256, 0x00a8);
   (TLS_PSK_WITH_AES_256_GCM_SHA384, 0x00a9);
   (TLS_DHE_PSK_WITH_AES_128_GCM_SHA256, 0x00aa);
   (TLS_DHE_PSK_WITH_AES_256_GCM_SHA384, 0x00ab);
   (TLS_RSA_PSK_WITH_AES_128_GCM_SHA256, 0x00ac);
   (TLS_RSA_PSK_WITH_AES_256_GCM_SHA384, 0x00ad);
   (TLS_PSK_WITH_AES_128_CBC_SHA256, 0x00ae);
   (TLS_PSK_WITH_AES_256_CBC_SHA384, 0x00af);
   (TLS_PSK_WITH_NULL_SHA256, 0x00b0);
   (TLS_PSK_WITH_NULL_SHA384, 0x00b1);
   (TLS_DHE_PSK_WITH_AES_128_CBC_SHA256, 0x00b2);
   (TLS_DHE_PSK_WITH_AES_256_CBC_SHA384, 0x00b3);
   (TLS_DHE_PSK_WITH_NULL_SHA256, 0x00b4);
   (TLS_DHE_PSK_WITH_NULL_SHA384, 0x00b5);
   (TLS_RSA_PSK_WITH_AES_128_CBC_SHA256, 0x00b6);
   (TLS_RSA_PSK_WITH_AES_256_CBC_SHA384, 0x00b7);
   (TLS_RSA_PSK_WITH_NULL_SHA256, 0x00b8);
   (TLS_RSA_PSK_WITH_NULL_SHA384, 0x00b9);
   (TLS_RSA_WITH_CAMELLIA_128_CBC_SHA256, 0x00ba);
   (TLS_DH_DSS_WITH_CAMELLIA_128_CBC_SHA256, 0x00bb);
   (TLS_DH_RSA_WITH_CAMELLIA_128_CBC_SHA256, 0x00bc);
   (TLS_DHE_DSS_WITH_CAMELLIA_128_CBC_SHA256, 0x00bd);
   (TLS_DHE_RSA_WITH_CAMELLIA_128_CBC_SHA256, 0x00be);
   (TLS_DH_anon_WITH_CAMELLIA_128_CBC_SHA256, 0x00bf);
   (TLS_RSA_WITH_CAMELLIA_256_CBC_SHA256, 0x00c0);
   (TLS_DH_DSS_WITH_CAMELLIA_256_CBC_SHA256, 0x00c1);
   (TLS_DH_RSA_WITH_CAMELLIA_256_CBC_SHA256, 0x00c2);
   (TLS_DHE_DSS_WITH_CAMELLIA_256_CBC_SHA256, 0x00c3);
   (TLS_DHE_RSA_WITH_CAMELLIA_256_CBC_SHA256, 0x00c4);
   (TLS_DH_anon_WITH_CAMELLIA_256_CBC_SHA256, 0x00c5);
   (TLS_EMPTY_RENEGOTIATION_INFO_SCSV, 0x00ff);
   (TLS13_AES_128_GCM_SHA256, 0x1301);
   (TLS13_AES_256_GCM_SHA384, 0x1302);
   (TLS13_CHACHA20_POLY1305_SHA256, 0x1303);
   (TLS13_AES_128_CCM_SHA256, 0x1304);
   (TLS13_AES_128_CCM_8_SHA256, 0x1305);
   (TLS_ECDH_ECDSA_WITH_NULL_SHA, 0xc001);
   (TLS_ECDH_ECDSA_WITH_RC4_128_SHA, 0xc002);
   (TLS_ECDH_ECDSA_WITH_3DES_EDE_CBC_SHA, 0xc003);
   (TLS_ECDH_ECDSA_WITH_AES_128_CBC_SHA, 0xc004);
   (TLS_ECDH_ECDSA_WITH_AES_256_CBC_SHA, 0xc005);
   (TLS_ECDHE_ECDSA_WITH_NULL_SHA, 0xc006);
   (TLS_ECDHE_ECDSA_WITH_RC4_128_SHA, 0xc007);
   (TLS_ECDHE_ECDSA_WITH_3DES_EDE_CBC_SHA, 0xc008);
   (TLS_ECDHE_ECDSA_WITH_AES_128_CBC_SHA, 0xc009);
   (TLS_ECDHE_ECDSA_WITH_AES_256_CBC_SHA, 0xc00a);
   (TLS_ECDH_RSA_WITH_NULL_SHA, 0xc00b);
   (TLS_ECDH_RSA_WITH_RC4_128_SHA, 0xc00c);
   (TLS_ECDH_RSA_WITH_3DES_EDE_CBC_SHA, 0xc00d);
   (TLS_ECDH_RSA_WITH_AES_128_CBC_SHA, 0xc00e);
   (TLS_ECDH_RSA_WITH_AES_256_CBC_SHA, 0xc00f);
   (TLS_ECDHE_RSA_WITH_NULL_SHA, 0xc010);
   (TLS_ECDHE_RSA_WITH_RC4_128_SHA, 0xc011);
   (TLS_ECDHE_RSA_WITH_3DES_EDE_CBC_SHA, 0xc012);
   (TLS_ECDHE_RSA_WITH_AES_128_CBC_SHA, 0xc013);
   (TLS_ECDHE_RSA_WITH_AES_256_CBC_SHA, 0xc014);
   (TLS_ECDH_anon_WITH_NULL_SHA, 0xc015);
   (TLS_ECDH_anon_WITH_RC4_128_SHA, 0xc016);
   (TLS_ECDH_anon_WITH_3DES_EDE_CBC_SHA, 0xc017);
   (TLS_ECDH_anon_WITH_AES_128_CBC_SHA, 0xc018);
   (TLS_ECDH_anon_WITH_AES_256_CBC_SHA, 0xc019);
   (TLS_SRP_SHA_WITH_3DES_EDE_CBC_SHA, 0xc01a);
   (TLS_SRP_SHA_RSA_WITH_3DES_EDE_CBC_SHA, 0xc01b);
   (TLS_SRP_SHA_DSS_WITH_3DES_EDE_CBC_SHA, 0xc01c);
   (TLS_SRP_SHA_WITH_AES_128_CBC_SHA, 0xc01d);
   (TLS_SRP_SHA_RSA_WITH_AES_128_CBC_SHA, 0xc01e);
   (TLS_SRP_SHA_DSS_WITH_AES_128_CBC_SHA, 0xc01f);
   (TLS_SRP_SHA_WITH_AES_256_CBC_SHA, 0xc020);
   (TLS_SRP_SHA_RSA_WITH_AES_256_CBC_SHA, 0xc021);
   (TLS_SRP_SHA_DSS_WITH_AES_256_CBC_SHA, 0xc022);
   (TLS_ECDHE_ECDSA_WITH_AES_128_CBC_SHA256, 0xc023);
   (TLS_ECDHE_ECDSA_WITH_AES_256_CBC_SHA384, 0xc024);
   (TLS_ECDH_ECDSA_WITH_AES_128_CBC_SHA256, 0xc025);
   (TLS_ECDH_ECDSA_WITH_AES_256_CBC_SHA384, 0xc026);
   (TLS_ECDHE_RSA_WITH_AES_128_CBC_SHA256, 0xc027);
   (TLS_ECDHE_RSA_WITH_AES_256_CBC_SHA384, 0xc028);
   (TLS_ECDH_RSA_WITH_AES_128_CBC_SHA256, 0xc029);
   (TLS_ECDH_RSA_WITH_AES_256_CBC_SHA384, 0xc02a);
   (TLS_ECDHE_ECDSA_WITH_AES_128_GCM_SHA256, 0xc02b);
   (TLS_ECDHE_ECDSA_WITH_AES_256_GCM_SHA384, 0xc02c);
   (TLS_ECDH_ECDSA_WITH_AES_128_GCM_SHA256, 0xc02d);
   (TLS_ECDH_ECDSA_WITH_AES_256_GCM_SHA384, 0xc02e);
   (TLS_ECDHE_RSA_WITH_AES_128_GCM_SHA256, 0xc02f);
   (TLS_ECDHE_RSA_WITH_AES_256_GCM_SHA384, 0xc030);
   (TLS_ECDH_RSA_WITH_AES_128_GCM_SHA256, 0xc031);
   (TLS_ECDH_RSA_WITH_AES_256_GCM_SHA384, 0xc032);
   (TLS_ECDHE_PSK_WITH_RC4_128_SHA, 0xc033);
   (TLS_ECDHE_PSK_WITH_3DES_EDE_CBC_SHA, 0xc034);
   (TLS_ECDHE_PSK_WITH_AES_128_CBC_SHA, 0xc035);
   (TLS_ECDHE_PSK_WITH_AES_256_CBC_SHA, 0xc036);
   (TLS_ECDHE_PSK_WITH_AES_128_CBC_SHA256, 0xc037);
   (TLS_ECDHE_PSK_WITH_AES_256_CBC_SHA384, 0xc038);
   (TLS_ECDHE_PSK_WITH_NULL_SHA, 0xc039);
   (TLS_ECDHE_PSK_WITH_NULL_SHA256, 0xc03a);
   (TLS_ECDHE_PSK_WITH_NULL_SHA384, 0xc03b);
   (TLS_RSA_WITH_ARIA_128_CBC_SHA256, 0xc03c);
   (TLS_RSA_WITH_ARIA_256_CBC_SHA384, 0xc03d);
   (TLS_DH_DSS_WITH_ARIA_128_CBC_SHA256, 0xc03e);
   (TLS_DH_DSS_WITH_ARIA_256_CBC_SHA384, 0xc03f);
   (TLS_DH_RSA_WITH_ARIA_128_CBC_SHA256, 0xc040);
   (TLS_DH_RSA_WITH_ARIA_256_CBC_SHA384, 0xc041);
   (TLS_DHE_DSS_WITH_ARIA_128_CBC_SHA256, 0xc042);
   (TLS_DHE_DSS_WITH_ARIA_256_CBC_SHA384, 0xc043);
   (TLS_DHE_RSA_WITH_ARIA_128_CBC_SHA256, 0xc044);
   (TLS_DHE_RSA_WITH_ARIA_256_CBC_SHA384, 0xc045);
   (TLS_DH_anon_WITH_ARIA_128_CBC_SHA256, 0xc046);
   (TLS_DH_anon_WITH_ARIA_256_CBC_SHA384, 0xc047);
   (TLS_ECDHE_ECDSA_WITH_ARIA_128_CBC_SHA256, 0xc048);
   (TLS_ECDHE_ECDSA_WITH_ARIA_256_CBC_SHA384, 0xc049);
   (TLS_ECDH_ECDSA_WITH_ARIA_128_CBC_SHA256, 0xc04a);
   (TLS_ECDH_ECDSA_WITH_ARIA_256_CBC_SHA384, 0xc04b);
   (TLS_ECDHE_RSA_WITH_ARIA_128_CBC_SHA256, 0xc04c);
   (TLS_ECDHE_RSA_WITH_ARIA_256_CBC_SHA384, 0xc04d);
   (TLS_ECDH_RSA_WITH_ARIA_128_CBC_SHA256, 0xc04e);
   (TLS_ECDH_RSA_WITH_ARIA_256_CBC_SHA384, 0xc04f);
   (TLS_RSA_WITH_ARIA_128_GCM_SHA256, 0xc050);
   (TLS_RSA_WITH_ARIA_256_GCM_SHA384, 0xc051);
   (TLS_DHE_RSA_WITH_ARIA_128_GCM_SHA256, 0xc052);
   (TLS_DHE_RSA_WITH_ARIA_256_GCM_SHA384, 0xc053);
   (TLS_DH_RSA_WITH_ARIA_128_GCM_SHA256, 0xc054);
   (TLS_DH_RSA_WITH_ARIA_256_GCM_SHA384, 0xc055);
   (TLS_DHE_DSS_WITH_ARIA_128_GCM_SHA256, 0xc056);
   (TLS_DHE_DSS_WITH_ARIA_256_GCM_SHA384, 0xc057);
   (TLS_DH_DSS_WITH_ARIA_128_GCM_SHA256, 0xc058);
   (TLS_DH_DSS_WITH_ARIA_256_GCM_SHA384, 0xc059);
   (TLS_DH_anon_WITH_ARIA_128_GCM_SHA256, 0xc05a);
   (TLS_DH_anon_WITH_ARIA_256_GCM_SHA384, 0xc05b);
   (TLS_ECDHE_ECDSA_WITH_ARIA_128_GCM_SHA256, 0xc05c);
   (TLS_ECDHE_ECDSA_WITH_ARIA_256_GCM_SHA384, 0xc05d);
   (TLS_ECDH_ECDSA_WITH_ARIA_128_GCM_SHA256, 0xc05e);
   (TLS_ECDH_ECDSA_WITH_ARIA_256_GCM_SHA384, 0xc05f);
   (TLS_ECDHE_RSA_WITH_ARIA_128_GCM_SHA256, 0xc060);
   (TLS_ECDHE_RSA_WITH_ARIA_256_GCM_SHA384, 0xc061);
   (TLS_ECDH_RSA_WITH_ARIA_128_GCM_SHA256, 0xc062);
   (TLS_ECDH_RSA_WITH_ARIA_256_GCM_SHA384, 0xc063);
   (TLS_PSK_WITH_ARIA_128_CBC_SHA256, 0xc064);
   (TLS_PSK_WITH_ARIA_256_CBC_SHA384, 0xc065);
   (TLS_DHE_PSK_WITH_ARIA_128_CBC_SHA256, 0xc066);
   (TLS_DHE_PSK_WITH_ARIA_256_CBC_SHA384, 0xc067);
   (TLS_RSA_PSK_WITH_ARIA_128_CBC_SHA256, 0xc068);
   (TLS_RSA_PSK_WITH_ARIA_256_CBC_SHA384, 0xc069);
   (TLS_PSK_WITH_ARIA_128_GCM_SHA256, 0xc06a);
   (TLS_PSK_WITH_ARIA_256_GCM_SHA384, 0xc06b);
   (TLS_DHE_PSK_WITH_ARIA_128_GCM_SHA256, 0xc06c);
   (TLS_DHE_PSK_WITH_ARIA_256_GCM_SHA384, 0xc06d);
   (TLS_RSA_PSK_WITH_ARIA_128_GCM_SHA256, 0xc06e);
   (TLS_RSA_PSK_WITH_ARIA_256_GCM_SHA384, 0xc06f);
   (TLS_ECDHE_PSK_WITH_ARIA_128_CBC_SHA256, 0xc070);
   (TLS_ECDHE_PSK_WITH_ARIA_256_CBC_SHA384, 0xc071);
   (TLS_ECDHE_ECDSA_WITH_CAMELLIA_128_CBC_SHA256, 0xc072);
   (TLS_ECDHE_ECDSA_WITH_CAMELLIA_256_CBC_SHA384, 0xc073);
   (TLS_ECDH_ECDSA_WITH_CAMELLIA_128_CBC_SHA256, 0xc074);
   (TLS_ECDH_ECDSA_WITH_CAMELLIA_256_CBC_SHA384, 0xc075);
   (TLS_ECDHE_RSA_WITH_CAMELLIA_128_CBC_SHA256, 0xc076);
   (TLS_ECDHE_RSA_WITH_CAMELLIA_256_CBC_SHA384, 0xc077);
   (TLS_ECDH_RSA_WITH_CAMELLIA_128_CBC_SHA256, 0xc078);
   (TLS_ECDH_RSA_WITH_CAMELLIA_256_CBC_SHA384, 0xc079);
   (TLS_RSA_WITH_CAMELLIA_128_GCM_SHA256, 0xc07a);
   (TLS_RSA_WITH_CAMELLIA_256_GCM_SHA384, 0xc07b);
   (TLS_DHE_RSA_WITH_CAMELLIA_128_GCM_SHA256, 0xc07c);
   (TLS_DHE_RSA_WITH_CAMELLIA_256_GCM_SHA384, 0xc07d);
   (TLS_DH_RSA_WITH_CAMELLIA_128_GCM_SHA256, 0xc07e);
   (TLS_DH_RSA_WITH_CAMELLIA_256_GCM_SHA384, 0xc07f);
   (TLS_DHE_DSS_WITH_CAMELLIA_128_GCM_SHA256, 0xc080);
   (TLS_DHE_DSS_WITH_CAMELLIA_256_GCM_SHA384, 0xc081);
   (TLS_DH_DSS_WITH_CAMELLIA_128_GCM_SHA256, 0xc082);
   (TLS_DH_DSS_WITH_CAMELLIA_256_GCM_SHA384, 0xc083);
   (TLS_DH_anon_WITH_CAMELLIA_128_GCM_SHA256, 0xc084);
   (TLS_DH_anon_WITH_CAMELLIA_256_GCM_SHA384, 0xc085);
   (TLS_ECDHE_ECDSA_WITH_CAMELLIA_128_GCM_SHA256, 0xc086);
   (TLS_ECDHE_ECDSA_WITH_CAMELLIA_256_GCM_SHA384, 0xc087);
   (TLS_ECDH_ECDSA_WITH_CAMELLIA_128_GCM_SHA256, 0xc088);
   (TLS_ECDH_ECDSA_WITH_CAMELLIA_256_GCM_SHA384, 0xc089);
   (TLS_ECDHE_RSA_WITH_CAMELLIA_128_GCM_SHA256, 0xc08a);
   (TLS_ECDHE_RSA_WITH_CAMELLIA_256_GCM_SHA384, 0xc08b);
   (TLS_ECDH_RSA_WITH_CAMELLIA_128_GCM_SHA256, 0xc08c);
   (TLS_ECDH_RSA_WITH_CAMELLIA_256_GCM_SHA384, 0xc08d);
   (TLS_PSK_WITH_CAMELLIA_128_GCM_SHA256, 0xc08e);
   (TLS_PSK_WITH_CAMELLIA_256_GCM_SHA384, 0xc08f);
   (TLS_DHE_PSK_WITH_CAMELLIA_128_GCM_SHA256, 0xc090);
   (TLS_DHE_PSK_WITH_CAMELLIA_256_GCM_SHA384, 0xc091);
   (TLS_RSA_PSK_WITH_CAMELLIA_128_GCM_SHA256, 0xc092);
   (TLS_RSA_PSK_WITH_CAMELLIA_256_GCM_SHA384, 0xc093);
   (TLS_PSK_WITH_CAMELLIA_128_CBC_SHA256, 0xc094);
   (TLS_PSK_WITH_CAMELLIA_256_CBC_SHA384, 0xc095);
   (TLS_DHE_PSK_WITH_CAMELLIA_128_CBC_SHA256, 0xc096);
   (TLS_DHE_PSK_WITH_CAMELLIA_256_CBC_SHA384, 0xc097);
   (TLS_RSA_PSK_WITH_CAMELLIA_128_CBC_SHA256, 0xc098);
   (TLS_RSA_PSK_WITH_CAMELLIA_256_CBC_SHA384, 0xc099);
   (TLS_ECDHE_PSK_WITH_CAMELLIA_128_CBC_SHA256, 0xc09a);
   (TLS_ECDHE_PSK_WITH_CAMELLIA_256_CBC_SHA384, 0xc09b);
   (TLS_RSA_WITH_AES_128_CCM, 0xc09c);
   (TLS_RSA_WITH_AES_256_CCM, 0xc09d);
   (TLS_DHE_RSA_WITH_AES_128_CCM, 0xc09e);
   (TLS_DHE_RSA_WITH_AES_256_CCM, 0xc09f);
   (TLS_RSA_WITH_AES_128_CCM_8, 0xc0a0);
   (TLS_RSA_WITH_AES_256_CCM_8, 0xc0a1);
   (TLS_DHE_RSA_WITH_AES_128_CCM_8, 0xc0a2);
   (TLS_DHE_RSA_WITH_AES_256_CCM_8, 0xc0a3);
   (TLS_PSK_WITH_AES_128_CCM, 0xc0a4);
   (TLS_PSK_WITH_AES_256_CCM, 0xc0a5);
   (TLS_DHE_PSK_WITH_AES_128_CCM, 0xc0a6);
   (TLS_DHE_PSK_WITH_AES_256_CCM, 0xc0a7);
   (TLS_PSK_WITH_AES_128_CCM_8, 0xc0a8);
   (TLS_PSK_WITH_AES_256_CCM_8, 0xc0a9);
   (TLS_PSK_DHE_WITH_AES_128_CCM_8, 0xc0aa);
   (TLS_PSK_DHE_WITH_AES_256_CCM_8, 0xc0ab);
   (TLS_ECDHE_ECDSA_WITH_AES_128_CCM, 0xc0ac);
   (TLS_ECDHE_ECDSA_WITH_AES_256_CCM, 0xc0ad);
   (TLS_ECDHE_ECDSA_WITH_AES_128_CCM_8, 0xc0ae);
   (TLS_ECDHE_ECDSA_WITH_AES_256_CCM_8, 0xc0af);
   (TLS_ECDHE_RSA_WITH_CHACHA20_POLY1305_SHA256, 0xcca8);
   (TLS_ECDHE_ECDSA_WITH_CHACHA20_POLY1305_SHA256, 0xcca9);
   (TLS_DHE_RSA_WITH_CHACHA20_POLY1305_SHA256, 0xccaa);
   (TLS_PSK_WITH_CHACHA20_POLY1305_SHA256, 0xccab);
   (TLS_ECDHE_PSK_WITH_CHACHA20_POLY1305_SHA256, 0xccac);
   (TLS_DHE_PSK_WITH_CHACHA20_POLY1305_SHA256, 0xccad);
   (TLS_RSA_PSK_WITH_CHACHA20_POLY1305_SHA256, 0xccae);
   (SSL_RSA_FIPS_WITH_DES_CBC_SHA, 0xfefe);
   (SSL_RSA_FIPS_WITH_3DES_EDE_CBC_SHA, 0xfeff)]%Z.

#[global] Instance CipherSuite_enum : EnumBuilder CipherSuite := {|
  enum_width := W16;
  enum_name := "CipherSuite";
  enum_vals := CipherSuite_vals;
  enum_Unknown := Unknown;
  is_unknown x := match x with Unknown _ => true | _ => false end;
  get_val := CipherSuite_get_u16
|}.

#[global] Instance CipherSuite_enum_ok : EnumBuilderOk CipherSuite.
Proof. enum_ok. Qed.
End CipherSuite.
Abbreviation CipherSuite := CipherSuite.CipherSuite.

Module SignatureScheme.
Inductive SignatureScheme : Type :=
  | RSA_PKCS1_SHA1
  | ECDSA_SHA1_Legacy
  | RSA_PKCS1_SHA256
  | ECDSA_NISTP256_SHA256
  | RSA_PKCS1_SHA384
  | ECDSA_NISTP384_SHA384
  | RSA_PKCS1_SHA512
  | ECDSA_NISTP521_SHA512
  | RSA_PSS_SHA256
  | RSA_PSS_SHA384
  | RSA_PSS_SHA512
  | ED25519
  | ED448
  | Unknown (x : Z).

Definition SignatureScheme_get_u16 (x : SignatureScheme) : Z :=
  match x with
  | RSA_PKCS1_SHA1 => 0x0201
  | ECDSA_SHA1_Legacy => 0x0203
  | RSA_PKCS1_SHA256 => 0x0401
  | ECDSA_NISTP256_SHA256 => 0x0403
  | RSA_PKCS1_SHA384 => 0x0501
  | ECDSA_NISTP384_SHA384 => 0x0503
  | RSA_PKCS1_SHA512 => 0x0601
  | ECDSA_NISTP521_SHA512 => 0x0603
  | RSA_PSS_SHA256 => 0x0804
  | RSA_PSS_SHA384 => 0x0805
  | RSA_PSS_SHA512 => 0x0806
  | ED25519 => 0x0807
  | ED448 => 0x0808
  | Unknown x => x
  end%Z.

Definition SignatureScheme_vals : list (SignatureScheme * Z) :=
  [(RSA_PKCS1_SHA1, 0x0201);
   (ECDSA_SHA1_Legacy, 0x0203);
   (RSA_PKCS1_SHA256, 0x0401);
   (ECDSA_NISTP256_SHA256, 0x0403);
   (RSA_PKCS1_SHA384, 0x0501);
   (ECDSA_NISTP384_SHA384, 0x0503);
   (RSA_PKCS1_SHA512, 0x0601);
   (ECDSA_NISTP521_SHA512, 0x0603);
   (RSA_PSS_SHA256, 0x0804);
   (RSA_PSS_SHA384, 0x0805);
   (RSA_PSS_SHA512, 0x0806);
   (ED25519, 0x0807);
   (ED448, 0x0808)]%Z.

#[global] Instance SignatureScheme_enum : EnumBuilder SignatureScheme := {|
  enum_width := W16;
  enum_name := "SignatureScheme";
  enum_vals := SignatureScheme_vals;
  enum_Unknown := Unknown;
  is_unknown x := match x with Unknown _ => true | _ => false end;
  get_val := SignatureScheme_get_u16
|}.

#[global] Instance SignatureScheme_enum_ok : EnumBuilderOk SignatureScheme.
Proof. enum_ok. Qed.
End SignatureScheme.
Abbreviation SignatureScheme := SignatureScheme.SignatureScheme.

Module SignatureAlgorithm.
Inductive SignatureAlgorithm : Type :=
  | Anonymous
  | RSA
  | DSA
  | ECDSA
  | ED25519
  | ED448
  | Unknown (x : Z).

Definition SignatureAlgorithm_get_u8 (x : SignatureAlgorithm) : Z :=
  match x with
  | Anonymous => 0x00
  | RSA => 0x01
  | DSA => 0x02
  | ECDSA => 0x03
  | ED25519 => 0x07
  | ED448 => 0x08
  | Unknown x => x
  end%Z.

Definition SignatureAlgorithm_vals : list (SignatureAlgorithm * Z) :=
  [(Anonymous, 0x00);
   (RSA, 0x01);
   (DSA, 0x02);
   (ECDSA, 0x03);
   (ED25519, 0x07);
   (ED448, 0x08)]%Z.

#[global] Instance SignatureAlgorithm_enum : EnumBuilder SignatureAlgorithm := {|
  enum_width := W8;
  enum_name := "SignatureAlgorithm";
  enum_vals := SignatureAlgorithm_vals;
  enum_Unknown := Unknown;
  is_unknown x := match x with Unknown _ => true | _ => false end;
  get_val := SignatureAlgorithm_get_u8
|}.

#[global] Instance SignatureAlgorithm_enum_ok : EnumBuilderOk SignatureAlgorithm.
Proof. enum_ok. Qed.
End SignatureAlgorithm.
Abbreviation SignatureAlgorithm := SignatureAlgorithm.SignatureAlgorithm.

Module HashAlgorithm.
Inductive HashAlgorithm : Type :=
  | NONE
  | MD5
  | SHA1
  | SHA224
  | SHA256
  | SHA384
  | SHA512
  | Unknown (x : Z).

Definition HashAlgorithm_get_u8 (x : HashAlgorithm) : Z :=
  match x with
  | NONE => 0x00
  | MD5 => 0x01
  | SHA1 => 0x02
  | SHA224 => 0x03
  | SHA256 => 0x04
  | SHA384 => 0x05
  | SHA512 => 0x06
  | Unknown x => x
  end%Z.

Definition HashAlgorithm_vals : list (HashAlgorithm * Z) :=
  [(NONE, 0x00);
   (MD5, 0x01);
   (SHA1, 0x02);
   (SHA224, 0x03);
   (SHA256, 0x04);
   (SHA384, 0x05);
   (SHA512, 0x06)]%Z.

#[global] Instance HashAlgorithm_enum : EnumBuilder HashAlgorithm := {|
  enum_width := W8;
  enum_name := "HashAlgorithm";
  enum_vals := HashAlgorithm_vals;
  enum_Unknown := Unknown;
  is_unknown x := match x with Unknown _ => true | _ => false end;
  get_val := HashAlgorithm_get_u8
|}.

#[global] Instance HashAlgorithm_enum_ok : EnumBuilderOk HashAlgorithm.
Proof. enum_ok. Qed.
End HashAlgorithm.
Abbreviation HashAlgorithm := HashAlgorithm.HashAlgorithm.

Module ClientCertificateType.
Inductive ClientCertificateType : Type :=
  | RSASign
  | DSSSign
  | RSAFixedDH
  | DSSFixedDH
  | RSAEphemeralDH
  | DSSEphemeralDH
  | FortezzaDMS
  | ECDSASign
  | RSAFixedECDH
  | ECDSAFixedECDH
  | Unknown (x : Z).

Definition ClientCertificateType_get_u8 (x : ClientCertificateType) : Z :=
  match x with
  | RSASign => 0x01
  | DSSSign => 0x02
  | RSAFixedDH => 0x03
  | DSSFixedDH => 0x04
  | RSAEphemeralDH => 0x05
  | DSSEphemeralDH => 0x06
  | FortezzaDMS => 0x14
  | ECDSASign => 0x40
  | RSAFixedECDH => 0x41
  | ECDSAFixedECDH => 0x42
  | Unknown x => x
  end%Z.

Definition ClientCertificateType_vals : list (ClientCertificateType * Z) :=
  [(RSASign, 0x01);
   (DSSSign, 0x02);
   (RSAFixedDH, 0x03);
   (DSSFixedDH, 0x04);
   (RSAEphemeralDH, 0x05);
   (DSSEphemeralDH, 0x06);
   (FortezzaDMS, 0x14);
   (ECDSASign, 0x40);
   (RSAFixedECDH, 0x41);
   (ECDSAFixedECDH, 0x42)]%Z.

#[global] Instance ClientCertificateType_enum : EnumBuilder ClientCertificateType := {|
  enum_width := W8;
  enum_name := "ClientCertificateType";
  enum_vals := ClientCertificateType_vals;
  enum_Unknown := Unknown;
  is_unknown x := match x with Unknown _ => true | _ => false end;
  get_val := ClientCertificateType_get_u8
|}.

#[global] Instance ClientCertificateType_enum_ok : EnumBuilderOk ClientCertificateType.
Proof. enum_ok. Qed.
End ClientCertificateType.
Abbreviation ClientCertificateType := ClientCertificateType.ClientCertificateType.

Module Compression.
Inductive Compression : Type :=
  | Null
  | Deflate
  | LSZ
  | Unknown (x : Z).

Definition Compression_get_u8 (x : Compression) : Z :=
  match x with
  | Null => 0x00
  | Deflate => 0x01
  | LSZ => 0x40
  | Unknown x => x
  end%Z.

Definition Compression_vals : list (Compression * Z) :=
  [(Null, 0x00);
   (Deflate, 0x01);
   (LSZ, 0x40)]%Z.

#[global] Instance Compression_enum : EnumBuilder Compression := {|
  enum_width := W8;
  enum_name := "Compression";
  enum_vals := Compression_vals;
  enum_Unknown := Unknown;
  is_unknown x := match x with Unknown _ => true | _ => false end;
  get_val := Compression_get_u8
|}.

#[global] Instance Compression_enum_ok : EnumBuilderOk Compression.
Proof. enum_ok. Qed.
End Compression.
Abbreviation Compression := Compression.Compression.

Module AlertLevel.
Inductive AlertLevel : Type :=
  | Warning
  | Fatal
  | Unknown (x : Z).

Definition AlertLevel_get_u8 (x : AlertLevel) : Z :=
  match x with
  | Warning => 0x01
  | Fatal => 0x02
  | Unknown x => x
  end%Z.

Definition AlertLevel_vals : list (AlertLevel * Z) :=
  [(Warning, 0x01);
   (Fatal, 0x02)]%Z.

#[global] Instance AlertLevel_enum : EnumBuilder AlertLevel := {|
  enum_width := W8;
  enum_name := "AlertLevel";
  enum_vals := AlertLevel_vals;
  enum_Unknown := Unknown;
  is_unknown x := match x with Unknown _ => true | _ => false end;
  get_val := AlertLevel_get_u8
|}.

#[global] Instance AlertLevel_enum_ok : EnumBuilderOk AlertLevel.
Proof. enum_ok. Qed.
End AlertLevel.
Abbreviation AlertLevel := AlertLevel.AlertLevel.

Module HeartbeatMessageType.
Inductive HeartbeatMessageType : Type :=
  | Request
  | Response
  | Unknown (x : Z).

Definition HeartbeatMessageType_get_u8 (x : HeartbeatMessageType) : Z :=
  match x with
  | Request => 0x01
  | Response => 0x02
  | Unknown x => x
  end%Z.

Definition HeartbeatMessageType_vals : list (HeartbeatMessageType * Z) :=
  [(Request, 0x01);
   (Response, 0x02)]%Z.

#[global] Instance HeartbeatMessageType_enum : EnumBuilder HeartbeatMessageType := {|
  enum_width := W8;
  enum_name := "HeartbeatMessageType";
  enum_vals := HeartbeatMessageType_vals;
  enum_Unknown := Unknown;
  is_unknown x := match x with Unknown _ => true | _ => false end;
  get_val := HeartbeatMessageType_get_u8
|}.

#[global] Instance HeartbeatMessageType_enum_ok : EnumBuilderOk HeartbeatMessageType.
Proof. enum_ok. Qed.
End HeartbeatMessageType.
Abbreviation HeartbeatMessageType := HeartbeatMessageType.HeartbeatMessageType.

Module ExtensionType.
Inductive ExtensionType : Type :=
  | ServerName
  | MaxFragmentLength
  | ClientCertificateUrl
  | TrustedCAKeys
  | TruncatedHMAC
  | StatusRequest
  | UserMapping
  | ClientAuthz
  | ServerAuthz
  | CertificateType
  | EllipticCurves
  | ECPointFormats
  | SRP
  | SignatureAlgorithms
  | UseSRTP
  | Heartbeat
  | ALProtocolNegotiation
  | SCT
  | Padding
  | ExtendedMasterSecret
  | SessionTicket
  | PreSharedKey
  | EarlyData
  | SupportedVersions
  | Cookie
  | PSKKeyExchangeModes
  | TicketEarlyDataInfo
  | CertificateAuthorities
  | OIDFilters
  | PostHandshakeAuth
  | SignatureAlgorithmsCert
  | KeyShare
  | TransportParameters
  | NextProtocolNegotiation
  | ChannelId
  | RenegotiationInfo
  | TransportParametersDraft
  | Unknown (x : Z).

Definition ExtensionType_get_u16 (x : ExtensionType) : Z :=
  match x with
  | ServerName => 0x0000
  | MaxFragmentLength => 0x0001
  | ClientCertificateUrl => 0x0002
  | TrustedCAKeys => 0x0003
  | TruncatedHMAC => 0x0004
  | StatusRequest => 0x0005
  | UserMapping => 0x0006
  | ClientAuthz => 0x0007
  | ServerAuthz => 0x0008
  | CertificateType => 0x0009
  | EllipticCurves => 0x000a
  | ECPointFormats => 0x000b
  | SRP => 0x000c
  | SignatureAlgorithms => 0x000d
  | UseSRTP => 0x000e
  | Heartbeat => 0x000f
  | ALProtocolNegotiation => 0x0010
  | SCT => 0x0012
  | Padding => 0x0015
  | ExtendedMasterSecret => 0x0017
  | SessionTicket => 0x0023
  | PreSharedKey => 0x0029
  | EarlyData => 0x002a
  | SupportedVersions => 0x002b
  | Cookie => 0x002c
  | PSKKeyExchangeModes => 0x002d
  | TicketEarlyDataInfo => 0x002e
  | CertificateAuthorities => 0x002f
  | OIDFilters => 0x0030
  | PostHandshakeAuth => 0x0031
  | SignatureAlgorithmsCert => 0x0032
  | KeyShare => 0x0033
  | TransportParameters => 0x0039
  | NextProtocolNegotiation => 0x3374
  | ChannelId => 0x754f
  | RenegotiationInfo => 0xff01
  | TransportParametersDraft => 0xffa5
  | Unknown x => x
  end%Z.

Definition ExtensionType_vals : list (ExtensionType * Z) :=
  [(ServerName, 0x0000);
   (MaxFragmentLength, 0x0001);
   (ClientCertificateUrl, 0x0002);
   (TrustedCAKeys, 0x0003);
   (TruncatedHMAC, 0x0004);
   (StatusRequest, 0x0005);
   (UserMapping, 0x0006);
   (ClientAuthz, 0x0007);
   (ServerAuthz, 0x0008);
   (CertificateType, 0x0009);
   (EllipticCurves, 0x000a);
   (ECPointFormats, 0x000b);
   (SRP, 0x000c);
   (SignatureAlgorithms, 0x000d);
   (UseSRTP, 0x000e);
   (Heartbeat, 0x000f);
   (ALProtocolNegotiation, 0x0010);
   (SCT, 0x0012);
   (Padding, 0x0015);
   (ExtendedMasterSecret, 0x0017);
   (SessionTicket, 0x0023);
   (PreSharedKey, 0x0029);
   (EarlyData, 0x002a);
   (SupportedVersions, 0x002b);
   (Cookie, 0x002c);
   (PSKKeyExchangeModes, 0x002d);
   (TicketEarlyDataInfo, 0x002e);
   (CertificateAuthorities, 0x002f);
   (OIDFilters, 0x0030);
   (PostHandshakeAuth, 0x0031);
   (SignatureAlgorithmsCert, 0x0032);
   (KeyShare, 0x0033);
   (TransportParameters, 0x0039);
   (NextProtocolNegotiation, 0x3374);
   (ChannelId, 0x754f);
   (RenegotiationInfo, 0xff01);
   (TransportParametersDraft, 0xffa5)]%Z.

#[global] Instance ExtensionType_enum : EnumBuilder ExtensionType := {|
  enum_width := W16;
  enum_name := "ExtensionType";
  enum_vals := ExtensionType_vals;
  enum_Unknown := Unknown;
  is_unknown x := match x with Unknown _ => true | _ => false end;
  get_val := ExtensionType_get_u16
|}.

#[global] Instance ExtensionType_enum_ok : EnumBuilderOk ExtensionType.
Proof. enum_ok. Qed.
End ExtensionType.
Abbreviation ExtensionType := ExtensionType.ExtensionType.

Module ServerNameType.
Inductive ServerNameType : Type :=
  | HostName
  | Unknown (x : Z).

Definition ServerNameType_get_u8 (x : ServerNameType) : Z :=
  match x with
  | HostName => 0x00
  | Unknown x => x
  end%Z.

Definition ServerNameType_vals : list (ServerNameType * Z) :=
  [(HostName, 0x00)]%Z.

#[global] Instance ServerNameType_enum : EnumBuilder ServerNameType := {|
  enum_width := W8;
  enum_name := "ServerNameType";
  enum_vals := ServerNameType_vals;
  enum_Unknown := Unknown;
  is_unknown x := match x with Unknown _ => true | _ => false end;
  get_val := ServerNameType_get_u8
|}.

#[global] Instance ServerNameType_enum_ok : EnumBuilderOk ServerNameType.
Proof. enum_ok. Qed.
End ServerNameType.
Abbreviation ServerNameType := ServerNameType.ServerNameType.

Module NamedCurve.
Inductive NamedCurve : Type :=
  | sect163k1
  | sect163r1
  | sect163r2
  | sect193r1
  | sect193r2
  | sect233k1
  | sect233r1
  | sect239k1
  | sect283k1
  | sect283r1
  | sect409k1
  | sect409r1
  | sect571k1
  | sect571r1
  | secp160k1
  | secp160r1
  | secp160r2
  | secp192k1
  | secp192r1
  | secp224k1
  | secp224r1
  | secp256k1
  | secp256r1
  | secp384r1
  | secp521r1
  | brainpoolp256r1
  | brainpoolp384r1
  | brainpoolp512r1
  | X25519
  | X448
  | arbitrary_explicit_prime_curves
  | arbitrary_explicit_char2_curves
  | Unknown (x : Z).

Definition NamedCurve_get_u16 (x : NamedCurve) : Z :=
  match x with
  | sect163k1 => 0x0001
  | sect163r1 => 0x0002
  | sect163r2 => 0x0003
  | sect193r1 => 0x0004
  | sect193r2 => 0x0005
  | sect233k1 => 0x0006
  | sect233r1 => 0x0007
  | sect239k1 => 0x0008
  | sect283k1 => 0x0009
  | sect283r1 => 0x000a
  | sect409k1 => 0x000b
  | sect409r1 => 0x000c
  | sect571k1 => 0x000d
  | sect571r1 => 0x000e
  | secp160k1 => 0x000f
  | secp160r1 => 0x0010
  | secp160r2 => 0x0011
  | secp192k1 => 0x0012
  | secp192r1 => 0x0013
  | secp224k1 => 0x0014
  | secp224r1 => 0x0015
  | secp256k1 => 0x0016
  | secp256r1 => 0x0017
  | secp384r1 => 0x0018
  | secp521r1 => 0x0019
  | brainpoolp256r1 => 0x001a
  | brainpoolp384r1 => 0x001b
  | brainpoolp512r1 => 0x001c
  | X25519 => 0x001d
  | X448 => 0x001e
  | arbitrary_explicit_prime_curves => 0xff01
  | arbitrary_explicit_char2_curves => 0xff02
  | Unknown x => x
  end%Z.

Definition NamedCurve_vals : list (NamedCurve * Z) :=
  [(sect163k1, 0x0001);
   (sect163r1, 0x0002);
   (sect163r2, 0x0003);
   (sect193r1, 0x0004);
   (sect193r2, 0x0005);
   (sect233k1, 0x0006);
   (sect233r1, 0x0007);
   (sect239k1, 0x0008);
   (sect283k1, 0x0009);
   (sect283r1, 0x000a);
   (sect409k1, 0x000b);
   (sect409r1, 0x000c);
   (sect571k1, 0x000d);
   (sect571r1, 0x000e);
   (secp160k1, 0x000f);
   (secp160r1, 0x0010);
   (secp160r2, 0x0011);
   (secp192k1, 0x0012);
   (secp192r1, 0x0013);
   (secp224k1, 0x0014);
   (secp224r1, 0x0015);
   (secp256k1, 0x0016);
   (secp256r1, 0x0017);
   (secp384r1, 0x0018);
   (secp521r1, 0x0019);
   (brainpoolp256r1, 0x001a);
   (brainpoolp384r1, 0x001b);
   (brainpoolp512r1, 0x001c);
   (X25519, 0x001d);
   (X448, 0x001e);
   (arbitrary_explicit_prime_curves, 0xff01);
   (arbitrary_explicit_char2_curves, 0xff02)]%Z.

#[global] Instance NamedCurve_enum : EnumBuilder NamedCurve := {|
  enum_width := W16;
  enum_name := "NamedCurve";
  enum_vals := NamedCurve_vals;
  enum_Unknown := Unknown;
  is_unknown x := match x with Unknown _ => true | _ => false end;
  get_val := NamedCurve_get_u16
|}.

#[global] Instance NamedCurve_enum_ok : EnumBuilderOk NamedCurve.
Proof. enum_ok. Qed.
End NamedCurve.
Abbreviation NamedCurve := NamedCurve.NamedCurve.

Module NamedGroup.
Inductive NamedGroup : Type :=
  | secp256r1
  | secp384r1
  | secp521r1
  | X25519
  | X448
  | FFDHE2048
  | FFDHE3072
  | FFDHE4096
  | FFDHE6144
  | FFDHE8192
  | Unknown (x : Z).

Definition NamedGroup_get_u16 (x : NamedGroup) : Z :=
  match x with
  | secp256r1 => 0x0017
  | secp384r1 => 0x0018
  | secp521r1 => 0x0019
  | X25519 => 0x001d
  | X448 => 0x001e
  | FFDHE2048 => 0x0100
  | FFDHE3072 => 0x0101
  | FFDHE4096 => 0x0102
  | FFDHE6144 => 0x0103
  | FFDHE8192 => 0x0104
  | Unknown x => x
  end%Z.

Definition NamedGroup_vals : list (NamedGroup * Z) :=
  [(secp256r1, 0x0017);
   (secp384r1, 0x0018);
   (secp521r1, 0x0019);
   (X25519, 0x001d);
   (X448, 0x001e);
   (FFDHE2048, 0x0100);
   (FFDHE3072, 0x0101);
   (FFDHE4096, 0x0102);
   (FFDHE6144, 0x0103);
   (FFDHE8192, 0x0104)]%Z.

#[global] Instance NamedGroup_enum : EnumBuilder NamedGroup := {|
  enum_width := W16;
  enum_name := "NamedGroup";
  enum_vals := NamedGroup_vals;
  enum_Unknown := Unknown;
  is_unknown x := match x with Unknown _ => true | _ => false end;
  get_val := NamedGroup_get_u16
|}.

#[global] Instance NamedGroup_enum_ok : EnumBuilderOk NamedGroup.
Proof. enum_ok. Qed.
End NamedGroup.
Abbreviation NamedGroup := NamedGroup.NamedGroup.

Module ECPointFormat.
Inductive ECPointFormat : Type :=
  | Uncompressed
  | ANSIX962CompressedPrime
  | ANSIX962CompressedChar2
  | Unknown (x : Z).

Definition ECPointFormat_get_u8 (x : ECPointFormat) : Z :=
  match x with
  | Uncompressed => 0x00
  | ANSIX962CompressedPrime => 0x01
  | ANSIX962CompressedChar2 => 0x02
  | Unknown x => x
  end%Z.

Definition ECPointFormat_vals : list (ECPointFormat * Z) :=
  [(Uncompressed, 0x00);
   (ANSIX962CompressedPrime, 0x01);
   (ANSIX962CompressedChar2, 0x02)]%Z.

#[global] Instance ECPointFormat_enum : EnumBuilder ECPointFormat := {|
  enum_width := W8;
  enum_name := "ECPointFormat";
  enum_vals := ECPointFormat_vals;
  enum_Unknown := Unknown;
  is_unknown x := match x with Unknown _ => true | _ => false end;
  get_val := ECPointFormat_get_u8
|}.

#[global] Instance ECPointFormat_enum_ok : EnumBuilderOk ECPointFormat.
Proof. enum_ok. Qed.
End ECPointFormat.
Abbreviation ECPointFormat := ECPointFormat.ECPointFormat.

Module HeartbeatMode.
Inductive HeartbeatMode : Type :=
  | PeerAllowedToSend
  | PeerNotAllowedToSend
  | Unknown (x : Z).

Definition HeartbeatMode_get_u8 (x : HeartbeatMode) : Z :=
  match x with
  | PeerAllowedToSend => 0x01
  | PeerNotAllowedToSend => 0x02
  | Unknown x => x
  end%Z.

Definition HeartbeatMode_vals : list (HeartbeatMode * Z) :=
  [(PeerAllowedToSend, 0x01);
   (PeerNotAllowedToSend, 0x02)]%Z.

#[global] Instance HeartbeatMode_enum : EnumBuilder HeartbeatMode := {|
  enum_width := W8;
  enum_name := "HeartbeatMode";
  enum_vals := HeartbeatMode_vals;
  enum_Unknown := Unknown;
  is_unknown x := match x with Unknown _ => true | _ => false end;
  get_val := HeartbeatMode_get_u8
|}.

#[global] Instance HeartbeatMode_enum_ok : EnumBuilderOk HeartbeatMode.
Proof. enum_ok. Qed.
End HeartbeatMode.
Abbreviation HeartbeatMode := HeartbeatMode.HeartbeatMode.

Module ECCurveType.
Inductive ECCurveType : Type :=
  | ExplicitPrime
  | ExplicitChar2
  | NamedCurve
  | Unknown (x : Z).

Definition ECCurveType_get_u8 (x : ECCurveType) : Z :=
  match x with
  | ExplicitPrime => 0x01
  | ExplicitChar2 => 0x02
  | NamedCurve => 0x03
  | Unknown x => x
  end%Z.

Definition ECCurveType_vals : list (ECCurveType * Z) :=
  [(ExplicitPrime, 0x01);
   (ExplicitChar2, 0x02);
   (NamedCurve, 0x03)]%Z.

#[global] Instance ECCurveType_enum : EnumBuilder ECCurveType := {|
  enum_width := W8;
  enum_name := "ECCurveType";
  enum_vals := ECCurveType_vals;
  enum_Unknown := Unknown;
  is_unknown x := match x with Unknown _ => true | _ => false end;
  get_val := ECCurveType_get_u8
|}.

#[global] Instance ECCurveType_enum_ok : EnumBuilderOk ECCurveType.
Proof. enum_ok. Qed.
End ECCurveType.
Abbreviation ECCurveType := ECCurveType.ECCurveType.

Module PSKKeyExchangeMode.
Inductive PSKKeyExchangeMode : Type :=
  | PSK_KE
  | PSK_DHE_KE
  | Unknown (x : Z).

Definition PSKKeyExchangeMode_get_u8 (x : PSKKeyExchangeMode) : Z :=
  match x with
  | PSK_KE => 0x00
  | PSK_DHE_KE => 0x01
  | Unknown x => x
  end%Z.

Definition PSKKeyExchangeMode_vals : list (PSKKeyExchangeMode * Z) :=
  [(PSK_KE, 0x00);
   (PSK_DHE_KE, 0x01)]%Z.

#[global] Instance PSKKeyExchangeMode_enum : EnumBuilder PSKKeyExchangeMode := {|
  enum_width := W8;
  enum_name := "PSKKeyExchangeMode";
  enum_vals := PSKKeyExchangeMode_vals;
  enum_Unknown := Unknown;
  is_unknown x := match x with Unknown _ => true | _ => false end;
  get_val := PSKKeyExchangeMode_get_u8
|}.

#[global] Instance PSKKeyExchangeMode_enum_ok : EnumBuilderOk PSKKeyExchangeMode.
Proof. enum_ok. Qed.
End PSKKeyExchangeMode.
Abbreviation PSKKeyExchangeMode := PSKKeyExchangeMode.PSKKeyExchangeMode.

Module KeyUpdateRequest.
Inductive KeyUpdateRequest : Type :=
  | UpdateNotRequested
  | UpdateRequested
  | Unknown (x : Z).

Definition KeyUpdateRequest_get_u8 (x : KeyUpdateRequest) : Z :=
  match x with
  | UpdateNotRequested => 0x00
  | UpdateRequested => 0x01
  | Unknown x => x
  end%Z.

Definition KeyUpdateRequest_vals : list (KeyUpdateRequest * Z) :=
  [(UpdateNotRequested, 0x00);
   (UpdateRequested, 0x01)]%Z.

#[global] Instance KeyUpdateRequest_enum : EnumBuilder KeyUpdateRequest := {|
  enum_width := W8;
  enum_name := "KeyUpdateRequest";
  enum_vals := KeyUpdateRequest_vals;
  enum_Unknown := Unknown;
  is_unknown x := match x with Unknown _ => true | _ => false end;
  get_val := KeyUpdateRequest_get_u8
|}.

#[global] Instance KeyUpdateRequest_enum_ok : EnumBuilderOk KeyUpdateRequest.
Proof. enum_ok. Qed.
End KeyUpdateRequest.
Abbreviation KeyUpdateRequest := KeyUpdateRequest.KeyUpdateRequest.

Module CertificateStatusType.
Inductive CertificateStatusType : Type :=
  | OCSP
  | Unknown (x : Z).

Definition CertificateStatusType_get_u8 (x : CertificateStatusType) : Z :=
  match x with
  | OCSP => 0x01
  | Unknown x => x
  end%Z.

Definition CertificateStatusType_vals : list (CertificateStatusType * Z) :=
  [(OCSP, 0x01)]%Z.

#[global] Instance CertificateStatusType_enum : EnumBuilder CertificateStatusType := {|
  enum_width := W8;
  enum_name := "CertificateStatusType";
  enum_vals := CertificateStatusType_vals;
  enum_Unknown := Unknown;
  is_unknown x := match x with Unknown _ => true | _ => false end;
  get_val := CertificateStatusType_get_u8
|}.

#[global] Instance CertificateStatusType_enum_ok : EnumBuilderOk CertificateStatusType.
Proof. enum_ok. Qed.
End CertificateStatusType.
Abbreviation CertificateStatusType := CertificateStatusType.CertificateStatusType.
