(* ===== verification/TlsBase.v ===== *)
(** The payload types that every TLS message is built from
    (rustls-0.21.2/rustls/src/msgs/base.rs), certificates (key.rs) and signed
    structures (verify.rs), with their codecs. *)
From Stdlib Require Import ZArith Lia Strings.Byte String.
From stdpp Require Import base list numbers option.
From S2P Require Import Prelude.
From S2P Require Import Codec.
From S2P Require Import TlsEnums.
Open Scope rust_scope.

(** * [Payload]: everything that is left *)

Record Payload : Type := mkPayload { Payload_0 : list byte }.

Definition Payload_encode (p : Payload) (bytes : list byte) : list byte :=
  bytes ++ Payload_0 p.
Definition Payload_read : Rd Payload :=
  let! body := rd_rest in rd_ret (mkPayload body).

#[export] Instance Payload_codec : Codec Payload :=
  {| encode := Payload_encode; read := Payload_read |}.
#[export] Instance Payload_ok : CodecOk Payload.
Proof. codec_ok (λ _ : Payload, True) Payload_encode Payload_read. Defined.

Lemma Payload_get_encoding p : get_encoding p = Payload_0 p.
Proof. done. Qed.

#[export] Instance Payload_trailing : Trailing Payload.
Proof.
  intros [p] _. rewrite Payload_get_encoding. simpl. unfold Payload_read.
  eapply reads_all_bind_end; [apply reads_all_rest|]. apply reads_reads_all, reads_ret.
Qed.

(** A sub-reader that takes all of its bytes: the shape of every
    length-prefixed payload. *)
Lemma reads_payload {A} n (f : list byte → A) body :
  length body = n →
  reads (rd_sub n (let! body := rd_rest in rd_ret (f body))) (f body) body.
Proof.
  intros Hn. apply reads_sub; [done|].
  eapply reads_all_bind_end; [apply reads_all_rest|]. apply reads_reads_all, reads_ret.
Qed.

(** * [PayloadU8], [PayloadU16], [PayloadU24]: length-prefixed *)

Record PayloadU8 : Type := mkPayloadU8 { PayloadU8_0 : list byte }.

Definition PayloadU8_encode (p : PayloadU8) (bytes : list byte) : list byte :=
  let bytes := u8_encode (as_u8 (Z.of_nat (length (PayloadU8_0 p)))) bytes in
  bytes ++ PayloadU8_0 p.
Definition PayloadU8_read : Rd PayloadU8 :=
  let! len := u8_read in
  rd_sub (Z.to_nat len) (let! body := rd_rest in rd_ret (mkPayloadU8 body)).

Record PayloadU16 : Type := mkPayloadU16 { PayloadU16_0 : list byte }.

Definition PayloadU16_encode_slice (slice : list byte) (bytes : list byte) : list byte :=
  let bytes := u16_encode (as_u16 (Z.of_nat (length slice))) bytes in
  bytes ++ slice.
Definition PayloadU16_encode (p : PayloadU16) (bytes : list byte) : list byte :=
  PayloadU16_encode_slice (PayloadU16_0 p) bytes.
Definition PayloadU16_read : Rd PayloadU16 :=
  let! len := u16_read in
  rd_sub (Z.to_nat len) (let! body := rd_rest in rd_ret (mkPayloadU16 body)).

Record PayloadU24 : Type := mkPayloadU24 { PayloadU24_0 : list byte }.

Definition PayloadU24_encode (p : PayloadU24) (bytes : list byte) : list byte :=
  let bytes := u24_encode (as_u32 (Z.of_nat (length (PayloadU24_0 p)))) bytes in
  bytes ++ PayloadU24_0 p.
Definition PayloadU24_read : Rd PayloadU24 :=
  let! len := u24_read in
  rd_sub (Z.to_nat len) (let! body := rd_rest in rd_ret (mkPayloadU24 body)).

(** A certificate is a [u24]-prefixed blob. *)
Record Certificate : Type := mkCertificate { Certificate_0 : list byte }.

Definition Certificate_encode (c : Certificate) (bytes : list byte) : list byte :=
  let bytes := u24_encode (as_u32 (Z.of_nat (length (Certificate_0 c)))) bytes in
  bytes ++ Certificate_0 c.
Definition Certificate_read : Rd Certificate :=
  let! len := u24_read in
  rd_sub (Z.to_nat len) (let! body := rd_rest in rd_ret (mkCertificate body)).

Lemma PayloadU16_encode_slice_eq slice bs :
  PayloadU16_encode_slice slice bs
  = bs ++ to_be 2 (Z.of_nat (length slice)) ++ slice.
Proof. unfold PayloadU16_encode_slice. by enc_norm. Qed.
#[export] Hint Rewrite PayloadU16_encode_slice_eq : enc.

(** The laws of the four are those of one scheme. *)
Section prefixed.
Context (n : nat) (m : Rd Z) (Hm : int_reader n m).

Lemma prefixed_safe {A} (f : list byte → A) :
  rd_safe (let! len := m in
    rd_sub (Z.to_nat len) (let! body := rd_rest in rd_ret (f body))).
Proof. apply rd_safe_bind; [by apply (int_reader_safe n)|auto with safe]. Qed.

Lemma prefixed_progress {A} (f : list byte → A) : 0 < n →
  rd_progress (let! len := m in
    rd_sub (Z.to_nat len) (let! body := rd_rest in rd_ret (f body))).
Proof.
  intros Hn. apply rd_progress_bind; [by apply (int_reader_safe n)| |auto with safe].
  by apply (int_reader_progress n).
Qed.

Lemma prefixed_reads {A} (f : list byte → A) body :
  (Z.of_nat (length body) < 256 ^ Z.of_nat n)%Z →
  reads (let! len := m in
    rd_sub (Z.to_nat len) (let! body := rd_rest in rd_ret (f body)))
    (f body) (to_be n (Z.of_nat (length body)) ++ body).
Proof.
  intros Hlen. eapply reads_bind; [apply int_reader_to_be; [done|lia]|].
  apply reads_payload. lia.
Qed.
End prefixed.

#[export] Hint Extern 1 (rd_safe (rd_bind _ (λ len, rd_sub (Z.to_nat len) _))) =>
  eapply prefixed_safe; auto with reads : safe.

Ltac prefixed_delimited wf enc :=
  intros [p] Hp;
  match type of Hp with codec_wf ?x => change (wf x) in Hp end; unfold wf, get_encoding in *;
  match goal with |- reads _ ?x _ => change (reads read x (enc x [])) end;
  unfold enc; cbn [Payload_0 PayloadU8_0 PayloadU16_0 PayloadU24_0 Certificate_0] in *;
  enc_norm; apply prefixed_reads; [auto with reads|pow256; lia].

#[export] Instance PayloadU8_codec : Codec PayloadU8 :=
  {| encode := PayloadU8_encode; read := PayloadU8_read |}.
Definition PayloadU8_wf (p : PayloadU8) : Prop := (Z.of_nat (length (PayloadU8_0 p)) < 256)%Z.
#[export] Instance PayloadU8_ok : CodecOk PayloadU8.
Proof. codec_ok PayloadU8_wf PayloadU8_encode PayloadU8_read. Defined.
#[export] Instance PayloadU8_delimited : Delimited PayloadU8.
Proof. prefixed_delimited PayloadU8_wf PayloadU8_encode. Qed.

#[export] Instance PayloadU16_codec : Codec PayloadU16 :=
  {| encode := PayloadU16_encode; read := PayloadU16_read |}.
Definition PayloadU16_wf (p : PayloadU16) : Prop := (Z.of_nat (length (PayloadU16_0 p)) < 65536)%Z.
#[export] Instance PayloadU16_ok : CodecOk PayloadU16.
Proof. codec_ok PayloadU16_wf PayloadU16_encode PayloadU16_read. Defined.
#[export] Instance PayloadU16_delimited : Delimited PayloadU16.
Proof. prefixed_delimited PayloadU16_wf PayloadU16_encode. Qed.

#[export] Instance PayloadU24_codec : Codec PayloadU24 :=
  {| encode := PayloadU24_encode; read := PayloadU24_read |}.
Definition PayloadU24_wf (p : PayloadU24) : Prop := (Z.of_nat (length (PayloadU24_0 p)) < 16777216)%Z.
#[export] Instance PayloadU24_ok : CodecOk PayloadU24.
Proof. codec_ok PayloadU24_wf PayloadU24_encode PayloadU24_read. Defined.
#[export] Instance PayloadU24_delimited : Delimited PayloadU24.
Proof. prefixed_delimited PayloadU24_wf PayloadU24_encode. Qed.

#[export] Instance Certificate_codec : Codec Certificate :=
  {| encode := Certificate_encode; read := Certificate_read |}.
Definition Certificate_wf (p : Certificate) : Prop := (Z.of_nat (length (Certificate_0 p)) < 16777216)%Z.
#[export] Instance Certificate_ok : CodecOk Certificate.
Proof. codec_ok Certificate_wf Certificate_encode Certificate_read. Defined.
#[export] Instance Certificate_delimited : Delimited Certificate.
Proof. prefixed_delimited Certificate_wf Certificate_encode. Qed.

(** * Progress of the length-prefixed payloads, and lists of them *)

Create HintDb progress discriminated.
#[export] Hint Extern 0 (rd_progress read) => apply read_progress : progress.
#[export] Hint Extern 0 (rd_progress u8_read) =>
  apply (int_reader_progress 1); [lia|apply u8_reader] : progress.
#[export] Hint Extern 0 (rd_progress u16_read) =>
  apply (int_reader_progress 2); [lia|apply u16_reader] : progress.
#[export] Hint Extern 0 (rd_progress u24_read) =>
  apply (int_reader_progress 3); [lia|apply u24_reader] : progress.
#[export] Hint Extern 0 (rd_progress u32_read) =>
  apply (int_reader_progress 4); [lia|apply u32_reader] : progress.

(** A struct makes progress when its first field does. *)
Ltac progress_by rd :=
  match goal with
  | |- rd_progress _ => idtac
  | |- ListElementOk _ => red
  end;
  change (rd_progress rd); unfold rd;
  apply rd_progress_bind; [solve [eauto with safe]|solve [auto with progress]|];
  intros; eauto 20 with safe.

#[export] Instance PayloadU8_element : ListElementOk PayloadU8.
Proof. progress_by PayloadU8_read. Qed.
#[export] Instance PayloadU16_element : ListElementOk PayloadU16.
Proof. progress_by PayloadU16_read. Qed.
#[export] Instance PayloadU24_element : ListElementOk PayloadU24.
Proof. progress_by PayloadU24_read. Qed.
#[export] Instance Certificate_element : ListElementOk Certificate.
Proof. progress_by Certificate_read. Qed.

(** [impl TlsListElement for key::Certificate]: at most 64 KiB are read. *)
#[export] Instance Certificate_list : TlsListElement Certificate :=
  LenU24 (Z.to_nat 0x10000).

(** * [wrapped_payload!]: newtypes around a payload

    The macro makes a new type out of a name and a payload type; the name is a
    phantom parameter here, so that two wrappers are two types. *)
Record Wrapped (name : string) (Inner : Type) : Type := mkWrapped { Wrapped_0 : Inner }.
Arguments mkWrapped {_ _} _.
Arguments Wrapped_0 {_ _} _.

Section wrapped.
Context {name : string} {Inner : Type} `{CodecOk Inner}.

Definition Wrapped_encode (x : Wrapped name Inner) (bytes : list byte) : list byte :=
  encode (Wrapped_0 x) bytes.
Definition Wrapped_read : Rd (Wrapped name Inner) :=
  let! inner := read in rd_ret (mkWrapped inner).

#[export] Instance Wrapped_codec : Codec (Wrapped name Inner) :=
  {| encode := Wrapped_encode; read := Wrapped_read |}.
Definition Wrapped_wf (x : Wrapped name Inner) : Prop := codec_wf (Wrapped_0 x).
#[export] Instance Wrapped_ok : CodecOk (Wrapped name Inner).
Proof. codec_ok Wrapped_wf Wrapped_encode Wrapped_read. Defined.
#[export] Instance Wrapped_delimited `{!Delimited Inner} : Delimited (Wrapped name Inner).
Proof. delimited_by Wrapped_wf Wrapped_encode Wrapped_read. Qed.
#[export] Instance Wrapped_element `{!ListElementOk Inner} : ListElementOk (Wrapped name Inner).
Proof. progress_by Wrapped_read. Qed.
End wrapped.

Abbreviation ProtocolName := (Wrapped "ProtocolName" PayloadU8).
Abbreviation PresharedKeyBinder := (Wrapped "PresharedKeyBinder" PayloadU8).
Abbreviation ResponderId := (Wrapped "ResponderId" PayloadU16).
Abbreviation Sct := (Wrapped "Sct" PayloadU16).
Abbreviation DistinguishedName := (Wrapped "DistinguishedName" PayloadU16).

#[export] Instance Wrapped_list name Inner : TlsListElement (Wrapped name Inner) := LenU16.

(** * [DigitallySignedStruct] *)

Record DigitallySignedStruct : Type := mkDigitallySignedStruct {
  dss_scheme : SignatureScheme;
  dss_sig : PayloadU16
}.

Definition DigitallySignedStruct_encode (x : DigitallySignedStruct) (bytes : list byte) :=
  let bytes := encode (dss_scheme x) bytes in
  encode (dss_sig x) bytes.
Definition DigitallySignedStruct_read : Rd DigitallySignedStruct :=
  let! scheme := read in
  let! sig := read in
  rd_ret (mkDigitallySignedStruct scheme sig).

#[export] Instance DigitallySignedStruct_codec : Codec DigitallySignedStruct :=
  {| encode := DigitallySignedStruct_encode; read := DigitallySignedStruct_read |}.
Definition DigitallySignedStruct_wf (x : DigitallySignedStruct) : Prop :=
  codec_wf (dss_scheme x) ∧ codec_wf (dss_sig x).
#[export] Instance DigitallySignedStruct_ok : CodecOk DigitallySignedStruct.
Proof.
  codec_ok DigitallySignedStruct_wf DigitallySignedStruct_encode DigitallySignedStruct_read.
Defined.
#[export] Instance DigitallySignedStruct_delimited : Delimited DigitallySignedStruct.
Proof.
  delimited_by DigitallySignedStruct_wf DigitallySignedStruct_encode
    DigitallySignedStruct_read.
Qed.
