(* ===== verification/TlsExtensions.v ===== *)
(** The structs and extensions of the TLS handshake
    (rustls-0.21.2/rustls/src/msgs/handshake.rs, the first half): randoms,
    session ids, server names, key shares, PSK offers, certificate status
    requests and the six extension enums, each with encoder, decoder and laws.

    DNS names are values of the [webpki] crate, which is not part of this
    repository: [WebPki] is what this code uses of it. *)
From Stdlib Require Import ZArith Lia Strings.Byte String.
From stdpp Require Import base list numbers option.
From S2P Require Import Prelude.
From S2P Require Import Codec.
From S2P Require Import TlsEnums.
From S2P Require Import TlsBase.
Open Scope rust_scope.

(** [webpki::DnsName], [DnsNameRef::try_from_ascii] and the text of a name. *)
Class WebPki : Type := {
  DnsName : Type;
  dns_try_from_ascii : list byte → option DnsName;
  dns_str : DnsName → list byte
}.

(** * Random and SessionId *)

Record Random : Type := mkRandom { Random_0 : list byte }.

Definition HELLO_RETRY_REQUEST_RANDOM : Random := mkRandom (byte_of <$>
  [0xcf; 0x21; 0xad; 0x74; 0xe5; 0x9a; 0x61; 0x11; 0xbe; 0x1d; 0x8c; 0x02; 0x1e; 0x65; 0xb8; 0x91;
   0xc2; 0xa2; 0x11; 0x16; 0x7a; 0xbb; 0x8c; 0x5e; 0x07; 0x9e; 0x09; 0xe2; 0xc8; 0xa8; 0x33; 0x9c]%Z).
Definition ZERO_RANDOM : Random := mkRandom (replicate 32 x00).

#[export] Instance Random_eq_dec : EqDecision Random.
Proof. solve_decision. Defined.

Definition Random_encode (x : Random) (bytes : list byte) : list byte := bytes ++ Random_0 x.
Definition Random_read : Rd Random :=
  let! o := rd_take 32 in
  match o with
  | Some bytes => rd_ret (mkRandom bytes)
  | None => rd_err (MissingData "Random")
  end.

#[export] Instance Random_codec : Codec Random :=
  {| encode := Random_encode; read := Random_read |}.
Definition Random_wf (x : Random) : Prop := length (Random_0 x) = 32.
#[export] Instance Random_ok : CodecOk Random.
Proof.
  refine (Build_CodecOk _ _ Random_wf _ _); [abstract (encode_appends Random_encode)|].
  apply rd_safe_bind; [auto with safe|]. intros [bs|]; auto with safe.
Defined.
#[export] Instance Random_delimited : Delimited Random.
Proof. delimited_by Random_wf Random_encode Random_read. Qed.

(** The 32 bytes of [data] after [len] are zero in every session id the code
    makes. *)
Record SessionId : Type := mkSessionId { sid_len : nat; sid_data : list byte }.

Definition SessionId_encode (x : SessionId) (bytes : list byte) : list byte :=
  let bytes := bytes ++ [byte_of (as_u8 (Z.of_nat (sid_len x)))] in
  bytes ++ take (sid_len x) (sid_data x).
Definition SessionId_read : Rd SessionId :=
  let! len := u8_read in
  if bool_decide (32 < len)%Z then rd_err (TrailingData "SessionID")
  else
    let! o := rd_take (Z.to_nat len) in
    match o with
    | Some bytes => rd_ret (mkSessionId (Z.to_nat len) (splice 0 bytes (replicate 32 x00)))
    | None => rd_err (MissingData "SessionID")
    end.

Definition SessionId_empty : SessionId := mkSessionId 0 (replicate 32 x00).
Definition SessionId_is_empty (x : SessionId) : bool := bool_decide (sid_len x = 0).

(** [PartialEq]: equal lengths, and no difference in the used prefix. *)
Definition SessionId_eq (a b : SessionId) : bool :=
  if bool_decide (sid_len a ≠ sid_len b) then false
  else
    let diff := fold_left (λ d i,
      Z.lor d (Z.lxor (byte_val (sid_data a !!! i)) (byte_val (sid_data b !!! i))))
      (seq 0 (sid_len a)) 0%Z in
    bool_decide (diff = 0)%Z.

#[export] Instance SessionId_codec : Codec SessionId :=
  {| encode := SessionId_encode; read := SessionId_read |}.
Definition SessionId_wf (x : SessionId) : Prop :=
  sid_len x ≤ 32 ∧ length (sid_data x) = 32 ∧
  drop (sid_len x) (sid_data x) = replicate (32 - sid_len x) x00.

Lemma SessionId_encode_eq x bs :
  SessionId_encode x bs
  = bs ++ to_be 1 (Z.of_nat (sid_len x)) ++ take (sid_len x) (sid_data x).
Proof.
  unfold SessionId_encode. rewrite <- app_assoc. f_equal. simpl.
  f_equal. rewrite Z.div_1_r. apply byte_val_inj. rewrite !byte_val_of. unfold as_u8.
  by rewrite Z.mod_mod.
Qed.

#[export] Instance SessionId_ok : CodecOk SessionId.
Proof.
  refine (Build_CodecOk _ _ SessionId_wf _ _).
  - intros a bs. change (SessionId_encode a bs = bs ++ SessionId_encode a []).
    by rewrite !SessionId_encode_eq.
  - apply rd_safe_bind; [auto with safe|]. intros len. apply rd_safe_if; [auto with safe|].
    apply rd_safe_bind; [auto with safe|]. intros [bs|]; auto with safe.
Defined.
#[export] Instance SessionId_delimited : Delimited SessionId.
Proof.
  intros x (Hl & Hd & Hz). change (reads SessionId_read x (SessionId_encode x [])).
  rewrite SessionId_encode_eq. unfold SessionId_read. rewrite app_nil_l.
  eapply reads_bind; [apply int_reader_to_be; [auto with reads|pow256; lia]|]. cbv beta.
  rewrite bool_decide_false by lia. rewrite Nat2Z.id.
  rewrite <- (app_nil_r (take _ _)).
  eapply reads_bind; [apply reads_take; rewrite length_take; lia|]. cbv beta iota.
  replace (mkSessionId _ _) with x; [apply reads_ret|].
  destruct x as [len data]; cbn [sid_len sid_data] in *. f_equal. unfold splice.
  rewrite take_0, app_nil_l, drop_replicate, length_take, Nat.min_l by lia.
  rewrite Nat.add_0_l, <- Hz. by rewrite take_drop.
Qed.

(** * Extensions of unknown content *)

Record UnknownExtension : Type := mkUnknownExtension {
  ue_typ : ExtensionType;
  ue_payload : Payload
}.

Definition UnknownExtension_encode (x : UnknownExtension) (bytes : list byte) : list byte :=
  encode (ue_payload x) bytes.
Definition UnknownExtension_read (typ : ExtensionType) : Rd UnknownExtension :=
  let! payload := Payload_read in rd_ret (mkUnknownExtension typ payload).

Lemma UnknownExtension_safe typ : rd_safe (UnknownExtension_read typ).
Proof. unfold UnknownExtension_read, Payload_read. auto with safe. Qed.
#[export] Hint Resolve UnknownExtension_safe : safe.

Lemma UnknownExtension_reads x :
  reads_all (UnknownExtension_read (ue_typ x)) x (get_encoding (ue_payload x)).
Proof.
  destruct x as [typ p].
  change (reads_all (let! payload := Payload_read in
    rd_ret (mkUnknownExtension typ payload)) (mkUnknownExtension typ p) (get_encoding p)).
  eapply reads_all_bind_end; [exact (read_trailing p I)|].
  apply reads_reads_all, reads_ret.
Qed.

Lemma UnknownExtension_encode_eq x bs :
  UnknownExtension_encode x bs = bs ++ get_encoding (ue_payload x).
Proof. done. Qed.
#[export] Hint Rewrite UnknownExtension_encode_eq : enc.

(** ** The frame of an extension: type, length, body

    Each [encode] writes the type, collects the body in [sub] and writes its
    length before it; each [read] reads the type, takes a sub-reader of the
    announced length and insists that the body uses all of it. *)
Definition extension_encode (typ : ExtensionType) (sub bytes : list byte) : list byte :=
  let bytes := encode typ bytes in
  let bytes := u16_encode (as_u16 (Z.of_nat (length sub))) bytes in
  bytes ++ sub.

Definition extension_read {A} (name : string) (body : ExtensionType → Rd A) : Rd A :=
  let! typ := read in
  let! len := u16_read in
  rd_sub (Z.to_nat len) (
    let! ext := body typ in
    let! _ := rd_expect_empty name in
    rd_ret ext).

Lemma extension_encode_eq typ sub bs :
  extension_encode typ sub bs
  = bs ++ get_encoding typ ++ to_be 2 (Z.of_nat (length sub)) ++ sub.
Proof. unfold extension_encode. cbv zeta. enc_norm. done. Qed.
#[export] Hint Rewrite extension_encode_eq : enc.

Lemma extension_read_safe {A} name (body : ExtensionType → Rd A) :
  (∀ typ, rd_safe (body typ)) → rd_safe (extension_read name body).
Proof. intros. unfold extension_read. auto 10 with safe. Qed.

Lemma extension_read_progress {A} name (body : ExtensionType → Rd A) :
  (∀ typ, rd_safe (body typ)) → rd_progress (extension_read name body).
Proof.
  intros. apply rd_progress_bind; [auto with safe|auto with progress|]. auto 10 with safe.
Qed.

Lemma extension_reads {A} name (body : ExtensionType → Rd A) typ sub a :
  enum_wf typ → (Z.of_nat (length sub) < 65536)%Z → reads_all (body typ) a sub →
  reads (extension_read name body) a
    (get_encoding typ ++ to_be 2 (Z.of_nat (length sub)) ++ sub).
Proof.
  intros Htyp Hlen Hbody. unfold extension_read.
  eapply reads_bind; [by apply read_delimited|].
  eapply reads_bind; [apply int_reader_to_be; [auto with reads|pow256; lia]|].
  apply reads_sub; [lia|]. eapply reads_all_bind_end; [done|].
  eapply reads_all_bind_end; [apply reads_all_expect_empty|].
  apply reads_reads_all, reads_ret.
Qed.

(** * Lists of enums *)

#[export] Instance ECPointFormat_list : TlsListElement ECPointFormat := LenU8.
#[export] Instance NamedGroup_list : TlsListElement NamedGroup := LenU16.
#[export] Instance SignatureScheme_list : TlsListElement SignatureScheme := LenU16.
#[export] Instance PSKKeyExchangeMode_list : TlsListElement PSKKeyExchangeMode := LenU8.
#[export] Instance ProtocolVersion_list : TlsListElement ProtocolVersion := LenU8.
#[export] Instance CipherSuite_list : TlsListElement CipherSuite := LenU16.
#[export] Instance Compression_list : TlsListElement Compression := LenU8.
#[export] Instance ClientCertificateType_list : TlsListElement ClientCertificateType := LenU8.

(** * Key shares and PSK offers *)

Record KeyShareEntry : Type := mkKeyShareEntry {
  kse_group : NamedGroup;
  kse_payload : PayloadU16
}.

Definition KeyShareEntry_encode (x : KeyShareEntry) (bytes : list byte) : list byte :=
  let bytes := encode (kse_group x) bytes in
  encode (kse_payload x) bytes.
Definition KeyShareEntry_read : Rd KeyShareEntry :=
  let! group := read in
  let! payload := read in
  rd_ret (mkKeyShareEntry group payload).

#[export] Instance KeyShareEntry_codec : Codec KeyShareEntry :=
  {| encode := KeyShareEntry_encode; read := KeyShareEntry_read |}.
Definition KeyShareEntry_wf (x : KeyShareEntry) : Prop :=
  codec_wf (kse_group x) ∧
  codec_wf (kse_payload x).
#[export] Instance KeyShareEntry_ok : CodecOk KeyShareEntry.
Proof. codec_ok KeyShareEntry_wf KeyShareEntry_encode KeyShareEntry_read. Defined.
#[export] Instance KeyShareEntry_delimited : Delimited KeyShareEntry.
Proof. delimited_by KeyShareEntry_wf KeyShareEntry_encode KeyShareEntry_read. Qed.
#[export] Instance KeyShareEntry_element : ListElementOk KeyShareEntry.
Proof. progress_by KeyShareEntry_read. Qed.

#[export] Instance KeyShareEntry_list : TlsListElement KeyShareEntry := LenU16.

Record PresharedKeyIdentity : Type := mkPresharedKeyIdentity {
  pki_identity : PayloadU16;
  pki_obfuscated_ticket_age : Z
}.

Definition PresharedKeyIdentity_encode (x : PresharedKeyIdentity) (bytes : list byte) : list byte :=
  let bytes := encode (pki_identity x) bytes in
  u32_encode (pki_obfuscated_ticket_age x) bytes.
Definition PresharedKeyIdentity_read : Rd PresharedKeyIdentity :=
  let! identity := read in
  let! obfuscated_ticket_age := u32_read in
  rd_ret (mkPresharedKeyIdentity identity obfuscated_ticket_age).

#[export] Instance PresharedKeyIdentity_codec : Codec PresharedKeyIdentity :=
  {| encode := PresharedKeyIdentity_encode; read := PresharedKeyIdentity_read |}.
Definition PresharedKeyIdentity_wf (x : PresharedKeyIdentity) : Prop :=
  codec_wf (pki_identity x) ∧
  (0 ≤ pki_obfuscated_ticket_age x < 4294967296)%Z.
#[export] Instance PresharedKeyIdentity_ok : CodecOk PresharedKeyIdentity.
Proof. codec_ok PresharedKeyIdentity_wf PresharedKeyIdentity_encode PresharedKeyIdentity_read. Defined.
#[export] Instance PresharedKeyIdentity_delimited : Delimited PresharedKeyIdentity.
Proof. delimited_by PresharedKeyIdentity_wf PresharedKeyIdentity_encode PresharedKeyIdentity_read. Qed.
#[export] Instance PresharedKeyIdentity_element : ListElementOk PresharedKeyIdentity.
Proof. progress_by PresharedKeyIdentity_read. Qed.

#[export] Instance PresharedKeyIdentity_list : TlsListElement PresharedKeyIdentity := LenU16.

Record PresharedKeyOffer : Type := mkPresharedKeyOffer {
  pko_identities : list PresharedKeyIdentity;
  pko_binders : list PresharedKeyBinder
}.

Definition PresharedKeyOffer_encode (x : PresharedKeyOffer) (bytes : list byte) : list byte :=
  let bytes := encode (pko_identities x) bytes in
  encode (pko_binders x) bytes.
Definition PresharedKeyOffer_read : Rd PresharedKeyOffer :=
  let! identities := read in
  let! binders := read in
  rd_ret (mkPresharedKeyOffer identities binders).

#[export] Instance PresharedKeyOffer_codec : Codec PresharedKeyOffer :=
  {| encode := PresharedKeyOffer_encode; read := PresharedKeyOffer_read |}.
Definition PresharedKeyOffer_wf (x : PresharedKeyOffer) : Prop :=
  codec_wf (pko_identities x) ∧
  codec_wf (pko_binders x).
#[export] Instance PresharedKeyOffer_ok : CodecOk PresharedKeyOffer.
Proof. codec_ok PresharedKeyOffer_wf PresharedKeyOffer_encode PresharedKeyOffer_read. Defined.
#[export] Instance PresharedKeyOffer_delimited : Delimited PresharedKeyOffer.
Proof. delimited_by PresharedKeyOffer_wf PresharedKeyOffer_encode PresharedKeyOffer_read. Qed.

(** * Certificate status requests

    [OCSPCertificateStatusRequest] writes its type but does not read it: the
    enclosing [CertificateStatusRequest] has read it already. *)
Record OCSPCertificateStatusRequest : Type := mkOCSPCertificateStatusRequest {
  ocsp_responder_ids : list ResponderId;
  ocsp_extensions : PayloadU16
}.

Definition OCSPCertificateStatusRequest_encode (x : OCSPCertificateStatusRequest)
    (bytes : list byte) : list byte :=
  let bytes := encode CertificateStatusType.OCSP bytes in
  let bytes := encode (ocsp_responder_ids x) bytes in
  encode (ocsp_extensions x) bytes.
Definition OCSPCertificateStatusRequest_read : Rd OCSPCertificateStatusRequest :=
  let! responder_ids := read in
  let! extensions := read in
  rd_ret (mkOCSPCertificateStatusRequest responder_ids extensions).

Inductive CertificateStatusRequest : Type :=
  | CSR_OCSP (r : OCSPCertificateStatusRequest)
  | CSR_Unknown (typ : CertificateStatusType) (payload : Payload).

Definition CertificateStatusRequest_encode (x : CertificateStatusRequest)
    (bytes : list byte) : list byte :=
  match x with
  | CSR_OCSP r => OCSPCertificateStatusRequest_encode r bytes
  | CSR_Unknown typ payload =>
      let bytes := encode typ bytes in
      encode payload bytes
  end.
Definition CertificateStatusRequest_read : Rd CertificateStatusRequest :=
  let! typ := read in
  match typ with
  | CertificateStatusType.OCSP =>
      let! ocsp_req := OCSPCertificateStatusRequest_read in
      rd_ret (CSR_OCSP ocsp_req)
  | _ =>
      let! data := Payload_read in
      rd_ret (CSR_Unknown typ data)
  end.

#[export] Instance CertificateStatusRequest_codec : Codec CertificateStatusRequest :=
  {| encode := CertificateStatusRequest_encode; read := CertificateStatusRequest_read |}.
Definition CertificateStatusRequest_wf (x : CertificateStatusRequest) : Prop :=
  match x with
  | CSR_OCSP r => codec_wf (ocsp_responder_ids r) ∧ codec_wf (ocsp_extensions r)
  | CSR_Unknown typ _ => codec_wf typ ∧ typ ≠ CertificateStatusType.OCSP
  end.
#[export] Instance CertificateStatusRequest_ok : CodecOk CertificateStatusRequest.
Proof.
  refine (Build_CodecOk _ _ CertificateStatusRequest_wf _ _).
  - abstract (intros [r|typ p] bs; [unfold OCSPCertificateStatusRequest_encode|];
      encode_sum CertificateStatusRequest_encode;
      unfold OCSPCertificateStatusRequest_encode; cbv zeta; enc_norm; reflexivity).
  - abstract (apply rd_safe_bind; [auto with safe|]; intros [];
      unfold OCSPCertificateStatusRequest_read, Payload_read; auto 10 with safe).
Defined.
#[export] Instance CertificateStatusRequest_trailing : Trailing CertificateStatusRequest.
Proof.
  intros x Hx. change (CertificateStatusRequest_wf x) in Hx.
  change (reads_all CertificateStatusRequest_read x (CertificateStatusRequest_encode x [])).
  destruct x as [[ids exts]|typ p]; cbn in Hx; destruct Hx;
    unfold CertificateStatusRequest_read, CertificateStatusRequest_encode,
      OCSPCertificateStatusRequest_encode, OCSPCertificateStatusRequest_read;
    cbv zeta; cbn [ocsp_responder_ids ocsp_extensions]; enc_norm.
  - eapply reads_all_bind; [by apply read_delimited|]. cbv beta iota.
    rewrite <- (app_nil_r (get_encoding exts)), app_assoc.
    eapply reads_all_bind; [|apply reads_reads_all, reads_ret].
    rewrite <- (app_nil_r (_ ++ _)), <- app_assoc.
    eapply reads_bind; [by apply read_delimited|].
    eapply reads_bind; [by apply read_delimited|]. apply reads_ret.
  - eapply reads_all_bind; [by apply read_delimited|].
    destruct typ; try done; (eapply reads_all_bind_end;
      [exact (read_trailing p I)|apply reads_reads_all, reads_ret]).
Qed.

(** * Server names *)

Section extensions.
Context `{WebPki}.

Inductive ServerNamePayload : Type :=
  | SNP_HostName (raw : PayloadU16) (dns_name : DnsName)
  | SNP_Unknown (payload : Payload).

Definition ServerNamePayload_new_hostname (hostname : DnsName) : ServerNamePayload :=
  SNP_HostName (mkPayloadU16 (dns_str hostname)) hostname.

Definition ServerNamePayload_read_hostname : Rd ServerNamePayload :=
  let! raw := PayloadU16_read in
  match dns_try_from_ascii (PayloadU16_0 raw) with
  | Some dns_name => rd_ret (SNP_HostName raw dns_name)
  | None => rd_err InvalidServerName
  end.

Definition ServerNamePayload_encode (p : ServerNamePayload) (bytes : list byte) : list byte :=
  match p with
  | SNP_HostName r _ => encode r bytes
  | SNP_Unknown r => encode r bytes
  end.

Record ServerName : Type := mkServerName {
  sn_typ : ServerNameType;
  sn_payload : ServerNamePayload
}.

Definition ServerName_encode (x : ServerName) (bytes : list byte) : list byte :=
  let bytes := encode (sn_typ x) bytes in
  ServerNamePayload_encode (sn_payload x) bytes.
Definition ServerName_read : Rd ServerName :=
  let! typ := read in
  let! payload := match typ with
    | ServerNameType.HostName => ServerNamePayload_read_hostname
    | _ => rd_map SNP_Unknown Payload_read
    end in
  rd_ret (mkServerName typ payload).

#[export] Instance ServerName_codec : Codec ServerName :=
  {| encode := ServerName_encode; read := ServerName_read |}.

(** A name of unknown type takes the rest of the list, so only host names can
    stand anywhere in it. *)
Definition ServerName_wf (x : ServerName) : Prop :=
  sn_typ x = ServerNameType.HostName ∧
  match sn_payload x with
  | SNP_HostName raw dns => codec_wf raw ∧ dns_try_from_ascii (PayloadU16_0 raw) = Some dns
  | SNP_Unknown _ => False
  end.

Lemma ServerName_read_safe : rd_safe ServerName_read.
Proof.
  apply rd_safe_bind; [auto with safe|]. intros typ. apply rd_safe_bind; [|auto with safe].
  destruct typ; [apply rd_safe_bind; [apply PayloadU16_ok|]|unfold Payload_read; auto with safe].
  intros raw. destruct (dns_try_from_ascii _); auto with safe.
Qed.

#[export] Instance ServerName_ok : CodecOk ServerName.
Proof.
  refine (Build_CodecOk _ _ ServerName_wf _ ServerName_read_safe).
  abstract (intros [typ [raw dns|p]] bs; encode_sum ServerName_encode;
    cbn [sn_typ sn_payload]; unfold ServerNamePayload_encode; enc_norm; reflexivity).
Defined.
#[export] Instance ServerName_element : ListElementOk ServerName.
Proof.
  apply rd_progress_bind; [auto with safe|auto with progress|]. intros typ.
  apply rd_safe_bind; [|auto with safe].
  destruct typ; [apply rd_safe_bind; [apply PayloadU16_ok|]|unfold Payload_read; auto with safe].
  intros raw. destruct (dns_try_from_ascii _); auto with safe.
Qed.
#[export] Instance ServerName_list : TlsListElement ServerName := LenU16.

#[export] Instance ServerName_delimited : Delimited ServerName.
Proof.
  intros x Hx. change (ServerName_wf x) in Hx.
  change (reads ServerName_read x (ServerName_encode x [])).
  destruct x as [typ [raw dns|p]], Hx as [Ht Hp]; cbn in Ht, Hp; [|done]; subst typ.
  destruct Hp as [Hraw Hdns].
  unfold ServerName_encode, ServerName_read. cbv zeta. cbn [sn_typ sn_payload].
  unfold ServerNamePayload_encode. enc_norm.
  eapply reads_bind; [apply read_delimited; enum_wf_tac|]. cbv beta iota.
  rewrite <- (app_nil_r (get_encoding raw)).
  eapply reads_bind; [|apply reads_ret].
  rewrite <- (app_nil_r (get_encoding raw)). unfold ServerNamePayload_read_hostname.
  eapply reads_bind; [exact (read_delimited raw Hraw)|]. cbv beta. rewrite Hdns. apply reads_ret.
Qed.

(** [has_duplicate_names_for_type] and [get_single_hostname] *)
Definition has_duplicate_names_for_type (names : list ServerName) : bool :=
  first_repeat [] (get_val <$> (sn_typ <$> names)).

Definition get_single_hostname (names : list ServerName) : option DnsName :=
  head (omap (λ name, match sn_payload name with
    | SNP_HostName _ dns => Some dns
    | SNP_Unknown _ => None
    end) names).

(** * Client extensions *)

Inductive ClientSessionTicket : Type := CST_Request | CST_Offer (p : Payload).

Inductive ClientExtension : Type :=
  | CE_ECPointFormats (r : list ECPointFormat)
  | CE_NamedGroups (r : list NamedGroup)
  | CE_SignatureAlgorithms (r : list SignatureScheme)
  | CE_ServerName (r : list ServerName)
  | CE_SessionTicket (r : ClientSessionTicket)
  | CE_Protocols (r : list ProtocolName)
  | CE_SupportedVersions (r : list ProtocolVersion)
  | CE_KeyShare (r : list KeyShareEntry)
  | CE_PresharedKeyModes (r : list PSKKeyExchangeMode)
  | CE_PresharedKey (r : PresharedKeyOffer)
  | CE_Cookie (r : PayloadU16)
  | CE_ExtendedMasterSecretRequest
  | CE_CertificateStatusRequest (r : CertificateStatusRequest)
  | CE_SignedCertificateTimestampRequest
  | CE_TransportParameters (r : list byte)
  | CE_TransportParametersDraft (r : list byte)
  | CE_EarlyData
  | CE_Unknown (r : UnknownExtension).

Definition ClientExtension_get_type (x : ClientExtension) : ExtensionType :=
  match x with
  | CE_ECPointFormats _ => ExtensionType.ECPointFormats
  | CE_NamedGroups _ => ExtensionType.EllipticCurves
  | CE_SignatureAlgorithms _ => ExtensionType.SignatureAlgorithms
  | CE_ServerName _ => ExtensionType.ServerName
  | CE_SessionTicket _ => ExtensionType.SessionTicket
  | CE_Protocols _ => ExtensionType.ALProtocolNegotiation
  | CE_SupportedVersions _ => ExtensionType.SupportedVersions
  | CE_KeyShare _ => ExtensionType.KeyShare
  | CE_PresharedKeyModes _ => ExtensionType.PSKKeyExchangeModes
  | CE_PresharedKey _ => ExtensionType.PreSharedKey
  | CE_Cookie _ => ExtensionType.Cookie
  | CE_ExtendedMasterSecretRequest => ExtensionType.ExtendedMasterSecret
  | CE_CertificateStatusRequest _ => ExtensionType.StatusRequest
  | CE_SignedCertificateTimestampRequest => ExtensionType.SCT
  | CE_TransportParameters _ => ExtensionType.TransportParameters
  | CE_TransportParametersDraft _ => ExtensionType.TransportParametersDraft
  | CE_EarlyData => ExtensionType.EarlyData
  | CE_Unknown r => ue_typ r
  end.

(** The [match] of [encode], which writes the body into [sub]. *)
Definition ClientExtension_sub (x : ClientExtension) (sub : list byte) : list byte :=
  match x with
  | CE_ECPointFormats r => encode r sub
  | CE_NamedGroups r => encode r sub
  | CE_SignatureAlgorithms r => encode r sub
  | CE_ServerName r => encode r sub
  | CE_SessionTicket CST_Request
  | CE_ExtendedMasterSecretRequest
  | CE_SignedCertificateTimestampRequest
  | CE_EarlyData => sub
  | CE_SessionTicket (CST_Offer r) => encode r sub
  | CE_Protocols r => encode r sub
  | CE_SupportedVersions r => encode r sub
  | CE_KeyShare r => encode r sub
  | CE_PresharedKeyModes r => encode r sub
  | CE_PresharedKey r => encode r sub
  | CE_Cookie r => encode r sub
  | CE_CertificateStatusRequest r => encode r sub
  | CE_TransportParameters r | CE_TransportParametersDraft r => sub ++ r
  | CE_Unknown r => UnknownExtension_encode r sub
  end.

Definition ClientExtension_encode (x : ClientExtension) (bytes : list byte) : list byte :=
  extension_encode (ClientExtension_get_type x) (ClientExtension_sub x []) bytes.

(** A guarded arm [T if !sub.any_left() => v], which falls through to [_]. *)
Definition if_empty {A} (v : A) (otherwise : Rd A) : Rd A :=
  let! any := rd_any_left in
  if negb any then rd_ret v else otherwise.

Definition ClientExtension_body (typ : ExtensionType) : Rd ClientExtension :=
  let unknown := rd_map CE_Unknown (UnknownExtension_read typ) in
  match typ with
  | ExtensionType.ECPointFormats => rd_map CE_ECPointFormats read
  | ExtensionType.EllipticCurves => rd_map CE_NamedGroups read
  | ExtensionType.SignatureAlgorithms => rd_map CE_SignatureAlgorithms read
  | ExtensionType.ServerName => rd_map CE_ServerName read
  | ExtensionType.SessionTicket =>
      let! any := rd_any_left in
      if any then
        let! contents := Payload_read in
        rd_ret (CE_SessionTicket (CST_Offer contents))
      else rd_ret (CE_SessionTicket CST_Request)
  | ExtensionType.ALProtocolNegotiation => rd_map CE_Protocols read
  | ExtensionType.SupportedVersions => rd_map CE_SupportedVersions read
  | ExtensionType.KeyShare => rd_map CE_KeyShare read
  | ExtensionType.PSKKeyExchangeModes => rd_map CE_PresharedKeyModes read
  | ExtensionType.PreSharedKey => rd_map CE_PresharedKey read
  | ExtensionType.Cookie => rd_map CE_Cookie read
  | ExtensionType.ExtendedMasterSecret => if_empty CE_ExtendedMasterSecretRequest unknown
  | ExtensionType.StatusRequest => rd_map CE_CertificateStatusRequest read
  | ExtensionType.SCT => if_empty CE_SignedCertificateTimestampRequest unknown
  | ExtensionType.TransportParameters => rd_map CE_TransportParameters rd_rest
  | ExtensionType.TransportParametersDraft => rd_map CE_TransportParametersDraft rd_rest
  | ExtensionType.EarlyData => if_empty CE_EarlyData unknown
  | _ => unknown
  end.

Definition ClientExtension_read : Rd ClientExtension :=
  extension_read "ClientExtension" ClientExtension_body.

#[export] Instance ClientExtension_codec : Codec ClientExtension :=
  {| encode := ClientExtension_encode; read := ClientExtension_read |}.
#[export] Instance ClientExtension_list : TlsListElement ClientExtension := LenU16.

(** A type that the decoder keeps as [Unknown], with this payload. *)
Definition client_unknown (r : UnknownExtension) : Prop :=
  codec_wf (ue_typ r) ∧
  match ue_typ r with
  | ExtensionType.ECPointFormats | ExtensionType.EllipticCurves
  | ExtensionType.SignatureAlgorithms | ExtensionType.ServerName
  | ExtensionType.SessionTicket | ExtensionType.ALProtocolNegotiation
  | ExtensionType.SupportedVersions | ExtensionType.KeyShare
  | ExtensionType.PSKKeyExchangeModes | ExtensionType.PreSharedKey
  | ExtensionType.Cookie | ExtensionType.StatusRequest
  | ExtensionType.TransportParameters | ExtensionType.TransportParametersDraft => False
  | ExtensionType.ExtendedMasterSecret | ExtensionType.SCT | ExtensionType.EarlyData =>
      Payload_0 (ue_payload r) ≠ []
  | _ => True
  end.

Definition ClientExtension_wf (x : ClientExtension) : Prop :=
  (Z.of_nat (length (ClientExtension_sub x [])) < 65536)%Z ∧
  match x with
  | CE_ECPointFormats r => codec_wf r
  | CE_NamedGroups r => codec_wf r
  | CE_SignatureAlgorithms r => codec_wf r
  | CE_ServerName r => codec_wf r
  | CE_SessionTicket (CST_Offer r) => Payload_0 r ≠ []
  | CE_Protocols r => codec_wf r
  | CE_SupportedVersions r => codec_wf r
  | CE_KeyShare r => codec_wf r
  | CE_PresharedKeyModes r => codec_wf r
  | CE_PresharedKey r => codec_wf r
  | CE_Cookie r => codec_wf r
  | CE_CertificateStatusRequest r => codec_wf r
  | CE_Unknown r => client_unknown r
  | _ => True
  end.

Lemma if_empty_safe {A} (v : A) m : rd_safe m → rd_safe (if_empty v m).
Proof. intros. unfold if_empty. apply rd_safe_bind; auto with safe. Qed.
Hint Resolve if_empty_safe : safe.

Lemma if_empty_reads_nil {A} (v : A) m : reads_all (if_empty v m) v [].
Proof. apply reads_all_any_left. simpl. apply reads_reads_all, reads_ret. Qed.

Lemma if_empty_reads_cons {A} (v a : A) m bs :
  bs ≠ [] → reads_all m a bs → reads_all (if_empty v m) a bs.
Proof. intros Hbs Hm. apply reads_all_any_left. by rewrite bool_decide_true. Qed.

Lemma ClientExtension_body_safe typ : rd_safe (ClientExtension_body typ).
Proof.
  destruct typ; unfold ClientExtension_body, Payload_read;
    eauto 10 with safe; (apply rd_safe_bind; [auto with safe|]; intros []; auto with safe).
Qed.

#[export] Instance ClientExtension_ok : CodecOk ClientExtension.
Proof.
  refine (Build_CodecOk _ _ ClientExtension_wf _ _).
  - abstract (intros x bs; encode_sum ClientExtension_encode; reflexivity).
  - apply extension_read_safe, ClientExtension_body_safe.
Defined.
#[export] Instance ClientExtension_element : ListElementOk ClientExtension.
Proof. apply extension_read_progress, ClientExtension_body_safe. Qed.
End extensions.

Lemma rd_map_Payload_reads (p : Payload) {A} (f : Payload → A) :
  reads_all (rd_map f Payload_read) (f p) (get_encoding p).
Proof. apply reads_all_map. exact (read_trailing p I). Qed.

Lemma rd_map_rest_reads {A} (f : list byte → A) bs : reads_all (rd_map f rd_rest) (f bs) bs.
Proof. apply reads_all_map, reads_all_rest. Qed.

Lemma rd_map_Unknown_reads {A} (f : UnknownExtension → A) x :
  reads_all (rd_map f (UnknownExtension_read (ue_typ x))) (f x) (get_encoding (ue_payload x)).
Proof. apply reads_all_map, UnknownExtension_reads. Qed.

(** The body of a known extension: one codec behind a constructor. *)
Ltac known_body :=
  apply reads_all_map; apply read_trailing; assumption.

Section extension_roundtrip.
Context `{WebPki}.

Lemma ClientExtension_unknown_reads r :
  client_unknown r →
  reads_all (ClientExtension_body (ue_typ r)) (CE_Unknown r) (get_encoding (ue_payload r)).
Proof.
  intros [_ Hk]. pose proof (rd_map_Unknown_reads CE_Unknown r) as Hu.
  destruct r as [typ [p]]; cbn [ue_typ ue_payload] in *.
  destruct typ; try done; try exact Hu; by apply if_empty_reads_cons.
Qed.

Lemma ClientExtension_body_reads x :
  ClientExtension_wf x →
  reads_all (ClientExtension_body (ClientExtension_get_type x)) x (ClientExtension_sub x []).
Proof.
  intros [_ Hx].
  destruct x; cbn [ClientExtension_get_type]; unfold ClientExtension_sub;
    try (apply if_empty_reads_nil); try (apply rd_map_rest_reads);
    try (unfold ClientExtension_body; known_body).
  - destruct r as [|p]; unfold ClientExtension_body; apply reads_all_any_left; simpl.
    + apply reads_reads_all, reads_ret.
    + rewrite bool_decide_true by done. eapply reads_all_bind_end; [exact (read_trailing p I)|].
      apply reads_reads_all, reads_ret.
  - by apply ClientExtension_unknown_reads.
Qed.

Lemma ClientExtension_type_wf x : ClientExtension_wf x → enum_wf (ClientExtension_get_type x).
Proof.
  intros [_ Hx]. destruct x; simpl in *; try enum_wf_tac. by destruct Hx.
Qed.

#[export] Instance ClientExtension_delimited : Delimited ClientExtension.
Proof.
  intros x Hx. change (ClientExtension_wf x) in Hx.
  change (reads ClientExtension_read x (ClientExtension_encode x [])).
  unfold ClientExtension_encode. rewrite extension_encode_eq, app_nil_l.
  apply extension_reads; [by apply ClientExtension_type_wf|by destruct Hx|].
  by apply ClientExtension_body_reads.
Qed.
End extension_roundtrip.

(** * Server extensions, hello-retry extensions *)

Ltac ext_body_safe :=
  unfold Payload_read; eauto 10 with safe;
  try (apply rd_safe_bind; [auto with safe|]; intros []; auto with safe).

(** The cases of an extension body: an acknowledgement without content, raw
    bytes, an integer, an unknown extension, or a codec. *)
Ltac ext_body_reads body :=
  first
  [ apply reads_reads_all, reads_ret
  | apply rd_map_rest_reads
  | match goal with Hx : _ ?r |- context [UnknownExtension_encode ?r []] =>
      destruct Hx as [_ Hk]; pose proof (fun A f => @rd_map_Unknown_reads A f r) as Hu;
      destruct r as [typ p]; cbn [ue_typ] in *; destruct typ; done || apply Hu
    end
  | unfold body; known_body
  | unfold body; rewrite ?u16_encode_eq, ?u32_encode_eq, app_nil_l;
    apply reads_all_map, reads_reads_all, int_reader_to_be;
    [auto with reads|pow256; lia]
  | unfold body; match goal with Hx : _ ∧ ?r ≠ [] |- _ =>
      destruct Hx; eapply reads_all_bind_end; [apply read_trailing; eassumption|];
      destruct r; [done|apply reads_reads_all, reads_ret] end ].

Inductive ServerExtension : Type :=
  | SE_ECPointFormats (r : list ECPointFormat)
  | SE_ServerNameAck
  | SE_SessionTicketAck
  | SE_RenegotiationInfo (r : PayloadU8)
  | SE_Protocols (r : list ProtocolName)
  | SE_KeyShare (r : KeyShareEntry)
  | SE_PresharedKey (r : Z)
  | SE_ExtendedMasterSecretAck
  | SE_CertificateStatusAck
  | SE_SignedCertificateTimestamp (r : list Sct)
  | SE_SupportedVersions (r : ProtocolVersion)
  | SE_TransportParameters (r : list byte)
  | SE_TransportParametersDraft (r : list byte)
  | SE_EarlyData
  | SE_Unknown (r : UnknownExtension).

Definition ServerExtension_get_type (x : ServerExtension) : ExtensionType :=
  match x with
  | SE_ECPointFormats _ => ExtensionType.ECPointFormats
  | SE_ServerNameAck => ExtensionType.ServerName
  | SE_SessionTicketAck => ExtensionType.SessionTicket
  | SE_RenegotiationInfo _ => ExtensionType.RenegotiationInfo
  | SE_Protocols _ => ExtensionType.ALProtocolNegotiation
  | SE_KeyShare _ => ExtensionType.KeyShare
  | SE_PresharedKey _ => ExtensionType.PreSharedKey
  | SE_ExtendedMasterSecretAck => ExtensionType.ExtendedMasterSecret
  | SE_CertificateStatusAck => ExtensionType.StatusRequest
  | SE_SignedCertificateTimestamp _ => ExtensionType.SCT
  | SE_SupportedVersions _ => ExtensionType.SupportedVersions
  | SE_TransportParameters _ => ExtensionType.TransportParameters
  | SE_TransportParametersDraft _ => ExtensionType.TransportParametersDraft
  | SE_EarlyData => ExtensionType.EarlyData
  | SE_Unknown r => ue_typ r
  end.

Definition ServerExtension_sub (x : ServerExtension) (sub : list byte) : list byte :=
  match x with
  | SE_ECPointFormats r => encode r sub
  | SE_ServerNameAck => sub
  | SE_SessionTicketAck => sub
  | SE_RenegotiationInfo r => encode r sub
  | SE_Protocols r => encode r sub
  | SE_KeyShare r => encode r sub
  | SE_PresharedKey r => u16_encode r sub
  | SE_ExtendedMasterSecretAck => sub
  | SE_CertificateStatusAck => sub
  | SE_SignedCertificateTimestamp r => encode r sub
  | SE_SupportedVersions r => encode r sub
  | SE_TransportParameters r => sub ++ r
  | SE_TransportParametersDraft r => sub ++ r
  | SE_EarlyData => sub
  | SE_Unknown r => UnknownExtension_encode r sub
  end.

Definition ServerExtension_encode (x : ServerExtension) (bytes : list byte) : list byte :=
  extension_encode (ServerExtension_get_type x) (ServerExtension_sub x []) bytes.

Definition ServerExtension_body (typ : ExtensionType) : Rd ServerExtension :=
  match typ with
  | ExtensionType.ECPointFormats => rd_map SE_ECPointFormats read
  | ExtensionType.ServerName => rd_ret SE_ServerNameAck
  | ExtensionType.SessionTicket => rd_ret SE_SessionTicketAck
  | ExtensionType.RenegotiationInfo => rd_map SE_RenegotiationInfo read
  | ExtensionType.ALProtocolNegotiation => rd_map SE_Protocols read
  | ExtensionType.KeyShare => rd_map SE_KeyShare read
  | ExtensionType.PreSharedKey => rd_map SE_PresharedKey u16_read
  | ExtensionType.ExtendedMasterSecret => rd_ret SE_ExtendedMasterSecretAck
  | ExtensionType.StatusRequest => rd_ret SE_CertificateStatusAck
  | ExtensionType.SCT => rd_map SE_SignedCertificateTimestamp read
  | ExtensionType.SupportedVersions => rd_map SE_SupportedVersions read
  | ExtensionType.TransportParameters => rd_map SE_TransportParameters rd_rest
  | ExtensionType.TransportParametersDraft => rd_map SE_TransportParametersDraft rd_rest
  | ExtensionType.EarlyData => rd_ret SE_EarlyData
  | _ => rd_map SE_Unknown (UnknownExtension_read typ)
  end.

Definition ServerExtension_read : Rd ServerExtension :=
  extension_read "ServerExtension" ServerExtension_body.

#[export] Instance ServerExtension_codec : Codec ServerExtension :=
  {| encode := ServerExtension_encode; read := ServerExtension_read |}.
#[export] Instance ServerExtension_list : TlsListElement ServerExtension := LenU16.

Definition ServerExtension_unknown (r : UnknownExtension) : Prop :=
  codec_wf (ue_typ r) ∧
  match ue_typ r with
  | ExtensionType.ECPointFormats
  | ExtensionType.ServerName
  | ExtensionType.SessionTicket
  | ExtensionType.RenegotiationInfo
  | ExtensionType.ALProtocolNegotiation
  | ExtensionType.KeyShare
  | ExtensionType.PreSharedKey
  | ExtensionType.ExtendedMasterSecret
  | ExtensionType.StatusRequest
  | ExtensionType.SCT
  | ExtensionType.SupportedVersions
  | ExtensionType.TransportParameters
  | ExtensionType.TransportParametersDraft
  | ExtensionType.EarlyData => False
  | _ => True
  end.

Definition ServerExtension_wf (x : ServerExtension) : Prop :=
  (Z.of_nat (length (ServerExtension_sub x [])) < 65536)%Z ∧
  match x with
  | SE_ECPointFormats r => codec_wf r
  | SE_RenegotiationInfo r => codec_wf r
  | SE_Protocols r => codec_wf r
  | SE_KeyShare r => codec_wf r
  | SE_PresharedKey r => (0 ≤ r < 65536)%Z
  | SE_SignedCertificateTimestamp r => codec_wf r
  | SE_SupportedVersions r => codec_wf r
  | SE_Unknown r => ServerExtension_unknown r
  | _ => True
  end.

Lemma ServerExtension_body_safe typ : rd_safe (ServerExtension_body typ).
Proof. destruct typ; unfold ServerExtension_body; ext_body_safe. Qed.

#[export] Instance ServerExtension_ok : CodecOk ServerExtension.
Proof.
  refine (Build_CodecOk _ _ ServerExtension_wf _ _).
  - abstract (intros x bs; encode_sum ServerExtension_encode; reflexivity).
  - apply extension_read_safe, ServerExtension_body_safe.
Defined.
#[export] Instance ServerExtension_element : ListElementOk ServerExtension.
Proof. apply extension_read_progress, ServerExtension_body_safe. Qed.

Lemma ServerExtension_body_reads x :
  ServerExtension_wf x →
  reads_all (ServerExtension_body (ServerExtension_get_type x)) x (ServerExtension_sub x []).
Proof.
  intros [_ Hx]; destruct x; cbn [ServerExtension_get_type]; unfold ServerExtension_sub; ext_body_reads ServerExtension_body.
Qed.

#[export] Instance ServerExtension_delimited : Delimited ServerExtension.
Proof.
  intros x Hx. change (ServerExtension_wf x) in Hx.
  change (reads ServerExtension_read x (ServerExtension_encode x [])).
  unfold ServerExtension_encode. rewrite extension_encode_eq, app_nil_l.
  apply extension_reads; [|by destruct Hx|by apply ServerExtension_body_reads].
  destruct Hx as [_ Hx]. destruct x; simpl in *; first [by destruct Hx|enum_wf_tac].
Qed.

Inductive HelloRetryExtension : Type :=
  | HRE_KeyShare (r : NamedGroup)
  | HRE_Cookie (r : PayloadU16)
  | HRE_SupportedVersions (r : ProtocolVersion)
  | HRE_Unknown (r : UnknownExtension).

Definition HelloRetryExtension_get_type (x : HelloRetryExtension) : ExtensionType :=
  match x with
  | HRE_KeyShare _ => ExtensionType.KeyShare
  | HRE_Cookie _ => ExtensionType.Cookie
  | HRE_SupportedVersions _ => ExtensionType.SupportedVersions
  | HRE_Unknown r => ue_typ r
  end.

Definition HelloRetryExtension_sub (x : HelloRetryExtension) (sub : list byte) : list byte :=
  match x with
  | HRE_KeyShare r => encode r sub
  | HRE_Cookie r => encode r sub
  | HRE_SupportedVersions r => encode r sub
  | HRE_Unknown r => UnknownExtension_encode r sub
  end.

Definition HelloRetryExtension_encode (x : HelloRetryExtension) (bytes : list byte) : list byte :=
  extension_encode (HelloRetryExtension_get_type x) (HelloRetryExtension_sub x []) bytes.

Definition HelloRetryExtension_body (typ : ExtensionType) : Rd HelloRetryExtension :=
  match typ with
  | ExtensionType.KeyShare => rd_map HRE_KeyShare read
  | ExtensionType.Cookie => rd_map HRE_Cookie read
  | ExtensionType.SupportedVersions => rd_map HRE_SupportedVersions read
  | _ => rd_map HRE_Unknown (UnknownExtension_read typ)
  end.

Definition HelloRetryExtension_read : Rd HelloRetryExtension :=
  extension_read "HelloRetryExtension" HelloRetryExtension_body.

#[export] Instance HelloRetryExtension_codec : Codec HelloRetryExtension :=
  {| encode := HelloRetryExtension_encode; read := HelloRetryExtension_read |}.
#[export] Instance HelloRetryExtension_list : TlsListElement HelloRetryExtension := LenU16.

Definition HelloRetryExtension_unknown (r : UnknownExtension) : Prop :=
  codec_wf (ue_typ r) ∧
  match ue_typ r with
  | ExtensionType.KeyShare
  | ExtensionType.Cookie
  | ExtensionType.SupportedVersions => False
  | _ => True
  end.

Definition HelloRetryExtension_wf (x : HelloRetryExtension) : Prop :=
  (Z.of_nat (length (HelloRetryExtension_sub x [])) < 65536)%Z ∧
  match x with
  | HRE_KeyShare r => codec_wf r
  | HRE_Cookie r => codec_wf r
  | HRE_SupportedVersions r => codec_wf r
  | HRE_Unknown r => HelloRetryExtension_unknown r
  end.

Lemma HelloRetryExtension_body_safe typ : rd_safe (HelloRetryExtension_body typ).
Proof. destruct typ; unfold HelloRetryExtension_body; ext_body_safe. Qed.

#[export] Instance HelloRetryExtension_ok : CodecOk HelloRetryExtension.
Proof.
  refine (Build_CodecOk _ _ HelloRetryExtension_wf _ _).
  - abstract (intros x bs; encode_sum HelloRetryExtension_encode; reflexivity).
  - apply extension_read_safe, HelloRetryExtension_body_safe.
Defined.
#[export] Instance HelloRetryExtension_element : ListElementOk HelloRetryExtension.
Proof. apply extension_read_progress, HelloRetryExtension_body_safe. Qed.

Lemma HelloRetryExtension_body_reads x :
  HelloRetryExtension_wf x →
  reads_all (HelloRetryExtension_body (HelloRetryExtension_get_type x)) x (HelloRetryExtension_sub x []).
Proof.
  intros [_ Hx]; destruct x; cbn [HelloRetryExtension_get_type]; unfold HelloRetryExtension_sub; ext_body_reads HelloRetryExtension_body.
Qed.

#[export] Instance HelloRetryExtension_delimited : Delimited HelloRetryExtension.
Proof.
  intros x Hx. change (HelloRetryExtension_wf x) in Hx.
  change (reads HelloRetryExtension_read x (HelloRetryExtension_encode x [])).
  unfold HelloRetryExtension_encode. rewrite extension_encode_eq, app_nil_l.
  apply extension_reads; [|by destruct Hx|by apply HelloRetryExtension_body_reads].
  destruct Hx as [_ Hx]. destruct x; simpl in *; first [by destruct Hx|enum_wf_tac].
Qed.

(** * Certificate extensions *)

Record CertificateStatus : Type := mkCertificateStatus { cs_ocsp_response : PayloadU24 }.

Definition CertificateStatus_encode (x : CertificateStatus) (bytes : list byte) : list byte :=
  let bytes := encode CertificateStatusType.OCSP bytes in
  encode (cs_ocsp_response x) bytes.
Definition CertificateStatus_read : Rd CertificateStatus :=
  let! typ := read in
  match typ with
  | CertificateStatusType.OCSP => rd_map mkCertificateStatus read
  | _ => rd_err InvalidCertificateStatusType
  end.

#[export] Instance CertificateStatus_codec : Codec CertificateStatus :=
  {| encode := CertificateStatus_encode; read := CertificateStatus_read |}.
Definition CertificateStatus_wf (x : CertificateStatus) : Prop := codec_wf (cs_ocsp_response x).
#[export] Instance CertificateStatus_ok : CodecOk CertificateStatus.
Proof.
  refine (Build_CodecOk _ _ CertificateStatus_wf _ _);
    [abstract (encode_appends CertificateStatus_encode)|].
  apply rd_safe_bind; [auto with safe|]. intros []; auto with safe.
Defined.
#[export] Instance CertificateStatus_delimited : Delimited CertificateStatus.
Proof.
  intros [p] Hx. change (codec_wf p) in Hx.
  change (reads CertificateStatus_read (mkCertificateStatus p)
    (CertificateStatus_encode (mkCertificateStatus p) [])).
  unfold CertificateStatus_encode, CertificateStatus_read. cbv zeta. enc_norm.
  eapply reads_bind; [apply read_delimited; enum_wf_tac|]. cbv beta iota.
  apply reads_map. by apply read_delimited.
Qed.

Inductive CertificateExtension : Type :=
  | CE13_CertificateStatus (r : CertificateStatus)
  | CE13_SignedCertificateTimestamp (r : list Sct)
  | CE13_Unknown (r : UnknownExtension).

Definition CertificateExtension_get_type (x : CertificateExtension) : ExtensionType :=
  match x with
  | CE13_CertificateStatus _ => ExtensionType.StatusRequest
  | CE13_SignedCertificateTimestamp _ => ExtensionType.SCT
  | CE13_Unknown r => ue_typ r
  end.

Definition CertificateExtension_sub (x : CertificateExtension) (sub : list byte) : list byte :=
  match x with
  | CE13_CertificateStatus r => encode r sub
  | CE13_SignedCertificateTimestamp r => encode r sub
  | CE13_Unknown r => UnknownExtension_encode r sub
  end.

Definition CertificateExtension_encode (x : CertificateExtension) (bytes : list byte) : list byte :=
  extension_encode (CertificateExtension_get_type x) (CertificateExtension_sub x []) bytes.

Definition CertificateExtension_body (typ : ExtensionType) : Rd CertificateExtension :=
  match typ with
  | ExtensionType.StatusRequest => rd_map CE13_CertificateStatus read
  | ExtensionType.SCT => rd_map CE13_SignedCertificateTimestamp read
  | _ => rd_map CE13_Unknown (UnknownExtension_read typ)
  end.

Definition CertificateExtension_read : Rd CertificateExtension :=
  extension_read "CertificateExtension" CertificateExtension_body.

#[export] Instance CertificateExtension_codec : Codec CertificateExtension :=
  {| encode := CertificateExtension_encode; read := CertificateExtension_read |}.
#[export] Instance CertificateExtension_list : TlsListElement CertificateExtension := LenU16.

Definition CertificateExtension_unknown (r : UnknownExtension) : Prop :=
  codec_wf (ue_typ r) ∧
  match ue_typ r with
  | ExtensionType.StatusRequest
  | ExtensionType.SCT => False
  | _ => True
  end.

Definition CertificateExtension_wf (x : CertificateExtension) : Prop :=
  (Z.of_nat (length (CertificateExtension_sub x [])) < 65536)%Z ∧
  match x with
  | CE13_CertificateStatus r => codec_wf r
  | CE13_SignedCertificateTimestamp r => codec_wf r
  | CE13_Unknown r => CertificateExtension_unknown r
  end.

Lemma CertificateExtension_body_safe typ : rd_safe (CertificateExtension_body typ).
Proof. destruct typ; unfold CertificateExtension_body; ext_body_safe. Qed.

#[export] Instance CertificateExtension_ok : CodecOk CertificateExtension.
Proof.
  refine (Build_CodecOk _ _ CertificateExtension_wf _ _).
  - abstract (intros x bs; encode_sum CertificateExtension_encode; reflexivity).
  - apply extension_read_safe, CertificateExtension_body_safe.
Defined.
#[export] Instance CertificateExtension_element : ListElementOk CertificateExtension.
Proof. apply extension_read_progress, CertificateExtension_body_safe. Qed.

Lemma CertificateExtension_body_reads x :
  CertificateExtension_wf x →
  reads_all (CertificateExtension_body (CertificateExtension_get_type x)) x (CertificateExtension_sub x []).
Proof.
  intros [_ Hx]; destruct x; cbn [CertificateExtension_get_type]; unfold CertificateExtension_sub; ext_body_reads CertificateExtension_body.
Qed.

#[export] Instance CertificateExtension_delimited : Delimited CertificateExtension.
Proof.
  intros x Hx. change (CertificateExtension_wf x) in Hx.
  change (reads CertificateExtension_read x (CertificateExtension_encode x [])).
  unfold CertificateExtension_encode. rewrite extension_encode_eq, app_nil_l.
  apply extension_reads; [|by destruct Hx|by apply CertificateExtension_body_reads].
  destruct Hx as [_ Hx]. destruct x; simpl in *; first [by destruct Hx|enum_wf_tac].
Qed.

(** * Certificate-request and ticket extensions *)

Inductive CertReqExtension : Type :=
  | CRE_SignatureAlgorithms (r : list SignatureScheme)
  | CRE_AuthorityNames (r : list DistinguishedName)
  | CRE_Unknown (r : UnknownExtension).

Definition CertReqExtension_get_type (x : CertReqExtension) : ExtensionType :=
  match x with
  | CRE_SignatureAlgorithms _ => ExtensionType.SignatureAlgorithms
  | CRE_AuthorityNames _ => ExtensionType.CertificateAuthorities
  | CRE_Unknown r => ue_typ r
  end.

Definition CertReqExtension_sub (x : CertReqExtension) (sub : list byte) : list byte :=
  match x with
  | CRE_SignatureAlgorithms r => encode r sub
  | CRE_AuthorityNames r => encode r sub
  | CRE_Unknown r => UnknownExtension_encode r sub
  end.

Definition CertReqExtension_encode (x : CertReqExtension) (bytes : list byte) : list byte :=
  extension_encode (CertReqExtension_get_type x) (CertReqExtension_sub x []) bytes.

Definition CertReqExtension_body (typ : ExtensionType) : Rd CertReqExtension :=
  match typ with
  | ExtensionType.SignatureAlgorithms => 
      let! schemes := read in
      match schemes with
      | [] => rd_err NoSignatureSchemes
      | _ => rd_ret (CRE_SignatureAlgorithms schemes)
      end
  | ExtensionType.CertificateAuthorities => rd_map CRE_AuthorityNames read
  | _ => rd_map CRE_Unknown (UnknownExtension_read typ)
  end.

Definition CertReqExtension_read : Rd CertReqExtension :=
  extension_read "CertReqExtension" CertReqExtension_body.

#[export] Instance CertReqExtension_codec : Codec CertReqExtension :=
  {| encode := CertReqExtension_encode; read := CertReqExtension_read |}.
#[export] Instance CertReqExtension_list : TlsListElement CertReqExtension := LenU16.

Definition CertReqExtension_unknown (r : UnknownExtension) : Prop :=
  codec_wf (ue_typ r) ∧
  match ue_typ r with
  | ExtensionType.SignatureAlgorithms
  | ExtensionType.CertificateAuthorities => False
  | _ => True
  end.

Definition CertReqExtension_wf (x : CertReqExtension) : Prop :=
  (Z.of_nat (length (CertReqExtension_sub x [])) < 65536)%Z ∧
  match x with
  | CRE_SignatureAlgorithms r => codec_wf r ∧ r ≠ []
  | CRE_AuthorityNames r => codec_wf r
  | CRE_Unknown r => CertReqExtension_unknown r
  end.

Lemma CertReqExtension_body_safe typ : rd_safe (CertReqExtension_body typ).
Proof. destruct typ; unfold CertReqExtension_body; ext_body_safe. Qed.

#[export] Instance CertReqExtension_ok : CodecOk CertReqExtension.
Proof.
  refine (Build_CodecOk _ _ CertReqExtension_wf _ _).
  - abstract (intros x bs; encode_sum CertReqExtension_encode; reflexivity).
  - apply extension_read_safe, CertReqExtension_body_safe.
Defined.
#[export] Instance CertReqExtension_element : ListElementOk CertReqExtension.
Proof. apply extension_read_progress, CertReqExtension_body_safe. Qed.

Lemma CertReqExtension_body_reads x :
  CertReqExtension_wf x →
  reads_all (CertReqExtension_body (CertReqExtension_get_type x)) x (CertReqExtension_sub x []).
Proof.
  intros [_ Hx]; destruct x; cbn [CertReqExtension_get_type]; unfold CertReqExtension_sub; ext_body_reads CertReqExtension_body.
Qed.

#[export] Instance CertReqExtension_delimited : Delimited CertReqExtension.
Proof.
  intros x Hx. change (CertReqExtension_wf x) in Hx.
  change (reads CertReqExtension_read x (CertReqExtension_encode x [])).
  unfold CertReqExtension_encode. rewrite extension_encode_eq, app_nil_l.
  apply extension_reads; [|by destruct Hx|by apply CertReqExtension_body_reads].
  destruct Hx as [_ Hx]. destruct x; simpl in *; first [by destruct Hx|enum_wf_tac].
Qed.

Inductive NewSessionTicketExtension : Type :=
  | NSTE_EarlyData (r : Z)
  | NSTE_Unknown (r : UnknownExtension).

Definition NewSessionTicketExtension_get_type (x : NewSessionTicketExtension) : ExtensionType :=
  match x with
  | NSTE_EarlyData _ => ExtensionType.EarlyData
  | NSTE_Unknown r => ue_typ r
  end.

Definition NewSessionTicketExtension_sub (x : NewSessionTicketExtension) (sub : list byte) : list byte :=
  match x with
  | NSTE_EarlyData r => u32_encode r sub
  | NSTE_Unknown r => UnknownExtension_encode r sub
  end.

Definition NewSessionTicketExtension_encode (x : NewSessionTicketExtension) (bytes : list byte) : list byte :=
  extension_encode (NewSessionTicketExtension_get_type x) (NewSessionTicketExtension_sub x []) bytes.

Definition NewSessionTicketExtension_body (typ : ExtensionType) : Rd NewSessionTicketExtension :=
  match typ with
  | ExtensionType.EarlyData => rd_map NSTE_EarlyData u32_read
  | _ => rd_map NSTE_Unknown (UnknownExtension_read typ)
  end.

Definition NewSessionTicketExtension_read : Rd NewSessionTicketExtension :=
  extension_read "NewSessionTicketExtension" NewSessionTicketExtension_body.

#[export] Instance NewSessionTicketExtension_codec : Codec NewSessionTicketExtension :=
  {| encode := NewSessionTicketExtension_encode; read := NewSessionTicketExtension_read |}.
#[export] Instance NewSessionTicketExtension_list : TlsListElement NewSessionTicketExtension := LenU16.

Definition NewSessionTicketExtension_unknown (r : UnknownExtension) : Prop :=
  codec_wf (ue_typ r) ∧
  match ue_typ r with
  | ExtensionType.EarlyData => False
  | _ => True
  end.

Definition NewSessionTicketExtension_wf (x : NewSessionTicketExtension) : Prop :=
  (Z.of_nat (length (NewSessionTicketExtension_sub x [])) < 65536)%Z ∧
  match x with
  | NSTE_EarlyData r => (0 ≤ r < 4294967296)%Z
  | NSTE_Unknown r => NewSessionTicketExtension_unknown r
  end.

Lemma NewSessionTicketExtension_body_safe typ : rd_safe (NewSessionTicketExtension_body typ).
Proof. destruct typ; unfold NewSessionTicketExtension_body; ext_body_safe. Qed.

#[export] Instance NewSessionTicketExtension_ok : CodecOk NewSessionTicketExtension.
Proof.
  refine (Build_CodecOk _ _ NewSessionTicketExtension_wf _ _).
  - abstract (intros x bs; encode_sum NewSessionTicketExtension_encode; reflexivity).
  - apply extension_read_safe, NewSessionTicketExtension_body_safe.
Defined.
#[export] Instance NewSessionTicketExtension_element : ListElementOk NewSessionTicketExtension.
Proof. apply extension_read_progress, NewSessionTicketExtension_body_safe. Qed.

Lemma NewSessionTicketExtension_body_reads x :
  NewSessionTicketExtension_wf x →
  reads_all (NewSessionTicketExtension_body (NewSessionTicketExtension_get_type x)) x (NewSessionTicketExtension_sub x []).
Proof.
  intros [_ Hx]; destruct x; cbn [NewSessionTicketExtension_get_type]; unfold NewSessionTicketExtension_sub; ext_body_reads NewSessionTicketExtension_body.
Qed.

#[export] Instance NewSessionTicketExtension_delimited : Delimited NewSessionTicketExtension.
Proof.
  intros x Hx. change (NewSessionTicketExtension_wf x) in Hx.
  change (reads NewSessionTicketExtension_read x (NewSessionTicketExtension_encode x [])).
  unfold NewSessionTicketExtension_encode. rewrite extension_encode_eq, app_nil_l.
  apply extension_reads; [|by destruct Hx|by apply NewSessionTicketExtension_body_reads].
  destruct Hx as [_ Hx]. destruct x; simpl in *; first [by destruct Hx|enum_wf_tac].
Qed.

