(* ===== verification/TlsHandshake.v ===== *)
(** The handshake messages of TLS
    (rustls-0.21.2/rustls/src/msgs/handshake.rs, the second half): the payload
    structs, [HandshakePayload], and [HandshakeMessagePayload] with its framing
    and its version-dependent decoder [read_version]. *)
From Stdlib Require Import ZArith Lia Strings.Byte String.
From stdpp Require Import base list numbers option.
From S2P Require Import Prelude.
From S2P Require Import Codec.
From S2P Require Import TlsEnums.
From S2P Require Import TlsBase.
From S2P Require Import TlsExtensions.
Open Scope rust_scope.

(** * ClientHello *)

Section client_hello.
Context `{WebPki}.

Record ClientHelloPayload : Type := mkClientHelloPayload {
  ch_client_version : ProtocolVersion;
  ch_random : Random;
  ch_session_id : SessionId;
  ch_cipher_suites : list CipherSuite;
  ch_compression_methods : list Compression;
  ch_extensions : list ClientExtension
}.

Definition ClientHelloPayload_encode (x : ClientHelloPayload) (bytes : list byte)
    : list byte :=
  let bytes := encode (ch_client_version x) bytes in
  let bytes := encode (ch_random x) bytes in
  let bytes := encode (ch_session_id x) bytes in
  let bytes := encode (ch_cipher_suites x) bytes in
  let bytes := encode (ch_compression_methods x) bytes in
  if negb (bool_decide (ch_extensions x = [])) then encode (ch_extensions x) bytes
  else bytes.

Definition ClientHelloPayload_read : Rd ClientHelloPayload :=
  let! client_version := read in
  let! random := read in
  let! session_id := read in
  let! cipher_suites := read in
  let! compression_methods := read in
  let! any := rd_any_left in
  let! extensions := if any then read else rd_ret [] in
  let! any := rd_any_left in
  match any, extensions with
  | true, _ => rd_err (TrailingData "ClientHelloPayload")
  | _, [] => rd_err (MissingData "ClientHelloPayload")
  | _, _ => rd_ret (mkClientHelloPayload client_version random session_id cipher_suites
      compression_methods extensions)
  end.

#[export] Instance ClientHelloPayload_codec : Codec ClientHelloPayload :=
  {| encode := ClientHelloPayload_encode; read := ClientHelloPayload_read |}.

(** A ClientHello without extensions is refused by the decoder. *)
Definition ClientHelloPayload_wf (x : ClientHelloPayload) : Prop :=
  codec_wf (ch_client_version x) ∧ codec_wf (ch_random x) ∧ codec_wf (ch_session_id x) ∧
  codec_wf (ch_cipher_suites x) ∧ codec_wf (ch_compression_methods x) ∧
  codec_wf (ch_extensions x) ∧ ch_extensions x ≠ [].

Lemma ClientHelloPayload_read_safe : rd_safe ClientHelloPayload_read.
Proof.
  unfold ClientHelloPayload_read. do 5 (apply rd_safe_bind; [auto with safe|intros ?]).
  apply rd_safe_bind; [auto with safe|]. intros any.
  apply rd_safe_bind; [auto with safe|]. intros exts.
  apply rd_safe_bind; [auto with safe|]. intros []; [|destruct exts]; auto with safe.
Qed.

#[export] Instance ClientHelloPayload_ok : CodecOk ClientHelloPayload.
Proof.
  refine (Build_CodecOk _ _ ClientHelloPayload_wf _ ClientHelloPayload_read_safe).
  abstract (intros x bs; encode_sum ClientHelloPayload_encode;
    destruct (bool_decide _); simpl; enc_norm; reflexivity).
Defined.

#[export] Instance ClientHelloPayload_trailing : Trailing ClientHelloPayload.
Proof.
  intros x Hx. change (ClientHelloPayload_wf x) in Hx.
  change (reads_all ClientHelloPayload_read x (ClientHelloPayload_encode x [])).
  destruct x as [v r s cs cm ext], Hx as (?&?&?&?&?&Hext&Hne).
  unfold ClientHelloPayload_encode, ClientHelloPayload_read; cbv zeta.
  cbn [ch_client_version ch_random ch_session_id ch_cipher_suites ch_compression_methods
    ch_extensions] in *.
  rewrite bool_decide_false by done. cbn [negb]. enc_norm.
  do 5 (eapply reads_all_bind; [by apply read_delimited|]; cbv beta).
  apply reads_all_any_left.
  rewrite bool_decide_true by apply Vec_get_encoding_nonempty.
  eapply reads_all_bind_end; [by apply read_trailing|].
  apply reads_all_any_left. cbn. destruct ext; [done|]. apply reads_reads_all, reads_ret.
Qed.
End client_hello.

(** * HelloRetryRequest and ServerHello

    Both [read] functions start after the version and the random, which
    [read_version] has read to tell the two messages apart; they return those
    fields with dummy values that [read_version] replaces. *)
Record HelloRetryRequest : Type := mkHelloRetryRequest {
  hrr_legacy_version : ProtocolVersion;
  hrr_session_id : SessionId;
  hrr_cipher_suite : CipherSuite;
  hrr_extensions : list HelloRetryExtension
}.

Definition HelloRetryRequest_encode (x : HelloRetryRequest) (bytes : list byte) : list byte :=
  let bytes := encode (hrr_legacy_version x) bytes in
  let bytes := encode HELLO_RETRY_REQUEST_RANDOM bytes in
  let bytes := encode (hrr_session_id x) bytes in
  let bytes := encode (hrr_cipher_suite x) bytes in
  let bytes := encode Compression.Null bytes in
  encode (hrr_extensions x) bytes.

Definition HelloRetryRequest_read : Rd HelloRetryRequest :=
  let! session_id := read in
  let! cipher_suite := read in
  let! compression := read in
  if bool_decide (compression ≠ Compression.Null) then rd_err UnsupportedCompression
  else
    let! extensions := read in
    rd_ret (mkHelloRetryRequest (ProtocolVersion.Unknown 0) session_id cipher_suite extensions).

Record ServerHelloPayload : Type := mkServerHelloPayload {
  sh_legacy_version : ProtocolVersion;
  sh_random : Random;
  sh_session_id : SessionId;
  sh_cipher_suite : CipherSuite;
  sh_compression_method : Compression;
  sh_extensions : list ServerExtension
}.

Definition ServerHelloPayload_encode (x : ServerHelloPayload) (bytes : list byte)
    : list byte :=
  let bytes := encode (sh_legacy_version x) bytes in
  let bytes := encode (sh_random x) bytes in
  let bytes := encode (sh_session_id x) bytes in
  let bytes := encode (sh_cipher_suite x) bytes in
  let bytes := encode (sh_compression_method x) bytes in
  if negb (bool_decide (sh_extensions x = [])) then encode (sh_extensions x) bytes
  else bytes.

Definition ServerHelloPayload_read : Rd ServerHelloPayload :=
  let! session_id := read in
  let! suite := read in
  let! compression := read in
  let! any := rd_any_left in
  let! extensions := if any then read else rd_ret [] in
  let! _ := rd_expect_empty "ServerHelloPayload" in
  rd_ret (mkServerHelloPayload (ProtocolVersion.Unknown 0) ZERO_RANDOM session_id suite
    compression extensions).

Definition HelloRetryRequest_wf (x : HelloRetryRequest) : Prop :=
  codec_wf (hrr_legacy_version x) ∧ codec_wf (hrr_session_id x) ∧
  codec_wf (hrr_cipher_suite x) ∧ codec_wf (hrr_extensions x).

Definition ServerHelloPayload_wf (x : ServerHelloPayload) : Prop :=
  codec_wf (sh_legacy_version x) ∧ codec_wf (sh_random x) ∧ codec_wf (sh_session_id x) ∧
  codec_wf (sh_cipher_suite x) ∧ codec_wf (sh_compression_method x) ∧
  codec_wf (sh_extensions x).

(** What each [read] sees: the encoding after version and random. *)
Definition HelloRetryRequest_rest (x : HelloRetryRequest) : list byte :=
  get_encoding (hrr_session_id x) ++ get_encoding (hrr_cipher_suite x) ++
  get_encoding Compression.Null ++ get_encoding (hrr_extensions x).

Definition ServerHelloPayload_rest (x : ServerHelloPayload) : list byte :=
  get_encoding (sh_session_id x) ++ get_encoding (sh_cipher_suite x) ++
  get_encoding (sh_compression_method x) ++
  (if bool_decide (sh_extensions x = []) then [] else get_encoding (sh_extensions x)).

Lemma HelloRetryRequest_encode_eq x bs :
  HelloRetryRequest_encode x bs
  = bs ++ get_encoding (hrr_legacy_version x) ++ get_encoding HELLO_RETRY_REQUEST_RANDOM
       ++ HelloRetryRequest_rest x.
Proof. unfold HelloRetryRequest_encode, HelloRetryRequest_rest. cbv zeta. by enc_norm. Qed.

Lemma ServerHelloPayload_encode_eq x bs :
  ServerHelloPayload_encode x bs
  = bs ++ get_encoding (sh_legacy_version x) ++ get_encoding (sh_random x)
       ++ ServerHelloPayload_rest x.
Proof.
  unfold ServerHelloPayload_encode, ServerHelloPayload_rest. cbv zeta.
  destruct (bool_decide _); simpl negb; cbv iota; enc_norm; by rewrite ?app_nil_r.
Qed.
#[export] Hint Rewrite HelloRetryRequest_encode_eq ServerHelloPayload_encode_eq : enc.

Lemma HelloRetryRequest_read_safe : rd_safe HelloRetryRequest_read.
Proof. unfold HelloRetryRequest_read. auto 10 with safe. Qed.
Lemma ServerHelloPayload_read_safe : rd_safe ServerHelloPayload_read.
Proof. unfold ServerHelloPayload_read. auto 15 with safe. Qed.
#[export] Hint Resolve HelloRetryRequest_read_safe ServerHelloPayload_read_safe : safe.

Definition with_hrr_version (v : ProtocolVersion) (x : HelloRetryRequest) : HelloRetryRequest :=
  mkHelloRetryRequest v (hrr_session_id x) (hrr_cipher_suite x) (hrr_extensions x).
Definition with_sh_version_random (v : ProtocolVersion) (r : Random) (x : ServerHelloPayload)
    : ServerHelloPayload :=
  mkServerHelloPayload v r (sh_session_id x) (sh_cipher_suite x) (sh_compression_method x)
    (sh_extensions x).

Lemma HelloRetryRequest_reads x :
  HelloRetryRequest_wf x →
  reads_all HelloRetryRequest_read (with_hrr_version (ProtocolVersion.Unknown 0) x)
    (HelloRetryRequest_rest x).
Proof.
  intros (_&?&?&?). unfold HelloRetryRequest_read, HelloRetryRequest_rest.
  do 2 (eapply reads_all_bind; [by apply read_delimited|]; cbv beta).
  eapply reads_all_bind; [apply read_delimited; enum_wf_tac|]. cbv beta.
  rewrite bool_decide_false by (intros Hne; by apply Hne).
  eapply reads_all_bind_end; [by apply read_trailing|]. apply reads_reads_all, reads_ret.
Qed.

Lemma ServerHelloPayload_reads x :
  ServerHelloPayload_wf x →
  reads_all ServerHelloPayload_read
    (with_sh_version_random (ProtocolVersion.Unknown 0) ZERO_RANDOM x)
    (ServerHelloPayload_rest x).
Proof.
  intros (_&_&?&?&?&?). unfold ServerHelloPayload_read, ServerHelloPayload_rest.
  do 3 (eapply reads_all_bind; [by apply read_delimited|]; cbv beta).
  apply reads_all_any_left.
  eapply (reads_all_bind_end _ _ (sh_extensions x)).
  - destruct (decide (sh_extensions x = [])) as [->|Hne]; [apply reads_reads_all, reads_ret|].
    rewrite (bool_decide_false (sh_extensions x = [])) by done.
    rewrite bool_decide_true by apply Vec_get_encoding_nonempty. by apply read_trailing.
  - eapply reads_all_bind_end; [apply reads_all_expect_empty|].
    apply reads_reads_all. destruct x; apply reads_ret.
Qed.

(** * Certificates *)

Record CertificateEntry : Type := mkCertificateEntry {
  ce_cert : Certificate;
  ce_exts : list CertificateExtension
}.

Definition CertificateEntry_encode (x : CertificateEntry) (bytes : list byte) : list byte :=
  let bytes := encode (ce_cert x) bytes in
  encode (ce_exts x) bytes.
Definition CertificateEntry_read : Rd CertificateEntry :=
  let! cert := read in
  let! exts := read in
  rd_ret (mkCertificateEntry cert exts).

#[export] Instance CertificateEntry_codec : Codec CertificateEntry :=
  {| encode := CertificateEntry_encode; read := CertificateEntry_read |}.
Definition CertificateEntry_wf (x : CertificateEntry) : Prop :=
  codec_wf (ce_cert x) ∧
  codec_wf (ce_exts x).
#[export] Instance CertificateEntry_ok : CodecOk CertificateEntry.
Proof. codec_ok CertificateEntry_wf CertificateEntry_encode CertificateEntry_read. Defined.
#[export] Instance CertificateEntry_delimited : Delimited CertificateEntry.
Proof. delimited_by CertificateEntry_wf CertificateEntry_encode CertificateEntry_read. Qed.
#[export] Instance CertificateEntry_element : ListElementOk CertificateEntry.
Proof. progress_by CertificateEntry_read. Qed.

#[export] Instance CertificateEntry_list : TlsListElement CertificateEntry :=
  LenU24 (Z.to_nat 0x10000).

Record CertificatePayloadTLS13 : Type := mkCertificatePayloadTLS13 {
  cp_context : PayloadU8;
  cp_entries : list CertificateEntry
}.

Definition CertificatePayloadTLS13_encode (x : CertificatePayloadTLS13) (bytes : list byte) : list byte :=
  let bytes := encode (cp_context x) bytes in
  encode (cp_entries x) bytes.
Definition CertificatePayloadTLS13_read : Rd CertificatePayloadTLS13 :=
  let! context := read in
  let! entries := read in
  rd_ret (mkCertificatePayloadTLS13 context entries).

#[export] Instance CertificatePayloadTLS13_codec : Codec CertificatePayloadTLS13 :=
  {| encode := CertificatePayloadTLS13_encode; read := CertificatePayloadTLS13_read |}.
Definition CertificatePayloadTLS13_wf (x : CertificatePayloadTLS13) : Prop :=
  codec_wf (cp_context x) ∧
  codec_wf (cp_entries x).
#[export] Instance CertificatePayloadTLS13_ok : CodecOk CertificatePayloadTLS13.
Proof. codec_ok CertificatePayloadTLS13_wf CertificatePayloadTLS13_encode CertificatePayloadTLS13_read. Defined.
#[export] Instance CertificatePayloadTLS13_delimited : Delimited CertificatePayloadTLS13.
Proof. delimited_by CertificatePayloadTLS13_wf CertificatePayloadTLS13_encode CertificatePayloadTLS13_read. Qed.

Abbreviation CertificatePayload := (list Certificate).

(** * Key exchange *)

Record ECParameters : Type := mkECParameters {
  ecp_curve_type : ECCurveType;
  ecp_named_group : NamedGroup
}.

Definition ECParameters_encode (x : ECParameters) (bytes : list byte) : list byte :=
  let bytes := encode (ecp_curve_type x) bytes in
  encode (ecp_named_group x) bytes.
Definition ECParameters_read : Rd ECParameters :=
  let! ct := read in
  if bool_decide (ct ≠ ECCurveType.NamedCurve) then rd_err UnsupportedCurveType
  else
    let! grp := read in
    rd_ret (mkECParameters ct grp).

#[export] Instance ECParameters_codec : Codec ECParameters :=
  {| encode := ECParameters_encode; read := ECParameters_read |}.
Definition ECParameters_wf (x : ECParameters) : Prop :=
  ecp_curve_type x = ECCurveType.NamedCurve ∧ codec_wf (ecp_named_group x).
#[export] Instance ECParameters_ok : CodecOk ECParameters.
Proof. codec_ok ECParameters_wf ECParameters_encode ECParameters_read. Defined.
#[export] Instance ECParameters_delimited : Delimited ECParameters.
Proof.
  intros [ct grp] Hx. change (ECParameters_wf (mkECParameters ct grp)) in Hx.
  destruct Hx as [Hct Hgrp]; cbn in Hct; subst ct.
  change (reads ECParameters_read (mkECParameters ECCurveType.NamedCurve grp)
    (ECParameters_encode (mkECParameters ECCurveType.NamedCurve grp) [])).
  unfold ECParameters_encode, ECParameters_read. cbv zeta.
  cbn [ecp_curve_type ecp_named_group] in *. enc_norm.
  eapply reads_bind; [apply read_delimited; enum_wf_tac|]. cbv beta.
  rewrite bool_decide_false by (intros Hne; by apply Hne).
  rewrite <- (app_nil_r (get_encoding grp)).
  eapply reads_bind; [by apply read_delimited|apply reads_ret].
Qed.

Record ClientECDHParams : Type := mkClientECDHParams {
  cep_public : PayloadU8
}.

Definition ClientECDHParams_encode (x : ClientECDHParams) (bytes : list byte) : list byte :=
  encode (cep_public x) bytes.
Definition ClientECDHParams_read : Rd ClientECDHParams :=
  let! public := read in
  rd_ret (mkClientECDHParams public).

#[export] Instance ClientECDHParams_codec : Codec ClientECDHParams :=
  {| encode := ClientECDHParams_encode; read := ClientECDHParams_read |}.
Definition ClientECDHParams_wf (x : ClientECDHParams) : Prop :=
  codec_wf (cep_public x).
#[export] Instance ClientECDHParams_ok : CodecOk ClientECDHParams.
Proof. codec_ok ClientECDHParams_wf ClientECDHParams_encode ClientECDHParams_read. Defined.
#[export] Instance ClientECDHParams_delimited : Delimited ClientECDHParams.
Proof. delimited_by ClientECDHParams_wf ClientECDHParams_encode ClientECDHParams_read. Qed.

Record ServerECDHParams : Type := mkServerECDHParams {
  sep_curve_params : ECParameters;
  sep_public : PayloadU8
}.

Definition ServerECDHParams_encode (x : ServerECDHParams) (bytes : list byte) : list byte :=
  let bytes := encode (sep_curve_params x) bytes in
  encode (sep_public x) bytes.
Definition ServerECDHParams_read : Rd ServerECDHParams :=
  let! curve_params := read in
  let! public := read in
  rd_ret (mkServerECDHParams curve_params public).

#[export] Instance ServerECDHParams_codec : Codec ServerECDHParams :=
  {| encode := ServerECDHParams_encode; read := ServerECDHParams_read |}.
Definition ServerECDHParams_wf (x : ServerECDHParams) : Prop :=
  codec_wf (sep_curve_params x) ∧
  codec_wf (sep_public x).
#[export] Instance ServerECDHParams_ok : CodecOk ServerECDHParams.
Proof. codec_ok ServerECDHParams_wf ServerECDHParams_encode ServerECDHParams_read. Defined.
#[export] Instance ServerECDHParams_delimited : Delimited ServerECDHParams.
Proof. delimited_by ServerECDHParams_wf ServerECDHParams_encode ServerECDHParams_read. Qed.

Record ECDHEServerKeyExchange : Type := mkECDHEServerKeyExchange {
  ske_params : ServerECDHParams;
  ske_dss : DigitallySignedStruct
}.

Definition ECDHEServerKeyExchange_encode (x : ECDHEServerKeyExchange) (bytes : list byte) : list byte :=
  let bytes := encode (ske_params x) bytes in
  encode (ske_dss x) bytes.
Definition ECDHEServerKeyExchange_read : Rd ECDHEServerKeyExchange :=
  let! params := read in
  let! dss := read in
  rd_ret (mkECDHEServerKeyExchange params dss).

#[export] Instance ECDHEServerKeyExchange_codec : Codec ECDHEServerKeyExchange :=
  {| encode := ECDHEServerKeyExchange_encode; read := ECDHEServerKeyExchange_read |}.
Definition ECDHEServerKeyExchange_wf (x : ECDHEServerKeyExchange) : Prop :=
  codec_wf (ske_params x) ∧
  codec_wf (ske_dss x).
#[export] Instance ECDHEServerKeyExchange_ok : CodecOk ECDHEServerKeyExchange.
Proof. codec_ok ECDHEServerKeyExchange_wf ECDHEServerKeyExchange_encode ECDHEServerKeyExchange_read. Defined.
#[export] Instance ECDHEServerKeyExchange_delimited : Delimited ECDHEServerKeyExchange.
Proof. delimited_by ECDHEServerKeyExchange_wf ECDHEServerKeyExchange_encode ECDHEServerKeyExchange_read. Qed.

Inductive ServerKeyExchangePayload : Type :=
  | SKE_ECDHE (x : ECDHEServerKeyExchange)
  | SKE_Unknown (x : Payload).

Definition ServerKeyExchangePayload_encode (x : ServerKeyExchangePayload) (bytes : list byte)
    : list byte :=
  match x with
  | SKE_ECDHE x => encode x bytes
  | SKE_Unknown x => encode x bytes
  end.
Definition ServerKeyExchangePayload_read : Rd ServerKeyExchangePayload :=
  rd_map SKE_Unknown Payload_read.

Definition ServerKeyExchangePayload_unwrap_given_kxa (x : ServerKeyExchangePayload)
    (kxa : KeyExchangeAlgorithm) : option ECDHEServerKeyExchange :=
  match x with
  | SKE_Unknown unk =>
      let rd := Reader_init (Payload_0 unk) in
      match kxa with
      | ECDHE =>
          let '(result, rd) := read (A := ECDHEServerKeyExchange) rd in
          if negb (Reader_any_left rd) then
            match result with Ok v => Some v | _ => None end
          else None
      | _ => None
      end
  | _ => None
  end.

(** * Certificate requests *)

Record CertificateRequestPayload : Type := mkCertificateRequestPayload {
  crp_certtypes : list ClientCertificateType;
  crp_sigschemes : list SignatureScheme;
  crp_canames : list DistinguishedName
}.

Definition CertificateRequestPayload_encode (x : CertificateRequestPayload)
    (bytes : list byte) : list byte :=
  let bytes := encode (crp_certtypes x) bytes in
  let bytes := encode (crp_sigschemes x) bytes in
  encode (crp_canames x) bytes.
Definition CertificateRequestPayload_read : Rd CertificateRequestPayload :=
  let! certtypes := read in
  let! sigschemes := read in
  let! canames := read in
  match sigschemes with
  | [] => rd_err NoSignatureSchemes
  | _ => rd_ret (mkCertificateRequestPayload certtypes sigschemes canames)
  end.

#[export] Instance CertificateRequestPayload_codec : Codec CertificateRequestPayload :=
  {| encode := CertificateRequestPayload_encode; read := CertificateRequestPayload_read |}.
Definition CertificateRequestPayload_wf (x : CertificateRequestPayload) : Prop :=
  codec_wf (crp_certtypes x) ∧ codec_wf (crp_sigschemes x) ∧ codec_wf (crp_canames x) ∧
  crp_sigschemes x ≠ [].
#[export] Instance CertificateRequestPayload_ok : CodecOk CertificateRequestPayload.
Proof.
  refine (Build_CodecOk _ _ CertificateRequestPayload_wf _ _);
    [abstract (encode_appends CertificateRequestPayload_encode)|].
  do 3 (apply rd_safe_bind; [auto with safe|intros ?]).
  match goal with |- context [match ?s with [] => _ | _ => _ end] => destruct s end;
    auto with safe.
Defined.
#[export] Instance CertificateRequestPayload_delimited : Delimited CertificateRequestPayload.
Proof.
  delimited_by CertificateRequestPayload_wf CertificateRequestPayload_encode
    CertificateRequestPayload_read.
  destruct x as [? [|] ?]; cbn in *; [done|reads_step].
Qed.

Record CertificateRequestPayloadTLS13 : Type := mkCertificateRequestPayloadTLS13 {
  crp13_context : PayloadU8;
  crp13_extensions : list CertReqExtension
}.

Definition CertificateRequestPayloadTLS13_encode (x : CertificateRequestPayloadTLS13) (bytes : list byte) : list byte :=
  let bytes := encode (crp13_context x) bytes in
  encode (crp13_extensions x) bytes.
Definition CertificateRequestPayloadTLS13_read : Rd CertificateRequestPayloadTLS13 :=
  let! context := read in
  let! extensions := read in
  rd_ret (mkCertificateRequestPayloadTLS13 context extensions).

#[export] Instance CertificateRequestPayloadTLS13_codec : Codec CertificateRequestPayloadTLS13 :=
  {| encode := CertificateRequestPayloadTLS13_encode; read := CertificateRequestPayloadTLS13_read |}.
Definition CertificateRequestPayloadTLS13_wf (x : CertificateRequestPayloadTLS13) : Prop :=
  codec_wf (crp13_context x) ∧
  codec_wf (crp13_extensions x).
#[export] Instance CertificateRequestPayloadTLS13_ok : CodecOk CertificateRequestPayloadTLS13.
Proof. codec_ok CertificateRequestPayloadTLS13_wf CertificateRequestPayloadTLS13_encode CertificateRequestPayloadTLS13_read. Defined.
#[export] Instance CertificateRequestPayloadTLS13_delimited : Delimited CertificateRequestPayloadTLS13.
Proof. delimited_by CertificateRequestPayloadTLS13_wf CertificateRequestPayloadTLS13_encode CertificateRequestPayloadTLS13_read. Qed.

(** * Session tickets *)

Record NewSessionTicketPayload : Type := mkNewSessionTicketPayload {
  nst_lifetime_hint : Z;
  nst_ticket : PayloadU16
}.

Definition NewSessionTicketPayload_encode (x : NewSessionTicketPayload) (bytes : list byte) : list byte :=
  let bytes := u32_encode (nst_lifetime_hint x) bytes in
  encode (nst_ticket x) bytes.
Definition NewSessionTicketPayload_read : Rd NewSessionTicketPayload :=
  let! lifetime_hint := u32_read in
  let! ticket := read in
  rd_ret (mkNewSessionTicketPayload lifetime_hint ticket).

#[export] Instance NewSessionTicketPayload_codec : Codec NewSessionTicketPayload :=
  {| encode := NewSessionTicketPayload_encode; read := NewSessionTicketPayload_read |}.
Definition NewSessionTicketPayload_wf (x : NewSessionTicketPayload) : Prop :=
  (0 ≤ nst_lifetime_hint x < 4294967296)%Z ∧
  codec_wf (nst_ticket x).
#[export] Instance NewSessionTicketPayload_ok : CodecOk NewSessionTicketPayload.
Proof. codec_ok NewSessionTicketPayload_wf NewSessionTicketPayload_encode NewSessionTicketPayload_read. Defined.
#[export] Instance NewSessionTicketPayload_delimited : Delimited NewSessionTicketPayload.
Proof. delimited_by NewSessionTicketPayload_wf NewSessionTicketPayload_encode NewSessionTicketPayload_read. Qed.

Record NewSessionTicketPayloadTLS13 : Type := mkNewSessionTicketPayloadTLS13 {
  nst13_lifetime : Z;
  nst13_age_add : Z;
  nst13_nonce : PayloadU8;
  nst13_ticket : PayloadU16;
  nst13_exts : list NewSessionTicketExtension
}.

Definition NewSessionTicketPayloadTLS13_encode (x : NewSessionTicketPayloadTLS13) (bytes : list byte) : list byte :=
  let bytes := u32_encode (nst13_lifetime x) bytes in
  let bytes := u32_encode (nst13_age_add x) bytes in
  let bytes := encode (nst13_nonce x) bytes in
  let bytes := encode (nst13_ticket x) bytes in
  encode (nst13_exts x) bytes.
Definition NewSessionTicketPayloadTLS13_read : Rd NewSessionTicketPayloadTLS13 :=
  let! lifetime := u32_read in
  let! age_add := u32_read in
  let! nonce := read in
  let! ticket := read in
  let! exts := read in
  rd_ret (mkNewSessionTicketPayloadTLS13 lifetime age_add nonce ticket exts).

#[export] Instance NewSessionTicketPayloadTLS13_codec : Codec NewSessionTicketPayloadTLS13 :=
  {| encode := NewSessionTicketPayloadTLS13_encode; read := NewSessionTicketPayloadTLS13_read |}.
Definition NewSessionTicketPayloadTLS13_wf (x : NewSessionTicketPayloadTLS13) : Prop :=
  (0 ≤ nst13_lifetime x < 4294967296)%Z ∧
  (0 ≤ nst13_age_add x < 4294967296)%Z ∧
  codec_wf (nst13_nonce x) ∧
  codec_wf (nst13_ticket x) ∧
  codec_wf (nst13_exts x).
#[export] Instance NewSessionTicketPayloadTLS13_ok : CodecOk NewSessionTicketPayloadTLS13.
Proof. codec_ok NewSessionTicketPayloadTLS13_wf NewSessionTicketPayloadTLS13_encode NewSessionTicketPayloadTLS13_read. Defined.
#[export] Instance NewSessionTicketPayloadTLS13_delimited : Delimited NewSessionTicketPayloadTLS13.
Proof. delimited_by NewSessionTicketPayloadTLS13_wf NewSessionTicketPayloadTLS13_encode NewSessionTicketPayloadTLS13_read. Qed.

(** * HandshakePayload *)

Section handshake.
Context `{WebPki}.

Inductive HandshakePayload : Type :=
  | HP_HelloRequest
  | HP_ClientHello (x : ClientHelloPayload)
  | HP_ServerHello (x : ServerHelloPayload)
  | HP_HelloRetryRequest (x : HelloRetryRequest)
  | HP_Certificate (x : CertificatePayload)
  | HP_CertificateTLS13 (x : CertificatePayloadTLS13)
  | HP_ServerKeyExchange (x : ServerKeyExchangePayload)
  | HP_CertificateRequest (x : CertificateRequestPayload)
  | HP_CertificateRequestTLS13 (x : CertificateRequestPayloadTLS13)
  | HP_CertificateVerify (x : DigitallySignedStruct)
  | HP_ServerHelloDone
  | HP_EndOfEarlyData
  | HP_ClientKeyExchange (x : Payload)
  | HP_NewSessionTicket (x : NewSessionTicketPayload)
  | HP_NewSessionTicketTLS13 (x : NewSessionTicketPayloadTLS13)
  | HP_EncryptedExtensions (x : list ServerExtension)
  | HP_KeyUpdate (x : KeyUpdateRequest)
  | HP_Finished (x : Payload)
  | HP_CertificateStatus (x : CertificateStatus)
  | HP_MessageHash (x : Payload)
  | HP_Unknown (x : Payload).

Definition HandshakePayload_encode (p : HandshakePayload) (bytes : list byte) : list byte :=
  match p with
  | HP_HelloRequest | HP_ServerHelloDone | HP_EndOfEarlyData => bytes
  | HP_ClientHello x => encode x bytes
  | HP_ServerHello x => ServerHelloPayload_encode x bytes
  | HP_HelloRetryRequest x => HelloRetryRequest_encode x bytes
  | HP_Certificate x => encode x bytes
  | HP_CertificateTLS13 x => encode x bytes
  | HP_ServerKeyExchange x => ServerKeyExchangePayload_encode x bytes
  | HP_ClientKeyExchange x => encode x bytes
  | HP_CertificateRequest x => encode x bytes
  | HP_CertificateRequestTLS13 x => encode x bytes
  | HP_CertificateVerify x => encode x bytes
  | HP_NewSessionTicket x => encode x bytes
  | HP_NewSessionTicketTLS13 x => encode x bytes
  | HP_EncryptedExtensions x => encode x bytes
  | HP_KeyUpdate x => encode x bytes
  | HP_Finished x => encode x bytes
  | HP_CertificateStatus x => encode x bytes
  | HP_MessageHash x => encode x bytes
  | HP_Unknown x => encode x bytes
  end.

Record HandshakeMessagePayload : Type := mkHandshakeMessagePayload {
  hmp_typ : HandshakeType;
  hmp_payload : HandshakePayload
}.

(** The type on the wire: a HelloRetryRequest travels as a ServerHello. *)
Definition wire_type (typ : HandshakeType) : HandshakeType :=
  match typ with
  | HandshakeType.HelloRetryRequest => HandshakeType.ServerHello
  | _ => typ
  end.

Definition HandshakeMessagePayload_encode (x : HandshakeMessagePayload) (bytes : list byte)
    : list byte :=
  let sub := HandshakePayload_encode (hmp_payload x) [] in
  let bytes := encode (wire_type (hmp_typ x)) bytes in
  let bytes := u24_encode (as_u32 (Z.of_nat (length sub))) bytes in
  bytes ++ sub.

(** The ServerHello arm of [read_version]: the random tells a
    HelloRetryRequest, and changes the type of the message. *)
Definition read_server_hello : Rd (HandshakeType * HandshakePayload) :=
  let! version := read in
  let! random := read in
  if bool_decide (random = HELLO_RETRY_REQUEST_RANDOM) then
    let! hrr := HelloRetryRequest_read in
    rd_ret (HandshakeType.HelloRetryRequest,
      HP_HelloRetryRequest (with_hrr_version version hrr))
  else
    let! shp := ServerHelloPayload_read in
    rd_ret (HandshakeType.ServerHello,
      HP_ServerHello (with_sh_version_random version random shp)).

(** A payload that leaves the type of the message as it is. *)
Definition payload_as {A} (typ : HandshakeType) (f : A → HandshakePayload) (m : Rd A)
    : Rd (HandshakeType * HandshakePayload) := rd_map (λ x, (typ, f x)) m.

(** The [match] of [read_version]: the payload, and the type of the message
    after it. *)
Definition read_payload (typ : HandshakeType) (vers : ProtocolVersion)
    : Rd (HandshakeType * HandshakePayload) :=
  let is13 := bool_decide (vers = ProtocolVersion.TLSv1_3) in
  match typ with
  | HandshakeType.HelloRequest =>
      if_empty (typ, HP_HelloRequest) (payload_as typ HP_Unknown Payload_read)
  | HandshakeType.ClientHello => payload_as typ HP_ClientHello read
  | HandshakeType.ServerHello => read_server_hello
  | HandshakeType.Certificate =>
      if is13 then payload_as typ HP_CertificateTLS13 read else payload_as typ HP_Certificate read
  | HandshakeType.ServerKeyExchange =>
      payload_as typ HP_ServerKeyExchange ServerKeyExchangePayload_read
  | HandshakeType.ServerHelloDone =>
      let! _ := rd_expect_empty "ServerHelloDone" in rd_ret (typ, HP_ServerHelloDone)
  | HandshakeType.ClientKeyExchange => payload_as typ HP_ClientKeyExchange Payload_read
  | HandshakeType.CertificateRequest =>
      if is13 then payload_as typ HP_CertificateRequestTLS13 read
      else payload_as typ HP_CertificateRequest read
  | HandshakeType.CertificateVerify => payload_as typ HP_CertificateVerify read
  | HandshakeType.NewSessionTicket =>
      if is13 then payload_as typ HP_NewSessionTicketTLS13 read
      else payload_as typ HP_NewSessionTicket read
  | HandshakeType.EncryptedExtensions => payload_as typ HP_EncryptedExtensions read
  | HandshakeType.KeyUpdate => payload_as typ HP_KeyUpdate read
  | HandshakeType.EndOfEarlyData =>
      let! _ := rd_expect_empty "EndOfEarlyData" in rd_ret (typ, HP_EndOfEarlyData)
  | HandshakeType.Finished => payload_as typ HP_Finished Payload_read
  | HandshakeType.CertificateStatus => payload_as typ HP_CertificateStatus read
  | HandshakeType.MessageHash => rd_err (UnexpectedMessage "MessageHash")
  | HandshakeType.HelloRetryRequest => rd_err (UnexpectedMessage "HelloRetryRequest")
  | _ => payload_as typ HP_Unknown Payload_read
  end.

Definition HandshakeMessagePayload_read_version (vers : ProtocolVersion)
    : Rd HandshakeMessagePayload :=
  let! typ := read in
  let! len := u24_read in
  rd_sub (Z.to_nat len) (
    let! (typ, payload) := read_payload typ vers in
    let! _ := rd_expect_empty "HandshakeMessagePayload" in
    rd_ret (mkHandshakeMessagePayload typ payload)).

#[export] Instance HandshakeMessagePayload_codec : Codec HandshakeMessagePayload := {|
  encode := HandshakeMessagePayload_encode;
  read := HandshakeMessagePayload_read_version ProtocolVersion.TLSv1_2
|}.

Definition build_key_update_notify : HandshakeMessagePayload :=
  mkHandshakeMessagePayload HandshakeType.KeyUpdate
    (HP_KeyUpdate KeyUpdateRequest.UpdateNotRequested).

Definition build_handshake_hash (hash : list byte) : HandshakeMessagePayload :=
  mkHandshakeMessagePayload HandshakeType.MessageHash (HP_MessageHash (mkPayload hash)).

(** ** Laws *)

(** The messages that survive a round trip under protocol version [vers]:
    the type matches the payload, the payload is encodable, and the message is
    one that the decoder accepts and keeps apart from the others. *)
Definition payload_wf (vers : ProtocolVersion) (typ : HandshakeType) (p : HandshakePayload)
    : Prop :=
  let is13 := vers = ProtocolVersion.TLSv1_3 in
  match p with
  | HP_HelloRequest => typ = HandshakeType.HelloRequest
  | HP_ClientHello x => typ = HandshakeType.ClientHello ∧ codec_wf x
  | HP_ServerHello x => typ = HandshakeType.ServerHello ∧ ServerHelloPayload_wf x ∧
      sh_random x ≠ HELLO_RETRY_REQUEST_RANDOM
  | HP_HelloRetryRequest x =>
      typ = HandshakeType.HelloRetryRequest ∧ HelloRetryRequest_wf x
  | HP_Certificate x => typ = HandshakeType.Certificate ∧ ¬ is13 ∧ codec_wf x
  | HP_CertificateTLS13 x => typ = HandshakeType.Certificate ∧ is13 ∧ codec_wf x
  | HP_ServerKeyExchange (SKE_Unknown x) => typ = HandshakeType.ServerKeyExchange
  | HP_ServerKeyExchange (SKE_ECDHE x) => False
  | HP_CertificateRequest x => typ = HandshakeType.CertificateRequest ∧ ¬ is13 ∧ codec_wf x
  | HP_CertificateRequestTLS13 x => typ = HandshakeType.CertificateRequest ∧ is13 ∧ codec_wf x
  | HP_CertificateVerify x => typ = HandshakeType.CertificateVerify ∧ codec_wf x
  | HP_ServerHelloDone => typ = HandshakeType.ServerHelloDone
  | HP_EndOfEarlyData => typ = HandshakeType.EndOfEarlyData
  | HP_ClientKeyExchange x => typ = HandshakeType.ClientKeyExchange
  | HP_NewSessionTicket x => typ = HandshakeType.NewSessionTicket ∧ ¬ is13 ∧ codec_wf x
  | HP_NewSessionTicketTLS13 x => typ = HandshakeType.NewSessionTicket ∧ is13 ∧ codec_wf x
  | HP_EncryptedExtensions x => typ = HandshakeType.EncryptedExtensions ∧ codec_wf x
  | HP_KeyUpdate x => typ = HandshakeType.KeyUpdate ∧ codec_wf x
  | HP_Finished x => typ = HandshakeType.Finished
  | HP_CertificateStatus x => typ = HandshakeType.CertificateStatus ∧ codec_wf x
  | HP_MessageHash x => False
  | HP_Unknown x =>
      match typ with
      | HandshakeType.HelloRequest => Payload_0 x ≠ []
      | HandshakeType.HelloVerifyRequest | HandshakeType.CertificateURL => True
      | HandshakeType.Unknown _ => codec_wf typ
      | _ => False
      end
  end.

Definition HandshakeMessagePayload_wf (vers : ProtocolVersion) (x : HandshakeMessagePayload)
    : Prop :=
  payload_wf vers (hmp_typ x) (hmp_payload x) ∧
  (Z.of_nat (length (HandshakePayload_encode (hmp_payload x) [])) < 16777216)%Z.

Lemma read_server_hello_safe : rd_safe read_server_hello.
Proof. unfold read_server_hello. auto 10 with safe. Qed.
Hint Resolve read_server_hello_safe if_empty_safe : safe.

Lemma payload_as_safe {A} typ (f : A → HandshakePayload) m :
  rd_safe m → rd_safe (payload_as typ f m).
Proof. apply rd_map_safe. Qed.

Lemma payload_as_reads {A} typ (f : A → HandshakePayload) m a bs :
  reads_all m a bs → reads_all (payload_as typ f m) (typ, f a) bs.
Proof. apply (reads_all_map (λ x, (typ, f x))). Qed.
Hint Resolve payload_as_safe : safe.

Lemma read_payload_safe typ vers : rd_safe (read_payload typ vers).
Proof.
  destruct typ; unfold read_payload, ServerKeyExchangePayload_read, Payload_read; cbv zeta;
    eauto 10 with safe.
Qed.

Lemma read_version_safe vers : rd_safe (HandshakeMessagePayload_read_version vers).
Proof.
  apply rd_safe_bind; [auto with safe|]. intros typ. apply rd_safe_bind; [auto with safe|].
  intros len. apply rd_safe_sub, rd_safe_bind; [apply read_payload_safe|].
  intros [typ' p]. auto with safe.
Qed.

Lemma HandshakeMessagePayload_encode_eq x bs :
  HandshakeMessagePayload_encode x bs
  = bs ++ get_encoding (wire_type (hmp_typ x)) ++
    to_be 3 (Z.of_nat (length (HandshakePayload_encode (hmp_payload x) []))) ++
    HandshakePayload_encode (hmp_payload x) [].
Proof. unfold HandshakeMessagePayload_encode. cbv zeta. by enc_norm. Qed.

Lemma read_server_hello_sh_reads x :
  ServerHelloPayload_wf x → sh_random x ≠ HELLO_RETRY_REQUEST_RANDOM →
  reads_all read_server_hello (HandshakeType.ServerHello, HP_ServerHello x)
    (HandshakePayload_encode (HP_ServerHello x) []).
Proof.
  intros Hx Hr. unfold read_server_hello, HandshakePayload_encode.
  rewrite ServerHelloPayload_encode_eq, app_nil_l. pose proof Hx as (?&?&_).
  eapply reads_all_bind; [by apply read_delimited|]. cbv beta.
  eapply reads_all_bind; [by apply read_delimited|]. cbv beta.
  rewrite bool_decide_false by done.
  eapply reads_all_bind_end; [by apply ServerHelloPayload_reads|].
  apply reads_reads_all. destruct x; apply reads_ret.
Qed.

Lemma read_server_hello_hrr_reads x :
  HelloRetryRequest_wf x →
  reads_all read_server_hello (HandshakeType.HelloRetryRequest, HP_HelloRetryRequest x)
    (HandshakePayload_encode (HP_HelloRetryRequest x) []).
Proof.
  intros Hx. unfold read_server_hello, HandshakePayload_encode.
  rewrite HelloRetryRequest_encode_eq, app_nil_l. pose proof Hx as (?&_).
  eapply reads_all_bind; [by apply read_delimited|]. cbv beta.
  eapply reads_all_bind; [by apply read_delimited|]. cbv beta.
  rewrite bool_decide_true by done.
  eapply reads_all_bind_end; [by apply HelloRetryRequest_reads|].
  apply reads_reads_all. destruct x; apply reads_ret.
Qed.

Lemma Payload_reads (x : Payload) : reads_all Payload_read x (encode x []).
Proof. exact (read_trailing x I). Qed.

(** The [match] of the decoder inverts the [match] of the encoder. *)
Lemma read_payload_reads vers typ p :
  payload_wf vers typ p →
  reads_all (read_payload (wire_type typ) vers) (typ, p) (HandshakePayload_encode p []).
Proof.
  intros Hp.
  destruct p as [|x|x|x|x|x|[x|x]|x|x|x| | |x|x|x|x|x|x|x|x|x]; cbn [payload_wf] in Hp;
    try contradiction; repeat match goal with H : _ ∧ _ |- _ => destruct H end;
    subst; cbn [wire_type read_payload];
    rewrite ?bool_decide_true, ?bool_decide_false by done;
    try (apply payload_as_reads; first [by apply (read_trailing x)|by apply read_delimited]).
  - apply if_empty_reads_nil.
  - by apply read_server_hello_sh_reads.
  - by apply read_server_hello_hrr_reads.
  - apply payload_as_reads, (reads_all_map SKE_Unknown), (Payload_reads x).
  - eapply reads_all_bind_end; [apply reads_all_expect_empty|apply reads_reads_all, reads_ret].
  - eapply reads_all_bind_end; [apply reads_all_expect_empty|apply reads_reads_all, reads_ret].
  - apply payload_as_reads, (Payload_reads x).
  - apply payload_as_reads, (Payload_reads x).
  - destruct typ; try contradiction; cbn [wire_type read_payload];
      try (apply payload_as_reads, (Payload_reads x)).
    destruct x as [x]. apply if_empty_reads_cons; [done|].
    apply payload_as_reads, (Payload_reads (mkPayload x)).
Qed.

Lemma wire_type_wf vers typ p : payload_wf vers typ p → codec_wf (wire_type typ).
Proof.
  intros Hp. destruct typ; try (by enum_wf_tac).
  destruct p as [| | | | | |[]| | | | | | | | | | | | | |]; cbn in Hp;
    repeat match goal with H : _ ∧ _ |- _ => destruct H end; try done.
Qed.

(** Whatever follows the message, decoding it gives it back. *)
Lemma HandshakeMessagePayload_reads vers x :
  HandshakeMessagePayload_wf vers x →
  reads (HandshakeMessagePayload_read_version vers) x (HandshakeMessagePayload_encode x []).
Proof.
  intros [Hp Hlen]. rewrite HandshakeMessagePayload_encode_eq, app_nil_l.
  unfold HandshakeMessagePayload_read_version.
  eapply reads_bind; [by eapply read_delimited, wire_type_wf|]. cbv beta.
  eapply reads_bind; [eapply int_reader_to_be; [auto with reads|pow256; lia]|]. cbv beta.
  apply reads_sub; [lia|].
  eapply reads_all_bind_end; [by apply read_payload_reads|]. cbv beta iota.
  eapply reads_all_bind_end; [apply reads_all_expect_empty|].
  destruct x. apply reads_reads_all, reads_ret.
Qed.

(** ** What a peer reads

    Three messages that the encoder takes are not read back: a ClientHello without
    extensions, a CertificateRequest without signature schemes and a MessageHash;
    and the parameters of a key exchange come back unparsed. *)
Definition ClientHelloPayload_fits (x : ClientHelloPayload) : Prop :=
  codec_wf (ch_client_version x) ∧ codec_wf (ch_random x) ∧ codec_wf (ch_session_id x) ∧
  codec_wf (ch_cipher_suites x) ∧ codec_wf (ch_compression_methods x) ∧ codec_wf (ch_extensions x).

Definition payload_fits (vers : ProtocolVersion) (typ : HandshakeType) (p : HandshakePayload) : Prop :=
  match p with
  | HP_ClientHello x => typ = HandshakeType.ClientHello ∧ ClientHelloPayload_fits x
  | HP_ServerKeyExchange _ => typ = HandshakeType.ServerKeyExchange
  | HP_CertificateRequest x => typ = HandshakeType.CertificateRequest ∧ vers ≠ ProtocolVersion.TLSv1_3 ∧
      codec_wf (crp_certtypes x) ∧ codec_wf (crp_sigschemes x) ∧ codec_wf (crp_canames x)
  | HP_MessageHash _ => typ = HandshakeType.MessageHash
  | _ => payload_wf vers typ p
  end.

Definition HandshakeMessagePayload_fits (vers : ProtocolVersion) (x : HandshakeMessagePayload) : Prop :=
  payload_fits vers (hmp_typ x) (hmp_payload x) ∧
  (Z.of_nat (length (HandshakePayload_encode (hmp_payload x) [])) < 16777216)%Z.

Definition message_read (x : HandshakeMessagePayload) : res InvalidMessage HandshakeMessagePayload :=
  match hmp_payload x with
  | HP_ClientHello ch =>
      match ch_extensions ch with [] => Err (MissingData "ClientHelloPayload") | _ => Ok x end
  | HP_ServerKeyExchange ske =>
      Ok (mkHandshakeMessagePayload (hmp_typ x)
        (HP_ServerKeyExchange (SKE_Unknown (mkPayload (ServerKeyExchangePayload_encode ske [])))))
  | HP_CertificateRequest cr =>
      match crp_sigschemes cr with [] => Err NoSignatureSchemes | _ => Ok x end
  | HP_MessageHash _ => Err (UnexpectedMessage "MessageHash")
  | _ => Ok x
  end.

Lemma ClientHelloPayload_fails x :
  ClientHelloPayload_fits x → ch_extensions x = [] →
  fails ClientHelloPayload_read (MissingData "ClientHelloPayload") (ClientHelloPayload_encode x []).
Proof.
  destruct x as [v r s cs cm ext]. intros (?&?&?&?&?&_) Hext. cbn in Hext. subst ext.
  unfold ClientHelloPayload_encode, ClientHelloPayload_read; cbv zeta.
  cbn [ch_client_version ch_random ch_session_id ch_cipher_suites ch_compression_methods ch_extensions] in *.
  rewrite bool_decide_true by done. cbn [negb]. enc_norm. rewrite <- (app_nil_r (get_encoding cm)).
  do 5 (eapply fails_bind; [by apply read_delimited|]; cbv beta).
  apply fails_any_left. rewrite bool_decide_false by (by intros []).
  eapply (fails_bind _ _ [] _ [] []); [apply reads_ret|]. apply fails_any_left.
  rewrite bool_decide_false by (by intros []). apply fails_err.
Qed.

Lemma CertificateRequestPayload_fails x :
  codec_wf (crp_certtypes x) → codec_wf (crp_sigschemes x) → codec_wf (crp_canames x) → crp_sigschemes x = [] →
  fails CertificateRequestPayload_read NoSignatureSchemes (CertificateRequestPayload_encode x []).
Proof.
  destruct x as [ct ss ca]. intros ? ? ? Hss. cbn in Hss. subst ss.
  unfold CertificateRequestPayload_encode, CertificateRequestPayload_read; cbv zeta.
  cbn [crp_certtypes crp_sigschemes crp_canames] in *. enc_norm. rewrite <- (app_nil_r (get_encoding ca)).
  do 3 (eapply fails_bind; [by apply read_delimited|]; cbv beta). apply fails_err.
Qed.

(** A message whose payload the decoder refuses. *)
Lemma read_version_fails vers typ p e tl :
  codec_wf (wire_type typ) → (Z.of_nat (length (HandshakePayload_encode p [])) < 16777216)%Z →
  fails (read_payload (wire_type typ) vers) e (HandshakePayload_encode p []) →
  let bs := HandshakeMessagePayload_encode (mkHandshakeMessagePayload typ p) [] in
  HandshakeMessagePayload_read_version vers (Reader_init (bs ++ tl)) = (Err e, mkReader (bs ++ tl) (length bs)).
Proof.
  intros Hwf Hlen Hfails bs. subst bs. rewrite HandshakeMessagePayload_encode_eq, app_nil_l. cbn [hmp_typ hmp_payload].
  set (sub := HandshakePayload_encode p []) in *. set (t := get_encoding (wire_type typ)).
  set (l := to_be 3 (Z.of_nat (length sub))). unfold HandshakeMessagePayload_read_version, Reader_init, rd_bind at 1.
  assert (Ht : reads read (wire_type typ) t) by (by apply read_delimited).
  rewrite (Ht _ 0 (l ++ sub ++ tl)) by (lia || by rewrite drop_0, <- !app_assoc). unfold rd_bind at 1.
  assert (Hl : reads u24_read (Z.of_nat (length sub)) l) by (apply int_reader_to_be; [auto with reads|pow256; lia]).
  rewrite (Hl _ _ (sub ++ tl)); [|rewrite !length_app; lia|by rewrite Nat.add_0_l, <- !app_assoc, drop_app_length].
  rewrite (sub_fails _ _ e sub _ _ tl); [|lia|by apply fails_first|rewrite !length_app; lia|].
  2:{ rewrite <- !app_assoc, app_assoc, drop_app_length' by (rewrite length_app; lia). reflexivity. }
  by rewrite !length_app, Nat2Z.id, Nat.add_assoc.
Qed.

Lemma message_read_back vers x tl :
  HandshakeMessagePayload_fits vers x →
  HandshakeMessagePayload_read_version vers (Reader_init (HandshakeMessagePayload_encode x [] ++ tl)) =
    (message_read x, mkReader (HandshakeMessagePayload_encode x [] ++ tl) (length (HandshakeMessagePayload_encode x []))).
Proof.
  intros [Hp Hlen]. destruct x as [typ p]. cbn [hmp_typ hmp_payload] in *.
  assert (Hok : ∀ q, payload_wf vers typ q → HandshakePayload_encode q [] = HandshakePayload_encode p [] →
    let bs := HandshakeMessagePayload_encode (mkHandshakeMessagePayload typ p) [] in
    HandshakeMessagePayload_read_version vers (Reader_init (bs ++ tl)) =
      (Ok (mkHandshakeMessagePayload typ q), mkReader (bs ++ tl) (length bs))).
  { intros q Hq Eq bs. replace bs with (HandshakeMessagePayload_encode (mkHandshakeMessagePayload typ q) []).
    - apply (HandshakeMessagePayload_reads vers (mkHandshakeMessagePayload typ q)) with (tl := tl); [|lia|done].
      split; [done|]. cbn [hmp_payload]. by rewrite Eq.
    - unfold bs. by rewrite !HandshakeMessagePayload_encode_eq; cbn [hmp_typ hmp_payload]; rewrite Eq. }
  unfold message_read. cbn [hmp_payload hmp_typ]. destruct p; cbn [payload_fits] in Hp; try by apply (Hok _ Hp).
  - destruct Hp as [-> Hx]. destruct (ch_extensions x) as [|e l] eqn:E.
    + apply read_version_fails; [enum_wf_tac|done|]. by apply fails_first, ClientHelloPayload_fails.
    + apply Hok; [|done]. split; [done|]. destruct Hx as (?&?&?&?&?&?). change (ClientHelloPayload_wf x). split_and!; try done. by rewrite E.
  - subst typ. by apply Hok.
  - destruct Hp as (-> & Hv & H1 & H2 & H3). destruct (crp_sigschemes x) as [|e l] eqn:E.
    + apply read_version_fails; [enum_wf_tac|done|]. cbn [wire_type read_payload]. rewrite bool_decide_false by done.
      apply fails_first, CertificateRequestPayload_fails; try done. by rewrite E.
    + apply Hok; [|done]. split_and!; [done|done|]. change (CertificateRequestPayload_wf x). split_and!; try done; by rewrite E.
  - subst typ. apply read_version_fails; [enum_wf_tac|done|apply fails_err].
Qed.
End handshake.
