(* ===== verification/TlsQueries.v ===== *)
(** What the handshake code asks of a decoded message, and how it prepares one
    to be sent (rustls-0.21.2/rustls/src/msgs/handshake.rs): duplicate and
    unknown extensions, the lookup of an extension and the accessors built on
    it, the constructors of single extensions, and the PSK binder machinery
    ([get_encoding_for_binder_signing], [set_psk_binder]). *)
From Stdlib Require Import ZArith Lia Strings.Byte String.
From stdpp Require Import base list numbers option.
From S2P Require Import Prelude.
From S2P Require Import Codec.
From S2P Require Import TlsEnums.
From S2P Require Import TlsBase.
From S2P Require Import TlsExtensions.
From S2P Require Import TlsHandshake.
Open Scope rust_scope.

(** * Extension lists

    Every message type repeats the same two loops over its own extension enum;
    [HasType] is what they use of it. *)
Class HasType (E : Type) : Type := get_type : E → ExtensionType.

#[export] Instance ServerExtension_type : HasType ServerExtension := ServerExtension_get_type.
#[export] Instance HelloRetryExtension_type : HasType HelloRetryExtension :=
  HelloRetryExtension_get_type.
#[export] Instance CertificateExtension_type : HasType CertificateExtension :=
  CertificateExtension_get_type.
#[export] Instance CertReqExtension_type : HasType CertReqExtension := CertReqExtension_get_type.
#[export] Instance NewSessionTicketExtension_type : HasType NewSessionTicketExtension :=
  NewSessionTicketExtension_get_type.

Definition is_type {E} `{HasType E} (ext : ExtensionType) (x : E) : bool :=
  bool_decide (get_type x = ext).

(** [.iter().find(|x| x.get_type() == ext)] *)
Definition find_ext {E} `{HasType E} (exts : list E) (ext : ExtensionType) : option E :=
  List.find (is_type ext) exts.

(** The loop of [has_duplicate_extension]: the keys are the wire values. *)
Definition dup_ext {E} `{HasType E} (exts : list E) : bool :=
  first_repeat [] ((λ x, get_val (get_type x)) <$> exts).

(** ** ServerHello and EncryptedExtensions: [trait HasServerExtensions] *)

Definition server_has_duplicate_extension (exts : list ServerExtension) : bool := dup_ext exts.
Definition server_find_extension (exts : list ServerExtension) (ext : ExtensionType)
    : option ServerExtension := find_ext exts ext.

(** [ConvertProtocolNameList] *)
Definition from_slices (names : list (list byte)) : list ProtocolName :=
  fold_left (λ ret name, ret ++ [mkWrapped (mkPayloadU8 name)]) names [].
Definition to_slices (names : list ProtocolName) : list (list byte) :=
  (λ proto, PayloadU8_0 (Wrapped_0 proto)) <$> names.
Definition as_single_slice (names : list ProtocolName) : option (list byte) :=
  if bool_decide (length names = 1) then
    (λ proto, PayloadU8_0 (Wrapped_0 proto)) <$> names !! 0
  else None.

Definition server_get_alpn_protocol (exts : list ServerExtension) : option (list byte) :=
  ext ← find_ext exts ExtensionType.ALProtocolNegotiation;
  match ext with
  | SE_Protocols protos => as_single_slice protos
  | _ => None
  end.

Definition server_get_quic_params_extension (exts : list ServerExtension) : option (list byte) :=
  ext ← match find_ext exts ExtensionType.TransportParameters with
    | Some e => Some e
    | None => find_ext exts ExtensionType.TransportParametersDraft
    end;
  match ext with
  | SE_TransportParameters bytes | SE_TransportParametersDraft bytes => Some bytes
  | _ => None
  end.

Definition server_early_data_extension_offered (exts : list ServerExtension) : bool :=
  bool_decide (is_Some (find_ext exts ExtensionType.EarlyData)).

Definition sh_get_key_share (x : ServerHelloPayload) : option KeyShareEntry :=
  ext ← find_ext (sh_extensions x) ExtensionType.KeyShare;
  match ext with SE_KeyShare share => Some share | _ => None end.
Definition sh_get_psk_index (x : ServerHelloPayload) : option Z :=
  ext ← find_ext (sh_extensions x) ExtensionType.PreSharedKey;
  match ext with SE_PresharedKey index => Some index | _ => None end.
Definition sh_get_ecpoints_extension (x : ServerHelloPayload) : option (list ECPointFormat) :=
  ext ← find_ext (sh_extensions x) ExtensionType.ECPointFormats;
  match ext with SE_ECPointFormats fmts => Some fmts | _ => None end.
Definition sh_ems_support_acked (x : ServerHelloPayload) : bool :=
  bool_decide (is_Some (find_ext (sh_extensions x) ExtensionType.ExtendedMasterSecret)).
Definition sh_get_sct_list (x : ServerHelloPayload) : option (list Sct) :=
  ext ← find_ext (sh_extensions x) ExtensionType.SCT;
  match ext with SE_SignedCertificateTimestamp sctl => Some sctl | _ => None end.
Definition sh_get_supported_versions (x : ServerHelloPayload) : option ProtocolVersion :=
  ext ← find_ext (sh_extensions x) ExtensionType.SupportedVersions;
  match ext with SE_SupportedVersions vers => Some vers | _ => None end.

(** [impl ServerExtension]: constructors *)
Definition make_alpn (proto : list (list byte)) : ServerExtension :=
  SE_Protocols (from_slices proto).
Definition make_empty_renegotiation_info : ServerExtension :=
  SE_RenegotiationInfo (mkPayloadU8 []).
(** [.expect(..)]: a list that does not decode is a panic. *)
Definition make_sct (sctl : list byte) : res unit ServerExtension :=
  match read_bytes (A := list Sct) sctl with
  | Ok scts => Ok (SE_SignedCertificateTimestamp scts)
  | NoFuel => NoFuel
  | _ => Panic
  end.

(** ** HelloRetryRequest *)

Definition hrr_has_duplicate_extension (x : HelloRetryRequest) : bool :=
  dup_ext (hrr_extensions x).
Definition hrr_has_unknown_extension (x : HelloRetryRequest) : bool :=
  existsb (λ ext, negb (is_type ExtensionType.KeyShare ext) &&
    negb (is_type ExtensionType.SupportedVersions ext) &&
    negb (is_type ExtensionType.Cookie ext)) (hrr_extensions x).
Definition hrr_get_requested_key_share_group (x : HelloRetryRequest) : option NamedGroup :=
  ext ← find_ext (hrr_extensions x) ExtensionType.KeyShare;
  match ext with HRE_KeyShare grp => Some grp | _ => None end.
Definition hrr_get_cookie (x : HelloRetryRequest) : option PayloadU16 :=
  ext ← find_ext (hrr_extensions x) ExtensionType.Cookie;
  match ext with HRE_Cookie ck => Some ck | _ => None end.
Definition hrr_get_supported_versions (x : HelloRetryRequest) : option ProtocolVersion :=
  ext ← find_ext (hrr_extensions x) ExtensionType.SupportedVersions;
  match ext with HRE_SupportedVersions ver => Some ver | _ => None end.

(** ** Certificates *)

Definition ce13_get_cert_status (x : CertificateExtension) : option (list byte) :=
  match x with
  | CE13_CertificateStatus cs => Some (PayloadU24_0 (cs_ocsp_response cs))
  | _ => None
  end.
Definition ce13_get_sct_list (x : CertificateExtension) : option (list Sct) :=
  match x with CE13_SignedCertificateTimestamp sctl => Some sctl | _ => None end.
Definition ce13_make_sct (sct_list : list byte) : res unit CertificateExtension :=
  match read_bytes (A := list Sct) sct_list with
  | Ok sctl => Ok (CE13_SignedCertificateTimestamp sctl)
  | NoFuel => NoFuel
  | _ => Panic
  end.

Definition CertificateEntry_new (cert : Certificate) : CertificateEntry :=
  mkCertificateEntry cert [].
Definition ce_has_duplicate_extension (x : CertificateEntry) : bool := dup_ext (ce_exts x).
Definition ce_has_unknown_extension (x : CertificateEntry) : bool :=
  existsb (λ ext, negb (is_type ExtensionType.StatusRequest ext) &&
    negb (is_type ExtensionType.SCT ext)) (ce_exts x).
Definition ce_get_ocsp_response (x : CertificateEntry) : option (list byte) :=
  find_ext (ce_exts x) ExtensionType.StatusRequest ≫= ce13_get_cert_status.
Definition ce_get_scts (x : CertificateEntry) : option (list Sct) :=
  find_ext (ce_exts x) ExtensionType.SCT ≫= ce13_get_sct_list.

Definition CertificatePayloadTLS13_new (entries : list CertificateEntry)
    : CertificatePayloadTLS13 := mkCertificatePayloadTLS13 (mkPayloadU8 []) entries.
(** [for entry in &self.entries { if c { return true; } } false] *)
Definition any_entry_has_duplicate_extension (x : CertificatePayloadTLS13) : bool :=
  existsb ce_has_duplicate_extension (cp_entries x).
Definition any_entry_has_unknown_extension (x : CertificatePayloadTLS13) : bool :=
  existsb ce_has_unknown_extension (cp_entries x).
Definition any_entry_has_extension (x : CertificatePayloadTLS13) : bool :=
  existsb (λ entry, negb (bool_decide (ce_exts entry = []))) (cp_entries x).
Definition get_end_entity_ocsp (x : CertificatePayloadTLS13) : list byte :=
  default [] (head (cp_entries x) ≫= ce_get_ocsp_response).
Definition get_end_entity_scts (x : CertificatePayloadTLS13) : option (list Sct) :=
  head (cp_entries x) ≫= ce_get_scts.
Definition convert (x : CertificatePayloadTLS13) : CertificatePayload :=
  fold_left (λ ret entry, ret ++ [ce_cert entry]) (cp_entries x) [].

(** ** Certificate requests and session tickets *)

Definition cr_get_sigalgs_extension (x : CertificateRequestPayloadTLS13)
    : option (list SignatureScheme) :=
  ext ← find_ext (crp13_extensions x) ExtensionType.SignatureAlgorithms;
  match ext with CRE_SignatureAlgorithms sa => Some sa | _ => None end.
Definition cr_get_authorities_extension (x : CertificateRequestPayloadTLS13)
    : option (list DistinguishedName) :=
  ext ← find_ext (crp13_extensions x) ExtensionType.CertificateAuthorities;
  match ext with CRE_AuthorityNames an => Some an | _ => None end.

Definition nst_has_duplicate_extension (x : NewSessionTicketPayloadTLS13) : bool :=
  dup_ext (nst13_exts x).
Definition nst_get_max_early_data_size (x : NewSessionTicketPayloadTLS13) : option Z :=
  ext ← find_ext (nst13_exts x) ExtensionType.EarlyData;
  match ext with NSTE_EarlyData sz => Some sz | _ => None end.
Definition NewSessionTicketPayload_new (lifetime_hint : Z) (ticket : list byte)
    : NewSessionTicketPayload := mkNewSessionTicketPayload lifetime_hint (mkPayloadU16 ticket).
Definition NewSessionTicketPayloadTLS13_new (lifetime age_add : Z) (nonce ticket : list byte)
    : NewSessionTicketPayloadTLS13 :=
  mkNewSessionTicketPayloadTLS13 lifetime age_add (mkPayloadU8 nonce) (mkPayloadU16 ticket) [].

(** [Random::write_slice]: [copy_from_slice] wants equal lengths. *)
Definition Random_write_slice (x : Random) (bytes : list byte) : res unit (list byte) :=
  let buf := get_encoding x in
  if bool_decide (length bytes = length buf) then Ok buf else Panic.

(** ** ClientHello *)

Section client.
Context `{WebPki}.

#[export] Instance ClientExtension_type : HasType ClientExtension := ClientExtension_get_type.

Definition ch_has_duplicate_extension (x : ClientHelloPayload) : bool :=
  dup_ext (ch_extensions x).
Definition ch_find_extension (x : ClientHelloPayload) (ext : ExtensionType)
    : option ClientExtension := find_ext (ch_extensions x) ext.

Definition ch_get_sni_extension (x : ClientHelloPayload) : option (list ServerName) :=
  ext ← ch_find_extension x ExtensionType.ServerName;
  match ext with CE_ServerName req => Some req | _ => None end.
Definition ch_get_sigalgs_extension (x : ClientHelloPayload) : option (list SignatureScheme) :=
  ext ← ch_find_extension x ExtensionType.SignatureAlgorithms;
  match ext with CE_SignatureAlgorithms req => Some req | _ => None end.
Definition ch_get_namedgroups_extension (x : ClientHelloPayload) : option (list NamedGroup) :=
  ext ← ch_find_extension x ExtensionType.EllipticCurves;
  match ext with CE_NamedGroups req => Some req | _ => None end.
Definition ch_get_ecpoints_extension (x : ClientHelloPayload) : option (list ECPointFormat) :=
  ext ← ch_find_extension x ExtensionType.ECPointFormats;
  match ext with CE_ECPointFormats req => Some req | _ => None end.
Definition ch_get_alpn_extension (x : ClientHelloPayload) : option (list ProtocolName) :=
  ext ← ch_find_extension x ExtensionType.ALProtocolNegotiation;
  match ext with CE_Protocols req => Some req | _ => None end.
Definition ch_get_quic_params_extension (x : ClientHelloPayload) : option (list byte) :=
  ext ← match ch_find_extension x ExtensionType.TransportParameters with
    | Some e => Some e
    | None => ch_find_extension x ExtensionType.TransportParametersDraft
    end;
  match ext with
  | CE_TransportParameters bytes | CE_TransportParametersDraft bytes => Some bytes
  | _ => None
  end.
Definition ch_get_ticket_extension (x : ClientHelloPayload) : option ClientExtension :=
  ch_find_extension x ExtensionType.SessionTicket.
Definition ch_get_versions_extension (x : ClientHelloPayload) : option (list ProtocolVersion) :=
  ext ← ch_find_extension x ExtensionType.SupportedVersions;
  match ext with CE_SupportedVersions vers => Some vers | _ => None end.
Definition ch_get_keyshare_extension (x : ClientHelloPayload) : option (list KeyShareEntry) :=
  ext ← ch_find_extension x ExtensionType.KeyShare;
  match ext with CE_KeyShare shares => Some shares | _ => None end.
Definition ch_has_keyshare_extension_with_duplicates (x : ClientHelloPayload) : bool :=
  match ch_get_keyshare_extension x with
  | Some entries => first_repeat [] ((λ kse, get_val (kse_group kse)) <$> entries)
  | None => false
  end.
Definition ch_get_psk (x : ClientHelloPayload) : option PresharedKeyOffer :=
  ext ← ch_find_extension x ExtensionType.PreSharedKey;
  match ext with CE_PresharedKey psk => Some psk | _ => None end.
Definition ch_check_psk_ext_is_last (x : ClientHelloPayload) : bool :=
  match list.last (ch_extensions x) with
  | Some ext => is_type ExtensionType.PreSharedKey ext
  | None => false
  end.
Definition ch_get_psk_modes (x : ClientHelloPayload) : option (list PSKKeyExchangeMode) :=
  ext ← ch_find_extension x ExtensionType.PSKKeyExchangeModes;
  match ext with CE_PresharedKeyModes psk_modes => Some psk_modes | _ => None end.
Definition ch_psk_mode_offered (x : ClientHelloPayload) (mode : PSKKeyExchangeMode) : bool :=
  match ch_get_psk_modes x with
  | Some modes => existsb (λ m, bool_decide (m = mode)) modes
  | None => false
  end.
Definition ch_ems_support_offered (x : ClientHelloPayload) : bool :=
  bool_decide (is_Some (ch_find_extension x ExtensionType.ExtendedMasterSecret)).
Definition ch_early_data_extension_offered (x : ClientHelloPayload) : bool :=
  bool_decide (is_Some (ch_find_extension x ExtensionType.EarlyData)).

Definition with_extensions (x : ClientHelloPayload) (exts : list ClientExtension)
    : ClientHelloPayload :=
  mkClientHelloPayload (ch_client_version x) (ch_random x) (ch_session_id x)
    (ch_cipher_suites x) (ch_compression_methods x) exts.

(** [set_psk_binder]: [offer.binders[0] = ..], which panics when there is no
    binder to replace. *)
Definition ch_set_psk_binder (x : ClientHelloPayload) (binder : list byte)
    : res unit ClientHelloPayload :=
  match list.last (ch_extensions x) with
  | Some (CE_PresharedKey offer) =>
      match pko_binders offer with
      | [] => Panic
      | _ :: binders =>
          let offer' := mkPresharedKeyOffer (pko_identities offer)
            (mkWrapped (mkPayloadU8 binder) :: binders) in
          let exts := ch_extensions x in
          Ok (with_extensions x (<[length exts - 1 := CE_PresharedKey offer']> exts))
      end
  | _ => Ok x
  end.

(** [get_encoding_for_binder_signing]: the encoding without the binders, which
    are its last bytes.  [ret.len() - binder_len] is an unsigned subtraction. *)
Definition get_encoding_for_binder_signing (x : HandshakeMessagePayload)
    : res unit (list byte) :=
  let ret := get_encoding x in
  let binder_len := match hmp_payload x with
    | HP_ClientHello ch =>
        match list.last (ch_extensions ch) with
        | Some (CE_PresharedKey offer) => length (encode (pko_binders offer) [])
        | _ => 0
        end
    | _ => 0
    end in
  if bool_decide (length ret < binder_len) then Panic
  else Ok (take (length ret - binder_len) ret).

(** [trim_hostname_trailing_dot_for_sni] and [make_sni] *)
Definition trim_hostname_trailing_dot_for_sni (dns_name : DnsName) : res unit DnsName :=
  let dns_name_str := dns_str dns_name in
  if bool_decide (list.last dns_name_str = Some x2e) then
    let trimmed := take (length dns_name_str - 1) dns_name_str in
    match dns_try_from_ascii trimmed with
    | Some n => Ok n
    | None => Panic
    end
  else Ok dns_name.

Definition make_sni (dns_name : DnsName) : res unit ClientExtension :=
  let? name := trim_hostname_trailing_dot_for_sni dns_name in
  Ok (CE_ServerName [mkServerName ServerNameType.HostName (ServerNamePayload_new_hostname name)]).

Definition build_ocsp : CertificateStatusRequest :=
  CSR_OCSP (mkOCSPCertificateStatusRequest [] (mkPayloadU16 [])).

(** * Laws *)

Lemma find_ext_Some {E} `{HasType E} (exts : list E) t x :
  find_ext exts t = Some x → x ∈ exts ∧ get_type x = t.
Proof.
  intros Hf. apply find_some in Hf as [Hin Ht]. unfold is_type in Ht.
  apply bool_decide_eq_true in Ht. split; [by apply list_elem_of_In|done].
Qed.

Lemma find_ext_None {E} `{HasType E} (exts : list E) t :
  find_ext exts t = None ↔ ∀ x, x ∈ exts → get_type x ≠ t.
Proof.
  unfold find_ext, is_type. split.
  - intros Hf x Hx Ht. pose proof (find_none _ _ Hf x (proj1 (list_elem_of_In _ _) Hx)) as Hx0.
    by apply bool_decide_eq_false in Hx0.
  - intros Hall. destruct (List.find _ exts) as [x|] eqn:E'; [|done].
    apply find_ext_Some in E' as [Hx Ht]. by destruct (Hall x Hx).
Qed.

Lemma dup_ext_spec {E} `{HasType E} (exts : list E) :
  dup_ext exts = false ↔ NoDup ((λ x, get_val (get_type x)) <$> exts).
Proof. unfold dup_ext. by rewrite (first_repeat_spec []) by constructor. Qed.

(** Types with the same wire value are one type, for the types a decoder
    makes. *)
Lemma dup_ext_types {E} `{HasType E} (exts : list E) :
  Forall (λ x, enum_wf (get_type x)) exts →
  dup_ext exts = true ↔ ¬ NoDup (get_type <$> exts).
Proof.
  intros Hwf. destruct (dup_ext exts) eqn:Ed.
  - split; [intros _ Hnd|done].
    assert (dup_ext exts = false) as E'; [|congruence].
    apply dup_ext_spec. clear Ed.
    induction exts as [|x exts IH]; [constructor|].
    apply list.Forall_cons in Hwf as [Hx Hwf]. cbn in *.
    apply list.NoDup_cons in Hnd as [Hni Hnd]. apply list.NoDup_cons. split; [|by apply IH].
    intros Hin. apply Hni. apply list_elem_of_fmap in Hin as (y & Hy & Hiny).
    apply list_elem_of_fmap. exists y. split; [|done].
    rewrite list.Forall_forall in Hwf. destruct Hx as [_ <-], (Hwf y Hiny) as [_ <-]. by f_equal.
  - split; [done|]. intros Hn. exfalso. apply Hn.
    apply dup_ext_spec in Ed. clear -Ed.
    apply (NoDup_fmap_1 get_val). by rewrite <- list_fmap_compose.
Qed.

(** Without duplicates an extension is found wherever it stands. *)
Lemma find_ext_unique {E} `{HasType E} (exts : list E) x y :
  dup_ext exts = false → x ∈ exts → y ∈ exts → get_type x = get_type y → x = y.
Proof.
  intros Hd%dup_ext_spec (i & Hi)%list_elem_of_lookup (j & Hj)%list_elem_of_lookup Ht.
  assert (i = j) as <-; [|congruence].
  eapply NoDup_lookup; [exact Hd| |]; rewrite list_lookup_fmap, ?Hi, ?Hj; simpl; [done|].
  by rewrite Ht.
Qed.

Lemma find_ext_perm {E} `{HasType E} (exts exts' : list E) t :
  Permutation exts exts' → dup_ext exts = false → find_ext exts t = find_ext exts' t.
Proof.
  intros Hp Hd. destruct (find_ext exts t) as [x|] eqn:Ex.
  - apply find_ext_Some in Ex as [Hx Ht].
    destruct (find_ext exts' t) as [y|] eqn:Ey.
    + apply find_ext_Some in Ey as [Hy Ht']. f_equal.
      eapply find_ext_unique; [done|done| |congruence]. by rewrite Hp.
    + rewrite find_ext_None in Ey. destruct (Ey x); [by rewrite <- Hp|done].
  - symmetry. rewrite find_ext_None in *. intros x Hx. apply Ex. by rewrite Hp.
Qed.

(** ** PSK binders *)

(** The encoding of a ClientHello that ends in a PSK offer is a part that
    depends only on how long the binders are, and the binders. *)
Lemma psk_encoding_split typ ch exts ids :
  ∃ f : nat → list byte, ∀ bs : list PresharedKeyBinder,
    get_encoding (mkHandshakeMessagePayload typ (HP_ClientHello
      (with_extensions ch (exts ++ [CE_PresharedKey (mkPresharedKeyOffer ids bs)]))))
    = f (length (get_encoding bs)) ++ get_encoding bs.
Proof.
  set (head := get_encoding (ch_client_version ch) ++ get_encoding (ch_random ch) ++
    get_encoding (ch_session_id ch) ++ get_encoding (ch_cipher_suites ch) ++
    get_encoding (ch_compression_methods ch)).
  set (ext n := get_encoding ExtensionType.PreSharedKey ++
    to_be 2 (Z.of_nat (length (get_encoding ids) + n)) ++ get_encoding ids).
  set (body n := to_be 2 (Z.of_nat (length (Vec_body exts) + (length (ext n) + n)))
    ++ Vec_body exts ++ ext n).
  exists (λ n, get_encoding (wire_type typ) ++
    to_be 3 (Z.of_nat (length head + (length (body n) + n))) ++ head ++ body n).
  intros bs.
  assert (Hx : get_encoding (CE_PresharedKey (mkPresharedKeyOffer ids bs))
    = ext (length (get_encoding bs)) ++ get_encoding bs).
  { change (get_encoding ?x) with (ClientExtension_encode x []) at 1.
    unfold ClientExtension_encode. rewrite extension_encode_eq, app_nil_l.
    cbn [ClientExtension_get_type ClientExtension_sub].
    change (encode (mkPresharedKeyOffer ids bs) [])
      with (PresharedKeyOffer_encode (mkPresharedKeyOffer ids bs) []).
    unfold PresharedKeyOffer_encode. cbn [pko_identities pko_binders]. enc_norm.
    unfold ext. by rewrite length_app, <- !app_assoc. }
  assert (Hp : HandshakePayload_encode (HP_ClientHello (with_extensions ch
      (exts ++ [CE_PresharedKey (mkPresharedKeyOffer ids bs)]))) []
    = head ++ body (length (get_encoding bs)) ++ get_encoding bs).
  { unfold HandshakePayload_encode.
    change (encode ?x []) with (ClientHelloPayload_encode x []).
    unfold ClientHelloPayload_encode. cbn [ch_client_version ch_random ch_session_id
      ch_cipher_suites ch_compression_methods ch_extensions with_extensions].
    rewrite bool_decide_false by (by destruct exts). cbn [negb]. cbv zeta. enc_norm.
    rewrite (Vec_get_encoding (exts ++ _)). unfold Vec_body.
    rewrite fmap_app, list_fmap_singleton, join_app. cbn [mjoin list_join].
    rewrite app_nil_r, Hx. unfold head, body, Vec_body. rewrite <- !app_assoc, !length_app.
    done. }
  change (get_encoding ?x) with (HandshakeMessagePayload_encode x []) at 1.
  rewrite HandshakeMessagePayload_encode_eq, app_nil_l. cbn [hmp_typ hmp_payload].
  rewrite Hp, !length_app. by rewrite <- !app_assoc.
Qed.

Lemma get_encoding_for_binder_signing_eq typ ch exts ids bs pre :
  get_encoding (mkHandshakeMessagePayload typ (HP_ClientHello
      (with_extensions ch (exts ++ [CE_PresharedKey (mkPresharedKeyOffer ids bs)]))))
    = pre ++ get_encoding bs →
  get_encoding_for_binder_signing (mkHandshakeMessagePayload typ (HP_ClientHello
      (with_extensions ch (exts ++ [CE_PresharedKey (mkPresharedKeyOffer ids bs)])))) = Ok pre.
Proof.
  intros E. unfold get_encoding_for_binder_signing. rewrite E.
  cbn [hmp_payload ch_extensions with_extensions]. rewrite last_snoc. cbn [pko_binders].
  change (encode bs []) with (get_encoding bs). cbv zeta. rewrite length_app.
  rewrite bool_decide_false by lia. f_equal. apply take_app_length'. lia.
Qed.

Lemma binder_encoding_length (b b' : PresharedKeyBinder) bs :
  length (PayloadU8_0 (Wrapped_0 b)) = length (PayloadU8_0 (Wrapped_0 b')) →
  length (get_encoding (b :: bs)) = length (get_encoding (b' :: bs)).
Proof.
  intros Hl. rewrite !Vec_get_encoding, !length_app, !length_to_be, !Vec_body_cons, !length_app.
  assert (length (get_encoding b) = length (get_encoding b')); [|lia].
  destruct b as [[b]], b' as [[b']]. cbn in *. by rewrite Hl.
Qed.
End client.
