(* ===== verification/TlsError.v ===== *)
(** The error types of rustls (rustls-0.21.2/rustls/src/error.rs).

    Two payloads come from outside: the errors of the [sct] crate and the boxed
    errors of custom certificate verifiers.  [ForeignErrors] names their types. *)
From Stdlib Require Import ZArith Strings.Byte String.
From stdpp Require Import base list.
From S2P Require Import Prelude.
From S2P Require Import Codec.
From S2P Require Import TlsEnums.

Class ForeignErrors : Type := { SctError : Type; DynError : Type }.

Inductive PeerMisbehaved : Type :=
  | PM_AttemptedDowngradeToTls12WhenTls13IsSupported | PM_BadCertChainExtensions
  | PM_DisallowedEncryptedExtension | PM_DuplicateClientHelloExtensions
  | PM_DuplicateEncryptedExtensions | PM_DuplicateHelloRetryRequestExtensions
  | PM_DuplicateNewSessionTicketExtensions | PM_DuplicateServerHelloExtensions
  | PM_DuplicateServerNameTypes | PM_EarlyDataAttemptedInSecondClientHello
  | PM_EarlyDataExtensionWithoutResumption | PM_EarlyDataOfferedWithVariedCipherSuite
  | PM_HandshakeHashVariedAfterRetry | PM_IllegalHelloRetryRequestWithEmptyCookie
  | PM_IllegalHelloRetryRequestWithNoChanges | PM_IllegalHelloRetryRequestWithOfferedGroup
  | PM_IllegalHelloRetryRequestWithUnofferedCipherSuite
  | PM_IllegalHelloRetryRequestWithUnofferedNamedGroup
  | PM_IllegalHelloRetryRequestWithUnsupportedVersion | PM_IllegalMiddleboxChangeCipherSpec
  | PM_IllegalTlsInnerPlaintext | PM_IncorrectBinder | PM_InvalidMaxEarlyDataSize
  | PM_InvalidKeyShare | PM_InvalidSctList | PM_KeyEpochWithPendingFragment
  | PM_KeyUpdateReceivedInQuicConnection | PM_MessageInterleavedWithHandshakeMessage
  | PM_MissingBinderInPskExtension | PM_MissingKeyShare | PM_MissingPskModesExtension
  | PM_MissingQuicTransportParameters | PM_OfferedDuplicateKeyShares
  | PM_OfferedEarlyDataWithOldProtocolVersion | PM_OfferedEmptyApplicationProtocol
  | PM_OfferedIncorrectCompressions | PM_PskExtensionMustBeLast
  | PM_PskExtensionWithMismatchedIdsAndBinders | PM_RefusedToFollowHelloRetryRequest
  | PM_RejectedEarlyDataInterleavedWithHandshakeMessage | PM_ResumptionAttemptedWithVariedEms
  | PM_ResumptionOfferedWithVariedCipherSuite | PM_ResumptionOfferedWithVariedEms
  | PM_ResumptionOfferedWithIncompatibleCipherSuite
  | PM_SelectedDifferentCipherSuiteAfterRetry | PM_SelectedInvalidPsk
  | PM_SelectedTls12UsingTls13VersionExtension | PM_SelectedUnofferedApplicationProtocol
  | PM_SelectedUnofferedCipherSuite | PM_SelectedUnofferedCompression
  | PM_SelectedUnofferedKxGroup | PM_SelectedUnofferedPsk
  | PM_SelectedUnusableCipherSuiteForVersion | PM_ServerHelloMustOfferUncompressedEcPoints
  | PM_ServerNameDifferedOnRetry | PM_ServerNameMustContainOneHostName
  | PM_SignedKxWithWrongAlgorithm | PM_SignedHandshakeWithUnadvertisedSigScheme
  | PM_TooMuchEarlyDataReceived | PM_UnexpectedCleartextExtension
  | PM_UnsolicitedCertExtension | PM_UnsolicitedEncryptedExtension | PM_UnsolicitedSctList
  | PM_UnsolicitedServerHelloExtension | PM_WrongGroupForKeyShare.

Inductive PeerIncompatible : Type :=
  | PI_EcPointsExtensionRequired | PI_KeyShareExtensionRequired
  | PI_NamedGroupsExtensionRequired | PI_NoCertificateRequestSignatureSchemesInCommon
  | PI_NoCipherSuitesInCommon | PI_NoEcPointFormatsInCommon | PI_NoKxGroupsInCommon
  | PI_NoSignatureSchemesInCommon | PI_NullCompressionRequired
  | PI_ServerDoesNotSupportTls12Or13 | PI_ServerSentHelloRetryRequestWithUnknownExtension
  | PI_ServerTlsVersionIsDisabledByOurConfig | PI_SignatureAlgorithmsExtensionRequired
  | PI_SupportedVersionsExtensionRequired | PI_Tls12NotOffered | PI_Tls12NotOfferedOrEnabled
  | PI_Tls13RequiredForQuic | PI_UncompressedEcPointsRequired.

Section errors.
Context `{ForeignErrors}.

Inductive CertificateError : Type :=
  | CErr_BadEncoding | CErr_Expired | CErr_NotValidYet | CErr_Revoked
  | CErr_UnhandledCriticalExtension | CErr_UnknownIssuer | CErr_BadSignature
  | CErr_NotValidForName | CErr_InvalidPurpose | CErr_ApplicationVerificationFailure
  | CErr_Other (e : DynError).

Inductive Error : Type :=
  | InappropriateMessage (expect_types : list ContentType) (got_type : ContentType)
  | InappropriateHandshakeMessage (expect_types : list HandshakeType) (got_type : HandshakeType)
  | E_InvalidMessage (e : InvalidMessage)
  | NoCertificatesPresented
  | UnsupportedNameType
  | DecryptError
  | EncryptError
  | E_PeerIncompatible (e : PeerIncompatible)
  | E_PeerMisbehaved (e : PeerMisbehaved)
  | AlertReceived (desc : AlertDescription)
  | InvalidCertificate (e : CertificateError)
  | InvalidSct (e : SctError)
  | General (msg : string)
  | FailedToGetCurrentTime
  | FailedToGetRandomBytes
  | HandshakeNotComplete
  | PeerSentOversizedRecord
  | NoApplicationProtocol
  | BadMaxFragmentSize.
End errors.
