(* ===== verification/TlsMessage.v ===== *)
(** TLS records and messages (rustls-0.21.2/rustls/src/msgs/message.rs,
    alert.rs, ccs.rs): the framing of records, [OpaqueMessage::read] with its
    error classification, and the conversions between plain and parsed
    messages.

    [opaque_parse] is the specification of the record parser on a byte list;
    [OpaqueMessage_read_spec] is the refinement that the laws go through. *)
From Stdlib Require Import ZArith Lia Strings.Byte String.
From stdpp Require Import base list numbers option.
From S2P Require Import Prelude.
From S2P Require Import Codec.
From S2P Require Import TlsEnums.
From S2P Require Import TlsBase.
From S2P Require Import TlsExtensions.
From S2P Require Import TlsHandshake.
Open Scope rust_scope.

(** * Alerts and ChangeCipherSpec *)

Record AlertMessagePayload : Type := mkAlertMessagePayload {
  am_level : AlertLevel;
  am_description : AlertDescription
}.

Definition AlertMessagePayload_encode (x : AlertMessagePayload) (bytes : list byte)
    : list byte :=
  let bytes := encode (am_level x) bytes in
  encode (am_description x) bytes.
Definition AlertMessagePayload_read : Rd AlertMessagePayload :=
  let! level := read in
  let! description := read in
  let! _ := rd_expect_empty "AlertMessagePayload" in
  rd_ret (mkAlertMessagePayload level description).

#[export] Instance AlertMessagePayload_codec : Codec AlertMessagePayload :=
  {| encode := AlertMessagePayload_encode; read := AlertMessagePayload_read |}.
Definition AlertMessagePayload_wf (x : AlertMessagePayload) : Prop :=
  codec_wf (am_level x) ∧ codec_wf (am_description x).
#[export] Instance AlertMessagePayload_ok : CodecOk AlertMessagePayload.
Proof.
  codec_ok AlertMessagePayload_wf AlertMessagePayload_encode AlertMessagePayload_read.
Defined.
#[export] Instance AlertMessagePayload_trailing : Trailing AlertMessagePayload.
Proof.
  intros x [Hl Hd]. change (reads_all AlertMessagePayload_read x (AlertMessagePayload_encode x [])).
  unfold AlertMessagePayload_encode, AlertMessagePayload_read; cbv zeta; enc_norm.
  eapply reads_all_bind; [by apply read_delimited|]. cbv beta.
  rewrite <- (app_nil_r (get_encoding _)).
  eapply reads_all_bind; [by apply read_delimited|]. cbv beta.
  eapply reads_all_bind_end; [apply reads_all_expect_empty|].
  destruct x. apply reads_reads_all, reads_ret.
Qed.

Inductive ChangeCipherSpecPayload : Type := mkChangeCipherSpecPayload.

Definition ChangeCipherSpecPayload_encode (x : ChangeCipherSpecPayload) (bytes : list byte)
    : list byte := u8_encode 1 bytes.
Definition ChangeCipherSpecPayload_read : Rd ChangeCipherSpecPayload :=
  let! typ := u8_read in
  if bool_decide (typ ≠ 1)%Z then rd_err InvalidCcs
  else
    let! _ := rd_expect_empty "ChangeCipherSpecPayload" in
    rd_ret mkChangeCipherSpecPayload.

#[export] Instance ChangeCipherSpecPayload_codec : Codec ChangeCipherSpecPayload :=
  {| encode := ChangeCipherSpecPayload_encode; read := ChangeCipherSpecPayload_read |}.
#[export] Instance ChangeCipherSpecPayload_ok : CodecOk ChangeCipherSpecPayload.
Proof.
  codec_ok (λ _ : ChangeCipherSpecPayload, True) ChangeCipherSpecPayload_encode
    ChangeCipherSpecPayload_read.
Defined.
#[export] Instance ChangeCipherSpecPayload_trailing : Trailing ChangeCipherSpecPayload.
Proof.
  intros [] _. change (reads_all ChangeCipherSpecPayload_read mkChangeCipherSpecPayload
    (to_be 1 1 ++ [])).
  unfold ChangeCipherSpecPayload_read.
  eapply reads_all_bind; [eapply int_reader_to_be; [auto with reads|pow256; lia]|]. cbn.
  eapply reads_all_bind_end; [apply reads_all_expect_empty|]. apply reads_reads_all, reads_ret.
Qed.

(** * Records *)

Inductive MessageError : Type :=
  | TooShortForHeader
  | TooShortForLength
  | ME_InvalidEmptyPayload
  | ME_MessageTooLarge
  | ME_InvalidContentType
  | ME_UnknownProtocolVersion.

Record OpaqueMessage : Type := mkOpaqueMessage {
  om_typ : ContentType;
  om_version : ProtocolVersion;
  om_payload : Payload
}.

Record PlainMessage : Type := mkPlainMessage {
  pm_typ : ContentType;
  pm_version : ProtocolVersion;
  pm_payload : Payload
}.

(** Borrows its payload in the source. *)
Record BorrowedPlainMessage : Type := mkBorrowedPlainMessage {
  bm_typ : ContentType;
  bm_version : ProtocolVersion;
  bm_payload : list byte
}.

Definition MAX_PAYLOAD : Z := 16384 + 2048.
Definition HEADER_SIZE : Z := 1 + 2 + 2.
Definition MAX_WIRE_SIZE : nat := Z.to_nat (MAX_PAYLOAD + HEADER_SIZE).

(** [m.map_err(|_| e)?] on a reader. *)
Definition or_err {A B} (e : MessageError) (m : Rd A)
    (k : A → Reader → res MessageError B * Reader) : Reader → res MessageError B * Reader := λ r,
  match m r with
  | (Ok a, r') => k a r'
  | (Err _, r') => (Err e, r')
  | (Panic, r') => (Panic, r')
  | (NoFuel, r') => (NoFuel, r')
  end.

Definition OpaqueMessage_read : Reader → res MessageError OpaqueMessage * Reader :=
  or_err TooShortForHeader (read (A := ContentType)) (λ typ r,
  if is_unknown typ then (Err ME_InvalidContentType, r) else
  or_err TooShortForHeader (read (A := ProtocolVersion)) (λ version r,
  if (match version with
      | ProtocolVersion.Unknown v => bool_decide (Z.land v 0xff00 ≠ 0x0300)%Z
      | _ => false
      end) then (Err ME_UnknownProtocolVersion, r) else
  or_err TooShortForHeader u16_read (λ len r,
  if bool_decide (typ ≠ ContentType.ApplicationData) && bool_decide (len = 0)%Z
  then (Err ME_InvalidEmptyPayload, r) else
  if bool_decide (MAX_PAYLOAD ≤ len)%Z then (Err ME_MessageTooLarge, r) else
  or_err TooShortForLength (rd_sub (Z.to_nat len) Payload_read) (λ payload r,
  (Ok (mkOpaqueMessage typ version payload), r)) r) r) r).

Definition OpaqueMessage_encode (m : OpaqueMessage) : list byte :=
  let buf := encode (om_typ m) [] in
  let buf := encode (om_version m) buf in
  let buf := u16_encode (as_u16 (Z.of_nat (length (Payload_0 (om_payload m))))) buf in
  encode (om_payload m) buf.

Definition into_plain_message (m : OpaqueMessage) : PlainMessage :=
  mkPlainMessage (om_typ m) (om_version m) (om_payload m).
Definition into_unencrypted_opaque (m : PlainMessage) : OpaqueMessage :=
  mkOpaqueMessage (pm_typ m) (pm_version m) (pm_payload m).
Definition borrow (m : PlainMessage) : BorrowedPlainMessage :=
  mkBorrowedPlainMessage (pm_typ m) (pm_version m) (Payload_0 (pm_payload m)).
Definition to_unencrypted_opaque (m : BorrowedPlainMessage) : OpaqueMessage :=
  mkOpaqueMessage (bm_typ m) (bm_version m) (mkPayload (bm_payload m)).

(** ** The specification of the record parser *)

(** The version as the header has it is one that [read] lets through. *)
Definition version_ok (version : ProtocolVersion) : bool :=
  match version with
  | ProtocolVersion.Unknown v => bool_decide (Z.land v 0xff00 = 0x0300)%Z
  | _ => true
  end.

(** What [read] does with the bytes [bs] in front of it: the message and the
    bytes after it, or the error. *)
Definition opaque_parse (bs : list byte) : res MessageError (OpaqueMessage * list byte) :=
  match bs with
  | [] => Err TooShortForHeader
  | t :: bs =>
    let typ := enum_from (byte_val t) in
    if is_unknown typ then Err ME_InvalidContentType else
    match bs with
    | v1 :: v2 :: bs =>
      let version := enum_from (from_be [v1; v2]) in
      if negb (version_ok version) then Err ME_UnknownProtocolVersion else
      match bs with
      | l1 :: l2 :: bs =>
        let len := from_be [l1; l2] in
        if bool_decide (typ ≠ ContentType.ApplicationData) && bool_decide (len = 0)%Z
        then Err ME_InvalidEmptyPayload else
        if bool_decide (MAX_PAYLOAD ≤ len)%Z then Err ME_MessageTooLarge else
        if bool_decide (length bs < Z.to_nat len) then Err TooShortForLength else
        Ok (mkOpaqueMessage typ version (mkPayload (take (Z.to_nat len) bs)),
            drop (Z.to_nat len) bs)
      | _ => Err TooShortForHeader
      end
    | _ => Err TooShortForHeader
    end
  end.

(** ** One step of the parser *)

Lemma rd_take_eq n buf cur :
  rd_take n (mkReader buf cur)
  = if bool_decide (length (drop cur buf) < n) then (Ok None, mkReader buf cur)
    else (Ok (Some (take n (drop cur buf))), mkReader buf (cur + n)).
Proof.
  unfold rd_take, Reader_take, Reader_left. cbn [buffer cursor]. rewrite length_drop.
  by case_bool_decide.
Qed.

(** A big-endian integer of [n] bytes is there, or it is not. *)
Lemma int_reader_step n (m : Rd Z) buf cur :
  int_reader n m →
  if bool_decide (length (drop cur buf) < n) then ∃ e, m (mkReader buf cur) = (Err e, mkReader buf cur)
  else m (mkReader buf cur) = (Ok (from_be (take n (drop cur buf))), mkReader buf (cur + n)).
Proof.
  intros [e He]. rewrite He. unfold rd_bind. rewrite rd_take_eq.
  case_bool_decide; [by exists e|done].
Qed.

Lemma enum_read_step (T : Type) `{EnumBuilderOk T} buf cur :
  let n := enum_bytes (enum_width (T := T)) in
  if bool_decide (length (drop cur buf) < n)
  then ∃ e, read (A := T) (mkReader buf cur) = (Err e, mkReader buf cur)
  else read (A := T) (mkReader buf cur)
    = (Ok (enum_from (from_be (take n (drop cur buf)))), mkReader buf (cur + n)).
Proof.
  intros n. pose proof (int_reader_step n _ buf cur (enum_reader (T := T))) as Hs.
  change (read (A := T)) with (enum_read (T := T)). unfold enum_read.
  case_bool_decide.
  - destruct Hs as [e ->]. by eexists.
  - by rewrite Hs.
Qed.

Lemma or_err_Ok {A B} e (m : Rd A) (k : A → Reader → res MessageError B * Reader) r a r' :
  m r = (Ok a, r') → or_err e m k r = k a r'.
Proof. intros E. unfold or_err. by rewrite E. Qed.
Lemma or_err_Err {A B} e (m : Rd A) (k : A → Reader → res MessageError B * Reader) r e' r' :
  m r = (Err e', r') → or_err e m k r = (Err e, r').
Proof. intros E. unfold or_err. by rewrite E. Qed.

Lemma version_ok_eq version :
  negb (version_ok version) = match version with
    | ProtocolVersion.Unknown v => bool_decide (Z.land v 0xff00 ≠ 0x0300)%Z
    | _ => false
    end.
Proof. destruct version; try done. simpl. by rewrite bool_decide_not. Qed.

Lemma drop_S_tail {A} (l : list A) n x tl : drop n l = x :: tl → drop (n + 1) l = tl.
Proof. intros E. apply (drop_app_inv l n [x] tl E). Qed.
Lemma drop_2_tail {A} (l : list A) n x y tl : drop n l = x :: y :: tl → drop (n + 2) l = tl.
Proof. intros E. apply (drop_app_inv l n [x; y] tl E). Qed.

Lemma from_be_1 b : from_be [b] = byte_val b.
Proof. done. Qed.

Lemma Payload_read_sub n buf cur :
  if bool_decide (length (drop cur buf) < n)
  then ∃ e, rd_sub n Payload_read (mkReader buf cur) = (Err e, mkReader buf cur)
  else rd_sub n Payload_read (mkReader buf cur)
    = (Ok (mkPayload (take n (drop cur buf))), mkReader buf (cur + n)).
Proof.
  unfold rd_sub, Reader_sub, Reader_take, Reader_left. cbn [buffer cursor].
  rewrite length_drop. case_bool_decide; [by eexists|done].
Qed.

(** ** The refinement: [read] implements [opaque_parse] *)
Lemma OpaqueMessage_read_spec buf cur :
  cur ≤ length buf →
  match opaque_parse (drop cur buf) with
  | Ok (m, tl) => OpaqueMessage_read (mkReader buf cur)
      = (Ok m, mkReader buf (length buf - length tl))
  | Err e => (OpaqueMessage_read (mkReader buf cur)).1 = Err e
  | Panic | NoFuel => False
  end.
Proof.
  intros Hc. unfold OpaqueMessage_read, opaque_parse.
  pose proof (enum_read_step ContentType buf cur) as H1. cbn in H1.
  destruct (drop cur buf) as [|t bs1] eqn:E1; cbn [length] in H1.
  { rewrite bool_decide_true in H1 by lia. destruct H1 as [e He].
    by rewrite (or_err_Err _ _ _ _ _ _ He). }
  pose proof (f_equal length E1) as Hlen. rewrite length_drop in Hlen.
  rewrite bool_decide_false in H1 by lia. change (from_be _) with (byte_val t) in H1.
  rewrite (or_err_Ok _ _ _ _ _ _ H1). clear H1.
  destruct (is_unknown _); [done|].
  apply drop_S_tail in E1.
  pose proof (enum_read_step ProtocolVersion buf (cur + 1)) as H2. cbn in H2. rewrite E1 in H2.
  destruct bs1 as [|v1 [|v2 bs2]]; cbn [length] in H2;
    [destruct H2 as [e He]; by rewrite (or_err_Err _ _ _ _ _ _ He)..|].
  rewrite bool_decide_false in H2 by lia. cbn [take] in H2.
  rewrite (or_err_Ok _ _ _ _ _ _ H2). clear H2.
  rewrite <- version_ok_eq. destruct (negb _); [done|].
  apply drop_2_tail in E1.
  pose proof (int_reader_step 2 u16_read buf (cur + 1 + 2) u16_reader) as H3. rewrite E1 in H3.
  destruct bs2 as [|l1 [|l2 bs3]]; cbn [length] in H3;
    [destruct H3 as [e He]; by rewrite (or_err_Err _ _ _ _ _ _ He)..|].
  rewrite bool_decide_false in H3 by lia. cbn [take] in H3.
  rewrite (or_err_Ok _ _ _ _ _ _ H3). clear H3.
  apply drop_2_tail in E1.
  destruct (_ && _); [done|]. destruct (bool_decide (MAX_PAYLOAD ≤ _)%Z); [done|].
  pose proof (Payload_read_sub (Z.to_nat (from_be [l1; l2])) buf (cur + 1 + 2 + 2)) as H4.
  rewrite E1 in H4.
  case_bool_decide as Hl.
  { destruct H4 as [e He]. by rewrite (or_err_Err _ _ _ _ _ _ He). }
  rewrite (or_err_Ok _ _ _ _ _ _ H4). f_equal. f_equal.
  rewrite length_drop. cbn [length] in Hlen. lia.
Qed.

(** ** Laws of the record parser *)

(** The records that [read] accepts. *)
Definition OpaqueMessage_wf (m : OpaqueMessage) : Prop :=
  is_unknown (om_typ m) = false ∧
  codec_wf (om_version m) ∧ version_ok (om_version m) = true ∧
  (om_typ m ≠ ContentType.ApplicationData → Payload_0 (om_payload m) ≠ []) ∧
  (Z.of_nat (length (Payload_0 (om_payload m))) < MAX_PAYLOAD)%Z.

Lemma OpaqueMessage_encode_eq m :
  OpaqueMessage_encode m
  = to_be 1 (get_val (om_typ m)) ++ to_be 2 (get_val (om_version m)) ++
    to_be 2 (Z.of_nat (length (Payload_0 (om_payload m)))) ++ Payload_0 (om_payload m).
Proof.
  unfold OpaqueMessage_encode. cbv zeta. enc_norm.
  rewrite !enum_get_encoding. reflexivity.
Qed.

Lemma to_be_2 v : (0 ≤ v < 65536)%Z → ∃ a b, to_be 2 v = [a; b] ∧ from_be [a; b] = v.
Proof.
  intros Hv. pose proof (from_to_be_small 2 v) as Hf. pow256. specialize (Hf Hv).
  pose proof (length_to_be 2 v) as Hl.
  destruct (to_be 2 v) as [|a [|b [|]]]; try done. by exists a, b.
Qed.

Lemma to_be_from_be_2 a b : to_be 2 (from_be [a; b]) = [a; b].
Proof. apply (to_from_be [a; b]). Qed.

Lemma to_be_1_byte b : to_be 1 (byte_val b) = [b].
Proof. apply (to_from_be [b]). Qed.

Lemma content_type_known typ :
  is_unknown typ = false →
  ∃ t, to_be 1 (get_val typ) = [t] ∧ enum_from (T := ContentType) (byte_val t) = typ.
Proof.
  intros Hk. exists (byte_of (get_val typ)).
  destruct typ; try discriminate; split; reflexivity.
Qed.

(** The header of an acceptable record, and what comes after it. *)
Lemma OpaqueMessage_encode_bytes m :
  OpaqueMessage_wf m →
  ∃ t v1 v2 l1 l2, OpaqueMessage_encode m = t :: v1 :: v2 :: l1 :: l2 :: Payload_0 (om_payload m) ∧
    enum_from (byte_val t) = om_typ m ∧ enum_from (from_be [v1; v2]) = om_version m ∧
    from_be [l1; l2] = Z.of_nat (length (Payload_0 (om_payload m))).
Proof.
  intros (Hk & [Hv Hfrom] & Hvo & Hne & Hlen). rewrite OpaqueMessage_encode_eq.
  destruct (content_type_known _ Hk) as (t & -> & Ht). unfold MAX_PAYLOAD in Hlen.
  change (256 ^ _)%Z with 65536%Z in Hv.
  destruct (to_be_2 _ Hv) as (v1 & v2 & -> & Ev).
  destruct (to_be_2 (Z.of_nat (length (Payload_0 (om_payload m))))) as (l1 & l2 & -> & El); [lia|].
  exists t, v1, v2, l1, l2. rewrite Ev. auto.
Qed.

(** The outcome of the parser once the five bytes of a good header are there. *)
Definition opaque_body (m : OpaqueMessage) (bs : list byte)
    : res MessageError (OpaqueMessage * list byte) :=
  let n := length (Payload_0 (om_payload m)) in
  if bool_decide (length bs < n) then Err TooShortForLength
  else Ok (mkOpaqueMessage (om_typ m) (om_version m) (mkPayload (take n bs)), drop n bs).

Lemma opaque_parse_header m t v1 v2 l1 l2 bs :
  OpaqueMessage_wf m →
  enum_from (byte_val t) = om_typ m → enum_from (from_be [v1; v2]) = om_version m →
  from_be [l1; l2] = Z.of_nat (length (Payload_0 (om_payload m))) →
  opaque_parse (t :: v1 :: v2 :: l1 :: l2 :: bs) = opaque_body m bs.
Proof.
  intros (Hk & _ & Hvo & Hne & Hlen) Ht Hv Hl. unfold opaque_parse, opaque_body.
  rewrite Ht, Hk, Hv, Hvo, Hl. cbn [negb]. rewrite Nat2Z.id.
  rewrite (bool_decide_false (MAX_PAYLOAD ≤ _)%Z) by lia.
  replace (_ && _) with false; [done|]. symmetry. apply andb_false_iff.
  destruct (decide (om_typ m = ContentType.ApplicationData)) as [E|E].
  - left. by rewrite bool_decide_false by naive_solver.
  - right. apply bool_decide_eq_false. intros E0. apply (Hne E). apply length_zero_iff_nil. lia.
Qed.

Lemma opaque_parse_encode m tl :
  OpaqueMessage_wf m → opaque_parse (OpaqueMessage_encode m ++ tl) = Ok (m, tl).
Proof.
  intros Hwf. destruct (OpaqueMessage_encode_bytes m Hwf) as (t & v1 & v2 & l1 & l2 & -> & Ht & Hv & Hl).
  cbn [app]. rewrite (opaque_parse_header m) by done. unfold opaque_body.
  rewrite length_app, bool_decide_false by lia.
  rewrite take_app_length, drop_app_length. by destruct m as [? ? []].
Qed.

(** A record that has not arrived in full is reported as such. *)
Lemma opaque_parse_truncated m k :
  OpaqueMessage_wf m → k < length (OpaqueMessage_encode m) →
  opaque_parse (take k (OpaqueMessage_encode m))
  = Err (if bool_decide (k < 5) then TooShortForHeader else TooShortForLength).
Proof.
  intros Hwf. destruct (OpaqueMessage_encode_bytes m Hwf) as (t & v1 & v2 & l1 & l2 & -> & Ht & Hv & Hl).
  pose proof Hwf as (Hk & _ & Hvo & _). intros Hlt.
  destruct k as [|[|[|[|[|k]]]]]; cbn [take];
    try (unfold opaque_parse; rewrite ?Ht, ?Hk, ?Hv, ?Hvo; done).
  rewrite (opaque_parse_header m) by done. unfold opaque_body.
  cbn [length] in Hlt. rewrite length_take.
  rewrite bool_decide_true by lia. by rewrite bool_decide_false by lia.
Qed.

(** What is accepted is the encoding of an acceptable record: there is one
    encoding per record, and nothing else is let through. *)
Lemma opaque_parse_sound bs m tl :
  opaque_parse bs = Ok (m, tl) → OpaqueMessage_wf m ∧ bs = OpaqueMessage_encode m ++ tl.
Proof.
  unfold opaque_parse.
  destruct bs as [|t bs]; [done|]. destruct (is_unknown _) eqn:Hk; [done|].
  destruct bs as [|v1 [|v2 bs]]; [done..|]. destruct (negb (version_ok _)) eqn:Hv; [done|].
  destruct bs as [|l1 [|l2 bs]]; [done..|].
  destruct (_ && _) eqn:He; [done|].
  apply andb_false_iff in He; rewrite !bool_decide_eq_false in He.
  destruct (decide (MAX_PAYLOAD ≤ from_be [l1; l2])%Z) as [Hm|Hm];
    [rewrite (bool_decide_true _ Hm)|rewrite (bool_decide_false _ Hm)]; [done|].
  case_bool_decide as Hl; [done|]. intros [= <- <-].
  assert (Hlen : length (take (Z.to_nat (from_be [l1; l2])) bs) = Z.to_nat (from_be [l1; l2])).
  { rewrite length_take. lia. }
  pose proof (from_be_range [l1; l2]) as Hr.
  split.
  - unfold OpaqueMessage_wf. cbn [om_typ om_version om_payload Payload_0].
    split; [done|]. split; [apply enum_from_wf, from_be_range|].
    split; [by apply negb_false_iff|]. rewrite Hlen. split; [|lia].
    intros Ht E. rewrite E in Hlen. change (length []) with 0 in Hlen. destruct He as [He|He]; [done|]. lia.
  - rewrite OpaqueMessage_encode_eq. cbn [om_typ om_version om_payload Payload_0].
    rewrite !get_val_from, to_be_1_byte, to_be_from_be_2, Hlen, Z2Nat.id by lia.
    rewrite to_be_from_be_2. cbn [app]. by rewrite take_drop.
Qed.

(** A verdict other than too short does not change when more bytes arrive. *)
Lemma opaque_parse_stable bs more :
  opaque_parse bs ≠ Err TooShortForHeader → opaque_parse bs ≠ Err TooShortForLength →
  opaque_parse (bs ++ more)
  = res_map (λ p : OpaqueMessage * list byte, (p.1, p.2 ++ more)) (opaque_parse bs).
Proof.
  unfold opaque_parse.
  destruct bs as [|t bs]; [done|]. cbn [app]. destruct (is_unknown _); [done|].
  destruct bs as [|v1 [|v2 bs]]; [done..|]. cbn [app]. destruct (negb (version_ok _)); [done|].
  destruct bs as [|l1 [|l2 bs]]; [done..|]. cbn [app].
  destruct (_ && _); [done|]. 
  destruct (decide (MAX_PAYLOAD ≤ from_be [l1; l2])%Z) as [Hm|Hm];
    [rewrite (bool_decide_true _ Hm)|rewrite (bool_decide_false _ Hm)]; [done|].
  case_bool_decide as Hl; [done|]. intros _ _.
  rewrite bool_decide_false by (rewrite length_app; lia). cbn [res_map fst snd].
  rewrite take_app_le, drop_app_le by lia. done.
Qed.

(** * Messages *)

Section messages.
Context `{WebPki}.

Inductive MessagePayload : Type :=
  | MP_Alert (x : AlertMessagePayload)
  | MP_Handshake (parsed : HandshakeMessagePayload) (encoded : Payload)
  | MP_ChangeCipherSpec (x : ChangeCipherSpecPayload)
  | MP_ApplicationData (x : Payload).

Definition MessagePayload_encode (p : MessagePayload) (bytes : list byte) : list byte :=
  match p with
  | MP_Alert x => encode x bytes
  | MP_Handshake _ encoded => bytes ++ Payload_0 encoded
  | MP_ChangeCipherSpec x => encode x bytes
  | MP_ApplicationData x => encode x bytes
  end.

Definition MessagePayload_handshake (parsed : HandshakeMessagePayload) : MessagePayload :=
  MP_Handshake parsed (mkPayload (get_encoding parsed)).

Definition MessagePayload_new (typ : ContentType) (vers : ProtocolVersion) (payload : Payload)
    : res InvalidMessage MessagePayload :=
  let r := Reader_init (Payload_0 payload) in
  match typ with
  | ContentType.ApplicationData => Ok (MP_ApplicationData payload)
  | ContentType.Alert => res_map MP_Alert (AlertMessagePayload_read r).1
  | ContentType.Handshake =>
      res_map (λ parsed, MP_Handshake parsed payload)
        (HandshakeMessagePayload_read_version vers r).1
  | ContentType.ChangeCipherSpec =>
      res_map MP_ChangeCipherSpec (ChangeCipherSpecPayload_read r).1
  | _ => Err InvalidContentType
  end.

Definition content_type (p : MessagePayload) : ContentType :=
  match p with
  | MP_Alert _ => ContentType.Alert
  | MP_Handshake _ _ => ContentType.Handshake
  | MP_ChangeCipherSpec _ => ContentType.ChangeCipherSpec
  | MP_ApplicationData _ => ContentType.ApplicationData
  end.

Record Message : Type := mkMessage {
  m_version : ProtocolVersion;
  m_payload : MessagePayload
}.

(** [impl From<Message> for PlainMessage] *)
Definition PlainMessage_from (msg : Message) : PlainMessage :=
  let typ := content_type (m_payload msg) in
  let payload := match m_payload msg with
    | MP_ApplicationData payload => payload
    | _ =>
        let buf := MessagePayload_encode (m_payload msg) [] in
        mkPayload buf
    end in
  mkPlainMessage typ (m_version msg) payload.

(** [impl TryFrom<PlainMessage> for Message]; the [?] wraps the error. *)
Definition Message_try_from (plain : PlainMessage) : res InvalidMessage Message :=
  let? payload := MessagePayload_new (pm_typ plain) (pm_version plain) (pm_payload plain) in
  Ok (mkMessage (pm_version plain) payload).

Definition is_handshake_type (msg : Message) (hstyp : HandshakeType) : bool :=
  match m_payload msg with
  | MP_Handshake parsed _ => bool_decide (hmp_typ parsed = hstyp)
  | _ => false
  end.

Definition build_alert (level : AlertLevel) (desc : AlertDescription) : Message :=
  mkMessage ProtocolVersion.TLSv1_2 (MP_Alert (mkAlertMessagePayload level desc)).

Definition Message_build_key_update_notify : Message :=
  mkMessage ProtocolVersion.TLSv1_3 (MessagePayload_handshake build_key_update_notify).

(** ** Laws *)

(** The payload kept next to a parsed handshake message is its encoding. *)
Definition Message_wf (msg : Message) : Prop :=
  match m_payload msg with
  | MP_Alert x => AlertMessagePayload_wf x
  | MP_Handshake parsed encoded =>
      HandshakeMessagePayload_wf (m_version msg) parsed ∧ encoded = mkPayload (get_encoding parsed)
  | MP_ChangeCipherSpec _ | MP_ApplicationData _ => True
  end.

Lemma read_all_init {A} (m : Rd A) a bs :
  reads_all m a bs → (m (Reader_init bs)).1 = Ok a.
Proof. intros Hm. unfold Reader_init. by rewrite (Hm bs 0); [|lia|]. Qed.

Lemma try_from_from msg : Message_wf msg → Message_try_from (PlainMessage_from msg) = Ok msg.
Proof.
  destruct msg as [v [x|parsed encoded|[]|x]]; unfold Message_wf, Message_try_from; cbn.
  - intros Hx.
    by rewrite (read_all_init _ x); [|exact (read_trailing x Hx)].
  - intros [Hp ->]. cbn.
    by rewrite (read_all_init _ parsed);
      [|apply reads_reads_all, HandshakeMessagePayload_reads].
  - done.
  - done.
Qed.

(** A decoder that ends in [expect_empty] has read the whole input. *)
Lemma expect_empty_left name buf cur :
  cur < length buf →
  rd_expect_empty name (mkReader buf cur) = (Err (TrailingData name), mkReader buf cur).
Proof.
  intros Hc. unfold rd_expect_empty, Reader_expect_empty, Reader_any_left. cbn [buffer cursor].
  by rewrite bool_decide_true.
Qed.

Lemma byte_enum_wf (T : Type) `{EnumBuilderOk T} b :
  enum_width (T := T) = W8 → enum_wf (enum_from (T := T) (byte_val b)).
Proof. intros Hw. apply enum_from_wf. rewrite Hw. apply (from_be_range [b]). Qed.

Lemma alert_read_sound bs x :
  (AlertMessagePayload_read (Reader_init bs)).1 = Ok x → get_encoding x = bs.
Proof.
  unfold Reader_init. intros Hx.
  pose proof (enum_read_step AlertLevel bs 0) as H1. cbv zeta in H1.
  change (enum_bytes _) with 1 in H1. change (0 + 1) with 1 in H1.
  pose proof (enum_read_step AlertDescription bs 1) as H2. cbv zeta in H2.
  change (enum_bytes _) with 1 in H2. change (1 + 1) with 2 in H2.
  destruct bs as [|a [|b [|c bs]]].
  - destruct H1 as [e H1]. unfold AlertMessagePayload_read, rd_bind in Hx. by rewrite H1 in Hx.
  - destruct H2 as [e H2]. unfold AlertMessagePayload_read, rd_bind in Hx.
    by rewrite H1, H2 in Hx.
  - set (y := mkAlertMessagePayload (enum_from (byte_val a)) (enum_from (byte_val b))).
    assert (Hy : AlertMessagePayload_wf y) by (by split; [exact (byte_enum_wf AlertLevel a eq_refl)
      |exact (byte_enum_wf AlertDescription b eq_refl)]).
    assert (E : get_encoding y = [a; b]).
    { change (get_encoding y) with (AlertMessagePayload_encode y []).
      unfold AlertMessagePayload_encode. cbv zeta. enc_norm. rewrite !enum_get_encoding.
      unfold y. cbn [am_level am_description]. rewrite !get_val_from.
      change (enum_bytes _) with 1. by rewrite !to_be_1_byte. }
    pose proof (read_all_init _ y _ (read_trailing y Hy)) as Hr. rewrite E in Hr.
    change (read (Reader_init [a; b])) with (AlertMessagePayload_read (mkReader [a; b] 0)) in Hr.
    rewrite Hr in Hx. by injection Hx as <-.
  - unfold AlertMessagePayload_read, rd_bind in Hx. rewrite H1, H2 in Hx.
    rewrite expect_empty_left in Hx by (cbn; lia). done.
Qed.

Lemma ccs_read_sound bs x :
  (ChangeCipherSpecPayload_read (Reader_init bs)).1 = Ok x → get_encoding x = bs.
Proof.
  unfold Reader_init, ChangeCipherSpecPayload_read, rd_bind.
  pose proof (int_reader_step 1 u8_read bs 0 u8_reader) as H1.
  destruct bs as [|a bs]; [by destruct H1 as [e ->]|].
  cbn [drop length] in H1. rewrite bool_decide_false in H1 by lia. rewrite H1.
  change (from_be _) with (byte_val a).
  case_bool_decide as Ha; [done|].
  destruct bs as [|b bs]; [|by rewrite expect_empty_left by (cbn; lia)].
  intros _. destruct x. change (get_encoding _) with (to_be 1 1).
  rewrite <- to_be_1_byte. by replace (byte_val a) with 1%Z by lia.
Qed.

(** Parsing loses nothing: the bytes of the record come back out. *)
Lemma from_try_from plain msg : Message_try_from plain = Ok msg → PlainMessage_from msg = plain.
Proof.
  destruct plain as [typ v [bs]]. unfold Message_try_from, MessagePayload_new.
  cbn [pm_typ pm_version pm_payload Payload_0].
  destruct typ; try done.
  - destruct (ChangeCipherSpecPayload_read _).1 as [x| | |] eqn:E; try done.
    intros [= <-]. apply ccs_read_sound in E. unfold PlainMessage_from. cbn.
    f_equal. f_equal. exact E.
  - destruct (AlertMessagePayload_read _).1 as [x| | |] eqn:E; try done.
    intros [= <-]. apply alert_read_sound in E. unfold PlainMessage_from. cbn.
    f_equal. f_equal. exact E.
  - destruct (HandshakeMessagePayload_read_version v _).1 as [x| | |] eqn:E; try done.
    by intros [= <-].
  - by intros [= <-].
Qed.
End messages.
