(* ===== verification/Fragmenter.v ===== *)
(** The message fragmenter (rustls-0.21.2/rustls/src/msgs/fragmenter.rs): how a
    plain message is cut into records, and the bounds on the cut. *)
From Stdlib Require Import ZArith Lia Strings.Byte String.
From stdpp Require Import base list numbers option.
From S2P Require Import Prelude.
From S2P Require Import Codec.
From S2P Require Import TlsEnums.
From S2P Require Import TlsBase.
From S2P Require Import TlsError.
From S2P Require Import TlsMessage.

Definition MAX_FRAGMENT_LEN : nat := Z.to_nat 16384.
Definition PACKET_OVERHEAD : nat := 1 + 2 + 2.
Definition MAX_FRAGMENT_SIZE : nat := MAX_FRAGMENT_LEN + PACKET_OVERHEAD.

Record MessageFragmenter : Type := mkMessageFragmenter { max_frag : nat }.

Definition MessageFragmenter_default : MessageFragmenter :=
  mkMessageFragmenter MAX_FRAGMENT_LEN.

(** [slice::chunks(n)]: pieces of [n] elements, the last one shorter.  Every
    piece takes an element when [0 < n], so the length of the slice is fuel
    enough. *)
Fixpoint chunks_fuel {A} (fuel n : nat) (l : list A) : list (list A) :=
  match fuel, l with
  | _, [] | O, _ => []
  | S fuel', _ => take n l :: chunks_fuel fuel' n (drop n l)
  end.

(** [chunks(0)] panics. *)
Definition chunks {A} (n : nat) (l : list A) : res unit (list (list A)) :=
  if bool_decide (n = 0) then Panic else Ok (chunks_fuel (length l) n l).

Definition fragment_slice (f : MessageFragmenter) (typ : ContentType) (version : ProtocolVersion)
    (payload : list byte) : res unit (list BorrowedPlainMessage) :=
  res_map (fmap (λ c, mkBorrowedPlainMessage typ version c)) (chunks (max_frag f) payload).

Definition fragment_message (f : MessageFragmenter) (msg : PlainMessage)
    : res unit (list BorrowedPlainMessage) :=
  fragment_slice f (pm_typ msg) (pm_version msg) (Payload_0 (pm_payload msg)).

Section set_max.
Context `{ForeignErrors}.

(** The fragmenter is left alone when the size is refused. *)
Definition set_max_fragment_size (f : MessageFragmenter) (max_fragment_size : option nat)
    : res Error unit * MessageFragmenter :=
  match max_fragment_size with
  | Some sz =>
      if bool_decide (32 ≤ sz) && bool_decide (sz ≤ MAX_FRAGMENT_SIZE)
      then (Ok tt, mkMessageFragmenter (sz - PACKET_OVERHEAD))
      else (Err BadMaxFragmentSize, f)
  | None => (Ok tt, mkMessageFragmenter MAX_FRAGMENT_LEN)
  end.
End set_max.

(** * Laws *)

(** The range [max_frag] is always in. *)
Definition fragmenter_wf (f : MessageFragmenter) : Prop := 27 ≤ max_frag f ≤ MAX_FRAGMENT_LEN.

Lemma default_wf : fragmenter_wf MessageFragmenter_default.
Proof. unfold fragmenter_wf, MessageFragmenter_default, MAX_FRAGMENT_LEN. cbn [max_frag]. lia. Qed.

Lemma set_max_wf `{ForeignErrors} f sz :
  fragmenter_wf f → fragmenter_wf (set_max_fragment_size f sz).2.
Proof.
  unfold set_max_fragment_size. intros Hf. destruct sz as [sz|]; [|apply default_wf].
  destruct (decide (32 ≤ sz)), (decide (sz ≤ MAX_FRAGMENT_SIZE));
    rewrite ?bool_decide_true, ?bool_decide_false by done; cbn [andb snd]; try done.
  unfold fragmenter_wf, MAX_FRAGMENT_SIZE, PACKET_OVERHEAD in *. cbn [max_frag]. lia.
Qed.

Section chunks_laws.
Context {A : Type} (n : nat) (Hn : 0 < n).

Lemma chunks_fuel_join fuel (l : list A) : length l ≤ fuel → mjoin (chunks_fuel fuel n l) = l.
Proof.
  revert l. induction fuel as [|fuel IH]; intros [|x l] Hl; try done; [cbn in Hl; lia|].
  change (mjoin (chunks_fuel (S fuel) n (x :: l)))
    with (take n (x :: l) ++ mjoin (chunks_fuel fuel n (drop n (x :: l)))).
  rewrite IH; [apply take_drop|]. rewrite length_drop. cbn [length] in *. lia.
Qed.

Lemma chunks_fuel_bounds fuel (l : list A) :
  Forall (λ c, 0 < length c ≤ n) (chunks_fuel fuel n l).
Proof.
  revert l. induction fuel as [|fuel IH]; intros [|x l]; try constructor; [|apply IH].
  rewrite length_take. cbn [length]. lia.
Qed.

(** Only the last chunk can be short. *)
Lemma chunks_fuel_full fuel (l : list A) i c :
  length l ≤ fuel → chunks_fuel fuel n l !! i = Some c →
  S i < length (chunks_fuel fuel n l) → length c = n.
Proof.
  revert l i. induction fuel as [|fuel IH]; intros [|x l] i Hl; try done.
  cbn [chunks_fuel]. destruct i as [|i]; cbn [lookup list_lookup].
  - intros [= <-]. cbn [length] in *. intros Hi.
    destruct (drop n (x :: l)) as [|y tl] eqn:E; [destruct fuel; cbn in Hi; lia|].
    apply (f_equal length) in E. rewrite length_drop in E. cbn [length] in E.
    rewrite length_take. cbn [length]. lia.
  - intros Hc Hi. eapply (IH (drop n (x :: l))); [rewrite length_drop; cbn [length] in *; lia|done|].
    cbn [length] in Hi |- *. lia.
Qed.

Lemma chunks_fuel_count fuel (l : list A) :
  length l ≤ fuel → length (chunks_fuel fuel n l) = (length l + n - 1) / n.
Proof.
  revert l. induction fuel as [|fuel IH]; intros [|x l] Hl; try (cbn in Hl; lia).
  - cbn [chunks_fuel length]. symmetry. apply Nat.div_small. lia.
  - cbn [chunks_fuel length]. symmetry. apply Nat.div_small. lia.
  - cbn [chunks_fuel length]. rewrite IH by (rewrite length_drop; cbn [length] in *; lia).
    rewrite length_drop. cbn [length].
    destruct (le_lt_dec (S (length l)) n) as [Hle|Hlt].
    + rewrite (Nat.div_small (_ - n + n - 1)) by lia.
      apply Nat.div_unique with (r := S (length l) - 1); lia.
    + replace (S (length l) + n - 1) with ((S (length l) - n + n - 1) + 1 * n) by lia.
      rewrite Nat.div_add by lia. lia.
Qed.
End chunks_laws.

(** The fragments of a payload, when the limit is in its range. *)
Lemma fragment_slice_eq f typ version payload :
  fragmenter_wf f →
  fragment_slice f typ version payload
  = Ok ((λ c, mkBorrowedPlainMessage typ version c) <$>
        chunks_fuel (length payload) (max_frag f) payload).
Proof.
  intros [Hf _]. unfold fragment_slice, chunks. by rewrite bool_decide_false by lia.
Qed.

(** Reading records until the input is used up: what the peer does with the
    bytes of all the fragments. *)
Fixpoint parse_records (fuel : nat) (bs : list byte) : option (list OpaqueMessage) :=
  match bs, fuel with
  | [], _ => Some []
  | _, O => None
  | _, S fuel' =>
      match opaque_parse bs with
      | Ok (m, tl) => cons m <$> parse_records fuel' tl
      | _ => None
      end
  end.

Lemma parse_records_encode ms :
  Forall OpaqueMessage_wf ms →
  parse_records (length ms) (mjoin (OpaqueMessage_encode <$> ms)) = Some ms.
Proof.
  induction 1 as [|m ms Hm _ IH]; [done|].
  rewrite fmap_cons. change (mjoin (?x :: ?l)) with (x ++ mjoin l). cbn [length parse_records].
  destruct (OpaqueMessage_encode m ++ _) as [|b bs] eqn:E.
  { destruct (OpaqueMessage_encode_bytes m Hm) as (?&?&?&?&?&E'&_). by rewrite E' in E. }
  rewrite <- E, opaque_parse_encode by done. by rewrite IH.
Qed.

Lemma fragments_wf f typ version payload :
  fragmenter_wf f → is_unknown typ = false → codec_wf version → version_ok version = true →
  Forall OpaqueMessage_wf (to_unencrypted_opaque <$>
    ((λ c, mkBorrowedPlainMessage typ version c) <$>
      chunks_fuel (length payload) (max_frag f) payload)).
Proof.
  intros [Hlo Hhi] Ht Hv Hvo. rewrite <- list_fmap_compose. apply list.Forall_fmap.
  apply list.Forall_forall. intros c Hin.
  pose proof (proj1 (list.Forall_forall _ _)
    (chunks_fuel_bounds (max_frag f) ltac:(lia) (length payload) payload) c Hin) as Hc. cbn beta in Hc. unfold OpaqueMessage_wf, MAX_PAYLOAD, MAX_FRAGMENT_LEN in *. cbn.
  split; [done|]. split; [exact Hv|]. split; [done|]. split; [|lia].
  intros _ ->. cbn in Hc. lia.
Qed.
