(* ===== verification/VecBuf.v ===== *)
(** [ChunkVecBuffer] (rustls-0.21.2/rustls/src/vecbuf.rs): a byte queue kept as
    a queue of chunks.

    The abstract state is the list of bytes [contents], the concatenation of
    the chunks; every operation refines an operation on that list. *)
From Stdlib Require Import ZArith Lia Strings.Byte.
From stdpp Require Import base list numbers option.
From S2P Require Import Prelude.
Open Scope rust_scope.

Record ChunkVecBuffer : Type := mkChunkVecBuffer {
  cvb_chunks : list (list byte);
  cvb_limit : option nat
}.

Definition ChunkVecBuffer_new (limit : option nat) : ChunkVecBuffer := mkChunkVecBuffer [] limit.

Definition cvb_set_limit (b : ChunkVecBuffer) (new_limit : option nat) : ChunkVecBuffer :=
  mkChunkVecBuffer (cvb_chunks b) new_limit.

Definition cvb_is_empty (b : ChunkVecBuffer) : bool := bool_decide (cvb_chunks b = []).

Definition cvb_len (b : ChunkVecBuffer) : nat :=
  fold_left (λ len ch, len + length ch) (cvb_chunks b) 0.

Definition cvb_is_full (b : ChunkVecBuffer) : bool :=
  match cvb_limit b with
  | Some limit => bool_decide (limit < cvb_len b)
  | None => false
  end.

Definition cvb_apply_limit (b : ChunkVecBuffer) (len : nat) : nat :=
  match cvb_limit b with
  | Some limit =>
      let space := limit - cvb_len b in
      len `min` space
  | None => len
  end.

Definition cvb_append (b : ChunkVecBuffer) (bytes : list byte) : nat * ChunkVecBuffer :=
  let len := length bytes in
  (len, if negb (bool_decide (bytes = []))
        then mkChunkVecBuffer (cvb_chunks b ++ [bytes]) (cvb_limit b)
        else b).

(** [bytes[..take]] panics past the end; [apply_limit] never goes there. *)
Definition cvb_append_limited_copy (b : ChunkVecBuffer) (bytes : list byte)
    : res unit (nat * ChunkVecBuffer) :=
  let n := cvb_apply_limit b (length bytes) in
  if bool_decide (length bytes < n) then Panic
  else Ok (n, (cvb_append b (take n bytes)).2).

Definition cvb_pop (b : ChunkVecBuffer) : option (list byte) * ChunkVecBuffer :=
  match cvb_chunks b with
  | [] => (None, b)
  | ch :: chunks => (Some ch, mkChunkVecBuffer chunks (cvb_limit b))
  end.

(** The loop of [consume] over the chunks. *)
Fixpoint consume_chunks (chunks : list (list byte)) (used : nat) : list (list byte) :=
  match chunks with
  | [] => []
  | buf :: chunks' =>
      if bool_decide (used < length buf) then drop used buf :: chunks'
      else consume_chunks chunks' (used - length buf)
  end.

Definition cvb_consume (b : ChunkVecBuffer) (used : nat) : ChunkVecBuffer :=
  mkChunkVecBuffer (consume_chunks (cvb_chunks b) used) (cvb_limit b).

(** The loop of [read]: [self.chunks[0].as_slice().read(&mut buf[offs..])]
    copies as many bytes as both sides have. *)
Fixpoint read_loop (fuel : nat) (b : ChunkVecBuffer) (buf : list byte) (offs : nat)
    : res unit (nat * list byte * ChunkVecBuffer) :=
  if bool_decide (offs < length buf) && negb (cvb_is_empty b) then
    match fuel, cvb_chunks b with
    | S fuel', ch :: _ =>
        let used := length ch `min` (length buf - offs) in
        let buf := splice offs (take used ch) buf in
        let b := cvb_consume b used in
        read_loop fuel' b buf (offs + used)
    | O, _ => NoFuel
    | _, [] => Panic
    end
  else Ok (offs, buf, b).

(** A round that does not fill [buf] takes a chunk off the queue. *)
Definition cvb_read (b : ChunkVecBuffer) (buf : list byte)
    : res unit (nat * list byte * ChunkVecBuffer) :=
  read_loop (S (length (cvb_chunks b))) b buf 0.

(** [write_to]: [wr] is the writer's [write_vectored], which gets the first 64
    chunks and answers with a number of bytes or an error. *)
Definition cvb_write_to {E} (b : ChunkVecBuffer) (wr : list (list byte) → res E nat)
    : res E nat * ChunkVecBuffer :=
  if cvb_is_empty b then (Ok 0, b)
  else
    let bufs := take 64 (cvb_chunks b) in
    match wr bufs with
    | Ok used => (Ok used, cvb_consume b used)
    | Err e => (Err e, b)
    | Panic => (Panic, b)
    | NoFuel => (NoFuel, b)
    end.

(** * The abstract state *)

Definition contents (b : ChunkVecBuffer) : list byte := mjoin (cvb_chunks b).

(** No chunk is empty, so that [is_empty] tells whether a byte is left. *)
Definition cvb_wf (b : ChunkVecBuffer) : Prop := Forall (λ ch, ch ≠ []) (cvb_chunks b).

Lemma new_contents limit : contents (ChunkVecBuffer_new limit) = [] ∧ cvb_wf (ChunkVecBuffer_new limit).
Proof. split; [done|constructor]. Qed.

Lemma cvb_len_contents b : cvb_len b = length (contents b).
Proof.
  unfold cvb_len, contents. generalize (cvb_chunks b). intros l.
  assert (Hg : ∀ k, fold_left (λ len ch, len + length ch) l k = k + length (mjoin l)).
  { induction l as [|x l IH]; intros k; [cbn; lia|]. cbn [fold_left]. rewrite IH.
    change (mjoin (x :: l)) with (x ++ mjoin l). rewrite length_app. lia. }
  apply Hg.
Qed.

Lemma cvb_is_empty_contents b : cvb_wf b → cvb_is_empty b = bool_decide (contents b = []).
Proof.
  unfold cvb_is_empty, cvb_wf, contents. intros Hwf. apply bool_decide_ext.
  destruct (cvb_chunks b) as [|ch l]; [done|]. split; [done|].
  intros [E _]%app_eq_nil. apply list.Forall_cons in Hwf as [? _]. done.
Qed.

Lemma cvb_append_contents b bytes :
  contents (cvb_append b bytes).2 = contents b ++ bytes.
Proof.
  unfold cvb_append, contents. case_bool_decide as E; cbn [negb snd cvb_chunks].
  - subst. by rewrite app_nil_r.
  - rewrite join_app. cbn. by rewrite app_nil_r.
Qed.

Lemma cvb_append_wf b bytes : cvb_wf b → cvb_wf (cvb_append b bytes).2.
Proof.
  unfold cvb_append, cvb_wf. intros Hb. case_bool_decide as E; cbn [negb snd cvb_chunks]; [done|].
  apply list.Forall_app. split; [done|]. by constructor.
Qed.

Lemma cvb_apply_limit_le b n : cvb_apply_limit b n ≤ n.
Proof. unfold cvb_apply_limit. destruct (cvb_limit b); lia. Qed.

Lemma consume_chunks_join chunks used : mjoin (consume_chunks chunks used) = drop used (mjoin chunks).
Proof.
  revert used. induction chunks as [|ch chunks IH]; intros used.
  { change (mjoin []) with (@nil byte). by rewrite drop_nil. }
  cbn [consume_chunks]. change (mjoin (ch :: chunks)) with (ch ++ mjoin chunks).
  case_bool_decide as Hu.
  - change (mjoin (?x :: chunks)) with (x ++ mjoin chunks). by rewrite drop_app_le by lia.
  - rewrite IH, drop_app, (drop_ge ch) by lia. done.
Qed.

Lemma consume_chunks_wf chunks used :
  Forall (λ ch : list byte, ch ≠ []) chunks →
  Forall (λ ch : list byte, ch ≠ []) (consume_chunks chunks used).
Proof.
  revert used. induction chunks as [|ch chunks IH]; intros used Hwf; [done|].
  apply list.Forall_cons in Hwf as [Hc Hwf]. cbn [consume_chunks].
  case_bool_decide as Hu; [|by apply IH]. constructor; [|done].
  intros E%(f_equal length). rewrite length_drop in E. cbn in E. lia.
Qed.

Lemma cvb_consume_contents b used : contents (cvb_consume b used) = drop used (contents b).
Proof. apply consume_chunks_join. Qed.
Lemma cvb_consume_wf b used : cvb_wf b → cvb_wf (cvb_consume b used).
Proof. apply consume_chunks_wf. Qed.

(** ** Reading *)

(** What is written so far, then the queue cut to the room, then the rest. *)
Definition read_result (q buf : list byte) (offs : nat) : nat * list byte :=
  let n := length q `min` (length buf - offs) in
  (offs + n, splice offs (take n q) buf).

Lemma splice_nil {A} (l : list A) off : splice off [] l = l.
Proof. unfold splice. cbn. by rewrite Nat.add_0_r, take_drop. Qed.

Lemma splice_splice {A} (l a c : list A) off :
  off + length a + length c ≤ length l →
  splice (off + length a) c (splice off a l) = splice off (a ++ c) l.
Proof.
  intros Hl. unfold splice. set (rest := drop (off + length a) l).
  assert (H1 : length (take off l ++ a) = off + length a).
  { rewrite length_app, length_take. lia. }
  rewrite (app_assoc (take off l) a rest), take_app_length' by done.
  rewrite drop_app, H1, (drop_ge (take off l ++ a)) by lia. cbn [app].
  replace (off + length a + length c - (off + length a)) with (length c) by lia.
  unfold rest. rewrite drop_drop, length_app, <- !app_assoc. do 4 f_equal. lia.
Qed.

Lemma read_loop_spec fuel b buf offs :
  cvb_wf b → offs ≤ length buf → length (cvb_chunks b) < fuel →
  ∃ b', read_loop fuel b buf offs
    = Ok ((read_result (contents b) buf offs).1, (read_result (contents b) buf offs).2, b') ∧
    contents b' = drop (length buf - offs) (contents b) ∧ cvb_wf b' ∧
    cvb_limit b' = cvb_limit b.
Proof.
  revert b buf offs. induction fuel as [|fuel IH]; intros b buf offs Hwf Ho Hf; [lia|].
  cbn [read_loop]. destruct (decide (offs < length buf)) as [Hlt|Hge].
  2: { rewrite bool_decide_false by done. cbn [andb]. exists b. unfold read_result.
    replace (length buf - offs) with 0 by lia. rewrite Nat.min_0_r, take_0. cbn [fst snd].
    rewrite splice_nil, Nat.add_0_r. by split_and!. }
  rewrite bool_decide_true by done. cbn [andb]. unfold cvb_is_empty.
  destruct b as [[|ch chunks] lim]; cbn [cvb_chunks] in *.
  { rewrite bool_decide_true by done. cbn [negb]. exists (mkChunkVecBuffer [] lim).
    unfold read_result, contents. cbn [cvb_chunks]. change (mjoin []) with (@nil byte).
    cbn [length Nat.min fst snd]. rewrite take_nil, splice_nil, Nat.add_0_r, drop_nil. by split_and!. }
  rewrite bool_decide_false by done. cbn [negb].
  apply list.Forall_cons in Hwf as [Hne Hwf].
  set (used := length ch `min` (length buf - offs)).
  set (b1 := cvb_consume (mkChunkVecBuffer (ch :: chunks) lim) used).
  assert (Hsp : length (splice offs (take used ch) buf) = length buf).
  { apply length_splice. rewrite length_take. lia. }
  assert (Hused : used ≤ length ch) by lia.
  assert (Hr : read_result (contents b1) (splice offs (take used ch) buf) (offs + used)
    = read_result (ch ++ mjoin chunks) buf offs).
  { unfold b1, read_result. rewrite cvb_consume_contents, Hsp, length_drop.
    unfold contents. cbn [cvb_chunks]. change (mjoin (ch :: chunks)) with (ch ++ mjoin chunks).
    rewrite length_app. f_equal; [lia|].
    set (n := (length ch + length (mjoin chunks) - used) `min` (length buf - (offs + used))).
    replace ((length ch + length (mjoin chunks)) `min` (length buf - offs))
      with (used + n) by lia.
    assert (Ht : length (take used ch) = used) by (rewrite length_take; lia).
    rewrite <- Ht at 1 4. rewrite splice_splice.
    - rewrite Ht. f_equal. rewrite <- (take_app_le ch (mjoin chunks) used) by lia.
      by rewrite take_take_drop.
    - rewrite Ht, length_take, length_drop, length_app. lia. }
  destruct (decide (length ch ≤ length buf - offs)) as [Hall|Hpart].
  - destruct (IH b1 (splice offs (take used ch) buf) (offs + used)) as (b' & E & Hc & Hw & Hl).
    + apply cvb_consume_wf. by constructor.
    + rewrite Hsp. lia.
    + unfold b1, cvb_consume. cbn [cvb_chunks consume_chunks].
      rewrite bool_decide_false by lia. cbn in Hf.
      assert (∀ u, length (consume_chunks chunks u) ≤ length chunks); [|specialize (H (used - length ch)); lia].
      clear. induction chunks as [|c l IH]; intros u; cbn; [lia|].
      case_bool_decide; cbn; [lia|]. specialize (IH (u - length c)). lia.
    + exists b'. rewrite E, Hr. split; [done|]. split; [|done].
      rewrite Hc, Hsp. unfold b1. rewrite cvb_consume_contents, drop_drop. f_equal. lia.
  - (* the buffer is full after this round *)
    assert (Hfull : offs + used = length buf) by lia.
    exists b1. split.
    + destruct fuel as [|fuel]; [cbn in Hf; lia|]. cbn [read_loop].
      rewrite Hsp, bool_decide_false by lia. cbn [andb].
      unfold contents. cbn [cvb_chunks]. change (mjoin (ch :: chunks)) with (ch ++ mjoin chunks).
      rewrite <- Hr. unfold read_result. rewrite Hsp.
      replace (length buf - (offs + used)) with 0 by lia. rewrite Nat.min_0_r, take_0. cbn [fst snd].
      by rewrite splice_nil, Nat.add_0_r.
    + split; [|split; [apply cvb_consume_wf; by constructor|done]].
      unfold b1. rewrite cvb_consume_contents. f_equal. lia.
Qed.

(** * The refinement

    The operations as calls with their results, and what each promises of a
    plain queue of bytes with a limit. *)
Inductive cvb_op : Type :=
  | Op_append (bytes : list byte)
  | Op_append_limited_copy (bytes : list byte)
  | Op_read (buf : list byte)
  | Op_write_to (wr : list (list byte) → option nat)
  | Op_pop
  | Op_set_limit (new_limit : option nat)
  | Op_is_empty
  | Op_is_full
  | Op_len.

Inductive cvb_out : Type :=
  | Out_unit
  | Out_nat (n : nat)
  | Out_bool (b : bool)
  | Out_read (n : nat) (buf : list byte)
  | Out_written (offered : list byte) (answer : option nat)
  | Out_chunk (ch : option (list byte)).

(** What the writer of [write_to] was shown: nothing when it was not called. *)
Definition offered (b : ChunkVecBuffer) : list byte := mjoin (take 64 (cvb_chunks b)).

Definition cvb_call (op : cvb_op) (b : ChunkVecBuffer) : res unit (cvb_out * ChunkVecBuffer) :=
  match op with
  | Op_append bytes => let '(n, b') := cvb_append b bytes in Ok (Out_nat n, b')
  | Op_append_limited_copy bytes =>
      let? p := cvb_append_limited_copy b bytes in Ok (Out_nat p.1, p.2)
  | Op_read buf =>
      let? p := cvb_read b buf in Ok (Out_read p.1.1 p.1.2, p.2)
  | Op_write_to wr =>
      let wr' bufs := match wr bufs with Some n => Ok n | None => Err tt end in
      match cvb_write_to b wr' with
      | (Ok n, b') => Ok (Out_written (offered b) (Some n), b')
      | (Err _, b') => Ok (Out_written (offered b) None, b')
      | _ => Panic
      end
  | Op_pop => let '(ch, b') := cvb_pop b in Ok (Out_chunk ch, b')
  | Op_set_limit l => Ok (Out_unit, cvb_set_limit b l)
  | Op_is_empty => Ok (Out_bool (cvb_is_empty b), b)
  | Op_is_full => Ok (Out_bool (cvb_is_full b), b)
  | Op_len => Ok (Out_nat (cvb_len b), b)
  end.

Definition queue : Type := list byte * option nat.

(** The room that a limit leaves. *)
Definition room (s : queue) (n : nat) : nat :=
  match s.2 with Some limit => n `min` (limit - length s.1) | None => n end.

Inductive queue_step : queue → cvb_op → cvb_out → queue → Prop :=
  | Q_append q l bytes :
      queue_step (q, l) (Op_append bytes) (Out_nat (length bytes)) (q ++ bytes, l)
  | Q_append_limited_copy q l bytes :
      let n := room (q, l) (length bytes) in
      queue_step (q, l) (Op_append_limited_copy bytes) (Out_nat n) (q ++ take n bytes, l)
  | Q_read q l buf :
      let n := length q `min` length buf in
      queue_step (q, l) (Op_read buf) (Out_read n (take n q ++ drop n buf)) (drop n q, l)
  | Q_write_to q l wr shown n :
      shown `prefix_of` q → (q ≠ [] → shown ≠ []) → (q = [] → n = 0) →
      queue_step (q, l) (Op_write_to wr) (Out_written shown (Some n)) (drop n q, l)
  | Q_write_fails q l wr shown :
      shown `prefix_of` q →
      queue_step (q, l) (Op_write_to wr) (Out_written shown None) (q, l)
  | Q_pop ch q l : ch ≠ [] →
      queue_step (ch ++ q, l) Op_pop (Out_chunk (Some ch)) (q, l)
  | Q_pop_empty l : queue_step ([], l) Op_pop (Out_chunk None) ([], l)
  | Q_set_limit q l l' : queue_step (q, l) (Op_set_limit l') Out_unit (q, l')
  | Q_is_empty q l : queue_step (q, l) Op_is_empty (Out_bool (bool_decide (q = []))) (q, l)
  | Q_is_full q l :
      queue_step (q, l) Op_is_full
        (Out_bool (match l with Some n => bool_decide (n < length q) | None => false end)) (q, l)
  | Q_len q l : queue_step (q, l) Op_len (Out_nat (length q)) (q, l).

(** A sequence of calls, on the buffer and on the queue. *)
Fixpoint cvb_calls (ops : list cvb_op) (b : ChunkVecBuffer)
    : res unit (list cvb_out * ChunkVecBuffer) :=
  match ops with
  | [] => Ok ([], b)
  | op :: ops' =>
      let? p := cvb_call op b in
      let? q := cvb_calls ops' p.2 in
      Ok (p.1 :: q.1, q.2)
  end.

Inductive queue_steps : queue → list cvb_op → list cvb_out → queue → Prop :=
  | Qs_nil s : queue_steps s [] [] s
  | Qs_cons s op out s' ops outs s'' :
      queue_step s op out s' → queue_steps s' ops outs s'' →
      queue_steps s (op :: ops) (out :: outs) s''.

Lemma offered_prefix b : offered b `prefix_of` contents b.
Proof.
  unfold offered, contents. rewrite <- (take_drop 64 (cvb_chunks b)) at 2.
  rewrite join_app. by apply prefix_app_r.
Qed.

Lemma offered_nonempty b : cvb_wf b → contents b ≠ [] → offered b ≠ [].
Proof.
  unfold offered, contents, cvb_wf. destruct (cvb_chunks b) as [|ch l]; [done|].
  intros [Hch _]%list.Forall_cons _. change (mjoin (take 64 (ch :: l))) with (ch ++ mjoin (take 63 l)).
  by intros [? _]%app_eq_nil.
Qed.

Lemma cvb_read_spec b buf :
  cvb_wf b →
  let n := length (contents b) `min` length buf in
  ∃ b', cvb_read b buf = Ok (n, take n (contents b) ++ drop n buf, b') ∧
    contents b' = drop n (contents b) ∧ cvb_wf b' ∧ cvb_limit b' = cvb_limit b.
Proof.
  intros Hb n. destruct (read_loop_spec (S (length (cvb_chunks b))) b buf 0) as (b' & E & Hc & Hw & Hl);
    [done|lia|lia|].
  exists b'. unfold cvb_read. rewrite E. unfold read_result. rewrite Nat.sub_0_r. cbn [fst snd].
  fold n. split_and!; [| |done|done].
  - unfold splice. rewrite take_0, !Nat.add_0_l. cbn [app]. rewrite length_take.
    by replace (n `min` length (contents b)) with n by lia.
  - rewrite Hc, Nat.sub_0_r. unfold n. destruct (le_lt_dec (length (contents b)) (length buf)).
    + rewrite !drop_ge by lia. done.
    + by rewrite Nat.min_r by lia.
Qed.

Lemma cvb_call_refines op b :
  cvb_wf b → ∃ out b', cvb_call op b = Ok (out, b') ∧ cvb_wf b' ∧
    queue_step (contents b, cvb_limit b) op out (contents b', cvb_limit b').
Proof.
  intros Hb. destruct op as [bytes|bytes|buf|wr| |l| | |]; cbn [cvb_call].
  - exists (Out_nat (length bytes)), (cvb_append b bytes).2.
    split_and!; [done|by apply cvb_append_wf|]. rewrite cvb_append_contents.
    replace (cvb_limit (cvb_append b bytes).2) with (cvb_limit b); [apply Q_append|].
    unfold cvb_append. by case_bool_decide.
  - unfold cvb_append_limited_copy. pose proof (cvb_apply_limit_le b (length bytes)).
    rewrite bool_decide_false by lia.
    set (k := cvb_apply_limit b (length bytes)).
    exists (Out_nat k), (cvb_append b (take k bytes)).2.
    split_and!; [done|by apply cvb_append_wf|]. rewrite cvb_append_contents. unfold k.
    replace (cvb_apply_limit b (length bytes))
      with (room (contents b, cvb_limit b) (length bytes)).
    2: { unfold room, cvb_apply_limit. cbn [fst snd]. by rewrite cvb_len_contents. }
    match goal with |- queue_step _ _ _ (_, cvb_limit ?x) => replace (cvb_limit x) with (cvb_limit b) end.
    + apply Q_append_limited_copy.
    + unfold cvb_append. by case_bool_decide.
  - destruct (cvb_read_spec b buf Hb) as (b' & E & Hc & Hw & Hl). rewrite E.
    eexists _, _. split_and!; [done|done|]. cbn [fst snd]. rewrite Hc, Hl. apply Q_read.
  - unfold cvb_write_to. rewrite cvb_is_empty_contents by done. case_bool_decide as He.
    + eexists _, _. split_and!; [done|done|].
      replace (contents b) with (drop 0 (contents b)) at 2 by done.
      apply Q_write_to; [apply offered_prefix|done|done].
    + destruct (wr (take 64 (cvb_chunks b))) as [n|].
      * eexists _, _. split_and!; [done|by apply cvb_consume_wf|].
        rewrite cvb_consume_contents.
        apply Q_write_to; [apply offered_prefix|by intros; apply offered_nonempty|done].
      * eexists _, _. split_and!; [done|done|]. apply Q_write_fails, offered_prefix.
  - unfold cvb_pop. destruct b as [[|ch chunks] lim].
    + eexists _, _. split_and!; [done|done|]. apply Q_pop_empty.
    + apply list.Forall_cons in Hb as [Hch Hb]. eexists _, _. split_and!; [done|done|].
      by apply (Q_pop ch (mjoin chunks) lim).
  - eexists _, _. split_and!; [done|done|]. apply Q_set_limit.
  - eexists _, _. split_and!; [done|done|]. rewrite cvb_is_empty_contents by done. apply Q_is_empty.
  - eexists _, _. split_and!; [done|done|]. unfold cvb_is_full. rewrite cvb_len_contents.
    apply Q_is_full.
  - eexists _, _. split_and!; [done|done|]. rewrite cvb_len_contents. apply Q_len.
Qed.

Lemma cvb_calls_refine ops b :
  cvb_wf b → ∃ outs b', cvb_calls ops b = Ok (outs, b') ∧ cvb_wf b' ∧
    queue_steps (contents b, cvb_limit b) ops outs (contents b', cvb_limit b').
Proof.
  revert b. induction ops as [|op ops IH]; intros b Hb; cbn [cvb_calls].
  - exists [], b. split_and!; [done|done|constructor].
  - destruct (cvb_call_refines op b Hb) as (out & b1 & E1 & Hb1 & Hs1).
    destruct (IH b1 Hb1) as (outs & b2 & E2 & Hb2 & Hs2).
    exists (out :: outs), b2. rewrite E1. cbn [res_bind snd]. rewrite E2.
    split_and!; [done|done|by econstructor].
Qed.

(** A [ChunkVecBuffer] behaves as a queue of bytes: every sequence of calls
    on a new buffer, with any writers, succeeds, and its results are those of a
    plain byte queue with the same limit: appends at the end, at most as many
    bytes as the limit leaves room for when the copy is limited, reads and
    writes from the front, and nothing lost or repeated. *)
Theorem ChunkVecBuffer_refines_queue limit ops :
  ∃ outs b, cvb_calls ops (ChunkVecBuffer_new limit) = Ok (outs, b) ∧
    queue_steps ([], limit) ops outs (contents b, cvb_limit b).
Proof.
  destruct (cvb_calls_refine ops (ChunkVecBuffer_new limit)) as (outs & b & E & _ & Hs);
    [apply new_contents|]. by exists outs, b.
Qed.
