(* ===== verification/LimitedCache.v ===== *)
(** [LimitedCache] (rustls-0.21.2/rustls/src/limited_cache.rs): a map that
    throws away its oldest insertion to stay within its first allocation.

    [std] leaves open how much a [VecDeque] allocates: the capacity is a field
    of the state, at least the requested one, and [grow] is what a push into a
    full queue makes of it.  The abstract state is an association list in
    insertion order, of which the operations are the textbook ones. *)
From Stdlib Require Import ZArith Lia.
From stdpp Require Import base list numbers option gmap fin_maps.
From S2P Require Import Prelude.

Section limited_cache.
Context {K V : Type} `{Countable K}.
Context (grow : nat → nat).

Record LimitedCache : Type := mkLimitedCache {
  lc_map : gmap K V;
  lc_oldest : list K;
  lc_capacity : nat
}.

(** [with_capacity(n)] allocates [cap] places, [n <= cap]. *)
Definition LimitedCache_new (cap : nat) : LimitedCache := mkLimitedCache ∅ [] cap.

(** [VecDeque::push_back] *)
Definition push_back (c : LimitedCache) (k : K) : LimitedCache :=
  mkLimitedCache (lc_map c) (lc_oldest c ++ [k])
    (if bool_decide (length (lc_oldest c) = lc_capacity c) then grow (lc_capacity c)
     else lc_capacity c).

Definition set_map (c : LimitedCache) (m : gmap K V) : LimitedCache :=
  mkLimitedCache m (lc_oldest c) (lc_capacity c).

(** The end of both insertions: no room is left for the next one. *)
Definition lc_evict (inserted_new_item : bool) (c : LimitedCache) : LimitedCache :=
  if inserted_new_item && bool_decide (lc_capacity c = length (lc_oldest c)) then
    match lc_oldest c with
    | oldest_key :: rest =>
        mkLimitedCache (delete oldest_key (lc_map c)) rest (lc_capacity c)
    | [] => c
    end
  else c.

(** [default] is [V::default()], [edit] works on the value in place. *)
Definition lc_get_or_insert_default_and_edit (default : V) (c : LimitedCache) (k : K)
    (edit : V → V) : LimitedCache :=
  let '(inserted_new_item, c) :=
    match lc_map c !! k with
    | Some value => (false, set_map c (<[k := edit value]> (lc_map c)))
    | None =>
        let c := push_back c k in
        (true, set_map c (<[k := edit default]> (lc_map c)))
    end in
  lc_evict inserted_new_item c.

Definition lc_insert (c : LimitedCache) (k : K) (v : V) : LimitedCache :=
  let '(inserted_new_item, c) :=
    match lc_map c !! k with
    | Some _ => (false, set_map c (<[k := v]> (lc_map c)))
    | None =>
        let c := push_back c k in
        (true, set_map c (<[k := v]> (lc_map c)))
    end in
  lc_evict inserted_new_item c.

Definition lc_get (c : LimitedCache) (k : K) : option V := lc_map c !! k.

(** [get_mut]: the caller writes through the reference. *)
Definition lc_get_mut (c : LimitedCache) (k : K) (edit : V → V) : LimitedCache :=
  set_map c (alter edit k (lc_map c)).

Definition lc_remove (c : LimitedCache) (k : K) : option V * LimitedCache :=
  match lc_map c !! k with
  | Some value =>
      let m := delete k (lc_map c) in
      let oldest := match list_find (λ item, item = k) (lc_oldest c) with
        | Some (index, _) => delete index (lc_oldest c)
        | None => lc_oldest c
        end in
      (Some value, mkLimitedCache m oldest (lc_capacity c))
  | None => (None, c)
  end.

(** * The invariant

    The queue has each key of the map once, and has room for the next key,
    unless nothing was ever allocated. *)
Definition lc_wf (c : LimitedCache) : Prop :=
  NoDup (lc_oldest c) ∧ (∀ k, k ∈ lc_oldest c ↔ is_Some (lc_map c !! k)) ∧
  (length (lc_oldest c) < lc_capacity c ∨ lc_capacity c = 0 ∧ lc_oldest c = []).

(** The association list in insertion order. *)
Definition entries (c : LimitedCache) : list (K * V) :=
  omap (λ k, (k,.) <$> lc_map c !! k) (lc_oldest c).

(** ** The specification on association lists *)

Fixpoint al_lookup (k : K) (l : list (K * V)) : option V :=
  match l with
  | [] => None
  | (k', v) :: l' => if decide (k' = k) then Some v else al_lookup k l'
  end.

Definition al_update (f : V → V) (k : K) (l : list (K * V)) : list (K * V) :=
  (λ p, if decide (p.1 = k) then (p.1, f p.2) else p) <$> l.

Definition al_remove (k : K) (l : list (K * V)) : list (K * V) :=
  filter (λ p, p.1 ≠ k) l.

(** Update in place, or append and drop the oldest when [cap] is reached. *)
Definition al_insert (cap : nat) (f : option V → V) (k : K) (l : list (K * V))
    : list (K * V) :=
  match al_lookup k l with
  | Some _ => al_update (λ v, f (Some v)) k l
  | None =>
      let l := l ++ [(k, f None)] in
      if bool_decide (length l = cap) then tail l else l
  end.

(** * Laws *)

Lemma entries_ext (m m' : gmap K V) ks cap cap' :
  (∀ k, k ∈ ks → m !! k = m' !! k) →
  entries (mkLimitedCache m ks cap) = entries (mkLimitedCache m' ks cap').
Proof.
  unfold entries. cbn [lc_map lc_oldest]. induction ks as [|k ks IH]; intros Hm; [done|].
  cbn [omap list_omap]. rewrite (Hm k) by constructor.
  by rewrite IH by (intros; apply Hm; by constructor).
Qed.

Lemma omap_cons {A B} (f : A → option B) x l y :
  f x = Some y → omap f (x :: l) = y :: omap f l.
Proof. intros E. cbn. by rewrite E. Qed.

Lemma entries_cons m k ks cap v :
  m !! k = Some v →
  entries (mkLimitedCache m (k :: ks) cap) = (k, v) :: entries (mkLimitedCache m ks cap).
Proof. intros E. unfold entries. cbn [lc_map lc_oldest]. by apply omap_cons; rewrite E. Qed.

Lemma entries_snoc m ks cap k v :
  m !! k = Some v →
  entries (mkLimitedCache m (ks ++ [k]) cap) = entries (mkLimitedCache m ks cap) ++ [(k, v)].
Proof.
  intros E. unfold entries. cbn [lc_map lc_oldest]. rewrite omap_app. f_equal.
  cbn. by rewrite E.
Qed.

Lemma entries_keys c : lc_wf c → (entries c).*1 = lc_oldest c.
Proof.
  intros (_ & Hd & _). destruct c as [m ks cap]. unfold entries. cbn [lc_map lc_oldest] in *.
  assert (Hs : ∀ k, k ∈ ks → is_Some (m !! k)) by (intros k; apply Hd). clear Hd.
  induction ks as [|k ks IH]; [done|]. destruct (Hs k) as [v Hv]; [constructor|].
  erewrite (omap_cons _ k) by (by rewrite Hv). cbn. f_equal. apply IH.
  intros k' Hk'. apply Hs. by constructor.
Qed.

Lemma entries_length c : lc_wf c → length (entries c) = length (lc_oldest c).
Proof. intros Hc. rewrite <- (entries_keys c Hc). by rewrite length_fmap. Qed.

Lemma entries_lookup c k : lc_wf c → al_lookup k (entries c) = lc_map c !! k.
Proof.
  intros (Hnd & Hd & _). destruct c as [m ks cap]. unfold entries. cbn [lc_map lc_oldest] in *.
  assert (Hs : ∀ k, k ∈ ks → is_Some (m !! k)) by (intros k'; apply Hd).
  destruct (decide (k ∈ ks)) as [Hin|Hni].
  - clear Hd Hnd. induction ks as [|k' ks IH]; [by apply not_elem_of_nil in Hin|].
    destruct (Hs k') as [v Hv]; [constructor|].
    erewrite (omap_cons _ k') by (by rewrite Hv). cbn [al_lookup].
    case_decide as E; [by rewrite <- E, Hv|]. apply elem_of_cons in Hin as [Hin|Hin]; [congruence|].
    apply IH; try done. intros; apply Hs; by constructor.
  - assert (m !! k = None) as ->.
    { apply eq_None_not_Some. by rewrite <- Hd. }
    clear Hd Hnd. induction ks as [|k' ks IH]; [done|].
    apply not_elem_of_cons in Hni as [Hne Hni].
    destruct (Hs k') as [v Hv]; [constructor|].
    erewrite (omap_cons _ k') by (by rewrite Hv). cbn [al_lookup].
    rewrite decide_False by done. apply IH; try done. intros; apply Hs; by constructor.
Qed.

Lemma entries_update f m ks cap k old :
  m !! k = Some old →
  entries (mkLimitedCache (<[k := f old]> m) ks cap) = al_update f k (entries (mkLimitedCache m ks cap)).
Proof.
  intros Hk. unfold entries. cbn [lc_map lc_oldest]. induction ks as [|k' ks IH]; [done|].
  destruct (decide (k' = k)) as [->|Hne].
  - cbn [omap list_omap]. rewrite lookup_insert_eq, Hk. cbn.
    rewrite decide_True by done. f_equal. exact IH.
  - cbn [omap list_omap]. rewrite lookup_insert_ne by done.
    destruct (m !! k') as [v|]; cbn; [|exact IH].
    rewrite decide_False by done. f_equal. exact IH.
Qed.

Lemma entries_absent c k :
  lc_wf c → lc_map c !! k = None → k ∉ lc_oldest c.
Proof. intros (_ & Hd & _) Hn Hin%Hd. rewrite Hn in Hin. by destruct Hin. Qed.

(** The capacity once a key has been pushed. *)
Definition capacity_after (c : LimitedCache) : nat :=
  if bool_decide (lc_capacity c = 0) then grow 0 else lc_capacity c.

Context (Hgrow : ∀ n, n < grow n).

Lemma push_capacity c :
  lc_wf c → (if bool_decide (length (lc_oldest c) = lc_capacity c) then grow (lc_capacity c)
     else lc_capacity c) = capacity_after c ∧ length (lc_oldest c) < capacity_after c.
Proof.
  intros (_ & _ & Hcap). unfold capacity_after. pose proof (Hgrow 0).
  destruct Hcap as [Hlt|[E0 E1]].
  - rewrite !bool_decide_false by lia. done.
  - rewrite E0, E1. done.
Qed.

Lemma lc_insert_new_wf c k v :
  lc_wf c → lc_map c !! k = None →
  NoDup (lc_oldest c ++ [k]) ∧
  ∀ k', k' ∈ lc_oldest c ++ [k] ↔ is_Some (<[k := v]> (lc_map c) !! k').
Proof.
  intros Hc Hk. pose proof (entries_absent _ _ Hc Hk). destruct Hc as (Hnd & Hd & _).
  split.
  - apply list.NoDup_app. split_and!; [done| |apply list.NoDup_singleton].
    intros x Hx Hx'%list_elem_of_singleton. by subst.
  - intros k'. rewrite elem_of_app, list_elem_of_singleton, Hd.
    destruct (decide (k' = k)) as [->|Hne].
    + rewrite lookup_insert_eq. naive_solver.
    + rewrite lookup_insert_ne by done. naive_solver.
Qed.

Lemma lc_insert_spec c k v :
  lc_wf c →
  lc_wf (lc_insert c k v) ∧
  entries (lc_insert c k v) = al_insert (capacity_after c) (λ _, v) k (entries c) ∧
  capacity_after (lc_insert c k v) = capacity_after c.
Proof.
  intros Hc. unfold lc_insert, al_insert. rewrite entries_lookup by done.
  destruct (lc_map c !! k) as [old|] eqn:Hk.
  - unfold lc_evict, set_map. cbn [andb]. destruct c as [m ks cap]; cbn [lc_map lc_oldest lc_capacity] in *.
    split_and!; [|by apply (entries_update (λ _, v) m ks cap k old)|done].
    destruct Hc as (Hnd & Hd & Hcap). split_and!; [done| |done]. cbn [lc_map lc_oldest] in *.
    intros k'. rewrite Hd. destruct (decide (k' = k)) as [->|Hne].
    + rewrite lookup_insert_eq, Hk. naive_solver.
    + by rewrite lookup_insert_ne by done.
  - destruct (lc_insert_new_wf c k v Hc Hk) as [Hnd Hd].
    destruct (push_capacity c Hc) as [Ecap Hlt].
    pose proof (entries_absent _ _ Hc Hk) as Hni.
    assert (Hpos : capacity_after c ≠ 0) by lia.
    unfold push_back, set_map. cbn [lc_map lc_oldest lc_capacity]. rewrite Ecap.
    assert (Ee : ∀ cap, entries (mkLimitedCache (<[k:=v]> (lc_map c)) (lc_oldest c ++ [k]) cap)
      = entries c ++ [(k, v)]).
    { intros cap. rewrite (entries_snoc _ _ _ _ v) by apply lookup_insert_eq. f_equal.
      destruct c as [m ks cap']. apply entries_ext. intros k' Hk'. cbn [lc_map lc_oldest] in *.
      apply lookup_insert_ne. intros ->. done. }
    unfold lc_evict. cbn [andb lc_map lc_oldest lc_capacity].
    rewrite !length_app, entries_length by done. cbn [length].
    destruct (decide (capacity_after c = length (lc_oldest c) + 1)) as [Efull|Eroom].
    + rewrite !bool_decide_true by done.
      destruct (lc_oldest c ++ [k]) as [|o rest] eqn:Eo; [by destruct (lc_oldest c)|].
      destruct (proj1 (Hd o)) as [vo Hvo]; [constructor|].
      rewrite <- (Ee (capacity_after c)), (entries_cons _ _ _ _ vo) by done. cbn [tail].
      apply list.NoDup_cons in Hnd as [Hor Hnd].
      assert (Hlen : length rest = length (lc_oldest c)).
      { apply (f_equal length) in Eo. rewrite length_app in Eo. cbn in Eo. lia. }
      split_and!.
      * split_and!; cbn [lc_map lc_oldest lc_capacity]; [done| |left; lia].
        intros k'. destruct (decide (k' = o)) as [->|Hne].
        { rewrite lookup_delete_eq. split; [done|by intros []]. }
        rewrite lookup_delete_ne by done. rewrite <- Hd, elem_of_cons. naive_solver.
      * apply entries_ext. intros k' Hk'. apply lookup_delete_ne. intros ->. done.
      * unfold capacity_after at 1. cbn [lc_capacity]. by rewrite bool_decide_false.
    + rewrite !bool_decide_false by lia. split_and!.
      * split_and!; cbn [lc_map lc_oldest lc_capacity]; [done|done|].
        left. rewrite length_app. cbn. lia.
      * apply Ee.
      * unfold capacity_after at 1. cbn [lc_capacity]. by rewrite bool_decide_false.
Qed.

(** Editing in place is an insertion of the edited value. *)
Lemma get_or_insert_as_insert default c k edit :
  lc_get_or_insert_default_and_edit default c k edit
  = lc_insert c k (edit (match lc_map c !! k with Some v => v | None => default end)).
Proof.
  unfold lc_get_or_insert_default_and_edit, lc_insert. by destruct (lc_map c !! k).
Qed.

Lemma lc_get_mut_spec c k edit :
  lc_wf c → lc_wf (lc_get_mut c k edit) ∧
  entries (lc_get_mut c k edit) = al_update edit k (entries c).
Proof.
  intros Hc. unfold lc_get_mut, set_map. destruct c as [m ks cap]. cbn [lc_map lc_oldest lc_capacity].
  split.
  - destruct Hc as (Hnd & Hd & Hcap). split_and!; [done| |done]. cbn [lc_map lc_oldest] in *.
    intros k'. rewrite Hd. destruct (decide (k' = k)) as [->|Hne].
    + rewrite lookup_alter_eq. by rewrite fmap_is_Some.
    + by rewrite lookup_alter_ne.
  - destruct (m !! k) as [old|] eqn:Hk.
    + rewrite <- (entries_update edit m ks cap k old Hk). apply entries_ext.
      intros k' _. destruct (decide (k' = k)) as [->|Hne].
      * by rewrite lookup_alter_eq, lookup_insert_eq, Hk.
      * by rewrite lookup_alter_ne, lookup_insert_ne.
    + rewrite (entries_ext _ m ks cap cap).
      2: { intros k' _. destruct (decide (k' = k)) as [->|Hne];
           [by rewrite lookup_alter_eq, Hk|by rewrite lookup_alter_ne]. }
      symmetry. unfold al_update. rewrite <- (list_fmap_id (entries _)) at 2.
      apply list_fmap_ext. intros i [k' v'] Hi. cbn [fst].
      rewrite decide_False; [done|]. intros ->.
      pose proof (entries_keys _ Hc) as Hkeys.
      apply (entries_absent _ k Hc Hk). rewrite <- Hkeys.
      apply list_elem_of_fmap. exists (k, v'). split; [done|]. by eapply list_elem_of_lookup_2.
Qed.

Lemma filter_absent (k : K) (ks : list K) : k ∉ ks → filter (λ x, x ≠ k) ks = ks.
Proof.
  induction ks as [|x ks IH]; intros Hni; [done|].
  apply not_elem_of_cons in Hni as [Hne Hni]. rewrite filter_cons_True by congruence.
  by rewrite IH.
Qed.

Lemma remove_key (k : K) (ks : list K) :
  NoDup ks →
  match list_find (λ item, item = k) ks with Some (index, _) => delete index ks | None => ks end
  = filter (λ x, x ≠ k) ks.
Proof.
  induction ks as [|x ks IH]; intros Hnd; [done|].
  apply list.NoDup_cons in Hnd as [Hni Hnd]. specialize (IH Hnd). cbn [list_find].
  destruct (decide (x = k)) as [->|Hne].
  - rewrite filter_cons_False by naive_solver. by rewrite filter_absent.
  - rewrite filter_cons_True by done. rewrite <- IH.
    by destruct (list_find _ ks) as [[i y]|].
Qed.

Lemma entries_remove k m ks cap cap' :
  entries (mkLimitedCache (delete k m) (filter (λ x, x ≠ k) ks) cap)
  = al_remove k (entries (mkLimitedCache m ks cap')).
Proof.
  unfold entries, al_remove. cbn [lc_map lc_oldest]. induction ks as [|x ks IH]; [done|].
  destruct (decide (x = k)) as [->|Hne].
  - rewrite filter_cons_False by naive_solver. rewrite IH. cbn [omap list_omap].
    destruct (m !! k); cbn [fmap option_fmap option_map]; [|done].
    by rewrite filter_cons_False by naive_solver.
  - rewrite filter_cons_True by done. cbn [omap list_omap].
    rewrite lookup_delete_ne by done.
    destruct (m !! x); cbn [fmap option_fmap option_map]; [|exact IH].
    rewrite filter_cons_True by done. f_equal. exact IH.
Qed.

Lemma lc_remove_spec c k :
  lc_wf c → lc_wf (lc_remove c k).2 ∧
  (lc_remove c k).1 = al_lookup k (entries c) ∧
  entries (lc_remove c k).2 = al_remove k (entries c) ∧
  lc_capacity (lc_remove c k).2 = lc_capacity c.
Proof.
  intros Hc. rewrite entries_lookup by done. unfold lc_remove.
  destruct (lc_map c !! k) as [v|] eqn:Hk; cbn [fst snd].
  - destruct c as [m ks cap]. cbn [lc_map lc_oldest lc_capacity] in *.
    destruct Hc as (Hnd & Hd & Hcap). cbn [lc_map lc_oldest lc_capacity] in *.
    rewrite remove_key by done. split_and!; [|done|apply entries_remove|done].
    split_and!; cbn [lc_map lc_oldest lc_capacity].
    + by apply NoDup_filter.
    + intros k'. rewrite list_elem_of_filter, Hd. destruct (decide (k' = k)) as [->|Hne].
      * rewrite lookup_delete_eq. split; [naive_solver|by intros []].
      * rewrite lookup_delete_ne by done. naive_solver.
    + destruct Hcap as [Hcap|[-> ->]]; [left|by right].
      eapply Nat.le_lt_trans; [apply length_filter|done].
  - split_and!; try done. unfold al_remove. symmetry.
    pose proof (entries_absent c k Hc Hk) as Hni. rewrite <- (entries_keys c Hc) in Hni.
    induction (entries c) as [|[k' v'] l IH]; [done|].
    cbn in Hni. apply not_elem_of_cons in Hni as [Hne Hni].
    rewrite filter_cons_True by (cbn; congruence). by rewrite IH.
Qed.

(** ** The refinement *)

Inductive lc_op : Type :=
  | L_insert (k : K) (v : V)
  | L_get_or_insert_default_and_edit (default : V) (k : K) (edit : V → V)
  | L_get (k : K)
  | L_get_mut (k : K) (edit : V → V)
  | L_remove (k : K).

Definition lc_call (op : lc_op) (c : LimitedCache) : option V * LimitedCache :=
  match op with
  | L_insert k v => (None, lc_insert c k v)
  | L_get_or_insert_default_and_edit d k edit =>
      (None, lc_get_or_insert_default_and_edit d c k edit)
  | L_get k => (lc_get c k, c)
  | L_get_mut k edit => (None, lc_get_mut c k edit)
  | L_remove k => lc_remove c k
  end.

Definition al_call (cap : nat) (op : lc_op) (l : list (K * V)) : option V * list (K * V) :=
  match op with
  | L_insert k v => (None, al_insert cap (λ _, v) k l)
  | L_get_or_insert_default_and_edit d k edit =>
      (None, al_insert cap (λ o, edit (match o with Some v => v | None => d end)) k l)
  | L_get k => (al_lookup k l, l)
  | L_get_mut k edit => (None, al_update edit k l)
  | L_remove k => (al_lookup k l, al_remove k l)
  end.

Fixpoint lc_calls (ops : list lc_op) (c : LimitedCache) : list (option V) * LimitedCache :=
  match ops with
  | [] => ([], c)
  | op :: ops' =>
      let '(out, c) := lc_call op c in
      let '(outs, c) := lc_calls ops' c in (out :: outs, c)
  end.

Fixpoint al_calls (cap : nat) (ops : list lc_op) (l : list (K * V))
    : list (option V) * list (K * V) :=
  match ops with
  | [] => ([], l)
  | op :: ops' =>
      let '(out, l) := al_call cap op l in
      let '(outs, l) := al_calls cap ops' l in (out :: outs, l)
  end.

Lemma al_update_ext f g k (l : list (K * V)) :
  NoDup l.*1 → (∀ v, al_lookup k l = Some v → f v = g v) → al_update f k l = al_update g k l.
Proof.
  induction l as [|[k' v] l IH]; intros Hnd Hfg; [done|]. unfold al_update in *.
  apply list.NoDup_cons in Hnd as [Hni Hnd]. rewrite !fmap_cons. cbn [fst snd al_lookup] in *.
  destruct (decide (k' = k)) as [->|Hne].
  - rewrite Hfg by done. f_equal. apply list_fmap_ext. intros i [k' v'] Hi. cbn [fst snd].
    rewrite !decide_False; [done| |];
      intros ->; apply Hni, list_elem_of_fmap; exists (k, v');
      (split; [done|by eapply list_elem_of_lookup_2]).
  - f_equal. by apply IH.
Qed.

Lemma lc_call_refines op c :
  lc_wf c → lc_wf (lc_call op c).2 ∧
  ((lc_call op c).1, entries (lc_call op c).2) = al_call (capacity_after c) op (entries c) ∧
  capacity_after (lc_call op c).2 = capacity_after c.
Proof.
  intros Hc. destruct op as [k v|d k edit|k|k edit|k]; cbn [lc_call al_call fst snd].
  - destruct (lc_insert_spec c k v Hc) as (Hw & E & Hcap). by rewrite E.
  - rewrite get_or_insert_as_insert.
    destruct (lc_insert_spec c k (edit (match lc_map c !! k with Some v => v | None => d end)) Hc)
      as (Hw & E & Hcap).
    split_and!; [done| |done]. rewrite E. f_equal. unfold al_insert.
    rewrite entries_lookup by done. destruct (lc_map c !! k) as [v|] eqn:Hk; [|done].
    apply al_update_ext; [rewrite entries_keys by done; apply Hc|].
    intros v'. rewrite entries_lookup, Hk by done. by intros [= <-].
  - split_and!; [done| |done]. by rewrite entries_lookup.
  - destruct (lc_get_mut_spec c k edit Hc) as [Hw E]. by rewrite E.
  - destruct (lc_remove_spec c k Hc) as (Hw & E1 & E2 & E3). split_and!; [done| |].
    + by rewrite E1, E2.
    + unfold capacity_after. by rewrite E3.
Qed.

Lemma lc_calls_refine ops c :
  lc_wf c → lc_wf (lc_calls ops c).2 ∧
  ((lc_calls ops c).1, entries (lc_calls ops c).2) = al_calls (capacity_after c) ops (entries c) ∧
  capacity_after (lc_calls ops c).2 = capacity_after c.
Proof.
  revert c. induction ops as [|op ops IH]; intros c Hc; [done|]. cbn [lc_calls al_calls].
  destruct (lc_call_refines op c Hc) as (Hw & E & Hcap).
  destruct (lc_call op c) as [out c1]. cbn [fst snd] in *. rewrite <- E.
  destruct (IH c1 Hw) as (Hw' & E' & Hcap'). rewrite Hcap in *.
  destruct (lc_calls ops c1) as [outs c2]. cbn [fst snd] in *. by rewrite <- E'.
Qed.

(** A cache never holds as many entries as it has places. *)
Lemma lc_size c : lc_wf c → size (lc_map c) < capacity_after c.
Proof.
  intros Hc. destruct (push_capacity c Hc) as [_ Hlt].
  destruct Hc as (Hnd & Hd & _).
  assert (E : dom (lc_map c) = list_to_set (C := gset K) (lc_oldest c)).
  { apply set_eq. intros k. by rewrite elem_of_dom, elem_of_list_to_set, Hd. }
  rewrite <- size_dom, E, size_list_to_set by done. done.
Qed.
End limited_cache.

(** A [LimitedCache] is a first-in first-out cache.  Every sequence of calls
    gives the results of an association list in insertion order that updates in
    place, does not freshen an entry, and drops the oldest entry when an
    insertion would fill the allocation; and the map never holds as many
    entries as were allocated. *)
Theorem LimitedCache_refines_fifo {K V : Type} `{Countable K} (grow : nat → nat)
    (Hgrow : ∀ n, n < grow n) (cap : nat) (ops : list lc_op) :
  let c := (lc_calls grow ops (LimitedCache_new cap)).2 in
  let places := if bool_decide (cap = 0) then grow 0 else cap in
  ((lc_calls grow ops (LimitedCache_new (V := V) cap)).1, entries c)
    = al_calls places ops [] ∧
  size (lc_map c) < places ∧ ∀ k : K, lc_get c k = al_lookup k (entries c).
Proof.
  assert (Hw : lc_wf (LimitedCache_new (K := K) (V := V) cap)).
  { split; [constructor|]. split; [|cbn; destruct cap; [by right|left; lia]]. intros k. cbn [lc_oldest lc_map LimitedCache_new].
    rewrite lookup_empty. split; [by intros ?%not_elem_of_nil|by intros []]. }
  destruct (lc_calls_refine grow Hgrow ops _ Hw) as (Hw' & E & Ecap).
  split_and!; [exact E| |].
  - pose proof (lc_size grow Hgrow _ Hw') as Hs. by rewrite Ecap in Hs.
  - intros k. by rewrite entries_lookup.
Qed.

Lemma LimitedCache_refines_fifo_witness :
  (lc_calls (λ n, 2 * n + 4)
    [L_insert 1 10; L_insert 2 20; L_get 1; L_insert 3 30; L_get 1; L_get 3] (LimitedCache_new 3)).1
  = [None; None; Some 10; None; None; Some 30] ∧
  size (lc_map (lc_calls (V := nat) (λ n, 2 * n + 4) [L_insert 1 10; L_insert 2 20; L_insert 3 30]
    (LimitedCache_new 3)).2) < 3.
Proof.
  split; [vm_compute; reflexivity|].
  apply (LimitedCache_refines_fifo (K := nat) (V := nat) (λ n, 2 * n + 4) ltac:(intros; cbv beta; lia) 3
    [L_insert 1 10; L_insert 2 20; L_insert 3 30]).
Defined.
