(* ===== verification/TlsProperties.v ===== *)
(** What the message layer of rustls promises: the theorems about encoders,
    decoders, framing and fragmentation, each from the laws of its component. *)
From Stdlib Require Import ZArith Lia Strings.Byte String.
From stdpp Require Import base list numbers option.
From S2P Require Import Prelude.
From S2P Require Import Codec.
From S2P Require Import TlsEnums.
From S2P Require Import TlsBase.
From S2P Require Import TlsExtensions.
From S2P Require Import TlsHandshake.
From S2P Require Import TlsQueries.
From S2P Require Import TlsError.
From S2P Require Import TlsMessage.
From S2P Require Import Fragmenter.
Open Scope rust_scope.

(** A web PKI for the examples: every string is a name. *)
Definition any_name : WebPki :=
  {| DnsName := list byte; dns_try_from_ascii := Some; dns_str := id |}.

(** * Codecs *)

(** A list codec is as good as its elements' codec.  Whatever the element
    type, if its encodings delimit themselves and take a byte at least, a list
    whose body fits its length prefix is read back, in order and complete, and
    the reader stops right behind it. *)
Theorem Vec_roundtrip {A : Type} `{Codec A} `{!CodecOk A} `{!TlsListElement A}
    (Hel : ListElementOk A) (Hde : Delimited A) (l : list A) (tl : list byte)
    (Hwf : Forall codec_wf l) (Hlen : length (Vec_body l) ≤ max_body (SIZE_LEN (A := A))) :
  Vec_read (Reader_init (Vec_encode l [] ++ tl))
  = (Ok l, mkReader (Vec_encode l [] ++ tl) (length (Vec_encode l []))).
Proof.
  exact (read_delimited l (conj Hwf Hlen) (Vec_encode l [] ++ tl) 0 tl ltac:(lia) eq_refl).
Qed.

Lemma Vec_roundtrip_witness :
  let l : list Sct := [mkWrapped (mkPayloadU16 [x01]); mkWrapped (mkPayloadU16 [])] in
  Vec_encode l [] = [x00; x05; x00; x01; x01; x00; x00] ∧
  Vec_read (Reader_init (Vec_encode l [] ++ [xff]))
  = (Ok l, mkReader (Vec_encode l [] ++ [xff]) (length (Vec_encode l []))).
Proof.
  split; [vm_compute; reflexivity|].
  apply (Vec_roundtrip (A := Sct) _ _ [mkWrapped (mkPayloadU16 [x01]); mkWrapped (mkPayloadU16 [])]
    [xff]).
  - repeat constructor.
  - change (5 ≤ Z.to_nat 65535). lia.
Defined.

(** Reading a list stops.  On any input, with any element codec that is safe
    and takes a byte per element, the loop over the elements runs out of input
    before it runs out of rounds, the result is a value or an error, never a
    panic, and the cursor stays within the buffer. *)
Theorem Vec_read_terminates {A : Type} `{Codec A} `{!CodecOk A} `{!TlsListElement A}
    (Hel : ListElementOk A) (bytes : list byte) :
  let '(result, r) := Vec_read (A := A) (Reader_init bytes) in
  returned result ∧ buffer r = bytes ∧ cursor r ≤ length bytes.
Proof.
  pose proof (Vec_read_safe (A := A) (Reader_init bytes) ltac:(unfold Reader_wf; cbn; lia)) as Hs.
  destruct (Vec_read (Reader_init bytes)) as [[l|e| |] r]; cbn in Hs; destruct Hs as (Hr & Hb & Hc);
    try done; split_and!; try done; lia.
Qed.

Lemma Vec_read_terminates_witness :
  let '(result, r) := Vec_read (A := Sct) (Reader_init [x00; x03; x00; x09; xaa]) in
  returned result ∧ buffer r = [x00; x03; x00; x09; xaa] ∧
    cursor r ≤ length [x00; x03; x00; x09; xaa].
Proof. exact (Vec_read_terminates (A := Sct) _ [x00; x03; x00; x09; xaa]). Defined.

(** The enums of the protocol lose nothing.  For every enum that the macro
    builds, decoding any wire value and encoding it again gives the same bytes,
    named or not, and a decoded value is read back as itself. *)
Theorem enum_wire_roundtrip {T : Type} `{EnumBuilder T} (Hok : EnumBuilderOk T)
    (bs tl : list byte) (Hlen : length bs = enum_bytes (enum_width (T := T))) :
  ∃ e : T, enum_read (Reader_init (bs ++ tl)) = (Ok e, mkReader (bs ++ tl) (length bs)) ∧
    enum_encode e [] = bs ∧ codec_wf e.
Proof.
  exists (enum_from (from_be bs)).
  assert (Hwf : enum_wf (enum_from (T := T) (from_be bs))).
  { apply enum_from_wf. rewrite <- Hlen. apply from_be_range. }
  assert (E : enum_encode (enum_from (T := T) (from_be bs)) [] = bs).
  { rewrite enum_encode_eq, get_val_from, <- Hlen. apply to_from_be. }
  split_and!; [|done|done].
  pose proof (enum_delimited (T := T) _ Hwf (bs ++ tl) 0 tl ltac:(lia)) as Hr.
  change (get_encoding ?e) with (enum_encode e []) in Hr. rewrite E in Hr. by apply Hr.
Qed.

Lemma enum_wire_roundtrip_witness :
  ∃ e : CipherSuite, enum_read (Reader_init ([x13; x01] ++ [x00]))
    = (Ok e, mkReader ([x13; x01] ++ [x00]) 2) ∧ enum_encode e [] = [x13; x01] ∧ codec_wf e.
Proof. apply (enum_wire_roundtrip (T := CipherSuite) _ [x13; x01] [x00]). reflexivity. Defined.

(** Every extension is read back as it was written, whatever follows it: the
    extensions of ClientHello, ServerHello, HelloRetryRequest, Certificate,
    CertificateRequest and NewSessionTicket, for every kind the decoders tell
    apart and for the ones they keep as unknown. *)
Theorem extensions_roundtrip `{WebPki} :
  (∀ x : ClientExtension, ClientExtension_wf x →
     reads ClientExtension_read x (ClientExtension_encode x [])) ∧
  (∀ x : ServerExtension, ServerExtension_wf x →
     reads ServerExtension_read x (ServerExtension_encode x [])) ∧
  (∀ x : HelloRetryExtension, HelloRetryExtension_wf x →
     reads HelloRetryExtension_read x (HelloRetryExtension_encode x [])) ∧
  (∀ x : CertificateExtension, CertificateExtension_wf x →
     reads CertificateExtension_read x (CertificateExtension_encode x [])) ∧
  (∀ x : CertReqExtension, CertReqExtension_wf x →
     reads CertReqExtension_read x (CertReqExtension_encode x [])) ∧
  (∀ x : NewSessionTicketExtension, NewSessionTicketExtension_wf x →
     reads NewSessionTicketExtension_read x (NewSessionTicketExtension_encode x [])).
Proof.
  split_and!; intros x Hx.
  - exact (ClientExtension_delimited x Hx).
  - exact (ServerExtension_delimited x Hx).
  - exact (HelloRetryExtension_delimited x Hx).
  - exact (CertificateExtension_delimited x Hx).
  - exact (CertReqExtension_delimited x Hx).
  - exact (NewSessionTicketExtension_delimited x Hx).
Qed.

Lemma extensions_roundtrip_witness :
  let x := SE_Protocols (from_slices [[x68; x32]]) in
  ServerExtension_encode x [] = [x00; x10; x00; x05; x00; x03; x02; x68; x32] ∧
  reads ServerExtension_read x (ServerExtension_encode x []).
Proof.
  split; [vm_compute; reflexivity|].
  apply (proj1 (proj2 (extensions_roundtrip (H := any_name)))). split; [vm_compute; reflexivity|].
  split; [repeat constructor|]. change (3 ≤ Z.to_nat 65535). lia.
Defined.

(** * Handshake messages *)

(** C6: What is read of a handshake message that was written, under every protocol
    version and whatever follows it on the wire, is given by [message_read]; and the
    reader stops right after the message, whether it is accepted or not.  The message
    comes back as it was written, a HelloRetryRequest included, which travels as a
    ServerHello, with four exceptions: the parameters of a key exchange come back
    unparsed; and a ClientHello without extensions, a CertificateRequest without
    signature schemes and a MessageHash are written but refused, each with its error.
    [HandshakeMessagePayload_fits] has the conditions: the type is the payload's, in the
    form of that version; the fields fit their length prefixes, each in the form that its
    decoder gives (no known value held as unknown, a server name that parses as a host
    name, no empty ticket or list of schemes); a ServerHello does not have the random that
    marks a HelloRetryRequest; and the payload is shorter than 2^24 bytes. *)
Theorem handshake_message_roundtrip `{WebPki} (vers : ProtocolVersion)
    (x : HandshakeMessagePayload) (tl : list byte) (Hfits : HandshakeMessagePayload_fits vers x) :
  HandshakeMessagePayload_read_version vers
    (Reader_init (HandshakeMessagePayload_encode x [] ++ tl))
  = (message_read x, mkReader (HandshakeMessagePayload_encode x [] ++ tl)
       (length (HandshakeMessagePayload_encode x []))).
Proof. by apply message_read_back. Qed.

Lemma handshake_message_roundtrip_witness :
  let hrr := mkHelloRetryRequest ProtocolVersion.TLSv1_2 SessionId_empty
    CipherSuite.TLS13_AES_128_GCM_SHA256
    [HRE_KeyShare NamedGroup.X25519; HRE_SupportedVersions ProtocolVersion.TLSv1_3] in
  let x := mkHandshakeMessagePayload HandshakeType.HelloRetryRequest (HP_HelloRetryRequest hrr) in
  let y := build_handshake_hash [x01; x02] in
  let reads_as x r := HandshakeMessagePayload_read_version (H := any_name) ProtocolVersion.TLSv1_3
    (Reader_init (HandshakeMessagePayload_encode x [] ++ [x0b]))
    = (r, mkReader (HandshakeMessagePayload_encode x [] ++ [x0b]) (length (HandshakeMessagePayload_encode x []))) in
  reads_as x (Ok x) ∧ reads_as y (Err (UnexpectedMessage "MessageHash")).
Proof.
  split; [|apply (handshake_message_roundtrip (H := any_name)); split; [reflexivity|vm_compute; reflexivity]].
  apply (handshake_message_roundtrip (H := any_name)).
  split; [split; [reflexivity|]|vm_compute; reflexivity].
  unfold HelloRetryRequest_wf. cbn [hrr_legacy_version hrr_session_id hrr_cipher_suite hrr_extensions].
  split_and!; try enum_wf_tac.
  - change (SessionId_wf SessionId_empty). split_and!; [cbn; lia|reflexivity|reflexivity].
  - split; [|change (12 ≤ Z.to_nat 65535); lia].
    constructor; [|constructor; [|constructor]]; (split; [vm_compute; reflexivity|enum_wf_tac]).
Defined.

(** Decoding a handshake message is total.  On every byte string and under
    every version the decoder returns a message or an error, without a panic and
    without an endless loop, and never reads outside its input. *)
Theorem read_version_total `{WebPki} (vers : ProtocolVersion) (bytes : list byte) :
  let '(result, r) := HandshakeMessagePayload_read_version vers (Reader_init bytes) in
  returned result ∧ buffer r = bytes ∧ cursor r ≤ length bytes.
Proof.
  pose proof (read_version_safe vers (Reader_init bytes) ltac:(unfold Reader_wf; cbn; lia)) as Hs.
  destruct (HandshakeMessagePayload_read_version vers (Reader_init bytes)) as [result r].
  cbn in Hs. destruct Hs as (? & ? & ?). split_and!; [done|done|lia].
Qed.

(** An ECDHE key exchange survives the two steps it is decoded in: the
    handshake decoder keeps it opaque, and [unwrap_given_kxa] reads it once the
    cipher suite is known; for any other key exchange it gives nothing. *)
Theorem key_exchange_roundtrip (x : ECDHEServerKeyExchange) (kxa : KeyExchangeAlgorithm)
    (Hwf : ECDHEServerKeyExchange_wf x) :
  ServerKeyExchangePayload_unwrap_given_kxa
    (SKE_Unknown (mkPayload (ServerKeyExchangePayload_encode (SKE_ECDHE x) []))) kxa
  = match kxa with ECDHE => Some x | _ => None end.
Proof.
  unfold ServerKeyExchangePayload_unwrap_given_kxa, Reader_init. cbn [Payload_0].
  destruct kxa; try done.
  pose proof (read_delimited x Hwf (get_encoding x) 0 [] ltac:(lia) ltac:(by rewrite app_nil_r)) as Hr.
  change (ServerKeyExchangePayload_encode (SKE_ECDHE x) []) with (get_encoding x).
  rewrite Hr. unfold Reader_any_left. cbn [cursor buffer].
  by rewrite bool_decide_false by lia.
Qed.

Lemma key_exchange_roundtrip_witness :
  let x := mkECDHEServerKeyExchange
    (mkServerECDHParams (mkECParameters ECCurveType.NamedCurve NamedGroup.X25519)
      (mkPayloadU8 [x01; x02]))
    (mkDigitallySignedStruct SignatureScheme.ED25519 (mkPayloadU16 [x03])) in
  ServerKeyExchangePayload_unwrap_given_kxa
    (SKE_Unknown (mkPayload (ServerKeyExchangePayload_encode (SKE_ECDHE x) []))) ECDHE = Some x.
Proof.
  apply (key_exchange_roundtrip _ ECDHE).
  unfold ECDHEServerKeyExchange_wf. cbn [ske_params ske_dss].
  repeat split; try enum_wf_tac; vm_compute; try congruence; reflexivity.
Defined.

(** * Queries on hello messages *)

(** [has_duplicate_extension] means what it says: on extensions as a decoder
    makes them, it holds exactly if two extensions have one type, and if it does
    not hold, every lookup gives the same extension in whatever order they came. *)
Theorem duplicate_extension_spec `{WebPki} (ch : ClientHelloPayload)
    (Hwf : Forall (λ x, enum_wf (ClientExtension_get_type x)) (ch_extensions ch)) :
  (ch_has_duplicate_extension ch = true ↔
     ¬ NoDup (ClientExtension_get_type <$> ch_extensions ch)) ∧
  (ch_has_duplicate_extension ch = false → ∀ exts t, Permutation (ch_extensions ch) exts →
     ch_find_extension ch t = ch_find_extension (with_extensions ch exts) t).
Proof.
  split.
  - by apply dup_ext_types.
  - intros Hd exts t Hp. by apply find_ext_perm.
Qed.

Definition example_hello `{WebPki} (exts : list ClientExtension) : ClientHelloPayload :=
  mkClientHelloPayload ProtocolVersion.TLSv1_2 ZERO_RANDOM SessionId_empty
    [CipherSuite.TLS13_AES_128_GCM_SHA256] [Compression.Null] exts.

Lemma duplicate_extension_spec_witness :
  let ch := example_hello (H := any_name) [CE_EarlyData; CE_ExtendedMasterSecretRequest; CE_EarlyData] in
  (ch_has_duplicate_extension ch = true ↔
     ¬ NoDup (ClientExtension_get_type <$> ch_extensions ch)) ∧
  (ch_has_duplicate_extension ch = false → ∀ exts t, Permutation (ch_extensions ch) exts →
     ch_find_extension ch t = ch_find_extension (with_extensions ch exts) t).
Proof.
  apply (duplicate_extension_spec (H := any_name)).
  constructor; [enum_wf_tac|constructor; [enum_wf_tac|constructor; [enum_wf_tac|constructor]]].
Defined.

(** C9: The part of a ClientHello that PSK binders sign does not depend on the
    binders.  The encoding is that part followed by the binders; computing it
    does not underflow; and putting the binder in, of the length of its
    placeholder, leaves it as it was when the binder was computed over it. *)
Theorem binder_signing_stable `{WebPki} (ch : ClientHelloPayload) (exts : list ClientExtension)
    (ids : list PresharedKeyIdentity) (b : PresharedKeyBinder) (bs : list PresharedKeyBinder)
    (binder : list byte)
    (Hlast : ch_extensions ch = exts ++ [CE_PresharedKey (mkPresharedKeyOffer ids (b :: bs))])
    (Hlen : length binder = length (PayloadU8_0 (Wrapped_0 b))) :
  let msg c := mkHandshakeMessagePayload HandshakeType.ClientHello (HP_ClientHello c) in
  ∃ signed ch', get_encoding_for_binder_signing (msg ch) = Ok signed ∧
    get_encoding (msg ch) = signed ++ get_encoding (b :: bs) ∧
    ch_set_psk_binder ch binder = Ok ch' ∧
    get_encoding_for_binder_signing (msg ch') = Ok signed ∧
    get_encoding (msg ch') = signed ++ get_encoding (mkWrapped (mkPayloadU8 binder) :: bs : list PresharedKeyBinder).
Proof.
  intros msg.
  destruct (psk_encoding_split HandshakeType.ClientHello ch exts ids) as [f Hf].
  assert (Ech : ch = with_extensions ch (ch_extensions ch)) by by destruct ch.
  rewrite Hlast in Ech.
  set (b' := mkWrapped (mkPayloadU8 binder) : PresharedKeyBinder).
  set (ch' := with_extensions ch (exts ++ [CE_PresharedKey (mkPresharedKeyOffer ids (b' :: bs))])).
  assert (El : length (get_encoding (b' :: bs)) = length (get_encoding (b :: bs))).
  { by apply binder_encoding_length. }
  assert (E1 := Hf (b :: bs)). assert (E2 := Hf (b' :: bs)). rewrite El in E2.
  exists (f (length (get_encoding (b :: bs)))), ch'. unfold msg. rewrite Ech. split_and!.
  - by apply get_encoding_for_binder_signing_eq.
  - exact E1.
  - unfold ch_set_psk_binder. cbn [ch_extensions with_extensions].
    rewrite last_snoc. cbn [pko_binders pko_identities].
    unfold ch', with_extensions. cbn [ch_client_version ch_random ch_session_id
      ch_cipher_suites ch_compression_methods]. do 2 f_equal.
    rewrite length_app. cbn [length]. replace (length exts + 1 - 1) with (length exts + 0) by lia.
    by rewrite insert_app_r.
  - by apply get_encoding_for_binder_signing_eq.
  - exact E2.
Qed.

Lemma binder_signing_stable_witness :
  let offer := mkPresharedKeyOffer [mkPresharedKeyIdentity (mkPayloadU16 [x01]) 7]
    [mkWrapped (mkPayloadU8 [x00; x00])] in
  let ch := example_hello (H := any_name) [CE_EarlyData; CE_PresharedKey offer] in
  let msg c := mkHandshakeMessagePayload (H := any_name) HandshakeType.ClientHello (HP_ClientHello c) in
  ∃ signed ch', get_encoding_for_binder_signing (msg ch) = Ok signed ∧
    get_encoding (msg ch) = signed ++ get_encoding (pko_binders offer) ∧
    ch_set_psk_binder ch [xaa; xbb] = Ok ch' ∧
    get_encoding_for_binder_signing (msg ch') = Ok signed ∧
    get_encoding (msg ch')
      = signed ++ get_encoding [mkWrapped (mkPayloadU8 [xaa; xbb]) : PresharedKeyBinder].
Proof.
  apply (binder_signing_stable (H := any_name) _ [CE_EarlyData]
    [mkPresharedKeyIdentity (mkPayloadU16 [x01]) 7] (mkWrapped (mkPayloadU8 [x00; x00])) []
    [xaa; xbb]); reflexivity.
Defined.

(** * Records *)

(** A record is read back as it was written, whatever follows it on the
    wire, and the reader stops behind it. *)
Theorem record_roundtrip (m : OpaqueMessage) (tl : list byte) (Hwf : OpaqueMessage_wf m) :
  OpaqueMessage_read (Reader_init (OpaqueMessage_encode m ++ tl))
  = (Ok m, mkReader (OpaqueMessage_encode m ++ tl) (length (OpaqueMessage_encode m))).
Proof.
  pose proof (OpaqueMessage_read_spec (OpaqueMessage_encode m ++ tl) 0 ltac:(lia)) as Hr.
  rewrite drop_0, opaque_parse_encode in Hr by done. unfold Reader_init. rewrite Hr.
  f_equal. f_equal. rewrite length_app. lia.
Qed.

Definition example_record : OpaqueMessage :=
  mkOpaqueMessage ContentType.Alert ProtocolVersion.TLSv1_2 (mkPayload [x01; x00]).

Lemma example_record_wf : OpaqueMessage_wf example_record.
Proof. split_and!; try reflexivity; [enum_wf_tac|discriminate]. Qed.

Lemma record_roundtrip_witness :
  OpaqueMessage_encode example_record = [x15; x03; x03; x00; x02; x01; x00] ∧
  OpaqueMessage_read (Reader_init (OpaqueMessage_encode example_record ++ [xff]))
  = (Ok example_record, mkReader (OpaqueMessage_encode example_record ++ [xff])
      (length (OpaqueMessage_encode example_record))).
Proof.
  split; [vm_compute; reflexivity|]. apply (record_roundtrip example_record [xff]).
  apply example_record_wf.
Defined.

(** A record that has not arrived in full is told from a bad one: every
    proper prefix of a good record is too short for its header or too short for
    its length, which is what the deframer waits on. *)
Theorem record_truncated (m : OpaqueMessage) (k : nat) (Hwf : OpaqueMessage_wf m)
    (Hk : k < length (OpaqueMessage_encode m)) :
  (OpaqueMessage_read (Reader_init (take k (OpaqueMessage_encode m)))).1
  = Err (if bool_decide (k < 5) then TooShortForHeader else TooShortForLength).
Proof.
  pose proof (OpaqueMessage_read_spec (take k (OpaqueMessage_encode m)) 0 ltac:(lia)) as Hr.
  rewrite drop_0, (opaque_parse_truncated m k Hwf Hk) in Hr. exact Hr.
Qed.

Lemma record_truncated_witness :
  (OpaqueMessage_read (Reader_init (take 6 (OpaqueMessage_encode example_record)))).1
    = Err TooShortForLength.
Proof. apply (record_truncated example_record 6); [apply example_record_wf|vm_compute; lia]. Defined.

(** What the record reader accepts is exactly the encoding of an acceptable
    record, and a verdict, good or bad, other than too short is not changed by
    the bytes that follow. *)
Theorem record_verdict (bs : list byte) :
  match OpaqueMessage_read (Reader_init bs) with
  | (Ok m, r) => OpaqueMessage_wf m ∧
      bs = OpaqueMessage_encode m ++ drop (cursor r) bs ∧
      ∀ more, (OpaqueMessage_read (Reader_init (bs ++ more))).1 = Ok m
  | (Err TooShortForHeader, _) | (Err TooShortForLength, _) => True
  | (Err e, _) => ∀ more, (OpaqueMessage_read (Reader_init (bs ++ more))).1 = Err e
  | (Panic, _) | (NoFuel, _) => False
  end.
Proof.
  pose proof (OpaqueMessage_read_spec bs 0 ltac:(lia)) as Hr. rewrite drop_0 in Hr.
  pose proof (opaque_parse_stable bs) as Hs. unfold Reader_init.
  assert (Hmore : ∀ more, match opaque_parse (bs ++ more) with
    | Ok (m, tl) => (OpaqueMessage_read (mkReader (bs ++ more) 0)).1 = Ok m
    | Err e => (OpaqueMessage_read (mkReader (bs ++ more) 0)).1 = Err e
    | Panic | NoFuel => False end).
  { intros more. pose proof (OpaqueMessage_read_spec (bs ++ more) 0 ltac:(lia)) as Hm.
    rewrite drop_0 in Hm. destruct (opaque_parse (bs ++ more)) as [[m tl]| | |]; try done.
    by rewrite Hm. }
  destruct (opaque_parse bs) as [[m tl]|e| |] eqn:Ep; try done.
  - rewrite Hr. apply opaque_parse_sound in Ep as [Hwf E]. split_and!; [done| |].
    + cbn [cursor]. rewrite E at 1. f_equal. rewrite E, length_app.
      symmetry. apply drop_app_length'. lia.
    + intros more. specialize (Hs more ltac:(done) ltac:(done)). specialize (Hmore more).
      rewrite Hs in Hmore. exact Hmore.
  - destruct (OpaqueMessage_read _) as [r0 rd]. cbn [fst] in Hr. subst r0.
    destruct e; try done; intros more;
      specialize (Hs more ltac:(done) ltac:(done)); specialize (Hmore more);
      rewrite Hs in Hmore; exact Hmore.
Qed.

(** * Messages *)

(** Parsing a plain message loses nothing: a message parsed from a record
    turns back into the same record, byte for byte, so that what is hashed into
    the transcript is what was received. *)
Theorem message_parse_lossless `{WebPki} (plain : PlainMessage) (msg : Message)
    (Hparse : Message_try_from plain = Ok msg) :
  PlainMessage_from msg = plain.
Proof. by apply from_try_from. Qed.

Lemma message_parse_lossless_witness :
  let plain := mkPlainMessage ContentType.Alert ProtocolVersion.TLSv1_2 (mkPayload [x02; x28]) in
  PlainMessage_from (H := any_name)
    (build_alert AlertLevel.Fatal AlertDescription.HandshakeFailure) = plain.
Proof. apply (message_parse_lossless (H := any_name)). vm_compute. reflexivity. Defined.

(** A message that is sent is parsed as itself at the other end: alerts,
    handshake messages under the version of the record, ChangeCipherSpec and
    application data. *)
Theorem message_roundtrip `{WebPki} (msg : Message) (Hwf : Message_wf msg) :
  Message_try_from (PlainMessage_from msg) = Ok msg.
Proof. by apply try_from_from. Qed.

Lemma message_roundtrip_witness :
  let msg := Message_build_key_update_notify (H := any_name) in
  Message_try_from (PlainMessage_from msg) = Ok msg.
Proof.
  apply (message_roundtrip (H := any_name)).
  split; [|reflexivity]. split; [|vm_compute; reflexivity].
  split; [reflexivity|enum_wf_tac].
Defined.

(** * Fragments *)

(** Fragmentation is lossless and bounded.  The fragments of a payload are,
    in order, the payload; each is not empty and at most the limit, and all but
    the last are exactly the limit; there are as many as needed and no more; and
    the peer that reads the encoded fragments gets those records. *)
Theorem fragments_correct (f : MessageFragmenter) (typ : ContentType) (v : ProtocolVersion)
    (payload : list byte) (Hf : fragmenter_wf f) (Ht : is_unknown typ = false)
    (Hv : codec_wf v) (Hvo : version_ok v = true) :
  ∃ frags, fragment_slice f typ v payload = Ok frags ∧
    mjoin (bm_payload <$> frags) = payload ∧
    Forall (λ b, bm_typ b = typ ∧ bm_version b = v ∧
      0 < length (bm_payload b) ≤ max_frag f) frags ∧
    (∀ i b, frags !! i = Some b → S i < length frags → length (bm_payload b) = max_frag f) ∧
    length frags = (length payload + max_frag f - 1) / max_frag f ∧
    parse_records (length frags)
      (mjoin (OpaqueMessage_encode <$> (to_unencrypted_opaque <$> frags)))
      = Some (to_unencrypted_opaque <$> frags).
Proof.
  assert (Hpos : 0 < max_frag f) by (destruct Hf; lia).
  rewrite fragment_slice_eq by done. eexists. split; [done|].
  set (cs := chunks_fuel (length payload) (max_frag f) payload). split_and!.
  - rewrite <- list_fmap_compose. change (bm_payload ∘ _) with (@id (list byte)).
    rewrite list_fmap_id. by apply chunks_fuel_join.
  - apply list.Forall_fmap. eapply list.Forall_impl; [by apply chunks_fuel_bounds|].
    intros c [? ?]. cbn. by split_and!.
  - intros i b Hi Hl. rewrite length_fmap in Hl. rewrite list_lookup_fmap in Hi. apply fmap_Some in Hi as (c & Hc & ->).
    by eapply chunks_fuel_full.
  - rewrite length_fmap. by apply chunks_fuel_count.
  - pose proof (parse_records_encode _ (fragments_wf f typ v payload Hf Ht Hv Hvo)) as Hp.
    by rewrite length_fmap in Hp.
Qed.

Lemma fragments_correct_witness :
  let f := mkMessageFragmenter 27 in
  let payload := replicate 69 x61 in
  ∃ frags, fragment_slice f ContentType.Handshake ProtocolVersion.TLSv1_2 payload = Ok frags ∧
    mjoin (bm_payload <$> frags) = payload ∧
    Forall (λ b, bm_typ b = ContentType.Handshake ∧ bm_version b = ProtocolVersion.TLSv1_2 ∧
      0 < length (bm_payload b) ≤ max_frag f) frags ∧
    (∀ i b, frags !! i = Some b → S i < length frags → length (bm_payload b) = max_frag f) ∧
    length frags = 3 ∧
    parse_records (length frags)
      (mjoin (OpaqueMessage_encode <$> (to_unencrypted_opaque <$> frags)))
      = Some (to_unencrypted_opaque <$> frags).
Proof.
  apply (fragments_correct (mkMessageFragmenter 27) ContentType.Handshake ProtocolVersion.TLSv1_2
    (replicate 69 x61)).
  - split; cbn [max_frag]; unfold MAX_FRAGMENT_LEN; lia.
  - reflexivity.
  - enum_wf_tac.
  - reflexivity.
Defined.

(** The fragment size is checked as documented: a size is accepted exactly if
    it is absent or between 32 and 16389, a refused size changes nothing, and
    after an accepted one no fragment is longer on the wire than asked for. *)
Theorem max_fragment_size_checked `{ForeignErrors} (f : MessageFragmenter) (size : option nat) :
  let '(result, f') := set_max_fragment_size f size in
  match size with
  | None => result = Ok tt ∧ max_frag f' = MAX_FRAGMENT_LEN
  | Some sz =>
      (32 ≤ sz ≤ MAX_FRAGMENT_SIZE ∧ result = Ok tt ∧
         ∀ typ v payload frags, fragment_slice f' typ v payload = Ok frags →
           Forall (λ b, length (OpaqueMessage_encode (to_unencrypted_opaque b)) ≤ sz) frags) ∨
      ((sz < 32 ∨ MAX_FRAGMENT_SIZE < sz) ∧ result = Err BadMaxFragmentSize ∧ f' = f)
  end.
Proof.
  destruct size as [sz|]; cbn [set_max_fragment_size]; [|done].
  destruct (decide (32 ≤ sz ∧ sz ≤ MAX_FRAGMENT_SIZE)) as [[Hlo Hhi]|Hn].
  - rewrite !bool_decide_true by done. cbn [andb]. left. split_and!; try done.
    intros typ v payload frags Hfr.
    assert (Hf' : fragmenter_wf (mkMessageFragmenter (sz - PACKET_OVERHEAD))).
    { unfold fragmenter_wf, MAX_FRAGMENT_SIZE, PACKET_OVERHEAD in *. cbn [max_frag]. lia. }
    rewrite fragment_slice_eq in Hfr by done. injection Hfr as <-.
    apply list.Forall_fmap. eapply list.Forall_impl;
      [apply chunks_fuel_bounds; unfold PACKET_OVERHEAD; cbn [max_frag]; lia|].
    intros c Hc. cbv beta in Hc. unfold compose. rewrite OpaqueMessage_encode_eq, !length_app, !length_to_be.
    cbn [to_unencrypted_opaque bm_payload om_payload Payload_0].
    unfold PACKET_OVERHEAD in *. cbn [max_frag] in *. lia.
  - replace (_ && _) with false.
    { right. split_and!; [lia|done|done]. }
    symmetry. apply andb_false_iff. rewrite !bool_decide_eq_false. lia.
Qed.
