(* ===== verification/RecordLayer.v ===== *)
(** The record layer (rustls-0.21.2/rustls/src/record_layer.rs) and the part of
    cipher.rs that it stands on: sequence numbers, the state of each direction,
    trial decryption, and the nonces made of the sequence numbers.

    The ciphers come from the [ring] crate: they are the fields of
    [MessageEncrypter] and [MessageDecrypter].  [debug] tells whether debug
    assertions and overflow checks are compiled in. *)
From Stdlib Require Import ZArith Lia Strings.Byte String.
From stdpp Require Import base list numbers option.
From S2P Require Import Prelude.
From S2P Require Import Codec.
From S2P Require Import TlsEnums.
From S2P Require Import TlsBase.
From S2P Require Import TlsError.
From S2P Require Import TlsMessage.
Open Scope rust_scope.

Definition SEQ_SOFT_LIMIT : Z := 0xffffffffffff0000.
Definition SEQ_HARD_LIMIT : Z := 0xfffffffffffffffe.

(** [PartialEq] is derived. *)
Inductive DirectionState : Type := DS_Invalid | DS_Prepared | DS_Active.

#[export] Instance DirectionState_eq_dec : EqDecision DirectionState.
Proof. solve_decision. Defined.

Section record_layer.
Context `{ForeignErrors} (debug : bool).

(** [trait MessageDecrypter], [trait MessageEncrypter] *)
Record MessageDecrypter : Type := mkMessageDecrypter {
  decrypt : OpaqueMessage → Z → res Error PlainMessage
}.
Record MessageEncrypter : Type := mkMessageEncrypter {
  encrypt : BorrowedPlainMessage → Z → res Error OpaqueMessage
}.

(** [InvalidMessageEncrypter], [InvalidMessageDecrypter] *)
Definition invalid_encrypter : MessageEncrypter := mkMessageEncrypter (λ _m _seq, Err EncryptError).
Definition invalid_decrypter : MessageDecrypter := mkMessageDecrypter (λ _m _seq, Err DecryptError).

Record RecordLayer : Type := mkRecordLayer {
  message_encrypter : MessageEncrypter;
  message_decrypter : MessageDecrypter;
  write_seq : Z;
  read_seq : Z;
  encrypt_state : DirectionState;
  decrypt_state : DirectionState;
  trial_decryption_len : option nat
}.

Definition RecordLayer_new : RecordLayer :=
  mkRecordLayer invalid_encrypter invalid_decrypter 0 0 DS_Invalid DS_Invalid None.

Definition is_encrypting (rl : RecordLayer) : bool := bool_decide (encrypt_state rl = DS_Active).

(** Updates of single fields. *)
Definition with_trial (rl : RecordLayer) (t : option nat) : RecordLayer :=
  mkRecordLayer (message_encrypter rl) (message_decrypter rl) (write_seq rl) (read_seq rl)
    (encrypt_state rl) (decrypt_state rl) t.
Definition with_encrypt_state (rl : RecordLayer) (s : DirectionState) : RecordLayer :=
  mkRecordLayer (message_encrypter rl) (message_decrypter rl) (write_seq rl) (read_seq rl)
    s (decrypt_state rl) (trial_decryption_len rl).
Definition with_decrypt_state (rl : RecordLayer) (s : DirectionState) : RecordLayer :=
  mkRecordLayer (message_encrypter rl) (message_decrypter rl) (write_seq rl) (read_seq rl)
    (encrypt_state rl) s (trial_decryption_len rl).
Definition with_write_seq (rl : RecordLayer) (s : Z) : RecordLayer :=
  mkRecordLayer (message_encrypter rl) (message_decrypter rl) s (read_seq rl)
    (encrypt_state rl) (decrypt_state rl) (trial_decryption_len rl).
Definition with_read_seq (rl : RecordLayer) (s : Z) : RecordLayer :=
  mkRecordLayer (message_encrypter rl) (message_decrypter rl) (write_seq rl) s
    (encrypt_state rl) (decrypt_state rl) (trial_decryption_len rl).

Definition doing_trial_decryption (rl : RecordLayer) (requested : nat) : bool * RecordLayer :=
  match trial_decryption_len rl with
  | Some value =>
      if bool_decide (requested ≤ value) then (true, with_trial rl (Some (value - requested)))
      else (false, rl)
  | None => (false, rl)
  end.

Definition prepare_message_encrypter (rl : RecordLayer) (cipher : MessageEncrypter)
    : RecordLayer :=
  mkRecordLayer cipher (message_decrypter rl) 0 (read_seq rl)
    DS_Prepared (decrypt_state rl) (trial_decryption_len rl).

Definition prepare_message_decrypter (rl : RecordLayer) (cipher : MessageDecrypter)
    : RecordLayer :=
  mkRecordLayer (message_encrypter rl) cipher (write_seq rl) 0
    (encrypt_state rl) DS_Prepared (trial_decryption_len rl).

Definition start_encrypting (rl : RecordLayer) : res unit RecordLayer :=
  debug_assert debug (bool_decide (encrypt_state rl = DS_Prepared))
    (Ok (with_encrypt_state rl DS_Active)).

Definition start_decrypting (rl : RecordLayer) : res unit RecordLayer :=
  debug_assert debug (bool_decide (decrypt_state rl = DS_Prepared))
    (Ok (with_decrypt_state rl DS_Active)).

Definition set_message_encrypter (rl : RecordLayer) (cipher : MessageEncrypter)
    : res unit RecordLayer :=
  start_encrypting (prepare_message_encrypter rl cipher).

Definition set_message_decrypter (rl : RecordLayer) (cipher : MessageDecrypter)
    : res unit RecordLayer :=
  let? rl := start_decrypting (prepare_message_decrypter rl cipher) in
  Ok (with_trial rl None).

Definition set_message_decrypter_with_trial_decryption (rl : RecordLayer)
    (cipher : MessageDecrypter) (max_length : nat) : res unit RecordLayer :=
  let? rl := start_decrypting (prepare_message_decrypter rl cipher) in
  Ok (with_trial rl (Some max_length)).

Definition finish_trial_decryption (rl : RecordLayer) : RecordLayer := with_trial rl None.

Definition wants_close_before_encrypt (rl : RecordLayer) : bool :=
  bool_decide (write_seq rl = SEQ_SOFT_LIMIT).

Definition encrypt_exhausted (rl : RecordLayer) : bool :=
  bool_decide (SEQ_HARD_LIMIT ≤ write_seq rl)%Z.

Record Decrypted : Type := mkDecrypted {
  want_close_before_decrypt : bool;
  plaintext : PlainMessage
}.

(** [seq += 1] on a [u64]. *)
Definition u64_incr {E} (seq : Z) : res E Z :=
  if bool_decide (seq + 1 = 2 ^ 64)%Z then (if debug then Panic else Ok 0%Z)
  else Ok (seq + 1)%Z.

Definition decrypt_incoming (rl : RecordLayer) (encr : OpaqueMessage)
    : res Error (option Decrypted) * RecordLayer :=
  if negb (bool_decide (decrypt_state rl = DS_Active)) then
    (Ok (Some (mkDecrypted false (into_plain_message encr))), rl)
  else
    let want_close := bool_decide (read_seq rl = SEQ_SOFT_LIMIT) in
    let encrypted_len := length (Payload_0 (om_payload encr)) in
    match decrypt (message_decrypter rl) encr (read_seq rl) with
    | Ok plain =>
        match u64_incr (read_seq rl) with
        | Ok seq => (Ok (Some (mkDecrypted want_close plain)), with_read_seq rl seq)
        | Err e => (Err e, rl)
        | Panic => (Panic, rl)
        | NoFuel => (NoFuel, rl)
        end
    | Err DecryptError =>
        let '(trial, rl) := doing_trial_decryption rl encrypted_len in
        if trial then (Ok None, rl) else (Err DecryptError, rl)
    | Err err => (Err err, rl)
    | Panic => (Panic, rl)
    | NoFuel => (NoFuel, rl)
    end.

(** [.unwrap()]: an encrypter that fails is a panic. *)
Definition encrypt_outgoing (rl : RecordLayer) (plain : BorrowedPlainMessage)
    : res unit (OpaqueMessage * RecordLayer) :=
  debug_assert debug (bool_decide (encrypt_state rl = DS_Active))
    (if encrypt_exhausted rl then Panic
     else
       let seq := write_seq rl in
       let rl := with_write_seq rl (write_seq rl + 1) in
       match encrypt (message_encrypter rl) plain seq with
       | Ok m => Ok (m, rl)
       | NoFuel => NoFuel
       | _ => Panic
       end).
End record_layer.

(** * Nonces (cipher.rs) *)

Definition NONCE_LEN : nat := 12.

Definition xor_byte (a b : byte) : byte := byte_of (Z.lxor (byte_val a) (byte_val b)).

(** [make_nonce]: the sequence number in the last eight bytes, and then every
    byte combined with the one of the IV. *)
Definition make_nonce (iv : list byte) (seq : Z) : list byte :=
  let nonce := replicate NONCE_LEN x00 in
  let nonce := take 4 nonce ++ put_u64 seq (drop 4 nonce) in
  zip_with xor_byte nonce iv.

Lemma lxor_byte_range a b : (0 ≤ a < 256 → 0 ≤ b < 256 → 0 ≤ Z.lxor a b < 256)%Z.
Proof.
  intros Ha Hb. assert (Hn : (0 ≤ Z.lxor a b)%Z) by (apply Z.lxor_nonneg; lia).
  split; [done|]. destruct (Z.eq_dec (Z.lxor a b) 0%Z) as [->|Hne]; [lia|].
  apply (Z.log2_lt_pow2 _ 8); [lia|].
  pose proof (Z.log2_lxor a b ltac:(lia) ltac:(lia)) as Hl.
  assert (Hlog : ∀ x, (0 ≤ x < 256 → Z.log2 x < 8)%Z).
  { intros x Hx. destruct (Z.eq_dec x 0%Z) as [->|]; [done|]. apply Z.log2_lt_pow2; lia. }
  pose proof (Hlog a Ha). pose proof (Hlog b Hb). lia.
Qed.

Lemma xor_byte_cancel a b : xor_byte (xor_byte a b) b = a.
Proof.
  apply byte_val_inj. unfold xor_byte. rewrite !byte_val_of.
  pose proof (byte_val_range a). pose proof (byte_val_range b).
  pose proof (lxor_byte_range _ _ H H0).
  rewrite (Z.mod_small (Z.lxor (byte_val a) _)) by lia.
  rewrite Z.lxor_assoc, Z.lxor_nilpotent, Z.lxor_0_r. by apply Z.mod_small.
Qed.

Lemma zip_xor_cancel l iv :
  length l = length iv → zip_with xor_byte (zip_with xor_byte l iv) iv = l.
Proof.
  revert iv. induction l as [|x l IH]; intros [|y iv] Hl; try done. cbn in *.
  rewrite xor_byte_cancel, IH; [done|lia].
Qed.

Lemma nonce_plain seq :
  take 4 (replicate NONCE_LEN x00) ++ put_u64 seq (drop 4 (replicate NONCE_LEN x00))
  = replicate 4 x00 ++ to_be 8 seq.
Proof. reflexivity. Qed.

(** Two sequence numbers give two nonces under one IV. *)
Lemma make_nonce_inj iv seq seq' :
  length iv = NONCE_LEN → (0 ≤ seq < 2 ^ 64)%Z → (0 ≤ seq' < 2 ^ 64)%Z →
  make_nonce iv seq = make_nonce iv seq' → seq = seq'.
Proof.
  intros Hiv Hs Hs' E. unfold make_nonce in E. cbv zeta in E. rewrite !nonce_plain in E.
  apply (f_equal (λ l, zip_with xor_byte l iv)) in E.
  rewrite !zip_xor_cancel in E by (rewrite length_app, length_to_be; done).
  apply app_inv_head in E.
  rewrite <- (from_to_be_small 8 seq), <- (from_to_be_small 8 seq') by (pow256; lia).
  by f_equal.
Qed.

(** * Histories

    A history is a sequence of calls on one record layer; it ends at the first
    panic.  Of every record that is encrypted it keeps what can be seen from
    outside: the encrypter that was installed last, by its number and as it was
    given, the plaintext, and the record that came out.  The sequence number that
    went into it is not kept; it is what the encrypter makes this record from. *)
Section histories.
Context `{ForeignErrors} (debug : bool).

Inductive rl_op : Type :=
  | RL_prepare_message_encrypter (cipher : MessageEncrypter)
  | RL_prepare_message_decrypter (cipher : MessageDecrypter)
  | RL_start_encrypting
  | RL_start_decrypting
  | RL_set_message_encrypter (cipher : MessageEncrypter)
  | RL_set_message_decrypter (cipher : MessageDecrypter)
  | RL_set_message_decrypter_with_trial_decryption (cipher : MessageDecrypter) (max_length : nat)
  | RL_finish_trial_decryption
  | RL_decrypt_incoming (encr : OpaqueMessage)
  | RL_encrypt_outgoing (plain : BorrowedPlainMessage).

Record encryption : Type := mkEncryption {
  enc_epoch : nat;
  enc_cipher : MessageEncrypter;
  enc_plain : BorrowedPlainMessage;
  enc_record : OpaqueMessage
}.

(** The encrypter installed last, and how many there were. *)
Definition installed : Type := nat * MessageEncrypter.

Definition rl_call (op : rl_op) (key : installed) (rl : RecordLayer)
    : res unit (list encryption * installed * RecordLayer) :=
  match op with
  | RL_prepare_message_encrypter c => Ok ([], (S key.1, c), prepare_message_encrypter rl c)
  | RL_prepare_message_decrypter c => Ok ([], key, prepare_message_decrypter rl c)
  | RL_start_encrypting => let? rl := start_encrypting debug rl in Ok ([], key, rl)
  | RL_start_decrypting => let? rl := start_decrypting debug rl in Ok ([], key, rl)
  | RL_set_message_encrypter c =>
      let? rl := set_message_encrypter debug rl c in Ok ([], (S key.1, c), rl)
  | RL_set_message_decrypter c =>
      let? rl := set_message_decrypter debug rl c in Ok ([], key, rl)
  | RL_set_message_decrypter_with_trial_decryption c n =>
      let? rl := set_message_decrypter_with_trial_decryption debug rl c n in Ok ([], key, rl)
  | RL_finish_trial_decryption => Ok ([], key, finish_trial_decryption rl)
  | RL_decrypt_incoming encr =>
      match decrypt_incoming debug rl encr with
      | (Panic, _) | (NoFuel, _) => Panic
      | (_, rl) => Ok ([], key, rl)
      end
  | RL_encrypt_outgoing plain =>
      let? p := encrypt_outgoing debug rl plain in
      Ok ([mkEncryption key.1 key.2 plain p.1], key, p.2)
  end.

Fixpoint rl_history (ops : list rl_op) (key : installed) (rl : RecordLayer) : list encryption :=
  match ops with
  | [] => []
  | op :: ops' =>
      match rl_call op key rl with
      | Ok (es, key', rl') => es ++ rl_history ops' key' rl'
      | _ => []
      end
  end.

(** A record that its encrypter makes under this sequence number. *)
Definition made_from (e : encryption) (seq : Z) : Prop := encrypt (enc_cipher e) (enc_plain e) seq = Ok (enc_record e).

Lemma decrypt_incoming_write rl encr :
  write_seq (decrypt_incoming debug rl encr).2 = write_seq rl.
Proof.
  unfold decrypt_incoming, doing_trial_decryption.
  destruct (negb _); [done|].
  destruct (decrypt _ _ _) as [p|e| |]; [|destruct e|done|done]; try done.
  - by destruct (u64_incr _ _).
  - destruct (trial_decryption_len rl) as [v|]; [|done]. by case_bool_decide.
Qed.

Lemma start_encrypting_Ok rl rl' :
  start_encrypting debug rl = Ok rl' → rl' = with_encrypt_state rl DS_Active.
Proof. unfold start_encrypting, debug_assert. destruct (_ && _); [done|]. by intros [= <-]. Qed.
Lemma start_decrypting_Ok rl rl' :
  start_decrypting debug rl = Ok rl' → rl' = with_decrypt_state rl DS_Active.
Proof. unfold start_decrypting, debug_assert. destruct (_ && _); [done|]. by intros [= <-]. Qed.

Lemma encrypt_outgoing_Ok rl plain m rl' :
  encrypt_outgoing debug rl plain = Ok (m, rl') →
  encrypt (message_encrypter rl) plain (write_seq rl) = Ok m ∧
  rl' = with_write_seq rl (write_seq rl + 1) ∧ (write_seq rl < SEQ_HARD_LIMIT)%Z.
Proof.
  unfold encrypt_outgoing, debug_assert. destruct (_ && _); [done|].
  unfold encrypt_exhausted. case_bool_decide as Hx; [done|]. cbv zeta.
  destruct (encrypt _ _ _); try done. intros [= <- <-]. split_and!; [done|done|lia].
Qed.

Lemma start_encrypting_key rl rl' c :
  start_encrypting debug (prepare_message_encrypter rl c) = Ok rl' → write_seq rl' = 0%Z ∧ message_encrypter rl' = c.
Proof. by intros ->%start_encrypting_Ok. Qed.

Lemma decrypt_incoming_key rl encr :
  message_encrypter (decrypt_incoming debug rl encr).2 = message_encrypter rl.
Proof.
  unfold decrypt_incoming, doing_trial_decryption.
  destruct (negb _); [done|].
  destruct (decrypt _ _ _) as [p|e| |]; [|destruct e|done|done]; try done.
  - by destruct (u64_incr _ _).
  - destruct (trial_decryption_len rl) as [v|]; [|done]. by case_bool_decide.
Qed.

(** Either the call encrypts one record from the current number and moves on, or it
    encrypts nothing and leaves the number and the key alone, or starts afresh with
    another key. *)
Lemma rl_call_cases op key rl es key' rl' :
  message_encrypter rl = key.2 → rl_call op key rl = Ok (es, key', rl') →
  message_encrypter rl' = key'.2 ∧
  ((es = [] ∧ (key' = key ∧ write_seq rl' = write_seq rl ∨ key'.1 = S key.1 ∧ write_seq rl' = 0%Z)) ∨
   (∃ e, es = [e] ∧ enc_epoch e = key.1 ∧ made_from e (write_seq rl) ∧ key' = key ∧
    write_seq rl' = (write_seq rl + 1)%Z ∧ (write_seq rl < SEQ_HARD_LIMIT)%Z)).
Proof.
  intros Hkey. destruct op as [c|c| | |c|c|c n| |encr|plain]; cbn [rl_call].
  - intros [= <- <- <-]. split; [done|]. left. split; [done|by right].
  - intros [= <- <- <-]. split; [done|]. left. split; [done|by left].
  - destruct (start_encrypting _ _) eqn:E; [|done..]. intros [= <- <- <-].
    apply start_encrypting_Ok in E as ->. split; [done|]. left. split; [done|by left].
  - destruct (start_decrypting _ _) eqn:E; [|done..]. intros [= <- <- <-].
    apply start_decrypting_Ok in E as ->. split; [done|]. left. split; [done|by left].
  - unfold set_message_encrypter.
    destruct (start_encrypting _ _) eqn:E; [|done..]. intros [= <- <- <-].
    apply start_encrypting_key in E as [Hw Hc]. split; [done|]. left. split; [done|by right].
  - unfold set_message_decrypter.
    destruct (start_decrypting _ _) eqn:E; [|done..]. intros [= <- <- <-].
    apply start_decrypting_Ok in E as ->. split; [done|]. left. split; [done|by left].
  - unfold set_message_decrypter_with_trial_decryption.
    destruct (start_decrypting _ _) eqn:E; [|done..]. intros [= <- <- <-].
    apply start_decrypting_Ok in E as ->. split; [done|]. left. split; [done|by left].
  - intros [= <- <- <-]. split; [done|]. left. split; [done|by left].
  - pose proof (decrypt_incoming_write rl encr) as Hw. pose proof (decrypt_incoming_key rl encr) as Hk.
    destruct (decrypt_incoming debug rl encr) as [[] rl1]; try done; cbn [snd] in Hw, Hk;
      intros [= <- <- <-]; (split; [congruence|]); left; (split; [done|by left]).
  - destruct (encrypt_outgoing _ _ _) as [[m rl1]| | |] eqn:E; try done.
    intros [= <- <- <-]. apply encrypt_outgoing_Ok in E as (Henc & -> & Hlt).
    split; [done|]. right. eexists. split; [done|]. split; [done|]. split; [|done].
    unfold made_from. cbn [enc_cipher enc_plain enc_record fst]. by rewrite <- Hkey.
Qed.

(** Later encryptions have later numbers. *)
Lemma rl_history_later ops key rl :
  message_encrypter rl = key.2 → (0 ≤ write_seq rl)%Z →
  ∃ seqs, Forall2 made_from (rl_history ops key rl) seqs ∧
    NoDup (zip_with (λ e seq, (enc_epoch e, seq)) (rl_history ops key rl) seqs) ∧
    Forall (λ p : nat * Z, (key.1 < p.1 ∨ key.1 = p.1 ∧ (write_seq rl ≤ p.2)%Z) ∧ (0 ≤ p.2 < SEQ_HARD_LIMIT)%Z)
      (zip_with (λ e seq, (enc_epoch e, seq)) (rl_history ops key rl) seqs).
Proof.
  revert key rl. induction ops as [|op ops IH]; intros key rl Hkey Hs; cbn [rl_history].
  { exists []. split_and!; constructor. }
  destruct (rl_call op key rl) as [[[es key'] rl']| | |] eqn:E; try (exists []; split_and!; constructor).
  apply rl_call_cases in E as [Hkey' [[-> Hn]|(e & -> & He & Hm & -> & Hw & Hlt)]]; [| |done].
  - destruct (IH key' rl' Hkey' ltac:(lia)) as (seqs & H1 & H2 & H3). exists seqs. cbn [app].
    split; [done|]. split; [done|]. eapply list.Forall_impl; [exact H3|]. intros p [Hp ?]. split; [|done].
    destruct Hn as [[-> ?]|[? ?]]; lia.
  - destruct (IH key rl' Hkey' ltac:(lia)) as (seqs & H1 & H2 & H3). exists (write_seq rl :: seqs). cbn [app zip_with].
    split; [by constructor|]. rewrite He. split.
    + apply list.NoDup_cons. split; [|done]. intros Hin.
      rewrite list.Forall_forall in H3. destruct (H3 _ Hin) as [[?|[_ ?]] _]; cbn [fst snd] in *; lia.
    + constructor; [cbn [fst snd]; lia|]. eapply list.Forall_impl; [exact H3|]. intros p [Hp ?]. split; [lia|done].
Qed.
End histories.

(** C8: A record layer never uses a nonce twice.  In every history of a new record
    layer, whatever ciphers are installed and whatever is decrypted in between: each
    record that comes out is what the encrypter installed last makes from one
    sequence number, and two records under the same installed encrypter are made
    from two numbers with different nonces.  The numbers stop before the counter
    could wrap. *)
Theorem nonces_never_repeat `{ForeignErrors} (debug : bool) (ops : list rl_op)
    (iv : nat → list byte) (Hiv : ∀ epoch, length (iv epoch) = NONCE_LEN) :
  let history := rl_history debug ops (0, invalid_encrypter) RecordLayer_new in
  ∃ seqs, Forall2 made_from history seqs ∧ Forall (λ seq, (0 ≤ seq < SEQ_HARD_LIMIT)%Z) seqs ∧
    NoDup (zip_with (λ e seq, (enc_epoch e, make_nonce (iv (enc_epoch e)) seq)) history seqs).
Proof.
  intros history. destruct (rl_history_later debug ops (0, invalid_encrypter) RecordLayer_new eq_refl ltac:(cbn; lia))
    as (seqs & Hmade & Hnd & Hall). exists seqs. split; [done|]. fold history in Hmade, Hnd, Hall.
  assert (Hsnd : seqs = (zip_with (λ e seq, (enc_epoch e, seq)) history seqs).*2).
  { clear Hnd Hall. induction Hmade as [|e seq l k _ _ IH]; [done|]. cbn. by f_equal. }
  split.
  { rewrite Hsnd. apply Forall_fmap. eapply list.Forall_impl; [exact Hall|]. by intros p [_ ?]. }
  replace (zip_with _ history seqs) with
    ((λ p : nat * Z, (p.1, make_nonce (iv p.1) p.2)) <$> zip_with (λ e seq, (enc_epoch e, seq)) history seqs).
  2:{ clear. generalize seqs. induction history as [|e l IH]; intros [|seq k]; [done..|]. cbn. by f_equal. }
  apply NoDup_fmap_2_strong; [|done].
  intros [e s] [e' s'] Hin Hin' [= -> En]. rewrite list.Forall_forall in Hall.
  destruct (Hall _ Hin) as [_ Hb], (Hall _ Hin') as [_ Hb']. cbn [fst snd] in *.
  unfold SEQ_HARD_LIMIT in *. f_equal. eapply make_nonce_inj; [apply (Hiv e')|lia|lia|done].
Qed.

(** * Trial decryption *)
Section trial.
Context `{ForeignErrors} (debug : bool).

(** The lengths of the records of a stream that are dropped, while the record
    layer is left as it is between them. *)
Fixpoint dropped (encrs : list OpaqueMessage) (rl : RecordLayer) : list nat :=
  match encrs with
  | [] => []
  | encr :: encrs' =>
      match decrypt_incoming debug rl encr with
      | (Ok None, rl') => length (Payload_0 (om_payload encr)) :: dropped encrs' rl'
      | (_, rl') => dropped encrs' rl'
      end
  end.

Lemma decrypt_incoming_trial rl encr n :
  trial_decryption_len rl = Some n →
  match decrypt_incoming debug rl encr with
  | (Ok None, rl') => length (Payload_0 (om_payload encr)) ≤ n ∧
      trial_decryption_len rl' = Some (n - length (Payload_0 (om_payload encr)))
  | (_, rl') => trial_decryption_len rl' = Some n
  end.
Proof.
  intros Ht. unfold decrypt_incoming, doing_trial_decryption.
  destruct (negb _); [done|].
  destruct (decrypt _ _ _) as [p|e| |]; [|destruct e|done|done]; try done.
  - by destruct (u64_incr _ _).
  - rewrite Ht. by case_bool_decide.
Qed.
End trial.

(** Trial decryption is bounded: of the records that fail to decrypt after
    early data was rejected, those that are dropped silently carry together no
    more than the length that was allowed. *)
Theorem trial_decryption_bounded `{ForeignErrors} (debug : bool) (encrs : list OpaqueMessage)
    (rl rl' : RecordLayer) (cipher : MessageDecrypter) (max_length : nat)
    (Hset : set_message_decrypter_with_trial_decryption debug rl cipher max_length = Ok rl') :
  sum_list (dropped debug encrs rl') ≤ max_length.
Proof.
  assert (Ht : trial_decryption_len rl' = Some max_length).
  { unfold set_message_decrypter_with_trial_decryption in Hset.
    destruct (start_decrypting _ _); try done. by injection Hset as <-. }
  clear Hset. revert rl' max_length Ht.
  induction encrs as [|encr encrs IH]; intros rl' n Ht; cbn [dropped]; [cbn; lia|].
  pose proof (decrypt_incoming_trial debug rl' encr n Ht) as Hd.
  destruct (decrypt_incoming debug rl' encr) as [[[d|]| | |] rl1]; try by apply IH.
  destruct Hd as [Hle Ht1]. specialize (IH _ _ Ht1).
  change (sum_list (?x :: ?l)) with (x + sum_list l). lia.
Qed.

(** An instance of the foreign error types, for the examples. *)
Definition no_foreign : ForeignErrors := {| SctError := Empty_set; DynError := Empty_set |}.

(** An encrypter that writes the sequence number into the record, and one empty
    alert encrypted twice: the numbers can only be 0 and 1. *)
Definition numbering : MessageEncrypter (H := no_foreign) :=
  mkMessageEncrypter (λ m seq, Ok (mkOpaqueMessage (bm_typ m) (bm_version m) (mkPayload (to_be 8 seq)))).

Lemma nonces_never_repeat_witness :
  let m := mkBorrowedPlainMessage ContentType.Alert ProtocolVersion.TLSv1_2 [] in
  let history := rl_history (H := no_foreign) true
    [RL_set_message_encrypter numbering; RL_encrypt_outgoing m; RL_encrypt_outgoing m] (0, invalid_encrypter) RecordLayer_new in
  ((λ e, Payload_0 (om_payload (enc_record e))) <$> history) = [to_be 8 0; to_be 8 1] ∧
  ∃ seqs, Forall2 made_from history seqs ∧ Forall (λ seq, (0 ≤ seq < SEQ_HARD_LIMIT)%Z) seqs ∧
    NoDup (zip_with (λ e seq, (enc_epoch e, make_nonce (replicate 12 x00) seq)) history seqs).
Proof.
  intros m history. split; [vm_compute; reflexivity|].
  apply (nonces_never_repeat true _ (λ _, replicate 12 x00)). reflexivity.
Defined.

Lemma trial_decryption_bounded_witness :
  let rl : RecordLayer (H := no_foreign) :=
    mkRecordLayer invalid_encrypter invalid_decrypter 0 0 DS_Invalid DS_Active (Some 3) in
  let m := mkOpaqueMessage ContentType.ApplicationData ProtocolVersion.TLSv1_2
    (mkPayload [x01; x02]) in
  dropped true [m; m] rl = [2] ∧ sum_list (dropped true [m; m] rl) ≤ 3.
Proof.
  split; [reflexivity|].
  by apply (trial_decryption_bounded true _ RecordLayer_new _ invalid_decrypter 3).
Defined.
