(* ===== verification/Deframer.v ===== *)
(** The message deframer (rustls-0.21.2/rustls/src/msgs/deframer.rs): from reads
    of any size to decrypted messages, with handshake messages joined in place.

    The deframer keeps one buffer.  Its prefix of length [used] holds records;
    while a handshake message is being joined, the decrypted payloads are
    written over the records they came from, and two ranges say what the buffer
    holds.  [astate] is the abstract state, the joined bytes and the bytes not
    yet parsed; [apop] is [pop] on it, and [pop_refines] the refinement. *)
From Stdlib Require Import ZArith Lia Strings.Byte String.
From stdpp Require Import base list numbers option.
From S2P Require Import Prelude.
From S2P Require Import Codec.
From S2P Require Import TlsEnums.
From S2P Require Import TlsBase.
From S2P Require Import TlsExtensions.
From S2P Require Import TlsError.
From S2P Require Import TlsMessage.
From S2P Require Import Fragmenter.
From S2P Require Import RecordLayer.
Open Scope rust_scope.

Definition HS_HEADER_SIZE : nat := 1 + 3.
Definition MAX_HANDSHAKE_SIZE : Z := 0xffff.
Definition READ_SIZE : nat := Z.to_nat 4096.

Record Deframed : Type := mkDeframed {
  df_want_close_before_decrypt : bool;
  df_aligned : bool;
  df_trial_decryption_finished : bool;
  df_message : PlainMessage
}.

(** The ranges [message] and [payload] by their ends. *)
Record HandshakePayloadMeta : Type := mkMeta {
  message_start : nat;
  message_end : nat;
  payload_start : nat;
  payload_end : nat;
  meta_version : ProtocolVersion;
  expected_len : option nat;
  quic : bool
}.

(** [Range::len]: zero when the range is inverted. *)
Definition payload_len (meta : HandshakePayloadMeta) : nat :=
  payload_end meta - payload_start meta.

Inductive HandshakePayloadState : Type :=
  | HPS_Blocked
  | HPS_Complete (len : nat)
  | HPS_Continue.

Section deframer.
Context `{ForeignErrors} (debug : bool).

Record MessageDeframer : Type := mkMessageDeframer {
  last_error : option Error;
  buf : list byte;
  joining_hs : option HandshakePayloadMeta;
  used : nat
}.

Definition MessageDeframer_default : MessageDeframer := mkMessageDeframer None [] None 0.

Definition with_buf (d : MessageDeframer) (b : list byte) : MessageDeframer :=
  mkMessageDeframer (last_error d) b (joining_hs d) (used d).
Definition with_joining (d : MessageDeframer) (j : option HandshakePayloadMeta) : MessageDeframer :=
  mkMessageDeframer (last_error d) (buf d) j (used d).
Definition with_used (d : MessageDeframer) (u : nat) : MessageDeframer :=
  mkMessageDeframer (last_error d) (buf d) (joining_hs d) u.

(** [set_err]: the error stays. *)
Definition set_err (d : MessageDeframer) (err : Error) : Error * MessageDeframer :=
  (err, mkMessageDeframer (Some err) (buf d) (joining_hs d) (used d)).

Definition payload_size (b : list byte) : res Error (option nat) :=
  if bool_decide (length b < HS_HEADER_SIZE) then Ok None
  else
    let header := take HS_HEADER_SIZE b in
    match (u24_read (Reader_init (drop 1 header))).1 with
    | Ok len =>
        if bool_decide (MAX_HANDSHAKE_SIZE < len)%Z
        then Err (E_InvalidMessage HandshakePayloadTooLarge)
        else Ok (Some (HS_HEADER_SIZE + Z.to_nat len))
    | _ => Ok None
    end.

(** [copy_within(taken..used, 0)] moves the pending bytes to the front. *)
Definition discard (d : MessageDeframer) (taken : nat) : res Error MessageDeframer :=
  if bool_decide (taken < used d) then
    let? pending := slice taken (used d) (buf d) in
    Ok (mkMessageDeframer (last_error d) (splice 0 pending (buf d)) (joining_hs d)
      (used d - taken))
  else if bool_decide (taken = used d) then Ok (with_used d 0)
  else Ok d.

(** [?] in a function that has changed the deframer: the state stays. *)
Definition bind_d {A B} (m : res Error A) (d : MessageDeframer)
    (k : A → res Error B * MessageDeframer) : res Error B * MessageDeframer :=
  match m with
  | Ok a => k a
  | Err e => (Err e, d)
  | Panic => (Panic, d)
  | NoFuel => (NoFuel, d)
  end.

(** The last expression of [append_hs]. *)
Definition append_state (d : MessageDeframer) (meta : HandshakePayloadMeta)
    : HandshakePayloadState :=
  let wait := if bool_decide (message_end meta < used d) then HPS_Continue else HPS_Blocked in
  match expected_len meta with
  | Some len => if bool_decide (len ≤ payload_len meta) then HPS_Complete len else wait
  | None => wait
  end.

Definition append_hs (d : MessageDeframer) (version : ProtocolVersion) (payload : list byte)
    (end_ : nat) (quic_ : bool) : res Error HandshakePayloadState * MessageDeframer :=
  match joining_hs d with
  | Some meta =>
      bind_d (debug_assert debug (bool_decide (quic meta = quic_)) (Ok tt)) d (λ _,
      bind_d (copy_at (payload_end meta) payload (buf d)) d (λ b,
      let meta := mkMeta (message_start meta) end_ (payload_start meta)
        (payload_end meta + length payload) (meta_version meta) (expected_len meta) (quic meta) in
      let d := with_joining (with_buf d b) (Some meta) in
      match expected_len meta with
      | Some _ => (Ok (append_state d meta), d)
      | None =>
          bind_d (slice (payload_start meta) (payload_end meta) (buf d)) d (λ p,
          bind_d (payload_size p) d (λ expected,
          let meta := mkMeta (message_start meta) (message_end meta) (payload_start meta)
            (payload_end meta) (meta_version meta) expected (quic meta) in
          let d := with_joining d (Some meta) in
          (Ok (append_state d meta), d)))
      end))
  | None =>
      bind_d (payload_size payload) d (λ expected,
      bind_d (copy_at 0 payload (buf d)) d (λ b,
      let meta := mkMeta 0 end_ 0 (length payload) version expected quic_ in
      let d := with_joining (with_buf d b) (Some meta) in
      (Ok (append_state d meta), d)))
  end.

(** How the loop of [pop] is left: with a result, or with the length of a
    complete handshake payload. *)
Inductive loop_exit : Type :=
  | Exit_return (o : option Deframed)
  | Exit_break (len : nat).

Definition pop_state : Type := MessageDeframer * RecordLayer.

(** The error kinds of the record parser. *)
Definition err_kind (e : MessageError) : option InvalidMessage :=
  match e with
  | TooShortForHeader | TooShortForLength => None
  | ME_InvalidEmptyPayload => Some InvalidEmptyPayload
  | ME_MessageTooLarge => Some MessageTooLarge
  | ME_InvalidContentType => Some InvalidContentType
  | ME_UnknownProtocolVersion => Some UnknownProtocolVersion
  end.

Definition fail {A} (d : MessageDeframer) (rl : RecordLayer) (e : Error)
    : res Error A * pop_state :=
  let '(err, d) := set_err d e in (Err err, (d, rl)).

(** A record that is returned as it is. *)
Definition return_record (d : MessageDeframer) (rl : RecordLayer) (end_ : nat)
    (m : PlainMessage) : res Error loop_exit * pop_state :=
  match discard d end_ with
  | Ok d => (Ok (Exit_return (Some (mkDeframed false true false m))), (d, rl))
  | _ => (Panic, (d, rl))
  end.

Definition is_some {A} (o : option A) : bool := match o with Some _ => true | None => false end.

(** The loop of [pop].  Every round moves past a record of five bytes or more,
    so that the number of used bytes bounds the rounds. *)
Fixpoint pop_loop (fuel : nat) (d : MessageDeframer) (rl : RecordLayer)
    : res Error loop_exit * pop_state :=
  match fuel with
  | O => (NoFuel, (d, rl))
  | S fuel' =>
    match (match joining_hs d with
      | Some meta =>
          match expected_len meta with
          | Some len => if bool_decide (len ≤ payload_len meta) then inl (Exit_break len)
              else if quic meta then inl (Exit_return None) else inr (message_end meta)
          | None => if quic meta then inl (Exit_return None) else inr (message_end meta)
          end
      | None => inr 0
      end) with
    | inl exit => (Ok exit, (d, rl))
    | inr start =>
      match slice (E := unit) start (used d) (buf d) with
      | Ok bytes =>
        match OpaqueMessage_read (Reader_init bytes) with
        | (Err msg_err, _) =>
            match err_kind msg_err with
            | None => (Ok (Exit_return None), (d, rl))
            | Some kind => fail d rl (E_InvalidMessage kind)
            end
        | (Ok m, rd) =>
          let end_ := start + Reader_used rd in
          if bool_decide (om_typ m = ContentType.ChangeCipherSpec) && negb (is_some (joining_hs d))
          then return_record d rl end_ (into_plain_message m)
          else
          match decrypt_incoming debug rl m with
          | (Ok (Some decrypted), rl) =>
              if debug && want_close_before_decrypt decrypted then (Panic, (d, rl)) else
              let msg := plaintext decrypted in
              if is_some (joining_hs d) && negb (bool_decide (pm_typ msg = ContentType.Handshake))
              then fail d rl (E_PeerMisbehaved PM_MessageInterleavedWithHandshakeMessage)
              else if negb (bool_decide (pm_typ msg = ContentType.Handshake))
              then return_record d rl end_ msg
              else
                match append_hs d (pm_version msg) (Payload_0 (pm_payload msg)) end_ false with
                | (Ok HPS_Blocked, d) => (Ok (Exit_return None), (d, rl))
                | (Ok (HPS_Complete len), d) => (Ok (Exit_break len), (d, rl))
                | (Ok HPS_Continue, d) => pop_loop fuel' d rl
                | (Err e, d) => (Err e, (d, rl))
                | (Panic, d) => (Panic, (d, rl))
                | (NoFuel, d) => (NoFuel, (d, rl))
                end
          | (Ok None, rl) =>
              if is_some (joining_hs d)
              then fail d rl (E_PeerMisbehaved PM_RejectedEarlyDataInterleavedWithHandshakeMessage)
              else
                match discard d end_ with
                | Ok d => pop_loop fuel' d rl
                | _ => (Panic, (d, rl))
                end
          | (Err e, rl) => (Err e, (d, rl))
          | (Panic, rl) => (Panic, (d, rl))
          | (NoFuel, rl) => (NoFuel, (d, rl))
          end
        | (Panic, _) => (Panic, (d, rl))
        | (NoFuel, _) => (NoFuel, (d, rl))
        end
      | _ => (Panic, (d, rl))
      end
    end
  end.

(** After the loop: the complete handshake payload is wrapped, and the joining
    state skips past it. *)
Definition pop_complete (d : MessageDeframer) (len : nat)
    : res Error (option Deframed) * MessageDeframer :=
  match joining_hs d with
  | None => (Panic, d)
  | Some meta =>
      bind_d (slice (payload_start meta) (payload_start meta + len) (buf d)) d (λ p,
      let message := mkPlainMessage ContentType.Handshake (meta_version meta) (mkPayload p) in
      let finish d :=
        (Ok (Some (mkDeframed false (negb (is_some (joining_hs d))) true message)), d) in
      if bool_decide (len < payload_len meta) then
        let meta := mkMeta (message_start meta) (message_end meta) (payload_start meta + len)
          (payload_end meta) (meta_version meta) (expected_len meta) (quic meta) in
        let d := with_joining d (Some meta) in
        bind_d (slice (payload_start meta) (payload_end meta) (buf d)) d (λ rest,
        bind_d (payload_size rest) d (λ expected,
        let meta := mkMeta (message_start meta) (message_end meta) (payload_start meta)
          (payload_end meta) (meta_version meta) expected (quic meta) in
        finish (with_joining d (Some meta))))
      else
        let end_ := message_end meta in
        let d := with_joining d None in
        bind_d (discard d end_) d finish)
  end.

Definition pop (d : MessageDeframer) (rl : RecordLayer)
    : res Error (option Deframed) * pop_state :=
  match last_error d with
  | Some last_err => (Err last_err, (d, rl))
  | None =>
      if bool_decide (used d = 0) then (Ok None, (d, rl))
      else
        match pop_loop (S (used d)) d rl with
        | (Ok (Exit_return o), s) => (Ok o, s)
        | (Ok (Exit_break len), (d, rl)) =>
            let '(r, d) := pop_complete d len in (r, (d, rl))
        | (Err e, s) => (Err e, s)
        | (Panic, s) => (Panic, s)
        | (NoFuel, s) => (NoFuel, s)
        end
  end.

(** [Vec::resize(n, 0)] *)
Definition vec_resize (n : nat) (l : list byte) : list byte := resize n x00 l.

Definition prepare_read (d : MessageDeframer) : res string unit * MessageDeframer :=
  let allow_max := match joining_hs d with
    | Some _ => Z.to_nat MAX_HANDSHAKE_SIZE
    | None => MAX_WIRE_SIZE
    end in
  if bool_decide (allow_max ≤ used d) then (Err "message buffer full"%string, d)
  else
    let need_capacity := allow_max `min` (used d + READ_SIZE) in
    if bool_decide (length (buf d) < need_capacity)
    then (Ok tt, with_buf d (vec_resize need_capacity (buf d)))
    else if bool_decide (used d = 0) || bool_decide (allow_max < length (buf d))
    then (Ok tt, with_buf d (vec_resize need_capacity (buf d)))
    else (Ok tt, d).

Definition has_pending (d : MessageDeframer) : bool := bool_decide (0 < used d).

(** [read]: [rd] is the reader's [read], which gets the room that is left and
    answers with the bytes it put there. *)
Inductive io_error : Type := IO_InvalidData (msg : string) | IO_reader.

Definition deframer_read (d : MessageDeframer) (rd : nat → option (list byte))
    : res io_error nat * MessageDeframer :=
  match prepare_read d with
  | (Err err, d) => (Err (IO_InvalidData err), d)
  | (Ok _, d) =>
      if bool_decide (length (buf d) < used d) then (Panic, d)
      else
        match rd (length (buf d) - used d) with
        | None => (Err IO_reader, d)
        | Some new =>
            (Ok (length new),
             with_used (with_buf d (splice (used d) new (buf d))) (used d + length new))
        end
  | (Panic, d) => (Panic, d)
  | (NoFuel, d) => (NoFuel, d)
  end.

(** [push] (QUIC) *)
Definition push (d : MessageDeframer) (version : ProtocolVersion) (payload : list byte)
    : res Error unit * MessageDeframer :=
  if bool_decide (0 < used d) && negb (is_some (joining_hs d))
  then (Err (General "cannot push QUIC messages into unrelated connection"), d)
  else
    match prepare_read d with
    | (Err err, d) => (Err (General err), d)
    | (Ok _, d) =>
        let end_ := used d + length payload in
        match append_hs d version payload end_ true with
        | (Ok _, d) => (Ok tt, with_used d end_)
        | (Err e, d) => (Err e, d)
        | (Panic, d) => (Panic, d)
        | (NoFuel, d) => (NoFuel, d)
        end
    | (Panic, d) => (Panic, d)
    | (NoFuel, d) => (NoFuel, d)
    end.
End deframer.

(** * List facts *)

Lemma drop_splice_after {A} (off k : nat) (src l : list A) :
  off + length src ≤ length l → off + length src ≤ k → drop k (splice off src l) = drop k l.
Proof.
  intros Hl Hk. unfold splice.
  rewrite drop_app, (drop_ge (take off l)) by (rewrite length_take; lia).
  rewrite drop_app, (drop_ge src) by (rewrite length_take; lia). cbn [app].
  rewrite drop_drop, length_take. f_equal. lia.
Qed.

Lemma drop_take_splice_after {A} (off k u : nat) (src l : list A) :
  off + length src ≤ length l → off + length src ≤ k →
  drop k (take u (splice off src l)) = drop k (take u l).
Proof. intros Hl Hk. by rewrite !skipn_firstn_comm, drop_splice_after. Qed.

(** The joined payload grows by what is written at its end. *)
Lemma slice_splice_grow {A} (ps pe : nat) (src l : list A) :
  ps ≤ pe → pe + length src ≤ length l →
  take (pe + length src - ps) (drop ps (splice pe src l)) = take (pe - ps) (drop ps l) ++ src.
Proof.
  intros Hps Hl. unfold splice.
  rewrite drop_app_le by (rewrite length_take; lia).
  rewrite <- skipn_firstn_comm, app_assoc.
  apply take_app_length'.
  rewrite length_app, length_drop, length_take. lia.
Qed.

(** * The abstract deframer *)

Section spec.
Context `{ForeignErrors}.

(** A handshake message being joined: the version of its first record, the
    payload bytes so far, and whether they came by [push]. *)
Definition joined : Type := option (ProtocolVersion * list byte * bool).

(** The length of the complete message at the front. *)
Definition ready (hs : joined) : option nat :=
  match hs with
  | Some (_, p, _) =>
      match payload_size p with
      | Ok (Some len) => if bool_decide (len ≤ length p) then Some len else None
      | _ => None
      end
  | None => None
  end.

Definition is_quic (hs : joined) : bool :=
  match hs with Some (_, _, q) => q | None => false end.

(** A payload joins the bytes so far. *)
Definition ajoin (hs : joined) (version : ProtocolVersion) (payload : list byte) (q : bool)
    : res Error joined :=
  let '(v, p, q) := match hs with Some (v, p, q) => (v, p ++ payload, q) | None => (version, payload, q) end in
  let? _ := payload_size p in Ok (Some (v, p, q)).

(** The complete message leaves; what follows it is the next message's. *)
Definition aemit (hs : joined) (len : nat) : res Error (option Deframed * joined) :=
  match hs with
  | None => Panic
  | Some (v, p, q) =>
      let message := mkPlainMessage ContentType.Handshake v (mkPayload (take len p)) in
      let rest := drop len p in
      if bool_decide (rest = []) then Ok (Some (mkDeframed false true true message), None)
      else
        let? _ := payload_size rest in
        Ok (Some (mkDeframed false false true message), Some (v, rest, q))
  end.

(** What is joined when a payload was refused: its record is only gone if a message
    was being joined. *)
Definition refused (hs : joined) (payload raw tl : list byte) : joined * list byte :=
  match hs with Some (v, p, q) => (Some (v, p ++ payload, q), tl) | None => (None, raw) end.

(** What is left of a message when what follows it was refused. *)
Definition left_over (hs : joined) (len : nat) : joined :=
  match hs with Some (v, p, q) => Some (v, drop len p, q) | None => None end.

(** A failure: the error, the error that stays for the next call, and the state. *)
Definition failure : Type := Error * (option Error * (joined * list byte)).

Definition acomplete (hs : joined) (raw : list byte) (len : nat)
    : res failure (option Deframed * (joined * list byte)) :=
  match aemit hs len with
  | Ok (o, hs') => Ok (o, (hs', raw))
  | Err e => Err (e, (None, (left_over hs len, raw)))
  | Panic => Panic
  | NoFuel => NoFuel
  end.

(** [pop] on the joined payload and the bytes not parsed yet.  An error of the
    decrypter and of a header that is too large are not kept. *)
Fixpoint apop (fuel : nat) (hs : joined) (raw : list byte) (rl : RecordLayer)
    : res failure (option Deframed * (joined * list byte)) * RecordLayer :=
  match fuel with
  | O => (NoFuel, rl)
  | S fuel' =>
    let kept e := Err (e, (Some e, (hs, raw))) in
    match ready hs with
    | Some len => (acomplete hs raw len, rl)
    | None =>
      if is_quic hs then (Ok (None, (hs, raw)), rl) else
      match opaque_parse raw with
      | Err e =>
          match err_kind e with
          | None => (Ok (None, (hs, raw)), rl)
          | Some kind => (kept (E_InvalidMessage kind), rl)
          end
      | Ok (m, tl) =>
          if bool_decide (om_typ m = ContentType.ChangeCipherSpec) && negb (is_some hs)
          then (Ok (Some (mkDeframed false true false (into_plain_message m)), (hs, tl)), rl)
          else
          match decrypt_incoming false rl m with
          | (Ok (Some decrypted), rl) =>
              let msg := plaintext decrypted in
              if negb (bool_decide (pm_typ msg = ContentType.Handshake)) then
                if is_some hs
                then (kept (E_PeerMisbehaved PM_MessageInterleavedWithHandshakeMessage), rl)
                else (Ok (Some (mkDeframed false true false msg), (hs, tl)), rl)
              else
                match ajoin hs (pm_version msg) (Payload_0 (pm_payload msg)) false with
                | Ok hs => apop fuel' hs tl rl
                | Err e => (Err (e, (None, refused hs (Payload_0 (pm_payload msg)) raw tl)), rl)
                | Panic => (Panic, rl)
                | NoFuel => (NoFuel, rl)
                end
          | (Ok None, rl) =>
              if is_some hs
              then (kept (E_PeerMisbehaved PM_RejectedEarlyDataInterleavedWithHandshakeMessage), rl)
              else apop fuel' hs tl rl
          | (Err e, rl) => (Err (e, (None, (hs, raw))), rl)
          | (Panic, rl) => (Panic, rl)
          | (NoFuel, rl) => (NoFuel, rl)
          end
      | Panic => (Panic, rl)
      | NoFuel => (NoFuel, rl)
      end
    end
  end.

(** ** The abstraction *)

Definition meta_payload (d : MessageDeframer) (meta : HandshakePayloadMeta) : list byte :=
  take (payload_end meta - payload_start meta) (drop (payload_start meta) (buf d)).

Definition d_hs (d : MessageDeframer) : joined :=
  match joining_hs d with
  | Some meta => Some (meta_version meta, meta_payload d meta, quic meta)
  | None => None
  end.

Definition d_start (d : MessageDeframer) : nat :=
  match joining_hs d with Some meta => message_end meta | None => 0 end.

Definition d_raw (d : MessageDeframer) : list byte := drop (d_start d) (take (used d) (buf d)).

(** The ranges are in order inside the used part of the buffer, and the
    expected length is the one in the header of the joined payload. *)
Definition deframer_inv (d : MessageDeframer) : Prop :=
  used d ≤ length (buf d) ∧
  match joining_hs d with
  | None => True
  | Some meta =>
      payload_start meta ≤ payload_end meta ∧ payload_end meta ≤ message_end meta ∧
      message_end meta ≤ used d ∧ (quic meta = true → message_end meta = used d) ∧
      payload_size (meta_payload d meta) = Ok (expected_len meta)
  end.

(** What the code relies on of a decrypter: it answers, and a plaintext is not
    longer than its ciphertext. *)
Definition decrypter_ok (rl : RecordLayer) : Prop :=
  ∀ m seq, match decrypt (message_decrypter rl) m seq with
    | Ok p => length (Payload_0 (pm_payload p)) ≤ length (Payload_0 (om_payload m))
    | Err _ => True
    | Panic | NoFuel => False
    end.

Lemma decrypt_incoming_ok rl m :
  decrypter_ok rl →
  match decrypt_incoming false rl m with
  | (Ok (Some dec), rl') => decrypter_ok rl' ∧
      length (Payload_0 (pm_payload (plaintext dec))) ≤ length (Payload_0 (om_payload m))
  | (Ok None, rl') | (Err _, rl') => decrypter_ok rl'
  | (Panic, _) | (NoFuel, _) => False
  end.
Proof.
  intros Hok. unfold decrypt_incoming, doing_trial_decryption.
  destruct (negb _); [done|]. specialize (Hok m (read_seq rl)) as Hm.
  destruct (decrypt _ m _) as [p|e| |]; [| |done|done].
  - unfold u64_incr. by case_bool_decide.
  - destruct e; try done. destruct (trial_decryption_len rl); [|done].
    by case_bool_decide.
Qed.

(** ** Discarding *)

Lemma discard_spec d taken :
  used d ≤ length (buf d) → taken ≤ used d →
  ∃ d', discard d taken = Ok d' ∧ used d' = used d - taken ∧ length (buf d') = length (buf d) ∧
    take (used d') (buf d') = drop taken (take (used d) (buf d)) ∧
    joining_hs d' = joining_hs d ∧ last_error d' = last_error d.
Proof.
  intros Hu Ht. unfold discard. case_bool_decide as Hlt.
  - rewrite slice_Ok by lia. cbn [res_bind]. eexists. split; [done|].
    cbn [used buf joining_hs last_error].
    assert (Hl : length (take (used d - taken) (drop taken (buf d))) = used d - taken).
    { rewrite length_take, length_drop. lia. }
    split_and!; [done| |  |done|done].
    + apply length_splice. lia.
    + unfold splice. rewrite take_0. cbn [app]. rewrite take_app_length' by done.
      by rewrite skipn_firstn_comm.
  - rewrite bool_decide_true by lia. eexists. split; [done|].
    cbn [used buf joining_hs last_error with_used]. split_and!; [lia|done| |done|done].
    rewrite take_0, drop_ge; [done|]. rewrite length_take. lia.
Qed.

(** ** Payload sizes *)

Lemma payload_size_app p q len :
  payload_size p = Ok (Some len) → payload_size (p ++ q) = Ok (Some len).
Proof.
  unfold payload_size. case_bool_decide as Hl; [done|].
  rewrite bool_decide_false by (rewrite length_app; lia).
  by rewrite take_app_le by lia.
Qed.

(** The one error of a header. *)
Definition too_large (e : Error) : Prop := e = E_InvalidMessage HandshakePayloadTooLarge.

Lemma payload_size_err p e : payload_size p = Err e → too_large e.
Proof.
  unfold payload_size, too_large. case_bool_decide; [done|].
  destruct (u24_read _).1; try done. case_bool_decide; [|done]. by intros [= <-].
Qed.

Lemma payload_size_returned p : returned (payload_size p).
Proof.
  unfold payload_size. case_bool_decide; [done|].
  destruct (u24_read _).1; try done. by case_bool_decide.
Qed.

Lemma payload_size_pos p len : payload_size p = Ok (Some len) → 4 ≤ len.
Proof.
  unfold payload_size, HS_HEADER_SIZE. case_bool_decide; [done|].
  destruct (u24_read _).1; try done. case_bool_decide; [done|]. intros [= <-]. lia.
Qed.
End spec.

(** * The refinement *)

Section refinement.
Context `{ForeignErrors}.

(** ** Joining a payload *)

(** What [append_hs] leaves: the payload is joined, [end_] bytes are done. *)
Definition joined_to (d d' : MessageDeframer) (meta : HandshakePayloadMeta) (end_ : nat) : Prop :=
  deframer_inv d' ∧ joining_hs d' = Some meta ∧ message_end meta = end_ ∧
  used d' = used d ∧ last_error d' = last_error d ∧ d_raw d' = drop end_ (take (used d) (buf d)).

Lemma append_hs_some d meta version payload end_ q :
  deframer_inv d → joining_hs d = Some meta → quic meta = false → 
  payload_end meta + length payload ≤ end_ → end_ ≤ used d →
  match ajoin (d_hs d) version payload q with
  | Ok hs' => ∃ d' meta', append_hs false d version payload end_ false = (Ok (append_state d' meta'), d') ∧
      joined_to d d' meta' end_ ∧ d_hs d' = hs' ∧ quic meta' = false
  | Err e => too_large e ∧ ∃ d', append_hs false d version payload end_ false = (Err e, d') ∧
      last_error d' = last_error d ∧ (d_hs d', d_raw d') = refused (d_hs d) payload (d_raw d) (drop end_ (take (used d) (buf d)))
  | Panic | NoFuel => False
  end.
Proof.
  intros [Hu Hinv] Hj Hq Hpe He. rewrite Hj in Hinv. destruct Hinv as (H1 & H2 & H3 & _ & Hsz).
  unfold d_hs, append_hs. rewrite Hj. unfold ajoin. cbn [debug_assert andb bind_d].
  unfold copy_at. rewrite bool_decide_true by lia. cbn [bind_d].
  set (b := splice (payload_end meta) payload (buf d)).
  assert (Hb : length b = length (buf d)) by (apply length_splice; lia).
  assert (Hpay : take (payload_end meta + length payload - payload_start meta)
    (drop (payload_start meta) b) = meta_payload d meta ++ payload).
  { apply slice_splice_grow; lia. }
  assert (Hraw : drop end_ (take (used d) b) = drop end_ (take (used d) (buf d))).
  { apply drop_take_splice_after; lia. }
  cbn [message_start message_end payload_start payload_end meta_version expected_len quic].
  destruct (expected_len meta) as [len|] eqn:El.
  - rewrite (payload_size_app _ payload len) by done. cbn [res_bind].
    eexists _, _. split; [done|]. unfold joined_to, deframer_inv, d_raw, d_start, d_hs, meta_payload.
    cbn [with_joining with_buf joining_hs used buf last_error message_start message_end
      payload_start payload_end meta_version expected_len quic].
    rewrite Hpay, Hraw, Hb. split_and!; try done; try lia; [congruence|].
    by apply payload_size_app.
  - cbn [with_joining with_buf buf]. rewrite slice_Ok by (rewrite ?Hb; lia). cbn [bind_d].
    rewrite Hpay.
    pose proof (payload_size_returned (meta_payload d meta ++ payload)) as Hret.
    destruct (payload_size (meta_payload d meta ++ payload)) as [expected|e| |] eqn:Ep;
      cbn [res_bind bind_d]; try done.
    2:{ split; [by eapply payload_size_err|]. eexists. split; [done|]. split; [done|].
      unfold refused, d_hs, d_raw, d_start, meta_payload.
      cbn [with_joining with_buf joining_hs used buf message_start message_end
        payload_start payload_end meta_version expected_len quic]. by rewrite Hpay, Hraw. }
    eexists _, _. split; [done|]. unfold joined_to, deframer_inv, d_raw, d_start, d_hs, meta_payload.
    cbn [with_joining with_buf joining_hs used buf last_error message_start message_end
      payload_start payload_end meta_version expected_len quic].
    rewrite Hpay, Hraw, Hb. split_and!; try done; try lia. congruence.
Qed.

Lemma append_hs_none d version payload end_ q :
  deframer_inv d → joining_hs d = None → length payload ≤ end_ → end_ ≤ used d →
  (q = true → end_ = used d) →
  match ajoin (d_hs d) version payload q with
  | Ok hs' => ∃ d' meta', append_hs false d version payload end_ q = (Ok (append_state d' meta'), d') ∧
      joined_to d d' meta' end_ ∧ d_hs d' = hs' ∧ quic meta' = q
  | Err e => too_large e ∧ ∃ d', append_hs false d version payload end_ q = (Err e, d') ∧
      last_error d' = last_error d ∧ (d_hs d', d_raw d') = refused (d_hs d) payload (d_raw d) (drop end_ (take (used d) (buf d)))
  | Panic | NoFuel => False
  end.
Proof.
  intros [Hu _] Hj Hpe He Hq. unfold d_hs, append_hs. rewrite Hj. unfold ajoin.
  pose proof (payload_size_returned payload) as Hret.
  destruct (payload_size payload) as [expected|e| |] eqn:Ep; cbn [res_bind bind_d]; try done.
  2:{ split; [by eapply payload_size_err|]. exists d. split; [done|]. split; [done|]. by rewrite Hj. }
  unfold copy_at. rewrite bool_decide_true by lia. cbn [bind_d].
  set (b := splice 0 payload (buf d)).
  assert (Hb : length b = length (buf d)) by (apply length_splice; lia).
  assert (Hpay : take (length payload - 0) (drop 0 b) = payload).
  { unfold b, splice. rewrite take_0, drop_0, Nat.sub_0_r. cbn [app]. apply take_app_length. }
  assert (Hraw : drop end_ (take (used d) b) = drop end_ (take (used d) (buf d))).
  { apply drop_take_splice_after; lia. }
  eexists _, _. split; [done|]. unfold joined_to, deframer_inv, d_raw, d_start, d_hs, meta_payload.
  cbn [with_joining with_buf joining_hs used buf last_error message_start message_end
    payload_start payload_end meta_version expected_len quic].
  rewrite Hpay, Hraw, Hb. split_and!; try done; lia.
Qed.

(** ** The loop *)

Lemma ready_eq d meta :
  deframer_inv d → joining_hs d = Some meta →
  ready (d_hs d) = match expected_len meta with
    | Some len => if bool_decide (len ≤ payload_len meta) then Some len else None
    | None => None
    end.
Proof.
  intros [Hu Hinv] Hj. rewrite Hj in Hinv. destruct Hinv as (H1 & H2 & H3 & _ & Hsz).
  unfold d_hs, ready. rewrite Hj, Hsz. destruct (expected_len meta) as [len|]; [|done].
  unfold payload_len, meta_payload. rewrite length_take, length_drop, Nat.min_l by lia. done.
Qed.

Lemma d_start_used d : deframer_inv d → d_start d ≤ used d.
Proof. intros [Hu Hinv]. unfold d_start. destruct (joining_hs d); [lia|lia]. Qed.

Lemma d_raw_slice d :
  deframer_inv d → slice (E := unit) (d_start d) (used d) (buf d) = Ok (d_raw d).
Proof.
  intros Hd. pose proof (d_start_used d Hd). destruct Hd as [Hu _].
  rewrite slice_Ok by lia. unfold d_raw. by rewrite skipn_firstn_comm.
Qed.

Lemma d_raw_length d : deframer_inv d → length (d_raw d) = used d - d_start d.
Proof.
  intros Hd. pose proof (d_start_used d Hd). destruct Hd as [Hu _].
  unfold d_raw. rewrite length_drop, length_take. lia.
Qed.

(** The decision at the head of the loop. *)
Definition loop_start (d : MessageDeframer) : loop_exit + nat :=
  match joining_hs d with
  | Some meta =>
      match expected_len meta with
      | Some len => if bool_decide (len ≤ payload_len meta) then inl (Exit_break len)
          else if quic meta then inl (Exit_return None) else inr (message_end meta)
      | None => if quic meta then inl (Exit_return None) else inr (message_end meta)
      end
  | None => inr 0
  end.

Lemma loop_start_spec d :
  deframer_inv d →
  loop_start d = match ready (d_hs d) with
    | Some len => inl (Exit_break len)
    | None => if is_quic (d_hs d) then inl (Exit_return None) else inr (d_start d)
    end.
Proof.
  intros Hd. unfold loop_start, d_start. destruct (joining_hs d) as [meta|] eqn:Hj.
  - rewrite (ready_eq d meta Hd Hj). unfold is_quic, d_hs. rewrite Hj.
    destruct (expected_len meta); [|done]. by case_bool_decide.
  - by unfold d_hs, ready, is_quic; rewrite Hj.
Qed.

Lemma is_some_d_hs d : is_some (d_hs d) = is_some (joining_hs d).
Proof. unfold d_hs. by destruct (joining_hs d). Qed.

(** Where the reader stops, in the buffer. *)
Lemma record_end d m tl :
  deframer_inv d → opaque_parse (d_raw d) = Ok (m, tl) →
  let end_ := d_start d + (length (d_raw d) - length tl) in
  drop end_ (take (used d) (buf d)) = tl ∧ end_ ≤ used d ∧
  d_start d + 5 + length (Payload_0 (om_payload m)) = end_.
Proof.
  intros Hd Hp. pose proof (d_start_used d Hd) as Hs. pose proof (d_raw_length d Hd) as Hl.
  apply opaque_parse_sound in Hp as [Hwf E].
  destruct (OpaqueMessage_encode_bytes m Hwf) as (t & v1 & v2 & l1 & l2 & Em & _).
  assert (Hlen : length (d_raw d) = 5 + length (Payload_0 (om_payload m)) + length tl).
  { rewrite E, length_app, Em. cbn [length]. lia. }
  cbv zeta. split_and!; [|lia|lia].
  rewrite <- drop_drop. change (drop (d_start d) (take (used d) (buf d))) with (d_raw d).
  rewrite E at 2. apply drop_app_length'. rewrite E, length_app. lia.
Qed.

(** A record leaves an idle deframer. *)
Lemma discard_idle d end_ :
  deframer_inv d → joining_hs d = None → end_ ≤ used d →
  ∃ d', discard d end_ = Ok d' ∧ deframer_inv d' ∧ d_hs d' = None ∧ joining_hs d' = None ∧
    d_raw d' = drop end_ (take (used d) (buf d)) ∧ used d' = used d - end_ ∧
    last_error d' = last_error d.
Proof.
  intros [Hu _] Hj He. destruct (discard_spec d end_ Hu He) as (d' & E & Hu' & Hb & Ht & Hj' & Hle).
  exists d'. rewrite Hj in Hj'. unfold deframer_inv, d_hs, d_raw, d_start. rewrite Hj'.
  split_and!; try done; lia.
Qed.

(** What the loop has done when it stops: [apop], with one more round for the
    message that it found complete. *)
Definition loop_ok (r : res Error loop_exit * pop_state) (le : option Error)
    (a : res failure (option Deframed * (joined * list byte)) * RecordLayer) : Prop :=
  match r with
  | (Ok (Exit_return o), (d', rl')) =>
      deframer_inv d' ∧ last_error d' = le ∧ a = (Ok (o, (d_hs d', d_raw d')), rl')
  | (Ok (Exit_break len), (d', rl')) =>
      deframer_inv d' ∧ last_error d' = le ∧ ready (d_hs d') = Some len ∧
      a = (acomplete (d_hs d') (d_raw d') len, rl')
  | (Err e, (d', rl')) =>
      (deframer_inv d' ∨ too_large e) ∧ a = (Err (e, (last_error d', (d_hs d', d_raw d'))), rl')
  | (Panic, _) | (NoFuel, _) => False
  end.

Lemma apop_ready fuel hs raw rl len :
  ready hs = Some len → apop (S fuel) hs raw rl = (acomplete hs raw len, rl).
Proof. intros E. cbn [apop]. by rewrite E. Qed.

Lemma apop_empty fuel hs rl :
  ready hs = None → apop (S fuel) hs [] rl = (Ok (None, (hs, [])), rl).
Proof. intros E. cbn [apop]. rewrite E. by destruct (is_quic hs). Qed.

(** The round that joined a payload goes on as [append_state] says. *)
Lemma loop_after_append fuel d d' meta end_ rl :
  joined_to d d' meta end_ → quic meta = false → last_error d' = last_error d →
  (end_ < used d' → loop_ok (pop_loop false (S fuel) d' rl) (last_error d)
    (apop (S (S fuel)) (d_hs d') (d_raw d') rl)) →
  loop_ok (match append_state d' meta with
    | HPS_Blocked => (Ok (Exit_return None), (d', rl))
    | HPS_Complete len => (Ok (Exit_break len), (d', rl))
    | HPS_Continue => pop_loop false (S fuel) d' rl
    end) (last_error d) (apop (S (S fuel)) (d_hs d') (d_raw d') rl).
Proof.
  intros (Hinv & Hj & Hme & Hu & _ & Hraw) Hq Hle Hrec. unfold append_state.
  pose proof (ready_eq d' meta Hinv Hj) as Hr.
  assert (Hwait : ready (d_hs d') = None → loop_ok
    (match (if bool_decide (message_end meta < used d') then HPS_Continue else HPS_Blocked) with
    | HPS_Blocked => (Ok (Exit_return None), (d', rl))
    | HPS_Complete len => (Ok (Exit_break len), (d', rl))
    | HPS_Continue => pop_loop false (S fuel) d' rl
    end) (last_error d) (apop (S (S fuel)) (d_hs d') (d_raw d') rl)).
  { intros Hn. case_bool_decide as Hc; [apply Hrec; lia|].
    assert (d_raw d' = []) as E.
    { pose proof (d_raw_length d' Hinv) as Hl. unfold d_start in Hl. rewrite Hj in Hl.
      apply length_zero_iff_nil. lia. }
    rewrite E, apop_empty by done. cbn [loop_ok]. by rewrite E. }
  destruct (expected_len meta) as [len|]; [|by apply Hwait].
  destruct (decide (len ≤ payload_len meta)) as [Hlen|Hlen];
    [rewrite (bool_decide_true _ Hlen) in *|rewrite (bool_decide_false _ Hlen) in *; by apply Hwait].
  rewrite (apop_ready _ _ _ _ len) by done. by cbn [loop_ok].
Qed.
(** A handshake record that came in by itself or joins what is there. *)
Lemma append_hs_spec d version payload end_ :
  deframer_inv d → is_quic (d_hs d) = false →
  d_start d + length payload ≤ end_ → end_ ≤ used d →
  match ajoin (d_hs d) version payload false with
  | Ok hs' => ∃ d' meta', append_hs false d version payload end_ false = (Ok (append_state d' meta'), d') ∧
      joined_to d d' meta' end_ ∧ d_hs d' = hs' ∧ quic meta' = false
  | Err e => too_large e ∧ ∃ d', append_hs false d version payload end_ false = (Err e, d') ∧
      last_error d' = last_error d ∧ (d_hs d', d_raw d') = refused (d_hs d) payload (d_raw d) (drop end_ (take (used d) (buf d)))
  | Panic | NoFuel => False
  end.
Proof.
  intros Hd Hq Hs He. unfold d_start in Hs. destruct (joining_hs d) as [meta|] eqn:Hj.
  - pose proof Hd as [_ Hi]. rewrite Hj in Hi.
    apply (append_hs_some d meta); try done; [|lia].
    unfold is_quic, d_hs in Hq. by rewrite Hj in Hq.
  - by apply append_hs_none.
Qed.

(** The rounds of the loop that hold for shorter fuel. *)
Definition rounds_ok (fuel : nat) : Prop := ∀ d rl,
  deframer_inv d → decrypter_ok rl → last_error d = None → used d - d_start d < fuel →
  loop_ok (pop_loop false fuel d rl) (last_error d) (apop (S fuel) (d_hs d) (d_raw d) rl).

(** The round that decrypts a handshake record. *)
Lemma round_handshake fuel d rl' msg m tl :
  rounds_ok fuel → deframer_inv d → decrypter_ok rl' → last_error d = None → used d - d_start d < S fuel →
  is_quic (d_hs d) = false → opaque_parse (d_raw d) = Ok (m, tl) →
  length (Payload_0 (pm_payload msg)) ≤ length (Payload_0 (om_payload m)) →
  let end_ := d_start d + (length (d_raw d) - length tl) in
  loop_ok
    match append_hs false d (pm_version msg) (Payload_0 (pm_payload msg)) end_ false with
    | (Ok HPS_Blocked, d) => (Ok (Exit_return None), (d, rl'))
    | (Ok (HPS_Complete len), d) => (Ok (Exit_break len), (d, rl'))
    | (Ok HPS_Continue, d) => pop_loop false fuel d rl'
    | (Err e, d) => (Err e, (d, rl'))
    | (Panic, d) => (Panic, (d, rl'))
    | (NoFuel, d) => (NoFuel, (d, rl'))
    end (last_error d)
    match ajoin (d_hs d) (pm_version msg) (Payload_0 (pm_payload msg)) false with
    | Ok hs => apop (S fuel) hs tl rl'
    | Err e => (Err (e, (None, refused (d_hs d) (Payload_0 (pm_payload msg)) (d_raw d) tl)), rl')
    | Panic => (Panic, rl')
    | NoFuel => (NoFuel, rl')
    end.
Proof.
  intros IH Hd Hrl Hle Hf Eq Ep Hlen. destruct (record_end d m tl Hd Ep) as (Htl & Hend & H5).
  cbv zeta. set (end_ := d_start d + _) in *.
  pose proof (append_hs_spec d (pm_version msg) (Payload_0 (pm_payload msg)) end_ Hd Eq
    ltac:(lia) Hend) as Ha.
  destruct (ajoin (d_hs d) _ _ false) as [hs'|e| |]; try done.
  - destruct Ha as (d' & meta' & -> & Hjoin & <- & Hq').
    pose proof Hjoin as (Hd' & Hj' & Hme & Hu' & Hle' & Hraw'). rewrite Htl in Hraw'.
    assert (Hs' : d_start d' = end_) by (unfold d_start; by rewrite Hj').
    rewrite <- Hraw'. destruct fuel as [|fuel]; [lia|].
    pose proof (loop_after_append fuel d d' meta' end_ rl' Hjoin Hq' Hle') as Hl.
    destruct (append_state d' meta'); apply Hl; intros; rewrite <- Hle'; apply IH; try done; (congruence || lia).
  - destruct Ha as (Hl & d' & -> & Hle' & Hst). cbn [loop_ok]. split; [by right|]. by rewrite Hst, Htl, Hle', Hle.
Qed.

(** The round that returns a record as it is. *)
Lemma round_return d rl m tl msg :
  deframer_inv d → is_some (joining_hs d) = false → opaque_parse (d_raw d) = Ok (m, tl) →
  loop_ok (return_record d rl (d_start d + (length (d_raw d) - length tl)) msg) (last_error d)
    (Ok (Some (mkDeframed false true false msg), (d_hs d, tl)), rl).
Proof.
  intros Hd Hn Ep. destruct (record_end d m tl Hd Ep) as (Htl & Hend & _).
  destruct (joining_hs d) eqn:Hj; [done|].
  destruct (discard_idle d _ Hd Hj Hend) as (d' & E & Hd' & Hhs & Hj' & Hraw & Hu' & Hle).
  unfold return_record. rewrite E. cbn [loop_ok]. split_and!; [done|done|].
  unfold d_hs at 1. by rewrite Hj, Hhs, Hraw, Htl.
Qed.

(** The round that drops a record of rejected early data. *)
Lemma round_drop fuel d rl m tl :
  rounds_ok fuel → deframer_inv d → decrypter_ok rl → last_error d = None → used d - d_start d < S fuel →
  is_some (joining_hs d) = false → opaque_parse (d_raw d) = Ok (m, tl) →
  loop_ok
    match discard d (d_start d + (length (d_raw d) - length tl)) with
    | Ok d => pop_loop false fuel d rl
    | _ => (Panic, (d, rl))
    end (last_error d) (apop (S fuel) (d_hs d) tl rl).
Proof.
  intros IH Hd Hrl Hle0 Hf Hn Ep. destruct (record_end d m tl Hd Ep) as (Htl & Hend & H5).
  destruct (joining_hs d) eqn:Hj; [done|].
  destruct (discard_idle d _ Hd Hj Hend) as (d' & -> & Hd' & Hhs & Hj' & Hraw & Hu' & Hle).
  rewrite Htl in Hraw. rewrite <- Hraw. unfold d_hs at 1. rewrite Hj, <- Hhs, <- Hle.
  apply IH; try done; [congruence|]. unfold d_start in *. rewrite Hj in *. rewrite Hj', Hu'. lia.
Qed.

(** One record, or many: the loop is [apop]. *)
Lemma pop_loop_refines fuel : rounds_ok fuel.
Proof.
  induction fuel as [|fuel IH]; intros d rl Hd Hrl Hle Hf; [lia|].
  cbn [pop_loop]. change (match joining_hs d with Some _ => _ | None => inr 0 end) with (loop_start d).
  rewrite loop_start_spec by done.
  destruct (ready (d_hs d)) as [len|] eqn:Er.
  { rewrite (apop_ready _ _ _ _ len) by done. by cbn [loop_ok]. }
  remember (S fuel) as fuel1. cbn [apop]. subst fuel1. rewrite Er.
  destruct (is_quic (d_hs d)) eqn:Eq; [by cbn [loop_ok]|].
  rewrite d_raw_slice by done.
  pose proof (OpaqueMessage_read_spec (d_raw d) 0 ltac:(lia)) as Hread. rewrite drop_0 in Hread.
  unfold Reader_init.
  destruct (opaque_parse (d_raw d)) as [[m tl]|e| |] eqn:Ep; try done.
  2: { destruct (OpaqueMessage_read _) as [r0 rd]; cbn [fst] in Hread; subst r0.
    destruct e; cbn [err_kind fail set_err loop_ok]; split_and!; by try left. }
  rewrite Hread. cbv zeta. unfold Reader_used. cbn [cursor]. rewrite is_some_d_hs.
  destruct (bool_decide (om_typ m = _) && negb _) eqn:Eccs.
  { apply andb_true_iff in Eccs as [_ Hn%negb_true_iff]. by apply (round_return d rl m). }
  pose proof (decrypt_incoming_ok rl m Hrl) as Hdec.
  destruct (decrypt_incoming false rl m) as [[[dec|]|e| |] rl'] eqn:Edec; try done.
  - destruct Hdec as [Hrl' Hlen]. cbn [andb].
    destruct (bool_decide (pm_typ (plaintext dec) = _)) eqn:Ety; cbn [negb andb].
    + rewrite andb_false_r. by apply (round_handshake fuel d rl' (plaintext dec) m tl).
    + rewrite andb_true_r. destruct (is_some (joining_hs d)) eqn:Es; [by split; [left|]|].
      by apply (round_return d rl' m).
  - destruct (is_some (joining_hs d)) eqn:Es; [by split; [left|]|]. by apply (round_drop fuel d rl' m tl).
  - split; [by left|]. by rewrite Hle.
Qed.

(** ** After the loop *)

Lemma pop_complete_refines d len :
  deframer_inv d → ready (d_hs d) = Some len →
  match aemit (d_hs d) len with
  | Ok (o, hs') => ∃ d', pop_complete d len = (Ok o, d') ∧ deframer_inv d' ∧ d_hs d' = hs' ∧
      d_raw d' = d_raw d ∧ last_error d' = last_error d
  | Err e => too_large e ∧ ∃ d', pop_complete d len = (Err e, d') ∧ last_error d' = last_error d ∧
      d_hs d' = left_over (d_hs d) len ∧ d_raw d' = d_raw d
  | Panic | NoFuel => False
  end.
Proof.
  intros Hd Hr. pose proof Hd as [Hu Hi]. unfold pop_complete. unfold d_hs in Hr |- *.
  destruct (joining_hs d) as [meta|] eqn:Hj; [|done].
  destruct Hi as (H1 & H2 & H3 & Hq & Hsz).
  assert (Hlenp : length (meta_payload d meta) = payload_len meta).
  { unfold meta_payload, payload_len. rewrite length_take, length_drop. lia. }
  unfold ready in Hr. rewrite Hsz in Hr. destruct (expected_len meta) as [len'|]; [|done].
  case_bool_decide as Hle; [|done]. injection Hr as ->. rewrite Hlenp in Hle.
  unfold payload_len in *. rewrite slice_Ok by lia. cbn [bind_d]. cbv zeta.
  replace (payload_start meta + len - payload_start meta) with len by lia.
  assert (Ep : take len (drop (payload_start meta) (buf d)) = take len (meta_payload d meta)).
  { unfold meta_payload. rewrite take_take. f_equal. lia. }
  assert (Er : drop len (meta_payload d meta)
    = take (payload_end meta - (payload_start meta + len)) (drop (payload_start meta + len) (buf d))).
  { unfold meta_payload. rewrite skipn_firstn_comm, drop_drop. f_equal; lia. }
  rewrite Ep. unfold aemit.
  destruct (decide (len < payload_end meta - payload_start meta)) as [Hlt|Hge].
  - rewrite (bool_decide_true _ Hlt).
    rewrite (bool_decide_false (drop len _ = [])).
    2: { intros E%(f_equal length). rewrite length_drop in E. cbn [length] in E. lia. }
    cbn [with_joining message_start message_end payload_start payload_end meta_version
      expected_len quic buf].
    rewrite slice_Ok by lia. cbn [bind_d]. rewrite <- Er.
    pose proof (payload_size_returned (drop len (meta_payload d meta))) as Hret.
    destruct (payload_size (drop len (meta_payload d meta))) as [ex|e| |] eqn:Ex;
      cbn [res_bind bind_d]; try done.
    2:{ split; [by eapply payload_size_err|]. eexists. split; [done|]. split; [done|].
      unfold left_over, d_hs, d_raw, d_start, meta_payload.
      cbn [with_joining joining_hs used buf message_start message_end payload_start payload_end meta_version
        expected_len quic]. rewrite Hj, <- Er. done. }
    eexists. split; [done|]. unfold deframer_inv, d_hs, d_raw, d_start, meta_payload.
    cbn [with_joining joining_hs used buf last_error message_start message_end payload_start
      payload_end meta_version expected_len quic is_some negb].
    rewrite Hj, <- Er. split_and!; try done; lia.
  - rewrite (bool_decide_false _ Hge).
    rewrite (bool_decide_true (drop len _ = [])) by (apply drop_ge; lia).
    destruct (discard_spec (with_joining d None) (message_end meta)) as (d' & E & Hu' & Hb & Ht & Hj' & Hl');
      [done|done|].
    rewrite E. cbn [bind_d]. cbn [with_joining joining_hs] in Hj'. rewrite Hj'.
    exists d'. split; [done|]. unfold deframer_inv, d_hs, d_raw, d_start. rewrite Hj', Hj.
    cbn [with_joining used buf last_error] in *. split_and!; try done; lia.
Qed.

(** ** Debug assertions

    Before the sequence numbers run out, they hold. *)
Lemma decrypt_incoming_debug rl m :
  (read_seq rl < SEQ_SOFT_LIMIT)%Z →
  decrypt_incoming true rl m = decrypt_incoming false rl m ∧
  (read_seq (decrypt_incoming false rl m).2 ≤ read_seq rl + 1)%Z ∧
  ∀ dec, (decrypt_incoming false rl m).1 = Ok (Some dec) → want_close_before_decrypt dec = false.
Proof.
  intros Hseq. unfold decrypt_incoming. destruct (negb _); [split_and!; [done|cbn; lia|by intros dec [= <-]]|].
  cbv zeta. rewrite (bool_decide_false (read_seq rl = SEQ_SOFT_LIMIT)) by lia.
  destruct (decrypt _ m _) as [p|e| |]; [|destruct e|..]; try (split_and!; [done|cbn; lia|done]).
  - unfold u64_incr. rewrite bool_decide_false by (unfold SEQ_SOFT_LIMIT in Hseq; lia).
    split_and!; [done|cbn; lia|by intros dec [= <-]].
  - unfold doing_trial_decryption. destruct (trial_decryption_len rl); [case_bool_decide|]; (split_and!; [done|cbn; lia|done]).
Qed.

Lemma append_hs_debug d version payload end_ :
  (∀ meta, joining_hs d = Some meta → quic meta = false) →
  append_hs true d version payload end_ false = append_hs false d version payload end_ false.
Proof.
  intros Hq. unfold append_hs. destruct (joining_hs d) as [meta|]; [|done].
  unfold debug_assert. by rewrite (Hq meta), bool_decide_true.
Qed.

Lemma pop_loop_debug fuel d rl :
  (read_seq rl + Z.of_nat fuel ≤ SEQ_SOFT_LIMIT)%Z → pop_loop true fuel d rl = pop_loop false fuel d rl.
Proof.
  revert d rl. induction fuel as [|fuel IH]; intros d rl Hseq; [done|]. cbn [pop_loop].
  destruct (match joining_hs d with Some _ => _ | None => inr 0 end) as [|start] eqn:Es; [done|].
  assert (Hq : ∀ meta, joining_hs d = Some meta → quic meta = false).
  { intros meta E. rewrite E in Es. destruct (quic meta); [|done].
    destruct (expected_len meta); [|done]. by case_bool_decide. }
  destruct (slice _ _ _) as [bytes| | |]; try done.
  destruct (OpaqueMessage_read _) as [[m| | |] rd]; try done. cbv zeta.
  destruct (_ && negb (is_some _)); [done|].
  destruct (decrypt_incoming_debug rl m ltac:(lia)) as (-> & Hnext & Hclose).
  destruct (decrypt_incoming false rl m) as [[[dec|]|e| |] rl']; try done.
  - rewrite (Hclose dec eq_refl). cbn [andb]. destruct (_ && negb _); [done|]. destruct (negb _); [done|].
    rewrite append_hs_debug by done. destruct (append_hs _ _ _ _ _ _) as [[[| |]| | |] d']; try done.
    apply IH. cbn [snd] in Hnext. lia.
  - destruct (is_some _); [done|]. destruct (discard _ _); try done. apply IH. cbn [snd] in Hnext. lia.
Qed.

(** ** [pop] *)

(** The error that stays is the one returned. *)
Lemma apop_kept fuel hs raw rl e le st rl' :
  apop fuel hs raw rl = (Err (e, (le, st)), rl') → le = None ∨ le = Some e.
Proof.
  revert hs raw rl. induction fuel as [|fuel IH]; intros hs raw rl; [done|]. cbn [apop].
  destruct (ready hs) as [len|].
  { unfold acomplete. destruct (aemit hs len) as [[]| | |]; try done. intros [= <- <- _ _]. by left. }
  destruct (is_quic hs); [done|]. destruct (opaque_parse raw) as [[m tl]|err| |]; try done.
  2:{ destruct (err_kind err); [|done]. intros [= <- <- _ _]. by right. }
  destruct (_ && _); [done|]. destruct (decrypt_incoming false rl m) as [[[dec|]|err| |] rl1]; try done.
  - cbv zeta. destruct (negb _); [destruct (is_some hs); [|done]; intros [= <- <- _ _]; by right|].
    destruct (ajoin _ _ _ _); try done; [apply IH|]. intros [= <- <- _ _]. by left.
  - destruct (is_some hs); [intros [= <- <- _ _]; by right|apply IH].
  - intros [= <- <- _ _]. by left.
Qed.

(** The outcome of a [pop]: that of [apop]. *)
Definition pop_ok (d : MessageDeframer) (rl : RecordLayer) (out : res Error (option Deframed) * pop_state) : Prop :=
  match out with
  | (Ok o, (d', rl')) =>
      apop (used d + 2) (d_hs d) (d_raw d) rl = (Ok (o, (d_hs d', d_raw d')), rl') ∧
      deframer_inv d' ∧ last_error d' = None
  | (Err e, (d', rl')) =>
      apop (used d + 2) (d_hs d) (d_raw d) rl = (Err (e, (last_error d', (d_hs d', d_raw d'))), rl') ∧
      (last_error d' = None ∨ last_error d' = Some e) ∧ (deframer_inv d' ∨ too_large e)
  | (Panic, _) | (NoFuel, _) => False
  end.

Lemma pop_refines d rl :
  deframer_inv d → decrypter_ok rl → last_error d = None → pop_ok d rl (pop false d rl).
Proof.
  intros Hd Hrl Hle. unfold pop_ok. replace (used d + 2) with (S (S (used d))) by lia.
  unfold pop. rewrite Hle. case_bool_decide as Hu.
  - split; [|done]. pose proof (d_start_used d Hd) as Hs.
    assert (Hraw : d_raw d = []).
    { apply length_zero_iff_nil. rewrite d_raw_length by done. lia. }
    rewrite Hraw. apply apop_empty. pose proof Hd as [_ Hi].
    unfold d_hs, ready. destruct (joining_hs d) as [meta|] eqn:Hj; [|done].
    destruct Hi as (H1 & H2 & H3 & _ & Hsz). rewrite Hsz.
    destruct (expected_len meta) as [len|] eqn:El; [|done].
    apply payload_size_pos in Hsz. rewrite bool_decide_false; [done|].
    unfold meta_payload. rewrite length_take, length_drop. lia.
  - pose proof (pop_loop_refines (S (used d)) d rl Hd Hrl Hle ltac:(lia)) as Hl. rewrite Hle in Hl.
    destruct (pop_loop false (S (used d)) d rl) as [[[o|len]|e| |] [d' rl']]; cbn [loop_ok] in Hl; try done.
    + by destruct Hl as (Hd' & Hle' & ->).
    + destruct Hl as (Hd' & Hle' & Hr & ->).
      pose proof (pop_complete_refines d' len Hd' Hr) as Hc. unfold acomplete.
      destruct (aemit (d_hs d') len) as [[o hs']|e| |]; try done.
      * destruct Hc as (d2 & -> & Hd2 & <- & Hraw & Hle2).
        rewrite Hraw. split_and!; [done|done|congruence].
      * destruct Hc as (Hbig & d2 & -> & Hle2 & -> & ->). rewrite Hle2, Hle'. split_and!; [done|by left|by right].
    + destruct Hl as [Hi E]. split_and!; [done| |done]. by eapply apop_kept.
Qed.

(** With debug assertions, while the sequence numbers last. *)
Lemma pop_debug debug d rl :
  (debug = true → read_seq rl + Z.of_nat (used d) < SEQ_SOFT_LIMIT)%Z → pop debug d rl = pop false d rl.
Proof.
  intros Hseq. destruct debug; [|done]. unfold pop. destruct (last_error d); [done|].
  case_bool_decide; [done|]. rewrite pop_loop_debug; [done|]. specialize (Hseq eq_refl). lia.
Qed.
End refinement.

(** * Reading *)

Section reading.
Context `{ForeignErrors}.

Lemma vec_resize_take n u (l : list byte) : u ≤ n → u ≤ length l → take u (vec_resize n l) = take u l.
Proof.
  intros Hn Hl. unfold vec_resize. rewrite resize_spec.
  rewrite take_app_le by (rewrite length_take; lia). rewrite take_take. f_equal. lia.
Qed.

(** What a deframer holds depends on the used bytes only. *)
Lemma same_used d d' :
  deframer_inv d → joining_hs d' = joining_hs d → used d' = used d →
  take (used d) (buf d') = take (used d) (buf d) → used d ≤ length (buf d') →
  deframer_inv d' ∧ d_hs d' = d_hs d ∧ d_raw d' = d_raw d.
Proof.
  intros [Hu Hi] Hj Hus Ht Hl.
  assert (Hp : ∀ meta, joining_hs d = Some meta → meta_payload d' meta = meta_payload d meta).
  { intros meta Em. rewrite Em in Hi. unfold meta_payload. rewrite <- !skipn_firstn_comm.
    f_equal. apply (f_equal (take (payload_end meta))) in Ht. rewrite !take_take in Ht.
    by rewrite !Nat.min_l in Ht by lia. }
  unfold deframer_inv, d_hs, d_raw, d_start. rewrite Hj, Hus, Ht.
  destruct (joining_hs d) as [meta|] eqn:Em; [|done]. by rewrite (Hp meta).
Qed.

(** The room for handshake messages; twice the room for one record. *)
Definition allow_max (d : MessageDeframer) : nat :=
  match joining_hs d with Some _ => Z.to_nat MAX_HANDSHAKE_SIZE | None => MAX_WIRE_SIZE end.

Lemma allow_max_bound d : allow_max d ≤ Z.to_nat MAX_HANDSHAKE_SIZE.
Proof.
  unfold allow_max, MAX_WIRE_SIZE, MAX_HANDSHAKE_SIZE, MAX_PAYLOAD, HEADER_SIZE.
  destruct (joining_hs d); lia.
Qed.

Lemma prepare_read_spec d :
  deframer_inv d →
  match prepare_read d with
  | (Ok _, d') => deframer_inv d' ∧ d_hs d' = d_hs d ∧ d_raw d' = d_raw d ∧
      used d' = used d ∧ last_error d' = last_error d ∧ joining_hs d' = joining_hs d ∧
      used d < length (buf d') ≤ allow_max d
  | (Err e, d') => e = "message buffer full"%string ∧ d' = d ∧ allow_max d ≤ used d
  | (Panic, _) | (NoFuel, _) => False
  end.
Proof.
  intros Hd. pose proof Hd as [Hu _]. unfold prepare_read. fold (allow_max d). cbv zeta.
  destruct (decide (allow_max d ≤ used d)) as [Hfull|Hfull];
    [by rewrite (bool_decide_true _ Hfull)|rewrite (bool_decide_false _ Hfull)].
  set (need := allow_max d `min` (used d + READ_SIZE)).
  assert (Hneed : used d < need ≤ allow_max d) by (unfold need, READ_SIZE; lia).
  assert (Hres : length (vec_resize need (buf d)) = need) by apply length_resize.
  assert (Hcase : deframer_inv (with_buf d (vec_resize need (buf d))) ∧
    d_hs (with_buf d (vec_resize need (buf d))) = d_hs d ∧
    d_raw (with_buf d (vec_resize need (buf d))) = d_raw d).
  { apply same_used; try done; cbn [with_buf buf]; [apply vec_resize_take; lia|lia]. }
  destruct Hcase as (H1 & H2 & H3).
  case_bool_decide as Hlt; [|destruct (decide (used d = 0 ∨ allow_max d < length (buf d))) as [Hs|Hs]].
  - split_and!; try done; cbn [with_buf buf]; lia.
  - replace (_ || _) with true.
    2: { symmetry. apply orb_true_iff. by rewrite !bool_decide_eq_true. }
    split_and!; try done; cbn [with_buf buf]; lia.
  - replace (_ || _) with false.
    2: { symmetry. apply orb_false_iff. rewrite !bool_decide_eq_false. naive_solver. }
    split_and!; try done; lia.
Qed.

(** [read]: the new bytes go to the end of the bytes not parsed yet. *)
Lemma deframer_read_spec d rd :
  deframer_inv d → is_quic (d_hs d) = false →
  (∀ room new, rd room = Some new → length new ≤ room) →
  match deframer_read d rd with
  | (Ok n, d') => ∃ room new, (0 < room)%nat ∧ rd room = Some new ∧ n = length new ∧ deframer_inv d' ∧
      d_hs d' = d_hs d ∧ d_raw d' = d_raw d ++ new ∧ used d' ≤ allow_max d ∧
      last_error d' = last_error d
  | (Err e, d') => deframer_inv d' ∧ d_hs d' = d_hs d ∧ d_raw d' = d_raw d ∧
      last_error d' = last_error d ∧
      (allow_max d ≤ used d ∨ ∃ room, (0 < room)%nat ∧ rd room = None)
  | (Panic, _) | (NoFuel, _) => False
  end.
Proof.
  intros Hd Hq Hrd. pose proof (prepare_read_spec d Hd) as Hp. unfold deframer_read.
  destruct (prepare_read d) as [[[]|e| |] d1]; try done; [|by destruct Hp as (_ & -> & Hfull); split_and!; try done; left].
  destruct Hp as (Hd1 & Hhs & Hraw & Hu & Hle & Hj & Hroom).
  rewrite bool_decide_false by lia.
  destruct (rd (length (buf d1) - used d1)) as [new|] eqn:Er.
  2: { split_and!; try done. right. exists (length (buf d1) - used d1). split; [lia|done]. }
  exists (length (buf d1) - used d1), new. pose proof (Hrd _ _ Er) as Hnew.
  set (d' := with_used _ _).
  assert (Hb : length (splice (used d1) new (buf d1)) = length (buf d1)).
  { apply length_splice. lia. }
  assert (Ht : take (used d1 + length new) (splice (used d1) new (buf d1)) = take (used d1) (buf d1) ++ new).
  { unfold splice. rewrite app_assoc. apply take_app_length'.
    rewrite length_app, length_take. lia. }
  assert (Hdd : deframer_inv (with_buf d1 (splice (used d1) new (buf d1))) ∧
    d_hs (with_buf d1 (splice (used d1) new (buf d1))) = d_hs d1 ∧
    d_raw (with_buf d1 (splice (used d1) new (buf d1))) = d_raw d1).
  { apply same_used; try done; cbn [with_buf buf]; [|rewrite Hb; lia].
    unfold splice. apply take_app_length'. rewrite length_take. lia. }
  destruct Hdd as (Hi2 & Hhs2 & _).
  assert (Hs1 : d_start d1 ≤ used d1) by by apply d_start_used.
  split_and!; try done; [lia| | | |unfold d'; cbn [with_used with_buf used]; lia].
  - destruct Hi2 as [_ Hi2]. split; [unfold d'; cbn [with_used with_buf used buf]; lia|].
    unfold d'. cbn [with_used with_buf joining_hs used buf] in *.
    destruct (joining_hs d1) as [meta|] eqn:Em; [|done].
    destruct Hi2 as (? & ? & ? & Hqm & ?). split_and!; try done; [lia|].
    intros E. unfold is_quic in Hq. rewrite <- Hhs in Hq. unfold d_hs in Hq. rewrite Em in Hq.
    congruence.
  - rewrite <- Hhs, <- Hhs2. done.
  - rewrite <- Hraw. unfold d', d_raw, d_start. cbn [with_used with_buf joining_hs used buf].
    rewrite Ht.
    fold (d_start d1). rewrite drop_app_le by (rewrite length_take; destruct Hd1; lia). done.
Qed.
End reading.

(** * Fragments come back together *)

Section reassembly.
Context `{ForeignErrors}.

(** The header of a message is in every prefix that is long enough. *)
Lemma payload_size_prefix p q :
  payload_size p = Ok None ∨ payload_size p = payload_size (p ++ q).
Proof.
  unfold payload_size. destruct (decide (length p < HS_HEADER_SIZE)) as [Hl|Hl].
  - left. by rewrite bool_decide_true.
  - right. rewrite !bool_decide_false by (rewrite ?length_app; lia).
    by rewrite take_app_le by lia.
Qed.

(** A deframer that does not decrypt yet, or any more. *)
Definition in_clear (rl : RecordLayer) : Prop := decrypt_state rl ≠ DS_Active.

Lemma decrypt_in_clear rl m :
  in_clear rl →
  decrypt_incoming false rl m = (Ok (Some (mkDecrypted false (into_plain_message m))), rl).
Proof. intros Hc. unfold decrypt_incoming. by rewrite bool_decide_false. Qed.

Definition hs_record (v : ProtocolVersion) (c : list byte) : OpaqueMessage :=
  mkOpaqueMessage ContentType.Handshake v (mkPayload c).

(** A prefix of a message is not ready, and can be joined with more. *)
Lemma prefix_not_ready v p q :
  payload_size (p ++ q) = Ok (Some (length (p ++ q))) → q ≠ [] → ready (Some (v, p, false)) = None.
Proof.
  intros Hsz Hq. unfold ready. destruct (payload_size_prefix p q) as [E|E]; rewrite E; [done|].
  rewrite Hsz. rewrite bool_decide_false; [done|].
  rewrite length_app. destruct q; [done|]. cbn [length]. lia.
Qed.

Lemma apop_record fuel hs v c cs tl rl :
  in_clear rl → ready hs = None → is_quic hs = false → OpaqueMessage_wf (hs_record v c) →
  apop (S fuel) hs (mjoin (OpaqueMessage_encode <$> (hs_record v <$> c :: cs)) ++ tl) rl
  = match ajoin hs v c false with
    | Ok hs => apop fuel hs (mjoin (OpaqueMessage_encode <$> (hs_record v <$> cs)) ++ tl) rl
    | Err e => (Err (e, (None, refused hs c (mjoin (OpaqueMessage_encode <$> (hs_record v <$> c :: cs)) ++ tl)
        (mjoin (OpaqueMessage_encode <$> (hs_record v <$> cs)) ++ tl))), rl)
    | Panic => (Panic, rl)
    | NoFuel => (NoFuel, rl)
    end.
Proof.
  intros Hc Hr Hq Hwf. cbn [apop]. rewrite Hr, Hq, !fmap_cons.
  change (mjoin (?x :: ?l)) with (x ++ mjoin l). rewrite <- app_assoc.
  rewrite opaque_parse_encode by done. rewrite decrypt_in_clear by done.
  rewrite bool_decide_false by done. cbn [andb plaintext into_plain_message pm_typ hs_record om_typ].
  rewrite bool_decide_true by done. done.
Qed.

Lemma apop_joins fuel v cs p tl rl :
  in_clear rl → Forall (λ c, OpaqueMessage_wf (hs_record v c)) cs →
  payload_size (p ++ mjoin cs) = Ok (Some (length (p ++ mjoin cs))) → length cs < fuel →
  apop fuel (Some (v, p, false)) (mjoin (OpaqueMessage_encode <$> (hs_record v <$> cs)) ++ tl) rl
  = (Ok (Some (mkDeframed false true true
      (mkPlainMessage ContentType.Handshake v (mkPayload (p ++ mjoin cs)))), (None, tl)), rl).
Proof.
  intros Hc. revert fuel p. induction cs as [|c cs IH]; intros fuel p Hwf Hsz Hf;
    destruct fuel as [|fuel]; try lia.
  - change (mjoin []) with (@nil byte) in *. rewrite app_nil_r in *.
    erewrite apop_ready by (unfold ready; rewrite Hsz; by rewrite bool_decide_true).
    unfold acomplete, aemit. rewrite bool_decide_true by (by apply drop_ge).
    rewrite firstn_all. done.
  - apply list.Forall_cons in Hwf as [Hwc Hwf].
    change (mjoin (c :: cs)) with (c ++ mjoin cs) in *.
    assert (Hne : c ≠ []) by (destruct Hwc as (_ & _ & _ & Hne & _); by apply Hne).
    rewrite apop_record; try done.
    2: { eapply prefix_not_ready; [done|]. by intros [? _]%app_eq_nil. }
    rewrite app_assoc in Hsz |- *. unfold ajoin.
    destruct (payload_size_prefix (p ++ c) (mjoin cs)) as [E|E]; rewrite ?E, ?Hsz;
      cbn [res_bind]; apply IH; try done; cbn [length] in Hf; lia.
Qed.

(** The first record of a message starts the joining. *)
Lemma apop_joins_first fuel v c cs tl rl :
  in_clear rl → Forall (λ c, OpaqueMessage_wf (hs_record v c)) (c :: cs) →
  payload_size (c ++ mjoin cs) = Ok (Some (length (c ++ mjoin cs))) → S (length cs) < fuel →
  apop fuel None (mjoin (OpaqueMessage_encode <$> (hs_record v <$> c :: cs)) ++ tl) rl
  = (Ok (Some (mkDeframed false true true
      (mkPlainMessage ContentType.Handshake v (mkPayload (c ++ mjoin cs)))), (None, tl)), rl).
Proof.
  intros Hc [Hwc Hwf]%list.Forall_cons Hsz Hf. destruct fuel as [|fuel]; [lia|].
  rewrite apop_record by done. unfold ajoin.
  destruct (payload_size_prefix c (mjoin cs)) as [E|E]; rewrite ?E, ?Hsz;
    cbn [res_bind]; apply apop_joins; try done; lia.
Qed.
End reassembly.

(** * Properties *)

(** C7: [pop] implements its specification on bytes.  On a deframer in its
    invariant, with a decrypter that answers and never makes a record longer, [pop]
    does not panic and does not run forever (with debug assertions, as long as the
    sequence numbers of the peer stay below the soft limit); its result, its message
    or its error, the error it keeps for the next call and the state it leaves are
    those of [apop], which knows only the handshake bytes joined so far and the bytes
    not parsed yet.  The invariant is kept, an error included, but for one error: a
    handshake message whose header announces more than 64 KiB.  An error that was
    kept is returned again, and nothing changes. *)
Theorem pop_refines_apop `{ForeignErrors} (debug : bool) (d : MessageDeframer) (rl : RecordLayer)
    (Hinv : deframer_inv d) (Hdec : decrypter_ok rl)
    (Hseq : (debug = true → read_seq rl + Z.of_nat (used d) < SEQ_SOFT_LIMIT)%Z) :
  match last_error d with
  | None => pop_ok d rl (pop debug d rl)
  | Some e => pop debug d rl = (Err e, (d, rl))
  end.
Proof.
  destruct (last_error d) as [e|] eqn:E; [unfold pop; by rewrite E|].
  rewrite pop_debug by done. by apply pop_refines.
Qed.

Definition example_buffer : list byte :=
  [x17; x03; x03; x00; x02; x61; x62] ++ [x16; x03; x03; x00; x01; x0e].

(** A record that is returned, and a message that is too large. *)
Lemma pop_refines_apop_witness :
  let d b : MessageDeframer (H := no_foreign) := mkMessageDeframer None b None (length b) in
  let large := [x16; x03; x03; x00; x04; x0e; x01; x00; x00] in
  (pop true (d example_buffer) RecordLayer_new).1 = Ok (Some (mkDeframed false true false
    (mkPlainMessage ContentType.ApplicationData ProtocolVersion.TLSv1_2 (mkPayload [x61; x62])))) ∧
  pop_ok (d example_buffer) RecordLayer_new (pop true (d example_buffer) RecordLayer_new) ∧
  (pop true (d large) RecordLayer_new).1 = Err (E_InvalidMessage HandshakePayloadTooLarge) ∧
  pop_ok (d large) RecordLayer_new (pop true (d large) RecordLayer_new).
Proof.
  split_and!; try (vm_compute; reflexivity).
  - apply (pop_refines_apop true (mkMessageDeframer None example_buffer None 13) RecordLayer_new).
    + split; [cbn; lia|exact I].
    + intros m seq. exact I.
    + intros _. vm_compute. reflexivity.
  - apply (pop_refines_apop true
      (mkMessageDeframer None [x16; x03; x03; x00; x04; x0e; x01; x00; x00] None 9) RecordLayer_new).
    + split; [cbn; lia|exact I].
    + intros m seq. exact I.
    + intros _. vm_compute. reflexivity.
Defined.

(** [read] only appends.  Whatever the reader delivers within the room it is
    given, the bytes go to the end of those not parsed yet, the joined handshake
    bytes and the invariant are untouched, and the buffer never holds more than
    one record, or 64 KiB while a handshake message is being joined. *)
Theorem deframer_read_appends `{ForeignErrors} (d : MessageDeframer)
    (rd : nat → option (list byte)) (Hinv : deframer_inv d) (Hquic : is_quic (d_hs d) = false)
    (Hrd : ∀ room new, rd room = Some new → length new ≤ room) :
  match deframer_read d rd with
  | (Ok n, d') => ∃ room new, rd room = Some new ∧ n = length new ∧ deframer_inv d' ∧
      d_hs d' = d_hs d ∧ d_raw d' = d_raw d ++ new ∧ used d' ≤ allow_max d ∧
      last_error d' = last_error d
  | (Err _, d') => deframer_inv d' ∧ d_hs d' = d_hs d ∧ d_raw d' = d_raw d ∧
      last_error d' = last_error d
  | (Panic, _) | (NoFuel, _) => False
  end.
Proof.
  pose proof (deframer_read_spec d rd Hinv Hquic Hrd) as Hs.
  destruct (deframer_read d rd) as [[n|e| |] d']; try done; [|tauto].
  destruct Hs as (room & new & _ & Hs). by exists room, new.
Qed.

Lemma deframer_read_appends_witness :
  let rd (room : nat) := Some (take room [x16; x03; x01]) in
  let d := MessageDeframer_default (H := no_foreign) in
  match deframer_read d rd with
  | (Ok n, d') => ∃ room new, rd room = Some new ∧ n = length new ∧ deframer_inv d' ∧
      d_hs d' = d_hs d ∧ d_raw d' = d_raw d ++ new ∧ used d' ≤ allow_max d ∧
      last_error d' = last_error d
  | (Err _, d') => deframer_inv d' ∧ d_hs d' = d_hs d ∧ d_raw d' = d_raw d ∧
      last_error d' = last_error d
  | (Panic, _) | (NoFuel, _) => False
  end.
Proof.
  apply deframer_read_appends.
  - split; [cbn; lia|exact I].
  - reflexivity.
  - intros room new [= <-]. rewrite length_take. lia.
Defined.

(** C10: Fragmentation and joining cancel.  A handshake message that the
    fragmenter cut into records of any size it can be set to, sent in the clear, comes
    out of a deframer that was joining nothing whole and with its version, as one
    aligned message; what follows its records in the buffer stays there. *)
Theorem fragments_reassemble `{ForeignErrors} (f : MessageFragmenter) (v : ProtocolVersion)
    (payload tl : list byte) (records : list BorrowedPlainMessage)
    (d : MessageDeframer) (rl : RecordLayer)
    (Hf : fragmenter_wf f) (Hv : codec_wf v) (Hvo : version_ok v = true)
    (Hsize : payload_size payload = Ok (Some (length payload)))
    (Hfrag : fragment_slice f ContentType.Handshake v payload = Ok records)
    (Hinv : deframer_inv d) (Hdec : decrypter_ok rl) (Hclear : decrypt_state rl ≠ DS_Active)
    (Herr : last_error d = None) (Hidle : joining_hs d = None)
    (Hbuf : take (used d) (buf d)
      = mjoin (OpaqueMessage_encode <$> (to_unencrypted_opaque <$> records)) ++ tl) :
  ∃ d', pop false d rl = (Ok (Some (mkDeframed false true true
      (mkPlainMessage ContentType.Handshake v (mkPayload payload)))), (d', rl)) ∧
    deframer_inv d' ∧ joining_hs d' = None ∧ take (used d') (buf d') = tl.
Proof.
  rewrite (fragment_slice_eq f _ v payload Hf) in Hfrag. injection Hfrag as <-.
  set (cs := chunks_fuel (length payload) (max_frag f) payload) in *.
  assert (Ejoin : mjoin cs = payload).
  { apply chunks_fuel_join; [destruct Hf; lia|done]. }
  pose proof (fragments_wf f ContentType.Handshake v payload Hf eq_refl Hv Hvo) as Hwf.
  fold cs in Hwf. rewrite !list.Forall_fmap in Hwf.
  change (Forall (λ c, OpaqueMessage_wf (hs_record v c)) cs) in Hwf.
  rewrite <- (list_fmap_compose _ to_unencrypted_opaque) in Hbuf.
  change (to_unencrypted_opaque ∘ _) with (hs_record v) in Hbuf.
  assert (Ed : d_hs d = None) by (unfold d_hs; by rewrite Hidle).
  assert (Hraw : d_raw d = mjoin (OpaqueMessage_encode <$> (hs_record v <$> cs)) ++ tl).
  { unfold d_raw, d_start. by rewrite Hidle, drop_0. }
  assert (Hlen : length cs ≤ used d).
  { destruct Hinv as [Hu _]. apply (f_equal length) in Hbuf. rewrite length_take, length_app in Hbuf.
    enough (length cs ≤ length (mjoin (OpaqueMessage_encode <$> (hs_record v <$> cs)))) by lia.
    clear -Hwf. induction cs as [|c cs IH]; [cbn; lia|].
    apply list.Forall_cons in Hwf as [Hc Hwf]. rewrite !fmap_cons.
    change (mjoin (?x :: ?l)) with (x ++ mjoin l). rewrite length_app. specialize (IH Hwf).
    destruct (OpaqueMessage_encode_bytes _ Hc) as (?&?&?&?&?&->&_). cbn [length]. lia. }
  pose proof (pop_refines d rl Hinv Hdec Herr) as Hpop. unfold pop_ok in Hpop. rewrite Hraw, Ed in Hpop.
  destruct cs as [|c cs0] eqn:Ecs.
  { rewrite <- Ejoin in Hsize. vm_compute in Hsize. discriminate. }
  change (mjoin (c :: cs0)) with (c ++ mjoin cs0) in Ejoin. rewrite <- Ejoin in Hsize.
  rewrite (apop_joins_first _ v c cs0 tl rl Hclear Hwf Hsize) in Hpop by (cbn [length] in Hlen; lia).
  rewrite Ejoin in Hpop.
  destruct (pop false d rl) as [[o|e| |] [d' rl']]; try done; [|by destruct Hpop].
  destruct Hpop as ([= <- Ehs Etl <-] & Hinv' & _).
  exists d'. split; [done|]. split; [done|].
  unfold d_hs in Ehs. destruct (joining_hs d') eqn:Hj; [done|]. split; [done|].
  rewrite Etl. unfold d_raw, d_start. by rewrite Hj, drop_0.
Qed.

(** A message of 30 bytes in records of at most 27. *)
Lemma fragments_reassemble_witness :
  let payload := [x0e; x00; x00; x1a] ++ replicate 26 x61 in
  let d : MessageDeframer (H := no_foreign) := mkMessageDeframer None
    ([x16; x03; x03; x00; x1b; x0e; x00; x00; x1a] ++ replicate 23 x61 ++
     [x16; x03; x03; x00; x03; x61; x61; x61; x17]) None 41 in
  ∃ d', pop false d RecordLayer_new = (Ok (Some (mkDeframed false true true
      (mkPlainMessage ContentType.Handshake ProtocolVersion.TLSv1_2 (mkPayload payload)))),
        (d', RecordLayer_new)) ∧
    deframer_inv d' ∧ joining_hs d' = None ∧ take (used d') (buf d') = [x17].
Proof.
  pose (cut c := mkBorrowedPlainMessage ContentType.Handshake ProtocolVersion.TLSv1_2 c).
  apply (fragments_reassemble (mkMessageFragmenter 27) ProtocolVersion.TLSv1_2
    ([x0e; x00; x00; x1a] ++ replicate 26 x61) [x17]
    [cut ([x0e; x00; x00; x1a] ++ replicate 23 x61); cut [x61; x61; x61]]).
  - split; cbn [max_frag]; unfold MAX_FRAGMENT_LEN; lia.
  - split; [vm_compute; split; congruence|reflexivity].
  - reflexivity.
  - vm_compute. reflexivity.
  - vm_compute. reflexivity.
  - split; [cbn; lia|exact I].
  - intros m seq. exact I.
  - discriminate.
  - reflexivity.
  - reflexivity.
  - vm_compute. reflexivity.
Defined.

(** ** The close warning and long pushes *)

Definition no_close (o : option Deframed) : Prop :=
  match o with Some df => df_want_close_before_decrypt df = false | None => True end.

Lemma pop_loop_no_close `{ForeignErrors} debug fuel d rl :
  match (pop_loop debug fuel d rl).1 with Ok (Exit_return o) => no_close o | _ => True end.
Proof.
  revert d rl. induction fuel as [|fuel IH]; intros d rl; [done|]. cbn [pop_loop].
  destruct (match joining_hs d with Some _ => _ | None => inr 0 end) as [[o|len]|start] eqn:Es;
    [|done|].
  { destruct (joining_hs d) as [meta|]; [|done].
    cbn [fst].
    destruct (expected_len meta) as [n|]; [destruct (bool_decide (n ≤ _)); [done|]|];
      (destruct (quic meta); [by injection Es as <-|done]). }
  destruct (slice _ _ _) as [bytes| | |]; try done.
  destruct (OpaqueMessage_read _) as [[m|e| |] rd]; try done; [|by destruct e]. cbv zeta.
  assert (Hret : ∀ rl0 msg, match (return_record d rl0 (start + Reader_used rd) msg).1 with
    | Ok (Exit_return o) => no_close o | _ => True end).
  { intros rl0 msg. unfold return_record. by destruct (discard _ _). }
  destruct (_ && negb _); [apply Hret|].
  destruct (decrypt_incoming _ _ _) as [[[dec|]|e| |] rl']; try done.
  - destruct (debug && _); [done|].
    destruct (_ && _); [done|]. destruct (negb _); [apply Hret|].
    destruct (append_hs _ _ _ _ _ _) as [[[| |]|e| |] d']; try done. apply IH.
  - destruct (is_some _); [done|]. destruct (discard _ _); try done. apply IH.
Qed.

(** The warning of [decrypt_incoming] that the peer's sequence numbers are
    running out never leaves the deframer: whatever the record layer says, a
    deframed message carries [want_close_before_decrypt = false]. *)
Theorem pop_drops_want_close `{ForeignErrors} (debug : bool) (d : MessageDeframer)
    (rl : RecordLayer) :
  match (pop debug d rl).1 with
  | Ok (Some df) => df_want_close_before_decrypt df = false
  | _ => True
  end.
Proof.
  unfold pop. destruct (last_error d); [done|]. case_bool_decide; [done|].
  pose proof (pop_loop_no_close debug (S (used d)) d rl) as Hl.
  destruct (pop_loop debug (S (used d)) d rl) as [[[o|len]|e| |] [d' rl']]; try done.
  unfold pop_complete. destruct (joining_hs d') as [meta|]; [|done].
  destruct (slice _ _ _); try done. cbn [bind_d]. cbv zeta.
  destruct (bool_decide (len < _)).
  - destruct (slice _ _ _) as [rest| | |]; try done. cbn [bind_d].
    by destruct (payload_size rest).
  - by destruct (discard _ _).
Qed.

(** [push] makes room for 4096 bytes only: on a new deframer, a longer
    payload is a slice out of range and a panic, not an error. *)
Theorem push_long_payload_panics `{ForeignErrors} (debug : bool) (v : ProtocolVersion)
    (payload : list byte) (Hlong : READ_SIZE < length payload)
    (Hsize : ∃ n, payload_size payload = Ok n) :
  (push debug MessageDeframer_default v payload).1 = Panic.
Proof.
  destruct Hsize as [n Hn]. unfold push. cbn [MessageDeframer_default used joining_hs].
  rewrite bool_decide_false by lia. cbn [andb].
  pose proof (prepare_read_spec MessageDeframer_default) as Hp.
  unfold prepare_read in *. cbn [MessageDeframer_default used joining_hs buf] in *.
  rewrite (bool_decide_false (MAX_WIRE_SIZE ≤ 0)) by (unfold MAX_WIRE_SIZE, MAX_PAYLOAD, HEADER_SIZE; lia).
  cbv zeta. rewrite bool_decide_true by (unfold READ_SIZE, MAX_WIRE_SIZE, MAX_PAYLOAD, HEADER_SIZE; cbn [length]; lia).
  unfold append_hs. cbn [with_buf joining_hs buf MessageDeframer_default].
  rewrite Hn. cbn [bind_d]. unfold copy_at. rewrite bool_decide_false; [done|].
  unfold vec_resize. rewrite length_resize. lia.
Qed.

Lemma push_long_payload_panics_witness :
  (push (H := no_foreign) true MessageDeframer_default ProtocolVersion.TLSv1_3
    (replicate 4097 x00)).1 = Panic.
Proof.
  apply push_long_payload_panics.
  - unfold READ_SIZE. rewrite length_replicate. lia.
  - exists (Some 4). vm_compute. reflexivity.
Defined.
