(* ===== verification/StateMonad.v ===== *)
(** Methods that change their object and can fail: a state monad over [res]. *)
From Stdlib Require Import ZArith Lia Strings.Byte.
From stdpp Require Import base list.
From S2P Require Import Prelude.
Open Scope rust_scope.

(** A method that takes [&mut self]: what it returns, and the object afterwards,
    which an error leaves as the method has made it so far. *)
Definition method (S E A : Type) : Type := S → res E A * S.

Definition st_bind {S E A B} (m : method S E A) (f : A → method S E B) : method S E B := λ s,
  match m s with
  | (Ok a, s') => f a s'
  | (Err e, s') => (Err e, s')
  | (Panic, s') => (Panic, s')
  | (NoFuel, s') => (NoFuel, s')
  end.

Definition st_ret {S E A} (a : A) : method S E A := λ s, (Ok a, s).
Definition st_get {S E A} (f : S → A) : method S E A := λ s, (Ok (f s), s).
Definition st_try {S E A} (f : S → res E A) : method S E A := λ s, (f s, s).
Definition st_set {S E} (f : S → S) : method S E unit := λ s, (Ok tt, f s).
Definition st_fail {S E A} (e : E) : method S E A := λ s, (Err e, s).

Notation "'let!' x ':=' e 'in' k" := (st_bind e (λ x, k))
  (at level 10, x pattern, e at level 100, k at level 200) : rust_scope.

Fixpoint st_each {S E A} (f : A → method S E unit) (l : list A) : method S E unit :=
  match l with
  | [] => st_ret tt
  | x :: l => let! _ := f x in st_each f l
  end.

Lemma st_bind_ok {S E A B} (m : method S E A) (f : A → method S E B) s a s' :
  m s = (Ok a, s') → st_bind m f s = f a s'.
Proof. intros H. unfold st_bind. by rewrite H. Qed.

Lemma st_bind_err {S E A B} (m : method S E A) (f : A → method S E B) s e s' :
  m s = (Err e, s') → st_bind m f s = (Err e, s').
Proof. intros H. unfold st_bind. by rewrite H. Qed.

Lemma st_bind_nofuel {S E A B} (m : method S E A) (f : A → method S E B) s s' :
  m s = (NoFuel, s') → st_bind m f s = (NoFuel, s').
Proof. intros H. unfold st_bind. by rewrite H. Qed.

Lemma st_bind_get {S E A B} (g : S → A) (f : A → method S E B) s : st_bind (st_get g) f s = f (g s) s.
Proof. done. Qed.

Lemma st_bind_set {S E B} (g : S → S) (f : unit → method S E B) s : st_bind (st_set g) f s = f tt (g s).
Proof. done. Qed.

Lemma st_bind_try {S E A B} (g : S → res E A) (f : A → method S E B) s a :
  g s = Ok a → st_bind (st_try g) f s = f a s.
Proof. intros H. unfold st_bind, st_try. by rewrite H. Qed.
