(* ===== verification/TlsCiphers.v ===== *)
(** The message ciphers of TLS 1.3 (rustls-0.21.2/rustls/src/tls13/mod.rs) and of
    TLS 1.2 (tls12/cipher.rs): nonces, additional data, the inner content type and
    its padding, over any authenticated encryption. *)
From Stdlib Require Import ZArith Lia Strings.Byte String.
From stdpp Require Import base list numbers option.
From S2P Require Import Prelude.
From S2P Require Import Codec.
From S2P Require Import TlsEnums.
From S2P Require Import TlsBase.
From S2P Require Import TlsError.
From S2P Require Import TlsMessage.
From S2P Require Import Fragmenter.
From S2P Require Import RecordLayer.
Open Scope rust_scope.

(** [ring::aead::LessSafeKey]: sealing gives a ciphertext and a tag, opening
    takes the one followed by the other. *)
Class Aead : Type := {
  LessSafeKey : Type;
  tag_len : LessSafeKey → nat;
  seal : LessSafeKey → list byte → list byte → list byte → option (list byte * list byte);
  open : LessSafeKey → list byte → list byte → list byte → option (list byte)
}.

(** The three algorithms of ring: tags of 16 bytes, ciphertexts as long as their
    plaintexts, what is sealed opens under the same key, nonce and additional
    data, and inputs of less than a megabyte are not too long. *)
Class AeadOk (A : Aead) : Prop := {
  tag_len_16 key : tag_len key = 16;
  seal_small key nonce aad plain : length plain < Z.to_nat (2 ^ 20) → is_Some (seal key nonce aad plain);
  seal_lengths key nonce aad plain ct tag : seal key nonce aad plain = Some (ct, tag) →
    length ct = length plain ∧ length tag = 16;
  open_seal key nonce aad plain ct tag : seal key nonce aad plain = Some (ct, tag) →
    open key nonce aad (ct ++ tag) = Some plain;
  open_length key nonce aad ct plain : open key nonce aad ct = Some plain → length plain + 16 = length ct
}.

Section ciphers.
Context `{Aead} `{ForeignErrors} (debug : bool).

(** [seal_in_place_append_tag(nonce, aad, &mut buf)] *)
Definition seal_in_place_append_tag (key : LessSafeKey) (nonce aad buf : list byte) : option (list byte) :=
  '(ct, tag) ← seal key nonce aad buf; Some (ct ++ tag).

(** [seal_in_place_separate_tag(nonce, aad, &mut buf[from..])], then the tag is put
    at the end of [buf]. *)
Definition seal_tail_append_tag (key : LessSafeKey) (nonce aad buf : list byte) (from : nat) : option (list byte) :=
  '(ct, tag) ← seal key nonce aad (drop from buf); Some (splice from ct buf ++ tag).

(** [open_within(nonce, aad, buf, from..)]: the plaintext goes to the front of
    [buf]; its length is returned. *)
Definition open_within (key : LessSafeKey) (nonce aad buf : list byte) (from : nat) : option (nat * list byte) :=
  plain ← open key nonce aad (drop from buf); Some (length plain, splice 0 plain buf).

(** * TLS 1.3 *)

Definition TLS13_AAD_SIZE : nat := 1 + 2 + 2.

Definition make_tls13_aad (len : nat) : list byte :=
  [x17; x03; x03; byte_of (Z.shiftr (Z.of_nat len) 8); byte_of (Z.of_nat len)].

(** The loop pops bytes from the end of [v], which is given in reverse. *)
Fixpoint unpad_loop (v : list byte) : ContentType * list byte :=
  match v with
  | [] => (ContentType.Unknown 0, [])
  | b :: v => if bool_decide (b = x00) then unpad_loop v else (enum_from (byte_val b), v)
  end.

Definition unpad_tls13 (v : list byte) : ContentType * list byte :=
  let '(typ, v) := unpad_loop (reverse v) in (typ, reverse v).

Definition Tls13_encrypt (enc_key : LessSafeKey) (iv : list byte) (msg : BorrowedPlainMessage) (seq : Z)
    : res Error OpaqueMessage :=
  let total_len := length (bm_payload msg) + 1 + tag_len enc_key in
  let payload := encode (bm_typ msg) (bm_payload msg) in
  let nonce := make_nonce iv seq in
  let aad := make_tls13_aad total_len in
  match seal_in_place_append_tag enc_key nonce aad payload with
  | None => Err (General "encrypt failed")
  | Some payload => Ok (mkOpaqueMessage ContentType.ApplicationData ProtocolVersion.TLSv1_2 (mkPayload payload))
  end.

Definition Tls13_decrypt (dec_key : LessSafeKey) (iv : list byte) (msg : OpaqueMessage) (seq : Z)
    : res Error PlainMessage :=
  let payload := Payload_0 (om_payload msg) in
  if bool_decide (length payload < tag_len dec_key) then Err DecryptError else
  let nonce := make_nonce iv seq in
  let aad := make_tls13_aad (length payload) in
  match open_within dec_key nonce aad payload 0 with
  | None => Err DecryptError
  | Some (plain_len, payload) =>
      let payload := take plain_len payload in
      if bool_decide (MAX_FRAGMENT_LEN + 1 < length payload) then Err PeerSentOversizedRecord else
      let '(typ, payload) := unpad_tls13 payload in
      if bool_decide (typ = ContentType.Unknown 0) then Err (E_PeerMisbehaved PM_IllegalTlsInnerPlaintext) else
      if bool_decide (MAX_FRAGMENT_LEN < length payload) then Err PeerSentOversizedRecord else
      Ok (into_plain_message (mkOpaqueMessage typ ProtocolVersion.TLSv1_3 (mkPayload payload)))
  end.

Definition Tls13MessageEncrypter (enc_key : LessSafeKey) (iv : list byte) : MessageEncrypter :=
  mkMessageEncrypter (Tls13_encrypt enc_key iv).
Definition Tls13MessageDecrypter (dec_key : LessSafeKey) (iv : list byte) : MessageDecrypter :=
  mkMessageDecrypter (Tls13_decrypt dec_key iv).

(** * TLS 1.2 *)

Definition TLS12_AAD_SIZE : nat := 8 + 1 + 2 + 2.

Definition make_tls12_aad (seq : Z) (typ : ContentType) (vers : ProtocolVersion) (len : nat) : list byte :=
  let out := replicate TLS12_AAD_SIZE x00 in
  let out := put_u64 seq out in
  let out := <[8 := byte_of (get_val typ)]> out in
  let out := take 9 out ++ put_u16 (get_val vers) (drop 9 out) in
  take 11 out ++ put_u16 (as_u16 (Z.of_nat len)) (drop 11 out).

Definition GCM_EXPLICIT_NONCE_LEN : nat := 8.
Definition GCM_OVERHEAD : nat := GCM_EXPLICIT_NONCE_LEN + 16.
Definition CHACHAPOLY1305_OVERHEAD : nat := 16.

Definition Gcm_decrypt (dec_key : LessSafeKey) (dec_salt : list byte) (msg : OpaqueMessage) (seq : Z)
    : res Error PlainMessage :=
  let payload := Payload_0 (om_payload msg) in
  if bool_decide (length payload < GCM_OVERHEAD) then Err DecryptError else
  let nonce := dec_salt ++ take 8 payload in
  let aad := make_tls12_aad seq (om_typ msg) (om_version msg) (length payload - GCM_OVERHEAD) in
  match open_within dec_key nonce aad payload GCM_EXPLICIT_NONCE_LEN with
  | None => Err DecryptError
  | Some (plain_len, payload) =>
      if bool_decide (MAX_FRAGMENT_LEN < plain_len) then Err PeerSentOversizedRecord else
      Ok (into_plain_message (mkOpaqueMessage (om_typ msg) (om_version msg) (mkPayload (take plain_len payload))))
  end.

Definition Gcm_encrypt (enc_key : LessSafeKey) (iv : list byte) (msg : BorrowedPlainMessage) (seq : Z)
    : res Error OpaqueMessage :=
  let nonce := make_nonce iv seq in
  let aad := make_tls12_aad seq (bm_typ msg) (bm_version msg) (length (bm_payload msg)) in
  let payload := drop 4 nonce ++ bm_payload msg in
  match seal_tail_append_tag enc_key nonce aad payload GCM_EXPLICIT_NONCE_LEN with
  | None => Err EncryptError
  | Some payload => Ok (mkOpaqueMessage (bm_typ msg) (bm_version msg) (mkPayload payload))
  end.

Definition ChaCha20Poly1305_decrypt (dec_key : LessSafeKey) (dec_offset : list byte) (msg : OpaqueMessage) (seq : Z)
    : res Error PlainMessage :=
  let payload := Payload_0 (om_payload msg) in
  if bool_decide (length payload < CHACHAPOLY1305_OVERHEAD) then Err DecryptError else
  let nonce := make_nonce dec_offset seq in
  let aad := make_tls12_aad seq (om_typ msg) (om_version msg) (length payload - CHACHAPOLY1305_OVERHEAD) in
  match open_within dec_key nonce aad payload 0 with
  | None => Err DecryptError
  | Some (plain_len, payload) =>
      if bool_decide (MAX_FRAGMENT_LEN < plain_len) then Err PeerSentOversizedRecord else
      Ok (into_plain_message (mkOpaqueMessage (om_typ msg) (om_version msg) (mkPayload (take plain_len payload))))
  end.

Definition ChaCha20Poly1305_encrypt (enc_key : LessSafeKey) (enc_offset : list byte) (msg : BorrowedPlainMessage)
    (seq : Z) : res Error OpaqueMessage :=
  let nonce := make_nonce enc_offset seq in
  let aad := make_tls12_aad seq (bm_typ msg) (bm_version msg) (length (bm_payload msg)) in
  match seal_in_place_append_tag enc_key nonce aad (bm_payload msg) with
  | None => Err EncryptError
  | Some buf => Ok (mkOpaqueMessage (bm_typ msg) (bm_version msg) (mkPayload buf))
  end.

(** [a.copy_from_slice(b)] panics when the lengths differ; [debug_assert_eq!]
    does so before it. *)
Definition copied (debug : bool) (n : nat) (value : list byte) : res unit (list byte) :=
  debug_assert debug (bool_decide (length value = n)) (if bool_decide (length value = n) then Ok value else Panic).

(** [trait Tls12AeadAlgorithm] *)
Record Tls12AeadAlgorithm : Type := mkTls12AeadAlgorithm {
  decrypter : LessSafeKey → list byte → res unit MessageDecrypter;
  encrypter : LessSafeKey → list byte → list byte → res unit MessageEncrypter
}.

Definition AesGcm_decrypter (dec_key : LessSafeKey) (dec_iv : list byte) : res unit MessageDecrypter :=
  let? dec_salt := copied debug 4 dec_iv in
  Ok (mkMessageDecrypter (Gcm_decrypt dec_key dec_salt)).

Definition AesGcm_encrypter (enc_key : LessSafeKey) (write_iv explicit : list byte) : res unit MessageEncrypter :=
  debug_assert debug (bool_decide (length write_iv = 4))
  (debug_assert debug (bool_decide (length explicit = 8))
  (let? salt := copied false 4 write_iv in
   let? offset := copied false 8 explicit in
   Ok (mkMessageEncrypter (Gcm_encrypt enc_key (salt ++ offset))))).

Definition AesGcm : Tls12AeadAlgorithm := mkTls12AeadAlgorithm AesGcm_decrypter AesGcm_encrypter.

Definition ChaCha20Poly1305_decrypter (dec_key : LessSafeKey) (iv : list byte) : res unit MessageDecrypter :=
  let? dec_offset := copied debug NONCE_LEN iv in
  Ok (mkMessageDecrypter (ChaCha20Poly1305_decrypt dec_key dec_offset)).

Definition ChaCha20Poly1305_encrypter (enc_key : LessSafeKey) (enc_iv _extra : list byte)
    : res unit MessageEncrypter :=
  let? enc_offset := copied debug NONCE_LEN enc_iv in
  Ok (mkMessageEncrypter (ChaCha20Poly1305_encrypt enc_key enc_offset)).

Definition ChaCha20Poly1305 : Tls12AeadAlgorithm :=
  mkTls12AeadAlgorithm ChaCha20Poly1305_decrypter ChaCha20Poly1305_encrypter.

End ciphers.

(** * The interface to the record layer *)

(** What a connection needs of the two ends of a cipher: what is encrypted under a
    number decrypts under it to the same type and payload, the record can be
    framed, and the decrypter always answers, with no more than it was given. *)
Class CipherPair `{ForeignErrors} (enc : MessageEncrypter) (dec : MessageDecrypter) : Prop := {
  pair_decrypts (typ : ContentType) (version : ProtocolVersion) payload seq :
    is_unknown typ = false → typ ≠ ContentType.ChangeCipherSpec →
    codec_wf version → version_ok version = true → length payload ≤ MAX_FRAGMENT_LEN → (0 ≤ seq < 2 ^ 64)%Z →
    ∃ om version', encrypt enc (mkBorrowedPlainMessage typ version payload) seq = Ok om ∧
      OpaqueMessage_wf om ∧ om_typ om ≠ ContentType.ChangeCipherSpec ∧
      decrypt dec om seq = Ok (mkPlainMessage typ version' (mkPayload payload));
  pair_answers m seq : match decrypt dec m seq with
    | Ok p => length (Payload_0 (pm_payload p)) ≤ length (Payload_0 (om_payload m))
    | Err _ => True
    | Panic | NoFuel => False
    end
}.

(** ** Padding *)

Lemma unpad_loop_zeros n v : unpad_loop (replicate n x00 ++ v) = unpad_loop v.
Proof. induction n as [|n IH]; [done|]. cbn. by rewrite IH. Qed.

(** The content type is the last byte that is not zero. *)
Lemma unpad_spec payload t n :
  t ≠ x00 → unpad_tls13 (payload ++ t :: replicate n x00) = (enum_from (byte_val t), payload).
Proof.
  intros Ht. unfold unpad_tls13. rewrite reverse_app, reverse_cons, reverse_replicate, <- app_assoc, unpad_loop_zeros.
  cbn [app unpad_loop]. rewrite bool_decide_false by done. by rewrite reverse_involutive.
Qed.

Lemma unpad_length v : length (unpad_tls13 v).2 ≤ length v.
Proof.
  unfold unpad_tls13. rewrite <- (length_reverse v). generalize (reverse v). intros l.
  destruct (unpad_loop l) as [typ w] eqn:E. cbn [snd]. rewrite length_reverse.
  revert E. induction l as [|b l IH]; cbn; [by intros [= _ <-]|].
  case_bool_decide; [intros Hl; specialize (IH Hl); lia|]. intros [= _ <-]. lia.
Qed.

Lemma typ_byte (typ : ContentType) payload :
  is_unknown typ = false → ∃ t, encode typ payload = payload ++ [t] ∧ t ≠ x00 ∧ enum_from (byte_val t) = typ.
Proof.
  intros Hk. destruct (content_type_known typ Hk) as (t & Et & Hf). exists t.
  rewrite encode_get_encoding, enum_get_encoding. change (enum_bytes _) with 1. rewrite Et.
  split; [done|]. split; [|done]. intros ->. subst typ. discriminate Hk.
Qed.

Section pairs.
Context `{AO : AeadOk} `{ForeignErrors}.

Lemma open_within_front key nonce aad buf from plain :
  open key nonce aad (drop from buf) = Some plain →
  ∃ buf', open_within key nonce aad buf from = Some (length plain, buf') ∧ take (length plain) buf' = plain.
Proof.
  intros E. unfold open_within. rewrite E. cbn. eexists. split; [done|].
  unfold splice. rewrite take_0. cbn [app]. by rewrite take_app_length.
Qed.

Lemma open_within_length key nonce aad buf from n buf' :
  open_within key nonce aad buf from = Some (n, buf') → n + 16 ≤ length buf.
Proof.
  unfold open_within. destruct (open _ _ _ _) as [plain|] eqn:E; [|done]. intros [= <- _].
  apply open_length in E. rewrite length_drop in E. lia.
Qed.

#[export] Instance tls13_pair key iv : CipherPair (Tls13MessageEncrypter key iv) (Tls13MessageDecrypter key iv).
Proof.
  split.
  - intros typ version payload seq Hk Hccs Hv Hvo Hlen Hseq. cbn [encrypt decrypt Tls13MessageEncrypter Tls13MessageDecrypter].
    destruct (typ_byte typ payload Hk) as (t & Henc & Ht & Hfrom).
    unfold Tls13_encrypt, seal_in_place_append_tag. cbn [bm_typ bm_payload]. rewrite Henc.
    set (nonce := make_nonce iv seq). set (aad := make_tls13_aad _). unfold MAX_FRAGMENT_LEN in Hlen.
    destruct (seal_small key nonce aad (payload ++ [t])) as [[ct tag] Hs]; [rewrite length_app; cbn; lia|].
    rewrite Hs. cbn [mbind option_bind]. apply seal_lengths in Hs as Hls. rewrite length_app in Hls. cbn [length] in Hls.
    eexists _, ProtocolVersion.TLSv1_3. split; [done|]. split; [|split; [done|]].
    { split_and!; try done. cbn. rewrite length_app. unfold MAX_PAYLOAD. lia. }
    unfold Tls13_decrypt. cbn [om_payload Payload_0]. rewrite length_app, tag_len_16, bool_decide_false by lia.
    fold nonce. replace (make_tls13_aad (length ct + length tag)) with aad.
    2: { unfold aad. rewrite tag_len_16. f_equal. lia. }
    destruct (open_within_front key nonce aad (ct ++ tag) 0 (payload ++ [t])) as (buf' & -> & Hb); [by apply open_seal|].
    rewrite Hb, bool_decide_false by (rewrite length_app; unfold MAX_FRAGMENT_LEN; cbn [length]; lia).
    pose proof (unpad_spec payload t 0 Ht) as Hu. cbn [replicate] in Hu. rewrite Hu, Hfrom.
    rewrite bool_decide_false by (intros ->; discriminate Hk).
    by rewrite bool_decide_false by (unfold MAX_FRAGMENT_LEN; lia).
  - intros m seq. cbn [decrypt Tls13MessageDecrypter]. unfold Tls13_decrypt.
    case_bool_decide; [done|]. destruct (open_within _ _ _ _ _) as [[n buf']|] eqn:E; [|done].
    apply open_within_length in E. case_bool_decide; [done|].
    pose proof (unpad_length (take n buf')) as Hu. destruct (unpad_tls13 _) as [typ v].
    case_bool_decide; [done|]. case_bool_decide; [done|]. cbn in *. rewrite length_take in Hu. lia.
Qed.

(** The additional data of both ends is the same, as the overhead comes off. *)
#[export] Instance chacha_pair key iv :
  CipherPair (mkMessageEncrypter (ChaCha20Poly1305_encrypt key iv)) (mkMessageDecrypter (ChaCha20Poly1305_decrypt key iv)).
Proof.
  split.
  - intros typ version payload seq Hk Hccs Hv Hvo Hlen Hseq. cbn [encrypt decrypt].
    unfold ChaCha20Poly1305_encrypt, seal_in_place_append_tag. cbn [bm_typ bm_payload bm_version].
    set (nonce := make_nonce iv seq). set (aad := make_tls12_aad _ _ _ _). unfold MAX_FRAGMENT_LEN in Hlen.
    destruct (seal_small key nonce aad payload) as [[ct tag] Hs]; [lia|].
    rewrite Hs. cbn [mbind option_bind]. apply seal_lengths in Hs as Hls.
    eexists _, version. split; [done|]. split; [|split; [done|]].
    { split_and!; try done; cbn; rewrite ?length_app; unfold MAX_PAYLOAD; [|lia].
      intros _ E%(f_equal length). rewrite length_app in E. cbn in E. lia. }
    unfold ChaCha20Poly1305_decrypt, CHACHAPOLY1305_OVERHEAD. cbn [om_payload om_typ om_version Payload_0].
    rewrite length_app, bool_decide_false by lia.
    replace (length ct + length tag - 16) with (length payload) by lia. fold aad nonce.
    destruct (open_within_front key nonce aad (ct ++ tag) 0 payload) as (buf' & -> & Hb); [by apply open_seal|].
    by rewrite Hb, bool_decide_false by (unfold MAX_FRAGMENT_LEN; lia).
  - intros m seq. cbn [decrypt]. unfold ChaCha20Poly1305_decrypt.
    case_bool_decide; [done|]. destruct (open_within _ _ _ _ _) as [[n buf']|] eqn:E; [|done].
    apply open_within_length in E. case_bool_decide; [done|]. cbn. rewrite length_take. lia.
Qed.

Lemma make_nonce_length iv seq : length iv = NONCE_LEN → length (make_nonce iv seq) = NONCE_LEN.
Proof. intros Hiv. unfold make_nonce. rewrite length_zip_with, nonce_plain, length_app, length_to_be, Hiv. done. Qed.

(** The fixed part of the nonce is the salt. *)
Lemma make_nonce_salt salt offset seq : length salt = 4 → take 4 (make_nonce (salt ++ offset) seq) = salt.
Proof.
  intros Hs. unfold make_nonce. rewrite nonce_plain. destruct salt as [|a [|b [|c [|d [|]]]]]; try done.
  cbn [replicate app zip_with take]. repeat f_equal; apply byte_val_inj; unfold xor_byte; rewrite byte_val_of, Z.lxor_0_l;
    apply Z.mod_small, byte_val_range.
Qed.

#[export] Instance gcm_pair key salt offset :
  length salt = 4 → length offset = 8 →
  CipherPair (mkMessageEncrypter (Gcm_encrypt key (salt ++ offset))) (mkMessageDecrypter (Gcm_decrypt key salt)).
Proof.
  intros Hsalt Hoff. split.
  - intros typ version payload seq Hk Hccs Hv Hvo Hlen Hseq. cbn [encrypt decrypt].
    unfold Gcm_encrypt, seal_tail_append_tag, GCM_EXPLICIT_NONCE_LEN. cbn [bm_typ bm_payload bm_version].
    set (nonce := make_nonce (salt ++ offset) seq). set (aad := make_tls12_aad _ _ _ _). unfold MAX_FRAGMENT_LEN in Hlen.
    assert (Hn : length nonce = 12) by (apply make_nonce_length; rewrite length_app, Hsalt, Hoff; done).
    assert (Hexp : length (drop 4 nonce) = 8) by (rewrite length_drop; lia).
    rewrite drop_app_length' by done.
    destruct (seal_small key nonce aad payload) as [[ct tag] Hs]; [lia|].
    rewrite Hs. cbn [mbind option_bind]. apply seal_lengths in Hs as Hls.
    assert (Hsp : splice 8 ct (drop 4 nonce ++ payload) = drop 4 nonce ++ ct).
    { unfold splice. rewrite take_app_length' by done.
      rewrite (drop_ge (drop 4 nonce ++ payload)) by (rewrite length_app; lia). by rewrite app_nil_r. }
    rewrite Hsp. eexists _, version. split; [done|]. split; [|split; [done|]].
    { split_and!; try done; cbn [om_payload Payload_0]; rewrite ?length_app; unfold MAX_PAYLOAD; [|lia].
      intros _ E%(f_equal length). rewrite !length_app in E. change (length (@nil byte)) with 0 in E. lia. }
    unfold Gcm_decrypt, GCM_OVERHEAD, GCM_EXPLICIT_NONCE_LEN. cbn [om_payload om_typ om_version Payload_0].
    rewrite !length_app, bool_decide_false by lia.
    replace (length (drop 4 nonce) + length ct + length tag - (8 + 16)) with (length payload) by lia. fold aad.
    rewrite <- app_assoc, take_app_length' by done.
    replace (salt ++ drop 4 nonce) with nonce.
    2: { rewrite <- (take_drop 4 nonce) at 1. f_equal. by apply make_nonce_salt. }
    destruct (open_within_front key nonce aad (drop 4 nonce ++ ct ++ tag) 8 payload) as (buf' & -> & Hb).
    { rewrite drop_app_length' by done. by apply open_seal. }
    by rewrite Hb, bool_decide_false by (unfold MAX_FRAGMENT_LEN; lia).
  - intros m seq. cbn [decrypt]. unfold Gcm_decrypt.
    case_bool_decide; [done|]. destruct (open_within _ _ _ _ _) as [[n buf']|] eqn:E; [|done].
    apply open_within_length in E. case_bool_decide; [done|]. cbn. rewrite length_take. lia.
Qed.

End pairs.
