(* ===== verification/TlsSuites.v ===== *)
(** Cipher suites and protocol versions (rustls-0.21.2/rustls/src/suites.rs,
    versions.rs, and the constants of tls13/mod.rs and tls12/mod.rs): what a suite
    is, and how one is chosen. *)
From Stdlib Require Import ZArith Lia Strings.Byte String.
From stdpp Require Import base list numbers option sets.
From S2P Require Import Prelude.
From S2P Require Import Codec.
From S2P Require Import TlsEnums.
Open Scope rust_scope.

(** * Versions (versions.rs) *)

(** [PartialEq] is derived; the private field is the unit. *)
Record SupportedProtocolVersion : Type := mkSupportedProtocolVersion { version : ProtocolVersion }.

#[export] Instance SupportedProtocolVersion_eq_dec : EqDecision SupportedProtocolVersion.
Proof. solve_decision. Defined.

Definition TLS12 : SupportedProtocolVersion := mkSupportedProtocolVersion ProtocolVersion.TLSv1_2.
Definition TLS13 : SupportedProtocolVersion := mkSupportedProtocolVersion ProtocolVersion.TLSv1_3.
Definition ALL_VERSIONS : list SupportedProtocolVersion := [TLS13; TLS12].
Definition DEFAULT_VERSIONS : list SupportedProtocolVersion := ALL_VERSIONS.

Record EnabledVersions : Type := mkEnabledVersions {
  ev_tls12 : option SupportedProtocolVersion;
  ev_tls13 : option SupportedProtocolVersion
}.

Definition EnabledVersions_new (versions : list SupportedProtocolVersion) : EnabledVersions :=
  fold_left (λ ev v,
    match version v with
    | ProtocolVersion.TLSv1_2 => mkEnabledVersions (Some v) (ev_tls13 ev)
    | ProtocolVersion.TLSv1_3 => mkEnabledVersions (ev_tls12 ev) (Some v)
    | _ => ev
    end) versions (mkEnabledVersions None None).

Definition EnabledVersions_contains (ev : EnabledVersions) (version : ProtocolVersion) : bool :=
  match version with
  | ProtocolVersion.TLSv1_2 => match ev_tls12 ev with Some _ => true | None => false end
  | ProtocolVersion.TLSv1_3 => match ev_tls13 ev with Some _ => true | None => false end
  | _ => false
  end.

(** * Suites *)

(** The algorithms of ring that the suites name. *)
Inductive AeadAlgorithm : Type := AES_128_GCM | AES_256_GCM | CHACHA20_POLY1305.
Inductive HmacAlgorithm : Type := HMAC_SHA256 | HMAC_SHA384.

Inductive BulkAlgorithm : Type := Aes128Gcm | Aes256Gcm | Chacha20Poly1305.

Record CipherSuiteCommon : Type := mkCipherSuiteCommon {
  suite : CipherSuite;
  bulk : BulkAlgorithm;
  aead_algorithm : AeadAlgorithm
}.

(** Which implementation of the trait [Tls12AeadAlgorithm]. *)
Inductive Tls12Aead : Type := Aead_AesGcm | Aead_ChaCha20Poly1305.

Record Tls12CipherSuite : Type := mkTls12CipherSuite {
  tls12_common : CipherSuiteCommon;
  hmac_algorithm : HmacAlgorithm;
  kx : KeyExchangeAlgorithm;
  sign : list SignatureScheme;
  fixed_iv_len : nat;
  explicit_nonce_len : nat;
  aead_alg : Tls12Aead
}.

Record Tls13CipherSuite : Type := mkTls13CipherSuite {
  tls13_common : CipherSuiteCommon;
  hkdf_algorithm : HmacAlgorithm
}.

Inductive SupportedCipherSuite : Type :=
  | Tls12 (inner : Tls12CipherSuite)
  | Tls13 (inner : Tls13CipherSuite).

Definition scs_hash_algorithm (s : SupportedCipherSuite) : HmacAlgorithm :=
  match s with Tls12 inner => hmac_algorithm inner | Tls13 inner => hkdf_algorithm inner end.

Definition scs_common (s : SupportedCipherSuite) : CipherSuiteCommon :=
  match s with Tls12 inner => tls12_common inner | Tls13 inner => tls13_common inner end.

Definition scs_suite (s : SupportedCipherSuite) : CipherSuite := suite (scs_common s).

Definition scs_tls13 (s : SupportedCipherSuite) : option Tls13CipherSuite :=
  match s with Tls12 _ => None | Tls13 inner => Some inner end.

Definition scs_version (s : SupportedCipherSuite) : SupportedProtocolVersion :=
  match s with Tls12 _ => TLS12 | Tls13 _ => TLS13 end.

(** [SignatureScheme::sign] *)
Definition scheme_sign (s : SignatureScheme) : SignatureAlgorithm :=
  match s with
  | SignatureScheme.RSA_PKCS1_SHA1 | SignatureScheme.RSA_PKCS1_SHA256 | SignatureScheme.RSA_PKCS1_SHA384
  | SignatureScheme.RSA_PKCS1_SHA512 | SignatureScheme.RSA_PSS_SHA256 | SignatureScheme.RSA_PSS_SHA384
  | SignatureScheme.RSA_PSS_SHA512 => SignatureAlgorithm.RSA
  | SignatureScheme.ECDSA_NISTP256_SHA256 | SignatureScheme.ECDSA_NISTP384_SHA384
  | SignatureScheme.ECDSA_NISTP521_SHA512 => SignatureAlgorithm.ECDSA
  | _ => SignatureAlgorithm.Unknown 0
  end.

Definition usable_for_signature_algorithm (s : SupportedCipherSuite) (sig_alg : SignatureAlgorithm) : bool :=
  match s with
  | Tls13 _ => true
  | Tls12 inner => existsb (λ scheme, bool_decide (scheme_sign scheme = sig_alg)) (sign inner)
  end.

Definition can_resume_from (s prev : Tls13CipherSuite) : option Tls13CipherSuite :=
  match hkdf_algorithm prev, hkdf_algorithm s with
  | HMAC_SHA256, HMAC_SHA256 | HMAC_SHA384, HMAC_SHA384 => Some prev
  | _, _ => None
  end.

Definition resolve_sig_schemes (s : Tls12CipherSuite) (offered : list SignatureScheme) : list SignatureScheme :=
  List.filter (λ pref, bool_decide (pref ∈ offered)) (sign s).

(** ** The table *)

Definition TLS13_CHACHA20_POLY1305_SHA256 : SupportedCipherSuite := Tls13 (mkTls13CipherSuite
  (mkCipherSuiteCommon CipherSuite.TLS13_CHACHA20_POLY1305_SHA256 Chacha20Poly1305 CHACHA20_POLY1305) HMAC_SHA256).
Definition TLS13_AES_256_GCM_SHA384 : SupportedCipherSuite := Tls13 (mkTls13CipherSuite
  (mkCipherSuiteCommon CipherSuite.TLS13_AES_256_GCM_SHA384 Aes256Gcm AES_256_GCM) HMAC_SHA384).
Definition TLS13_AES_128_GCM_SHA256 : SupportedCipherSuite := Tls13 (mkTls13CipherSuite
  (mkCipherSuiteCommon CipherSuite.TLS13_AES_128_GCM_SHA256 Aes128Gcm AES_128_GCM) HMAC_SHA256).

Definition TLS12_ECDSA_SCHEMES : list SignatureScheme :=
  [SignatureScheme.ED25519; SignatureScheme.ECDSA_NISTP521_SHA512; SignatureScheme.ECDSA_NISTP384_SHA384;
   SignatureScheme.ECDSA_NISTP256_SHA256].
Definition TLS12_RSA_SCHEMES : list SignatureScheme :=
  [SignatureScheme.RSA_PSS_SHA512; SignatureScheme.RSA_PSS_SHA384; SignatureScheme.RSA_PSS_SHA256;
   SignatureScheme.RSA_PKCS1_SHA512; SignatureScheme.RSA_PKCS1_SHA384; SignatureScheme.RSA_PKCS1_SHA256].

Definition TLS_ECDHE_ECDSA_WITH_CHACHA20_POLY1305_SHA256 : SupportedCipherSuite := Tls12 (mkTls12CipherSuite
  (mkCipherSuiteCommon CipherSuite.TLS_ECDHE_ECDSA_WITH_CHACHA20_POLY1305_SHA256 Chacha20Poly1305 CHACHA20_POLY1305)
  HMAC_SHA256 ECDHE TLS12_ECDSA_SCHEMES 12 0 Aead_ChaCha20Poly1305).
Definition TLS_ECDHE_RSA_WITH_CHACHA20_POLY1305_SHA256 : SupportedCipherSuite := Tls12 (mkTls12CipherSuite
  (mkCipherSuiteCommon CipherSuite.TLS_ECDHE_RSA_WITH_CHACHA20_POLY1305_SHA256 Chacha20Poly1305 CHACHA20_POLY1305)
  HMAC_SHA256 ECDHE TLS12_RSA_SCHEMES 12 0 Aead_ChaCha20Poly1305).
Definition TLS_ECDHE_RSA_WITH_AES_128_GCM_SHA256 : SupportedCipherSuite := Tls12 (mkTls12CipherSuite
  (mkCipherSuiteCommon CipherSuite.TLS_ECDHE_RSA_WITH_AES_128_GCM_SHA256 Aes128Gcm AES_128_GCM)
  HMAC_SHA256 ECDHE TLS12_RSA_SCHEMES 4 8 Aead_AesGcm).
Definition TLS_ECDHE_RSA_WITH_AES_256_GCM_SHA384 : SupportedCipherSuite := Tls12 (mkTls12CipherSuite
  (mkCipherSuiteCommon CipherSuite.TLS_ECDHE_RSA_WITH_AES_256_GCM_SHA384 Aes256Gcm AES_256_GCM)
  HMAC_SHA384 ECDHE TLS12_RSA_SCHEMES 4 8 Aead_AesGcm).
Definition TLS_ECDHE_ECDSA_WITH_AES_128_GCM_SHA256 : SupportedCipherSuite := Tls12 (mkTls12CipherSuite
  (mkCipherSuiteCommon CipherSuite.TLS_ECDHE_ECDSA_WITH_AES_128_GCM_SHA256 Aes128Gcm AES_128_GCM)
  HMAC_SHA256 ECDHE TLS12_ECDSA_SCHEMES 4 8 Aead_AesGcm).
Definition TLS_ECDHE_ECDSA_WITH_AES_256_GCM_SHA384 : SupportedCipherSuite := Tls12 (mkTls12CipherSuite
  (mkCipherSuiteCommon CipherSuite.TLS_ECDHE_ECDSA_WITH_AES_256_GCM_SHA384 Aes256Gcm AES_256_GCM)
  HMAC_SHA384 ECDHE TLS12_ECDSA_SCHEMES 4 8 Aead_AesGcm).

Definition ALL_CIPHER_SUITES : list SupportedCipherSuite :=
  [TLS13_AES_256_GCM_SHA384; TLS13_AES_128_GCM_SHA256; TLS13_CHACHA20_POLY1305_SHA256;
   TLS_ECDHE_ECDSA_WITH_AES_256_GCM_SHA384; TLS_ECDHE_ECDSA_WITH_AES_128_GCM_SHA256;
   TLS_ECDHE_ECDSA_WITH_CHACHA20_POLY1305_SHA256;
   TLS_ECDHE_RSA_WITH_AES_256_GCM_SHA384; TLS_ECDHE_RSA_WITH_AES_128_GCM_SHA256;
   TLS_ECDHE_RSA_WITH_CHACHA20_POLY1305_SHA256].
Definition DEFAULT_CIPHER_SUITES : list SupportedCipherSuite := ALL_CIPHER_SUITES.

(** ** Choosing *)

Fixpoint choose_ciphersuite_preferring_client (client_suites : list CipherSuite)
    (server_suites : list SupportedCipherSuite) : option SupportedCipherSuite :=
  match client_suites with
  | [] => None
  | client_suite :: client_suites =>
      match List.find (λ x, bool_decide (client_suite = scs_suite x)) server_suites with
      | Some selected => Some selected
      | None => choose_ciphersuite_preferring_client client_suites server_suites
      end
  end.

Definition choose_ciphersuite_preferring_server (client_suites : list CipherSuite)
    (server_suites : list SupportedCipherSuite) : option SupportedCipherSuite :=
  List.find (λ x, bool_decide (scs_suite x ∈ client_suites)) server_suites.

Definition reduce_given_sigalg (all : list SupportedCipherSuite) (sigalg : SignatureAlgorithm)
    : list SupportedCipherSuite :=
  List.filter (λ suite, usable_for_signature_algorithm suite sigalg) all.

Definition reduce_given_version (all : list SupportedCipherSuite) (v : ProtocolVersion)
    : list SupportedCipherSuite :=
  List.filter (λ suite, bool_decide (version (scs_version suite) = v)) all.

Definition compatible_sigscheme_for_suites (sigscheme : SignatureScheme)
    (common_suites : list SupportedCipherSuite) : bool :=
  let sigalg := scheme_sign sigscheme in
  existsb (λ suite, usable_for_signature_algorithm suite sigalg) common_suites.

(** * What is chosen *)

(** [s] is the first of [suites] that [P] holds of. *)
Definition first_of (P : SupportedCipherSuite → Prop) (suites : list SupportedCipherSuite)
    (s : SupportedCipherSuite) : Prop :=
  ∃ before after, suites = before ++ s :: after ∧ P s ∧ Forall (λ x, ¬ P x) before.

Lemma find_first_of (P : SupportedCipherSuite → Prop) `{∀ x, Decision (P x)} suites :
  match List.find (λ x, bool_decide (P x)) suites with
  | Some s => first_of P suites s
  | None => Forall (λ x, ¬ P x) suites
  end.
Proof.
  induction suites as [|x suites IH]; cbn [List.find]; [constructor|]. case_bool_decide as Hx.
  - exists [], suites. split_and!; [done|done|constructor].
  - destruct (List.find _ suites) as [s|].
    + destruct IH as (before & after & -> & Hs & Hb). exists (x :: before), after. split_and!; [done|done|by constructor].
    + by constructor.
Qed.

Lemma preferring_client_spec client_suites server_suites :
  match choose_ciphersuite_preferring_client client_suites server_suites with
  | Some s => ∃ before after, client_suites = before ++ scs_suite s :: after ∧
      Forall (λ c, Forall (λ x, c ≠ scs_suite x) server_suites) before ∧
      first_of (λ x, scs_suite s = scs_suite x) server_suites s
  | None => Forall (λ c, Forall (λ x, c ≠ scs_suite x) server_suites) client_suites
  end.
Proof.
  induction client_suites as [|c client_suites IH]; cbn [choose_ciphersuite_preferring_client]; [constructor|].
  pose proof (find_first_of (λ x, c = scs_suite x) server_suites) as Hf.
  destruct (List.find _ server_suites) as [s|].
  - pose proof Hf as (_ & _ & _ & Hs & _). subst c. exists [], client_suites. split_and!; [done|constructor|done].
  - destruct (choose_ciphersuite_preferring_client client_suites server_suites) as [s|].
    + destruct IH as (before & after & -> & Hb & Hs). exists (c :: before), after. split_and!; [done|by constructor|done].
    + by constructor.
Qed.

Lemma preferring_server_spec client_suites server_suites :
  match choose_ciphersuite_preferring_server client_suites server_suites with
  | Some s => first_of (λ x, scs_suite x ∈ client_suites) server_suites s
  | None => Forall (λ x, scs_suite x ∉ client_suites) server_suites
  end.
Proof. apply (find_first_of (λ x, scs_suite x ∈ client_suites)). Qed.

Lemma reduced_suites all sigalg v s :
  s ∈ reduce_given_version (reduce_given_sigalg all sigalg) v ↔
  s ∈ all ∧ usable_for_signature_algorithm s sigalg = true ∧ version (scs_version s) = v.
Proof.
  unfold reduce_given_version, reduce_given_sigalg. rewrite !list_elem_of_In, !filter_In, bool_decide_eq_true. tauto.
Qed.

(** The negotiated suite is the preferred one.  From the suites of a server,
    reduced to those usable with its key and the negotiated version, the choice
    by client preference is the first suite in the client's list that is left,
    the choice by server preference the first suite left that the client offers;
    each is one of the server's suites, of the right version, usable with the
    key and offered; and both fail only if there is no such suite. *)
Theorem suite_negotiation (all : list SupportedCipherSuite) (offered : list CipherSuite)
    (sigalg : SignatureAlgorithm) (v : ProtocolVersion) :
  let left := reduce_given_version (reduce_given_sigalg all sigalg) v in
  let good s := s ∈ all ∧ usable_for_signature_algorithm s sigalg = true ∧ version (scs_version s) = v ∧
    scs_suite s ∈ offered in
  match choose_ciphersuite_preferring_client offered left with
  | Some s => good s ∧
      ∃ before after, offered = before ++ scs_suite s :: after ∧
        Forall (λ c, ∀ x, good x → scs_suite x ≠ c) before
  | None => ∀ x, ¬ good x
  end ∧
  match choose_ciphersuite_preferring_server offered left with
  | Some s => good s ∧ ∃ before after, left = before ++ s :: after ∧ Forall (λ x, ¬ good x) before
  | None => ∀ x, ¬ good x
  end.
Proof.
  intros left good. assert (Hgood : ∀ s, good s ↔ s ∈ left ∧ scs_suite s ∈ offered).
  { intros s. unfold good, left. rewrite reduced_suites. tauto. }
  split.
  - pose proof (preferring_client_spec offered left) as Hc.
    destruct (choose_ciphersuite_preferring_client offered left) as [s|].
    + destruct Hc as (before & after & Ho & Hb & (b' & a' & Hl & _ & _)). split.
      * apply Hgood. rewrite Hl, Ho. set_solver.
      * exists before, after. split; [done|]. eapply Forall_impl; [exact Hb|]. cbn. intros c Hall x [Hx _]%Hgood <-.
        rewrite Forall_forall in Hall. by eapply Hall.
    + intros x [Hx Ho]%Hgood. rewrite list.Forall_forall in Hc. specialize (Hc _ Ho). rewrite list.Forall_forall in Hc.
      by apply (Hc x).
  - pose proof (preferring_server_spec offered left) as Hs.
    destruct (choose_ciphersuite_preferring_server offered left) as [s|].
    + destruct Hs as (before & after & Hl & Ho & Hb). split; [apply Hgood; rewrite Hl; set_solver|].
      exists before, after. split; [done|]. eapply Forall_impl; [exact Hb|]. cbn. intros x Hx [_ ?]%Hgood. done.
    + intros x [Hx Ho]%Hgood. rewrite list.Forall_forall in Hs. by apply (Hs x).
Qed.

(** [SignatureScheme::sign] does not know Ed25519: with a key of this kind no suite
    of TLS 1.2 is left, although the suites with ECDSA list its scheme ... *)
Example ed25519_has_no_suite :
  reduce_given_sigalg ALL_CIPHER_SUITES SignatureAlgorithm.ED25519
  = [TLS13_AES_256_GCM_SHA384; TLS13_AES_128_GCM_SHA256; TLS13_CHACHA20_POLY1305_SHA256] ∧
  resolve_sig_schemes (mkTls12CipherSuite (scs_common TLS_ECDHE_ECDSA_WITH_AES_128_GCM_SHA256) HMAC_SHA256 ECDHE
    TLS12_ECDSA_SCHEMES 4 8 Aead_AesGcm) [SignatureScheme.ED25519] = [SignatureScheme.ED25519].
Proof. split; vm_compute; reflexivity. Qed.

(** ... and any scheme that is not known is compatible with these. *)
Example unknown_scheme_compatible :
  compatible_sigscheme_for_suites (SignatureScheme.Unknown 0xabcd) [TLS_ECDHE_ECDSA_WITH_AES_128_GCM_SHA256] = true ∧
  compatible_sigscheme_for_suites (SignatureScheme.Unknown 0xabcd) [TLS_ECDHE_RSA_WITH_AES_128_GCM_SHA256] = false.
Proof. split; vm_compute; reflexivity. Qed.
