(* ===== verification/TlsSecrets.v ===== *)
(** The secrets of a TLS 1.2 connection (rustls-0.21.2/rustls/src/tls12/mod.rs) and
    the pseudo-random function they are expanded with (tls12/prf.rs): key blocks,
    the ciphers cut out of them, verify data and exported keys. *)
From Stdlib Require Import ZArith Lia Strings.Byte String.
From stdpp Require Import base list numbers option sets.
From S2P Require Import Prelude.
From S2P Require Import Codec.
From S2P Require Import TlsEnums.
From S2P Require Import TlsBase.
From S2P Require Import TlsError.
From S2P Require Import TlsMessage.
From S2P Require Import Fragmenter.
From S2P Require Import RecordLayer.
From S2P Require Import TlsCiphers.
From S2P Require Import TlsSuites.
Open Scope rust_scope.

(** [ring::hmac]: a tag of a length that the algorithm fixes. *)
Class Hmac : Type := {
  hmac_output_len : HmacAlgorithm → nat;
  hmac_sign : HmacAlgorithm → list byte → list byte → list byte
}.

Class HmacOk (H : Hmac) : Prop := {
  hmac_output_pos alg : 0 < hmac_output_len alg;
  length_hmac_sign alg key msg : length (hmac_sign alg key msg) = hmac_output_len alg
}.

(** [ring::aead::UnboundKey::new]: a key has the length that its algorithm fixes. *)
Class AeadKeys `{Aead} : Type := {
  key_len : AeadAlgorithm → nat;
  UnboundKey_new : AeadAlgorithm → list byte → option LessSafeKey
}.

Class AeadKeysOk `{Aead} (K : AeadKeys) : Prop :=
  UnboundKey_new_len alg bytes : length bytes = key_len alg → is_Some (UnboundKey_new alg bytes).

(** [common_state.rs]; [PartialEq] is derived. *)
Inductive Side : Type := Client | Server.

#[export] Instance Side_eq_dec : EqDecision Side.
Proof. solve_decision. Defined.

Definition Side_peer (s : Side) : Side := match s with Client => Server | Server => Client end.

Section prf.
Context `{Hmac}.

Definition concat_sign (alg : HmacAlgorithm) (key a b : list byte) : list byte := hmac_sign alg key (a ++ b).

(** The loop of [p] over the chunks of [out]: what it puts there. *)
Fixpoint p_loop (alg : HmacAlgorithm) (key seed current_a : list byte) (chunks : list (list byte))
    : res unit (list byte) :=
  match chunks with
  | [] => Ok []
  | chunk :: chunks =>
      let p_term := concat_sign alg key current_a seed in
      let? term := slice 0 (length chunk) p_term in
      let current_a := hmac_sign alg key current_a in
      let? rest := p_loop alg key seed current_a chunks in
      Ok (term ++ rest)
  end.

Definition p (out : list byte) (alg : HmacAlgorithm) (secret seed : list byte) : res unit (list byte) :=
  let current_a := hmac_sign alg secret seed in
  let chunk_size := hmac_output_len alg in
  let? cs := chunks chunk_size out in
  p_loop alg secret seed current_a cs.

Definition concat (a b : list byte) : list byte := a ++ b.

Definition prf (out : list byte) (alg : HmacAlgorithm) (secret label seed : list byte) : res unit (list byte) :=
  let joined_seed := concat label seed in
  p out alg secret joined_seed.

End prf.

Section secrets.
Context `{Hmac} `{Aead} `{AeadKeys} `{ForeignErrors} (debug : bool).

(** [ConnectionRandoms] is the pair of 32 byte arrays. *)
Record ConnectionRandoms : Type := mkConnectionRandoms { cr_client : list byte; cr_server : list byte }.

Record ConnectionSecrets : Type := mkConnectionSecrets {
  randoms : ConnectionRandoms;
  cs_suite : Tls12CipherSuite;
  master_secret : list byte
}.

Definition join_randoms (first second : list byte) : list byte := first ++ second.

Definition ascii (s : string) : list byte := String.list_byte_of_string s.

Inductive Seed : Type := Seed_Ems (digest : list byte) | Seed_Randoms (randoms : list byte).

Definition Seed_as_ref (s : Seed) : list byte := match s with Seed_Ems seed => seed | Seed_Randoms r => r end.

(** [kx.complete(peer_pub_key, f)] (kx.rs) calls [f] with the shared secret of
    ring's key agreement, or the agreement fails. *)
Definition from_key_exchange (complete : list byte → option (list byte)) (peer_pub_key : list byte)
    (ems_seed : option (list byte)) (randoms : ConnectionRandoms) (suite : Tls12CipherSuite)
    : res Error ConnectionSecrets :=
  let '(label, seed) := match ems_seed with
    | Some seed => (ascii "extended master secret", Seed_Ems seed)
    | None => (ascii "master secret", Seed_Randoms (join_randoms (cr_client randoms) (cr_server randoms)))
    end in
  match complete peer_pub_key with
  | None => Err (E_PeerMisbehaved PM_InvalidKeyShare)
  | Some secret =>
      match prf (replicate 48 x00) (hmac_algorithm suite) secret label (Seed_as_ref seed) with
      | Ok master_secret => Ok (mkConnectionSecrets randoms suite master_secret)
      | NoFuel => NoFuel
      | _ => Panic
      end
  end.

(** [copy_from_slice] into an array of 48 bytes. *)
Definition new_resume (randoms : ConnectionRandoms) (suite : Tls12CipherSuite) (master_secret : list byte)
    : res unit ConnectionSecrets :=
  if bool_decide (length master_secret = 48) then Ok (mkConnectionSecrets randoms suite master_secret) else Panic.

Definition make_key_block (s : ConnectionSecrets) : res unit (list byte) :=
  let suite := cs_suite s in
  let common := tls12_common suite in
  let len := (key_len (aead_algorithm common) + fixed_iv_len suite) * 2 + explicit_nonce_len suite in
  let out := replicate len x00 in
  let randoms := join_randoms (cr_server (randoms s)) (cr_client (randoms s)) in
  prf out (hmac_algorithm suite) (master_secret s) (ascii "key expansion") randoms.

(** [slice::split_at] panics past the end. *)
Definition split_at {A} (l : list A) (n : nat) : res unit (list A * list A) :=
  if bool_decide (length l < n) then Panic else Ok (take n l, drop n l).

Definition split_key (key_block : list byte) (alg : AeadAlgorithm) : res unit (LessSafeKey * list byte) :=
  let? kr := split_at key_block (key_len alg) in
  let '(key, rest) := kr in
  match UnboundKey_new alg key with Some key => Ok (key, rest) | None => Panic end.

Definition aead_of (a : Tls12Aead) : Tls12AeadAlgorithm :=
  match a with Aead_AesGcm => AesGcm debug | Aead_ChaCha20Poly1305 => ChaCha20Poly1305 debug end.

Definition make_cipher_pair (s : ConnectionSecrets) (side : Side) : res unit (MessageDecrypter * MessageEncrypter) :=
  let? key_block := make_key_block s in
  let suite := cs_suite s in
  let scs := tls12_common suite in
  let? kr := split_key key_block (aead_algorithm scs) in
  let '(client_write_key, key_block) := kr in
  let? kr := split_key key_block (aead_algorithm scs) in
  let '(server_write_key, key_block) := kr in
  let? ir := split_at key_block (fixed_iv_len suite) in
  let '(client_write_iv, key_block) := ir in
  let? ir := split_at key_block (fixed_iv_len suite) in
  let '(server_write_iv, extra) := ir in
  let '(write_key, write_iv, read_key, read_iv) := match side with
    | Client => (client_write_key, client_write_iv, server_write_key, server_write_iv)
    | Server => (server_write_key, server_write_iv, client_write_key, client_write_iv)
    end in
  let? dec := decrypter (aead_of (aead_alg suite)) read_key read_iv in
  let? enc := encrypter (aead_of (aead_alg suite)) write_key write_iv extra in
  Ok (dec, enc).

Definition get_master_secret (s : ConnectionSecrets) : list byte := master_secret s.

Definition make_verify_data (s : ConnectionSecrets) (handshake_hash label : list byte) : res unit (list byte) :=
  prf (replicate 12 x00) (hmac_algorithm (cs_suite s)) (master_secret s) label handshake_hash.

Definition client_verify_data (s : ConnectionSecrets) (handshake_hash : list byte) : res unit (list byte) :=
  make_verify_data s handshake_hash (ascii "client finished").
Definition server_verify_data (s : ConnectionSecrets) (handshake_hash : list byte) : res unit (list byte) :=
  make_verify_data s handshake_hash (ascii "server finished").

(** What [output] holds afterwards. *)
Definition export_keying_material (s : ConnectionSecrets) (output label : list byte) (context : option (list byte))
    : res unit (list byte) :=
  let rs := cr_client (randoms s) ++ cr_server (randoms s) in
  let? rs := match context with
    | None => Ok rs
    | Some context =>
        if bool_decide (Z.of_nat (length context) ≤ 0xffff)%Z
        then Ok (u16_encode (as_u16 (Z.of_nat (length context))) rs ++ context)
        else Panic
    end in
  prf output (hmac_algorithm (cs_suite s)) (master_secret s) label rs.

End secrets.

(** * The expansion *)

Section prf_laws.
Context `{HO : HmacOk}.

(** [P_hash] of RFC 5246: the tags of A(1), A(2) and so on with the seed, [k] of
    them. *)
Fixpoint P_hash (alg : HmacAlgorithm) (key seed a : list byte) (k : nat) : list byte :=
  match k with
  | O => []
  | S k => hmac_sign alg key (a ++ seed) ++ P_hash alg key seed (hmac_sign alg key a) k
  end.

Lemma length_P_hash alg key seed a k : length (P_hash alg key seed a k) = k * hmac_output_len alg.
Proof. revert a. induction k as [|k IH]; intros a; [done|]. cbn [P_hash]. rewrite length_app, IH, length_hmac_sign. lia. Qed.

Lemma p_loop_spec alg key seed a fuel out k :
  length out ≤ fuel → length out ≤ k →
  p_loop alg key seed a (chunks_fuel fuel (hmac_output_len alg) out) = Ok (take (length out) (P_hash alg key seed a k)).
Proof.
  pose proof (hmac_output_pos alg) as Hpos. set (n := hmac_output_len alg) in *.
  revert a out k. induction fuel as [|fuel IH]; intros a out k Hf Hk.
  { destruct out; [done|cbn in Hf; lia]. }
  destruct out as [|b out]; [done|]. set (l := b :: out) in *.
  change (chunks_fuel (S fuel) n l) with (take n l :: chunks_fuel fuel n (drop n l)). cbn [p_loop].
  assert (Hl : 0 < length l) by (cbn; lia). destruct k as [|k]; [lia|]. cbn [P_hash]. unfold concat_sign.
  assert (Ht : length (hmac_sign alg key (a ++ seed)) = n) by apply length_hmac_sign.
  rewrite slice_Ok by (rewrite ?Ht, length_take; lia). cbn [res_bind].
  rewrite (IH _ _ k) by (rewrite length_drop; lia). cbn [res_bind]. f_equal.
  rewrite take_app, Ht, length_drop, drop_0, Nat.sub_0_r, length_take. f_equal.
  destruct (le_lt_dec n (length l)); [|by rewrite Nat.min_r by lia].
  rewrite !take_ge by lia. done.
Qed.

(** The whole of [out] is written. *)
Lemma prf_spec out alg secret label seed :
  prf out alg secret label seed = Ok (take (length out)
    (P_hash alg secret (label ++ seed) (hmac_sign alg secret (label ++ seed)) (length out))).
Proof.
  unfold prf, p, concat, chunks. pose proof (hmac_output_pos alg). rewrite bool_decide_false by lia.
  cbn [res_bind]. by apply p_loop_spec.
Qed.

Lemma prf_length out alg secret label seed :
  ∃ bs, prf out alg secret label seed = Ok bs ∧ length bs = length out.
Proof.
  rewrite prf_spec. eexists. split; [done|]. rewrite length_take, length_P_hash. pose proof (hmac_output_pos alg). nia.
Qed.

End prf_laws.

(** * Both sides *)

Section sides.
Context `{HO : HmacOk} `{AO : AeadOk} {K : AeadKeys} {KO : AeadKeysOk K} `{ForeignErrors}.

(** The lengths that the implementations of the trait want. *)
Definition suite_ok (s : Tls12CipherSuite) : Prop :=
  match aead_alg s with
  | Aead_AesGcm => fixed_iv_len s = 4 ∧ explicit_nonce_len s = 8
  | Aead_ChaCha20Poly1305 => fixed_iv_len s = NONCE_LEN
  end.

Lemma table_ok : Forall (λ s, match s with Tls12 inner => suite_ok inner | Tls13 _ => True end) ALL_CIPHER_SUITES.
Proof. repeat constructor. Qed.

Lemma split_at_Ok {T} (l : list T) n : n ≤ length l → split_at l n = Ok (take n l, drop n l).
Proof. intros Hl. unfold split_at. by rewrite bool_decide_false by lia. Qed.

Lemma split_key_Ok key_block alg :
  key_len alg ≤ length key_block → ∃ key, split_key key_block alg = Ok (key, drop (key_len alg) key_block).
Proof.
  intros Hl. unfold split_key. rewrite split_at_Ok by done. cbn [res_bind].
  destruct (UnboundKey_new_len alg (take (key_len alg) key_block)) as [key ->]; [rewrite length_take; lia|]. by exists key.
Qed.

Lemma copied_Ok debug n value : length value = n → copied debug n value = Ok value.
Proof. intros Hl. unfold copied, debug_assert. by rewrite bool_decide_true by done; rewrite andb_false_r. Qed.

(** The implementations of the trait give pairs. *)
Lemma aead_pair debug s key iv extra :
  suite_ok s → length iv = fixed_iv_len s → length extra = explicit_nonce_len s →
  ∃ dec enc, decrypter (aead_of debug (aead_alg s)) key iv = Ok dec ∧
    encrypter (aead_of debug (aead_alg s)) key iv extra = Ok enc ∧ CipherPair enc dec.
Proof.
  unfold suite_ok. intros Hs Hiv Hex. destruct (aead_alg s); cbn [aead_of AesGcm ChaCha20Poly1305 decrypter encrypter].
  - destruct Hs as [H4 H8]. rewrite H4 in Hiv. rewrite H8 in Hex. unfold AesGcm_decrypter, AesGcm_encrypter, debug_assert.
    rewrite !copied_Ok, !bool_decide_true, !andb_false_r by done. cbn [res_bind].
    eexists _, _. split; [done|]. split; [done|]. by apply gcm_pair.
  - rewrite Hs in Hiv. unfold ChaCha20Poly1305_decrypter, ChaCha20Poly1305_encrypter. rewrite !copied_Ok by done. cbn [res_bind].
    eexists _, _. split; [done|]. split; [done|]. apply chacha_pair.
Qed.

(** The key block is long enough for its parts. *)
Lemma make_cipher_pair_spec debug s :
  suite_ok (cs_suite s) →
  ∃ dec1 enc1 dec2 enc2, make_cipher_pair debug s Client = Ok (dec2, enc1) ∧
    make_cipher_pair debug s Server = Ok (dec1, enc2) ∧ CipherPair enc1 dec1 ∧ CipherPair enc2 dec2.
Proof.
  intros Hs. unfold make_cipher_pair, make_key_block.
  set (alg := aead_algorithm (tls12_common (cs_suite s))). set (iv := fixed_iv_len (cs_suite s)).
  set (ex := explicit_nonce_len (cs_suite s)).
  destruct (prf_length (replicate ((key_len alg + iv) * 2 + ex) x00) (hmac_algorithm (cs_suite s)) (master_secret s)
    (ascii "key expansion") (join_randoms (cr_server (randoms s)) (cr_client (randoms s)))) as (kb & E & Hkb).
  rewrite length_replicate in Hkb. rewrite E. cbn [res_bind].
  destruct (split_key_Ok kb alg) as [k1 ->]; [lia|]. cbn [res_bind].
  destruct (split_key_Ok (drop (key_len alg) kb) alg) as [k2 ->]; [rewrite length_drop; lia|]. cbn [res_bind].
  rewrite drop_drop, !split_at_Ok by (rewrite ?length_drop; lia). cbn [res_bind].
  rewrite !split_at_Ok by (rewrite ?length_drop; lia). cbn [res_bind].
  set (r := drop (key_len alg + key_len alg) kb). assert (Hr : length r = iv * 2 + ex) by (unfold r; rewrite length_drop; lia).
  set (extra := drop iv (drop iv r)). set (iv1 := take iv r). set (iv2 := take iv (drop iv r)).
  assert (H1 : length iv1 = iv) by (unfold iv1; rewrite length_take; lia).
  assert (H2 : length iv2 = iv) by (unfold iv2; rewrite length_take, length_drop; lia).
  assert (Hex : length extra = ex) by (unfold extra; rewrite !length_drop; lia).
  destruct (aead_pair debug (cs_suite s) k1 iv1 extra Hs H1 Hex) as (dec1 & enc1 & Ed1 & Ee1 & Hp1).
  destruct (aead_pair debug (cs_suite s) k2 iv2 extra Hs H2 Hex) as (dec2 & enc2 & Ed2 & Ee2 & Hp2).
  exists dec1, enc1, dec2, enc2. rewrite Ed1, Ed2, Ee1, Ee2. by split_and!.
Qed.

End sides.
