(* ===== verification/TlsCommon.v ===== *)
(** The state common to clients and servers
    (rustls-0.21.2/rustls/src/common_state.rs): what is sent, as application data,
    alerts and handshake messages, through the fragmenter, the record layer and the
    buffers; and what is received.

    Methods change a [CommonState] in the monad of [StateMonad].  The features quic
    and secret_extraction are off, as they are by default.  [debug] tells whether
    debug assertions are compiled in. *)
From Stdlib Require Import ZArith Lia Strings.Byte String.
From stdpp Require Import base list numbers option sets.
From S2P Require Import Prelude.
From S2P Require Import Codec.
From S2P Require Import TlsEnums.
From S2P Require Import TlsBase.
From S2P Require Import TlsExtensions.
From S2P Require Import TlsHandshake.
From S2P Require Import TlsError.
From S2P Require Import TlsMessage.
From S2P Require Import Fragmenter.
From S2P Require Import VecBuf.
From S2P Require Import RecordLayer.
From S2P Require Import TlsSuites.
From S2P Require Import TlsSecrets.
From S2P Require Import StateMonad.
Open Scope rust_scope.

Definition DEFAULT_RECEIVED_PLAINTEXT_LIMIT : nat := Z.to_nat (16 * 1024).
Definition DEFAULT_BUFFER_LIMIT : nat := Z.to_nat (64 * 1024).

Inductive Limit : Type := Limit_Yes | Limit_No.

Record IoState : Type := mkIoState {
  tls_bytes_to_write : nat;
  plaintext_bytes_to_read : nat;
  peer_has_closed : bool
}.

(** A call that cannot fail but by a panic. *)
Definition infallible {E A} (x : res unit A) : res E A :=
  match x with Ok a => Ok a | NoFuel => NoFuel | _ => Panic end.

Section common_state.
Context `{WebPki} `{ForeignErrors} (debug : bool).

Record CommonState : Type := mkCommonState {
  negotiated_version : option ProtocolVersion;
  side : Side;
  record_layer : RecordLayer;
  c_suite : option SupportedCipherSuite;
  alpn_protocol : option (list byte);
  aligned_handshake : bool;
  may_send_application_data : bool;
  may_receive_application_data : bool;
  early_traffic : bool;
  sent_fatal_alert : bool;
  has_received_close_notify : bool;
  has_seen_eof : bool;
  received_middlebox_ccs : Z;
  peer_certificates : option (list Certificate);
  message_fragmenter : MessageFragmenter;
  received_plaintext : ChunkVecBuffer;
  sendable_plaintext : ChunkVecBuffer;
  sendable_tls : ChunkVecBuffer;
  queued_key_update_message : option (list byte)
}.

(** Assignments to single fields. *)
Definition set_record_layer (x : RecordLayer) (c : CommonState) : CommonState :=
  mkCommonState (negotiated_version c) (side c) x (c_suite c) (alpn_protocol c) (aligned_handshake c)
    (may_send_application_data c) (may_receive_application_data c) (early_traffic c) (sent_fatal_alert c)
    (has_received_close_notify c) (has_seen_eof c) (received_middlebox_ccs c) (peer_certificates c)
    (message_fragmenter c) (received_plaintext c) (sendable_plaintext c) (sendable_tls c)
    (queued_key_update_message c).
Definition set_aligned_handshake (x : bool) (c : CommonState) : CommonState :=
  mkCommonState (negotiated_version c) (side c) (record_layer c) (c_suite c) (alpn_protocol c) x
    (may_send_application_data c) (may_receive_application_data c) (early_traffic c) (sent_fatal_alert c)
    (has_received_close_notify c) (has_seen_eof c) (received_middlebox_ccs c) (peer_certificates c)
    (message_fragmenter c) (received_plaintext c) (sendable_plaintext c) (sendable_tls c)
    (queued_key_update_message c).
Definition set_may_send_application_data (x : bool) (c : CommonState) : CommonState :=
  mkCommonState (negotiated_version c) (side c) (record_layer c) (c_suite c) (alpn_protocol c)
    (aligned_handshake c) x (may_receive_application_data c) (early_traffic c) (sent_fatal_alert c)
    (has_received_close_notify c) (has_seen_eof c) (received_middlebox_ccs c) (peer_certificates c)
    (message_fragmenter c) (received_plaintext c) (sendable_plaintext c) (sendable_tls c)
    (queued_key_update_message c).
Definition set_may_receive_application_data (x : bool) (c : CommonState) : CommonState :=
  mkCommonState (negotiated_version c) (side c) (record_layer c) (c_suite c) (alpn_protocol c)
    (aligned_handshake c) (may_send_application_data c) x (early_traffic c) (sent_fatal_alert c)
    (has_received_close_notify c) (has_seen_eof c) (received_middlebox_ccs c) (peer_certificates c)
    (message_fragmenter c) (received_plaintext c) (sendable_plaintext c) (sendable_tls c)
    (queued_key_update_message c).
Definition set_sent_fatal_alert (x : bool) (c : CommonState) : CommonState :=
  mkCommonState (negotiated_version c) (side c) (record_layer c) (c_suite c) (alpn_protocol c)
    (aligned_handshake c) (may_send_application_data c) (may_receive_application_data c) (early_traffic c) x
    (has_received_close_notify c) (has_seen_eof c) (received_middlebox_ccs c) (peer_certificates c)
    (message_fragmenter c) (received_plaintext c) (sendable_plaintext c) (sendable_tls c)
    (queued_key_update_message c).
Definition set_has_received_close_notify (x : bool) (c : CommonState) : CommonState :=
  mkCommonState (negotiated_version c) (side c) (record_layer c) (c_suite c) (alpn_protocol c)
    (aligned_handshake c) (may_send_application_data c) (may_receive_application_data c) (early_traffic c)
    (sent_fatal_alert c) x (has_seen_eof c) (received_middlebox_ccs c) (peer_certificates c)
    (message_fragmenter c) (received_plaintext c) (sendable_plaintext c) (sendable_tls c)
    (queued_key_update_message c).
Definition set_has_seen_eof (x : bool) (c : CommonState) : CommonState :=
  mkCommonState (negotiated_version c) (side c) (record_layer c) (c_suite c) (alpn_protocol c)
    (aligned_handshake c) (may_send_application_data c) (may_receive_application_data c) (early_traffic c)
    (sent_fatal_alert c) (has_received_close_notify c) x (received_middlebox_ccs c) (peer_certificates c)
    (message_fragmenter c) (received_plaintext c) (sendable_plaintext c) (sendable_tls c)
    (queued_key_update_message c).
Definition set_received_middlebox_ccs (x : Z) (c : CommonState) : CommonState :=
  mkCommonState (negotiated_version c) (side c) (record_layer c) (c_suite c) (alpn_protocol c)
    (aligned_handshake c) (may_send_application_data c) (may_receive_application_data c) (early_traffic c)
    (sent_fatal_alert c) (has_received_close_notify c) (has_seen_eof c) x (peer_certificates c)
    (message_fragmenter c) (received_plaintext c) (sendable_plaintext c) (sendable_tls c)
    (queued_key_update_message c).
Definition set_message_fragmenter (x : MessageFragmenter) (c : CommonState) : CommonState :=
  mkCommonState (negotiated_version c) (side c) (record_layer c) (c_suite c) (alpn_protocol c)
    (aligned_handshake c) (may_send_application_data c) (may_receive_application_data c) (early_traffic c)
    (sent_fatal_alert c) (has_received_close_notify c) (has_seen_eof c) (received_middlebox_ccs c)
    (peer_certificates c) x (received_plaintext c) (sendable_plaintext c) (sendable_tls c)
    (queued_key_update_message c).
Definition set_received_plaintext (x : ChunkVecBuffer) (c : CommonState) : CommonState :=
  mkCommonState (negotiated_version c) (side c) (record_layer c) (c_suite c) (alpn_protocol c)
    (aligned_handshake c) (may_send_application_data c) (may_receive_application_data c) (early_traffic c)
    (sent_fatal_alert c) (has_received_close_notify c) (has_seen_eof c) (received_middlebox_ccs c)
    (peer_certificates c) (message_fragmenter c) x (sendable_plaintext c) (sendable_tls c)
    (queued_key_update_message c).
Definition set_sendable_plaintext (x : ChunkVecBuffer) (c : CommonState) : CommonState :=
  mkCommonState (negotiated_version c) (side c) (record_layer c) (c_suite c) (alpn_protocol c)
    (aligned_handshake c) (may_send_application_data c) (may_receive_application_data c) (early_traffic c)
    (sent_fatal_alert c) (has_received_close_notify c) (has_seen_eof c) (received_middlebox_ccs c)
    (peer_certificates c) (message_fragmenter c) (received_plaintext c) x (sendable_tls c)
    (queued_key_update_message c).
Definition set_sendable_tls (x : ChunkVecBuffer) (c : CommonState) : CommonState :=
  mkCommonState (negotiated_version c) (side c) (record_layer c) (c_suite c) (alpn_protocol c)
    (aligned_handshake c) (may_send_application_data c) (may_receive_application_data c) (early_traffic c)
    (sent_fatal_alert c) (has_received_close_notify c) (has_seen_eof c) (received_middlebox_ccs c)
    (peer_certificates c) (message_fragmenter c) (received_plaintext c) (sendable_plaintext c) x
    (queued_key_update_message c).
Definition set_queued_key_update_message (x : option (list byte)) (c : CommonState) : CommonState :=
  mkCommonState (negotiated_version c) (side c) (record_layer c) (c_suite c) (alpn_protocol c)
    (aligned_handshake c) (may_send_application_data c) (may_receive_application_data c) (early_traffic c)
    (sent_fatal_alert c) (has_received_close_notify c) (has_seen_eof c) (received_middlebox_ccs c)
    (peer_certificates c) (message_fragmenter c) (received_plaintext c) (sendable_plaintext c) (sendable_tls c)
    x.

Definition CommonState_new (side : Side) : CommonState :=
  mkCommonState None side RecordLayer_new None None true false false false false false false 0 None
    MessageFragmenter_default
    (ChunkVecBuffer_new (Some DEFAULT_RECEIVED_PLAINTEXT_LIMIT))
    (ChunkVecBuffer_new (Some DEFAULT_BUFFER_LIMIT))
    (ChunkVecBuffer_new (Some DEFAULT_BUFFER_LIMIT)) None.

#[local] Abbreviation method := (method CommonState).

Definition wants_write (c : CommonState) : bool := negb (cvb_is_empty (sendable_tls c)).

Definition is_handshaking (c : CommonState) : bool :=
  negb (may_send_application_data c && may_receive_application_data c).

Definition is_tls13 (c : CommonState) : bool :=
  bool_decide (negotiated_version c = Some ProtocolVersion.TLSv1_3).

Definition wants_read (c : CommonState) : bool :=
  cvb_is_empty (received_plaintext c) && negb (has_received_close_notify c) &&
  (may_send_application_data c || cvb_is_empty (sendable_tls c)).

Definition current_io_state (c : CommonState) : IoState :=
  mkIoState (cvb_len (sendable_tls c)) (cvb_len (received_plaintext c)) (has_received_close_notify c).

(** [debug_assert!(p)] on the state. *)
Definition st_debug_assert {E} (p : CommonState → bool) : method E unit :=
  st_try (λ c, debug_assert debug (p c) (Ok tt)).

(** ** Sending *)

(** Put m into sendable_tls for writing. *)
Definition queue_tls_message {E} (m : OpaqueMessage) : method E unit :=
  st_set (λ c, set_sendable_tls (cvb_append (sendable_tls c) (OpaqueMessage_encode m)).2 c).

Definition rl_encrypt_outgoing {E} (m : BorrowedPlainMessage) : method E OpaqueMessage := λ c,
  match encrypt_outgoing debug (record_layer c) m with
  | Ok (em, rl) => (Ok em, set_record_layer rl c)
  | NoFuel => (NoFuel, c)
  | _ => (Panic, c)
  end.

Definition fragments_of {E} (m : PlainMessage) : method E (list BorrowedPlainMessage) :=
  st_try (λ c, infallible (fragment_message (message_fragmenter c) m)).

(** [send_msg], given what sends a fragment that is to be encrypted. *)
Definition send_msg_with {E} (send : BorrowedPlainMessage → method E unit) (m : Message) (must_encrypt : bool)
    : method E unit :=
  let! iter := fragments_of (PlainMessage_from m) in
  if negb must_encrypt then st_each (λ m, queue_tls_message (to_unencrypted_opaque m)) iter
  else st_each send iter.

Definition send_warning_alert_with {E} (send : BorrowedPlainMessage → method E unit) (desc : AlertDescription)
    : method E unit :=
  let m := build_alert AlertLevel.Warning desc in
  let! enc := st_get (λ c, is_encrypting (record_layer c)) in
  send_msg_with send m enc.

(** [send_single_fragment] and the methods that it calls again through
    [send_close_notify]; [fuel] bounds how deep these calls are nested. *)
Fixpoint send_single_fragment {E} (fuel : nat) (m : BorrowedPlainMessage) : method E unit :=
  match fuel with
  | O => λ c, (NoFuel, c)
  | S fuel =>
      let! close := st_get (λ c, wants_close_before_encrypt (record_layer c)) in
      let! _ := if close then send_warning_alert_with (send_single_fragment fuel) AlertDescription.CloseNotify
        else st_ret tt in
      let! exhausted := st_get (λ c, encrypt_exhausted (record_layer c)) in
      if exhausted then st_ret tt
      else
        let! em := rl_encrypt_outgoing m in
        queue_tls_message em
  end.

Definition send_msg_encrypt {E} (fuel : nat) (m : PlainMessage) : method E unit :=
  let! iter := fragments_of m in
  st_each (send_single_fragment fuel) iter.

Definition send_msg {E} (fuel : nat) (m : Message) (must_encrypt : bool) : method E unit :=
  send_msg_with (send_single_fragment fuel) m must_encrypt.

Definition send_warning_alert_no_log {E} (fuel : nat) (desc : AlertDescription) : method E unit :=
  send_warning_alert_with (send_single_fragment fuel) desc.

Definition send_warning_alert {E} (fuel : nat) (desc : AlertDescription) : method E unit :=
  send_warning_alert_no_log fuel desc.

Definition send_close_notify {E} (fuel : nat) : method E unit :=
  send_warning_alert_no_log fuel AlertDescription.CloseNotify.

(** The error is returned to the caller. *)
Definition send_fatal_alert {E A} (fuel : nat) (desc : AlertDescription) (err : A) : method E A :=
  let! _ := st_debug_assert (λ c, negb (sent_fatal_alert c)) in
  let m := build_alert AlertLevel.Fatal desc in
  let! enc := st_get (λ c, is_encrypting (record_layer c)) in
  let! _ := send_msg fuel m enc in
  let! _ := st_set (set_sent_fatal_alert true) in
  st_ret err.

(** [return Err(self.send_fatal_alert(desc, err))] *)
Definition fail_fatal {A} (fuel : nat) (desc : AlertDescription) (err : Error) : method Error A :=
  let! err := send_fatal_alert fuel desc err in
  st_fail err.

Definition alert_of_certificate_error (e : CertificateError) : AlertDescription :=
  match e with
  | CErr_BadEncoding | CErr_UnhandledCriticalExtension | CErr_NotValidForName => AlertDescription.BadCertificate
  | CErr_Expired | CErr_NotValidYet => AlertDescription.CertificateExpired
  | CErr_Revoked => AlertDescription.CertificateRevoked
  | CErr_UnknownIssuer => AlertDescription.UnknownCA
  | CErr_BadSignature => AlertDescription.DecryptError
  | CErr_InvalidPurpose => AlertDescription.UnsupportedCertificate
  | CErr_ApplicationVerificationFailure => AlertDescription.AccessDenied
  | CErr_Other _ => AlertDescription.CertificateUnknown
  end.

Definition send_cert_verify_error_alert {E} (fuel : nat) (err : Error) : method E Error :=
  send_fatal_alert fuel
    (match err with
     | InvalidCertificate e => alert_of_certificate_error e
     | E_PeerMisbehaved _ => AlertDescription.IllegalParameter
     | _ => AlertDescription.HandshakeFailure
     end) err.

(** ** Plaintext *)

Definition send_appdata_encrypt {E} (fuel : nat) (payload : list byte) (limit : Limit) : method E nat :=
  let! len := st_get (λ c, match limit with
    | Limit_Yes => cvb_apply_limit (sendable_tls c) (length payload)
    | Limit_No => length payload
    end) in
  let! iter := st_try (λ c, infallible (
    let? part := slice 0 len payload in
    fragment_slice (message_fragmenter c) ContentType.ApplicationData ProtocolVersion.TLSv1_2 part)) in
  let! _ := st_each (send_single_fragment fuel) iter in
  st_ret len.

Definition append_sendable_plaintext {E} (data : list byte) (limit : Limit) : method E nat := λ c,
  match limit with
  | Limit_Yes =>
      match cvb_append_limited_copy (sendable_plaintext c) data with
      | Ok (len, b) => (Ok len, set_sendable_plaintext b c)
      | NoFuel => (NoFuel, c)
      | _ => (Panic, c)
      end
  | Limit_No => let '(len, b) := cvb_append (sendable_plaintext c) data in (Ok len, set_sendable_plaintext b c)
  end.

Definition send_plain {E} (fuel : nat) (data : list byte) (limit : Limit) : method E nat :=
  let! may := st_get may_send_application_data in
  if negb may then append_sendable_plaintext data limit
  else
    let! _ := st_debug_assert (λ c, is_encrypting (record_layer c)) in
    if bool_decide (data = []) then st_ret 0
    else send_appdata_encrypt fuel data limit.

(** Takes the queued key update, if there is one. *)
Definition perhaps_write_key_update {E} : method E unit :=
  st_set (λ c,
    match queued_key_update_message c with
    | Some message =>
        let c := set_queued_key_update_message None c in
        set_sendable_tls (cvb_append (sendable_tls c) message).2 c
    | None => c
    end).

Definition send_some_plaintext {E} (fuel : nat) (data : list byte) : method E nat :=
  let! _ := perhaps_write_key_update in
  send_plain fuel data Limit_Yes.

Definition send_early_plaintext {E} (fuel : nat) (data : list byte) : method E nat :=
  let! _ := st_debug_assert early_traffic in
  let! _ := st_debug_assert (λ c, is_encrypting (record_layer c)) in
  if bool_decide (data = []) then st_ret 0
  else send_appdata_encrypt fuel data Limit_Yes.

(** The loop takes one chunk per round; [n] bounds the rounds. *)
Fixpoint flush_loop {E} (n fuel : nat) : method E unit :=
  match n with
  | O => λ c, (NoFuel, c)
  | S n =>
      let! buf := λ c, let '(buf, b) := cvb_pop (sendable_plaintext c) in (Ok buf, set_sendable_plaintext b c) in
      match buf with
      | Some buf =>
          let! _ := send_plain fuel buf Limit_No in
          flush_loop n fuel
      | None => st_ret tt
      end
  end.

Definition flush_plaintext {E} (fuel : nat) : method E unit :=
  let! may := st_get may_send_application_data in
  if negb may then st_ret tt
  else
    let! n := st_get (λ c, S (length (cvb_chunks (sendable_plaintext c)))) in
    flush_loop n fuel.

Definition start_outgoing_traffic {E} (fuel : nat) : method E unit :=
  let! _ := st_set (set_may_send_application_data true) in
  flush_plaintext fuel.

Definition start_traffic {E} (fuel : nat) : method E unit :=
  let! _ := st_set (set_may_receive_application_data true) in
  start_outgoing_traffic fuel.

Definition set_buffer_limit {E} (limit : option nat) : method E unit :=
  st_set (λ c, set_sendable_tls (cvb_set_limit (sendable_tls c) limit)
    (set_sendable_plaintext (cvb_set_limit (sendable_plaintext c) limit) c)).

Definition cs_set_max_fragment_size (new : option nat) : method Error unit := λ c,
  let '(x, f) := set_max_fragment_size (message_fragmenter c) new in (x, set_message_fragmenter f c).

(** ** Keys *)

Definition start_encryption_tls12 `{Hmac} `{AeadKeys} {E} (secrets : ConnectionSecrets) (side : Side) : method E unit :=
  let! p := st_try (λ _, infallible (make_cipher_pair debug secrets side)) in
  let '(dec, enc) := p in
  st_set (λ c, set_record_layer (prepare_message_decrypter (prepare_message_encrypter (record_layer c) enc) dec) c).

Definition should_update_key (fuel : nat) (key_update_request : KeyUpdateRequest) : method Error bool :=
  match key_update_request with
  | KeyUpdateRequest.UpdateNotRequested => st_ret false
  | KeyUpdateRequest.UpdateRequested =>
      st_get (λ c, match queued_key_update_message c with None => true | Some _ => false end)
  | _ => fail_fatal fuel AlertDescription.IllegalParameter (E_InvalidMessage InvalidKeyUpdate)
  end.

Definition enqueue_key_update_notification {E} : method E unit :=
  let message := PlainMessage_from Message_build_key_update_notify in
  let! em := rl_encrypt_outgoing (borrow message) in
  st_set (set_queued_key_update_message (Some (OpaqueMessage_encode em))).

Definition check_aligned_handshake (fuel : nat) : method Error unit :=
  let! aligned := st_get aligned_handshake in
  if negb aligned
  then fail_fatal fuel AlertDescription.UnexpectedMessage (E_PeerMisbehaved PM_KeyEpochWithPendingFragment)
  else st_ret tt.

(** ** Receiving *)

Definition take_received_plaintext {E} (bytes : Payload) : method E unit :=
  st_set (λ c, set_received_plaintext (cvb_append (received_plaintext c) (Payload_0 bytes)).2 c).

Definition process_alert (fuel : nat) (alert : AlertMessagePayload) : method Error unit :=
  let desc := am_description alert in
  match am_level alert with
  | AlertLevel.Unknown _ => fail_fatal fuel AlertDescription.IllegalParameter (AlertReceived desc)
  | level =>
      if bool_decide (desc = AlertDescription.CloseNotify) then st_set (set_has_received_close_notify true)
      else
        let err := AlertReceived desc in
        if bool_decide (level = AlertLevel.Warning) then
          let! tls13 := st_get is_tls13 in
          if tls13 && bool_decide (desc ≠ AlertDescription.UserCanceled)
          then fail_fatal fuel AlertDescription.DecodeError err
          else st_ret tt
        else st_fail err
  end.

End common_state.

(** * The states of a connection *)

(** A method of [CommonState], called on the [common] of a [Context]. *)
Definition on_common `{ForeignErrors} {Data E A} (m : method CommonState E A) : method (CommonState * Data) E A := λ cx,
  let '(x, c) := m cx.1 in (x, (c, cx.2)).

(** [trait State<Data>] *)
Class ConnectionState `{WebPki} `{ForeignErrors} (St Data : Type) : Type :=
  handle : St → Message → method (CommonState * Data) Error St.

Section main_protocol.
Context `{WebPki} `{ForeignErrors} (debug : bool) {St Data : Type} `{!ConnectionState St Data}.

Definition process_main_protocol (fuel : nat) (msg : Message) (state : St) : method (CommonState * Data) Error St :=
  let! c := st_get fst in
  let reject_ty := match side c with
    | Client => HandshakeType.HelloRequest
    | Server => HandshakeType.ClientHello
    end in
  if may_receive_application_data c && negb (is_tls13 c) && is_handshake_type msg reject_ty then
    let! _ := on_common (send_warning_alert debug fuel AlertDescription.NoRenegotiation) in
    st_ret state
  else λ cx,
    match handle state msg cx with
    | (Err e, cx) =>
        match e with
        | InappropriateMessage _ _ | InappropriateHandshakeMessage _ _ =>
            on_common (fail_fatal debug fuel AlertDescription.UnexpectedMessage e) cx
        | _ => (Err e, cx)
        end
    | r => r
    end.

End main_protocol.
