(* ===== verification/TlsConnection.v ===== *)
(** Connections (rustls-0.21.2/rustls/src/conn.rs, check.rs): records are taken out
    of the deframer and handed to the state of the connection, errors become
    alerts, and bytes are moved between the buffers and the transport.

    The state of the connection is any implementation of the trait [State], class
    [ConnectionState]; the states in which application data flows are in
    [TlsTraffic]. *)
From Stdlib Require Import ZArith Lia Strings.Byte String.
From stdpp Require Import base list numbers option sets.
From S2P Require Import Prelude.
From S2P Require Import Codec.
From S2P Require Import TlsEnums.
From S2P Require Import TlsBase.
From S2P Require Import TlsExtensions.
From S2P Require Import TlsHandshake.
From S2P Require Import TlsError.
From S2P Require Import TlsMessage.
From S2P Require Import Fragmenter.
From S2P Require Import VecBuf.
From S2P Require Import RecordLayer.
From S2P Require Import Deframer.
From S2P Require Import TlsSuites.
From S2P Require Import TlsSecrets.
From S2P Require Import StateMonad.
From S2P Require Import TlsCommon.
Open Scope rust_scope.

(** * Checks (check.rs) *)

Definition inappropriate_message `{WebPki} `{ForeignErrors} (payload : MessagePayload)
    (content_types : list ContentType) : Error :=
  InappropriateMessage content_types (content_type payload).

Definition inappropriate_handshake_message `{WebPki} `{ForeignErrors} (payload : MessagePayload)
    (content_types : list ContentType) (handshake_types : list HandshakeType) : Error :=
  match payload with
  | MP_Handshake parsed _ => InappropriateHandshakeMessage handshake_types (hmp_typ parsed)
  | payload => inappropriate_message payload content_types
  end.

Definition TLS13_MAX_DROPPED_CCS : Z := 2.

Definition is_valid_ccs (msg : PlainMessage) : bool :=
  bool_decide (pm_typ msg = ContentType.ChangeCipherSpec) && bool_decide (Payload_0 (pm_payload msg) = [x01]).

(** * Reading plaintext *)

Inductive ReadError : Type := UnexpectedEof | WouldBlock.

(** [Reader] borrows the buffer; the flags are read when it is made. *)
Record PlainReader : Type := mkPlainReader {
  pr_received_plaintext : ChunkVecBuffer;
  peer_cleanly_closed : bool;
  pr_has_seen_eof : bool
}.

(** The count and the buffer [buf] afterwards. *)
Definition reader_read (r : PlainReader) (buf : list byte) : res ReadError (nat * list byte) * PlainReader :=
  match cvb_read (pr_received_plaintext r) buf with
  | Ok (len, buf', b) =>
      let r := mkPlainReader b (peer_cleanly_closed r) (pr_has_seen_eof r) in
      if bool_decide (len = 0) && negb (bool_decide (buf = [])) then
        match peer_cleanly_closed r, pr_has_seen_eof r with
        | true, _ => (Ok (len, buf'), r)
        | false, true => (Err UnexpectedEof, r)
        | false, false => (Err WouldBlock, r)
        end
      else (Ok (len, buf'), r)
  | NoFuel => (NoFuel, r)
  | _ => (Panic, r)
  end.

(** * Connections *)

Section connection.
Context `{WebPki} `{ForeignErrors} (debug : bool) {St Data : Type} `{!ConnectionState St Data}.

(** The state is an error ([inl]) once there was one. *)
Record ConnectionCore : Type := mkConnectionCore {
  state : Error + St;
  data : Data;
  common_state : CommonState;
  message_deframer : MessageDeframer
}.

Definition ConnectionCore_new (st : St) (d : Data) (c : CommonState) : ConnectionCore :=
  mkConnectionCore (inr st) d c MessageDeframer_default.

Definition set_state (st : Error + St) (k : ConnectionCore) : ConnectionCore :=
  mkConnectionCore st (data k) (common_state k) (message_deframer k).
Definition set_common (c : CommonState) (k : ConnectionCore) : ConnectionCore :=
  mkConnectionCore (state k) (data k) c (message_deframer k).
Definition set_deframer (d : MessageDeframer) (k : ConnectionCore) : ConnectionCore :=
  mkConnectionCore (state k) (data k) (common_state k) d.

#[local] Abbreviation method := (method ConnectionCore).

(** Calls on parts of the core. *)
Definition with_common {E A} (m : StateMonad.method CommonState E A) : method E A := λ k,
  let '(x, c) := m (common_state k) in (x, set_common c k).

Definition with_context {E A} (m : StateMonad.method (CommonState * Data) E A) : method E A := λ k,
  let '(x, cx) := m (common_state k, data k) in
  (x, mkConnectionCore (state k) cx.2 cx.1 (message_deframer k)).

(** [self.message_deframer.pop(&mut self.common_state.record_layer)] *)
Definition deframer_pop : method Error (option Deframed) := λ k,
  let '(x, (d, rl)) := pop debug (message_deframer k) (record_layer (common_state k)) in
  (x, set_deframer d (set_common (set_record_layer rl (common_state k)) k)).

(** [match] on what a method returns. *)
Definition st_catch {S E A} (m : StateMonad.method S E A) (f : E → StateMonad.method S E A) : StateMonad.method S E A := λ s,
  match m s with
  | (Err e, s) => f e s
  | r => r
  end.

Definition deframe (fuel : nat) : method Error (option PlainMessage) :=
  let! popped := st_catch deframer_pop (λ err,
    match err with
    | E_InvalidMessage _ => with_common (fail_fatal debug fuel AlertDescription.DecodeError err)
    | PeerSentOversizedRecord => with_common (fail_fatal debug fuel AlertDescription.RecordOverflow err)
    | DecryptError => with_common (fail_fatal debug fuel AlertDescription.BadRecordMac err)
    | e => st_fail e
    end) in
  match popped with
  | None => st_ret None
  | Some d =>
      let! _ := if df_want_close_before_decrypt d then with_common (send_close_notify debug fuel) else st_ret tt in
      let! _ := if df_trial_decryption_finished d
        then st_set (λ k, set_common (set_record_layer (finish_trial_decryption (record_layer (common_state k)))
          (common_state k)) k)
        else st_ret tt in
      let! _ := st_set (λ k, set_common (set_aligned_handshake (df_aligned d) (common_state k)) k) in
      st_ret (Some (df_message d))
  end.

(** [u8 += 1] *)
Definition u8_incr {E} (x : Z) : res E Z :=
  if bool_decide (x = 255)%Z then (if debug then Panic else Ok 0%Z) else Ok (x + 1)%Z.

Definition process_msg (fuel : nat) (msg : PlainMessage) (st : St) : method Error St :=
  let! c := st_get common_state in
  if bool_decide (pm_typ msg = ContentType.ChangeCipherSpec) &&
     negb (may_receive_application_data c) && is_tls13 c
  then
    if negb (is_valid_ccs msg) || bool_decide (TLS13_MAX_DROPPED_CCS < received_middlebox_ccs c)%Z
    then with_common (fail_fatal debug fuel AlertDescription.UnexpectedMessage
      (E_PeerMisbehaved PM_IllegalMiddleboxChangeCipherSpec))
    else
      let! n := st_try (λ _, u8_incr (received_middlebox_ccs c)) in
      let! _ := st_set (λ k, set_common (set_received_middlebox_ccs n (common_state k)) k) in
      st_ret st
  else
    match Message_try_from msg with
    | Err err => with_common (fail_fatal debug fuel AlertDescription.DecodeError (E_InvalidMessage err))
    | Panic => λ k, (Panic, k)
    | NoFuel => λ k, (NoFuel, k)
    | Ok msg =>
        match m_payload msg with
        | MP_Alert alert =>
            let! _ := with_common (process_alert debug fuel alert) in
            st_ret st
        | _ => with_context (process_main_protocol debug fuel msg st)
        end
    end.

(** The loop of [process_new_packets], in at most [n] rounds; an error of
    [deframe] leaves the state as it was replaced. *)
Fixpoint packets_loop (n fuel : nat) (st : St) : method Error St :=
  match n with
  | O => λ k, (NoFuel, k)
  | S n =>
      let! msg := deframe fuel in
      match msg with
      | None => st_ret st
      | Some msg =>
          let! st := st_catch (process_msg fuel msg st) (λ e,
            let! _ := st_set (set_state (inl e)) in
            st_fail e) in
          packets_loop n fuel st
      end
  end.

Definition process_new_packets (n fuel : nat) : method Error IoState :=
  let! old := st_get state in
  match old with
  | inl e => st_fail e
  | inr st =>
      let! _ := st_set (set_state (inl HandshakeNotComplete)) in
      let! st := packets_loop n fuel st in
      let! _ := st_set (set_state (inr st)) in
      st_get (λ k, current_io_state (common_state k))
  end.

(** The first handshake message, for an acceptor. *)
Definition first_handshake_message (fuel : nat) : method Error (option Message) :=
  let! msg := deframe fuel in
  match msg with
  | None => st_ret None
  | Some msg =>
      match Message_try_from msg with
      | Ok msg => st_ret (Some msg)
      | Err err => with_common (fail_fatal debug fuel AlertDescription.DecodeError (E_InvalidMessage err))
      | Panic => λ k, (Panic, k)
      | NoFuel => λ k, (NoFuel, k)
      end
  end.

Definition replace_state {E} (new : St) : method E unit := st_set (set_state (inr new)).

(** ** Bytes in and out *)

Inductive TlsReadError : Type := ReceivedPlaintextFull | ReadFailed (e : io_error).

(** [rd] is the transport's [read], as in [deframer_read]. *)
Definition read_tls (rd : nat → option (list byte)) : method TlsReadError nat := λ k,
  if cvb_is_full (received_plaintext (common_state k)) then (Err ReceivedPlaintextFull, k)
  else
    match deframer_read (message_deframer k) rd with
    | (Ok n, d) =>
        let k := set_deframer d k in
        (Ok n, if bool_decide (n = 0) then set_common (set_has_seen_eof true (common_state k)) k else k)
    | (Err e, d) => (Err (ReadFailed e), set_deframer d k)
    | (Panic, d) => (Panic, set_deframer d k)
    | (NoFuel, d) => (NoFuel, set_deframer d k)
    end.

(** [wr] is the transport's [write_vectored], as in [cvb_write_to]. *)
Definition write_tls {E} (wr : list (list byte) → res E nat) : method E nat := λ k,
  let '(x, b) := cvb_write_to (sendable_tls (common_state k)) wr in
  (x, set_common (set_sendable_tls b (common_state k)) k).

Definition reader (k : ConnectionCore) : PlainReader :=
  mkPlainReader (received_plaintext (common_state k))
    (has_received_close_notify (common_state k) && negb (has_pending (message_deframer k)))
    (has_seen_eof (common_state k)).

(** [conn.reader().read(buf)] *)
Definition read_plaintext (buf : list byte) : method ReadError (nat * list byte) := λ k,
  let '(x, r) := reader_read (reader k) buf in
  (x, set_common (set_received_plaintext (pr_received_plaintext r) (common_state k)) k).

(** [conn.writer().write(buf)] *)
Definition writer_write {E} (fuel : nat) (buf : list byte) : method E nat :=
  with_common (send_some_plaintext debug fuel buf).

Fixpoint writer_write_vectored {E} (fuel : nat) (bufs : list (list byte)) : method E nat :=
  match bufs with
  | [] => st_ret 0
  | buf :: bufs =>
      let! sz := with_common (send_some_plaintext debug fuel buf) in
      let! rest := writer_write_vectored fuel bufs in
      st_ret (sz + rest)
  end.

Definition writer_flush {E} : method E unit := st_ret tt.

End connection.
