(* ===== verification/TlsTraffic.v ===== *)
(** The states in which application data flows: [ExpectTraffic] of TLS 1.2
    (rustls-0.21.2/rustls/src/client/tls12.rs and server/tls12.rs), and what a
    connection in such a state does with the records it receives. *)
From Stdlib Require Import ZArith Lia Strings.Byte String.
From stdpp Require Import base list numbers option sets.
From S2P Require Import Prelude.
From S2P Require Import Codec.
From S2P Require Import TlsEnums.
From S2P Require Import TlsBase.
From S2P Require Import TlsExtensions.
From S2P Require Import TlsHandshake.
From S2P Require Import TlsError.
From S2P Require Import TlsMessage.
From S2P Require Import Fragmenter.
From S2P Require Import VecBuf.
From S2P Require Import RecordLayer.
From S2P Require Import Deframer.
From S2P Require Import TlsCiphers.
From S2P Require Import TlsSuites.
From S2P Require Import TlsSecrets.
From S2P Require Import StateMonad.
From S2P Require Import TlsCommon.
From S2P Require Import TlsConnection.
Open Scope rust_scope.

Section states.
Context `{WebPki} `{ForeignErrors}.

(** The markers of what was verified have no content. *)
Record ClientExpectTraffic12 : Type := mkClientExpectTraffic12 { c12_secrets : ConnectionSecrets }.
Record ServerExpectTraffic12 : Type := mkServerExpectTraffic12 { s12_secrets : ConnectionSecrets }.

Definition client12_handle {Data} (self : ClientExpectTraffic12) (m : Message)
    : method (CommonState * Data) Error ClientExpectTraffic12 :=
  match m_payload m with
  | MP_ApplicationData payload =>
      let! _ := on_common (take_received_plaintext payload) in
      st_ret self
  | payload => st_fail (inappropriate_message payload [ContentType.ApplicationData])
  end.

Definition server12_handle {Data} (self : ServerExpectTraffic12) (m : Message)
    : method (CommonState * Data) Error ServerExpectTraffic12 :=
  match m_payload m with
  | MP_ApplicationData payload =>
      let! _ := on_common (take_received_plaintext payload) in
      st_ret self
  | payload => st_fail (inappropriate_message payload [ContentType.ApplicationData])
  end.

#[export] Instance client12_state Data : ConnectionState ClientExpectTraffic12 Data := client12_handle.
#[export] Instance server12_state Data : ConnectionState ServerExpectTraffic12 Data := server12_handle.

(** A state in which application data goes to the buffer of received plaintext. *)
Definition takes_data {St Data} `{!ConnectionState St Data} (st : St) : Prop :=
  ∀ v p (cx : CommonState * Data), handle st (mkMessage v (MP_ApplicationData p)) cx
    = (Ok st, (set_received_plaintext (cvb_append (received_plaintext cx.1) (Payload_0 p)).2 cx.1, cx.2)).

Lemma client12_takes_data {Data} (st : ClientExpectTraffic12) : takes_data (Data := Data) st.
Proof. done. Qed.
Lemma server12_takes_data {Data} (st : ServerExpectTraffic12) : takes_data (Data := Data) st.
Proof. done. Qed.

End states.

(** * Frames *)

(** What a record means to the application. *)
Inductive event : Type := Ev_data (bytes : list byte) | Ev_close.

Definition event_type (e : event) : ContentType :=
  match e with Ev_data _ => ContentType.ApplicationData | Ev_close => ContentType.Alert end.

(** A warning about the end of the connection. *)
Definition event_payload (e : event) : list byte :=
  match e with Ev_data bytes => bytes | Ev_close => [x01; x00] end.

Definition data_of (es : list event) : list byte :=
  mjoin ((λ e, match e with Ev_data bytes => bytes | Ev_close => [] end) <$> es).

Definition closed (es : list event) : bool :=
  existsb (λ e, match e with Ev_close => true | Ev_data _ => false end) es.

Lemma data_of_app es es' : data_of (es ++ es') = data_of es ++ data_of es'.
Proof. unfold data_of. by rewrite fmap_app, join_app. Qed.
Lemma closed_app es es' : closed (es ++ es') = closed es || closed es'.
Proof. apply existsb_app. Qed.

(** A record with its event. *)
Definition frame : Type := OpaqueMessage * event.

Definition wire_of (fs : list frame) : list byte := mjoin ((λ f : frame, OpaqueMessage_encode f.1) <$> fs).
Definition events_of (fs : list frame) : list event := fs.*2.

Lemma wire_of_app fs fs' : wire_of (fs ++ fs') = wire_of fs ++ wire_of fs'.
Proof. unfold wire_of. by rewrite fmap_app, join_app. Qed.
Lemma wire_of_cons f fs : wire_of (f :: fs) = OpaqueMessage_encode f.1 ++ wire_of fs.
Proof. done. Qed.

Section frames.
Context `{ForeignErrors} (dec : MessageDecrypter).

(** The records decrypt to their events under the numbers from [seq] on. *)
Fixpoint frames_ok (seq : Z) (fs : list frame) : Prop :=
  match fs with
  | [] => True
  | f :: fs =>
      (OpaqueMessage_wf f.1 ∧ om_typ f.1 ≠ ContentType.ChangeCipherSpec ∧
       ∃ v, decrypt dec f.1 seq = Ok (mkPlainMessage (event_type f.2) v (mkPayload (event_payload f.2)))) ∧
      frames_ok (seq + 1) fs
  end.

Lemma frames_ok_app seq fs fs' :
  frames_ok seq (fs ++ fs') ↔ frames_ok seq fs ∧ frames_ok (seq + Z.of_nat (length fs)) fs'.
Proof.
  revert seq. induction fs as [|f fs IH]; intros seq; cbn [app frames_ok length].
  - rewrite Z.add_0_r. tauto.
  - rewrite IH. replace (seq + 1 + Z.of_nat (length fs))%Z with (seq + Z.of_nat (S (length fs)))%Z by lia. tauto.
Qed.

End frames.

Lemma encode_pos m : 5 ≤ length (OpaqueMessage_encode m).
Proof. rewrite OpaqueMessage_encode_eq, !length_app, !length_to_be. lia. Qed.

Lemma wire_of_nil fs : wire_of fs = [] → fs = [].
Proof.
  destruct fs as [|f fs]; [done|]. rewrite wire_of_cons. intros [E _]%app_eq_nil.
  pose proof (encode_pos f.1). rewrite E in *. cbn in *. lia.
Qed.

(** * Receiving *)

Section receive.
Context `{WebPki} `{ForeignErrors} (debug : bool) {St Data : Type} `{!ConnectionState St Data}.

(** A reader's verdict on the bytes of an idle deframer. *)
Lemma pop_idle (d : MessageDeframer) (rl : RecordLayer) :
  deframer_inv d → joining_hs d = None → last_error d = None → used d ≠ 0 →
  pop debug d rl = match pop_loop debug (S (used d)) d rl with
    | (Ok (Exit_return o), s) => (Ok o, s)
    | (Ok (Exit_break len), (d, rl)) => let '(r, d) := pop_complete d len in (r, (d, rl))
    | (Err e, s) => (Err e, s)
    | (Panic, s) => (Panic, s)
    | (NoFuel, s) => (NoFuel, s)
    end.
Proof. intros Hd Hj He Hu. unfold pop. by rewrite He, bool_decide_false by done. Qed.

Lemma idle_raw d : joining_hs d = None → d_raw d = take (used d) (buf d).
Proof. intros Hj. unfold d_raw, d_start. by rewrite Hj. Qed.

(** Half a record stays where it is. *)
Lemma pop_partial d rl m k :
  deframer_inv d → joining_hs d = None → last_error d = None →
  OpaqueMessage_wf m → k < length (OpaqueMessage_encode m) → d_raw d = take k (OpaqueMessage_encode m) →
  pop debug d rl = (Ok None, (d, rl)).
Proof.
  intros Hd Hj He Hwf Hk Hraw. destruct (decide (used d = 0)) as [Hu|Hu].
  { unfold pop. by rewrite He, bool_decide_true by done. }
  rewrite pop_idle by done. cbn [pop_loop]. rewrite Hj.
  pose proof (d_raw_slice d Hd) as Hs. unfold d_start in Hs. rewrite Hj in Hs. rewrite Hs.
  pose proof (OpaqueMessage_read_spec (d_raw d) 0 ltac:(lia)) as Hr. rewrite drop_0, Hraw in Hr.
  rewrite (opaque_parse_truncated m k Hwf Hk) in Hr. rewrite Hraw. unfold Reader_init.
  destruct (OpaqueMessage_read _) as [r rd]. cbn [fst] in Hr. subst r. by case_bool_decide.
Qed.

(** A record of another type than handshake is decrypted and taken out. *)
Lemma pop_record d rl m tl plain :
  deframer_inv d → joining_hs d = None → last_error d = None →
  d_raw d = OpaqueMessage_encode m ++ tl → OpaqueMessage_wf m → om_typ m ≠ ContentType.ChangeCipherSpec →
  decrypt_state rl = DS_Active → (0 ≤ read_seq rl < SEQ_SOFT_LIMIT)%Z →
  decrypt (message_decrypter rl) m (read_seq rl) = Ok plain → pm_typ plain ≠ ContentType.Handshake →
  ∃ d', pop debug d rl = (Ok (Some (mkDeframed false true false plain)), (d', with_read_seq rl (read_seq rl + 1))) ∧
    deframer_inv d' ∧ joining_hs d' = None ∧ last_error d' = None ∧ d_raw d' = tl.
Proof.
  intros Hd Hj He Hraw Hwf Hccs Hact Hseq Hdec Htyp. unfold SEQ_SOFT_LIMIT in Hseq.
  pose proof (d_raw_length d Hd) as Hl. unfold d_start in Hl. rewrite Hj, Hraw, length_app in Hl.
  pose proof (encode_pos m). rewrite pop_idle by (done || lia). cbn [pop_loop]. rewrite Hj.
  pose proof (d_raw_slice d Hd) as Hs. unfold d_start in Hs. rewrite Hj in Hs. rewrite Hs.
  pose proof (OpaqueMessage_read_spec (d_raw d) 0 ltac:(lia)) as Hr.
  pose proof (opaque_parse_encode m tl Hwf) as Hp. rewrite <- Hraw in Hp. rewrite drop_0, Hp in Hr.
  unfold Reader_init. rewrite Hr, bool_decide_false by done. cbn [andb Reader_used cursor].
  unfold decrypt_incoming. rewrite Hact, bool_decide_true, Hdec by done. cbn [negb].
  rewrite (bool_decide_false (read_seq rl = _)) by (unfold SEQ_SOFT_LIMIT; lia).
  unfold u64_incr. rewrite (bool_decide_false (read_seq rl + 1 = 2 ^ 64)%Z) by lia.
  cbn [want_close_before_decrypt plaintext is_some andb]. rewrite andb_false_r, (bool_decide_false (_ = ContentType.Handshake)) by done.
  cbn [negb]. destruct (record_end d m tl Hd Hp) as (Htl & Hend & _). unfold d_start in Htl, Hend. rewrite Hj in Htl, Hend.
  destruct (discard_idle d _ Hd Hj Hend) as (d' & E & Hd' & _ & Hj' & Hraw' & _ & Hle).
  unfold return_record. cbn [Nat.add] in *. rewrite E. exists d'. split_and!; try done; congruence.
Qed.

End receive.
