(* ===== verification/TlsChannel.v ===== *)
(** What a connection does with the records that it receives, and what it puts on
    the wire for what the application hands to it. *)
From Stdlib Require Import ZArith Lia Strings.Byte String.
From stdpp Require Import base list numbers option sets.
From S2P Require Import Prelude.
From S2P Require Import Codec.
From S2P Require Import TlsEnums.
From S2P Require Import TlsBase.
From S2P Require Import TlsExtensions.
From S2P Require Import TlsHandshake.
From S2P Require Import TlsError.
From S2P Require Import TlsMessage.
From S2P Require Import Fragmenter.
From S2P Require Import VecBuf.
From S2P Require Import RecordLayer.
From S2P Require Import Deframer.
From S2P Require Import TlsCiphers.
From S2P Require Import TlsSuites.
From S2P Require Import TlsSecrets.
From S2P Require Import StateMonad.
From S2P Require Import TlsCommon.
From S2P Require Import TlsConnection.
From S2P Require Import TlsTraffic.
Open Scope rust_scope.
(** * Receiving *)

Section receiving.
Context `{WebPki} `{ForeignErrors} (debug : bool) {St Data : Type} `{!ConnectionState St Data}.
#[local] Abbreviation core := (ConnectionCore (St := St) (Data := Data)).

(** What sending depends on, and what receiving depends on. *)
Definition send_view (c : CommonState) :=
  (message_encrypter (record_layer c), encrypt_state (record_layer c), write_seq (record_layer c),
   may_send_application_data c, message_fragmenter c, sendable_tls c, queued_key_update_message c).

Definition receive_view (c : CommonState) :=
  (message_decrypter (record_layer c), decrypt_state (record_layer c), read_seq (record_layer c),
   received_plaintext c, has_received_close_notify c, has_seen_eof c).

(** What receiving does not change. *)
Definition stays (k : core) := (send_view (common_state k), has_seen_eof (common_state k)).

(** A receiver between two records. *)
Record receiver_ok (dec : MessageDecrypter) (k : core) : Prop := {
  rc_deframer : deframer_inv (message_deframer k);
  rc_idle : joining_hs (message_deframer k) = None;
  rc_error : last_error (message_deframer k) = None;
  rc_active : decrypt_state (record_layer (common_state k)) = DS_Active;
  rc_dec : message_decrypter (record_layer (common_state k)) = dec;
  rc_seq : (0 ≤ read_seq (record_layer (common_state k)))%Z;
  rc_plaintext : cvb_wf (received_plaintext (common_state k))
}.

Definition raw (k : core) : list byte := d_raw (message_deframer k).
Definition next_in (k : core) : Z := read_seq (record_layer (common_state k)).
Definition got (k : core) : list byte := contents (received_plaintext (common_state k)).
Definition peer_closed (k : core) : bool := has_received_close_notify (common_state k).

(** What the events [es] have done to the receiver. *)
Definition received (es : list event) (k k' : core) : Prop :=
  next_in k' = (next_in k + Z.of_nat (length es))%Z ∧ got k' = got k ++ data_of es ∧
  peer_closed k' = peer_closed k || closed es ∧ stays k' = stays k.

Lemma received_nil k : received [] k k.
Proof. unfold received. cbn. rewrite Z.add_0_r, app_nil_r, orb_false_r. done. Qed.

Lemma received_trans es es' k k1 k2 : received es k k1 → received es' k1 k2 → received (es ++ es') k k2.
Proof.
  intros (H1 & H2 & H3 & H4) (H1' & H2' & H3' & H4'). unfold received.
  rewrite H1', H1, H2', H2, H3', H3, H4', H4, length_app, data_of_app, closed_app, <- app_assoc, orb_assoc.
  split_and!; [lia|done|done|done].
Qed.

(** The parser of the message finds the event again. *)
Lemma event_message e v :
  Message_try_from (mkPlainMessage (event_type e) v (mkPayload (event_payload e)))
  = Ok (mkMessage v match e with
      | Ev_data bytes => MP_ApplicationData (mkPayload bytes)
      | Ev_close => MP_Alert (mkAlertMessagePayload AlertLevel.Warning AlertDescription.CloseNotify)
      end).
Proof. by destruct e. Qed.

(** The state machine takes the event. *)
Lemma process_event fuel st e v (k : core) :
  takes_data (Data := Data) st → cvb_wf (received_plaintext (common_state k)) →
  ∃ k', process_msg debug fuel (mkPlainMessage (event_type e) v (mkPayload (event_payload e))) st k = (Ok st, k') ∧
    message_deframer k' = message_deframer k ∧ record_layer (common_state k') = record_layer (common_state k) ∧
    cvb_wf (received_plaintext (common_state k')) ∧ got k' = got k ++ data_of [e] ∧
    peer_closed k' = peer_closed k || closed [e] ∧ stays k' = stays k ∧
    state k' = state k.
Proof.
  intros Hst Hwf. unfold process_msg. rewrite st_bind_get, bool_decide_false by (by destruct e). cbn [andb].
  rewrite event_message. destruct e as [bytes|]; cbn [m_payload].
  - unfold with_context, process_main_protocol. rewrite st_bind_get. cbn [fst]. unfold is_handshake_type. cbn [m_payload].
    rewrite andb_false_r. rewrite Hst. cbn [fst snd]. eexists. split; [reflexivity|].
    cbn [common_state message_deframer state]. split_and!; try done.
    + by apply cvb_append_wf.
    + unfold got, data_of. cbn [common_state received_plaintext set_received_plaintext fmap list_fmap].
      rewrite cvb_append_contents. cbn. by rewrite app_nil_r.
    + unfold peer_closed. cbn. by rewrite orb_false_r.
  - unfold with_common, process_alert. cbn [am_level am_description]. rewrite bool_decide_true by done.
    unfold st_bind, st_set. cbn [common_state]. eexists. split; [reflexivity|].
    cbn [set_common common_state message_deframer state]. split_and!; try done.
    + unfold got, data_of. cbn. by rewrite app_nil_r.
    + unfold peer_closed. cbn. by rewrite orb_true_r.
Qed.

(** A whole record at the front is taken out ... *)
Lemma deframe_record fuel dec k f tl :
  receiver_ok dec k → raw k = OpaqueMessage_encode f.1 ++ tl → frames_ok dec (next_in k) [f] → (next_in k < SEQ_SOFT_LIMIT)%Z →
  ∃ v k', deframe debug fuel k
      = (Ok (Some (mkPlainMessage (event_type f.2) v (mkPayload (event_payload f.2)))), k') ∧
    receiver_ok dec k' ∧ raw k' = tl ∧ next_in k' = (next_in k + 1)%Z ∧ got k' = got k ∧ peer_closed k' = peer_closed k ∧
    stays k' = stays k ∧ state k' = state k.
Proof.
  intros [Hd Hj He Hact Hdec Hseq Hwf] Hraw [(Hm & Hccs & v & Hplain) _] Hlt. unfold next_in in *.
  rewrite <- Hdec in Hplain.
  destruct (pop_record debug (message_deframer k) (record_layer (common_state k)) f.1 tl _ Hd Hj He Hraw Hm Hccs Hact
    (conj Hseq Hlt) Hplain) as (d' & E & Hd' & Hj' & He' & Hraw'); [by destruct f.2|].
  exists v. unfold deframe, st_bind, st_catch, deframer_pop. rewrite E. cbn [df_want_close_before_decrypt df_trial_decryption_finished].
  unfold st_set, st_ret. eexists. split; [reflexivity|].
  split; [|done]. split; try done. cbn. lia.
Qed.

(** ... and part of a record is left alone. *)
Lemma deframe_partial fuel dec k m n :
  receiver_ok dec k → OpaqueMessage_wf m → n < length (OpaqueMessage_encode m) → raw k = take n (OpaqueMessage_encode m) →
  ∃ k', deframe debug fuel k = (Ok None, k') ∧ receiver_ok dec k' ∧ raw k' = raw k ∧ received [] k k' ∧ state k' = state k.
Proof.
  intros [Hd Hj He Hact Hdec Hseq Hwf] Hm Hn Hraw.
  unfold deframe, st_bind, st_catch, deframer_pop.
  rewrite (pop_partial debug _ _ m n Hd Hj He Hm Hn Hraw). unfold st_ret. eexists. split; [reflexivity|].
  split; [by split|]. split; [done|]. split; [|done]. unfold received, next_in, got, peer_closed. cbn.
  by rewrite Z.add_0_r, app_nil_r, orb_false_r.
Qed.

(** Nothing whole is left at the front. *)
Definition drained (fs : list frame) (k : core) : Prop :=
  match fs with [] => True | f :: _ => length (raw k) < length (OpaqueMessage_encode f.1) end.

Lemma packets_loop_spec dec fuel st n k fs rest :
  receiver_ok dec k → takes_data (Data := Data) st → raw k ++ rest = wire_of fs → frames_ok dec (next_in k) fs →
  (next_in k + Z.of_nat (length fs) ≤ SEQ_SOFT_LIMIT)%Z → length (raw k) < n →
  ∃ taken left k', packets_loop debug n fuel st k = (Ok st, k') ∧ fs = taken ++ left ∧ receiver_ok dec k' ∧
    raw k' ++ rest = wire_of left ∧ received (events_of taken) k k' ∧ drained left k' ∧ state k' = state k.
Proof.
  revert k fs. induction n as [|n IH]; intros k fs Hk Hst Hraw Hfs Hseq Hn; [lia|]. cbn [packets_loop].
  destruct fs as [|f fs].
  { change (wire_of []) with (@nil byte) in Hraw. apply app_eq_nil in Hraw as [Hr Hrest].
    destruct (deframe_partial fuel dec k (mkOpaqueMessage ContentType.ApplicationData ProtocolVersion.TLSv1_2 (mkPayload [])) 0)
      as (k' & E & Hk' & Hraw' & Hrec & Hs); [done| | |by rewrite Hr|].
    { by split_and!. }
    { pose proof (encode_pos (mkOpaqueMessage ContentType.ApplicationData ProtocolVersion.TLSv1_2 (mkPayload []))). lia. }
    exists [], [], k'. rewrite (st_bind_ok _ _ _ _ _ E). split_and!; try done. by rewrite Hraw', Hr, Hrest. }
  destruct (decide (length (raw k) < length (OpaqueMessage_encode f.1))) as [Hpart|Hwhole].
  - pose proof Hfs as [(Hm & _) _].
    destruct (deframe_partial fuel dec k f.1 (length (raw k)) Hk Hm Hpart) as (k' & E & Hk' & Hraw' & Hrec & Hs).
    { rewrite wire_of_cons in Hraw. apply (f_equal (take (length (raw k)))) in Hraw.
      by rewrite take_app_length, take_app_le in Hraw by lia. }
    exists [], (f :: fs), k'. rewrite (st_bind_ok _ _ _ _ _ E). split_and!; try done; [by rewrite Hraw'|].
    unfold drained. by rewrite Hraw'.
  - assert (∃ tl, raw k = OpaqueMessage_encode f.1 ++ tl ∧ tl ++ rest = wire_of fs) as (tl & Htl & Hrest).
    { rewrite wire_of_cons in Hraw. exists (drop (length (OpaqueMessage_encode f.1)) (raw k)).
      assert (Ht : take (length (OpaqueMessage_encode f.1)) (raw k) = OpaqueMessage_encode f.1).
      { apply (f_equal (take (length (OpaqueMessage_encode f.1)))) in Hraw.
        by rewrite take_app_length, take_app_le in Hraw by lia. }
      split; [by rewrite <- Ht at 1; rewrite take_drop|].
      apply (f_equal (drop (length (OpaqueMessage_encode f.1)))) in Hraw.
      by rewrite drop_app_length, drop_app_le in Hraw by lia. }
    destruct (deframe_record fuel dec k f tl Hk Htl) as (v & k1 & E & Hk1 & Hraw1 & Hn1 & Hg1 & Hc1 & Hs1 & Hst1).
    { destruct Hfs as [Hf _]. by split. }
    { cbn [length] in Hseq. lia. }
    rewrite (st_bind_ok _ _ _ _ _ E).
    destruct (process_event fuel st f.2 v k1 Hst (rc_plaintext _ _ Hk1)) as (k2 & E2 & Hd2 & Hrl2 & Hwf2 & Hg2 & Hc2 & Hs2 & Hst2).
    unfold st_catch, st_bind at 1. rewrite E2.
    assert (Hraw2 : raw k2 = tl) by (unfold raw; rewrite Hd2; exact Hraw1).
    assert (Hn2 : next_in k2 = (next_in k + 1)%Z) by (unfold next_in in *; by rewrite Hrl2).
    assert (Hk2 : receiver_ok dec k2).
    { destruct Hk1. split; rewrite ?Hd2, ?Hrl2, ?Hst2; done. }
    destruct (IH k2 fs Hk2 Hst) as (taken & left & k3 & E3 & -> & Hk3 & Hraw3 & Hrec3 & Hdr & Hst3).
    { by rewrite Hraw2. }
    { rewrite Hn2. by destruct Hfs. }
    { rewrite Hn2. cbn [length] in Hseq. lia. }
    { rewrite Hraw2. pose proof (encode_pos f.1). apply (f_equal length) in Htl. rewrite length_app in Htl. lia. }
    exists (f :: taken), left, k3. rewrite E3. split_and!; try done; [|congruence].
    apply (received_trans [f.2] _ k k2); [|done]. unfold received. split_and!; [done|congruence|congruence|congruence].
Qed.

(** Processing what has arrived. *)
Lemma process_spec dec fuel st n k fs rest :
  receiver_ok dec k → state k = inr st → takes_data (Data := Data) st →
  raw k ++ rest = wire_of fs → frames_ok dec (next_in k) fs →
  (next_in k + Z.of_nat (length fs) ≤ SEQ_SOFT_LIMIT)%Z → length (raw k) < n →
  ∃ taken left k' io, process_new_packets debug n fuel k = (Ok io, k') ∧ fs = taken ++ left ∧ receiver_ok dec k' ∧
    state k' = inr st ∧ raw k' ++ rest = wire_of left ∧ received (events_of taken) k k' ∧ drained left k'.
Proof.
  intros Hk Hst Htd Hraw Hfs Hseq Hn. unfold process_new_packets. rewrite st_bind_get, Hst, st_bind_set.
  destruct (packets_loop_spec dec fuel st n (set_state (inl HandshakeNotComplete) k) fs rest)
    as (taken & left & k' & E & Hsp & Hk' & Hraw' & Hrec & Hdr & _); [by destruct Hk|done|done|done|done|done|].
  rewrite (st_bind_ok _ _ _ _ _ E), st_bind_set. exists taken, left, (set_state (inr st) k'), (current_io_state (common_state k')).
  split_and!; try done; by destruct Hk'.
Qed.

End receiving.

(** * Sending *)

Section sending.
Context `{WebPki} `{ForeignErrors} (debug : bool).

(** A sender that may send application data and has sequence numbers left. *)
Record sender_ok (enc : MessageEncrypter) (c : CommonState) : Prop := {
  sd_enc : message_encrypter (record_layer c) = enc;
  sd_active : encrypt_state (record_layer c) = DS_Active;
  sd_seq : (0 ≤ write_seq (record_layer c) ≤ SEQ_SOFT_LIMIT)%Z;
  sd_may : may_send_application_data c = true;
  sd_fragmenter : fragmenter_wf (message_fragmenter c);
  sd_tls : cvb_wf (sendable_tls c)
}.

Definition next_out (c : CommonState) : Z := write_seq (record_layer c).
Definition unsent (c : CommonState) : list byte := contents (sendable_tls c).

(** The frames [fs] were put at the end of what is to be sent. *)
Definition queued (fs : list frame) (c c' : CommonState) : Prop :=
  unsent c' = unsent c ++ wire_of fs ∧ next_out c' = (next_out c + Z.of_nat (length fs))%Z ∧
  receive_view c' = receive_view c ∧ queued_key_update_message c' = queued_key_update_message c.

Lemma queued_nil c : queued [] c c.
Proof. unfold queued. cbn. by rewrite app_nil_r, Z.add_0_r. Qed.

Lemma queued_trans fs fs' c c1 c2 : queued fs c c1 → queued fs' c1 c2 → queued (fs ++ fs') c c2.
Proof.
  intros (H1 & H2 & H3 & H4) (H1' & H2' & H3' & H4'). unfold queued.
  rewrite H1', H1, H2', H2, H3', H3, H4', H4, wire_of_app, length_app, app_assoc. split_and!; [done|lia|done|done].
Qed.

Lemma send_fragment_spec {E} enc dec f (e : event) version c :
  CipherPair enc dec → sender_ok enc c → (next_out c < SEQ_SOFT_LIMIT)%Z →
  codec_wf version → version_ok version = true → length (event_payload e) ≤ MAX_FRAGMENT_LEN →
  ∃ om c', send_single_fragment (E := E) debug (S f) (mkBorrowedPlainMessage (event_type e) version (event_payload e)) c = (Ok tt, c') ∧
    sender_ok enc c' ∧ queued [(om, e)] c c' ∧ frames_ok dec (next_out c) [(om, e)].
Proof.
  intros Hpair [He Ha Hs Hm Hf Ht] Hlt Hv Hvo Hlen. unfold next_out in *. cbn [send_single_fragment].
  rewrite st_bind_get. unfold wants_close_before_encrypt. rewrite bool_decide_false by lia.
  unfold st_ret at 1, st_bind at 1. rewrite st_bind_get. unfold encrypt_exhausted.
  unfold SEQ_SOFT_LIMIT, SEQ_HARD_LIMIT in *. rewrite bool_decide_false by lia.
  destruct (pair_decrypts (enc := enc) (dec := dec) (event_type e) version (event_payload e) (write_seq (record_layer c)))
    as (om & v & Eenc & Hwf & Hccs & Edec); try done; [by destruct e|by destruct e|lia|].
  rewrite <- He in Eenc. unfold st_bind, rl_encrypt_outgoing, encrypt_outgoing, debug_assert.
  rewrite Ha, bool_decide_true, andb_false_r by done. unfold encrypt_exhausted, SEQ_HARD_LIMIT.
  rewrite bool_decide_false by lia. cbv zeta. cbn [message_encrypter with_write_seq]. rewrite Eenc. unfold queue_tls_message, st_set.
  exists om. eexists. split; [reflexivity|]. split; [|split].
  - split; try done; [cbn; unfold SEQ_SOFT_LIMIT; lia|]. by apply cvb_append_wf.
  - unfold queued, unsent, next_out. cbn [sendable_tls set_sendable_tls record_layer set_record_layer].
    rewrite cvb_append_contents, wire_of_cons, app_nil_r. done.
  - split; [|done]. cbn [fst snd]. split_and!; try done. by exists v.
Qed.

Lemma send_fragments_spec {E} enc dec f version es c :
  CipherPair enc dec → sender_ok enc c → (next_out c + Z.of_nat (length es) ≤ SEQ_SOFT_LIMIT)%Z →
  codec_wf version → version_ok version = true → Forall (λ e, length (event_payload e) ≤ MAX_FRAGMENT_LEN) es →
  ∃ fs c', st_each (send_single_fragment (E := E) debug (S f))
      ((λ e, mkBorrowedPlainMessage (event_type e) version (event_payload e)) <$> es) c = (Ok tt, c') ∧
    sender_ok enc c' ∧ queued fs c c' ∧ frames_ok dec (next_out c) fs ∧ events_of fs = es.
Proof.
  intros Hpair Hc Hseq Hv Hvo Hes. revert c Hc Hseq. induction Hes as [|e es He Hes IH]; intros c Hc Hseq.
  { exists [], c. split_and!; try done. apply queued_nil. }
  rewrite fmap_cons. cbn [st_each length] in *.
  destruct (send_fragment_spec (E := E) enc dec f e version c Hpair Hc) as (om & c1 & E1 & Hc1 & Hq1 & Hf1); try done; [lia|].
  pose proof Hq1 as (_ & Hn1 & _). cbn [length] in Hn1.
  destruct (IH c1 Hc1) as (fs & c2 & E2 & Hc2 & Hq2 & Hf2 & Hev); [lia|].
  exists ((om, e) :: fs), c2. rewrite (st_bind_ok _ _ _ _ _ E1). split_and!; try done.
  - by apply (queued_trans [(om, e)] fs c c1 c2).
  - apply (frames_ok_app dec _ [(om, e)] fs). split; [done|]. cbn [length]. by rewrite <- Hn1.
  - unfold events_of in *. rewrite fmap_cons. by f_equal.
Qed.

(** [close_notify] *)
Lemma send_close_notify_spec {E} enc dec f c :
  CipherPair enc dec → sender_ok enc c → (next_out c < SEQ_SOFT_LIMIT)%Z →
  ∃ fs c', send_close_notify (E := E) debug (S f) c = (Ok tt, c') ∧
    sender_ok enc c' ∧ queued fs c c' ∧ frames_ok dec (next_out c) fs ∧ events_of fs = [Ev_close].
Proof.
  intros Hpair Hc Hlt. pose proof Hc as [He Ha Hs Hm Hf Ht].
  unfold send_close_notify, send_warning_alert_no_log, send_warning_alert_with. rewrite st_bind_get.
  unfold is_encrypting. rewrite Ha, bool_decide_true by done. unfold send_msg_with, fragments_of, fragment_message.
  rewrite (st_bind_try _ _ _ [mkBorrowedPlainMessage ContentType.Alert ProtocolVersion.TLSv1_2 [x01; x00]]).
  - cbn [negb]. apply (send_fragments_spec enc dec f ProtocolVersion.TLSv1_2 [Ev_close] c); try done; [cbn; lia|].
    constructor; [|done]. unfold MAX_FRAGMENT_LEN. cbn. lia.
  - rewrite fragment_slice_eq by done. unfold fragmenter_wf in Hf. cbn. by rewrite take_ge, drop_ge by (cbn; lia).
Qed.

(** Writing application data. *)
Lemma send_some_plaintext_spec {E} enc dec f data c :
  CipherPair enc dec → sender_ok enc c → queued_key_update_message c = None →
  (next_out c + Z.of_nat (length data) ≤ SEQ_SOFT_LIMIT)%Z →
  ∃ n fs c', send_some_plaintext (E := E) debug (S f) data c = (Ok n, c') ∧ n ≤ length data ∧
    sender_ok enc c' ∧ queued fs c c' ∧ frames_ok dec (next_out c) fs ∧
    data_of (events_of fs) = take n data ∧ closed (events_of fs) = false ∧
    length fs ≤ n ∧ n = cvb_apply_limit (sendable_tls c) (length data).
Proof.
  intros Hpair Hc Hq Hseq. pose proof Hc as [He Ha Hs Hm Hf Ht].
  unfold send_some_plaintext, perhaps_write_key_update. rewrite st_bind_set, Hq.
  unfold send_plain. rewrite st_bind_get, Hm. cbn [negb]. unfold st_debug_assert.
  rewrite (st_bind_try _ _ _ tt).
  2: { unfold debug_assert, is_encrypting. by rewrite Ha, bool_decide_true, andb_false_r by done. }
  case_bool_decide as Hnil.
  { subst data. exists 0, [], c. split_and!; [done|cbn; lia|done|apply queued_nil|done|done|done|done|].
    symmetry. apply Nat.le_0_r. apply (cvb_apply_limit_le (sendable_tls c) 0). }
  unfold send_appdata_encrypt. rewrite st_bind_get. set (n := cvb_apply_limit (sendable_tls c) (length data)).
  pose proof (cvb_apply_limit_le (sendable_tls c) (length data)) as Hn. fold n in Hn.
  set (cs := chunks_fuel n (max_frag (message_fragmenter c)) (take n data)).
  assert (Hlen : length (take n data) = n) by (rewrite length_take; lia).
  assert (Hpos : 0 < max_frag (message_fragmenter c)) by (unfold fragmenter_wf in Hf; lia).
  rewrite (st_bind_try _ _ _ ((λ e, mkBorrowedPlainMessage (event_type e) ProtocolVersion.TLSv1_2 (event_payload e)) <$>
    (Ev_data <$> cs))).
  2: { rewrite slice_Ok by lia. cbn [res_bind]. rewrite drop_0, Nat.sub_0_r, fragment_slice_eq, Hlen by done.
    cbn [infallible]. f_equal. by rewrite <- list_fmap_compose. }
  pose proof (chunks_fuel_bounds _ Hpos n (take n data)) as Hb. fold cs in Hb.
  assert (Hcount : length cs ≤ n).
  { pose proof (chunks_fuel_join _ Hpos n (take n data) ltac:(lia)) as Hj. fold cs in Hj.
    apply (f_equal length) in Hj. rewrite Hlen in Hj. rewrite <- Hj. clear -Hb.
    induction Hb as [|x l Hx Hb IH]; [done|]. change (mjoin (x :: l)) with (x ++ mjoin l). rewrite length_app. cbn [length]. lia. }
  destruct (send_fragments_spec (E := E) enc dec f ProtocolVersion.TLSv1_2 (Ev_data <$> cs) c) as (fs & c' & E1 & Hc' & Hqd & Hfs & Hev); try done.
  - rewrite length_fmap. lia.
  - apply list.Forall_fmap. eapply Forall_impl; [exact Hb|]. cbn. unfold fragmenter_wf in Hf. lia.
  - exists n, fs, c'. rewrite (st_bind_ok _ _ _ _ _ E1). split_and!; try done.
    + rewrite Hev. unfold data_of. rewrite <- list_fmap_compose.
      replace ((λ e, match e with Ev_data bytes => bytes | Ev_close => [] end) ∘ Ev_data) with (@id (list byte)) by done.
      rewrite list_fmap_id. apply chunks_fuel_join; lia.
    + rewrite Hev. unfold closed. clear. induction cs as [|x l IH]; [done|exact IH].
    + apply (f_equal length) in Hev. unfold events_of in Hev. rewrite !length_fmap in Hev. exact (Nat.le_trans _ _ _ (Nat.eq_le_incl _ _ Hev) Hcount).
Qed.

End sending.
