(* ===== verification/TlsDuplex.v ===== *)
(** Two connections over a transport in which application data flows: what one
    side is handed, the other gives. *)
From Stdlib Require Import ZArith Lia Strings.Byte String.
From stdpp Require Import base list numbers option sets.
From S2P Require Import Prelude.
From S2P Require Import Codec.
From S2P Require Import TlsEnums.
From S2P Require Import TlsBase.
From S2P Require Import TlsExtensions.
From S2P Require Import TlsHandshake.
From S2P Require Import TlsError.
From S2P Require Import TlsMessage.
From S2P Require Import Fragmenter.
From S2P Require Import VecBuf.
From S2P Require Import RecordLayer.
From S2P Require Import Deframer.
From S2P Require Import TlsCiphers.
From S2P Require Import TlsSuites.
From S2P Require Import TlsSecrets.
From S2P Require Import StateMonad.
From S2P Require Import TlsCommon.
From S2P Require Import TlsConnection.
From S2P Require Import TlsTraffic.

From S2P Require Import TlsChannel.
Open Scope rust_scope.

(** * What an application is told *)

(** The data before the first end. *)
Fixpoint before_close (es : list event) : list byte :=
  match es with
  | [] => []
  | Ev_data bytes :: es => bytes ++ before_close es
  | Ev_close :: _ => []
  end.

Lemma before_close_app es es' :
  before_close (es ++ es') = if closed es then before_close es else before_close es ++ before_close es'.
Proof.
  induction es as [|[bytes|] es IH]; [done| |done]. cbn [app before_close]. rewrite IH.
  change (closed (Ev_data bytes :: es)) with (closed es). destruct (closed es); [done|by rewrite app_assoc].
Qed.

Lemma before_close_open es : closed es = false → before_close es = data_of es.
Proof.
  induction es as [|[bytes|] es IH]; [done| |done]. intros Hc. cbn [before_close]. rewrite IH by exact Hc. done.
Qed.

Lemma before_close_prefix es : before_close es `prefix_of` data_of es.
Proof.
  induction es as [|[bytes|] es IH]; [done| |apply prefix_nil].
  change (data_of (Ev_data bytes :: es)) with (bytes ++ data_of es). cbn [before_close]. by apply prefix_app.
Qed.

(** The events are cut at other places, but the data and the ends are the same. *)
Definition same_events (es es' : list event) : Prop :=
  data_of es = data_of es' ∧ before_close es = before_close es' ∧ closed es = closed es'.

#[export] Instance same_events_equiv : Equivalence same_events.
Proof.
  split.
  - done.
  - intros es es' (? & ? & ?). by split_and!.
  - intros es es' es'' (? & ? & ?) (? & ? & ?). split_and!; congruence.
Qed.

#[export] Instance same_events_app : Proper (same_events ==> same_events ==> same_events) (@app event).
Proof.
  intros es1 es1' (Hd & Hb & Hc) es2 es2' (Hd' & Hb' & Hc'). unfold same_events.
  by rewrite !data_of_app, !before_close_app, !closed_app, Hd, Hd', Hb, Hb', Hc, Hc'.
Qed.

Lemma same_events_data bytes es : data_of es = bytes → closed es = false → same_events [Ev_data bytes] es.
Proof.
  intros Hd Hc. unfold same_events. rewrite (before_close_open _ Hc), Hc, Hd. cbn. by rewrite app_nil_r.
Qed.

(** * The calls of an application *)

(** A connection, what the application handed to it (the data that was accepted,
    and ends) and the data that it gave. *)
Record endpoint `{WebPki} `{ForeignErrors} (St Data : Type) : Type := mkEndpoint {
  core : ConnectionCore (St := St) (Data := Data);
  handed : list event;
  given : list byte
}.
Arguments mkEndpoint {_ _ _ _} _ _ _.
Arguments core {_ _ _ _} _.
Arguments handed {_ _ _ _} _.
Arguments given {_ _ _ _} _.

Section calls.
Context `{WebPki} `{ForeignErrors} (debug : bool) (fuel : nat).

(** The bytes on their way, and whether the way was cut behind them. *)
Record transport : Type := mkTransport { t_bytes : list byte; t_cut : bool }.

Inductive call : Type :=
  | Call_write (bytes : list byte)
  | Call_close
  | Call_write_tls (room : nat)
  | Call_read_tls (avail : nat)
  | Call_process
  | Call_read (buf : list byte).

(** The transport takes at most [room] bytes; they are lost when it is cut. *)
Definition transport_accept (room : nat) (bufs : list (list byte)) : res unit nat :=
  Ok (room `min` length (mjoin bufs)).

Definition transport_put (t : transport) (bytes : list byte) : transport :=
  if t_cut t then t else mkTransport (t_bytes t ++ bytes) false.

(** It has at most [S avail] bytes ready.  There is nothing to read, yet, or there
    never will be. *)
Definition transport_ready (t : transport) (avail : nat) (room : nat) : option (list byte) :=
  match t_bytes t with
  | [] => if t_cut t then Some [] else None
  | bytes => Some (take (room `min` S avail) bytes)
  end.

Definition transport_drop (t : transport) (n : nat) : transport := mkTransport (drop n (t_bytes t)) (t_cut t).

(** What the application sees of a call; an error of these is not expected. *)
Definition completed {S E A B} (x : res E A * S) (f : A → S → B) : res unit B :=
  match x with
  | (Ok a, s) => Ok (f a s)
  | (Err _, _) => Err tt
  | (Panic, _) => Panic
  | (NoFuel, _) => NoFuel
  end.

(** The transports are the one the endpoint writes to and the one it reads from. *)
Definition endpoint_call {St Data} `{!ConnectionState St Data} (c : call) (x : endpoint St Data) (out inp : transport)
    : res unit (endpoint St Data * transport * transport) :=
  match c with
  | Call_write bytes =>
      completed (writer_write (E := unit) debug fuel bytes (core x)) (λ n k,
        (mkEndpoint k (handed x ++ [Ev_data (take n bytes)]) (given x), out, inp))
  | Call_close =>
      completed (with_common (send_close_notify (E := unit) debug fuel) (core x)) (λ _ k,
        (mkEndpoint k (handed x ++ [Ev_close]) (given x), out, inp))
  | Call_write_tls room =>
      let bytes := offered (sendable_tls (common_state (core x))) in
      completed (write_tls (transport_accept room) (core x)) (λ n k,
        (mkEndpoint k (handed x) (given x), transport_put out (take n bytes), inp))
  | Call_read_tls avail =>
      match read_tls (transport_ready inp avail) (core x) with
      | (Ok n, k) => Ok (mkEndpoint k (handed x) (given x), out, transport_drop inp n)
      | (Err _, k) => Ok (mkEndpoint k (handed x) (given x), out, inp)
      | (Panic, _) => Panic
      | (NoFuel, _) => NoFuel
      end
  | Call_process =>
      completed (process_new_packets debug (S (used (message_deframer (core x)))) fuel (core x)) (λ _ k,
        (mkEndpoint k (handed x) (given x), out, inp))
  | Call_read buf =>
      match read_plaintext buf (core x) with
      | (Ok (n, buf), k) => Ok (mkEndpoint k (handed x) (given x ++ take n buf), out, inp)
      | (Err _, k) => Ok (mkEndpoint k (handed x) (given x), out, inp)
      | (Panic, _) => Panic
      | (NoFuel, _) => NoFuel
      end
  end.

(** The sequence numbers that a call may take. *)
Definition call_cost (c : call) : nat :=
  match c with Call_write bytes => length bytes | Call_close => 1 | _ => 0 end.

(** * One direction *)

(** What the sender [x], the transport [t] and the receiver [y] have to do with
    each other: the records [fl] are still to be received, [rest] of them is yet to
    be put on the transport, or lost. *)
Record link {St1 Data1 St2 Data2} (enc : MessageEncrypter) (dec : MessageDecrypter)
    (x : endpoint St1 Data1) (t : transport) (y : endpoint St2 Data2) (past : list event) (fl : list frame) (rest : list byte)
    : Prop := {
  lk_sender : sender_ok enc (common_state (core x));
  lk_quiet : queued_key_update_message (common_state (core x)) = None;
  lk_receiver : receiver_ok dec (core y);
  lk_events : same_events (handed x) (past ++ events_of fl);
  lk_bytes : raw (core y) ++ t_bytes t ++ rest = wire_of fl;
  lk_rest : t_cut t = false → rest = unsent (common_state (core x));
  lk_frames : frames_ok dec (next_in (core y)) fl;
  lk_next : next_out (common_state (core x)) = (next_in (core y) + Z.of_nat (length fl))%Z;
  lk_given : given y ++ got (core y) = data_of past;
  lk_closed : peer_closed (core y) = closed past;
  lk_eof : has_seen_eof (common_state (core y)) = true → t_cut t = true
}.

(** Both halves of an endpoint, as the other direction sees them. *)
Definition sends_alike {St Data} (x x' : endpoint St Data) : Prop :=
  send_view (common_state (core x')) = send_view (common_state (core x)) ∧ handed x' = handed x.

Definition receives_alike {St Data} (y y' : endpoint St Data) : Prop :=
  receive_view (common_state (core y')) = receive_view (common_state (core y)) ∧
  message_deframer (core y') = message_deframer (core y) ∧ given y' = given y.

Lemma link_sends_alike {St1 Data1 St2 Data2} enc dec (x x' : endpoint St1 Data1) t (y : endpoint St2 Data2) past fl rest :
  sends_alike x x' → link enc dec x t y past fl rest → link enc dec x' t y past fl rest.
Proof.
  intros [Hv Hh] [[] ? ? ? ? Hr ? Hn ? ? ?]. unfold send_view in Hv. injection Hv as E1 E2 E3 E4 E5 E6 E7.
  unfold unsent, next_out in *. split; rewrite ?Hh; unfold unsent, next_out; rewrite ?E3, ?E6; try done; [split; congruence|congruence].
Qed.

Lemma link_receives_alike {St1 Data1 St2 Data2} enc dec (x : endpoint St1 Data1) t (y y' : endpoint St2 Data2) past fl rest :
  receives_alike y y' → link enc dec x t y past fl rest → link enc dec x t y' past fl rest.
Proof.
  intros (Hv & Hd & Hg) [? ? [] ? Hraw ? Hfr Hn Hgot Hc He]. unfold receive_view in Hv. injection Hv as E1 E2 E3 E4 E5 E6.
  unfold raw, next_in, got, peer_closed in *.
  split; unfold raw, next_in, got, peer_closed; rewrite ?Hd, ?Hg, ?E3, ?E4, ?E5, ?E6; try done.
  split; congruence.
Qed.

(** ** The calls of the sender *)

Section sender.
Context {St1 Data1 St2 Data2 : Type} (enc : MessageEncrypter) (dec : MessageDecrypter) `{Hpair : !CipherPair enc dec}.
Context (y : endpoint St2 Data2) (t : transport).

Lemma link_queued (x x' : endpoint St1 Data1) past fl rest fs e :
  link enc dec x t y past fl rest → sender_ok enc (common_state (core x')) →
  queued fs (common_state (core x)) (common_state (core x')) →
  frames_ok dec (next_out (common_state (core x))) fs → same_events [e] (events_of fs) → handed x' = handed x ++ [e] →
  link enc dec x' t y past (fl ++ fs) (rest ++ wire_of fs).
Proof.
  intros [] Hx' (Hu & Hn & _ & Hq) Hfs He Hh. split; try done.
  - by rewrite Hq.
  - rewrite Hh, lk_events0, He. unfold events_of. by rewrite fmap_app, app_assoc.
  - by rewrite wire_of_app, <- lk_bytes0, <- !app_assoc.
  - intros Hc. by rewrite Hu, (lk_rest0 Hc).
  - apply frames_ok_app. by rewrite <- lk_next0.
  - rewrite Hn, lk_next0, length_app. lia.
Qed.

(** Writing and closing change the sending half alone. *)
Lemma write_spec (x : endpoint St1 Data1) bytes past fl rest :
  link enc dec x t y past fl rest → (next_out (common_state (core x)) + Z.of_nat (length bytes) ≤ SEQ_SOFT_LIMIT)%Z →
  ∃ n k fs, writer_write (E := unit) debug (S fuel) bytes (core x) = (Ok n, k) ∧ n ≤ length bytes ∧
    n = cvb_apply_limit (sendable_tls (common_state (core x))) (length bytes) ∧
    let x' := mkEndpoint k (handed x ++ [Ev_data (take n bytes)]) (given x) in
    receives_alike x x' ∧ state k = state (core x) ∧
    (next_out (common_state k) ≤ next_out (common_state (core x)) + Z.of_nat (length bytes))%Z ∧
    link enc dec x' t y past (fl ++ fs) (rest ++ wire_of fs).
Proof.
  intros Hl Hb. unfold writer_write, with_common.
  destruct (send_some_plaintext_spec (E := unit) debug enc dec fuel bytes (common_state (core x)) Hpair)
    as (n & fs & c & E & Hn & Hc & Hq & Hfs & Hd & Ho & Hlen & Hlim); [by destruct Hl|by destruct Hl|done|].
  rewrite E. exists n, (set_common c (core x)), fs. split_and!; try done.
  - split_and!; try done. apply Hq.
  - cbn [set_common common_state]. destruct Hq as (_ & -> & _). lia.
  - eapply link_queued; try done. by apply same_events_data.
Qed.

Lemma close_spec (x : endpoint St1 Data1) past fl rest :
  link enc dec x t y past fl rest → (next_out (common_state (core x)) < SEQ_SOFT_LIMIT)%Z →
  ∃ k fs, with_common (send_close_notify (E := unit) debug (S fuel)) (core x) = (Ok tt, k) ∧
    let x' := mkEndpoint k (handed x ++ [Ev_close]) (given x) in
    receives_alike x x' ∧ state k = state (core x) ∧
    (next_out (common_state k) ≤ next_out (common_state (core x)) + 1)%Z ∧
    link enc dec x' t y past (fl ++ fs) (rest ++ wire_of fs).
Proof.
  intros Hl Hb. unfold with_common.
  destruct (send_close_notify_spec (E := unit) debug enc dec fuel (common_state (core x)) Hpair)
    as (fs & c & E & Hc & Hq & Hfs & Hev); [by destruct Hl|done|].
  rewrite E. exists (set_common c (core x)), fs. split_and!; try done.
  - split_and!; try done. apply Hq.
  - cbn [set_common common_state]. destruct Hq as (_ & -> & _). apply (f_equal length) in Hev.
    unfold events_of in Hev. rewrite length_fmap in Hev. change (length fs = 1) in Hev. lia.
  - eapply link_queued; try done. by rewrite Hev.
Qed.

(** What the transport takes is what is not sent any more. *)
Lemma write_tls_spec (x : endpoint St1 Data1) room past fl rest :
  link enc dec x t y past fl rest →
  ∃ n k, write_tls (transport_accept room) (core x) = (Ok n, k) ∧
    let x' := mkEndpoint k (handed x) (given x) in
    let t' := transport_put t (take n (offered (sendable_tls (common_state (core x))))) in
    receives_alike x x' ∧ state k = state (core x) ∧ next_out (common_state k) = next_out (common_state (core x)) ∧
    t_cut t' = t_cut t ∧ n = room `min` length (offered (sendable_tls (common_state (core x)))) ∧
    unsent (common_state k) = drop n (unsent (common_state (core x))) ∧
    ∃ rest', link enc dec x' t' y past fl rest'.
Proof.
  intros Hl. pose proof Hl as []. pose proof lk_sender0 as []. unfold write_tls.
  set (b := sendable_tls (common_state (core x))) in *.
  set (n := room `min` length (offered b)).
  assert (Hw : cvb_write_to b (transport_accept room) = (Ok n, cvb_consume b n)).
  { unfold cvb_write_to, transport_accept. fold (offered b). fold n. destruct (cvb_is_empty b) eqn:Ee; [|done].
    unfold cvb_is_empty in Ee. apply bool_decide_eq_true in Ee.
    assert (n = 0) as -> by (unfold n, offered; rewrite Ee; cbn; lia).
    unfold cvb_consume. destruct b. cbn in *. by subst. }
  assert (Hoff : take n (offered b) = take n (unsent (common_state (core x)))).
  { destruct (offered_prefix b) as [l Hp]. unfold unsent. fold b. rewrite Hp, take_app_le by (unfold n; lia). done. }
  rewrite Hw. eexists n, _. split; [reflexivity|].
  cbn [set_common common_state set_sendable_tls state message_deframer core].
  split; [done|]. split; [done|]. split; [done|]. split; [by unfold transport_put; destruct (t_cut t) eqn:Ec|].
  split; [done|]. split; [by unfold unsent; rewrite <- cvb_consume_contents|].
  exists (if t_cut t then rest else drop n rest). rewrite Hoff.
  unfold transport_put. destruct (t_cut t) eqn:Ec.
  - split; try done; [by split; try done; apply cvb_consume_wf|]. by rewrite Ec.
  - specialize (lk_rest0 eq_refl). split; cbn [t_bytes t_cut]; try done; [by split; try done; apply cvb_consume_wf| |].
    + by rewrite <- lk_rest0, <- app_assoc, take_drop.
    + intros _. unfold unsent. cbn [core set_common common_state set_sendable_tls sendable_tls].
      rewrite cvb_consume_contents. by rewrite lk_rest0.
Qed.
End sender.

(** ** The calls of the receiver *)

Section receiver.
Context {St1 Data1 St2 Data2 : Type} `{!ConnectionState St2 Data2} (enc : MessageEncrypter) (dec : MessageDecrypter).
Context (x : endpoint St1 Data1) (t : transport).

(** The bytes go from the transport to the deframer. *)
Lemma read_tls_spec (y : endpoint St2 Data2) avail past fl rest :
  link enc dec x t y past fl rest →
  match read_tls (transport_ready t avail) (core y) with
  | (Ok n, k) =>
      let y' := mkEndpoint k (handed y) (given y) in
      sends_alike y y' ∧ state k = state (core y) ∧ got k = got (core y) ∧ (t_bytes t ≠ [] → 0 < n ≤ length (t_bytes t)) ∧
      link enc dec x (transport_drop t n) y' past fl rest ∧
      (t_bytes t = [] → has_seen_eof (common_state k) = true)
  | (Err _, k) =>
      let y' := mkEndpoint k (handed y) (given y) in
      sends_alike y y' ∧ state k = state (core y) ∧ got k = got (core y) ∧ link enc dec x t y' past fl rest ∧
      (cvb_is_full (received_plaintext (common_state (core y))) = true ∨ MAX_WIRE_SIZE ≤ length (raw (core y)) ∨
       t_bytes t = [] ∧ t_cut t = false)
  | _ => False
  end.
Proof.
  intros []. pose proof lk_receiver0 as []. unfold read_tls.
  destruct (cvb_is_full _) eqn:Hfull.
  { split; [done|]. split; [done|]. split; [done|]. split; [by split|by left]. }
  assert (Hready : ∀ room new, transport_ready t avail room = Some new → length new ≤ room ∧ new `prefix_of` t_bytes t ∧
    (0 < room → new ≠ [] ∨ t_bytes t = [] ∧ t_cut t = true)).
  { intros room new. unfold transport_ready. destruct (t_bytes t) as [|b bs].
    - destruct (t_cut t); [|done]. intros [= <-]. split; [cbn; lia|]. split; [apply prefix_nil|]. by right.
    - intros [= <-]. rewrite length_take. split; [lia|]. split; [apply prefix_take|]. intros Hr. left.
      destruct room; [exfalso; clear -Hr; lia|]. by cbn. }
  pose proof (deframer_read_spec (message_deframer (core y)) (transport_ready t avail) rc_deframer) as Hs.
  unfold d_hs, allow_max in Hs. rewrite rc_idle in Hs. specialize (Hs eq_refl (λ room new E, proj1 (Hready room new E))).
  pose proof (d_raw_length _ rc_deframer) as Hlen. unfold d_start in Hlen. rewrite rc_idle, Nat.sub_0_r in Hlen.
  destruct (deframer_read _ _) as [[n|e| |] d']; try done.
  - destruct Hs as (room & new & Hroom & E & -> & Hd' & Hj' & Hraw & _ & He').
    destruct (Hready _ _ E) as (_ & [tl Htl] & Hne). specialize (Hne Hroom).
    assert (Hj : joining_hs d' = None) by by destruct (joining_hs d').
    set (k := if bool_decide (length new = 0) then _ else _).
    assert (Hend : t_bytes t = [] → has_seen_eof (common_state k) = true).
    { intros Hb. rewrite Hb in Htl. apply eq_sym, app_eq_nil in Htl as [-> _]. done. }
    assert (Hk : message_deframer k = d' ∧ state k = state (core y) ∧ send_view (common_state k) = send_view (common_state (core y)) ∧
      got k = got (core y) ∧ peer_closed k = peer_closed (core y) ∧ record_layer (common_state k) = record_layer (common_state (core y)) ∧
      received_plaintext (common_state k) = received_plaintext (common_state (core y)) ∧
      (has_seen_eof (common_state k) = true → t_cut t = true)).
    { unfold k. case_bool_decide as Hz; cbn; split_and!; try done. intros _.
      apply length_zero_iff_nil in Hz. by destruct Hne as [?|[_ ?]]. }
    clearbody k. destruct Hk as (Hkd & Hks & Hkv & Hkg & Hkc & Hkr & Hkp & Hke).
    split; [done|]. split; [done|]. split; [done|]. split.
    { intros Hb. rewrite Htl, length_app. destruct Hne as [Hn|[? _]]; [|done]. destruct new; [done|cbn; lia]. }
    split; [|done]. unfold transport_drop. split; cbn [core given t_bytes t_cut]; rewrite ?Hkg, ?Hkc; unfold next_in, raw; rewrite ?Hkr, ?Hkd; try done.
    + split; cbn [core]; rewrite ?Hkd, ?Hkr, ?Hkp; try done. by rewrite He'.
    + rewrite Hraw, Htl, drop_app_length, <- app_assoc. unfold raw in lk_bytes0. by rewrite <- lk_bytes0, Htl, <- app_assoc.
  - destruct Hs as (Hd' & Hj' & Hraw & He' & Hwhy).
    assert (Hj : joining_hs d' = None) by by destruct (joining_hs d').
    split; [done|]. split; [done|]. split; [done|]. split.
    + split; try done.
      * split; try done. cbn. by rewrite He'.
      * cbn [core]. unfold raw. cbn [set_deframer message_deframer]. by rewrite Hraw.
    + right. destruct Hwhy as [Hw|(room & Hr & E)]; [left; unfold raw; lia|right].
      unfold transport_ready in E. destruct (t_bytes t); [|done]. by destruct (t_cut t).
Qed.

(** Whole records are processed. *)
Lemma process_new_packets_spec (y : endpoint St2 Data2) st past fl rest :
  link enc dec x t y past fl rest → state (core y) = inr st → takes_data (Data := Data2) st →
  ∃ k io past' fl', process_new_packets debug (S (used (message_deframer (core y)))) fuel (core y) = (Ok io, k) ∧
    let y' := mkEndpoint k (handed y) (given y) in
    sends_alike y y' ∧ state k = inr st ∧ (∃ bytes, got k = got (core y) ++ bytes) ∧
    link enc dec x t y' past' fl' rest ∧ drained fl' k.
Proof.
  intros Hl Hst Htd. pose proof Hl as []. pose proof lk_receiver0 as [].
  pose proof (d_raw_length _ rc_deframer) as Hlen.
  destruct (process_spec debug dec fuel st (S (used (message_deframer (core y)))) (core y) fl (t_bytes t ++ rest))
    as (taken & left & k & io & E & Hfl & Hk & Hks & Hraw & (Hn & Hg & Hc & [= Hv1 Hv2 Hv3 Hv4 Hv5 Hv6 Hv7 He]) & Hdr); try done.
  { rewrite <- lk_next0. destruct lk_sender0. unfold next_out. lia. }
  { unfold raw. lia. }
  exists k, io, (past ++ events_of taken), left. split; [done|].
  split; [split; [unfold send_view; cbn [core]; congruence|done]|]. split; [done|]. split; [by eexists|]. split; [|done]. subst fl.
  rewrite length_app in lk_next0. unfold events_of in *. rewrite length_fmap in Hn.
  assert (Hn' : next_in k = (next_in (core y) + Z.of_nat (length taken))%Z) by exact Hn.
  split; cbn [core handed given]; try done.
  - rewrite lk_events0, fmap_app, app_assoc. done.
  - apply frames_ok_app in lk_frames0 as [_ Hfr]. by rewrite Hn.
  - rewrite lk_next0, Hn'. lia.
  - by rewrite Hg, app_assoc, lk_given0, data_of_app.
  - by rewrite Hc, lk_closed0, closed_app.
  - by rewrite He.
Qed.

(** Data is given in order; what an end of the stream tells. *)
Lemma read_plaintext_spec (y : endpoint St2 Data2) buf past fl rest :
  link enc dec x t y past fl rest →
  match read_plaintext buf (core y) with
  | (Ok (n, buf'), k) =>
      let y' := mkEndpoint k (handed y) (given y ++ take n buf') in
      sends_alike y y' ∧ state k = state (core y) ∧ n = length (got (core y)) `min` length buf ∧
      take n buf' = take n (got (core y)) ∧
      link enc dec x t y' past fl rest ∧
      (n = 0 → buf ≠ [] → peer_closed (core y) = true ∧ raw (core y) = [])
  | (Err e, k) =>
      let y' := mkEndpoint k (handed y) (given y) in
      sends_alike y y' ∧ state k = state (core y) ∧ got (core y) = [] ∧ got k = [] ∧ link enc dec x t y' past fl rest ∧
      (peer_closed (core y) = false ∨ raw (core y) ≠ []) ∧
      (e = UnexpectedEof → t_cut t = true) ∧ (e = WouldBlock → has_seen_eof (common_state (core y)) = false)
  | _ => False
  end.
Proof.
  intros Hl. pose proof Hl as []. pose proof lk_receiver0 as [].
  pose proof (d_raw_length _ rc_deframer) as Hlen. unfold d_start in Hlen. rewrite rc_idle, Nat.sub_0_r in Hlen.
  destruct (cvb_read_spec (received_plaintext (common_state (core y))) buf rc_plaintext) as (b & E & Hb & Hwf & _).
  fold (got (core y)) in E, Hb. unfold read_plaintext, reader_read, reader. cbn [pr_received_plaintext]. rewrite E.
  set (n := length (got (core y)) `min` length buf) in *. set (k := set_common (set_received_plaintext b (common_state (core y))) (core y)).
  assert (Hlink : link enc dec x t (mkEndpoint k (handed y) (given y ++ take n (got (core y)))) past fl rest).
  { split; try done; cbn [core given]. change (got k) with (contents b).
    by rewrite Hb, <- app_assoc, take_drop. }
  assert (Htake : take n (take n (got (core y)) ++ drop n buf) = take n (got (core y))).
  { apply take_app_length'. rewrite length_take. lia. }
  assert (Hpend : has_pending (message_deframer (core y)) = negb (bool_decide (raw (core y) = []))).
  { unfold has_pending. apply eq_true_iff_eq. rewrite negb_true_iff, bool_decide_eq_true, bool_decide_eq_false.
    unfold raw. rewrite <- Hlen. destruct (d_raw _); cbn; split; intros ?; done || lia. }
  destruct (decide (n = 0)) as [Hz|Hz]; [rewrite (bool_decide_true _ Hz)|rewrite (bool_decide_false _ Hz)]; cbn [andb];
    [destruct (decide (buf = [])) as [Hbuf|Hbuf];
     [rewrite (bool_decide_true _ Hbuf)|rewrite (bool_decide_false _ Hbuf)]; cbn [negb]|].
  - cbn [pr_received_plaintext]. fold k. rewrite Htake. by split_and!.
  - cbn [peer_cleanly_closed pr_has_seen_eof]. fold (peer_closed (core y)). rewrite Hpend, negb_involutive.
    assert (Hg : got (core y) = []).
    { apply length_zero_iff_nil. destruct buf; [done|]. cbn in n. unfold n in Hz. lia. }
    assert (Hk : got k = []) by (change (got k) with (contents b); by rewrite Hb, Hg, drop_nil).
    rewrite Hg, take_nil, app_nil_r in Hlink.
    destruct (peer_closed (core y) && bool_decide (raw (core y) = [])) eqn:Ecl.
    + apply andb_true_iff in Ecl as [Hc Hr%bool_decide_eq_true]. cbn [pr_received_plaintext]. fold k. rewrite Htake.
      rewrite Hg, take_nil, app_nil_r. by split_and!.
    + assert (Hopen : peer_closed (core y) = false ∨ raw (core y) ≠ []).
      { apply andb_false_iff in Ecl as [?|?%bool_decide_eq_false]; auto. }
      destruct (has_seen_eof _) eqn:Heof; cbn [pr_received_plaintext]; fold k; split_and!; try done.
      intros _. by apply lk_eof0.
  - cbn [pr_received_plaintext]. fold k. rewrite Htake. split_and!; try done.
Qed.
End receiver.

End calls.

(** * Two endpoints *)

Definition running `{WebPki} `{ForeignErrors} {St Data} `{!ConnectionState St Data} (x : endpoint St Data) : Prop :=
  ∃ st, state (core x) = inr st ∧ takes_data (Data := Data) st.

Definition linked `{WebPki} `{ForeignErrors} {St1 Data1 St2 Data2} (enc : MessageEncrypter) (dec : MessageDecrypter)
    (x : endpoint St1 Data1) (t : transport) (y : endpoint St2 Data2) : Prop :=
  ∃ past fl rest, link enc dec x t y past fl rest.

Definition sequence `{WebPki} `{ForeignErrors} {St Data} (x : endpoint St Data) : Z := next_out (common_state (core x)).

Record world `{WebPki} `{ForeignErrors} (St1 Data1 St2 Data2 : Type) : Type := mkWorld {
  client : endpoint St1 Data1;
  server : endpoint St2 Data2;
  up : transport;
  down : transport
}.
Arguments mkWorld {_ _ _ _ _ _} _ _ _ _.
Arguments client {_ _ _ _ _ _} _.
Arguments server {_ _ _ _ _ _} _.
Arguments up {_ _ _ _ _ _} _.
Arguments down {_ _ _ _ _ _} _.

(** The applications call their connections; someone cuts a way behind the first
    [n] bytes on it. *)
Inductive action : Type :=
  | At_client (c : call)
  | At_server (c : call)
  | Cut_up (n : nat)
  | Cut_down (n : nat).

Definition transport_cut (t : transport) (n : nat) : transport := mkTransport (take n (t_bytes t)) true.

Definition cost_up (a : action) : nat := match a with At_client c => call_cost c | _ => 0 end.
Definition cost_down (a : action) : nat := match a with At_server c => call_cost c | _ => 0 end.

Section duplex.
Context `{WebPki} `{ForeignErrors} (debug : bool) (fuel : nat).
Context {St1 Data1 St2 Data2 : Type} `{!ConnectionState St1 Data1} `{!ConnectionState St2 Data2}.
#[local] Abbreviation world := (world St1 Data1 St2 Data2).

Definition act (w : world) (a : action) : res unit world :=
  match a with
  | At_client c =>
      let? r := endpoint_call debug fuel c (client w) (up w) (down w) in
      let '(x, up, down) := r in Ok (mkWorld x (server w) up down)
  | At_server c =>
      let? r := endpoint_call debug fuel c (server w) (down w) (up w) in
      let '(y, down, up) := r in Ok (mkWorld (client w) y up down)
  | Cut_up n => Ok (mkWorld (client w) (server w) (transport_cut (up w) n) (down w))
  | Cut_down n => Ok (mkWorld (client w) (server w) (up w) (transport_cut (down w) n))
  end.

Fixpoint run (actions : list action) (w : world) : res unit world :=
  match actions with
  | [] => Ok w
  | a :: actions => let? w := act w a in run actions w
  end.
End duplex.

Section invariant.
Context `{WebPki} `{ForeignErrors} (debug : bool) (fuel : nat).

Lemma link_cut {St1 Data1 St2 Data2} enc dec (x : endpoint St1 Data1) t (y : endpoint St2 Data2) n :
  linked enc dec x t y → linked enc dec x (transport_cut t n) y.
Proof.
  intros (past & fl & rest & []). exists past, fl, (drop n (t_bytes t) ++ rest). split; try done.
  cbn [transport_cut t_bytes]. by rewrite <- lk_bytes0, (app_assoc (take n _)), take_drop.
Qed.

(** Every call keeps both directions linked. *)
Lemma endpoint_call_spec {St1 Data1 St2 Data2} `{!ConnectionState St1 Data1} enc1 dec1 enc2 dec2 c
    (x : endpoint St1 Data1) (z : endpoint St2 Data2) out inp :
  CipherPair enc1 dec1 → linked enc1 dec1 x out z → linked enc2 dec2 z inp x → running x →
  (sequence x + Z.of_nat (call_cost c) ≤ SEQ_SOFT_LIMIT)%Z →
  ∃ x' out' inp', endpoint_call debug (S fuel) c x out inp = Ok (x', out', inp') ∧
    linked enc1 dec1 x' out' z ∧ linked enc2 dec2 z inp' x' ∧ running x' ∧
    (sequence x' ≤ sequence x + Z.of_nat (call_cost c))%Z ∧ t_cut out' = t_cut out ∧ t_cut inp' = t_cut inp.
Proof.
  intros Hpair (past1 & fl1 & rest1 & Hout) (past2 & fl2 & rest2 & Hin) (st & Hst & Htd) Hcost.
  destruct c as [bytes| |room|avail| |buf]; cbn [endpoint_call call_cost] in *.
  - destruct (write_spec debug fuel enc1 dec1 z out x bytes past1 fl1 rest1 Hout Hcost)
      as (n & k & fs & E & _ & _ & Hr & Hk & Hs & Hl).
    rewrite E. eexists _, _, _. split; [reflexivity|]. split_and!; try done; [by eexists _, _, _| |by exists st; rewrite <- Hst].
    eexists _, _, _. by eapply link_receives_alike.
  - destruct (close_spec debug fuel enc1 dec1 z out x past1 fl1 rest1 Hout) as (k & fs & E & Hr & Hk & Hs & Hl).
    { unfold sequence in Hcost. lia. }
    rewrite E. eexists _, _, _. split; [reflexivity|]. split_and!; try done; [by eexists _, _, _| |by exists st; rewrite <- Hst].
    eexists _, _, _. by eapply link_receives_alike.
  - destruct (write_tls_spec enc1 dec1 z out x room past1 fl1 rest1 Hout) as (n & k & E & Hr & Hk & Hs & Hc & _ & _ & rest' & Hl).
    rewrite E. eexists _, _, _. split; [reflexivity|]. split_and!; try done; [by eexists _, _, _| |by exists st; rewrite <- Hst|].
    + eexists _, _, _. by eapply link_receives_alike.
    + unfold sequence. cbn [core]. lia.
  - pose proof (read_tls_spec enc2 dec2 z inp x avail past2 fl2 rest2 Hin) as Hr.
    destruct (read_tls _ _) as [[n|e| |] k]; try done;
      [destruct Hr as (Hv & Hk & _ & _ & Hl & _)|destruct Hr as (Hv & Hk & _ & Hl & _)];
      (eexists _, _, _; split; [reflexivity|]; split_and!; try done;
       [eexists _, _, _; by eapply link_sends_alike|by eexists _, _, _|by exists st; rewrite <- Hst|]);
      unfold sequence, next_out; destruct Hv as [[= _ _ Hw _ _ _ _] _]; cbn [core] in *; rewrite Hw; lia.
  - destruct (process_new_packets_spec debug (S fuel) enc2 dec2 z inp x st past2 fl2 rest2 Hin Hst Htd)
      as (k & io & past' & fl' & E & Hv & Hk & _ & Hl & _).
    rewrite E. eexists _, _, _. split; [reflexivity|]. split_and!; try done;
      [eexists _, _, _; by eapply link_sends_alike|by eexists _, _, _|by exists st|].
    unfold sequence, next_out. destruct Hv as [[= _ _ Hw _ _ _ _] _]. cbn [core] in *. rewrite Hw. lia.
  - pose proof (read_plaintext_spec enc2 dec2 z inp x buf past2 fl2 rest2 Hin) as Hr.
    destruct (read_plaintext _ _) as [[[n buf']|e| |] k]; try done;
      [destruct Hr as (Hv & Hk & _ & _ & Hl & _)|destruct Hr as (Hv & Hk & _ & _ & Hl & _)];
      (eexists _, _, _; split; [reflexivity|]; split_and!; try done;
       [eexists _, _, _; by eapply link_sends_alike|by eexists _, _, _|by exists st; rewrite <- Hst|]);
      unfold sequence, next_out; destruct Hv as [[= _ _ Hw _ _ _ _] _]; cbn [core] in *; rewrite Hw; lia.
Qed.

End invariant.

(** * Safety *)

(** What the application of [y] can rely on: it is given the data handed to [x],
    in order; it is told of the end of the stream when it has everything before an
    end that was handed to [x], of a cut only when there was one, and to wait only
    while the connection has not seen the end of the transport. *)
Definition delivers `{WebPki} `{ForeignErrors} {St1 Data1 St2 Data2} (x : endpoint St1 Data1) (t : transport)
    (y : endpoint St2 Data2) : Prop :=
  given y `prefix_of` data_of (handed x) ∧
  (∀ buf, match (read_plaintext buf (core y)).1 with
    | Ok (n, buf') => (given y ++ take n buf') `prefix_of` data_of (handed x) ∧
        (n = 0 → buf ≠ [] → closed (handed x) = true ∧ before_close (handed x) `prefix_of` given y)
    | Err WouldBlock => has_seen_eof (common_state (core y)) = false
    | Err UnexpectedEof => t_cut t = true
    | _ => False
    end) ∧
  (t_cut t = false → unsent (common_state (core x)) = [] → t_bytes t = [] → raw (core y) = [] → got (core y) = [] →
   given y = data_of (handed x)).

(** A way that was cut is reported: when no more bytes are on it, the application that
    lets [process_new_packets] handle what has arrived and has taken the data finds,
    after [read_tls], an unexpected end -- or the end of the stream, if the end that
    was handed to [x] had come through with everything before it. *)
Definition reports_cut `{WebPki} `{ForeignErrors} (debug : bool) (fuel : nat) {St1 Data1 St2 Data2} `{!ConnectionState St2 Data2}
    (x : endpoint St1 Data1) (t : transport) (y : endpoint St2 Data2) : Prop :=
  t_cut t = true → t_bytes t = [] → ∀ back,
  ∃ y1, endpoint_call debug (S fuel) Call_process y back t = Ok (y1, back, t) ∧ given y1 = given y ∧
    (got (core y1) = [] → ∀ avail,
     ∃ y2, endpoint_call debug (S fuel) (Call_read_tls avail) y1 back t = Ok (y2, back, t) ∧ given y2 = given y ∧
       ∀ buf, buf ≠ [] →
         (read_plaintext buf (core y2)).1 = Err UnexpectedEof ∨
         (read_plaintext buf (core y2)).1 = Ok (0, buf) ∧ closed (handed x) = true ∧ before_close (handed x) `prefix_of` given y2).

(** The first record can be written: nothing was handed over, nothing is on its
    way, and both sides count from the same number. *)
Record established `{WebPki} `{ForeignErrors} {St1 Data1 St2 Data2} (enc : MessageEncrypter) (dec : MessageDecrypter)
    (x : endpoint St1 Data1) (t : transport) (y : endpoint St2 Data2) : Prop := {
  es_sender : sender_ok enc (common_state (core x));
  es_receiver : receiver_ok dec (core y);
  es_numbers : next_out (common_state (core x)) = next_in (core y);
  es_sent : unsent (common_state (core x)) = [] ∧ queued_key_update_message (common_state (core x)) = None ∧ handed x = [];
  es_way : t_bytes t = [] ∧ t_cut t = false;
  es_read : raw (core y) = [] ∧ got (core y) = [] ∧ given y = [];
  es_flags : peer_closed (core y) = false ∧ has_seen_eof (common_state (core y)) = false
}.

Section safety.
Context `{WebPki} `{ForeignErrors} (debug : bool) (fuel : nat).
Context {St1 Data1 St2 Data2 : Type} `{!ConnectionState St1 Data1} `{!ConnectionState St2 Data2}.
Context (enc1 enc2 : MessageEncrypter) (dec1 dec2 : MessageDecrypter).
#[local] Abbreviation world := (world St1 Data1 St2 Data2).

Record world_ok (w : world) : Prop := {
  wo_up : linked enc1 dec1 (client w) (up w) (server w);
  wo_down : linked enc2 dec2 (server w) (down w) (client w);
  wo_client : running (client w);
  wo_server : running (server w)
}.

(** The sequence numbers suffice. *)
Definition within (actions : list action) (w : world) : Prop :=
  (sequence (client w) + Z.of_nat (sum_list (cost_up <$> actions)) ≤ SEQ_SOFT_LIMIT)%Z ∧
  (sequence (server w) + Z.of_nat (sum_list (cost_down <$> actions)) ≤ SEQ_SOFT_LIMIT)%Z.

Lemma established_linked {StA DataA StB DataB} enc dec (x : endpoint StA DataA) t (y : endpoint StB DataB) :
  established enc dec x t y → linked enc dec x t y.
Proof.
  intros [? ? Hn (Hu & Hq & Hh) [Ht Hc] (Hr & Hg & Hgv) [Hp He]]. exists [], [], [].
  split; try done; rewrite ?Hh, ?Hu, ?Ht, ?Hr, ?Hg, ?Hgv, ?Hp, ?Hn, ?He; try done. cbn. by rewrite Z.add_0_r.
Qed.

Lemma linked_delivers {StA DataA StB DataB} enc dec (x : endpoint StA DataA) t (y : endpoint StB DataB) :
  linked enc dec x t y → delivers x t y.
Proof.
  intros (past & fl & rest & Hl). pose proof Hl as []. destruct lk_events0 as (Hd & Hb & Hc).
  assert (Hpast : data_of past `prefix_of` data_of (handed x)) by (rewrite Hd, data_of_app; by apply prefix_app_r).
  split; [|split].
  - rewrite <- lk_given0 in Hpast. etrans; [|exact Hpast]. by apply prefix_app_r.
  - intros buf. pose proof (read_plaintext_spec enc dec x t y buf past fl rest Hl) as Hr.
    destruct (read_plaintext _ _) as [[[n buf']|[]| |] k]; try done; [|by apply Hr..].
    destruct Hr as (_ & _ & Hn & _ & [_ _ _ _ _ _ _ _ Hg _ _] & Heof). cbn [given fst core] in *. split.
    + etrans; [|exact Hpast]. rewrite <- Hg. by apply prefix_app_r.
    + intros Hz Hne. destruct (Heof Hz Hne) as [Hclosed _]. rewrite lk_closed0 in Hclosed.
      rewrite Hc, Hb, closed_app, before_close_app, Hclosed. split; [done|]. etrans; [apply before_close_prefix|].
      rewrite <- lk_given0. destruct buf; [done|]. cbn [length] in Hn. destruct (got (core y)); [|cbn in Hn; lia].
      by rewrite app_nil_r.
  - intros Hcut Hu Ht Hr Hg. rewrite Hd. rewrite (lk_rest0 Hcut), Hu, Ht, Hr in lk_bytes0.
    apply eq_sym, wire_of_nil in lk_bytes0 as ->. rewrite Hg, app_nil_r in lk_given0.
    cbn. by rewrite app_nil_r.
Qed.

Context `{P1 : !CipherPair enc1 dec1} `{P2 : !CipherPair enc2 dec2}.

Lemma act_ok a w :
  world_ok w → within [a] w →
  ∃ w', act debug (S fuel) w a = Ok w' ∧ world_ok w' ∧
    (sequence (client w') ≤ sequence (client w) + Z.of_nat (cost_up a))%Z ∧
    (sequence (server w') ≤ sequence (server w) + Z.of_nat (cost_down a))%Z.
Proof.
  intros [Hup Hdown Hc Hs] [B1 B2]. cbn in B1, B2. rewrite Nat.add_0_r in B1, B2.
  destruct a as [c|c|n|n]; cbn [act cost_up cost_down] in *.
  - destruct (endpoint_call_spec debug fuel enc1 dec1 enc2 dec2 c (client w) (server w) (up w) (down w))
      as (x & out & inp & E & Hl1 & Hl2 & Hr & Hsq & _); try done.
    rewrite E. eexists. split; [reflexivity|]. split; [by split|]. cbn [client server]. lia.
  - destruct (endpoint_call_spec debug fuel enc2 dec2 enc1 dec1 c (server w) (client w) (down w) (up w))
      as (x & out & inp & E & Hl1 & Hl2 & Hr & Hsq & _); try done.
    rewrite E. eexists. split; [reflexivity|]. split; [by split|]. cbn [client server]. lia.
  - eexists. split; [reflexivity|]. split; [|cbn; lia]. split; try done. by apply link_cut.
  - eexists. split; [reflexivity|]. split; [|cbn; lia]. split; try done. by apply link_cut.
Qed.

Lemma run_ok actions w :
  world_ok w → within actions w → ∃ w', run debug (S fuel) actions w = Ok w' ∧ world_ok w'.
Proof.
  revert w. induction actions as [|a actions IH]; intros w Hw [B1 B2]; cbn [run]; [by exists w|].
  change (sum_list (cost_up <$> a :: actions)) with (cost_up a + sum_list (cost_up <$> actions)) in B1.
  change (sum_list (cost_down <$> a :: actions)) with (cost_down a + sum_list (cost_down <$> actions)) in B2.
  destruct (act_ok a w Hw) as (w1 & E & Hw1 & Hs1 & Hs2).
  { split; cbn; lia. }
  rewrite E. cbn [res_bind]. apply IH; [done|]. split; lia.
Qed.

(** The two connections as a channel. *)
Lemma channel_safe actions w :
  established enc1 dec1 (client w) (up w) (server w) → established enc2 dec2 (server w) (down w) (client w) →
  running (client w) → running (server w) → within actions w →
  ∃ w', run debug (S fuel) actions w = Ok w' ∧ world_ok w' ∧
    delivers (client w') (up w') (server w') ∧ delivers (server w') (down w') (client w').
Proof.
  intros Hup Hdown Hc Hs Hw. destruct (run_ok actions w) as (w' & E & Hw'); [|done|].
  { split; try done; by apply established_linked. }
  exists w'. destruct Hw'. split_and!; try done; by eapply linked_delivers.
Qed.

End safety.

(** * Progress *)

Section progress.
Context `{WebPki} `{ForeignErrors} (debug : bool) (fuel : nat).
Context {St1 Data1 St2 Data2 : Type} `{!ConnectionState St1 Data1} `{!ConnectionState St2 Data2}.
Context (enc : MessageEncrypter) (dec : MessageDecrypter) `{P1 : !CipherPair enc dec}.

Implicit Types (x : endpoint St1 Data1) (y : endpoint St2 Data2) (t back : transport).

(** Nothing is on its way. *)
Definition settled (x : endpoint St1 Data1) (t : transport) (y : endpoint St2 Data2) : Prop :=
  unsent (common_state (core x)) = [] ∧ t_bytes t = [] ∧ raw (core y) = [] ∧ got (core y) = [].

(** How far it is to there. *)
Definition distance (x : endpoint St1 Data1) (t : transport) (y : endpoint St2 Data2) : nat :=
  2 * length (unsent (common_state (core x))) + length (t_bytes t) +
  (length (data_of (handed x)) - length (given y)).

Lemma settled_given x t y : linked enc dec x t y → t_cut t = false → settled x t y → given y = data_of (handed x).
Proof. intros Hl Hc (Hu & Ht & Hr & Hg). by apply (linked_delivers enc dec x t y Hl). Qed.

(** When no whole record is left there is room for more. *)
Lemma drained_room x t y past fl rest :
  link enc dec x t y past fl rest → drained fl (core y) →
  length (raw (core y)) < MAX_WIRE_SIZE ∧ (t_bytes t = [] → rest = [] → raw (core y) = []).
Proof.
  intros [_ _ _ _ Hb _ Hfr _ _ _ _] Hdr. destruct fl as [|f fl].
  - apply app_eq_nil in Hb as [Hb _]. rewrite Hb. split; [|done]. unfold MAX_WIRE_SIZE, MAX_PAYLOAD, HEADER_SIZE. cbn [length]. lia.
  - destruct Hfr as [((_ & _ & _ & _ & Hlen) & _) _]. cbn [drained] in Hdr. split.
    + rewrite OpaqueMessage_encode_eq, !length_app, !length_to_be in Hdr.
      unfold MAX_WIRE_SIZE, MAX_PAYLOAD, HEADER_SIZE in *. cbn [length] in Hdr. lia.
    + intros Ht Hrest. rewrite Ht, Hrest, !app_nil_r, wire_of_cons in Hb. rewrite Hb, length_app in Hdr. lia.
Qed.

Lemma full_got y : cvb_is_full (received_plaintext (common_state (core y))) = true → got (core y) ≠ [].
Proof.
  unfold cvb_is_full, got. rewrite cvb_len_contents. destruct (cvb_limit _); [|done].
  intros Hlt%bool_decide_eq_true E. rewrite E in Hlt. cbn in Hlt. lia.
Qed.

(** Bytes arrive when there is room for them. *)
Lemma arrival_spec x t y back m past fl rest :
  link enc dec x t y past fl rest → running y → length (raw (core y)) < MAX_WIRE_SIZE →
  ∃ y' t', endpoint_call debug (S fuel) (Call_read_tls m) y back t = Ok (y', back, t') ∧
    link enc dec x t' y' past fl rest ∧ running y' ∧ got (core y') = got (core y) ∧ given y' = given y ∧ t_cut t' = t_cut t ∧
    length (t_bytes t') ≤ length (t_bytes t) ∧
    (got (core y) = [] → t_bytes t ≠ [] → length (t_bytes t') < length (t_bytes t)) ∧
    (t_bytes t = [] → t_bytes t' = [] ∧ raw (core y') = raw (core y)).
Proof.
  intros Hl (st & Hst & Htd) Hroom. cbn [endpoint_call].
  pose proof (read_tls_spec enc dec x t y m past fl rest Hl) as Hr.
  destruct (read_tls _ _) as [[k|e| |] c]; try done.
  - destruct Hr as (_ & Hk & Hg & Hn & Hl' & _). eexists _, _. split; [reflexivity|].
    cbn [core given transport_drop t_bytes t_cut]. rewrite length_drop. split_and!; try done; [by exists st; rewrite <- Hst|lia| |].
    + intros _ Ht. specialize (Hn Ht). lia.
    + intros Ht. destruct Hl as [_ _ _ _ Hb _ _ _ _ _ _], Hl' as [_ _ _ _ Hb' _ _ _ _ _ _].
      cbn [transport_drop t_bytes core] in Hb'. rewrite Ht in *. rewrite drop_nil in *. split; [done|].
      rewrite <- Hb in Hb'. by apply app_inv_tail in Hb'.
  - destruct Hr as (_ & Hk & Hg & Hl' & Hwhy). eexists _, _. split; [reflexivity|].
    cbn [core given]. split_and!; try done; [by exists st; rewrite <- Hst| |].
    + intros Hgot Ht. destruct Hwhy as [Hf|[Hf|[Hf _]]]; [by apply full_got in Hf|lia|done].
    + intros Ht. split; [done|]. destruct Hl as [_ _ _ _ Hb _ _ _ _ _ _], Hl' as [_ _ _ _ Hb' _ _ _ _ _ _].
      rewrite <- Hb in Hb'. by apply app_inv_tail in Hb'.
Qed.

(** The end of the transport is seen when [read] is asked for more than there is. *)
Lemma read_at_the_end (y : endpoint St2 Data2) buf :
  receiver_ok dec (core y) → got (core y) = [] → has_seen_eof (common_state (core y)) = true → buf ≠ [] →
  (read_plaintext buf (core y)).1 = Err UnexpectedEof ∨ (read_plaintext buf (core y)).1 = Ok (0, buf).
Proof.
  intros Hwf Hg Heof Hbuf.
  destruct (cvb_read_spec (received_plaintext (common_state (core y))) buf (rc_plaintext _ _ Hwf)) as (b & E & _).
  fold (got (core y)) in E. rewrite Hg, drop_0, take_nil in E. cbn [length Nat.min app] in E.
  unfold read_plaintext, reader_read, reader. cbn [pr_received_plaintext]. rewrite E.
  rewrite (bool_decide_true (0 = 0)), (bool_decide_false (buf = [])) by done. cbn [andb negb peer_cleanly_closed pr_has_seen_eof].
  rewrite Heof. destruct (_ && _); [by right|by left].
Qed.

(** A way that was cut and is empty is reported. *)
Lemma cut_spec x t y : linked enc dec x t y → running y → reports_cut debug fuel x t y.
Proof.
  intros (past & fl & rest & Hl) (st & Hst & Htd) Hcut Hempty back.
  destruct (process_new_packets_spec debug (S fuel) enc dec x t y st past fl rest Hl Hst Htd)
    as (k1 & io & past1 & fl1 & E1 & _ & Hst1 & _ & Hl1 & Hdr). set (y1 := mkEndpoint k1 (handed y) (given y)) in *.
  exists y1. cbn [endpoint_call]. rewrite E1. split; [done|]. split; [done|]. intros Hgot avail.
  destruct (drained_room x t y1 past1 fl1 rest Hl1 Hdr) as [Hroom _].
  pose proof (read_tls_spec enc dec x t y1 avail past1 fl1 rest Hl1) as Hr. change (core y1) with k1 in Hr |- *.
  destruct (read_tls _ _) as [[n|e| |] k2]; try done.
  - destruct Hr as (_ & Hk & Hg & _ & Hl2 & Heof). exists (mkEndpoint k2 (handed y1) (given y1)).
    assert (Ht : transport_drop t n = t).
    { unfold transport_drop. rewrite Hempty, drop_nil, <- Hempty. by destruct t. }
    rewrite Ht in *. split; [done|]. split; [done|]. intros buf Hbuf.
    assert (Hd : delivers x t (mkEndpoint k2 (handed y1) (given y1))).
    { apply (linked_delivers enc dec). by exists past1, fl1, rest. }
    destruct (read_at_the_end (mkEndpoint k2 (handed y1) (given y1)) buf) as [E|E]; try done.
    + apply Hl2.
    + change (got k2 = []). rewrite Hg. exact Hgot.
    + by apply Heof.
    + by left.
    + right. split; [done|]. destruct Hd as (_ & Hd & _). specialize (Hd buf). rewrite E in Hd. by apply Hd.
  - destruct Hr as (_ & _ & _ & _ & [Hf|[Hf|[_ Hf]]]); [by apply (full_got y1) in Hf|change (raw k1) with (raw (core y1)) in Hf; lia|congruence].
Qed.

(** The application takes some of what was received. *)
Lemma taking_spec x t y back buf past fl rest :
  link enc dec x t y past fl rest → running y → buf ≠ [] →
  ∃ y', endpoint_call debug (S fuel) (Call_read buf) y back t = Ok (y', back, t) ∧
    link enc dec x t y' past fl rest ∧ running y' ∧ raw (core y') = raw (core y) ∧
    (got (core y) ≠ [] → length (given y) < length (given y')) ∧
    (got (core y) = [] → got (core y') = [] ∧ given y' = given y).
Proof.
  intros Hl (st & Hst & Htd) Hbuf. cbn [endpoint_call].
  pose proof (read_plaintext_spec enc dec x t y buf past fl rest Hl) as Hr.
  assert (Hsame : ∀ y', link enc dec x t y' past fl rest → raw (core y') = raw (core y) ∧
    given y' ++ got (core y') = given y ++ got (core y)).
  { intros y' Hl'. destruct Hl as [_ _ _ _ Hb _ _ _ Hg _ _], Hl' as [_ _ _ _ Hb' _ _ _ Hg' _ _].
    rewrite <- Hb in Hb'. apply app_inv_tail in Hb'. split; [done|congruence]. }
  destruct (read_plaintext _ _) as [[[n buf']|e| |] c]; try done.
  - destruct Hr as (_ & Hk & Hn & Ht & Hl' & _). eexists. split; [reflexivity|]. rewrite Ht in *. destruct (Hsame _ Hl') as [Hraw Hgg].
    cbn [core given] in *. split; [done|]. split; [by exists st; rewrite <- Hst|]. split; [done|]. split.
    + intros Hg. rewrite length_app, length_take. destruct (got (core y)); [done|]. destruct buf; [done|]. cbn [length] in *. lia.
    + intros Hg. rewrite Hg, take_nil, !app_nil_r in *. split; [|done]. rewrite <- (app_nil_r (given y)) in Hgg at 2.
      by apply app_inv_head in Hgg.
  - destruct Hr as (_ & Hk & Hg & Hg' & Hl' & _). eexists. split; [reflexivity|]. destruct (Hsame _ Hl') as [Hraw _].
    cbn [core given] in *. split_and!; try done. by exists st; rewrite <- Hst.
Qed.

Lemma link_given_le x t y past fl rest : link enc dec x t y past fl rest → length (given y) ≤ length (data_of (handed x)).
Proof.
  intros Hl. apply prefix_length. apply (linked_delivers enc dec x t y). by exists past, fl, rest.
Qed.

(** One round; the other direction, whose transport is [back], is not touched. *)
Lemma one_round_spec x t y back n m buf :
  linked enc dec x t y → running y → t_cut t = false → buf ≠ [] →
  ∃ x1 t1 y1 y2 t2 y3,
    endpoint_call debug (S fuel) Call_process y back t = Ok (y1, back, t) ∧
    endpoint_call debug (S fuel) (Call_write_tls (S n)) x t back = Ok (x1, t1, back) ∧
    endpoint_call debug (S fuel) (Call_read_tls m) y1 back t1 = Ok (y2, back, t2) ∧
    endpoint_call debug (S fuel) (Call_read buf) y2 back t2 = Ok (y3, back, t2) ∧
    linked enc dec x1 t2 y3 ∧ running y3 ∧ t_cut t2 = false ∧ handed x1 = handed x ∧
    (settled x1 t2 y3 ∨ distance x1 t2 y3 < distance x t y).
Proof.
  intros (past & fl & rest & Hl) (st & Hst & Htd) Hcut Hbuf.
  destruct (process_new_packets_spec debug (S fuel) enc dec x t y st past fl rest Hl Hst Htd)
    as (k1 & io & past1 & fl1 & E1 & _ & Hst1 & _ & Hl1 & Hdr). set (y1 := mkEndpoint k1 (handed y) (given y)) in *.
  destruct (drained_room x t y1 past1 fl1 rest Hl1 Hdr) as [Hroom Hlast].
  destruct (write_tls_spec enc dec y1 t x (S n) past1 fl1 rest Hl1)
    as (w & k2 & E2 & _ & _ & _ & Hcut1 & Hw & Hu & rest' & Hl2).
  set (x1 := mkEndpoint k2 (handed x) (given x)) in *. set (t1 := transport_put t _) in *.
  destruct (arrival_spec x1 t1 y1 back m past1 fl1 rest' Hl2) as (y2 & t2 & E3 & Hl3 & Hrun2 & Hg2 & Hgv2 & Hc2 & Hlt & Hprog & Hidle);
    [by exists st|done|].
  destruct (taking_spec x1 t2 y2 back buf past1 fl1 rest' Hl3 Hrun2 Hbuf) as (y3 & E4 & Hl4 & Hrun3 & Hraw3 & Hmore & Hnone).
  exists x1, t1, y1, y2, t2, y3. cbn [endpoint_call]. rewrite E1, E2.
  split; [done|]. split; [done|]. split; [done|]. split; [done|]. split; [by exists past1, fl1, rest'|]. split; [done|].
  split; [congruence|]. split; [done|].
  assert (Hlen1 : length (t_bytes t1) = length (t_bytes t) + w).
  { unfold t1, transport_put. rewrite Hcut. cbn [t_bytes]. rewrite length_app, length_take. lia. }
  assert (Hoff : length (offered (sendable_tls (common_state (core x)))) ≤ length (unsent (common_state (core x)))).
  { apply prefix_length, offered_prefix. }
  pose proof (link_given_le _ _ _ _ _ _ Hl4) as Hle. change (handed x1) with (handed x) in Hle.
  assert (Hu1 : length (unsent (common_state (core x1))) = length (unsent (common_state (core x))) - w).
  { change (core x1) with k2. by rewrite Hu, length_drop. }
  change (given y1) with (given y) in Hgv2. unfold distance. change (handed x1) with (handed x). rewrite Hu1.
  destruct (decide (got (core y2) = [])) as [Hgot|Hgot]; [|right; specialize (Hmore Hgot); rewrite Hgv2 in Hmore; lia].
  destruct (Hnone Hgot) as [Hgot3 Hgv3]. rewrite Hgv3, Hgv2.
  destruct (decide (unsent (common_state (core x)) = [])) as [Hun|Hun].
  - rewrite Hun in Hoff, Hu. cbn [length] in Hoff.
    destruct (decide (t_bytes t1 = [])) as [Ht1|Ht1]; [left|right; rewrite Hg2 in Hgot; specialize (Hprog Hgot Ht1); lia].
    destruct (Hidle Ht1) as [Ht2 Hraw2]. split; [by change (core x1) with k2; rewrite Hu, drop_nil|]. split; [done|]. split; [|done].
    rewrite Hraw3, Hraw2. apply Hlast.
    + rewrite Ht1 in Hlen1. apply length_zero_iff_nil. cbn [length] in Hlen1. lia.
    + by rewrite (lk_rest _ _ _ _ _ _ _ _ Hl1 Hcut), Hun.
  - right. pose proof (offered_nonempty _ (sd_tls _ _ (lk_sender _ _ _ _ _ _ _ _ Hl1)) Hun) as Hne.
    destruct (offered (sendable_tls (common_state (core x)))); [done|]. destruct (unsent (common_state (core x))); [done|].
    cbn [length] in *. lia.
Qed.

(** A round from a settled state ends in one: there was nothing to gain. *)
Lemma settled_distance x t y : linked enc dec x t y → t_cut t = false → settled x t y → distance x t y = 0.
Proof.
  intros Hl Hc Hs. pose proof (settled_given _ _ _ Hl Hc Hs) as Hg. destruct Hs as (Hu & Ht & _). unfold distance.
  rewrite Hu, Ht, Hg. cbn [length]. lia.
Qed.

(** What a call of [read] then tells. *)
Lemma settled_read x t y buf :
  linked enc dec x t y → t_cut t = false → settled x t y → buf ≠ [] →
  (read_plaintext buf (core y)).1 = if closed (handed x) then Ok (0, buf) else Err WouldBlock.
Proof.
  intros (past & fl & rest & Hl) Hc (Hu & Ht & Hr & Hg) Hbuf. pose proof Hl as [_ _ Hrc (_ & _ & Hcl) Hb Hrest _ _ _ Hclosed Heof].
  rewrite (Hrest Hc), Hu, Ht, Hr in Hb. apply eq_sym, wire_of_nil in Hb as ->. cbn [events_of] in Hcl.
  change (events_of []) with (@nil event) in Hcl. rewrite app_nil_r in Hcl. rewrite Hcl, <- Hclosed.
  pose proof (d_raw_length _ (rc_deframer _ _ Hrc)) as Hlen. unfold d_start in Hlen. rewrite (rc_idle _ _ Hrc), Nat.sub_0_r in Hlen.
  fold (raw (core y)) in Hlen. rewrite Hr in Hlen.
  destruct (cvb_read_spec (received_plaintext (common_state (core y))) buf (rc_plaintext _ _ Hrc)) as (b & E & _).
  fold (got (core y)) in E. rewrite Hg, drop_0, take_nil in E. cbn [length Nat.min app] in E.
  unfold read_plaintext, reader_read, reader. cbn [pr_received_plaintext]. rewrite E.
  rewrite (bool_decide_false (buf = [])) by done. unfold has_pending. rewrite <- Hlen. cbn [length Nat.ltb].
  rewrite !bool_decide_true by done. cbn [andb negb peer_cleanly_closed pr_has_seen_eof]. rewrite andb_true_r.
  fold (peer_closed (core y)). destruct (peer_closed (core y)); [done|].
  destruct (has_seen_eof _) eqn:He; [|done]. rewrite (Heof eq_refl) in Hc. done.
Qed.
End progress.

(** * Rounds *)

(** The receiver processes what it has, the sender's transport takes some bytes,
    some arrive, and the receiving application reads. *)
Definition round_up (p : nat * nat * list byte) : list action :=
  [At_server Call_process; At_client (Call_write_tls (S p.1.1)); At_server (Call_read_tls p.1.2); At_server (Call_read p.2)].
Definition round_down (p : nat * nat * list byte) : list action :=
  [At_client Call_process; At_server (Call_write_tls (S p.1.1)); At_client (Call_read_tls p.1.2); At_client (Call_read p.2)].

(** All that was handed to [x] was given by [y], which tells of an end when there
    was one. *)
Definition delivered `{WebPki} `{ForeignErrors} {St1 Data1 St2 Data2} (x : endpoint St1 Data1) (y : endpoint St2 Data2) : Prop :=
  given y = data_of (handed x) ∧
  ∀ buf, buf ≠ [] → (read_plaintext buf (core y)).1 = if closed (handed x) then Ok (0, buf) else Err WouldBlock.

Section rounds.
Context `{WebPki} `{ForeignErrors} (debug : bool) (fuel : nat).
Context {St1 Data1 St2 Data2 : Type} `{!ConnectionState St1 Data1} `{!ConnectionState St2 Data2}.
Implicit Types w : world St1 Data1 St2 Data2.

Lemma run_app actions actions' w w1 :
  run debug fuel actions w = Ok w1 → run debug fuel (actions ++ actions') w = run debug fuel actions' w1.
Proof.
  revert w. induction actions as [|a actions IH]; intros w; cbn [run app]; [by intros [= ->]|].
  destruct (act debug fuel w a) as [w2| | |]; cbn [res_bind]; try done. apply IH.
Qed.

Lemma settled_delivered {StA DataA StB DataB} enc dec (x : endpoint StA DataA) t (y : endpoint StB DataB) :
  linked enc dec x t y → t_cut t = false → settled x t y → delivered x y.
Proof. intros Hl Hc Hs. split; [by eapply settled_given|]. intros buf Hb. by eapply settled_read. Qed.

End rounds.

(** Enough rounds bring everything over, in either direction. *)
Section many_rounds.
Context `{WebPki} `{ForeignErrors} (debug : bool) (fuel : nat) (enc : MessageEncrypter) (dec : MessageDecrypter).
Context {St1 Data1 St2 Data2 : Type} `{!ConnectionState St1 Data1} `{!ConnectionState St2 Data2}.
Context {StA DataA StB DataB : Type} `{!ConnectionState StB DataB}.
#[local] Abbreviation world := (world St1 Data1 St2 Data2).
Context (src : world → endpoint StA DataA) (way : world → transport) (dst : world → endpoint StB DataB).
Context (round : nat * nat * list byte → list action).

Definition way_ok (w : world) : Prop :=
  linked enc dec (src w) (way w) (dst w) ∧ running (dst w) ∧ t_cut (way w) = false.

Context (Hround : ∀ p w, way_ok w → p.2 ≠ [] →
  ∃ w', run debug (S fuel) (round p) w = Ok w' ∧ way_ok w' ∧ handed (src w') = handed (src w) ∧
    (settled (src w') (way w') (dst w') ∨ distance (src w') (way w') (dst w') < distance (src w) (way w) (dst w))).

Lemma rounds_spec ps w :
  way_ok w → Forall (λ p, p.2 ≠ []) ps →
  distance (src w) (way w) (dst w) < length ps ∨ settled (src w) (way w) (dst w) →
  ∃ w', run debug (S fuel) (mjoin (round <$> ps)) w = Ok w' ∧ handed (src w') = handed (src w) ∧
    delivered (src w') (dst w').
Proof.
  intros Hw Hps. revert w Hw. induction Hps as [|p ps Hp Hps IH]; intros w Hw Hd.
  { exists w. destruct Hw as (Hl & _ & Hc). split; [done|]. split; [done|].
    eapply settled_delivered; [done|done|]. destruct Hd; [cbn [length] in *; lia|done]. }
  destruct (Hround p w Hw Hp) as (w1 & E & Hw1 & Hh1 & Hs1). destruct (IH w1 Hw1) as (w' & E' & Hh & Hdel).
  { destruct Hs1 as [|Hlt]; [by right|]. destruct Hd as [Hd|Hs]; [left; cbn [length] in Hd; lia|].
    destruct Hw as (Hl & _ & Hc). rewrite (settled_distance _ _ _ _ _ Hl Hc Hs) in Hlt. lia. }
  exists w'. change (mjoin (round <$> p :: ps)) with (round p ++ mjoin (round <$> ps)).
  rewrite (run_app _ _ _ _ _ _ E). split; [done|]. split; [congruence|done].
Qed.

End many_rounds.

Section rounds_spec.
Context `{WebPki} `{ForeignErrors} (debug : bool) (fuel : nat) (enc : MessageEncrypter) (dec : MessageDecrypter).
Context {St1 Data1 St2 Data2 : Type} `{!ConnectionState St1 Data1} `{!ConnectionState St2 Data2} `{P1 : !CipherPair enc dec}.
Implicit Types w : world St1 Data1 St2 Data2.

Lemma round_up_spec p w :
  way_ok enc dec client up server w → p.2 ≠ [] →
  ∃ w', run debug (S fuel) (round_up p) w = Ok w' ∧ way_ok enc dec client up server w' ∧ handed (client w') = handed (client w) ∧
    (settled (client w') (up w') (server w') ∨ distance (client w') (up w') (server w') < distance (client w) (up w) (server w)).
Proof.
  intros (Hl & Hr & Hc) Hb. destruct p as [[n m] buf]. cbn [fst snd] in *.
  destruct (one_round_spec debug fuel enc dec (client w) (up w) (server w) (down w) n m buf Hl Hr Hc Hb)
    as (x1 & t1 & y1 & y2 & t2 & y3 & E1 & E2 & E3 & E4 & Hl' & Hr' & Hc' & Hres).
  exists (mkWorld x1 y3 t2 (down w)). split; [|by split]. unfold round_up. cbn [run fst snd act].
  rewrite E1. cbn [res_bind run act client server up down]. rewrite E2. cbn [res_bind run act client server up down].
  rewrite E3. cbn [res_bind run act client server up down]. by rewrite E4.
Qed.

Lemma round_down_spec p w :
  way_ok enc dec server down client w → p.2 ≠ [] →
  ∃ w', run debug (S fuel) (round_down p) w = Ok w' ∧ way_ok enc dec server down client w' ∧ handed (server w') = handed (server w) ∧
    (settled (server w') (down w') (client w') ∨ distance (server w') (down w') (client w') < distance (server w) (down w) (client w)).
Proof.
  intros (Hl & Hr & Hc) Hb. destruct p as [[n m] buf]. cbn [fst snd] in *.
  destruct (one_round_spec debug fuel enc dec (server w) (down w) (client w) (up w) n m buf Hl Hr Hc Hb)
    as (x1 & t1 & y1 & y2 & t2 & y3 & E1 & E2 & E3 & E4 & Hl' & Hr' & Hc' & Hres).
  exists (mkWorld y3 x1 (up w) t2). split; [|by split]. unfold round_down. cbn [run fst snd act].
  rewrite E1. cbn [res_bind run act client server up down]. rewrite E2. cbn [res_bind run act client server up down].
  rewrite E3. cbn [res_bind run act client server up down]. by rewrite E4.
Qed.

End rounds_spec.

