(* ===== verification/TlsSession.v ===== *)
(** Sessions under the keys of TLS 1.2: two connections whose ciphers come from the
    same secrets carry the data of the applications. *)
From Stdlib Require Import ZArith Lia Strings.Byte String.
From stdpp Require Import base list numbers option sets.
From S2P Require Import Prelude.
From S2P Require Import Codec.
From S2P Require Import TlsEnums.
From S2P Require Import TlsBase.
From S2P Require Import TlsExtensions.
From S2P Require Import TlsHandshake.
From S2P Require Import TlsError.
From S2P Require Import TlsMessage.
From S2P Require Import Fragmenter.
From S2P Require Import VecBuf.
From S2P Require Import RecordLayer.
From S2P Require Import Deframer.
From S2P Require Import TlsCiphers.
From S2P Require Import TlsSuites.
From S2P Require Import TlsSecrets.
From S2P Require Import StateMonad.
From S2P Require Import TlsCommon.
From S2P Require Import TlsConnection.
From S2P Require Import TlsTraffic.
From S2P Require Import TlsChannel.
From S2P Require Import TlsDuplex.
From S2P Require Import TlsProperties.
Open Scope rust_scope.

Section session.
Context `{WebPki} `{ForeignErrors} `{HO : HmacOk} `{AO : AeadOk} {K : AeadKeys} {KO : AeadKeysOk K} (debug : bool) (fuel : nat).
Context {ClientData ServerData : Type}.
#[local] Abbreviation session := (world ClientExpectTraffic12 ClientData ServerExpectTraffic12 ServerData).

(** Both sides have the secrets, and no application data was sent. *)
Record session_start (secrets : ConnectionSecrets) (w : session) : Prop := {
  ss_suite : suite_ok (cs_suite secrets);
  ss_keys : ∃ dec1 enc1 dec2 enc2,
    make_cipher_pair debug secrets Client = Ok (dec2, enc1) ∧ make_cipher_pair debug secrets Server = Ok (dec1, enc2) ∧
    established enc1 dec1 (client w) (up w) (server w) ∧ established enc2 dec2 (server w) (down w) (client w);
  ss_states : state (core (client w)) = inr (mkClientExpectTraffic12 secrets) ∧
    state (core (server w)) = inr (mkServerExpectTraffic12 secrets)
}.

(** The ciphers are pairs, and so the sides are linked. *)
Lemma session_pairs secrets w :
  session_start secrets w →
  ∃ enc1 dec1 enc2 dec2, CipherPair enc1 dec1 ∧ CipherPair enc2 dec2 ∧
    established enc1 dec1 (client w) (up w) (server w) ∧ established enc2 dec2 (server w) (down w) (client w) ∧
    running (client w) ∧ running (server w).
Proof.
  intros [Hs (dec1 & enc1 & dec2 & enc2 & E1 & E2 & He1 & He2) [Hc Hsv]].
  destruct (make_cipher_pair_spec debug secrets Hs) as (dec1' & enc1' & dec2' & enc2' & E1' & E2' & P1 & P2).
  rewrite E1 in E1'. injection E1' as <- <-. rewrite E2 in E2'. injection E2' as <- <-.
  exists enc1, dec1, enc2, dec2. split_and!; try done; by eexists.
Qed.

(** C1: The two ends of a TLS 1.2 connection are a channel in both directions.
    Whatever the applications call and in whatever order, however the transports
    cut the bytes into pieces, and wherever they stop: as long as the sequence
    numbers suffice no call panics, runs out of fuel or fails with an error of the
    protocol; each application is given the data that was handed to the other
    one, in order and without a gap; it is told of the end of the stream only
    when the other one has closed and after all data from before, and of an
    unexpected end only when the transport was cut.  A cut is reported: when the
    bytes before it have been processed and their data taken, [read_tls] and the next
    [read] tell of an unexpected end, or of the end of the stream if the other one's
    had come through.  And when nothing is left in the buffers of a way that was not
    cut, everything has been given. *)
Theorem connections_deliver (secrets : ConnectionSecrets) (actions : list action) (w : session)
    (Hstart : session_start secrets w) (Hwithin : within actions w) :
  ∃ w', run debug (S fuel) actions w = Ok w' ∧
    delivers (client w') (up w') (server w') ∧ delivers (server w') (down w') (client w') ∧
    reports_cut debug fuel (client w') (up w') (server w') ∧ reports_cut debug fuel (server w') (down w') (client w').
Proof.
  destruct (session_pairs secrets w Hstart) as (enc1 & dec1 & enc2 & dec2 & P1 & P2 & Hup & Hdown & Hc & Hs).
  destruct (channel_safe debug fuel enc1 enc2 dec1 dec2 actions w) as (w' & E & [L1 L2 R1 R2] & D1 & D2); try done. exists w'.
  split_and!; try done; by eapply cut_spec.
Qed.

(** C2: The two ends of a TLS 1.2 connection make progress.  After any calls, if
    the way from one side to the other was not cut, rounds bring everything over:
    in each the receiver processes what arrived, some bytes are written and some
    read, at least one of what there is, and the receiving application reads into
    some buffer.  After more rounds than bytes on their way (those not sent count
    twice) all data was given, and the next [read] tells of the end when there was
    one. *)
Theorem connections_progress (secrets : ConnectionSecrets) (actions : list action) (w : session)
    (rounds : list (nat * nat * list byte))
    (Hstart : session_start secrets w) (Hwithin : within actions w) (Hbufs : Forall (λ p, p.2 ≠ []) rounds) :
  ∃ w', run debug (S fuel) actions w = Ok w' ∧
    (t_cut (up w') = false → distance (client w') (up w') (server w') < length rounds →
     ∃ w'', run debug (S fuel) (mjoin (round_up <$> rounds)) w' = Ok w'' ∧ handed (client w'') = handed (client w') ∧
       delivered (client w'') (server w'')) ∧
    (t_cut (down w') = false → distance (server w') (down w') (client w') < length rounds →
     ∃ w'', run debug (S fuel) (mjoin (round_down <$> rounds)) w' = Ok w'' ∧ handed (server w'') = handed (server w') ∧
       delivered (server w'') (client w'')).
Proof.
  destruct (session_pairs secrets w Hstart) as (enc1 & dec1 & enc2 & dec2 & P1 & P2 & Hup & Hdown & Hc & Hs).
  destruct (channel_safe debug fuel enc1 enc2 dec1 dec2 actions w) as (w' & E & [] & _); try done.
  exists w'. split; [done|]. split; intros Hcut Hd.
  - apply (rounds_spec debug fuel enc1 dec1 client up server round_up (round_up_spec debug fuel enc1 dec1)); auto.
    by split.
  - apply (rounds_spec debug fuel enc2 dec2 server down client round_down (round_down_spec debug fuel enc2 dec2)); auto.
    by split.
Qed.

End session.

(** * From the keys to the first record

    The methods that [ExpectCcs] and [ExpectFinished] call when the keys are put to
    use and traffic starts; the Finished messages, one record in each direction, are
    left out, so both sides count from 0. *)

Section start.
Context `{WebPki} `{ForeignErrors} `{HO : HmacOk} `{AO : AeadOk} {K : AeadKeys} {KO : AeadKeysOk K} (debug : bool) (fuel : nat).

Definition on_record_layer {E} (f : RecordLayer → res unit RecordLayer) : method CommonState E unit := λ c,
  match f (record_layer c) with
  | Ok rl => (Ok tt, set_record_layer rl c)
  | NoFuel => (NoFuel, c)
  | _ => (Panic, c)
  end.

Definition use_keys {E} (secrets : ConnectionSecrets) (side : Side) : method CommonState E unit :=
  let! _ := start_encryption_tls12 debug secrets side in
  let! _ := on_record_layer (start_encrypting debug) in
  let! _ := on_record_layer (start_decrypting debug) in
  start_traffic debug fuel.

Lemma use_keys_spec {E} secrets side dec enc :
  make_cipher_pair debug secrets side = Ok (dec, enc) →
  ∃ c, use_keys (E := E) secrets side (CommonState_new side) = (Ok tt, c) ∧
    sender_ok enc c ∧ next_out c = 0%Z ∧ unsent c = [] ∧ queued_key_update_message c = None ∧
    decrypt_state (record_layer c) = DS_Active ∧ message_decrypter (record_layer c) = dec ∧ read_seq (record_layer c) = 0%Z ∧
    received_plaintext c = ChunkVecBuffer_new (Some DEFAULT_RECEIVED_PLAINTEXT_LIMIT) ∧
    has_received_close_notify c = false ∧ has_seen_eof c = false.
Proof.
  intros Ekeys. unfold use_keys, start_encryption_tls12, st_bind at 1 2, st_try. rewrite Ekeys. cbn [infallible].
  unfold st_set, st_bind, on_record_layer, start_encrypting, start_decrypting, debug_assert.
  cbn [CommonState_new record_layer set_record_layer prepare_message_encrypter prepare_message_decrypter encrypt_state
    decrypt_state RecordLayer_new message_decrypter message_encrypter write_seq read_seq trial_decryption_len with_encrypt_state].
  rewrite !bool_decide_true, !andb_false_r by done. eexists. split; [reflexivity|].
  split_and!; try done. split; try done; [apply default_wf|by constructor].
Qed.

Definition side_start {St} (st : St) (c : CommonState) : endpoint St unit :=
  mkEndpoint (ConnectionCore_new st tt c) [] [].

Definition new_way : transport := mkTransport [] false.

Lemma use_keys_session secrets :
  suite_ok (cs_suite secrets) →
  ∃ c s, use_keys (E := Error) secrets Client (CommonState_new Client) = (Ok tt, c) ∧
    use_keys (E := Error) secrets Server (CommonState_new Server) = (Ok tt, s) ∧
    session_start debug secrets (mkWorld (side_start (mkClientExpectTraffic12 secrets) c)
      (side_start (mkServerExpectTraffic12 secrets) s) new_way new_way).
Proof.
  intros Hs. destruct (make_cipher_pair_spec debug secrets Hs) as (dec1 & enc1 & dec2 & enc2 & Ec & Es & _).
  destruct (use_keys_spec (E := Error) secrets Client dec2 enc1 Ec) as (c & E1 & S1 & N1 & U1 & Q1 & A1 & D1 & R1 & P1 & C1 & F1).
  destruct (use_keys_spec (E := Error) secrets Server dec1 enc2 Es) as (s & E2 & S2 & N2 & U2 & Q2 & A2 & D2 & R2 & P2 & C2 & F2).
  exists c, s. split; [done|]. split; [done|]. split; [done| |done].
  exists dec1, enc1, dec2, enc2. split; [done|]. split; [done|]. split; split; try done;
    cbn [client server core side_start ConnectionCore_new common_state message_deframer].
  - split; try done; cbn; [by rewrite R2|rewrite P2; by constructor].
  - unfold next_in. cbn. by rewrite N1, R2.
  - split; [done|]. split; [|done]. unfold got. cbn. by rewrite P2.
  - split; try done; cbn; [by rewrite R1|rewrite P1; by constructor].
  - unfold next_in. cbn. by rewrite N2, R1.
  - split; [done|]. split; [|done]. unfold got. cbn. by rewrite P1.
Qed.
End start.

(** * Concrete algorithms, for the witnesses *)

Definition toy_hmac : Hmac :=
  {| hmac_output_len _ := 32; hmac_sign _ key msg := take 32 (drop (length msg - 32) msg ++ key ++ replicate 32 x00) |}.

(** Nothing is hidden, but the tag depends on the key and on the nonce. *)
Definition toy_tag (key nonce : list byte) : list byte := take 16 (nonce ++ key ++ replicate 16 x00).

Definition toy_aead : Aead :=
  {| LessSafeKey := list byte;
     tag_len _ := 16;
     seal key nonce aad plain := Some (plain, toy_tag key nonce);
     open key nonce aad ct :=
       if bool_decide (16 ≤ length ct) && bool_decide (drop (length ct - 16) ct = toy_tag key nonce)
       then Some (take (length ct - 16) ct) else None |}.

Definition toy_keys : @AeadKeys toy_aead :=
  {| key_len _ := 16; UnboundKey_new _ bytes := Some (bytes : @LessSafeKey toy_aead) |}.

Lemma length_toy_tag key nonce : length (toy_tag key nonce) = 16.
Proof. unfold toy_tag. rewrite length_take, !length_app, length_replicate. lia. Qed.

Lemma toy_hmac_ok : HmacOk toy_hmac.
Proof.
  split; cbn [toy_hmac hmac_output_len hmac_sign]; [lia|]. intros _ key msg. rewrite length_take, !length_app, length_replicate. lia.
Qed.

Lemma toy_aead_ok : AeadOk toy_aead.
Proof.
  split; cbn [toy_aead tag_len seal open].
  - done.
  - by eexists.
  - intros key nonce aad plain ct tag [= <- <-]. by rewrite length_toy_tag.
  - intros key nonce aad plain ct tag [= <- <-]. rewrite length_app, length_toy_tag.
    rewrite bool_decide_true by lia. cbn [andb].
    replace (length plain + 16 - 16) with (length plain) by lia.
    by rewrite drop_app_length, take_app_length, bool_decide_true.
  - intros key nonce aad ct plain. case_bool_decide; cbn [andb]; [|done]. case_bool_decide; [|done].
    intros [= <-]. rewrite length_take. lia.
Qed.

Lemma toy_keys_ok : AeadKeysOk (H := toy_aead) toy_keys.
Proof. intros alg bytes _. by eexists. Qed.

#[local] Existing Instances any_name no_foreign toy_hmac toy_aead toy_keys toy_hmac_ok toy_aead_ok toy_keys_ok.

Definition toy_suite : Tls12CipherSuite :=
  mkTls12CipherSuite (mkCipherSuiteCommon CipherSuite.TLS_ECDHE_RSA_WITH_AES_128_GCM_SHA256 Aes128Gcm AES_128_GCM)
    HMAC_SHA256 ECDHE TLS12_RSA_SCHEMES 4 8 Aead_AesGcm.

Definition toy_secrets : ConnectionSecrets :=
  mkConnectionSecrets (mkConnectionRandoms (replicate 32 x01) (replicate 32 x02))
    toy_suite (replicate 48 x03).

Definition toy_side (side : Side) : CommonState :=
  (use_keys false 1 (E := Error) toy_secrets side (CommonState_new side)).2.

Definition toy_session : world ClientExpectTraffic12 unit ServerExpectTraffic12 unit :=
  mkWorld (side_start (mkClientExpectTraffic12 toy_secrets) (toy_side Client))
    (side_start (mkServerExpectTraffic12 toy_secrets) (toy_side Server)) new_way new_way.

Lemma toy_session_start : session_start false toy_secrets toy_session.
Proof.
  destruct (use_keys_session false 1 toy_secrets) as (c & s & Ec & Es & Hss); [done|].
  unfold toy_session, toy_side. by rewrite Ec, Es.
Qed.

(** The client says hello and closes, in pieces of three bytes. *)
Definition toy_pieces : list action :=
  mjoin (replicate 30 [At_client (Call_write_tls 5); At_server (Call_read_tls 3)]).
Definition toy_actions : list action :=
  [At_client (Call_write (ascii "hello")); At_client Call_close] ++ toy_pieces ++
  [At_server Call_process; At_server (Call_read (replicate 8 x00))].

Example toy_run :
  match run false 2 toy_actions toy_session with
  | Ok w => given (server w) = ascii "hello" ∧ (read_plaintext [x00] (core (server w))).1 = Ok (0, [x00])
  | _ => False
  end.
Proof. vm_compute. split; reflexivity. Qed.

Lemma toy_within : within toy_actions toy_session.
Proof. split; vm_compute; discriminate. Qed.

Lemma connections_deliver_witness :
  ∃ w', run false 2 toy_actions toy_session = Ok w' ∧
    delivers (client w') (up w') (server w') ∧ delivers (server w') (down w') (client w') ∧
    reports_cut false 1 (client w') (up w') (server w') ∧ reports_cut false 1 (server w') (down w') (client w').
Proof. apply (connections_deliver false 1 toy_secrets toy_actions toy_session toy_session_start toy_within). Defined.

(** The server's data is cut off: what the client is told then. *)
Example cut_is_told :
  (let? w := run false 2 [At_server (Call_write (ascii "hello")); At_server (Call_write_tls 7); Cut_down 7;
    At_client (Call_read_tls 9); At_client Call_process; At_client (Call_read_tls 9)] toy_session in
   Ok (read_plaintext [x00; x00] (core (client w))).1) = Ok (Err UnexpectedEof).
Proof. vm_compute. reflexivity. Qed.

Definition toy_rounds : list (nat * nat * list byte) := replicate 200 (3, 4, replicate 2 x00).

Lemma connections_progress_witness :
  ∃ w', run false 2 [At_client (Call_write (ascii "hello")); At_client Call_close] toy_session = Ok w' ∧
    ∃ w'', run false 2 (mjoin (round_up <$> toy_rounds)) w' = Ok w'' ∧ handed (client w'') = handed (client w') ∧
      delivered (client w'') (server w'').
Proof.
  destruct (connections_progress false 1 toy_secrets [At_client (Call_write (ascii "hello")); At_client Call_close]
    toy_session toy_rounds toy_session_start) as (w' & E & Hup & _).
  - split; vm_compute; discriminate.
  - apply list.Forall_replicate. discriminate.
  - exists w'. split; [exact E|].
    assert (Hw : match run false 2 [At_client (Call_write (ascii "hello")); At_client Call_close] toy_session with
      | Ok w => negb (t_cut (up w)) && (distance (client w) (up w) (server w) <? length toy_rounds) = true
      | _ => False
      end) by (vm_compute; reflexivity).
    rewrite E in Hw. apply andb_true_iff in Hw as [Hc Hd]. apply Hup; [by apply negb_true_iff|by apply Nat.ltb_lt].
Defined.
