(* ===== verification/TlsLimits.v ===== *)
(** The ends of a connection: errors, the last sequence numbers, and a key update
    that waits to be written. *)
From Stdlib Require Import ZArith Lia Strings.Byte String.
From stdpp Require Import base list numbers option sets.
From S2P Require Import Prelude.
From S2P Require Import Codec.
From S2P Require Import TlsEnums.
From S2P Require Import TlsBase.
From S2P Require Import TlsExtensions.
From S2P Require Import TlsHandshake.
From S2P Require Import TlsError.
From S2P Require Import TlsMessage.
From S2P Require Import Fragmenter.
From S2P Require Import VecBuf.
From S2P Require Import RecordLayer.
From S2P Require Import Deframer.
From S2P Require Import TlsCiphers.
From S2P Require Import TlsSuites.
From S2P Require Import TlsSecrets.
From S2P Require Import StateMonad.
From S2P Require Import TlsCommon.
From S2P Require Import TlsConnection.
From S2P Require Import TlsTraffic.
From S2P Require Import TlsChannel.
From S2P Require Import TlsProperties.
From S2P Require Import TlsDuplex.
From S2P Require Import TlsSession.
Open Scope rust_scope.

(** * Methods that leave the state of the connection as it is *)

Section keeps.
Context `{WebPki} `{ForeignErrors} (debug : bool) {St Data : Type} `{!ConnectionState St Data}.
#[local] Abbreviation core := (ConnectionCore (St := St) (Data := Data)).

Definition keeps {E A} (m : method core E A) : Prop := ∀ k, state (m k).2 = state k.

Lemma keeps_bind {E A B} (m : method core E A) (f : A → method core E B) :
  keeps m → (∀ a, keeps (f a)) → keeps (st_bind m f).
Proof.
  intros Hm Hf k. unfold st_bind. specialize (Hm k). destruct (m k) as [[a|e| |] k']; cbn [snd] in *; try done.
  by rewrite Hf.
Qed.

Lemma keeps_catch {E A} (m : method core E A) (f : E → method core E A) :
  keeps m → (∀ e, keeps (f e)) → keeps (st_catch m f).
Proof.
  intros Hm Hf k. unfold st_catch. specialize (Hm k). destruct (m k) as [[a|e| |] k']; cbn [snd] in *; try done.
  by rewrite Hf.
Qed.

Lemma keeps_common {E A} (m : method CommonState E A) : keeps (with_common (E := E) m).
Proof. intros k. unfold with_common. by destruct (m (common_state k)). Qed.
Lemma keeps_context {E A} (m : method (CommonState * Data) E A) : keeps (with_context (E := E) m).
Proof. intros k. unfold with_context. by destruct (m (common_state k, data k)). Qed.
Lemma keeps_pop : keeps (deframer_pop debug).
Proof. intros k. unfold deframer_pop. by destruct (pop _ _ _) as [? []]. Qed.
Lemma keeps_ret {E A} (a : A) : keeps (E := E) (st_ret a).
Proof. done. Qed.
Lemma keeps_fail {E A} (e : E) : keeps (A := A) (st_fail e).
Proof. done. Qed.
Lemma keeps_get {E A} (f : core → A) : keeps (E := E) (st_get f).
Proof. done. Qed.
Lemma keeps_try {E A} (f : core → res E A) : keeps (st_try f).
Proof. done. Qed.
Lemma keeps_set_common {E} (f : core → CommonState) : keeps (E := E) (st_set (λ k, set_common (f k) k)).
Proof. done. Qed.

End keeps.

Create HintDb keeps.
#[export] Hint Resolve keeps_bind keeps_catch keeps_common keeps_context keeps_pop keeps_ret keeps_fail keeps_get
  keeps_try keeps_set_common : keeps.

Section errors.
Context `{WebPki} `{ForeignErrors} (debug : bool) {St Data : Type} `{!ConnectionState St Data}.
#[local] Abbreviation core := (ConnectionCore (St := St) (Data := Data)).

Lemma deframe_keeps fuel : keeps (St := St) (Data := Data) (deframe debug fuel).
Proof.
  unfold deframe. apply keeps_bind.
  - apply keeps_catch; [auto with keeps|]. intros e. destruct e; auto with keeps.
  - intros [d|]; [|auto with keeps]. apply keeps_bind; [destruct (df_want_close_before_decrypt d); auto with keeps|]. intros _.
    apply keeps_bind; [destruct (df_trial_decryption_finished d); auto with keeps|]. auto with keeps.
Qed.

Lemma process_msg_keeps fuel msg st : keeps (process_msg debug fuel msg st).
Proof.
  unfold process_msg. apply keeps_bind; [auto with keeps|]. intros c. destruct (_ && _).
  - destruct (_ || _); auto 6 with keeps.
  - destruct (Message_try_from msg) as [m|e| |]; try done; [|auto with keeps].
    destruct (m_payload m); auto with keeps.
Qed.

(** The loop of [process_new_packets] has handled some messages: it went from the
    state [st] and the connection [k] to these. *)
Inductive handled (fuel : nat) : St → core → St → core → Prop :=
  | handled_none st k : handled fuel st k st k
  | handled_one st k msg k1 st2 k2 st' k' :
      deframe debug fuel k = (Ok (Some msg), k1) → process_msg debug fuel msg st k1 = (Ok st2, k2) →
      handled fuel st2 k2 st' k' → handled fuel st k st' k'.

Lemma handled_state fuel st k st' k' : handled fuel st k st' k' → state k' = state k.
Proof.
  induction 1 as [|st k msg k1 st2 k2 st' k' Hd Hp _ IH]; [done|].
  pose proof (deframe_keeps fuel k) as H1. pose proof (process_msg_keeps fuel msg st k1) as H2.
  rewrite Hd in H1. rewrite Hp in H2. cbn [snd] in H1, H2. congruence.
Qed.

(** An error of the loop is one of [deframe], or one of [process_msg], which then
    becomes the state. *)
Lemma packets_loop_err n fuel st k e k' :
  packets_loop debug n fuel st k = (Err e, k') →
  ∃ st1 k1, handled fuel st k st1 k1 ∧
    (deframe debug fuel k1 = (Err e, k') ∨
     ∃ msg k2 k3, deframe debug fuel k1 = (Ok (Some msg), k2) ∧ process_msg debug fuel msg st1 k2 = (Err e, k3) ∧
       k' = set_state (inl e) k3).
Proof.
  revert st k. induction n as [|n IH]; intros st k E; cbn [packets_loop] in E; [done|].
  unfold st_bind at 1 in E. destruct (deframe debug fuel k) as [[[msg|]|e'| |] k1] eqn:Hd; try done.
  - unfold st_bind at 1, st_catch in E. destruct (process_msg debug fuel msg st k1) as [[st'|e'| |] k2] eqn:Hp; try done.
    + destruct (IH _ _ E) as (st1 & k3 & Hh & Hr). exists st1, k3. split; [by eapply handled_one|done].
    + rewrite st_bind_set in E. injection E as <- <-. exists st, k. split; [constructor|right]. by exists msg, k1, k2.
  - injection E as <- <-. exists st, k. split; [constructor|by left].
Qed.

(** C39: An error of [process_new_packets] is the end of a connection: all later
    calls return an error and change nothing.  Either the deframer failed, after
    some messages were handled: then later calls do not return its error but
    [HandshakeNotComplete], also after the handshake.  Or handling the message that
    the deframer gave failed: then later calls return that error again. *)
Theorem errors_end_connection (n fuel : nat) (k k' : core) (st : St) (e : Error)
    (Hst : state k = inr st) (Herr : process_new_packets debug n fuel k = (Err e, k')) :
  ∃ st1 k1, handled fuel st (set_state (inl HandshakeNotComplete) k) st1 k1 ∧
   ((deframe debug fuel k1 = (Err e, k') ∧
     ∀ n' fuel', process_new_packets debug n' fuel' k' = (Err HandshakeNotComplete, k')) ∨
    (∃ msg k2 k3, deframe debug fuel k1 = (Ok (Some msg), k2) ∧ process_msg debug fuel msg st1 k2 = (Err e, k3) ∧
       k' = set_state (inl e) k3 ∧
       ∀ n' fuel', process_new_packets debug n' fuel' k' = (Err e, k'))).
Proof.
  unfold process_new_packets in Herr. rewrite st_bind_get, Hst, st_bind_set in Herr.
  unfold st_bind at 1 in Herr. destruct (packets_loop _ _ _ _ _) as [[st'|e1| |] k0] eqn:E; try done.
  injection Herr as -> ->. destruct (packets_loop_err _ _ _ _ _ _ E) as (st1 & k1 & Hh & Hr). exists st1, k1. split; [done|].
  assert (Hlater : ∀ e0, state k' = inl e0 → ∀ n' fuel', process_new_packets debug n' fuel' k' = (Err e0, k')).
  { intros e0 Hk n' fuel'. unfold process_new_packets. by rewrite st_bind_get, Hk. }
  destruct Hr as [Hd|(msg & k2 & k3 & Hd & Hp & ->)]; [left|right].
  - split; [done|]. apply Hlater. pose proof (deframe_keeps fuel k1) as Hk. rewrite Hd in Hk. cbn [snd] in Hk.
    rewrite Hk. by apply handled_state in Hh.
  - exists msg, k2, k3. split_and!; [done..|]. by apply Hlater.
Qed.

End errors.

(** * Sequence numbers *)

Section limits.
Context `{WebPki} `{ForeignErrors} (debug : bool).

(** C40: On a connection that encrypts, [send_single_fragment] returns unless the
    sequence number is at its soft limit.  There it calls [send_close_notify], which
    calls it again with the number unchanged: no fuel is enough, the recursion never
    ends, and however deep it goes nothing has been sent and nothing has changed.
    At the hard limit and above it nothing is sent, and no call is nested.  At any
    other number no call is nested either: the fragment is encrypted under the
    number, if the cipher takes it, and queued, and the number goes up by one. *)
Theorem send_single_fragment_returns (m : BorrowedPlainMessage) (c : CommonState)
    (Hactive : encrypt_state (record_layer c) = DS_Active) (Hf : fragmenter_wf (message_fragmenter c)) :
  let seq := write_seq (record_layer c) in
  (seq = SEQ_SOFT_LIMIT → ∀ fuel, send_single_fragment (E := Error) debug fuel m c = (NoFuel, c)) ∧
  ((SEQ_HARD_LIMIT ≤ seq)%Z → ∀ fuel, send_single_fragment (E := Error) debug (S fuel) m c = (Ok tt, c)) ∧
  (∀ em, seq ≠ SEQ_SOFT_LIMIT → (seq < SEQ_HARD_LIMIT)%Z → encrypt (message_encrypter (record_layer c)) m seq = Ok em →
     ∀ fuel, send_single_fragment (E := Error) debug (S fuel) m c =
       (Ok tt, set_sendable_tls (cvb_append (sendable_tls c) (OpaqueMessage_encode em)).2
         (set_record_layer (with_write_seq (record_layer c) (seq + 1)) c))).
Proof.
  intros seq. split_and!.
  - intros Hlimit fuel. revert m. induction fuel as [|fuel IH]; intros m; [done|].
    cbn [send_single_fragment]. rewrite st_bind_get. unfold wants_close_before_encrypt. rewrite bool_decide_true by done.
    unfold send_warning_alert_with, st_bind at 1. rewrite st_bind_get. unfold is_encrypting.
    rewrite Hactive, bool_decide_true by done. unfold send_msg_with, fragments_of, fragment_message.
    rewrite (st_bind_try _ _ _ [mkBorrowedPlainMessage ContentType.Alert ProtocolVersion.TLSv1_2 [x01; x00]]).
    + cbn [negb st_each]. unfold st_bind at 1. by rewrite IH.
    + rewrite fragment_slice_eq by done. unfold fragmenter_wf in Hf. cbn. by rewrite take_ge, drop_ge by (cbn; lia).
  - intros Hlimit fuel. cbn [send_single_fragment]. rewrite st_bind_get. unfold wants_close_before_encrypt.
    fold seq. rewrite bool_decide_false by (unfold SEQ_SOFT_LIMIT, SEQ_HARD_LIMIT in *; lia).
    unfold st_ret at 1, st_bind at 1. rewrite st_bind_get. unfold encrypt_exhausted. fold seq. by rewrite bool_decide_true.
  - intros em Hsoft Hhard Henc fuel. cbn [send_single_fragment]. rewrite st_bind_get. unfold wants_close_before_encrypt.
    fold seq. rewrite bool_decide_false by done.
    unfold st_ret at 1, st_bind at 1. rewrite st_bind_get. unfold encrypt_exhausted. fold seq. rewrite bool_decide_false by lia.
    unfold st_bind, rl_encrypt_outgoing, encrypt_outgoing, debug_assert. rewrite Hactive, bool_decide_true, andb_false_r by done.
    unfold encrypt_exhausted. fold seq. rewrite bool_decide_false by lia. cbv zeta. cbn [message_encrypter with_write_seq].
    by rewrite Henc.
Qed.

(** A key update that waits to be written is overtaken.  Its record is kept
    aside, already encrypted, until the application next writes; the alert of
    [send_close_notify], encrypted after it, is put on the wire before it, and the
    key update only follows with the data of the next write. *)
Theorem key_update_overtaken (enc : MessageEncrypter) (dec : MessageDecrypter) (fuel : nat) (c : CommonState)
    (key_update data : list byte)
    (Hpair : CipherPair enc dec) (Hc : sender_ok enc c) (Hqueued : queued_key_update_message c = Some key_update)
    (Hseq : (next_out c + 1 + Z.of_nat (length data) ≤ SEQ_SOFT_LIMIT)%Z) :
  ∃ alert records n c1 c2,
    send_close_notify (E := Error) debug (S fuel) c = (Ok tt, c1) ∧
    events_of alert = [Ev_close] ∧ unsent c1 = unsent c ++ wire_of alert ∧
    send_some_plaintext (E := Error) debug (S fuel) data c1 = (Ok n, c2) ∧
    data_of (events_of records) = take n data ∧
    unsent c2 = unsent c ++ wire_of alert ++ key_update ++ wire_of records ∧
    frames_ok dec (next_out c) (alert ++ records).
Proof.
  destruct (send_close_notify_spec (E := Error) debug enc dec fuel c Hpair Hc)
    as (alert & c1 & E1 & Hc1 & (Hu1 & Hn1 & _ & Hq1) & Hf1 & He1); [lia|].
  assert (Hlen : length alert = 1).
  { apply (f_equal length) in He1. unfold events_of in He1. by rewrite length_fmap in He1. }
  rewrite Hlen in Hn1. rewrite Hqueued in Hq1.
  set (c1' := set_sendable_tls (cvb_append (sendable_tls c1) key_update).2 (set_queued_key_update_message None c1)).
  assert (Hc1' : sender_ok enc c1') by (destruct Hc1; split; try done; by apply cvb_append_wf).
  destruct (send_some_plaintext_spec (E := Error) debug enc dec fuel data c1' Hpair Hc1' eq_refl)
    as (n & records & c2 & E2 & _ & _ & (Hu2 & _) & Hf2 & Hd & _).
  { change (next_out c1') with (next_out c1). lia. }
  exists alert, records, n, c1, c2. split; [done|]. split; [done|]. split; [done|]. split.
  - unfold send_some_plaintext, perhaps_write_key_update in *. rewrite st_bind_set in *. rewrite Hq1.
    change (queued_key_update_message c1') with (@None (list byte)) in E2. exact E2.
  - split; [done|]. split.
    + rewrite Hu2. unfold unsent at 1. cbn [c1' set_sendable_tls sendable_tls]. rewrite cvb_append_contents.
      fold (unsent c1). by rewrite Hu1, <- !app_assoc.
    + apply frames_ok_app. rewrite Hlen. split; [done|]. by rewrite <- Hn1.
Qed.

(** The counter is tested before it counts the message: as many messages are
    dropped as [TLS13_MAX_DROPPED_CCS] and one more. *)
Lemma middlebox_ccs_dropped {St Data} `{!ConnectionState St Data} fuel msg (st : St) (k : ConnectionCore (St := St) (Data := Data)) :
  is_valid_ccs msg = true → may_receive_application_data (common_state k) = false → is_tls13 (common_state k) = true →
  (0 ≤ received_middlebox_ccs (common_state k) ≤ TLS13_MAX_DROPPED_CCS)%Z →
  process_msg debug fuel msg st k
  = (Ok st, set_common (set_received_middlebox_ccs (received_middlebox_ccs (common_state k) + 1) (common_state k)) k).
Proof.
  intros Hccs Hmay H13 [Hlow Hhigh]. unfold process_msg. rewrite st_bind_get, Hmay, H13.
  pose proof Hccs as Ht. unfold is_valid_ccs in Ht. apply andb_true_iff in Ht as [-> _]. cbn [negb andb].
  rewrite Hccs, bool_decide_false by lia. cbn [negb orb]. unfold TLS13_MAX_DROPPED_CCS in *.
  rewrite (st_bind_try _ _ _ (received_middlebox_ccs (common_state k) + 1)%Z).
  - by rewrite st_bind_set.
  - unfold u8_incr. by rewrite bool_decide_false by lia.
Qed.

End limits.

(** * Examples *)

#[local] Existing Instances any_name no_foreign toy_hmac toy_aead toy_keys toy_hmac_ok toy_aead_ok toy_keys_ok.

(** A client in traffic whose deframer holds the start of something else. *)
Definition garbled : ConnectionCore (St := ClientExpectTraffic12) (Data := unit) :=
  set_deframer (mkMessageDeframer None [x00; x01; x02; x03; x04] None 5) (core (client toy_session)).

(** The error is not the one that was returned. *)
Example deframe_error_forgotten :
  let r := process_new_packets false 6 2 garbled in
  r.1 = Err (E_InvalidMessage InvalidContentType) ∧
  (process_new_packets false 6 2 r.2).1 = Err HandshakeNotComplete.
Proof. split; vm_compute; reflexivity. Qed.

(** An empty alert, which cannot be parsed: the error comes from handling it. *)
Definition bad_alert : ConnectionCore (St := ClientExpectTraffic12) (Data := unit) :=
  set_deframer (mkMessageDeframer None [x15; x03; x03; x00; x01; x00] None 6)
    (set_common (set_record_layer RecordLayer_new (common_state (core (client toy_session)))) (core (client toy_session))).

Lemma errors_end_connection_witness :
  let r := process_new_packets false 6 2 garbled in
  let r' := process_new_packets false 6 2 bad_alert in
  r.1 = Err (E_InvalidMessage InvalidContentType) ∧
  (∀ n fuel, process_new_packets false n fuel r.2 = (Err HandshakeNotComplete, r.2)) ∧
  ∃ e, r'.1 = Err e ∧ e ≠ HandshakeNotComplete ∧ ∀ n fuel, process_new_packets false n fuel r'.2 = (Err e, r'.2).
Proof.
  intros r r'. assert (Hr : r.1 = Err (E_InvalidMessage InvalidContentType)) by (vm_compute; reflexivity).
  split; [exact Hr|]. split.
  - destruct (errors_end_connection false 6 2 garbled r.2 (mkClientExpectTraffic12 toy_secrets) (E_InvalidMessage InvalidContentType))
      as (st1 & k1 & Hh & [[_ Hl]|(msg & k2 & k3 & _ & _ & Hk & _)]).
    + reflexivity.
    + rewrite <- Hr. unfold r. destruct (process_new_packets false 6 2 garbled). reflexivity.
    + exact Hl.
    + exfalso. apply (f_equal state) in Hk. vm_compute in Hk. discriminate Hk.
  - destruct r'.1 as [x|e| |] eqn:Hr'; [vm_compute in Hr'; discriminate Hr'| |vm_compute in Hr'; discriminate Hr'..].
    assert (He : e ≠ HandshakeNotComplete) by (intros ->; vm_compute in Hr'; discriminate Hr').
    exists e. split; [reflexivity|]. split; [exact He|].
    destruct (errors_end_connection false 6 2 bad_alert r'.2 (mkClientExpectTraffic12 toy_secrets) e)
      as (st1 & k1 & Hh & [[_ Hl]|(msg & k2 & k3 & _ & _ & _ & Hl)]).
    + reflexivity.
    + rewrite <- Hr'. unfold r'. destruct (process_new_packets false 6 2 bad_alert). reflexivity.
    + exfalso. specialize (Hl 1 1). apply (f_equal fst) in Hl. vm_compute in Hl, Hr'. congruence.
    + exact Hl.
Defined.

(** A connection that sends its records as they are. *)
Definition plain_sender (seq : Z) : CommonState :=
  set_record_layer (mkRecordLayer (mkMessageEncrypter (λ m _, Ok (to_unencrypted_opaque m)))
    (message_decrypter RecordLayer_new) seq 0 DS_Active DS_Active None) (CommonState_new Client).

Definition greeting : BorrowedPlainMessage :=
  mkBorrowedPlainMessage ContentType.ApplicationData ProtocolVersion.TLSv1_2 [x68; x69].

Lemma send_single_fragment_returns_witness :
  (send_single_fragment (E := Error) true 1 greeting (plain_sender 7)).1 = Ok tt ∧
  (send_single_fragment (E := Error) true 1 greeting (plain_sender SEQ_HARD_LIMIT)).1 = Ok tt ∧
  ∀ fuel, (send_single_fragment (E := Error) true fuel greeting (plain_sender SEQ_SOFT_LIMIT)).1 = NoFuel.
Proof.
  split; [|split].
  - destruct (send_single_fragment_returns true greeting (plain_sender 7)) as (_ & _ & H); [reflexivity|apply default_wf|].
    rewrite (H (to_unencrypted_opaque greeting)); [reflexivity|discriminate|reflexivity|reflexivity].
  - destruct (send_single_fragment_returns true greeting (plain_sender SEQ_HARD_LIMIT)) as (_ & H & _); [reflexivity|apply default_wf|].
    rewrite H; [reflexivity|]. vm_compute. discriminate.
  - intros fuel. destruct (send_single_fragment_returns true greeting (plain_sender SEQ_SOFT_LIMIT)) as (H & _ & _);
      [reflexivity|apply default_wf|]. rewrite H; reflexivity.
Defined.

Lemma waiting_ok enc c message : sender_ok enc c → sender_ok enc (set_queued_key_update_message message c).
Proof. intros []. by split. Qed.

Lemma key_update_overtaken_witness :
  let c := set_queued_key_update_message (Some [x16; x17]) (common_state (core (client toy_session))) in
  ∃ enc dec, CipherPair enc dec ∧ sender_ok enc c ∧
  ∃ alert records n c1 c2,
    send_close_notify (E := Error) false 1 c = (Ok tt, c1) ∧
    events_of alert = [Ev_close] ∧ unsent c1 = unsent c ++ wire_of alert ∧
    send_some_plaintext (E := Error) false 1 [x68; x69] c1 = (Ok n, c2) ∧
    data_of (events_of records) = take n [x68; x69] ∧
    unsent c2 = unsent c ++ wire_of alert ++ [x16; x17] ++ wire_of records ∧
    frames_ok dec (next_out c) (alert ++ records).
Proof.
  intros c. destruct (session_pairs false toy_secrets toy_session toy_session_start)
    as (enc & dec & _ & _ & Hpair & _ & [Hs _ _ _ _ _ _] & _).
  assert (Hc : sender_ok enc c) by exact (waiting_ok enc _ (Some [x16; x17]) Hs).
  exists enc, dec. split; [exact Hpair|]. split; [exact Hc|].
  apply (key_update_overtaken false enc dec 0 c [x16; x17] [x68; x69] Hpair Hc); [reflexivity|].
  vm_compute. discriminate.
Defined.
