(* ===== verification/Utf8.v ===== *)
(** Strings of Rust's standard library as far as the CSV crates use them: the
    well-formed byte sequences of UTF-8, and [str::trim]. *)
From Stdlib Require Import ZArith Lia Strings.Byte.
From stdpp Require Import base list numbers option.
From S2P Require Import Prelude.
Open Scope rust_scope.

Definition byte_in (lo hi : Z) (b : u8) : bool := (lo <=? byte_val b)%Z && (byte_val b <=? hi)%Z.

(** The length of the well-formed sequence of one character that [s] begins
    with. *)
Definition char_len (s : list u8) : option nat :=
  let tail := byte_in 0x80 0xbf in
  match s with
  | [] => None
  | a :: s =>
      if byte_in 0 0x7f a then Some 1
      else match s with
      | [] => None
      | b :: s =>
          if byte_in 0xc2 0xdf a then if tail b then Some 2 else None
          else match s with
          | [] => None
          | c :: s =>
              if byte_in 0xe0 0xe0 a then if byte_in 0xa0 0xbf b && tail c then Some 3 else None
              else if byte_in 0xe1 0xec a || byte_in 0xee 0xef a then if tail b && tail c then Some 3 else None
              else if byte_in 0xed 0xed a then if byte_in 0x80 0x9f b && tail c then Some 3 else None
              else match s with
              | [] => None
              | d :: _ =>
                  if byte_in 0xf0 0xf0 a then
                    if byte_in 0x90 0xbf b && tail c && tail d then Some 4 else None
                  else if byte_in 0xf1 0xf3 a then if tail b && tail c && tail d then Some 4 else None
                  else if byte_in 0xf4 0xf4 a then
                    if byte_in 0x80 0x8f b && tail c && tail d then Some 4 else None
                  else None
              end
          end
      end
  end.

(** The characters at the front, and the bytes behind them. *)
Fixpoint utf8_run (fuel : nat) (s : list u8) : list (list u8) * list u8 :=
  match fuel with
  | O => ([], s)
  | S fuel =>
      match char_len s with
      | Some n => let '(cs, rest) := utf8_run fuel (drop n s) in (take n s :: cs, rest)
      | None => ([], s)
      end
  end.

(** [str::chars]. *)
Definition chars (s : list u8) : list (list u8) := (utf8_run (length s) s).1.

(** [str::from_utf8(s).is_ok()], and [valid_up_to] of its error. *)
Definition valid_utf8 (s : list u8) : bool := bool_decide ((utf8_run (length s) s).2 = []).
Definition valid_up_to (s : list u8) : nat := length s - length (utf8_run (length s) s).2.

(** [<[u8]>::is_ascii]. *)
Definition is_ascii (s : list u8) : bool := forallb (byte_in 0 0x7f) s.

(** The characters with the property White_Space. *)
Definition WHITE_SPACE : list (list u8) :=
  ((λ b, [b]) <$> [x09; x0a; x0b; x0c; x0d; x20])
  ++ [[xc2; x85]; [xc2; xa0]; [xe1; x9a; x80]]
  ++ ((λ b, [xe2; x80; b]) <$>
        [x80; x81; x82; x83; x84; x85; x86; x87; x88; x89; x8a; xa8; xa9; xaf])
  ++ [[xe2; x81; x9f]; [xe3; x80; x80]].
Definition is_whitespace (c : list u8) : bool := bool_decide (c ∈ WHITE_SPACE).

Fixpoint drop_while {A} (p : A → bool) (l : list A) : list A :=
  match l with
  | [] => []
  | x :: l' => if p x then drop_while p l' else l
  end.

(** [str::trim]. *)
Definition trim_str (s : list u8) : list u8 :=
  concat (reverse (drop_while is_whitespace (reverse (drop_while is_whitespace (chars s))))).

(** * Characters *)

Definition is_char (c : list u8) : Prop := char_len c = Some (length c).

Lemma char_len_range s n : char_len s = Some n → 1 ≤ n ≤ length s.
Proof.
  unfold char_len. do 4 (destruct s as [|? s]; [repeat case_match; intros; simplify_eq/=; lia|]).
  repeat case_match; intros; simplify_eq/=; lia.
Qed.

Lemma char_len_app s t n : char_len s = Some n → char_len (s ++ t) = Some n.
Proof.
  unfold char_len. do 4 (destruct s as [|? s]; [simpl; repeat case_match; intros; simplify_eq; done|]).
  simpl. by repeat case_match.
Qed.

Lemma char_len_take s n : char_len s = Some n → is_char (take n s).
Proof.
  intros H. unfold is_char. pose proof (char_len_range _ _ H). rewrite length_take, Nat.min_l by lia.
  assert (n = 1 ∨ n = 2 ∨ n = 3 ∨ n = 4) as Hn.
  { revert H. unfold char_len. clear. repeat case_match; intros; simplify_eq; lia. }
  revert H. unfold char_len. destruct s as [|a s]; [done|].
  destruct (byte_in 0 127 a) eqn:Ea; [by intros [= <-]; simpl; rewrite Ea|].
  destruct s as [|b s]; [done|].
  destruct (byte_in 0xc2 0xdf a) eqn:Eb.
  { case_match eqn:Et; [|done]. intros [= <-]. simpl. by rewrite Ea, Eb, Et. }
  destruct s as [|c s]; [done|].
  destruct Hn as [->|[->|[->| ->]]]; simpl; rewrite Ea; try rewrite Eb.
  - by repeat case_match.
  - by repeat case_match.
  - repeat case_match; intros; congruence.
  - destruct s as [|d s]; [by repeat case_match|].
    change (take 1 (d :: s)) with [d]. repeat case_match; intros; congruence.
Qed.

Lemma utf8_run_concat fuel cs t :
  Forall is_char cs → length cs ≤ fuel →
  utf8_run fuel (concat cs ++ t) = (cs ++ (utf8_run (fuel - length cs) t).1, (utf8_run (fuel - length cs) t).2).
Proof.
  revert fuel. induction cs as [|c cs IH]; intros fuel Hcs Hf.
  - rewrite Nat.sub_0_r. cbn [concat app]. by destruct (utf8_run _ _).
  - apply list.Forall_cons in Hcs as [Hc Hcs]. destruct fuel as [|fuel]; [simpl in Hf; lia|].
    cbn [utf8_run concat]. rewrite <- app_assoc, (char_len_app _ _ _ Hc).
    rewrite drop_app_length, take_app_length, IH by (done || simpl in Hf; lia). done.
Qed.

Lemma length_chars cs : Forall is_char cs → length cs ≤ length (concat cs).
Proof.
  induction 1 as [|c cs Hc _ IH]; [done|]. simpl. rewrite length_app.
  apply char_len_range in Hc. lia.
Qed.

Lemma utf8_run_nil fuel : utf8_run fuel [] = ([], []).
Proof. by destruct fuel. Qed.

Lemma chars_concat cs : Forall is_char cs → chars (concat cs) = cs.
Proof.
  intros H. unfold chars. pose proof (utf8_run_concat (length (concat cs)) cs [] H (length_chars cs H)) as E.
  rewrite app_nil_r, utf8_run_nil in E. by rewrite E; simpl; rewrite app_nil_r.
Qed.

Lemma valid_concat cs : Forall is_char cs → valid_utf8 (concat cs) = true.
Proof.
  intros H. unfold valid_utf8. pose proof (utf8_run_concat (length (concat cs)) cs [] H (length_chars cs H)) as E.
  rewrite app_nil_r, utf8_run_nil in E. by rewrite E.
Qed.

Lemma utf8_run_spec fuel s :
  Forall is_char (utf8_run fuel s).1 ∧ s = concat (utf8_run fuel s).1 ++ (utf8_run fuel s).2.
Proof.
  revert s. induction fuel as [|fuel IH]; intros s; [by split|]. cbn [utf8_run].
  destruct (char_len s) as [n|] eqn:E; [|by split].
  destruct (IH (drop n s)) as [H1 H2]. destruct (utf8_run fuel (drop n s)) as [cs rest].
  cbn [fst snd] in *. split.
  - constructor; [by apply char_len_take|done].
  - cbn [concat]. by rewrite <- app_assoc, <- H2, take_drop.
Qed.

Lemma valid_chars s : valid_utf8 s = true ↔ Forall is_char (chars s) ∧ s = concat (chars s).
Proof.
  pose proof (utf8_run_spec (length s) s) as [H1 H2]. unfold valid_utf8. rewrite bool_decide_eq_true.
  split.
  - intros E. rewrite E, app_nil_r in H2. by split.
  - intros [_ E]. unfold chars in E. rewrite E in H2 at 1.
    rewrite <- (app_nil_r (concat _)) in H2 at 1. by apply app_inv_head in H2.
Qed.

Lemma valid_app s t : valid_utf8 s = true → valid_utf8 t = true → valid_utf8 (s ++ t) = true.
Proof.
  intros [Hs ->]%valid_chars [Ht ->]%valid_chars. rewrite <- concat_app. apply valid_concat.
  by apply Forall_app.
Qed.

Lemma valid_ascii s : is_ascii s = true → valid_utf8 s = true.
Proof.
  intros H. replace s with (concat ((λ b, [b]) <$> s)).
  - apply valid_concat. induction s as [|b s IH]; [constructor|]. cbn in H.
    apply andb_true_iff in H as [Hb Hs]. constructor; [|by apply IH].
    unfold is_char, char_len. by rewrite Hb.
  - clear H. induction s as [|b s IH]; [done|]. cbn. f_equal. exact IH.
Qed.

Lemma valid_up_to_le s : valid_up_to s ≤ length s.
Proof. unfold valid_up_to. lia. Qed.

Lemma drop_while_suffix {A} (p : A → bool) l : ∃ k, l = k ++ drop_while p l.
Proof.
  induction l as [|x l [k IH]]; [by exists []|]. simpl. destruct (p x); [|by exists []].
  exists (x :: k). simpl. by f_equal.
Qed.

Lemma drop_while_Forall {A} (P : A → Prop) (p : A → bool) l : Forall P l → Forall P (drop_while p l).
Proof. induction 1; simpl; [done|]. destruct (p _); [done|by constructor]. Qed.

Lemma valid_trim s : valid_utf8 s = true → valid_utf8 (trim_str s) = true.
Proof.
  intros [Hs _]%valid_chars. apply valid_concat.
  by apply Forall_reverse, drop_while_Forall, Forall_reverse, drop_while_Forall.
Qed.

(** The bytes before [valid_up_to] are valid. *)
Lemma valid_up_to_valid s : valid_utf8 (take (valid_up_to s) s) = true.
Proof.
  unfold valid_up_to. destruct (utf8_run_spec (length s) s) as [Hcs Es].
  destruct (utf8_run (length s) s) as [cs rest]. cbn [fst snd] in *. subst s.
  rewrite length_app, Nat.add_sub, take_app_length. by apply valid_concat.
Qed.
