(* ===== verification/CsvNfa.v ===== *)
(** csv-core's parser as a nondeterministic automaton with epsilon moves: the
    record terminator ([csv-core/src/lib.rs]), the settings of a reader, and the
    states and transitions of [csv-core/src/reader.rs]. *)
From Stdlib Require Import ZArith Lia Strings.Byte.
From stdpp Require Import base list numbers option sets.
From S2P Require Import Prelude.
Open Scope rust_scope.

Definition LF : u8 := x0a.
Definition CR : u8 := x0d.

Definition beq (a b : u8) : bool := bool_decide (a = b).

(** The hidden constructor [__Nonexhaustive] is left out: every function that
    looks at a terminator panics on it, [build] included, so that no reader and
    no writer ever holds it. *)
Inductive Terminator : Type := Term_CRLF | Term_Any (b : u8).

Definition is_crlf (t : Terminator) : bool :=
  match t with Term_CRLF => true | Term_Any _ => false end.

Definition term_equals (t : Terminator) (other : u8) : bool :=
  match t with
  | Term_CRLF => beq other CR || beq other LF
  | Term_Any b => beq other b
  end.

(** The fields of [Reader] that [ReaderBuilder] sets and nothing changes later. *)
Record CsvConfig : Type := mkCsvConfig {
  delimiter : u8;
  term : Terminator;
  quote : u8;
  escape : option u8;
  double_quote : bool;
  comment : option u8;
  quoting : bool
}.

(** The settings of [Reader::default]. *)
Definition default_config : CsvConfig := mkCsvConfig x2c Term_CRLF x22 None true None true.

Inductive NfaInputAction : Type := Epsilon | CopyToOutput | Discard.

Inductive NfaState : Type :=
  | EndFieldTerm | InRecordTerm | End_
  | StartRecord | StartField | InField | InQuotedField | InEscapedQuote
  | InDoubleEscapedQuote | InComment
  | EndFieldDelim
  | EndRecord | CRLF.

#[export] Instance NfaState_eq_dec : EqDecision NfaState.
Proof. solve_decision. Defined.
#[export] Instance NfaInputAction_eq_dec : EqDecision NfaInputAction.
Proof. solve_decision. Defined.

(** [state as u8]. *)
Definition NfaState_code (s : NfaState) : nat :=
  match s with
  | EndFieldTerm => 200 | InRecordTerm => 201 | End_ => 202
  | StartRecord => 0 | StartField => 1 | InField => 2 | InQuotedField => 3
  | InEscapedQuote => 4 | InDoubleEscapedQuote => 5 | InComment => 6
  | EndFieldDelim => 7
  | EndRecord => 8 | CRLF => 9
  end.

Definition NFA_STATES : list NfaState :=
  [StartRecord; StartField; EndFieldDelim; InField; InQuotedField; InEscapedQuote;
   InDoubleEscapedQuote; InComment; EndRecord; CRLF].

Definition is_field_final (s : NfaState) : bool :=
  match s with End_ | EndRecord | CRLF | EndFieldDelim => true | _ => false end.

Definition is_record_final (s : NfaState) : bool :=
  match s with End_ | EndRecord | CRLF => true | _ => false end.

Definition transition_final_nfa (state : NfaState) : NfaState :=
  match state with
  | End_ | StartRecord | EndRecord | InComment | CRLF => End_
  | StartField | EndFieldDelim | EndFieldTerm | InField | InQuotedField | InEscapedQuote
  | InDoubleEscapedQuote | InRecordTerm => EndRecord
  end.

(** [o == Some(c)]. *)
Definition is_byte (o : option u8) (c : u8) : bool :=
  match o with Some b => beq b c | None => false end.

Definition transition_nfa (cfg : CsvConfig) (state : NfaState) (c : u8)
    : NfaState * NfaInputAction :=
  match state with
  | End_ => (End_, Epsilon)
  | StartRecord =>
      if term_equals (term cfg) c then (StartRecord, Discard)
      else if is_byte (comment cfg) c then (InComment, Discard)
      else (StartField, Epsilon)
  | EndRecord => (StartRecord, Epsilon)
  | StartField =>
      if quoting cfg && beq (quote cfg) c then (InQuotedField, Discard)
      else if beq (delimiter cfg) c then (EndFieldDelim, Discard)
      else if term_equals (term cfg) c then (EndFieldTerm, Epsilon)
      else (InField, CopyToOutput)
  | EndFieldDelim => (StartField, Epsilon)
  | EndFieldTerm => (InRecordTerm, Epsilon)
  | InField =>
      if beq (delimiter cfg) c then (EndFieldDelim, Discard)
      else if term_equals (term cfg) c then (EndFieldTerm, Epsilon)
      else (InField, CopyToOutput)
  | InQuotedField =>
      if quoting cfg && beq (quote cfg) c then (InDoubleEscapedQuote, Discard)
      else if quoting cfg && is_byte (escape cfg) c then (InEscapedQuote, Discard)
      else (InQuotedField, CopyToOutput)
  | InEscapedQuote => (InQuotedField, CopyToOutput)
  | InDoubleEscapedQuote =>
      if quoting cfg && double_quote cfg && beq (quote cfg) c then (InQuotedField, CopyToOutput)
      else if beq (delimiter cfg) c then (EndFieldDelim, Discard)
      else if term_equals (term cfg) c then (EndFieldTerm, Epsilon)
      else (InField, CopyToOutput)
  | InComment => if beq LF c then (StartRecord, Discard) else (InComment, Discard)
  | InRecordTerm =>
      if is_crlf (term cfg) && beq CR c then (CRLF, Discard) else (EndRecord, Discard)
  | CRLF => if beq LF c then (StartRecord, Discard) else (StartRecord, Epsilon)
  end.

(** * Closing under epsilon moves *)

(** The [while] loop of [build_dfa]: epsilon moves are taken on the byte until
    one consumes it. *)
Fixpoint consume_byte (fuel : nat) (cfg : CsvConfig) (c : u8)
    (nfa_result : NfaState * NfaInputAction) : res unit (NfaState * NfaInputAction) :=
  if negb (bool_decide (fst nfa_result = End_)) && bool_decide (snd nfa_result = Epsilon)
  then match fuel with
       | O => NoFuel
       | S fuel => consume_byte fuel cfg c (transition_nfa cfg (fst nfa_result) c)
       end
  else Ok nfa_result.

(** No chain of epsilon moves is longer. *)
Definition EPSILON_CHAIN : nat := 7.

(** One byte, with its epsilon moves: the next state, and whether the byte is
    copied to the output. *)
Definition step (cfg : CsvConfig) (s : NfaState) (c : u8) : NfaState * bool :=
  match consume_byte EPSILON_CHAIN cfg c (s, Epsilon) with
  | Ok (s', a) => (s', bool_decide (a = CopyToOutput))
  | _ => (s, false)
  end.

(** The states that a byte can lead to; they are those of the table. *)
Definition is_dfa_state (s : NfaState) : bool :=
  match s with EndFieldTerm | InRecordTerm | End_ => false | _ => true end.

(** The bytes that [build_dfa] gives a class of their own. *)
Definition special_bytes (cfg : CsvConfig) : list u8 :=
  [delimiter cfg]
  ++ (if quoting cfg then quote cfg :: option_list (escape cfg) else [])
  ++ option_list (comment cfg)
  ++ match term cfg with Term_Any b => [b] | Term_CRLF => [CR; LF] end.

(** A state that the settings can lead to. *)
Definition state_ok (cfg : CsvConfig) (s : NfaState) : Prop :=
  is_dfa_state s = true ∧ (s = InComment → comment cfg ≠ None) ∧ (s = CRLF → term cfg = Term_CRLF).

(** Settings under which classes tell apart what the automaton tells apart:
    comments end at a line feed, which needs a class if there are comments. *)
Definition config_ok (cfg : CsvConfig) : Prop :=
  comment cfg = None ∨ LF ∈ special_bytes cfg.

Lemma beq_spec a b : beq a b = true ↔ a = b.
Proof. apply bool_decide_eq_true. Qed.

Lemma beq_refl a : beq a a = true.
Proof. by apply beq_spec. Qed.

Lemma beq_neq a b : a ≠ b → beq a b = false.
Proof. apply bool_decide_eq_false_2. Qed.

Lemma NfaState_code_inj s s' : NfaState_code s = NfaState_code s' → s = s'.
Proof. by destruct s, s'. Qed.

Lemma dfa_state_code s : is_dfa_state s = true → NfaState_code s ≤ 9.
Proof. destruct s; intros; simpl in *; try done; lia. Qed.

Lemma NFA_STATES_spec s : s ∈ NFA_STATES ↔ is_dfa_state s = true.
Proof.
  split; [|destruct s; try done; intros _; apply (bool_decide_unpack _); vm_compute; exact I].
  revert s. apply list.Forall_forall. by repeat constructor.
Qed.

(** ** The automaton without epsilon moves *)

Definition read_term (cfg : CsvConfig) (c : u8) : NfaState * NfaInputAction :=
  (if is_crlf (term cfg) && beq CR c then CRLF else EndRecord, Discard).

Definition read_unquoted (cfg : CsvConfig) (c : u8) : NfaState * NfaInputAction :=
  if beq (delimiter cfg) c then (EndFieldDelim, Discard)
  else if term_equals (term cfg) c then read_term cfg c
  else (InField, CopyToOutput).

Definition read_start (cfg : CsvConfig) (c : u8) : NfaState * NfaInputAction :=
  if quoting cfg && beq (quote cfg) c then (InQuotedField, Discard) else read_unquoted cfg c.

Definition read_record_start (cfg : CsvConfig) (c : u8) : NfaState * NfaInputAction :=
  if term_equals (term cfg) c then (StartRecord, Discard)
  else if is_byte (comment cfg) c then (InComment, Discard)
  else read_start cfg c.

Definition read_byte (cfg : CsvConfig) (s : NfaState) (c : u8) : NfaState * NfaInputAction :=
  match s with
  | StartRecord | EndRecord => read_record_start cfg c
  | CRLF => if beq LF c then (StartRecord, Discard) else read_record_start cfg c
  | StartField | EndFieldDelim => read_start cfg c
  | InField => read_unquoted cfg c
  | InQuotedField =>
      if quoting cfg && beq (quote cfg) c then (InDoubleEscapedQuote, Discard)
      else if quoting cfg && is_byte (escape cfg) c then (InEscapedQuote, Discard)
      else (InQuotedField, CopyToOutput)
  | InEscapedQuote => (InQuotedField, CopyToOutput)
  | InDoubleEscapedQuote =>
      if quoting cfg && double_quote cfg && beq (quote cfg) c then (InQuotedField, CopyToOutput)
      else read_unquoted cfg c
  | InComment => if beq LF c then (StartRecord, Discard) else (InComment, Discard)
  | EndFieldTerm | InRecordTerm | End_ => (s, Discard)
  end.

Lemma consume_epsilon fuel cfg c s :
  s ≠ End_ → consume_byte (S fuel) cfg c (s, Epsilon) = consume_byte fuel cfg c (transition_nfa cfg s c).
Proof. intros Hs. simpl. by rewrite (bool_decide_eq_false_2 _ Hs). Qed.

Lemma consume_stop fuel cfg c s a : a ≠ Epsilon → consume_byte fuel cfg c (s, a) = Ok (s, a).
Proof. by destruct fuel, a, s. Qed.

(** Follow the moves of one state, case by case. *)
Ltac follow :=
  repeat first
    [ reflexivity
    | rewrite consume_stop by done
    | rewrite consume_epsilon by done; cbn [transition_nfa]
    | match goal with |- consume_byte _ _ _ (if ?b then _ else _) = _ => destruct b end ].

Lemma consume_term fuel cfg c :
  2 ≤ fuel → consume_byte fuel cfg c (EndFieldTerm, Epsilon) = Ok (read_term cfg c).
Proof. intros H. destruct fuel as [|[|fuel]]; [lia..|]. unfold read_term. follow. Qed.

Lemma consume_unquoted fuel cfg c :
  2 ≤ fuel →
  consume_byte fuel cfg c (if beq (delimiter cfg) c then (EndFieldDelim, Discard)
      else if term_equals (term cfg) c then (EndFieldTerm, Epsilon) else (InField, CopyToOutput))
  = Ok (read_unquoted cfg c).
Proof.
  intros H. unfold read_unquoted. destruct (beq (delimiter cfg) c); [by apply consume_stop|].
  destruct (term_equals (term cfg) c); [by apply consume_term|by apply consume_stop].
Qed.

Lemma consume_start fuel cfg c :
  3 ≤ fuel → consume_byte fuel cfg c (StartField, Epsilon) = Ok (read_start cfg c).
Proof.
  intros H. destruct fuel as [|fuel]; [lia|]. rewrite consume_epsilon by done. cbn [transition_nfa].
  unfold read_start. destruct (quoting cfg && _); [by apply consume_stop|].
  apply consume_unquoted. lia.
Qed.

Lemma consume_record_start fuel cfg c :
  4 ≤ fuel → consume_byte fuel cfg c (StartRecord, Epsilon) = Ok (read_record_start cfg c).
Proof.
  intros H. destruct fuel as [|fuel]; [lia|]. rewrite consume_epsilon by done. cbn [transition_nfa].
  unfold read_record_start. destruct (term_equals _ c); [by apply consume_stop|].
  destruct (is_byte _ c); [by apply consume_stop|]. apply consume_start. lia.
Qed.

(** The epsilon moves of every state of the table end within the fuel, at a byte
    that is consumed. *)
Lemma consume_byte_eq cfg s c :
  is_dfa_state s = true → consume_byte EPSILON_CHAIN cfg c (s, Epsilon) = Ok (read_byte cfg s c).
Proof.
  intros Hs. unfold EPSILON_CHAIN.
  destruct s; try done; cbn [read_byte]; rewrite ?(consume_epsilon 6) by done; cbn [transition_nfa].
  - by apply (consume_record_start 7); lia.
  - by apply (consume_start 7); lia.
  - by apply consume_unquoted; lia.
  - repeat case_match; by apply consume_stop.
  - match goal with |- consume_byte _ _ _ (if ?b then _ else _) = _ => destruct b end;
      [by apply consume_stop|by apply consume_unquoted; lia].
  - case_match; by apply consume_stop.
  - by apply consume_start; lia.
  - by apply consume_record_start; lia.
  - case_match; [by apply consume_stop|by apply consume_record_start; lia].
Qed.

Lemma step_eq cfg s c :
  is_dfa_state s = true →
  step cfg s c = ((read_byte cfg s c).1, bool_decide ((read_byte cfg s c).2 = CopyToOutput)).
Proof. intros Hs. unfold step. rewrite consume_byte_eq by done. by destruct (read_byte cfg s c). Qed.

Lemma step_state_ok cfg s c : state_ok cfg s → state_ok cfg (step cfg s c).1.
Proof.
  intros (Hs & Hc & Hr). rewrite step_eq by done. cbn [fst].
  destruct s; try done; unfold read_byte, read_record_start, read_start, read_unquoted, read_term;
    repeat case_match; split_and!; simpl; intros; try done; auto;
    try (by match goal with H : is_byte (comment cfg) _ = _ |- _ => destruct (comment cfg) end);
    by match goal with H : is_crlf (term cfg) && _ = _ |- _ => destruct (term cfg) end.
Qed.

(** ** Bytes that are not special *)

Lemma special_delimiter cfg c : c ∉ special_bytes cfg → beq (delimiter cfg) c = false.
Proof. intros H. apply beq_neq. intros <-. apply H. unfold special_bytes. set_solver. Qed.

Lemma special_term cfg c : c ∉ special_bytes cfg → term_equals (term cfg) c = false.
Proof.
  unfold special_bytes. intros H. destruct (term cfg); simpl.
  - rewrite !beq_neq; [done|set_solver..].
  - apply beq_neq. set_solver.
Qed.

Lemma special_quote cfg c : c ∉ special_bytes cfg → quoting cfg && beq (quote cfg) c = false.
Proof.
  unfold special_bytes. intros H. destruct (quoting cfg); [simpl|done]. apply beq_neq. set_solver.
Qed.

Lemma special_escape cfg c : c ∉ special_bytes cfg → quoting cfg && is_byte (escape cfg) c = false.
Proof.
  unfold special_bytes. intros H. destruct (quoting cfg), (escape cfg); try done; simpl.
  apply beq_neq. set_solver.
Qed.

Lemma special_comment cfg c : c ∉ special_bytes cfg → is_byte (comment cfg) c = false.
Proof.
  unfold special_bytes. intros H. destruct (comment cfg); [simpl|done]. apply beq_neq. set_solver.
Qed.

(** The automaton does not tell bytes apart that are not special. *)
Lemma read_byte_plain cfg s c c' :
  config_ok cfg → state_ok cfg s → c ∉ special_bytes cfg → c' ∉ special_bytes cfg →
  read_byte cfg s c = read_byte cfg s c'.
Proof.
  intros Hcfg (Hs & Hc & Hr) H H'.
  assert (Hu : read_unquoted cfg c = read_unquoted cfg c').
  { unfold read_unquoted. by rewrite !special_delimiter, !special_term by done. }
  assert (Hst : read_start cfg c = read_start cfg c').
  { unfold read_start. by rewrite !special_quote, Hu by done. }
  assert (Hre : read_record_start cfg c = read_record_start cfg c').
  { unfold read_record_start. by rewrite !special_term, !special_comment, Hst by done. }
  assert (Hlf : s = InComment ∨ s = CRLF → beq LF c = beq LF c').
  { intros HH. assert (LF ∈ special_bytes cfg).
    { destruct Hcfg as [Hn|Hn]; [|done]. destruct HH as [->| ->]; [by destruct Hc|].
      unfold special_bytes. rewrite (Hr eq_refl). set_solver. }
    rewrite !beq_neq; [done|set_solver..]. }
  destruct s; try done; cbn [read_byte]; rewrite ?Hlf, ?Hre by auto; try done.
  - by rewrite !special_quote, !special_escape by done.
  - rewrite <- !andb_assoc, !(andb_comm (double_quote cfg)), !andb_assoc, !special_quote by done.
    exact Hu.
Qed.

(** Inside a field a byte that is not special is copied and changes nothing:
    what [scan_and_copy] relies on. *)
Lemma step_plain cfg s c :
  s = InField ∨ s = InQuotedField → c ∉ special_bytes cfg → step cfg s c = (s, true).
Proof.
  intros Hs H. rewrite step_eq by (by destruct Hs as [->| ->]).
  destruct Hs as [->| ->]; cbn [read_byte].
  - unfold read_unquoted. by rewrite special_delimiter, special_term by done.
  - by rewrite special_quote, special_escape by done.
Qed.
