(* ===== verification/CsvDfa.v ===== *)
(** The table of csv-core's reader ([csv-core/src/reader.rs], [Dfa] and
    [DfaClasses]): how [build_dfa] computes it from the automaton of [CsvNfa],
    and that every step of the table is a step of the automaton. *)
From Stdlib Require Import ZArith Lia Strings.Byte.
From stdpp Require Import base list numbers option sets.
From S2P Require Import Prelude.
From S2P Require Import CsvNfa.
Open Scope rust_scope.

Definition TRANS_CLASSES : nat := 7.
Definition DFA_STATES : nat := 10.
Definition TRANS_SIZE : nat := TRANS_CLASSES * DFA_STATES.
Definition CLASS_SIZE : nat := 256.

(** [b as usize]. *)
Definition byte_ix (b : u8) : nat := Z.to_nat (byte_val b).

(** [(0..256).map(|c| c as u8)]. *)
Definition all_bytes : list u8 := (λ c, byte_of (Z.of_nat c)) <$> seq 0 256.

Record DfaClasses : Type := mkDfaClasses { class_map : list nat; next_class : nat }.

Definition DfaClasses_new : DfaClasses := mkDfaClasses (replicate CLASS_SIZE 0) 1.

Definition classes_add (k : DfaClasses) (b : u8) : res unit DfaClasses :=
  if bool_decide (CLASS_SIZE < next_class k) then Panic
  else
    let? m := write_at (class_map k) (byte_ix b) (next_class k `mod` 256) in
    Ok (mkDfaClasses m (next_class k + 1)).

Definition num_classes (k : DfaClasses) : nat := next_class k.

(** A state of the table is the index of its row, a [u8]. *)
Abbreviation DfaState := nat (only parsing).

Definition DfaState_start : DfaState := 0.
Definition is_start (s : DfaState) : bool := bool_decide (s = 0).

Record Dfa : Type := mkDfa {
  trans : list DfaState;
  has_output : list bool;
  classes : DfaClasses;
  in_field : DfaState;
  in_quoted : DfaState;
  final_field : DfaState;
  final_record : DfaState
}.

Definition Dfa_new : Dfa :=
  mkDfa (replicate TRANS_SIZE 0) (replicate TRANS_SIZE false) DfaClasses_new 0 0 0 0.

Definition with_classes (d : Dfa) (k : DfaClasses) : Dfa :=
  mkDfa (trans d) (has_output d) k (in_field d) (in_quoted d) (final_field d) (final_record d).

(** [checked_mul] on [u8], unwrapped. *)
Definition new_state (d : Dfa) (s : NfaState) : res unit DfaState :=
  let nclasses := num_classes (classes d) `mod` 256 in
  let idx := NfaState_code s * nclasses in
  if bool_decide (idx < 256) then Ok idx else Panic.

Definition new_state_final_end (d : Dfa) : res unit DfaState := new_state d StartRecord.
Definition new_state_final_record (d : Dfa) : res unit DfaState := new_state d EndRecord.

Definition get_output (d : Dfa) (state : DfaState) (c : u8) : res unit (DfaState * bool) :=
  let? cls := at_index (class_map (classes d)) (byte_ix c) in
  let idx := state + cls in
  let? t := at_index (trans d) idx in
  let? o := at_index (has_output d) idx in
  Ok (t, o).

Definition dfa_set (d : Dfa) (from : DfaState) (c : u8) (to : DfaState) (output : bool)
    : res unit Dfa :=
  let? cls := at_index (class_map (classes d)) (byte_ix c) in
  let idx := from + cls in
  let? t := write_at (trans d) idx to in
  let? o := write_at (has_output d) idx output in
  Ok (mkDfa t o (classes d) (in_field d) (in_quoted d) (final_field d) (final_record d)).

Definition finish (d : Dfa) : res unit Dfa :=
  let? f := new_state d InField in
  let? q := new_state d InQuotedField in
  let? ff := new_state d EndFieldDelim in
  let? fr := new_state d EndRecord in
  Ok (mkDfa (trans d) (has_output d) (classes d) f q ff fr).

(** [Clone for Dfa]: the table is copied, everything else is that of [Dfa::new]. *)
Definition Dfa_clone (d : Dfa) : Dfa :=
  mkDfa (trans d) (has_output Dfa_new) (classes Dfa_new) (in_field Dfa_new) (in_quoted Dfa_new)
    (final_field Dfa_new) (final_record Dfa_new).

(** The body of the loops of [build_dfa] over states and bytes. *)
Definition set_cell (cfg : CsvConfig) (state : NfaState) (d : Dfa) (c : u8) : res unit Dfa :=
  let? nfa_result := consume_byte EPSILON_CHAIN cfg c (state, Epsilon) in
  let? from := new_state d state in
  let? to := new_state d nfa_result.1 in
  dfa_set d from c to (bool_decide (nfa_result.2 = CopyToOutput)).

(** [build_dfa]: the new table, and the state to start from. *)
Definition build_dfa (cfg : CsvConfig) (d : Dfa) : res unit (Dfa * DfaState) :=
  let? k := for_each classes_add (special_bytes cfg) (classes d) in
  let? d := for_each (λ d state, for_each (set_cell cfg state) all_bytes d) NFA_STATES
    (with_classes d k) in
  let? start := new_state d StartRecord in
  let? d := finish d in
  Ok (d, start).

(** [scan_and_copy], on the bytes of [input] from [nin] and the room in [output]
    from [nout]. *)
Fixpoint scan_and_copy (fuel : nat) (k : DfaClasses) (input : list u8) (nin : nat)
    (output : list u8) (nout : nat) : res unit (nat * nat * list u8) :=
  match fuel with
  | O => NoFuel
  | S fuel =>
      match input !! nin with
      | Some b =>
          if bool_decide (nout < length output) then
            let? cls := at_index (class_map k) (byte_ix b) in
            if bool_decide (cls = 0)
            then scan_and_copy fuel k input (nin + 1) (<[nout := b]> output) (nout + 1)
            else Ok (nin, nout, output)
          else Ok (nin, nout, output)
      | None => Ok (nin, nout, output)
      end
  end.

(** * Classes *)

Lemma byte_ix_range b : byte_ix b < CLASS_SIZE.
Proof. unfold byte_ix, CLASS_SIZE. pose proof (byte_val_range b). lia. Qed.

Lemma byte_ix_inj b c : byte_ix b = byte_ix c → b = c.
Proof.
  unfold byte_ix. pose proof (byte_val_range b). pose proof (byte_val_range c).
  intros H'. apply byte_val_inj. lia.
Qed.

Lemma all_bytes_spec b : b ∈ all_bytes.
Proof.
  unfold all_bytes. apply list_elem_of_fmap. exists (byte_ix b). pose proof (byte_val_range b).
  split; [|apply elem_of_seq; unfold byte_ix; lia].
  unfold byte_ix. rewrite Z2Nat.id by lia. symmetry. apply byte_of_val.
Qed.

(** What the classes are after the bytes [l] have been added. *)
Definition classes_inv (l : list u8) (k : DfaClasses) : Prop :=
  length (class_map k) = CLASS_SIZE ∧ next_class k = S (length l) ∧
  ∀ c, ∃ n, class_map k !! byte_ix c = Some n ∧ n ≤ length l ∧ (n = 0 ↔ c ∉ l) ∧
    ∀ c', class_map k !! byte_ix c' = Some n → n ≠ 0 → c = c'.

Lemma classes_new_inv : classes_inv [] DfaClasses_new.
Proof.
  split_and!; [done|done|]. intros c. exists 0.
  split_and!; [|done| |done].
  - apply lookup_replicate. split; [done|apply byte_ix_range].
  - split; [|done]. intros _. apply not_elem_of_nil.
Qed.

Lemma classes_add_inv l k b :
  classes_inv l k → length l < 255 → ∃ k', classes_add k b = Ok k' ∧ classes_inv (l ++ [b]) k'.
Proof.
  intros (Hlen & Hn & Hc) Hl. unfold classes_add. rewrite bool_decide_false by (unfold CLASS_SIZE; lia).
  rewrite write_at_Ok by (rewrite Hlen; apply byte_ix_range). cbn [res_bind].
  eexists. split; [done|]. split_and!; cbn [class_map next_class].
  - by rewrite length_insert.
  - rewrite Hn, length_app. simpl. lia.
  - rewrite Nat.mod_small by lia. intros c. rewrite length_app. simpl.
    destruct (decide (c = b)) as [->|Hcb].
    + exists (next_class k). rewrite list_lookup_insert_eq by (rewrite Hlen; apply byte_ix_range).
      split_and!; [done|lia| |].
      * split; [lia|]. intros []. set_solver.
      * intros c' Hc' _. destruct (decide (byte_ix c' = byte_ix b)) as [He|He]; [by apply byte_ix_inj in He|].
        rewrite list_lookup_insert_ne in Hc' by done. destruct (Hc c') as (n & Hn' & Hle & _).
        rewrite Hn' in Hc'. simplify_eq. lia.
    + destruct (Hc c) as (n & Hc' & Hle & H0 & Hinj). exists n.
      rewrite list_lookup_insert_ne by (intros He; by apply byte_ix_inj in He).
      split_and!; [done|lia| |].
      * rewrite H0. set_solver.
      * intros c' Hc'' Hn0. destruct (decide (c' = b)) as [->|]; [|apply Hinj; [|done]].
        -- rewrite list_lookup_insert_eq in Hc'' by (rewrite Hlen; apply byte_ix_range).
           simplify_eq. lia.
        -- by rewrite list_lookup_insert_ne in Hc'' by (intros He; by apply byte_ix_inj in He).
Qed.

Lemma classes_add_all_inv l l' k :
  classes_inv l k → length (l ++ l') ≤ 255 →
  ∃ k', for_each classes_add l' k = Ok k' ∧ classes_inv (l ++ l') k'.
Proof.
  revert l k. induction l' as [|b l' IH]; intros l k Hk Hl; simpl.
  - exists k. by rewrite app_nil_r.
  - destruct (classes_add_inv l k b Hk) as (k1 & E1 & Hk1). { rewrite length_app in Hl. simpl in Hl. lia. }
    destruct (IH (l ++ [b]) k1 Hk1) as (k2 & E2 & Hk2). { by rewrite <- app_assoc. }
    exists k2. rewrite E1. simpl. rewrite E2. split; [done|]. by rewrite <- app_assoc in Hk2.
Qed.

Lemma special_bytes_length cfg : 1 ≤ length (special_bytes cfg) ≤ 6.
Proof. unfold special_bytes. destruct (quoting cfg), (escape cfg), (comment cfg), (term cfg); simpl; lia. Qed.

(** * The table *)

(** The row of a state, and the cell of a state and a byte of class [n]. *)
Definition row (cfg : CsvConfig) (s : NfaState) : nat :=
  NfaState_code s * S (length (special_bytes cfg)).

(** The shape of the table while it is built. *)
Definition table_inv (cfg : CsvConfig) (d : Dfa) : Prop :=
  classes_inv (special_bytes cfg) (classes d) ∧
  length (trans d) = TRANS_SIZE ∧ length (has_output d) = TRANS_SIZE.

(** One step of the table is one step of the automaton. *)
Definition cell_ok (cfg : CsvConfig) (s : NfaState) (c : u8) (d : Dfa) : Prop :=
  get_output d (row cfg s) c = Ok (row cfg (step cfg s c).1, (step cfg s c).2).

Lemma row_range cfg s : is_dfa_state s = true → row cfg s ≤ 63.
Proof.
  intros Hs. apply dfa_state_code in Hs. unfold row. pose proof (special_bytes_length cfg). nia.
Qed.

Lemma row_inj cfg s s' n n' :
  n ≤ length (special_bytes cfg) → n' ≤ length (special_bytes cfg) →
  row cfg s + n = row cfg s' + n' → s = s' ∧ n = n'.
Proof.
  unfold row. intros Hn Hn' H.
  assert (NfaState_code s = NfaState_code s') by nia.
  split; [by apply NfaState_code_inj|nia].
Qed.

Lemma row_le cfg s s' : row cfg s ≤ row cfg s' ↔ NfaState_code s ≤ NfaState_code s'.
Proof. unfold row. split; intros; nia. Qed.

Lemma row_eq cfg s s' : row cfg s = row cfg s' ↔ s = s'.
Proof.
  split; [|by intros ->]. intros H. destruct (row_inj cfg s s' 0 0); [lia..|done].
Qed.

Lemma new_state_eq cfg d s :
  table_inv cfg d → is_dfa_state s = true → new_state d s = Ok (row cfg s).
Proof.
  intros ((_ & Hn & _) & _) Hs. pose proof (row_range cfg s Hs) as Hr.
  pose proof (special_bytes_length cfg). unfold new_state, num_classes.
  rewrite Hn, Nat.mod_small by lia. fold (row cfg s). by rewrite bool_decide_true by lia.
Qed.

(** Writing a cell keeps the shape, sets the cell, and sets no cell of another
    state, nor of a byte of another class, to anything else. *)
Lemma set_cell_spec cfg s c d :
  table_inv cfg d → is_dfa_state s = true →
  ∃ d', set_cell cfg s d c = Ok d' ∧ table_inv cfg d' ∧ cell_ok cfg s c d' ∧
    ∀ s0 c0, config_ok cfg → state_ok cfg s0 → cell_ok cfg s0 c0 d → cell_ok cfg s0 c0 d'.
Proof.
  intros Hd Hs. pose proof Hd as (Hk & Ht & Ho).
  unfold set_cell. rewrite consume_byte_eq by done. cbn [res_bind].
  pose proof (step_eq cfg s c Hs) as Hstep.
  assert (Hs' : is_dfa_state (read_byte cfg s c).1 = true).
  { destruct s; try done; unfold read_byte, read_record_start, read_start, read_unquoted, read_term;
      repeat case_match; done. }
  rewrite !(new_state_eq cfg) by done. cbn [res_bind].
  destruct Hk as (Hlen & Hn & Hc). destruct (Hc c) as (n & Hcn & Hle & H0 & Hinj).
  pose proof (row_range cfg s Hs) as Hr. pose proof (special_bytes_length cfg) as Hsp.
  assert (Hix : row cfg s + n < TRANS_SIZE) by (unfold TRANS_SIZE; simpl; lia).
  unfold dfa_set, at_index at 1. rewrite Hcn. cbn [res_bind].
  rewrite !write_at_Ok by (rewrite ?Ht, ?Ho; done). cbn [res_bind].
  eexists. split; [reflexivity|]. split_and!.
  - split_and!; cbn [classes trans has_output]; rewrite ?length_insert; done.
  - unfold cell_ok, get_output, at_index. cbn [classes trans has_output]. rewrite Hcn. cbn [res_bind].
    rewrite !list_lookup_insert_eq by (rewrite ?Ht, ?Ho; done). by rewrite Hstep.
  - intros s0 c0 Hcfg Hs0. unfold cell_ok, get_output, at_index. cbn [classes trans has_output].
    destruct (Hc c0) as (n0 & Hcn0 & Hle0 & H00 & Hinj0). rewrite Hcn0. cbn [res_bind].
    destruct (decide (row cfg s + n = row cfg s0 + n0)) as [He|He].
    + destruct (row_inj cfg s s0 n n0 Hle Hle0 He) as [<- <-].
      rewrite !list_lookup_insert_eq by (rewrite ?Ht, ?Ho; done). intros _. cbn [res_bind].
      destruct (decide (n = 0)) as [->|Hn0].
      * rewrite step_eq by done.
        rewrite (read_byte_plain cfg s c c0); [done|done|done|by apply H0|by apply H00].
      * rewrite <- (Hinj c0 Hcn0 Hn0). by rewrite Hstep.
    + by rewrite !list_lookup_insert_ne by done.
Qed.

(** What a reader's table promises to the reader: the interface that [CsvReader]
    is proved against. *)
Record dfa_ok (cfg : CsvConfig) (d : Dfa) : Prop := {
  dfa_table : table_inv cfg d;
  dfa_step : config_ok cfg → ∀ s c, state_ok cfg s → cell_ok cfg s c d;
  dfa_in_field : in_field d = row cfg InField;
  dfa_in_quoted : in_quoted d = row cfg InQuotedField;
  dfa_final_field : final_field d = row cfg EndFieldDelim;
  dfa_final_record : final_record d = row cfg EndRecord;
}.

Lemma finish_spec cfg d :
  table_inv cfg d → (config_ok cfg → ∀ s c, state_ok cfg s → cell_ok cfg s c d) →
  ∃ d', finish d = Ok d' ∧ dfa_ok cfg d'.
Proof.
  intros Hd Hc. unfold finish. rewrite !(new_state_eq cfg) by done. cbn [res_bind].
  eexists. split; [reflexivity|]. by split.
Qed.

(** Filling one row. *)
Lemma fill_row_spec cfg s d :
  table_inv cfg d → is_dfa_state s = true →
  ∃ d', for_each (set_cell cfg s) all_bytes d = Ok d' ∧ table_inv cfg d' ∧
    (∀ c, config_ok cfg → state_ok cfg s → cell_ok cfg s c d') ∧
    ∀ s0 c0, config_ok cfg → state_ok cfg s0 → cell_ok cfg s0 c0 d → cell_ok cfg s0 c0 d'.
Proof.
  intros Hd Hs.
  assert (Hrow : ∀ s0 c0, ∃ d', for_each (set_cell cfg s) all_bytes d = Ok d' ∧ table_inv cfg d' ∧
    ((config_ok cfg ∧ state_ok cfg s0 → cell_ok cfg s0 c0 d) →
      config_ok cfg ∧ state_ok cfg s0 → cell_ok cfg s0 c0 d') ∧
    (s = s0 → config_ok cfg ∧ state_ok cfg s0 → cell_ok cfg s0 c0 d')).
  { intros s0 c0.
    destruct (for_each_inv (set_cell cfg s) (table_inv cfg)
      (λ d, config_ok cfg ∧ state_ok cfg s0 → cell_ok cfg s0 c0 d) all_bytes d) as (d' & E & Hd' & Hq & He).
    - intros a x _ Ha. destruct (set_cell_spec cfg s x a Ha Hs) as (a' & E & Ha' & _ & Hk).
      exists a'. split_and!; [done..|]. intros Hq [Hcfg Hs0]. apply Hk; [done..|]. by apply Hq.
    - done.
    - exists d'. split_and!; [done|done|done|]. intros ->. apply He. exists c0.
      split; [apply all_bytes_spec|]. intros a a' Ha E' _.
      destruct (set_cell_spec cfg s0 c0 a Ha Hs) as (a'' & E'' & _ & Hcell & _). congruence. }
  destruct (Hrow s x00) as (d' & E & Hd' & _). exists d'. split_and!; [done|done| |].
  - intros c Hcfg Hs'. destruct (Hrow s c) as (d'' & E' & _ & _ & H). rewrite E in E'. simplify_eq.
    by apply H.
  - intros s0 c0 Hcfg Hs0 Hcell. destruct (Hrow s0 c0) as (d'' & E' & _ & H & _).
    rewrite E in E'. simplify_eq. by apply H.
Qed.

Lemma fill_table_spec cfg d :
  table_inv cfg d →
  ∃ d', for_each (λ d state, for_each (set_cell cfg state) all_bytes d) NFA_STATES d = Ok d' ∧
    table_inv cfg d' ∧ (config_ok cfg → ∀ s c, state_ok cfg s → cell_ok cfg s c d').
Proof.
  intros Hd.
  assert (Hall : ∀ s c, ∃ d',
    for_each (λ d state, for_each (set_cell cfg state) all_bytes d) NFA_STATES d = Ok d' ∧
    table_inv cfg d' ∧ (config_ok cfg → state_ok cfg s → cell_ok cfg s c d')).
  { intros s c.
    destruct (for_each_inv (λ d state, for_each (set_cell cfg state) all_bytes d) (table_inv cfg)
      (λ d, config_ok cfg → state_ok cfg s → cell_ok cfg s c d) NFA_STATES d) as (d' & E & Hd' & _ & He).
    - intros a x Hx Ha. apply NFA_STATES_spec in Hx.
      destruct (fill_row_spec cfg x a Ha Hx) as (a' & E & Ha' & _ & Hk). exists a'.
      split_and!; [done..|]. intros Hq Hcfg Hs. apply Hk; [done..|]. by apply Hq.
    - done.
    - exists d'. split_and!; [done|done|]. intros Hcfg Hs. apply He; [|done..]. exists s.
      split; [by apply NFA_STATES_spec; destruct Hs|]. intros a a' Ha E'.
      destruct (fill_row_spec cfg s a Ha) as (a'' & E'' & _ & Hcell & _); [by destruct Hs|].
      rewrite E'' in E'. simplify_eq. by apply Hcell. }
  destruct (Hall StartRecord x00) as (d' & E & Hd' & _). exists d'. split_and!; [done|done|].
  intros Hcfg s c Hs. destruct (Hall s c) as (d'' & E' & _ & H). rewrite E in E'. simplify_eq. by apply H.
Qed.

(** [build_dfa] never panics, whatever the settings; the table has room for every
    state and class; and for settings that tell line feeds apart when there are
    comments, the table is the automaton. *)
Lemma build_dfa_spec cfg :
  ∃ d, build_dfa cfg Dfa_new = Ok (d, row cfg StartRecord) ∧ dfa_ok cfg d.
Proof.
  unfold build_dfa. pose proof (special_bytes_length cfg).
  destruct (classes_add_all_inv [] (special_bytes cfg) DfaClasses_new classes_new_inv) as (k & E & Hk);
    [rewrite app_nil_l; lia|].
  cbn [classes Dfa_new]. rewrite E. cbn [res_bind].
  destruct (fill_table_spec cfg (with_classes Dfa_new k)) as (d & E2 & Hd & Hcell); [done|].
  rewrite E2. cbn [res_bind]. rewrite (new_state_eq cfg) by done. cbn [res_bind].
  destruct (finish_spec cfg d Hd Hcell) as (d' & E3 & Hd'). exists d'. rewrite E3. by split.
Qed.

(** The class of a byte is 0 exactly if the byte is not special. *)
Lemma dfa_class cfg d c :
  dfa_ok cfg d → ∃ n, at_index (E := unit) (class_map (classes d)) (byte_ix c) = Ok n ∧
    (n = 0 ↔ c ∉ special_bytes cfg).
Proof.
  intros H. destruct (dfa_table _ _ H) as ((_ & _ & Hc) & _). destruct (Hc c) as (n & E & _ & H0 & _).
  exists n. unfold at_index. by rewrite E.
Qed.
