(* ===== verification/CsvReader.v ===== *)
(** csv-core's reader ([csv-core/src/reader.rs]): [read_field] and [read_record]
    by the table of [CsvDfa] and by the automaton of [CsvNfa], on buffers that
    the caller provides; what one call does in terms of a parser that reads one
    byte at a time, and what a series of calls does. *)
From Stdlib Require Import ZArith Lia Strings.Byte.
From stdpp Require Import base list numbers option sets.
From S2P Require Import Prelude.
From S2P Require Import CsvNfa.
From S2P Require Import CsvDfa.
Open Scope rust_scope.

Record CsvReader : Type := mkCsvReader {
  config : CsvConfig;
  dfa : Dfa;
  dfa_state : DfaState;
  nfa_state : NfaState;
  use_nfa : bool;
  line : Z;
  has_read : bool;
  output_pos : nat
}.

Definition CsvReader_default : CsvReader :=
  mkCsvReader default_config Dfa_new DfaState_start StartRecord false 1 false 0.

(** What the setters of [ReaderBuilder] change. *)
Definition with_config (r : CsvReader) (cfg : CsvConfig) (nfa : bool) : CsvReader :=
  mkCsvReader cfg (dfa r) (dfa_state r) (nfa_state r) nfa (line r) (has_read r) (output_pos r).

Definition with_dfa (r : CsvReader) (d : Dfa) (s : DfaState) : CsvReader :=
  mkCsvReader (config r) d s (nfa_state r) (use_nfa r) (line r) (has_read r) (output_pos r).

Definition with_nfa_state (r : CsvReader) (s : NfaState) : CsvReader :=
  mkCsvReader (config r) (dfa r) (dfa_state r) s (use_nfa r) (line r) (has_read r) (output_pos r).

Definition with_line (r : CsvReader) (l : Z) : CsvReader :=
  mkCsvReader (config r) (dfa r) (dfa_state r) (nfa_state r) (use_nfa r) l (has_read r) (output_pos r).

Definition with_has_read (r : CsvReader) (b : bool) : CsvReader :=
  mkCsvReader (config r) (dfa r) (dfa_state r) (nfa_state r) (use_nfa r) (line r) b (output_pos r).

Definition with_output_pos (r : CsvReader) (n : nat) : CsvReader :=
  mkCsvReader (config r) (dfa r) (dfa_state r) (nfa_state r) (use_nfa r) (line r) (has_read r) n.

(** The derived [Clone], which uses that of [Dfa]. *)
Definition CsvReader_clone (r : CsvReader) : CsvReader :=
  with_dfa r (Dfa_clone (dfa r)) (dfa_state r).

(** [ReaderBuilder::build] after the setters have been called. *)
Definition build (cfg : CsvConfig) (nfa : bool) : res unit CsvReader :=
  let rdr := CsvReader_clone (with_config CsvReader_default cfg nfa) in
  let? built := build_dfa (config rdr) (dfa rdr) in
  Ok (with_dfa rdr built.1 built.2).

Definition reset (r : CsvReader) : res unit CsvReader :=
  let? s := new_state (dfa r) StartRecord in
  Ok (mkCsvReader (config r) (dfa r) s StartRecord (use_nfa r) 1 false (output_pos r)).

Inductive ReadFieldResult : Type :=
  | RF_InputEmpty | RF_OutputFull | RF_Field (record_end : bool) | RF_End.

Inductive ReadRecordResult : Type :=
  | RR_InputEmpty | RR_OutputFull | RR_OutputEndsFull | RR_Record | RR_End.

#[export] Instance ReadRecordResult_eq_dec : EqDecision ReadRecordResult.
Proof. solve_decision. Defined.

Definition is_record (x : ReadRecordResult) : bool :=
  match x with RR_Record => true | _ => false end.

Definition field_from_nfa (state : NfaState) (inpdone outdone : bool) : res unit ReadFieldResult :=
  match state with
  | End_ => Ok RF_End
  | EndRecord | CRLF => Ok (RF_Field true)
  | EndFieldDelim => Ok (RF_Field false)
  | _ =>
      if is_field_final state then Panic
      else if negb inpdone && outdone then Ok RF_OutputFull else Ok RF_InputEmpty
  end.

Definition record_from_nfa (state : NfaState) (inpdone outdone endsdone : bool)
    : res unit ReadRecordResult :=
  match state with
  | End_ => Ok RR_End
  | EndRecord | CRLF => Ok RR_Record
  | _ =>
      if is_record_final state then Panic
      else if negb inpdone && outdone then Ok RR_OutputFull
      else if negb inpdone && endsdone then Ok RR_OutputEndsFull
      else Ok RR_InputEmpty
  end.

(** [*line += (b == b'\n') as u64], in a build that wraps. *)
Definition count_line (l : Z) (b : u8) : Z :=
  ((l + if beq b LF then 1 else 0) `mod` 2 ^ 64)%Z.

(** [strip_utf8_bom]: the input without a byte order mark, and its length. *)
Definition UTF8_BOM : list u8 := [xef; xbb; xbf].

Definition strip_utf8_bom (r : CsvReader) (input : list u8) : list u8 * nat :=
  if negb (has_read r) && bool_decide (3 ≤ length input) && bool_decide (take 3 input = UTF8_BOM)
  then (drop 3 input, 3)
  else (input, 0).

Section reader.
Context (debug : bool).

Definition new_read_field_result (d : Dfa) (state : DfaState) (is_final_trans inpdone outdone : bool)
    : res unit ReadFieldResult :=
  if bool_decide (final_record d ≤ state) then Ok (RF_Field true)
  else if bool_decide (state = final_field d) then Ok (RF_Field false)
  else if is_final_trans && is_start state then Ok RF_End
  else debug_assert debug (bool_decide (state < final_field d))
    (if negb inpdone && outdone then Ok RF_OutputFull else Ok RF_InputEmpty).

Definition new_read_record_result (d : Dfa) (state : DfaState)
    (is_final_trans inpdone outdone endsdone : bool) : res unit ReadRecordResult :=
  if bool_decide (final_record d ≤ state) then Ok RR_Record
  else if is_final_trans && is_start state then Ok RR_End
  else debug_assert debug (bool_decide (state < final_record d))
    (if negb inpdone && outdone then Ok RR_OutputFull
     else if negb inpdone && endsdone then Ok RR_OutputEndsFull
     else Ok RR_InputEmpty).

Definition transition_final_dfa (r : CsvReader) (state : DfaState) : res unit DfaState :=
  if bool_decide (final_record (dfa r) ≤ state) || is_start state
  then new_state_final_end (dfa r)
  else new_state_final_record (dfa r).

(** What a call of [read_record] gives back: its result with the numbers of bytes
    read, bytes written and ends written, the two buffers, and the reader. *)
Record record_call : Type := mkRecordCall {
  rc_result : ReadRecordResult;
  rc_nin : nat;
  rc_nout : nat;
  rc_nend : nat;
  rc_output : list u8;
  rc_ends : list nat;
  rc_reader : CsvReader
}.

(** The local variables of the loop of [read_record_dfa]. *)
Record loop_state : Type := mkLoop {
  l_nin : nat; l_nout : nat; l_nend : nat;
  l_state : DfaState; l_line : Z;
  l_output : list u8; l_ends : list nat
}.

Fixpoint record_loop (fuel : nat) (d : Dfa) (pos : nat) (input : list u8) (l : loop_state)
    : res unit loop_state :=
  match fuel with
  | O => NoFuel
  | S fuel =>
      match input !! l_nin l with
      | Some b =>
          if bool_decide (l_nout l < length (l_output l)) && bool_decide (l_nend l < length (l_ends l))
          then
            let? so := get_output d (l_state l) b in
            let '(state, has_out) := so in
            let line := count_line (l_line l) b in
            let output := if has_out then <[l_nout l := b]> (l_output l) else l_output l in
            let nout := if has_out then l_nout l + 1 else l_nout l in
            let nin := l_nin l + 1 in
            let final := bool_decide (final_field d ≤ state) in
            let ends := if final then <[l_nend l := pos + nout]> (l_ends l) else l_ends l in
            let nend := if final then l_nend l + 1 else l_nend l in
            if final && bool_decide (final_field d < state)
            then Ok (mkLoop nin nout nend state line output ends)
            else if bool_decide (state = in_field d) || bool_decide (state = in_quoted d) then
              let? scanned := scan_and_copy (S (length input)) (classes d) input nin output nout in
              let '(nin, nout, output) := scanned in
              record_loop fuel d pos input (mkLoop nin nout nend state line output ends)
            else record_loop fuel d pos input (mkLoop nin nout nend state line output ends)
          else Ok l
      | None => Ok l
      end
  end.

Definition read_record_dfa (r : CsvReader) (input output : list u8) (ends : list nat)
    : res unit record_call :=
  if bool_decide (input = []) then
    let? s := transition_final_dfa r (dfa_state r) in
    let? result := new_read_record_result (dfa r) s true false false false in
    match result with
    | RR_Record =>
        if bool_decide (ends = []) then Ok (mkRecordCall RR_OutputEndsFull 0 0 0 output ends r)
        else
          let ends := <[0 := output_pos r]> ends in
          Ok (mkRecordCall result 0 0 1 output ends (with_output_pos (with_dfa r (dfa r) s) 0))
    | _ => Ok (mkRecordCall result 0 0 0 output ends (with_dfa r (dfa r) s))
    end
  else if bool_decide (output = []) then Ok (mkRecordCall RR_OutputFull 0 0 0 output ends r)
  else if bool_decide (ends = []) then Ok (mkRecordCall RR_OutputEndsFull 0 0 0 output ends r)
  else
    let? l := record_loop (S (length input)) (dfa r) (output_pos r) input
      (mkLoop 0 0 0 (dfa_state r) (line r) output ends) in
    let? result := new_read_record_result (dfa r) (l_state l) false
      (bool_decide (length input ≤ l_nin l)) (bool_decide (length (l_output l) ≤ l_nout l))
      (bool_decide (length (l_ends l) ≤ l_nend l)) in
    let r := with_line (with_dfa r (dfa r) (l_state l)) (l_line l) in
    let pos := if is_record result then 0 else output_pos r + l_nout l in
    Ok (mkRecordCall result (l_nin l) (l_nout l) (l_nend l) (l_output l) (l_ends l)
      (with_output_pos r pos)).
(** [read_record_nfa]; its loop also goes round on epsilon moves. *)
Record nfa_loop_state : Type := mkNfaLoop {
  n_nin : nat; n_nout : nat; n_nend : nat;
  n_state : NfaState;
  n_output : list u8; n_ends : list nat
}.

Fixpoint record_loop_nfa (fuel : nat) (cfg : CsvConfig) (input : list u8) (l : nfa_loop_state)
    : res unit nfa_loop_state :=
  match fuel with
  | O => NoFuel
  | S fuel =>
      match input !! n_nin l with
      | Some b =>
          if bool_decide (n_nout l < length (n_output l)) && bool_decide (n_nend l < length (n_ends l))
          then
            let '(s, io) := transition_nfa cfg (n_state l) b in
            let '(output, nout, nin) := match io with
              | CopyToOutput => (<[n_nout l := b]> (n_output l), n_nout l + 1, n_nin l + 1)
              | Discard => (n_output l, n_nout l, n_nin l + 1)
              | Epsilon => (n_output l, n_nout l, n_nin l)
              end in
            if is_field_final s then
              let ends := <[n_nend l := nout]> (n_ends l) in
              let l := mkNfaLoop nin nout (n_nend l + 1) s output ends in
              if bool_decide (s = EndFieldDelim) then record_loop_nfa fuel cfg input l else Ok l
            else record_loop_nfa fuel cfg input (mkNfaLoop nin nout (n_nend l) s output (n_ends l))
          else Ok l
      | None => Ok l
      end
  end.

Definition read_record_nfa (r : CsvReader) (input output : list u8) (ends : list nat)
    : res unit record_call :=
  if bool_decide (input = []) then
    let s := transition_final_nfa (nfa_state r) in
    let? result := record_from_nfa s false false false in
    match result with
    | RR_Record =>
        if bool_decide (ends = []) then Ok (mkRecordCall RR_OutputEndsFull 0 0 0 output ends r)
        else
          let ends := <[0 := output_pos r]> ends in
          Ok (mkRecordCall result 0 0 1 output ends (with_output_pos (with_nfa_state r s) 0))
    | _ => Ok (mkRecordCall result 0 0 0 output ends (with_nfa_state r s))
    end
  else if bool_decide (output = []) then Ok (mkRecordCall RR_OutputFull 0 0 0 output ends r)
  else if bool_decide (ends = []) then Ok (mkRecordCall RR_OutputEndsFull 0 0 0 output ends r)
  else
    let? l := record_loop_nfa (EPSILON_CHAIN * S (length input)) (config r) input
      (mkNfaLoop 0 (output_pos r) 0 (nfa_state r) output ends) in
    let? result := record_from_nfa (n_state l) (bool_decide (length input ≤ n_nin l))
      (bool_decide (length (n_output l) ≤ n_nout l)) (bool_decide (length (n_ends l) ≤ n_nend l)) in
    Ok (mkRecordCall result (n_nin l) (n_nout l) (n_nend l) (n_output l) (n_ends l)
      (with_output_pos (with_nfa_state r (n_state l)) (if is_record result then 0 else n_nout l))).

Definition read_record (r : CsvReader) (input output : list u8) (ends : list nat)
    : res unit record_call :=
  let '(input, bom_nin) := strip_utf8_bom r input in
  let? c := if use_nfa r then read_record_nfa r input output ends
            else read_record_dfa r input output ends in
  Ok (mkRecordCall (rc_result c) (rc_nin c + bom_nin) (rc_nout c) (rc_nend c) (rc_output c)
    (rc_ends c) (with_has_read (rc_reader c) true)).

(** [read_field]. *)
Record field_call : Type := mkFieldCall {
  fc_result : ReadFieldResult;
  fc_nin : nat;
  fc_nout : nat;
  fc_output : list u8;
  fc_reader : CsvReader
}.

Fixpoint field_loop (fuel : nat) (d : Dfa) (input : list u8) (nin nout : nat) (state : DfaState)
    (line : Z) (output : list u8) : res unit (nat * nat * DfaState * Z * list u8) :=
  match fuel with
  | O => NoFuel
  | S fuel =>
      match input !! nin with
      | Some b =>
          if bool_decide (nout < length output) then
            let line := count_line line b in
            let? so := get_output d state b in
            let '(state, has_out) := so in
            let output := if has_out then <[nout := b]> output else output in
            let nout := if has_out then nout + 1 else nout in
            if bool_decide (final_field d ≤ state) then Ok (nin + 1, nout, state, line, output)
            else field_loop fuel d input (nin + 1) nout state line output
          else Ok (nin, nout, state, line, output)
      | None => Ok (nin, nout, state, line, output)
      end
  end.

Definition read_field_dfa (r : CsvReader) (input output : list u8) : res unit field_call :=
  if bool_decide (input = []) then
    let? s := transition_final_dfa r (dfa_state r) in
    let? result := new_read_field_result (dfa r) s true false false in
    Ok (mkFieldCall result 0 0 output (with_dfa r (dfa r) s))
  else if bool_decide (output = []) then Ok (mkFieldCall RF_OutputFull 0 0 output r)
  else
    let? l := field_loop (S (length input)) (dfa r) input 0 0 (dfa_state r) (line r) output in
    let '(nin, nout, state, line, output) := l in
    let? result := new_read_field_result (dfa r) state false
      (bool_decide (length input ≤ nin)) (bool_decide (length output ≤ nout)) in
    Ok (mkFieldCall result nin nout output (with_line (with_dfa r (dfa r) state) line)).

Fixpoint field_loop_nfa (fuel : nat) (cfg : CsvConfig) (input : list u8) (nin nout : nat)
    (state : NfaState) (output : list u8) : res unit (nat * nat * NfaState * list u8) :=
  match fuel with
  | O => NoFuel
  | S fuel =>
      match input !! nin with
      | Some b =>
          if bool_decide (nout < length output) then
            let '(s, io) := transition_nfa cfg state b in
            let '(output, nout, nin) := match io with
              | CopyToOutput => (<[nout := b]> output, nout + 1, nin + 1)
              | Discard => (output, nout, nin + 1)
              | Epsilon => (output, nout, nin)
              end in
            if is_field_final s then Ok (nin, nout, s, output)
            else field_loop_nfa fuel cfg input nin nout s output
          else Ok (nin, nout, state, output)
      | None => Ok (nin, nout, state, output)
      end
  end.

Definition read_field_nfa (r : CsvReader) (input output : list u8) : res unit field_call :=
  if bool_decide (input = []) then
    let s := transition_final_nfa (nfa_state r) in
    let? result := field_from_nfa s false false in
    Ok (mkFieldCall result 0 0 output (with_nfa_state r s))
  else if bool_decide (output = []) then Ok (mkFieldCall RF_OutputFull 0 0 output r)
  else
    let? l := field_loop_nfa (EPSILON_CHAIN * S (length input)) (config r) input 0 0
      (nfa_state r) output in
    let '(nin, nout, state, output) := l in
    let? result := field_from_nfa state (bool_decide (length input ≤ nin))
      (bool_decide (length output ≤ nout)) in
    Ok (mkFieldCall result nin nout output (with_nfa_state r state)).

Definition read_field (r : CsvReader) (input output : list u8) : res unit field_call :=
  let '(input, bom_nin) := strip_utf8_bom r input in
  let? c := if use_nfa r then read_field_nfa r input output else read_field_dfa r input output in
  Ok (mkFieldCall (fc_result c) (fc_nin c + bom_nin) (fc_nout c) (fc_output c)
    (with_has_read (fc_reader c) true)).

End reader.
