(* ===== verification/CsvStream.v ===== *)
(** What csv-core's reader computes: a parser that reads one byte at a time and
    knows no buffers, and the calls of [read_record] in its terms. *)
From Stdlib Require Import ZArith Lia Strings.Byte.
From stdpp Require Import base list numbers option sets.
From S2P Require Import Prelude.
From S2P Require Import CsvNfa.
From S2P Require Import CsvDfa.
From S2P Require Import CsvReader.
Open Scope rust_scope.

(** * The parser *)

(** A record as [read_record] delivers it: the bytes of its fields in a row, and
    where each field ends. *)
Abbreviation csv_row := (list u8 * list nat)%type.

Record parser : Type := mkParser {
  p_state : NfaState;
  p_bytes : list u8;
  p_ends : list nat;
  p_done : list csv_row
}.

Definition parser_start : parser := mkParser StartRecord [] [] [].

Definition parse_byte (cfg : CsvConfig) (p : parser) (b : u8) : parser :=
  let '(s, out) := step cfg (p_state p) b in
  let bytes := p_bytes p ++ (if out then [b] else []) in
  let ends := p_ends p ++ (if is_field_final s then [length bytes] else []) in
  if is_record_final s then mkParser s [] [] (p_done p ++ [(bytes, ends)])
  else mkParser s bytes ends (p_done p).

Definition parse (cfg : CsvConfig) (p : parser) (bs : list u8) : parser :=
  foldl (parse_byte cfg) p bs.

(** Is the parser between two records? *)
Definition between (s : NfaState) : bool :=
  match s with StartRecord | EndRecord | CRLF => true | _ => false end.

(** The end of the input ends the record that is being parsed. *)
Definition finish_parse (p : parser) : parser :=
  if between (p_state p) then p
  else mkParser EndRecord [] []
    (p_done p ++ [(p_bytes p, p_ends p ++ [length (p_bytes p)])]).

(** The rows of a whole input. *)
Definition parse_all (cfg : CsvConfig) (bs : list u8) : list csv_row :=
  p_done (finish_parse (parse cfg parser_start bs)).

(** States in which nothing of a record has been read. *)
Definition idle (s : NfaState) : bool := between s || bool_decide (s = InComment).

Definition parser_wf (cfg : CsvConfig) (p : parser) : Prop :=
  state_ok cfg (p_state p) ∧ (idle (p_state p) = true → p_bytes p = [] ∧ p_ends p = []).

Lemma parser_start_wf cfg : parser_wf cfg parser_start.
Proof. by split; [split_and!|]. Qed.

Lemma parse_app cfg p bs bs' : parse cfg p (bs ++ bs') = parse cfg (parse cfg p bs) bs'.
Proof. apply foldl_app. Qed.

Lemma parse_snoc cfg p bs b : parse cfg p (bs ++ [b]) = parse_byte cfg (parse cfg p bs) b.
Proof. apply parse_app. Qed.

Lemma parse_byte_state cfg p b : p_state (parse_byte cfg p b) = (step cfg (p_state p) b).1.
Proof. unfold parse_byte. destruct (step cfg (p_state p) b) as [s o]. by destruct (is_record_final s). Qed.

Lemma step_idle cfg s b :
  is_dfa_state s = true → idle (step cfg s b).1 = true → is_record_final (step cfg s b).1 = false →
  idle s = true ∧ (step cfg s b).2 = false ∧ is_field_final (step cfg s b).1 = false.
Proof.
  intros Hs. rewrite step_eq by done. cbn [fst snd].
  destruct s; try done; unfold read_byte, read_record_start, read_start, read_unquoted, read_term;
    repeat case_match; simpl; try done; auto.
Qed.

Lemma parse_byte_wf cfg p b : parser_wf cfg p → parser_wf cfg (parse_byte cfg p b).
Proof.
  intros (Hs & Hi). split; [by rewrite parse_byte_state; apply step_state_ok|].
  pose proof (step_idle cfg (p_state p) b (proj1 Hs)) as Hstep. unfold parse_byte.
  destruct (step cfg (p_state p) b) as [s o]. cbn [fst snd] in Hstep.
  destruct (is_record_final s) eqn:Hr; [done|]. simpl. intros Hidle.
  destruct Hstep as (Hi' & -> & ->); [done..|]. destruct (Hi Hi') as [-> ->]. done.
Qed.

Lemma parse_wf cfg p bs : parser_wf cfg p → parser_wf cfg (parse cfg p bs).
Proof. revert p. induction bs as [|b bs IH]; intros p H; [done|]. simpl. by apply IH, parse_byte_wf. Qed.

Lemma parse_byte_done cfg p b : p_done p `prefix_of` p_done (parse_byte cfg p b).
Proof.
  unfold parse_byte. destruct (step cfg (p_state p) b) as [s o].
  destruct (is_record_final s); simpl; [by apply prefix_app_r|done].
Qed.

Lemma parse_done cfg p bs : p_done p `prefix_of` p_done (parse cfg p bs).
Proof.
  revert p. induction bs as [|b bs IH]; intros p; [done|]. simpl.
  etrans; [apply parse_byte_done|apply IH].
Qed.

Lemma finish_done p : p_done p `prefix_of` p_done (finish_parse p).
Proof. unfold finish_parse. destruct (between _); simpl; [done|by apply prefix_app_r]. Qed.

(** ** Starting again between two records *)

(** The rows that are done are only handed through. *)
Definition after_rows (d : list csv_row) (p : parser) : parser :=
  mkParser (p_state p) (p_bytes p) (p_ends p) (d ++ p_done p).

Lemma parse_byte_after_rows cfg d p b : parse_byte cfg (after_rows d p) b = after_rows d (parse_byte cfg p b).
Proof.
  unfold parse_byte, after_rows. cbn [p_state p_bytes p_ends p_done]. destruct (step cfg (p_state p) b) as [s o].
  destruct (is_record_final s); cbn [p_state p_bytes p_ends p_done]; by rewrite ?app_assoc.
Qed.

Lemma parse_after_rows cfg d p bs : parse cfg (after_rows d p) bs = after_rows d (parse cfg p bs).
Proof. revert p. induction bs as [|b bs IH]; intros p; [done|]. simpl. by rewrite parse_byte_after_rows, IH. Qed.

Lemma finish_after_rows d p : p_done (finish_parse (after_rows d p)) = d ++ p_done (finish_parse p).
Proof. unfold finish_parse, after_rows. cbn. destruct (between _); cbn; by rewrite ?app_assoc. Qed.

(** Between two records a parser goes on as one that starts with what is left. *)
Lemma parse_between cfg p rest :
  state_ok cfg (p_state p) → between (p_state p) = true → p_bytes p = [] → p_ends p = [] →
  p_done (finish_parse (parse cfg p rest)) = p_done p ++ parse_all cfg rest.
Proof.
  destruct p as [s bytes ends rows]. cbn. intros (_ & _ & Hcrlf) Hs -> ->. unfold parse_all.
  assert (Hdone : mkParser s [] [] rows = after_rows rows (mkParser s [] [] [])).
  { unfold after_rows. cbn. by rewrite app_nil_r. }
  rewrite Hdone, parse_after_rows, finish_after_rows. f_equal. unfold parser_start.
  destruct rest as [|b rest]; [by destruct s|]. cbn [parse foldl]. do 3 f_equal.
  unfold parse_byte. cbn [p_state p_bytes p_ends p_done]. rewrite !step_eq by (by destruct s).
  assert (read_byte cfg s b = read_byte cfg StartRecord b) as ->; [|done].
  destruct s; try done. cbn. destruct (beq LF b) eqn:Hb; [|done].
  apply beq_spec in Hb as <-. unfold read_record_start. by rewrite (Hcrlf eq_refl).
Qed.

(** * One call *)

(** A buffer whose first [n] items have been overwritten by [w]. *)
Definition fills {A} (n : nat) (w old new : list A) : Prop :=
  n = length w ∧ n ≤ length old ∧ new = w ++ drop n old.

Lemma fills_nil {A} (old : list A) : fills 0 [] old old.
Proof. split_and!; simpl; [done|lia|done]. Qed.

Lemma fills_length {A} n (w old new : list A) : fills n w old new → length new = length old.
Proof. intros (-> & H & ->). rewrite length_app, length_drop. lia. Qed.

Lemma fills_take {A} n (w old new : list A) : fills n w old new → take n new = w.
Proof. intros (-> & H & ->). by rewrite take_app_length. Qed.

Lemma fills_snoc {A} n (w old new : list A) x :
  fills n w old new → n < length old → fills (n + 1) (w ++ [x]) old (<[n := x]> new).
Proof.
  intros (-> & H & ->) Hn. split_and!; [by rewrite length_app|lia|].
  rewrite insert_app_r_alt, Nat.sub_diag by lia.
  destruct (drop (length w) old) as [|y rest] eqn:E.
  { apply (f_equal length) in E. rewrite length_drop in E. simpl in E. lia. }
  simpl. rewrite <- app_assoc. simpl. f_equal. f_equal.
  exact (eq_sym (drop_app_inv old (length w) [y] rest E)).
Qed.

Section call.
Context (cfg : CsvConfig) (p0 : parser) (input output0 : list u8) (ends0 : list nat).

(** The parser after [n] bytes of the input. *)
Definition after (n : nat) : parser := parse cfg p0 (take n input).

(** A call stops at the first byte after which the input is used up, a buffer is
    full, or a record has ended. *)
Definition stops (n : nat) : Prop :=
  n = length input ∨ p_done (after n) ≠ p_done p0 ∨
  length (p_bytes (after n)) = length (p_bytes p0) + length output0 ∨
  length (p_ends (after n)) = length (p_ends p0) + length ends0.

Definition least (n : nat) : Prop := ∀ m, 0 < m → m < n → ¬ stops m.

(** The buffers hold what the parser has found since the call began. *)
Definition found (w : list u8) (es : list nat) (p : parser) : Prop :=
  (p_done p = p_done p0 ∧ p_bytes p = p_bytes p0 ++ w ∧ p_ends p = p_ends p0 ++ es) ∨
  (p_done p = p_done p0 ++ [(p_bytes p0 ++ w, p_ends p0 ++ es)] ∧ p_bytes p = [] ∧ p_ends p = [] ∧
   is_record_final (p_state p) = true).

Lemma after_S n b :
  input !! n = Some b → after (n + 1) = parse_byte cfg (after n) b.
Proof. intros H. unfold after. replace (n + 1) with (S n) by lia. by rewrite (take_S_r _ _ b), parse_snoc. Qed.

(** Where a loop is after [n] bytes, with [w] and [es] in the buffers, as long as
    no record has ended. *)
Record progress (n : nat) (w : list u8) (es : list nat) (nout : nat) (output : list u8)
    (nend : nat) (ends : list nat) : Prop := {
  pr_n : n ≤ length input;
  pr_wf : parser_wf cfg (after n);
  pr_done : p_done (after n) = p_done p0;
  pr_bytes : p_bytes (after n) = p_bytes p0 ++ w;
  pr_ends : p_ends (after n) = p_ends p0 ++ es;
  pr_output : fills nout w output0 output;
  pr_fends : fills nend es ends0 ends;
  pr_least : least n;
  pr_state : 0 < n → is_record_final (p_state (after n)) = false
}.

(** Where it is when it stops. *)
Record outcome (n : nat) (w : list u8) (es : list nat) (nout : nat) (output : list u8)
    (nend : nat) (ends : list nat) : Prop := {
  oc_n : 0 < n ≤ length input;
  oc_wf : parser_wf cfg (after n);
  oc_found : found w es (after n);
  oc_output : fills nout w output0 output;
  oc_ends : fills nend es ends0 ends;
  oc_least : least n;
  oc_stops : stops n;
  oc_record : p_done (after n) ≠ p_done p0 ↔ is_record_final (p_state (after n)) = true
}.

Lemma progress_start : parser_wf cfg p0 → progress 0 [] [] 0 output0 0 ends0.
Proof.
  intros Hp. split; try done; rewrite ?app_nil_r; try done; try lia; try apply fills_nil.
  intros m H1 H2. lia.
Qed.

Lemma progress_not_stops n w es nout output nend ends b :
  progress n w es nout output nend ends →
  input !! n = Some b → nout < length output → nend < length ends → ¬ stops n.
Proof.
  intros H Hb Ho He [Hn|[Hn|[Hn|Hn]]].
  - subst. by rewrite lookup_ge_None_2 in Hb.
  - by apply Hn, H.
  - rewrite (pr_bytes _ _ _ _ _ _ _ H), length_app in Hn.
    pose proof (fills_length _ _ _ _ (pr_output _ _ _ _ _ _ _ H)).
    destruct (pr_output _ _ _ _ _ _ _ H) as (E & _). lia.
  - rewrite (pr_ends _ _ _ _ _ _ _ H), length_app in Hn.
    pose proof (fills_length _ _ _ _ (pr_fends _ _ _ _ _ _ _ H)).
    destruct (pr_fends _ _ _ _ _ _ _ H) as (E & _). lia.
Qed.

(** What the loops do with one byte. *)
Lemma progress_step n w es nout output nend ends b s o :
  progress n w es nout output nend ends →
  input !! n = Some b → nout < length output → nend < length ends →
  step cfg (p_state (after n)) b = (s, o) →
  let output' := if o then <[nout := b]> output else output in
  let nout' := if o then nout + 1 else nout in
  let ends' := if is_field_final s then <[nend := length (p_bytes p0) + nout']> ends else ends in
  let nend' := if is_field_final s then nend + 1 else nend in
  p_state (after (n + 1)) = s ∧ ∃ w' es',
  if is_record_final s then outcome (n + 1) w' es' nout' output' nend' ends'
  else progress (n + 1) w' es' nout' output' nend' ends'.
Proof.
  intros H Hb Hno Hne Hstep. cbv zeta.
  pose proof (progress_not_stops _ _ _ _ _ _ _ _ H Hb Hno Hne) as Hstop.
  destruct H as [Hn Hwf Hd Hby Hen Hout Hend Hle Hst].
  pose proof (fills_length _ _ _ _ Hout) as Hlo. pose proof (fills_length _ _ _ _ Hend) as Hle'.
  pose proof (after_S n b Hb) as Haft.
  split; [by rewrite Haft, parse_byte_state, Hstep|].
  exists (w ++ if o then [b] else []).
  exists (es ++ if is_field_final s then [length (p_bytes p0) + (if o then nout + 1 else nout)] else []).
  assert (Hwf' : parser_wf cfg (after (n + 1))) by (rewrite Haft; by apply parse_byte_wf).
  assert (Hleast : least (n + 1)).
  { intros m H1 H2. destruct (decide (m = n)) as [->|]; [done|apply Hle; lia]. }
  apply lookup_lt_Some in Hb as Hb'.
  assert (Hf1 : fills (if o then nout + 1 else nout) (w ++ if o then [b] else []) output0
    (if o then <[nout:=b]> output else output)).
  { destruct o; [apply fills_snoc; [done|lia]|by rewrite app_nil_r]. }
  assert (Hf2 : ∀ e, fills (if is_field_final s then nend + 1 else nend)
    (es ++ if is_field_final s then [e] else []) ends0
    (if is_field_final s then <[nend:=e]> ends else ends)).
  { intros e. destruct (is_field_final s); [apply fills_snoc; [done|lia]|by rewrite app_nil_r]. }
  assert (Hlen : length (p_bytes (after n) ++ if o then [b] else [])
    = length (p_bytes p0) + (if o then nout + 1 else nout)).
  { destruct Hout as (-> & _). rewrite Hby, !length_app. destruct o; simpl; lia. }
  assert (Hpb : after (n + 1) = let bytes := p_bytes p0 ++ w ++ (if o then [b] else []) in
    let ends := p_ends p0 ++ es ++ (if is_field_final s
      then [length (p_bytes p0) + (if o then nout + 1 else nout)] else []) in
    if is_record_final s then mkParser s [] [] (p_done p0 ++ [(bytes, ends)])
    else mkParser s bytes ends (p_done p0)).
  { rewrite Haft. unfold parse_byte. rewrite Hstep, Hlen, Hd, Hby, Hen, <- !app_assoc. done. }
  cbv zeta in Hpb. destruct (is_record_final s) eqn:Hr.
  - split; [lia|done| |done|done|done| |].
    + right. by rewrite Hpb.
    + right. left. rewrite Hpb. simpl. intros Heq. apply (f_equal length) in Heq.
      rewrite length_app in Heq. simpl in Heq. lia.
    + rewrite Hpb. simpl. rewrite Hr. split; [done|]. intros _ Heq. apply (f_equal length) in Heq.
      rewrite length_app in Heq. simpl in Heq. lia.
  - split; try done; rewrite ?Hpb; try done. lia.
Qed.

(** A loop that stops without a record. *)
Lemma progress_stop n w es nout output nend ends :
  progress n w es nout output nend ends → 0 < n →
  n = length input ∨ length output ≤ nout ∨ length ends ≤ nend →
  outcome n w es nout output nend ends.
Proof.
  intros [Hn Hwf Hd Hby Hen Hout Hend Hle Hst] Hpos Hstop.
  pose proof (fills_length _ _ _ _ Hout) as Hlo. pose proof (fills_length _ _ _ _ Hend) as Hle'.
  split; try done.
  - by left.
  - destruct Hout as (-> & ? & _), Hend as (-> & ? & _). unfold stops.
    rewrite Hby, Hen, !length_app. destruct Hstop as [?|[?|?]]; [by left|right; right; left; lia|].
    right; right; right. lia.
  - rewrite Hst by done. split; [|done]. by intros [].
Qed.

(** The input determines where a call stops. *)
Lemma outcome_unique n1 w1 es1 nout1 output1 nend1 ends1 n2 w2 es2 nout2 output2 nend2 ends2 :
  outcome n1 w1 es1 nout1 output1 nend1 ends1 → outcome n2 w2 es2 nout2 output2 nend2 ends2 →
  n1 = n2 ∧ nout1 = nout2 ∧ output1 = output2 ∧ nend1 = nend2 ∧ ends1 = ends2.
Proof.
  intros H1 H2. assert (n1 = n2) as <-.
  { destruct (decide (n1 < n2)); [|destruct (decide (n2 < n1)); [|lia]].
    - exfalso. apply (oc_least _ _ _ _ _ _ _ H2 n1); [apply H1|done|apply H1].
    - exfalso. apply (oc_least _ _ _ _ _ _ _ H1 n2); [apply H2|done|apply H2]. }
  assert (w1 = w2 ∧ es1 = es2) as [<- <-].
  { pose proof (oc_found _ _ _ _ _ _ _ H1) as F1. pose proof (oc_found _ _ _ _ _ _ _ H2) as F2.
    pose proof (oc_record _ _ _ _ _ _ _ H1) as R.
    assert (∀ x, p_done p0 ++ [x] ≠ p_done p0) as Hne.
    { intros x Heq. apply (f_equal length) in Heq. rewrite length_app in Heq. simpl in Heq. lia. }
    destruct F1 as [(D1 & B1 & E1)|(D1 & _ & _ & _)], F2 as [(D2 & B2 & E2)|(D2 & _ & _ & _)].
    - rewrite B1 in B2. rewrite E1 in E2. by simplify_list_eq.
    - rewrite D1 in D2. by apply eq_sym, Hne in D2.
    - rewrite D2 in D1. by apply eq_sym, Hne in D1.
    - rewrite D1 in D2. by simplify_list_eq. }
  destruct (oc_output _ _ _ _ _ _ _ H1) as (-> & _ & ->), (oc_output _ _ _ _ _ _ _ H2) as (-> & _ & ->).
  by destruct (oc_ends _ _ _ _ _ _ _ H1) as (-> & _ & ->), (oc_ends _ _ _ _ _ _ _ H2) as (-> & _ & ->).
Qed.

End call.

(** * [read_record] by the table *)

Lemma dfa_get_output cfg d s c :
  dfa_ok cfg d → config_ok cfg → state_ok cfg s →
  get_output d (row cfg s) c = Ok (row cfg (step cfg s c).1, (step cfg s c).2).
Proof. intros Hd Hcfg Hs. by apply (dfa_step cfg d Hd Hcfg). Qed.

Lemma final_field_row cfg d s :
  dfa_ok cfg d → is_dfa_state s = true →
  bool_decide (final_field d ≤ row cfg s) = is_field_final s.
Proof.
  intros Hd Hs. rewrite (dfa_final_field _ _ Hd).
  rewrite (bool_decide_ext _ _ (row_le cfg EndFieldDelim s)). by destruct s.
Qed.

Lemma final_record_row cfg d s :
  dfa_ok cfg d → is_dfa_state s = true →
  bool_decide (final_record d ≤ row cfg s) = is_record_final s.
Proof.
  intros Hd Hs. rewrite (dfa_final_record _ _ Hd).
  rewrite (bool_decide_ext _ _ (row_le cfg EndRecord s)). by destruct s.
Qed.

Lemma final_field_row_lt cfg d s :
  dfa_ok cfg d → is_dfa_state s = true →
  bool_decide (final_field d < row cfg s) = is_record_final s.
Proof.
  intros Hd Hs. rewrite (dfa_final_field _ _ Hd).
  transitivity (bool_decide (¬ row cfg s ≤ row cfg EndFieldDelim)).
  { apply bool_decide_ext. lia. }
  rewrite bool_decide_not, (bool_decide_ext _ _ (row_le cfg s EndFieldDelim)). by destruct s.
Qed.

Lemma in_field_row cfg d s :
  dfa_ok cfg d →
  bool_decide (row cfg s = in_field d) || bool_decide (row cfg s = in_quoted d)
  = bool_decide (s = InField ∨ s = InQuotedField).
Proof.
  intros Hd. rewrite (dfa_in_field _ _ Hd), (dfa_in_quoted _ _ Hd).
  rewrite !(bool_decide_ext _ _ (row_eq cfg s _)). by rewrite <- bool_decide_or.
Qed.

Lemma is_start_row cfg s :
  is_dfa_state s = true → is_start (row cfg s) = bool_decide (s = StartRecord).
Proof.
  intros Hs. unfold is_start.
  rewrite <- (bool_decide_ext _ _ (row_eq cfg s StartRecord)). by unfold row at 2.
Qed.

(** The number of lines, when line feeds have a class. *)
Definition line_ok (cfg : CsvConfig) (l0 : Z) (input : list u8) (n : nat) (l : Z) : Prop :=
  LF ∈ special_bytes cfg → l = foldl count_line l0 (take n input).

Section record_loop.
Context (cfg : CsvConfig) (p0 : parser) (input output0 : list u8) (ends0 : list nat) (l0 : Z).
Context (d : Dfa) (Hd : dfa_ok cfg d) (Hcfg : config_ok cfg).
#[local] Abbreviation progress := (progress cfg p0 input output0 ends0).
#[local] Abbreviation outcome := (outcome cfg p0 input output0 ends0).
#[local] Abbreviation after := (after cfg p0 input).
#[local] Abbreviation line_ok := (line_ok cfg l0 input).

Lemma line_ok_S n l b : input !! n = Some b → line_ok n l → line_ok (n + 1) (count_line l b).
Proof.
  intros Hb Hl H. rewrite (Hl H). replace (n + 1) with (S n) by lia.
  by rewrite (take_S_r _ _ b), foldl_app.
Qed.

Lemma count_line_other l b : b ≠ LF → (0 ≤ l < 2 ^ 64)%Z → count_line l b = l.
Proof. intros Hb Hl. unfold count_line. rewrite beq_neq by done. rewrite Z.add_0_r. by apply Z.mod_small. Qed.

Lemma count_line_range l b : (0 ≤ count_line l b < 2 ^ 64)%Z.
Proof. unfold count_line. apply Z.mod_pos_bound. lia. Qed.

(** [scan_and_copy] copies bytes as the table would. *)
Lemma scan_spec fuel n w es nout output nend ends l :
  progress n w es nout output nend ends →
  p_state (after n) = InField ∨ p_state (after n) = InQuotedField →
  nend < length ends →
  length input - n < fuel → (0 ≤ l < 2 ^ 64)%Z → line_ok n l →
  ∃ n' nout' output' w', scan_and_copy fuel (classes d) input n output nout = Ok (n', nout', output') ∧
    n ≤ n' ∧ p_state (after n') = p_state (after n) ∧ line_ok n' l ∧ progress n' w' es nout' output' nend ends.
Proof.
  revert n w nout output. induction fuel as [|fuel IH]; intros n w nout output H Hs He Hf Hl Hline; [lia|].
  cbn [scan_and_copy].
  assert (Hsame : ∃ n' nout' output' w',
    Ok (n, nout, output) = Ok (n', nout', output') :> res unit _ ∧
    n ≤ n' ∧ p_state (after n') = p_state (after n) ∧ line_ok n' l ∧
    progress n' w' es nout' output' nend ends) by (exists n, nout, output, w; by split_and!).
  destruct (input !! n) as [b|] eqn:Hb; [|done].
  destruct (decide (nout < length output)) as [Ho|Ho];
    [rewrite (bool_decide_true _ Ho)|by rewrite (bool_decide_false _ Ho)].
  destruct (dfa_class cfg d b Hd) as (cls & -> & Hcls). cbn [res_bind].
  destruct (decide (cls = 0)) as [H0|H0];
    [rewrite (bool_decide_true _ H0)|by rewrite (bool_decide_false _ H0)].
  apply Hcls in H0.
  pose proof (step_plain cfg (p_state (after n)) b Hs H0) as Hstep.
  pose proof (progress_step cfg p0 input output0 ends0 _ _ _ _ _ _ _ _ _ _ H Hb Ho He Hstep)
    as (Hst & w' & es' & H').
  assert (Hff : is_field_final (p_state (after n)) = false ∧ is_record_final (p_state (after n)) = false)
    by (by destruct Hs as [->| ->]).
  destruct Hff as [Hff Hrf]. rewrite Hff, Hrf in H'.
  assert (es' = es) as ->.
  { pose proof (pr_fends _ _ _ _ _ _ _ _ _ _ _ _ H) as (_ & Hle & E1).
    pose proof (pr_fends _ _ _ _ _ _ _ _ _ _ _ _ H') as (_ & _ & E2).
    pose proof (fills_take _ _ _ _ (pr_fends _ _ _ _ _ _ _ _ _ _ _ _ H)) as T1.
    pose proof (fills_take _ _ _ _ (pr_fends _ _ _ _ _ _ _ _ _ _ _ _ H')) as T2. congruence. }
  apply lookup_lt_Some in Hb as Hlt.
  destruct (IH (n + 1) w' (nout + 1) (<[nout:=b]> output) H') as (n' & nout' & output' & w'' & E & Hn & Hs' & Hl' & Hp).
  - by rewrite Hst.
  - done.
  - lia.
  - done.
  - intros HLF. rewrite <- (line_ok_S n l b Hb Hline HLF). symmetry. apply count_line_other; [|done]. by intros ->.
  - exists n', nout', output', w''. split_and!; [done|lia|by rewrite Hs', Hst|done|done].
Qed.

(** What the loop of [read_record_dfa] leaves behind. *)
Definition loop_outcome (l : loop_state) : Prop :=
  l_state l = row cfg (p_state (after (l_nin l))) ∧ line_ok (l_nin l) (l_line l) ∧
  ∃ w es, outcome (l_nin l) w es (l_nout l) (l_output l) (l_nend l) (l_ends l).

Lemma record_loop_spec fuel l w es :
  progress (l_nin l) w es (l_nout l) (l_output l) (l_nend l) (l_ends l) →
  l_state l = row cfg (p_state (after (l_nin l))) → line_ok (l_nin l) (l_line l) →
  length input - l_nin l < fuel →
  0 < l_nin l ∨ (input ≠ [] ∧ output0 ≠ [] ∧ ends0 ≠ []) →
  ∃ l', record_loop fuel d (length (p_bytes p0)) input l = Ok l' ∧ loop_outcome l'.
Proof.
  revert l w es. induction fuel as [|fuel IH]; intros l w es H Hstate Hline Hf Hpos; [lia|].
  cbn [record_loop].
  assert (Hstop : l_nin l = length input ∨ length (l_output l) ≤ l_nout l ∨ length (l_ends l) ≤ l_nend l →
    ∃ l', Ok l = Ok l' :> res unit _ ∧ loop_outcome l').
  { intros Hs. exists l. split; [done|]. split_and!; [done|done|]. exists w, es.
    apply progress_stop; [done| |done]. destruct Hpos as [?|(Hi & Ho & He)]; [done|].
    destruct (decide (0 < l_nin l)) as [|Hz]; [done|exfalso].
    assert (l_nin l = 0) as Hz' by lia.
    pose proof (fills_length _ _ _ _ (pr_output _ _ _ _ _ _ _ _ _ _ _ _ H)) as F1.
    pose proof (fills_length _ _ _ _ (pr_fends _ _ _ _ _ _ _ _ _ _ _ _ H)) as F2.
    pose proof (pr_bytes _ _ _ _ _ _ _ _ _ _ _ _ H) as B.
    pose proof (pr_ends _ _ _ _ _ _ _ _ _ _ _ _ H) as E.
    destruct (pr_output _ _ _ _ _ _ _ _ _ _ _ _ H) as (Ew & _).
    destruct (pr_fends _ _ _ _ _ _ _ _ _ _ _ _ H) as (Ee & _).
    rewrite Hz' in *. change (after 0) with p0 in B, E.
    apply (f_equal length) in B, E. rewrite length_app in B, E.
    destruct input, output0, ends0; simpl in *; try done; lia. }
  destruct (input !! l_nin l) as [b|] eqn:Hb; cycle 1.
  { apply Hstop. left. apply lookup_ge_None_1 in Hb. pose proof (pr_n _ _ _ _ _ _ _ _ _ _ _ _ H). lia. }
  destruct (decide (l_nout l < length (l_output l))) as [Ho|Ho];
    [rewrite (bool_decide_true _ Ho)|rewrite (bool_decide_false _ Ho); apply Hstop; lia].
  destruct (decide (l_nend l < length (l_ends l))) as [He|He];
    [rewrite (bool_decide_true _ He)|rewrite (bool_decide_false _ He); apply Hstop; lia].
  cbn [andb]. pose proof (pr_wf _ _ _ _ _ _ _ _ _ _ _ _ H) as (Hok & _).
  rewrite Hstate, dfa_get_output by done. cbn [res_bind].
  destruct (step cfg (p_state (after (l_nin l))) b) as [s o] eqn:Hstep. cbn [fst snd].
  pose proof (progress_step cfg p0 input output0 ends0 _ _ _ _ _ _ _ _ _ _ H Hb Ho He Hstep)
    as (Hst & w' & es' & H'). cbv zeta in H'.
  assert (Hs : is_dfa_state s = true).
  { pose proof (step_state_ok cfg _ b Hok) as (Hs & _). by rewrite Hstep in Hs. }
  rewrite (final_field_row cfg d s Hd Hs), (final_field_row_lt cfg d s Hd Hs), (in_field_row cfg d s Hd).
  pose proof (line_ok_S _ _ _ Hb Hline) as Hline'. apply lookup_lt_Some in Hb as Hlt.
  destruct (is_record_final s) eqn:Hr.
  { rewrite andb_true_r. assert (is_field_final s = true) as Hff by (by destruct s).
    rewrite Hff in *. eexists. split; [reflexivity|].
    split_and!; cbn [l_nin l_nout l_nend l_state l_line l_output l_ends]; [by rewrite Hst|done|]. by exists w', es'. }
  rewrite andb_false_r.
  destruct (decide (s = InField ∨ s = InQuotedField)) as [Hscan|Hscan];
    [rewrite (bool_decide_true _ Hscan)|rewrite (bool_decide_false _ Hscan)].
  - assert (is_field_final s = false) as Hff by (by destruct Hscan as [->| ->]). rewrite Hff in *.
    edestruct (scan_spec (S (length input))) as (n' & nout' & output' & w'' & E & Hn & Hs' & Hl' & Hp);
      [exact H'|by rewrite Hst|done|lia|apply count_line_range|exact Hline'|].
    rewrite E. cbn [res_bind]. eapply IH; cbn [l_nin l_nout l_nend l_state l_line l_output l_ends]; [exact Hp|by rewrite Hs', Hst|done|lia|left; lia].
  - eapply IH; cbn [l_nin l_nout l_nend l_state l_line l_output l_ends]; [exact H'|by rewrite Hst|done|lia|left; lia].
Qed.

End record_loop.

(** The line number goes up by at most one for each byte. *)
Lemma scan_and_copy_nin fuel k input nin output nout nin' nout' output' :
  scan_and_copy fuel k input nin output nout = Ok (nin', nout', output') → nin ≤ nin'.
Proof.
  revert nin output nout. induction fuel as [|fuel IH]; intros nin output nout; [done|]. cbn [scan_and_copy].
  destruct (input !! nin); [|by intros [= <- _ _]]. case_bool_decide; [|by intros [= <- _ _]].
  intros (cls & _ & E)%res_bind_ok. revert E. case_bool_decide; [|by intros [= <- _ _]].
  intros E%IH. lia.
Qed.

Lemma record_loop_line fuel d pos input l l' :
  record_loop fuel d pos input l = Ok l' →
  (0 ≤ l_line l)%Z → (l_line l + Z.of_nat (length input) - Z.of_nat (l_nin l) < 2 ^ 64)%Z →
  (l_line l ≤ l_line l' ∧ l_line l' - l_line l ≤ Z.of_nat (l_nin l') - Z.of_nat (l_nin l))%Z.
Proof.
  revert l. induction fuel as [|fuel IH]; intros l; [done|]. cbn [record_loop].
  destruct (input !! l_nin l) as [b|] eqn:Hb; [|intros [= <-]; lia]. apply lookup_lt_Some in Hb.
  destruct (_ && _); [|intros [= <-]; lia]. intros ((s & o) & _ & E)%res_bind_ok H0 Hlt.
  assert (Hl : (l_line l ≤ count_line (l_line l) b ≤ l_line l + 1)%Z).
  { unfold count_line. rewrite Z.mod_small by (destruct (beq b LF); lia). destruct (beq b LF); lia. }
  revert E. destruct (_ && _); [intros [= <-]; cbn [l_line l_nin]; lia|]. destruct (_ || _).
  - intros (((nin & nout) & output) & Hscan%scan_and_copy_nin & E)%res_bind_ok.
    apply IH in E; cbn [l_line l_nin] in *; lia.
  - intros E. apply IH in E; cbn [l_line l_nin] in *; lia.
Qed.

(** The line counter neither wraps nor is zero while the input is read. *)
Definition line_fits (r : CsvReader) (input : list u8) : Prop :=
  (0 < line r ∧ line r + Z.of_nat (length input) < 2 ^ 64)%Z.

Lemma read_record_dfa_line debug r input output ends c :
  read_record_dfa debug r input output ends = Ok c → (0 < line r)%Z →
  (line r + Z.of_nat (length input) < 2 ^ 64)%Z →
  (line r ≤ line (rc_reader c) ∧ line (rc_reader c) - line r ≤ Z.of_nat (rc_nin c))%Z.
Proof.
  unfold read_record_dfa. intros E H0 Hlt. revert E.
  case_bool_decide.
  { intros (s & _ & (res & _ & E)%res_bind_ok)%res_bind_ok. revert E.
    destruct res; repeat case_bool_decide; intros [= <-]; cbn; lia. }
  case_bool_decide; [intros [= <-]; cbn; lia|]. case_bool_decide; [intros [= <-]; cbn; lia|].
  intros (l & E & (res & _ & Hc)%res_bind_ok)%res_bind_ok. injection Hc as <-.
  apply record_loop_line in E; cbn [l_line l_nin] in *; [|lia..]. cbn. lia.
Qed.

Section calls.
Context (debug : bool) (cfg : CsvConfig).

(** A reader in the place of a parser. *)
Record reader_at (p : parser) (r : CsvReader) : Prop := {
  ra_config : config r = cfg;
  ra_table : use_nfa r = false;
  ra_dfa : dfa_ok cfg (dfa r);
  ra_ok : config_ok cfg;
  ra_wf : parser_wf cfg p;
  ra_state : dfa_state r = row cfg (p_state p);
  ra_pos : output_pos r = length (p_bytes p)
}.

Lemma build_reader_at : config_ok cfg → ∃ r, build cfg false = Ok r ∧ reader_at parser_start r ∧
  has_read r = false ∧ line r = 1%Z.
Proof.
  intros Hcfg. unfold build.
  change (dfa (CsvReader_clone (with_config CsvReader_default cfg false))) with Dfa_new.
  change (config (CsvReader_clone (with_config CsvReader_default cfg false))) with cfg.
  destruct (build_dfa_spec cfg) as (d & E & Hd). rewrite E. cbn [res_bind]. eexists. split; [reflexivity|]. split_and!; [|done|done].
  by split.
Qed.

(** The result of a call that stopped in state [s]. *)
Definition verdict (s : NfaState) (inpdone outdone endsdone : bool) : ReadRecordResult :=
  if is_record_final s then RR_Record
  else if negb inpdone && outdone then RR_OutputFull
  else if negb inpdone && endsdone then RR_OutputEndsFull
  else RR_InputEmpty.

Lemma new_read_record_result_row d s a b c :
  dfa_ok cfg d → is_dfa_state s = true →
  new_read_record_result debug d (row cfg s) false a b c = Ok (verdict s a b c).
Proof.
  intros Hd Hs. unfold new_read_record_result, verdict.
  rewrite (final_record_row cfg d s Hd Hs). destruct (is_record_final s) eqn:Hr; [done|].
  pose proof (final_record_row cfg d s Hd Hs) as Hlt. rewrite Hr in Hlt.
  apply bool_decide_eq_false in Hlt. cbn [andb].
  rewrite (bool_decide_true (row cfg s < final_record d)) by lia.
  unfold debug_assert. rewrite andb_false_r. by repeat case_match.
Qed.

Lemma verdict_open (a b : bool) :
  is_record (if a then RR_OutputFull else if b then RR_OutputEndsFull else RR_InputEmpty) = false.
Proof. by destruct a, b. Qed.

(** A call with input: it stops where [outcome] says, in the state of the parser. *)
Lemma read_record_dfa_call p r input output ends :
  reader_at p r → input ≠ [] → output ≠ [] → ends ≠ [] →
  ∃ c, read_record_dfa debug r input output ends = Ok c ∧
    (∃ w es, outcome cfg p input output ends (rc_nin c) w es (rc_nout c) (rc_output c)
      (rc_nend c) (rc_ends c)) ∧
    reader_at (after cfg p input (rc_nin c)) (rc_reader c) ∧
    rc_result c = verdict (p_state (after cfg p input (rc_nin c)))
      (bool_decide (length input ≤ rc_nin c)) (bool_decide (length output ≤ rc_nout c))
      (bool_decide (length ends ≤ rc_nend c)) ∧
    line_ok cfg (line r) input (rc_nin c) (line (rc_reader c)) ∧
    has_read (rc_reader c) = has_read r.
Proof.
  intros Hr Hi Ho He. unfold read_record_dfa.
  rewrite (bool_decide_false _ Hi), (bool_decide_false _ Ho), (bool_decide_false _ He).
  rewrite (ra_pos _ _ Hr), (ra_state _ _ Hr).
  destruct (record_loop_spec cfg p input output ends (line r) (dfa r) (ra_dfa _ _ Hr) (ra_ok _ _ Hr)
    (S (length input)) (mkLoop 0 0 0 (row cfg (p_state p)) (line r) output ends) [] [])
    as (l & E & Hst & Hline & w & es & Hout); cbn [l_nin l_nout l_nend l_state l_line l_output l_ends].
  - apply progress_start, Hr.
  - done.
  - by intros _.
  - lia.
  - right. done.
  - rewrite E. cbn [res_bind]. rewrite Hst.
    pose proof (oc_wf _ _ _ _ _ _ _ _ _ _ _ _ Hout) as Hwf.
    rewrite new_read_record_result_row by (try apply Hr; apply Hwf). cbn [res_bind].
    eexists. split; [reflexivity|].
    cbn [rc_result rc_nin rc_nout rc_nend rc_output rc_ends rc_reader].
    rewrite (fills_length _ _ _ _ (oc_output _ _ _ _ _ _ _ _ _ _ _ _ Hout)).
    rewrite (fills_length _ _ _ _ (oc_ends _ _ _ _ _ _ _ _ _ _ _ _ Hout)).
    split_and!; [by exists w, es| |done|done|done].
    destruct Hr as [? ? ? ? ? ? ?]. split; try done. cbn [output_pos with_output_pos].
    pose proof (oc_found _ _ _ _ _ _ _ _ _ _ _ _ Hout) as [(Hd & Hb & _)|(_ & Hb & _ & Hf)].
    + assert (is_record_final (p_state (after cfg p input (l_nin l))) = false) as Hf.
      { destruct (is_record_final _) eqn:Hf; [|done].
        by apply (oc_record _ _ _ _ _ _ _ _ _ _ _ _ Hout) in Hf. }
      unfold verdict. rewrite Hf, Hb, length_app.
      destruct (oc_output _ _ _ _ _ _ _ _ _ _ _ _ Hout) as (-> & _). rewrite verdict_open.
      cbn [output_pos with_line with_dfa]. lia.
    + unfold verdict. rewrite Hf, Hb. done.
Qed.

(** A call with input and a buffer without room changes nothing. *)
Lemma read_record_dfa_full r input output ends :
  input ≠ [] → output = [] ∨ ends = [] →
  ∃ res, read_record_dfa debug r input output ends = Ok (mkRecordCall res 0 0 0 output ends r) ∧
    is_record res = false ∧ (res ≠ RR_End) ∧
    (res = RR_OutputFull ∧ output = [] ∨ res = RR_OutputEndsFull ∧ ends = []).
Proof.
  intros Hi H. unfold read_record_dfa. rewrite (bool_decide_false _ Hi).
  destruct (decide (output = [])) as [->|Ho].
  { exists RR_OutputFull. split_and!; [done..|]. by left. }
  destruct H as [->|He]; [done|]. rewrite (bool_decide_false _ Ho), (bool_decide_true _ He).
  exists RR_OutputEndsFull. split_and!; [done..|]. by right.
Qed.

Lemma transition_final_dfa_row r s :
  dfa_ok cfg (dfa r) → is_dfa_state s = true →
  transition_final_dfa r (row cfg s)
  = Ok (row cfg (if between s then StartRecord else EndRecord)).
Proof.
  intros Hd Hs. unfold transition_final_dfa, new_state_final_end, new_state_final_record.
  rewrite (final_record_row cfg _ s Hd Hs), is_start_row by done.
  rewrite !(new_state_eq cfg) by (try apply Hd; done).
  by destruct s.
Qed.

(** The parser after it was told that the input has ended. *)
Definition ended_parser (p : parser) : parser :=
  if between (p_state p) then mkParser StartRecord [] [] (p_done p) else finish_parse p.

(** A call at the end of the input ends the record, or says that there is none. *)
Lemma read_record_dfa_eof p r output ends :
  reader_at p r →
  ∃ c, read_record_dfa debug r [] output ends = Ok c ∧ rc_nin c = 0 ∧ rc_nout c = 0 ∧
    has_read (rc_reader c) = has_read r ∧ line (rc_reader c) = line r ∧
    length (rc_output c) = length output ∧ length (rc_ends c) = length ends ∧ rc_nend c ≤ length ends ∧
    if between (p_state p) then
      rc_result c = RR_End ∧ rc_nend c = 0 ∧ reader_at (ended_parser p) (rc_reader c)
    else if bool_decide (ends = []) then
      rc_result c = RR_OutputEndsFull ∧ rc_nend c = 0 ∧ reader_at p (rc_reader c)
    else rc_result c = RR_Record ∧ take (rc_nend c) (rc_ends c) = [length (p_bytes p)] ∧
      reader_at (ended_parser p) (rc_reader c).
Proof.
  intros Hr. pose proof Hr as [Hc Ht Hd Hok Hwf Hs Hp]. pose proof Hwf as ((Hdfa & _) & Hidle).
  unfold read_record_dfa. rewrite (bool_decide_true _ eq_refl), Hs.
  rewrite transition_final_dfa_row by done. cbn [res_bind].
  unfold new_read_record_result, ended_parser, finish_parse.
  rewrite (final_record_row cfg) by (done || by destruct (between _)).
  destruct (between (p_state p)) eqn:Hb.
  - cbn [is_record_final andb]. rewrite is_start_row by done. cbn.
    eexists. split; [reflexivity|]. cbn. split_and!; try done; try lia.
    destruct Hidle as [Hbytes _]; [unfold idle; by rewrite Hb|].
    split; try done. cbn. by rewrite Hp, Hbytes.
  - cbn [is_record_final res_bind].
    destruct (decide (ends = [])) as [He|He];
      [rewrite (bool_decide_true _ He)|rewrite (bool_decide_false _ He)].
    + eexists. split; [reflexivity|]. cbn. split_and!; try done; lia.
    + eexists. split; [reflexivity|]. cbn [rc_nin rc_nout rc_nend rc_ends rc_reader rc_result rc_output].
      rewrite length_insert. destruct ends as [|e ends]; [done|].
      split_and!; try done; [simpl; lia|]. by rewrite Hp.
Qed.

End calls.

(** * A series of calls *)

(** One call of a caller who holds the input: how much of what is left the call
    is given, and the two buffers. *)
Record csv_call : Type := mkCall { cc_chunk : nat; cc_output : list u8; cc_ends : list nat }.

(** What a caller has after some calls: the rows that are complete, the row in
    progress, the input that is left, whether a call returned [End]. *)
Record driven : Type := mkDriven {
  dr_rows : list csv_row;
  dr_partial : csv_row;
  dr_rest : list u8;
  dr_ended : bool;
  dr_reader : CsvReader
}.

Section drive.
Context (debug : bool).

(** The loop of a caller: keep what the buffers hold, go on behind what was read,
    and take the row when the call returns [Record]. *)
Fixpoint drive (calls : list csv_call) (r : CsvReader) (input : list u8) (row : csv_row)
    : res unit driven :=
  match calls with
  | [] => Ok (mkDriven [] row input false r)
  | call :: calls =>
      let? c := read_record debug r (take (cc_chunk call) input) (cc_output call) (cc_ends call) in
      let row := (row.1 ++ take (rc_nout c) (rc_output c), row.2 ++ take (rc_nend c) (rc_ends c)) in
      let input := drop (rc_nin c) input in
      let? rest := drive calls (rc_reader c) input (if is_record (rc_result c) then ([], []) else row) in
      Ok (mkDriven
        (if is_record (rc_result c) then row :: dr_rows rest else dr_rows rest)
        (dr_partial rest) (dr_rest rest)
        (bool_decide (rc_result c = RR_End) || dr_ended rest) (dr_reader rest))
  end.


Definition bom_free (r : CsvReader) (input : list u8) : Prop :=
  has_read r = true ∨ take 3 input ≠ UTF8_BOM.

Lemma strip_bom_free r input k : bom_free r input → strip_utf8_bom r (take k input) = (take k input, 0).
Proof.
  intros H. unfold strip_utf8_bom. destruct H as [->|H]; [done|].
  destruct (negb (has_read r) && bool_decide (3 ≤ length (take k input))) eqn:E; [|done].
  apply andb_true_iff in E as [_ E]. apply bool_decide_eq_true in E. rewrite length_take in E.
  rewrite take_take, Nat.min_l by lia. by rewrite (bool_decide_false _ H).
Qed.

Lemma read_record_free r input k output ends :
  bom_free r input → use_nfa r = false →
  read_record debug r (take k input) output ends
  = (let? c := read_record_dfa debug r (take k input) output ends in
     Ok (mkRecordCall (rc_result c) (rc_nin c) (rc_nout c) (rc_nend c) (rc_output c) (rc_ends c)
       (with_has_read (rc_reader c) true))).
Proof.
  intros H Hn. unfold read_record. rewrite strip_bom_free, Hn by done.
  destruct (read_record_dfa _ _ _ _ _); simpl; [by rewrite Nat.add_0_r|done..].
Qed.

Lemma reader_at_has_read cfg p r b : reader_at cfg p r → reader_at cfg p (with_has_read r b).
Proof. by intros [? ? ? ? ? ? ?]. Qed.

(** The calls that are left suffice: one for every byte, one for the last record,
    one to be told that there are no more. *)
Definition calls_needed (p : parser) (input : list u8) : nat :=
  length input + if bool_decide (input = []) && between (p_state p) then 1 else 2.

Definition roomy (c : csv_call) : Prop := cc_output c ≠ [] ∧ cc_ends c ≠ [].

(** What one call does: a reader in the place of [p] goes on to the place of [p']
    while the rest of the input goes from [input] to [drop (rc_nin c) input]. *)
Record called (cfg : CsvConfig) (p p' : parser) (r : CsvReader) (input : list u8) (call : csv_call)
    (c : record_call) : Prop := {
  cd_reader : reader_at cfg p' (rc_reader c);
  cd_has_read : has_read (rc_reader c) = true;
  cd_row : let row := (p_bytes p ++ take (rc_nout c) (rc_output c), p_ends p ++ take (rc_nend c) (rc_ends c)) in
    if is_record (rc_result c) then p_done p' = p_done p ++ [row] ∧ p_bytes p' = [] ∧ p_ends p' = []
    else p_done p' = p_done p ∧ p_bytes p' = row.1 ∧ p_ends p' = row.2;
  cd_rest : p_done (finish_parse (parse cfg p' (drop (rc_nin c) input))) = p_done (finish_parse (parse cfg p input));
  cd_end : rc_result c = RR_End → input = [] ∧ between (p_state p) = true;
  cd_nin : rc_nin c ≤ length (take (cc_chunk call) input);
  cd_output : length (rc_output c) = length (cc_output call) ∧ rc_nout c ≤ length (cc_output call);
  cd_ends : length (rc_ends c) = length (cc_ends call) ∧ rc_nend c ≤ length (cc_ends call);
  cd_line : line_fits r input → line_fits (rc_reader c) (drop (rc_nin c) input);
  cd_progress :
    (rc_result c = RR_End ∨ calls_needed p' (drop (rc_nin c) input) < calls_needed p input) ∨
    (p' = p ∧ rc_nin c = 0 ∧ rc_nout c = 0 ∧ rc_nend c = 0 ∧
     (rc_result c = RR_OutputFull ∧ cc_output call = [] ∨ rc_result c = RR_OutputEndsFull ∧ cc_ends call = []));
  cd_between : rc_result c = RR_Record → between (p_state p') = true;
  cd_no_bytes : rc_result c = RR_End → p_bytes p' = []
}.

Lemma line_fits_call r input input' output ends c n :
  read_record_dfa debug r input output ends = Ok c →
  rc_nin c = n → length input ≤ length input' → n ≤ length input' →
  line_fits r input' → line_fits (with_has_read (rc_reader c) true) (drop n input').
Proof.
  intros E <- Hle Hn [H1 H2]. apply read_record_dfa_line in E; [|done|lia].
  unfold line_fits. cbn [line with_has_read]. rewrite length_drop. lia.
Qed.

(** A call at the end of the input. *)
Lemma call_eof cfg p r call :
  reader_at cfg p r → bom_free r [] → 0 < cc_chunk call →
  ∃ c p', read_record debug r (take (cc_chunk call) []) (cc_output call) (cc_ends call) = Ok c ∧
    called cfg p p' r [] call c.
Proof.
  intros Hr Hb Hk. rewrite read_record_free by (done || apply Hr). rewrite take_nil.
  destruct (read_record_dfa_eof debug cfg p r (cc_output call) (cc_ends call) Hr)
    as (c & E & Hnin & Hnout & _ & Hline & Hlo & Hle & Hne & H). rewrite E. cbn [res_bind].
  pose proof (ra_wf _ _ _ Hr) as (_ & Hidle).
  assert (Hfit : line_fits r [] → line_fits (with_has_read (rc_reader c) true) (drop (rc_nin c) [])).
  { rewrite Hnin. by eapply line_fits_call. }
  destruct (between (p_state p)) eqn:Hbt.
  - destruct H as (Hres & Hnend & Hr'). eexists _, (ended_parser p). split; [reflexivity|].
    destruct Hidle as [Hpb Hpe]; [unfold idle; by rewrite Hbt|].
    assert (Hep : ended_parser p = mkParser StartRecord [] [] (p_done p)) by (unfold ended_parser; by rewrite Hbt).
    split; cbn [rc_result rc_nin rc_nout rc_nend rc_output rc_ends rc_reader];
      rewrite ?Hres, ?Hnout, ?Hnend; try done; try lia.
    + by apply reader_at_has_read.
    + rewrite Hep, Hpb, Hpe. by rewrite !take_0, !app_nil_r.
    + rewrite drop_nil, Hep. cbn. unfold finish_parse. by rewrite Hbt.
    + by left; left.
    + by rewrite Hep.
  - destruct (decide (cc_ends call = [])) as [He|He];
      [rewrite (bool_decide_true _ He) in H|rewrite (bool_decide_false _ He) in H].
    + destruct H as (Hres & Hnend & Hr'). eexists _, p. split; [reflexivity|].
      split; cbn [rc_result rc_nin rc_nout rc_nend rc_output rc_ends rc_reader];
        rewrite ?Hres, ?Hnout, ?Hnend; try done; try lia.
      * by apply reader_at_has_read.
      * by rewrite !take_0, !app_nil_r.
      * by rewrite drop_nil.
      * right. split_and!; try done; try lia. by right.
    + destruct H as (Hres & Hnend & Hr'). eexists _, (ended_parser p). split; [reflexivity|].
      assert (Hep : ended_parser p = finish_parse p) by (unfold ended_parser; by rewrite Hbt).
      assert (Hfp : finish_parse p = mkParser EndRecord [] []
        (p_done p ++ [(p_bytes p, p_ends p ++ [length (p_bytes p)])])) by (unfold finish_parse; by rewrite Hbt).
      split; cbn [rc_result rc_nin rc_nout rc_nend rc_output rc_ends rc_reader];
        rewrite ?Hres, ?Hnout; try done; try lia.
      * by apply reader_at_has_read.
      * rewrite Hep, Hfp, Hnend, take_0, app_nil_r. done.
      * rewrite drop_nil, Hep, Hfp. cbn. by rewrite Hfp.
      * left. right. rewrite drop_nil, Hep, Hfp. unfold calls_needed. cbn. rewrite Hbt. lia.
      * by rewrite Hep, Hfp.
Qed.

(** A call with input. *)
Lemma call_input cfg p r input call :
  reader_at cfg p r → bom_free r input → 0 < cc_chunk call → input ≠ [] →
  ∃ c p', read_record debug r (take (cc_chunk call) input) (cc_output call) (cc_ends call) = Ok c ∧
    called cfg p p' r input call c.
Proof.
  intros Hr Hb Hk Hi. rewrite read_record_free by (done || apply Hr).
  assert (Hchunk : take (cc_chunk call) input ≠ []).
  { destruct input, (cc_chunk call); simpl; try done; lia. }
  assert (Htl : length (take (cc_chunk call) input) ≤ length input) by (rewrite length_take; lia).
  destruct (decide (cc_output call = [] ∨ cc_ends call = [])) as [Hfull|Hroom].
  - destruct (read_record_dfa_full debug r _ _ _ Hchunk Hfull) as (result & E & Hrec & Hne & Hres).
    rewrite E. cbn [res_bind]. eexists _, p. split; [reflexivity|].
    split; cbn [rc_result rc_nin rc_nout rc_nend rc_output rc_ends rc_reader]; try done; try lia.
    + by apply reader_at_has_read.
    + by rewrite Hrec, !take_0, !app_nil_r.
    + right. by split_and!.
    + intros ->. by destruct Hres as [[? _]|[? _]].
  - destruct (read_record_dfa_call debug cfg p r (take (cc_chunk call) input) (cc_output call) (cc_ends call))
      as (c & E & (w & es & Hout) & Hr' & Hres & _); [done|done|naive_solver|naive_solver|].
    rewrite E. cbn [res_bind]. eexists _, _. split; [reflexivity|].
    pose proof (oc_output _ _ _ _ _ _ _ _ _ _ _ _ Hout) as Hfo.
    pose proof (oc_ends _ _ _ _ _ _ _ _ _ _ _ _ Hout) as Hfe.
    pose proof (oc_n _ _ _ _ _ _ _ _ _ _ _ _ Hout) as Hn. rewrite length_take in Hn.
    assert (Hafter : after cfg p (take (cc_chunk call) input) (rc_nin c) = parse cfg p (take (rc_nin c) input)).
    { unfold after. by rewrite take_take, Nat.min_l by lia. }
    assert (Hrec : is_record (rc_result c)
      = is_record_final (p_state (after cfg p (take (cc_chunk call) input) (rc_nin c)))).
    { rewrite Hres. unfold verdict. destruct (is_record_final _); [done|]. by repeat case_match. }
    split; cbn [rc_result rc_nin rc_nout rc_nend rc_output rc_ends rc_reader]; rewrite ?Nat.add_0_r;
      try (rewrite ?length_take; lia).
    + apply reader_at_has_read, Hr'.
    + done.
    + rewrite Hrec, (fills_take _ _ _ _ Hfo), (fills_take _ _ _ _ Hfe).
      pose proof (oc_found _ _ _ _ _ _ _ _ _ _ _ _ Hout) as [F|(F1 & F2 & F3 & F4)].
      * destruct (is_record_final _) eqn:Hf; [|done].
        apply (oc_record _ _ _ _ _ _ _ _ _ _ _ _ Hout) in Hf. by destruct F.
      * by rewrite F4.
    + by rewrite Hafter, <- parse_app, take_drop.
    + rewrite Hres. unfold verdict. by repeat case_match.
    + split; [by eapply fills_length|apply Hfo].
    + split; [by eapply fills_length|apply Hfe].
    + apply (line_fits_call _ _ _ _ _ _ _ E); [done|done|lia].
    + left. right. unfold calls_needed. rewrite length_drop.
      rewrite (bool_decide_false (input = [])) by done. cbn [andb]. case_match; lia.
    + intros Hr1. rewrite Hr1 in Hrec. cbn in Hrec.
      destruct (oc_wf _ _ _ _ _ _ _ _ _ _ _ _ Hout) as ((Hd & _) & _).
      by destruct (p_state (after cfg p (take (cc_chunk call) input) (rc_nin c))).
    + rewrite Hres. unfold verdict. by repeat case_match.
Qed.

(** One call, for the induction over the calls. *)
Lemma call_spec cfg p r input call :
  reader_at cfg p r → bom_free r input → 0 < cc_chunk call →
  ∃ c p', read_record debug r (take (cc_chunk call) input) (cc_output call) (cc_ends call) = Ok c ∧
    called cfg p p' r input call c.
Proof.
  intros Hr Hb Hk. destruct (decide (input = [])) as [->|Hi]; [by apply call_eof|by apply call_input].
Qed.

Lemma drive_spec cfg calls p r input :
  reader_at cfg p r → bom_free r input → Forall (λ c, 0 < cc_chunk c) calls →
  ∃ d, drive calls r input (p_bytes p, p_ends p) = Ok d ∧
    (p_done p ++ dr_rows d) `prefix_of` p_done (finish_parse (parse cfg p input)) ∧
    (dr_ended d = true → p_done p ++ dr_rows d = p_done (finish_parse (parse cfg p input))) ∧
    (Forall roomy calls → calls_needed p input ≤ length calls → dr_ended d = true).
Proof.
  revert p r input. induction calls as [|call calls IH]; intros p r input Hr Hb Hk.
  - eexists. split; [reflexivity|]. cbn. rewrite app_nil_r. split_and!; [|done|].
    + etrans; [apply (parse_done cfg p input)|apply finish_done].
    + unfold calls_needed. intros _ Hn. destruct (_ && _) in Hn; lia.
  - apply list.Forall_cons in Hk as [Hk Hks].
    destruct (call_spec cfg p r input call Hr Hb Hk)
      as (c & p' & E & [Hr' Hread Hrow Htot Hend Hnin [Hlo Hno] [Hle Hne] _ Hneed _ _]).
    destruct (IH p' (rc_reader c) (drop (rc_nin c) input) Hr' (or_introl Hread) Hks)
      as (d & Ed & Hpre & Heq & Hlive).
    cbn [drive]. rewrite E. cbn [res_bind]. cbv zeta. cbn [fst snd].
    assert (Erow : (if is_record (rc_result c) then ([], [])
        else (p_bytes p ++ take (rc_nout c) (rc_output c), p_ends p ++ take (rc_nend c) (rc_ends c)))
      = (p_bytes p', p_ends p')).
    { destruct (is_record (rc_result c)); destruct Hrow as (_ & -> & ->); done. }
    rewrite Erow, Ed. cbn [res_bind]. eexists. split; [reflexivity|]. cbn [dr_rows dr_ended].
    assert (Erows : p_done p ++ (if is_record (rc_result c)
        then (p_bytes p ++ take (rc_nout c) (rc_output c), p_ends p ++ take (rc_nend c) (rc_ends c)) :: dr_rows d
        else dr_rows d) = p_done p' ++ dr_rows d).
    { destruct (is_record (rc_result c)); destruct Hrow as (-> & _ & _); [by rewrite <- app_assoc|done]. }
    rewrite Erows, <- Htot. split_and!.
    + done.
    + destruct (decide (rc_result c = RR_End)) as [Ee|Ee];
        [rewrite (bool_decide_true _ Ee)|rewrite (bool_decide_false _ Ee); exact Heq].
      intros _. destruct (Hend Ee) as [Ei Ebt]. rewrite Ee in Hrow. cbn in Hrow.
      apply (anti_symm prefix); [done|].
      subst input. rewrite drop_nil in Htot |- *. rewrite Htot. cbn. unfold finish_parse. rewrite Ebt.
      destruct Hrow as (-> & _ & _). by apply prefix_app_r.
    + intros Hroom Hn. apply list.Forall_cons in Hroom as [Hroom Hrooms].
      destruct Hneed as [[Ee|Hlt]|(_ & _ & _ & _ & [[_ ?]|[_ ?]])];
        [by rewrite (bool_decide_true _ Ee)| |by destruct Hroom..].
      apply orb_true_iff. right. apply Hlive; [done|]. simpl in Hn. lia.
Qed.

(** ** The byte order mark

    It is looked for in the first piece only, and stripped from a piece that has all
    of it. *)
Lemma read_record_dfa_has_read r b input output ends :
  read_record_dfa debug (with_has_read r b) input output ends =
  res_map (λ c : record_call, mkRecordCall (rc_result c) (rc_nin c) (rc_nout c) (rc_nend c) (rc_output c) (rc_ends c)
    (with_has_read (rc_reader c) b)) (read_record_dfa debug r input output ends).
Proof.
  unfold read_record_dfa, transition_final_dfa.
  change (dfa (with_has_read r b)) with (dfa r). change (dfa_state (with_has_read r b)) with (dfa_state r).
  change (line (with_has_read r b)) with (line r). change (output_pos (with_has_read r b)) with (output_pos r).
  case_bool_decide.
  - match goal with |- context [res_bind ?m _] => destruct m as [s| | |]; try done end. cbn [res_bind].
    destruct (new_read_record_result _ _ _ _ _ _ _) as [[]| | |]; try done. cbn [res_bind]. by case_bool_decide.
  - case_bool_decide; [done|]. case_bool_decide; [done|].
    destruct (record_loop _ _ _ _ _) as [l| | |]; try done. cbn [res_bind].
    by destruct (new_read_record_result _ _ _ _ _ _ _) as [[]| | |].
Qed.

(** The text that is parsed: without the mark if the first piece has it. *)
Definition text_of (calls : list csv_call) (input : list u8) : list u8 :=
  match calls with
  | call :: _ => if bool_decide (take 3 input = UTF8_BOM) && bool_decide (3 ≤ cc_chunk call) then drop 3 input else input
  | [] => input
  end.

(** The first piece is not the mark alone, with more of the input to come. *)
Definition mark_ok (calls : list csv_call) (input : list u8) : Prop :=
  match calls with
  | call :: _ => take (cc_chunk call) input = UTF8_BOM → input = UTF8_BOM
  | [] => True
  end.

(** A first call on an input with a mark is a call without. *)
Lemma drive_mark call calls r input row :
  use_nfa r = false → has_read r = false → take 3 input = UTF8_BOM → mark_ok (call :: calls) input → 0 < cc_chunk call →
  ∃ call', 0 < cc_chunk call' ∧ (roomy call → roomy call') ∧
    drive (call :: calls) r input row = drive (call' :: calls) (with_has_read r true) (text_of (call :: calls) input) row.
Proof.
  intros Hn Hh Hb Hm Hk. cbn [text_of mark_ok] in *. rewrite (bool_decide_true _ Hb). cbn [andb].
  assert (H3 : 3 ≤ length input) by (apply (f_equal length) in Hb; rewrite length_take in Hb; change (length UTF8_BOM) with 3 in Hb; lia).
  destruct (decide (3 ≤ cc_chunk call)) as [Hc|Hc];
    [rewrite (bool_decide_true _ Hc)|rewrite (bool_decide_false _ Hc)].
  - set (k := if decide (cc_chunk call = 3) then 1 else cc_chunk call - 3).
    exists (mkCall k (cc_output call) (cc_ends call)). cbn [cc_chunk cc_output cc_ends].
    split; [unfold k; case_decide; lia|]. split; [done|]. cbn [drive cc_chunk cc_output cc_ends].
    assert (Ek : drop 3 (take (cc_chunk call) input) = take k (drop 3 input)).
    { rewrite skipn_firstn_comm. unfold k. case_decide as E; [|done].
      rewrite (Hm ltac:(by rewrite E)), E. done. }
    unfold read_record. change (use_nfa (with_has_read r true)) with (use_nfa r). rewrite Hn.
    unfold strip_utf8_bom. cbn [has_read with_has_read negb andb]. rewrite Hh. cbn [negb andb].
    rewrite bool_decide_true by (rewrite length_take; lia). cbn [andb].
    rewrite bool_decide_true by (rewrite take_take, Nat.min_l by lia; done). rewrite Ek, read_record_dfa_has_read.
    destruct (read_record_dfa debug r (take k (drop 3 input)) (cc_output call) (cc_ends call)) as [c| | |]; try done.
    cbn [res_map res_bind rc_result rc_nin rc_nout rc_nend rc_output rc_ends rc_reader].
    replace (drop (rc_nin c + 3) input) with (drop (rc_nin c + 0) (drop 3 input)) by (rewrite drop_drop; f_equal; lia). done.
  - exists call. split; [done|]. split; [done|]. cbn [drive]. unfold read_record.
    change (use_nfa (with_has_read r true)) with (use_nfa r). rewrite Hn.
    unfold strip_utf8_bom. cbn [has_read with_has_read negb andb]. rewrite Hh. cbn [negb andb].
    rewrite (bool_decide_false (3 ≤ length (take _ input))) by (rewrite length_take; lia). cbn [andb].
    rewrite read_record_dfa_has_read. by destruct (read_record_dfa debug r _ _ _) as [c| | |].
Qed.

Lemma calls_needed_start input : calls_needed parser_start input ≤ length input + 2.
Proof. unfold calls_needed. case_match; lia. Qed.

Lemma drive_text cfg r calls input :
  reader_at cfg parser_start r → has_read r = false → Forall (λ c, 0 < cc_chunk c) calls → mark_ok calls input →
  ∃ d, drive calls r input ([], []) = Ok d ∧
    dr_rows d `prefix_of` parse_all cfg (text_of calls input) ∧
    (dr_ended d = true → dr_rows d = parse_all cfg (text_of calls input)) ∧
    (Forall roomy calls → length input + 2 ≤ length calls → dr_ended d = true).
Proof.
  intros Hr Hh Hk Hm.
  assert (Hgo : ∀ r calls', reader_at cfg parser_start r → bom_free r (text_of calls input) → Forall (λ c, 0 < cc_chunk c) calls' →
    (Forall roomy calls → Forall roomy calls') → length calls' = length calls →
    ∃ d, drive calls' r (text_of calls input) ([], []) = Ok d ∧
      dr_rows d `prefix_of` parse_all cfg (text_of calls input) ∧
      (dr_ended d = true → dr_rows d = parse_all cfg (text_of calls input)) ∧
      (Forall roomy calls → length input + 2 ≤ length calls → dr_ended d = true)).
  { intros r' calls' Hr' Hb Hk' Hroom Hlen.
    destruct (drive_spec cfg calls' parser_start r' _ Hr' Hb Hk') as (d & Ed & Hpre & Heq & Hlive).
    exists d. split_and!; try done. intros Hroomy Hn. apply Hlive; [by apply Hroom|].
    pose proof (calls_needed_start (text_of calls input)). rewrite Hlen.
    assert (length (text_of calls input) ≤ length input); [|lia].
    unfold text_of. destruct calls; [done|]. destruct (_ && _); [rewrite length_drop; lia|done]. }
  destruct calls as [|call calls]; [eexists; split; [done|]; split_and!; [apply prefix_nil|done|cbn; lia]|].
  destruct (decide (take 3 input = UTF8_BOM)) as [Hb|Hb].
  - apply list.Forall_cons in Hk as [Hk Hks].
    destruct (drive_mark call calls r input ([], []) (ra_table _ _ _ Hr) Hh Hb Hm Hk) as (call' & Hk' & Hroom & ->).
    apply Hgo; [by apply reader_at_has_read|by left|by constructor| |done].
    intros [? ?]%list.Forall_cons. constructor; [by apply Hroom|done].
  - assert (Et : text_of (call :: calls) input = input) by (cbn [text_of]; by rewrite (bool_decide_false _ Hb)).
    pose proof (Hgo r (call :: calls) Hr ltac:(right; by rewrite Et) Hk id eq_refl) as H. by rewrite Et in H |- *.
Qed.

End drive.
