(* ===== verification/CsvEquiv.v ===== *)
(** csv-core's two readers, by the table and by the automaton: calls with input
    agree, calls at the end of the input agree outside of comments. *)
From Stdlib Require Import ZArith Lia Strings.Byte.
From stdpp Require Import base list numbers option sets.
From S2P Require Import Prelude.
From S2P Require Import CsvNfa.
From S2P Require Import CsvDfa.
From S2P Require Import CsvReader.
From S2P Require Import CsvStream.
Open Scope rust_scope.

Section nfa_loop.
Context (cfg : CsvConfig) (p0 : parser) (input output0 : list u8) (ends0 : list nat).
Context (Hempty : p_bytes p0 = []).
#[local] Abbreviation progress := (progress cfg p0 input output0 ends0).
#[local] Abbreviation outcome := (outcome cfg p0 input output0 ends0).
#[local] Abbreviation after := (after cfg p0 input).

(** What the loop does once a move consumes the byte. *)
Definition consumed (fuel : nat) (l : nfa_loop_state) (b : u8) (s : NfaState) (a : NfaInputAction)
    : res unit nfa_loop_state :=
  let o := bool_decide (a = CopyToOutput) in
  let output := if o then <[n_nout l := b]> (n_output l) else n_output l in
  let nout := if o then n_nout l + 1 else n_nout l in
  if is_field_final s then
    let l' := mkNfaLoop (n_nin l + 1) nout (n_nend l + 1) s output (<[n_nend l := nout]> (n_ends l)) in
    if bool_decide (s = EndFieldDelim) then record_loop_nfa fuel cfg input l' else Ok l'
  else record_loop_nfa fuel cfg input (mkNfaLoop (n_nin l + 1) nout (n_nend l) s output (n_ends l)).

Lemma epsilon_not_final s c s' :
  s ≠ End_ → transition_nfa cfg s c = (s', Epsilon) → is_field_final s' = false ∧ s' ≠ End_.
Proof. intros Hs. destruct s; try done; cbn; repeat case_match; intros [= <-]; done. Qed.

(** Epsilon moves only change the state. *)
Lemma epsilon_moves f l b s' a :
  consume_byte f cfg b (n_state l, Epsilon) = Ok (s', a) → a ≠ Epsilon → n_state l ≠ End_ →
  input !! n_nin l = Some b → n_nout l < length (n_output l) → n_nend l < length (n_ends l) →
  ∃ j, j ≤ f ∧ ∀ fuel, record_loop_nfa (j + fuel) cfg input l = consumed fuel l b s' a.
Proof.
  revert l. induction f as [|f IH]; intros l Hc Ha Hs Hb Ho He.
  { simpl in Hc. by rewrite (bool_decide_false _ Hs) in Hc. }
  rewrite consume_epsilon in Hc by done.
  assert (Hround : ∀ fuel, record_loop_nfa (S fuel) cfg input l =
    let '(s, io) := transition_nfa cfg (n_state l) b in
    match io with
    | Epsilon => if is_field_final s then record_loop_nfa (S fuel) cfg input l
                 else record_loop_nfa fuel cfg input
                   (mkNfaLoop (n_nin l) (n_nout l) (n_nend l) s (n_output l) (n_ends l))
    | _ => consumed fuel l b s io
    end).
  { intros fuel. cbn [record_loop_nfa]. rewrite Hb, (bool_decide_true _ Ho), (bool_decide_true _ He).
    cbn [andb]. destruct (transition_nfa cfg (n_state l) b) as [s []]; [|done|done].
    by destruct (is_field_final s). }
  destruct (transition_nfa cfg (n_state l) b) as [s1 a1] eqn:Ht.
  destruct (decide (a1 = Epsilon)) as [->|Ha1].
  - destruct (epsilon_not_final _ _ _ Hs Ht) as [Hf1 He1].
    destruct (IH (mkNfaLoop (n_nin l) (n_nout l) (n_nend l) s1 (n_output l) (n_ends l)))
      as (j & Hj & Hrun); [done..|].
    exists (S j). split; [lia|]. intros fuel. cbn [Nat.add]. rewrite Hround, Hf1. apply Hrun.
  - rewrite consume_stop in Hc by done. injection Hc as -> ->.
    exists 1. split; [lia|]. intros fuel. cbn [Nat.add]. rewrite Hround. by destruct a.
Qed.

Definition nfa_outcome (l : nfa_loop_state) : Prop :=
  n_state l = p_state (after (n_nin l)) ∧
  ∃ w es, outcome (n_nin l) w es (n_nout l) (n_output l) (n_nend l) (n_ends l).

Lemma record_loop_nfa_spec fuel l w es :
  progress (n_nin l) w es (n_nout l) (n_output l) (n_nend l) (n_ends l) →
  n_state l = p_state (after (n_nin l)) →
  EPSILON_CHAIN * (length input - n_nin l) < fuel →
  0 < n_nin l ∨ (n_nin l < length input ∧ n_nout l < length (n_output l) ∧ n_nend l < length (n_ends l)) →
  ∃ l', record_loop_nfa fuel cfg input l = Ok l' ∧ nfa_outcome l'.
Proof.
  remember (length input - n_nin l) as todo eqn:Htodo.
  revert fuel l w es Htodo. induction todo as [todo IH] using lt_wf_ind.
  intros fuel l w es -> H Hstate Hf Hpos.
  pose proof (pr_n _ _ _ _ _ _ _ _ _ _ _ _ H) as Hle.
  destruct (decide (n_nin l < length input ∧ n_nout l < length (n_output l) ∧ n_nend l < length (n_ends l)))
    as [(Hi & Ho & He)|Hstop].
  - apply lookup_lt_is_Some in Hi as Hb. destruct Hb as [b Hb].
    pose proof (pr_wf _ _ _ _ _ _ _ _ _ _ _ _ H) as ((Hdfa & _) & _).
    pose proof (step_eq cfg _ b Hdfa) as Hstep.
    pose proof (consume_byte_eq cfg _ b Hdfa) as Hcons. rewrite <- Hstate in Hcons.
    destruct (read_byte cfg (p_state (after (n_nin l))) b) as [s a] eqn:Hread. rewrite Hstate, Hread in Hcons.
    assert (Ha : a ≠ Epsilon ∧ is_dfa_state s = true).
    { revert Hread. destruct (p_state (after (n_nin l))); try done;
        unfold read_byte, read_record_start, read_start, read_unquoted, read_term;
        repeat case_match; intros [= <- <-]; done. }
    destruct Ha as [Ha Hs]. rewrite <- Hstate in Hcons.
    destruct (epsilon_moves EPSILON_CHAIN l b s a Hcons Ha) as (j & Hj & Hrun); try done.
    { rewrite Hstate. intros E. by rewrite E in Hdfa. }
    replace fuel with (j + (fuel - j)) by (unfold EPSILON_CHAIN in *; nia). rewrite Hrun.
    cbn [fst snd] in Hstep.
    pose proof (progress_step cfg p0 input output0 ends0 _ _ _ _ _ _ _ _ _ _ H Hb Ho He Hstep)
      as (Hst & w' & es' & H'). cbv zeta in H'. rewrite Hempty in H'. cbn [length Nat.add] in H'.
    unfold consumed. destruct (is_record_final s) eqn:Hr.
    + assert (is_field_final s = true) as Hff by (by destruct s). rewrite Hff in *.
      assert (s ≠ EndFieldDelim) as Hd by (by intros ->). rewrite (bool_decide_false _ Hd).
      eexists. split; [reflexivity|]. split; [by rewrite <- Hst|]. by exists w', es'.
    + assert (Hgo : ∀ nout nend output ends,
        progress (n_nin l + 1) w' es' nout output nend ends →
        ∃ l', record_loop_nfa (fuel - j) cfg input (mkNfaLoop (n_nin l + 1) nout nend s output ends) = Ok l'
          ∧ nfa_outcome l').
      { intros nout nend output ends H''.
        eapply (IH (length input - (n_nin l + 1)));
          [lia|reflexivity|exact H''|by rewrite <- Hst|unfold EPSILON_CHAIN in *; nia|left; simpl; lia]. }
      destruct (is_field_final s) eqn:Hff; [|by apply Hgo].
      assert (s = EndFieldDelim) as -> by (by destruct s). rewrite (bool_decide_true _ eq_refl).
      by apply Hgo.
  - assert (Hpos' : 0 < n_nin l) by (destruct Hpos as [|(Hp1 & Hp2 & Hp3)]; [done|by exfalso; apply Hstop]).
    exists l. split; cycle 1.
    { split; [done|]. exists w, es. apply progress_stop; [done|done|]. lia. }
    destruct fuel as [|fuel]; [lia|]. cbn [record_loop_nfa].
    destruct (input !! n_nin l) as [b|] eqn:Hb; [|done]. apply lookup_lt_Some in Hb.
    destruct (decide (n_nout l < length (n_output l))) as [Ho|Ho];
      [rewrite (bool_decide_true _ Ho)|by rewrite (bool_decide_false _ Ho)].
    destruct (decide (n_nend l < length (n_ends l))) as [He|He];
      [|by rewrite (bool_decide_false _ He)]. exfalso. by apply Hstop.
Qed.

End nfa_loop.

Lemma record_from_nfa_verdict s a b c :
  is_dfa_state s = true → record_from_nfa s a b c = Ok (verdict s a b c).
Proof. by destruct s, a, b, c. Qed.

(** A call of the automaton with input. *)
Lemma read_record_nfa_call cfg p r input output ends :
  config r = cfg → parser_wf cfg p → p_bytes p = [] → nfa_state r = p_state p → output_pos r = 0 →
  input ≠ [] → output ≠ [] → ends ≠ [] →
  ∃ c, read_record_nfa r input output ends = Ok c ∧
    (∃ w es, outcome cfg p input output ends (rc_nin c) w es (rc_nout c) (rc_output c)
      (rc_nend c) (rc_ends c)) ∧
    nfa_state (rc_reader c) = p_state (after cfg p input (rc_nin c)) ∧
    rc_result c = verdict (p_state (after cfg p input (rc_nin c)))
      (bool_decide (length input ≤ rc_nin c)) (bool_decide (length output ≤ rc_nout c))
      (bool_decide (length ends ≤ rc_nend c)) ∧
    config (rc_reader c) = cfg ∧ use_nfa (rc_reader c) = use_nfa r ∧ has_read (rc_reader c) = has_read r ∧
    (rc_result c = RR_Record → output_pos (rc_reader c) = 0).
Proof.
  intros <- Hwf Hb Hs Hp Hi Ho He. unfold read_record_nfa.
  rewrite (bool_decide_false _ Hi), (bool_decide_false _ Ho), (bool_decide_false _ He), Hp, Hs.
  destruct (record_loop_nfa_spec (config r) p input output ends Hb
    (EPSILON_CHAIN * S (length input)) (mkNfaLoop 0 0 0 (p_state p) output ends) [] [])
    as (l & E & Hst & w & es & Hout); cbn [n_nin n_nout n_nend n_state n_output n_ends].
  - by apply progress_start.
  - done.
  - unfold EPSILON_CHAIN. lia.
  - right. destruct input, output, ends; simpl; try done; lia.
  - rewrite E. cbn [res_bind]. rewrite Hst, record_from_nfa_verdict by apply Hout. cbn [res_bind].
    eexists. split; [reflexivity|]. cbn [rc_result rc_nin rc_nout rc_nend rc_output rc_ends rc_reader].
    rewrite (fills_length _ _ _ _ (oc_output _ _ _ _ _ _ _ _ _ _ _ _ Hout)).
    rewrite (fills_length _ _ _ _ (oc_ends _ _ _ _ _ _ _ _ _ _ _ _ Hout)).
    split_and!; [by exists w, es|done..|]. cbn [output_pos with_output_pos]. by intros ->.
Qed.

(** * Both readers called the same way *)

(** What a caller sees of a call. *)
Definition seen (c : record_call) : ReadRecordResult * (nat * nat * nat) * list u8 * list nat :=
  (rc_result c, (rc_nin c, rc_nout c, rc_nend c), rc_output c, rc_ends c).

Section both.
Context (debug : bool) (cfg : CsvConfig) (Hcfg : config_ok cfg).

(** A caller who goes on with what is left of the input and the same buffers as
    long as a call ends a record. *)
Fixpoint calls (n : nat) (r : CsvReader) (input output : list u8) (ends : list nat)
    : res unit (list (ReadRecordResult * (nat * nat * nat) * list u8 * list nat)) :=
  match n with
  | O => Ok []
  | S n =>
      let? c := read_record debug r input output ends in
      if is_record (rc_result c)
      then let? l := calls n (rc_reader c) (drop (rc_nin c) input) output ends in Ok (seen c :: l)
      else Ok [seen c]
  end.

(** Two readers between the same two records. *)
Record paired (p : parser) (r1 r2 : CsvReader) : Prop := {
  pd_dfa : reader_at cfg p r1;
  pd_config : config r2 = cfg;
  pd_nfa : use_nfa r2 = true;
  pd_state : nfa_state r2 = p_state p;
  pd_pos : output_pos r2 = 0;
  pd_has_read : has_read r1 = has_read r2;
  pd_bytes : p_bytes p = [];
  pd_between : between (p_state p) = true
}.

Lemma build_paired :
  ∃ r1 r2, build cfg false = Ok r1 ∧ build cfg true = Ok r2 ∧ paired parser_start r1 r2.
Proof.
  destruct (build_reader_at cfg Hcfg) as (r1 & E1 & H1 & Hh & _).
  destruct (build_dfa_spec cfg) as (d & E & Hd).
  exists r1. eexists. split; [done|]. split.
  - unfold build.
    change (dfa (CsvReader_clone (with_config CsvReader_default cfg true))) with Dfa_new.
    change (config (CsvReader_clone (with_config CsvReader_default cfg true))) with cfg.
    rewrite E. reflexivity.
  - by split.
Qed.

(** One call of each, whatever the input and the buffers. *)
Lemma paired_call p r1 r2 input output ends :
  paired p r1 r2 →
  ∃ c1 c2, read_record_dfa debug r1 input output ends = Ok c1 ∧
    read_record_nfa r2 input output ends = Ok c2 ∧ seen c1 = seen c2 ∧
    (rc_result c1 = RR_Record → ∃ p', ∀ b, paired p' (with_has_read (rc_reader c1) b) (with_has_read (rc_reader c2) b)).
Proof.
  intros [H1 Hc Hn Hs Hp Hh Hb Hbt]. destruct (decide (input = [])) as [->|Hi].
  { destruct (read_record_dfa_eof debug cfg p r1 output ends H1) as (c & E & En & Eo & _ & _ & _ & _ & _ & Hres).
    rewrite Hbt in Hres. destruct Hres as (Er & Ee & _).
    exists c. unfold read_record_nfa. rewrite (bool_decide_true _ eq_refl), Hs.
    assert (transition_final_nfa (p_state p) = End_) as -> by (by destruct (p_state p)).
    eexists. split; [done|]. split; [reflexivity|]. split; [|by rewrite Er].
    revert E. unfold read_record_dfa. rewrite (bool_decide_true _ eq_refl).
    destruct (transition_final_dfa _ _) as [s| | | ]; [|done..]. cbn [res_bind].
    destruct (new_read_record_result _ _ _ _ _ _ _) as [x| | |]; [|done..]. cbn [res_bind].
    destruct x; intros E; try (injection E as <-; done).
    case_bool_decide; injection E as <-; done. }
  destruct (decide (output = [])) as [->|Ho].
  { unfold read_record_dfa, read_record_nfa. rewrite (bool_decide_false _ Hi). by do 2 eexists. }
  destruct (decide (ends = [])) as [->|He].
  { unfold read_record_dfa, read_record_nfa. rewrite (bool_decide_false _ Hi), (bool_decide_false _ Ho). by do 2 eexists. }
  destruct (read_record_dfa_call debug cfg p r1 input output ends H1 Hi Ho He)
    as (c1 & E1 & (w1 & es1 & O1) & Hr1 & V1 & _ & Hh1).
  destruct (read_record_nfa_call cfg p r2 input output ends Hc (ra_wf _ _ _ H1) Hb Hs Hp Hi Ho He)
    as (c2 & E2 & (w2 & es2 & O2) & Hs2 & V2 & Hc2 & Hn2 & Hh2 & Hp2).
  destruct (outcome_unique _ _ _ _ _ _ _ _ _ _ _ _ _ _ _ _ _ _ _ O1 O2) as (En & Eo & Eb & Ee & Es).
  rewrite <- En, <- Eo, <- Ee in V2. rewrite <- V1 in V2. rewrite <- En in Hs2.
  exists c1, c2. split_and!; [done..| |].
  { unfold seen. by rewrite V2, En, Eo, Eb, Ee, Es. }
  intros Hrec. exists (after cfg p input (rc_nin c1)). intros b.
  assert (is_record_final (p_state (after cfg p input (rc_nin c1))) = true) as Hf.
  { rewrite Hrec in V1. unfold verdict in V1. by repeat case_match. }
  assert (between (p_state (after cfg p input (rc_nin c1))) = true) as Hbt'.
  { destruct (oc_wf _ _ _ _ _ _ _ _ _ _ _ _ O1) as ((Hd & _) & _).
    by destruct (p_state (after cfg p input (rc_nin c1))). }
  assert (Hwf : p_bytes (after cfg p input (rc_nin c1)) = []).
  { destruct (oc_wf _ _ _ _ _ _ _ _ _ _ _ _ O1) as [_ Hidle].
    apply Hidle. unfold idle. by rewrite Hbt'. }
  split; try done.
  - by apply reader_at_has_read.
  - cbn. by rewrite Hn2.
  - apply Hp2. congruence.
Qed.

Lemma calls_agree n p r1 r2 input output ends :
  paired p r1 r2 → ∃ l, calls n r1 input output ends = Ok l ∧ calls n r2 input output ends = Ok l.
Proof.
  revert p r1 r2 input. induction n as [|n IH]; intros p r1 r2 input Hpd; [by exists []|].
  cbn [calls]. unfold read_record.
  assert (strip_utf8_bom r2 input = strip_utf8_bom r1 input) as ->.
  { unfold strip_utf8_bom. by rewrite (pd_has_read _ _ _ Hpd). }
  destruct (strip_utf8_bom r1 input) as [input' bom].
  rewrite (ra_table _ _ _ (pd_dfa _ _ _ Hpd)), (pd_nfa _ _ _ Hpd).
  destruct (paired_call p r1 r2 input' output ends Hpd) as (c1 & c2 & E1 & E2 & Hseen & Hnext).
  rewrite E1, E2. cbn [res_bind]. unfold seen in *. injection Hseen as Er En Eo Ee Eb Es.
  cbn [rc_result rc_nin rc_nout rc_nend rc_output rc_ends rc_reader].
  rewrite <- Er, <- En, <- Eo, <- Ee, <- Eb, <- Es.
  destruct (is_record (rc_result c1)) eqn:Hrec; [|by eexists].
  destruct Hnext as [p' Hp']; [by destruct (rc_result c1)|].
  destruct (IH p' _ _ (drop (rc_nin c1 + bom) input) (Hp' true)) as (l & L1 & L2).
  rewrite L1, L2. by eexists.
Qed.

End both.
