(* ===== verification/CsvWriter.v ===== *)
(** csv-core's writer ([csv-core/src/writer.rs]): quoting and the calls that put
    fields, delimiters and terminators into a buffer of the caller. *)
From Stdlib Require Import ZArith Lia Strings.Byte.
From stdpp Require Import base list numbers option sets.
From S2P Require Import Prelude.
From S2P Require Import Utf8.
From S2P Require Import CsvNfa.
From S2P Require Import CsvDfa.
Open Scope rust_scope.

(** The crate memchr: the index of the first occurrence of a byte. *)
Class Memchr : Type := memchr : u8 → list u8 → option nat.

Class MemchrOk (M : Memchr) : Prop := {
  memchr_None b l : memchr b l = None → b ∉ l;
  memchr_Some b l i : memchr b l = Some i → l !! i = Some b ∧ b ∉ take i l
}.

(** The hidden constructor, on which [should_quote] panics, is left out. *)
Inductive QuoteStyle : Type := Always | Necessary | NonNumeric | Never.

Inductive WriteResult : Type := W_InputEmpty | W_OutputFull.

Record WriterState : Type := mkWriterState {
  in_field : bool;
  ws_quoting : bool;
  record_bytes : nat
}.

Definition WriterState_default : WriterState := mkWriterState false false 0.

Record CsvWriter : Type := mkCsvWriter {
  w_state : WriterState;
  requires_quotes : list bool;
  w_delimiter : u8;
  w_term : Terminator;
  w_style : QuoteStyle;
  w_quote : u8;
  w_escape : u8;
  w_double_quote : bool
}.

Definition with_state (w : CsvWriter) (s : WriterState) : CsvWriter :=
  mkCsvWriter s (requires_quotes w) (w_delimiter w) (w_term w) (w_style w) (w_quote w) (w_escape w)
    (w_double_quote w).

Definition with_requires_quotes (w : CsvWriter) (t : list bool) : CsvWriter :=
  mkCsvWriter (w_state w) t (w_delimiter w) (w_term w) (w_style w) (w_quote w) (w_escape w)
    (w_double_quote w).

(** [self.state.record_bytes += o]. *)
Definition add_bytes (w : CsvWriter) (o : nat) : CsvWriter :=
  with_state w (mkWriterState (in_field (w_state w)) (ws_quoting (w_state w))
    (record_bytes (w_state w) + o)).
Definition set_quoting (w : CsvWriter) (b : bool) : CsvWriter :=
  with_state w (mkWriterState (in_field (w_state w)) b (record_bytes (w_state w))).
Definition set_in_field (w : CsvWriter) (b : bool) : CsvWriter :=
  with_state w (mkWriterState b (ws_quoting (w_state w)) (record_bytes (w_state w))).
Definition set_record_bytes (w : CsvWriter) (n : nat) : CsvWriter :=
  with_state w (mkWriterState (in_field (w_state w)) (ws_quoting (w_state w)) n).

(** [WriterBuilder::new] with what the setters change. *)
Definition WriterBuilder_new (delimiter : u8) (term : Terminator) (style : QuoteStyle) (quote escape : u8)
    (double_quote : bool) : CsvWriter :=
  mkCsvWriter WriterState_default (replicate 256 false) delimiter term style quote escape double_quote.

Definition DEFAULT_WRITER : CsvWriter :=
  WriterBuilder_new x2c (Term_Any LF) Necessary x22 x5c true.

Definition mark (t : list bool) (b : u8) : list bool := <[byte_ix b := true]> t.

(** [WriterBuilder::build]. *)
Definition build_writer (wtr : CsvWriter) : CsvWriter :=
  let t := mark (requires_quotes wtr) (w_delimiter wtr) in
  let t := mark t (w_quote wtr) in
  let t := if negb (w_double_quote wtr) then mark t (w_escape wtr) else t in
  let t := match w_term wtr with
    | Term_CRLF => mark (mark t CR) LF
    | Term_Any b => if beq b LF || beq b CR then mark (mark t CR) LF else mark t b
    end in
  with_requires_quotes wtr t.

(** * Numbers *)

Definition is_digit (b : u8) : bool := byte_in 0x30 0x39 b.

(** The digits at the front, and what follows them. *)
Fixpoint split_digits (s : list u8) : list u8 * list u8 :=
  match s with
  | [] => ([], [])
  | b :: s' => if is_digit b then let '(ds, rest) := split_digits s' in (b :: ds, rest) else ([], s)
  end.

Definition skip_sign (s : list u8) : list u8 :=
  match s with
  | b :: s' => if beq b x2b || beq b x2d then s' else s
  | [] => []
  end.

Definition to_lower (b : u8) : u8 := if byte_in 0x41 0x5a b then byte_of (byte_val b + 32) else b.

(** The exponent of a number, or nothing. *)
Definition exponent_ok (s : list u8) : bool :=
  match s with
  | [] => true
  | b :: s' =>
      if beq (to_lower b) x65 then
        let '(ds, rest) := split_digits (skip_sign s') in
        negb (bool_decide (ds = [])) && bool_decide (rest = [])
      else false
  end.

(** [s.parse::<f64>().is_ok()]: an optional sign, then infinity, NaN or a decimal
    number with an optional exponent. *)
Definition parses_f64 (s : list u8) : bool :=
  let s := skip_sign s in
  let lower := to_lower <$> s in
  if bool_decide (lower = [x69; x6e; x66]) || bool_decide (lower = [x6e; x61; x6e])
     || bool_decide (lower = [x69; x6e; x66; x69; x6e; x69; x74; x79])
  then true
  else
    let '(int, rest) := split_digits s in
    match rest with
    | x2e :: rest =>
        let '(frac, rest) := split_digits rest in
        (negb (bool_decide (int = [])) || negb (bool_decide (frac = []))) && exponent_ok rest
    | _ => negb (bool_decide (int = [])) && exponent_ok rest
    end.

Definition digits_val (ds : list u8) : Z := foldl (λ v b, (v * 10 + (byte_val b - 0x30))%Z) 0%Z ds.

(** [s.parse::<i128>().is_ok()]. *)
Definition parses_i128 (s : list u8) : bool :=
  let neg := match s with b :: _ => beq b x2d | [] => false end in
  let '(ds, rest) := split_digits (skip_sign s) in
  negb (bool_decide (ds = [])) && bool_decide (rest = [])
  && (if neg then (digits_val ds <=? 2 ^ 127)%Z else (digits_val ds <=? 2 ^ 127 - 1)%Z).

Definition is_non_numeric (input : list u8) : bool :=
  if valid_utf8 input then negb (parses_f64 input) && negb (parses_i128 input) else true.

(** * Quotes *)

(** A byte as an index of [requires_quotes], which has an entry for each. *)
Definition is_special_byte (w : CsvWriter) (b : u8) : bool :=
  default false (requires_quotes w !! byte_ix b).

(** The loop of [needs_quotes] over eight bytes at a time. *)
Fixpoint needs_quotes_loop (fuel : nat) (w : CsvWriter) (needs : bool) (input : list u8)
    : res unit bool :=
  if negb needs && bool_decide (8 ≤ length input) then
    match fuel with
    | O => NoFuel
    | S fuel =>
        let at_ i := default false (is_special_byte w <$> input !! i) in
        needs_quotes_loop fuel w
          (at_ 0 || at_ 1 || at_ 2 || at_ 3 || at_ 4 || at_ 5 || at_ 6 || at_ 7) (drop 8 input)
    end
  else Ok (needs || existsb (is_special_byte w) input).

Definition needs_quotes (w : CsvWriter) (input : list u8) : res unit bool :=
  needs_quotes_loop (length input) w false input.

Definition should_quote (w : CsvWriter) (input : list u8) : res unit bool :=
  match w_style w with
  | Always => Ok true
  | Never => Ok false
  | NonNumeric => Ok (is_non_numeric input)
  | Necessary => needs_quotes w input
  end.

(** A slice after [copy_from_slice] to its front. *)
Definition overwrite (data output : list u8) : list u8 := data ++ drop (length data) output.

(** [Writer::write]. *)
Definition write (data output : list u8) : WriteResult * nat * list u8 :=
  if bool_decide (length output < length data) then (W_OutputFull, 0, output)
  else (W_InputEmpty, length data, overwrite data output).

Definition write_optimistic (input output : list u8) : WriteResult * nat * nat * list u8 :=
  if bool_decide (length output < length input)
  then (W_OutputFull, length output, length output, take (length output) input)
  else (W_InputEmpty, length input, length input, overwrite input output).

Definition write_pessimistic (input output : list u8) : WriteResult * nat * list u8 :=
  if bool_decide (length output < length input) then (W_OutputFull, 0, output)
  else (W_InputEmpty, length input, overwrite input output).

Section writer.
Context `{Memchr}.

(** The loop of [quote].  Every round but the last gets past a quote. *)
Fixpoint quote_loop (fuel : nat) (input output : list u8) (quote escape : u8) (double_quote : bool)
    : res unit (WriteResult * nat * nat * list u8) :=
  match fuel with
  | O => NoFuel
  | S fuel =>
      match memchr quote input with
      | None => Ok (write_optimistic input output)
      | Some next_quote =>
          let '(r, i, o, out) := write_optimistic (take next_quote input) output in
          let input := drop i input in
          match r with
          | W_OutputFull => Ok (r, i, o, out)
          | W_InputEmpty =>
              let '(r, o2, out2) := write_pessimistic
                (if double_quote then [quote; quote] else [escape; quote]) (drop o out) in
              match r with
              | W_OutputFull => Ok (r, i, o, out)
              | W_InputEmpty =>
                  let? rest := quote_loop fuel (drop 1 input) (drop o2 out2) quote escape double_quote in
                  let '(r, i3, o3, out3) := rest in
                  Ok (r, i + 1 + i3, o + o2 + o3, take o out ++ take o2 out2 ++ out3)
              end
          end
      end
  end.

Definition quote_bytes (input output : list u8) (quote escape : u8) (double_quote : bool)
    : res unit (WriteResult * nat * nat * list u8) :=
  quote_loop (S (length input)) input output quote escape double_quote.


Definition field (w : CsvWriter) (input output : list u8)
    : res unit (WriteResult * nat * nat * list u8 * CsvWriter) :=
  let put (w : CsvWriter) (nout : nat) (output : list u8) :=
    let? r := if ws_quoting (w_state w)
      then quote_bytes input (drop nout output) (w_quote w) (w_escape w) (w_double_quote w)
      else Ok (write_optimistic input (drop nout output)) in
    let '(r, i, o, out) := r in
    Ok (r, i, nout + o, take nout output ++ out, add_bytes w o) in
  if in_field (w_state w) then put w 0 output
  else
    let? quoting := should_quote w input in
    let w := set_quoting w quoting in
    if quoting then
      let '(r, o, out) := write [w_quote w] output in
      if bool_decide (o = 0) then Ok (r, 0, 0, output, w)
      else put (set_in_field (add_bytes w o) true) o out
    else put (set_in_field w true) 0 output.

(** [Writer::delimiter]. *)
Definition write_delimiter (w : CsvWriter) (output : list u8)
    : WriteResult * nat * list u8 * CsvWriter :=
  let put (w : CsvWriter) (nout : nat) (output : list u8) :=
    let '(r, o, out) := write [w_delimiter w] (drop nout output) in
    if bool_decide (o = 0) then (r, nout, output, w)
    else (r, nout + o, take nout output ++ out, set_in_field (add_bytes w o) false) in
  if ws_quoting (w_state w) then
    let '(r, o, out) := write [w_quote w] output in
    if bool_decide (o = 0) then (r, o, output, w)
    else put (set_quoting (add_bytes w o) false) o out
  else put w 0 output.

(** [Writer::terminator]. *)
Definition write_terminator (w : CsvWriter) (output : list u8)
    : res unit (WriteResult * nat * list u8 * CsvWriter) :=
  let put (w : CsvWriter) (nout : nat) (output : list u8) :=
    let data := match w_term w with Term_CRLF => [CR; LF] | Term_Any b => [b] end in
    let '(r, o, out) := write_pessimistic data (drop nout output) in
    if bool_decide (o = 0) then (r, nout, output, w)
    else (r, nout + o, take nout output ++ out, set_in_field (set_record_bytes w 0) false) in
  let close (w : CsvWriter) (nout : nat) (output : list u8) :=
    if ws_quoting (w_state w) then
      let '(r, o, out) := write [w_quote w] (drop nout output) in
      if bool_decide (o = 0) then (r, o, output, w)
      else put (set_quoting (add_bytes w o) false) (nout + o) (take nout output ++ out)
    else put w nout output in
  if bool_decide (record_bytes (w_state w) = 0) then
    if ws_quoting (w_state w) then Panic
    else
      let '(r, o, out) := write [w_quote w; w_quote w] output in
      if bool_decide (o = 0) then Ok (r, 0, output, w)
      else Ok (close (add_bytes w o) o out)
  else Ok (close w 0 output).

(** [Writer::finish]. *)
Definition writer_finish (w : CsvWriter) (output : list u8)
    : res unit (WriteResult * nat * list u8 * CsvWriter) :=
  let close (w : CsvWriter) (nout : nat) (output : list u8) :=
    if negb (ws_quoting (w_state w)) then (W_InputEmpty, nout, output, w)
    else
      let '(r, o, out) := write [w_quote w] (drop nout output) in
      if bool_decide (o = 0) then (r, nout, output, w)
      else (r, nout + o, take nout output ++ out,
            set_quoting (set_in_field (set_record_bytes w 0) false) false) in
  if bool_decide (record_bytes (w_state w) = 0) && in_field (w_state w) then
    if ws_quoting (w_state w) then Panic
    else
      let '(r, o, out) := write [w_quote w; w_quote w] output in
      if bool_decide (o = 0) then Ok (r, 0, output, w)
      else Ok (close (add_bytes w o) o out)
  else Ok (close w 0 output).

End writer.

(** * What the calls write *)

(** The bytes of a field inside quotes. *)
Fixpoint escaped (q e : u8) (dq : bool) (l : list u8) : list u8 :=
  match l with
  | [] => []
  | b :: l => (if beq b q then (if dq then [q; q] else [e; q]) else [b]) ++ escaped q e dq l
  end.

Lemma escaped_app q e dq l l' : escaped q e dq (l ++ l') = escaped q e dq l ++ escaped q e dq l'.
Proof. induction l as [|b l IH]; [done|]. simpl. by rewrite IH, app_assoc. Qed.

Lemma escaped_plain q e dq l : q ∉ l → escaped q e dq l = l.
Proof.
  induction l as [|b l IH]; intros Hq; [done|]. simpl.
  rewrite beq_neq by set_solver. simpl. f_equal. apply IH. set_solver.
Qed.

Lemma escaped_length q e dq l : length l ≤ length (escaped q e dq l).
Proof. induction l as [|b l IH]; [done|]. simpl. rewrite length_app. destruct (beq b q), dq; simpl; lia. Qed.

(** A call that wrote [data] to the front of a buffer. *)
Definition wrote (data output out : list u8) (nout : nat) : Prop :=
  nout = length data ∧ nout ≤ length output ∧ out = data ++ drop nout output.

Lemma wrote_nil output : wrote [] output output 0.
Proof. split_and!; simpl; [done|lia|done]. Qed.

Lemma wrote_length data output out n : wrote data output out n → length out = length output.
Proof. intros (-> & H & ->). rewrite length_app, length_drop. lia. Qed.

Lemma wrote_take data output out n : wrote data output out n → take n out = data.
Proof. intros (-> & H & ->). by rewrite take_app_length. Qed.

Lemma wrote_drop data output out n : wrote data output out n → drop n out = drop n output.
Proof. intros (-> & H & ->). by rewrite drop_app_length. Qed.

(** Two calls, the second behind what the first has written. *)
Lemma wrote_app d1 d2 output out1 out2 n1 n2 :
  wrote d1 output out1 n1 → wrote d2 (drop n1 out1) out2 n2 →
  wrote (d1 ++ d2) output (take n1 out1 ++ out2) (n1 + n2).
Proof.
  intros H1 H2. pose proof (wrote_take _ _ _ _ H1) as T. pose proof (wrote_drop _ _ _ _ H1) as D.
  destruct H1 as (-> & Hl1 & _). rewrite D in H2. destruct H2 as (-> & Hl2 & ->).
  rewrite length_drop in Hl2. split_and!; [by rewrite length_app|lia|].
  by rewrite T, <- app_assoc, drop_drop.
Qed.

Lemma write_Ok data output :
  length data ≤ length output →
  ∃ out, write data output = (W_InputEmpty, length data, out) ∧ wrote data output out (length data).
Proof.
  intros Hl. unfold write. rewrite bool_decide_false by lia. eexists. split; [done|]. by split_and!.
Qed.

Lemma write_full data output :
  length output < length data → write data output = (W_OutputFull, 0, output).
Proof. intros Hl. unfold write. by rewrite bool_decide_true. Qed.

Lemma write_pessimistic_write data output : write_pessimistic data output = write data output.
Proof. done. Qed.

Lemma write_optimistic_spec input output :
  ∃ r nin out, write_optimistic input output = (r, nin, nin, out) ∧ nin ≤ length input ∧
    wrote (take nin input) output out nin ∧
    (r = W_InputEmpty ∧ nin = length input ∨
     r = W_OutputFull ∧ nin < length input ∧ nin = length output).
Proof.
  unfold write_optimistic. destruct (decide (length output < length input)) as [Hl|Hl];
    [rewrite (bool_decide_true _ Hl)|rewrite (bool_decide_false _ Hl)].
  - eexists _, _, _. split; [reflexivity|]. split; [lia|]. split; [|right; done].
    split_and!; [rewrite length_take; lia|done|].
    by rewrite drop_ge, app_nil_r by lia.
  - eexists _, _, _. split; [reflexivity|]. split; [lia|]. split; [|left; done].
    rewrite take_ge by lia. split_and!; [done|lia|done].
Qed.

Section writer_laws.
Context `{M : Memchr} `{!MemchrOk M}.

Lemma quote_loop_spec fuel input output q e dq :
  length input < fuel →
  ∃ r nin nout out, quote_loop fuel input output q e dq = Ok (r, nin, nout, out) ∧
    nin ≤ length input ∧ wrote (escaped q e dq (take nin input)) output out nout ∧
    (r = W_InputEmpty ∧ nin = length input ∨
     r = W_OutputFull ∧ nin < length input ∧ length output < nout + 2) ∧
    (2 ≤ length output → input = [] ∨ 0 < nin).
Proof.
  revert input output. induction fuel as [|fuel IH]; intros input output Hf; [lia|].
  cbn [quote_loop]. destruct (memchr q input) as [i|] eqn:Hm.
  - apply memchr_Some in Hm as [Hi Hni]. apply lookup_lt_Some in Hi as Hlt.
    destruct (write_optimistic_spec (take i input) output) as (r & nin & out & -> & Hnin & Hw & Hr).
    rewrite length_take in Hnin. rewrite take_take, Nat.min_l in Hw by lia.
    assert (Hesc : escaped q e dq (take nin input) = take nin input).
    { apply escaped_plain. intros Hin. apply Hni.
      apply elem_of_take in Hin as (j & Hj & Hjn). apply elem_of_take. exists j. split; [done|lia]. }
    destruct Hr as [(-> & Hn)|(-> & Hn & Ho)]; rewrite length_take in Hn.
    + replace (i `min` length input) with i in Hn by lia. subst nin.
      rewrite write_pessimistic_write. set (pair := if dq then [q; q] else [e; q]).
      assert (Hpair : length pair = 2) by (unfold pair; by destruct dq).
      pose proof (wrote_length _ _ _ _ Hw) as Hlo.
      assert (Hin : take (i + 1) input = take i input ++ [q]).
      { replace (i + 1) with (S i) by lia. by apply take_S_r. }
      assert (Hesc1 : escaped q e dq (take (i + 1) input) = take i input ++ pair).
      { rewrite Hin, escaped_app, Hesc. simpl. by rewrite beq_refl, app_nil_r. }
      destruct (decide (length (drop i out) < length pair)) as [Hfull|Hroom].
      * rewrite write_full by done. eexists _, _, _, _. split; [reflexivity|].
        rewrite length_drop in Hfull. split_and!; [lia|by rewrite Hesc|right; split_and!; [done|lia|lia]|].
        intros. right. destruct i; [|lia]. exfalso. simpl in *. lia.
      * destruct (write_Ok pair (drop i out)) as (out2 & -> & Hw2); [lia|].
        rewrite drop_drop.
        destruct (IH (drop (i + 1) input) (drop (length pair) out2)) as (r & n3 & o3 & out3 & -> & Hn3 & Hw3 & Hr3 & _).
        { rewrite length_drop. lia. }
        cbn [res_bind]. rewrite length_drop in Hn3, Hr3.
        pose proof (wrote_app _ _ _ _ _ _ _ Hw2 Hw3) as Hw23.
        pose proof (wrote_app _ _ _ _ _ _ _ Hw Hw23) as Hall.
        eexists _, _, _, _. split; [reflexivity|]. split_and!.
        -- lia.
        -- rewrite <- (Nat.add_assoc i (length pair) o3). rewrite app_assoc in Hall.
           replace (escaped q e dq (take (i + 1 + n3) input)) with
             ((take i input ++ pair) ++ escaped q e dq (take n3 (drop (i + 1) input))); [done|].
           rewrite <- Hesc1, <- escaped_app. f_equal.
           rewrite <- (take_drop (i + 1) input) at 3. rewrite take_app.
           rewrite length_take, Nat.min_l by lia. rewrite take_take, Nat.min_r by lia.
           f_equal. f_equal. lia.
        -- destruct Hr3 as [[-> ?]|(-> & ? & Hl3)]; [left; split; [done|lia]|right; split_and!; [done|lia|]].
           pose proof (wrote_length _ _ _ _ Hw2) as Hl2. rewrite !length_drop in *. lia.
        -- intros _. right. lia.
    + eexists _, _, _, _. split; [reflexivity|]. split_and!; [lia|by rewrite Hesc|right; split_and!; [done|lia|lia]|].
      intros. right. lia.
  - apply memchr_None in Hm.
    destruct (write_optimistic_spec input output) as (r & nin & out & -> & Hnin & Hw & Hr).
    assert (Hesc : escaped q e dq (take nin input) = take nin input).
    { apply escaped_plain. intros Hin. apply Hm. apply elem_of_take in Hin as (j & Hj & _).
      by apply list_elem_of_lookup_2 in Hj. }
    eexists _, _, _, _. split; [reflexivity|]. rewrite Hesc. split_and!; [done|done| |].
    { destruct Hr as [?|(? & ? & ?)]; [by left|right; split_and!; [done|done|lia]]. }
    intros. destruct input; [by left|right]. destruct Hr as [[_ ->]|(_ & _ & ->)]; simpl; lia.
Qed.

End writer_laws.

(** ** Which fields are quoted *)

Lemma needs_quotes_loop_spec fuel w needs input :
  length input ≤ fuel →
  needs_quotes_loop fuel w needs input = Ok (needs || existsb (is_special_byte w) input).
Proof.
  revert needs input. induction fuel as [|fuel IH]; intros needs input Hf; cbn [needs_quotes_loop].
  - rewrite bool_decide_false by lia. by rewrite andb_false_r.
  - destruct (decide (8 ≤ length input)) as [Hl|Hl];
      [rewrite (bool_decide_true _ Hl)|by rewrite (bool_decide_false _ Hl), andb_false_r].
    destruct needs; [done|]. cbn [negb andb]. rewrite IH by (rewrite length_drop; lia).
    do 8 (destruct input as [|? input]; [simpl in Hl; lia|]). cbn. by rewrite !orb_assoc.
Qed.

Lemma needs_quotes_spec w input : needs_quotes w input = Ok (existsb (is_special_byte w) input).
Proof. unfold needs_quotes. by rewrite needs_quotes_loop_spec. Qed.

(** ** The calls of a writer *)

Section writer_calls.
Context `{M : Memchr} `{!MemchrOk M} (w0 : CsvWriter).
#[local] Abbreviation at_state := (with_state w0).
#[local] Abbreviation esc := (escaped (w_quote w0) (w_escape w0) (w_double_quote w0)).

(** Is this field put in quotes? *)
Definition quoted (f : list u8) : bool :=
  match w_style w0 with
  | Always => true
  | Never => false
  | NonNumeric => is_non_numeric f
  | Necessary => existsb (is_special_byte w0) f
  end.

Lemma should_quote_spec s f : should_quote (at_state s) f = Ok (quoted f).
Proof.
  unfold should_quote, quoted. cbn [w_style with_state].
  destruct (w_style w0); try done. by rewrite needs_quotes_spec.
Qed.

(** What is still to be written of a field, up to its closing quote. *)
Definition body (s : WriterState) (f : list u8) : list u8 :=
  if in_field s then (if ws_quoting s then esc f else f)
  else if quoted f then w_quote w0 :: esc f else f.

Definition will_quote (s : WriterState) (f : list u8) : bool :=
  if in_field s then ws_quoting s else quoted f.

(** Writing more of a field that has been begun. *)
Lemma field_continue s f buf q :
  ws_quoting s = q →
  ∃ r nin nout out,
    (if q then quote_bytes f buf (w_quote w0) (w_escape w0) (w_double_quote w0)
     else Ok (write_optimistic f buf)) = Ok (r, nin, nout, out) ∧
    nin ≤ length f ∧ wrote (if q then esc (take nin f) else take nin f) buf out nout ∧
    (r = W_InputEmpty ∧ nin = length f ∨ r = W_OutputFull ∧ nin < length f) ∧
    (2 ≤ length buf → f = [] ∨ 0 < nin).
Proof.
  intros _. destruct q.
  - unfold quote_bytes. destruct (quote_loop_spec (S (length f)) f buf (w_quote w0) (w_escape w0)
      (w_double_quote w0)) as (r & nin & nout & out & -> & H1 & H2 & H3 & H4); [lia|].
    exists r, nin, nout, out. split_and!; try done. destruct H3 as [?|(? & ? & _)]; [by left|by right].
  - destruct (write_optimistic_spec f buf) as (r & nin & out & -> & H1 & H2 & H3).
    exists r, nin, nin, out. split_and!; try done.
    + destruct H3 as [?|(? & ? & _)]; [by left|by right].
    + intros. destruct f; [by left|right]. destruct H3 as [[_ ->]|(_ & _ & ->)]; simpl; lia.
Qed.

Lemma field_spec s f buf :
  ∃ r nin nout out s' d, field (at_state s) f buf = Ok (r, nin, nout, out, at_state s') ∧
    nin ≤ length f ∧ wrote d buf out nout ∧ record_bytes s' = record_bytes s + nout ∧
    body s f = d ++ body s' (drop nin f) ∧ will_quote s' (drop nin f) = will_quote s f ∧
    (r = W_InputEmpty ∧ nin = length f ∧ in_field s' = true ∨
     r = W_OutputFull ∧ (2 ≤ length buf → in_field s' = true ∧ (in_field s = false ∨ 0 < nin))).
Proof.
  unfold field. cbn [w_state with_state].
  destruct (in_field s) eqn:Hin.
  - destruct (field_continue s f (drop 0 buf) (ws_quoting s) eq_refl)
      as (r & nin & nout & out & E & H1 & H2 & H3 & H4).
    cbn [w_quote w_escape w_double_quote with_state]. rewrite E. cbn [res_bind].
    eexists r, nin, nout, out, (mkWriterState (in_field s) (ws_quoting s) (record_bytes s + nout)), _.
    split; [reflexivity|]. rewrite drop_0 in *. unfold body, will_quote. cbn. rewrite Hin.
    split_and!; [done|exact H2|done| |done|].
    + destruct (ws_quoting s); [by rewrite <- escaped_app, take_drop|by rewrite take_drop].
    + destruct H3 as [[-> ->]|[-> Hn]]; [by left|right]. split; [done|]. intros Hb. split; [done|].
      right. destruct (H4 Hb) as [->|]; [simpl in Hn; lia|done].
  - rewrite should_quote_spec. cbn [res_bind]. destruct (quoted f) eqn:Hq; cbn [w_quote with_state set_quoting].
    + destruct (decide (length buf < 1)) as [Hb|Hb].
      { rewrite write_full by done. cbn.
        eexists _, 0, 0, buf, (mkWriterState (in_field s) true (record_bytes s)), [].
        split; [reflexivity|]. unfold body, will_quote. cbn. rewrite Hin, drop_0, Hq.
        split_and!; try done; try lia; [apply wrote_nil|]. right. split; [done|lia]. }
      destruct (write_Ok [w_quote w0] buf) as (out1 & -> & Hw1); [simpl; lia|].
      cbn [length]. rewrite bool_decide_false by lia.
      destruct (field_continue (mkWriterState true true 0) f (drop 1 out1) true eq_refl)
        as (r & nin & nout & out & E & H1 & H2 & H3 & H4). cbn in E |- *. rewrite E. cbn [res_bind].
      cbn iota in H2. pose proof (wrote_app _ _ _ _ _ _ _ Hw1 H2) as Hw.
      eexists r, nin, (1 + nout), _, (mkWriterState true true (record_bytes s + 1 + nout)), _.
      split; [reflexivity|]. unfold body, will_quote. cbn. rewrite Hin, Hq.
      split_and!; [done|exact Hw|lia| |done|].
      * cbn [app]. by rewrite <- escaped_app, take_drop.
      * destruct H3 as [[-> ->]|[-> Hn]]; [by left|right]. split; [done|]. intros _. split; [done|by left].
    + destruct (field_continue (mkWriterState true false 0) f (drop 0 buf) false eq_refl)
        as (r & nin & nout & out & E & H1 & H2 & H3 & H4). rewrite drop_0 in *. cbn in E |- *.
      injection E as ->. cbn iota in H2.
      eexists r, nin, nout, out, (mkWriterState true false (record_bytes s + nout)), _.
      split; [reflexivity|]. unfold body, will_quote. cbn. rewrite Hin, Hq.
      split_and!; [done|exact H2|lia|by rewrite take_drop|done|].
      destruct H3 as [[-> ->]|[-> Hn]]; [by left|right]. split; [done|]. intros _. split; [done|by left].
Qed.

(** The quote that closes a field. *)
Definition closing (s : WriterState) : list u8 := if ws_quoting s then [w_quote w0] else [].

Lemma write_delimiter_spec s buf :
  ∃ r nout out s' d, write_delimiter (at_state s) buf = (r, nout, out, at_state s') ∧
    wrote d buf out nout ∧ record_bytes s' = record_bytes s + nout ∧
    (r = W_InputEmpty ∧ closing s ++ [w_delimiter w0] = d ∧ in_field s' = false ∧ ws_quoting s' = false ∨
     r = W_OutputFull ∧ closing s = d ++ closing s' ∧ length buf < 2).
Proof.
  unfold write_delimiter, closing. cbn [w_state with_state w_quote w_delimiter].
  assert (Hput : ∀ s1 out0 n d0, ws_quoting s1 = false → wrote d0 buf out0 n → n < 2 →
    record_bytes s1 = record_bytes s + n →
    ∃ r nout out s' d,
      (let '(r, o, out) := write [w_delimiter w0] (drop n out0) in
       if bool_decide (o = 0) then (r, n, out0, at_state s1)
       else (r, n + o, take n out0 ++ out, set_in_field (add_bytes (at_state s1) o) false))
      = (r, nout, out, at_state s') ∧ wrote d buf out nout ∧ record_bytes s' = record_bytes s + nout ∧
      ws_quoting s' = false ∧
      (r = W_InputEmpty ∧ d = d0 ++ [w_delimiter w0] ∧ in_field s' = false ∨
       r = W_OutputFull ∧ d = d0 ∧ length buf < 2)).
  { intros s1 out0 n d0 Hq Hw Hn Hrb. pose proof (wrote_length _ _ _ _ Hw) as Hl.
    destruct (decide (length (drop n out0) < 1)) as [Hb|Hb].
    - rewrite write_full by done. rewrite length_drop in Hb. cbn.
      eexists _, n, out0, s1, d0. split; [reflexivity|]. split_and!; try done. right. split_and!; [done..|lia].
    - destruct (write_Ok [w_delimiter w0] (drop n out0)) as (out1 & -> & Hw1); [simpl; lia|].
      cbn [length]. rewrite bool_decide_false by lia. pose proof (wrote_app _ _ _ _ _ _ _ Hw Hw1) as Hw2.
      eexists _, _, _, (mkWriterState false (ws_quoting s1) (record_bytes s1 + 1)), _.
      split; [reflexivity|]. cbn. split_and!; [exact Hw2|lia|done|]. left. done. }
  destruct (ws_quoting s) eqn:Hq.
  - destruct (decide (length buf < 1)) as [Hb|Hb].
    + rewrite write_full by done. cbn. eexists _, 0, buf, s, []. split; [reflexivity|].
      split_and!; [apply wrote_nil|lia|]. right. rewrite Hq. split_and!; [done..|lia].
    + destruct (write_Ok [w_quote w0] buf) as (out1 & -> & Hw1); [simpl; lia|].
      cbn [length]. rewrite bool_decide_false by lia.
      destruct (Hput (mkWriterState (in_field s) false (record_bytes s + 1)) out1 1 [w_quote w0])
        as (r & nout & out & s' & d & E & H1 & H2 & H3 & H4); [done|exact Hw1|lia|done|].
      eexists r, nout, out, s', d. split; [exact E|]. rewrite H3.
      split_and!; [done|done|]. destruct H4 as [(-> & -> & ?)|(-> & -> & ?)]; [left|right]; done.
  - destruct (Hput s buf 0 []) as (r & nout & out & s' & d & E & H1 & H2 & H3 & H4);
      [done|apply wrote_nil|lia|lia|].
    eexists r, nout, out, s', d. split; [exact E|]. rewrite H3. split_and!; [done|done|].
    destruct H4 as [(-> & -> & ?)|(-> & -> & ?)]; [left|right]; done.
Qed.

Definition term_bytes : list u8 :=
  match w_term w0 with Term_CRLF => [CR; LF] | Term_Any b => [b] end.

(** What comes before the terminator: two quotes for a record without bytes. *)
Definition before_term (s : WriterState) : list u8 :=
  if bool_decide (record_bytes s = 0) then [w_quote w0; w_quote w0] else closing s.

(** Nothing has been written of a record, not even an opening quote. *)
Definition state_wf (s : WriterState) : Prop := record_bytes s = 0 → ws_quoting s = false.

Lemma term_bytes_length : 1 ≤ length term_bytes ≤ 2.
Proof. unfold term_bytes. destruct (w_term w0); simpl; lia. Qed.

(** What is left to write when the terminator is asked for again. *)
Lemma write_terminator_spec s buf :
  state_wf s →
  ∃ r nout out s' d, write_terminator (at_state s) buf = Ok (r, nout, out, at_state s') ∧
    wrote d buf out nout ∧ state_wf s' ∧
    (r = W_InputEmpty ∧ before_term s ++ term_bytes = d ∧ s' = WriterState_default ∨
     r = W_OutputFull ∧ before_term s = d ++ before_term s' ∧
       (2 ≤ length buf → before_term s' = [] ∧ before_term s ≠ [])).
Proof.
  intros Hwf. unfold write_terminator. cbn [w_state with_state w_quote w_term].
  fold term_bytes.
  assert (Hput : ∀ s1 out0 n d0, ws_quoting s1 = false → record_bytes s1 ≠ 0 → wrote d0 buf out0 n →
    ∃ r nout out s' d,
      (let '(r, o, out) := write_pessimistic term_bytes (drop n out0) in
       if bool_decide (o = 0) then (r, n, out0, at_state s1)
       else (r, n + o, take n out0 ++ out, set_in_field (set_record_bytes (at_state s1) 0) false))
      = (r, nout, out, at_state s') ∧ wrote d buf out nout ∧ state_wf s' ∧
      (r = W_InputEmpty ∧ d = d0 ++ term_bytes ∧ s' = WriterState_default ∨
       r = W_OutputFull ∧ d = d0 ∧ s' = s1 ∧ length buf < n + 2)).
  { intros s1 out0 n d0 Hq Hrb Hw. pose proof (wrote_length _ _ _ _ Hw) as Hl.
    pose proof term_bytes_length as Ht. rewrite write_pessimistic_write.
    destruct (decide (length (drop n out0) < length term_bytes)) as [Hb|Hb].
    - rewrite write_full by done. rewrite length_drop in Hb. cbn [bool_decide decide_rel Nat.eq_dec].
      eexists _, n, out0, s1, d0. split; [reflexivity|].
      split_and!; [done|by intros ?|]. right. split_and!; [done..|lia].
    - destruct (write_Ok term_bytes (drop n out0)) as (out1 & -> & Hw1); [lia|].
      rewrite bool_decide_false by lia. pose proof (wrote_app _ _ _ _ _ _ _ Hw Hw1) as Hw2.
      eexists _, _, _, (mkWriterState false (ws_quoting s1) 0), _. split; [reflexivity|].
      cbn. split_and!; [exact Hw2|intros _; exact Hq|]. left. by rewrite Hq. }
  unfold before_term. destruct (decide (record_bytes s = 0)) as [H0|H0].
  - rewrite (bool_decide_true _ H0), (Hwf H0).
    destruct (decide (length buf < 2)) as [Hb|Hb].
    + rewrite write_full by done. cbn. eexists _, 0, buf, s, []. split; [reflexivity|].
      split_and!; [apply wrote_nil|done|]. right. rewrite (bool_decide_true _ H0). split_and!; [done..|lia].
    + destruct (write_Ok [w_quote w0; w_quote w0] buf) as (out1 & -> & Hw1); [simpl; lia|].
      cbn [length]. rewrite (bool_decide_false (2 = 0)) by lia.
      cbn [ws_quoting w_state with_state add_bytes]. rewrite (Hwf H0).
      destruct (Hput (mkWriterState (in_field s) (ws_quoting s) (record_bytes s + 2)) out1 2 [w_quote w0; w_quote w0])
        as (r & nout & out & s' & d & E & H1 & H2 & H3); [exact (Hwf H0)|simpl; lia|exact Hw1|].
      eexists r, nout, out, s', d. rewrite <- E. split; [reflexivity|]. split_and!; [done|done|].
      destruct H3 as [(-> & -> & ->)|(-> & -> & -> & ?)]; [by left|right].
      unfold closing. cbn [record_bytes ws_quoting]. rewrite (bool_decide_false (record_bytes s + 2 = 0)) by lia.
      by rewrite (Hwf H0), app_nil_r.
  - rewrite (bool_decide_false _ H0). unfold closing. destruct (ws_quoting s) eqn:Hq.
    + rewrite drop_0. destruct (decide (length buf < 1)) as [Hb|Hb].
      * rewrite write_full by done. cbn. eexists _, 0, buf, s, []. split; [reflexivity|].
        split_and!; [apply wrote_nil|done|]. right. rewrite (bool_decide_false _ H0), Hq.
        split_and!; [done..|lia].
      * destruct (write_Ok [w_quote w0] buf) as (out1 & -> & Hw1); [simpl; lia|].
        cbn [length]. rewrite (bool_decide_false (1 = 0)) by lia.
        destruct (Hput (mkWriterState (in_field s) false (record_bytes s + 1)) out1 1 [w_quote w0])
          as (r & nout & out & s' & d & E & H1 & H2 & H3); [done|simpl; lia|exact Hw1|].
        eexists r, nout, out, s', d. rewrite <- E. split; [reflexivity|]. split_and!; [done|done|].
        destruct H3 as [(-> & -> & ->)|(-> & -> & -> & ?)]; [by left|right].
        cbn [record_bytes ws_quoting]. rewrite (bool_decide_false (record_bytes s + 1 = 0)) by lia. done.
    + destruct (Hput s buf 0 []) as (r & nout & out & s' & d & E & H1 & H2 & H3); [done|done|apply wrote_nil|].
      eexists r, nout, out, s', d. rewrite <- E. split; [reflexivity|]. split_and!; [done|done|].
      destruct H3 as [(-> & -> & ->)|(-> & -> & -> & ?)]; [by left|right].
      rewrite (bool_decide_false _ H0), Hq. split_and!; [done..|lia].
Qed.

End writer_calls.
