(* ===== verification/CsvRecord.v ===== *)
(** csv's records ([csv/src/byte_record.rs], [csv/src/string_record.rs]): the
    bytes of all fields in one buffer, with the ends of the fields in another. *)
From Stdlib Require Import ZArith Lia Strings.Byte.
From stdpp Require Import base list numbers option.
From S2P Require Import Prelude.
From S2P Require Import Utf8.
Open Scope rust_scope.

(** * Positions *)

Record Position : Type := mkPosition { pos_byte : Z; pos_line : Z; pos_record : Z }.

Definition Position_new : Position := mkPosition 0 1 0.

Definition set_byte (p : Position) (byte : Z) : Position := mkPosition byte (pos_line p) (pos_record p).

Definition set_line (p : Position) (line : Z) : res unit Position :=
  if bool_decide (0 < line)%Z then Ok (mkPosition (pos_byte p) line (pos_record p)) else Panic.

Definition set_record (p : Position) (record : Z) : Position :=
  mkPosition (pos_byte p) (pos_line p) record.

(** * Bounds *)

(** The ends of the fields, of which the first [b_len] are in use. *)
Record Bounds : Type := mkBounds { ends : list nat; b_len : nat }.

Definition Bounds_with_capacity (capacity : nat) : Bounds := mkBounds (replicate capacity 0) 0.

Definition Bounds_get (b : Bounds) (i : nat) : option (nat * nat) :=
  if bool_decide (b_len b ≤ i) then None
  else
    match ends b !! i with
    | None => None
    | Some e =>
        let start := match i with O => None | S i => ends b !! i end in
        Some (default 0 start, e)
    end.

Definition Bounds_ends {E} (b : Bounds) : res E (list nat) := slice 0 (b_len b) (ends b).

Definition Bounds_end {E} (b : Bounds) : res E nat :=
  let? es := Bounds_ends b in Ok (default 0 (list.last es)).

(** [Vec::resize] to twice the length and to at least 4. *)
Definition grown {A} (x : A) (l : list A) : list A :=
  l ++ replicate (Nat.max 4 (2 * length l) - length l) x.

Definition Bounds_expand (b : Bounds) : Bounds := mkBounds (grown 0 (ends b)) (b_len b).

Definition Bounds_add {E} (b : Bounds) (pos : nat) : res E Bounds :=
  let b := if bool_decide (length (ends b) ≤ b_len b) then Bounds_expand b else b in
  let? es := write_at (ends b) (b_len b) pos in
  Ok (mkBounds es (b_len b + 1)).

(** * Byte records *)

Record ByteRecord : Type := mkByteRecord {
  br_pos : option Position;
  br_fields : list u8;
  br_bounds : Bounds
}.

Definition ByteRecord_with_capacity (buffer fields : nat) : ByteRecord :=
  mkByteRecord None (replicate buffer x00) (Bounds_with_capacity fields).

Definition ByteRecord_new : ByteRecord := ByteRecord_with_capacity 0 0.

Definition with_fields (r : ByteRecord) (l : list u8) : ByteRecord := mkByteRecord (br_pos r) l (br_bounds r).
Definition with_bounds (r : ByteRecord) (b : Bounds) : ByteRecord := mkByteRecord (br_pos r) (br_fields r) b.
Definition set_position (r : ByteRecord) (p : option Position) : ByteRecord :=
  mkByteRecord p (br_fields r) (br_bounds r).

Definition br_length (r : ByteRecord) : nat := b_len (br_bounds r).

Definition br_get {E} (r : ByteRecord) (i : nat) : res E (option (list u8)) :=
  match Bounds_get (br_bounds r) i with
  | None => Ok None
  | Some (s, e) => res_map Some (slice s e (br_fields r))
  end.

Definition br_is_empty (r : ByteRecord) : bool := bool_decide (br_length r = 0).

Definition set_len (r : ByteRecord) (n : nat) : ByteRecord := with_bounds r (mkBounds (ends (br_bounds r)) n).

Definition truncate (r : ByteRecord) (n : nat) : ByteRecord :=
  if bool_decide (n ≤ br_length r) then set_len r n else r.

Definition clear (r : ByteRecord) : ByteRecord := truncate r 0.

Definition br_range (r : ByteRecord) (i : nat) : option (nat * nat) := Bounds_get (br_bounds r) i.

Definition as_slice {E} (r : ByteRecord) : res E (list u8) :=
  let? e := Bounds_end (br_bounds r) in slice 0 e (br_fields r).

Definition clone_truncated {E} (r : ByteRecord) : res E ByteRecord :=
  let? l := as_slice r in Ok (mkByteRecord (br_pos r) l (br_bounds r)).

Definition expand_fields (r : ByteRecord) : ByteRecord := with_fields r (grown x00 (br_fields r)).
Definition expand_ends (r : ByteRecord) : ByteRecord := with_bounds r (Bounds_expand (br_bounds r)).

(** The loop of [push_field], until the buffer holds [e] bytes. *)
Fixpoint expand_to {E} (fuel : nat) (e : nat) (r : ByteRecord) : res E ByteRecord :=
  if bool_decide (length (br_fields r) < e) then
    match fuel with
    | O => NoFuel
    | S fuel => expand_to fuel e (expand_fields r)
    end
  else Ok r.

Definition push_field {E} (r : ByteRecord) (field : list u8) : res E ByteRecord :=
  let? s := Bounds_end (br_bounds r) in
  let e := s + length field in
  let? r := expand_to e e r in
  let? l := copy_at s field (br_fields r) in
  let? b := Bounds_add (br_bounds r) e in
  Ok (with_bounds (with_fields r l) b).

(** [Extend::extend], and with an empty record [From] and [FromIterator]. *)
Definition extend {E} (r : ByteRecord) (fields : list (list u8)) : res E ByteRecord :=
  for_each push_field fields r.

(** ** The iterator *)

Record ByteRecordIter : Type := mkIter {
  last_start : nat;
  last_end : nat;
  i_forward : nat;
  i_reverse : nat
}.

Definition into_iter {E} (r : ByteRecord) : res E ByteRecordIter :=
  let? l := as_slice r in Ok (mkIter (length l) 0 0 (br_length r)).

Definition iter_next {E} (r : ByteRecord) (it : ByteRecordIter)
    : res E (option (list u8) * ByteRecordIter) :=
  if bool_decide (i_forward it = i_reverse it) then Ok (None, it)
  else
    let? es := Bounds_ends (br_bounds r) in
    let? e := at_index es (i_forward it) in
    let? field := slice (last_end it) e (br_fields r) in
    Ok (Some field, mkIter (last_start it) e (i_forward it + 1) (i_reverse it)).

Definition iter_next_back {E} (r : ByteRecord) (it : ByteRecordIter)
    : res E (option (list u8) * ByteRecordIter) :=
  if bool_decide (i_forward it = i_reverse it) then Ok (None, it)
  else
    let rev := i_reverse it - 1 in
    let? s := match rev with
      | O => Ok 0
      | S i => let? es := Bounds_ends (br_bounds r) in at_index es i
      end in
    let? field := slice s (last_start it) (br_fields r) in
    Ok (Some field, mkIter s (last_end it) (i_forward it) rev).

(** A [for] loop over the iterator: the fields it yields. *)
Fixpoint iter_all {E} (fuel : nat) (r : ByteRecord) (it : ByteRecordIter) : res E (list (list u8)) :=
  match fuel with
  | O => NoFuel
  | S fuel =>
      let? x := iter_next r it in
      match x with
      | (None, _) => Ok []
      | (Some f, it) => let? fs := iter_all fuel r it in Ok (f :: fs)
      end
  end.

Definition br_iter {E} (r : ByteRecord) : res E (list (list u8)) :=
  let? it := into_iter r in iter_all (S (br_length r)) r it.

(** [PartialEq for ByteRecord]. *)
Definition br_eq {E} (r other : ByteRecord) : res E bool :=
  if bool_decide (br_length r ≠ br_length other) then Ok false
  else
    let? xs := br_iter r in
    let? ys := br_iter other in
    Ok (forallb (λ e, bool_decide (e.1 = e.2)) (zip xs ys)).

(** ** Trimming *)

Definition is_ascii_whitespace (b : u8) : bool := bool_decide (b ∈ [x20; x09; x0a; x0c; x0d]).

Fixpoint trim_ascii_start (bytes : list u8) : list u8 :=
  match bytes with
  | first :: rest => if is_ascii_whitespace first then trim_ascii_start rest else bytes
  | [] => bytes
  end.

Fixpoint trim_end_loop (fuel : nat) (bytes : list u8) : list u8 :=
  match fuel with
  | O => bytes
  | S fuel =>
      match list.last bytes with
      | Some b =>
          if is_ascii_whitespace b then trim_end_loop fuel (take (length bytes - 1) bytes) else bytes
      | None => bytes
      end
  end.

Definition trim_ascii_end (bytes : list u8) : list u8 := trim_end_loop (length bytes) bytes.

Definition trim_ascii (bytes : list u8) : list u8 := trim_ascii_start (trim_ascii_end bytes).

(** [ByteRecord::trim], and [StringRecord::trim] with the [trim] of strings. *)
Definition trim_with {E} (trim : list u8 → list u8) (r : ByteRecord) : res E ByteRecord :=
  if bool_decide (br_length r = 0) then Ok r
  else
    let? l := as_slice r in
    let trimmed := set_position (ByteRecord_with_capacity (length l) (br_length r)) (br_pos r) in
    let? fs := br_iter r in
    for_each (λ t f, push_field t (trim f)) fs trimmed.

Definition br_trim {E} (r : ByteRecord) : res E ByteRecord := trim_with trim_ascii r.

(** ** Valid UTF-8 *)

Record Utf8Error : Type := mkUtf8Error { ue_field : nat; ue_valid_up_to : nat }.

(** The first field that is not valid, from the [i]th on. *)
Fixpoint first_invalid (i : nat) (fields : list (list u8)) : option Utf8Error :=
  match fields with
  | [] => None
  | f :: fields => if valid_utf8 f then first_invalid (i + 1) fields else Some (mkUtf8Error i (valid_up_to f))
  end.

Definition validate {E} (r : ByteRecord) : res E (option Utf8Error) :=
  let? l := as_slice r in
  if is_ascii l then Ok None
  else let? fs := br_iter r in Ok (first_invalid 0 fs).

(** * What a record is *)

(** The ends of fields that follow one another from [s] on. *)
Fixpoint offsets (s : nat) (fs : list (list u8)) : list nat :=
  match fs with
  | [] => []
  | f :: fs => (s + length f) :: offsets (s + length f) fs
  end.

(** [r] holds the fields [fs]; behind them its buffers may hold anything. *)
Definition record_is (r : ByteRecord) (fs : list (list u8)) : Prop :=
  br_length r = length fs ∧
  (∃ junk, ends (br_bounds r) = offsets 0 fs ++ junk) ∧
  (∃ junk, br_fields r = concat fs ++ junk).

(** The bytes and the ends of fields, and the fields of bytes and ends. *)
Definition row_of (fs : list (list u8)) : list u8 * list nat := (concat fs, offsets 0 fs).

Fixpoint cut (s : nat) (bytes : list u8) (es : list nat) : list (list u8) :=
  match es with
  | [] => []
  | e :: es => take (e - s) bytes :: cut e (drop (e - s) bytes) es
  end.

Definition fields_of (row : list u8 * list nat) : list (list u8) := cut 0 row.1 row.2.

Lemma cut_offsets s fs : cut s (concat fs) (offsets s fs) = fs.
Proof.
  revert s. induction fs as [|f fs IH]; intros s; [done|]. cbn [offsets concat cut].
  rewrite Nat.add_comm, Nat.add_sub, take_app_length, drop_app_length. by rewrite Nat.add_comm, IH.
Qed.

Lemma fields_of_row fs : fields_of (row_of fs) = fs.
Proof. apply cut_offsets. Qed.

Lemma length_offsets s fs : length (offsets s fs) = length fs.
Proof. revert s. induction fs; intros; simpl; auto. Qed.
#[export] Hint Rewrite length_offsets : lens.

Lemma offsets_app s fs gs : offsets s (fs ++ gs) = offsets s fs ++ offsets (s + length (concat fs)) gs.
Proof.
  revert s. induction fs as [|f fs IH]; intros s; simpl; [by rewrite Nat.add_0_r|].
  by rewrite IH, length_app, Nat.add_assoc.
Qed.

Lemma offsets_lookup fs f gs : offsets 0 (fs ++ f :: gs) !! length fs = Some (length (concat fs) + length f).
Proof. rewrite offsets_app, lookup_app_r; rewrite length_offsets; [|lia]. by rewrite Nat.sub_diag. Qed.

Lemma offsets_last fs : default 0 (list.last (offsets 0 fs)) = length (concat fs).
Proof.
  destruct fs as [|f fs _] using rev_ind; [done|].
  rewrite offsets_app. cbn [offsets]. rewrite last_snoc, concat_app, length_app. simpl. by rewrite app_nil_r.
Qed.

Lemma slice_front {E A} (l junk : list A) n : n = length l → slice (E := E) 0 n (l ++ junk) = Ok l.
Proof.
  intros ->. rewrite slice_Ok by (rewrite ?length_app; lia). by rewrite drop_0, Nat.sub_0_r, take_app_length.
Qed.

Lemma slice_concat {E A} (fs : list (list A)) f gs junk a b :
  a = length (concat fs) → b = length (concat fs) + length f →
  slice (E := E) a b (concat (fs ++ f :: gs) ++ junk) = Ok f.
Proof.
  intros -> ->. rewrite concat_app. cbn [concat]. rewrite slice_Ok; [|lia|rewrite !length_app; lia].
  by rewrite <- !app_assoc, drop_app_length, Nat.add_comm, Nat.add_sub, take_app_length.
Qed.

Lemma ByteRecord_with_capacity_is n m : record_is (ByteRecord_with_capacity n m) [].
Proof. split_and!; simpl; [done|by exists (replicate m 0)|by exists (replicate n x00)]. Qed.

Lemma set_position_is r fs p : record_is r fs → record_is (set_position r p) fs.
Proof. done. Qed.

Section records.
Context {E : Type}.

Lemma Bounds_ends_is r fs : record_is r fs → Bounds_ends (E := E) (br_bounds r) = Ok (offsets 0 fs).
Proof.
  intros (Hl & (junk & He) & _). unfold Bounds_ends. rewrite He. apply slice_front.
  by rewrite length_offsets.
Qed.

Lemma Bounds_end_is r fs : record_is r fs → Bounds_end (E := E) (br_bounds r) = Ok (length (concat fs)).
Proof. intros H. unfold Bounds_end. rewrite (Bounds_ends_is r fs H). cbn [res_bind]. by rewrite offsets_last. Qed.

Lemma as_slice_is r fs : record_is r fs → as_slice (E := E) r = Ok (concat fs).
Proof.
  intros H. unfold as_slice. rewrite (Bounds_end_is r fs H). cbn [res_bind].
  destruct H as (_ & _ & junk & ->). by apply slice_front.
Qed.

(** ** Adding a field *)

Lemma length_grown {A} (x : A) l : length l < length (grown x l).
Proof. unfold grown. rewrite length_app, length_replicate. lia. Qed.

Lemma grown_prefix {A} (x : A) l : ∃ junk, grown x l = l ++ junk.
Proof. by eexists. Qed.

Lemma expand_fields_is r fs : record_is r fs → record_is (expand_fields r) fs.
Proof.
  intros (Hl & He & junk & Hf). split_and!; [done|done|]. simpl. rewrite Hf.
  destruct (grown_prefix x00 (concat fs ++ junk)) as [k ->]. exists (junk ++ k). by rewrite app_assoc.
Qed.

Lemma expand_ends_is r fs : record_is r fs → record_is (expand_ends r) fs.
Proof.
  intros (Hl & (junk & He) & Hf). split_and!; [done| |done]. simpl. rewrite He.
  destruct (grown_prefix 0 (offsets 0 fs ++ junk)) as [k ->]. exists (junk ++ k). by rewrite app_assoc.
Qed.

Lemma expand_to_is fuel e r fs :
  record_is r fs → e - length (br_fields r) ≤ fuel →
  ∃ r', expand_to (E := E) fuel e r = Ok r' ∧ record_is r' fs ∧ e ≤ length (br_fields r') ∧
    br_bounds r' = br_bounds r ∧ br_pos r' = br_pos r.
Proof.
  revert r. induction fuel as [|fuel IH]; intros r H Hf; cbn [expand_to].
  - rewrite bool_decide_false by lia. exists r. split_and!; try done; lia.
  - destruct (decide (length (br_fields r) < e)) as [Hlt|Hlt];
      [rewrite (bool_decide_true _ Hlt)|rewrite (bool_decide_false _ Hlt)].
    + apply (IH (expand_fields r)); [by apply expand_fields_is|].
      pose proof (length_grown x00 (br_fields r)). simpl. lia.
    + exists r. split_and!; try done; lia.
Qed.

Lemma insert_after {A} (l junk : list A) x y :
  <[length l := x]> (l ++ y :: junk) = (l ++ [x]) ++ junk.
Proof. rewrite insert_app_r_alt, Nat.sub_diag by lia. by rewrite <- app_assoc. Qed.

Lemma Bounds_add_is (es junk : list nat) n pos :
  n = length es →
  ∃ junk', Bounds_add (E := E) (mkBounds (es ++ junk) n) pos = Ok (mkBounds ((es ++ [pos]) ++ junk') (n + 1)).
Proof.
  intros ->. unfold Bounds_add. cbn [ends b_len].
  assert (Hput : ∀ y k, (let? l := write_at (E := E) (es ++ y :: k) (length es) pos in
    Ok (mkBounds l (length es + 1))) = Ok (mkBounds ((es ++ [pos]) ++ k) (length es + 1))).
  { intros y k. rewrite write_at_Ok by (rewrite length_app; simpl; lia). cbn [res_bind]. by rewrite insert_after. }
  destruct junk as [|y junk].
  - rewrite app_nil_r, bool_decide_true by lia. cbn [Bounds_expand ends b_len].
    unfold grown. destruct (Nat.max 4 (2 * length es) - length es) as [|k] eqn:Ek; [lia|].
    cbn [replicate]. rewrite Hput. by eexists.
  - rewrite bool_decide_false by (rewrite length_app; simpl; lia). cbn [ends b_len]. rewrite Hput. by eexists.
Qed.

Lemma push_field_is r fs f :
  record_is r fs → ∃ r', push_field (E := E) r f = Ok r' ∧ record_is r' (fs ++ [f]) ∧ br_pos r' = br_pos r.
Proof.
  intros H. unfold push_field. rewrite (Bounds_end_is r fs H). cbn [res_bind].
  destruct (expand_to_is (length (concat fs) + length f) (length (concat fs) + length f) r fs H)
    as (r1 & -> & (Hl & (je & He) & (jf & Hf)) & Hroom & _ & Hpos); [lia|].
  cbn [res_bind]. rewrite copy_at_Ok by lia. cbn [res_bind].
  destruct (Bounds_add_is (offsets 0 fs) je (b_len (br_bounds r1)) (length (concat fs) + length f))
    as (j & Hadd); [by rewrite length_offsets|].
  rewrite <- He in Hadd. destruct (br_bounds r1) as [es n] eqn:Eb. cbn [ends b_len] in Hadd. rewrite Hadd.
  cbn [res_bind]. eexists. split; [reflexivity|].
  unfold record_is, br_length in *. cbn [with_bounds with_fields br_bounds br_fields br_pos b_len ends].
  rewrite Eb in Hl. cbn in Hl. split_and!; [|exists j| |done].
  - rewrite length_app. simpl. lia.
  - rewrite offsets_app. done.
  - rewrite Hf, concat_app. cbn [concat]. rewrite app_nil_r. rewrite Hf, length_app in Hroom.
    exists (drop (length f) jf).
    rewrite <- (take_drop (length f) jf) at 1. rewrite splice_app by (rewrite length_take; lia).
    by rewrite app_assoc.
Qed.

Lemma extend_is r fs gs :
  record_is r fs → ∃ r', extend (E := E) r gs = Ok r' ∧ record_is r' (fs ++ gs) ∧ br_pos r' = br_pos r.
Proof.
  revert r fs. induction gs as [|g gs IH]; intros r fs H.
  - exists r. by rewrite app_nil_r.
  - destruct (push_field_is r fs g H) as (r1 & E1 & H1 & P1). destruct (IH r1 (fs ++ [g]) H1) as (r2 & E2 & H2 & P2).
    exists r2. unfold extend in *. cbn [for_each]. rewrite E1. cbn [res_bind]. rewrite E2.
    split_and!; [done|by rewrite <- app_assoc in H2|congruence].
Qed.

(** ** Reading fields *)

Lemma br_get_is r fs i : record_is r fs → br_get (E := E) r i = Ok (fs !! i).
Proof.
  intros (Hl & (je & He) & (jf & Hf)). unfold br_get, Bounds_get. unfold br_length in Hl. rewrite Hl.
  destruct (decide (length fs ≤ i)) as [Hi|Hi].
  { rewrite (bool_decide_true _ Hi). by rewrite lookup_ge_None_2. }
  rewrite (bool_decide_false _ Hi).
  destruct (lookup_lt_is_Some_2 fs i) as [f Hlk]; [lia|]. rewrite Hlk.
  apply list_elem_of_split_length in Hlk as (pre & post & -> & ->).
  rewrite He, lookup_app_l by (rewrite length_offsets; lia). rewrite offsets_lookup.
  assert (Hs : default 0 (match length pre with O => None | S i => (offsets 0 (pre ++ f :: post) ++ je) !! i end)
    = length (concat pre)).
  { destruct pre as [|g pre _] using rev_ind; [done|]. rewrite length_app. cbn [length].
    rewrite Nat.add_1_r, lookup_app_l by (rewrite length_offsets, !length_app; simpl; lia).
    rewrite <- app_assoc. cbn [app]. rewrite offsets_lookup, concat_app, length_app. simpl. by rewrite app_nil_r. }
  rewrite Hs. cbn [res_map]. unfold res_map. rewrite Hf, slice_concat by done. done.
Qed.

Lemma truncate_is r fs n : record_is r fs → record_is (truncate r n) (take n fs).
Proof.
  intros H. pose proof H as (Hl & (je & He) & (jf & Hf)). unfold truncate. rewrite Hl.
  destruct (decide (n ≤ length fs)) as [Hn|Hn]; [rewrite (bool_decide_true _ Hn)|rewrite (bool_decide_false _ Hn)].
  - split_and!; unfold br_length; cbn [set_len with_bounds br_bounds b_len ends br_fields].
    + rewrite length_take. lia.
    + exists (offsets (length (concat (take n fs))) (drop n fs) ++ je).
      rewrite He, <- (take_drop n fs) at 1. by rewrite offsets_app, <- app_assoc.
    + exists (concat (drop n fs) ++ jf). rewrite Hf, <- (take_drop n fs) at 1.
      by rewrite concat_app, <- app_assoc.
  - rewrite take_ge by lia. done.
Qed.

Lemma clear_is r fs : record_is r fs → record_is (clear r) [].
Proof. apply (truncate_is r fs 0). Qed.

(** Whatever the buffers hold, a record can be cleared. *)
Lemma clear_any r : br_length (clear r) = 0 ∧ record_is (clear r) [].
Proof.
  unfold clear, truncate. rewrite bool_decide_true by lia. split; [done|].
  split; [done|split; [by exists (ends (br_bounds r))|by exists (br_fields r)]].
Qed.

Lemma clone_truncated_is r fs :
  record_is r fs → ∃ r', clone_truncated (E := E) r = Ok r' ∧ record_is r' fs ∧ br_pos r' = br_pos r ∧
    br_fields r' = concat fs.
Proof.
  intros H. unfold clone_truncated. rewrite (as_slice_is r fs H). cbn [res_bind].
  eexists. split; [reflexivity|]. destruct H as (Hl & He & _). unfold record_is. split_and!; try done.
  exists []. by rewrite app_nil_r.
Qed.

(** ** Iterating *)

(** The iterator has the fields from [i] to [j] left. *)
Definition iter_is (fs : list (list u8)) (it : ByteRecordIter) (i j : nat) : Prop :=
  i_forward it = i ∧ i_reverse it = j ∧ i ≤ j ≤ length fs ∧
  last_end it = length (concat (take i fs)) ∧ last_start it = length (concat (take j fs)).

Lemma into_iter_is r fs :
  record_is r fs → ∃ it, into_iter (E := E) r = Ok it ∧ iter_is fs it 0 (length fs).
Proof.
  intros H. unfold into_iter. rewrite (as_slice_is r fs H). cbn [res_bind]. eexists. split; [reflexivity|].
  destruct H as (Hl & _). split_and!; simpl; try done; try lia. by rewrite take_ge by lia.
Qed.

Lemma iter_next_is r fs it i j :
  record_is r fs → iter_is fs it i j →
  ∃ it', iter_next (E := E) r it = Ok (if bool_decide (i < j) then fs !! i else None, it') ∧
    iter_is fs it' (if bool_decide (i < j) then i + 1 else i) j.
Proof.
  intros H Hit. pose proof Hit as (Hi & Hj & Hij & He & Hs). unfold iter_next. rewrite Hi, Hj.
  destruct (decide (i < j)) as [Hlt|Hlt]; [rewrite (bool_decide_true _ Hlt)|rewrite (bool_decide_false _ Hlt)].
  2: { rewrite bool_decide_true by lia. by exists it. }
  rewrite bool_decide_false by lia. rewrite (Bounds_ends_is r fs H). cbn [res_bind].
  destruct (lookup_lt_is_Some_2 fs i) as [f Hlk]; [lia|]. rewrite Hlk.
  apply list_elem_of_split_length in Hlk as (pre & post & -> & ->).
  unfold at_index. rewrite offsets_lookup. cbn [res_bind]. destruct H as (_ & _ & jf & ->).
  rewrite take_app_length in He. rewrite slice_concat by done. cbn [res_bind].
  eexists. split; [reflexivity|]. split_and!; simpl; try done; try lia.
  rewrite take_app, take_ge by lia. replace (length pre + 1 - length pre) with 1 by lia. simpl.
  by rewrite concat_app, length_app; simpl; rewrite app_nil_r.
Qed.

Lemma iter_next_back_is r fs it i j :
  record_is r fs → iter_is fs it i j →
  ∃ it', iter_next_back (E := E) r it = Ok (if bool_decide (i < j) then fs !! (j - 1) else None, it') ∧
    iter_is fs it' i (if bool_decide (i < j) then j - 1 else j).
Proof.
  intros H Hit. pose proof Hit as (Hi & Hj & Hij & He & Hs). unfold iter_next_back. rewrite Hi, Hj.
  destruct (decide (i < j)) as [Hlt|Hlt]; [rewrite (bool_decide_true _ Hlt)|rewrite (bool_decide_false _ Hlt)].
  2: { rewrite bool_decide_true by lia. by exists it. }
  rewrite bool_decide_false by lia. cbv zeta.
  destruct (lookup_lt_is_Some_2 fs (j - 1)) as [f Hlk]; [lia|]. rewrite Hlk.
  apply list_elem_of_split_length in Hlk as (pre & post & -> & Hpre).
  assert (Hstart : match j - 1 with O => Ok 0
    | S k => let? es := Bounds_ends (E := E) (br_bounds r) in at_index es k end = Ok (length (concat pre))).
  { rewrite Hpre. destruct pre as [|g pre _] using rev_ind; [done|]. rewrite length_app, Nat.add_1_r.
    rewrite (Bounds_ends_is r _ H). cbn [res_bind]. unfold at_index. rewrite <- app_assoc. cbn [app].
    rewrite offsets_lookup, concat_app, length_app. simpl. by rewrite app_nil_r. }
  rewrite Hstart. cbn [res_bind]. destruct H as (_ & _ & jf & ->).
  assert (Hend : last_start it = length (concat pre) + length f).
  { rewrite Hs. rewrite take_app, take_ge by lia. replace (j - length pre) with 1 by lia. simpl.
    by rewrite concat_app, length_app; simpl; rewrite app_nil_r. }
  rewrite slice_concat by done. cbn [res_bind].
  eexists. split; [reflexivity|]. split_and!; simpl; try done; try lia.
  by rewrite Hpre, take_app_length.
Qed.

Lemma iter_all_is fuel r fs it i :
  record_is r fs → iter_is fs it i (length fs) → length fs - i < fuel →
  iter_all (E := E) fuel r it = Ok (drop i fs).
Proof.
  revert it i. induction fuel as [|fuel IH]; intros it i H Hit Hf; [lia|]. cbn [iter_all].
  destruct (iter_next_is r fs it i _ H Hit) as (it' & -> & Hit'). cbn [res_bind].
  destruct (decide (i < length fs)) as [Hlt|Hlt];
    [rewrite (bool_decide_true _ Hlt) in *|rewrite (bool_decide_false _ Hlt) in *].
  - destruct (lookup_lt_is_Some_2 fs i Hlt) as [f Hlk]. rewrite Hlk, (IH it' (i + 1)) by (done || lia).
    cbn [res_bind]. by rewrite (drop_S _ _ _ Hlk), Nat.add_1_r.
  - by rewrite drop_ge by lia.
Qed.

Lemma br_iter_is r fs : record_is r fs → br_iter (E := E) r = Ok fs.
Proof.
  intros H. unfold br_iter. destruct (into_iter_is r fs H) as (it & -> & Hit). cbn [res_bind].
  rewrite (iter_all_is _ r fs it 0 H Hit); [done|]. destruct H as (-> & _). lia.
Qed.

(** ** Comparing, trimming, validating *)

Lemma br_eq_is r r' fs fs' :
  record_is r fs → record_is r' fs' → br_eq (E := E) r r' = Ok (bool_decide (fs = fs')).
Proof.
  intros H H'. unfold br_eq. rewrite (br_iter_is r fs H), (br_iter_is r' fs' H'). cbn [res_bind].
  destruct H as (-> & _), H' as (-> & _).
  destruct (decide (length fs = length fs')) as [Hl|Hl].
  - rewrite bool_decide_false by tauto. f_equal. revert fs' Hl.
    induction fs as [|f fs IH]; intros [|f' fs'] Hl; try done. simpl. rewrite IH by (simpl in Hl; lia).
    rewrite <- bool_decide_and. apply bool_decide_ext. split; [by intros [-> ->]|by intros [= -> ->]].
  - rewrite bool_decide_true by done. f_equal. symmetry. apply bool_decide_eq_false. congruence.
Qed.

Lemma trim_with_is trim r fs :
  record_is r fs → ∃ r', trim_with (E := E) trim r = Ok r' ∧ record_is r' (trim <$> fs) ∧ br_pos r' = br_pos r.
Proof.
  intros H. unfold trim_with. destruct (decide (br_length r = 0)) as [H0|H0];
    [rewrite (bool_decide_true _ H0)|rewrite (bool_decide_false _ H0)].
  { exists r. split_and!; [done| |done]. destruct fs; [done|]. destruct H as (Hl & _). simpl in Hl. lia. }
  rewrite (as_slice_is r fs H), (br_iter_is r fs H). cbn [res_bind]. cbv zeta.
  assert (Hall : ∀ t gs, record_is t gs → ∃ t', for_each (λ t f, push_field (E := E) t (trim f)) fs t = Ok t' ∧
    record_is t' (gs ++ (trim <$> fs)) ∧ br_pos t' = br_pos t).
  { clear H H0. induction fs as [|f fs IH]; intros t gs Ht; [exists t; by rewrite app_nil_r|].
    destruct (push_field_is t gs (trim f) Ht) as (t1 & E1 & H1 & P1).
    destruct (IH t1 _ H1) as (t2 & E2 & H2 & P2). exists t2. cbn [for_each]. rewrite E1. cbn [res_bind].
    rewrite E2. split_and!; [done| |congruence]. by rewrite <- app_assoc in H2. }
  destruct (Hall (set_position (ByteRecord_with_capacity (length (concat fs)) (br_length r)) (br_pos r)) [])
    as (t & E1 & H1 & P1); [apply set_position_is, ByteRecord_with_capacity_is|].
  by exists t.
Qed.

Lemma is_ascii_app a b : is_ascii (a ++ b) = is_ascii a && is_ascii b.
Proof. apply forallb_app. Qed.

Lemma first_invalid_None i fs : first_invalid i fs = None ↔ Forall (λ f, valid_utf8 f = true) fs.
Proof.
  revert i. induction fs as [|f fs IH]; intros i; simpl; [done|]. rewrite list.Forall_cons.
  destruct (valid_utf8 f); [rewrite IH|]; split; try done; [by intros []|by intros []].
Qed.

Lemma first_invalid_Some i fs e :
  first_invalid i fs = Some e →
  ∃ k f, ue_field e = i + k ∧ fs !! k = Some f ∧ valid_utf8 f = false ∧ ue_valid_up_to e = valid_up_to f ∧
    Forall (λ f, valid_utf8 f = true) (take k fs).
Proof.
  revert i. induction fs as [|f fs IH]; intros i; [done|]. simpl. destruct (valid_utf8 f) eqn:Hf.
  - intros H. destruct (IH _ H) as (k & g & E1 & E2 & E3 & E4 & E5). exists (S k), g.
    split_and!; try done; [lia|]. by constructor.
  - intros [= <-]. exists 0, f. by split_and!; simpl; try lia.
Qed.

Lemma validate_is r fs : record_is r fs → validate (E := E) r = Ok (first_invalid 0 fs).
Proof.
  intros H. unfold validate. rewrite (as_slice_is r fs H), (br_iter_is r fs H). cbn [res_bind].
  destruct (is_ascii (concat fs)) eqn:Ha; [|done]. f_equal. symmetry. apply first_invalid_None.
  clear H. induction fs as [|f fs IH]; [constructor|]. cbn [concat] in Ha. rewrite is_ascii_app in Ha.
  apply andb_true_iff in Ha as [Hf Hfs]. constructor; [by apply valid_ascii|by apply IH].
Qed.

End records.

(** * String records *)

(** A [StringRecord] is a byte record all of whose fields are valid UTF-8: that
    is what its uses of [from_utf8_unchecked] rely on. *)
Record StringRecord : Type := mkStringRecord { sr_bytes : ByteRecord }.

Definition StringRecord_new : StringRecord := mkStringRecord ByteRecord_new.

(** [Err] has the record and the error, as [FromUtf8Error]. *)
Definition from_byte_record (record : ByteRecord) : res (ByteRecord * Utf8Error) StringRecord :=
  let? e := validate record in
  match e with
  | None => Ok (mkStringRecord record)
  | Some err => Err (record, err)
  end.

(** [Ok None] and [Ok (Some s)] as the source; undefined behaviour, were a field
    not valid, is [Panic], which the debug assertion makes of it. *)
Definition as_str {E} (bytes : list u8) : res E (list u8) :=
  if valid_utf8 bytes then Ok bytes else Panic.

Definition sr_get {E} (s : StringRecord) (i : nat) : res E (option (list u8)) :=
  let? x := br_get (sr_bytes s) i in
  match x with
  | None => Ok None
  | Some bytes => res_map Some (as_str bytes)
  end.

Definition sr_as_slice {E} (s : StringRecord) : res E (list u8) :=
  let? l := as_slice (sr_bytes s) in as_str l.

Definition sr_push_field {E} (s : StringRecord) (field : list u8) : res E StringRecord :=
  res_map mkStringRecord (push_field (sr_bytes s) field).

Definition sr_extend {E} (s : StringRecord) (fields : list (list u8)) : res E StringRecord :=
  for_each sr_push_field fields s.

Definition sr_truncate (s : StringRecord) (n : nat) : StringRecord := mkStringRecord (truncate (sr_bytes s) n).
Definition sr_clear (s : StringRecord) : StringRecord := mkStringRecord (clear (sr_bytes s)).

Definition sr_clone_truncated {E} (s : StringRecord) : res E StringRecord :=
  res_map mkStringRecord (clone_truncated (sr_bytes s)).

(** The loop of [trim] goes over strings. *)
Definition sr_trim {E} (s : StringRecord) : res E StringRecord :=
  if bool_decide (br_length (sr_bytes s) = 0) then Ok s
  else
    let? l := sr_as_slice s in
    let trimmed := mkStringRecord (set_position
      (ByteRecord_with_capacity (length l) (br_length (sr_bytes s))) (br_pos (sr_bytes s))) in
    let? fs := br_iter (sr_bytes s) in
    for_each (λ t f, let? f := as_str f in sr_push_field t (trim_str f)) fs trimmed.

(** [iter_eq], the loop over two iterators. *)
Fixpoint iter_eq (xs ys : list (list u8)) : bool :=
  match xs, ys with
  | [], [] => true
  | x :: xs, y :: ys => bool_decide (x = y) && iter_eq xs ys
  | _, _ => false
  end.

Definition sr_eq {E} (s other : StringRecord) : res E bool :=
  let? xs := br_iter (sr_bytes s) in
  let? ys := br_iter (sr_bytes other) in
  Ok (iter_eq xs ys).

Definition string_is (s : StringRecord) (fs : list (list u8)) : Prop :=
  record_is (sr_bytes s) fs ∧ Forall (λ f, valid_utf8 f = true) fs.

Section strings.
Context {E : Type}.

Lemma as_str_valid f : valid_utf8 f = true → as_str (E := E) f = Ok f.
Proof. intros H. unfold as_str. by rewrite H. Qed.

Lemma valid_concat_fields fs : Forall (λ f, valid_utf8 f = true) fs → valid_utf8 (concat fs) = true.
Proof. induction 1; simpl; [done|by apply valid_app]. Qed.

Lemma from_byte_record_is r fs :
  record_is r fs →
  from_byte_record r = match first_invalid 0 fs with
    | None => Ok (mkStringRecord r) | Some err => Err (r, err) end ∧
  (first_invalid 0 fs = None → string_is (mkStringRecord r) fs).
Proof.
  intros H. unfold from_byte_record. rewrite (validate_is r fs H). split; [done|].
  intros Hn%first_invalid_None. by split.
Qed.

Lemma sr_get_is s fs i : string_is s fs → sr_get (E := E) s i = Ok (fs !! i).
Proof.
  intros [H Hv]. unfold sr_get. rewrite (br_get_is _ fs) by done. cbn [res_bind].
  destruct (fs !! i) as [f|] eqn:Hf; [|done]. rewrite as_str_valid; [done|].
  exact (Forall_lookup_1 _ _ _ _ Hv Hf).
Qed.

Lemma sr_as_slice_is s fs : string_is s fs → sr_as_slice (E := E) s = Ok (concat fs).
Proof.
  intros [H Hv]. unfold sr_as_slice. rewrite (as_slice_is _ fs) by done. cbn [res_bind].
  by apply as_str_valid, valid_concat_fields.
Qed.

Lemma sr_push_field_is s fs f :
  string_is s fs → valid_utf8 f = true →
  ∃ s', sr_push_field (E := E) s f = Ok s' ∧ string_is s' (fs ++ [f]).
Proof.
  intros [H Hv] Hf. unfold sr_push_field. destruct (push_field_is (E := E) _ fs f H) as (r & -> & Hr & _).
  eexists. split; [reflexivity|]. split; [done|]. apply Forall_app. split; [done|]. by constructor.
Qed.

Lemma sr_for_each_is (g : list u8 → list u8) s gs fs :
  string_is s gs → Forall (λ f, valid_utf8 f = true ∧ valid_utf8 (g f) = true) fs →
  ∃ s', for_each (λ t f, let? f := as_str f in sr_push_field (E := E) t (g f)) fs s = Ok s' ∧
    string_is s' (gs ++ (g <$> fs)).
Proof.
  revert s gs. induction fs as [|f fs IH]; intros s gs H Hv.
  - exists s. by rewrite app_nil_r.
  - apply list.Forall_cons in Hv as [[Hf Hg] Hfs].
    destruct (sr_push_field_is s gs (g f) H Hg) as (s1 & E1 & H1).
    destruct (IH s1 _ H1 Hfs) as (s2 & E2 & H2). exists s2. cbn [for_each].
    rewrite as_str_valid by done. cbn [res_bind]. rewrite E1. cbn [res_bind]. rewrite E2.
    split; [done|]. by rewrite <- app_assoc in H2.
Qed.

Lemma sr_trim_is s fs : string_is s fs → ∃ s', sr_trim (E := E) s = Ok s' ∧ string_is s' (trim_str <$> fs).
Proof.
  intros [H Hv]. unfold sr_trim. destruct (decide (br_length (sr_bytes s) = 0)) as [H0|H0];
    [rewrite (bool_decide_true _ H0)|rewrite (bool_decide_false _ H0)].
  { exists s. split; [done|]. destruct fs; [by split|]. destruct H as (Hl & _). simpl in Hl. lia. }
  rewrite (sr_as_slice_is s fs) by done. rewrite (br_iter_is _ fs) by done. cbn [res_bind]. cbv zeta.
  eapply (sr_for_each_is trim_str _ []).
  - split; [apply set_position_is, ByteRecord_with_capacity_is|constructor].
  - eapply Forall_impl; [|exact Hv]. intros f Hf. split; [done|by apply valid_trim].
Qed.

Lemma sr_eq_is s s' fs fs' : string_is s fs → string_is s' fs' → sr_eq (E := E) s s' = Ok (bool_decide (fs = fs')).
Proof.
  intros [H _] [H' _]. unfold sr_eq. rewrite (br_iter_is _ fs H), (br_iter_is _ fs' H'). cbn [res_bind].
  f_equal. clear. revert fs'. induction fs as [|f fs IH]; intros [|f' fs']; try done. simpl. rewrite IH.
  rewrite <- bool_decide_and. apply bool_decide_ext. split; [by intros [-> ->]|by intros [= -> ->]].
Qed.

End strings.
