(* ===== verification/CsvFileWriter.v ===== *)
(** csv's writer ([csv/src/writer.rs]): csv-core's writer with a buffer in front
    of an [io::Write], and the checks on the number of fields. *)
From Stdlib Require Import ZArith Lia Strings.Byte.
From stdpp Require Import base list numbers option sets.
From S2P Require Import Prelude.
From S2P Require Import StateMonad.
From S2P Require Import CsvNfa.
From S2P Require Import CsvWriter.
From S2P Require Import CsvRecord.
Open Scope rust_scope.

(** [csv::ErrorKind], without the kinds of Serde and with the errors of the
    system as a parameter. *)
Inductive CsvError (IoError : Type) : Type :=
  | CE_Io (e : IoError)
  | CE_Utf8 (pos : option Position) (err : Utf8Error)
  | CE_UnequalLengths (pos : option Position) (expected_len len : nat)
  | CE_Seek.
Arguments CE_Io {IoError} _.
Arguments CE_Utf8 {IoError} _ _.
Arguments CE_UnequalLengths {IoError} _ _ _.
Arguments CE_Seek {IoError}.

(** [io::Write]: a call returns the writer and an error or nothing.  What it has
    taken, [written w], grows by the bytes of a call that succeeds. *)
Class Write (W IoError : Type) : Type := {
  write_all : list u8 → W → option IoError * W;
  io_flush : W → option IoError * W;
  written : W → list u8
}.

Class WriteOk W IoError `{Write W IoError} : Prop := {
  write_all_written l w w' : write_all l w = (None, w') → written w' = written w ++ l;
  io_flush_written w w' : io_flush w = (None, w') → written w' = written w
}.

Record FileWriter (W : Type) : Type := mkFileWriter {
  core : CsvWriter;
  wtr : W;
  buf : list u8;
  buf_len : nat;
  flexible : bool;
  first_field_count : option nat;
  fields_written : nat
}.
Arguments mkFileWriter {W} _ _ _ _ _ _ _.
Arguments core {W} _.
Arguments wtr {W} _.
Arguments buf {W} _.
Arguments buf_len {W} _.
Arguments flexible {W} _.
Arguments first_field_count {W} _.
Arguments fields_written {W} _.

Section file_writer.
Context {W IoError : Type} `{Write W IoError} `{Memchr}.
#[local] Abbreviation method := (method (FileWriter W) (CsvError IoError)).

(** [Writer::new]: [core] is what [WriterBuilder::build] of csv-core returns. *)
Definition FileWriter_new (core : CsvWriter) (capacity : nat) (flexible : bool) (wtr : W) : FileWriter W :=
  mkFileWriter core wtr (replicate capacity x00) 0 flexible None 0.

Definition set_core (c : CsvWriter) (s : FileWriter W) : FileWriter W :=
  mkFileWriter c (wtr s) (buf s) (buf_len s) (flexible s) (first_field_count s) (fields_written s).
Definition set_buf (b : list u8) (n : nat) (s : FileWriter W) : FileWriter W :=
  mkFileWriter (core s) (wtr s) b n (flexible s) (first_field_count s) (fields_written s).
Definition set_wtr (w : W) (s : FileWriter W) : FileWriter W :=
  mkFileWriter (core s) w (buf s) (buf_len s) (flexible s) (first_field_count s) (fields_written s).
Definition set_fields_written (n : nat) (s : FileWriter W) : FileWriter W :=
  mkFileWriter (core s) (wtr s) (buf s) (buf_len s) (flexible s) (first_field_count s) n.
Definition set_first_field_count (n : nat) (s : FileWriter W) : FileWriter W :=
  mkFileWriter (core s) (wtr s) (buf s) (buf_len s) (flexible s) (Some n) (fields_written s).

(** ** The buffer *)

Definition readable (s : FileWriter W) : res (CsvError IoError) (list u8) := slice 0 (buf_len s) (buf s).
Definition writable (s : FileWriter W) : res (CsvError IoError) (list u8) :=
  slice (buf_len s) (length (buf s)) (buf s).

(** [out] in the place of [self.buf.writable()], then [self.buf.written(n)]. *)
Definition fill (out : list u8) (n : nat) (s : FileWriter W) : FileWriter W :=
  set_buf (take (buf_len s) (buf s) ++ out) (buf_len s + n) s.

(** Bytes that are put to the front of [self.buf.writable()], which panics if
    they do not fit, and [self.buf.written]. *)
Definition put_bytes (data : list u8) : method unit :=
  let! out := st_try writable in
  let! out := st_try (λ _, copy_at 0 data out) in
  st_set (fill out (length data)).

Definition flush_buf : method unit :=
  let! l := st_try readable in
  λ s,
  match write_all l (wtr s) with
  | (Some e, w) => (Err (CE_Io e), set_wtr w s)
  | (None, w) => (Ok tt, set_buf (buf s) 0 (set_wtr w s))
  end.

Definition flush : method unit :=
  let! _ := flush_buf in
  λ s,
  match io_flush (wtr s) with
  | (Some e, w) => (Err (CE_Io e), set_wtr w s)
  | (None, w) => (Ok tt, set_wtr w s)
  end.

(** ** Fields, delimiters, terminators *)

Definition lift_core {A} (x : res unit A) : method A := λ s,
  match x with
  | Ok a => (Ok a, s)
  | NoFuel => (NoFuel, s)
  | _ => (Panic, s)
  end.

(** The loop of [write_delimiter]. *)
Fixpoint delimiter_loop (fuel : nat) : method unit :=
  match fuel with
  | O => λ s, (NoFuel, s)
  | S fuel =>
      let! out := st_try writable in
      let! r := st_get (λ s, write_delimiter (core s) out) in
      let '(r, nout, out, c) := r in
      let! _ := st_set (λ s, fill out nout (set_core c s)) in
      match r with
      | W_InputEmpty => st_ret tt
      | W_OutputFull => let! _ := flush_buf in delimiter_loop fuel
      end
  end.

(** The loop of [write_field_impl]. *)
Fixpoint field_loop (fuel : nat) (f : list u8) : method unit :=
  match fuel with
  | O => λ s, (NoFuel, s)
  | S fuel =>
      let! out := st_try writable in
      let! c := st_get core in
      let! r := lift_core (field c f out) in
      let '(r, nin, nout, out, c) := r in
      let! _ := st_set (λ s, fill out nout (set_core c s)) in
      match r with
      | W_InputEmpty => st_set (λ s, set_fields_written (fields_written s + 1) s)
      | W_OutputFull => let! _ := flush_buf in field_loop fuel (drop nin f)
      end
  end.

(** The loop of [write_terminator]. *)
Fixpoint terminator_loop (fuel : nat) : method unit :=
  match fuel with
  | O => λ s, (NoFuel, s)
  | S fuel =>
      let! out := st_try writable in
      let! c := st_get core in
      let! r := lift_core (write_terminator c out) in
      let '(r, nout, out, c) := r in
      let! _ := st_set (λ s, fill out nout (set_core c s)) in
      match r with
      | W_InputEmpty => st_set (set_fields_written 0)
      | W_OutputFull => let! _ := flush_buf in terminator_loop fuel
      end
  end.

(** Rounds that the loops need when the buffer holds two bytes. *)
Definition DELIMITER_ROUNDS : nat := 2.
Definition TERMINATOR_ROUNDS : nat := 3.
Definition field_rounds (f : list u8) : nat := length f + 3.

Definition check_field_count : method unit := λ s,
  if flexible s then (Ok tt, s)
  else
    match first_field_count s with
    | None => (Ok tt, set_first_field_count (fields_written s) s)
    | Some expected =>
        if bool_decide (expected ≠ fields_written s)
        then (Err (CE_UnequalLengths None expected (fields_written s)), s)
        else (Ok tt, s)
    end.

Definition write_field_impl (f : list u8) : method unit :=
  let! n := st_get fields_written in
  let! _ := if bool_decide (0 < n) then delimiter_loop DELIMITER_ROUNDS else st_ret tt in
  field_loop (field_rounds f) f.

Definition terminate : method unit :=
  let! _ := check_field_count in terminator_loop TERMINATOR_ROUNDS.

Definition write_record (record : list (list u8)) : method unit :=
  let! _ := st_each write_field_impl record in terminate.

Definition write_terminator_into_buffer : method unit :=
  let! _ := check_field_count in
  let! t := st_get (λ s, w_term (core s)) in
  let! _ := put_bytes (match t with Term_CRLF => [CR; LF] | Term_Any b => [b] end) in
  st_set (set_fields_written 0).

Section byte_records.
Context (debug : bool).

(** The body of the loop of [write_byte_record] after the delimiter. *)
Definition write_field_into_buffer (f : list u8) : method unit :=
  let! c := st_get core in
  let! q := lift_core (should_quote c f) in
  if negb q then put_bytes f
  else
    let! _ := put_bytes [w_quote c] in
    let! out := st_try writable in
    let! r := lift_core (quote_bytes f out (w_quote c) (w_escape c) (w_double_quote c)) in
    let '(r, nin, nout, out) := r in
    let! _ := st_try (λ _, debug_assert debug (match r with W_InputEmpty => true | _ => false end) (Ok tt)) in
    let! _ := st_try (λ _, debug_assert debug (bool_decide (nin = length f)) (Ok tt)) in
    let! _ := st_set (fill out nout) in
    put_bytes [w_quote c].

Fixpoint fields_into_buffer (first : bool) (fields : list (list u8)) : method unit :=
  match fields with
  | [] => st_ret tt
  | f :: fields =>
      let! _ := if negb first then (let! c := st_get core in put_bytes [w_delimiter c]) else st_ret tt in
      let! _ := write_field_into_buffer f in
      fields_into_buffer false fields
  end.

Definition upper_bound (data fields : nat) : nat := 2 * data + (fields - 1) + 2 * fields + 2.

Definition write_byte_record (record : ByteRecord) : method unit :=
  let! l := st_try (λ _, as_slice record) in
  let! fields := st_try (λ _, br_iter record) in
  if bool_decide (l = []) then write_record fields
  else
    let! out := st_try writable in
    if bool_decide (length out < upper_bound (length l) (br_length record)) then write_record fields
    else
      let! _ := fields_into_buffer true fields in
      let! _ := st_set (set_fields_written (br_length record)) in
      write_terminator_into_buffer.

End byte_records.

(** [into_inner], which returns the [io::Write] once the buffer is flushed. *)
Definition into_inner (s : FileWriter W) : res (CsvError IoError) W * FileWriter W :=
  (let! _ := flush in st_get wtr) s.

End file_writer.

(** * What the calls write *)

Section writer_spec.
Context {W IoError : Type} `{WO : WriteOk W IoError} `{MO : MemchrOk}.
Context (w0 : CsvWriter).
#[local] Abbreviation method := (method (FileWriter W) (CsvError IoError)).

(** The bytes a writer has produced, in the [io::Write] or still in the buffer. *)
Definition produced (s : FileWriter W) : list u8 := written (wtr s) ++ take (buf_len s) (buf s).

(** The errors that the [io::Write] can report. *)
Definition write_fails (e : IoError) : Prop :=
  ∃ l w, (write_all l w).1 = Some e ∨ (io_flush w).1 = Some e.

Lemma lift_core_Ok {A B} (a : A) (f : A → method B) s :
  st_bind (lift_core (IoError := IoError) (Ok a)) f s = f a s.
Proof. done. Qed.

(** A method succeeds, or the [io::Write] has failed. *)
Definition runs (m : method unit) (s : FileWriter W) (Q : FileWriter W → Prop) : Prop :=
  (∃ s', m s = (Ok tt, s') ∧ Q s') ∨ (∃ e s', m s = (Err (CE_Io e), s') ∧ write_fails e).

Lemma runs_ret s (Q : FileWriter W → Prop) : Q s → runs (st_ret tt) s Q.
Proof. left. by exists s. Qed.

Lemma runs_bind m (f : unit → method unit) s Q R :
  runs m s Q → (∀ s', Q s' → runs (f tt) s' R) → runs (st_bind m f) s R.
Proof.
  intros [(s' & E & HQ)|(e & s' & E & He)] Hf.
  - unfold runs. rewrite (st_bind_ok _ _ _ _ _ E). by apply Hf.
  - right. exists e, s'. by rewrite (st_bind_err _ _ _ _ _ E).
Qed.

Lemma runs_weaken m s (Q R : FileWriter W → Prop) : runs m s Q → (∀ s', Q s' → R s') → runs m s R.
Proof. intros [(s' & E & HQ)|He] Hi; [left; exists s'; auto|by right]. Qed.

(** Where a writer is: the state of csv-core's writer, what has been produced,
    the counts; the buffer holds at least two bytes. *)
Record holds (st : WriterState) (out : list u8) (fl : bool) (first : option nat) (n : nat)
    (s : FileWriter W) : Prop := {
  h_core : core s = with_state w0 st;
  h_len : buf_len s ≤ length (buf s);
  h_cap : 2 ≤ length (buf s);
  h_out : produced s = out;
  h_flexible : flexible s = fl;
  h_first : first_field_count s = first;
  h_fields : fields_written s = n
}.

Section low_level.
Context (fl : bool) (first : option nat) (n : nat).
#[local] Abbreviation holds := (λ st out, holds st out fl first n).

Lemma flush_buf_runs st out s :
  holds st out s → runs flush_buf s (λ s', holds st out s' ∧ buf_len s' = 0).
Proof.
  intros [Hc Hl Hcap Ho Hf Hff Hn]. unfold flush_buf, runs, st_try, readable, st_bind.
  rewrite slice_Ok by lia. rewrite drop_0, Nat.sub_0_r.
  destruct (write_all (take (buf_len s) (buf s)) (wtr s)) as [[e|] w'] eqn:E.
  - right. exists e, (set_wtr w' s). split; [done|]. exists (take (buf_len s) (buf s)), (wtr s). left. by rewrite E.
  - left. eexists. split; [reflexivity|]. split; [|done].
    split; simpl; try done; [lia|]. unfold produced in *. simpl. rewrite take_0, app_nil_r.
    by rewrite (write_all_written _ _ _ E).
Qed.

Lemma writable_Ok st out s : holds st out s → writable (IoError := IoError) s = Ok (drop (buf_len s) (buf s)).
Proof.
  intros Hh. pose proof (h_len _ _ _ _ _ _ Hh). unfold writable. rewrite slice_Ok by lia.
  by rewrite take_ge by (rewrite length_drop; lia).
Qed.

Lemma fill_holds st out s st' c data out' nout :
  holds st out s → c = with_state w0 st' → wrote data (drop (buf_len s) (buf s)) out' nout →
  holds st' (out ++ data) (fill out' nout (set_core c s)).
Proof.
  intros [Hc Hl Hcap Ho Hf Hff Hn] -> (-> & Hle & ->). rewrite length_drop in Hle.
  assert (Hlen : length (take (buf_len s) (buf s)) = buf_len s) by (rewrite length_take; lia).
  split; try done; cbn [fill set_buf set_core buf buf_len core wtr].
  - rewrite !length_app, !length_drop, Hlen. lia.
  - rewrite !length_app, !length_drop, Hlen. lia.
  - rewrite <- Ho. unfold produced. cbn [fill set_buf set_core buf buf_len core wtr].
    rewrite <- app_assoc. f_equal. rewrite take_app, Hlen, take_ge by (rewrite Hlen; lia).
    f_equal. rewrite Nat.add_comm, Nat.add_sub. by rewrite take_app_length.
Qed.

Lemma put_bytes_runs st out s data :
  holds st out s → length data ≤ length (drop (buf_len s) (buf s)) →
  ∃ s', put_bytes (IoError := IoError) data s = (Ok tt, s') ∧ holds st (out ++ data) s' ∧
    buf_len s' = buf_len s + length data ∧ length (buf s') = length (buf s).
Proof.
  intros Hh Hl. unfold put_bytes. rewrite (st_bind_try _ _ _ _ (writable_Ok _ _ _ Hh)).
  unfold st_bind, st_try. rewrite copy_at_Ok by (simpl; lia).
  eexists. split; [reflexivity|].
  pose proof (fill_holds st out s st (core s) data (data ++ drop (length data) (drop (buf_len s) (buf s)))
    (length data) Hh (h_core _ _ _ _ _ _ Hh)) as Hf.
  unfold splice. rewrite take_0, Nat.add_0_l. cbn [app].
  split_and!.
  - destruct s. apply Hf. by split_and!.
  - done.
  - cbn [fill set_buf buf]. pose proof (h_len _ _ _ _ _ _ Hh).
    rewrite !length_app, length_take, !length_drop in *. lia.
Qed.

(** ** The loops *)

Lemma delimiter_loop_runs fuel st out s :
  holds st out s → buf_len s = 0 ∧ 1 ≤ fuel ∨ 2 ≤ fuel →
  runs (delimiter_loop fuel) s (λ s', ∃ st',
    holds st' (out ++ closing w0 st ++ [w_delimiter w0]) s' ∧
    in_field st' = false ∧ ws_quoting st' = false ∧
    record_bytes st' = record_bytes st + length (closing w0 st ++ [w_delimiter w0])).
Proof.
  revert st out s. induction fuel as [|fuel IH]; intros st out s Hh Hf; [lia|]. cbn [delimiter_loop].
  unfold runs. rewrite (st_bind_try _ _ _ _ (writable_Ok _ _ _ Hh)), st_bind_get. rewrite (h_core _ _ _ _ _ _ Hh).
  destruct (write_delimiter_spec w0 st (drop (buf_len s) (buf s))) as (r & nout & out' & st' & d & E & Hw & Hrb & Hr).
  rewrite E, st_bind_set.
  pose proof (fill_holds _ _ _ st' _ _ _ _ Hh eq_refl Hw) as Hh'.
  destruct Hr as [(-> & <- & Hin & Hq)|(-> & Hcl & Hlen)].
  - left. eexists. split; [reflexivity|]. exists st'. split_and!; try done. rewrite Hrb. by destruct Hw as (-> & _).
  - rewrite length_drop in Hlen. pose proof (h_cap _ _ _ _ _ _ Hh).
    change (runs (let! _ := flush_buf in delimiter_loop fuel) (fill out' nout (set_core (with_state w0 st') s))
      (λ s', ∃ st', holds st' (out ++ closing w0 st ++ [w_delimiter w0]) s' ∧
        in_field st' = false ∧ ws_quoting st' = false ∧
        record_bytes st' = record_bytes st + length (closing w0 st ++ [w_delimiter w0]))).
    eapply runs_bind; [apply flush_buf_runs, Hh'|]. intros s1 [Hh1 Hl1].
    eapply runs_weaken; [apply IH; [exact Hh1|lia]|]. intros s2 (st2 & Hh2 & Hin & Hq & Hrb2).
    exists st2. rewrite Hcl, <- !app_assoc in *. split_and!; try done.
    rewrite Hrb2, Hrb. destruct Hw as (-> & _). rewrite !length_app. lia.
Qed.

Lemma terminator_loop_runs fuel st out s :
  holds st out s → state_wf st →
  (buf_len s = 0 ∧ (before_term w0 st = [] ∧ 1 ≤ fuel ∨ 2 ≤ fuel)) ∨ 3 ≤ fuel →
  runs (terminator_loop fuel) s (λ s', ∃ s1, s' = set_fields_written 0 s1 ∧
    holds WriterState_default (out ++ before_term w0 st ++ term_bytes w0) s1).
Proof.
  revert st out s. induction fuel as [|fuel IH]; intros st out s Hh Hwf Hf; [lia|]. cbn [terminator_loop].
  unfold runs. rewrite (st_bind_try _ _ _ _ (writable_Ok _ _ _ Hh)), st_bind_get. rewrite (h_core _ _ _ _ _ _ Hh).
  destruct (write_terminator_spec w0 st (drop (buf_len s) (buf s)) Hwf)
    as (r & nout & out' & st' & d & E & Hw & Hwf' & Hr).
  rewrite E, lift_core_Ok, st_bind_set.
  pose proof (fill_holds _ _ _ st' _ _ _ _ Hh eq_refl Hw) as Hh'.
  destruct Hr as [(-> & <- & ->)|(-> & Hb & Hbig)].
  - left. eexists. split; [reflexivity|]. by eexists.
  - rewrite length_drop in Hbig. pose proof (h_cap _ _ _ _ _ _ Hh).
    change (runs (let! _ := flush_buf in terminator_loop fuel) (fill out' nout (set_core (with_state w0 st') s))
      (λ s', ∃ s1, s' = set_fields_written 0 s1 ∧
        holds WriterState_default (out ++ before_term w0 st ++ term_bytes w0) s1)).
    eapply runs_bind; [apply flush_buf_runs, Hh'|]. intros s1 [Hh1 Hl1].
    eapply runs_weaken; [apply IH; [exact Hh1|done|]|].
    + destruct Hf as [[Hz [[Hnil Hf]|Hf]]|Hf].
      * destruct Hbig as [_ Hne]; [lia|]. by rewrite Hnil in Hne.
      * destruct Hbig as [Hnil _]; [lia|]. left. split; [done|]. left. split; [done|lia].
      * left. split; [done|]. right. lia.
    + intros s2 (s3 & -> & Hh3). exists s3. split; [done|]. by rewrite Hb, <- !app_assoc in *.
Qed.

(** Rounds that suffice, by what the buffer holds and whether the field has been
    begun. *)
Definition field_fuel (st : WriterState) (f : list u8) (s : FileWriter W) : nat :=
  length f + if bool_decide (buf_len s = 0) then (if in_field st then 1 else 2) else 3.

Lemma field_loop_runs fuel st out s f :
  holds st out s → field_fuel st f s ≤ fuel →
  runs (field_loop fuel f) s (λ s', ∃ st' s1, s' = set_fields_written (n + 1) s1 ∧
    holds st' (out ++ body w0 st f) s1 ∧ in_field st' = true ∧ ws_quoting st' = will_quote w0 st f ∧
    record_bytes st' = record_bytes st + length (body w0 st f)).
Proof.
  revert st out s f. induction fuel as [|fuel IH]; intros st out s f Hh Hf; unfold field_fuel in Hf.
  { destruct (bool_decide _), (in_field st); lia. }
  cbn [field_loop]. unfold runs. rewrite (st_bind_try _ _ _ _ (writable_Ok _ _ _ Hh)), st_bind_get.
  rewrite (h_core _ _ _ _ _ _ Hh).
  destruct (field_spec w0 st f (drop (buf_len s) (buf s)))
    as (r & nin & nout & out' & st' & d & E & Hnin & Hw & Hrb & Hb & Hq & Hr).
  rewrite E, lift_core_Ok, st_bind_set.
  pose proof (fill_holds _ _ _ st' _ _ _ _ Hh eq_refl Hw) as Hh'.
  destruct Hr as [(-> & -> & Hin)|(-> & Hbig)].
  - left. eexists. split; [reflexivity|]. exists st', (fill out' nout (set_core (with_state w0 st') s)).
    rewrite drop_all in *. assert (body w0 st' [] = []) as Hnil.
    { unfold body. rewrite Hin. by destruct (ws_quoting st'). }
    rewrite Hnil, app_nil_r in Hb. rewrite Hb. split_and!; try done.
    + cbn [fill set_buf set_core fields_written]. by rewrite (h_fields _ _ _ _ _ _ Hh).
    + rewrite <- Hq. unfold will_quote. by rewrite Hin.
    + rewrite Hrb. by destruct Hw as (-> & _).
  - rewrite length_drop in Hbig. pose proof (h_cap _ _ _ _ _ _ Hh).
    match goal with |- context [st_bind flush_buf ?k ?x] => change (runs (st_bind flush_buf k) x (λ s', ∃ st' s1,
      s' = set_fields_written (n + 1) s1 ∧
      holds st' (out ++ body w0 st f) s1 ∧ in_field st' = true ∧ ws_quoting st' = will_quote w0 st f ∧
      record_bytes st' = record_bytes st + length (body w0 st f))) end.
    eapply runs_bind; [apply flush_buf_runs, Hh'|]. intros s1 [Hh1 Hl1].
    eapply runs_weaken; [apply IH; [exact Hh1|]|].
    + unfold field_fuel. rewrite (bool_decide_true _ Hl1), length_drop.
      destruct (decide (buf_len s = 0)) as [Hz|Hz];
        [rewrite (bool_decide_true _ Hz) in Hf|rewrite (bool_decide_false _ Hz) in Hf].
      * destruct Hbig as [-> Hpos]; [lia|]. destruct (in_field st); [destruct Hpos as [|Hpos]; [done|]|]; lia.
      * destruct (in_field st'); lia.
    + intros s2 (st2 & s3 & -> & Hh3 & Hin & Hwq & Hrb3). exists st2, s3. rewrite Hb.
      split_and!; try done.
      * by rewrite <- app_assoc in Hh3.
      * congruence.
      * rewrite Hrb3, Hrb. destruct Hw as (-> & _). rewrite length_app. lia.
Qed.

End low_level.

Lemma holds_fields st out fl first n m s :
  holds st out fl first n s → holds st out fl first m (set_fields_written m s).
Proof. by intros [? ? ? ? ? ? ?]. Qed.

(** ** Records *)

(** A field as it stands in the output. *)
Definition quoted_field (f : list u8) : list u8 :=
  if quoted w0 f
  then [w_quote w0] ++ escaped (w_quote w0) (w_escape w0) (w_double_quote w0) f ++ [w_quote w0]
  else f.

(** The fields of a record with delimiters between them. *)
Fixpoint joined (fs : list (list u8)) : list u8 :=
  match fs with
  | [] => []
  | [f] => quoted_field f
  | f :: fs => quoted_field f ++ [w_delimiter w0] ++ joined fs
  end.

(** The line of a record: two quotes stand for a record that has no bytes. *)
Definition record_line (fs : list (list u8)) : list u8 :=
  (if bool_decide (joined fs = []) then [w_quote w0; w_quote w0] else joined fs) ++ term_bytes w0.

Lemma joined_snoc fs f :
  joined (fs ++ [f]) = if bool_decide (fs = []) then quoted_field f
                       else joined fs ++ [w_delimiter w0] ++ quoted_field f.
Proof.
  induction fs as [|g fs IH]; [done|]. rewrite (bool_decide_false (g :: fs = [])) by done.
  destruct fs as [|g' fs]; [done|].
  change (joined ((g :: g' :: fs) ++ [f])) with (quoted_field g ++ [w_delimiter w0] ++ joined ((g' :: fs) ++ [f])).
  rewrite IH, (bool_decide_false (g' :: fs = [])) by done.
  change (joined (g :: g' :: fs)) with (quoted_field g ++ [w_delimiter w0] ++ joined (g' :: fs)).
  by rewrite <- !app_assoc.
Qed.

(** The writer has written the fields [fs] of a record, up to the quote that
    closes the last of them. *)
Definition in_record (fs : list (list u8)) (st : WriterState) (part : list u8) : Prop :=
  part ++ closing w0 st = joined fs ∧ record_bytes st = length part ∧ state_wf st ∧
  (fs = [] → st = WriterState_default).

Lemma in_record_start : in_record [] WriterState_default [].
Proof. by split_and!. Qed.

Lemma write_field_runs fs st part f out fl first s :
  in_record fs st part → holds st (out ++ part) fl first (length fs) s →
  runs (write_field_impl f) s (λ s', ∃ st' part', in_record (fs ++ [f]) st' part' ∧
    holds st' (out ++ part') fl first (length (fs ++ [f])) s').
Proof.
  intros (Hj & Hrb & Hwf & Hstart) Hh. unfold write_field_impl, runs. rewrite st_bind_get.
  rewrite (h_fields _ _ _ _ _ _ Hh).
  assert (Hfield : ∀ st1 out1 s1 part1, holds st1 (out ++ part1) fl first (length fs) s1 →
    in_field st1 = false → out1 = out ++ part1 → record_bytes st1 = length part1 →
    joined (fs ++ [f]) = part1 ++ quoted_field f →
    runs (field_loop (field_rounds f) f) s1 (λ s', ∃ st' part', in_record (fs ++ [f]) st' part' ∧
      holds st' (out ++ part') fl first (length (fs ++ [f])) s')).
  { intros st1 out1 s1 part1 Hh1 Hin -> Hrb1 Hj1. eapply runs_weaken; [eapply field_loop_runs; [exact Hh1|]|].
    { unfold field_fuel, field_rounds. case_match; [destruct (in_field st1)|]; lia. }
    intros s' (st' & s2 & -> & Hh2 & Hin2 & Hq2 & Hrb2).
    exists st', (part1 ++ body w0 st1 f). unfold body, will_quote in *. rewrite Hin in *.
    split.
    - split_and!.
      + rewrite Hj1. unfold closing, quoted_field. rewrite Hq2.
        destruct (quoted w0 f); [by rewrite <- app_assoc|by rewrite app_nil_r].
      + rewrite length_app. lia.
      + intros H0'. rewrite Hq2. destruct (quoted w0 f); [simpl in Hrb2; lia|done].
      + intros ?%(f_equal length). rewrite length_app in *. simpl in *. lia.
    - rewrite length_app. apply holds_fields with (n := length fs). by rewrite app_assoc. }
  destruct fs as [|g fs].
  - change (bool_decide (0 < length [])) with false. cbn iota.
    change (runs (field_loop (field_rounds f) f) s (λ s', ∃ st' part', in_record ([] ++ [f]) st' part' ∧
      holds st' (out ++ part') fl first (length ([] ++ [f])) s')).
    specialize (Hstart eq_refl). subst st. cbn in Hj. rewrite app_nil_r in Hj. subst part.
    by eapply Hfield.
  - rewrite bool_decide_true by (simpl; lia).
    match goal with |- context [st_bind (delimiter_loop ?k) ?h ?x] =>
      change (runs (st_bind (delimiter_loop k) h) x (λ s', ∃ st' part', in_record ((g :: fs) ++ [f]) st' part' ∧
        holds st' (out ++ part') fl first (length ((g :: fs) ++ [f])) s')) end.
    eapply runs_bind; [apply delimiter_loop_runs; [exact Hh|right; done]|].
    intros s1 (st1 & Hh1 & Hin1 & Hq1 & Hrb1).
    eapply (Hfield _ _ _ (part ++ closing w0 st ++ [w_delimiter w0])); try done.
    + by rewrite <- app_assoc in Hh1.
    + rewrite Hrb1, Hrb, !length_app. lia.
    + rewrite joined_snoc, bool_decide_false by done. rewrite <- Hj. by rewrite <- !app_assoc.
Qed.

Lemma write_fields_runs gs fs st part out fl first s :
  in_record fs st part → holds st (out ++ part) fl first (length fs) s →
  runs (st_each write_field_impl gs) s (λ s', ∃ st' part', in_record (fs ++ gs) st' part' ∧
    holds st' (out ++ part') fl first (length (fs ++ gs)) s').
Proof.
  revert fs st part s. induction gs as [|g gs IH]; intros fs st part s Hr Hh.
  - apply runs_ret. exists st, part. by rewrite app_nil_r.
  - cbn [st_each]. eapply runs_bind; [by eapply write_field_runs|].
    intros s' (st' & part' & Hr' & Hh'). eapply runs_weaken; [by apply (IH _ _ _ _ Hr' Hh')|].
    intros s2. by rewrite <- app_assoc.
Qed.

(** What the check on the number of fields lets through. *)
Definition count_ok (fl : bool) (first : option nat) (n : nat) : bool :=
  fl || match first with None => true | Some m => bool_decide (m = n) end.

Definition next_first (fl : bool) (first : option nat) (n : nat) : option nat :=
  if fl then first else match first with None => Some n | Some m => Some m end.

Lemma check_field_count_holds st out fl first n s :
  holds st out fl first n s →
  if count_ok fl first n
  then ∃ s', check_field_count (IoError := IoError) s = (Ok tt, s') ∧ holds st out fl (next_first fl first n) n s' ∧
       buf s' = buf s ∧ buf_len s' = buf_len s
  else ∃ m, first = Some m ∧ check_field_count (IoError := IoError) s = (Err (CE_UnequalLengths None m n), s).
Proof.
  intros Hh. pose proof Hh as [Hc Hl Hcap Ho Hf Hff Hn]. unfold check_field_count, count_ok, next_first.
  rewrite Hf, Hff, Hn. destruct fl; [by exists s|]. destruct first as [m|]; cbn [orb].
  - destruct (decide (m = n)) as [->|Hmn].
    + rewrite (bool_decide_true (n = n)) by done. rewrite bool_decide_false by tauto. by exists s.
    + rewrite (bool_decide_false (m = n)), bool_decide_true by done. by exists m.
  - eexists. split; [reflexivity|]. split_and!; [by split|done..].
Qed.

Lemma before_term_joined fs st part :
  in_record fs st part →
  part ++ before_term w0 st = (if bool_decide (joined fs = []) then [w_quote w0; w_quote w0] else joined fs).
Proof.
  intros (Hj & Hrb & Hwf & _). unfold before_term. destruct (decide (record_bytes st = 0)) as [H0'|H0'].
  - rewrite (bool_decide_true _ H0'). rewrite H0' in Hrb. destruct part; [|done]. rewrite <- Hj.
    unfold closing. by rewrite (Hwf H0'), bool_decide_true.
  - rewrite (bool_decide_false _ H0'), Hj. rewrite bool_decide_false; [done|].
    rewrite <- Hj. intros [E _]%app_eq_nil. rewrite E in Hrb. done.
Qed.

(** A writer between two records. *)
Definition ready (out : list u8) (fl : bool) (first : option nat) (s : FileWriter W) : Prop :=
  holds WriterState_default out fl first 0 s.

Lemma terminate_runs fs st part out fl first s :
  in_record fs st part → holds st (out ++ part) fl first (length fs) s → count_ok fl first (length fs) = true →
  runs terminate s (ready (out ++ record_line fs) fl (next_first fl first (length fs))).
Proof.
  intros Hr Hh Hok. unfold terminate, runs.
  pose proof (check_field_count_holds _ _ _ _ _ _ Hh) as Hc. rewrite Hok in Hc.
  destruct Hc as (s' & E & Hh' & _). rewrite (st_bind_ok _ _ _ _ _ E).
  match goal with |- context [terminator_loop ?k ?x] =>
    change (runs (terminator_loop k) x (ready (out ++ record_line fs) fl (next_first fl first (length fs)))) end.
  eapply runs_weaken; [eapply terminator_loop_runs; [exact Hh'|apply Hr|by right]|].
  intros s2 (s1 & -> & Hh1). apply holds_fields with (n := length fs).
  rewrite app_assoc in Hh1. rewrite <- (app_assoc out), (before_term_joined fs) in Hh1 by done.
  by rewrite <- app_assoc in Hh1.
Qed.

(** A record with another number of fields than the first: an error, or one of the
    underlying writer before it. *)
Definition refuses (m : method unit) (s : FileWriter W) (a b : nat) : Prop :=
  (∃ s', m s = (Err (CE_UnequalLengths None a b), s')) ∨ (∃ e s', m s = (Err (CE_Io e), s') ∧ write_fails e).

Lemma refuses_bind m (f : unit → method unit) s Q a b :
  runs m s Q → (∀ s', Q s' → refuses (f tt) s' a b) → refuses (st_bind m f) s a b.
Proof.
  intros [(s' & E & HQ)|(e & s' & E & He)] Hf; unfold refuses.
  - rewrite (st_bind_ok _ _ _ _ _ E). by apply Hf.
  - right. exists e, s'. by rewrite (st_bind_err _ _ _ _ _ E).
Qed.

Lemma terminate_refused st out fl first n s :
  holds st out fl first n s → count_ok fl first n = false → refuses terminate s (default 0 first) n.
Proof.
  intros Hh Hc. pose proof (check_field_count_holds _ _ _ _ _ _ Hh) as Hf. rewrite Hc in Hf. destruct Hf as (m & -> & E).
  left. unfold terminate. eexists. by rewrite (st_bind_err _ _ _ _ _ E).
Qed.

Lemma write_record_refused fs out fl first s :
  ready out fl first s → count_ok fl first (length fs) = false → refuses (write_record fs) s (default 0 first) (length fs).
Proof.
  intros Hh Hc. unfold write_record. eapply refuses_bind.
  - apply (write_fields_runs fs [] WriterState_default [] out fl first); [apply in_record_start|].
    by rewrite app_nil_r.
  - intros s' (st & part & _ & Hh'). by eapply terminate_refused.
Qed.

Lemma write_record_runs fs out fl first s :
  ready out fl first s → count_ok fl first (length fs) = true →
  runs (write_record fs) s (ready (out ++ record_line fs) fl (next_first fl first (length fs))).
Proof.
  intros Hh Hok. unfold write_record.
  eapply runs_bind.
  - apply (write_fields_runs fs [] WriterState_default [] out fl first); [apply in_record_start|].
    by rewrite app_nil_r.
  - intros s' (st & part & Hr & Hh'). by eapply terminate_runs.
Qed.

(** ** The fast path for byte records *)

Lemma escaped_length_le q e dq l : length (escaped q e dq l) ≤ 2 * length l.
Proof. induction l as [|b l IH]; [done|]. simpl. rewrite length_app. destruct (beq b q), dq; simpl; lia. Qed.

Lemma quoted_field_length f : length (quoted_field f) ≤ 2 * length f + 2.
Proof.
  unfold quoted_field. pose proof (escaped_length_le (w_quote w0) (w_escape w0) (w_double_quote w0) f).
  destruct (quoted w0 f); rewrite ?length_app; simpl; lia.
Qed.

Section fast.
Context (debug : bool) (fl : bool) (first : option nat) (n : nat).
#[local] Abbreviation room := (λ s, length (drop (buf_len s) (buf s))).

(** A method that puts [data] into the buffer, where there is room for it. *)
Definition puts (m : method unit) (data : list u8) : Prop := ∀ st out s,
  holds st out fl first n s → length data ≤ room s →
  ∃ s', m s = (Ok tt, s') ∧ holds st (out ++ data) fl first n s' ∧ room s' + length data = room s.

Lemma puts_ret : puts (st_ret tt) [].
Proof. intros st out s Hh _. exists s. rewrite app_nil_r. split_and!; [done|done|simpl; lia]. Qed.

Lemma puts_bytes data : puts (put_bytes data) data.
Proof.
  intros st out s Hh Hl. destruct (put_bytes_runs _ _ _ _ _ _ _ Hh Hl) as (s' & E & Hh' & Hbl & Hlen).
  exists s'. split_and!; [done|done|]. rewrite !length_drop in *. lia.
Qed.

Lemma puts_bind m (f : unit → method unit) a b : puts m a → puts (f tt) b → puts (st_bind m f) (a ++ b).
Proof.
  intros Hm Hf st out s Hh Hl. rewrite length_app in Hl.
  destruct (Hm st out s Hh) as (s1 & E1 & Hh1 & Hr1); [lia|].
  destruct (Hf st _ s1 Hh1) as (s2 & E2 & Hh2 & Hr2); [lia|].
  exists s2. rewrite (st_bind_ok _ _ _ _ _ E1), <- app_assoc in *. split_and!; [done|done|].
  rewrite length_app. lia.
Qed.

(** The settings stay the same while bytes are put into the buffer. *)
Lemma puts_get {A} (g : CsvWriter → A) (f : A → method unit) data :
  (∀ st, g (with_state w0 st) = g w0) → puts (f (g w0)) data →
  puts (let! c := st_get (λ s, g (core s)) in f c) data.
Proof.
  intros Hg Hf st out s Hh Hl. rewrite st_bind_get, (h_core _ _ _ _ _ _ Hh), Hg. by apply Hf.
Qed.

Lemma field_into_buffer_puts f st out s :
  holds st out fl first n s → 2 * length f + 2 ≤ room s →
  ∃ s', write_field_into_buffer (IoError := IoError) debug f s = (Ok tt, s') ∧
    holds st (out ++ quoted_field f) fl first n s' ∧ room s' + length (quoted_field f) = room s.
Proof.
  intros Hh Hroom. pose proof (quoted_field_length f). unfold write_field_into_buffer.
  rewrite st_bind_get, (h_core _ _ _ _ _ _ Hh), should_quote_spec, lift_core_Ok.
  unfold quoted_field in *. destruct (quoted w0 f); cbn [negb]; [|apply puts_bytes; [done|lia]].
  cbn [w_quote w_escape w_double_quote with_state].
  destruct (puts_bytes [w_quote w0] st out s Hh) as (s1 & E1 & Hh1 & Hr1); [simpl; lia|].
  rewrite (st_bind_ok _ _ _ _ _ E1), (st_bind_try _ _ _ _ (writable_Ok _ _ _ _ _ _ Hh1)).
  destruct (quote_loop_spec (S (length f)) f (drop (buf_len s1) (buf s1)) (w_quote w0) (w_escape w0)
    (w_double_quote w0)) as (r & nin & nout & out' & E & Hnin & Hw & Hr & _); [lia|].
  unfold quote_bytes. rewrite E, lift_core_Ok. cbn [length] in Hr1.
  assert (r = W_InputEmpty ∧ nin = length f) as [-> ->].
  { destruct Hr as [?|(-> & Hlt & Hfull)]; [done|]. exfalso.
    pose proof (escaped_length_le (w_quote w0) (w_escape w0) (w_double_quote w0) (take nin f)) as He.
    rewrite length_take in He. destruct Hw as (-> & _). lia. }
  cbv iota beta. rewrite (st_bind_try _ _ _ tt) by (unfold debug_assert; by rewrite andb_false_r).
  rewrite (st_bind_try _ _ _ tt) by (unfold debug_assert; by rewrite bool_decide_true, andb_false_r).
  rewrite st_bind_set. rewrite take_ge in Hw by lia.
  pose proof (fill_holds _ _ _ _ _ _ st (core s1) _ _ _ Hh1 (h_core _ _ _ _ _ _ Hh1) Hw) as Hh2.
  replace (set_core (core s1) s1) with s1 in Hh2 by (by destruct s1).
  pose proof (wrote_length _ _ _ _ Hw) as Ho. pose proof (h_len _ _ _ _ _ _ Hh1). destruct Hw as (Hn & Hle & _).
  assert (Hr2 : room (fill out' nout s1) + nout = room s1).
  { cbn [fill set_buf buf buf_len]. rewrite length_drop in Hle. rewrite !length_drop, length_app, length_take, Ho, length_drop, Nat.min_l by done. lia. }
  pose proof (escaped_length_le (w_quote w0) (w_escape w0) (w_double_quote w0) f).
  destruct (puts_bytes [w_quote w0] _ _ _ Hh2) as (s3 & E3 & Hh3 & Hr3); [cbn [length]; lia|].
  exists s3. split; [done|]. split; [by rewrite <- !app_assoc in Hh3|].
  rewrite !length_app in *. cbn [length] in *. lia.
Qed.

(** What the loop over the fields puts into the buffer. *)
Fixpoint rest_of (fs : list (list u8)) : list u8 :=
  match fs with [] => [] | f :: fs => [w_delimiter w0] ++ quoted_field f ++ rest_of fs end.

Fixpoint fields_bound (fs : list (list u8)) : nat :=
  match fs with [] => 0 | f :: fs => 1 + (2 * length f + 2) + fields_bound fs end.

Lemma joined_rest f fs : joined (f :: fs) = quoted_field f ++ rest_of fs.
Proof.
  revert f. induction fs as [|g fs IH]; intros f; [by rewrite app_nil_r|].
  change (joined (f :: g :: fs)) with (quoted_field f ++ [w_delimiter w0] ++ joined (g :: fs)). by rewrite IH.
Qed.

Lemma fields_into_buffer_puts fs st out s :
  holds st out fl first n s → fields_bound fs ≤ room s →
  ∃ s', fields_into_buffer (IoError := IoError) debug false fs s = (Ok tt, s') ∧
    holds st (out ++ rest_of fs) fl first n s' ∧ room s ≤ room s' + fields_bound fs.
Proof.
  revert out s. induction fs as [|f fs IH]; intros out s Hh Hroom.
  { exists s. rewrite app_nil_r. split_and!; [done|done|simpl; lia]. }
  cbn [fields_into_buffer negb rest_of fields_bound] in *.
  destruct (puts_get w_delimiter (λ c, put_bytes [c]) [w_delimiter w0] (λ _, eq_refl) (puts_bytes _) st out s Hh)
    as (s1 & E1 & Hh1 & Hr1); [simpl; lia|].
  assert (E1' : (let! c := st_get core in put_bytes (IoError := IoError) [w_delimiter c]) s = (Ok tt, s1)) by exact E1.
  rewrite (st_bind_ok _ _ _ _ _ E1'). cbn [length] in Hr1.
  destruct (field_into_buffer_puts f st _ s1 Hh1) as (s2 & E2 & Hh2 & Hr2); [lia|].
  rewrite (st_bind_ok _ _ _ _ _ E2). pose proof (quoted_field_length f).
  destruct (IH _ s2 Hh2) as (s3 & E3 & Hh3 & Hr3); [lia|].
  exists s3. split_and!; [done|by rewrite <- !app_assoc in Hh3|lia].
Qed.

End fast.

Lemma fields_bound_eq fs : fields_bound fs = 2 * length (concat fs) + 3 * length fs.
Proof. induction fs as [|f fs IH]; simpl; [done|]. rewrite length_app, IH. lia. Qed.

Lemma write_byte_record_runs debug r fs out fl first s :
  record_is r fs → ready out fl first s → count_ok fl first (length fs) = true →
  runs (write_byte_record debug r) s (ready (out ++ record_line fs) fl (next_first fl first (length fs))).
Proof.
  intros Hr Hh Hok. unfold write_byte_record, runs.
  rewrite (st_bind_try (λ _, as_slice r) _ _ _ (as_slice_is r fs Hr)).
  rewrite (st_bind_try (λ _, br_iter r) _ _ _ (br_iter_is r fs Hr)).
  destruct (decide (concat fs = [])) as [Hnil|Hnil];
    [rewrite (bool_decide_true _ Hnil); by apply write_record_runs|rewrite (bool_decide_false _ Hnil)].
  rewrite (st_bind_try _ _ _ _ (writable_Ok _ _ _ _ _ _ Hh)). destruct Hr as (Hlen & _). rewrite Hlen.
  case_bool_decide as Hroom; [by apply write_record_runs|]. unfold upper_bound in Hroom.
  destruct fs as [|f fs]; [done|]. pose proof (fields_bound_eq fs) as Hb.
  cbn [concat length] in Hroom. rewrite length_app in Hroom.
  cbn [fields_into_buffer negb].
  destruct (field_into_buffer_puts debug fl first 0 f _ _ _ Hh) as (s1 & E1 & Hh1 & Hr1); [lia|].
  pose proof (quoted_field_length f).
  destruct (fields_into_buffer_puts debug fl first 0 fs _ _ _ Hh1) as (s2 & E2 & Hh2 & Hr2); [lia|].
  rewrite <- app_assoc, <- joined_rest in Hh2.
  left.
  assert (E12 : fields_into_buffer (IoError := IoError) debug true (f :: fs) s = (Ok tt, s2)).
  { cbn [fields_into_buffer negb]. change (st_bind (st_ret tt) ?k s) with (k tt s). cbv beta.
    by rewrite (st_bind_ok _ _ _ _ _ E1). }
  cbn [fields_into_buffer negb] in E12. rewrite (st_bind_ok _ _ _ _ _ E12), st_bind_set.
  unfold write_terminator_into_buffer.
  pose proof (holds_fields _ _ _ _ _ (length (f :: fs)) _ Hh2) as Hh3.
  pose proof (check_field_count_holds _ _ _ _ _ _ Hh3) as Hc. rewrite Hok in Hc.
  destruct Hc as (s4 & E4 & Hh4 & Hbuf & Hbl). rewrite (st_bind_ok _ _ _ _ _ E4), st_bind_get.
  rewrite (h_core _ _ _ _ _ _ Hh4). cbn [w_term with_state]. fold (term_bytes w0).
  destruct (puts_bytes fl (next_first fl first (length (f :: fs))) (length (f :: fs)) (term_bytes w0) _ _ _ Hh4)
    as (s5 & E5 & Hh5 & _).
  { pose proof (term_bytes_length w0). rewrite Hbl, Hbuf. cbn [set_fields_written buf buf_len]. lia. }
  rewrite (st_bind_ok _ _ _ _ _ E5). eexists. split; [reflexivity|].
  apply holds_fields with (n := length (f :: fs)). unfold record_line.
  rewrite (bool_decide_false (joined (f :: fs) = [])); [by rewrite <- app_assoc in Hh5|].
  intros Hj. rewrite joined_rest in Hj. apply app_eq_nil in Hj as [Hf Hrest].
  apply Hnil. clear -Hf Hrest. revert f Hf Hrest. induction fs as [|g fs IH]; intros f Hf Hrest; [|done].
  unfold quoted_field in Hf. destruct (quoted w0 f); [done|]. by subst.
Qed.

Lemma write_byte_record_refused debug r fs out fl first s :
  record_is r fs → ready out fl first s → count_ok fl first (length fs) = false →
  refuses (write_byte_record debug r) s (default 0 first) (length fs).
Proof.
  intros Hr Hh Hok. unfold write_byte_record, refuses.
  rewrite (st_bind_try (λ _, as_slice r) _ _ _ (as_slice_is r fs Hr)).
  rewrite (st_bind_try (λ _, br_iter r) _ _ _ (br_iter_is r fs Hr)).
  destruct (decide (concat fs = [])) as [Hnil|Hnil];
    [rewrite (bool_decide_true _ Hnil); by eapply write_record_refused|rewrite (bool_decide_false _ Hnil)].
  rewrite (st_bind_try _ _ _ _ (writable_Ok _ _ _ _ _ _ Hh)). destruct Hr as (Hlen & _). rewrite Hlen.
  case_bool_decide as Hroom; [by eapply write_record_refused|]. unfold upper_bound in Hroom.
  destruct fs as [|f fs]; [done|]. pose proof (fields_bound_eq fs) as Hb.
  cbn [concat length] in Hroom. rewrite length_app in Hroom. cbn [fields_into_buffer negb].
  destruct (field_into_buffer_puts debug fl first 0 f _ _ _ Hh) as (s1 & E1 & Hh1 & Hr1); [lia|].
  pose proof (quoted_field_length f).
  destruct (fields_into_buffer_puts debug fl first 0 fs _ _ _ Hh1) as (s2 & E2 & Hh2 & Hr2); [lia|]. left.
  assert (E12 : fields_into_buffer (IoError := IoError) debug true (f :: fs) s = (Ok tt, s2)).
  { cbn [fields_into_buffer negb]. change (st_bind (st_ret tt) ?k s) with (k tt s). cbv beta.
    by rewrite (st_bind_ok _ _ _ _ _ E1). }
  cbn [fields_into_buffer negb] in E12. rewrite (st_bind_ok _ _ _ _ _ E12), st_bind_set.
  unfold write_terminator_into_buffer.
  pose proof (holds_fields _ _ _ _ _ (length (f :: fs)) _ Hh2) as Hh3.
  pose proof (check_field_count_holds _ _ _ _ _ _ Hh3) as Hc. rewrite Hok in Hc. destruct Hc as (m & -> & E4).
  eexists. by rewrite (st_bind_err _ _ _ _ _ E4).
Qed.

(** ** A whole file *)

(** Every record is let through by the check on the number of fields. *)
Fixpoint counts_ok (fl : bool) (first : option nat) (rs : list (list (list u8))) : Prop :=
  match rs with
  | [] => True
  | r :: rs => count_ok fl first (length r) = true ∧ counts_ok fl (next_first fl first (length r)) rs
  end.

(** The first record that the check refuses, with the two numbers. *)
Fixpoint first_unequal (fl : bool) (first : option nat) (rs : list (list (list u8))) : option (nat * nat) :=
  match rs with
  | [] => None
  | r :: rs => if count_ok fl first (length r) then first_unequal fl (next_first fl first (length r)) rs
      else Some (default 0 first, length r)
  end.

Lemma first_unequal_None fl first rs : first_unequal fl first rs = None → counts_ok fl first rs.
Proof.
  revert first. induction rs as [|r rs IH]; intros first; [done|]. cbn. destruct (count_ok _ _ _); [|done].
  intros H1. split; [done|]. by apply IH.
Qed.

Lemma counts_ok_flexible first rs : counts_ok true first rs.
Proof. induction rs; by split. Qed.

Lemma counts_ok_equal n rs : Forall (λ r, length r = n) rs → counts_ok false None rs.
Proof.
  intros H1. assert (Hs : counts_ok false (Some n) rs).
  { induction H1 as [|r rs Hr _ IH]; [done|]. split; [by apply bool_decide_eq_true|done]. }
  destruct H1 as [|r rs Hr Hrs]; [done|]. split; [done|]. cbn. rewrite Hr. by destruct Hs.
Qed.

Lemma ready_new capacity fl w :
  2 ≤ capacity → w_state w0 = WriterState_default →
  ready (written w) fl None (FileWriter_new w0 capacity fl w).
Proof.
  intros Hcap Hw. split; simpl; rewrite ?length_replicate; try done; try lia.
  - by rewrite <- Hw; destruct w0.
  - unfold produced. simpl. by rewrite take_0, app_nil_r.
Qed.

(** A list of methods that each write the line of a record. *)
Lemma write_all_runs {A} (f : A → method unit) (R : A → list (list u8) → Prop) :
  (∀ a fs out fl first s, R a fs → ready out fl first s → count_ok fl first (length fs) = true →
    runs (f a) s (ready (out ++ record_line fs) fl (next_first fl first (length fs)))) →
  ∀ rs fss out fl first s, Forall2 R rs fss → ready out fl first s → counts_ok fl first fss →
  runs (st_each f rs) s (λ s', ∃ first', ready (out ++ concat (record_line <$> fss)) fl first' s').
Proof.
  intros Hf rs. induction rs as [|r rs IH]; intros fss out fl first s Hrs Hs Hok.
  - apply Forall2_nil_inv_l in Hrs as ->. apply runs_ret. exists first. by rewrite app_nil_r.
  - apply Forall2_cons_inv_l in Hrs as (fs & fss' & His & Hrs & ->). destruct Hok as [Hc Hok].
    cbn [st_each]. eapply runs_bind; [by apply (Hf _ _ _ _ _ _ His Hs Hc)|].
    intros s' Hs'. eapply runs_weaken; [by apply (IH _ _ _ _ _ Hrs Hs' Hok)|].
    intros s2 (first2 & H2). exists first2. by rewrite <- app_assoc in H2.
Qed.

(** ... and one of them is refused. *)
Lemma write_all_refused {A} (f : A → method unit) (R : A → list (list u8) → Prop) :
  (∀ a fs out fl first s, R a fs → ready out fl first s → count_ok fl first (length fs) = true →
    runs (f a) s (ready (out ++ record_line fs) fl (next_first fl first (length fs)))) →
  (∀ a fs out fl first s, R a fs → ready out fl first s → count_ok fl first (length fs) = false →
    refuses (f a) s (default 0 first) (length fs)) →
  ∀ rs fss out fl first s a b, Forall2 R rs fss → ready out fl first s → first_unequal fl first fss = Some (a, b) →
  refuses (st_each f rs) s a b.
Proof.
  intros Hf Hg rs. induction rs as [|r rs IH]; intros fss out fl first s a b Hrs Hs Hu.
  - apply Forall2_nil_inv_l in Hrs as ->. done.
  - apply Forall2_cons_inv_l in Hrs as (fs & fss' & His & Hrs & ->). cbn [first_unequal] in Hu.
    cbn [st_each]. destruct (count_ok fl first (length fs)) eqn:Hc.
    + eapply refuses_bind; [by apply (Hf _ _ _ _ _ _ His Hs Hc)|]. intros s' Hs'. by apply (IH _ _ _ _ _ _ _ Hrs Hs' Hu).
    + injection Hu as <- <-. unfold refuses.
      destruct (Hg _ _ _ _ _ _ His Hs Hc) as [(s' & E)|(e & s' & E & He)]; rewrite (st_bind_err _ _ _ _ _ E).
      * left. by eexists.
      * right. by eexists _, _.
Qed.

Lemma flush_runs out fl first s :
  ready out fl first s → runs flush s (λ s', ready out fl first s' ∧ written (wtr s') = out).
Proof.
  intros Hs. unfold flush. eapply runs_bind; [apply flush_buf_runs, Hs|].
  intros s1 [Hs1 Hz]. unfold runs. destruct (io_flush (wtr s1)) as [[e|] w] eqn:E.
  - right. eexists _, _. split; [reflexivity|]. exists [], (wtr s1). right. by rewrite E.
  - left. eexists. split; [reflexivity|]. apply io_flush_written in E.
    destruct Hs1 as [Hc Hl Hcap Ho Hf Hff Hn]. unfold produced in Ho. rewrite Hz, take_0, app_nil_r in Ho.
    split; [split; simpl; try done|simpl; by rewrite E].
    unfold produced. simpl. by rewrite Hz, take_0, app_nil_r, E.
Qed.

Lemma into_inner_spec out fl first s :
  ready out fl first s →
  (∃ w s', into_inner s = (Ok w, s') ∧ written w = out) ∨
  (∃ e s', into_inner s = (Err (CE_Io e), s') ∧ write_fails e).
Proof.
  intros Hs. unfold into_inner. destruct (flush_runs _ _ _ _ Hs) as [(s' & E & _ & Hw)|(e & s' & E & He)].
  - left. exists (wtr s'), s'. by rewrite (st_bind_ok _ _ _ _ _ E).
  - right. exists e, s'. by rewrite (st_bind_err _ _ _ _ _ E).
Qed.

(** What writing records and taking the writer apart comes to: the lines in the
    underlying writer, the first record with another number of fields, or an error of
    the underlying writer. *)
Definition lines_written (fl : bool) (fss : list (list (list u8))) (w : W) (r : res (CsvError IoError) W) : Prop :=
  match r with
  | Ok w' => first_unequal fl None fss = None ∧ written w' = written w ++ concat (record_line <$> fss)
  | Err (CE_UnequalLengths pos a b) => pos = None ∧ first_unequal fl None fss = Some (a, b)
  | Err (CE_Io e) => write_fails e
  | _ => False
  end.

Lemma lines_written_each {A} (f : A → method unit) (R : A → list (list u8) → Prop) capacity fl w rs fss :
  (∀ a fs out fl first s, R a fs → ready out fl first s → count_ok fl first (length fs) = true →
    runs (f a) s (ready (out ++ record_line fs) fl (next_first fl first (length fs)))) →
  (∀ a fs out fl first s, R a fs → ready out fl first s → count_ok fl first (length fs) = false →
    refuses (f a) s (default 0 first) (length fs)) →
  2 ≤ capacity → w_state w0 = WriterState_default → Forall2 R rs fss →
  lines_written fl fss w ((let! _ := st_each f rs in into_inner) (FileWriter_new w0 capacity fl w)).1.
Proof.
  intros Hf Hg Hcap Hw Hrs. pose proof (ready_new capacity fl w Hcap Hw) as Hs. unfold lines_written.
  destruct (first_unequal fl None fss) as [[a b]|] eqn:Hu.
  - destruct (write_all_refused f R Hf Hg rs fss _ _ _ _ a b Hrs Hs Hu) as [(s' & E)|(e & s' & E & He)];
      by rewrite (st_bind_err _ _ _ _ _ E).
  - apply first_unequal_None in Hu.
    destruct (write_all_runs f R Hf rs fss _ _ _ _ Hrs Hs Hu) as [(s' & E & first' & Hs')|(e & s' & E & He)].
    + rewrite (st_bind_ok _ _ _ _ _ E).
      destruct (into_inner_spec _ _ _ _ Hs') as [(w' & s2 & E2 & Hw')|(e & s2 & E2 & He)]; by rewrite E2.
    + by rewrite (st_bind_err _ _ _ _ _ E).
Qed.

Lemma record_lines_written capacity fl w fss :
  2 ≤ capacity → w_state w0 = WriterState_default →
  lines_written fl fss w ((let! _ := st_each write_record fss in into_inner) (FileWriter_new w0 capacity fl w)).1.
Proof.
  intros Hcap Hw. apply (lines_written_each write_record eq); [| |done|done|by apply Forall_Forall2_diag, list.Forall_true].
  - intros a fs out fl' first s -> Hready Hc. by apply write_record_runs.
  - intros a fs out fl' first s -> Hready Hc. by eapply write_record_refused.
Qed.

Lemma byte_record_lines_written debug capacity fl w rs fss :
  2 ≤ capacity → w_state w0 = WriterState_default → Forall2 record_is rs fss →
  lines_written fl fss w ((let! _ := st_each (write_byte_record debug) rs in into_inner) (FileWriter_new w0 capacity fl w)).1.
Proof.
  intros Hcap Hw Hrs. apply (lines_written_each (write_byte_record debug) record_is); [| |done|done|done].
  - intros a fs out fl' first s Ha Hready Hc. by apply write_byte_record_runs.
  - intros a fs out fl' first s Ha Hready Hc. by eapply write_byte_record_refused.
Qed.

End writer_spec.
