(* ===== verification/CsvRoundtrip.v ===== *)
(** What csv's writer writes, csv-core's parser reads back. *)
From Stdlib Require Import ZArith Lia Btauto Strings.Byte.
From stdpp Require Import base list numbers option sets.
From S2P Require Import Prelude.
From S2P Require Import CsvNfa.
From S2P Require Import CsvDfa.
From S2P Require Import CsvReader.
From S2P Require Import CsvStream.
From S2P Require Import CsvWriter.
From S2P Require Import CsvRecord.
From S2P Require Import CsvFileWriter.
Open Scope rust_scope.

(** A reader and a writer that speak the same dialect: the same delimiter and
    quote, no comments, a terminator of the writer that ends records of the
    reader, and neither delimiter nor quote is one. *)
Record dialect (cfg : CsvConfig) (w : CsvWriter) : Prop := {
  d_delimiter : delimiter cfg = w_delimiter w;
  d_quote : quote cfg = w_quote w;
  d_quoting : quoting cfg = true;
  d_comment : comment cfg = None;
  d_term : match term cfg with
    | Term_CRLF => w_term w ∈ [Term_CRLF; Term_Any LF; Term_Any CR]
    | Term_Any b => w_term w = Term_Any b
    end;
  d_delimiter_quote : w_delimiter w ≠ w_quote w;
  d_delimiter_term : term_equals (term cfg) (w_delimiter w) = false;
  d_quote_term : term_equals (term cfg) (w_quote w) = false;
  d_escape : match escape cfg with
    | None => w_double_quote w = true
    | Some e => (e ≠ w_quote w) ∧ (w_double_quote w = false → w_escape w = e)
    end;
  d_double_quote : w_double_quote w = true → double_quote cfg = true
}.

Section roundtrip.
Context (cfg : CsvConfig) (w : CsvWriter) (Hd : dialect cfg w).

(** A field that needs no quotes. *)
Definition plain (f : list u8) : Prop :=
  (w_delimiter w ∉ f) ∧ (w_quote w ∉ f) ∧ Forall (λ b, term_equals (term cfg) b = false) f.

(** A field that survives: the writer quotes it, or it needs no quotes; and a
    reader with an escape byte does not find one in it. *)
Definition field_ok (f : list u8) : Prop :=
  (quoted w f = true ∨ plain f) ∧ (∀ e, escape cfg = Some e → e ∉ f).

(** The states in which a field begins. *)
Definition begins (s : NfaState) : bool :=
  match s with StartRecord | EndRecord | CRLF | EndFieldDelim => true | _ => false end.

(** A field has ended, up to its delimiter or terminator. *)
Definition field_read (s : NfaState) : bool :=
  match s with InField | InDoubleEscapedQuote => true | _ => false end.

Lemma parse_cons p b bs : parse cfg p (b :: bs) = parse cfg (parse_byte cfg p b) bs.
Proof. done. Qed.

Lemma begin_byte s c :
  begins s = true → term_equals (term cfg) c = false → (s = CRLF → term cfg = Term_CRLF) →
  read_byte cfg s c = read_start cfg c.
Proof.
  intros Hs Hc Hcr. assert (Hr : read_record_start cfg c = read_start cfg c).
  { unfold read_record_start. rewrite Hc, (d_comment _ _ Hd). done. }
  destruct s; try done. unfold read_byte.
  destruct (beq LF c) eqn:E; [|done]. apply beq_spec in E as <-. by rewrite (Hcr eq_refl) in Hc.
Qed.

(** A byte that leads from one state of the table to another, inside a record. *)
Lemma parse_byte_inside s bytes ends rows b s' o :
  is_dfa_state s = true → read_byte cfg s b = (s', o) → is_field_final s' = false →
  parse_byte cfg (mkParser s bytes ends rows) b
  = mkParser s' (bytes ++ if bool_decide (o = CopyToOutput) then [b] else []) ends rows.
Proof.
  intros Hs Hr Hf. unfold parse_byte. cbn [p_state p_bytes p_ends p_done].
  rewrite step_eq, Hr by done. cbn [fst snd]. rewrite Hf.
  assert (is_record_final s' = false) as -> by (by destruct s'). by rewrite app_nil_r.
Qed.

Lemma parse_byte_delimiter s bytes ends rows :
  field_read s = true ∨ (begins s = true ∧ (s = CRLF → term cfg = Term_CRLF)) →
  parse_byte cfg (mkParser s bytes ends rows) (w_delimiter w)
  = mkParser EndFieldDelim bytes (ends ++ [length bytes]) rows.
Proof.
  intros Hs. assert (Hr : read_byte cfg s (w_delimiter w) = (EndFieldDelim, Discard)).
  { assert (Hu : read_unquoted cfg (w_delimiter w) = (EndFieldDelim, Discard)).
    { unfold read_unquoted. by rewrite (d_delimiter _ _ Hd), beq_refl. }
    destruct Hs as [Hs|[Hs Hcr]].
    - destruct s; try done. unfold read_byte.
      rewrite (d_quote _ _ Hd), (beq_neq (w_quote w)), andb_false_r; [done|].
      apply not_eq_sym, (d_delimiter_quote _ _ Hd).
    - rewrite begin_byte by (done || apply (d_delimiter_term _ _ Hd)). unfold read_start.
      rewrite (d_quote _ _ Hd), beq_neq, andb_false_r; [done|].
      apply not_eq_sym, (d_delimiter_quote _ _ Hd). }
  unfold parse_byte. cbn [p_state p_bytes p_ends p_done].
  rewrite step_eq, Hr by (destruct Hs as [?|[? _]]; by destruct s). cbn. by rewrite app_nil_r.
Qed.

(** ** Fields *)

Lemma parse_escaped f bytes ends rows :
  (∀ e, escape cfg = Some e → e ∉ f) →
  parse cfg (mkParser InQuotedField bytes ends rows)
    (escaped (w_quote w) (w_escape w) (w_double_quote w) f)
  = mkParser InQuotedField (bytes ++ f) ends rows.
Proof.
  revert bytes. induction f as [|b f IH]; intros bytes He; cbn [escaped]; [by rewrite app_nil_r|].
  assert (Hnext : parse cfg (mkParser InQuotedField (bytes ++ [b]) ends rows)
    (escaped (w_quote w) (w_escape w) (w_double_quote w) f) = mkParser InQuotedField (bytes ++ b :: f) ends rows).
  { rewrite IH by set_solver. by rewrite <- app_assoc. }
  pose proof (d_quoting _ _ Hd) as Hq. pose proof (d_quote _ _ Hd) as Hqu.
  destruct (beq b (w_quote w)) eqn:Eb.
  - apply beq_spec in Eb. subst b. destruct (w_double_quote w) eqn:Hdq; cbn [app]; rewrite !parse_cons.
    + rewrite (parse_byte_inside _ _ _ _ _ InDoubleEscapedQuote Discard);
        [|done|unfold read_byte; by rewrite Hq, Hqu, beq_refl|done].
      rewrite (parse_byte_inside _ _ _ _ _ InQuotedField CopyToOutput);
        [|done|unfold read_byte; by rewrite Hq, Hqu, beq_refl, (d_double_quote _ _ Hd)|done].
      cbn. by rewrite app_nil_r.
    + pose proof (d_escape _ _ Hd) as Hesc. destruct (escape cfg) as [e|] eqn:Ee; [|congruence].
      destruct Hesc as [Hne Hwe]. rewrite (Hwe Hdq).
      assert (Hr : read_byte cfg InQuotedField e = (InEscapedQuote, Discard)).
      { unfold read_byte, is_byte. by rewrite Hq, Hqu, Ee, beq_refl, beq_neq by congruence. }
      rewrite (parse_byte_inside InQuotedField _ _ _ _ _ _ eq_refl Hr) by done.
      rewrite (parse_byte_inside _ _ _ _ _ InQuotedField CopyToOutput) by done.
      cbn. rewrite app_nil_r. rewrite (Hwe Hdq) in Hnext. exact Hnext.
  - cbn [app]. rewrite parse_cons.
    rewrite (parse_byte_inside _ _ _ _ _ InQuotedField CopyToOutput); [done|done| |done].
    assert (Hb : b ≠ w_quote w) by (intros ->; by rewrite beq_refl in Eb).
    unfold read_byte. rewrite Hq, Hqu, beq_neq by congruence. cbn [andb].
    destruct (is_byte (escape cfg) b) eqn:Eesc; [|done]. unfold is_byte in Eesc.
    destruct (escape cfg) as [e|] eqn:Ee; [|done]. apply beq_spec in Eesc as ->.
    exfalso. apply (He b eq_refl). set_solver.
Qed.

Lemma read_unquoted_plain b :
  b ≠ w_delimiter w → term_equals (term cfg) b = false → read_unquoted cfg b = (InField, CopyToOutput).
Proof.
  intros Hb Ht. unfold read_unquoted. rewrite (d_delimiter _ _ Hd), beq_neq by congruence. by rewrite Ht.
Qed.

Lemma parse_plain f bytes ends rows :
  plain f →
  parse cfg (mkParser InField bytes ends rows) f = mkParser InField (bytes ++ f) ends rows.
Proof.
  revert bytes. induction f as [|b f IH]; intros bytes (Hdl & Hq & Ht); [by rewrite app_nil_r|].
  apply list.Forall_cons in Ht as [Hb Ht]. rewrite parse_cons.
  rewrite (parse_byte_inside InField _ _ _ _ InField CopyToOutput);
    [|done|apply read_unquoted_plain; set_solver|done].
  rewrite bool_decide_true by done. rewrite IH by (split_and!; set_solver). by rewrite <- app_assoc.
Qed.

(** A field, as the writer wrote it, from where fields begin. *)
Lemma parse_field f s bytes ends rows :
  field_ok f → begins s = true → (s = CRLF → term cfg = Term_CRLF) →
  ∃ s', parse cfg (mkParser s bytes ends rows) (quoted_field w f) = mkParser s' (bytes ++ f) ends rows ∧
    (field_read s' = true ∨ (s' = s ∧ quoted_field w f = [])).
Proof.
  intros [Hf He] Hs Hcr.
  assert (Hdfa : is_dfa_state s = true) by (by destruct s).
  unfold quoted_field. destruct (quoted w f) eqn:Hq.
  - cbn [app]. rewrite parse_cons.
    rewrite (parse_byte_inside _ _ _ _ _ InQuotedField Discard); [|done| |done].
    2: { rewrite begin_byte by (done || apply (d_quote_term _ _ Hd)). unfold read_start.
         by rewrite (d_quoting _ _ Hd), (d_quote _ _ Hd), beq_refl. }
    cbn [bool_decide]. rewrite bool_decide_false, app_nil_r by done.
    rewrite parse_app, parse_escaped, parse_cons by done.
    rewrite (parse_byte_inside _ _ _ _ _ InDoubleEscapedQuote Discard); [|done| |done].
    2: { unfold read_byte. by rewrite (d_quoting _ _ Hd), (d_quote _ _ Hd), beq_refl. }
    exists InDoubleEscapedQuote. rewrite bool_decide_false, app_nil_r by done. split; [done|by left].
  - destruct Hf as [|Hf]; [done|]. destruct f as [|b f].
    { exists s. rewrite app_nil_r. split; [done|by right]. }
    exists InField. split; [|by left]. destruct Hf as (Hdl & Hqu & Ht).
    apply list.Forall_cons in Ht as [Hb Ht]. rewrite parse_cons.
    rewrite (parse_byte_inside _ _ _ _ _ InField CopyToOutput); [|done| |done].
    2: { rewrite begin_byte by done. unfold read_start. rewrite (d_quote _ _ Hd), beq_neq, andb_false_r by set_solver.
         apply read_unquoted_plain; [set_solver|done]. }
    rewrite bool_decide_true, parse_plain by (done || split_and!; set_solver). by rewrite <- app_assoc.
Qed.

(** ** Records *)

(** A parser at the beginning of a record. *)
Definition at_record (p : parser) : Prop :=
  p_bytes p = [] ∧ p_ends p = [] ∧ between (p_state p) = true ∧ (p_state p = CRLF → term cfg = Term_CRLF).

Lemma parser_start_at_record : at_record parser_start.
Proof. by split_and!. Qed.

(** The terminator after a field. *)
Lemma parse_terminator s bytes ends rows :
  field_read s = true ∨ s = EndFieldDelim →
  ∃ s', parse cfg (mkParser s bytes ends rows) (term_bytes w)
    = mkParser s' [] [] (rows ++ [(bytes, ends ++ [length bytes])]) ∧
    between s' = true ∧ (s' = CRLF → term cfg = Term_CRLF).
Proof.
  intros Hs.
  assert (Hbyte : ∀ b, term_equals (term cfg) b = true → parse_byte cfg (mkParser s bytes ends rows) b
    = mkParser (if is_crlf (term cfg) && beq CR b then CRLF else EndRecord) [] []
        (rows ++ [(bytes, ends ++ [length bytes])])).
  { intros b Hb.
    assert (Hu : read_unquoted cfg b = (if is_crlf (term cfg) && beq CR b then CRLF else EndRecord, Discard)).
    { unfold read_unquoted. rewrite (d_delimiter _ _ Hd), Hb, beq_neq; [done|].
      intros <-. by rewrite (d_delimiter_term _ _ Hd) in Hb. }
    assert (Hqb : w_quote w ≠ b) by (intros <-; by rewrite (d_quote_term _ _ Hd) in Hb).
    assert (Hr : read_byte cfg s b = (if is_crlf (term cfg) && beq CR b then CRLF else EndRecord, Discard)).
    { destruct Hs as [Hs| ->]; [|unfold read_byte, read_start; by rewrite (d_quote _ _ Hd), beq_neq, andb_false_r].
      destruct s; try done. unfold read_byte. by rewrite (d_quote _ _ Hd), beq_neq, andb_false_r. }
    unfold parse_byte. cbn [p_state p_bytes p_ends p_done].
    rewrite step_eq, Hr by (destruct Hs as [Hs| ->]; [by destruct s|done]). cbn [fst snd].
    rewrite bool_decide_false, app_nil_r by done. by destruct (_ && _). }
  pose proof (d_term _ _ Hd) as Ht. unfold term_bytes.
  destruct (term cfg) as [|tb] eqn:Etc.
  - assert (Hone : ∀ b, b = CR ∨ b = LF → ∃ s', parse cfg (mkParser s bytes ends rows) [b]
      = mkParser s' [] [] (rows ++ [(bytes, ends ++ [length bytes])]) ∧
      between s' = true ∧ (s' = CRLF → Term_CRLF = Term_CRLF)).
    { intros b Hb. eexists. cbn [parse foldl]. rewrite Hbyte by (destruct Hb as [->| ->]; done).
      split; [reflexivity|]. destruct Hb as [->| ->]; done. }
    rewrite !elem_of_cons, elem_of_nil in Ht. destruct Ht as [->|[->|[->|[]]]].
    + exists StartRecord. cbn [parse foldl]. rewrite Hbyte by done. cbn [is_crlf andb].
      rewrite beq_refl. split; [|done]. unfold parse_byte. cbn [p_state p_bytes p_ends p_done].
      by rewrite step_eq by done.
    + apply Hone. by right.
    + apply Hone. by left.
  - rewrite Ht. exists EndRecord. cbn [parse foldl]. rewrite Hbyte by (simpl; apply beq_refl). done.
Qed.

(** The fields of a record from the one after [pre] on. *)
Lemma parse_joined fs pre s rows :
  Forall field_ok fs → fs ≠ [] →
  (pre = [] ∧ between s = true ∧ (s = CRLF → term cfg = Term_CRLF) ∧ joined w fs ≠ []) ∨ s = EndFieldDelim →
  ∃ s', parse cfg (mkParser s (concat pre) (offsets 0 pre) rows) (joined w fs ++ term_bytes w)
    = mkParser s' [] [] (rows ++ [(concat (pre ++ fs), offsets 0 (pre ++ fs))]) ∧
    between s' = true ∧ (s' = CRLF → term cfg = Term_CRLF).
Proof.
  revert pre s. induction fs as [|f fs IH]; intros pre s Hok Hne Hs; [done|].
  apply list.Forall_cons in Hok as [Hf Hfs].
  assert (Hb : begins s = true) by (destruct Hs as [(_ & Hs & _)| ->]; [by destruct s|done]).
  assert (Hcr : s = CRLF → term cfg = Term_CRLF) by (destruct Hs as [(_ & _ & Hs & _)| ->]; [done|done]).
  destruct (parse_field f s (concat pre) (offsets 0 pre) rows Hf Hb Hcr) as (s1 & E1 & Hs1).
  assert (Hcat : concat pre ++ f = concat (pre ++ [f])) by (rewrite concat_app; simpl; by rewrite app_nil_r).
  assert (Hoff : offsets 0 pre ++ [length (concat pre ++ f)] = offsets 0 (pre ++ [f])).
  { rewrite offsets_app. simpl. by rewrite length_app. }
  destruct fs as [|g fs].
  - cbn [joined] in *. rewrite parse_app, E1.
    assert (Hdone : field_read s1 = true ∨ s1 = EndFieldDelim).
    { destruct Hs1 as [?|[-> Hnil]]; [by left|]. destruct Hs as [(_ & _ & _ & Hj)| ->]; [done|by right]. }
    destruct (parse_terminator s1 (concat pre ++ f) (offsets 0 pre) rows Hdone) as (s2 & E2 & H2).
    exists s2. rewrite E2, Hoff, Hcat. by split.
  - change (joined w (f :: g :: fs)) with (quoted_field w f ++ [w_delimiter w] ++ joined w (g :: fs)).
    rewrite <- !app_assoc, parse_app, E1. cbn [app]. rewrite parse_cons, parse_byte_delimiter.
    2: { destruct Hs1 as [?|[-> _]]; [by left|right]. by split. }
    rewrite Hoff, Hcat. destruct (IH (pre ++ [f]) EndFieldDelim Hfs) as (s2 & E2 & H2); [done|by right|].
    exists s2. rewrite E2, <- app_assoc. by split.
Qed.

(** A record without fields is read back as one with one empty field. *)
Definition read_back (fs : list (list u8)) : list (list u8) := match fs with [] => [[]] | _ => fs end.

Lemma parse_record_line fs p :
  Forall field_ok fs → at_record p →
  ∃ p', parse cfg p (record_line w fs) = p' ∧ at_record p' ∧ p_done p' = p_done p ++ [row_of (read_back fs)].
Proof.
  intros Hok (Hb & He & Hs & Hcr). destruct p as [s bytes ends rows]. cbn in Hb, He, Hs, Hcr. subst bytes ends.
  unfold record_line. destruct (decide (joined w fs = [])) as [Hj|Hj];
    [rewrite (bool_decide_true _ Hj)|rewrite (bool_decide_false _ Hj)].
  - assert (read_back fs = [[]]) as ->.
    { destruct fs as [|f [|g fs]]; [done| |].
      - change (quoted_field w f = []) in Hj. change ([f] = [[]]). unfold quoted_field in Hj. destruct (quoted w f); [done|by subst].
      - change (joined w (f :: g :: fs)) with (quoted_field w f ++ [w_delimiter w] ++ joined w (g :: fs)) in Hj.
        by apply app_eq_nil in Hj as [_ ?]. }
    eexists. split; [reflexivity|]. cbn [app]. rewrite !parse_cons.
    rewrite (parse_byte_inside _ _ _ _ _ InQuotedField Discard); [|by destruct s| |done].
    2: { rewrite begin_byte; [|by destruct s|apply (d_quote_term _ _ Hd)|done]. unfold read_start.
         by rewrite (d_quoting _ _ Hd), (d_quote _ _ Hd), beq_refl. }
    rewrite (parse_byte_inside _ _ _ _ _ InDoubleEscapedQuote Discard); [|done| |done].
    2: { unfold read_byte. by rewrite (d_quoting _ _ Hd), (d_quote _ _ Hd), beq_refl. }
    destruct (parse_terminator InDoubleEscapedQuote [] [] rows) as (s2 & E2 & H2 & H2'); [by left|].
    rewrite bool_decide_false, !app_nil_r by done. rewrite E2. split; [by split_and!|done].
  - assert (Hne : fs ≠ []) by (by intros ->).
    destruct (parse_joined fs [] s rows Hok Hne) as (s2 & E2 & H2 & H2'); [by left|].
    eexists. split; [reflexivity|]. cbn in E2. cbn. rewrite E2. split; [by split_and!|]. by destruct fs.
Qed.

Lemma parse_record_lines fss p :
  Forall (Forall field_ok) fss → at_record p →
  at_record (parse cfg p (concat (record_line w <$> fss))) ∧
  p_done (parse cfg p (concat (record_line w <$> fss))) = p_done p ++ (row_of ∘ read_back <$> fss).
Proof.
  revert p. induction fss as [|fs fss IH]; intros p Hok Hp; [by rewrite app_nil_r|].
  apply list.Forall_cons in Hok as [Hf Hfs]. cbn [fmap list_fmap concat]. rewrite parse_app.
  destruct (parse_record_line fs p Hf Hp) as (p' & -> & Hp' & Hrows).
  destruct (IH p' Hfs Hp') as [H1 H2]. split; [done|]. by rewrite H2, Hrows, <- app_assoc.
Qed.

(** What the writer writes is what the parser reads. *)
Lemma parse_all_lines fss :
  Forall (Forall field_ok) fss →
  parse_all cfg (concat (record_line w <$> fss)) = row_of ∘ read_back <$> fss.
Proof.
  intros Hok. unfold parse_all. destruct (parse_record_lines fss parser_start Hok parser_start_at_record)
    as [(Hb & He & Hs & _) Hrows]. unfold finish_parse. by rewrite Hs, Hrows.
Qed.

End roundtrip.

(** ** Which fields the built writer leaves without quotes *)

Lemma mark_spec t b c :
  length t = 256 → default false (mark t b !! byte_ix c) = beq b c || default false (t !! byte_ix c).
Proof.
  intros Ht. unfold mark. pose proof (byte_ix_range b) as Hb. unfold CLASS_SIZE in Hb.
  destruct (decide (b = c)) as [->|Hne].
  - rewrite list_lookup_insert_eq by lia. by rewrite beq_refl.
  - rewrite list_lookup_insert_ne by (intros E; by apply byte_ix_inj in E). by rewrite beq_neq.
Qed.

Lemma length_mark t b : length (mark t b) = length t.
Proof. apply length_insert. Qed.

(** The bytes that [build] marks. *)
Definition marked (d : u8) (t : Terminator) (q e : u8) (dq : bool) (c : u8) : bool :=
  beq d c || beq q c || (negb dq && beq e c)
  || match t with
     | Term_CRLF => beq CR c || beq LF c
     | Term_Any b => if beq b LF || beq b CR then beq CR c || beq LF c else beq b c
     end.

Lemma build_writer_special d t style q e dq c :
  is_special_byte (build_writer (WriterBuilder_new d t style q e dq)) c = marked d t q e dq c.
Proof.
  unfold is_special_byte, marked, build_writer, WriterBuilder_new.
  cbn [requires_quotes with_requires_quotes w_delimiter w_quote w_escape w_double_quote w_term].
  assert (H0 : default false (replicate 256 false !! byte_ix c) = false).
  { destruct (replicate 256 false !! byte_ix c) eqn:E; [|done]. by apply lookup_replicate in E as [-> _]. }
  destruct t as [|b]; [|destruct (beq b LF || beq b CR)]; destruct dq; cbn [negb];
    rewrite !mark_spec by (rewrite ?length_mark; apply length_replicate); rewrite H0;
    rewrite ?orb_false_r; cbn [andb orb]; btauto.
Qed.

Lemma built_field_ok cfg d t style q e dq f :
  let w := build_writer (WriterBuilder_new d t style q e dq) in
  dialect cfg w → escape cfg = None → style = Necessary ∨ style = Always → field_ok cfg w f.
Proof.
  intros w Hd He Hs. split; [|by rewrite He].
  destruct Hs as [->| ->]; [|by left].
  destruct (quoted w f) eqn:Hq; [by left|right]. cbn in Hq.
  assert (Hnone : ∀ c, c ∈ f → marked d t q e dq c = false).
  { intros c Hc. rewrite <- build_writer_special with (style := Necessary).
    destruct (is_special_byte (build_writer (WriterBuilder_new d t Necessary q e dq)) c) eqn:E; [|done].
    exfalso. apply eq_true_false_abs with (2 := Hq). apply existsb_exists. exists c.
    split; [by apply list_elem_of_In|done]. }
  split_and!.
  - intros Hc%Hnone. unfold marked in Hc. cbn in Hc. by rewrite beq_refl in Hc.
  - intros Hc%Hnone. unfold marked in Hc. cbn in Hc. by rewrite beq_refl, orb_true_r in Hc.
  - apply list.Forall_forall. intros c Hc%Hnone. unfold marked in Hc.
    apply orb_false_iff in Hc as [_ Hc]. pose proof (d_term _ _ Hd) as Ht. cbn in Ht.
    destruct (term cfg) as [|b]; cbn [term_equals].
    + assert (beq CR c || beq LF c = false) as Hc'.
      { rewrite !elem_of_cons, elem_of_nil in Ht. by destruct Ht as [->|[->|[->|[]]]]. }
      apply orb_false_iff in Hc' as [H1 H2]. apply bool_decide_eq_false in H1, H2.
      by rewrite !beq_neq by congruence.
    + subst t. destruct (beq b LF || beq b CR) eqn:Eb.
      * apply orb_false_iff in Hc as [H1 H2]. apply bool_decide_eq_false in H1, H2.
        apply beq_neq. intros ->. apply orb_true_iff in Eb as [Eb|Eb]; apply beq_spec in Eb; congruence.
      * apply bool_decide_eq_false in Hc. apply beq_neq. congruence.
Qed.

(** The number of fields that are read back is that of the fields written, or one. *)
Lemma counts_ok_read_back fl first fss :
  counts_ok fl first fss → counts_ok fl (Nat.max 1 <$> first) (read_back <$> fss).
Proof.
  assert (Hlen : ∀ fs, length (read_back fs) = Nat.max 1 (length fs)) by (by intros []).
  revert first. induction fss as [|fs fss IH]; intros first; [done|]. intros [Hc Hok].
  cbn [fmap list_fmap counts_ok]. rewrite Hlen. apply IH in Hok.
  unfold count_ok, next_first in *. destruct fl; [done|]. destruct first as [m|]; [|done].
  cbn in *. apply bool_decide_eq_true in Hc as ->. by rewrite bool_decide_true.
Qed.
