(* ===== verification/CsvFileReader.v ===== *)
(** csv's reader ([csv/src/reader.rs]): csv-core's reader behind a buffered
    [io::Read], headers, positions, the checks on the number of fields. *)
From Stdlib Require Import ZArith Lia Strings.Byte.
From stdpp Require Import base list numbers option sets.
From S2P Require Import Prelude.
From S2P Require Import StateMonad.
From S2P Require Import Utf8.
From S2P Require Import CsvNfa.
From S2P Require Import CsvDfa.
From S2P Require Import CsvReader.
From S2P Require Import CsvStream.
From S2P Require Import CsvRecord.
From S2P Require Import CsvFileWriter.
Open Scope rust_scope.

(** [io::Read] and [io::Seek].  [whole r] is all the bytes of the source and
    [content r] those that are still to be read. *)
Class Read (R IoError : Type) : Type := {
  io_read : nat → R → (IoError + list u8) * R;
  io_seek : Z → R → option IoError * R;
  whole : R → list u8;
  content : R → list u8
}.

Class ReadOk R IoError `{Read R IoError} : Prop := {
  io_read_data n r data r' : io_read n r = (inr data, r') →
    length data ≤ n ∧ content r = data ++ content r' ∧ (data = [] → n = 0 ∨ content r = []);
  io_read_whole n r : whole (io_read n r).2 = whole r;
  io_seek_content n r r' : io_seek n r = (None, r') → content r' = drop (Z.to_nat n) (whole r) ∧ whole r' = whole r
}.

(** [io::BufReader] of the standard library. *)
Record BufReader (R : Type) : Type := mkBufReader { unread : list u8; capacity : nat; inner : R }.
Arguments mkBufReader {R} _ _ _.
Arguments unread {R} _.
Arguments capacity {R} _.
Arguments inner {R} _.

Inductive Trim : Type := Trim_None | Trim_Headers | Trim_Fields | Trim_All.

Definition should_trim_fields (t : Trim) : bool := match t with Trim_Fields | Trim_All => true | _ => false end.
Definition should_trim_headers (t : Trim) : bool := match t with Trim_Headers | Trim_All => true | _ => false end.

Inductive ReaderEofState : Type := NotEof | Eof | IOError.

Record Headers : Type := mkHeaders {
  byte_record : ByteRecord;
  string_record : Utf8Error + StringRecord
}.

Record FileReader (R : Type) : Type := mkFileReader {
  rd_core : CsvReader;
  rdr : BufReader R;
  rd_headers : option Headers;
  has_headers : bool;
  rd_flexible : bool;
  rd_trim : Trim;
  rd_first_field_count : option nat;
  cur_pos : Position;
  first : bool;
  seeked : bool;
  eof : ReaderEofState
}.
Arguments mkFileReader {R} _ _ _ _ _ _ _ _ _ _ _.
Arguments rd_core {R} _.
Arguments rdr {R} _.
Arguments rd_headers {R} _.
Arguments has_headers {R} _.
Arguments rd_flexible {R} _.
Arguments rd_trim {R} _.
Arguments rd_first_field_count {R} _.
Arguments cur_pos {R} _.
Arguments first {R} _.
Arguments seeked {R} _.
Arguments eof {R} _.

Section file_reader.
Context {R IoError : Type} `{Read R IoError} (debug : bool).

(** The methods change the reader and the record that the caller has lent. *)
#[local] Abbreviation state := (FileReader R * ByteRecord)%type.
#[local] Abbreviation method := (method state (CsvError IoError)).

(** [Reader::new]. *)
Definition FileReader_new (core : CsvReader) (cap : nat) (headers flexible : bool) (trim : Trim) (r : R)
    : FileReader R :=
  mkFileReader core (mkBufReader [] cap r) None headers flexible trim None Position_new false false NotEof.

Definition set_rdr (b : BufReader R) (s : FileReader R) : FileReader R :=
  mkFileReader (rd_core s) b (rd_headers s) (has_headers s) (rd_flexible s) (rd_trim s)
    (rd_first_field_count s) (cur_pos s) (first s) (seeked s) (eof s).
Definition set_rd_core (c : CsvReader) (s : FileReader R) : FileReader R :=
  mkFileReader c (rdr s) (rd_headers s) (has_headers s) (rd_flexible s) (rd_trim s)
    (rd_first_field_count s) (cur_pos s) (first s) (seeked s) (eof s).
Definition set_rd_headers (h : Headers) (s : FileReader R) : FileReader R :=
  mkFileReader (rd_core s) (rdr s) (Some h) (has_headers s) (rd_flexible s) (rd_trim s)
    (rd_first_field_count s) (cur_pos s) (first s) (seeked s) (eof s).
Definition set_rd_first_field_count (n : nat) (s : FileReader R) : FileReader R :=
  mkFileReader (rd_core s) (rdr s) (rd_headers s) (has_headers s) (rd_flexible s) (rd_trim s)
    (Some n) (cur_pos s) (first s) (seeked s) (eof s).
Definition set_cur_pos (p : Position) (s : FileReader R) : FileReader R :=
  mkFileReader (rd_core s) (rdr s) (rd_headers s) (has_headers s) (rd_flexible s) (rd_trim s)
    (rd_first_field_count s) p (first s) (seeked s) (eof s).
Definition set_first (s : FileReader R) : FileReader R :=
  mkFileReader (rd_core s) (rdr s) (rd_headers s) (has_headers s) (rd_flexible s) (rd_trim s)
    (rd_first_field_count s) (cur_pos s) true (seeked s) (eof s).
Definition set_seeked (s : FileReader R) : FileReader R :=
  mkFileReader (rd_core s) (rdr s) (rd_headers s) (has_headers s) (rd_flexible s) (rd_trim s)
    (rd_first_field_count s) (cur_pos s) (first s) true (eof s).
Definition set_eof (e : ReaderEofState) (s : FileReader R) : FileReader R :=
  mkFileReader (rd_core s) (rdr s) (rd_headers s) (has_headers s) (rd_flexible s) (rd_trim s)
    (rd_first_field_count s) (cur_pos s) (first s) (seeked s) e.

Definition on_reader (f : FileReader R → FileReader R) : method unit := st_set (λ s, (f s.1, s.2)).
Definition on_record (f : ByteRecord → ByteRecord) : method unit := st_set (λ s, (s.1, f s.2)).

(** A call that fails only in that it panics. *)
Definition lift_unit {A} (x : res unit A) : res (CsvError IoError) A :=
  match x with Ok a => Ok a | NoFuel => NoFuel | _ => Panic end.

(** ** The buffered source *)

(** [BufReader::fill_buf], with what [read_byte_record_impl] does on an error. *)
Definition fill_buf : method (list u8) := λ s,
  let b := rdr s.1 in
  if bool_decide (unread b = []) then
    match io_read (capacity b) (inner b) with
    | (inl e, r) => (Err (CE_Io e), (set_eof IOError (set_rdr (mkBufReader [] (capacity b) r) s.1), s.2))
    | (inr data, r) => (Ok data, (set_rdr (mkBufReader data (capacity b) r) s.1, s.2))
    end
  else (Ok (unread b), s).

Definition consume (n : nat) (b : BufReader R) : BufReader R :=
  mkBufReader (drop n (unread b)) (capacity b) (inner b).

(** ** Records *)

(** [self.core.read_record] on the input and on what is left of the buffers of
    the record. *)
Definition core_read (outlen endlen : nat) (input : list u8)
    : method (ReadRecordResult * nat * nat * nat) := λ s,
  let r := s.2 in
  let call :=
    let? fields := slice outlen (length (br_fields r)) (br_fields r) in
    let? es := slice endlen (length (ends (br_bounds r))) (ends (br_bounds r)) in
    lift_unit (read_record debug (rd_core s.1) input fields es) in
  match call with
  | Ok c =>
      (Ok (rc_result c, rc_nin c, rc_nout c, rc_nend c),
       (set_rd_core (rc_reader c) s.1,
        mkByteRecord (br_pos r) (take outlen (br_fields r) ++ rc_output c)
          (mkBounds (take endlen (ends (br_bounds r)) ++ rc_ends c) (b_len (br_bounds r)))))
  | Err e => (Err e, s)
  | Panic => (Panic, s)
  | NoFuel => (NoFuel, s)
  end.

(** [add_record]: the number of records goes up, and the number of fields of the
    record is checked. *)
Definition add_record : method unit := λ s,
  let i := pos_record (cur_pos s.1) in
  if bool_decide (2 ^ 64 - 1 ≤ i)%Z then (Panic, s)
  else
    let s1 := set_cur_pos (set_record (cur_pos s.1) (i + 1)) s.1 in
    let n := br_length s.2 in
    if rd_flexible s1 then (Ok tt, (s1, s.2))
    else
      match rd_first_field_count s1 with
      | None => (Ok tt, (set_rd_first_field_count n s1, s.2))
      | Some expected =>
          if bool_decide (n ≠ expected)
          then (Err (CE_UnequalLengths (br_pos s.2) expected n), (s1, s.2))
          else (Ok tt, (s1, s.2))
      end.

(** The position after [nin] bytes more. *)
Definition advance (nin : nat) : method unit := λ s,
  match set_line (set_byte (cur_pos s.1) ((pos_byte (cur_pos s.1) + Z.of_nat nin) `mod` 2 ^ 64)%Z)
    (line (rd_core s.1)) with
  | Ok p => (Ok tt, (set_cur_pos p s.1, s.2))
  | _ => (Panic, s)
  end.

(** The loop of [read_byte_record_impl]. *)
Fixpoint read_loop (fuel outlen endlen : nat) : method bool :=
  match fuel with
  | O => λ s, (NoFuel, s)
  | S fuel =>
      let! input := fill_buf in
      let! c := core_read outlen endlen input in
      let '(result, nin, nout, nend) := c in
      let! _ := on_reader (λ s, set_rdr (consume nin (rdr s)) s) in
      let! _ := advance nin in
      let outlen := outlen + nout in
      let endlen := endlen + nend in
      match result with
      | RR_InputEmpty => read_loop fuel outlen endlen
      | RR_OutputFull => let! _ := on_record expand_fields in read_loop fuel outlen endlen
      | RR_OutputEndsFull => let! _ := on_record expand_ends in read_loop fuel outlen endlen
      | RR_Record =>
          let! _ := on_record (λ r, set_len r endlen) in
          let! _ := add_record in
          st_ret true
      | RR_End => let! _ := on_reader (set_eof Eof) in st_ret false
      end
  end.

Definition read_byte_record_impl (fuel : nat) : method bool :=
  let! p := st_get (λ s, cur_pos s.1) in
  let! _ := on_record (λ r, set_position (clear r) (Some p)) in
  let! e := st_get (λ s, eof s.1) in
  match e with
  | NotEof => read_loop fuel 0 0
  | _ => st_ret false
  end.

(** ** Headers *)

Definition set_headers_impl (headers : StringRecord + ByteRecord) (s : FileReader R)
    : res (CsvError IoError) (FileReader R) :=
  let? sb :=
    match headers with
    | inl string => Ok (inr string, sr_bytes string)
    | inr bytes =>
        match from_byte_record bytes with
        | Ok str => Ok (inr str, bytes)
        | Err (_, err) => Ok (inl err, bytes)
        | Panic => Panic
        | NoFuel => NoFuel
        end
    end in
  let '(str, bytes) := sb in
  if should_trim_headers (rd_trim s) then
    let? str := match str with
      | inr str => res_map inr (sr_trim str)
      | inl err => Ok (inl err)
      end in
    let? bytes := br_trim bytes in
    Ok (set_rd_headers (mkHeaders bytes str) s)
  else Ok (set_rd_headers (mkHeaders bytes str) s).

Definition set_headers_m (headers : ByteRecord) : method unit := λ s,
  match set_headers_impl (inr headers) s.1 with
  | Ok s1 => (Ok tt, (s1, s.2))
  | Err e => (Err e, s)
  | Panic => (Panic, s)
  | NoFuel => (NoFuel, s)
  end.

(** [record.trim()], if the fields are to be trimmed. *)
Definition trim_record : method unit := λ s,
  if should_trim_fields (rd_trim s.1) then
    match br_trim s.2 with
    | Ok r => (Ok tt, (s.1, r))
    | Err e => (Err e, s)
    | Panic => (Panic, s)
    | NoFuel => (NoFuel, s)
    end
  else (Ok tt, s).

(** A method whose error the caller looks at before it goes on. *)
Definition st_result {A} (m : method A) : method (CsvError IoError + A) := λ s,
  match m s with
  | (Ok a, s') => (Ok (inr a), s')
  | (Err e, s') => (Ok (inl e), s')
  | (Panic, s') => (Panic, s')
  | (NoFuel, s') => (NoFuel, s')
  end.

Definition st_from {A} (x : CsvError IoError + A) : method A :=
  match x with inr a => st_ret a | inl e => st_fail e end.

Definition read_byte_record (fuel : nat) : method bool :=
  let! s := st_get fst in
  let go :=
    let! ok := read_byte_record_impl fuel in
    let! _ := on_reader set_first in
    let! s := st_get fst in
    if negb (seeked s) && match rd_headers s with None => true | Some _ => false end then
      let! record := st_get snd in
      let! _ := set_headers_m record in
      let! s := st_get fst in
      if has_headers s then
        let! result := st_result (read_byte_record_impl fuel) in
        let! _ := trim_record in
        st_from result
      else st_ret ok
    else
      let! _ := trim_record in st_ret ok in
  if negb (seeked s) && negb (has_headers s) && negb (first s) then
    match rd_headers s with
    | Some headers =>
        let! _ := on_reader set_first in
        let! _ := on_record (λ _, byte_record headers) in
        let! _ := trim_record in
        st_get (λ s, negb (br_is_empty s.2))
    | None => go
    end
  else go.

(** [byte_headers] and [headers]: the record they read is their own. *)
Definition read_headers (fuel : nat) (s : FileReader R) : res (CsvError IoError) unit * FileReader R :=
  match rd_headers s with
  | Some _ => (Ok tt, s)
  | None =>
      let '(x, s') := (let! _ := read_byte_record_impl fuel in
        let! record := st_get snd in set_headers_m record) (s, ByteRecord_new) in
      (x, s'.1)
  end.

Definition byte_headers (fuel : nat) (s : FileReader R) : res (CsvError IoError) ByteRecord * FileReader R :=
  match read_headers fuel s with
  | (Ok _, s') => (match rd_headers s' with Some h => Ok (byte_record h) | None => Panic end, s')
  | (Err e, s') => (Err e, s')
  | (Panic, s') => (Panic, s')
  | (NoFuel, s') => (NoFuel, s')
  end.

Definition headers (fuel : nat) (s : FileReader R) : res (CsvError IoError) StringRecord * FileReader R :=
  match read_headers fuel s with
  | (Ok _, s') =>
      (match rd_headers s' with
       | Some h =>
           match string_record h with
           | inr str => Ok str
           | inl err => Err (CE_Utf8 (br_pos (byte_record h)) err)
           end
       | None => Panic
       end, s')
  | (Err e, s') => (Err e, s')
  | (Panic, s') => (Panic, s')
  | (NoFuel, s') => (NoFuel, s')
  end.

(** ** Seeking *)

Definition seek_core (pos : Position) (b : BufReader R) (s : FileReader R)
    : res (CsvError IoError) (FileReader R) :=
  let? c := lift_unit (reset (rd_core s)) in
  Ok (set_eof NotEof (set_cur_pos pos (set_rd_core (with_line c (pos_line pos)) (set_rdr b s)))).

Definition seek (fuel : nat) (pos : Position) (s : FileReader R) : res (CsvError IoError) unit * FileReader R :=
  match byte_headers fuel s with
  | (Ok _, s') =>
      let s' := set_seeked s' in
      if bool_decide (pos_byte pos = pos_byte (cur_pos s')) then (Ok tt, s')
      else
        match io_seek (pos_byte pos) (inner (rdr s')) with
        | (Some e, r) => (Err (CE_Io e), set_rdr (mkBufReader (unread (rdr s')) (capacity (rdr s')) r) s')
        | (None, r) =>
            match seek_core pos (mkBufReader [] (capacity (rdr s')) r) s' with
            | Ok s'' => (Ok tt, s'')
            | _ => (Panic, s')
            end
        end
  | (Err e, s') => (Err e, s')
  | (Panic, s') => (Panic, s')
  | (NoFuel, s') => (NoFuel, s')
  end.

(** ** String records *)

Definition string_read (fuel : nat) : method bool :=
  let! pos := st_get (λ s, cur_pos s.1) in
  let! read_res := st_result (read_byte_record fuel) in
  let! utf8 := st_try (λ s, validate s.2) in
  let! _ := match utf8 with None => st_ret tt | Some _ => on_record clear end in
  match read_res, utf8 with
  | inl err, _ => st_fail err
  | inr _, Some err => st_fail (CE_Utf8 (Some pos) err)
  | inr b, None => st_ret b
  end.

(** [Reader::read_record]. *)
Definition read_string_record (fuel : nat) : method bool :=
  let! result := st_result (string_read fuel) in
  let! s := st_get fst in
  let! _ := (if should_trim_fields (rd_trim s)
             then λ s, match sr_trim (mkStringRecord s.2) with
               | Ok r => (Ok tt, (s.1, sr_bytes r))
               | Err e => (Err e, s)
               | Panic => (Panic, s)
               | NoFuel => (NoFuel, s)
               end
             else st_ret tt) in
  st_from result.

(** ** Iterators *)

(** [ByteRecordsIter::next]. *)
Definition next_byte_record (fuel : nat) (s : FileReader R * ByteRecord)
    : res unit (option (CsvError IoError + ByteRecord)) * (FileReader R * ByteRecord) :=
  match read_byte_record fuel s with
  | (Err e, s') => (Ok (Some (inl e)), s')
  | (Ok true, s') => (res_map (λ r, Some (inr r)) (clone_truncated s'.2), s')
  | (Ok false, s') => (Ok None, s')
  | (Panic, s') => (Panic, s')
  | (NoFuel, s') => (NoFuel, s')
  end.

(** What a [for] loop over the iterator sees, in at most [n] rounds. *)
Fixpoint byte_records (n fuel : nat) (s : FileReader R * ByteRecord)
    : res unit (list (CsvError IoError + ByteRecord)) :=
  match n with
  | O => NoFuel
  | S n =>
      match next_byte_record fuel s with
      | (Ok None, _) => Ok []
      | (Ok (Some x), s') => let? xs := byte_records n fuel s' in Ok (x :: xs)
      | (Err e, _) => Err e
      | (Panic, _) => Panic
      | (NoFuel, _) => NoFuel
      end
  end.

End file_reader.
