(* ===== verification/CsvFileRows.v ===== *)
(** csv's reader delivers the rows of its source, each as a record. *)
From Stdlib Require Import ZArith Lia Strings.Byte.
From stdpp Require Import base list numbers option sets.
From S2P Require Import Prelude.
From S2P Require Import StateMonad.
From S2P Require Import Utf8.
From S2P Require Import CsvNfa.
From S2P Require Import CsvDfa.
From S2P Require Import CsvReader.
From S2P Require Import CsvStream.
From S2P Require Import CsvRecord.
From S2P Require Import CsvFileWriter.
From S2P Require Import CsvFileReader.
Open Scope rust_scope.

(** * The reader and the rows of its source *)

(** The bytes and ends that a parser delivers are those of some fields. *)
Definition is_row (row : csv_row) : Prop := row_of (fields_of row) = row.

Definition shaped (p : parser) : Prop :=
  Forall is_row (p_done p) ∧ ∃ fs tail, p_bytes p = concat fs ++ tail ∧ p_ends p = offsets 0 fs.

Lemma is_row_of fs : is_row (row_of fs).
Proof. unfold is_row. by rewrite fields_of_row. Qed.

Lemma snoc_row fs tail bytes :
  bytes = concat fs ++ tail → (bytes, offsets 0 fs ++ [length bytes]) = row_of (fs ++ [tail]).
Proof.
  intros ->. unfold row_of. rewrite concat_app, offsets_app. simpl. by rewrite app_nil_r, length_app.
Qed.

Lemma parse_byte_shaped cfg p b : shaped p → shaped (parse_byte cfg p b).
Proof.
  intros (Hd & fs & tail & Hb & He). unfold parse_byte. destruct (step cfg (p_state p) b) as [s o].
  set (out := if o then [b] else []).
  assert (Hb' : p_bytes p ++ out = concat fs ++ (tail ++ out)) by (by rewrite Hb, app_assoc).
  destruct (is_record_final s) eqn:Hr.
  - assert (is_field_final s = true) as -> by (by destruct s). split; cbn [p_done p_bytes p_ends].
    + apply Forall_app. split; [done|]. constructor; [|done].
      rewrite He, (snoc_row _ _ _ Hb'). apply is_row_of.
    + by exists [], [].
  - split; [done|]. cbn [p_bytes p_ends]. destruct (is_field_final s).
    + exists (fs ++ [tail ++ out]), []. pose proof (snoc_row _ _ _ Hb') as E. injection E as E1 E2.
      rewrite He, app_nil_r. by rewrite E1 at 1.
    + exists fs, (tail ++ out). by rewrite app_nil_r.
Qed.

Lemma parse_shaped cfg p bs : shaped p → shaped (parse cfg p bs).
Proof. revert p. induction bs as [|b bs IH]; intros p H; [done|]. by apply IH, parse_byte_shaped. Qed.

Lemma finish_shaped p : shaped p → Forall is_row (p_done (finish_parse p)).
Proof.
  intros (Hd & fs & tail & Hb & He). unfold finish_parse. destruct (between _); [done|]. cbn.
  apply Forall_app. split; [done|]. constructor; [|done]. rewrite He, (snoc_row _ _ _ Hb). apply is_row_of.
Qed.

Lemma parse_all_rows cfg input : Forall is_row (parse_all cfg input).
Proof. apply finish_shaped, parse_shaped. split; [done|]. by exists [], []. Qed.

(** Every row has a field. *)
Lemma parse_all_nonempty cfg input : Forall (λ row, row.2 ≠ []) (parse_all cfg input).
Proof.
  assert (Hsnoc : ∀ (es : list nat) e, es ++ [e] ≠ []) by (by intros []).
  assert (Hbyte : ∀ p b, Forall (λ row : csv_row, row.2 ≠ []) (p_done p) →
    Forall (λ row : csv_row, row.2 ≠ []) (p_done (parse_byte cfg p b))).
  { intros p b Hp. unfold parse_byte. destruct (step cfg (p_state p) b) as [s o].
    destruct (is_record_final s) eqn:Hs; [|done]. cbn [p_done]. apply Forall_app. split; [done|].
    constructor; [|constructor]. assert (is_field_final s = true) as -> by (by destruct s). apply Hsnoc. }
  assert (Hall : ∀ bs p, Forall (λ row : csv_row, row.2 ≠ []) (p_done p) →
    Forall (λ row : csv_row, row.2 ≠ []) (p_done (parse cfg p bs))).
  { induction bs as [|b bs IH]; intros p Hp; [done|]. by apply IH, Hbyte. }
  unfold parse_all, finish_parse. specialize (Hall input parser_start). destruct (between _).
  - by apply Hall.
  - cbn [p_done]. apply Forall_app. split; [by apply Hall|]. constructor; [apply Hsnoc|constructor].
Qed.

Lemma length_fields_of row : length (fields_of row) = length row.2.
Proof.
  unfold fields_of. destruct row as [bytes es]. cbn [fst snd]. generalize 0 bytes.
  induction es as [|e es IH]; intros s bs; [done|]. simpl. by rewrite IH.
Qed.

(** Buffers that begin with the bytes and ends of a row. *)
Lemma buffers_are_row (pos : option Position) fields es n m row :
  is_row row → take n fields = row.1 → take m es = row.2 → m ≤ length es →
  record_is (mkByteRecord pos fields (mkBounds es m)) (fields_of row).
Proof.
  intros Hrow Hf He Hm. unfold is_row in Hrow. destruct row as [bytes ends]. cbn in Hf, He.
  injection Hrow as Hb Hends.
  assert (take m es = offsets 0 (fields_of (bytes, ends))) as He' by congruence.
  assert (take n fields = concat (fields_of (bytes, ends))) as Hf' by congruence.
  unfold record_is, br_length. cbn [br_bounds b_len br_fields CsvRecord.ends]. split_and!.
  - apply (f_equal length) in He'. rewrite length_take, length_offsets in He'. lia.
  - exists (drop m es). by rewrite <- He', take_drop.
  - exists (drop n fields). by rewrite <- Hf', take_drop.
Qed.

Section reader_spec.
Context {R IoError : Type} `{RO : ReadOk R IoError} (debug : bool) (cfg : CsvConfig).
#[local] Abbreviation state := (FileReader R * ByteRecord)%type.
#[local] Abbreviation method := (method state (CsvError IoError)).

(** The errors that the [io::Read] can report. *)
Definition read_fails (e : IoError) : Prop := ∃ n r, (io_read n r).1 = inl e.

(** What does not change while a record is read. *)
Definition same_settings (s s' : FileReader R) : Prop :=
  rd_headers s' = rd_headers s ∧ has_headers s' = has_headers s ∧ rd_flexible s' = rd_flexible s ∧
  rd_trim s' = rd_trim s ∧ first s' = first s ∧ seeked s' = seeked s ∧
  whole (inner (rdr s')) = whole (inner (rdr s)).

#[export] Instance same_settings_refl : Reflexive same_settings.
Proof. by intros s. Qed.

#[export] Instance same_settings_trans : Transitive same_settings.
Proof. intros s1 s2 s3 (? & ? & ? & ? & ? & ? & ?) (? & ? & ? & ? & ? & ? & ?). split_and!; congruence. Qed.

(** A reader in the place of the parser [p], with the bytes [rest] and the rows
    [rows] before it. *)
Record before_rows (p : parser) (rest : list u8) (rows : list csv_row) (s : FileReader R) : Prop := {
  bf_core : reader_at cfg p (rd_core s);
  bf_rest : unread (rdr s) ++ content (inner (rdr s)) = rest;
  bf_cap : 0 < capacity (rdr s);
  bf_bom : bom_free (rd_core s) rest;
  bf_rows : p_done p ++ rows = p_done (finish_parse (parse cfg p rest));
  bf_shape : Forall is_row rows;
  bf_line : line_fits (rd_core s) rest;
  bf_record : (pos_record (cur_pos s) + Z.of_nat (length rows) < 2 ^ 64)%Z;
  bf_byte : (0 ≤ pos_byte (cur_pos s) ∧ pos_byte (cur_pos s) + Z.of_nat (length rest) < 2 ^ 64)%Z
}.

(** Between two records. *)
Definition at_row (rest : list u8) (rows : list csv_row) (s : FileReader R) : Prop :=
  ∃ p, before_rows p rest rows s ∧ p_bytes p = [] ∧ p_ends p = [] ∧ between (p_state p) = true.

(** The rows are those of what is left of the input. *)
Lemma at_row_rows rest rows s : at_row rest rows s → rows = parse_all cfg rest.
Proof.
  intros (p & Hbf & Hb & He & Hbt). pose proof (bf_rows _ _ _ _ Hbf) as Hrows.
  destruct (ra_wf _ _ _ (bf_core _ _ _ _ Hbf)) as [Hok _].
  rewrite parse_between in Hrows by done. by apply app_inv_head in Hrows.
Qed.

(** [fill_buf] gives what is buffered, or more of the source. *)
Lemma fill_buf_spec p rest rows s r :
  before_rows p rest rows s →
  (∃ e s', fill_buf (s, r) = (Err (CE_Io e), (s', r)) ∧ read_fails e ∧ same_settings s s' ∧ eof s' = IOError) ∨
  (∃ data s', fill_buf (IoError := IoError) (s, r) = (Ok data, (s', r)) ∧ before_rows p rest rows s' ∧
    unread (rdr s') = data ∧ (data = [] → rest = []) ∧ same_settings s s' ∧ eof s' = eof s ∧
    rd_first_field_count s' = rd_first_field_count s ∧ cur_pos s' = cur_pos s ∧ rd_core s' = rd_core s).
Proof.
  intros [Hc Hr Hcap Hbom Hrows Hsh Hl Hrec Hby]. unfold fill_buf. cbn [fst snd].
  destruct (decide (unread (rdr s) = [])) as [Hu|Hu];
    [rewrite (bool_decide_true _ Hu)|rewrite (bool_decide_false _ Hu)].
  - pose proof (io_read_whole (capacity (rdr s)) (inner (rdr s))) as Hw.
    destruct (io_read (capacity (rdr s)) (inner (rdr s))) as [[e|data] r'] eqn:E.
    + left. eexists e, _. split; [reflexivity|]. split_and!; try done. exists (capacity (rdr s)), (inner (rdr s)).
      by rewrite E.
    + right. apply io_read_data in E as (Hlen & Hcont & Hnil). rewrite Hu in Hr. cbn in Hr.
      eexists data, _. split; [reflexivity|]. split_and!; try done.
      * split; try done. cbn. by rewrite <- Hcont.
      * intros Hd. destruct (Hnil Hd) as [|Hz]; [lia|congruence].
  - right. exists (unread (rdr s)), s. split_and!; try done.
Qed.

(** The loop has filled [outlen] bytes and [endlen] ends of the record. *)
Definition filled (p : parser) (outlen endlen : nat) (r : ByteRecord) : Prop :=
  p_bytes p = take outlen (br_fields r) ∧ outlen ≤ length (br_fields r) ∧
  p_ends p = take endlen (ends (br_bounds r)) ∧ endlen ≤ length (ends (br_bounds r)).

(** Rounds that the loop still needs. *)
Definition rounds_left (p : parser) (rest : list u8) (outlen endlen : nat) (r : ByteRecord) : nat :=
  3 * calls_needed p rest
  + (if bool_decide (outlen < length (br_fields r)) then 0 else 1)
  + (if bool_decide (endlen < length (ends (br_bounds r))) then 0 else 1).

(** One call of csv-core from the loop, with the bookkeeping after it. *)
Lemma core_read_spec p rest rows s r outlen endlen data :
  before_rows p rest rows s → filled p outlen endlen r → unread (rdr s) = data → (data = [] → rest = []) →
  ∃ c s' r' p', core_read (IoError := IoError) debug outlen endlen data (s, r)
      = (Ok (rc_result c, rc_nin c, rc_nout c, rc_nend c), (s', r')) ∧
    called cfg p p' (rd_core s) rest
      (mkCall (Nat.max 1 (length data)) (drop outlen (br_fields r)) (drop endlen (ends (br_bounds r)))) c ∧
    s' = set_rd_core (rc_reader c) s ∧ br_pos r' = br_pos r ∧ b_len (br_bounds r') = b_len (br_bounds r) ∧
    length (br_fields r') = length (br_fields r) ∧ length (ends (br_bounds r')) = length (ends (br_bounds r)) ∧
    outlen + rc_nout c ≤ length (br_fields r) ∧ endlen + rc_nend c ≤ length (ends (br_bounds r)) ∧
    p_bytes p ++ take (rc_nout c) (rc_output c) = take (outlen + rc_nout c) (br_fields r') ∧
    p_ends p ++ take (rc_nend c) (rc_ends c) = take (endlen + rc_nend c) (ends (br_bounds r')).
Proof.
  intros Hbf (Hpb & Hlo & Hpe & Hle) Hdata Hnil. unfold core_read. cbn [fst snd].
  rewrite !slice_Ok by lia. cbn [res_bind].
  rewrite !(take_ge (drop _ _)) by (rewrite length_drop; lia).
  assert (Htake : take (Nat.max 1 (length data)) rest = data).
  { rewrite <- (bf_rest _ _ _ _ Hbf), Hdata. destruct data as [|b data].
    - specialize (Hnil eq_refl). rewrite <- (bf_rest _ _ _ _ Hbf), Hdata in Hnil. cbn in Hnil. by rewrite Hnil.
    - rewrite Nat.max_r by (simpl; lia). by rewrite take_app_length. }
  destruct (call_spec debug cfg p (rd_core s) rest
    (mkCall (Nat.max 1 (length data)) (drop outlen (br_fields r)) (drop endlen (ends (br_bounds r)))))
    as (c & p' & E & Hcalled); [apply Hbf|apply Hbf|cbn; lia|].
  cbn [cc_chunk cc_output cc_ends] in E. rewrite Htake in E. rewrite E. cbn [lift_unit].
  destruct (cd_output _ _ _ _ _ _ _ Hcalled) as [Ho1 Ho2].
  destruct (cd_ends _ _ _ _ _ _ _ Hcalled) as [He1 He2]. cbn [cc_output cc_ends] in *.
  rewrite length_drop in Ho1, Ho2. rewrite length_drop in He1, He2.
  assert (H1 : length (take outlen (br_fields r)) = outlen) by (rewrite length_take; lia).
  assert (H2 : length (take endlen (ends (br_bounds r))) = endlen) by (rewrite length_take; lia).
  eexists c, _, _, p'. split; [reflexivity|].
  cbn [br_fields br_bounds ends b_len br_pos].
  split_and!; try done; rewrite ?length_app, ?H1, ?H2; try lia.
  - rewrite Hpb, take_app, H1, (take_ge (take outlen _)) by lia. f_equal. f_equal. lia.
  - rewrite Hpe, take_app, H2, (take_ge (take endlen _)) by lia. f_equal. f_equal. lia.
Qed.

(** One round of the loop, up to what it does with the result of the call [c]. *)
Record rounded (p : parser) (rest : list u8) (s : FileReader R) (r : ByteRecord) (outlen endlen : nat)
    (c : record_call) (p' : parser) (s' : FileReader R) (r' : ByteRecord) : Prop := {
  ro_called : ∃ n, called cfg p p' (rd_core s) rest
    (mkCall n (drop outlen (br_fields r)) (drop endlen (ends (br_bounds r)))) c;
  ro_core : rd_core s' = rc_reader c;
  ro_rest : unread (rdr s') ++ content (inner (rdr s')) = drop (rc_nin c) rest;
  ro_cap : 0 < capacity (rdr s');
  ro_nin : rc_nin c ≤ length rest;
  ro_settings : same_settings s s';
  ro_eof : eof s' = eof s;
  ro_count : rd_first_field_count s' = rd_first_field_count s;
  ro_byte : pos_byte (cur_pos s') = (pos_byte (cur_pos s) + Z.of_nat (rc_nin c))%Z;
  ro_record : pos_record (cur_pos s') = pos_record (cur_pos s);
  ro_pos : br_pos r' = br_pos r;
  ro_len : b_len (br_bounds r') = b_len (br_bounds r);
  ro_fields : length (br_fields r') = length (br_fields r);
  ro_ends : length (ends (br_bounds r')) = length (ends (br_bounds r));
  ro_nout : outlen + rc_nout c ≤ length (br_fields r);
  ro_nend : endlen + rc_nend c ≤ length (ends (br_bounds r));
  ro_row : (p_bytes p ++ take (rc_nout c) (rc_output c), p_ends p ++ take (rc_nend c) (rc_ends c))
    = (take (outlen + rc_nout c) (br_fields r'), take (endlen + rc_nend c) (ends (br_bounds r')))
}.

Lemma round_spec (K : ReadRecordResult → nat → nat → method bool) p rest rows s r outlen endlen :
  before_rows p rest rows s → filled p outlen endlen r →
  let m := (let! input := fill_buf in
    let! c := core_read debug outlen endlen input in
    let '(result, nin, nout, nend) := c in
    let! _ := on_reader (λ s, set_rdr (consume nin (rdr s)) s) in
    let! _ := advance nin in
    K result nout nend) in
  (∃ e s', m (s, r) = (Err (CE_Io e), (s', r)) ∧ read_fails e ∧ same_settings s s' ∧ eof s' = IOError) ∨
  (∃ c s' r' p', m (s, r) = K (rc_result c) (rc_nout c) (rc_nend c) (s', r') ∧
    rounded p rest s r outlen endlen c p' s' r').
Proof.
  intros Hbf Hfill m. subst m.
  destruct (fill_buf_spec p rest rows s r Hbf) as [(e & s' & E & He)|(data & s1 & E & Hbf1 & Hdata & Hnil & Hset & Heof & Hffc & Hpos & Hcore)].
  { left. exists e, s'. rewrite (st_bind_err _ _ _ _ _ E). done. }
  right. rewrite (st_bind_ok _ _ _ _ _ E).
  destruct (core_read_spec p rest rows s1 r outlen endlen data Hbf1 Hfill Hdata Hnil)
    as (c & s2 & r2 & p' & E2 & Hcalled & -> & Hrest).
  rewrite (st_bind_ok _ _ _ _ _ E2). unfold on_reader. rewrite st_bind_set. cbn [fst snd].
  pose proof (cd_nin _ _ _ _ _ _ _ Hcalled) as Hnin. cbn [cc_chunk] in Hnin.
  assert (Hdl : rc_nin c ≤ length data).
  { rewrite length_take in Hnin. pose proof (bf_rest _ _ _ _ Hbf1) as Hr. apply (f_equal length) in Hr.
    rewrite length_app, Hdata in Hr.
    destruct data as [|b data]; [rewrite (Hnil eq_refl) in Hnin|]; cbn [length] in *; lia. }
  assert (Hlr : rc_nin c ≤ length rest) by (rewrite length_take in Hnin; lia).
  destruct (cd_line _ _ _ _ _ _ _ Hcalled (bf_line _ _ _ _ Hbf1)) as [Hl0 _].
  unfold st_bind at 1. unfold advance. cbn [fst snd set_rdr set_rd_core rd_core cur_pos].
  unfold set_line. rewrite bool_decide_true by done. cbn [set_byte pos_byte pos_record].
  pose proof (bf_byte _ _ _ _ Hbf). rewrite Hpos, Z.mod_small by lia.
  exists c, (set_cur_pos (mkPosition (pos_byte (cur_pos s) + Z.of_nat (rc_nin c)) (line (rc_reader c)) (pos_record (cur_pos s)))
    (set_rdr (consume (rc_nin c) (rdr s1)) (set_rd_core (rc_reader c) s1))), r2, p'.
  destruct Hrest as (P1 & P2 & P3 & P4 & P5 & P6 & P7 & P8).
  split; [done|]. split; try done.
  - exists (Nat.max 1 (length data)). by rewrite <- Hcore.
  - cbn [set_cur_pos set_rdr rdr consume unread inner]. rewrite <- (bf_rest _ _ _ _ Hbf1), Hdata.
    by rewrite drop_app_le.
  - cbn. apply Hbf1.
  - by rewrite P7, P8.
Qed.

(** The core is not in the middle of a record. *)
Definition resting (s : FileReader R) : Prop :=
  0 < capacity (rdr s) ∧ ∃ p, reader_at cfg p (rd_core s) ∧ p_bytes p = [].

Lemma at_row_resting rest rows s : at_row rest rows s → resting s.
Proof. intros (p & Hbf & Hb & _). split; [apply Hbf|]. exists p. split; [apply Hbf|done]. Qed.

(** What a call of [read_byte_record_impl] has done when it returns [x]. *)
Definition read_post (rest : list u8) (rows : list csv_row) (pos : option Position) (s : FileReader R)
    (x : res (CsvError IoError) bool) (s' : FileReader R) (r' : ByteRecord) : Prop :=
  same_settings s s' ∧
  match rows with
  | [] =>
      x = Ok false ∧ eof s' = Eof ∧ record_is r' [] ∧ br_pos r' = pos ∧
      rd_first_field_count s' = rd_first_field_count s ∧ resting s' ∧
      pos_byte (cur_pos s') = (pos_byte (cur_pos s) + Z.of_nat (length rest))%Z
  | row :: rows' =>
      let n := length (fields_of row) in
      record_is r' (fields_of row) ∧ br_pos r' = pos ∧ eof s' = eof s ∧
      pos_record (cur_pos s') = (pos_record (cur_pos s) + 1)%Z ∧
      (∃ k, k ≤ length rest ∧ at_row (drop k rest) rows' s' ∧
        pos_byte (cur_pos s') = (pos_byte (cur_pos s) + Z.of_nat k)%Z) ∧
      if count_ok (rd_flexible s) (rd_first_field_count s) n
      then x = Ok true ∧ rd_first_field_count s' = next_first (rd_flexible s) (rd_first_field_count s) n
      else ∃ m, rd_first_field_count s = Some m ∧ x = Err (CE_UnequalLengths pos m n) ∧
        rd_first_field_count s' = rd_first_field_count s
  end.

(** Where the reader is after a row. *)
Definition moved (rest : list u8) (rows : list csv_row) (s s' : FileReader R) : Prop :=
  whole (inner (rdr s')) = whole (inner (rdr s)) ∧ seeked s' = seeked s ∧
  match rows with
  | [] => resting s' ∧ pos_byte (cur_pos s') = (pos_byte (cur_pos s) + Z.of_nat (length rest))%Z ∧
      rd_first_field_count s' = rd_first_field_count s
  | _ :: rows' => ∃ k, k ≤ length rest ∧ at_row (drop k rest) rows' s' ∧
      pos_byte (cur_pos s') = (pos_byte (cur_pos s) + Z.of_nat k)%Z
  end.

Lemma read_post_moved rest rows pos s x s' r' : read_post rest rows pos s x s' r' → moved rest rows s s'.
Proof.
  intros ((_ & _ & _ & _ & _ & Es & Ew) & Hp). split; [done|]. split; [done|].
  destruct rows; [by destruct Hp as (_ & _ & _ & _ & ? & ? & ?)|by destruct Hp as (_ & _ & _ & _ & Hp & _)].
Qed.

Lemma moved_set_first rest rows s s' : moved rest rows s s' → moved rest rows s (set_first s').
Proof.
  intros (Hw & Hs & Hp). split; [done|]. split; [done|]. destruct rows as [|row rows]; [done|].
  destruct Hp as (k & Hk & (p & [B1 B2 B3 B4 B5 B6 B7 B8 B9] & Hp) & Hb). exists k. split_and!; try done. by exists p.
Qed.

Lemma moved_set_headers h rest rows s s' : moved rest rows s s' → moved rest rows s (set_rd_headers h s').
Proof.
  intros (Hw & Hs & Hp). split; [done|]. split; [done|]. destruct rows as [|row rows]; [done|].
  destruct Hp as (k & Hk & (p & [B1 B2 B3 B4 B5 B6 B7 B8 B9] & Hp) & Hb). exists k. split_and!; try done. by exists p.
Qed.

Lemma read_post_weaken rest rows pos s s1 x s' r' j :
  same_settings s s1 → eof s1 = eof s → rd_first_field_count s1 = rd_first_field_count s →
  pos_byte (cur_pos s1) = (pos_byte (cur_pos s) + Z.of_nat j)%Z → j ≤ length rest →
  pos_record (cur_pos s1) = pos_record (cur_pos s) →
  read_post (drop j rest) rows pos s1 x s' r' → read_post rest rows pos s x s' r'.
Proof.
  intros Hset Heof Hffc Hby Hj Hrec [Hset' HP]. split; [by etrans|].
  assert (rd_flexible s1 = rd_flexible s) as Hfl by apply Hset.
  destruct rows as [|row rows].
  { destruct HP as (? & ? & ? & ? & ? & ? & ?). rewrite length_drop in *. split_and!; try congruence. lia. }
  destruct HP as (H1 & H2 & H3 & H4 & (k & Hk & Hat & Hkb) & H5).
  rewrite Hfl, Hffc in H5. rewrite drop_drop, length_drop in *. split_and!; try done; try congruence.
  exists (j + k). split_and!; [lia|done|lia].
Qed.

(** The numbers at the end of a record. *)
Lemma add_record_spec s r fs pos :
  record_is r fs → br_pos r = pos → (0 ≤ pos_record (cur_pos s) < 2 ^ 64 - 1)%Z →
  ∃ s', same_settings s s' ∧ eof s' = eof s ∧ rd_core s' = rd_core s ∧ rdr s' = rdr s ∧
    pos_byte (cur_pos s') = pos_byte (cur_pos s) ∧
    pos_record (cur_pos s') = (pos_record (cur_pos s) + 1)%Z ∧
    if count_ok (rd_flexible s) (rd_first_field_count s) (length fs)
    then add_record (IoError := IoError) (s, r) = (Ok tt, (s', r)) ∧
      rd_first_field_count s' = next_first (rd_flexible s) (rd_first_field_count s) (length fs)
    else ∃ m, rd_first_field_count s = Some m ∧
      add_record (IoError := IoError) (s, r) = (Err (CE_UnequalLengths pos m (length fs)), (s', r)) ∧
      rd_first_field_count s' = rd_first_field_count s.
Proof.
  intros (Hlen & _) Hpos Hi. unfold add_record, count_ok, next_first. cbn [fst snd].
  rewrite bool_decide_false by lia. rewrite Hlen, Hpos. cbn [set_cur_pos rd_flexible rd_first_field_count].
  set (s1 := set_cur_pos (set_record (cur_pos s) (pos_record (cur_pos s) + 1)) s).
  destruct (rd_flexible s); [by exists s1|]. destruct (rd_first_field_count s) as [m|] eqn:Em; cbn [orb].
  - exists s1. split_and!; try done. destruct (decide (m = length fs)) as [->|Hm].
    + rewrite (bool_decide_true (length fs = length fs)), bool_decide_false by tauto. done.
    + rewrite (bool_decide_false (m = length fs)), bool_decide_true by congruence. by exists m.
  - by exists (set_rd_first_field_count (length fs) s1).
Qed.

(** *** After one round *)

Section after_round.
Context (p : parser) (rest : list u8) (rows : list csv_row) (s : FileReader R) (r : ByteRecord)
  (outlen endlen : nat) (c : record_call) (p' : parser) (s' : FileReader R) (r' : ByteRecord).
Context (Hbf : before_rows p rest rows s) (Hro : rounded p rest s r outlen endlen c p' s' r').

Lemma round_before rows1 :
  p_done p' ++ rows1 = p_done p ++ rows → Forall is_row rows1 → length rows1 ≤ length rows →
  before_rows p' (drop (rc_nin c) rest) rows1 s'.
Proof.
  intros Hr1 Hs1 Hl1. destruct (ro_called _ _ _ _ _ _ _ _ _ _ Hro) as [n Hcd].
  destruct Hro as [_ Hcore Hrest Hcap Hnin _ _ _ Hby Hrec _ _ _ _ _ _ _].
  pose proof (bf_record _ _ _ _ Hbf). pose proof (bf_byte _ _ _ _ Hbf).
  split; rewrite ?Hcore; try done.
  - apply Hcd.
  - left. apply Hcd.
  - by rewrite (cd_rest _ _ _ _ _ _ _ Hcd), <- (bf_rows _ _ _ _ Hbf).
  - apply Hcd, Hbf.
  - lia.
  - rewrite Hby, length_drop. lia.
Qed.

(** Going round again: fewer rounds are left, once the record has more room. *)
Lemma round_measure r2 fuel :
  rounds_left p rest outlen endlen r < S fuel → rc_result c ≠ RR_End →
  length (br_fields r') ≤ length (br_fields r2) → length (ends (br_bounds r')) ≤ length (ends (br_bounds r2)) →
  (rc_result c = RR_OutputFull → length (br_fields r') < length (br_fields r2)) →
  (rc_result c = RR_OutputEndsFull → length (ends (br_bounds r')) < length (ends (br_bounds r2))) →
  rounds_left p' (drop (rc_nin c) rest) (outlen + rc_nout c) (endlen + rc_nend c) r2 < fuel.
Proof.
  intros Hf Hne Hl1 Hl2 Hg1 Hg2. destruct (ro_called _ _ _ _ _ _ _ _ _ _ Hro) as [n Hcd].
  pose proof (ro_fields _ _ _ _ _ _ _ _ _ _ Hro) as Hfl. pose proof (ro_ends _ _ _ _ _ _ _ _ _ _ Hro) as Hel.
  pose proof (ro_nout _ _ _ _ _ _ _ _ _ _ Hro). pose proof (ro_nend _ _ _ _ _ _ _ _ _ _ Hro).
  unfold rounds_left in *.
  destruct (cd_progress _ _ _ _ _ _ _ Hcd) as [[?|Hlt]|(-> & -> & Hno & Hnend & Hfull)]; [done| |].
  - repeat case_bool_decide; lia.
  - rewrite drop_0. cbn [cc_output cc_ends] in Hfull.
    destruct Hfull as [[Hres Hfull]|[Hres Hfull]]; apply (f_equal length) in Hfull;
      rewrite length_drop in Hfull; cbn in Hfull; [specialize (Hg1 Hres)|specialize (Hg2 Hres)];
      repeat case_bool_decide; lia.
Qed.

Lemma round_filled r2 :
  is_record (rc_result c) = false →
  take (outlen + rc_nout c) (br_fields r2) = take (outlen + rc_nout c) (br_fields r') →
  take (endlen + rc_nend c) (ends (br_bounds r2)) = take (endlen + rc_nend c) (ends (br_bounds r')) →
  length (br_fields r') ≤ length (br_fields r2) → length (ends (br_bounds r')) ≤ length (ends (br_bounds r2)) →
  p_done p' = p_done p ∧ filled p' (outlen + rc_nout c) (endlen + rc_nend c) r2.
Proof.
  intros Hnr Ht1 Ht2 Hl1 Hl2. destruct (ro_called _ _ _ _ _ _ _ _ _ _ Hro) as [n Hcd].
  pose proof (cd_row _ _ _ _ _ _ _ Hcd) as Hrow. cbn zeta in Hrow.
  rewrite (ro_row _ _ _ _ _ _ _ _ _ _ Hro), Hnr in Hrow. destruct Hrow as (Hd & Hb & He). cbn [fst snd] in Hb, He.
  pose proof (ro_fields _ _ _ _ _ _ _ _ _ _ Hro) as Hfl. pose proof (ro_ends _ _ _ _ _ _ _ _ _ _ Hro) as Hel.
  pose proof (ro_nout _ _ _ _ _ _ _ _ _ _ Hro). pose proof (ro_nend _ _ _ _ _ _ _ _ _ _ Hro).
  split; [done|]. split_and!; try congruence; lia.
Qed.

(** The round was the last: it ended a record, the first of the rows. *)
Lemma round_record :
  rc_result c = RR_Record → (0 ≤ pos_record (cur_pos s))%Z →
  ∃ x s2 r2, (let! _ := on_record (λ r, set_len r (endlen + rc_nend c)) in let! _ := add_record in st_ret true) (s', r')
    = (x, (s2, r2)) ∧ read_post rest rows (br_pos r) s x s2 r2.
Proof.
  intros Hres Hrec0. destruct (ro_called _ _ _ _ _ _ _ _ _ _ Hro) as [n Hcd].
  pose proof (cd_row _ _ _ _ _ _ _ Hcd) as Hrow. cbn zeta in Hrow.
  rewrite (ro_row _ _ _ _ _ _ _ _ _ _ Hro), Hres in Hrow. destruct Hrow as (Hd & Hb & He).
  set (row := (take (outlen + rc_nout c) (br_fields r'), take (endlen + rc_nend c) (ends (br_bounds r')))) in *.
  assert (Hpre : p_done p' `prefix_of` p_done p ++ rows).
  { rewrite (bf_rows _ _ _ _ Hbf), <- (cd_rest _ _ _ _ _ _ _ Hcd).
    etrans; [apply (parse_done cfg p' (drop (rc_nin c) rest))|apply finish_done]. }
  destruct Hpre as [rows1 Hrows]. rewrite Hd, <- app_assoc in Hrows. apply app_inv_head in Hrows. cbn in Hrows.
  pose proof (bf_shape _ _ _ _ Hbf) as Hshape. rewrite Hrows in Hshape.
  apply list.Forall_cons in Hshape as [Hrow1 Hshape].
  pose proof (bf_record _ _ _ _ Hbf) as Hrb. rewrite Hrows in Hrb. cbn [length] in Hrb.
  assert (Hbf1 : before_rows p' (drop (rc_nin c) rest) rows1 s').
  { apply round_before; [by rewrite Hd, <- app_assoc, Hrows|done|rewrite Hrows; simpl; lia]. }
  destruct Hro as [_ Hcore Hrest Hcap Hnin Hset Heof Hffc Hby Hrec Hpos Hlen Hfl Hel Hno Hne _].
  assert (His : record_is (set_len r' (endlen + rc_nend c)) (fields_of row)).
  { destruct r' as [pos1 fields1 [es1 len1]]. apply (buffers_are_row _ _ _ (outlen + rc_nout c)); try done.
    cbn in Hel |- *. lia. }
  destruct (add_record_spec s' _ _ (br_pos r) His Hpos)
    as (s2 & Hset2 & Heof2 & Hcore2 & Hrdr2 & Hby2 & Hrec2 & Hadd); [lia|].
  assert (rd_flexible s' = rd_flexible s) as Hflx by apply Hset. rewrite Hflx, Hffc in Hadd.
  assert (Hpost : ∀ x, (if count_ok (rd_flexible s) (rd_first_field_count s) (length (fields_of row))
      then x = Ok true ∧ rd_first_field_count s2
        = next_first (rd_flexible s) (rd_first_field_count s) (length (fields_of row))
      else ∃ m, rd_first_field_count s = Some m ∧
        x = Err (CE_UnequalLengths (br_pos r) m (length (fields_of row))) ∧
        rd_first_field_count s2 = rd_first_field_count s) →
    read_post rest rows (br_pos r) s x s2 (set_len r' (endlen + rc_nend c))).
  { intros x Hx. split; [by etrans|]. rewrite Hrows. split_and!; try done; [congruence|lia|].
    exists (rc_nin c). split_and!; [done| |by rewrite Hby2]. exists p'.
    split; [|split_and!; [done|done|by apply (cd_between _ _ _ _ _ _ _ Hcd)]].
    destruct Hbf1 as [B1 B2 B3 B4 B5 B6 B7 B8 B9].
    split; rewrite ?Hcore2, ?Hrdr2, ?Hby2, ?Hrec2; try done. lia. }
  unfold on_record. rewrite st_bind_set. cbn [fst snd].
  destruct (count_ok _ _ _) eqn:Hok.
  - destruct Hadd as [Ea Hn]. rewrite (st_bind_ok _ _ _ _ _ Ea). eexists _, _, _.
    split; [reflexivity|]. by apply Hpost.
  - destruct Hadd as (m & Hm & Ea & Hn). rewrite (st_bind_err _ _ _ _ _ Ea). eexists _, _, _.
    split; [reflexivity|]. apply Hpost. by exists m.
Qed.

(** There are no more rows. *)
Lemma round_end :
  rc_result c = RR_End → b_len (br_bounds r) = 0 →
  ∃ x s2 r2, (let! _ := on_reader (set_eof Eof) in st_ret false) (s', r') = (x, (s2, r2)) ∧
    read_post rest rows (br_pos r) s x s2 r2.
Proof.
  intros Hres Hblen. destruct (ro_called _ _ _ _ _ _ _ _ _ _ Hro) as [n Hcd].
  destruct (cd_end _ _ _ _ _ _ _ Hcd Hres) as [Hi Hbt].
  pose proof (cd_no_bytes _ _ _ _ _ _ _ Hcd Hres) as Hnb.
  assert (rows = []) as ->.
  { pose proof (bf_rows _ _ _ _ Hbf) as Hrows. rewrite Hi in Hrows. cbn in Hrows.
    unfold finish_parse in Hrows. rewrite Hbt in Hrows.
    rewrite <- (app_nil_r (p_done p)) in Hrows at 2. by apply app_inv_head in Hrows. }
  destruct Hro as [_ Hcore _ Hcap Hnin Hset _ Hffc Hby _ Hpos Hlen _ _ _ _ _].
  eexists _, _, _. split; [reflexivity|]. split; [by etrans|]. split_and!; try done.
  - rewrite Hblen in Hlen. split; [done|]. split; [by exists (ends (br_bounds r'))|by exists (br_fields r')].
  - split; [exact Hcap|]. exists p'. split; [|done].
    change (reader_at cfg p' (rd_core s')). rewrite Hcore. apply Hcd.
  - rewrite Hi in *. cbn in Hnin. change (pos_byte (cur_pos s') = (pos_byte (cur_pos s) + 0)%Z). rewrite Hby. lia.
Qed.

End after_round.

Lemma file_loop_spec fuel p rest rows s r outlen endlen :
  before_rows p rest rows s → filled p outlen endlen r → b_len (br_bounds r) = 0 →
  (0 ≤ pos_record (cur_pos s))%Z →
  rounds_left p rest outlen endlen r < fuel →
  (∃ e s' r', read_loop debug fuel outlen endlen (s, r) = (Err (CE_Io e), (s', r')) ∧ read_fails e ∧
    same_settings s s' ∧ eof s' = IOError ∧ record_is r' []) ∨
  (∃ x s' r', read_loop debug fuel outlen endlen (s, r) = (x, (s', r')) ∧
    read_post rest rows (br_pos r) s x s' r').
Proof.
  revert p rest s r outlen endlen.
  induction fuel as [|fuel IH]; intros p rest s r outlen endlen Hbf Hfill Hblen Hrec0 Hf; [lia|].
  cbn [read_loop].
  edestruct (round_spec (λ result nout nend,
    let outlen := outlen + nout in
    let endlen := endlen + nend in
    match result with
    | RR_InputEmpty => read_loop debug fuel outlen endlen
    | RR_OutputFull => let! _ := on_record expand_fields in read_loop debug fuel outlen endlen
    | RR_OutputEndsFull => let! _ := on_record expand_ends in read_loop debug fuel outlen endlen
    | RR_Record => let! _ := on_record (λ r, set_len r endlen) in let! _ := add_record in st_ret true
    | RR_End => let! _ := on_reader (set_eof Eof) in st_ret false
    end) p rest rows s r outlen endlen Hbf Hfill)
    as [(e & s' & E & He & Hset & Heof)|(c & s1 & r1 & p' & E & Hro)]; cbn zeta in E; rewrite E; clear E.
  { left. exists e, s', r. split_and!; try done.
    split; [done|]. split; [by exists (ends (br_bounds r))|by exists (br_fields r)]. }
  (* going round again with a record that has at least the room of [r1] *)
  assert (Hagain : ∀ r2, is_record (rc_result c) = false → rc_result c ≠ RR_End →
    b_len (br_bounds r2) = b_len (br_bounds r1) → br_pos r2 = br_pos r1 →
    (∃ k, br_fields r2 = br_fields r1 ++ k) → (∃ k, ends (br_bounds r2) = ends (br_bounds r1) ++ k) →
    (rc_result c = RR_OutputFull → length (br_fields r1) < length (br_fields r2)) →
    (rc_result c = RR_OutputEndsFull → length (ends (br_bounds r1)) < length (ends (br_bounds r2))) →
    (∃ e s' r', read_loop debug fuel (outlen + rc_nout c) (endlen + rc_nend c) (s1, r2) = (Err (CE_Io e), (s', r')) ∧
      read_fails e ∧ same_settings s s' ∧ eof s' = IOError ∧ record_is r' []) ∨
    (∃ x s' r', read_loop debug fuel (outlen + rc_nout c) (endlen + rc_nend c) (s1, r2) = (x, (s', r')) ∧
      read_post rest rows (br_pos r) s x s' r')).
  { intros r2 Hnr Hne Hb2 Hp2 [k1 Hk1] [k2 Hk2] Hg1 Hg2.
    pose proof Hro as [_ _ _ _ Hnin Hset Heof Hffc Hby Hrec Hpos Hlen Hfl Hel Hno Hnend _].
    assert (Hl1 : length (br_fields r1) ≤ length (br_fields r2)) by (rewrite Hk1, length_app; lia).
    assert (Hl2 : length (ends (br_bounds r1)) ≤ length (ends (br_bounds r2))) by (rewrite Hk2, length_app; lia).
    destruct (round_filled _ _ _ _ _ _ _ _ _ _ Hro r2 Hnr) as [Hd Hfill2]; try done;
      [rewrite Hk1, take_app_le by lia; done|rewrite Hk2, take_app_le by lia; done|].
    destruct (IH p' (drop (rc_nin c) rest) s1 r2 (outlen + rc_nout c) (endlen + rc_nend c))
      as [(e & s' & r' & E & He & Hset' & Hx)|(x & s' & r' & E & Hpost)].
    - apply (round_before _ _ _ _ _ _ _ _ _ _ _ Hbf Hro); [by rewrite Hd|apply Hbf|done].
    - done.
    - congruence.
    - lia.
    - by apply (round_measure _ _ _ _ _ _ _ _ _ _ Hro).
    - left. exists e, s', r'. split_and!; try apply Hx; try done. by etrans.
    - right. exists x, s', r'. split; [done|]. rewrite Hp2, Hpos in Hpost. by eapply read_post_weaken. }
  destruct (rc_result c) eqn:Eres.
  - apply Hagain; try done; [by exists []; rewrite app_nil_r|by exists []; rewrite app_nil_r].
  - unfold on_record. rewrite st_bind_set. apply Hagain; try done; cbn; [by apply grown_prefix|by exists []; rewrite app_nil_r|].
    intros _. apply length_grown.
  - unfold on_record. rewrite st_bind_set. apply Hagain; try done; cbn; [by exists []; rewrite app_nil_r|by apply grown_prefix|].
    intros _. apply length_grown.
  - right. by eapply round_record.
  - right. by eapply round_end.
Qed.

(** [read_byte_record_impl] at the beginning of a row. *)
Lemma read_byte_record_impl_spec fuel rest rows s r :
  at_row rest rows s → eof s = NotEof → (0 ≤ pos_record (cur_pos s))%Z → 3 * length rest + 8 < fuel →
  (∃ e s' r', read_byte_record_impl debug fuel (s, r) = (Err (CE_Io e), (s', r')) ∧ read_fails e ∧
    same_settings s s' ∧ eof s' = IOError ∧ record_is r' []) ∨
  (∃ x s' r', read_byte_record_impl debug fuel (s, r) = (x, (s', r')) ∧
    read_post rest rows (Some (cur_pos s)) s x s' r').
Proof.
  intros (p & Hbf & Hb & He & _) Heof Hrec Hf. unfold read_byte_record_impl.
  rewrite st_bind_get. unfold on_record. rewrite st_bind_set, st_bind_get. cbn [fst snd]. rewrite Heof.
  apply (file_loop_spec fuel p rest rows s (set_position (clear r) (Some (cur_pos s))) 0 0 Hbf).
  - split_and!; cbn; rewrite ?take_0; try done; lia.
  - apply (clear_any r).
  - done.
  - unfold rounds_left, calls_needed. repeat case_match; lia.
Qed.

(** After the end, and after an error of the source, there are no more rows. *)
Lemma read_byte_record_impl_eof fuel s r :
  eof s ≠ NotEof →
  ∃ r', read_byte_record_impl (IoError := IoError) debug fuel (s, r) = (Ok false, (s, r')) ∧ record_is r' [].
Proof.
  intros Heof. eexists. split.
  - unfold read_byte_record_impl. rewrite st_bind_get. unfold on_record. rewrite st_bind_set, st_bind_get.
    cbn [fst snd]. destruct (eof s); [done|reflexivity..].
  - apply set_position_is, clear_any.
Qed.

(** ** Headers *)

Lemma set_headers_spec (s : FileReader R) bytes fs :
  record_is bytes fs →
  ∃ h, set_headers_impl (IoError := IoError) (inr bytes) s = Ok (set_rd_headers h s) ∧
    record_is (byte_record h) (if should_trim_headers (rd_trim s) then trim_ascii <$> fs else fs) ∧
    br_pos (byte_record h) = br_pos bytes ∧
    match string_record h with
    | inr str => string_is str (if should_trim_headers (rd_trim s) then trim_str <$> fs else fs)
    | inl err => first_invalid 0 fs = Some err
    end.
Proof.
  intros Hr. unfold set_headers_impl. destruct (from_byte_record_is bytes fs Hr) as [-> Hstr].
  destruct (first_invalid 0 fs) as [err|] eqn:Einv; cbn [res_bind].
  - destruct (should_trim_headers (rd_trim s)); [|by eexists].
    destruct (trim_with_is (E := CsvError IoError) trim_ascii bytes fs Hr) as (b & Eb & Hb & Hp).
    cbn [res_bind]. unfold br_trim. rewrite Eb. cbn [res_bind]. by eexists.
  - specialize (Hstr eq_refl). destruct (should_trim_headers (rd_trim s)); [|by eexists].
    destruct (sr_trim_is (E := CsvError IoError) _ fs Hstr) as (b1 & Eb1 & Hb1).
    destruct (trim_with_is (E := CsvError IoError) trim_ascii bytes fs Hr) as (b & Eb & Hb & Hp).
    unfold res_map. rewrite Eb1. cbn [res_bind]. unfold br_trim. rewrite Eb. cbn [res_bind]. by eexists.
Qed.

Lemma set_headers_m_spec (s : FileReader R) r bytes fs :
  record_is bytes fs → ∃ h, set_headers_m (IoError := IoError) bytes (s, r) = (Ok tt, (set_rd_headers h s, r)) ∧
    record_is (byte_record h) (if should_trim_headers (rd_trim s) then trim_ascii <$> fs else fs) ∧
    br_pos (byte_record h) = br_pos bytes.
Proof.
  intros Hr. destruct (set_headers_spec s bytes fs Hr) as (h & E & Hh & Hp & _).
  exists h. unfold set_headers_m. cbn [fst snd]. by rewrite E.
Qed.

(** ** [read_byte_record] *)

(** The fields that a reader delivers. *)
Definition trimmed (t : Trim) (fs : list (list u8)) : list (list u8) :=
  if should_trim_fields t then trim_ascii <$> fs else fs.

Lemma trim_record_spec (s : FileReader R) r fs :
  record_is r fs → ∃ r', trim_record (IoError := IoError) (s, r) = (Ok tt, (s, r')) ∧
    record_is r' (trimmed (rd_trim s) fs) ∧ br_pos r' = br_pos r.
Proof.
  intros Hr. unfold trim_record, trimmed. cbn [fst snd]. destruct (should_trim_fields (rd_trim s)); [|by exists r].
  destruct (trim_with_is (E := CsvError IoError) trim_ascii r fs Hr) as (b & Eb & Hb & Hp).
  exists b. unfold br_trim. by rewrite Eb.
Qed.

(** A reader that has its headers and will not give them back as a record. *)
Definition settled (s : FileReader R) : Prop :=
  is_Some (rd_headers s) ∧ (has_headers s = true ∨ first s = true ∨ seeked s = true).

Lemma settled_same s s' : same_settings s s' → settled s → settled s'.
Proof. intros (E1 & E2 & _ & _ & E3 & E4 & _) [H1 H2]. split; [by rewrite E1|]. by rewrite E2, E3, E4. Qed.

Lemma settled_run fuel s r :
  settled s →
  read_byte_record debug fuel (s, r) = (let! ok := read_byte_record_impl debug fuel in
    let! _ := on_reader set_first in
    let! s := st_get fst in
    if negb (seeked s) && match rd_headers s with None => true | Some _ => false end then
      let! record := st_get snd in
      let! _ := set_headers_m record in
      let! s := st_get fst in
      if has_headers s then
        let! result := st_result (read_byte_record_impl debug fuel) in
        let! _ := trim_record in
        st_from result
      else st_ret ok
    else
      let! _ := trim_record in st_ret ok) (s, r).
Proof.
  intros [_ Hs]. unfold read_byte_record. rewrite st_bind_get. cbn [fst].
  destruct Hs as [-> |[-> | ->]]; cbn [negb]; by rewrite ?andb_false_r.
Qed.

(** What [read_byte_record] has done when it returns [x]. *)
Definition row_post (rest : list u8) (rows : list csv_row) (s : FileReader R)
    (x : res (CsvError IoError) bool) (s' : FileReader R) (r' : ByteRecord) : Prop :=
  settled s' ∧ rd_flexible s' = rd_flexible s ∧ rd_trim s' = rd_trim s ∧
  match rows with
  | [] => x = Ok false ∧ eof s' = Eof ∧ record_is r' []
  | row :: rows' =>
      let n := length (fields_of row) in
      eof s' = eof s ∧ (0 ≤ pos_record (cur_pos s'))%Z ∧
      (∃ k, at_row (drop k rest) rows' s') ∧
      if count_ok (rd_flexible s) (rd_first_field_count s) n
      then x = Ok true ∧ record_is r' (trimmed (rd_trim s) (fields_of row)) ∧ br_pos r' = Some (cur_pos s) ∧
        rd_first_field_count s' = next_first (rd_flexible s) (rd_first_field_count s) n
      else ∃ m, rd_first_field_count s = Some m ∧ (∃ fs, record_is r' fs) ∧
        x = Err (CE_UnequalLengths (Some (cur_pos s)) m n) ∧ rd_first_field_count s' = rd_first_field_count s
  end.

Lemma at_row_set_first rest rows s : at_row rest rows s → at_row rest rows (set_first s).
Proof. intros (p & [B1 B2 B3 B4 B5 B6 B7 B8 B9] & Hp). by exists p. Qed.

Lemma read_byte_record_settled fuel rest rows s r :
  at_row rest rows s → settled s → eof s = NotEof → (0 ≤ pos_record (cur_pos s))%Z → 3 * length rest + 8 < fuel →
  (∃ e s' r', read_byte_record debug fuel (s, r) = (Err (CE_Io e), (s', r')) ∧ read_fails e ∧
    settled s' ∧ eof s' = IOError ∧ record_is r' []) ∨
  (∃ x s' r', read_byte_record debug fuel (s, r) = (x, (s', r')) ∧ row_post rest rows s x s' r' ∧
    moved rest rows s s').
Proof.
  intros Hat Hset Heof Hrec Hf. rewrite settled_run by done.
  destruct (read_byte_record_impl_spec fuel rest rows s r Hat Heof Hrec Hf)
    as [(e & s' & r' & E & He & Hss & Hx)|(x & s' & r' & E & Hpost0)].
  { left. exists e, s', r'. rewrite (st_bind_err _ _ _ _ _ E). split_and!; try apply Hx; try done.
    by eapply settled_same. }
  pose proof (read_post_moved _ _ _ _ _ _ _ Hpost0) as Hmv. destruct Hpost0 as [Hss Hpost].
  right. pose proof (settled_same _ _ Hss Hset) as Hset'. pose proof Hss as (Eh & _ & Efl & Etr & _).
  assert (Hok : ∀ b fs, x = Ok b → record_is r' fs →
    ∃ r2, (let! ok := read_byte_record_impl debug fuel in
      let! _ := on_reader set_first in
      let! s := st_get fst in
      if negb (seeked s) && match rd_headers s with None => true | Some _ => false end then
        let! record := st_get snd in
        let! _ := set_headers_m record in
        let! s := st_get fst in
        if has_headers s then
          let! result := st_result (read_byte_record_impl debug fuel) in
          let! _ := trim_record in
          st_from result
        else st_ret ok
      else
        let! _ := trim_record in st_ret ok) (s, r) = (Ok b, (set_first s', r2)) ∧
      record_is r2 (trimmed (rd_trim s) fs) ∧ br_pos r2 = br_pos r').
  { intros b fs -> Hr. rewrite (st_bind_ok _ _ _ _ _ E). unfold on_reader. rewrite st_bind_set, st_bind_get.
    cbn [fst snd set_first rd_headers seeked]. destruct Hset' as [[h Hh] _]. rewrite Hh, andb_false_r.
    destruct (trim_record_spec (set_first s') r' fs Hr) as (r2 & E2 & Hr2 & Hp2).
    rewrite (st_bind_ok _ _ _ _ _ E2). exists r2. split; [done|]. split; [|done].
    cbn in Hr2. by rewrite Etr in Hr2. }
  destruct rows as [|row rows].
  - destruct Hpost as (-> & Hx & Hr & _). destruct (Hok false [] eq_refl Hr) as (r2 & E2 & Hr2 & _).
    eexists _, (set_first s'), r2. split; [exact E2|]. split; [|by apply moved_set_first]. split_and!; try done.
    + split; [apply Hset'|by right; left].
    + revert Hr2. unfold trimmed. by destruct (should_trim_fields _).
  - destruct Hpost as (Hr & Hp & Heof' & Hrec' & (k & Hk & Hat' & _) & Hc).
    destruct (count_ok _ _ _) eqn:Hcount.
    + destruct Hc as [-> Hn]. destruct (Hok true _ eq_refl Hr) as (r2 & E2 & Hr2 & Hp2).
      eexists _, (set_first s'), r2. split; [exact E2|]. split; [|by apply moved_set_first]. unfold row_post. cbn zeta. split_and!; try done.
      * split; [apply Hset'|by right; left].
      * change (0 ≤ pos_record (cur_pos s'))%Z. lia.
      * exists k. by apply at_row_set_first.
      * rewrite Hcount. split_and!; try done. congruence.
    + destruct Hc as (m & Hm & -> & Hn). eexists _, s', r'. rewrite (st_bind_err _ _ _ _ _ E).
      split; [reflexivity|]. split; [|done]. unfold row_post. cbn zeta. split_and!; try done; [lia|by exists k|].
      rewrite Hcount. exists m. split_and!; try done. by eexists.
Qed.

(** ** All records *)

(** What is delivered for each row: its fields, or the numbers of fields that do
    not agree. *)
Fixpoint deliveries (fl : bool) (first : option nat) (rows : list (list (list u8)))
    : list (nat * nat + list (list u8)) :=
  match rows with
  | [] => []
  | fs :: rows =>
      (if count_ok fl first (length fs) then inr fs else inl (default 0 first, length fs))
      :: deliveries fl (next_first fl first (length fs)) rows
  end.

(** The records of a whole file, as the reader is documented to give them: every row
    is trimmed, and the first is not a record if it is the header row. *)
Definition documented_records (headers fl : bool) (t : Trim) (rows : list (list (list u8)))
    : list (nat * nat + list (list u8)) :=
  let records := deliveries fl None (trimmed t <$> rows) in
  if headers then tail records else records.

(** What it gives: without a header row the first record is not trimmed. *)
Definition first_untrimmed (headers : bool) (rows : list (list (list u8))) (records : list (nat * nat + list (list u8)))
    : list (nat * nat + list (list u8)) :=
  match headers, rows, records with
  | false, fs :: _, _ :: records => inr fs :: records
  | _, _, _ => records
  end.

Lemma length_trimmed t fs : length (trimmed t fs) = length fs.
Proof. unfold trimmed. destruct (should_trim_fields t); [apply length_fmap|done]. Qed.

Lemma given_records_cons headers fl t fs rows :
  first_untrimmed headers (fs :: rows) (documented_records headers fl t (fs :: rows)) =
  let later := deliveries fl (next_first fl None (length fs)) (trimmed t <$> rows) in
  if headers then later else inr fs :: later.
Proof. unfold documented_records. cbn [fmap list_fmap deliveries]. rewrite length_trimmed. by destruct headers. Qed.

Definition delivers (x : CsvError IoError + ByteRecord) (d : nat * nat + list (list u8)) : Prop :=
  match x, d with
  | inr r, inr fs => record_is r fs
  | inl (CE_UnequalLengths _ m n), inl (m', n') => m = m' ∧ n = n'
  | _, _ => False
  end.

(** The records [ds], or the first of them and then an error of the source. *)
Definition all_delivered (xs : list (CsvError IoError + ByteRecord)) (ds : list (nat * nat + list (list u8))) : Prop :=
  Forall2 delivers xs ds ∨
  ∃ ys e ds', xs = ys ++ [inl (CE_Io e)] ∧ read_fails e ∧ Forall2 delivers ys ds' ∧ ds' `prefix_of` ds.

Lemma trim_then {A} (s : FileReader R) r (x : A) :
  record_is r [] →
  ∃ r', (let! _ := trim_record (IoError := IoError) in st_ret x) (s, r) = (Ok x, (s, r')).
Proof.
  intros Hr. destruct (trim_record_spec s r [] Hr) as (r2 & E2 & _).
  exists r2. by rewrite (st_bind_ok _ _ _ _ _ E2).
Qed.

Lemma if_same {A} (b : bool) (x : A) : (if b then x else x) = x.
Proof. by destruct b. Qed.

(** Past the end [read_byte_record] returns [Ok(false)]. *)
Lemma read_byte_record_eof fuel s r :
  settled s ∨ rd_headers s = None → eof s ≠ NotEof →
  ∃ st, read_byte_record (IoError := IoError) debug fuel (s, r) = (Ok false, st).
Proof.
  intros Hs Heof. destruct (read_byte_record_impl_eof fuel s r Heof) as (r1 & E1 & Hr1).
  destruct Hs as [Hs|Hs].
  - rewrite settled_run by done. rewrite (st_bind_ok _ _ _ _ _ E1).
    unfold on_reader. rewrite st_bind_set, st_bind_get. cbn [fst snd set_first rd_headers seeked].
    destruct Hs as [[h ->] _]. rewrite andb_false_r.
    destruct (trim_then (set_first s) r1 false Hr1) as (r2 & E2). rewrite E2. by eexists.
  - unfold read_byte_record. rewrite st_bind_get. cbn [fst]. rewrite Hs, if_same, (st_bind_ok _ _ _ _ _ E1).
    unfold on_reader. rewrite st_bind_set, st_bind_get. cbn [fst snd set_first rd_headers seeked]. rewrite Hs.
    destruct (negb (seeked s)); cbn [andb].
    2: { destruct (trim_then (set_first s) r1 false Hr1) as (r2 & E2). rewrite E2. by eexists. }
    rewrite st_bind_get. cbn [snd].
    destruct (set_headers_m_spec (set_first s) r1 r1 [] Hr1) as (h & Eh & _).
    rewrite (st_bind_ok _ _ _ _ _ Eh), st_bind_get. cbn [fst set_rd_headers set_first has_headers].
    destruct (has_headers s); [|by eexists].
    destruct (read_byte_record_impl_eof fuel (set_rd_headers h (set_first s)) r1 Heof) as (r2 & E2 & Hr2).
    assert (E3 : st_result (read_byte_record_impl (IoError := IoError) debug fuel) (set_rd_headers h (set_first s), r1)
      = (Ok (inr false), (set_rd_headers h (set_first s), r2))) by (unfold st_result; by rewrite E2).
    rewrite (st_bind_ok _ _ _ _ _ E3). cbn [st_from].
    destruct (trim_then (set_rd_headers h (set_first s)) r2 false Hr2) as (r3 & E4). rewrite E4. by eexists.
Qed.

Lemma byte_records_eof n fuel s r :
  settled s ∨ rd_headers s = None → eof s ≠ NotEof →
  byte_records debug (S n) fuel (s, r) = Ok ([] : list (CsvError IoError + ByteRecord)).
Proof.
  intros Hs Heof. destruct (read_byte_record_eof fuel s r Hs Heof) as [st E].
  cbn [byte_records]. unfold next_byte_record. by rewrite E.
Qed.

Lemma all_delivered_cons x d xs ds : delivers x d → all_delivered xs ds → all_delivered (x :: xs) (d :: ds).
Proof.
  intros Hy [Hds|(zs & e & ds' & -> & He & Hzs & Hpre)]; [left; by constructor|right].
  exists (x :: zs), e, (d :: ds'). split_and!; try done; [by constructor|by apply prefix_cons].
Qed.

(** One call, given what the later calls deliver. *)
Lemma byte_records_step n fuel rest rows s0 s r x s' r' :
  read_byte_record debug fuel (s0, r) = (x, (s', r')) → row_post rest rows s x s' r' →
  (∀ r1, rows ≠ [] → ∃ xs, byte_records debug n fuel (s', r1) = Ok xs ∧
    all_delivered xs (deliveries (rd_flexible s) (rd_first_field_count s')
      (trimmed (rd_trim s) ∘ fields_of <$> tail rows))) →
  ∃ xs, byte_records debug (S n) fuel (s0, r) = Ok xs ∧
    all_delivered xs (deliveries (rd_flexible s) (rd_first_field_count s) (trimmed (rd_trim s) ∘ fields_of <$> rows)).
Proof.
  intros E (Hset' & Hfl & Htr & Hpost) Hlater. cbn [byte_records]. unfold next_byte_record. rewrite E.
  destruct rows as [|row rows].
  { destruct Hpost as (-> & Heof' & Hr'). eexists. split; [reflexivity|]. left. constructor. }
  cbn zeta in Hpost. destruct Hpost as (Heof' & Hrec' & _ & Hc). cbn [tail] in Hlater.
  cbn [fmap list_fmap deliveries].
  change ((trimmed (rd_trim s) ∘ fields_of) row) with (trimmed (rd_trim s) (fields_of row)).
  rewrite !length_trimmed. destruct (count_ok _ _ _).
  - destruct Hc as (-> & Hr' & _ & Hn'). cbn [snd].
    destruct (clone_truncated_is (E := unit) r' _ Hr') as (r2 & -> & Hr2 & _). unfold res_map. cbn [res_bind].
    destruct (Hlater r') as (xs & -> & Hxs); [done|]. cbn [res_bind]. eexists. split; [reflexivity|].
    apply all_delivered_cons; [done|]. rewrite Hn' in Hxs. exact Hxs.
  - destruct Hc as (m & Hm & _ & -> & Hn').
    destruct (Hlater r') as (xs & -> & Hxs); [done|]. cbn [res_bind]. eexists. split; [reflexivity|].
    apply all_delivered_cons; [by rewrite Hm|]. rewrite Hn' in Hxs. rewrite Hm in Hxs |- *.
    unfold next_first. by destruct (rd_flexible s).
Qed.

(** A call that fails is the last but one. *)
Lemma byte_records_fail n fuel s r e s' r' ds :
  read_byte_record debug fuel (s, r) = (Err (CE_Io e), (s', r')) → read_fails e →
  settled s' ∨ rd_headers s' = None → eof s' ≠ NotEof →
  ∃ xs, byte_records debug (S (S n)) fuel (s, r) = Ok xs ∧ all_delivered xs ds.
Proof.
  intros E He Hset' Heof'.
  change (byte_records debug (S (S n)) fuel (s, r)) with (match next_byte_record debug fuel (s, r) with
    | (Ok None, _) => Ok []
    | (Ok (Some x), s') => let? xs := byte_records debug (S n) fuel s' in Ok (x :: xs)
    | (Err e, _) => Err e
    | (Panic, _) => Panic
    | (NoFuel, _) => NoFuel
    end). unfold next_byte_record. rewrite E, byte_records_eof by done.
  eexists. split; [reflexivity|]. right. exists [], e, []. split_and!; try done. apply prefix_nil.
Qed.

Lemma byte_records_settled n fuel rest rows s r :
  at_row rest rows s → settled s → eof s = NotEof → (0 ≤ pos_record (cur_pos s))%Z →
  3 * length rest + 8 < fuel → length rows + 2 ≤ n →
  ∃ xs, byte_records debug n fuel (s, r) = Ok xs ∧
    all_delivered xs (deliveries (rd_flexible s) (rd_first_field_count s) (trimmed (rd_trim s) ∘ fields_of <$> rows)).
Proof.
  revert rest s r n. induction rows as [|row rows IH]; intros rest s r n Hat Hset Heof Hrec Hf Hn;
    (destruct n as [|[|n]]; [simpl in Hn; lia..|]);
    (destruct (read_byte_record_settled fuel rest _ s r Hat Hset Heof Hrec Hf)
      as [(e & s' & r' & E & He & Hset' & Heof' & Hr')|(x & s' & r' & E & Hpost & _)];
      [eapply byte_records_fail; [exact E|done|by left|by rewrite Heof']|]).
  - by eapply byte_records_step.
  - eapply byte_records_step; [exact E|exact Hpost|]. intros r1 _.
    destruct Hpost as (Hset' & Hfl & Htr & Heof' & Hrec' & (k & Hat') & _). cbn [tail].
    rewrite <- Hfl, <- Htr. apply (IH (drop k rest)); try done; [congruence| |simpl in Hn; lia].
    rewrite length_drop. lia.
Qed.

(** *** A new reader *)

Lemma parse_rows_bound p bs : length (p_done (parse cfg p bs)) ≤ length (p_done p) + length bs.
Proof.
  revert p. induction bs as [|b bs IH]; intros p; [simpl; lia|]. simpl.
  pose proof (IH (parse_byte cfg p b)) as Hb.
  assert (length (p_done (parse_byte cfg p b)) ≤ length (p_done p) + 1); [|unfold parse in *; lia].
  unfold parse_byte. destruct (step cfg (p_state p) b) as [s o]. destruct (is_record_final s); simpl; [|lia].
  rewrite length_app. simpl. lia.
Qed.

Lemma parse_all_bound input : length (parse_all cfg input) ≤ length input + 1.
Proof.
  pose proof (parse_rows_bound parser_start input) as Hb. unfold parse_all, finish_parse.
  destruct (between _); cbn [p_done]; [simpl in Hb; lia|]. rewrite length_app. simpl in *. lia.
Qed.

(** A reader before it has read anything. *)
Definition fresh (input : list u8) (s : FileReader R) : Prop :=
  at_row input (parse_all cfg input) s ∧ rd_headers s = None ∧ first s = false ∧ seeked s = false ∧
  eof s = NotEof ∧ rd_first_field_count s = None ∧ cur_pos s = Position_new.

Lemma FileReader_new_fresh c cap hh fl t r :
  build cfg false = Ok c → config_ok cfg → 0 < cap →
  take 3 (content r) ≠ UTF8_BOM → (Z.of_nat (length (content r)) + 2 < 2 ^ 64)%Z →
  fresh (content r) (FileReader_new c cap hh fl t r).
Proof.
  intros Hb Hcfg Hcap Hbom Hlen.
  destruct (build_reader_at cfg Hcfg) as (c' & Hb' & Hat & Hread & Hline). rewrite Hb in Hb'. injection Hb' as <-.
  split; [|done]. exists parser_start. split; [|done].
  pose proof (parse_all_bound (content r)).
  split; try done.
  - by right.
  - apply parse_all_rows.
  - unfold line_fits. cbn [rd_core FileReader_new]. rewrite Hline. lia.
  - cbn. lia.
  - cbn. lia.
Qed.

(** The first call goes through [go] in the code of [read_byte_record]. *)
Lemma fresh_run fuel input s r :
  fresh input s →
  read_byte_record debug fuel (s, r) = (let! ok := read_byte_record_impl debug fuel in
    let! _ := on_reader set_first in
    let! s := st_get fst in
    if negb (seeked s) && match rd_headers s with None => true | Some _ => false end then
      let! record := st_get snd in
      let! _ := set_headers_m record in
      let! s := st_get fst in
      if has_headers s then
        let! result := st_result (read_byte_record_impl debug fuel) in
        let! _ := trim_record in
        st_from result
      else st_ret ok
    else
      let! _ := trim_record in st_ret ok) (s, r).
Proof.
  intros (_ & Hh & _). unfold read_byte_record. rewrite st_bind_get. cbn [fst]. by rewrite Hh, if_same.
Qed.

(** What the first row leaves behind: the headers, and the reader at the second. *)
Lemma fresh_first fuel input s r :
  fresh input s → 3 * length input + 8 < fuel →
  (∃ e s' r', read_byte_record debug fuel (s, r) = (Err (CE_Io e), (s', r')) ∧ read_fails e ∧
    rd_headers s' = None ∧ eof s' = IOError) ∨
  (∃ ok s1 r1, read_byte_record debug fuel (s, r) = (if has_headers s then
        let! result := st_result (read_byte_record_impl debug fuel) in
        let! _ := trim_record in
        st_from result
      else st_ret ok) (s1, r1) ∧
    settled s1 ∧ rd_flexible s1 = rd_flexible s ∧ rd_trim s1 = rd_trim s ∧
    moved input (parse_all cfg input) s s1 ∧ br_pos r1 = Some (cur_pos s) ∧
    match parse_all cfg input with
    | [] => ok = false ∧ eof s1 = Eof ∧ record_is r1 []
    | row :: rows =>
        ok = true ∧ record_is r1 (fields_of row) ∧ eof s1 = NotEof ∧ (0 ≤ pos_record (cur_pos s1))%Z ∧
        (∃ k, at_row (drop k input) rows s1) ∧
        rd_first_field_count s1 = next_first (rd_flexible s) None (length (fields_of row))
    end).
Proof.
  intros Hfr Hf. pose proof Hfr as (Hat & Hh & Hfi & Hse & Heof & Hcount & Hpos).
  rewrite (fresh_run fuel input) by done.
  destruct (read_byte_record_impl_spec fuel input _ s r Hat Heof) as
    [(e & s' & r' & E & He & Hss & Hx)|(x & s' & r' & E & Hpost0)]; [by rewrite Hpos|done|left|right].
  { exists e, s', r'. rewrite (st_bind_err _ _ _ _ _ E). split_and!; try done; [|by destruct Hx].
    destruct Hss as (Eh & _). by rewrite Eh. }
  pose proof (read_post_moved _ _ _ _ _ _ _ Hpost0) as Hmv. destruct Hpost0 as [Hss Hpost].
  assert (Hmv' : ∀ h, moved input (parse_all cfg input) s (set_rd_headers h (set_first s'))).
  { intros h. by apply moved_set_headers, moved_set_first. }
  assert (Hgo : ∀ ok fs, x = Ok ok → record_is r' fs → ∃ h, read_byte_record debug fuel (s, r) =
    (if has_headers s then
        let! result := st_result (read_byte_record_impl debug fuel) in
        let! _ := trim_record in
        st_from result
      else st_ret ok) (set_rd_headers h (set_first s'), r') ∧
    settled (set_rd_headers h (set_first s'))).
  { intros ok fs -> Hr. rewrite (fresh_run fuel input) by done. rewrite (st_bind_ok _ _ _ _ _ E).
    unfold on_reader. rewrite st_bind_set, st_bind_get. cbn [fst snd set_first rd_headers seeked].
    destruct Hss as (Eh & Ehh & _ & _ & _ & Es & _). rewrite Eh, Hh, Es, Hse. cbn [negb andb].
    rewrite st_bind_get. cbn [snd].
    destruct (set_headers_m_spec (set_first s') r' r' fs Hr) as (h & Eh' & _).
    rewrite (st_bind_ok _ _ _ _ _ Eh'), st_bind_get. exists h. cbn [fst set_rd_headers set_first has_headers].
    rewrite Ehh. split; [done|]. split; [by eexists|by right; left]. }
  rewrite <- (fresh_run fuel input) by done.
  pose proof Hss as (_ & _ & Efl & Etr & _).
  assert (Hkeep : ∀ h rest rows, at_row rest rows s' → at_row rest rows (set_rd_headers h (set_first s'))).
  { intros h rest rows (p & [B1 B2 B3 B4 B5 B6 B7 B8 B9] & Hp). by exists p. }
  destruct (parse_all cfg input) as [|row rows].
  - destruct Hpost as (-> & Heof' & Hr & Hbp & _). destruct (Hgo false [] eq_refl Hr) as (h & E' & Hs').
    eexists false, _, r'. split; [exact E'|]. by split_and!.
  - destruct Hpost as (Hr & Hbp & Heof' & Hrec' & (k & Hk & Hat' & _) & Hc). rewrite Hcount in Hc.
    assert (count_ok (rd_flexible s) None (length (fields_of row)) = true) as Hok.
    { unfold count_ok. by destruct (rd_flexible s). }
    rewrite Hok in Hc. destruct Hc as [-> Hn].
    destruct (Hgo true _ eq_refl Hr) as (h & E' & Hs').
    eexists true, _, r'. split; [exact E'|]. split_and!; try done.
    + change (eof s' = NotEof). congruence.
    + change (0 ≤ pos_record (cur_pos s'))%Z. rewrite Hrec', Hpos. done.
    + exists k. by apply Hkeep.
Qed.

(** The second read of the first call, when the first was the header row. *)
Lemma second_read fuel rest rows s r :
  at_row rest rows s → settled s → eof s = NotEof → (0 ≤ pos_record (cur_pos s))%Z → 3 * length rest + 8 < fuel →
  let m := (let! result := st_result (read_byte_record_impl debug fuel) in
    let! _ := trim_record in
    st_from result) in
  (∃ e s' r', m (s, r) = (Err (CE_Io e), (s', r')) ∧ read_fails e ∧ settled s' ∧ eof s' = IOError) ∨
  (∃ x s' r', m (s, r) = (x, (s', r')) ∧ row_post rest rows s x s' r').
Proof.
  intros Hat Hset Heof Hrec Hf m.
  assert (Hrun : ∀ y s' r' fs, read_byte_record_impl debug fuel (s, r) = (y, (s', r')) →
    record_is r' fs → (∃ b, y = Ok b) ∨ (∃ e, y = Err e) →
    ∃ r2, m (s, r) = (y, (s', r2)) ∧ record_is r2 (trimmed (rd_trim s') fs) ∧ br_pos r2 = br_pos r').
  { intros y s' r' fs E Hr Hy. destruct (trim_record_spec s' r' fs Hr) as (r2 & E2 & Hr2 & Hp2). exists r2.
    split; [|done]. subst m.
    assert (E1 : st_result (read_byte_record_impl debug fuel) (s, r)
      = (Ok (match y with Ok b => inr b | Err e => inl e | _ => inr false end), (s', r'))).
    { unfold st_result. rewrite E. by destruct Hy as [[b ->]|[e ->]]. }
    rewrite (st_bind_ok _ _ _ _ _ E1), (st_bind_ok _ _ _ _ _ E2). by destruct Hy as [[b ->]|[e ->]]. }
  destruct (read_byte_record_impl_spec fuel rest rows s r Hat Heof Hrec Hf)
    as [(e & s' & r' & E & He & Hss & Heof' & Hr')|(x & s' & r' & E & Hss & Hpost)].
  { left. destruct (Hrun _ _ _ _ E Hr') as (r2 & E2 & _); [right; by eexists|].
    exists e, s', r2. split_and!; try done. by eapply settled_same. }
  right. pose proof (settled_same _ _ Hss Hset) as Hset'. pose proof Hss as (_ & _ & Efl & Etr & _).
  destruct rows as [|row rows].
  - destruct Hpost as (-> & Heof' & Hr & _ & _).
    destruct (Hrun _ _ _ _ E Hr) as (r2 & E2 & Hr2 & _); [left; by eexists|].
    eexists _, s', r2. split; [exact E2|]. split_and!; try done.
    revert Hr2. unfold trimmed. by destruct (should_trim_fields _).
  - destruct Hpost as (Hr & Hp & Heof' & Hrec' & (k & Hk & Hat' & _) & Hc).
    assert (Hy : (∃ b, x = Ok b) ∨ (∃ e, x = Err e)).
    { destruct (count_ok _ _ _); [destruct Hc as [-> _]; left|destruct Hc as (m' & _ & -> & _); right]; by eexists. }
    destruct (Hrun _ _ _ _ E Hr Hy) as (r2 & E2 & Hr2 & Hp2). rewrite Etr in Hr2.
    exists x, s', r2. split; [exact E2|]. unfold row_post. cbn zeta. split_and!; try done; [lia|by exists k|].
    destruct (count_ok _ _ _).
    + destruct Hc as [-> Hn]. split_and!; try done. congruence.
    + destruct Hc as (m' & Hm & -> & Hn). exists m'. split_and!; try done. by eexists.
Qed.

(** Reading a whole file. *)
Lemma byte_records_fresh n fuel input s r :
  fresh input s → 3 * length input + 8 < fuel → length input + 3 ≤ n →
  ∃ xs, byte_records debug n fuel (s, r) = Ok xs ∧
    let rows := fields_of <$> parse_all cfg input in
    all_delivered xs (first_untrimmed (has_headers s) rows (documented_records (has_headers s) (rd_flexible s) (rd_trim s) rows)).
Proof.
  intros Hfr Hf Hn. pose proof (parse_all_bound input) as Hrows. destruct n as [|[|n]]; [lia..|].
  destruct (fresh_first fuel input s r Hfr Hf)
    as [(e & s' & r' & E & He & Hh & Heof)|(ok & s1 & r1 & E & Hset & Hfl & Htr & _ & _ & Hpost)].
  { eapply byte_records_fail; [exact E|done|by right|by rewrite Heof]. }
  destruct (parse_all cfg input) as [|row rows].
  - destruct Hpost as (-> & Heof & Hr1).
    assert (∃ st, read_byte_record debug fuel (s, r) = (Ok false, st)) as [st E'].
    { rewrite E. destruct (has_headers s); [|by eexists].
      destruct (read_byte_record_impl_eof fuel s1 r1) as (r2 & E2 & Hr2); [by rewrite Heof|].
      assert (E3 : st_result (read_byte_record_impl debug fuel) (s1, r1) = (Ok (inr false), (s1, r2)))
        by (unfold st_result; by rewrite E2).
      rewrite (st_bind_ok _ _ _ _ _ E3). destruct (trim_then s1 r2 false Hr2) as (r3 & E4). by eexists. }
    cbn [byte_records]. unfold next_byte_record. rewrite E'. eexists. split; [reflexivity|]. left. unfold documented_records. cbn. destruct (has_headers s); constructor.
  - destruct Hpost as (-> & Hr1 & Heof & Hrec & (k & Hat) & Hcount). cbn [length] in Hrows.
    cbv zeta. cbn [fmap list_fmap]. rewrite given_records_cons. cbv zeta. rewrite <- Hfl in Hcount |- *.
    rewrite <- Htr, <- list_fmap_compose, <- Hcount.
    assert (Hk : 3 * length (drop k input) + 8 < fuel) by (rewrite length_drop; lia).
    destruct (has_headers s).
    + destruct (second_read fuel (drop k input) rows s1 r1 Hat Hset Heof Hrec Hk)
        as [(e & s' & r' & E' & He & Hset' & Heof')|(x & s' & r' & E' & Hpost)]; rewrite E' in E.
      { eapply byte_records_fail; [exact E|done|by left|by rewrite Heof']. }
      eapply byte_records_step; [exact E|exact Hpost|]. intros r2 Hne.
      destruct rows as [|row' rows]; [done|].
      destruct Hpost as (Hset' & Hfl' & Htr' & Heof' & Hrec' & (k' & Hat') & _). cbn [tail].
      rewrite <- Hfl', <- Htr'. eapply byte_records_settled; try done; [congruence| |simpl in Hrows; lia].
      rewrite !length_drop in *. lia.
    + cbn [byte_records]. unfold next_byte_record. rewrite E. cbn [st_ret snd].
      destruct (clone_truncated_is (E := unit) r1 _ Hr1) as (r2 & -> & Hr2 & _). unfold res_map. cbn [res_bind].
      destruct (byte_records_settled (S n) fuel _ _ s1 r1 Hat Hset Heof Hrec Hk) as (xs & Exs & Hxs); [lia|].
      cbn [byte_records] in Exs. unfold next_byte_record, res_map in Exs. rewrite Exs. cbn [res_bind].
      eexists. split; [reflexivity|]. by apply all_delivered_cons.
Qed.

End reader_spec.

(** Rows that the check on the number of fields lets through are delivered. *)
Lemma deliveries_ok fl first rows : counts_ok fl first rows → deliveries fl first rows = inr <$> rows.
Proof.
  revert first. induction rows as [|fs rows IH]; intros first; [done|]. intros [Hc Hok].
  cbn [deliveries]. by rewrite Hc, IH.
Qed.

Lemma given_records_ok headers fl rows :
  counts_ok fl None rows →
  first_untrimmed headers rows (documented_records headers fl Trim_None rows) = inr <$> (if headers then tail rows else rows).
Proof.
  destruct rows as [|fs rows]; [by destruct headers|]. intros [_ Hok]. rewrite given_records_cons. cbv zeta.
  change (trimmed Trim_None <$> rows) with ((λ x, x) <$> rows). rewrite list_fmap_id, deliveries_ok by done.
  by destruct headers.
Qed.
