(* ===== verification/CsvSeek.v ===== *)
(** Seeking in csv's reader: where a seek to a byte puts the reader, and that it
    then reads the rows of the input from this byte on. *)
From Stdlib Require Import ZArith Lia Strings.Byte.
From stdpp Require Import base list numbers option sets.
From S2P Require Import Prelude.
From S2P Require Import StateMonad.
From S2P Require Import CsvNfa.
From S2P Require Import CsvDfa.
From S2P Require Import CsvReader.
From S2P Require Import CsvStream.
From S2P Require Import CsvRecord.
From S2P Require Import CsvFileWriter.
From S2P Require Import CsvFileReader.
From S2P Require Import CsvFileRows.
Open Scope rust_scope.

Section seek_spec.
Context {R IoError : Type} `{RO : ReadOk R IoError} (debug : bool) (cfg : CsvConfig).
#[local] Abbreviation state := (FileReader R).

(** The errors that the source reports for a seek. *)
Definition seek_fails (e : IoError) : Prop := ∃ n r, (io_seek n r).1 = Some e.

Lemma reset_reader_at p r :
  reader_at cfg p r → p_bytes p = [] →
  ∃ r', reset r = Ok r' ∧ reader_at cfg parser_start r' ∧ has_read r' = false.
Proof.
  intros [H1 H2 H3 H4 H5 H6 H7] Hb. unfold reset.
  rewrite (new_state_eq cfg) by (apply H3 || done). cbn [res_bind]. eexists. split; [reflexivity|].
  split; [|done]. split; try done. cbn. by rewrite H7, Hb.
Qed.

(** Bounds on a position, so that no counter wraps while the rest is read. *)
Definition pos_fits (pos : Position) (rest : list u8) : Prop :=
  (0 ≤ pos_byte pos ∧ pos_byte pos + Z.of_nat (length rest) < 2 ^ 64)%Z ∧
  (0 < pos_line pos ∧ pos_line pos + Z.of_nat (length rest) < 2 ^ 64)%Z ∧
  (0 ≤ pos_record pos ∧ pos_record pos + Z.of_nat (length rest) + 1 < 2 ^ 64)%Z.

Lemma seek_core_spec pos (b : BufReader R) (s : state) :
  resting cfg s → 0 < CsvFileReader.capacity b →
  let rest := unread b ++ content (inner b) in
  take 3 rest ≠ UTF8_BOM → pos_fits pos rest →
  ∃ s', seek_core (IoError := IoError) pos b s = Ok s' ∧ at_row cfg rest (parse_all cfg rest) s' ∧
    eof s' = NotEof ∧ cur_pos s' = pos ∧ rdr s' = b ∧ rd_headers s' = rd_headers s ∧ has_headers s' = has_headers s ∧
    first s' = first s ∧ seeked s' = seeked s ∧ rd_flexible s' = rd_flexible s ∧ rd_trim s' = rd_trim s ∧
    rd_first_field_count s' = rd_first_field_count s.
Proof.
  intros (_ & p & Hp & Hb) Hcap rest Hbom (Hby & Hl & Hrec). unfold seek_core.
  destruct (reset_reader_at p _ Hp Hb) as (c & -> & Hc & Hread). cbn [lift_unit res_bind].
  eexists. split; [reflexivity|]. split; [|done]. exists parser_start. split; [|done].
  pose proof (parse_all_bound cfg rest).
  split; cbn [rd_core set_eof set_cur_pos set_rd_core set_rdr rdr cur_pos pos_byte pos_record]; try done; try lia.
  - by destruct Hc as [? ? ? ? ? ? ?].
  - by right.
  - apply parse_all_rows.
Qed.

(** A seek of a reader that has its headers and is not in the middle of a record. *)
Lemma seek_spec fuel pos (s : state) :
  is_Some (rd_headers s) → resting cfg s → pos_byte pos ≠ pos_byte (cur_pos s) →
  let rest := drop (Z.to_nat (pos_byte pos)) (whole (inner (rdr s))) in
  take 3 rest ≠ UTF8_BOM → pos_fits pos rest →
  (∃ e s', seek debug fuel pos s = (Err (CE_Io e), s') ∧ seek_fails e) ∨
  (∃ s', seek (IoError := IoError) debug fuel pos s = (Ok tt, s') ∧ at_row cfg rest (parse_all cfg rest) s' ∧
    settled s' ∧ eof s' = NotEof ∧ cur_pos s' = pos ∧ seeked s' = true ∧
    whole (inner (rdr s')) = whole (inner (rdr s)) ∧
    rd_flexible s' = rd_flexible s ∧ rd_trim s' = rd_trim s ∧ rd_first_field_count s' = rd_first_field_count s).
Proof.
  intros [h Hh] Hrs Hne rest Hbom Hfit. unfold seek, byte_headers, read_headers. rewrite Hh, Hh.
  cbn [set_seeked cur_pos rdr]. rewrite bool_decide_false by done.
  destruct (io_seek (pos_byte pos) (inner (rdr s))) as [[e|] r'] eqn:E.
  { left. eexists e, _. split; [reflexivity|]. exists (pos_byte pos), (inner (rdr s)). by rewrite E. }
  right. apply io_seek_content in E as [Hc Hw].
  destruct (seek_core_spec pos (mkBufReader [] (CsvFileReader.capacity (rdr s)) r') (set_seeked s))
    as (s' & E & Hat & Heof & Hpos & Hrdr & Hhd & Hhh & Hfi & Hse & Hfl & Htr & Hct).
  - destruct Hrs as (Hcap & p & Hp & Hb). split; [done|]. by exists p.
  - apply Hrs.
  - cbn. by rewrite Hc.
  - cbn. by rewrite Hc.
  - cbn [unread inner app] in Hat. rewrite Hc in Hat. exists s'. rewrite E.
    assert (settled s') as Hset by (split; [by rewrite Hhd; eexists|right; right; by rewrite Hse]).
    split_and!; try done. by rewrite Hrdr.
Qed.

End seek_spec.
