(* ===== verification/CsvIndex.v ===== *)
(** csv-index ([csv-index/src/simple.rs]): an index of the positions of the
    records of a CSV file, and what it finds. *)
From Stdlib Require Import ZArith Lia Strings.Byte.
From stdpp Require Import base list numbers option sets.
From S2P Require Import Prelude.
From S2P Require Import StateMonad.
From S2P Require Import CsvNfa.
From S2P Require Import CsvDfa.
From S2P Require Import CsvReader.
From S2P Require Import CsvStream.
From S2P Require Import CsvRecord.
From S2P Require Import CsvFileWriter.
From S2P Require Import CsvFileReader.
From S2P Require Import CsvFileRows.
From S2P Require Import CsvSeek.
Open Scope rust_scope.

(** The crate byteorder: an unsigned integer of 64 bits as eight bytes. *)
Class ByteOrder : Type := { put_u64 : Z → list u8; get_u64 : list u8 → Z }.

Class ByteOrderOk (B : ByteOrder) : Prop := {
  length_put_u64 z : length (put_u64 z) = 8;
  get_put_u64 z : (0 ≤ z < 2 ^ 64)%Z → get_u64 (put_u64 z) = z
}.

(** The errors of [std::io] that the code makes itself: the end of the input in
    [read_exact], and [io::Error::new] for an index [i] out of [len] records. *)
Class IndexErrors (IoError : Type) : Type := {
  unexpected_eof : IoError;
  invalid_index : Z → Z → IoError
}.

(** [seek(SeekFrom::End(n))]. *)
Class SeekEnd (R IoError : Type) : Type := io_seek_end : Z → R → option IoError * R.

Class SeekEndOk R IoError `{Read R IoError} (S : SeekEnd R IoError) : Prop :=
  io_seek_end_content n r r' : io_seek_end n r = (None, r') →
    (0 ≤ Z.of_nat (length (whole r)) + n)%Z ∧
    content r' = drop (Z.to_nat (Z.of_nat (length (whole r)) + n)) (whole r) ∧ whole r' = whole r.

Record RandomAccessSimple (R : Type) : Type := mkIndex { idx_rdr : R; idx_len : Z }.
Arguments mkIndex {R} _ _.
Arguments idx_rdr {R} _.
Arguments idx_len {R} _.

(** An addition and a multiplication of [u64], checked in debug builds. *)
Definition checked_u64 {E} (debug : bool) (z : Z) : res E Z :=
  if bool_decide (z < 2 ^ 64)%Z then Ok z else if debug then Panic else Ok (z `mod` 2 ^ 64)%Z.

Section index.
Context {R W IoError : Type} `{Read R IoError} `{Write W IoError} `{ByteOrder} `{IndexErrors IoError}.
Context (debug : bool).

(** ** Creating an index *)

#[local] Abbreviation method := (method (FileReader R * ByteRecord * W) (CsvError IoError)).

Definition on_csv {A} (m : StateMonad.method (FileReader R * ByteRecord) (CsvError IoError) A) : method A := λ s,
  let '(x, s') := m s.1 in (x, (s', s.2)).

Definition on_csv_reader {A} (m : FileReader R → res (CsvError IoError) A * FileReader R) : method A := λ s,
  let '(x, s') := m s.1.1 in (x, (s', s.1.2, s.2)).

(** [wtr.write_u64::<BigEndian>(z)?]. *)
Definition write_u64 (z : Z) : method unit := λ s,
  match write_all (put_u64 z) s.2 with
  | (Some e, w) => (Err (CE_Io e), (s.1, w))
  | (None, w) => (Ok tt, (s.1, w))
  end.

(** [position().expect(..)]. *)
Definition expect_position (r : ByteRecord) : res (CsvError IoError) Position :=
  match br_pos r with Some p => Ok p | None => Panic end.

(** The [while] loop of [create], in at most [n] rounds. *)
Fixpoint create_loop (n fuel : nat) (len : Z) : method Z :=
  match n with
  | O => λ s, (NoFuel, s)
  | S n =>
      let! ok := on_csv (read_byte_record debug fuel) in
      if ok then
        let! pos := st_try (λ s, expect_position s.1.2) in
        let! _ := write_u64 (pos_byte pos) in
        let! len := st_try (λ _, checked_u64 debug (len + 1)) in
        create_loop n fuel len
      else st_ret len
  end.

Definition create_run (n fuel : nat) : method unit :=
  let! hh := st_get (λ s, has_headers s.1.1) in
  let! len :=
    if hh then
      let! header := on_csv_reader (byte_headers debug fuel) in
      if negb (br_is_empty header) then
        let! pos := st_try (λ _, expect_position header) in
        let! _ := write_u64 (pos_byte pos) in
        st_ret 1%Z
      else st_ret 0%Z
    else st_ret 0%Z in
  let! len := create_loop n fuel len in
  write_u64 len.

Definition create (n fuel : nat) (rdr : FileReader R) (wtr : W)
    : res (CsvError IoError) unit * (FileReader R * W) :=
  let '(x, s) := create_run n fuel (rdr, ByteRecord_new, wtr) in (x, (s.1.1, s.2)).

(** ** Reading an index *)

(** [read_exact], in at most [fuel] reads. *)
Fixpoint read_exact (fuel n : nat) (r : R) : res IoError (list u8) * R :=
  match n with
  | O => (Ok [], r)
  | _ =>
      match fuel with
      | O => (NoFuel, r)
      | S fuel =>
          match io_read n r with
          | (inl e, r') => (Err e, r')
          | (inr [], r') => (Err unexpected_eof, r')
          | (inr data, r') =>
              let '(x, r'') := read_exact fuel (n - length data) r' in
              (let? rest := x in Ok (data ++ rest), r'')
          end
      end
  end.

(** [rdr.read_u64::<BigEndian>()?]. *)
Definition read_u64 (r : R) : res (CsvError IoError) Z * R :=
  match read_exact 8 8 r with
  | (Ok bytes, r') => (Ok (get_u64 bytes), r')
  | (Err e, r') => (Err (CE_Io e), r')
  | (Panic, r') => (Panic, r')
  | (NoFuel, r') => (NoFuel, r')
  end.

Definition index_open `{SeekEnd R IoError} (rdr : R) : res (CsvError IoError) (RandomAccessSimple R) :=
  match io_seek_end (-8) rdr with
  | (Some e, _) => Err (CE_Io e)
  | (None, r) => let '(x, r) := read_u64 r in let? len := x in Ok (mkIndex r len)
  end.

Definition index_get (i : Z) (idx : RandomAccessSimple R)
    : res (CsvError IoError) Position * RandomAccessSimple R :=
  if bool_decide (idx_len idx ≤ i)%Z then (Err (CE_Io (invalid_index i (idx_len idx))), idx)
  else
    match checked_u64 debug (i * 8) with
    | Ok at_ =>
        match io_seek at_ (idx_rdr idx) with
        | (Some e, r) => (Err (CE_Io e), mkIndex r (idx_len idx))
        | (None, r) =>
            let '(x, r) := read_u64 r in
            (let? offset := x in Ok (set_record (set_byte Position_new offset) i), mkIndex r (idx_len idx))
        end
    | Err e => (Err e, idx)
    | Panic => (Panic, idx)
    | NoFuel => (NoFuel, idx)
    end.

Definition index_len (idx : RandomAccessSimple R) : Z := idx_len idx.
Definition index_is_empty (idx : RandomAccessSimple R) : bool := (index_len idx =? 0)%Z.

End index.

(** * What the index holds *)

(** A reader that has read all of [input] and has its headers. *)
Record finished {R} `{Read R IoError} (cfg : CsvConfig) (input : list u8) (rows : list csv_row) (s : FileReader R) : Prop := {
  fin_headers : is_Some (rd_headers s);
  fin_resting : resting cfg s;
  fin_whole : whole (inner (rdr s)) = input;
  fin_byte : pos_byte (cur_pos s) = Z.of_nat (length input);
  fin_counts : Forall (λ row, rd_flexible s = true ∨ rd_first_field_count s = Some (length (fields_of row))) rows
}.

(** [ps] are bytes of the input from which on it has the rows [rows], [tail rows]
    and so on. *)
Fixpoint starts (cfg : CsvConfig) (input : list u8) (rows : list csv_row) (ps : list Z) : Prop :=
  match rows, ps with
  | [], [] => True
  | _ :: rows', z :: ps =>
      (∃ k, z = Z.of_nat k ∧ k ≤ length input ∧ parse_all cfg (drop k input) = rows) ∧
      starts cfg input rows' ps
  | _, _ => False
  end.

Lemma starts_lookup cfg input rows ps i z :
  starts cfg input rows ps → ps !! i = Some z →
  ∃ k, z = Z.of_nat k ∧ k ≤ length input ∧ parse_all cfg (drop k input) = drop i rows ∧ i < length rows.
Proof.
  revert ps i. induction rows as [|row rows IH]; intros [|p ps] i Hs Hi; try done.
  destruct Hs as [(k & Hk & Hle & Hp) Hs]. destruct i as [|i].
  - injection Hi as <-. exists k. split_and!; try done. simpl. lia.
  - destruct (IH ps i Hs Hi) as (k' & ? & ? & ? & ?). exists k'. split_and!; try done. simpl. lia.
Qed.

Lemma starts_length cfg input rows ps : starts cfg input rows ps → length ps = length rows.
Proof.
  revert ps. induction rows as [|row rows IH]; intros [|p ps] Hs; try done. simpl. f_equal. apply IH, Hs.
Qed.

Section create_spec.
Context {R W IoError : Type} `{RO : ReadOk R IoError} `{WO : WriteOk W IoError} `{BO : ByteOrderOk} `{IndexErrors IoError}.
Context (debug : bool) (cfg : CsvConfig) (input : list u8) (flexible : bool).
#[local] Abbreviation method := (method (FileReader R * ByteRecord * W) (CsvError IoError)).

(** A method succeeds, or an input or output error comes back, or, if the reader is
    not flexible, a row with another number of fields than the first. *)
Definition succeeds {A} (x : res (CsvError IoError) A * (FileReader R * ByteRecord * W))
    (Q : A → FileReader R → W → Prop) : Prop :=
  match x with
  | (Ok a, ((s, _), w)) => Q a s w
  | (Err (CE_Io _), _) => True
  | (Err (CE_UnequalLengths _ _ _), _) => flexible = false
  | _ => False
  end.

Lemma succeeds_weaken {A} x (Q Q' : A → FileReader R → W → Prop) :
  succeeds x Q → (∀ a s w, Q a s w → Q' a s w) → succeeds x Q'.
Proof. destruct x as [[a|[]| |] [[s r] w]]; cbn; auto. Qed.

Lemma write_u64_succeeds {A} z s r w (f : unit → method A) Q :
  (∀ w', written w' = written w ++ put_u64 z → succeeds (f tt (s, r, w')) Q) →
  succeeds (st_bind (write_u64 (IoError := IoError) z) f (s, r, w)) Q.
Proof.
  intros Hf. unfold st_bind, write_u64. cbn [fst snd].
  destruct (write_all (put_u64 z) w) as [[e|] w'] eqn:E; [done|].
  apply Hf. by apply write_all_written in E.
Qed.

Lemma on_csv_ok {A} (m : StateMonad.method (FileReader R * ByteRecord) (CsvError IoError) A) s r w x s' r' :
  m (s, r) = (x, (s', r')) → on_csv (W := W) m (s, r, w) = (x, (s', r', w)).
Proof. intros E. unfold on_csv. cbn [fst snd]. by rewrite E. Qed.

(** At the end of the input there is nothing left to index. *)
Lemma create_loop_end n fuel len s r w rows :
  finished cfg input rows s → has_headers s = true ∨ first s = true ∨ seeked s = true → eof s ≠ NotEof →
  succeeds (create_loop debug (S n) fuel len (s, r, w)) (λ len' s' w',
    len' = len ∧ w' = w ∧ finished cfg input rows s' ∧ rd_flexible s' = rd_flexible s ∧ rd_trim s' = rd_trim s).
Proof.
  intros Hfin Hset Heof. pose proof Hfin as [Hh Hr Hw Hb Hc].
  destruct (read_byte_record_impl_eof (IoError := IoError) debug fuel s r Heof) as (r1 & E1 & Hr1).
  destruct (trim_then (IoError := IoError) (set_first s) r1 false Hr1) as (r2 & E2).
  assert (E : read_byte_record debug fuel (s, r) = (Ok false, (set_first s, r2))).
  { rewrite settled_run by (by split). rewrite (st_bind_ok _ _ _ _ _ E1). unfold on_reader.
    rewrite st_bind_set, st_bind_get. cbn [fst snd set_first rd_headers seeked].
    destruct Hh as [h Hh]. by rewrite Hh, andb_false_r. }
  cbn [create_loop]. rewrite (st_bind_ok _ _ _ _ _ (on_csv_ok _ _ _ _ _ _ _ E)). cbn [st_ret succeeds].
  by split_and!.
Qed.

(** What a row adds. *)
Definition counted (fl : bool) (first : option nat) (rows : list csv_row) : Prop :=
  Forall (λ row, fl = true ∨ first = Some (length (fields_of row))) rows.

Lemma counted_snoc fl first rows row :
  counted fl first rows → count_ok fl first (length (fields_of row)) = true →
  counted fl (next_first fl first (length (fields_of row))) (rows ++ [row]).
Proof.
  unfold counted, count_ok, next_first. intros Hr Hc. destruct fl.
  { apply list.Forall_true. by left. }
  destruct first as [m|]; cbn in Hc.
  - apply bool_decide_eq_true in Hc as ->. apply Forall_app. split; [done|]. constructor; [by right|constructor].
  - destruct rows as [|row' rows]; [constructor; [by right|constructor]|].
    apply list.Forall_cons in Hr as [[Hr|Hr] _]; done.
Qed.

Lemma create_loop_spec rows k done n fuel s r w len :
  rd_flexible s = flexible →
  at_row cfg (drop k input) rows s → settled s → eof s = NotEof → (0 ≤ pos_record (cur_pos s))%Z →
  k ≤ length input → pos_byte (cur_pos s) = Z.of_nat k → whole (inner (rdr s)) = input →
  counted (rd_flexible s) (rd_first_field_count s) done →
  3 * length input + 8 < fuel → length rows < n → (0 ≤ len ∧ len + Z.of_nat (length rows) < 2 ^ 64)%Z →
  succeeds (create_loop debug n fuel len (s, r, w)) (λ len' s' w',
    len' = (len + Z.of_nat (length rows))%Z ∧
    (∃ ps, starts cfg input rows ps ∧ written w' = written w ++ concat (put_u64 <$> ps)) ∧
    finished cfg input (done ++ rows) s' ∧ rd_flexible s' = rd_flexible s ∧ rd_trim s' = rd_trim s).
Proof.
  revert k done n s r w len. induction rows as [|row rows IH]; intros k done n s r w len Hflex Hat Hset Heof Hrec Hk Hpos Hw Hdone Hf Hn Hlen;
    (destruct n as [|n]; [simpl in Hn; lia|]); cbn [create_loop];
    (destruct (read_byte_record_settled debug cfg fuel (drop k input) _ s r Hat Hset Heof Hrec)
      as [(e & s' & r' & E & He & _)|(x & s' & r' & E & Hpost & Hmv)]; [rewrite length_drop; lia| |]).
  1, 3: by rewrite (st_bind_err _ _ _ _ _ (on_csv_ok _ _ _ _ _ _ _ E)).
  - destruct Hpost as (Hset' & Hfl & Htr & -> & Heof' & Hr').
    destruct Hmv as (Hw' & Hse & Hrs & Hb & Hffc). rewrite length_drop in Hb.
    rewrite (st_bind_ok _ _ _ _ _ (on_csv_ok _ _ _ _ _ _ _ E)). cbn [st_ret succeeds length]. split_and!; try done.
    + lia.
    + exists []. by rewrite app_nil_r.
    + rewrite app_nil_r. split; [apply Hset'|done|congruence|lia|]. by rewrite Hfl, Hffc.
  - destruct Hpost as (Hset' & Hfl & Htr & Heof' & Hrec' & _ & Hx).
    destruct Hmv as (Hw' & Hse & k' & Hk' & Hat' & Hb). rewrite length_drop in Hk'.
    destruct (count_ok _ _ _) eqn:Hcount.
    2: { destruct Hx as (m & _ & _ & -> & _). rewrite (st_bind_err _ _ _ _ _ (on_csv_ok _ _ _ _ _ _ _ E)).
      cbn. rewrite <- Hflex. unfold count_ok in Hcount. by destruct (rd_flexible s). }
    destruct Hx as (-> & Hr' & Hbp & Hffc). rewrite (st_bind_ok _ _ _ _ _ (on_csv_ok _ _ _ _ _ _ _ E)).
    assert (Hex : expect_position (IoError := IoError) r' = Ok (cur_pos s)) by (unfold expect_position; by rewrite Hbp).
    rewrite (st_bind_try (λ s : FileReader R * ByteRecord * W, expect_position s.1.2) _ (s', r', w) _ Hex).
    apply write_u64_succeeds. intros w1 Hw1. cbn [length] in Hn, Hlen.
    assert (Hch : checked_u64 (E := CsvError IoError) debug (len + 1) = Ok (len + 1)%Z).
    { unfold checked_u64. by rewrite bool_decide_true by lia. }
    rewrite (st_bind_try (λ _, checked_u64 debug (len + 1)) _ _ _ Hch).
    rewrite drop_drop in Hat'.
    eapply succeeds_weaken; [apply (IH (k + k') (done ++ [row])); try done; try lia|].
    + congruence.
    + congruence.
    + congruence.
    + rewrite Hfl, Hffc. by apply counted_snoc.
    + intros len' s2 w2 (-> & (ps & Hps & Hw2) & Hfin & Hfl2 & Htr2).
      split_and!; [simpl; lia| | |congruence|congruence].
      * exists (pos_byte (cur_pos s) :: ps). split.
        -- split; [|done]. exists k. split_and!; try done. symmetry. by eapply at_row_rows.
        -- rewrite Hw2, Hw1. cbn [fmap list_fmap concat]. by rewrite <- app_assoc.
      * by rewrite <- app_assoc in Hfin.
Qed.

(** One turn of the loop after a row was read. *)
Lemma create_loop_row n fuel s r w len s' r' pos Q :
  read_byte_record debug fuel (s, r) = (Ok true, (s', r')) → br_pos r' = Some pos → (len + 1 < 2 ^ 64)%Z →
  (∀ w', written w' = written w ++ put_u64 (pos_byte pos) →
    succeeds (create_loop debug n fuel (len + 1) (s', r', w')) Q) →
  succeeds (create_loop debug (S n) fuel len (s, r, w)) Q.
Proof.
  intros E Hbp Hlen Hgo. cbn [create_loop]. rewrite (st_bind_ok _ _ _ _ _ (on_csv_ok _ _ _ _ _ _ _ E)).
  assert (Hex : expect_position (IoError := IoError) r' = Ok pos) by (unfold expect_position; by rewrite Hbp).
  rewrite (st_bind_try (λ s : FileReader R * ByteRecord * W, expect_position s.1.2) _ (s', r', w) _ Hex).
  apply write_u64_succeeds. intros w1 Hw1.
  assert (Hch : checked_u64 (E := CsvError IoError) debug (len + 1) = Ok (len + 1)%Z).
  { unfold checked_u64. by rewrite bool_decide_true by lia. }
  rewrite (st_bind_try (λ _, checked_u64 debug (len + 1)) _ _ _ Hch). by apply Hgo.
Qed.

(** [byte_headers] of a new reader. *)
Lemma byte_headers_fresh fuel s :
  fresh cfg input s → 3 * length input + 8 < fuel →
  (∃ e s', byte_headers (IoError := IoError) debug fuel s = (Err (CE_Io e), s')) ∨
  (∃ h s', byte_headers (IoError := IoError) debug fuel s = (Ok h, s') ∧ br_pos h = Some Position_new ∧
    is_Some (rd_headers s') ∧ has_headers s' = has_headers s ∧ rd_flexible s' = rd_flexible s ∧ rd_trim s' = rd_trim s ∧
    moved cfg input (parse_all cfg input) s s' ∧ br_length h = length (default [] (fields_of <$> head (parse_all cfg input))) ∧
    match parse_all cfg input with
    | [] => eof s' = Eof
    | row :: _ => eof s' = NotEof ∧ (0 ≤ pos_record (cur_pos s'))%Z ∧
        rd_first_field_count s' = next_first (rd_flexible s) None (length (fields_of row))
    end).
Proof.
  intros (Hat & Hh & Hfi & Hse & Heof & Hcount & Hpos) Hf. unfold byte_headers, read_headers. rewrite Hh.
  destruct (read_byte_record_impl_spec debug cfg fuel input _ s ByteRecord_new Hat Heof)
    as [(e & s' & r' & E & _)|(x & s' & r' & E & Hpost)]; [by rewrite Hpos|done|left|right].
  { eexists e, s'. by rewrite (st_bind_err _ _ _ _ _ E). }
  pose proof (read_post_moved _ _ _ _ _ _ _ _ Hpost) as Hmv.
  destruct Hpost as [(Eh & Ehh & Efl & Etr & _) Hpost].
  assert (Hgo : ∀ ok fs, x = Ok ok → record_is r' fs → br_pos r' = Some Position_new → ∃ h,
    byte_headers (IoError := IoError) debug fuel s = (Ok (byte_record h), set_rd_headers h s') ∧
    br_length (byte_record h) = length fs ∧ br_pos (byte_record h) = Some Position_new).
  { intros ok fs -> Hr Hbp. destruct (set_headers_m_spec (IoError := IoError) s' r' r' fs Hr) as (h & Es & Hrh & Hph).
    exists h. unfold byte_headers, read_headers. rewrite Hh, (st_bind_ok _ _ _ _ _ E), st_bind_get. cbn [snd].
    rewrite Es. cbn [fst rd_headers set_rd_headers]. split; [done|]. split; [|congruence].
    destruct Hrh as (-> & _). by destruct (should_trim_headers _); rewrite ?length_fmap. }
  unfold byte_headers, read_headers in Hgo. rewrite Hh in Hgo. rewrite Hpos in Hpost.
  destruct (parse_all cfg input) as [|row rows].
  - destruct Hpost as (-> & Heof' & Hr & Hbp & _). destruct (Hgo false [] eq_refl Hr Hbp) as (h & E' & Hl & Hp').
    exists (byte_record h), (set_rd_headers h s'). split; [exact E'|]. by split_and!.
  - destruct Hpost as (Hr & Hbp & Heof' & Hrec' & _ & Hc). rewrite Hcount in Hc.
    assert (count_ok (rd_flexible s) None (length (fields_of row)) = true) as Hok.
    { unfold count_ok. by destruct (rd_flexible s). }
    rewrite Hok in Hc. destruct Hc as [-> Hn]. destruct (Hgo true _ eq_refl Hr Hbp) as (h & E' & Hl & Hp').
    exists (byte_record h), (set_rd_headers h s'). split; [exact E'|]. cbn [rd_headers set_rd_headers].
    split_and!; try done.
    + by apply moved_set_headers.
    + change (eof s' = NotEof). congruence.
    + change (0 ≤ pos_record (cur_pos s'))%Z. by rewrite Hrec'.
Qed.

(** A whole index. *)
Definition indexed (s : FileReader R) (w : W) (s' : FileReader R) (w' : W) : Prop :=
  let rows := parse_all cfg input in
  (∃ ps, starts cfg input rows ps ∧
    written w' = written w ++ concat (put_u64 <$> ps) ++ put_u64 (Z.of_nat (length rows))) ∧
  finished cfg input rows s' ∧ rd_flexible s' = rd_flexible s ∧ rd_trim s' = rd_trim s.

Lemma succeeds_bind {A A'} (m : method A) (f : A → method A') x Q Q' :
  succeeds (m x) Q → (∀ a s' r' w', Q a s' w' → succeeds (f a (s', r', w')) Q') → succeeds (st_bind m f x) Q'.
Proof.
  unfold st_bind. destruct (m x) as [[a|e| |] [[s' r'] w']]; cbn; auto.
Qed.

(** The rows have been indexed up to the last; what the loop returns is their number. *)
Definition looped (s : FileReader R) (w : W) (len : Z) (s' : FileReader R) (w' : W) : Prop :=
  let rows := parse_all cfg input in
  len = Z.of_nat (length rows) ∧
  (∃ ps, starts cfg input rows ps ∧ written w' = written w ++ concat (put_u64 <$> ps)) ∧
  finished cfg input rows s' ∧ rd_flexible s' = rd_flexible s ∧ rd_trim s' = rd_trim s.

Lemma looped_indexed s w len s' r' w' :
  looped s w len s' w' → succeeds (write_u64 len (s', r', w')) (λ _ s' w', indexed s w s' w').
Proof.
  intros (-> & (ps & Hps & Hw) & Hfin). unfold write_u64. cbn [fst snd].
  destruct (write_all _ w') as [[e|] w2] eqn:E; [done|]. apply write_all_written in E. cbn.
  split; [|done]. exists ps. split; [done|]. by rewrite E, Hw, <- app_assoc.
Qed.

(** The loop after the first row. *)
Lemma loop_after_first n fuel s w s1 r1 w1 row rows :
  rd_flexible s = flexible →
  parse_all cfg input = row :: rows → moved cfg input (row :: rows) s s1 → cur_pos s = Position_new →
  whole (inner (rdr s)) = input → settled s1 → eof s1 = NotEof → (0 ≤ pos_record (cur_pos s1))%Z →
  rd_flexible s1 = rd_flexible s → rd_trim s1 = rd_trim s →
  rd_first_field_count s1 = next_first (rd_flexible s) None (length (fields_of row)) →
  written w1 = written w ++ put_u64 0 →
  (Z.of_nat (length input) + 2 < 2 ^ 64)%Z → 3 * length input + 8 < fuel → length rows < n →
  succeeds (create_loop debug n fuel 1 (s1, r1, w1)) (looped s w).
Proof.
  intros Hflex Hrows (Hw' & _ & k & Hk & Hat & Hb) Hpos Hw Hset Heof Hrec Hfl Htr Hffc Hw1 Hlen Hf Hn.
  pose proof (parse_all_bound cfg input) as Hbound. rewrite Hrows in Hbound. cbn [length] in Hbound.
  rewrite Hpos in Hb. cbn in Hb.
  eapply succeeds_weaken; [apply (create_loop_spec rows k [row]); try done; try lia|].
  - congruence.
  - congruence.
  - rewrite Hfl, Hffc. apply (counted_snoc _ None []); [constructor|]. unfold count_ok. by destruct (rd_flexible s).
  - intros len' s' w' (-> & (ps & Hps & Hw2) & Hfin & Hfl' & Htr'). unfold looped. rewrite Hrows.
    split_and!; [simpl; lia| |done|congruence|congruence].
    exists (0%Z :: ps). split.
    + split; [|done]. exists 0. rewrite drop_0. split_and!; [done|lia|done].
    + rewrite Hw2, Hw1. cbn [fmap list_fmap concat]. by rewrite <- app_assoc.
Qed.

Lemma finished_empty s s1 :
  parse_all cfg input = [] → moved cfg input [] s s1 → cur_pos s = Position_new → whole (inner (rdr s)) = input →
  is_Some (rd_headers s1) → finished cfg input [] s1.
Proof.
  intros Hrows (Hw' & _ & Hrs & Hb & _) Hpos Hw Hh. rewrite Hpos in Hb.
  split; [done|done|congruence|done|constructor].
Qed.

(** The header row of [create]. *)
Lemma create_header n fuel s w :
  rd_flexible s = flexible →
  fresh cfg input s → whole (inner (rdr s)) = input → (Z.of_nat (length input) + 2 < 2 ^ 64)%Z →
  3 * length input + 8 < fuel → length input + 2 ≤ n → has_headers s = true →
  succeeds ((let! header := on_csv_reader (byte_headers debug fuel) in
    if negb (br_is_empty header) then
      let! pos := st_try (λ _, expect_position header) in
      let! _ := write_u64 (pos_byte pos) in
      st_ret 1%Z
    else st_ret 0%Z) (s, ByteRecord_new, w))
    (λ len s1 w1, ∀ r1, succeeds (create_loop debug (S n) fuel len (s1, r1, w1)) (looped s w)).
Proof.
  intros Hflex Hfr Hw Hlen Hf Hn Ehh. pose proof Hfr as (_ & Hh & _ & _ & _ & _ & Hpos).
  pose proof (parse_all_bound cfg input) as Hbound.
  destruct (byte_headers_fresh fuel s Hfr Hf) as [(e & s1 & E)|(h & s1 & E & Hph & Hh1 & Ehh1 & Hfl & Htr & Hmv & Hlh & Hpost)].
  { unfold st_bind, on_csv_reader. cbn [fst snd]. by rewrite E. }
  assert (E' : on_csv_reader (byte_headers debug fuel) (s, ByteRecord_new, w) = (Ok h, (s1, ByteRecord_new, w))).
  { unfold on_csv_reader. cbn [fst snd]. by rewrite E. }
  rewrite (st_bind_ok _ _ _ _ _ E'). unfold br_is_empty. rewrite Hlh.
  destruct (parse_all cfg input) as [|row rows] eqn:Hrows.
  - cbn [head fmap option_fmap option_map default negb st_ret succeeds]. intros r1. eapply succeeds_weaken.
    + eapply (create_loop_end n fuel 0 s1 r1 w []); [by eapply finished_empty|left; congruence|by rewrite Hpost].
    + intros len s' w' (-> & -> & Hfin & Hfl' & Htr'). unfold looped. rewrite Hrows.
      split_and!; [done| |done|congruence|congruence]. exists []. by rewrite app_nil_r.
  - cbn [head fmap option_fmap option_map default].
    assert (length (fields_of row) ≠ 0) as Hne.
    { rewrite length_fields_of. pose proof (parse_all_nonempty cfg input) as Hall. rewrite Hrows in Hall.
      apply list.Forall_cons in Hall as [Hr _]. by destruct row.2. }
    rewrite bool_decide_false by done. cbn [negb].
    assert (Hex : expect_position (IoError := IoError) h = Ok Position_new) by (unfold expect_position; by rewrite Hph).
    rewrite (st_bind_try (λ _, expect_position h) _ (s1, ByteRecord_new, w) _ Hex).
    apply write_u64_succeeds. intros w1 Hw1. cbn [st_ret succeeds]. intros r1.
    destruct Hpost as (Heof & Hrec & Hffc). cbn [length] in Hbound.
    eapply loop_after_first; try done; [split; [done|left; congruence]|lia].
Qed.

Lemma create_run_spec n fuel s w :
  rd_flexible s = flexible →
  fresh cfg input s → whole (inner (rdr s)) = input → (Z.of_nat (length input) + 2 < 2 ^ 64)%Z →
  3 * length input + 8 < fuel → length input + 3 ≤ n →
  succeeds (create_run debug n fuel (s, ByteRecord_new, w)) (λ _ s' w', indexed s w s' w').
Proof.
  intros Hflex Hfr Hw Hlen Hf Hn. destruct n as [|n]; [lia|]. unfold create_run. rewrite st_bind_get. cbn [fst snd].
  apply succeeds_bind with (λ len s1 w1, ∀ r1, succeeds (create_loop debug (S n) fuel len (s1, r1, w1)) (looped s w)).
  2: { intros len s1 r1 w1 Hl. eapply succeeds_bind; [apply Hl|]. intros len' s' r' w' Hl'. by apply looped_indexed. }
  destruct (has_headers s) eqn:Ehh; [apply create_header; (done || lia)|]. cbn [st_ret succeeds]. intros r1.
  pose proof Hfr as (_ & Hh & _ & _ & _ & _ & Hpos). pose proof (parse_all_bound cfg input) as Hbound.
  destruct (fresh_first debug cfg fuel input s r1 Hfr Hf)
    as [(e & s1 & r2 & E & _)|(ok & s1 & r2 & E & Hset & Hfl & Htr & Hmv & Hbp & Hpost)].
  { cbn [create_loop]. by rewrite (st_bind_err _ _ _ _ _ (on_csv_ok _ _ _ _ _ _ _ E)). }
  rewrite Ehh in E. cbn [st_ret] in E. destruct (parse_all cfg input) as [|row rows] eqn:Hrows.
  - destruct Hpost as (-> & Heof & _). cbn [create_loop].
    rewrite (st_bind_ok _ _ _ _ _ (on_csv_ok _ _ _ _ _ _ _ E)). cbn [st_ret succeeds]. unfold looped. rewrite Hrows.
    split_and!; try done; [exists []; by rewrite app_nil_r|]. eapply finished_empty; try done. apply Hset.
  - destruct Hpost as (-> & _ & Heof & Hrec & _ & Hffc).
    eapply create_loop_row; [exact E|exact Hbp|lia|]. intros w1 Hw1. rewrite Hpos in Hw1. cbn [length] in Hbound.
    eapply loop_after_first; try done. lia.
Qed.

End create_spec.

(** * What the index finds *)

Section find_spec.
Context {R IoError : Type} `{RO : ReadOk R IoError} {S0 : SeekEnd R IoError} {SO : SeekEndOk R IoError S0} `{BO : ByteOrderOk} `{IndexErrors IoError}.

Lemma read_exact_spec fuel n r :
  n ≤ fuel → n ≤ length (content r) →
  match read_exact fuel n r with
  | (Ok data, r') => data = take n (content r) ∧ whole r' = whole r
  | (Err _, r') => whole r' = whole r
  | _ => False
  end.
Proof.
  revert n r. induction fuel as [|fuel IH]; intros [|n] r Hf Hn; try done; [lia|]. cbn [read_exact].
  pose proof (io_read_whole (S n) r) as Hw. destruct (io_read (S n) r) as [[e|data] r'] eqn:E; cbn in Hw; [done|].
  apply io_read_data in E as (Hl & Hc & Hnil). destruct data as [|b data].
  { destruct (Hnil eq_refl) as [|Hz]; [done|]. by rewrite Hz in Hn. }
  set (l := b :: data) in *. rewrite Hc, length_app in Hn.
  specialize (IH (S n - length l) r'). destruct (read_exact fuel (S n - length l) r') as [x r2].
  assert (1 ≤ length l) by (simpl; lia). specialize (IH ltac:(lia) ltac:(lia)).
  destruct x as [rest|e| |]; cbn [res_bind]; [|congruence|done|done].
  destruct IH as [-> Hw2]. split; [|congruence]. rewrite Hc, take_app. by rewrite (take_ge l) by lia.
Qed.

Lemma read_u64_spec r z pre suf :
  content r = put_u64 z ++ suf → whole r = pre → (0 ≤ z < 2 ^ 64)%Z →
  match read_u64 (IoError := IoError) r with
  | (Ok z', r') => z' = z ∧ whole r' = pre
  | (Err (CE_Io _), r') => whole r' = pre
  | _ => False
  end.
Proof.
  intros Hc Hw Hz. unfold read_u64. pose proof (read_exact_spec 8 8 r) as Hr.
  rewrite Hc, length_app, length_put_u64 in Hr. specialize (Hr ltac:(lia) ltac:(lia)).
  destruct (read_exact 8 8 r) as [[data|e| |] r']; [|congruence|done|done].
  destruct Hr as [-> Hr]. split; [|congruence].
  rewrite take_app_le, take_ge by (rewrite length_put_u64; lia). by apply get_put_u64.
Qed.

Lemma index_open_spec (r : R) pre z :
  whole r = pre ++ put_u64 z → (0 ≤ z < 2 ^ 64)%Z →
  match index_open (IoError := IoError) r with
  | Ok idx => idx_len idx = z ∧ whole (idx_rdr idx) = whole r
  | Err (CE_Io _) => True
  | _ => False
  end.
Proof.
  intros Hw Hz. unfold index_open. destruct (io_seek_end (-8) r) as [[e|] r1] eqn:E; [done|].
  apply (io_seek_end_content (SeekEndOk := SO)) in E as (_ & Hc & Hw1). rewrite Hw, length_app, length_put_u64 in Hc.
  replace (Z.to_nat (Z.of_nat (length pre + 8) + -8)) with (length pre) in Hc by lia.
  rewrite drop_app_length in Hc. pose proof (read_u64_spec r1 z (whole r) []) as Hr. rewrite app_nil_r in Hr.
  specialize (Hr Hc Hw1 Hz). destruct (read_u64 r1) as [[z'|[]| |] r2]; try done.
Qed.

Lemma drop_concat_put ps i z suf :
  ps !! i = Some z → drop (i * 8) (concat (put_u64 <$> ps) ++ suf) = put_u64 z ++ concat (put_u64 <$> drop (S i) ps) ++ suf.
Proof.
  revert i. induction ps as [|p ps IH]; intros [|i] Hi; try done.
  - injection Hi as <-. cbn. by rewrite <- app_assoc.
  - change (S i * 8) with (8 + i * 8). cbn [fmap list_fmap concat]. rewrite <- app_assoc, <- drop_drop.
    rewrite drop_app_length' by (by rewrite length_put_u64). by apply IH.
Qed.

Lemma index_get_spec debug i idx ps suf z :
  whole (idx_rdr idx) = concat (put_u64 <$> ps) ++ suf → idx_len idx = Z.of_nat (length ps) →
  ps !! i = Some z → (0 ≤ z < 2 ^ 64)%Z → (8 * Z.of_nat (length ps) < 2 ^ 64)%Z →
  match index_get (IoError := IoError) debug (Z.of_nat i) idx with
  | (Ok pos, idx') => pos = mkPosition z 1 (Z.of_nat i) ∧ whole (idx_rdr idx') = whole (idx_rdr idx) ∧ idx_len idx' = idx_len idx
  | (Err (CE_Io _), _) => True
  | _ => False
  end.
Proof.
  intros Hw Hlen Hi Hz Hb. apply lookup_lt_Some in Hi as Hlt. unfold index_get.
  rewrite bool_decide_false by lia. unfold checked_u64. rewrite bool_decide_true by lia.
  destruct (io_seek (Z.of_nat i * 8) (idx_rdr idx)) as [[e|] r1] eqn:E; [done|].
  apply io_seek_content in E as [Hc Hw1]. rewrite Hw in Hc.
  replace (Z.to_nat (Z.of_nat i * 8)) with (i * 8) in Hc by lia. rewrite (drop_concat_put _ _ _ _ Hi) in Hc.
  pose proof (read_u64_spec r1 z _ _ Hc Hw1 Hz) as Hr.
  destruct (read_u64 r1) as [[z'|[]| |] r2]; try done. cbn [res_bind]. by destruct Hr as [-> Hr].
Qed.

(** Out of range there is an error. *)
Lemma index_get_range debug i idx :
  (idx_len idx ≤ i)%Z →
  index_get (IoError := IoError) debug i idx = (Err (CE_Io (invalid_index i (idx_len idx))), idx).
Proof. intros Hi. unfold index_get. by rewrite bool_decide_true. Qed.

End find_spec.

(** * Records by their number *)

Section fetch.
Context {R I W IoError : Type} `{RO : ReadOk R IoError} {HI : Read I IoError} {IO : ReadOk I IoError}
  {S0 : SeekEnd I IoError} {SO : SeekEndOk I IoError S0} `{BO : ByteOrderOk} `{IndexErrors IoError}.
Context (debug : bool) (cfg : CsvConfig) (input : list u8).
#[local] Abbreviation state := (RandomAccessSimple I * (FileReader R * ByteRecord))%type.
#[local] Abbreviation rows := (parse_all cfg input).

(** What a program does that looks up the record [i]: it asks the index for its
    position, seeks there and reads a record. *)
Definition fetch (fuel i : nat) : method state (CsvError IoError) (bool * ByteRecord) := λ s,
  match index_get debug (Z.of_nat i) s.1 with
  | (Ok pos, idx) =>
      let '(x, (f, r)) := (λ s, let '(x, f) := seek debug fuel pos s.1 in
        match x with
        | Ok _ => read_byte_record debug fuel (f, s.2)
        | Err e => (Err e, (f, s.2))
        | Panic => (Panic, (f, s.2))
        | NoFuel => (NoFuel, (f, s.2))
        end) s.2 in
      (let? ok := x in Ok (ok, r), (idx, (f, r)))
  | (Err e, idx) => (Err e, (idx, s.2))
  | (Panic, idx) => (Panic, (idx, s.2))
  | (NoFuel, idx) => (NoFuel, (idx, s.2))
  end.

Fixpoint fetches (fuel : nat) (js : list nat) : method state (CsvError IoError) (list (bool * ByteRecord)) :=
  match js with
  | [] => st_ret []
  | j :: js => let! r := fetch fuel j in let! rs := fetches fuel js in st_ret (r :: rs)
  end.

(** Between two lookups: where the reader says it is, it reads from there. *)
Record ready_to_seek (s : FileReader R) : Prop := {
  rs_headers : is_Some (rd_headers s);
  rs_resting : resting cfg s;
  rs_whole : whole (inner (rdr s)) = input;
  rs_counted : counted (rd_flexible s) (rd_first_field_count s) rows;
  rs_here k : pos_byte (cur_pos s) = Z.of_nat k → k < length input →
    eof s = NotEof ∧ (0 ≤ pos_record (cur_pos s))%Z ∧ at_row cfg (drop k input) (parse_all cfg (drop k input)) s
}.

Lemma finished_ready s : finished cfg input rows s → ready_to_seek s.
Proof. intros [H1 H2 H3 H4 H5]. split; try done. intros k Hk Hlt. lia. Qed.

Lemma at_row_set_seeked rest l (s : FileReader R) : at_row cfg rest l s → at_row cfg rest l (set_seeked s).
Proof. intros (p & [B1 B2 B3 B4 B5 B6 B7 B8 B9] & Hp). by exists p. Qed.

(** The seek puts the reader before the row, whether or not it is there already. *)
Lemma seek_ready fuel k i (s : FileReader R) :
  ready_to_seek s → k < length input → take 3 (drop k input) ≠ UTF8_BOM →
  (8 * (Z.of_nat (length input) + 2) < 2 ^ 64)%Z → i ≤ length input + 1 →
  let l := parse_all cfg (drop k input) in
  (∃ e s', seek (IoError := IoError) debug fuel (mkPosition (Z.of_nat k) 1 (Z.of_nat i)) s = (Err (CE_Io e), s')) ∨
  (∃ s', seek (IoError := IoError) debug fuel (mkPosition (Z.of_nat k) 1 (Z.of_nat i)) s = (Ok tt, s') ∧
    at_row cfg (drop k input) l s' ∧ settled s' ∧ eof s' = NotEof ∧ (0 ≤ pos_record (cur_pos s'))%Z ∧
    pos_byte (cur_pos s') = Z.of_nat k ∧ whole (inner (rdr s')) = input ∧ rd_flexible s' = rd_flexible s ∧
    rd_trim s' = rd_trim s ∧ rd_first_field_count s' = rd_first_field_count s).
Proof.
  intros [[h Hh] Hrs Hw Hc Hhere] Hk Hbom Hlen Hi l.
  destruct (decide (pos_byte (cur_pos s) = Z.of_nat k)) as [Heq|Hne].
  - right. destruct (Hhere k Heq Hk) as (Heof & Hrec & Hat). exists (set_seeked s).
    unfold seek, byte_headers, read_headers. rewrite Hh, Hh. cbn [set_seeked cur_pos rdr pos_byte].
    rewrite bool_decide_true by done. split_and!; try done.
    + by apply at_row_set_seeked.
    + split; [by exists h|by right; right].
  - destruct (seek_spec (IoError := IoError) debug cfg fuel (mkPosition (Z.of_nat k) 1 (Z.of_nat i)) s)
      as [(e & s' & E & _)|(s' & E & Hat & Hset & Heof & Hpos & _ & Hw' & Hfl & Htr & Hct)]; cbn [pos_byte] in *.
    + by eexists.
    + done.
    + congruence.
    + by rewrite Nat2Z.id, Hw.
    + rewrite Nat2Z.id, Hw. unfold pos_fits. cbn [pos_byte pos_line pos_record]. rewrite length_drop. lia.
    + left. by exists e, s'.
    + right. exists s'. rewrite Nat2Z.id, Hw in Hat. rewrite Hpos. cbn [pos_byte pos_record].
      split_and!; try done; [lia|congruence].
Qed.

Lemma counted_row (s : FileReader R) row :
  counted (rd_flexible s) (rd_first_field_count s) rows → row ∈ rows →
  count_ok (rd_flexible s) (rd_first_field_count s) (length (fields_of row)) = true ∧
  next_first (rd_flexible s) (rd_first_field_count s) (length (fields_of row)) = rd_first_field_count s.
Proof.
  intros Hc Hin. unfold counted in Hc. rewrite list.Forall_forall in Hc. unfold count_ok, next_first.
  destruct (Hc _ Hin) as [-> | ->]; [done|]. destruct (rd_flexible s); [done|]. cbn. by rewrite bool_decide_true.
Qed.

(** What the file with the index holds. *)
Definition index_of (ps : list Z) (idx : RandomAccessSimple I) : Prop :=
  whole (idx_rdr idx) = concat (put_u64 <$> ps) ++ put_u64 (Z.of_nat (length rows)) ∧
  idx_len idx = Z.of_nat (length rows).

Lemma fetch_spec fuel i row ps idx (s : FileReader R) r :
  starts cfg input rows ps → index_of ps idx → ready_to_seek s → rows !! i = Some row →
  (∀ k, take 3 (drop k input) ≠ UTF8_BOM) → (8 * (Z.of_nat (length input) + 2) < 2 ^ 64)%Z →
  3 * length input + 8 < fuel →
  match fetch fuel i (idx, (s, r)) with
  | (Ok (ok, r'), (idx', (s', _))) => ok = true ∧ record_is r' (trimmed (rd_trim s) (fields_of row)) ∧
      index_of ps idx' ∧ ready_to_seek s' ∧ rd_trim s' = rd_trim s
  | (Err (CE_Io _), _) => True
  | _ => False
  end.
Proof.
  intros Hps [Hw Hlen] Hs Hrow Hbom Hb Hf. apply starts_length in Hps as Hl.
  pose proof (parse_all_bound cfg input) as Hbound. apply lookup_lt_Some in Hrow as Hi.
  destruct (lookup_lt_is_Some_2 ps i) as [z Hz]; [lia|].
  destruct (starts_lookup _ _ _ _ _ _ Hps Hz) as (k & -> & Hk & Hparse & _).
  rewrite (drop_S _ _ _ Hrow) in Hparse.
  assert (k < length input) as Hlt.
  { destruct (decide (k < length input)); [done|]. rewrite drop_ge in Hparse by lia. discriminate Hparse. }
  unfold fetch. cbn [fst snd].
  pose proof (index_get_spec (IoError := IoError) debug i idx ps _ _ Hw ltac:(lia) Hz ltac:(lia) ltac:(lia)) as Hget.
  destruct (index_get debug (Z.of_nat i) idx) as [[pos|[]| |] idx']; try done. destruct Hget as (-> & Hw' & Hlen').
  destruct (seek_ready fuel k i s Hs Hlt (Hbom k) ltac:(lia) ltac:(lia))
    as [(e & s1 & E)|(s1 & E & Hat & Hset & Heof & Hrec & Hpb & Hws & Hfl & Htr & Hct)]; rewrite E; [done|].
  rewrite Hparse in Hat.
  destruct (read_byte_record_settled (IoError := IoError) debug cfg fuel (drop k input) _ s1 r Hat Hset Heof Hrec)
    as [(e & s2 & r2 & E2 & _)|(x & s2 & r2 & E2 & Hpost & Hmv)]; [rewrite length_drop; lia|by rewrite E2|].
  rewrite E2. destruct Hpost as (Hset2 & Hfl2 & Htr2 & Heof2 & Hrec2 & _ & Hx).
  destruct Hmv as (Hw2 & _ & k2 & Hk2 & Hat2 & Hb2).
  destruct (counted_row s row (rs_counted s Hs)) as [Hok Hnext]; [by eapply list_elem_of_lookup_2|].
  rewrite Hfl, Hct, Hok in Hx. destruct Hx as (-> & Hr & _ & Hct2). cbn [res_bind].
  rewrite Htr in Hr. split_and!; try done; [by split; congruence| |congruence].
  split.
  - apply Hset2.
  - by eapply at_row_resting.
  - congruence.
  - rewrite Hfl2, Hfl, Hct2, Hnext. apply Hs.
  - intros k3 Hk3 Hlt3. assert (k3 = k + k2) as -> by lia. split_and!; [congruence|done|].
    rewrite drop_drop in Hat2. by rewrite <- (at_row_rows cfg _ _ _ Hat2).
Qed.

(** Lookups in turn, in any order. *)
Lemma fetches_spec fuel js l ps idx (s : FileReader R) r :
  starts cfg input rows ps → index_of ps idx → ready_to_seek s →
  Forall2 (λ i row, rows !! i = Some row) js l →
  (∀ k, take 3 (drop k input) ≠ UTF8_BOM) → (8 * (Z.of_nat (length input) + 2) < 2 ^ 64)%Z →
  3 * length input + 8 < fuel →
  match (fetches fuel js (idx, (s, r))).1 with
  | Ok rs => Forall2 (λ r row, r.1 = true ∧ record_is r.2 (trimmed (rd_trim s) (fields_of row))) rs l
  | Err (CE_Io _) => True
  | _ => False
  end.
Proof.
  intros Hps Hidx Hs Hl Hbom Hb Hf. revert idx s r Hidx Hs. induction Hl as [|i row js l Hrow Hl IH]; intros idx s r Hidx Hs.
  { constructor. }
  cbn [fetches]. pose proof (fetch_spec fuel i row ps idx s r Hps Hidx Hs Hrow Hbom Hb Hf) as Hi. unfold st_bind.
  destruct (fetch fuel i (idx, (s, r))) as [[[ok r']|[]| |] [idx' [s' r2]]]; try done.
  destruct Hi as (-> & Hr & Hidx' & Hs' & Htr). specialize (IH idx' s' r2 Hidx' Hs'). rewrite Htr in IH.
  destruct (fetches fuel js (idx', (s', r2))) as [[rs|[]| |] [idx2 s2]]; try done. by constructor.
Qed.

End fetch.
