(* ===== verification/CsvProperties.v ===== *)
(** What the CSV crates promise: csv-core's reader on any series of buffers, its
    two engines, csv's writer and reader around them, and the way from records
    to bytes and back. *)
From Stdlib Require Import ZArith Lia Strings.Byte.
From stdpp Require Import base list numbers option sets.
From S2P Require Import Prelude.
From S2P Require Import StateMonad.
From S2P Require Import Utf8.
From S2P Require Import CsvNfa.
From S2P Require Import CsvDfa.
From S2P Require Import CsvReader.
From S2P Require Import CsvStream.
From S2P Require Import CsvEquiv.
From S2P Require Import CsvWriter.
From S2P Require Import CsvRecord.
From S2P Require Import CsvFileWriter.
From S2P Require Import CsvRoundtrip.
From S2P Require Import CsvFileReader.
From S2P Require Import CsvFileRows.
From S2P Require Import CsvSeek.
From S2P Require Import CsvIndex.
Open Scope rust_scope.

(** * Instances for the examples *)

(** The crate memchr, byte by byte. *)
Fixpoint scan (b : u8) (l : list u8) : option nat :=
  match l with
  | [] => None
  | c :: l' => if beq c b then Some 0 else S <$> scan b l'
  end.

#[export] Instance memchr_scan : Memchr := scan.

#[export] Instance memchr_scan_ok : MemchrOk memchr_scan.
Proof.
  split; unfold memchr, memchr_scan; intros b l; induction l as [|x l IH]; cbn; try done.
  - intros _. apply not_elem_of_nil.
  - destruct (beq x b) eqn:E; [done|]. intros Hn%fmap_None. apply not_elem_of_cons.
    split; [|by apply IH]. intros <-. by rewrite beq_refl in E.
  - destruct (beq x b) eqn:E; intros i Hi.
    + apply beq_spec in E as ->. injection Hi as <-. split; [done|apply not_elem_of_nil].
    + apply fmap_Some in Hi as (j & Hj & ->). destruct (IH j Hj) as [H1 H2]. split; [done|]. cbn.
      apply not_elem_of_cons. split; [|done]. intros <-. by rewrite beq_refl in E.
Qed.

(** [Vec<u8>] as an [io::Write], and [io::Cursor] as an [io::Read] that gives at
    most [step] bytes at a time; neither fails. *)
#[export] Instance vec_write {E} : Write (list u8) E := {
  write_all l w := (None, w ++ l);
  io_flush w := (None, w);
  written w := w
}.

#[export] Instance vec_write_ok {E} : WriteOk (list u8) E.
Proof. split; [by intros l w w' [= <-]|by intros w w' [= <-]]. Qed.

Record Cursor : Type := mkCursor { c_data : list u8; c_pos : nat; c_step : nat }.

#[export] Instance cursor_read {E} : Read Cursor E := {
  io_read n c :=
    let data := take (Nat.min n (S (c_step c))) (drop (c_pos c) (c_data c)) in
    (inr data, mkCursor (c_data c) (c_pos c + length data) (c_step c));
  io_seek n c := (None, mkCursor (c_data c) (Z.to_nat n) (c_step c));
  whole c := c_data c;
  content c := drop (c_pos c) (c_data c)
}.

#[export] Instance cursor_read_ok {E} : ReadOk Cursor E.
Proof.
  split.
  - intros n c data c' Hread. injection Hread as <- <-. cbn [content cursor_read c_data c_pos].
    rewrite <- drop_drop. set (l := drop (c_pos c) (c_data c)). rewrite length_take. split_and!; [lia| |].
    + destruct (decide (Nat.min n (S (c_step c)) ≤ length l)) as [Hle|Hgt].
      * by rewrite (Nat.min_l _ _ Hle), take_drop.
      * by rewrite take_ge, Nat.min_r, drop_all, app_nil_r by lia.
    + intros El%(f_equal length). rewrite length_take in El. destruct l; [by right|left]. cbn in El. lia.
  - done.
  - by intros n c c' [= <-].
Qed.

Definition csv_bytes (l : list Z) : list u8 := byte_of <$> l.

(** * csv-core's reader *)

(** C18: The table that the reader builds is the automaton.  Building it never
    panics, whatever the settings; and for settings that give the line feed a
    class when there are comments, one step of the table is one step of the
    automaton, its moves without input included, with the same bytes copied to
    the output, for every state and every byte. *)
Theorem build_dfa_is_nfa (cfg : CsvConfig) :
  ∃ r, build cfg false = Ok r ∧ dfa_state r = row cfg StartRecord ∧
    (config_ok cfg → ∀ s c, state_ok cfg s → ∃ s' a,
      consume_byte EPSILON_CHAIN cfg c (s, Epsilon) = Ok (s', a) ∧ state_ok cfg s' ∧
      get_output (dfa r) (row cfg s) c = Ok (row cfg s', bool_decide (a = CopyToOutput))).
Proof.
  destruct (build_dfa_spec cfg) as (d & E & Hd). unfold build.
  change (dfa (CsvReader_clone (with_config CsvReader_default cfg false))) with Dfa_new.
  change (config (CsvReader_clone (with_config CsvReader_default cfg false))) with cfg.
  rewrite E. cbn [res_bind]. eexists. split; [reflexivity|]. split; [done|].
  intros Hcfg s c Hs. pose proof (dfa_step _ _ Hd Hcfg s c Hs) as Hcell. unfold cell_ok in Hcell.
  pose proof (step_state_ok cfg s c Hs) as Hs'. unfold step in Hcell, Hs'.
  rewrite consume_byte_eq in Hcell, Hs' |- * by apply Hs.
  destruct (read_byte cfg s c) as [s' a]. by exists s', a.
Qed.

Lemma build_dfa_is_nfa_witness :
  config_ok default_config ∧ state_ok default_config InField ∧
  ∃ r, build default_config false = Ok r ∧ dfa_state r = row default_config StartRecord ∧
    (config_ok default_config → ∀ s c, state_ok default_config s → ∃ s' a,
      consume_byte EPSILON_CHAIN default_config c (s, Epsilon) = Ok (s', a) ∧ state_ok default_config s' ∧
      get_output (dfa r) (row default_config s) c = Ok (row default_config s', bool_decide (a = CopyToOutput))).
Proof. split; [by left|]. split; [by split_and!|]. exact (build_dfa_is_nfa default_config). Defined.

(** C16: Reading in pieces is reading byte by byte.  With settings that have no
    comments, or give the line feed a class, a caller hands the reader the input in
    pieces of any size with output buffers of any size, keeps what was written and
    goes on behind what was read.  No call panics or runs forever; the rows that have
    been completed are always the first rows of the parser that reads byte by byte;
    and once a call returns [End] they are all of them.  A caller whose buffers are
    never empty gets there within two calls more than the input has bytes.  The
    pieces matter for a byte order mark only: it is stripped if the first piece has
    all three bytes of it and is part of the first field otherwise ([text_of]); a
    first piece that is the mark alone, with more to come, is left out, since it ends
    the reading ([mark_alone_ends]). *)
Theorem read_record_streams (debug : bool) (cfg : CsvConfig) (Hcfg : config_ok cfg) :
  ∃ r, build cfg false = Ok r ∧
  ∀ (calls : list csv_call) (input : list u8),
    Forall (λ c, 0 < cc_chunk c) calls → mark_ok calls input →
    ∃ d, drive debug calls r input ([], []) = Ok d ∧
      dr_rows d `prefix_of` parse_all cfg (text_of calls input) ∧
      (dr_ended d = true → dr_rows d = parse_all cfg (text_of calls input)) ∧
      (Forall roomy calls → length input + 2 ≤ length calls → dr_ended d = true).
Proof.
  destruct (build_reader_at cfg Hcfg) as (r & E & Hr & Hh & _). exists r. split; [done|].
  intros calls input. by apply drive_text.
Qed.

(** A mark, then two fields, the first in quotes with a comma: in pieces of four
    bytes, and byte by byte, where the mark is part of the first field and the quotes go wrong. *)
Lemma read_record_streams_witness :
  let input := UTF8_BOM ++ csv_bytes [0x22; 0x61; 0x2c; 0x22; 0x2c; 0x62; 0x0a]%Z in
  ∃ r, build default_config false = Ok r ∧
    (∃ d, drive true (replicate 12 (mkCall 4 [x00] [0])) r input ([], []) = Ok d ∧ dr_ended d = true ∧
      dr_rows d = [([x61; x2c; x62], [2; 3])]) ∧
    (∃ d, drive true (replicate 12 (mkCall 1 [x00] [0])) r input ([], []) = Ok d ∧ dr_ended d = true ∧
      dr_rows d = [(UTF8_BOM ++ csv_bytes [0x22; 0x61; 0x2c; 0x62; 0x0a]%Z, [5; 8])]).
Proof.
  intros input.
  destruct (read_record_streams true default_config) as (r & E & H); [by left|].
  exists r. split; [exact E|]. split.
  - destruct (H (replicate 12 (mkCall 4 [x00] [0])) input) as (d & Ed & _ & Heq & Hlive).
    + repeat constructor.
    + vm_compute. discriminate.
    + exists d. split; [exact Ed|]. assert (dr_ended d = true) as He.
      { apply Hlive; [by repeat constructor|]. vm_compute. repeat constructor. }
      split; [exact He|]. rewrite (Heq He). vm_compute. reflexivity.
  - destruct (H (replicate 12 (mkCall 1 [x00] [0])) input) as (d & Ed & _ & Heq & Hlive).
    + repeat constructor.
    + vm_compute. discriminate.
    + exists d. split; [exact Ed|]. assert (dr_ended d = true) as He.
      { apply Hlive; [by repeat constructor|]. vm_compute. repeat constructor. }
      split; [exact He|]. rewrite (Heq He). vm_compute. reflexivity.
Defined.

(** C19: The two engines of the reader are one.  Built with the same settings, which
    have no comments or give the line feed a class (the terminator is it, or CRLF),
    the reader that follows the table and the reader that follows the automaton give
    the same results, counts and buffers, call after call, for as long as the
    calls end records and for the call after the last of them, whatever the
    input (with a byte order mark or without) and whatever the buffers; neither
    panics.  With comments and another terminator they differ
    ([comment_never_ends]). *)
Theorem engines_agree (debug : bool) (cfg : CsvConfig) (Hcfg : config_ok cfg) :
  ∃ r1 r2, build cfg false = Ok r1 ∧ build cfg true = Ok r2 ∧
  ∀ n input output ends, ∃ l, calls debug n r1 input output ends = Ok l ∧ calls debug n r2 input output ends = Ok l.
Proof.
  destruct (build_paired cfg Hcfg) as (r1 & r2 & E1 & E2 & H). exists r1, r2. split_and!; [done..|].
  intros n input output ends. by apply (calls_agree debug cfg n _ r1 r2 input output ends H).
Qed.

(** A byte order mark and two records. *)
Lemma engines_agree_witness :
  ∃ r1 r2, build default_config false = Ok r1 ∧ build default_config true = Ok r2 ∧
  ∃ l, calls true 5 r1 (UTF8_BOM ++ csv_bytes [0x61; 0x2c; 0x0a; 0x62]%Z) [x00; x00] [0; 0; 0] = Ok l ∧
       calls true 5 r2 (UTF8_BOM ++ csv_bytes [0x61; 0x2c; 0x0a; 0x62]%Z) [x00; x00] [0; 0; 0] = Ok l.
Proof.
  destruct (engines_agree true default_config) as (r1 & r2 & E1 & E2 & H); [by left|].
  exists r1, r2. split; [exact E1|]. split; [exact E2|]. apply H.
Defined.

(** * csv's records *)

(** Calls that change a byte record, and what they do to its fields. *)
Inductive RecordOp : Type :=
  | Op_push (f : list u8) | Op_extend (fs : list (list u8)) | Op_truncate (n : nat)
  | Op_clear | Op_trim | Op_clone_truncated | Op_position (p : option Position).

Definition run_op {E} (r : ByteRecord) (op : RecordOp) : res E ByteRecord :=
  match op with
  | Op_push f => push_field r f
  | Op_extend fs => extend r fs
  | Op_truncate n => Ok (truncate r n)
  | Op_clear => Ok (clear r)
  | Op_trim => br_trim r
  | Op_clone_truncated => clone_truncated r
  | Op_position p => Ok (set_position r p)
  end.

Definition op_fields (fs : list (list u8)) (op : RecordOp) : list (list u8) :=
  match op with
  | Op_push f => fs ++ [f]
  | Op_extend gs => fs ++ gs
  | Op_truncate n => take n fs
  | Op_clear => []
  | Op_trim => trim_ascii <$> fs
  | Op_clone_truncated | Op_position _ => fs
  end.

(** Calls of [next] and [next_back], and what they take from a list. *)
Inductive Pull : Type := Front | Back.

Fixpoint pulls {E} (r : ByteRecord) (it : ByteRecordIter) (ps : list Pull) : res E (list (option (list u8))) :=
  match ps with
  | [] => Ok []
  | p :: ps =>
      let? x := match p with Front => iter_next r it | Back => iter_next_back r it end in
      let? xs := pulls r x.2 ps in Ok (x.1 :: xs)
  end.

Fixpoint deque (fs : list (list u8)) (ps : list Pull) : list (option (list u8)) :=
  match ps with
  | [] => []
  | Front :: ps => head fs :: deque (tail fs) ps
  | Back :: ps => list.last fs :: deque (take (length fs - 1) fs) ps
  end.

Lemma run_op_is {E} r fs op :
  record_is r fs → ∃ r', run_op (E := E) r op = Ok r' ∧ record_is r' (op_fields fs op).
Proof.
  intros Hr. destruct op; cbn [run_op op_fields].
  - destruct (push_field_is (E := E) r fs f Hr) as (r' & H1 & H2 & _). by exists r'.
  - destruct (extend_is (E := E) r fs fs0 Hr) as (r' & H1 & H2 & _). by exists r'.
  - eexists. split; [done|]. by apply truncate_is.
  - eexists. split; [done|]. by eapply clear_is.
  - destruct (trim_with_is (E := E) trim_ascii r fs Hr) as (r' & H1 & H2 & _). by exists r'.
  - destruct (clone_truncated_is (E := E) r fs Hr) as (r' & H1 & H2 & _). by exists r'.
  - eexists. split; [done|]. by apply set_position_is.
Qed.

Lemma run_ops_is {E} ops r fs :
  record_is r fs → ∃ r', for_each (run_op (E := E)) ops r = Ok r' ∧ record_is r' (foldl op_fields fs ops).
Proof.
  revert r fs. induction ops as [|op ops IH]; intros r fs Hr; [by exists r|]. cbn [for_each foldl].
  destruct (run_op_is (E := E) r fs op Hr) as (r1 & -> & H1). by apply IH.
Qed.

(** The fields from [i] to [j]. *)
Definition between_fields (i j : nat) (fs : list (list u8)) : list (list u8) := take (j - i) (drop i fs).

Lemma between_fields_ends i j fs :
  i ≤ j ≤ length fs →
  head (between_fields i j fs) = (if bool_decide (i < j) then fs !! i else None) ∧
  list.last (between_fields i j fs) = (if bool_decide (i < j) then fs !! (j - 1) else None) ∧
  tail (between_fields i j fs) = between_fields (if bool_decide (i < j) then i + 1 else i) j fs ∧
  take (length (between_fields i j fs) - 1) (between_fields i j fs)
    = between_fields i (if bool_decide (i < j) then j - 1 else j) fs.
Proof.
  intros Hij. unfold between_fields. case_bool_decide as Hlt.
  - destruct (lookup_lt_is_Some_2 fs i) as [f Hf]; [lia|].
    rewrite (drop_S _ _ _ Hf). replace (j - i) with (S (j - (i + 1))) by lia. rewrite firstn_cons.
    split_and!.
    + done.
    + rewrite last_lookup. cbn [length]. rewrite length_take, length_drop.
      replace (Nat.min (j - (i + 1)) (length fs - S i)) with (j - (i + 1)) by lia.
      change (f :: take (j - (i + 1)) (drop (S i) fs)) with (take (S (j - (i + 1))) (f :: drop (S i) fs)).
      rewrite <- (drop_S _ _ _ Hf). cbn [Nat.pred]. rewrite lookup_take_lt by lia. rewrite lookup_drop. f_equal. lia.
    + cbn [tail]. by rewrite Nat.add_1_r.
    + cbn [length]. rewrite length_take, length_drop. rewrite Nat.sub_succ, Nat.sub_0_r.
      change (f :: take (j - (i + 1)) (drop (S i) fs)) with (take (S (j - (i + 1))) (f :: drop (S i) fs)).
      rewrite <- (drop_S _ _ _ Hf), take_take. f_equal. lia.
  - assert (j - i = 0) as -> by lia. done.
Qed.

Lemma pulls_is {E} ps r fs it i j :
  record_is r fs → iter_is fs it i j → pulls (E := E) r it ps = Ok (deque (between_fields i j fs) ps).
Proof.
  intros Hr. revert it i j. induction ps as [|p ps IH]; intros it i j Hit; [done|].
  pose proof Hit as (_ & _ & Hij & _). destruct (between_fields_ends i j fs Hij) as (Hh & Hl & Ht & Hi).
  cbn [pulls deque]. destruct p.
  - destruct (iter_next_is (E := E) r fs it i j Hr Hit) as (it' & -> & Hit'). cbn [res_bind fst snd].
    rewrite (IH _ _ _ Hit'). cbn [res_bind]. by rewrite Hh, Ht.
  - destruct (iter_next_back_is (E := E) r fs it i j Hr Hit) as (it' & -> & Hit'). cbn [res_bind fst snd].
    rewrite (IH _ _ _ Hit'). cbn [res_bind]. by rewrite Hl, Hi.
Qed.

Definition record_of (fs : list (list u8)) : ByteRecord := mkByteRecord None (concat fs) (mkBounds (offsets 0 fs) (length fs)).

Lemma record_of_is fs : record_is (record_of fs) fs.
Proof. split; [done|]. split; [exists []|exists []]; by rewrite app_nil_r. Qed.

(** A byte record is a list of fields.  Whatever calls change a record, from
    any capacity on, none of them panics, and the record then behaves as the list
    of fields that these calls make: its length, its fields by index (none out of
    range), the slice of all its bytes, equality with another record made by
    calls, and its iterator, which is a deque of the fields for any mix of [next]
    and [next_back], past the end too. *)
Theorem byte_record_refines {E : Type} (buffer fields : nat) (ops ops' : list RecordOp) :
  let fs := foldl op_fields [] ops in
  let fs' := foldl op_fields [] ops' in
  ∃ r r', for_each (run_op (E := E)) ops (ByteRecord_with_capacity buffer fields) = Ok r ∧
    for_each (run_op (E := E)) ops' ByteRecord_new = Ok r' ∧
    br_length r = length fs ∧ as_slice (E := E) r = Ok (concat fs) ∧
    (∀ i, br_get (E := E) r i = Ok (fs !! i)) ∧
    br_eq (E := E) r r' = Ok (bool_decide (fs = fs')) ∧
    (∀ ps, (let? it := into_iter (E := E) r in pulls r it ps) = Ok (deque fs ps)).
Proof.
  intros fs fs'.
  destruct (run_ops_is (E := E) ops _ [] (ByteRecord_with_capacity_is buffer fields)) as (r & E1 & H1).
  destruct (run_ops_is (E := E) ops' _ [] (ByteRecord_with_capacity_is 0 0)) as (r' & E2 & H2).
  exists r, r'. split_and!; try done.
  - by apply H1.
  - by apply as_slice_is.
  - intros i. by apply br_get_is.
  - by apply br_eq_is.
  - intros ps. destruct (into_iter_is (E := E) r fs H1) as (it & -> & Hit). cbn [res_bind].
    rewrite (pulls_is ps r fs it _ _ H1 Hit). unfold between_fields. rewrite drop_0, take_ge by lia. done.
Qed.

(** A string record holds nothing but valid UTF-8.  A byte record becomes a
    string record exactly if each of its fields is valid; then getting a field,
    getting all bytes and trimming find valid strings only, so the unchecked
    conversions are sound, and the trimmed record is valid again.  Otherwise the
    error has the record back, unchanged, with the first field that is not valid
    and the length of its longest prefix that could be decoded. *)
Theorem from_byte_record_sound (r : ByteRecord) (fs : list (list u8)) (Hr : record_is r fs) :
  match from_byte_record r with
  | Ok s =>
      Forall (λ f, valid_utf8 f = true) fs ∧
      (∀ i, sr_get (E := unit) s i = Ok (fs !! i)) ∧ sr_as_slice (E := unit) s = Ok (concat fs) ∧
      ∃ s', sr_trim (E := unit) s = Ok s' ∧ from_byte_record (sr_bytes s') = Ok s' ∧
        ∀ i, sr_get (E := unit) s' i = Ok (trim_str <$> fs !! i)
  | Err (r', e) =>
      r' = r ∧ ∃ f, fs !! ue_field e = Some f ∧ valid_utf8 f = false ∧
        Forall (λ f, valid_utf8 f = true) (take (ue_field e) fs) ∧
        ue_valid_up_to e = valid_up_to f ∧ valid_utf8 (take (valid_up_to f) f) = true
  | _ => False
  end.
Proof.
  destruct (from_byte_record_is r fs Hr) as [-> Hs]. destruct (first_invalid 0 fs) as [e|] eqn:He.
  - split; [done|]. destruct (first_invalid_Some _ _ _ He) as (k & f & -> & Hf & Hv & Hu & Ht).
    exists f. split_and!; try done. apply valid_up_to_valid.
  - specialize (Hs eq_refl). split; [by apply first_invalid_None in He|].
    split; [intros i; by apply sr_get_is|]. split; [by apply sr_as_slice_is|].
    destruct (sr_trim_is (E := unit) _ _ Hs) as (s' & E & Hs'). exists s'. split; [done|].
    destruct (from_byte_record_is (sr_bytes s') _ (proj1 Hs')) as [E' _].
    destruct Hs' as [Hr' Hv']. apply first_invalid_None with (i := 0) in Hv' as Hn. rewrite Hn in E'.
    split; [by destruct s'|]. intros i. rewrite (sr_get_is s' (trim_str <$> fs)) by done.
    by rewrite list_lookup_fmap.
Qed.

(** A no-break space before and behind. *)
Lemma from_byte_record_sound_witness :
  record_is (record_of [[xc2; xa0; x61; xc2; xa0]]) [[xc2; xa0; x61; xc2; xa0]] ∧
  ∃ s s', from_byte_record (record_of [[xc2; xa0; x61; xc2; xa0]]) = Ok s ∧
    sr_trim (E := unit) s = Ok s' ∧ sr_get (E := unit) s' 0 = Ok (Some [x61]).
Proof.
  split; [apply record_of_is|].
  pose proof (from_byte_record_sound _ _ (record_of_is [[xc2; xa0; x61; xc2; xa0]])) as H.
  destruct (from_byte_record (record_of [[xc2; xa0; x61; xc2; xa0]])) as [s|e| |] eqn:E; try (vm_compute in E; discriminate E).
  exists s. destruct H as (_ & _ & _ & s' & E' & _ & Hg). exists s'. split; [reflexivity|]. split; [exact E'|].
  rewrite Hg. vm_compute. reflexivity.
Defined.

(** * csv's reader *)

(** C17: A reader over any source delivers the rows of its input.  Iterating over
    the records of a new reader comes to an end without a panic; it delivers, in
    order, the rows that csv-core's parser finds in the input, cut into fields,
    without the header row if there is one, trimmed as asked for (but for the first
    record of a reader without a header row, which the code leaves as it is, against
    the documentation of [Trim]: [first_untrimmed]), with [UnequalLengths] in the
    place of each row with another number of fields than the first unless the reader
    is flexible -- or the first of these and then the error that the source has
    reported.  This holds for any capacity of the buffer but 0 and however few bytes
    the source gives at a time, for an input that does not begin with a byte order
    mark (what becomes of one depends on the first read) and settings that have no
    comments or give the line feed a class. *)
Theorem reader_delivers_rows {R IoError : Type} `{ReadOk R IoError} (debug : bool) (cfg : CsvConfig)
    (c : CsvReader) (cap : nat) (has_headers flexible : bool) (trim : Trim) (src : R) (r : ByteRecord) (n fuel : nat)
    (Hcfg : config_ok cfg) (Hc : build cfg false = Ok c) (Hcap : 0 < cap)
    (Hbom : take 3 (content src) ≠ UTF8_BOM) (Hlen : (Z.of_nat (length (content src)) + 2 < 2 ^ 64)%Z)
    (Hfuel : 3 * length (content src) + 8 < fuel) (Hn : length (content src) + 3 ≤ n) :
  ∃ xs, byte_records (IoError := IoError) debug n fuel (FileReader_new c cap has_headers flexible trim src, r) = Ok xs ∧
    let rows := fields_of <$> parse_all cfg (content src) in
    all_delivered (R := R) xs (first_untrimmed has_headers rows (documented_records has_headers flexible trim rows)).
Proof.
  pose proof (FileReader_new_fresh cfg c cap has_headers flexible trim src Hc Hcfg Hcap Hbom Hlen) as Hfr.
  exact (byte_records_fresh debug cfg n fuel _ _ r Hfr Hfuel Hn).
Qed.

(** Three rows, one byte at a time; the last has a field too many. *)
Lemma reader_delivers_rows_witness :
  let src := mkCursor (csv_bytes [0x61; 0x0a; 0x20; 0x62; 0x0d; 0x0a; 0x63; 0x2c]%Z) 0 0 in
  ∃ c, build default_config false = Ok c ∧
  ∃ xs, byte_records (IoError := Empty_set) true 12 40
    (FileReader_new c 1 true false Trim_All src, ByteRecord_new) = Ok xs ∧
    all_delivered (R := Cursor) xs [inr [[x62]]; inl (1, 2)].
Proof.
  destruct (build_reader_at default_config) as (c & E & _); [by left|].
  exists c. split; [exact E|].
  destruct (reader_delivers_rows (R := Cursor) (IoError := Empty_set) true default_config c 1 true false Trim_All
    (mkCursor (csv_bytes [0x61; 0x0a; 0x20; 0x62; 0x0d; 0x0a; 0x63; 0x2c]%Z) 0 0) ByteRecord_new 12 40)
    as (xs & Exs & Hxs).
  - by left.
  - exact E.
  - lia.
  - vm_compute. discriminate.
  - vm_compute. reflexivity.
  - vm_compute. lia.
  - vm_compute. lia.
  - exists xs. split; [exact Exs|]. exact Hxs.
Defined.

(** * csv-index *)

(** The index finds the records.  [create] on a new reader over any source
    never panics: it stops with an error of the source or of the file it writes,
    with [UnequalLengths] unless the reader is flexible, or the index is written.
    Then this index opens to as many records as the input has rows (its header
    row is one of them); a number out of range is refused; and lookups of any
    numbers in range, in any order and each of them any number of times -- get the
    position from the index, seek there, read a record -- deliver the fields of
    the row with this number, trimmed as asked for, or an error of the source or
    of the index file. *)
Theorem index_finds_records {R I W IoError : Type} `{ReadOk R IoError} {HI : Read I IoError} {IO : ReadOk I IoError}
    {S0 : SeekEnd I IoError} {SO : SeekEndOk I IoError S0} `{WriteOk W IoError} `{ByteOrderOk} `{IndexErrors IoError}
    (debug : bool) (cfg : CsvConfig) (c : CsvReader) (cap : nat) (has_headers flexible : bool) (trim : Trim)
    (src : R) (w : W) (n fuel : nat)
    (Hcfg : config_ok cfg) (Hc : build cfg false = Ok c) (Hcap : 0 < cap)
    (Hsrc : whole src = content src) (Hempty : written w = [])
    (Hbom : ∀ k, take 3 (drop k (content src)) ≠ UTF8_BOM)
    (Hlen : (8 * (Z.of_nat (length (content src)) + 2) < 2 ^ 64)%Z)
    (Hfuel : 3 * length (content src) + 8 < fuel) (Hn : length (content src) + 3 ≤ n) :
  let rows := parse_all cfg (content src) in
  match create (IoError := IoError) debug n fuel (FileReader_new c cap has_headers flexible trim src) w with
  | (Ok _, (s, w')) => ∀ file : I, whole file = written w' →
      match index_open (IoError := IoError) file with
      | Ok idx =>
          index_len idx = Z.of_nat (length rows) ∧
          (∀ i, (Z.of_nat (length rows) ≤ i)%Z →
            index_get (IoError := IoError) debug i idx = (Err (CE_Io (invalid_index i (Z.of_nat (length rows)))), idx)) ∧
          (∀ js found r, Forall2 (λ j row, rows !! j = Some row) js found →
            match (fetches (IoError := IoError) debug fuel js (idx, (s, r))).1 with
            | Ok rs => Forall2 (λ r row, r.1 = true ∧ record_is r.2 (trimmed trim (fields_of row))) rs found
            | Err (CE_Io _) => True
            | _ => False
            end)
      | Err (CE_Io _) => True
      | _ => False
      end
  | (Err (CE_Io _), _) => True
  | (Err (CE_UnequalLengths _ _ _), _) => flexible = false
  | _ => False
  end.
Proof.
  set (s0 := FileReader_new c cap has_headers flexible trim src). intros rows.
  assert (Hfr : fresh cfg (content src) s0).
  { apply FileReader_new_fresh; try done; [|lia]. by specialize (Hbom 0). }
  pose proof (create_run_spec (IoError := IoError) debug cfg (content src) flexible n fuel s0 w eq_refl Hfr Hsrc ltac:(lia) Hfuel Hn) as Hrun.
  unfold create. destruct (create_run debug n fuel (s0, ByteRecord_new, w)) as [[[]|[]| |] [[s r] w']]; try done.
  destruct Hrun as ((ps & Hps & Hw') & Hfin & Hfl & Htr). rewrite Hempty in Hw'. cbn [app] in Hw'.
  intros file Hfile. cbn [fst snd] in Hfile |- *. rewrite Hw' in Hfile. pose proof (parse_all_bound cfg (content src)) as Hbound.
  pose proof (index_open_spec (IoError := IoError) file _ _ Hfile ltac:(lia)) as Hopen.
  destruct (index_open file) as [idx|[]| |]; try done. destruct Hopen as [Hl Hf].
  split_and!; [exact Hl| |].
  - intros i Hi. rewrite index_get_range; rewrite Hl; done.
  - intros js found r' Hjs.
    pose proof (fetches_spec (R := R) debug cfg (content src) fuel js found ps idx s r' Hps) as Hfs.
    rewrite Htr in Hfs. apply Hfs; try done; [|by apply finished_ready].
    split; [|done]. by rewrite Hf, Hfile.
Qed.

(** The crate byteorder with the most significant byte first. *)
#[local] Instance big_endian : ByteOrder := { put_u64 := to_be 8; get_u64 := from_be }.

#[local] Instance big_endian_ok : ByteOrderOk big_endian.
Proof. split; [intros z; apply length_to_be|]. intros z Hz. by apply (from_to_be_small 8). Qed.

Inductive index_error : Type := UnexpectedEof | InvalidInput | InvalidIndex (i len : Z).

#[local] Instance cursor_seek_end : SeekEnd Cursor index_error := λ n c,
  let pos := (Z.of_nat (length (c_data c)) + n)%Z in
  if bool_decide (0 ≤ pos)%Z then (None, mkCursor (c_data c) (Z.to_nat pos) (c_step c)) else (Some InvalidInput, c).

#[local] Instance cursor_seek_end_ok : SeekEndOk Cursor index_error cursor_seek_end.
Proof.
  intros n c c'. unfold io_seek_end, cursor_seek_end. case_bool_decide as Hn; [|done]. intros E. injection E as <-. done.
Qed.

#[local] Instance index_errors : IndexErrors index_error := { unexpected_eof := UnexpectedEof; invalid_index := InvalidIndex }.

(** Three rows, the last of them without a line feed, two bytes at a time; the
    rows 2, 0 and 2 again. *)
Lemma index_finds_records_witness :
  let input := csv_bytes [0x61; 0x0a; 0x62; 0x0d; 0x0a; 0x63]%Z in
  ∃ c, build default_config false = Ok c ∧
  match create (IoError := index_error) true 9 27 (FileReader_new c 2 true false Trim_None (mkCursor input 0 1)) [] with
  | (Ok _, (s, w')) =>
      match index_open (IoError := index_error) (mkCursor w' 0 2) with
      | Ok idx => index_len idx = 3%Z ∧
          match (fetches (IoError := index_error) true 27 [2; 0; 2] (idx, (s, ByteRecord_new))).1 with
          | Ok rs => Forall2 (λ r f, r.1 = true ∧ record_is r.2 [[f]]) rs [x63; x61; x63]
          | Err (CE_Io _) => True
          | _ => False
          end
      | Err (CE_Io _) => True
      | _ => False
      end
  | (Err (CE_Io _), _) => True
  | (Err (CE_UnequalLengths _ _ _), _) => false = false
  | _ => False
  end.
Proof.
  intros input. destruct (build_reader_at default_config) as (c & E & _); [by left|]. exists c. split; [exact E|].
  pose proof (index_finds_records (R := Cursor) (I := Cursor) (W := list u8) (IoError := index_error)
    true default_config c 2 true false Trim_None (mkCursor input 0 1) [] 9 27) as Hall.
  assert (Hbom : ∀ k, take 3 (drop k input) ≠ UTF8_BOM).
  { intros k. destruct (decide (k < 6)) as [Hk|Hk]; [|by rewrite drop_ge by (simpl; lia)].
    do 6 (destruct k as [|k]; [discriminate|]). lia. }
  specialize (Hall (or_introl eq_refl) E ltac:(lia) eq_refl eq_refl Hbom ltac:(vm_compute; reflexivity)
    ltac:(vm_compute; lia) ltac:(vm_compute; lia)). revert Hall.
  destruct (create _ _ _ _ _) as [[u|e| |] [s w']]; intros Hall; [|exact Hall..].
  specialize (Hall (mkCursor w' 0 2) eq_refl). destruct (index_open _) as [idx|e| |]; [|exact Hall..].
  destruct Hall as (Hl & _ & Hf). split; [exact Hl|].
  specialize (Hf [2; 0; 2] [([x63], [1]); ([x61], [1]); ([x63], [1])] ByteRecord_new
    ltac:(repeat constructor; vm_compute; reflexivity)).
  destruct (fetches _ _ _ _).1 as [rs|e| |]; [|exact Hf..].
  destruct (Forall2_cons_inv_r _ _ _ _ Hf) as (r1 & rs1 & H1 & Hf1 & ->).
  destruct (Forall2_cons_inv_r _ _ _ _ Hf1) as (r2 & rs2 & H2 & Hf2 & ->).
  destruct (Forall2_cons_inv_r _ _ _ _ Hf2) as (r3 & rs3 & H3 & Hf3 & ->).
  rewrite (Forall2_nil_inv_r _ _ Hf3).
  constructor; [exact H1|constructor; [exact H2|constructor; [exact H3|constructor]]].
Defined.

(** * csv's writer, and back *)

(** C20: Both ways to write a record write the same.  Writing records field by
    field, or as byte records with the fast path through the buffer, and then
    taking the writer apart leaves in the underlying writer the line of each
    record, whatever the capacity of the buffer (from two bytes on), the style of
    quoting and the other settings; unless the writer is flexible, the first record
    with another number of fields than the first ends the writing with
    [UnequalLengths] and these two numbers; or an error of the underlying writer comes
    back.  Neither way panics or runs forever. *)
Theorem writer_writes_lines {W IoError : Type} `{WriteOk W IoError} `{MO : MemchrOk} (debug : bool)
    (w0 : CsvWriter) (capacity : nat) (flexible : bool) (w : W) (rs : list ByteRecord) (fss : list (list (list u8)))
    (Hw0 : w_state w0 = WriterState_default) (Hcap : 2 ≤ capacity) (Hrs : Forall2 record_is rs fss) :
  Forall (λ m : method (FileWriter W) (CsvError IoError) unit,
    match ((let! _ := m in into_inner) (FileWriter_new w0 capacity flexible w)).1 with
    | Ok w' => first_unequal flexible None fss = None ∧ written w' = written w ++ concat (record_line w0 <$> fss)
    | Err (CE_UnequalLengths pos a b) => pos = None ∧ first_unequal flexible None fss = Some (a, b)
    | Err (CE_Io e) => write_fails (W := W) e
    | _ => False
    end) [st_each write_record fss; st_each (write_byte_record debug) rs].
Proof.
  constructor; [by apply record_lines_written|]. constructor; [by apply byte_record_lines_written|constructor].
Qed.

(** A buffer of two bytes; and a record with a field too many. *)
Lemma writer_writes_lines_witness :
  let w0 := build_writer DEFAULT_WRITER in
  let fss := [[csv_bytes [0x61; 0x22]%Z; []]; [[]; csv_bytes [0x2c]%Z]] in
  let bad := fss ++ [[[]]; []] in
  let outcome fss (m : method (FileWriter (list u8)) (CsvError Empty_set) unit) :=
    match ((let! _ := m in into_inner) (FileWriter_new w0 2 false [])).1 with
    | Ok w' => first_unequal false None fss = None ∧
        written (IoError := Empty_set) w' = written (IoError := Empty_set) ([] : list u8) ++ concat (record_line w0 <$> fss)
    | Err (CE_UnequalLengths pos a b) => pos = None ∧ first_unequal false None fss = Some (a, b)
    | Err (CE_Io e) => write_fails (W := list u8) e
    | _ => False
    end in
  Forall (outcome fss) [st_each write_record fss; st_each (write_byte_record true) (record_of <$> fss)] ∧
  Forall (outcome bad) [st_each write_record bad; st_each (write_byte_record true) (record_of <$> bad)] ∧
  first_unequal false None bad = Some (2, 1) ∧
  concat (record_line w0 <$> fss) = csv_bytes [0x22; 0x61; 0x22; 0x22; 0x22; 0x2c; 0x0a; 0x2c; 0x22; 0x2c; 0x22; 0x0a]%Z.
Proof.
  intros w0 fss bad outcome. split; [|split; [|split; vm_compute; reflexivity]].
  - apply (writer_writes_lines (W := list u8) (IoError := Empty_set) true w0 2 false [] (record_of <$> fss) fss);
      [reflexivity|lia|repeat constructor; apply record_of_is].
  - apply (writer_writes_lines (W := list u8) (IoError := Empty_set) true w0 2 false [] (record_of <$> bad) bad);
      [reflexivity|lia|repeat constructor; apply record_of_is].
Defined.




(** * Corner cases *)

(** What a caller sees of the results of [calls]. *)
Definition results (x : res unit (list (ReadRecordResult * (nat * nat * nat) * list u8 * list nat)))
    : res unit (list ReadRecordResult) :=
  res_map (fmap (λ s, s.1.1.1)) x.

Definition with_comment (c : u8) (t : Terminator) : CsvConfig :=
  mkCsvConfig (delimiter default_config) t (quote default_config) (escape default_config)
    (double_quote default_config) (Some c) (quoting default_config).

Definition first_row (nfa : bool) (cfg : CsvConfig) (input : list Z) : res unit (ReadRecordResult * list u8 * list nat) :=
  let? r := build cfg nfa in
  let? c := read_record true r (csv_bytes input) (replicate 8 x00) (replicate 8 0) in
  Ok (rc_result c, take (rc_nout c) (rc_output c), take (rc_nend c) (rc_ends c)).

(** With comments and a terminator other than the line feed, the table has no
    class for the line feed, and a comment does not end there: [config_ok] is
    needed. *)
Example comment_never_ends :
  first_row true (with_comment x23 (Term_Any x3b)) [0x23; 0x0a; 0x61; 0x3b]%Z = Ok (RR_Record, [x61], [1]) ∧
  first_row false (with_comment x23 (Term_Any x3b)) [0x23; 0x0a; 0x61; 0x3b]%Z = Ok (RR_InputEmpty, [], []).
Proof. split; vm_compute; reflexivity. Qed.

(** A comment that the end of the input ends: the table gives a record that is
    not there, the automaton does not. *)
Definition eof_after (nfa : bool) (cfg : CsvConfig) (input : list Z) : res unit ReadRecordResult :=
  let? r := build cfg nfa in
  let? c := read_record true r (csv_bytes input) (replicate 8 x00) (replicate 8 0) in
  let? c := read_record true (rc_reader c) [] (replicate 8 x00) (replicate 8 0) in
  Ok (rc_result c).

Example comment_at_the_end :
  eof_after false (with_comment x23 Term_CRLF) [0x23; 0x61]%Z = Ok RR_Record ∧
  eof_after true (with_comment x23 Term_CRLF) [0x23; 0x61]%Z = Ok RR_End.
Proof. split; vm_compute; reflexivity. Qed.

(** A first piece that is a byte order mark and nothing else: what is left of it is
    empty, which the reader takes for the end of the input. *)
Example mark_alone_ends :
  (let? r := build default_config false in
   let? c := read_record true r UTF8_BOM (replicate 8 x00) (replicate 8 0) in Ok (rc_result c, rc_nin c))
  = Ok (RR_End, 3).
Proof. vm_compute. reflexivity. Qed.

(** csv's reader over a source that gives three bytes at a time: a file with a mark
    has no records. *)
Example mark_alone_loses_file :
  (let? c := build default_config false in
   byte_records (IoError := Empty_set) true 9 40 (FileReader_new c 8 false true Trim_None
     (mkCursor (UTF8_BOM ++ [x61; x0a]) 0 2), ByteRecord_new)) = Ok [].
Proof. vm_compute. reflexivity. Qed.

(** A clone of a built reader has the transitions of the table but not its
    classes: it does not find the delimiter any more. *)
Example clone_loses_classes :
  let row (r : CsvReader) := (let? c := read_record true r [x61; x2c; x62; x0a] (replicate 8 x00) (replicate 8 0) in
    Ok (rc_result c, take (rc_nend c) (rc_ends c))) in
  (let? r := build default_config false in row r) = Ok (RR_Record, [1; 2]) ∧
  (let? r := build default_config false in row (CsvReader_clone r)) ≠ Ok (RR_Record, [1; 2]).
Proof. split; vm_compute; [reflexivity|discriminate]. Qed.

(** An escape byte is not escaped itself: the reader takes it for the escape of
    the closing quote. *)
Example escape_not_escaped :
  record_line (build_writer (WriterBuilder_new x2c (Term_Any LF) Necessary x22 x5c false)) [[x61; x5c]]
  = [x22; x61; x5c; x22; x0a].
Proof. vm_compute. reflexivity. Qed.

(** The style without quotes writes quotes for an empty record. *)
Example never_quotes :
  record_line (build_writer (WriterBuilder_new x2c (Term_Any LF) Never x22 x5c true)) [[]] = [x22; x22; x0a].
Proof. vm_compute. reflexivity. Qed.
