(* ===== verification/RingSha.v ===== *)
(** SHA-1 and SHA-2 of ring (ring/src/digest/sha1.rs, sha2.rs): the functions that
    take blocks into the state of a digest, as the Rust code has them for targets
    without assembly.

    A [Wrapping<u32>] or [Wrapping<u64>] is its value in [Z], with the width as an
    argument of the operations. *)
From Stdlib Require Import ZArith Lia Strings.Byte.
From stdpp Require Import base list numbers option.
From S2P Require Import Prelude.
#[local] Open Scope Z_scope.

(** * Words *)

Definition wadd (w a b : Z) : Z := (a + b) `mod` 2 ^ w.
Definition wnot (w x : Z) : Z := Z.lxor x (2 ^ w - 1).
Definition rotate_right (w x n : Z) : Z := Z.lor (Z.shiftr x n) (Z.shiftl x (w - n) `mod` 2 ^ w).
Definition rotate_left (w x n : Z) : Z := Z.lor (Z.shiftl x n `mod` 2 ^ w) (Z.shiftr x (w - n)).

Definition ch (w x y z : Z) : Z := Z.lor (Z.land x y) (Z.land (wnot w x) z).
Definition maj (x y z : Z) : Z := Z.lor (Z.lor (Z.land x y) (Z.land x z)) (Z.land y z).
Definition parity (x y z : Z) : Z := Z.lxor (Z.lxor x y) z.

(** [slice::from_raw_parts(data, num)] as [num] blocks of [len] bytes. *)
Fixpoint raw_blocks (len num : nat) (data : list byte) : list (list byte) :=
  match num with
  | O => []
  | S num => take len data :: raw_blocks len num (drop len data)
  end.

(** The words of a block, [W::InputBytes] bytes each. *)
Definition block_words (input_bytes : nat) (M : list byte) : list Z := from_be <$> raw_blocks input_bytes 16 M.

(** * SHA-2 *)

(** The traits [Word] and [Sha2]. *)
Record Sha2 : Type := mkSha2 {
  word_bits : Z;
  InputBytes : nat;
  BIG_SIGMA_0 : Z * Z * Z;
  BIG_SIGMA_1 : Z * Z * Z;
  SMALL_SIGMA_0 : Z * Z * Z;
  SMALL_SIGMA_1 : Z * Z * Z;
  K : list Z
}.

Section sha2.
Context (S : Sha2).
#[local] Abbreviation w := (word_bits S).

Definition big_sigma (r : Z * Z * Z) (x : Z) : Z :=
  Z.lxor (Z.lxor (rotate_right w x r.1.1) (rotate_right w x r.1.2)) (rotate_right w x r.2).
Definition small_sigma (r : Z * Z * Z) (x : Z) : Z :=
  Z.lxor (Z.lxor (rotate_right w x r.1.1) (rotate_right w x r.1.2)) (Z.shiftr x r.2).

Definition SIGMA_0 (x : Z) : Z := big_sigma (BIG_SIGMA_0 S) x.
Definition SIGMA_1 (x : Z) : Z := big_sigma (BIG_SIGMA_1 S) x.
Definition sigma_0 (x : Z) : Z := small_sigma (SMALL_SIGMA_0 S) x.
Definition sigma_1 (x : Z) : Z := small_sigma (SMALL_SIGMA_1 S) x.

(** Step 1: the array [W]. *)
Definition sha2_schedule (M : list byte) : list Z :=
  let W := splice 0 (block_words (InputBytes S) M) (replicate (length (K S)) 0) in
  fold_left (λ W t, <[t := wadd w (wadd w (wadd w (sigma_1 (W !!! (t - 2)%nat)) (W !!! (t - 7)%nat))
    (sigma_0 (W !!! (t - 15)%nat))) (W !!! (t - 16)%nat)]> W) (seq 16 (length (K S) - 16)) W.

(** Step 3: a round. *)
Definition sha2_round (v : Z * Z * Z * Z * Z * Z * Z * Z) (kw : Z * Z) : Z * Z * Z * Z * Z * Z * Z * Z :=
  let '(a, b, c, d, e, f, g, h) := v in
  let T1 := wadd w (wadd w (wadd w (wadd w h (SIGMA_1 e)) (ch w e f g)) kw.1) kw.2 in
  let T2 := wadd w (SIGMA_0 a) (maj a b c) in
  (wadd w T1 T2, a, b, c, wadd w d T1, e, f, g).

(** The state has 8 words. *)
Definition sha2_block (H : list Z) (M : list byte) : list Z :=
  match H with
  | [a; b; c; d; e; f; g; h] =>
      let '(a', b', c', d', e', f', g', h') :=
        fold_left sha2_round (zip (K S) (sha2_schedule M)) (a, b, c, d, e, f, g, h) in
      [wadd w a a'; wadd w b b'; wadd w c c'; wadd w d d'; wadd w e e'; wadd w f f'; wadd w g g'; wadd w h h']
  | _ => H
  end.

Definition sha2_block_data_order (H : list Z) (M : list byte) (num : nat) : list Z :=
  fold_left sha2_block (raw_blocks (16 * InputBytes S) num M) H.

End sha2.

(** The constants, some words to a row. *)
Definition words (input_bytes n : nat) (rows : list Z) : list Z :=
  rows ≫= λ row, from_be <$> raw_blocks input_bytes n (to_be (input_bytes * n) row).

Definition K_u32 : list Z := Eval cbv in words 4 8
  [0x428a2f98_71374491_b5c0fbcf_e9b5dba5_3956c25b_59f111f1_923f82a4_ab1c5ed5;
   0xd807aa98_12835b01_243185be_550c7dc3_72be5d74_80deb1fe_9bdc06a7_c19bf174;
   0xe49b69c1_efbe4786_0fc19dc6_240ca1cc_2de92c6f_4a7484aa_5cb0a9dc_76f988da;
   0x983e5152_a831c66d_b00327c8_bf597fc7_c6e00bf3_d5a79147_06ca6351_14292967;
   0x27b70a85_2e1b2138_4d2c6dfc_53380d13_650a7354_766a0abb_81c2c92e_92722c85;
   0xa2bfe8a1_a81a664b_c24b8b70_c76c51a3_d192e819_d6990624_f40e3585_106aa070;
   0x19a4c116_1e376c08_2748774c_34b0bcb5_391c0cb3_4ed8aa4a_5b9cca4f_682e6ff3;
   0x748f82ee_78a5636f_84c87814_8cc70208_90befffa_a4506ceb_bef9a3f7_c67178f2].

Definition Sha2_u32 : Sha2 := mkSha2 32 4 (2, 13, 22) (6, 11, 25) (7, 18, 3) (17, 19, 10) K_u32.

Definition K_u64 : list Z := Eval cbv in words 8 4
  [0x428a2f98d728ae22_7137449123ef65cd_b5c0fbcfec4d3b2f_e9b5dba58189dbbc;
   0x3956c25bf348b538_59f111f1b605d019_923f82a4af194f9b_ab1c5ed5da6d8118;
   0xd807aa98a3030242_12835b0145706fbe_243185be4ee4b28c_550c7dc3d5ffb4e2;
   0x72be5d74f27b896f_80deb1fe3b1696b1_9bdc06a725c71235_c19bf174cf692694;
   0xe49b69c19ef14ad2_efbe4786384f25e3_0fc19dc68b8cd5b5_240ca1cc77ac9c65;
   0x2de92c6f592b0275_4a7484aa6ea6e483_5cb0a9dcbd41fbd4_76f988da831153b5;
   0x983e5152ee66dfab_a831c66d2db43210_b00327c898fb213f_bf597fc7beef0ee4;
   0xc6e00bf33da88fc2_d5a79147930aa725_06ca6351e003826f_142929670a0e6e70;
   0x27b70a8546d22ffc_2e1b21385c26c926_4d2c6dfc5ac42aed_53380d139d95b3df;
   0x650a73548baf63de_766a0abb3c77b2a8_81c2c92e47edaee6_92722c851482353b;
   0xa2bfe8a14cf10364_a81a664bbc423001_c24b8b70d0f89791_c76c51a30654be30;
   0xd192e819d6ef5218_d69906245565a910_f40e35855771202a_106aa07032bbd1b8;
   0x19a4c116b8d2d0c8_1e376c085141ab53_2748774cdf8eeb99_34b0bcb5e19b48a8;
   0x391c0cb3c5c95a63_4ed8aa4ae3418acb_5b9cca4f7763e373_682e6ff3d6b2b8a3;
   0x748f82ee5defb2fc_78a5636f43172f60_84c87814a1f0ab72_8cc702081a6439ec;
   0x90befffa23631e28_a4506cebde82bde9_bef9a3f7b2c67915_c67178f2e372532b;
   0xca273eceea26619c_d186b8c721c0c207_eada7dd6cde0eb1e_f57d4f7fee6ed178;
   0x06f067aa72176fba_0a637dc5a2c898a6_113f9804bef90dae_1b710b35131c471b;
   0x28db77f523047d84_32caab7b40c72493_3c9ebe0a15c9bebc_431d67c49c100d4c;
   0x4cc5d4becb3e42b6_597f299cfc657e2a_5fcb6fab3ad6faec_6c44198c4a475817].

Definition Sha2_u64 : Sha2 := mkSha2 64 8 (28, 34, 39) (14, 18, 41) (1, 8, 7) (19, 61, 6) K_u64.

(** * SHA-1 *)

Definition sha1_step3 (v : Z * Z * Z * Z * Z) (W : list Z) (k : Z) (f : Z → Z → Z → Z) : Z * Z * Z * Z * Z :=
  fold_left (λ v W_t,
    let '(a, b, c, d, e) := v in
    let T := wadd 32 (wadd 32 (wadd 32 (wadd 32 (rotate_left 32 a 5) (f b c d)) e) k) W_t in
    (T, a, rotate_left 32 b 30, c, d)) W v.

Definition sha1_schedule (M : list byte) : list Z :=
  let W := splice 0 (block_words 4 M) (replicate 80 0) in
  fold_left (λ W t,
    let wt := Z.lxor (Z.lxor (Z.lxor (W !!! (t - 3)%nat) (W !!! (t - 8)%nat)) (W !!! (t - 14)%nat)) (W !!! (t - 16)%nat) in
    <[t := rotate_left 32 wt 1]> W) (seq 16 64) W.

(** The first five words of the state. *)
Definition sha1_block (H : list Z) (M : list byte) : list Z :=
  match H with
  | a :: b :: c :: d :: e :: rest =>
      let W := sha1_schedule M in
      let v := sha1_step3 (a, b, c, d, e) (take 20 W) 0x5a827999 (ch 32) in
      let v := sha1_step3 v (take 20 (drop 20 W)) 0x6ed9eba1 parity in
      let v := sha1_step3 v (take 20 (drop 40 W)) 0x8f1bbcdc maj in
      let '(a', b', c', d', e') := sha1_step3 v (take 20 (drop 60 W)) 0xca62c1d6 parity in
      wadd 32 a a' :: wadd 32 b b' :: wadd 32 c c' :: wadd 32 d d' :: wadd 32 e e' :: rest
  | _ => H
  end.

Definition sha1_block_data_order (H : list Z) (M : list byte) (num : nat) : list Z :=
  fold_left sha1_block (raw_blocks 64 num M) H.

(** * Laws *)

Lemma raw_blocks_app len n1 n2 d1 d2 :
  length d1 = (n1 * len)%nat → raw_blocks len (n1 + n2) (d1 ++ d2) = raw_blocks len n1 d1 ++ raw_blocks len n2 d2.
Proof.
  revert d1. induction n1 as [|n1 IH]; intros d1 Hl; cbn [raw_blocks Nat.add app].
  - by destruct d1.
  - rewrite take_app_le, drop_app_le by lia. rewrite IH by (rewrite length_drop; lia). done.
Qed.

(** Blocks are taken one after the other. *)
Definition composes (len : nat) (f : list Z → list byte → nat → list Z) : Prop :=
  ∀ H d1 d2 n1 n2, length d1 = (n1 * len)%nat → f H (d1 ++ d2) (n1 + n2)%nat = f (f H d1 n1) d2 n2.

Lemma fold_composes len (f : list Z → list byte → list Z) : composes len (λ H M num, fold_left f (raw_blocks len num M) H).
Proof. intros H d1 d2 n1 n2 Hl. by rewrite raw_blocks_app, fold_left_app. Qed.

Lemma sha2_composes S : composes (16 * InputBytes S) (sha2_block_data_order S).
Proof. apply (fold_composes _ (sha2_block S)). Qed.
Lemma sha1_composes : composes 64 sha1_block_data_order.
Proof. apply (fold_composes _ sha1_block). Qed.
