(* ===== verification/RingDigest.v ===== *)
(** Digests of ring (ring/src/digest.rs): the algorithms, the contexts that take
    input in pieces, the padding of the last block.

    [State] and [Output] are unions: a state is its eight words, which an algorithm
    reads at one width only, and an output its bytes in memory. *)
From Stdlib Require Import ZArith Lia Strings.Byte.
From stdpp Require Import base list numbers option.
From S2P Require Import Prelude.
From S2P Require Import RingSha.
Open Scope rust_scope.

(** * Algorithms *)

Inductive AlgorithmID : Type := SHA1 | SHA256_ | SHA384_ | SHA512_ | SHA512_256_.

#[export] Instance AlgorithmID_eq_dec : EqDecision AlgorithmID.
Proof. solve_decision. Defined.

Record Algorithm : Type := mkAlgorithm {
  output_len : nat;
  chaining_len : nat;
  block_len : nat;
  len_len : nat;
  block_data_order : list Z → list byte → nat → list Z;
  format_output : list Z → list byte;
  initial_state : list Z;
  id : AlgorithmID
}.

(** [impl PartialEq for Algorithm] *)
Definition Algorithm_eq (a b : Algorithm) : bool := bool_decide (id a = id b).

(** [BigEndian::from] of each word. *)
Definition sha256_format_output (input : list Z) : list byte := input ≫= to_be 4.
Definition sha512_format_output (input : list Z) : list byte := input ≫= to_be 8.

Definition SHA512_BLOCK_LEN : nat := 128.
Definition SHA512_LEN_LEN : nat := 16.
Definition MAX_BLOCK_LEN : nat := 128.
Definition MAX_OUTPUT_LEN : nat := 64.

Definition SHA1_FOR_LEGACY_USE_ONLY : Algorithm :=
  mkAlgorithm 20 20 64 8 sha1_block_data_order sha256_format_output
    [0x67452301; 0xefcdab89; 0x98badcfe; 0x10325476; 0xc3d2e1f0; 0; 0; 0]%Z SHA1.

Definition SHA256 : Algorithm :=
  mkAlgorithm 32 32 64 8 (sha2_block_data_order Sha2_u32) sha256_format_output
    [0x6a09e667; 0xbb67ae85; 0x3c6ef372; 0xa54ff53a; 0x510e527f; 0x9b05688c; 0x1f83d9ab; 0x5be0cd19]%Z SHA256_.

Definition SHA384 : Algorithm :=
  mkAlgorithm 48 64 SHA512_BLOCK_LEN SHA512_LEN_LEN (sha2_block_data_order Sha2_u64) sha512_format_output
    [0xcbbb9d5dc1059ed8; 0x629a292a367cd507; 0x9159015a3070dd17; 0x152fecd8f70e5939;
     0x67332667ffc00b31; 0x8eb44a8768581511; 0xdb0c2e0d64f98fa7; 0x47b5481dbefa4fa4]%Z SHA384_.

Definition SHA512 : Algorithm :=
  mkAlgorithm 64 64 SHA512_BLOCK_LEN SHA512_LEN_LEN (sha2_block_data_order Sha2_u64) sha512_format_output
    [0x6a09e667f3bcc908; 0xbb67ae8584caa73b; 0x3c6ef372fe94f82b; 0xa54ff53a5f1d36f1;
     0x510e527fade682d1; 0x9b05688c2b3e6c1f; 0x1f83d9abfb41bd6b; 0x5be0cd19137e2179]%Z SHA512_.

Definition SHA512_256 : Algorithm :=
  mkAlgorithm 32 64 SHA512_BLOCK_LEN SHA512_LEN_LEN (sha2_block_data_order Sha2_u64) sha512_format_output
    [0x22312194fc2bf72c; 0x9f555fa3c84c64c2; 0x2393b86b6f53b151; 0x963877195940eabd;
     0x96283ee2a88effe3; 0xbe5e1e2553863992; 0x2b0199fc2c85b8aa; 0x0eb72ddc81c52ca2]%Z SHA512_256_.

Definition ALGORITHMS : list Algorithm := [SHA1_FOR_LEGACY_USE_ONLY; SHA256; SHA384; SHA512; SHA512_256].

(** * Contexts *)

Record Digest : Type := mkDigest { digest_algorithm : Algorithm; value : list byte }.

Definition Digest_as_ref (d : Digest) : list byte := take (output_len (digest_algorithm d)) (value d).

Record BlockContext : Type := mkBlockContext {
  state : list Z;
  completed_data_blocks : Z;
  algorithm : Algorithm
}.

Record Context : Type := mkContext {
  block : BlockContext;
  pending : list byte;
  num_pending : nat
}.

Section operations.
Context {E : Type}.
#[local] Abbreviation res := (res E).

(** [u64::checked_add] and [checked_mul], unwrapped. *)
Definition u64_checked (z : Z) : res Z := if bool_decide (z < 2 ^ 64)%Z then Ok z else Panic.

(** [polyfill::slice::fill(&mut l[a..b], v)] *)
Definition fill_slice {A} (a b : nat) (v : A) (l : list A) : res (list A) :=
  if bool_decide (a ≤ b) && bool_decide (b ≤ length l) then Ok (splice a (replicate (b - a) v) l) else Panic.

Definition BlockContext_new (a : Algorithm) : BlockContext := mkBlockContext (initial_state a) 0 a.

Definition BlockContext_update (b : BlockContext) (input : list byte) : res BlockContext :=
  let num_blocks := length input / block_len (algorithm b) in
  if negb (num_blocks * block_len (algorithm b) =? length input) then Panic else
  if 0 <? num_blocks then
    let s := block_data_order (algorithm b) (state b) input num_blocks in
    let? n := u64_checked (completed_data_blocks b + Z.of_nat num_blocks) in
    Ok (mkBlockContext s n (algorithm b))
  else Ok b.

Definition BlockContext_finish (b : BlockContext) (pending : list byte) (num_pending : nat) : res Digest :=
  let a := algorithm b in
  if negb (length pending =? block_len a) then Panic else
  if negb (num_pending <=? length pending) then Panic else
  let? pending := write_at pending num_pending x80 in
  let padding_pos := S num_pending in
  let? (pending, s, padding_pos) :=
    (if block_len a - len_len a <? padding_pos then
       let? pending := fill_slice padding_pos (block_len a) x00 pending in
       Ok (pending, block_data_order a (state b) pending 1, 0)
     else Ok (pending, state b, padding_pos)) in
  let? pending := fill_slice padding_pos (block_len a - 8) x00 pending in
  let? bytes := u64_checked (completed_data_blocks b * Z.of_nat (block_len a)) in
  let? bytes := u64_checked (bytes + Z.of_nat num_pending) in
  let? completed_data_bits := u64_checked (bytes * 8) in
  let? pending := copy_at (block_len a - 8) (to_be 8 completed_data_bits) pending in
  Ok (mkDigest a (format_output a (block_data_order a s pending 1))).

Definition Context_clone_from (b : BlockContext) : Context := mkContext b (replicate MAX_BLOCK_LEN x00) 0.
Definition Context_new (a : Algorithm) : Context := Context_clone_from (BlockContext_new a).

(** The rest of [update] once no bytes are pending. *)
Definition Context_update_blocks (c : Context) (remaining : list byte) : res Context :=
  let bl := block_len (algorithm (block c)) in
  let num_blocks := length remaining / bl in
  let num_to_save_for_later := length remaining mod bl in
  let? input := slice 0 (num_blocks * bl) remaining in
  let? b := BlockContext_update (block c) input in
  if 0 <? num_to_save_for_later then
    let? src := slice (length remaining - num_to_save_for_later) (length remaining) remaining in
    let? p := copy_at 0 src (pending c) in
    Ok (mkContext b p num_to_save_for_later)
  else Ok (mkContext b (pending c) (num_pending c)).

Definition Context_update (c : Context) (data : list byte) : res Context :=
  let bl := block_len (algorithm (block c)) in
  if bl <? num_pending c then Panic else
  if length data <? bl - num_pending c then
    let? p := copy_at (num_pending c) data (pending c) in
    Ok (mkContext (block c) p (num_pending c + length data))
  else if 0 <? num_pending c then
    let to_copy := bl - num_pending c in
    let? src := slice 0 to_copy data in
    let? p := copy_at (num_pending c) src (pending c) in
    let? input := slice 0 bl p in
    let? b := BlockContext_update (block c) input in
    let? remaining := slice to_copy (length data) data in
    Context_update_blocks (mkContext b p 0) remaining
  else Context_update_blocks c data.

Definition Context_finish (c : Context) : res Digest :=
  let? p := slice 0 (block_len (algorithm (block c))) (pending c) in
  BlockContext_finish (block c) p (num_pending c).

Definition digest (a : Algorithm) (data : list byte) : res Digest :=
  let? ctx := Context_update (Context_new a) data in
  Context_finish ctx.

(** Several calls of [update], then [finish]. *)
Definition finish_pieces (c : Context) (pieces : list (list byte)) : res Digest :=
  let? c := for_each Context_update pieces c in Context_finish c.

End operations.

(** * The functions of the standard *)

(** The padding of FIPS 180-4 5.1, and the hash of a message as a whole. *)
Definition zeros (a : Algorithm) (len : nat) : nat :=
  (block_len a - (len + 1 + len_len a) mod block_len a) mod block_len a.
Definition fips_pad (a : Algorithm) (msg : list byte) : list byte :=
  msg ++ [x80] ++ replicate (zeros a (length msg)) x00 ++ to_be (len_len a) (8 * Z.of_nat (length msg)).

(** All blocks of a text, from the initial state. *)
Definition chain (a : Algorithm) (text : list byte) : list Z :=
  block_data_order a (initial_state a) text (length text / block_len a).
Definition full_hash (a : Algorithm) (msg : list byte) : list byte := format_output a (chain a (fips_pad a msg)).
Definition hash (a : Algorithm) (msg : list byte) : list byte := take (output_len a) (full_hash a msg).

(** The length of a message in bits has 64 bits. *)
Definition fits (len : nat) : Prop := (8 * Z.of_nat len < 2 ^ 64)%Z.
#[export] Instance fits_dec len : Decision (fits len).
Proof. unfold fits. apply _. Defined.

(** What the contexts need of an algorithm, and the five have. *)
Record AlgorithmOk (a : Algorithm) : Prop := {
  ok_composes : composes (block_len a) (block_data_order a);
  ok_nil H : block_data_order a H [] 0 = H;
  ok_words H d n : length H = 8 → length (block_data_order a H d n) = 8;
  ok_init : length (initial_state a) = 8;
  ok_format s : length s = 8 → output_len a ≤ length (format_output a s);
  ok_len_len : 8 ≤ len_len a < block_len a;
  ok_block_len : block_len a ≤ MAX_BLOCK_LEN;
  ok_output_len : 0 < output_len a ∧ output_len a < block_len a ∧ output_len a ≤ MAX_OUTPUT_LEN
}.

Lemma length_words k s : length (s ≫= to_be k) = length s * k.
Proof. induction s as [|x s IH]; [done|]. cbn. rewrite length_app, length_to_be, IH. lia. Qed.

Lemma sha2_words S H M num : length H = 8 → length (sha2_block_data_order S H M num) = 8.
Proof.
  unfold sha2_block_data_order. generalize (raw_blocks (16 * InputBytes S) num M). intros bs. revert H.
  induction bs as [|b bs IH]; intros H Hl; [done|]. cbn [fold_left]. apply IH. unfold sha2_block.
  do 8 (destruct H as [|? H]; [done|]). destruct H; [|done].
  by destruct (fold_left (sha2_round S) _ _) as [[[[[[[]]]]]]].
Qed.

Lemma sha1_words H M num : length H = 8 → length (sha1_block_data_order H M num) = 8.
Proof.
  unfold sha1_block_data_order. generalize (raw_blocks 64 num M). intros bs. revert H.
  induction bs as [|b bs IH]; intros H Hl; [done|]. cbn [fold_left]. apply IH. unfold sha1_block.
  do 5 (destruct H as [|? H]; [done|]). by destruct (sha1_step3 _ _ 0xca62c1d6 _) as [[[[]]]].
Qed.

Lemma sha1_ok : AlgorithmOk SHA1_FOR_LEGACY_USE_ONLY.
Proof.
  split; [apply sha1_composes|done|apply sha1_words|done| |vm_compute; lia..].
  intros s Hs. cbn [output_len format_output SHA1_FOR_LEGACY_USE_ONLY]. unfold sha256_format_output. rewrite length_words. lia.
Qed.

(** The four algorithms of SHA-2. *)
Lemma sha2_ok S output chaining bl ll k init i :
  length init = 8 → bl = 16 * InputBytes S → 8 ≤ ll < bl → bl ≤ MAX_BLOCK_LEN →
  0 < output < bl → output ≤ 8 * k → output ≤ MAX_OUTPUT_LEN →
  AlgorithmOk (mkAlgorithm output chaining bl ll (sha2_block_data_order S) (λ s, s ≫= to_be k) init i).
Proof.
  intros Hi -> Hll Hbl Ho Hk Hm. split; cbn [output_len block_len len_len block_data_order format_output initial_state];
    try lia; [apply sha2_composes|done|apply sha2_words|].
  intros s Hs. rewrite length_words. lia.
Qed.

Lemma algorithms_ok a : a ∈ ALGORITHMS → AlgorithmOk a.
Proof.
  intros Ha. unfold ALGORITHMS in Ha. rewrite !elem_of_cons, elem_of_nil in Ha.
  destruct_or?; subst; [apply sha1_ok|..]; apply sha2_ok; vm_compute; done || lia.
Qed.

(** The high bytes of a length of 64 bits. *)
Lemma to_be_high k v : (0 ≤ v < 2 ^ 64)%Z → to_be (k + 8) v = replicate k x00 ++ to_be 8 v.
Proof.
  intros Hv. induction k as [|k IH]; [done|]. 
  change (to_be (S k + 8) v) with (byte_of (v `div` 256 ^ Z.of_nat (k + 8)) :: to_be (k + 8) v).
  rewrite IH. cbn [replicate app]. f_equal.
  rewrite Z.div_small; [done|]. rewrite Nat2Z.inj_add, Z.pow_add_r by lia.
  change (256 ^ Z.of_nat 8)%Z with (2 ^ 64)%Z. pose proof (Z.pow_pos_nonneg 256 (Z.of_nat k)). nia.
Qed.

Section laws.
Context (a : Algorithm) (OK : AlgorithmOk a).
#[local] Abbreviation bl := (block_len a).
#[local] Abbreviation ll := (len_len a).

Lemma bl_pos : 8 < bl.
Proof. pose proof (ok_len_len a OK). lia. Qed.

Lemma length_full_hash msg : output_len a ≤ length (full_hash a msg).
Proof. apply (ok_format a OK), (ok_words a OK), (ok_init a OK). Qed.

Lemma length_hash msg : length (hash a msg) = output_len a.
Proof. unfold hash. rewrite length_take. pose proof (length_full_hash msg). lia. Qed.

Lemma zeros_eq n t :
  t < bl → zeros a (n * bl + t) = if bl - ll <? S t then 2 * bl - ll - S t else bl - ll - S t.
Proof.
  intros Ht. unfold zeros. pose proof (ok_len_len a OK) as Hll.
  replace (n * bl + t + 1 + ll) with (t + 1 + ll + n * bl) by lia. rewrite Nat.Div0.mod_add.
  destruct (Nat.ltb_spec (bl - ll) (S t)) as [H|H].
  - replace (t + 1 + ll) with (t + 1 + ll - bl + 1 * bl) by lia.
    rewrite Nat.Div0.mod_add, (Nat.mod_small (t + 1 + ll - bl)) by lia. rewrite Nat.mod_small; lia.
  - destruct (decide (t + 1 + ll = bl)) as [E|E].
    + rewrite E, Nat.Div0.mod_same, Nat.sub_0_r, Nat.Div0.mod_same. lia.
    + rewrite (Nat.mod_small (t + 1 + ll)) by lia. rewrite Nat.mod_small; lia.
Qed.

(** The blocks that the padding makes of the end of a message. *)
Definition tail_text (tl : list byte) (bits : Z) : list byte :=
  if bl - ll <? S (length tl) then
    (tl ++ [x80] ++ replicate (bl - S (length tl)) x00) ++ (replicate (bl - 8) x00 ++ to_be 8 bits)
  else tl ++ [x80] ++ replicate (bl - 8 - S (length tl)) x00 ++ to_be 8 bits.

Lemma fips_pad_tail blocks tl n :
  length blocks = n * bl → length tl < bl → fits (length (blocks ++ tl)) →
  fips_pad a (blocks ++ tl) = blocks ++ tail_text tl (8 * Z.of_nat (length (blocks ++ tl))).
Proof.
  intros Hn Ht Hf. unfold fips_pad. set (bits := (8 * _)%Z). rewrite length_app, Hn, zeros_eq by done.
  pose proof (ok_len_len a OK) as Hll. replace (to_be ll bits) with (replicate (ll - 8) x00 ++ to_be 8 bits).
  2:{ rewrite <- to_be_high by (unfold fits in Hf; lia). f_equal. lia. }
  unfold tail_text. rewrite <- app_assoc. f_equal.
  destruct (Nat.ltb_spec (bl - ll) (S (length tl))); rewrite <- ?app_assoc; do 2 f_equal;
    rewrite ?app_assoc, <- ?replicate_add; do 2 f_equal; lia.
Qed.

(** The block of a context has taken these blocks. *)
Definition absorbed (text : list byte) (b : BlockContext) : Prop :=
  ∃ n, length text = n * bl ∧ (Z.of_nat n < 2 ^ 64)%Z ∧
    b = mkBlockContext (block_data_order a (initial_state a) text n) (Z.of_nat n) a.

(** A context has taken this message. *)
Definition holds (msg : list byte) (c : Context) : Prop :=
  ∃ blocks tl, msg = blocks ++ tl ∧ absorbed blocks (block c) ∧ length tl < bl ∧ num_pending c = length tl ∧
    length (pending c) = MAX_BLOCK_LEN ∧ take (length tl) (pending c) = tl.

Lemma absorbed_new : absorbed [] (BlockContext_new a).
Proof. exists 0. split_and!; [done|lia|]. unfold BlockContext_new. by rewrite (ok_nil a OK). Qed.

Lemma absorbed_algorithm text b : absorbed text b → algorithm b = a.
Proof. by intros (n & _ & _ & ->). Qed.

Lemma holds_clone_from text b : absorbed text b → holds text (Context_clone_from b).
Proof.
  intros Hb. exists text, []. split_and!; [by rewrite app_nil_r|done| |done| |done].
  - cbn. pose proof bl_pos. lia.
  - apply length_replicate.
Qed.

Lemma holds_new : holds [] (Context_new a).
Proof. apply holds_clone_from, absorbed_new. Qed.

Lemma BlockContext_update_spec {E} text b input k :
  absorbed text b → length input = k * bl →
  if decide (Z.of_nat ((length text + length input) / bl) < 2 ^ 64)%Z
  then ∃ b', BlockContext_update (E := E) b input = Ok b' ∧ absorbed (text ++ input) b'
  else BlockContext_update (E := E) b input = Panic.
Proof.
  intros (n & Hn & Hlt & ->) Hk. pose proof bl_pos as Hbl. unfold BlockContext_update. cbn [algorithm state completed_data_blocks].
  rewrite Hn, Hk, <- Nat.mul_add_distr_r, !Nat.div_mul, Nat.eqb_refl by lia. cbn [negb].
  destruct (Nat.ltb_spec 0 k) as [Hk0|Hk0].
  - unfold u64_checked. destruct (decide _) as [H|H].
    + rewrite bool_decide_true by lia. cbn. eexists. split; [done|].
      exists (n + k). rewrite length_app, Hn, Hk, Nat2Z.inj_add. split_and!; [lia|lia|]. by rewrite (ok_composes a OK).
    + by rewrite bool_decide_false by lia.
  - destruct k; [|lia]. destruct input; [|done]. rewrite decide_True by lia. eexists. split; [done|].
    rewrite app_nil_r. by exists n.
Qed.

Lemma absorbed_length text b : absorbed text b → ∃ n, length text = n * bl ∧ (Z.of_nat n < 2 ^ 64)%Z.
Proof. intros (n & Hn & Hlt & _). eauto. Qed.

Lemma splice_take {A} (l src : list A) :
  length src ≤ length l → take (length src) (splice 0 src l) = src.
Proof. intros H. unfold splice. rewrite take_0. cbn [app]. apply take_app_length. Qed.

Lemma Context_update_blocks_spec {E} msg c data :
  holds msg c → num_pending c = 0 →
  if decide (Z.of_nat ((length msg + length data) / bl) < 2 ^ 64)%Z
  then ∃ c', Context_update_blocks (E := E) c data = Ok c' ∧ holds (msg ++ data) c'
  else Context_update_blocks (E := E) c data = Panic.
Proof.
  intros (blocks & tl & -> & Hb & _ & Hn & Hlen & _) H0. rewrite Hn in H0. destruct tl; [|done]. rewrite app_nil_r.
  pose proof bl_pos as Hbl. pose proof (ok_block_len a OK) as Hmax.
  unfold Context_update_blocks. rewrite (absorbed_algorithm _ _ Hb).
  set (k := length data / bl). set (m := length data mod bl).
  assert (Hdata : length data = k * bl + m) by (pose proof (Nat.div_mod_eq (length data) bl); unfold k, m; lia).
  assert (Hm : m < bl) by (apply Nat.mod_upper_bound; lia).
  rewrite slice_Ok, drop_0, Nat.sub_0_r by lia. cbn [res_bind].
  assert (Hk : length (take (k * bl) data) = k * bl) by (rewrite length_take; lia).
  pose proof (BlockContext_update_spec (E := E) _ _ _ _ Hb Hk) as Hu.
  destruct (absorbed_length _ _ Hb) as (n & Hbn & Hlt).
  assert (E1 : (length blocks + length (take (k * bl) data)) / bl = n + k)
    by (rewrite Hbn, Hk, <- Nat.mul_add_distr_r, Nat.div_mul; lia).
  assert (E2 : (length blocks + length data) / bl = n + k).
  { rewrite Hbn, Hdata, Nat.add_assoc, <- Nat.mul_add_distr_r, Nat.div_add_l, (Nat.div_small m) by lia. lia. }
  rewrite E1 in Hu. rewrite E2. destruct (decide _) as [H|H]; [|by rewrite Hu].
  destruct Hu as (b' & -> & Hb'). cbn [res_bind].
  destruct (Nat.ltb_spec 0 m) as [Hm0|Hm0].
  - rewrite slice_Ok by lia. cbn [res_bind]. replace (length data - m) with (k * bl) by lia.
    replace (length data - k * bl) with m by lia. rewrite (take_ge (drop _ _)) by (rewrite length_drop; lia).
    rewrite copy_at_Ok by (rewrite length_drop; lia). cbn [res_bind]. eexists. split; [done|].
    exists (blocks ++ take (k * bl) data), (drop (k * bl) data). cbn [block pending num_pending].
    assert (Hd : length (drop (k * bl) data) = m) by (rewrite length_drop; lia).
    split_and!; [by rewrite <- app_assoc, take_drop|done|lia|done| |].
    + rewrite length_splice; [done|lia].
    + apply splice_take. lia.
  - eexists. split; [done|]. exists (blocks ++ take (k * bl) data), []. cbn [block pending num_pending].
    rewrite take_ge in Hb' |- * by lia. split_and!; [by rewrite app_nil_r|done|cbn; lia|done|done|done].
Qed.

Lemma Context_update_spec {E} msg c data :
  holds msg c →
  if decide (Z.of_nat ((length msg + length data) / bl) < 2 ^ 64)%Z
  then ∃ c', Context_update (E := E) c data = Ok c' ∧ holds (msg ++ data) c'
  else Context_update (E := E) c data = Panic.
Proof.
  intros Hc. pose proof Hc as (blocks & tl & -> & Hb & Htl & Hn & Hlen & Htake).
  pose proof bl_pos as Hbl. pose proof (ok_block_len a OK) as Hmax. destruct (absorbed_length _ _ Hb) as (n & Hbn & Hlt).
  unfold Context_update. rewrite (absorbed_algorithm _ _ Hb), Hn.
  destruct (Nat.ltb_spec bl (length tl)); [lia|]. destruct (Nat.ltb_spec (length data) (bl - length tl)) as [Hs|Hs].
  - rewrite decide_True.
    2:{ rewrite length_app, Hbn, <- Nat.add_assoc, Nat.div_add_l, (Nat.div_small (_ + _)) by lia. lia. }
    rewrite copy_at_Ok by lia. cbn [res_bind]. eexists. split; [done|].
    exists blocks, (tl ++ data). cbn [block pending num_pending]. rewrite length_app.
    split_and!; [by rewrite app_assoc|done|lia|done|by rewrite length_splice by lia|].
    unfold splice. rewrite Htake, app_assoc. apply take_app_length'. rewrite length_app. lia.
  - destruct (Nat.ltb_spec 0 (length tl)) as [H0|H0]; [|apply Context_update_blocks_spec; [done|lia]].
    rewrite slice_Ok, drop_0, Nat.sub_0_r by lia. cbn [res_bind].
    set (src := take (bl - length tl) data).
    assert (Hsrc : length src = bl - length tl) by (unfold src; rewrite length_take; lia).
    rewrite copy_at_Ok by lia. cbn [res_bind].
    assert (Hp : take bl (splice (length tl) src (pending c)) = tl ++ src).
    { unfold splice. rewrite Htake, app_assoc. apply take_app_length'. rewrite length_app. lia. }
    rewrite slice_Ok, drop_0, Nat.sub_0_r, Hp by (rewrite ?length_splice; lia). cbn [res_bind].
    assert (Hk : length (tl ++ src) = 1 * bl) by (rewrite length_app; lia).
    pose proof (BlockContext_update_spec (E := E) _ _ _ _ Hb Hk) as Hu.
    assert (E1 : (length blocks + length (tl ++ src)) / bl = n + 1)
      by (rewrite Hbn, Hk, <- Nat.mul_add_distr_r, Nat.div_mul; lia).
    assert (E2 : n + 1 ≤ (length (blocks ++ tl) + length data) / bl).
    { rewrite <- E1. apply Nat.Div0.div_le_mono. rewrite !length_app. lia. }
    rewrite E1 in Hu. destruct (decide (Z.of_nat (n + 1) < _)%Z) as [H1|H1].
    2:{ rewrite Hu. by rewrite decide_False by lia. }
    destruct Hu as (b' & -> & Hb'). cbn [res_bind]. rewrite slice_Ok by lia. cbn [res_bind].
    rewrite (take_ge (drop _ _)) by (rewrite length_drop; lia).
    assert (Hc' : holds (blocks ++ tl ++ src) (mkContext b' (splice (length tl) src (pending c)) 0)).
    { exists (blocks ++ tl ++ src), []. cbn [block pending num_pending].
      split_and!; [by rewrite app_nil_r|done|cbn; lia|done|by rewrite length_splice by lia|done]. }
    pose proof (Context_update_blocks_spec (E := E) _ _ (drop (bl - length tl) data) Hc' eq_refl) as Hr.
    replace (length (blocks ++ tl ++ src) + length (drop (bl - length tl) data)) with (length (blocks ++ tl) + length data) in Hr
      by (rewrite !length_app, length_drop; lia).
    replace ((blocks ++ tl ++ src) ++ drop (bl - length tl) data) with ((blocks ++ tl) ++ data) in Hr; [done|].
    rewrite <- !app_assoc. do 2 f_equal. unfold src. by rewrite take_drop.
Qed.

Lemma fill_slice_Ok {E A} i j (v : A) l :
  i ≤ j → j ≤ length l → fill_slice (E := E) i j v l = Ok (take i l ++ replicate (j - i) v ++ drop j l).
Proof.
  intros Hi Hj. unfold fill_slice. rewrite !bool_decide_true by done. cbn [andb]. unfold splice.
  rewrite length_replicate. by replace (i + (j - i)) with j by lia.
Qed.

(** The three checks of the length in bits are one. *)
Lemma checked_bits {E A} n t (k : Z → res E A) :
  (let? bytes := u64_checked (Z.of_nat n * Z.of_nat bl) in
   let? bytes := u64_checked (bytes + Z.of_nat t) in
   let? bits := u64_checked (bytes * 8) in k bits) =
  if decide (fits (n * bl + t)) then k (8 * Z.of_nat (n * bl + t))%Z else Panic.
Proof.
  assert (Hx : Z.of_nat (n * bl + t) = (Z.of_nat n * Z.of_nat bl + Z.of_nat t)%Z) by lia.
  unfold u64_checked, fits. set (x := (Z.of_nat n * Z.of_nat bl)%Z) in *. assert (0 ≤ x)%Z by (unfold x; lia). destruct (decide _) as [H1|H1].
  - rewrite !bool_decide_true by lia. cbn [res_bind]. rewrite bool_decide_true by lia. cbn [res_bind].
    rewrite bool_decide_true by lia. cbn [res_bind]. f_equal. lia.
  - destruct (decide (x < 2 ^ 64)%Z) as [H2|H2]; [rewrite bool_decide_true by done|by rewrite bool_decide_false].
    cbn [res_bind]. destruct (decide (x + Z.of_nat t < 2 ^ 64)%Z) as [H3|H3];
      [rewrite bool_decide_true by done|by rewrite bool_decide_false].
    cbn [res_bind]. by rewrite bool_decide_false by lia.
Qed.

Lemma take_written (tl p : list byte) :
  length tl < length p → take (length tl) p = tl → take (S (length tl)) (<[length tl := x80]> p) = tl ++ [x80].
Proof.
  intros Hl Ht. rewrite <- (take_drop (length tl) p), Ht.
  destruct (drop (length tl) p) as [|y q] eqn:Hd. { apply (f_equal length) in Hd. rewrite length_drop in Hd. cbn in Hd. lia. }
  rewrite insert_app_r_alt, Nat.sub_diag by done. cbn. change (x80 :: q) with ([x80] ++ q). rewrite app_assoc.
  apply take_app_length'. rewrite length_app. cbn. lia.
Qed.

(** The last block: zeros up to the length, and the length. *)
Lemma last_block {E} s i n t (p : list byte) :
  i ≤ bl - 8 → length p = bl →
  (let? p := fill_slice (E := E) i (bl - 8) x00 p in
   let? bytes := u64_checked (Z.of_nat n * Z.of_nat bl) in
   let? bytes := u64_checked (bytes + Z.of_nat t) in
   let? bits := u64_checked (bytes * 8) in
   let? p := copy_at (bl - 8) (to_be 8 bits) p in
   Ok (mkDigest a (format_output a (block_data_order a s p 1)))) =
  if decide (fits (n * bl + t))
  then Ok (mkDigest a (format_output a (block_data_order a s
    (take i p ++ replicate (bl - 8 - i) x00 ++ to_be 8 (8 * Z.of_nat (n * bl + t))) 1)))
  else Panic.
Proof.
  intros Hi Hp. pose proof bl_pos as Hbl. rewrite fill_slice_Ok by lia. cbn [res_bind]. rewrite checked_bits.
  destruct (decide _) as [_|_]; [|done]. set (bits := (8 * _)%Z).
  assert (Hq : length (take i p ++ replicate (bl - 8 - i) x00) = bl - 8) by (rewrite length_app, length_take, length_replicate; lia).
  rewrite !app_assoc. set (q := take i p ++ replicate (bl - 8 - i) x00) in *.
  assert (H8 : length (drop (bl - 8) p) = 8) by (rewrite length_drop; lia).
  rewrite copy_at_Ok by (rewrite length_app, Hq, H8, length_to_be; lia). cbn [res_bind].
  rewrite <- Hq at 1. rewrite <- (app_nil_r (drop (bl - 8) p)). rewrite splice_app by (rewrite H8; by rewrite length_to_be).
  by rewrite app_nil_r.
Qed.

(** The blocks of the text, and the last ones. *)
Lemma full_hash_tail blocks tl n :
  length blocks = n * bl → length tl < bl → fits (length (blocks ++ tl)) →
  ∀ text, text = tail_text tl (8 * Z.of_nat (length (blocks ++ tl))) →
  full_hash a (blocks ++ tl) = format_output a
    (block_data_order a (block_data_order a (initial_state a) blocks n) text (length text / bl)).
Proof.
  intros Hn Htl Hf text ->. pose proof bl_pos. unfold full_hash, chain. rewrite (fips_pad_tail _ _ n) by done. f_equal.
  set (text := tail_text _ _). rewrite length_app, Hn, Nat.div_add_l by lia. by apply (ok_composes a OK).
Qed.

Lemma BlockContext_finish_spec {E} blocks tl b p :
  absorbed blocks b → length p = bl → length tl < bl → take (length tl) p = tl →
  BlockContext_finish (E := E) b p (length tl) =
  if decide (fits (length (blocks ++ tl))) then Ok (mkDigest a (full_hash a (blocks ++ tl))) else Panic.
Proof.
  intros (n & Hn & Hlt & ->) Hp Htl Htake. pose proof bl_pos as Hbl. pose proof (ok_len_len a OK) as Hll.
  unfold BlockContext_finish. cbn [algorithm state completed_data_blocks]. rewrite Hp, Nat.eqb_refl.
  destruct (Nat.leb_spec (length tl) bl); [|lia]. cbn [negb]. rewrite write_at_Ok by lia. cbn [res_bind].
  assert (Hw := take_written tl p ltac:(lia) Htake). set (p1 := <[length tl:=x80]> p) in *.
  assert (Hp1 : length p1 = bl) by (unfold p1; rewrite length_insert; lia).
  assert (Hlen : length (blocks ++ tl) = n * bl + length tl) by (rewrite length_app; lia).
  pose proof (full_hash_tail blocks tl n Hn Htl) as Hfull. rewrite Hlen in *. unfold tail_text in Hfull.
  destruct (Nat.ltb_spec (bl - ll) (S (length tl))) as [Hc|Hc].
  - rewrite fill_slice_Ok, Hw, drop_ge, app_nil_r, <- app_assoc by lia. cbn [res_bind].
    set (B1 := tl ++ [x80] ++ replicate (bl - S (length tl)) x00) in *.
    assert (HB1 : length B1 = bl) by (unfold B1; rewrite !length_app, length_replicate; cbn; lia).
    rewrite last_block by lia. destruct (decide _) as [Hf|Hf]; [|done]. do 2 f_equal. rewrite (Hfull Hf _ eq_refl), Nat.sub_0_r.
    f_equal. rewrite take_0, !length_app, HB1, length_replicate, length_to_be. cbn [app].
    replace ((bl + (bl - 8 + 8)) / bl) with (1 + 1) by (apply Nat.div_unique_exact; lia).
    rewrite (ok_composes a OK) by lia. done.
  - cbn [res_bind]. rewrite last_block, Hw by lia. destruct (decide _) as [Hf|Hf]; [|done]. do 2 f_equal.
    rewrite (Hfull Hf _ eq_refl), <- app_assoc. f_equal. f_equal.
    rewrite !length_app, length_replicate, length_to_be. cbn [length]. apply Nat.div_unique_exact; lia.
Qed.

Lemma Context_finish_spec {E} msg c :
  holds msg c →
  Context_finish (E := E) c = if decide (fits (length msg)) then Ok (mkDigest a (full_hash a msg)) else Panic.
Proof.
  intros (blocks & tl & -> & Hb & Htl & Hn & Hlen & Htake). pose proof (ok_block_len a OK).
  unfold Context_finish. rewrite (absorbed_algorithm _ _ Hb), slice_Ok, drop_0, Nat.sub_0_r, Hn by lia. cbn [res_bind].
  apply BlockContext_finish_spec; [done|rewrite length_take; lia|done|].
  rewrite take_take, Nat.min_l by lia. done.
Qed.

(** A message in pieces, added to what the context has. *)
Lemma finish_pieces_spec {E} pieces msg c :
  holds msg c →
  finish_pieces (E := E) c pieces =
  if decide (fits (length (msg ++ mjoin pieces))) then Ok (mkDigest a (full_hash a (msg ++ mjoin pieces))) else Panic.
Proof.
  unfold finish_pieces. revert msg c. induction pieces as [|x pieces IH]; intros msg c Hc; cbn [for_each mjoin list_join].
  - rewrite app_nil_r. by apply Context_finish_spec.
  - pose proof (Context_update_spec (E := E) msg c x Hc) as Hu. destruct (decide _) as [H|H].
    + destruct Hu as (c' & -> & Hc'). cbn [res_bind]. rewrite (IH _ _ Hc'). by rewrite <- app_assoc.
    + rewrite Hu. cbn [res_bind]. rewrite decide_False; [done|]. unfold fits. rewrite !length_app.
      pose proof (Nat.Div0.div_le_upper_bound (length msg + length x) bl (length msg + length x)) as Hd.
      pose proof bl_pos. assert (length msg + length x ≤ bl * (length msg + length x)) by nia. specialize (Hd H1). lia.
Qed.

Lemma digest_spec {E} msg :
  digest (E := E) a msg = if decide (fits (length msg)) then Ok (mkDigest a (full_hash a msg)) else Panic.
Proof.
  pose proof (finish_pieces_spec (E := E) [msg] [] _ holds_new) as H. unfold finish_pieces in H. cbn [for_each] in H.
  unfold digest. unfold mjoin, list_join in H. cbn [app] in H. rewrite app_nil_r in H. rewrite <- H.
  by destruct (Context_update _ msg).
Qed.

End laws.
