(* ===== verification/RingFips.v ===== *)
(** The hash functions as the standard has them (FIPS 180-4), and that the digests of
    ring are these.

    Nothing here is taken from the code but the two conversions between words and
    bytes: the functions, the rotations, the schedule and the rounds are written out
    as in sections 2.2.2, 4.1, 5 and 6 of the standard, and the constants are computed
    from the primes as 4.2 and 5.3 say. *)
From Stdlib Require Import ZArith Lia Strings.Byte String.
From stdpp Require Import base list numbers option.
From S2P Require Import Prelude.
From S2P Require Import RingSha.
From S2P Require Import RingDigest.
#[local] Open Scope Z_scope.

(** * Words (2.2.2, 3.2) *)

Definition SHR (n x : Z) : Z := x / 2 ^ n.
Definition ROTR (w n x : Z) : Z := Z.lor (SHR n x) (Z.land (x * 2 ^ (w - n)) (Z.ones w)).
Definition ROTL (w n x : Z) : Z := Z.lor (Z.land (x * 2 ^ n) (Z.ones w)) (SHR (w - n) x).
Definition xor3 (x y z : Z) : Z := Z.lxor x (Z.lxor y z).

(** * Functions (4.1) *)

Definition complement (w x : Z) : Z := Z.lxor (Z.ones w) x.
Definition Ch (w x y z : Z) : Z := Z.lxor (Z.land x y) (Z.land (complement w x) z).
Definition Maj (x y z : Z) : Z := xor3 (Z.land x y) (Z.land x z) (Z.land y z).
Definition Parity (x y z : Z) : Z := xor3 x y z.

(** * Constants (4.2, 5.3)

    The first bits of the fractional part of a root of a prime. *)
Fixpoint root_from (k n : Z) (bits : nat) (x : Z) : Z :=
  match bits with
  | O => x
  | S b => let y := x + 2 ^ Z.of_nat b in root_from k n b (if y ^ k <=? n then y else x)
  end.
Definition frac_root (k w : Z) (p : nat) : Z := root_from k (Z.of_nat p * 2 ^ (k * w)) (Z.to_nat w + 3) 0 `mod` 2 ^ w.

Lemma root_from_spec k n bits x :
  0 <= x → 0 < k → x ^ k <= n < (x + 2 ^ Z.of_nat bits) ^ k →
  let r := root_from k n bits x in r ^ k <= n < (r + 1) ^ k.
Proof.
  intros Hx Hk. revert x Hx. induction bits as [|b IH]; intros x Hx Hn; [exact Hn|]. cbn [root_from].
  rewrite Nat2Z.inj_succ, Z.pow_succ_r in Hn by lia. pose proof (Z.pow_pos_nonneg 2 (Z.of_nat b)).
  destruct (Z.leb_spec ((x + 2 ^ Z.of_nat b) ^ k) n); apply IH; try lia.
  replace (x + 2 ^ Z.of_nat b + 2 ^ Z.of_nat b) with (x + 2 * 2 ^ Z.of_nat b) by lia. lia.
Qed.

Definition is_prime (n : nat) : bool := forallb (λ d, negb (n mod d =? 0)%nat) (seq 2 (n - 2)).
Definition primes : list nat := List.filter is_prime (seq 2 408).

Definition K256 : list Z := frac_root 3 32 <$> take 64 primes.
Definition K512 : list Z := frac_root 3 64 <$> take 80 primes.
Definition K1 (t : nat) : Z := nth (t / 20)%nat ((λ n, Z.sqrt (n * 2 ^ 60)) <$> [2; 3; 5; 10]) 0.

Definition IV1 : list Z := [0x67452301; 0xefcdab89; 0x98badcfe; 0x10325476; 0xc3d2e1f0].
Definition IV256 : list Z := frac_root 2 32 <$> take 8 primes.
Definition IV384 : list Z := frac_root 2 64 <$> take 8 (drop 8 primes).
Definition IV512 : list Z := frac_root 2 64 <$> take 8 primes.

(** * Padding and parsing (5.1, 5.2)

    The words have [wb] bytes, and a block is 16 words. *)
Definition fips_zeros (wb len : nat) : nat := Z.to_nat ((14 * Z.of_nat wb - (Z.of_nat len + 1)) `mod` (16 * Z.of_nat wb)).
Definition padded (wb : nat) (msg : list byte) : list byte :=
  msg ++ [x80] ++ replicate (fips_zeros wb (length msg)) x00 ++ to_be (2 * wb) (8 * Z.of_nat (length msg)).
Definition word_at (wb : nat) (text : list byte) (i : nat) : Z := from_be (take wb (drop (i * wb) text)).
Definition block_at (wb : nat) (text : list byte) (i : nat) : list Z := (λ j, word_at wb text (16 * i + j)) <$> seq 0 16.

(** All blocks of the padded message (6.1.2, 6.2.2, 6.4.2). *)
Definition hash_blocks (wb : nat) (compress : list Z → list Z → list Z) (IV : list Z) (msg : list byte) : list Z :=
  let text := padded wb msg in
  fold_left (λ H i, compress H (block_at wb text i)) (seq 0 (length text / (16 * wb))) IV.
Definition fips_digest (output wb : nat) (compress : list Z → list Z → list Z) (IV : list Z) (msg : list byte) : list byte :=
  take output (hash_blocks wb compress IV msg ≫= to_be wb).

(** * SHA-1 (6.1.2) *)

Definition f1 (t : nat) : Z → Z → Z → Z := nth (t / 20)%nat [Ch 32; Parity; Maj; Parity] Parity.

Definition W1_next (W : list Z) : list Z :=
  let t := length W in
  W ++ [ROTL 32 1 (Z.lxor (W !!! (t - 3)%nat) (xor3 (W !!! (t - 8)%nat) (W !!! (t - 14)%nat) (W !!! (t - 16)%nat)))].
Definition W1 (M : list Z) : list Z := Nat.iter 64 W1_next M.

Definition round1 (W : list Z) (v : Z * Z * Z * Z * Z) (t : nat) : Z * Z * Z * Z * Z :=
  let '(a, b, c, d, e) := v in
  ((ROTL 32 5 a + f1 t b c d + e + K1 t + W !!! t) `mod` 2 ^ 32, a, ROTL 32 30 b, c, d).

Definition compress1 (H M : list Z) : list Z :=
  match H with
  | [a; b; c; d; e] =>
      let '(a', b', c', d', e') := fold_left (round1 (W1 M)) (seq 0 80) (a, b, c, d, e) in
      [(a' + a) `mod` 2 ^ 32; (b' + b) `mod` 2 ^ 32; (c' + c) `mod` 2 ^ 32; (d' + d) `mod` 2 ^ 32; (e' + e) `mod` 2 ^ 32]
  | _ => H
  end.

(** * SHA-2 (6.2.2, 6.4.2) *)

Section sha2.
Context (w : Z) (rounds : nat) (Sigma0 Sigma1 sigma0 sigma1 : Z → Z) (Kt : list Z).

Definition W2_next (W : list Z) : list Z :=
  let t := length W in
  W ++ [(sigma1 (W !!! (t - 2)%nat) + W !!! (t - 7)%nat + sigma0 (W !!! (t - 15)%nat) + W !!! (t - 16)%nat) `mod` 2 ^ w].
Definition W2 (M : list Z) : list Z := Nat.iter (rounds - 16) W2_next M.

Definition round2 (W : list Z) (v : Z * Z * Z * Z * Z * Z * Z * Z) (t : nat) : Z * Z * Z * Z * Z * Z * Z * Z :=
  let '(a, b, c, d, e, f, g, h) := v in
  let T1 := h + Sigma1 e + Ch w e f g + Kt !!! t + W !!! t in
  let T2 := Sigma0 a + Maj a b c in
  ((T1 + T2) `mod` 2 ^ w, a, b, c, (d + T1) `mod` 2 ^ w, e, f, g).

Definition compress2 (H M : list Z) : list Z :=
  match H with
  | [a; b; c; d; e; f; g; h] =>
      let '(a', b', c', d', e', f', g', h') := fold_left (round2 (W2 M)) (seq 0 rounds) (a, b, c, d, e, f, g, h) in
      [(a' + a) `mod` 2 ^ w; (b' + b) `mod` 2 ^ w; (c' + c) `mod` 2 ^ w; (d' + d) `mod` 2 ^ w;
       (e' + e) `mod` 2 ^ w; (f' + f) `mod` 2 ^ w; (g' + g) `mod` 2 ^ w; (h' + h) `mod` 2 ^ w]
  | _ => H
  end.
End sha2.

Definition compress256 : list Z → list Z → list Z := compress2 32 64
  (λ x, xor3 (ROTR 32 2 x) (ROTR 32 13 x) (ROTR 32 22 x)) (λ x, xor3 (ROTR 32 6 x) (ROTR 32 11 x) (ROTR 32 25 x))
  (λ x, xor3 (ROTR 32 7 x) (ROTR 32 18 x) (SHR 3 x)) (λ x, xor3 (ROTR 32 17 x) (ROTR 32 19 x) (SHR 10 x)) K256.
Definition compress512 : list Z → list Z → list Z := compress2 64 80
  (λ x, xor3 (ROTR 64 28 x) (ROTR 64 34 x) (ROTR 64 39 x)) (λ x, xor3 (ROTR 64 14 x) (ROTR 64 18 x) (ROTR 64 41 x))
  (λ x, xor3 (ROTR 64 1 x) (ROTR 64 8 x) (SHR 7 x)) (λ x, xor3 (ROTR 64 19 x) (ROTR 64 61 x) (SHR 6 x)) K512.

(** The initial value of SHA-512/256 is the output of a SHA-512 from another one (5.3.6). *)
Definition IV512_256 : list Z :=
  hash_blocks 8 compress512 (Z.lxor 0xa5a5a5a5a5a5a5a5 <$> IV512) (String.list_byte_of_string "SHA-512/256").

(** * The five functions *)

Definition fips_hash (i : AlgorithmID) : list byte → list byte :=
  match i with
  | SHA1 => fips_digest 20 4 compress1 IV1
  | SHA256_ => fips_digest 32 4 compress256 IV256
  | SHA384_ => fips_digest 48 8 compress512 IV384
  | SHA512_ => fips_digest 64 8 compress512 IV512
  | SHA512_256_ => fips_digest 32 8 compress512 IV512_256
  end.

(** * Words *)

Definition in_word (w x : Z) : Prop := 0 <= x < 2 ^ w.

Lemma rotate_right_ROTR w x n : 0 <= n <= w → rotate_right w x n = ROTR w n x.
Proof.
  intros Hn. unfold rotate_right, ROTR, SHR. by rewrite Z.shiftr_div_pow2, Z.shiftl_mul_pow2, Z.land_ones by lia.
Qed.
Lemma rotate_left_ROTL w x n : 0 <= n <= w → rotate_left w x n = ROTL w n x.
Proof.
  intros Hn. unfold rotate_left, ROTL, SHR. by rewrite Z.shiftr_div_pow2, Z.shiftl_mul_pow2, Z.land_ones by lia.
Qed.
Lemma lxor_xor3 x y z : Z.lxor (Z.lxor x y) z = xor3 x y z.
Proof. unfold xor3. by rewrite Z.lxor_assoc. Qed.

Lemma ch_Ch w x y z : 0 <= w → in_word w x → ch w x y z = Ch w x y z.
Proof.
  intros Hw Hx. unfold ch, Ch, wnot, complement. replace (2 ^ w - 1) with (Z.ones w) by (rewrite Z.ones_equiv; lia).
  apply Z.bits_inj'. intros n Hn. rewrite Z.lor_spec, Z.lxor_spec, !Z.land_spec, !Z.lxor_spec.
  destruct (decide (n < w)) as [Hlt|Hge].
  - rewrite Z.ones_spec_low by lia. by destruct (Z.testbit x n), (Z.testbit y n), (Z.testbit z n).
  - rewrite Z.ones_spec_high by lia. replace (Z.testbit x n) with false; [done|].
    rewrite <- (Z.mod_small x (2 ^ w)) by done. symmetry. apply Z.mod_pow2_bits_high. lia.
Qed.
Lemma maj_Maj x y z : maj x y z = Maj x y z.
Proof.
  unfold maj, Maj, xor3. apply Z.bits_inj'. intros n Hn. rewrite !Z.lor_spec, !Z.lxor_spec, !Z.land_spec.
  by destruct (Z.testbit x n), (Z.testbit y n), (Z.testbit z n).
Qed.
Lemma parity_Parity x y z : parity x y z = Parity x y z.
Proof. apply lxor_xor3. Qed.

Lemma wadd_mod w a b : wadd w (a `mod` 2 ^ w) b = (a + b) `mod` 2 ^ w.
Proof. apply Zplus_mod_idemp_l. Qed.
Lemma wadd_mod_r w a b : wadd w a (b `mod` 2 ^ w) = (a + b) `mod` 2 ^ w.
Proof. apply Zplus_mod_idemp_r. Qed.
Lemma wadd_swap w a b : wadd w a b = (b + a) `mod` 2 ^ w.
Proof. unfold wadd. by rewrite Z.add_comm. Qed.
Lemma wadd3 w a b c d : wadd w (wadd w (wadd w a b) c) d = (a + b + c + d) `mod` 2 ^ w.
Proof. change (wadd w a b) with ((a + b) `mod` 2 ^ w). by rewrite !wadd_mod. Qed.
Lemma wadd4 w a b c d e : wadd w (wadd w (wadd w (wadd w a b) c) d) e = (a + b + c + d + e) `mod` 2 ^ w.
Proof. by rewrite (wadd3 w a b c d), wadd_mod. Qed.
Lemma wadd_in_word w a b : 0 <= w → in_word w (wadd w a b).
Proof. intros Hw. apply Z.mod_pos_bound. by apply Z.pow_pos_nonneg. Qed.

(** * Schedules and rounds *)

(** An array filled from the front is a list that grows. *)
Lemma schedule_grows (f : list Z → nat → Z) (g : list Z → Z) (M : list Z) n k :
  length M = 16%nat → (16 + k <= n)%nat →
  (∀ W tl, (16 <= length W)%nat → f (W ++ tl) (length W) = g W) →
  fold_left (λ W t, <[t := f W t]> W) (seq 16 k) (splice 0 M (replicate n 0)) =
    Nat.iter k (λ W, W ++ [g W]) M ++ replicate (n - 16 - k) 0 ∧
  length (Nat.iter k (λ W, W ++ [g W]) M) = (16 + k)%nat.
Proof.
  intros HM Hn Hf. induction k as [|k IH].
  - cbn [seq fold_left]. split; [|exact HM]. unfold splice. cbn [take app]. rewrite Nat.add_0_l, HM, drop_replicate, Nat.sub_0_r. done.
  - destruct IH as [IH Hlen]; [lia|]. rewrite seq_S, fold_left_app, IH, Nat.iter_succ. cbn [fold_left]. set (W := Nat.iter k _ M) in *.
    split; [|rewrite length_app, Hlen; cbn; lia]. rewrite <- Hlen, Hf by lia.
    replace (n - 16 - k)%nat with (S (n - 16 - S k)) by lia. cbn [replicate].
    rewrite insert_app_r_alt, Nat.sub_diag by lia. cbn. by rewrite <- app_assoc.
Qed.

Lemma fold_left_fmap {A B C} (f : A → C → A) (g : B → C) l v : fold_left f (g <$> l) v = fold_left (λ v x, f v (g x)) l v.
Proof. revert v. induction l as [|x l IH]; intros v; [done|]. apply IH. Qed.

Lemma fold_zip {A} (f : A → Z * Z → A) (K W : list Z) v :
  length K = length W →
  fold_left f (zip K W) v = fold_left (λ v t, f v (K !!! t, W !!! t)) (seq 0 (length K)) v.
Proof.
  revert W v. induction K as [|k K IH]; intros [|x W] v Hl; try done. cbn [zip_with fold_left length seq].
  rewrite IH by (cbn in Hl; lia). by rewrite <- fmap_S_seq, fold_left_fmap.
Qed.

(** Two folds that agree as long as an invariant holds. *)
Lemma fold_left_agree {A B} (P : A → Prop) (f g : A → B → A) l v :
  P v → (∀ v x, P v → f v x = g v x ∧ P (f v x)) → fold_left f l v = fold_left g l v ∧ P (fold_left f l v).
Proof.
  intros Hv Hf. revert v Hv. induction l as [|x l IH]; intros v Hv; [done|]. cbn [fold_left].
  destruct (Hf v x Hv) as [<- Hx]. by apply IH.
Qed.

Lemma length_raw_blocks len n d : length (raw_blocks len n d) = n.
Proof. revert d. induction n as [|n IH]; intros d; [done|]. cbn. by rewrite IH. Qed.

Lemma length_block_words k M : length (block_words k M) = 16%nat.
Proof. unfold block_words. by rewrite length_fmap, length_raw_blocks. Qed.

(** ** SHA-2 *)

Section sha2_blocks.
Context (S : Sha2) (Sigma0 Sigma1 sigma0 sigma1 : Z → Z).
#[local] Abbreviation w := (word_bits S).
#[local] Abbreviation rounds := (length (K S)).
Context (Hw : 0 <= w) (Hrounds : (16 <= rounds)%nat).
Context (HS0 : ∀ x, SIGMA_0 S x = Sigma0 x) (HS1 : ∀ x, SIGMA_1 S x = Sigma1 x).
Context (Hs0 : ∀ x, sigma_0 S x = sigma0 x) (Hs1 : ∀ x, sigma_1 S x = sigma1 x).

Lemma sha2_schedule_W2 M :
  sha2_schedule S M = W2 w rounds sigma0 sigma1 (block_words (InputBytes S) M) ∧ length (sha2_schedule S M) = rounds.
Proof.
  unfold sha2_schedule, W2, W2_next.
  destruct (schedule_grows
    (λ W t, wadd w (wadd w (wadd w (sigma_1 S (W !!! (t - 2)%nat)) (W !!! (t - 7)%nat))
      (sigma_0 S (W !!! (t - 15)%nat))) (W !!! (t - 16)%nat))
    (λ W, (sigma1 (W !!! (length W - 2)%nat) + W !!! (length W - 7)%nat + sigma0 (W !!! (length W - 15)%nat)
      + W !!! (length W - 16)%nat) `mod` 2 ^ w)
    (block_words (InputBytes S) M) rounds (rounds - 16)) as [E Hlen];
    [apply length_block_words|lia| |].
  { intros W tl Hl. rewrite !lookup_total_app_l by lia. by rewrite wadd3, Hs0, Hs1. }
  rewrite E. replace (rounds - 16 - (rounds - 16))%nat with 0%nat by lia. cbn [replicate]. rewrite app_nil_r.
  split; [done|]. rewrite Hlen. lia.
Qed.

(** In a round, the first and the fifth word are known to be words. *)
Definition words_ok (v : Z * Z * Z * Z * Z * Z * Z * Z) : Prop := in_word w v.1.1.1.2.

Lemma sha2_round_round2 W v t :
  words_ok v →
  sha2_round S v (K S !!! t, W !!! t) = round2 w Sigma0 Sigma1 (K S) W v t ∧ words_ok (sha2_round S v (K S !!! t, W !!! t)).
Proof.
  destruct v as [[[[[[[a b] c] d] e] f] g] h]. intros He. cbn in He. split; [|by apply wadd_in_word].
  unfold sha2_round, round2. cbn [fst snd]. rewrite ch_Ch, maj_Maj, HS0, HS1 by done.
  rewrite !(wadd4 _ h). change (wadd w (Sigma0 a) (Maj a b c)) with ((Sigma0 a + Maj a b c) `mod` 2 ^ w).
  rewrite wadd_mod, Zplus_mod_idemp_r, wadd_mod_r. repeat f_equal; lia.
Qed.

Definition state_ok (H : list Z) : Prop := length H = 8%nat ∧ Forall (in_word w) H.

Lemma sha2_block_compress2 H M :
  state_ok H →
  sha2_block S H M = compress2 w rounds Sigma0 Sigma1 sigma0 sigma1 (K S) H (block_words (InputBytes S) M) ∧
  state_ok (compress2 w rounds Sigma0 Sigma1 sigma0 sigma1 (K S) H (block_words (InputBytes S) M)).
Proof.
  intros [Hl Hok]. do 8 (destruct H as [|? H]; [done|]). destruct H; [|done].
  unfold sha2_block, compress2. destruct (sha2_schedule_W2 M) as [EW HW].
  rewrite fold_zip by done. rewrite <- EW.
  match goal with |- context [fold_left _ (seq 0 rounds) ?v] => pose proof (fold_left_agree words_ok _
    (round2 w Sigma0 Sigma1 (K S) (sha2_schedule S M)) (seq 0 rounds) v ltac:(cbn; rewrite !list.Forall_cons in Hok; tauto)
    (λ u t, sha2_round_round2 (sha2_schedule S M) u t)) as [-> _] end.
  destruct (fold_left _ _ _) as [[[[[[[]]]]]]]. rewrite !wadd_swap. split; [reflexivity|].
  split; [reflexivity|]. repeat constructor; apply Z.mod_pos_bound; by apply Z.pow_pos_nonneg.
Qed.

End sha2_blocks.

(** ** SHA-1 *)

Lemma sha1_schedule_W1 M : sha1_schedule M = W1 (block_words 4 M) ∧ length (sha1_schedule M) = 80%nat.
Proof.
  unfold sha1_schedule, W1, W1_next.
  destruct (schedule_grows
    (λ W t, rotate_left 32 (Z.lxor (Z.lxor (Z.lxor (W !!! (t - 3)%nat) (W !!! (t - 8)%nat)) (W !!! (t - 14)%nat)) (W !!! (t - 16)%nat)) 1)
    (λ W, ROTL 32 1 (Z.lxor (W !!! (length W - 3)%nat) (xor3 (W !!! (length W - 8)%nat) (W !!! (length W - 14)%nat)
      (W !!! (length W - 16)%nat))))
    (block_words 4 M) 80 64) as [E Hlen]; [apply length_block_words|lia| |].
  { intros W tl Hl. rewrite !lookup_total_app_l, rotate_left_ROTL by lia. unfold xor3. by rewrite !Z.lxor_assoc. }
  rewrite E. replace (80 - 16 - 64)%nat with 0%nat by lia. cbn [replicate]. rewrite app_nil_r. split; [reflexivity|]. rewrite Hlen. lia.
Qed.

(** The rounds of one step, [W] being taken from [j] on. *)
Lemma fold_slice {A} (f : A → Z → A) (W : list Z) j n v :
  (j + n <= length W)%nat → fold_left f (take n (drop j W)) v = fold_left (λ v t, f v (W !!! t)) (seq j n) v.
Proof.
  revert j v. induction n as [|n IH]; intros j v Hl; [done|].
  destruct (lookup_lt_is_Some_2 W j ltac:(lia)) as [x Hx]. rewrite (drop_S W x j Hx). cbn [take fold_left seq].
  rewrite IH by lia. by rewrite (list_lookup_total_correct W j x Hx).
Qed.

(** In a round, the first two words are known to be words. *)
Definition words1_ok (v : Z * Z * Z * Z * Z) : Prop := in_word 32 v.1.1.1.1 ∧ in_word 32 v.1.1.1.2.

Lemma sha1_step3_rounds W j k f v :
  (j + 20 <= length W)%nat → words1_ok v →
  (∀ t b c d, (j <= t < j + 20)%nat → in_word 32 b → f b c d = f1 t b c d) → (∀ t, (j <= t < j + 20)%nat → k = K1 t) →
  sha1_step3 v (take 20 (drop j W)) k f = fold_left (round1 W) (seq j 20) v ∧
  words1_ok (fold_left (round1 W) (seq j 20) v).
Proof.
  intros Hl Hv Hf Hk. unfold sha1_step3. rewrite fold_slice by done.
  assert (Hall : Forall (λ t, (j <= t < j + 20)%nat) (seq j 20)) by (apply Forall_seq; lia).
  revert v Hv. induction Hall as [|t l Ht _ IH]; intros v Hv; [done|]. cbn [fold_left].
  destruct v as [[[[a b] c] d] e], Hv as [Ha Hb]. cbn in Ha, Hb. unfold round1 at 2 4.
  rewrite (Hf t), <- (Hk t), wadd4, !rotate_left_ROTL by (done || lia). apply IH. split; [|done]. by apply Z.mod_pos_bound.
Qed.

Definition state1_ok (H : list Z) : Prop := length H = 5%nat ∧ Forall (in_word 32) H.

Lemma sha1_block_compress1 H M :
  state1_ok H →
  sha1_block (H ++ [0; 0; 0]) M = compress1 H (block_words 4 M) ++ [0; 0; 0] ∧ state1_ok (compress1 H (block_words 4 M)).
Proof.
  intros [Hl Hok]. do 5 (destruct H as [|? H]; [done|]). destruct H; [|done]. cbn [app].
  unfold sha1_block, compress1. destruct (sha1_schedule_W1 M) as [EW HW]. rewrite <- EW. clear EW. revert HW.
  generalize (sha1_schedule M) as W. intros W HW.
  assert (Hv : words1_ok (z, z0, z1, z2, z3)) by (rewrite !list.Forall_cons in Hok; split; cbn; tauto).
  cbv zeta. change (take 20 W) with (take 20 (drop 0 W)).
  assert (Hj : ∀ i t, (20 * i <= t < 20 * i + 20)%nat → (t / 20)%nat = i) by (intros i t Ht; symmetry; apply (Nat.div_unique t 20 i (t - 20 * i)); lia).
  destruct (sha1_step3_rounds W 0 0x5a827999 (ch 32) _ ltac:(lia) Hv) as [-> Hv1].
  { intros t b c d Ht Hb. unfold f1. rewrite (Hj 0%nat t) by lia. by apply ch_Ch. }
  { intros t Ht. unfold K1. by rewrite (Hj 0%nat t) by lia. }
  destruct (sha1_step3_rounds W 20 0x6ed9eba1 parity _ ltac:(lia) Hv1) as [-> Hv2].
  { intros t b c d Ht Hb. unfold f1. rewrite (Hj 1%nat t) by lia. apply parity_Parity. }
  { intros t Ht. unfold K1. by rewrite (Hj 1%nat t) by lia. }
  destruct (sha1_step3_rounds W 40 0x8f1bbcdc maj _ ltac:(lia) Hv2) as [-> Hv3].
  { intros t b c d Ht Hb. unfold f1. rewrite (Hj 2%nat t) by lia. apply maj_Maj. }
  { intros t Ht. unfold K1. by rewrite (Hj 2%nat t) by lia. }
  destruct (sha1_step3_rounds W 60 0xca62c1d6 parity _ ltac:(lia) Hv3) as [-> _].
  { intros t b c d Ht Hb. unfold f1. rewrite (Hj 3%nat t) by lia. apply parity_Parity. }
  { intros t Ht. unfold K1. by rewrite (Hj 3%nat t) by lia. }
  rewrite <- !fold_left_app, <- !seq_app. change (0 + (20 + (20 + (20 + 20))))%nat with 80%nat.
  cbn [Nat.add].
  destruct (fold_left (round1 W) (seq 0 80) _) as [[[[]]]]. rewrite !wadd_swap. split; [reflexivity|].
  split; [reflexivity|]. repeat constructor; by apply Z.mod_pos_bound.
Qed.

(** * Texts *)

Lemma raw_blocks_at len n d : raw_blocks len n d = (λ i, take len (drop (i * len) d)) <$> seq 0 n.
Proof.
  revert d. induction n as [|n IH]; intros d; [done|]. cbn [raw_blocks seq fmap list_fmap]. rewrite Nat.mul_0_l, drop_0. f_equal.
  rewrite IH, <- fmap_S_seq, <- list_fmap_compose. apply list_fmap_ext. intros _ i _. cbn. by rewrite drop_drop.
Qed.

Lemma block_words_at wb text i : block_words wb (take (16 * wb) (drop (i * (16 * wb)) text)) = block_at wb text i.
Proof.
  unfold block_words, block_at, word_at. rewrite raw_blocks_at, <- list_fmap_compose. apply list_fmap_ext.
  intros k j [-> Hj]%lookup_seq. cbn [Nat.add] in *. cbv beta. unfold compose. f_equal.
  assert (k * wb + wb <= 16 * wb)%nat by nia.
  rewrite skipn_firstn_comm, take_take, drop_drop, Nat.min_l by lia. do 2 f_equal. lia.
Qed.

(** The padding: the zeros are those that fill the last block. *)
Lemma zeros_fips a wb len :
  (0 < wb)%nat → block_len a = (16 * wb)%nat → len_len a = (2 * wb)%nat → zeros a len = fips_zeros wb len.
Proof.
  intros Hwb Hb Hl. unfold zeros, fips_zeros. rewrite Hb, Hl. apply Nat2Z.inj.
  set (B := (16 * wb)%nat). set (m := ((len + 1 + 2 * wb) mod B)%nat).
  assert (Hm : (m < B)%nat) by (apply Nat.mod_upper_bound; lia).
  rewrite Nat2Z.inj_mod, Nat2Z.inj_sub, Z2Nat.id by (lia || apply Z.mod_pos_bound; lia).
  unfold m. rewrite Nat2Z.inj_mod. replace (16 * Z.of_nat wb) with (Z.of_nat B) by lia.
  rewrite Zminus_mod_idemp_r. rewrite <- (Z_mod_plus_full (14 * _ - _) 0 (Z.of_nat B)).
  f_equal. lia.
Qed.

Lemma fips_pad_padded a wb msg :
  (0 < wb)%nat → block_len a = (16 * wb)%nat → len_len a = (2 * wb)%nat → fips_pad a msg = padded wb msg.
Proof. intros Hwb Hb Hl. unfold fips_pad, padded. by rewrite (zeros_fips a wb), Hl. Qed.

(** The blocks of a text, under an invariant of the state. *)
Lemma fold_blocks (P : list Z → Prop) (rep : list Z → list Z) wb (g : list Z → list Z → list Z)
    (block : list Z → list byte → list Z) (text : list byte) n H :
  P H → (∀ H M, P H → block (rep H) M = rep (g H (block_words wb M)) ∧ P (g H (block_words wb M))) →
  fold_left block (raw_blocks (16 * wb) n text) (rep H) = rep (fold_left (λ H i, g H (block_at wb text i)) (seq 0 n) H).
Proof.
  intros HP Hblock. rewrite raw_blocks_at, fold_left_fmap. generalize (seq 0 n) as l. intros l. revert H HP.
  induction l as [|i l IH]; intros H HP; [done|]. cbn [fold_left].
  destruct (Hblock H (take (16 * wb) (drop (i * (16 * wb)) text)) HP) as [-> HP']. rewrite block_words_at in *. by apply IH.
Qed.

(** * The digests of ring *)

Lemma sha2_is_fips S Sigma0 Sigma1 sigma0 sigma1 output chaining bl ll i IV msg :
  let wb := InputBytes S in
  (0 < wb)%nat → 0 <= word_bits S → (16 <= length (K S))%nat →
  (∀ x, SIGMA_0 S x = Sigma0 x) → (∀ x, SIGMA_1 S x = Sigma1 x) → (∀ x, sigma_0 S x = sigma0 x) → (∀ x, sigma_1 S x = sigma1 x) →
  state_ok S IV → bl = (16 * wb)%nat → ll = (2 * wb)%nat →
  hash (mkAlgorithm output chaining bl ll (sha2_block_data_order S) (λ s, s ≫= to_be wb) IV i) msg =
  fips_digest output wb (compress2 (word_bits S) (length (K S)) Sigma0 Sigma1 sigma0 sigma1 (K S)) IV msg.
Proof.
  intros wb Hwb Hw HK H1 H2 H3 H4 HIV Hbl Hll. unfold hash, full_hash, chain, fips_digest, hash_blocks.
  rewrite (fips_pad_padded _ wb) by done. cbn [output_len block_len format_output block_data_order initial_state]. rewrite Hbl.
  unfold sha2_block_data_order. do 2 f_equal.
  apply (fold_blocks (state_ok S) (λ H, H) wb); [done|]. intros H M HH. by apply sha2_block_compress2.
Qed.

Lemma sha1_is_fips msg : hash SHA1_FOR_LEGACY_USE_ONLY msg = fips_digest 20 4 compress1 IV1 msg.
Proof.
  unfold hash, full_hash, chain, fips_digest, hash_blocks. rewrite (fips_pad_padded _ 4) by (done || lia).
  change (output_len _) with 20%nat. change (block_len _) with (16 * 4)%nat. change (format_output _) with (λ s : list Z, s ≫= to_be 4).
  change (block_data_order _) with sha1_block_data_order. change (initial_state _) with (IV1 ++ [0; 0; 0]).
  set (text := padded 4 msg). set (n := (length text / (16 * 4))%nat). unfold sha1_block_data_order.
  assert (HIV : state1_ok IV1) by (split; [done|repeat constructor; done]).
  change 64%nat with (16 * 4)%nat.
  rewrite (fold_blocks state1_ok (λ H, H ++ [0; 0; 0]) 4 compress1 sha1_block text n IV1 HIV)
    by (intros H M HH; by apply sha1_block_compress1).
  rewrite bind_app, take_app_le; [done|]. rewrite length_words.
  enough (length (fold_left (λ H i, compress1 H (block_at 4 text i)) (seq 0 n) IV1) = 5%nat) as -> by lia.
  generalize (seq 0 n) as l. intros l. assert (length IV1 = 5%nat) as Hl by done. revert Hl. generalize IV1.
  induction l as [|i l IH]; intros H Hl; [done|]. cbn [fold_left]. apply IH.
  do 5 (destruct H as [|? H]; [done|]). destruct H; [|done]. unfold compress1.
  by destruct (fold_left (round1 _) (seq 0 80) _) as [[[[]]]].
Qed.

(** What the instances of SHA-2 leave to show. *)
Ltac sigma_is :=
  intros x; unfold SIGMA_0, SIGMA_1, sigma_0, sigma_1, big_sigma, small_sigma;
  cbn [fst snd word_bits BIG_SIGMA_0 BIG_SIGMA_1 SMALL_SIGMA_0 SMALL_SIGMA_1 Sha2_u32 Sha2_u64];
  rewrite !rotate_right_ROTR, ?Z.shiftr_div_pow2 by lia; apply lxor_xor3.
Ltac state_is_ok := split; [reflexivity|repeat (constructor; [split; vm_compute; (reflexivity || discriminate)|])]; constructor.
Ltac sha2_instance S := apply (sha2_is_fips S); [vm_compute; lia|vm_compute; discriminate|vm_compute; lia|
  sigma_is|sigma_is|sigma_is|sigma_is|state_is_ok|reflexivity|reflexivity].

Lemma K256_is : K256 = K_u32.
Proof. vm_compute. reflexivity. Qed.
Lemma K512_is : K512 = K_u64.
Proof. vm_compute. reflexivity. Qed.
Lemma IV256_is : IV256 = initial_state SHA256.
Proof. vm_compute. reflexivity. Qed.
Lemma IV384_is : IV384 = initial_state SHA384.
Proof. vm_compute. reflexivity. Qed.
Lemma IV512_is : IV512 = initial_state SHA512.
Proof. vm_compute. reflexivity. Qed.
Lemma IV512_256_is : IV512_256 = initial_state SHA512_256.
Proof. vm_compute. reflexivity. Qed.

Lemma sha256_is_fips msg : hash SHA256 msg = fips_digest 32 4 compress256 IV256 msg.
Proof. rewrite IV256_is. unfold compress256. rewrite K256_is. sha2_instance Sha2_u32. Qed.
Lemma sha384_is_fips msg : hash SHA384 msg = fips_digest 48 8 compress512 IV384 msg.
Proof. rewrite IV384_is. unfold compress512. rewrite K512_is. sha2_instance Sha2_u64. Qed.
Lemma sha512_is_fips msg : hash SHA512 msg = fips_digest 64 8 compress512 IV512 msg.
Proof. rewrite IV512_is. unfold compress512. rewrite K512_is. sha2_instance Sha2_u64. Qed.
Lemma sha512_256_is_fips msg : hash SHA512_256 msg = fips_digest 32 8 compress512 IV512_256 msg.
Proof. rewrite IV512_256_is. unfold compress512. rewrite K512_is. sha2_instance Sha2_u64. Qed.

(** Each of the five algorithms is the function of the standard. *)
Lemma hash_fips a msg : a ∈ ALGORITHMS → hash a msg = fips_hash (id a) msg.
Proof.
  unfold ALGORITHMS. intros Ha. rewrite !elem_of_cons in Ha. destruct Ha as [->|[->|[->|[->|[->|[]%elem_of_nil]]]]].
  - exact (sha1_is_fips msg).
  - exact (sha256_is_fips msg).
  - exact (sha384_is_fips msg).
  - exact (sha512_is_fips msg).
  - exact (sha512_256_is_fips msg).
Qed.
