(* ===== verification/RingHmac.v ===== *)
(** HMAC of ring (ring/src/hmac.rs) over the contexts of [RingDigest], and the
    comparison of tags (ring/src/constant_time.rs, ring/crypto/mem.c). *)
From Stdlib Require Import ZArith Lia Strings.Byte.
From stdpp Require Import base list numbers option.
From S2P Require Import Prelude.
From S2P Require Import RingSha.
From S2P Require Import RingDigest.
Open Scope rust_scope.

(** * Bytes *)

Definition xor_u8 (a b : byte) : byte := byte_of (Z.lxor (byte_val a) (byte_val b)).
Definition or_u8 (a b : byte) : byte := byte_of (Z.lor (byte_val a) (byte_val b)).

(** [for (d, s) in dst.iter_mut().zip(src.iter()) { *d ^= *s }] *)
Fixpoint xor_zip (dst src : list byte) : list byte :=
  match dst, src with
  | d :: dst, s :: src => xor_u8 d s :: xor_zip dst src
  | _, _ => dst
  end.

(** The loop of [GFp_memcmp] over [a] and [b], which have the same length. *)
Definition GFp_memcmp (a b : list byte) : byte :=
  fold_left (λ x p, or_u8 x (xor_u8 p.1 p.2)) (zip a b) x00.

Definition verify_slices_are_equal (a b : list byte) : res unit unit :=
  if negb (length a =? length b) then Err tt
  else if bool_decide (GFp_memcmp a b = x00) then Ok tt else Err tt.

(** * Keys and contexts *)

(** An HMAC algorithm is its digest algorithm. *)
Definition HMAC_ALGORITHMS : list Algorithm := [SHA1_FOR_LEGACY_USE_ONLY; SHA256; SHA384; SHA512].

Definition IPAD : byte := x36.
Definition OPAD : byte := x5c.

Record Key : Type := mkKey { key_inner : BlockContext; key_outer : BlockContext }.
Record HContext : Type := mkHContext { ctx_inner : Context; ctx_outer : BlockContext }.

Definition Key_algorithm (k : Key) : Algorithm := algorithm (key_inner k).

Section operations.
Context {E : Type}.
#[local] Abbreviation res := (res E).

Definition Key_new (a : Algorithm) (key_value : list byte) : res Key :=
  let? key_value :=
    (if length key_value <=? block_len a then Ok key_value
     else let? key_hash := digest a key_value in Ok (Digest_as_ref key_hash)) in
  let? padded_key := slice 0 (block_len a) (replicate MAX_BLOCK_LEN IPAD) in
  let padded_key := xor_zip padded_key key_value in
  let? inner := BlockContext_update (BlockContext_new a) padded_key in
  let padded_key := (λ b, xor_u8 b (xor_u8 IPAD OPAD)) <$> padded_key in
  let? outer := BlockContext_update (BlockContext_new a) padded_key in
  Ok (mkKey inner outer).

Definition HContext_with_key (k : Key) : HContext :=
  mkHContext (Context_clone_from (key_inner k)) (key_outer k).

Definition HContext_update (c : HContext) (data : list byte) : res HContext :=
  let? inner := Context_update (ctx_inner c) data in Ok (mkHContext inner (ctx_outer c)).

Definition HContext_sign (c : HContext) : res Digest :=
  let a := algorithm (block (ctx_inner c)) in
  let? pending := slice 0 (block_len a) (replicate MAX_BLOCK_LEN x00) in
  let num_pending := output_len a in
  let? inner := Context_finish (ctx_inner c) in
  (* [copy_from_slice] panics when the lengths differ. *)
  if negb (length (Digest_as_ref inner) =? num_pending) then Panic else
  let? pending := copy_at 0 (Digest_as_ref inner) pending in
  BlockContext_finish (ctx_outer c) pending num_pending.

Definition sign (k : Key) (data : list byte) : res Digest :=
  let? ctx := HContext_update (HContext_with_key k) data in
  HContext_sign ctx.

(** Several calls of [update], then [sign]. *)
Definition sign_pieces (c : HContext) (pieces : list (list byte)) : res Digest :=
  let? c := for_each HContext_update pieces c in HContext_sign c.

End operations.

Definition verify (k : Key) (data tag : list byte) : res unit unit :=
  let? t := sign k data in verify_slices_are_equal (Digest_as_ref t) tag.

(** [Key::construct] over a function that fills a buffer; [Key::generate] fills it
    with random bytes. *)
Definition Key_construct (a : Algorithm) (fill : list byte → res unit (list byte)) : res unit Key :=
  let? key_bytes := slice 0 (output_len a) (replicate MAX_OUTPUT_LEN x00) in
  let? key_bytes := fill key_bytes in
  Key_new a key_bytes.

(** * RFC 2104 *)

Definition pad_key (a : Algorithm) (key : list byte) : list byte :=
  let k := if length key <=? block_len a then key else hash a key in
  k ++ replicate (block_len a - length k) x00.
Definition ipad (a : Algorithm) (key : list byte) : list byte := xor_u8 IPAD <$> pad_key a key.
Definition opad (a : Algorithm) (key : list byte) : list byte := xor_u8 OPAD <$> pad_key a key.
Definition hmac (a : Algorithm) (key msg : list byte) : list byte :=
  hash a (opad a key ++ hash a (ipad a key ++ msg)).

(** * Bytes: laws *)

(** Boolean facts of all bytes are decided on all of them. *)
Definition every_byte : list byte := byte_of ∘ Z.of_nat <$> seq 0 256.

Lemma byte_forall (P : byte → bool) : forallb P every_byte = true → ∀ b, P b = true.
Proof.
  intros H b. rewrite forallb_forall in H. apply H, list_elem_of_In. unfold every_byte.
  apply list_elem_of_fmap. pose proof (byte_val_range b). exists (Z.to_nat (byte_val b)). split.
  - cbn. rewrite Z2Nat.id by lia. by rewrite byte_of_val.
  - apply elem_of_seq. lia.
Qed.

Lemma xor_u8_0_r b : xor_u8 b x00 = b.
Proof. unfold xor_u8. change (byte_val x00) with 0%Z. by rewrite Z.lxor_0_r, byte_of_val. Qed.

Lemma byte_forall2 (P : byte → byte → bool) :
  forallb (λ a, forallb (P a) every_byte) every_byte = true → ∀ a b, P a b = true.
Proof. intros H a b. apply byte_forall. by apply (byte_forall (λ a, forallb (P a) every_byte)). Qed.

Lemma remask b : xor_u8 (xor_u8 IPAD b) (xor_u8 IPAD OPAD) = xor_u8 OPAD b.
Proof.
  apply byte_dec_bl. revert b. by apply (byte_forall (λ b, Byte.eqb (xor_u8 (xor_u8 IPAD b) _) (xor_u8 OPAD b))); vm_compute.
Qed.

Lemma xor_u8_eq a b : xor_u8 a b = x00 ↔ a = b.
Proof.
  assert (H : eqb (Byte.eqb (xor_u8 a b) x00) (Byte.eqb a b) = true).
  { revert a b. apply (byte_forall2 (λ a b, eqb (Byte.eqb (xor_u8 a b) x00) (Byte.eqb a b))). by vm_compute. }
  apply eqb_prop in H. split; intros E.
  - apply byte_dec_bl. rewrite <- H. by apply byte_dec_lb.
  - apply byte_dec_bl. rewrite H. by apply byte_dec_lb.
Qed.

Lemma or_u8_zero a b : or_u8 a b = x00 ↔ a = x00 ∧ b = x00.
Proof.
  assert (H : eqb (Byte.eqb (or_u8 a b) x00) (Byte.eqb a x00 && Byte.eqb b x00) = true).
  { revert a b. apply (byte_forall2 (λ a b, eqb (Byte.eqb (or_u8 a b) x00) (Byte.eqb a x00 && Byte.eqb b x00))). by vm_compute. }
  apply eqb_prop in H. split.
  - intros E. apply byte_dec_lb in E. rewrite E in H. symmetry in H. apply andb_true_iff in H as [? ?].
    split; by apply byte_dec_bl.
  - intros [-> ->]. by vm_compute.
Qed.

(** The comparison is equality. *)
Lemma GFp_memcmp_spec a b : length a = length b → GFp_memcmp a b = x00 ↔ a = b.
Proof.
  unfold GFp_memcmp. intros Hl.
  assert (H : ∀ x, fold_left (λ x p, or_u8 x (xor_u8 p.1 p.2)) (zip a b) x = x00 ↔ x = x00 ∧ a = b).
  { revert b Hl. induction a as [|y a IH]; intros [|z b] Hl x; try done; cbn [zip zip_with fold_left].
    - split; [done|by intros [-> _]].
    - rewrite IH by (cbn in Hl; lia). cbn [fst snd]. rewrite or_u8_zero, xor_u8_eq.
      split; [by intros [[-> ->] ->]|by intros [-> [= -> ->]]]. }
  rewrite H. split; [by intros [_ ?]|done].
Qed.

Lemma verify_slices_spec a b : verify_slices_are_equal a b = if bool_decide (a = b) then Ok tt else Err tt.
Proof.
  unfold verify_slices_are_equal. destruct (Nat.eqb_spec (length a) (length b)) as [H|H]; cbn [negb].
  - by rewrite (bool_decide_ext _ _ (GFp_memcmp_spec a b H)).
  - rewrite bool_decide_false by congruence. done.
Qed.

Lemma xor_zip_pad v n key :
  length key ≤ n → xor_zip (replicate n v) key = xor_u8 v <$> (key ++ replicate (n - length key) x00).
Proof.
  revert n. induction key as [|k key IH]; intros n Hn; cbn [length app].
  - rewrite Nat.sub_0_r, fmap_replicate, xor_u8_0_r. by destruct n.
  - destruct n as [|n]; [cbn in Hn; lia|]. cbn [length] in Hn. cbn. f_equal. apply IH. lia.
Qed.

(** * Keys and tags: laws *)

Section laws.
Context (a : Algorithm) (OK : AlgorithmOk a).
#[local] Abbreviation bl := (block_len a).

(** What a key of this value is. *)
Definition key_for (key : list byte) (k : Key) : Prop :=
  absorbed a (ipad a key) (key_inner k) ∧ absorbed a (opad a key) (key_outer k).

Lemma length_pad_key key : length (pad_key a key) = bl.
Proof.
  unfold pad_key. destruct (Nat.leb_spec (length key) bl) as [H|H]; rewrite length_app, length_replicate; [lia|].
  rewrite (length_hash a OK). pose proof (ok_output_len a OK). lia.
Qed.

Lemma length_ipad key : length (ipad a key) = bl.
Proof. unfold ipad. by rewrite length_fmap, length_pad_key. Qed.
Lemma length_opad key : length (opad a key) = bl.
Proof. unfold opad. by rewrite length_fmap, length_pad_key. Qed.
Lemma length_hmac key msg : length (hmac a key msg) = output_len a.
Proof. apply (length_hash a OK). Qed.

Lemma small_fits n : n ≤ 3 * MAX_BLOCK_LEN → fits n.
Proof. unfold fits, MAX_BLOCK_LEN. lia. Qed.

(** One block fits in an empty context. *)
Lemma update_new {E} text :
  length text = bl → ∃ b, BlockContext_update (E := E) (BlockContext_new a) text = Ok b ∧ absorbed a text b.
Proof.
  intros Hl. pose proof (bl_pos a OK) as Hbl.
  pose proof (BlockContext_update_spec a OK (E := E) [] _ text 1 (absorbed_new a OK) ltac:(lia)) as H.
  cbn [length Nat.add app] in H. rewrite Hl, Nat.div_same in H by lia. done.
Qed.

Lemma padded_key_Ok {E} key (H : length key ≤ bl ∨ fits (length key)) :
  (let? key := (if length key <=? bl then Ok key else let? d := digest a key in Ok (Digest_as_ref d)) in
   let? p := slice 0 bl (replicate MAX_BLOCK_LEN IPAD) in Ok (xor_zip p key)) = Ok (E := E) (ipad a key).
Proof.
  pose proof (ok_block_len a OK) as Hmax. rewrite slice_Ok by (rewrite ?length_replicate; lia).
  rewrite drop_0, Nat.sub_0_r, take_replicate, Nat.min_l by lia. unfold ipad, pad_key.
  destruct (Nat.leb_spec (length key) bl) as [Hk|Hk]; cbn [res_bind]; [by rewrite xor_zip_pad|].
  destruct H; [lia|]. rewrite (digest_spec a OK), decide_True by done. cbn [res_bind].
  change (Digest_as_ref _) with (hash a key). rewrite xor_zip_pad; [done|].
  rewrite (length_hash a OK). pose proof (ok_output_len a OK). lia.
Qed.

(** [Key::new] makes the key of its value, if that fits. *)
Lemma Key_new_spec {E} key :
  if decide (length key ≤ bl ∨ fits (length key))
  then ∃ k, Key_new (E := E) a key = Ok k ∧ key_for key k
  else Key_new (E := E) a key = Panic.
Proof.
  unfold Key_new. destruct (decide _) as [H|H].
  - pose proof (padded_key_Ok (E := E) key H) as Hp.
    destruct (if _ <=? _ then _ else _) as [v| | |]; cbn [res_bind] in *; try done.
    destruct (slice 0 bl _) as [p| | |]; cbn [res_bind] in *; try done. injection Hp as ->.
    destruct (update_new (E := E) _ (length_ipad key)) as (i & -> & Hi). cbn [res_bind].
    replace (_ <$> ipad a key) with (opad a key).
    2:{ unfold ipad, opad. rewrite <- list_fmap_compose. apply list_fmap_ext. intros ? b _. symmetry. apply remask. }
    destruct (update_new (E := E) _ (length_opad key)) as (o & -> & Ho). cbn [res_bind]. by eexists.
  - destruct (Nat.leb_spec (length key) bl) as [Hk|Hk]; [tauto|]. rewrite (digest_spec a OK), decide_False by tauto. done.
Qed.

(** A context has taken a message under a key. *)
Definition hholds (key msg : list byte) (c : HContext) : Prop :=
  holds a (ipad a key ++ msg) (ctx_inner c) ∧ absorbed a (opad a key) (ctx_outer c).

Lemma hholds_with_key key k : key_for key k → hholds key [] (HContext_with_key k).
Proof. intros [Hi Ho]. split; [|done]. rewrite app_nil_r. by apply holds_clone_from. Qed.

Lemma HContext_sign_spec {E} key msg c :
  hholds key msg c →
  res_map Digest_as_ref (HContext_sign (E := E) c) = if decide (fits (bl + length msg)) then Ok (hmac a key msg) else Panic.
Proof.
  intros [Hi Ho]. pose proof Hi as (? & ? & _ & Hb & _). pose proof (bl_pos a OK) as Hbl.
  pose proof (ok_block_len a OK) as Hmax. pose proof (ok_output_len a OK) as Hout.
  unfold HContext_sign. rewrite (absorbed_algorithm _ _ _ Hb).
  rewrite slice_Ok by (rewrite ?length_replicate; lia). rewrite drop_0, Nat.sub_0_r, take_replicate, Nat.min_l by lia.
  cbn [res_bind]. rewrite (Context_finish_spec a OK _ _ Hi), length_app, length_ipad.
  destruct (decide _) as [Hf|Hf]; [|done]. cbn [res_bind].
  change (Digest_as_ref _) with (hash a (ipad a key ++ msg)). rewrite (length_hash a OK), Nat.eqb_refl. cbn [negb].
  set (d := hash a (ipad a key ++ msg)). assert (Hd : length d = output_len a) by apply (length_hash a OK).
  rewrite copy_at_Ok by (rewrite length_replicate; lia). cbn [res_bind]. rewrite <- Hd.
  rewrite (BlockContext_finish_spec a OK (opad a key)); [|done|by rewrite length_splice by (rewrite length_replicate; lia); apply length_replicate|lia|apply splice_take; rewrite length_replicate; lia].
  rewrite decide_True; [done|]. apply small_fits. rewrite length_app, length_opad. lia.
Qed.

Lemma sign_pieces_spec {E} key pieces msg c :
  hholds key msg c →
  res_map Digest_as_ref (sign_pieces (E := E) c pieces) =
  if decide (fits (bl + length (msg ++ mjoin pieces))) then Ok (hmac a key (msg ++ mjoin pieces)) else Panic.
Proof.
  unfold sign_pieces. revert msg c. induction pieces as [|x pieces IH]; intros msg c [Hi Ho]; cbn [for_each mjoin list_join].
  - rewrite app_nil_r. by apply HContext_sign_spec.
  - pose proof (Context_update_spec a OK (E := E) _ (ctx_inner c) x Hi) as Hu. unfold HContext_update at 1.
    destruct (decide _) as [H|H].
    + destruct Hu as (c' & -> & Hc'). cbn [res_bind]. rewrite (IH (msg ++ x)); [by rewrite <- app_assoc|].
      split; [by rewrite app_assoc|done].
    + rewrite Hu. cbn [res_bind res_map]. rewrite decide_False; [done|]. intros Hf. apply H. clear - Hf OK.
      unfold fits in Hf. rewrite !length_app, length_ipad in *. pose proof (bl_pos a OK).
      assert ((bl + length msg + length x) / bl ≤ bl + length msg + length x) by (apply Nat.Div0.div_le_upper_bound; nia). lia.
Qed.

Lemma sign_spec {E} key k msg :
  key_for key k →
  res_map Digest_as_ref (sign (E := E) k msg) = if decide (fits (bl + length msg)) then Ok (hmac a key msg) else Panic.
Proof.
  intros Hk. pose proof (sign_pieces_spec (E := E) key [msg] [] _ (hholds_with_key _ _ Hk)) as H.
  unfold mjoin, list_join in H. cbn [app] in H. rewrite app_nil_r in H. rewrite <- H. unfold sign, sign_pieces. cbn [for_each].
  by destruct (HContext_update _ msg).
Qed.

End laws.
