(* ===== verification/RingKdf.v ===== *)
(** Key derivation of ring over HMAC: HKDF (ring/src/hkdf.rs) and PBKDF2
    (ring/src/pbkdf2.rs). *)
From Stdlib Require Import ZArith Lia Strings.Byte String.
From stdpp Require Import base list numbers option.
From S2P Require Import Prelude.
From S2P Require Import RingSha.
From S2P Require Import RingDigest.
From S2P Require Import RingHmac.
Open Scope rust_scope.

(** * HKDF *)

(** [Salt] and [Prk] hold an HMAC key.  An [Okm] holds the length that [expand] was
    asked for; its [KeyType] gives that length and nothing else. *)
Record Okm : Type := mkOkm { okm_prk : Key; okm_info : list (list byte); len_cached : nat }.

Definition Salt_new (a : Algorithm) (value : list byte) : res unit Key := Key_new a value.

Definition Salt_extract (salt : Key) (secret : list byte) : res unit Key :=
  let? prk := sign salt secret in
  Key_new (Key_algorithm salt) (Digest_as_ref prk).

Definition Prk_new_less_safe (a : Algorithm) (value : list byte) : res unit Key := Key_new a value.

Definition Prk_expand (prk : Key) (info : list (list byte)) (len : nat) : res unit Okm :=
  if 255 * output_len (Key_algorithm prk) <? len then Err tt else Ok (mkOkm prk info len).

(** The loop of [fill_okm]: [ctx] has what precedes the info, [len] bytes of the
    output are missing; the result is what they become. *)
Fixpoint fill_okm_loop (fuel : nat) (prk : Key) (info : list (list byte)) (ctx : HContext) (n : Z) (len : nat)
    : res unit (list byte) :=
  match fuel with
  | O => NoFuel
  | S fuel =>
      let a := Key_algorithm prk in
      let? ctx := for_each HContext_update info ctx in
      let? ctx := HContext_update ctx [byte_of n] in
      let? t := HContext_sign ctx in
      let t := Digest_as_ref t in
      let? (chunk, rest) :=
        (if len <? output_len a then
           let? chunk := slice 0 len t in Ok (chunk, 0)
         else
           (* [copy_from_slice] panics when the lengths differ. *)
           if negb (length t =? output_len a) then Panic else Ok (t, len - output_len a)) in
      if rest =? 0 then Ok chunk else
      let ctx := HContext_with_key prk in
      let? ctx := HContext_update ctx t in
      (* [n.checked_add(1).unwrap()] *)
      if bool_decide (256 ≤ n + 1)%Z then Panic else
      let? tl := fill_okm_loop fuel prk info ctx (n + 1) rest in
      Ok (chunk ++ tl)
  end.

(** The counter has 8 bits: 256 rounds are enough. *)
Definition fill_okm (prk : Key) (info : list (list byte)) (out : list byte) (len : nat) : res unit (list byte) :=
  if negb (length out =? len) then Err tt else
  let a := Key_algorithm prk in
  if negb (output_len a <=? block_len a) then Panic else
  fill_okm_loop 256 prk info (HContext_with_key prk) 1 (length out).

Definition Okm_fill (okm : Okm) (out : list byte) : res unit (list byte) :=
  fill_okm (okm_prk okm) (okm_info okm) out (len_cached okm).

(** [impl From<Okm<Algorithm>> for Key]: the length is the one of the algorithm. *)
Definition Key_from_okm (a : Algorithm) (okm : Okm) : res unit Key :=
  match Key_construct a (Okm_fill okm) with
  | Ok k => Ok k
  | Err _ => Panic
  | Panic => Panic
  | NoFuel => NoFuel
  end.

(** * PBKDF2 *)

(** The loop of [derive_block]; [remaining] is the count less one. *)
Fixpoint derive_block_loop (remaining : nat) (secret : Key) (u : Digest) (out : list byte) : res unit (list byte) :=
  (* [out[i] ^= u[i]] panics where [u] ends. *)
  if length (Digest_as_ref u) <? length out then Panic else
  let out := xor_zip out (Digest_as_ref u) in
  match remaining with
  | O => Ok out
  | S remaining =>
      let? u := sign secret (Digest_as_ref u) in
      derive_block_loop remaining secret u out
  end.

Definition derive_block (secret : Key) (iterations : positive) (salt : list byte) (idx : Z) (out : list byte)
    : res unit (list byte) :=
  let? ctx := HContext_update (HContext_with_key secret) salt in
  let? ctx := HContext_update ctx (to_be 4 idx) in
  let? u := HContext_sign ctx in
  derive_block_loop (Pos.to_nat iterations - 1) secret u out.

(** The lengths of the chunks of [len] bytes, of [size] each. *)
Fixpoint chunk_lens (fuel size len : nat) : list nat :=
  match fuel with
  | O => []
  | S fuel => if len =? 0 then [] else Nat.min size len :: chunk_lens fuel size (len - size)
  end.

(** The loop of [derive] over the chunks of [out], which are cleared. *)
Fixpoint derive_loop (secret : Key) (iterations : positive) (salt : list byte) (idx : Z) (chunks : list nat)
    : res unit (list byte) :=
  match chunks with
  | [] => Ok []
  | len :: chunks =>
      if bool_decide (2 ^ 32 ≤ idx + 1)%Z then Panic else
      let? chunk := derive_block secret iterations salt (idx + 1) (replicate len x00) in
      let? rest := derive_loop secret iterations salt (idx + 1) chunks in
      Ok (chunk ++ rest)
  end.

Definition derive (a : Algorithm) (iterations : positive) (salt secret out : list byte) : res unit (list byte) :=
  let? secret := Key_new a secret in
  derive_loop secret iterations salt 0 (chunk_lens (length out) (output_len a) (length out)).

(** The loop of [verify]; [matches] is 1 while all chunks were equal. *)
Fixpoint pbkdf2_verify_loop (size : nat) (secret : Key) (iterations : positive) (salt : list byte) (idx : Z)
    (previously_derived : list byte) (chunks : list nat) (matches : bool) : res unit bool :=
  match chunks with
  | [] => Ok matches
  | len :: chunks =>
      if bool_decide (2 ^ 32 ≤ idx + 1)%Z then Panic else
      let? buf := slice 0 len (replicate MAX_OUTPUT_LEN x00) in
      let? derived_chunk := derive_block secret iterations salt (idx + 1) buf in
      let current_block_matches :=
        match verify_slices_are_equal derived_chunk (take len previously_derived) with Ok _ => true | _ => false end in
      pbkdf2_verify_loop size secret iterations salt (idx + 1) (drop len previously_derived) chunks (matches && current_block_matches)
  end.

Definition pbkdf2_verify (a : Algorithm) (iterations : positive) (salt secret previously_derived : list byte) : res unit unit :=
  if length previously_derived =? 0 then Err tt else
  let? secret := Key_new a secret in
  let? matches := pbkdf2_verify_loop (output_len a) secret iterations salt 0 previously_derived
    (chunk_lens (length previously_derived) (output_len a) (length previously_derived)) true in
  if matches then Ok tt else Err tt.

(** * RFC 5869 and RFC 2898 *)

(** The blocks that a length needs. *)
Definition num_blocks (size len : nat) : nat := (len + size - 1) / size.

(** HKDF-Expand: [T(n)], and the output. *)
Fixpoint hkdf_T (a : Algorithm) (prk info : list byte) (n : nat) : list byte :=
  match n with
  | O => []
  | S n => hmac a prk (hkdf_T a prk info n ++ info ++ [byte_of (Z.of_nat (S n))])
  end.
Definition hkdf_expand (a : Algorithm) (prk info : list byte) (len : nat) : list byte :=
  take len (mjoin (hkdf_T a prk info <$> seq 1 (num_blocks (output_len a) len))).
Definition hkdf_extract (a : Algorithm) (salt ikm : list byte) : list byte := hmac a salt ikm.

(** PBKDF2: the xor of [U_1 .. U_c], and the blocks one after the other. *)
Fixpoint pbkdf2_U (a : Algorithm) (password salt_idx : list byte) (n : nat) : list byte :=
  match n with
  | O => hmac a password salt_idx
  | S n => hmac a password (pbkdf2_U a password salt_idx n)
  end.
Definition pbkdf2_F (a : Algorithm) (password salt : list byte) (c : positive) (i : Z) : list byte :=
  foldl xor_zip (replicate (output_len a) x00) (pbkdf2_U a password (salt ++ to_be 4 i) <$> seq 0 (Pos.to_nat c)).
Definition pbkdf2 (a : Algorithm) (password salt : list byte) (c : positive) (len : nat) : list byte :=
  take len (mjoin (pbkdf2_F a password salt c ∘ Z.of_nat <$> seq 1 (num_blocks (output_len a) len))).

(** * Laws *)

Lemma for_each_app {E A B} (f : A → B → res E A) l1 l2 x :
  for_each f (l1 ++ l2) x = (let? y := for_each f l1 x in for_each f l2 y).
Proof. revert x. induction l1 as [|b l1 IH]; intros x; cbn; [done|]. destruct (f x b); cbn; auto. Qed.

Lemma length_xor_zip dst src : length (xor_zip dst src) = length dst.
Proof. revert src. induction dst as [|d dst IH]; intros [|s src]; cbn; auto. Qed.

Lemma take_xor_zip n dst src : take n (xor_zip dst src) = xor_zip (take n dst) src.
Proof.
  revert n src. induction dst as [|d dst IH]; intros n [|s src]; cbn; rewrite ?take_nil; try done; [by destruct n|].
  destruct n; cbn; [done|]. by rewrite IH.
Qed.

Lemma take_foldl_xor n srcs dst : take n (foldl xor_zip dst srcs) = foldl xor_zip (take n dst) srcs.
Proof. revert dst. induction srcs as [|s srcs IH]; intros dst; cbn; [done|]. by rewrite IH, take_xor_zip. Qed.

Lemma length_foldl_xor srcs dst : length (foldl xor_zip dst srcs) = length dst.
Proof. revert dst. induction srcs as [|s srcs IH]; intros dst; cbn; [done|]. by rewrite IH, length_xor_zip. Qed.

(** The head of a sequence of blocks of which some bytes are taken. *)
Lemma take_blocks {A} len size (b : list A) rest :
  length b = size → take len (b ++ rest) = take (Nat.min size len) b ++ take (len - size) rest.
Proof.
  intros Hb. rewrite take_app, Hb. f_equal. destruct (Nat.min_spec size len) as [[? ->]|[? ->]]; [|done].
  by rewrite !take_ge by lia.
Qed.

Lemma num_blocks_spec size len : 0 < size → len ≤ num_blocks size len * size ∧ (∀ k, len ≤ k * size → num_blocks size len ≤ k).
Proof.
  intros Hs. unfold num_blocks. split.
  - pose proof (Nat.div_mod_eq (len + size - 1) size). pose proof (Nat.mod_upper_bound (len + size - 1) size ltac:(lia)). nia.
  - intros k Hk. apply Nat.lt_succ_r, Nat.Div0.div_lt_upper_bound. nia.
Qed.

Lemma length_blocks {A} (f : nat → list A) size n k :
  (∀ n, length (f (S n)) = size) → length (mjoin (f <$> seq (S n) k)) = k * size.
Proof.
  intros Hf. revert n. induction k as [|k IH]; intros n; [done|]. cbn [seq fmap list_fmap mjoin list_join].
  rewrite length_app, IH, Hf. lia.
Qed.

(** More blocks than a length needs do not change what is taken of them. *)
Lemma take_num_blocks {A} (f : nat → list A) size len k :
  (∀ n, length (f (S n)) = size) → 0 < size → len ≤ k * size →
  take len (mjoin (f <$> seq 1 k)) = take len (mjoin (f <$> seq 1 (num_blocks size len))).
Proof.
  intros Hf Hs Hk. destruct (num_blocks_spec size len Hs) as [H1 H2]. specialize (H2 k Hk).
  replace k with (num_blocks size len + (k - num_blocks size len)) by lia.
  rewrite seq_app, fmap_app, join_app, take_app_le; [done|]. by rewrite (length_blocks f size 0).
Qed.

Section laws.
Context (a : Algorithm) (OK : AlgorithmOk a).
#[local] Abbreviation bl := (block_len a).
#[local] Abbreviation out_len := (output_len a).

Lemma key_for_algorithm key k : key_for a key k → Key_algorithm k = a.
Proof. intros [H _]. exact (absorbed_algorithm _ _ _ H). Qed.

Lemma fits_le m n : m ≤ n → fits n → fits m.
Proof. unfold fits. lia. Qed.

Lemma HContext_update_Ok {E} key msg c x :
  hholds a key msg c → fits (bl + length msg + length x) →
  ∃ c', HContext_update (E := E) c x = Ok c' ∧ hholds a key (msg ++ x) c'.
Proof.
  intros [Hi Ho] Hf. pose proof (Context_update_spec a OK (E := E) _ (ctx_inner c) x Hi) as Hu.
  rewrite decide_True in Hu.
  - destruct Hu as (c' & E1 & Hc'). unfold HContext_update. rewrite E1. cbn [res_bind]. eexists. split; [done|].
    split; [by rewrite app_assoc|done].
  - rewrite length_app, length_ipad by done. unfold fits in Hf. pose proof (bl_pos a OK).
    assert ((bl + length msg + length x) / bl ≤ bl + length msg + length x) by (apply Nat.Div0.div_le_upper_bound; nia). lia.
Qed.

(** The tag of a message in pieces, when it fits. *)
Lemma sign_pieces_Ok {E} key pieces msg c :
  hholds a key msg c → fits (bl + length (msg ++ mjoin pieces)) →
  ∃ t, sign_pieces (E := E) c pieces = Ok t ∧ Digest_as_ref t = hmac a key (msg ++ mjoin pieces).
Proof.
  intros Hc Hf. pose proof (sign_pieces_spec a OK (E := E) key pieces msg c Hc) as H. rewrite decide_True in H by done.
  destruct (sign_pieces c pieces) as [t| | |]; try done. injection H as H. eauto.
Qed.

Lemma sign_Ok {E} key k msg :
  key_for a key k → fits (bl + length msg) → ∃ t, sign (E := E) k msg = Ok t ∧ Digest_as_ref t = hmac a key msg.
Proof.
  intros Hk Hf. pose proof (sign_spec a OK (E := E) key k msg Hk) as H. rewrite decide_True in H by done.
  destruct (sign k msg) as [t| | |]; try done. injection H as H. eauto.
Qed.

Lemma Key_new_Ok {E} key : length key ≤ bl ∨ fits (length key) → ∃ k, Key_new (E := E) a key = Ok k ∧ key_for a key k.
Proof. intros H. pose proof (Key_new_spec a OK (E := E) key) as Hk. by rewrite decide_True in Hk by done. Qed.

(** ** HKDF *)

Lemma length_T prk info n : length (hkdf_T a prk info n) ≤ out_len.
Proof. destruct n; cbn; [lia|]. by rewrite (length_hmac a OK). Qed.

Lemma fill_okm_loop_spec key prk info fuel n ctx len :
  key_for a key prk → hholds a key (hkdf_T a key (mjoin info) n) ctx → fits (bl + out_len + length (mjoin info) + 1) →
  n < 255 → len ≤ (255 - n) * out_len → 255 - n ≤ fuel →
  fill_okm_loop fuel prk info ctx (Z.of_nat (S n)) len =
  Ok (take len (mjoin (hkdf_T a key (mjoin info) <$> seq (S n) (255 - n)))).
Proof.
  intros Hk Hc Hf Hn Hlen Hfuel. revert n ctx len Hc Hn Hlen Hfuel.
  induction fuel as [|fuel IH]; intros n ctx len Hc Hn Hlen Hfuel; [lia|].
  cbn [fill_okm_loop]. rewrite (key_for_algorithm _ _ Hk).
  set (T := hkdf_T a key (mjoin info)) in *. pose proof (length_T key (mjoin info) n) as HT. fold T in HT.
  destruct (sign_pieces_Ok (E := unit) key (info ++ [[byte_of (Z.of_nat (S n))]]) _ _ Hc) as (t & Et & Ht).
  { eapply fits_le; [|exact Hf]. rewrite join_app, !length_app. cbn. lia. }
  unfold sign_pieces in Et. rewrite for_each_app in Et. cbn [for_each] in Et.
  destruct (for_each HContext_update info ctx) as [c1| | |]; cbn [res_bind] in *; try done.
  destruct (HContext_update c1 _) as [c2| | |]; cbn [res_bind] in *; try done. rewrite Et. cbn [res_bind].
  replace (hmac _ _ _) with (T (S n)) in Ht by (unfold T; cbn; rewrite join_app; done). rewrite Ht.
  assert (HTn : length (T (S n)) = out_len) by apply (length_hmac a OK).
  replace (255 - n) with (S (255 - S n)) at 1 by lia. cbn [seq fmap list_fmap mjoin list_join].
  destruct (Nat.ltb_spec len out_len) as [Hs|Hs].
  - rewrite slice_Ok, drop_0, Nat.sub_0_r by lia. cbn [res_bind Nat.eqb]. by rewrite take_app_le by lia.
  - rewrite HTn, Nat.eqb_refl. cbn [negb res_bind].
    rewrite take_app_ge by lia. rewrite HTn.
    destruct (Nat.eqb_spec (len - out_len) 0) as [H0|H0]. { by rewrite H0, take_0, app_nil_r. }
    assert (S n < 255) by nia.
    destruct (HContext_update_Ok (E := unit) key [] _ (T (S n)) (hholds_with_key a OK _ _ Hk)) as (c' & -> & Hc').
    { eapply fits_le; [|exact Hf]. cbn [length]. lia. }
    cbn [res_bind]. rewrite bool_decide_false by lia.
    replace (Z.of_nat (S n) + 1)%Z with (Z.of_nat (S (S n))) by lia.
    rewrite IH; [done|done|lia|nia|lia].
Qed.

Lemma Okm_fill_spec key prk info out :
  key_for a key prk → fits (bl + out_len + length (mjoin info) + 1) → length out ≤ 255 * out_len →
  Okm_fill (mkOkm prk info (length out)) out = Ok (hkdf_expand a key (mjoin info) (length out)).
Proof.
  intros Hk Hf Hlen. unfold Okm_fill, fill_okm. cbn [okm_prk okm_info len_cached]. rewrite Nat.eqb_refl. cbn [negb].
  rewrite (key_for_algorithm _ _ Hk). pose proof (ok_output_len a OK).
  destruct (Nat.leb_spec out_len bl); [|lia]. cbn [negb].
  pose proof (fill_okm_loop_spec key prk info 256 0 _ _ Hk (hholds_with_key a OK _ _ Hk) Hf ltac:(lia) Hlen ltac:(lia)) as Hfill.
  change (Z.of_nat 1) with 1%Z in Hfill. rewrite Hfill. unfold hkdf_expand. f_equal.
  apply (take_num_blocks _ out_len); [|lia|done]. intros n. apply (length_hmac a OK).
Qed.

(** ** PBKDF2 *)

Lemma length_U password s n : length (pbkdf2_U a password s n) = out_len.
Proof. destruct n; apply (length_hmac a OK). Qed.

Lemma derive_block_loop_spec password secret s r k u out :
  key_for a password secret → Digest_as_ref u = pbkdf2_U a password s k → length out ≤ out_len →
  derive_block_loop r secret u out = Ok (foldl xor_zip out (pbkdf2_U a password s <$> seq k (S r))).
Proof.
  intros Hk. revert k u out. induction r as [|r IH]; intros k u out Hu Hout.
  - cbn [derive_block_loop]. rewrite Hu, length_U. destruct (Nat.ltb_spec out_len (length out)); [lia|done].
  - cbn [derive_block_loop]. rewrite Hu, length_U. destruct (Nat.ltb_spec out_len (length out)); [lia|].
    destruct (sign_Ok (E := unit) password secret (pbkdf2_U a password s k) Hk) as (t & -> & Ht).
    { apply small_fits. rewrite length_U. pose proof (ok_block_len a OK). pose proof (ok_output_len a OK). lia. }
    cbn [res_bind]. rewrite (IH (S k)); [|by rewrite Ht|by rewrite length_xor_zip]. done.
Qed.

Lemma derive_block_spec password secret c salt idx len :
  key_for a password secret → fits (bl + length salt + 4) → len ≤ out_len →
  derive_block secret c salt idx (replicate len x00) = Ok (take len (pbkdf2_F a password salt c idx)).
Proof.
  intros Hk Hf Hlen. unfold derive_block.
  destruct (sign_pieces_Ok (E := unit) password [salt; to_be 4 idx] [] _ (hholds_with_key a OK _ _ Hk)) as (t & Et & Ht).
  { eapply fits_le; [|exact Hf]. cbn [app mjoin list_join]. rewrite app_nil_r, length_app, length_to_be. lia. }
  unfold sign_pieces in Et. cbn [for_each] in Et.
  destruct (HContext_update _ salt) as [c1| | |]; cbn [res_bind] in *; try done.
  destruct (HContext_update c1 _) as [c2| | |]; cbn [res_bind] in *; try done. rewrite Et. cbn [res_bind].
  cbn [app mjoin list_join] in Ht. rewrite app_nil_r in Ht.
  rewrite (derive_block_loop_spec password secret (salt ++ to_be 4 idx) _ 0); [|done|exact Ht|by rewrite length_replicate].
  unfold pbkdf2_F. rewrite take_foldl_xor, take_replicate, Nat.min_l by done.
  do 4 f_equal. lia.
Qed.

Lemma length_F password salt c i : length (pbkdf2_F a password salt c i) = out_len.
Proof. unfold pbkdf2_F. by rewrite length_foldl_xor, length_replicate. Qed.

(** The counter of blocks has 32 bits. *)
Definition pbkdf2_fits (i len : nat) : Prop := (Z.of_nat len ≤ Z.of_nat out_len * (2 ^ 32 - 1 - Z.of_nat i))%Z.
#[export] Instance pbkdf2_fits_dec i len : Decision (pbkdf2_fits i len).
Proof. unfold pbkdf2_fits. apply _. Defined.

Lemma pbkdf2_fits_step i len :
  len ≠ 0 → pbkdf2_fits i len ↔ (Z.of_nat i + 1 < 2 ^ 32)%Z ∧ pbkdf2_fits (S i) (len - out_len).
Proof.
  intros H. unfold pbkdf2_fits. pose proof (ok_output_len a OK). split.
  - intros Hl. assert (Z.of_nat i + 1 < 2 ^ 32)%Z by nia. split; [done|]. nia.
  - intros [Hi Hl]. nia.
Qed.

Definition blocks_of (password salt : list byte) (c : positive) (i n : nat) : list byte :=
  mjoin (pbkdf2_F a password salt c ∘ Z.of_nat <$> seq (S i) n).

Lemma derive_loop_spec password secret c salt fuel i len :
  key_for a password secret → fits (bl + length salt + 4) → len ≤ fuel → (Z.of_nat i < 2 ^ 32)%Z →
  derive_loop secret c salt (Z.of_nat i) (chunk_lens fuel out_len len) =
  if decide (pbkdf2_fits i len) then Ok (take len (blocks_of password salt c i fuel)) else Panic.
Proof.
  intros Hk Hf. pose proof (ok_output_len a OK) as Ho. revert i len. induction fuel as [|fuel IH]; intros i len Hlen Hi.
  - replace len with 0 by lia. cbn. rewrite decide_True; [done|]. unfold pbkdf2_fits. nia.
  - cbn [chunk_lens]. destruct (Nat.eqb_spec len 0) as [->|H0].
    { cbn [derive_loop]. rewrite decide_True; [done|]. unfold pbkdf2_fits. nia. }
    cbn [derive_loop]. pose proof (pbkdf2_fits_step i len H0) as Hs.
    destruct (decide (2 ^ 32 ≤ Z.of_nat i + 1)%Z) as [Hp|Hp].
    { rewrite bool_decide_true by done. rewrite decide_False; [done|]. rewrite Hs. lia. }
    rewrite bool_decide_false by done. rewrite (derive_block_spec password) by (done || lia). cbn [res_bind].
    replace (Z.of_nat i + 1)%Z with (Z.of_nat (S i)) by lia. rewrite IH by lia.
    rewrite (decide_ext (pbkdf2_fits i len) (pbkdf2_fits (S i) (len - out_len)))
      by (rewrite Hs; split; [tauto|intros; split; [lia|done]]).
    destruct (decide _); [|done]. cbn [res_bind]. f_equal. unfold blocks_of. cbn [seq fmap list_fmap mjoin list_join].
    symmetry. apply take_blocks, length_F.
Qed.

Lemma pbkdf2_verify_loop_spec password secret c salt fuel i prev m :
  key_for a password secret → fits (bl + length salt + 4) → length prev ≤ fuel → (Z.of_nat i < 2 ^ 32)%Z →
  pbkdf2_verify_loop out_len secret c salt (Z.of_nat i) prev (chunk_lens fuel out_len (length prev)) m =
  if decide (pbkdf2_fits i (length prev))
  then Ok (m && bool_decide (take (length prev) (blocks_of password salt c i fuel) = prev)) else Panic.
Proof.
  intros Hk Hf. pose proof (ok_output_len a OK) as Ho. revert i prev m. induction fuel as [|fuel IH]; intros i prev m Hlen Hi.
  - destruct prev; [|cbn in Hlen; lia]. cbn. rewrite decide_True; [by rewrite andb_true_r|]. unfold pbkdf2_fits. cbn. nia.
  - cbn [chunk_lens]. destruct (Nat.eqb_spec (length prev) 0) as [H0|H0].
    { destruct prev; [|done]. cbn [pbkdf2_verify_loop length take]. rewrite decide_True; [by rewrite andb_true_r|].
      unfold pbkdf2_fits. cbn. nia. }
    cbn [pbkdf2_verify_loop]. pose proof (pbkdf2_fits_step i (length prev) H0) as Hs.
    destruct (decide (2 ^ 32 ≤ Z.of_nat i + 1)%Z) as [Hp|Hp].
    { rewrite bool_decide_true by done. rewrite decide_False; [done|]. rewrite Hs. lia. }
    rewrite bool_decide_false by done. rewrite slice_Ok by (rewrite ?length_replicate; lia). cbn [res_bind].
    rewrite drop_0, Nat.sub_0_r, take_replicate, Nat.min_l by lia.
    rewrite (derive_block_spec password) by (done || lia). cbn [res_bind].
    replace (Z.of_nat i + 1)%Z with (Z.of_nat (S i)) by lia.
    set (k := Nat.min out_len (length prev)). replace (length prev - out_len) with (length (drop k prev)) in *
      by (rewrite length_drop; lia).
    rewrite IH by (rewrite ?length_drop; lia).
    rewrite (decide_ext (pbkdf2_fits i (length prev)) (pbkdf2_fits (S i) (length (drop k prev))))
      by (rewrite Hs; split; [tauto|intros; split; [lia|done]]).
    destruct (decide _); [|done]. f_equal. rewrite verify_slices_spec.
    unfold blocks_of. cbn [seq fmap list_fmap mjoin list_join].
    rewrite (take_blocks _ out_len) by apply length_F. fold k.
    set (x := take k (pbkdf2_F _ _ _ _ _)). assert (Hx : length x = k) by (unfold x; rewrite length_take, length_F; lia).
    replace (length prev - out_len) with (length (drop k prev)) by (rewrite length_drop; lia).
    set (y := take (length (drop k prev)) _).
    assert (Heq : x ++ y = prev ↔ x = take k prev ∧ y = drop k prev).
    { rewrite <- (take_drop k prev) at 1. split; [|by intros [-> ->]].
      intros Hxy. apply app_inj_1 in Hxy; [done|]. rewrite length_take. lia. }
    rewrite (bool_decide_ext _ _ Heq), bool_decide_and. destruct (bool_decide (x = _)); cbn [andb]; by rewrite ?andb_true_r, ?andb_false_r.
Qed.

(** The blocks that the loops make are those of the standard. *)
Lemma blocks_of_pbkdf2 password salt c len : take len (blocks_of password salt c 0 len) = pbkdf2 a password salt c len.
Proof.
  pose proof (ok_output_len a OK). apply (take_num_blocks _ out_len); [|lia|nia]. intros n. apply length_F.
Qed.

End laws.
