(* ===== verification/RingProperties.v ===== *)
(** The properties of ring's digests and of what is built on them: each is the
    function of its standard, for input in any pieces, within the length the
    standard allows. *)
From Stdlib Require Import ZArith Lia Strings.Byte String.
From stdpp Require Import base list numbers option.
From S2P Require Import Prelude.
From S2P Require Import RingSha.
From S2P Require Import RingDigest.
From S2P Require Import RingFips.
From S2P Require Import RingHmac.
From S2P Require Import RingKdf.
Open Scope rust_scope.

#[local] Abbreviation bytes := String.list_byte_of_string.

(** C11: Hashing in pieces computes the functions of FIPS 180-4.  For each of the five
    algorithms, however the input is cut into calls of [update], the digest is the
    function of the standard at the whole message, as [fips_hash] writes it out: its
    padding, schedule, rounds and functions, with the constants and initial values
    computed from the primes; and no assertion or index fails, as long as the length
    in bits has 64 bits; a longer message panics. *)
Theorem digest_pieces {E} a pieces :
  a ∈ ALGORITHMS →
  res_map Digest_as_ref (finish_pieces (E := E) (Context_new a) pieces) =
  if decide (fits (length (mjoin pieces))) then Ok (fips_hash (id a) (mjoin pieces)) else Panic.
Proof.
  intros Ha. rewrite <- (hash_fips a) by done. apply algorithms_ok in Ha.
  rewrite (finish_pieces_spec a Ha pieces [] _ (holds_new a Ha)). cbn [app]. by destruct (decide _).
Qed.

(** The test vectors of FIPS 180-4 for "abc", in two pieces. *)
Lemma digest_pieces_witness :
  res_map Digest_as_ref (finish_pieces (E := unit) (Context_new SHA256) [bytes "a"; bytes "bc"]) =
    Ok (to_be 32 0xba7816bf8f01cfea414140de5dae2223b00361a396177a9cb410ff61f20015ad) ∧
  res_map Digest_as_ref (finish_pieces (E := unit) (Context_new SHA1_FOR_LEGACY_USE_ONLY) [bytes "a"; bytes "bc"]) =
    Ok (to_be 20 0xa9993e364706816aba3e25717850c26c9cd0d89d) ∧
  fips_hash SHA256_ (bytes "abc") = to_be 32 0xba7816bf8f01cfea414140de5dae2223b00361a396177a9cb410ff61f20015ad.
Proof.
  assert (H : fips_hash SHA256_ (bytes "abc") = to_be 32 0xba7816bf8f01cfea414140de5dae2223b00361a396177a9cb410ff61f20015ad)
    by (vm_compute; reflexivity).
  assert (H1 : fips_hash SHA1 (bytes "abc") = to_be 20 0xa9993e364706816aba3e25717850c26c9cd0d89d) by (vm_compute; reflexivity).
  split; [|split; [|exact H]].
  - rewrite (digest_pieces SHA256 [bytes "a"; bytes "bc"]) by (right; left).
    change (mjoin [bytes "a"; bytes "bc"]) with (bytes "abc"). change (id SHA256) with SHA256_. rewrite H. reflexivity.
  - rewrite (digest_pieces SHA1_FOR_LEGACY_USE_ONLY [bytes "a"; bytes "bc"]) by left.
    change (mjoin [bytes "a"; bytes "bc"]) with (bytes "abc"). change (id SHA1_FOR_LEGACY_USE_ONLY) with SHA1. rewrite H1. reflexivity.
Defined.

Lemma hmac_algorithms_ok a : a ∈ HMAC_ALGORITHMS → AlgorithmOk a.
Proof.
  intros Ha. apply algorithms_ok. unfold HMAC_ALGORITHMS, ALGORITHMS in *. rewrite !elem_of_cons in *. tauto.
Qed.

(** C12: Signing in pieces is the HMAC of RFC 2104: under a key of any length that the
    digest can take, with a message in any pieces, the tag is the one of the whole
    message, and [verify] accepts this tag and no other.  Nothing panics. *)
Theorem hmac_rfc2104 a key pieces :
  a ∈ HMAC_ALGORITHMS → fits (length key) → fits (block_len a + length (mjoin pieces)) →
  ∃ k, Key_new (E := unit) a key = Ok k ∧
    res_map Digest_as_ref (sign_pieces (E := unit) (HContext_with_key k) pieces) = Ok (hmac a key (mjoin pieces)) ∧
    ∀ tag, verify k (mjoin pieces) tag = if bool_decide (tag = hmac a key (mjoin pieces)) then Ok tt else Err tt.
Proof.
  intros Ha%hmac_algorithms_ok Hk Hf. destruct (Key_new_Ok a Ha (E := unit) key) as (k & Ek & Hkey); [by right|].
  exists k. split; [done|]. split.
  - rewrite (sign_pieces_spec a Ha key pieces [] _ (hholds_with_key a Ha _ _ Hkey)). by rewrite decide_True.
  - intros tag. unfold verify. destruct (sign_Ok a Ha (E := unit) key k _ Hkey Hf) as (t & -> & Ht).
    cbn [res_bind]. rewrite Ht, verify_slices_spec. by rewrite (bool_decide_ext _ (tag = hmac a key (mjoin pieces))).
Qed.

(** Test case 2 of RFC 4231. *)
Lemma hmac_rfc2104_witness :
  hmac SHA256 (bytes "Jefe") (bytes "what do ya want for nothing?") =
    to_be 32 0x5bdcc146bf60754e6a042426089575c75a003f089d2739839dec58b964ec3843 ∧
  ∃ k, Key_new (E := unit) SHA256 (bytes "Jefe") = Ok k ∧
    verify k (bytes "what do ya want for nothing?")
      (to_be 32 0x5bdcc146bf60754e6a042426089575c75a003f089d2739839dec58b964ec3843) = Ok tt ∧
    verify k (bytes "what do ya want for nothing?") (to_be 31 0) = Err tt.
Proof.
  assert (H : hmac SHA256 (bytes "Jefe") (bytes "what do ya want for nothing?") =
    to_be 32 0x5bdcc146bf60754e6a042426089575c75a003f089d2739839dec58b964ec3843) by (vm_compute; reflexivity).
  split; [exact H|].
  destruct (hmac_rfc2104 SHA256 (bytes "Jefe") [bytes "what do ya want"; bytes " for nothing?"])
    as (k & Ek & _ & Hv); [right; left|vm_compute; reflexivity|vm_compute; reflexivity|].
  change (mjoin [bytes "what do ya want"; bytes " for nothing?"]) with (bytes "what do ya want for nothing?") in Hv.
  exists k. split; [exact Ek|]. rewrite H in Hv. split.
  - rewrite Hv. rewrite bool_decide_true by reflexivity. reflexivity.
  - rewrite Hv. rewrite bool_decide_false; [reflexivity|]. intros E. apply (f_equal length) in E.
    rewrite !length_to_be in E. discriminate E.
Defined.

(** C13: HKDF is the one of RFC 5869: extraction gives the key of the extracted secret,
    expansion to at most 255 blocks fills a buffer of the length asked for with the
    output of HKDF-Expand, whatever pieces the info is in; it refuses a longer
    output, and a buffer of another length, with an error.  (The comment of
    [Okm::fill] has it fail if and only if the length is more than 255 blocks; a
    buffer of another length fails too.)  Nothing panics: the counter of one byte does
    not overflow. *)
Theorem hkdf_rfc5869 a salt ikm info len out :
  a ∈ HMAC_ALGORITHMS → fits (length salt) → fits (block_len a + length ikm) →
  fits (block_len a + output_len a + length (mjoin info) + 1) →
  ∃ s prk, Salt_new a salt = Ok s ∧ Salt_extract s ikm = Ok prk ∧ key_for a (hkdf_extract a salt ikm) prk ∧
    (let? okm := Prk_expand prk info len in Okm_fill okm out) =
    if decide (len ≤ 255 * output_len a ∧ length out = len)
    then Ok (hkdf_expand a (hkdf_extract a salt ikm) (mjoin info) len) else Err tt.
Proof.
  intros Ha%hmac_algorithms_ok Hs Hi Hf.
  destruct (Key_new_Ok a Ha (E := unit) salt) as (s & Es & Hsalt); [by right|]. unfold Salt_new, Salt_extract.
  destruct (sign_Ok a Ha (E := unit) salt s ikm Hsalt Hi) as (t & Et & Ht).
  destruct (Key_new_Ok a Ha (E := unit) (hmac a salt ikm)) as (prk & Ep & Hprk).
  { left. rewrite (length_hmac a Ha). pose proof (ok_output_len a Ha). lia. }
  exists s, prk. rewrite Et. cbn [res_bind]. rewrite (key_for_algorithm a _ _ Hsalt), Ht.
  split_and!; [done|done|done|]. unfold Prk_expand. rewrite (key_for_algorithm a _ _ Hprk).
  destruct (Nat.ltb_spec (255 * output_len a) len) as [H|H]; cbn [res_bind].
  - by rewrite decide_False by lia.
  - destruct (decide _) as [[_ <-]|Hn]; [by apply Okm_fill_spec|].
    unfold Okm_fill, fill_okm. cbn [okm_prk okm_info len_cached].
    destruct (Nat.eqb_spec (length out) len); [lia|done].
Qed.

(** Test case 1 of RFC 5869, with the info in two pieces; too long an output. *)
Lemma hkdf_rfc5869_witness :
  ∃ prk, key_for SHA256 (to_be 32 0x077709362c2e32df0ddc3f0dc47bba6390b6c73bb50f9c3122ec844ad7c2b3e5) prk ∧
    (let? okm := Prk_expand prk [to_be 4 0xf0f1f2f3; to_be 6 0xf4f5f6f7f8f9] 42 in Okm_fill okm (replicate 42 x00)) =
      Ok (hkdf_expand SHA256 (to_be 32 0x077709362c2e32df0ddc3f0dc47bba6390b6c73bb50f9c3122ec844ad7c2b3e5)
        (to_be 10 0xf0f1f2f3f4f5f6f7f8f9) 42) ∧
    (let? okm := Prk_expand prk [] (S (255 * 32)) in Okm_fill okm (replicate (S (255 * 32)) x00)) = Err tt.
Proof.
  assert (Hx : hkdf_extract SHA256 (to_be 13 0x000102030405060708090a0b0c) (replicate 22 x0b) =
    to_be 32 0x077709362c2e32df0ddc3f0dc47bba6390b6c73bb50f9c3122ec844ad7c2b3e5) by (vm_compute; reflexivity).
  assert (Hi : mjoin [to_be 4 0xf0f1f2f3; to_be 6 0xf4f5f6f7f8f9] = to_be 10 0xf0f1f2f3f4f5f6f7f8f9) by (vm_compute; reflexivity).
  destruct (hkdf_rfc5869 SHA256 (to_be 13 0x000102030405060708090a0b0c) (replicate 22 x0b)
    [to_be 4 0xf0f1f2f3; to_be 6 0xf4f5f6f7f8f9] 42 (replicate 42 x00)) as (s & prk & Es & Ep & Hk & H);
    [right; left|vm_compute; reflexivity..|].
  destruct (hkdf_rfc5869 SHA256 (to_be 13 0x000102030405060708090a0b0c) (replicate 22 x0b)
    [] (S (255 * 32)) (replicate (S (255 * 32)) x00)) as (s' & prk' & Es' & Ep' & _ & H');
    [right; left|vm_compute; reflexivity..|].
  rewrite Es in Es'. injection Es' as <-. rewrite Ep in Ep'. injection Ep' as <-.
  exists prk. rewrite Hx in Hk, H. split; [exact Hk|]. split.
  - rewrite H, Hi, decide_True; [reflexivity|]. rewrite length_replicate. change (output_len SHA256) with 32. lia.
  - rewrite H', decide_False; [reflexivity|]. change (output_len SHA256) with 32. lia.
Defined.

(** C14: PBKDF2 is the one of RFC 2898: [derive] fills the buffer with the blocks of
    the key, and [verify] accepts a key that is not empty exactly when it is the
    derived one.  Only a key of more than 2^32 - 1 blocks panics, before anything
    wrong is returned. *)
Theorem pbkdf2_rfc2898 a iterations salt secret out :
  a ∈ HMAC_ALGORITHMS → fits (length secret) → fits (block_len a + length salt + 4) →
  let key := pbkdf2 a secret salt iterations (length out) in
  derive a iterations salt secret out = (if decide (pbkdf2_fits a 0 (length out)) then Ok key else Panic) ∧
  (out ≠ [] → pbkdf2_verify a iterations salt secret out =
    if decide (pbkdf2_fits a 0 (length out)) then if bool_decide (key = out) then Ok tt else Err tt else Panic) ∧
  pbkdf2_verify a iterations salt secret [] = Err tt.
Proof.
  intros Ha%hmac_algorithms_ok Hs Hf. destruct (Key_new_Ok a Ha (E := unit) secret) as (k & Ek & Hk); [by right|].
  unfold derive, pbkdf2_verify. rewrite Ek. cbn [res_bind]. split_and!; [| |done].
  - pose proof (derive_loop_spec a Ha secret k iterations salt (length out) 0 (length out) Hk Hf) as Hd.
    change (Z.of_nat 0) with 0%Z in Hd. rewrite Hd by lia. by rewrite (blocks_of_pbkdf2 a Ha).
  - intros Hout. destruct (Nat.eqb_spec (length out) 0) as [H0|H0]; [by destruct out|].
    pose proof (pbkdf2_verify_loop_spec a Ha secret k iterations salt (length out) 0 out true Hk Hf) as Hv.
    change (Z.of_nat 0) with 0%Z in Hv. rewrite Hv by lia.
    destruct (decide _); [|done]. cbn [res_bind andb]. rewrite (blocks_of_pbkdf2 a Ha).
    by destruct (bool_decide _).
Qed.

(** A test vector of ring/tests/pbkdf2_tests.txt. *)
Lemma pbkdf2_rfc2898_witness :
  derive SHA256 2 (bytes "salt") (bytes "password") (replicate 4 x00) = Ok (to_be 4 0xae4d0c95) ∧
  pbkdf2_verify SHA256 2 (bytes "salt") (bytes "password") (to_be 4 0xae4d0c95) = Ok tt ∧
  pbkdf2_verify SHA256 2 (bytes "salt") (bytes "password") (to_be 4 0xae4d0c96) = Err tt.
Proof.
  assert (H : pbkdf2 SHA256 (bytes "password") (bytes "salt") 2 4 = to_be 4 0xae4d0c95) by (vm_compute; reflexivity).
  assert (Hf : pbkdf2_fits SHA256 0 4) by (unfold pbkdf2_fits; vm_compute; discriminate).
  destruct (pbkdf2_rfc2898 SHA256 2 (bytes "salt") (bytes "password") (replicate 4 x00)) as (H1 & _ & _);
    [right; left|vm_compute; reflexivity..|].
  destruct (pbkdf2_rfc2898 SHA256 2 (bytes "salt") (bytes "password") (to_be 4 0xae4d0c95)) as (_ & H2 & _);
    [right; left|vm_compute; reflexivity..|].
  destruct (pbkdf2_rfc2898 SHA256 2 (bytes "salt") (bytes "password") (to_be 4 0xae4d0c96)) as (_ & H3 & _);
    [right; left|vm_compute; reflexivity..|].
  specialize (H2 ltac:(discriminate)). specialize (H3 ltac:(discriminate)).
  rewrite length_replicate in H1. rewrite length_to_be in H2, H3. rewrite H, decide_True in H1 by exact Hf.
  rewrite H, decide_True in H2 by exact Hf. rewrite H, decide_True in H3 by exact Hf.
  split_and!; [exact H1|rewrite H2, bool_decide_true by reflexivity; reflexivity|].
  rewrite H3, bool_decide_false by discriminate. reflexivity.
Defined.
