(* ===== verification/TlsTranscript.v ===== *)
(** The transcript hash of a handshake (rustls-0.21.2/rustls/src/hash_hs.rs): a buffer
    until the hash function is known, a running digest of ring afterwards, and back
    when a HelloRetryRequest restarts the handshake. *)
From Stdlib Require Import ZArith Lia Strings.Byte String.
From stdpp Require Import base list numbers option.
From S2P Require Import Prelude.
From S2P Require Import RingSha.
From S2P Require Import RingDigest.
From S2P Require Import Codec.
From S2P Require Import TlsEnums.
From S2P Require Import TlsBase.
From S2P Require Import TlsExtensions.
From S2P Require Import TlsHandshake.
From S2P Require Import TlsError.
From S2P Require Import TlsMessage.
From S2P Require Import TlsProperties.
Open Scope rust_scope.

Record HandshakeHashBuffer : Type := mkHandshakeHashBuffer {
  buffer : list byte;
  client_auth_enabled : bool
}.

Record HandshakeHash : Type := mkHandshakeHash {
  hh_ctx : Context;
  client_auth : option (list byte)
}.

Section transcripts.
Context `{WebPki}.

(** What a message adds: its encoding, if it is a handshake message. *)
Definition transcript_bytes (m : Message) : list byte :=
  match m_payload m with MP_Handshake _ encoded => Payload_0 encoded | _ => [] end.

(** ** Before the hash function is known *)

Definition HandshakeHashBuffer_new : HandshakeHashBuffer := mkHandshakeHashBuffer [] false.

Definition set_client_auth_enabled (b : HandshakeHashBuffer) : HandshakeHashBuffer :=
  mkHandshakeHashBuffer (buffer b) true.

Definition HandshakeHashBuffer_add_message (b : HandshakeHashBuffer) (m : Message) : HandshakeHashBuffer :=
  match m_payload m with
  | MP_Handshake _ encoded => mkHandshakeHashBuffer (buffer b ++ Payload_0 encoded) (client_auth_enabled b)
  | _ => b
  end.

Definition HandshakeHashBuffer_get_hash_given (b : HandshakeHashBuffer) (alg : Algorithm) (extra : list byte)
    : res unit Digest :=
  let? ctx := Context_update (Context_new alg) (buffer b) in
  let? ctx := Context_update ctx extra in
  Context_finish ctx.

Definition start_hash (b : HandshakeHashBuffer) (alg : Algorithm) : res unit HandshakeHash :=
  let? ctx := Context_update (Context_new alg) (buffer b) in
  Ok (mkHandshakeHash ctx (if client_auth_enabled b then Some (buffer b) else None)).

(** ** Afterwards *)

Definition abandon_client_auth (h : HandshakeHash) : HandshakeHash := mkHandshakeHash (hh_ctx h) None.

Definition update_raw (h : HandshakeHash) (buf : list byte) : res unit HandshakeHash :=
  let? ctx := Context_update (hh_ctx h) buf in
  Ok (mkHandshakeHash ctx (match client_auth h with Some b => Some (b ++ buf) | None => None end)).

Definition HandshakeHash_add_message (h : HandshakeHash) (m : Message) : res unit HandshakeHash :=
  match m_payload m with
  | MP_Handshake _ encoded => update_raw h (Payload_0 encoded)
  | _ => Ok h
  end.

Definition HandshakeHash_get_hash_given (h : HandshakeHash) (extra : list byte) : res unit Digest :=
  let? ctx := Context_update (hh_ctx h) extra in
  Context_finish ctx.

Definition into_hrr_buffer (h : HandshakeHash) : res unit HandshakeHashBuffer :=
  let? old_hash := Context_finish (hh_ctx h) in
  let old_handshake_hash_msg := build_handshake_hash (Digest_as_ref old_hash) in
  Ok (mkHandshakeHashBuffer (get_encoding old_handshake_hash_msg)
    (match client_auth h with Some _ => true | None => false end)).

Definition rollup_for_hrr (h : HandshakeHash) : res unit HandshakeHash :=
  let? old_hash := Context_finish (hh_ctx h) in
  let old_handshake_hash_msg := build_handshake_hash (Digest_as_ref old_hash) in
  update_raw (mkHandshakeHash (Context_new (algorithm (block (hh_ctx h)))) (client_auth h)) (get_encoding old_handshake_hash_msg).

Definition get_current_hash (h : HandshakeHash) : res unit Digest := Context_finish (hh_ctx h).

Definition take_handshake_buf (h : HandshakeHash) : option (list byte) * HandshakeHash :=
  (client_auth h, mkHandshakeHash (hh_ctx h) None).

Definition hh_algorithm (h : HandshakeHash) : Algorithm := algorithm (block (hh_ctx h)).

(** * Runs of a transcript *)

Inductive transcript : Type := Buffering (b : HandshakeHashBuffer) | Hashing (h : HandshakeHash).

(** What the state machines call.  [Op_restart] is the client's way through a
    HelloRetryRequest, [Op_rollup] the server's. *)
Inductive transcript_op : Type :=
  | Op_add (m : Message)
  | Op_start
  | Op_restart
  | Op_rollup
  | Op_abandon.

(** One call; no call when the transcript is in the other form. *)
Definition transcript_call (alg : Algorithm) (t : transcript) (op : transcript_op) : option (res unit transcript) :=
  match t, op with
  | Buffering b, Op_add m => Some (Ok (Buffering (HandshakeHashBuffer_add_message b m)))
  | Buffering b, Op_start => Some (res_map Hashing (start_hash b alg))
  | Hashing h, Op_add m => Some (res_map Hashing (HandshakeHash_add_message h m))
  | Hashing h, Op_restart => Some (res_map Buffering (into_hrr_buffer h))
  | Hashing h, Op_rollup => Some (res_map Hashing (rollup_for_hrr h))
  | Hashing h, Op_abandon => Some (Ok (Hashing (abandon_client_auth h)))
  | _, _ => None
  end.

Fixpoint transcript_run (alg : Algorithm) (t : transcript) (ops : list transcript_op) : option (res unit transcript) :=
  match ops with
  | [] => Some (Ok t)
  | op :: ops =>
      match transcript_call alg t op with
      | Some (Ok t) => transcript_run alg t ops
      | r => r
      end
  end.

(** The calls that the form of the transcript allows. *)
Fixpoint allowed (hashing : bool) (ops : list transcript_op) : bool :=
  match ops with
  | [] => true
  | Op_add _ :: ops => allowed hashing ops
  | Op_start :: ops => negb hashing && allowed true ops
  | Op_restart :: ops => hashing && allowed false ops
  | (Op_rollup | Op_abandon) :: ops => hashing && allowed true ops
  end.

Definition is_hashing (t : transcript) : bool := match t with Hashing _ => true | Buffering _ => false end.

(** ** RFC 8446 4.4.1 *)

(** The text that is hashed: the messages, with those before a HelloRetryRequest
    replaced by a [message_hash] message. *)
Definition text_step (alg : Algorithm) (text : list byte) (op : transcript_op) : list byte :=
  match op with
  | Op_add m => text ++ transcript_bytes m
  | Op_restart | Op_rollup => get_encoding (build_handshake_hash (hash alg text))
  | Op_start | Op_abandon => text
  end.
Definition transcript_text (alg : Algorithm) (ops : list transcript_op) : list byte := fold_left (text_step alg) ops [].

(** What of a run the other side sees. *)
Definition visible (op : transcript_op) : option (option Message) :=
  match op with Op_add m => Some (Some m) | Op_restart | Op_rollup => Some None | Op_start | Op_abandon => None end.

Section laws.
Context (alg : Algorithm) (OK : AlgorithmOk alg).

(** The transcript has this text; the buffer for client authentication has it too
    as long as nothing was rolled up. *)
Definition has_text (rolled : bool) (text : list byte) (t : transcript) : Prop :=
  match t with
  | Buffering b => buffer b = text
  | Hashing h => holds alg text (hh_ctx h) ∧ (rolled = false → ∀ b, client_auth h = Some b → b = text)
  end.

Lemma holds_algorithm text c : holds alg text c → algorithm (block c) = alg.
Proof. intros (? & ? & _ & Hb & _). exact (absorbed_algorithm _ _ _ Hb). Qed.

Lemma update_fits {E} text c data :
  holds alg text c → fits (length (text ++ data)) → ∃ c', Context_update (E := E) c data = Ok c' ∧ holds alg (text ++ data) c'.
Proof.
  intros Hc Hf. pose proof (Context_update_spec alg OK (E := E) text c data Hc) as Hu. rewrite decide_True in Hu; [done|].
  rewrite length_app in Hf. unfold fits in Hf. pose proof (bl_pos alg OK).
  assert ((length text + length data) / block_len alg ≤ length text + length data) by (apply Nat.Div0.div_le_upper_bound; nia). lia.
Qed.

Lemma update_raw_spec rolled text h data :
  has_text rolled text (Hashing h) → fits (length (text ++ data)) →
  ∃ h', update_raw h data = Ok h' ∧ has_text rolled (text ++ data) (Hashing h').
Proof.
  intros [Hc Ha] Hf. unfold update_raw. destruct (update_fits (E := unit) text _ data Hc Hf) as (c' & -> & Hc').
  cbn [res_bind]. eexists. split; [done|]. split; [done|]. cbn. intros Hr b Hb.
  destruct (client_auth h) as [b0|]; [|done]. injection Hb as <-. by rewrite (Ha Hr b0).
Qed.

(** One call takes the text with it. *)
Lemma transcript_call_spec rolled text t op r :
  has_text rolled text t → fits (length text) → fits (length (text_step alg text op)) →
  transcript_call alg t op = Some r →
  ∃ t', r = Ok t' ∧ has_text (rolled || match op with Op_rollup => true | _ => false end) (text_step alg text op) t'.
Proof.
  intros Ht Hf Hf' E. destruct t as [b|h], op as [m| | | |]; try done; injection E as <-; cbn [text_step] in *.
  - eexists. split; [done|]. cbn in Ht |- *. unfold HandshakeHashBuffer_add_message, transcript_bytes.
    destruct (m_payload m); cbn; rewrite ?app_nil_r; congruence.
  - cbn in Ht. subst text. unfold start_hash.
    destruct (update_fits (E := unit) [] _ (buffer b) (holds_new alg OK) Hf) as (c & -> & Hc).
    cbn [res_bind res_map]. eexists. split; [done|]. split; [done|]. cbn. intros _ b0.
    destruct (client_auth_enabled b); [|done]. by intros [= ->].
  - unfold HandshakeHash_add_message, transcript_bytes in *. rewrite orb_false_r.
    destruct (m_payload m) as [|p e| |]; try (eexists; split; [done|by rewrite app_nil_r]).
    destruct (update_raw_spec _ _ _ _ Ht Hf') as (h' & -> & Hh'). cbn. by eexists.
  - destruct Ht as [Hc Ha]. unfold into_hrr_buffer. rewrite (Context_finish_spec alg OK text), decide_True by done.
    cbn. by eexists.
  - destruct Ht as [Hc Ha]. unfold rollup_for_hrr. rewrite (Context_finish_spec alg OK text), decide_True by done.
    cbn [res_bind]. change (Digest_as_ref _) with (hash alg text). rewrite (holds_algorithm _ _ Hc), orb_true_r.
    assert (Hn : has_text true [] (Hashing (mkHandshakeHash (Context_new alg) (client_auth h))))
      by (split; [apply (holds_new alg OK)|done]).
    destruct (update_raw_spec _ _ _ _ Hn Hf') as (h' & -> & Hh'). cbn [res_map res_bind]. by eexists.
  - destruct Ht as [Hc Ha]. eexists. split; [done|]. by split.
Qed.

(** The text fits at each call. *)
Fixpoint texts_fit (text : list byte) (ops : list transcript_op) : Prop :=
  fits (length text) ∧ match ops with [] => True | op :: ops => texts_fit (text_step alg text op) ops end.

Lemma transcript_run_spec rolled text t ops :
  has_text rolled text t → texts_fit text ops → allowed (is_hashing t) ops = true →
  ∃ t', transcript_run alg t ops = Some (Ok t') ∧
    has_text (rolled || existsb (λ op, match op with Op_rollup => true | _ => false end) ops) (fold_left (text_step alg) ops text) t'.
Proof.
  revert rolled text t. induction ops as [|op ops IH]; intros rolled text t Ht [Hf Hfs] E.
  - eexists. split; [done|]. cbn. by rewrite orb_false_r.
  - destruct (transcript_call alg t op) as [r|] eqn:Ec; [|by destruct t, op].
    destruct (transcript_call_spec rolled text t op r Ht Hf) as (t' & -> & Ht'); [by destruct ops; destruct Hfs|done|].
    assert (E' : allowed (is_hashing t') ops = true).
    { destruct t, op; cbn in Ec, E; unfold res_map in Ec; simplify_eq; try done;
        match goal with H : context [res_bind ?x _] |- _ => destruct x; cbn in H; by simplify_eq end. }
    destruct (IH _ _ _ Ht' Hfs E') as (t'' & Et & Ht''). exists t''. cbn [transcript_run existsb fold_left].
    rewrite Ec. split; [done|]. by rewrite orb_assoc.
Qed.

Lemma has_text_empty auth : has_text false [] (Buffering (mkHandshakeHashBuffer [] auth)).
Proof. done. Qed.

(** The hash of what a transcript has, with more text if wanted. *)
Lemma hash_given_spec rolled text h extra :
  has_text rolled text (Hashing h) → fits (length (text ++ extra)) →
  res_map Digest_as_ref (HandshakeHash_get_hash_given h extra) = Ok (hash alg (text ++ extra)).
Proof.
  intros [Hc _] Hf. unfold HandshakeHash_get_hash_given. destruct (update_fits (E := unit) text _ extra Hc Hf) as (c & -> & Hc').
  cbn [res_bind]. by rewrite (Context_finish_spec alg OK _ _ Hc'), decide_True.
Qed.

Lemma current_hash_spec rolled text h :
  has_text rolled text (Hashing h) → fits (length text) → res_map Digest_as_ref (get_current_hash h) = Ok (hash alg text).
Proof. intros [Hc _] Hf. unfold get_current_hash. by rewrite (Context_finish_spec alg OK _ _ Hc), decide_True. Qed.

Lemma buffer_hash_given_spec b extra :
  fits (length (buffer b ++ extra)) →
  res_map Digest_as_ref (HandshakeHashBuffer_get_hash_given b alg extra) = Ok (hash alg (buffer b ++ extra)).
Proof.
  intros Hf. unfold HandshakeHashBuffer_get_hash_given.
  destruct (update_fits (E := unit) [] _ (buffer b) (holds_new alg OK)) as (c & -> & Hc).
  { cbn [app]. rewrite length_app in Hf. unfold fits in *. lia. }
  cbn [res_bind]. destruct (update_fits (E := unit) _ _ extra Hc Hf) as (c' & -> & Hc').
  cbn [res_bind]. by rewrite (Context_finish_spec alg OK _ _ Hc'), decide_True.
Qed.

(** The text is a function of what the other side sees. *)
Lemma text_visible ops1 ops2 text :
  omap visible ops1 = omap visible ops2 → fold_left (text_step alg) ops1 text = fold_left (text_step alg) ops2 text.
Proof.
  assert (Hv : ∀ ops text, fold_left (text_step alg) ops text =
    fold_left (λ text o, match o with Some m => text ++ transcript_bytes m | None => get_encoding (build_handshake_hash (hash alg text)) end)
      (omap visible ops) text).
  { induction ops as [|op ops IH]; intros t; [done|]. by destruct op; cbn; rewrite IH. }
  intros E. by rewrite !Hv, E.
Qed.

End laws.

(** Both ends of a handshake hash the same transcript.  If they add the same
    messages around the same HelloRetryRequests, then however long each buffers
    before it starts to hash, and whether it restarts from a buffer (the client) or
    rolls the digest up in place (the server), no call fails or panics, and the
    hashes, with the same text to come or without, are equal: they are the hash of
    the transcript of RFC 8446 4.4.1.  A buffer kept for client authentication has
    the text of the transcript unless it was rolled up. *)
Theorem transcripts_agree alg auth1 auth2 ops1 ops2 extra :
  alg ∈ ALGORITHMS → allowed false ops1 = true → allowed false ops2 = true →
  omap visible ops1 = omap visible ops2 → texts_fit alg [] ops1 → texts_fit alg [] ops2 →
  fits (length (transcript_text alg ops1 ++ extra)) →
  ∃ t1 t2, transcript_run alg (Buffering (mkHandshakeHashBuffer [] auth1)) ops1 = Some (Ok t1) ∧
    transcript_run alg (Buffering (mkHandshakeHashBuffer [] auth2)) ops2 = Some (Ok t2) ∧ ∀ h1, t1 = Hashing h1 →
    res_map Digest_as_ref (HandshakeHash_get_hash_given h1 extra) = Ok (hash alg (transcript_text alg ops1 ++ extra)) ∧
    res_map Digest_as_ref (get_current_hash h1) = Ok (hash alg (transcript_text alg ops1)) ∧
    (Op_rollup ∉ ops1 → ∀ b, (take_handshake_buf h1).1 = Some b → b = transcript_text alg ops1) ∧
    match t2 with
    | Buffering b => buffer b = transcript_text alg ops1 ∧
        res_map Digest_as_ref (HandshakeHashBuffer_get_hash_given b alg extra) = res_map Digest_as_ref (HandshakeHash_get_hash_given h1 extra)
    | Hashing h2 => res_map Digest_as_ref (HandshakeHash_get_hash_given h2 extra) = res_map Digest_as_ref (HandshakeHash_get_hash_given h1 extra) ∧
        res_map Digest_as_ref (get_current_hash h2) = res_map Digest_as_ref (get_current_hash h1)
    end.
Proof.
  intros OK%algorithms_ok R1 R2 Hv F1 F2 Hf.
  destruct (transcript_run_spec alg OK _ _ _ ops1 (has_text_empty alg auth1) F1 R1) as (t1 & E1 & H1).
  destruct (transcript_run_spec alg OK _ _ _ ops2 (has_text_empty alg auth2) F2 R2) as (t2 & E2 & H2).
  exists t1, t2. split_and!; try done. intros h1 ->. rewrite <- (text_visible alg ops1 ops2 [] Hv) in H2.
  fold (transcript_text alg ops1) in H1, H2. set (text := transcript_text alg ops1) in *.
  assert (Hf0 : fits (length text)) by (rewrite length_app in Hf; unfold fits in *; lia).
  rewrite (hash_given_spec alg OK _ _ _ extra H1 Hf), (current_hash_spec alg OK _ _ _ H1 Hf0).
  split_and!; try done.
  - intros Hn b Hb. destruct H1 as [_ Ha]. apply Ha; [|done]. cbn [orb].
    apply not_true_is_false. intros (op & Hin & Hop)%existsb_exists. apply list_elem_of_In in Hin. by destruct op.
  - destruct t2 as [b|h2].
    + cbn in H2. rewrite <- H2 in Hf |- *. split; [done|]. by apply buffer_hash_given_spec.
    + by rewrite (hash_given_spec alg OK _ _ _ extra H2 Hf), (current_hash_spec alg OK _ _ _ H2 Hf0).
Qed.

End transcripts.

(** A client and a server through a HelloRetryRequest, with three messages. *)
Definition sample_message `{WebPki} (b : byte) : Message :=
  mkMessage ProtocolVersion.TLSv1_2 (MP_Handshake build_key_update_notify (mkPayload [b; x00; x01])).

Lemma transcripts_agree_witness :
  let _ := any_name in
  let client := [Op_add (sample_message x01); Op_start; Op_restart; Op_add (sample_message x02); Op_start; Op_add (sample_message x03)] in
  let server := [Op_add (sample_message x01); Op_start; Op_rollup; Op_add (sample_message x02); Op_add (sample_message x03)] in
  ∃ t1 t2, transcript_run SHA256 (Buffering HandshakeHashBuffer_new) client = Some (Ok t1) ∧
    transcript_run SHA256 (Buffering HandshakeHashBuffer_new) server = Some (Ok t2) ∧
    ∀ h1, t1 = Hashing h1 →
      res_map Digest_as_ref (get_current_hash h1) = Ok (hash SHA256 ([xfe; x00; x00; x20] ++ hash SHA256 [x01; x00; x01] ++ [x02; x00; x01; x03; x00; x01])).
Proof.
  intros pki client server.
  assert (Ht : transcript_text SHA256 client = [xfe; x00; x00; x20] ++ hash SHA256 [x01; x00; x01] ++ [x02; x00; x01; x03; x00; x01])
    by (vm_compute; reflexivity).
  destruct (transcripts_agree SHA256 false false client server []) as (t1 & t2 & E1 & E2 & Hh);
    [right; left|reflexivity|reflexivity|reflexivity|vm_compute; repeat split|vm_compute; repeat split|vm_compute; reflexivity|].
  exists t1, t2. split; [exact E1|]. split; [exact E2|]. intros h1 Hh1. destruct (Hh h1 Hh1) as (_ & Hc & _).
  rewrite Hc, Ht. reflexivity.
Defined.
