(* ===== verification/TlsKeySchedule.v ===== *)
(** The key schedule of TLS 1.3 (rustls-0.21.2/rustls/src/tls13/key_schedule.rs) over
    the digests and the key derivation of ring: its typestates, the secrets they
    derive, the ciphers they install in the record layer, and what is logged. *)
From Stdlib Require Import ZArith Lia Strings.Byte String.
From stdpp Require Import base list numbers option strings.
From S2P Require Import Prelude.
From S2P Require Import RingSha.
From S2P Require Import RingDigest.
From S2P Require Import RingHmac.
From S2P Require Import RingKdf.
From S2P Require Import Codec.
From S2P Require Import TlsEnums.
From S2P Require Import TlsBase.
From S2P Require Import TlsExtensions.
From S2P Require Import TlsHandshake.
From S2P Require Import TlsError.
From S2P Require Import TlsMessage.
From S2P Require Import Fragmenter.
From S2P Require Import VecBuf.
From S2P Require Import RecordLayer.
From S2P Require Import TlsCiphers.
From S2P Require Import TlsSuites.
From S2P Require Import TlsSecrets.
From S2P Require Import StateMonad.
From S2P Require Import TlsCommon.
Open Scope rust_scope.

(** The digest of ring that an HMAC algorithm of the suites is over. *)
Definition ring_alg (h : HmacAlgorithm) : Algorithm :=
  match h with HMAC_SHA256 => RingDigest.SHA256 | HMAC_SHA384 => RingDigest.SHA384 end.

(** * Secrets *)

Inductive SecretKind : Type :=
  | ResumptionPskBinderKey
  | ClientEarlyTrafficSecret
  | ClientHandshakeTrafficSecret
  | ServerHandshakeTrafficSecret
  | ClientApplicationTrafficSecret
  | ServerApplicationTrafficSecret
  | ExporterMasterSecret
  | ResumptionMasterSecret
  | DerivedSecret.

Definition SecretKind_to_bytes (k : SecretKind) : list byte :=
  ascii match k with
  | ResumptionPskBinderKey => "res binder"
  | ClientEarlyTrafficSecret => "c e traffic"
  | ClientHandshakeTrafficSecret => "c hs traffic"
  | ServerHandshakeTrafficSecret => "s hs traffic"
  | ClientApplicationTrafficSecret => "c ap traffic"
  | ServerApplicationTrafficSecret => "s ap traffic"
  | ExporterMasterSecret => "exp master"
  | ResumptionMasterSecret => "res master"
  | DerivedSecret => "derived"
  end.

Definition SecretKind_log_label (k : SecretKind) : option string :=
  match k with
  | ClientEarlyTrafficSecret => Some "CLIENT_EARLY_TRAFFIC_SECRET"
  | ClientHandshakeTrafficSecret => Some "CLIENT_HANDSHAKE_TRAFFIC_SECRET"
  | ServerHandshakeTrafficSecret => Some "SERVER_HANDSHAKE_TRAFFIC_SECRET"
  | ClientApplicationTrafficSecret => Some "CLIENT_TRAFFIC_SECRET_0"
  | ServerApplicationTrafficSecret => Some "SERVER_TRAFFIC_SECRET_0"
  | ExporterMasterSecret => Some "EXPORTER_SECRET"
  | _ => None
  end%string.

(** [dyn KeyLog]: which labels it wants; what it was given, in order. *)
Record KeyLog : Type := mkKeyLog {
  will_log : string → bool;
  logged : list (string * list byte * list byte)
}.

(** ** HKDF-Expand-Label *)

Definition hkdf_expand_info {T} (secret : Key) (len : nat) (label context : list byte) (f : Okm → res unit T) : res unit T :=
  let LABEL_PREFIX := ascii "tls13 " in
  let output_len := to_be 2 (as_u16 (Z.of_nat len)) in
  let label_len := to_be 1 (as_u8 (Z.of_nat (length LABEL_PREFIX + length label))) in
  let context_len := to_be 1 (as_u8 (Z.of_nat (length context))) in
  let info := [output_len; label_len; LABEL_PREFIX; label; context_len; context] in
  match Prk_expand secret info len with
  | Ok okm => f okm
  | Err _ => Panic
  | Panic => Panic
  | NoFuel => NoFuel
  end.

(** The conversions from [Okm]: [fill(..).unwrap()] of a buffer of zeros. *)
Definition fill_unwrap (okm : Okm) (len : nat) : res unit (list byte) :=
  match Okm_fill okm (replicate len x00) with Ok out => Ok out | NoFuel => NoFuel | _ => Panic end.

Definition PayloadU8_from_okm (okm : Okm) : res unit (list byte) := fill_unwrap okm (len_cached okm).
Definition Iv_from_okm (okm : Okm) : res unit (list byte) := fill_unwrap okm NONCE_LEN.

Record KeySchedule : Type := mkKeySchedule { current : Key; ks_suite : Tls13CipherSuite }.

Definition ks_algorithm (ks : KeySchedule) : Algorithm := ring_alg (hkdf_algorithm (ks_suite ks)).

(** [hkdf_expand] into an HKDF or HMAC key of an algorithm. *)
Definition hkdf_expand_key (secret : Key) (a : Algorithm) (label context : list byte) : res unit Key :=
  hkdf_expand_info secret (output_len a) label context (Key_from_okm a).

Definition KeySchedule_new (suite : Tls13CipherSuite) (secret : list byte) : res unit KeySchedule :=
  let a := ring_alg (hkdf_algorithm suite) in
  let? zeroes := slice 0 (output_len a) (replicate MAX_OUTPUT_LEN x00) in
  let? salt := Salt_new a zeroes in
  let? current := Salt_extract salt secret in
  Ok (mkKeySchedule current suite).

Definition new_with_empty_secret (suite : Tls13CipherSuite) : res unit KeySchedule :=
  let? zeroes := slice 0 (output_len (ring_alg (hkdf_algorithm suite))) (replicate MAX_OUTPUT_LEN x00) in
  KeySchedule_new suite zeroes.

(** [derive] of an [hkdf::Prk] or an [hkdf::Salt]. *)
Definition ks_derive (ks : KeySchedule) (kind : SecretKind) (hs_hash : list byte) : res unit Key :=
  hkdf_expand_key (current ks) (ks_algorithm ks) (SecretKind_to_bytes kind) hs_hash.

Definition derive_for_empty_hash (ks : KeySchedule) (kind : SecretKind) : res unit Key :=
  let? empty_hash := digest (ks_algorithm ks) [] in
  ks_derive ks kind (Digest_as_ref empty_hash).

Definition input_secret (ks : KeySchedule) (secret : list byte) : res unit KeySchedule :=
  let? salt := derive_for_empty_hash ks DerivedSecret in
  let? current := Salt_extract salt secret in
  Ok (mkKeySchedule current (ks_suite ks)).

Definition input_empty (ks : KeySchedule) : res unit KeySchedule :=
  let? zeroes := slice 0 (output_len (ks_algorithm ks)) (replicate MAX_OUTPUT_LEN x00) in
  input_secret ks zeroes.

Definition derive_logged_secret (ks : KeySchedule) (kind : SecretKind) (hs_hash client_random : list byte)
    : method KeyLog unit Key :=
  match SecretKind_log_label kind with
  | None => st_try (λ _, Panic)
  | Some log_label =>
      let! wants := st_get (λ l, will_log l log_label) in
      let! _ :=
        (if wants : bool then
           let! secret := st_try (λ _, hkdf_expand_info (current ks) (output_len (ks_algorithm ks))
             (SecretKind_to_bytes kind) hs_hash PayloadU8_from_okm) in
           st_set (λ l, mkKeyLog (will_log l) (logged l ++ [(log_label, client_random, secret)]))
         else st_ret tt) in
      st_try (λ _, ks_derive ks kind hs_hash)
  end.

Definition sign_verify_data (ks : KeySchedule) (base_key : Key) (hs_hash : list byte) : res unit Digest :=
  let? hmac_key := hkdf_expand_key base_key (ks_algorithm ks) (ascii "finished") [] in
  RingHmac.sign hmac_key hs_hash.

Definition sign_finish (ks : KeySchedule) (base_key : Key) (hs_hash : list byte) : res unit Digest :=
  sign_verify_data ks base_key hs_hash.

Definition derive_next (ks : KeySchedule) (base_key : Key) : res unit Key :=
  hkdf_expand_key base_key (ks_algorithm ks) (ascii "traffic upd") [].

Definition derive_ticket_psk (ks : KeySchedule) (rms : Key) (nonce : list byte) : res unit (list byte) :=
  hkdf_expand_info rms (output_len (ks_algorithm ks)) (ascii "resumption") nonce PayloadU8_from_okm.

(** [KeySchedule::export_keying_material]; the result is what becomes of [out]. *)
Definition ks_export_keying_material `{ForeignErrors} (ks : KeySchedule) (current_exporter_secret : Key) (out label : list byte)
    (context : option (list byte)) : res Error (list byte) :=
  let x :=
    (let? h_empty := digest (ks_algorithm ks) [] in
     let? secret := hkdf_expand_key current_exporter_secret (ks_algorithm ks) label (Digest_as_ref h_empty) in
     let? h_context := digest (ks_algorithm ks) (default [] context) in
     hkdf_expand_info secret (length out) (ascii "exporter") (Digest_as_ref h_context) (λ okm, Okm_fill okm out)) in
  res_map_err (λ _, General "exporting too much") x.

(** * Ciphers *)

(** The keys of ring's AEADs have at most this many bytes. *)
Definition MAX_KEY_LEN : nat := 32.
Class AeadKeyLens `{Aead} (K : AeadKeys) : Prop := key_len_max alg : key_len alg ≤ MAX_KEY_LEN.

Section ciphers.
Context `{WebPki} `{ForeignErrors} `{AeadKeys} (debug : bool).
#[local] Abbreviation method := (method CommonState).

(** [impl From<Okm<&Algorithm>> for UnboundKey] (ring/src/aead.rs) *)
Definition UnboundKey_from_okm (alg : AeadAlgorithm) (okm : Okm) : res unit LessSafeKey :=
  let? key_bytes := slice 0 (key_len alg) (replicate MAX_KEY_LEN x00) in
  let? key_bytes := fill_unwrap okm (length key_bytes) in
  match UnboundKey_new alg key_bytes with Some k => Ok k | None => Panic end.

Definition derive_traffic_key (secret : Key) (aead_algorithm : AeadAlgorithm) : res unit LessSafeKey :=
  hkdf_expand_info secret (key_len aead_algorithm) (ascii "key") [] (UnboundKey_from_okm aead_algorithm).

Definition derive_traffic_iv (secret : Key) : res unit (list byte) :=
  hkdf_expand_info secret NONCE_LEN (ascii "iv") [] Iv_from_okm.

Definition derive_decrypter (ks : KeySchedule) (secret : Key) : res unit MessageDecrypter :=
  let? key := derive_traffic_key secret (aead_algorithm (tls13_common (ks_suite ks))) in
  let? iv := derive_traffic_iv secret in
  Ok (Tls13MessageDecrypter key iv).

(** A change of the record layer. *)
Definition change_record_layer {E} (f : RecordLayer → res unit RecordLayer) : method E unit := λ c,
  match f (record_layer c) with
  | Ok rl => (Ok tt, set_record_layer rl c)
  | NoFuel => (NoFuel, c)
  | _ => (Panic, c)
  end.

Definition ks_set_encrypter (ks : KeySchedule) (secret : Key) : method unit unit :=
  let! key := st_try (λ _, derive_traffic_key secret (aead_algorithm (tls13_common (ks_suite ks)))) in
  let! iv := st_try (λ _, derive_traffic_iv secret) in
  change_record_layer (λ rl, RecordLayer.set_message_encrypter debug rl (Tls13MessageEncrypter key iv)).

Definition ks_set_decrypter (ks : KeySchedule) (secret : Key) : method unit unit :=
  let! dec := st_try (λ _, derive_decrypter ks secret) in
  change_record_layer (λ rl, RecordLayer.set_message_decrypter debug rl dec).

(** * The typestates *)

(** A method of [common] and of the log. *)
Definition logging {E A} (m : StateMonad.method KeyLog E A) : StateMonad.method (CommonState * KeyLog) E A := λ cx,
  let '(x, l) := m cx.2 in (x, (cx.1, l)).
Definition assert_side {E} (s : Side) : method E unit := st_debug_assert debug (λ c, bool_decide (side c = s)).

(** [KeyScheduleEarly], [KeySchedulePreHandshake] and [KeyScheduleHandshakeStart] are
    a key schedule each. *)
Definition KeyScheduleEarly_new (suite : Tls13CipherSuite) (secret : list byte) : res unit KeySchedule :=
  KeySchedule_new suite secret.

Definition client_early_traffic_secret (ks : KeySchedule) (hs_hash client_random : list byte)
    : StateMonad.method (CommonState * KeyLog) unit unit :=
  let! secret := logging (derive_logged_secret ks ClientEarlyTrafficSecret hs_hash client_random) in
  let! s := st_get (λ cx, side cx.1) in
  match s with
  | Client => on_common (ks_set_encrypter ks secret)
  | Server => on_common (ks_set_decrypter ks secret)
  end.

Definition resumption_psk_binder_key_and_sign_verify_data (ks : KeySchedule) (hs_hash : list byte) : res unit Digest :=
  let? resumption_psk_binder_key := derive_for_empty_hash ks ResumptionPskBinderKey in
  sign_verify_data ks resumption_psk_binder_key hs_hash.

Definition KeySchedulePreHandshake_new (suite : Tls13CipherSuite) : res unit KeySchedule := new_with_empty_secret suite.

Definition into_handshake (ks : KeySchedule) (secret : list byte) : res unit KeySchedule := input_secret ks secret.

Record KeyScheduleHandshake : Type := mkKeyScheduleHandshake {
  hs_ks : KeySchedule;
  client_handshake_traffic_secret : Key;
  server_handshake_traffic_secret : Key
}.

(** [KeyScheduleHandshakeStart::into_handshake] *)
Definition start_into_handshake (ks : KeySchedule) (hs_hash client_random : list byte)
    : StateMonad.method KeyLog unit KeyScheduleHandshake :=
  let! client_secret := derive_logged_secret ks ClientHandshakeTrafficSecret hs_hash client_random in
  let! server_secret := derive_logged_secret ks ServerHandshakeTrafficSecret hs_hash client_random in
  st_ret (mkKeyScheduleHandshake ks client_secret server_secret).

Definition derive_client_handshake_secrets (ks : KeySchedule) (early_data_enabled : bool) (hs_hash : list byte)
    (suite : Tls13CipherSuite) (client_random : list byte) : StateMonad.method (CommonState * KeyLog) unit KeyScheduleHandshake :=
  let! _ := on_common (assert_side Client) in
  let ks := mkKeySchedule (current ks) suite in
  let! new := logging (start_into_handshake ks hs_hash client_random) in
  let! _ := on_common (ks_set_decrypter (hs_ks new) (server_handshake_traffic_secret new)) in
  let! _ :=
    (if early_data_enabled then st_ret tt
     else on_common (ks_set_encrypter (hs_ks new) (client_handshake_traffic_secret new))) in
  st_ret new.

Definition derive_server_handshake_secrets (ks : KeySchedule) (hs_hash client_random : list byte)
    : StateMonad.method (CommonState * KeyLog) unit KeyScheduleHandshake :=
  let! _ := on_common (assert_side Server) in
  let! new := logging (start_into_handshake ks hs_hash client_random) in
  let! _ := on_common (ks_set_encrypter (hs_ks new) (server_handshake_traffic_secret new)) in
  st_ret new.

Definition sign_server_finish (h : KeyScheduleHandshake) (hs_hash : list byte) : res unit Digest :=
  sign_finish (hs_ks h) (server_handshake_traffic_secret h) hs_hash.

Definition set_handshake_encrypter (h : KeyScheduleHandshake) : method unit unit :=
  let! _ := assert_side Client in
  ks_set_encrypter (hs_ks h) (client_handshake_traffic_secret h).

Definition set_handshake_decrypter (h : KeyScheduleHandshake) (skip_requested : option nat) : method unit unit :=
  let! _ := assert_side Server in
  let secret := client_handshake_traffic_secret h in
  match skip_requested with
  | None => ks_set_decrypter (hs_ks h) secret
  | Some max_early_data_size =>
      let! dec := st_try (λ _, derive_decrypter (hs_ks h) secret) in
      change_record_layer (λ rl, RecordLayer.set_message_decrypter_with_trial_decryption debug rl dec max_early_data_size)
  end.

Record KeyScheduleTraffic : Type := mkKeyScheduleTraffic {
  tr_ks : KeySchedule;
  current_client_traffic_secret : Key;
  current_server_traffic_secret : Key;
  current_exporter_secret : Key
}.

Definition KeyScheduleTraffic_new (ks : KeySchedule) (hs_hash client_random : list byte)
    : StateMonad.method KeyLog unit KeyScheduleTraffic :=
  let! ks := st_try (λ _, input_empty ks) in
  let! client := derive_logged_secret ks ClientApplicationTrafficSecret hs_hash client_random in
  let! server := derive_logged_secret ks ServerApplicationTrafficSecret hs_hash client_random in
  let! exporter := derive_logged_secret ks ExporterMasterSecret hs_hash client_random in
  st_ret (mkKeyScheduleTraffic ks client server exporter).

(** [KeyScheduleTrafficWithClientFinishedPending] *)
Record KeyScheduleTrafficPending : Type := mkKeyScheduleTrafficPending {
  handshake_client_traffic_secret : Key;
  pending_traffic : KeyScheduleTraffic
}.

Definition into_traffic_with_client_finished_pending (h : KeyScheduleHandshake) (hs_hash client_random : list byte)
    : StateMonad.method (CommonState * KeyLog) unit KeyScheduleTrafficPending :=
  let! _ := on_common (assert_side Server) in
  let! traffic := logging (KeyScheduleTraffic_new (hs_ks h) hs_hash client_random) in
  let! _ := on_common (ks_set_encrypter (tr_ks traffic) (current_server_traffic_secret traffic)) in
  st_ret (mkKeyScheduleTrafficPending (client_handshake_traffic_secret h) traffic).

(** [KeyScheduleClientBeforeFinished] is the traffic stage, not yet in use. *)
Definition into_pre_finished_client_traffic (h : KeyScheduleHandshake) (pre_finished_hash handshake_hash client_random : list byte)
    : StateMonad.method KeyLog unit (KeyScheduleTraffic * Digest) :=
  let! traffic := KeyScheduleTraffic_new (hs_ks h) pre_finished_hash client_random in
  let! tag := st_try (λ _, sign_finish (tr_ks traffic) (client_handshake_traffic_secret h) handshake_hash) in
  st_ret (traffic, tag).

Definition into_traffic (traffic : KeyScheduleTraffic) : method unit KeyScheduleTraffic :=
  let! _ := assert_side Client in
  let! _ := ks_set_decrypter (tr_ks traffic) (current_server_traffic_secret traffic) in
  let! _ := ks_set_encrypter (tr_ks traffic) (current_client_traffic_secret traffic) in
  st_ret traffic.

Definition pending_update_decrypter (p : KeyScheduleTrafficPending) : method unit unit :=
  let! _ := assert_side Server in
  ks_set_decrypter (tr_ks (pending_traffic p)) (handshake_client_traffic_secret p).

Definition sign_client_finish (p : KeyScheduleTrafficPending) (hs_hash : list byte)
    : method unit (KeyScheduleTraffic * Digest) :=
  let! _ := assert_side Server in
  let traffic := pending_traffic p in
  let! tag := st_try (λ _, sign_finish (tr_ks traffic) (handshake_client_traffic_secret p) hs_hash) in
  let! _ := ks_set_decrypter (tr_ks traffic) (current_client_traffic_secret traffic) in
  st_ret (traffic, tag).

(** ** Key updates *)

Definition next_application_traffic_secret (t : KeyScheduleTraffic) (s : Side) : res unit (Key * KeyScheduleTraffic) :=
  match s with
  | Client =>
      let? secret := derive_next (tr_ks t) (current_client_traffic_secret t) in
      Ok (secret, mkKeyScheduleTraffic (tr_ks t) secret (current_server_traffic_secret t) (current_exporter_secret t))
  | Server =>
      let? secret := derive_next (tr_ks t) (current_server_traffic_secret t) in
      Ok (secret, mkKeyScheduleTraffic (tr_ks t) (current_client_traffic_secret t) secret (current_exporter_secret t))
  end.

Definition update_encrypter_and_notify (t : KeyScheduleTraffic) : method unit KeyScheduleTraffic :=
  let! s := st_get side in
  let! x := st_try (λ _, next_application_traffic_secret t s) in
  let '(secret, t) := x in
  let! _ := enqueue_key_update_notification debug in
  let! _ := ks_set_encrypter (tr_ks t) secret in
  st_ret t.

Definition update_decrypter (t : KeyScheduleTraffic) : method unit KeyScheduleTraffic :=
  let! s := st_get side in
  let! x := st_try (λ _, next_application_traffic_secret t (Side_peer s)) in
  let '(secret, t) := x in
  let! _ := ks_set_decrypter (tr_ks t) secret in
  st_ret t.

Definition resumption_master_secret_and_derive_ticket_psk (t : KeyScheduleTraffic) (hs_hash nonce : list byte)
    : res unit (list byte) :=
  let? resumption_master_secret := ks_derive (tr_ks t) ResumptionMasterSecret hs_hash in
  derive_ticket_psk (tr_ks t) resumption_master_secret nonce.

Definition tls13_export_keying_material (t : KeyScheduleTraffic) (out label : list byte) (context : option (list byte))
    : res Error (list byte) :=
  ks_export_keying_material (tr_ks t) (current_exporter_secret t) out label context.

End ciphers.

(** * RFC 8446 7.1 *)

(** [HkdfLabel], and HKDF-Expand-Label. *)
Definition hkdf_label (len : nat) (label context : list byte) : list byte :=
  to_be 2 (Z.of_nat len) ++ to_be 1 (Z.of_nat (6 + length label)) ++ ascii "tls13 " ++ label ++
  to_be 1 (Z.of_nat (length context)) ++ context.
Definition expand_label (a : Algorithm) (secret label context : list byte) (len : nat) : list byte :=
  hkdf_expand a secret (hkdf_label len label context) len.

(** Derive-Secret, and the step from one stage to the next. *)
Definition derive_secret (a : Algorithm) (secret label hs_hash : list byte) : list byte :=
  expand_label a secret label hs_hash (output_len a).
Definition early_secret (a : Algorithm) (psk : list byte) : list byte := hkdf_extract a (replicate (output_len a) x00) psk.
Definition next_stage (a : Algorithm) (secret ikm : list byte) : list byte :=
  hkdf_extract a (derive_secret a secret (ascii "derived") (hash a [])) ikm.
Definition handshake_secret (a : Algorithm) (psk dhe : list byte) : list byte := next_stage a (early_secret a psk) dhe.
Definition master_secret (a : Algorithm) (psk dhe : list byte) : list byte :=
  next_stage a (handshake_secret a psk dhe) (replicate (output_len a) x00).

Definition finished_mac (a : Algorithm) (base hs_hash : list byte) : list byte :=
  hmac a (expand_label a base (ascii "finished") [] (output_len a)) hs_hash.
Definition next_secret (a : Algorithm) (secret : list byte) : list byte :=
  expand_label a secret (ascii "traffic upd") [] (output_len a).

(** What is logged of a secret, under its label, if the log wants it. *)
Definition log_secret (label : string) (client_random secret : list byte) (l : KeyLog) : KeyLog :=
  if will_log l label then mkKeyLog (will_log l) (logged l ++ [(label, client_random, secret)]) else l.

(** The inputs of HKDF-Expand-Label, the application's included, fit in a digest. *)
Definition label_fits (label context : list byte) : Prop := (Z.of_nat (length label + length context) < 2 ^ 60)%Z.

Lemma ring_alg_ok h : AlgorithmOk (ring_alg h).
Proof. apply algorithms_ok. destruct h; cbn; unfold ALGORITHMS; rewrite !elem_of_cons; auto. Qed.

Section laws.
Context (a : Algorithm) (OK : AlgorithmOk a).

Lemma zeroes_Ok {E} : slice (E := E) 0 (output_len a) (replicate MAX_OUTPUT_LEN x00) = Ok (replicate (output_len a) x00).
Proof.
  pose proof (ok_output_len a OK). rewrite slice_Ok by (rewrite ?length_replicate; lia).
  by rewrite drop_0, Nat.sub_0_r, take_replicate, Nat.min_l by lia.
Qed.

Lemma label_small label context : length label + length context ≤ 1000 → label_fits label context.
Proof. unfold label_fits. lia. Qed.

Lemma expand_info {T} sec secret len label context :
  key_for a sec secret → len ≤ 255 * output_len a →
  ∃ info, mjoin info = hkdf_label len label context ∧
    ∀ f : Okm → res unit T, hkdf_expand_info secret len label context f = f (mkOkm secret info len).
Proof.
  intros Hk Hlen. eexists. split; [|intros f; unfold hkdf_expand_info, Prk_expand; rewrite (key_for_algorithm a _ _ Hk)].
  2:{ destruct (Nat.ltb_spec (255 * output_len a) len); [lia|]. reflexivity. }
  cbn [mjoin list_join]. rewrite app_nil_r. unfold hkdf_label. rewrite to_be_as_u16, !to_be_as_u8. done.
Qed.

Lemma info_fits len label context info :
  label_fits label context → mjoin info = hkdf_label len label context →
  fits (block_len a + output_len a + length (mjoin info) + 1).
Proof.
  intros Hf ->. pose proof (ok_block_len a OK) as H1. pose proof (ok_output_len a OK) as H2. unfold MAX_BLOCK_LEN in H1.
  unfold label_fits, fits, hkdf_label in *. rewrite !length_app, !length_to_be. change (length (ascii "tls13 ")) with 6. lia.
Qed.

Lemma fill_unwrap_spec sec secret len label context info :
  key_for a sec secret → len ≤ 255 * output_len a → label_fits label context → mjoin info = hkdf_label len label context →
  fill_unwrap (mkOkm secret info len) len = Ok (expand_label a sec label context len).
Proof.
  intros Hk Hlen Hf Hi. unfold fill_unwrap.
  pose proof (Okm_fill_spec a OK sec secret info (replicate len x00) Hk) as Hfill. rewrite length_replicate in Hfill.
  rewrite Hfill; [|by eapply info_fits|done]. unfold expand_label. by rewrite Hi.
Qed.

Lemma length_expand_label sec label context len : length (expand_label a sec label context len) ≤ len.
Proof. unfold expand_label, hkdf_expand. rewrite length_take. lia. Qed.

Lemma hkdf_expand_key_spec sec secret label context :
  key_for a sec secret → label_fits label context →
  ∃ k, hkdf_expand_key secret a label context = Ok k ∧ key_for a (expand_label a sec label context (output_len a)) k.
Proof.
  intros Hk Hf. unfold hkdf_expand_key. pose proof (ok_output_len a OK) as Ho.
  destruct (expand_info (T := Key) sec secret (output_len a) label context Hk ltac:(lia)) as (info & Hi & ->).
  unfold Key_from_okm, Key_construct. rewrite zeroes_Ok. cbn [res_bind].
  pose proof (fill_unwrap_spec sec secret (output_len a) label context info Hk ltac:(lia) Hf Hi) as Hfill. unfold fill_unwrap in Hfill.
  destruct (Okm_fill _ _) as [out| | |]; try done. injection Hfill as ->. cbn [res_bind].
  destruct (Key_new_Ok a OK (E := unit) (expand_label a sec label context (output_len a))) as (k & -> & Hkey); [|by exists k].
  left. pose proof (length_expand_label sec label context (output_len a)). lia.
Qed.

Lemma extract_spec salt s ikm :
  key_for a salt s → fits (block_len a + length ikm) → ∃ k, Salt_extract s ikm = Ok k ∧ key_for a (hkdf_extract a salt ikm) k.
Proof.
  intros Hs Hf. unfold Salt_extract. destruct (sign_Ok a OK (E := unit) salt s ikm Hs Hf) as (t & -> & Ht). cbn [res_bind].
  rewrite (key_for_algorithm a _ _ Hs), Ht. apply (Key_new_Ok a OK). left. rewrite (length_hmac a OK).
  pose proof (ok_output_len a OK). lia.
Qed.

Lemma small_input n : n ≤ MAX_BLOCK_LEN → fits (block_len a + n).
Proof. intros. apply small_fits. pose proof (ok_block_len a OK). lia. Qed.

(** A key schedule at the stage of this secret. *)
Definition schedule_for (sec : list byte) (ks : KeySchedule) : Prop := key_for a sec (current ks) ∧ ks_algorithm ks = a.

Lemma KeySchedule_new_spec suite secret :
  ring_alg (hkdf_algorithm suite) = a → fits (block_len a + length secret) →
  ∃ ks, KeySchedule_new suite secret = Ok ks ∧ schedule_for (early_secret a secret) ks ∧ ks_suite ks = suite.
Proof.
  intros Ha Hf. unfold KeySchedule_new. rewrite Ha, zeroes_Ok. cbn [res_bind]. unfold Salt_new.
  destruct (Key_new_Ok a OK (E := unit) (replicate (output_len a) x00)) as (s & -> & Hs).
  { left. rewrite length_replicate. pose proof (ok_output_len a OK). lia. }
  cbn [res_bind]. destruct (extract_spec _ s secret Hs Hf) as (k & -> & Hk). cbn [res_bind].
  eexists. split; [done|]. by split_and!.
Qed.

Lemma new_with_empty_secret_spec suite :
  ring_alg (hkdf_algorithm suite) = a →
  ∃ ks, new_with_empty_secret suite = Ok ks ∧ schedule_for (early_secret a (replicate (output_len a) x00)) ks ∧ ks_suite ks = suite.
Proof.
  intros Ha. unfold new_with_empty_secret. rewrite Ha, zeroes_Ok. cbn [res_bind]. apply KeySchedule_new_spec; [done|].
  apply small_input. rewrite length_replicate. pose proof (ok_output_len a OK). unfold MAX_OUTPUT_LEN, MAX_BLOCK_LEN in *. lia.
Qed.

Lemma SecretKind_small kind : length (SecretKind_to_bytes kind) ≤ 20.
Proof. destruct kind; cbn; lia. Qed.

(** A hash, or nothing: the context of the derivations within the schedule. *)
Lemma kind_fits kind hs_hash : length hs_hash ≤ MAX_OUTPUT_LEN → label_fits (SecretKind_to_bytes kind) hs_hash.
Proof. intros H. apply label_small. pose proof (SecretKind_small kind). unfold MAX_OUTPUT_LEN in H. lia. Qed.

Lemma ks_derive_spec sec ks kind hs_hash :
  schedule_for sec ks → length hs_hash ≤ MAX_OUTPUT_LEN →
  ∃ k, ks_derive ks kind hs_hash = Ok k ∧ key_for a (derive_secret a sec (SecretKind_to_bytes kind) hs_hash) k.
Proof.
  intros [Hk Ha] Hh. unfold ks_derive. rewrite Ha. apply hkdf_expand_key_spec; [done|by apply kind_fits].
Qed.

Lemma derive_for_empty_hash_spec sec ks kind :
  schedule_for sec ks → ∃ k, derive_for_empty_hash ks kind = Ok k ∧ key_for a (derive_secret a sec (SecretKind_to_bytes kind) (hash a [])) k.
Proof.
  intros Hs. unfold derive_for_empty_hash. rewrite (proj2 Hs), (digest_spec a OK), decide_True by (unfold fits; cbn; lia).
  cbn [res_bind]. apply ks_derive_spec; [done|]. change (Digest_as_ref _) with (hash a []). rewrite (length_hash a OK).
  apply (ok_output_len a OK).
Qed.

Lemma input_secret_spec sec ks ikm :
  schedule_for sec ks → fits (block_len a + length ikm) →
  ∃ ks', input_secret ks ikm = Ok ks' ∧ schedule_for (next_stage a sec ikm) ks' ∧ ks_suite ks' = ks_suite ks.
Proof.
  intros Hs Hf. unfold input_secret. destruct (derive_for_empty_hash_spec sec ks DerivedSecret Hs) as (salt & -> & Hsalt).
  cbn [res_bind]. destruct (extract_spec _ salt ikm Hsalt Hf) as (k & -> & Hk). cbn [res_bind].
  eexists. split; [done|]. split; [|done]. split; [done|]. apply Hs.
Qed.

Lemma input_empty_spec sec ks :
  schedule_for sec ks →
  ∃ ks', input_empty ks = Ok ks' ∧ schedule_for (next_stage a sec (replicate (output_len a) x00)) ks' ∧ ks_suite ks' = ks_suite ks.
Proof.
  intros Hs. unfold input_empty. rewrite (proj2 Hs), zeroes_Ok. cbn [res_bind]. apply input_secret_spec; [done|].
  apply small_input. rewrite length_replicate. pose proof (ok_output_len a OK). unfold MAX_OUTPUT_LEN, MAX_BLOCK_LEN in *. lia.
Qed.

(** What is logged is the secret. *)
Lemma derive_logged_secret_spec kind label log_label (Hkind : SecretKind_to_bytes kind = label)
    (Hlog : SecretKind_log_label kind = Some log_label) sec ks hs_hash client_random l :
  schedule_for sec ks → length hs_hash ≤ MAX_OUTPUT_LEN →
  ∃ k, derive_logged_secret ks kind hs_hash client_random l =
      (Ok k, log_secret log_label client_random (derive_secret a sec label hs_hash) l) ∧
    key_for a (derive_secret a sec label hs_hash) k.
Proof.
  subst label. rename Hlog into El. intros Hs Hh. destruct (ks_derive_spec sec ks kind hs_hash Hs Hh) as (k & Ek & Hk). exists k. split; [|done].
  unfold derive_logged_secret, log_secret. rewrite El, st_bind_get. destruct (will_log l log_label) eqn:W.
  - destruct Hs as [Hc Ha]. rewrite Ha. pose proof (ok_output_len a OK) as Ho.
    destruct (expand_info (T := list byte) sec (current ks) (output_len a) (SecretKind_to_bytes kind) hs_hash Hc ltac:(lia))
      as (info & Hi & Hexp).
    rewrite (st_bind_ok _ _ _ tt (mkKeyLog (will_log l) (logged l ++ [(log_label, client_random, derive_secret a sec (SecretKind_to_bytes kind) hs_hash)]))).
    { unfold st_try. by rewrite Ek. }
    rewrite Hexp. unfold PayloadU8_from_okm. cbn [len_cached].
    rewrite (fill_unwrap_spec sec _ _ _ _ _ Hc) by (done || lia || by apply kind_fits). done.
  - cbn. unfold st_try. by rewrite Ek.
Qed.

Lemma sign_verify_data_spec ks base b hs_hash :
  ks_algorithm ks = a → key_for a base b → length hs_hash ≤ MAX_OUTPUT_LEN →
  ∃ t, sign_verify_data ks b hs_hash = Ok t ∧ Digest_as_ref t = finished_mac a base hs_hash.
Proof.
  intros Ha Hb Hh. unfold sign_verify_data. rewrite Ha.
  destruct (hkdf_expand_key_spec base b (ascii "finished") [] Hb) as (k & -> & Hk); [apply label_small; cbn; lia|].
  cbn [res_bind]. apply (sign_Ok a OK); [done|]. apply small_input. unfold MAX_OUTPUT_LEN, MAX_BLOCK_LEN in *. lia.
Qed.

Lemma derive_next_spec ks sec s :
  ks_algorithm ks = a → key_for a sec s → ∃ k, derive_next ks s = Ok k ∧ key_for a (next_secret a sec) k.
Proof. intros Ha Hs. unfold derive_next. rewrite Ha. apply hkdf_expand_key_spec; [done|apply label_small; cbn; lia]. Qed.

Lemma derive_ticket_psk_spec ks sec s nonce :
  ks_algorithm ks = a → key_for a sec s → label_fits (ascii "resumption") nonce →
  derive_ticket_psk ks s nonce = Ok (expand_label a sec (ascii "resumption") nonce (output_len a)).
Proof.
  intros Ha Hs Hf. unfold derive_ticket_psk. rewrite Ha. pose proof (ok_output_len a OK).
  destruct (expand_info (T := list byte) sec s (output_len a) (ascii "resumption") nonce Hs ltac:(lia)) as (info & Hi & ->).
  unfold PayloadU8_from_okm. cbn [len_cached]. by apply fill_unwrap_spec; [|lia| |].
Qed.

(** The exporter of RFC 8446 7.5. *)
Definition exported (sec label context : list byte) (len : nat) : list byte :=
  expand_label a (expand_label a sec label (hash a []) (output_len a)) (ascii "exporter") (hash a context) len.

Lemma ks_export_spec `{ForeignErrors} ks sec s out label context :
  ks_algorithm ks = a → key_for a sec s → label_fits label (replicate (output_len a) x00) → fits (length (default [] context)) →
  ks_export_keying_material ks s out label context =
  if decide (length out ≤ 255 * output_len a) then Ok (exported sec label (default [] context) (length out)) else Panic.
Proof.
  intros Ha Hs Hl Hc. pose proof (ok_output_len a OK) as Ho. unfold ks_export_keying_material. rewrite Ha.
  rewrite !(digest_spec a OK), decide_True by (unfold fits; cbn; lia). rewrite decide_True by done. cbn [res_bind].
  change (Digest_as_ref (mkDigest a (full_hash a []))) with (hash a []).
  change (Digest_as_ref (mkDigest a (full_hash a (default [] context)))) with (hash a (default [] context)).
  destruct (hkdf_expand_key_spec sec s label (hash a []) Hs) as (k & -> & Hk).
  { unfold label_fits in *. rewrite (length_hash a OK). by rewrite length_replicate in Hl. }
  cbn [res_bind]. destruct (decide (length out ≤ _)) as [Hlen|Hlen].
  - destruct (expand_info (T := list byte) _ k (length out) (ascii "exporter") (hash a (default [] context)) Hk Hlen) as (info & Hi & ->).
    assert (Hx : label_fits (ascii "exporter") (hash a (default [] context))).
    { apply label_small. rewrite (length_hash a OK). unfold MAX_OUTPUT_LEN in Ho. cbn. lia. }
    rewrite (Okm_fill_spec a OK _ k info out Hk) by (done || by eapply info_fits). unfold exported, expand_label at 1. cbn. by rewrite Hi.
  - unfold hkdf_expand_info, Prk_expand. rewrite (key_for_algorithm a _ _ Hk).
    destruct (Nat.ltb_spec (255 * output_len a) (length out)); [done|lia].
Qed.

End laws.

(** * The ciphers of a secret *)

Lemma length_expand_label_eq a sec label context len :
  AlgorithmOk a → length (expand_label a sec label context len) = len.
Proof.
  intros OK. pose proof (ok_output_len a OK). destruct (num_blocks_spec (output_len a) len) as [Hn _]; [lia|].
  unfold expand_label, hkdf_expand. rewrite length_take, (length_blocks _ (output_len a) 0); [lia|]. intros n. apply (length_hmac a OK).
Qed.

Section cipher_laws.
Context `{WebPki} `{ForeignErrors} `{AO : AeadOk} {KS : AeadKeys} {KO : AeadKeysOk KS} {KL : AeadKeyLens KS} (debug : bool).
Context (a : Algorithm) (OK : AlgorithmOk a) (aead : AeadAlgorithm).
#[local] Abbreviation method := (method CommonState).

(** The key and the IV of a traffic secret (RFC 8446 7.3). *)
Definition keyed (sec : list byte) (key : LessSafeKey) (iv : list byte) : Prop :=
  UnboundKey_new aead (expand_label a sec (ascii "key") [] (key_len aead)) = Some key ∧
  iv = expand_label a sec (ascii "iv") [] NONCE_LEN.

Lemma keyed_inj sec key iv key' iv' : keyed sec key iv → keyed sec key' iv' → key = key' ∧ iv = iv'.
Proof. intros [E1 ->] [E2 ->]. rewrite E1 in E2. by injection E2. Qed.

(** The record layer encrypts, or decrypts, with the cipher of a secret, and has
    used it [n] times. *)
Definition encrypts (sec : list byte) (n : Z) (rl : RecordLayer) : Prop :=
  ∃ key iv, keyed sec key iv ∧ message_encrypter rl = Tls13MessageEncrypter key iv ∧ write_seq rl = n ∧ encrypt_state rl = DS_Active.
Definition decrypts (sec : list byte) (n : Z) (rl : RecordLayer) : Prop :=
  ∃ key iv, keyed sec key iv ∧ message_decrypter rl = Tls13MessageDecrypter key iv ∧ read_seq rl = n ∧ decrypt_state rl = DS_Active.

(** Two record layers under the same secret are the ends of a cipher. *)
Lemma encrypts_decrypts sec n m rl1 rl2 :
  encrypts sec n rl1 → decrypts sec m rl2 → CipherPair (message_encrypter rl1) (message_decrypter rl2).
Proof.
  intros (k1 & i1 & K1 & -> & _) (k2 & i2 & K2 & -> & _). destruct (keyed_inj _ _ _ _ _ K1 K2) as [-> ->]. apply tls13_pair.
Qed.

(** The two directions of a record layer. *)
Definition enc_part (rl : RecordLayer) : MessageEncrypter * Z * DirectionState := (message_encrypter rl, write_seq rl, encrypt_state rl).
Definition dec_part (rl : RecordLayer) : MessageDecrypter * Z * DirectionState := (message_decrypter rl, read_seq rl, decrypt_state rl).

Lemma encrypts_part sec n rl1 rl2 : enc_part rl2 = enc_part rl1 → encrypts sec n rl1 → encrypts sec n rl2.
Proof. intros [= E1 E2 E3] (k & iv & HK & HH & Hn & Hs). exists k, iv. by rewrite E1, E2, E3. Qed.
Lemma decrypts_part sec n rl1 rl2 : dec_part rl2 = dec_part rl1 → decrypts sec n rl1 → decrypts sec n rl2.
Proof. intros [= E1 E2 E3] (k & iv & HK & HH & Hn & Hs). exists k, iv. by rewrite E1, E2, E3. Qed.

Lemma NONCE_small : NONCE_LEN ≤ 255 * output_len a ∧ key_len aead ≤ 255 * output_len a.
Proof. pose proof (ok_output_len a OK). pose proof (key_len_max aead). unfold NONCE_LEN, MAX_KEY_LEN in *. lia. Qed.

Lemma derive_traffic_spec sec s :
  key_for a sec s → ∃ key iv, derive_traffic_key s aead = Ok key ∧ derive_traffic_iv s = Ok iv ∧ keyed sec key iv.
Proof.
  intros Hs. destruct NONCE_small as [Hn Hkl]. pose proof (key_len_max aead) as Hmax.
  destruct (UnboundKey_new_len aead (expand_label a sec (ascii "key") [] (key_len aead))) as [key Hkey].
  { by apply length_expand_label_eq. }
  exists key, (expand_label a sec (ascii "iv") [] NONCE_LEN). split_and!; [| |by split].
  - unfold derive_traffic_key.
    destruct (expand_info (T := LessSafeKey) a sec s (key_len aead) (ascii "key") [] Hs Hkl) as (info & Hi & ->).
    unfold UnboundKey_from_okm. rewrite slice_Ok by (rewrite ?length_replicate; lia).
    rewrite drop_0, Nat.sub_0_r, take_replicate, Nat.min_l by lia. cbn [res_bind]. rewrite length_replicate.
    rewrite (fill_unwrap_spec a OK sec s _ (ascii "key") []); [|done|done|apply label_small; cbn; lia|done].
    cbn [res_bind]. by rewrite Hkey.
  - unfold derive_traffic_iv.
    destruct (expand_info (T := list byte) a sec s NONCE_LEN (ascii "iv") [] Hs Hn) as (info & Hi & ->).
    unfold Iv_from_okm. apply (fill_unwrap_spec a OK); [done|done|apply label_small; cbn; lia|done].
Qed.

Lemma ks_set_encrypter_spec ks sec s (c : CommonState) :
  key_for a sec s → aead_algorithm (tls13_common (ks_suite ks)) = aead →
  ∃ c', ks_set_encrypter debug ks s c = (Ok tt, c') ∧ encrypts sec 0 (record_layer c') ∧
    dec_part (record_layer c') = dec_part (record_layer c) ∧ side c' = side c.
Proof.
  intros Hs Ha. destruct (derive_traffic_spec sec s Hs) as (key & iv & E1 & E2 & HK). unfold ks_set_encrypter. rewrite Ha.
  rewrite (st_bind_try _ _ _ key), (st_bind_try _ _ _ iv) by done. unfold change_record_layer, set_message_encrypter, start_encrypting.
  unfold debug_assert. cbn [encrypt_state prepare_message_encrypter]. rewrite bool_decide_true, andb_false_r by done.
  eexists. split; [done|]. split; [|done]. by exists key, iv.
Qed.

Lemma derive_decrypter_spec ks sec s :
  key_for a sec s → aead_algorithm (tls13_common (ks_suite ks)) = aead →
  ∃ key iv, keyed sec key iv ∧ derive_decrypter ks s = Ok (Tls13MessageDecrypter key iv).
Proof.
  intros Hs Ha. destruct (derive_traffic_spec sec s Hs) as (key & iv & E1 & E2 & HK). exists key, iv. split; [done|].
  unfold derive_decrypter. rewrite Ha, E1. cbn [res_bind]. by rewrite E2.
Qed.

Lemma ks_set_decrypter_spec ks sec s (c : CommonState) :
  key_for a sec s → aead_algorithm (tls13_common (ks_suite ks)) = aead →
  ∃ c', ks_set_decrypter debug ks s c = (Ok tt, c') ∧ decrypts sec 0 (record_layer c') ∧
    enc_part (record_layer c') = enc_part (record_layer c) ∧ side c' = side c.
Proof.
  intros Hs Ha. destruct (derive_decrypter_spec ks sec s Hs Ha) as (key & iv & HK & E). unfold ks_set_decrypter.
  rewrite (st_bind_try _ _ _ (Tls13MessageDecrypter key iv)) by done. unfold change_record_layer, set_message_decrypter, start_decrypting.
  unfold debug_assert. cbn [decrypt_state prepare_message_decrypter]. rewrite bool_decide_true, andb_false_r by done.
  cbn [res_bind]. eexists. split; [done|]. split; [|done]. by exists key, iv.
Qed.

(** ** Traffic secrets *)

(** A traffic stage with these secrets. *)
Record traffic_with (sec : Side → list byte) (master exporter : list byte) (t : KeyScheduleTraffic) : Prop := {
  tw_ks : schedule_for a master (tr_ks t);
  tw_aead : aead_algorithm (tls13_common (ks_suite (tr_ks t))) = aead;
  tw_client : key_for a (sec Client) (current_client_traffic_secret t);
  tw_server : key_for a (sec Server) (current_server_traffic_secret t);
  tw_exporter : key_for a exporter (current_exporter_secret t)
}.

(** The secrets after an update of one side. *)
Definition updated (s : Side) (sec : Side → list byte) : Side → list byte :=
  λ x, if decide (x = s) then next_secret a (sec x) else sec x.

Lemma next_application_spec sec master exporter t s :
  traffic_with sec master exporter t →
  ∃ k t', next_application_traffic_secret t s = Ok (k, t') ∧ key_for a (updated s sec s) k ∧
    traffic_with (updated s sec) master exporter t' ∧ tr_ks t' = tr_ks t.
Proof.
  intros [Hks Ha Hc Hs He]. unfold next_application_traffic_secret. destruct s.
  - destruct (derive_next_spec a OK (tr_ks t) _ _ (proj2 Hks) Hc) as (k & -> & Hk). cbn [res_bind].
    eexists _, _. split; [done|]. split; [done|]. by split.
  - destruct (derive_next_spec a OK (tr_ks t) _ _ (proj2 Hks) Hs) as (k & -> & Hk). cbn [res_bind].
    eexists _, _. split; [done|]. split; [done|]. by split.
Qed.

Lemma enqueue_key_update_spec {E} sec n (c : CommonState) :
  encrypts sec n (record_layer c) → (0 ≤ n < SEQ_HARD_LIMIT)%Z →
  ∃ c', enqueue_key_update_notification (E := E) debug c = (Ok tt, c') ∧ is_Some (queued_key_update_message c') ∧
    dec_part (record_layer c') = dec_part (record_layer c) ∧ side c' = side c.
Proof.
  intros (key & iv & _ & He & Hn & Ha) Hlt. unfold SEQ_HARD_LIMIT in Hlt.
  pose proof (tls13_pair key iv) as Hpair. rewrite <- He in Hpair.
  destruct (pair_decrypts (CipherPair := Hpair) (pm_typ (PlainMessage_from Message_build_key_update_notify))
    (pm_version (PlainMessage_from Message_build_key_update_notify))
    (Payload_0 (pm_payload (PlainMessage_from Message_build_key_update_notify))) (write_seq (record_layer c)))
    as (om & v & Eenc & _); [by vm_compute..| |lia|]. { vm_compute. lia. }
  unfold enqueue_key_update_notification, st_bind, rl_encrypt_outgoing, encrypt_outgoing, debug_assert.
  rewrite Ha, bool_decide_true, andb_false_r by done. unfold encrypt_exhausted, SEQ_HARD_LIMIT. rewrite bool_decide_false by lia.
  cbv zeta. cbn [message_encrypter with_write_seq]. unfold borrow. rewrite Eenc. eexists. split; [done|]. by split; [eexists|].
Qed.

(** One update, of the side that sends and of the side that receives. *)
Lemma update_encrypter_spec sec master exporter t n (c : CommonState) :
  traffic_with sec master exporter t → encrypts (sec (side c)) n (record_layer c) → (0 ≤ n < SEQ_HARD_LIMIT)%Z →
  ∃ t' c', update_encrypter_and_notify debug t c = (Ok t', c') ∧ traffic_with (updated (side c) sec) master exporter t' ∧
    encrypts (updated (side c) sec (side c)) 0 (record_layer c') ∧ dec_part (record_layer c') = dec_part (record_layer c) ∧
    side c' = side c ∧ tr_ks t' = tr_ks t.
Proof.
  intros Ht He Hn. unfold update_encrypter_and_notify. rewrite st_bind_get.
  destruct (next_application_spec _ _ _ t (side c) Ht) as (k & t' & Et & Hk & Ht' & Hks). rewrite (st_bind_try _ _ _ (k, t')) by done.
  destruct (enqueue_key_update_spec (E := unit) _ n c He Hn) as (c1 & E1 & _ & Hd1 & Hs1). rewrite (st_bind_ok _ _ _ _ _ E1).
  destruct (ks_set_encrypter_spec (tr_ks t') _ k c1 Hk (tw_aead _ _ _ _ Ht')) as (c2 & E2 & He2 & Hd2 & Hs2).
  rewrite (st_bind_ok _ _ _ _ _ E2). exists t', c2. split_and!; try done; congruence.
Qed.

Lemma update_decrypter_spec sec master exporter t (c : CommonState) :
  traffic_with sec master exporter t →
  ∃ t' c', update_decrypter debug t c = (Ok t', c') ∧ traffic_with (updated (Side_peer (side c)) sec) master exporter t' ∧
    decrypts (updated (Side_peer (side c)) sec (Side_peer (side c))) 0 (record_layer c') ∧
    enc_part (record_layer c') = enc_part (record_layer c) ∧ side c' = side c ∧ tr_ks t' = tr_ks t.
Proof.
  intros Ht. unfold update_decrypter. rewrite st_bind_get.
  destruct (next_application_spec _ _ _ t (Side_peer (side c)) Ht) as (k & t' & Et & Hk & Ht' & Hks).
  rewrite (st_bind_try _ _ _ (k, t')) by done.
  destruct (ks_set_decrypter_spec (tr_ks t') _ k c Hk (tw_aead _ _ _ _ Ht')) as (c2 & E2 & He2 & Hd2 & Hs2).
  rewrite (st_bind_ok _ _ _ _ _ E2). by exists t', c2.
Qed.

End cipher_laws.
