(* ===== verification/TlsKeyAgreement.v ===== *)
(** The two ends of a TLS 1.3 handshake under the key schedule: what the client calls
    (rustls-0.21.2/rustls/src/client/tls13.rs) and what the server calls
    (rustls-0.21.2/rustls/src/server/tls13.rs) gives both the secrets of RFC 8446, and
    record layers that are the ends of the same ciphers. *)
From Stdlib Require Import ZArith Lia Strings.Byte String.
From stdpp Require Import base list numbers option strings.
From S2P Require Import Prelude.
From S2P Require Import RingSha.
From S2P Require Import RingDigest.
From S2P Require Import RingHmac.
From S2P Require Import RingKdf.
From S2P Require Import Codec.
From S2P Require Import TlsEnums.
From S2P Require Import TlsBase.
From S2P Require Import TlsExtensions.
From S2P Require Import TlsHandshake.
From S2P Require Import TlsError.
From S2P Require Import TlsMessage.
From S2P Require Import Fragmenter.
From S2P Require Import VecBuf.
From S2P Require Import RecordLayer.
From S2P Require Import TlsCiphers.
From S2P Require Import TlsSuites.
From S2P Require Import TlsSecrets.
From S2P Require Import StateMonad.
From S2P Require Import TlsCommon.
From S2P Require Import TlsKeySchedule.
From S2P Require Import TlsProperties.
From S2P Require Import TlsSession.
Open Scope rust_scope.


Section agreement.
Context `{WebPki} `{ForeignErrors} `{AO : AeadOk} {KS : AeadKeys} {KO : AeadKeysOk KS} {KL : AeadKeyLens KS} (debug : bool).
#[local] Abbreviation cx := (CommonState * KeyLog)%type.

(** * The calls of the two sides *)

(** [start_handshake_traffic]'s key schedule: resumption starts from a PSK. *)
Definition pre_handshake (suite : Tls13CipherSuite) (psk : option (list byte)) : res unit KeySchedule :=
  match psk with
  | Some secret => KeyScheduleEarly_new suite secret
  | None => KeySchedulePreHandshake_new suite
  end.

(** The client up to its handshake keys; [early_suite] is the suite of the PSK. *)
Definition client_handshake (early_suite suite : Tls13CipherSuite) (psk : option (list byte))
    (dhe hs_hash client_random : list byte) : method cx unit KeyScheduleHandshake :=
  let! ks := st_try (λ _, pre_handshake early_suite psk) in
  let! ks := st_try (λ _, into_handshake ks dhe) in
  derive_client_handshake_secrets debug ks false hs_hash suite client_random.

(** A server that resumes derives the keys of early data on the way; [skip] is how
    much of rejected early data it passes over. *)
Definition server_handshake (suite : Tls13CipherSuite) (psk : option (list byte)) (skip : option nat)
    (dhe ch_hash hs_hash client_random : list byte) : method cx unit KeyScheduleHandshake :=
  let! ks := st_try (λ _, pre_handshake suite psk) in
  let! _ :=
    match psk with
    | Some _ => client_early_traffic_secret debug ks ch_hash client_random
    | None => st_ret tt
    end in
  let! ks := st_try (λ _, into_handshake ks dhe) in
  let! h := derive_server_handshake_secrets debug ks hs_hash client_random in
  let! _ := on_common (set_handshake_decrypter debug h skip) in
  st_ret h.

(** From the Finished of the server on: the traffic stage, the Finished of the server
    as this side computes it, and that of the client. *)
Definition client_finish (h : KeyScheduleHandshake) (sf_hash fin_hash cf_hash client_random : list byte)
    : method cx unit (KeyScheduleTraffic * Digest * Digest) :=
  let! server_finished := st_try (λ _, sign_server_finish h sf_hash) in
  let! x := logging (into_pre_finished_client_traffic h fin_hash cf_hash client_random) in
  let '(traffic, client_finished) := x in
  let! traffic := on_common (into_traffic debug traffic) in
  st_ret (traffic, server_finished, client_finished).

Definition server_finish (h : KeyScheduleHandshake) (sf_hash fin_hash cf_hash client_random : list byte)
    : method cx unit (KeyScheduleTraffic * Digest * Digest) :=
  let! server_finished := st_try (λ _, sign_server_finish h sf_hash) in
  let! p := into_traffic_with_client_finished_pending debug h fin_hash client_random in
  let! x := on_common (sign_client_finish debug p cf_hash) in
  let '(traffic, client_finished) := x in
  st_ret (traffic, server_finished, client_finished).

(** * The secrets *)

Section secrets.
Context (suite : Tls13CipherSuite).
#[local] Abbreviation a := (ring_alg (hkdf_algorithm suite)).
#[local] Abbreviation aead := (aead_algorithm (tls13_common suite)).

Definition psk_bytes (psk : option (list byte)) : list byte := default (replicate (output_len a) x00) psk.

Definition handshake_traffic (psk : option (list byte)) (dhe hs_hash : list byte) (s : Side) : list byte :=
  derive_secret a (handshake_secret a (psk_bytes psk) dhe)
    (ascii match s with Client => "c hs traffic" | Server => "s hs traffic" end) hs_hash.
Definition application_traffic (psk : option (list byte)) (dhe fin_hash : list byte) (s : Side) : list byte :=
  derive_secret a (master_secret a (psk_bytes psk) dhe)
    (ascii match s with Client => "c ap traffic" | Server => "s ap traffic" end) fin_hash.
Definition exporter_secret (psk : option (list byte)) (dhe fin_hash : list byte) : list byte :=
  derive_secret a (master_secret a (psk_bytes psk) dhe) (ascii "exp master") fin_hash.


(** The PSK of a ticket, and the binder of a PSK over a truncated ClientHello. *)
Definition ticket_psk (psk : option (list byte)) (dhe cf_hash nonce : list byte) : list byte :=
  expand_label a (derive_secret a (master_secret a (psk_bytes psk) dhe) (ascii "res master") cf_hash)
    (ascii "resumption") nonce (output_len a).
Definition psk_binder (psk : option (list byte)) (ch_hash : list byte) : list byte :=
  finished_mac a (derive_secret a (early_secret a (psk_bytes psk)) (ascii "res binder") (hash a [])) ch_hash.

(** What is logged, the handshake secrets first. *)
Definition handshake_log (psk : option (list byte)) (dhe hs_hash client_random : list byte) (l : KeyLog) : KeyLog :=
  log_secret "SERVER_HANDSHAKE_TRAFFIC_SECRET" client_random (handshake_traffic psk dhe hs_hash Server)
    (log_secret "CLIENT_HANDSHAKE_TRAFFIC_SECRET" client_random (handshake_traffic psk dhe hs_hash Client) l).
Definition application_log (psk : option (list byte)) (dhe fin_hash client_random : list byte) (l : KeyLog) : KeyLog :=
  log_secret "EXPORTER_SECRET" client_random (exporter_secret psk dhe fin_hash)
    (log_secret "SERVER_TRAFFIC_SECRET_0" client_random (application_traffic psk dhe fin_hash Server)
      (log_secret "CLIENT_TRAFFIC_SECRET_0" client_random (application_traffic psk dhe fin_hash Client) l)).

(** A server that resumes logs the secret of early data first. *)
Definition early_log (psk : option (list byte)) (ch_hash client_random : list byte) (l : KeyLog) : KeyLog :=
  match psk with
  | Some _ => log_secret "CLIENT_EARLY_TRAFFIC_SECRET" client_random
      (derive_secret a (early_secret a (psk_bytes psk)) (ascii "c e traffic") ch_hash) l
  | None => l
  end.

(** The inputs: a hash, a PSK, a shared secret. *)
Definition hash_ok (h : list byte) : Prop := length h ≤ MAX_OUTPUT_LEN.
Definition secret_ok (s : list byte) : Prop := fits (block_len a + length s).

Record handshake_with (sec : list byte) (hs_hash : list byte) (h : KeyScheduleHandshake) : Prop := {
  hw_ks : schedule_for a sec (hs_ks h);
  hw_suite : ks_suite (hs_ks h) = suite;
  hw_client : key_for a (derive_secret a sec (ascii "c hs traffic") hs_hash) (client_handshake_traffic_secret h);
  hw_server : key_for a (derive_secret a sec (ascii "s hs traffic") hs_hash) (server_handshake_traffic_secret h)
}.

Lemma pre_handshake_spec s psk :
  ring_alg (hkdf_algorithm s) = a → secret_ok (psk_bytes psk) →
  ∃ ks, pre_handshake s psk = Ok ks ∧ schedule_for a (early_secret a (psk_bytes psk)) ks ∧ ks_suite ks = s.
Proof.
  intros Hs Hf. destruct psk as [secret|]; cbn [pre_handshake psk_bytes default] in *.
  - by apply (KeySchedule_new_spec a (ring_alg_ok _)).
  - by apply (new_with_empty_secret_spec a (ring_alg_ok _)).
Qed.

Lemma start_into_handshake_spec sec ks hs_hash client_random l :
  schedule_for a sec ks → ks_suite ks = suite → hash_ok hs_hash →
  ∃ h, start_into_handshake ks hs_hash client_random l =
      (Ok h, log_secret "SERVER_HANDSHAKE_TRAFFIC_SECRET" client_random (derive_secret a sec (ascii "s hs traffic") hs_hash)
        (log_secret "CLIENT_HANDSHAKE_TRAFFIC_SECRET" client_random (derive_secret a sec (ascii "c hs traffic") hs_hash) l)) ∧
    handshake_with sec hs_hash h.
Proof.
  intros Hs Hsu Hh. unfold start_into_handshake.
  destruct (derive_logged_secret_spec a (ring_alg_ok _) ClientHandshakeTrafficSecret _ _ eq_refl eq_refl sec ks hs_hash client_random l Hs Hh)
    as (kc & Ec & Hc). rewrite (st_bind_ok _ _ _ _ _ Ec).
  edestruct (derive_logged_secret_spec a (ring_alg_ok _) ServerHandshakeTrafficSecret _ _ eq_refl eq_refl sec ks hs_hash client_random)
    as (kv & Ev & Hv); [done..|]. rewrite (st_bind_ok _ _ _ _ _ Ev).
  eexists. split; [done|]. by split.
Qed.

Lemma KeyScheduleTraffic_new_spec sec ks fin_hash client_random l :
  schedule_for a sec ks → ks_suite ks = suite → hash_ok fin_hash →
  let master := next_stage a sec (replicate (output_len a) x00) in
  let secrets := λ s, derive_secret a master
    (ascii match s with Client => "c ap traffic" | Server => "s ap traffic" end) fin_hash in
  let exporter := derive_secret a master (ascii "exp master") fin_hash in
  ∃ t, KeyScheduleTraffic_new ks fin_hash client_random l =
      (Ok t, log_secret "EXPORTER_SECRET" client_random exporter
        (log_secret "SERVER_TRAFFIC_SECRET_0" client_random (secrets Server)
          (log_secret "CLIENT_TRAFFIC_SECRET_0" client_random (secrets Client) l))) ∧
    traffic_with a aead secrets master exporter t ∧ ks_suite (tr_ks t) = suite.
Proof.
  intros Hs Hsu Hh master secrets exporter. unfold KeyScheduleTraffic_new.
  destruct (input_empty_spec a (ring_alg_ok _) sec ks Hs) as (ks' & Ei & Hks' & Hsu'). fold master in Hks'.
  rewrite (st_bind_try _ _ _ ks') by done.
  edestruct (derive_logged_secret_spec a (ring_alg_ok _) ClientApplicationTrafficSecret _ _ eq_refl eq_refl master ks' fin_hash client_random)
    as (kc & Ec & Hc); [done..|]. rewrite (st_bind_ok _ _ _ _ _ Ec).
  edestruct (derive_logged_secret_spec a (ring_alg_ok _) ServerApplicationTrafficSecret _ _ eq_refl eq_refl master ks' fin_hash client_random)
    as (kv & Ev & Hv); [done..|]. rewrite (st_bind_ok _ _ _ _ _ Ev).
  edestruct (derive_logged_secret_spec a (ring_alg_ok _) ExporterMasterSecret _ _ eq_refl eq_refl master ks' fin_hash client_random)
    as (ke & Ee & He); [done..|]. rewrite (st_bind_ok _ _ _ _ _ Ee).
  eexists. split; [done|]. split; [|by rewrite <- Hsu]. split; try done. cbn. by rewrite Hsu', Hsu.
Qed.

(** ** Lifted methods *)

Lemma on_common_ok {E B} (m : method CommonState E B) c (l : KeyLog) x c' :
  m c = (Ok x, c') → on_common m (c, l) = (Ok x, (c', l)).
Proof. intros Hm. unfold on_common. cbn. by rewrite Hm. Qed.

Lemma logging_ok {E B} (m : method KeyLog E B) (c : CommonState) l x l' :
  m l = (Ok x, l') → logging m (c, l) = (Ok x, (c, l')).
Proof. intros Hm. unfold logging. cbn. by rewrite Hm. Qed.

Lemma assert_side_ok {E} s (c : CommonState) : side c = s → assert_side (E := E) debug s c = (Ok tt, c).
Proof. intros Hs. unfold assert_side, st_debug_assert, st_try, debug_assert. by rewrite bool_decide_true, andb_false_r. Qed.

Lemma sign_finish_spec ks base b h :
  ks_suite ks = suite → key_for a base b → hash_ok h → ∃ t, sign_finish ks b h = Ok t ∧ Digest_as_ref t = finished_mac a base h.
Proof. intros <- Hb Hh. apply (sign_verify_data_spec _ (ring_alg_ok _)); done. Qed.

(** ** The runs *)

Section runs.
Context (psk : option (list byte)) (dhe ch_hash hs_hash sf_hash fin_hash cf_hash client_random : list byte).
Context (Hpsk : secret_ok (psk_bytes psk)) (Hdhe : secret_ok dhe).
Context (Hch : hash_ok ch_hash) (Hhs : hash_ok hs_hash) (Hsf : hash_ok sf_hash) (Hfin : hash_ok fin_hash) (Hcf : hash_ok cf_hash).
#[local] Abbreviation sec := (handshake_secret a (psk_bytes psk) dhe).
#[local] Abbreviation hs_traffic := (handshake_traffic psk dhe hs_hash).
#[local] Abbreviation ap_traffic := (application_traffic psk dhe fin_hash).

(** A side that encrypts with its own secret and decrypts with its peer's. *)
Definition keys_set (secrets : Side → list byte) (c : CommonState) : Prop :=
  encrypts a aead (secrets (side c)) 0 (record_layer c) ∧ decrypts a aead (secrets (Side_peer (side c))) 0 (record_layer c).

Lemma stage_spec s :
  ring_alg (hkdf_algorithm s) = a →
  ∃ ks ks', pre_handshake s psk = Ok ks ∧ schedule_for a (early_secret a (psk_bytes psk)) ks ∧ ks_suite ks = s ∧
    into_handshake ks dhe = Ok ks' ∧ schedule_for a sec ks' ∧ ks_suite ks' = s.
Proof.
  intros Hs. destruct (pre_handshake_spec s psk Hs Hpsk) as (ks & E1 & Hks & <-).
  destruct (input_secret_spec a (ring_alg_ok _) _ ks dhe Hks Hdhe) as (ks' & E2 & Hks' & Hsu). by exists ks, ks'.
Qed.

(** The keys of early data, on the side that reads it. *)
Lemma server_early_spec ks (c : CommonState) l :
  schedule_for a (early_secret a (psk_bytes psk)) ks → ks_suite ks = suite → side c = Server →
  ∃ c', match psk with
    | Some _ => client_early_traffic_secret debug ks ch_hash client_random
    | None => st_ret tt
    end (c, l) = (Ok tt, (c', early_log psk ch_hash client_random l)) ∧ side c' = Server.
Proof.
  intros Hks Hsu Hside. destruct psk as [secret|] eqn:Ep; [|by exists c]. rewrite <- Ep in *. unfold client_early_traffic_secret.
  destruct (derive_logged_secret_spec a (ring_alg_ok _) ClientEarlyTrafficSecret _ _ eq_refl eq_refl _ ks ch_hash client_random l Hks Hch)
    as (k & Ek & Hk). erewrite st_bind_ok by (by apply logging_ok). rewrite st_bind_get. cbn [fst]. rewrite Hside.
  destruct (ks_set_decrypter_spec debug a (ring_alg_ok _) aead ks _ _ c Hk) as (c' & Ed & _ & _ & Hs'); [by rewrite Hsu|].
  exists c'. split; [|congruence]. rewrite (on_common_ok _ _ _ _ _ Ed). unfold early_log. by rewrite Ep.
Qed.

Lemma client_handshake_spec early_suite (c : CommonState) l :
  ring_alg (hkdf_algorithm early_suite) = a → side c = Client →
  ∃ h c', client_handshake early_suite suite psk dhe hs_hash client_random (c, l) =
      (Ok h, (c', handshake_log psk dhe hs_hash client_random l)) ∧
    handshake_with sec hs_hash h ∧ keys_set hs_traffic c' ∧ side c' = Client.
Proof.
  intros Hearly Hside. destruct (stage_spec early_suite Hearly) as (ks & ks' & E1 & _ & _ & E2 & Hks & _). unfold client_handshake.
  rewrite (st_bind_try _ _ _ ks) by done. rewrite (st_bind_try _ _ _ ks') by done. unfold derive_client_handshake_secrets.
  erewrite st_bind_ok by (by apply on_common_ok, assert_side_ok). cbv zeta.
  destruct (start_into_handshake_spec sec (mkKeySchedule (current ks') suite) hs_hash client_random l) as (h & Eh & Hh);
    [split; [apply Hks|done]|done|done|].
  erewrite st_bind_ok by (by apply logging_ok). pose proof Hh as [_ Hsu Hc Hv].
  destruct (ks_set_decrypter_spec debug a (ring_alg_ok _) aead (hs_ks h) _ _ c Hv) as (c1 & Ed & Hd & Hp1 & Hs1); [by rewrite Hsu|].
  erewrite st_bind_ok by (by apply on_common_ok).
  destruct (ks_set_encrypter_spec debug a (ring_alg_ok _) aead (hs_ks h) _ _ c1 Hc) as (c2 & Ee & He & Hp2 & Hs2); [by rewrite Hsu|].
  erewrite st_bind_ok by (by apply on_common_ok). exists h, c2. split; [done|]. split; [done|].
  assert (Hs : side c2 = Client) by congruence. split; [|done]. unfold keys_set. rewrite Hs. split; [done|].
  by eapply decrypts_part.
Qed.

Lemma server_handshake_spec skip (c : CommonState) l :
  side c = Server →
  ∃ h c', server_handshake suite psk skip dhe ch_hash hs_hash client_random (c, l) =
      (Ok h, (c', handshake_log psk dhe hs_hash client_random (early_log psk ch_hash client_random l))) ∧
    handshake_with sec hs_hash h ∧ keys_set hs_traffic c' ∧ side c' = Server.
Proof.
  intros Hside. destruct (stage_spec suite eq_refl) as (ks & ks' & E1 & Hks0 & Hsu0 & E2 & Hks & Hsu'). unfold server_handshake.
  rewrite (st_bind_try _ _ _ ks) by done.
  destruct (server_early_spec ks c l Hks0 Hsu0 Hside) as (c0 & E0 & Hs0). rewrite (st_bind_ok _ _ _ _ _ E0).
  set (l0 := early_log psk ch_hash client_random l). rewrite (st_bind_try _ _ _ ks') by done.
  destruct (start_into_handshake_spec sec ks' hs_hash client_random l0) as (h & Eh & Hh); [done|done|done|].
  pose proof Hh as [_ Hsu Hc Hv].
  destruct (ks_set_encrypter_spec debug a (ring_alg_ok _) aead (hs_ks h) _ _ c0 Hv) as (c1 & Ee & He & Hp1 & Hs1); [by rewrite Hsu|].
  assert (Ed : derive_server_handshake_secrets debug ks' hs_hash client_random (c0, l0) =
    (Ok h, (c1, handshake_log psk dhe hs_hash client_random l0))).
  { unfold derive_server_handshake_secrets. erewrite st_bind_ok by (by apply on_common_ok, assert_side_ok).
    erewrite st_bind_ok by (by apply logging_ok). erewrite st_bind_ok by (by apply on_common_ok). done. }
  rewrite (st_bind_ok _ _ _ _ _ Ed).
  assert (Hset : ∃ c2, set_handshake_decrypter debug h skip c1 = (Ok tt, c2) ∧ decrypts a aead (hs_traffic Client) 0 (record_layer c2) ∧
    enc_part (record_layer c2) = enc_part (record_layer c1) ∧ side c2 = side c1).
  { unfold set_handshake_decrypter. rewrite (st_bind_ok _ _ _ _ _ (assert_side_ok Server c1 ltac:(congruence))). destruct skip as [n|].
    - destruct (derive_decrypter_spec a (ring_alg_ok _) aead (hs_ks h) _ _ Hc) as (key & iv & HK & Edec); [by rewrite Hsu|].
      rewrite (st_bind_try _ _ _ (Tls13MessageDecrypter key iv)) by done.
      unfold change_record_layer, set_message_decrypter_with_trial_decryption, start_decrypting, debug_assert.
      cbn [decrypt_state prepare_message_decrypter]. rewrite bool_decide_true, andb_false_r by done.
      cbn [res_bind]. eexists. split; [done|]. split; [|done]. by exists key, iv.
    - by apply (ks_set_decrypter_spec debug a (ring_alg_ok _) aead); [|rewrite Hsu]. }
  destruct Hset as (c2 & Eset & Hd & Hp2 & Hs2).
  erewrite st_bind_ok by (by apply on_common_ok). exists h, c2. split; [done|]. split; [done|].
  assert (Hs : side c2 = Server) by congruence. split; [|done]. unfold keys_set. rewrite Hs. split; [|done].
  by eapply encrypts_part.
Qed.

(** The outcome of either side. *)
Definition finished_with (t : KeyScheduleTraffic) (sf cf : Digest) (c : CommonState) : Prop :=
  traffic_with a aead ap_traffic (master_secret a (psk_bytes psk) dhe) (exporter_secret psk dhe fin_hash) t ∧
  Digest_as_ref sf = finished_mac a (hs_traffic Server) sf_hash ∧ Digest_as_ref cf = finished_mac a (hs_traffic Client) cf_hash ∧
  keys_set ap_traffic c.

(** What the outcome gives the resumptions. *)
Lemma ticket_psk_spec t sf cf c hash nonce :
  finished_with t sf cf c → hash_ok hash → label_fits (ascii "resumption") nonce →
  resumption_master_secret_and_derive_ticket_psk t hash nonce = Ok (ticket_psk psk dhe hash nonce).
Proof.
  intros ([Hm _ _ _ _] & _) Hh Hn. unfold resumption_master_secret_and_derive_ticket_psk.
  destruct (ks_derive_spec a (ring_alg_ok _) _ (tr_ks t) ResumptionMasterSecret hash Hm Hh) as (r & -> & Hr).
  cbn [res_bind]. by rewrite (derive_ticket_psk_spec a (ring_alg_ok _) _ _ _ nonce (proj2 Hm) Hr Hn).
Qed.

Lemma psk_binder_spec s ks h :
  ring_alg (hkdf_algorithm s) = a → pre_handshake s psk = Ok ks → hash_ok h →
  ∃ d, resumption_psk_binder_key_and_sign_verify_data ks h = Ok d ∧ Digest_as_ref d = psk_binder psk h.
Proof.
  intros Hs Eks Hh. destruct (stage_spec s Hs) as (ks1 & _ & E1 & Hks & _). rewrite Eks in E1. injection E1 as <-.
  unfold resumption_psk_binder_key_and_sign_verify_data.
  destruct (derive_for_empty_hash_spec a (ring_alg_ok _) _ ks ResumptionPskBinderKey Hks) as (k & -> & Hk). cbn [res_bind].
  apply (sign_verify_data_spec a (ring_alg_ok _)); [apply Hks|done|done].
Qed.

Lemma client_finish_spec h (c : CommonState) l :
  handshake_with sec hs_hash h → side c = Client →
  ∃ t sf cf c', client_finish h sf_hash fin_hash cf_hash client_random (c, l) =
      (Ok (t, sf, cf), (c', application_log psk dhe fin_hash client_random l)) ∧
    finished_with t sf cf c' ∧ side c' = Client.
Proof.
  intros [Hks Hsu Hc Hv] Hside. unfold client_finish.
  destruct (sign_finish_spec (hs_ks h) _ _ sf_hash Hsu Hv Hsf) as (sf & Esf & Hsfv). rewrite (st_bind_try _ _ _ sf) by done.
  destruct (KeyScheduleTraffic_new_spec sec (hs_ks h) fin_hash client_random l Hks Hsu Hfin) as (t & Et & Ht & Htsu).
  destruct (sign_finish_spec (tr_ks t) _ _ cf_hash Htsu Hc Hcf) as (cf & Ecf & Hcfv).
  assert (Ep : into_pre_finished_client_traffic h fin_hash cf_hash client_random l =
    (Ok (t, cf), application_log psk dhe fin_hash client_random l)).
  { unfold into_pre_finished_client_traffic. rewrite (st_bind_ok _ _ _ _ _ Et). by rewrite (st_bind_try _ _ _ cf). }
  erewrite st_bind_ok by (by apply logging_ok).
  destruct (ks_set_decrypter_spec debug a (ring_alg_ok _) aead (tr_ks t) _ _ c (tw_server _ _ _ _ _ _ Ht) (tw_aead _ _ _ _ _ _ Ht))
    as (c1 & Ed & Hd & Hp1 & Hs1).
  destruct (ks_set_encrypter_spec debug a (ring_alg_ok _) aead (tr_ks t) _ _ c1 (tw_client _ _ _ _ _ _ Ht) (tw_aead _ _ _ _ _ _ Ht))
    as (c2 & Ee & He & Hp2 & Hs2).
  assert (Ei : into_traffic debug t c = (Ok t, c2)).
  { unfold into_traffic. rewrite (st_bind_ok _ _ _ _ _ (assert_side_ok Client c Hside)).
    rewrite (st_bind_ok _ _ _ _ _ Ed), (st_bind_ok _ _ _ _ _ Ee). done. }
  erewrite st_bind_ok by (by apply on_common_ok). exists t, sf, cf, c2. split; [done|].
  assert (Hs : side c2 = Client) by congruence. split; [|done]. split_and!; [done|done|done|].
  unfold keys_set. rewrite Hs. split; [done|by eapply decrypts_part].
Qed.

Lemma server_finish_spec h (c : CommonState) l :
  handshake_with sec hs_hash h → side c = Server →
  ∃ t sf cf c', server_finish h sf_hash fin_hash cf_hash client_random (c, l) =
      (Ok (t, sf, cf), (c', application_log psk dhe fin_hash client_random l)) ∧
    finished_with t sf cf c' ∧ side c' = Server.
Proof.
  intros [Hks Hsu Hc Hv] Hside. unfold server_finish.
  destruct (sign_finish_spec (hs_ks h) _ _ sf_hash Hsu Hv Hsf) as (sf & Esf & Hsfv). rewrite (st_bind_try _ _ _ sf) by done.
  destruct (KeyScheduleTraffic_new_spec sec (hs_ks h) fin_hash client_random l Hks Hsu Hfin) as (t & Et & Ht & Htsu).
  destruct (sign_finish_spec (tr_ks t) _ _ cf_hash Htsu Hc Hcf) as (cf & Ecf & Hcfv).
  destruct (ks_set_encrypter_spec debug a (ring_alg_ok _) aead (tr_ks t) _ _ c (tw_server _ _ _ _ _ _ Ht) (tw_aead _ _ _ _ _ _ Ht))
    as (c1 & Ee & He & Hp1 & Hs1).
  set (p := mkKeyScheduleTrafficPending (client_handshake_traffic_secret h) t).
  assert (Ep : into_traffic_with_client_finished_pending debug h fin_hash client_random (c, l) =
    (Ok p, (c1, application_log psk dhe fin_hash client_random l))).
  { unfold into_traffic_with_client_finished_pending. erewrite st_bind_ok by (by apply on_common_ok, assert_side_ok).
    erewrite st_bind_ok by (by apply logging_ok). erewrite st_bind_ok by (by apply on_common_ok). done. }
  rewrite (st_bind_ok _ _ _ _ _ Ep).
  destruct (ks_set_decrypter_spec debug a (ring_alg_ok _) aead (tr_ks t) _ _ c1 (tw_client _ _ _ _ _ _ Ht) (tw_aead _ _ _ _ _ _ Ht))
    as (c2 & Ed & Hd & Hp2 & Hs2).
  assert (Es : sign_client_finish debug p cf_hash c1 = (Ok (t, cf), c2)).
  { unfold sign_client_finish. rewrite (st_bind_ok _ _ _ _ _ (assert_side_ok Server c1 ltac:(congruence))).
    cbv zeta. cbn [pending_traffic handshake_client_traffic_secret p]. rewrite (st_bind_try _ _ _ cf) by done.
    rewrite (st_bind_ok _ _ _ _ _ Ed). done. }
  erewrite st_bind_ok by (by apply on_common_ok). exists t, sf, cf, c2. split; [done|].
  assert (Hs : side c2 = Server) by congruence. split; [|done]. split_and!; [done|done|done|].
  unfold keys_set. rewrite Hs. split; [by eapply encrypts_part|done].
Qed.

End runs.
End secrets.

(** * The properties *)

(** What a handshake is run with: secrets that a digest can take, hashes of the
    transcript, and a PSK of a suite with the same hash. *)
Record handshake_inputs (early_suite suite : Tls13CipherSuite) (psk : option (list byte))
    (dhe ch_hash hs_hash sf_hash fin_hash cf_hash : list byte) : Prop := {
  in_hash : hkdf_algorithm early_suite = hkdf_algorithm suite;
  in_psk : secret_ok suite (psk_bytes suite psk);
  in_dhe : secret_ok suite dhe;
  in_ch_hash : hash_ok ch_hash;
  in_hs_hash : hash_ok hs_hash;
  in_sf_hash : hash_ok sf_hash;
  in_fin_hash : hash_ok fin_hash;
  in_cf_hash : hash_ok cf_hash
}.

(** A traffic stage whose tickets are those of the standard. *)
Definition ticketed (suite : Tls13CipherSuite) (psk : option (list byte)) (dhe : list byte) (t : KeyScheduleTraffic) : Prop :=
  ∀ hash nonce, hash_ok hash → label_fits (ascii "resumption") nonce →
    resumption_master_secret_and_derive_ticket_psk t hash nonce = Ok (ticket_psk suite psk dhe hash nonce).

(** C4: The key schedule is the one of RFC 8446 7.1, whose labels ([c hs traffic],
    [exp master], [res binder] and the others) and whose names in the key log the
    specification writes out.  Run by either side from a PSK or none and a shared
    secret that a digest can take, with hashes of the transcript of at most 64 bytes,
    it never panics; the traffic and exporter secrets it ends with are those of the
    standard, the two Finished values are the MACs under the handshake secrets, the
    record layer uses the side's own traffic secret to write and its peer's to read,
    the key log has the secrets themselves; and the PSK of a ticket and the binder of
    a PSK are the values of RFC 8446 4.6.1 and 4.2.11.2. *)
Theorem key_schedule_rfc8446 (early_suite suite : Tls13CipherSuite) psk skip dhe ch_hash hs_hash sf_hash fin_hash cf_hash client_random
    (client server : CommonState) (log1 log2 : KeyLog)
    (Hin : handshake_inputs early_suite suite psk dhe ch_hash hs_hash sf_hash fin_hash cf_hash)
    (Hclient : side client = Client) (Hserver : side server = Server) :
  (∃ h t sf cf client1 client2,
    client_handshake early_suite suite psk dhe hs_hash client_random (client, log1) =
      (Ok h, (client1, handshake_log suite psk dhe hs_hash client_random log1)) ∧
    keys_set suite (handshake_traffic suite psk dhe hs_hash) client1 ∧
    client_finish h sf_hash fin_hash cf_hash client_random (client1, handshake_log suite psk dhe hs_hash client_random log1) =
      (Ok (t, sf, cf), (client2, application_log suite psk dhe fin_hash client_random (handshake_log suite psk dhe hs_hash client_random log1))) ∧
    finished_with suite psk dhe hs_hash sf_hash fin_hash cf_hash t sf cf client2 ∧ ticketed suite psk dhe t) ∧
  (∃ h t sf cf server1 server2,
    server_handshake suite psk skip dhe ch_hash hs_hash client_random (server, log2) =
      (Ok h, (server1, handshake_log suite psk dhe hs_hash client_random (early_log suite psk ch_hash client_random log2))) ∧
    keys_set suite (handshake_traffic suite psk dhe hs_hash) server1 ∧
    server_finish h sf_hash fin_hash cf_hash client_random (server1, handshake_log suite psk dhe hs_hash client_random (early_log suite psk ch_hash client_random log2)) =
      (Ok (t, sf, cf), (server2, application_log suite psk dhe fin_hash client_random (handshake_log suite psk dhe hs_hash client_random (early_log suite psk ch_hash client_random log2)))) ∧
    finished_with suite psk dhe hs_hash sf_hash fin_hash cf_hash t sf cf server2 ∧ ticketed suite psk dhe t) ∧
  (∃ ks, pre_handshake early_suite psk = Ok ks ∧ ∀ h, hash_ok h →
    ∃ d, resumption_psk_binder_key_and_sign_verify_data ks h = Ok d ∧ Digest_as_ref d = psk_binder suite psk h).
Proof.
  destruct Hin as [Hh Hpsk Hdhe Hch H1 H2 H3 H4]. assert (Ha : ring_alg (hkdf_algorithm early_suite) = ring_alg (hkdf_algorithm suite)) by (by rewrite Hh).
  split_and!.
  - destruct (client_handshake_spec suite psk dhe hs_hash client_random Hpsk Hdhe H1 early_suite client log1)
      as (h & c1 & E1 & Hw & Hk1 & Hs1); [by rewrite Hh|done|].
    destruct (client_finish_spec suite psk dhe hs_hash sf_hash fin_hash cf_hash client_random H2 H3 H4 h c1
      (handshake_log suite psk dhe hs_hash client_random log1) Hw Hs1) as (t & sf & cf & c2 & E2 & Hf & _).
    exists h, t, sf, cf, c1, c2. do 4 (split; [done|]).
    intros hash nonce Hhash Hn. by eapply ticket_psk_spec.
  - destruct (server_handshake_spec suite psk dhe ch_hash hs_hash client_random Hpsk Hdhe Hch H1 skip server log2)
      as (h & c1 & E1 & Hw & Hk1 & Hs1); [done|].
    destruct (server_finish_spec suite psk dhe hs_hash sf_hash fin_hash cf_hash client_random H2 H3 H4 h c1
      (handshake_log suite psk dhe hs_hash client_random (early_log suite psk ch_hash client_random log2)) Hw Hs1) as (t & sf & cf & c2 & E2 & Hf & _).
    exists h, t, sf, cf, c1, c2. do 4 (split; [done|]).
    intros hash nonce Hhash Hn. by eapply ticket_psk_spec.
  - destruct (pre_handshake_spec suite early_suite psk Ha Hpsk) as (ks & E & _). exists ks. split; [done|]. intros h.
    by eapply psk_binder_spec.
Qed.

(** Two sides under the same secrets, whose sequence numbers suffice. *)
Definition writes (suite : Tls13CipherSuite) (sec : list byte) (c : CommonState) : Prop :=
  ∃ n, encrypts (ring_alg (hkdf_algorithm suite)) (aead_algorithm (tls13_common suite)) sec n (record_layer c) ∧
    (0 ≤ n < SEQ_HARD_LIMIT)%Z.
Definition reads (suite : Tls13CipherSuite) (sec : list byte) (c : CommonState) : Prop :=
  ∃ n, decrypts (ring_alg (hkdf_algorithm suite)) (aead_algorithm (tls13_common suite)) sec n (record_layer c).

Record linked (suite : Tls13CipherSuite) (sec : Side → list byte) (master exporter : list byte)
    (tc : KeyScheduleTraffic) (client : CommonState) (ts : KeyScheduleTraffic) (server : CommonState) : Prop := {
  li_sides : side client = Client ∧ side server = Server;
  li_client : traffic_with (ring_alg (hkdf_algorithm suite)) (aead_algorithm (tls13_common suite)) sec master exporter tc;
  li_server : traffic_with (ring_alg (hkdf_algorithm suite)) (aead_algorithm (tls13_common suite)) sec master exporter ts;
  li_up : writes suite (sec Client) client ∧ reads suite (sec Client) server;
  li_down : writes suite (sec Server) server ∧ reads suite (sec Server) client
}.

(** The record layers are the ends of a cipher in both directions. *)
Definition paired (client server : CommonState) : Prop :=
  CipherPair (message_encrypter (record_layer client)) (message_decrypter (record_layer server)) ∧
  CipherPair (message_encrypter (record_layer server)) (message_decrypter (record_layer client)).

Lemma linked_paired suite sec master exporter tc client ts server :
  linked suite sec master exporter tc client ts server → paired client server.
Proof.
  intros [_ _ _ [(n1 & He1 & _) (m1 & Hd1)] [(n2 & He2 & _) (m2 & Hd2)]]. split; by eapply encrypts_decrypts.
Qed.

Lemma keys_set_linked suite sec master exporter tc client ts server :
  side client = Client → side server = Server → keys_set suite sec client → keys_set suite sec server →
  traffic_with (ring_alg (hkdf_algorithm suite)) (aead_algorithm (tls13_common suite)) sec master exporter tc →
  traffic_with (ring_alg (hkdf_algorithm suite)) (aead_algorithm (tls13_common suite)) sec master exporter ts →
  linked suite sec master exporter tc client ts server.
Proof.
  intros Hc Hs [Ec Dc] [Es Ds] Tc Ts. rewrite Hc in Ec, Dc. rewrite Hs in Es, Ds.
  split; try done; (split; [exists 0%Z; split; [done|unfold SEQ_HARD_LIMIT; lia]|by exists 0%Z]).
Qed.

(** C3: The two ends of a TLS 1.3 handshake agree.  With the same PSK, shared secret
    and transcript, the record layers are the ends of the same ciphers in both
    directions, under the handshake keys and then under the traffic keys; each side
    computes the Finished values that the other expects; and afterwards both export
    the same keys and derive the same PSK for a ticket, without a panic. *)
Theorem tls13_peers_agree (early_suite suite : Tls13CipherSuite) psk skip dhe ch_hash hs_hash sf_hash fin_hash cf_hash client_random
    (client server : CommonState) (log1 log2 : KeyLog)
    (Hin : handshake_inputs early_suite suite psk dhe ch_hash hs_hash sf_hash fin_hash cf_hash)
    (Hclient : side client = Client) (Hserver : side server = Server) :
  ∃ hc client1 log1' hs server1 log2',
    client_handshake early_suite suite psk dhe hs_hash client_random (client, log1) = (Ok hc, (client1, log1')) ∧
    server_handshake suite psk skip dhe ch_hash hs_hash client_random (server, log2) = (Ok hs, (server1, log2')) ∧
    paired client1 server1 ∧
    ∃ tc sf1 cf1 client2 log1'' ts sf2 cf2 server2 log2'',
      client_finish hc sf_hash fin_hash cf_hash client_random (client1, log1') = (Ok (tc, sf1, cf1), (client2, log1'')) ∧
      server_finish hs sf_hash fin_hash cf_hash client_random (server1, log2') = (Ok (ts, sf2, cf2), (server2, log2'')) ∧
      Digest_as_ref sf1 = Digest_as_ref sf2 ∧ Digest_as_ref cf1 = Digest_as_ref cf2 ∧ paired client2 server2 ∧
      (∀ out label context, label_fits label (replicate MAX_OUTPUT_LEN x00) → fits (length (default [] context)) →
        tls13_export_keying_material tc out label context = tls13_export_keying_material ts out label context) ∧
      (∀ hash nonce, hash_ok hash → label_fits (ascii "resumption") nonce →
        ∃ psk', resumption_master_secret_and_derive_ticket_psk tc hash nonce = Ok psk' ∧
          resumption_master_secret_and_derive_ticket_psk ts hash nonce = Ok psk').
Proof.
  destruct Hin as [Hh Hpsk Hdhe Hch H1 H2 H3 H4].
  destruct (client_handshake_spec suite psk dhe hs_hash client_random Hpsk Hdhe H1 early_suite client log1)
    as (hc & c1 & E1 & Hw1 & Hk1 & Hs1); [by rewrite Hh|done|].
  destruct (server_handshake_spec suite psk dhe ch_hash hs_hash client_random Hpsk Hdhe Hch H1 skip server log2)
    as (hs & s1 & E2 & Hw2 & Hk2 & Hs2); [done|].
  eexists _, _, _, _, _, _. split; [exact E1|]. split; [exact E2|]. split.
  { destruct Hk1 as [K1 K2], Hk2 as [K3 K4]. rewrite Hs1 in K1, K2. rewrite Hs2 in K3, K4. split; by eapply encrypts_decrypts. }
  destruct (client_finish_spec suite psk dhe hs_hash sf_hash fin_hash cf_hash client_random H2 H3 H4 hc c1
    (handshake_log suite psk dhe hs_hash client_random log1) Hw1 Hs1) as (tc & sf1 & cf1 & c2 & E3 & (T1 & F1 & G1 & K1) & S1).
  destruct (server_finish_spec suite psk dhe hs_hash sf_hash fin_hash cf_hash client_random H2 H3 H4 hs s1
    (handshake_log suite psk dhe hs_hash client_random (early_log suite psk ch_hash client_random log2)) Hw2 Hs2) as (ts & sf2 & cf2 & s2 & E4 & (T2 & F2 & G2 & K2) & S2).
  eexists _, _, _, _, _, _, _, _, _, _. split; [exact E3|]. split; [exact E4|].
  split; [congruence|]. split; [congruence|]. split; [by eapply linked_paired, keys_set_linked|].
  set (a := ring_alg (hkdf_algorithm suite)) in *. pose proof (ring_alg_ok (hkdf_algorithm suite)) as OK. fold a in OK.
  destruct T1 as [[Kc1 Ka1] _ _ _ X1], T2 as [[Kc2 Ka2] _ _ _ X2]. split.
  - intros out label context Hl Hc. unfold tls13_export_keying_material. assert (Hl' : label_fits label (replicate (output_len a) x00)).
    { unfold label_fits in *. rewrite length_replicate in *. pose proof (ok_output_len a OK). lia. }
    by rewrite (ks_export_spec a OK _ _ _ out label context Ka1 X1), (ks_export_spec a OK _ _ _ out label context Ka2 X2).
  - intros hash nonce Hhash Hn. unfold resumption_master_secret_and_derive_ticket_psk.
    destruct (ks_derive_spec a OK _ (tr_ks tc) ResumptionMasterSecret hash (conj Kc1 Ka1) Hhash) as (r1 & -> & R1).
    destruct (ks_derive_spec a OK _ (tr_ks ts) ResumptionMasterSecret hash (conj Kc2 Ka2) Hhash) as (r2 & -> & R2).
    cbn [res_bind]. rewrite (derive_ticket_psk_spec a OK _ _ _ nonce Ka1 R1 Hn), (derive_ticket_psk_spec a OK _ _ _ nonce Ka2 R2 Hn).
    by eexists.
Qed.

(** ** Key updates *)

(** The keys of a side are updated, at the side and at its peer. *)
Definition key_update (s : Side) (w : KeyScheduleTraffic * CommonState * (KeyScheduleTraffic * CommonState))
    : res unit (KeyScheduleTraffic * CommonState * (KeyScheduleTraffic * CommonState)) :=
  let '((tc, client), (ts, server)) := w in
  match s with
  | Client =>
      let '(r1, client) := update_encrypter_and_notify debug tc client in
      let '(r2, server) := update_decrypter debug ts server in
      let? tc := r1 in let? ts := r2 in Ok ((tc, client), (ts, server))
  | Server =>
      let '(r2, server) := update_encrypter_and_notify debug ts server in
      let '(r1, client) := update_decrypter debug tc client in
      let? tc := r1 in let? ts := r2 in Ok ((tc, client), (ts, server))
  end.

Lemma key_update_spec suite s sec master exporter tc client ts server :
  linked suite sec master exporter tc client ts server →
  ∃ tc' client' ts' server', key_update s ((tc, client), (ts, server)) = Ok ((tc', client'), (ts', server')) ∧
    linked suite (updated (ring_alg (hkdf_algorithm suite)) s sec) master exporter tc' client' ts' server'.
Proof.
  intros [[Hc Hs] Tc Ts [(n & En & Hn) (m & Dm)] [(n' & En' & Hn') (m' & Dm')]].
  pose proof (ring_alg_ok (hkdf_algorithm suite)) as OK. unfold key_update.
  assert (Hother : ∀ x y, x ≠ y → updated (ring_alg (hkdf_algorithm suite)) x sec y = sec y)
    by (intros x y Hxy; unfold updated; by rewrite decide_False by congruence).
  destruct s.
  - destruct (update_encrypter_spec debug _ OK _ sec master exporter tc n client Tc) as (tc' & c' & -> & Tc' & Ec' & Dc' & Sc' & _);
      [by rewrite Hc|done|].
    destruct (update_decrypter_spec debug _ OK _ sec master exporter ts server Ts) as (ts' & s' & -> & Ts' & Ds' & Es' & Ss' & _).
    cbn [res_bind]. exists tc', c', ts', s'. split; [done|]. rewrite Hc in *. rewrite Hs in *. cbn [Side_peer] in *.
    split; try done.
    + split; [exists 0%Z; split; [done|unfold SEQ_HARD_LIMIT; lia]|by exists 0%Z].
    + rewrite Hother by done. split; [exists n'; split; [by eapply encrypts_part|done]|exists m'; by eapply decrypts_part].
  - destruct (update_encrypter_spec debug _ OK _ sec master exporter ts n' server Ts) as (ts' & s' & -> & Ts' & Es' & Ds' & Ss' & _);
      [by rewrite Hs|done|].
    destruct (update_decrypter_spec debug _ OK _ sec master exporter tc client Tc) as (tc' & c' & -> & Tc' & Dc' & Ec' & Sc' & _).
    cbn [res_bind]. exists tc', c', ts', s'. split; [done|]. rewrite Hc in *. rewrite Hs in *. cbn [Side_peer] in *.
    split; try done.
    + rewrite Hother by done. split; [exists n; split; [by eapply encrypts_part|done]|exists m; by eapply decrypts_part].
    + split; [exists 0%Z; split; [done|unfold SEQ_HARD_LIMIT; lia]|by exists 0%Z].
Qed.

Fixpoint key_updates (us : list Side) (w : KeyScheduleTraffic * CommonState * (KeyScheduleTraffic * CommonState))
    : res unit (KeyScheduleTraffic * CommonState * (KeyScheduleTraffic * CommonState)) :=
  match us with
  | [] => Ok w
  | s :: us => let? w := key_update s w in key_updates us w
  end.

(** C5: Key updates keep the ends in step.  However often and in whatever order the
    two sides update their keys, no update panics, and the record layers stay the
    ends of the same ciphers: the secret of a side is the one of RFC 8446 7.2 after
    as many updates as it made, the other side's is untouched. *)
Theorem key_updates_agree suite us sec master exporter tc client ts server
    (Hlinked : linked suite sec master exporter tc client ts server) :
  ∃ tc' client' ts' server', key_updates us ((tc, client), (ts, server)) = Ok ((tc', client'), (ts', server')) ∧
    paired client' server' ∧
    linked suite (λ s, Nat.iter (length (filter (λ u, u = s) us)) (next_secret (ring_alg (hkdf_algorithm suite))) (sec s))
      master exporter tc' client' ts' server'.
Proof.
  revert sec tc client ts server Hlinked. induction us as [|s us IH]; intros sec tc client ts server Hl.
  - exists tc, client, ts, server. split; [done|]. split; [by eapply linked_paired|done].
  - destruct (key_update_spec suite s _ _ _ _ _ _ _ Hl) as (tc1 & c1 & ts1 & s1 & E & Hl1). cbn [key_updates]. rewrite E. cbn [res_bind].
    destruct (IH _ _ _ _ _ Hl1) as (tc2 & c2 & ts2 & s2 & E2 & Hp & Hl2). exists tc2, c2, ts2, s2. split; [done|]. split; [done|].
    assert (Hsec : ∀ x, Nat.iter (length (filter (λ u, u = x) us)) (next_secret (ring_alg (hkdf_algorithm suite)))
        (updated (ring_alg (hkdf_algorithm suite)) s sec x) =
      Nat.iter (length (filter (λ u, u = x) (s :: us))) (next_secret (ring_alg (hkdf_algorithm suite))) (sec x)).
    { intros x. rewrite filter_cons. unfold updated. destruct (decide (s = x)) as [->|Hx].
      - rewrite decide_True by done. cbn [length]. by rewrite Nat.iter_succ_r.
      - by rewrite decide_False by congruence. }
    destruct Hl2 as [L1 [L2 L2' L2c L2s L2e] [L3 L3' L3c L3s L3e] L4 L5]. rewrite !Hsec in *. by split.
Qed.

(** Exporting keys of TLS 1.3 never fails with an error.  Up to 255 blocks the
    output is the exporter of RFC 8446 7.5; a longer output, which the code means to
    refuse with the error "exporting too much", panics in [hkdf_expand_info]. *)
Theorem tls13_export_outcome suite sec master exporter t out label context
    (Ht : traffic_with (ring_alg (hkdf_algorithm suite)) (aead_algorithm (tls13_common suite)) sec master exporter t)
    (Hlabel : label_fits label (replicate MAX_OUTPUT_LEN x00)) (Hcontext : fits (length (default [] context))) :
  tls13_export_keying_material t out label context =
    if decide (length out ≤ 255 * output_len (ring_alg (hkdf_algorithm suite)))
    then Ok (exported (ring_alg (hkdf_algorithm suite)) exporter label (default [] context) (length out)) else Panic.
Proof.
  pose proof (ring_alg_ok (hkdf_algorithm suite)) as OK. destruct Ht as [[_ Ha] _ _ _ X].
  apply (ks_export_spec _ OK); [done|done| |done]. unfold label_fits in *. rewrite length_replicate in *.
  pose proof (ok_output_len _ OK). lia.
Qed.

End agreement.

(** * The test vectors of key_schedule.rs, generated with OpenSSL *)

#[local] Existing Instances any_name no_foreign toy_aead toy_keys toy_aead_ok toy_keys_ok.

Lemma toy_key_lens : AeadKeyLens (H := toy_aead) toy_keys.
Proof. intros alg. cbn. unfold MAX_KEY_LEN. lia. Qed.
#[local] Existing Instance toy_key_lens.

Definition vector_suite : Tls13CipherSuite :=
  match TLS13_CHACHA20_POLY1305_SHA256 with Tls13 s => s | Tls12 s => mkTls13CipherSuite (tls12_common s) HMAC_SHA256 end.
Definition hs_start_hash : list byte := to_be 32 0xec147a06dea3c8846c02b2238e41bddc9d89f9aea17b5efd4d7482af75881c0a.
Definition hs_full_hash : list byte := to_be 32 0x751a3d4a14dfabeb68e92ca5918e2408b9bcb0748982ec9c3230ac30bbeb23e2.
Definition ecdhe_secret : list byte := to_be 32 0xe7b8fef8903b520cb9a18971b69dd45dca53ce2f12bf3bef9315e31271df4b40.
Definition sample_random : list byte := replicate 32 x01.
Definition all_labels : KeyLog := mkKeyLog (λ _, true) [].

Lemma vector_inputs : handshake_inputs vector_suite vector_suite None ecdhe_secret hs_start_hash hs_start_hash hs_start_hash hs_full_hash hs_full_hash.
Proof. split; try done; first [vm_compute; reflexivity|unfold hash_ok, MAX_OUTPUT_LEN; vm_compute; lia]. Qed.

Definition vector_log : list (string * list byte * list byte) :=
  [("CLIENT_HANDSHAKE_TRAFFIC_SECRET"%string, sample_random, to_be 32 0x617b35076b9d0e08cf731d94a86614784109ef255551921dd46e040135cf46ab);
   ("SERVER_HANDSHAKE_TRAFFIC_SECRET"%string, sample_random, to_be 32 0xfcf7dfe64fa2c04f6235387f434e01422336d9c039de6847a0b9ddcf29a88759);
   ("CLIENT_TRAFFIC_SECRET_0"%string, sample_random, to_be 32 0xc14a6d7976d8102b5a0c9951493fee87dcaff82c24cab214e8be71a8206dbda5);
   ("SERVER_TRAFFIC_SECRET_0"%string, sample_random, to_be 32 0x2c907738d3f83702d1e4598f4848531d9f9365491b9f7f52c822290d4c232192)].

Lemma key_schedule_rfc8446_witness :
  ∃ h t sf cf client1 client2 l1 l2,
    client_handshake false vector_suite vector_suite None ecdhe_secret hs_start_hash sample_random
      (CommonState_new Client, all_labels) = (Ok h, (client1, l1)) ∧
    client_finish false h hs_start_hash hs_full_hash hs_full_hash sample_random (client1, l1) = (Ok (t, sf, cf), (client2, l2)) ∧
    take 4 (logged l2) = vector_log.
Proof.
  destruct (key_schedule_rfc8446 false vector_suite vector_suite None None ecdhe_secret hs_start_hash hs_start_hash hs_start_hash hs_full_hash hs_full_hash
    sample_random (CommonState_new Client) (CommonState_new Server) all_labels all_labels vector_inputs eq_refl eq_refl)
    as [(h & t & sf & cf & c1 & c2 & E1 & _ & E2 & _) _].
  exists h, t, sf, cf, c1, c2. eexists. eexists. split; [exact E1|]. split; [exact E2|]. vm_compute. reflexivity.
Defined.

(** The keys and IVs of the vectors, under AES-128-GCM. *)
Example vector_keys :
  let a := ring_alg HMAC_SHA256 in
  let secret := to_be 32 0x617b35076b9d0e08cf731d94a86614784109ef255551921dd46e040135cf46ab in
  expand_label a secret (ascii "key") [] 16 = to_be 16 0x62d0dd00f69619d3b8193ab4a09585a7 ∧
  expand_label a secret (ascii "iv") [] 12 = to_be 12 0xfff75df5ad35d5cb3c53f3a9.
Proof. vm_compute. split; reflexivity. Qed.

Lemma tls13_peers_agree_witness :
  ∃ hc client1 log1' hs server1 log2',
    client_handshake true vector_suite vector_suite None ecdhe_secret hs_start_hash sample_random
      (CommonState_new Client, all_labels) = (Ok hc, (client1, log1')) ∧
    server_handshake true vector_suite None None ecdhe_secret hs_start_hash hs_start_hash sample_random
      (CommonState_new Server, mkKeyLog (λ _, false) []) = (Ok hs, (server1, log2')) ∧
    paired client1 server1.
Proof.
  destruct (tls13_peers_agree true vector_suite vector_suite None None ecdhe_secret hs_start_hash hs_start_hash hs_start_hash hs_full_hash hs_full_hash
    sample_random (CommonState_new Client) (CommonState_new Server) all_labels (mkKeyLog (λ _, false) []) vector_inputs eq_refl eq_refl)
    as (hc & c1 & l1 & hs & s1 & l2 & E1 & E2 & Hp & _).
  exists hc, c1, l1, hs, s1, l2. split; [exact E1|]. split; [exact E2|exact Hp].
Defined.

(** Two sides after that handshake. *)
Lemma vector_linked :
  ∃ tc client ts server,
    linked vector_suite (application_traffic vector_suite None ecdhe_secret hs_full_hash)
      (master_secret (ring_alg HMAC_SHA256) (psk_bytes vector_suite None) ecdhe_secret)
      (exporter_secret vector_suite None ecdhe_secret hs_full_hash) tc client ts server.
Proof.
  destruct vector_inputs as [Hh Hpsk Hdhe Hch H1 H2 H3 H4].
  destruct (client_handshake_spec false vector_suite None ecdhe_secret hs_start_hash sample_random Hpsk Hdhe H1 vector_suite
    (CommonState_new Client) all_labels) as (hc & c1 & _ & Hw1 & _ & Hs1); [done|done|].
  destruct (server_handshake_spec false vector_suite None ecdhe_secret hs_start_hash hs_start_hash sample_random Hpsk Hdhe Hch H1 None
    (CommonState_new Server) all_labels) as (hs & s1 & _ & Hw2 & _ & Hs2); [done|].
  destruct (client_finish_spec false vector_suite None ecdhe_secret hs_start_hash hs_start_hash hs_full_hash hs_full_hash sample_random
    H2 H3 H4 hc c1 all_labels Hw1 Hs1) as (tc & sf1 & cf1 & c2 & _ & (T1 & _ & _ & K1) & S1).
  destruct (server_finish_spec false vector_suite None ecdhe_secret hs_start_hash hs_start_hash hs_full_hash hs_full_hash sample_random
    H2 H3 H4 hs s1 all_labels Hw2 Hs2) as (ts & sf2 & cf2 & s2 & _ & (T2 & _ & _ & K2) & S2).
  exists tc, c2, ts, s2. by apply keys_set_linked.
Qed.

Lemma key_updates_agree_witness :
  ∃ tc client ts server tc' client' ts' server',
    key_updates false [Client; Server; Client] ((tc, client), (ts, server)) = Ok ((tc', client'), (ts', server')) ∧
    paired client' server'.
Proof.
  destruct vector_linked as (tc & c & ts & s & Hl).
  destruct (key_updates_agree false vector_suite [Client; Server; Client] _ _ _ tc c ts s Hl) as (tc' & c' & ts' & s' & E & Hp & _).
  exists tc, c, ts, s, tc', c', ts', s'. split; [exact E|exact Hp].
Defined.

Lemma tls13_export_outcome_witness :
  ∃ t, tls13_export_keying_material t (replicate 32 x00) (ascii "EXPORTER-sample") None =
      Ok (exported (ring_alg HMAC_SHA256) (exporter_secret vector_suite None ecdhe_secret hs_full_hash) (ascii "EXPORTER-sample") [] 32) ∧
    tls13_export_keying_material t (replicate (S (255 * 32)) x00) (ascii "EXPORTER-sample") None = Panic.
Proof.
  destruct vector_linked as (tc & c & ts & s & Hl). exists tc. pose proof (li_client _ _ _ _ _ _ _ _ Hl) as Ht. split.
  - rewrite (tls13_export_outcome vector_suite _ _ _ tc (replicate 32 x00) _ None Ht); [|vm_compute; reflexivity..].
    rewrite decide_True by (vm_compute; lia). reflexivity.
  - rewrite (tls13_export_outcome vector_suite _ _ _ tc (replicate (S (255 * 32)) x00) _ None Ht); [|vm_compute; reflexivity..].
    rewrite decide_False; [reflexivity|]. rewrite length_replicate. change (output_len _) with 32. lia.
Defined.

(** The pseudo-random function of TLS 1.2 over ring's HMAC: the vector of tls12/prf.rs. *)
Definition ring_hmac : Hmac :=
  {| hmac_output_len alg := output_len (ring_alg alg); hmac_sign alg key msg := hmac (ring_alg alg) key msg |}.

Lemma ring_hmac_ok : HmacOk ring_hmac.
Proof.
  split; intros alg; cbn; [apply (ok_output_len _ (ring_alg_ok alg))|]. intros key msg. apply (length_hmac _ (ring_alg_ok alg)).
Qed.

Example prf_sha256_vector :
  prf (H := ring_hmac) (replicate 100 x00) HMAC_SHA256 (to_be 16 0x9bbe436ba940f017b17652849a71db35) (ascii "test label")
    (to_be 16 0xa0ba9f936cda311827a6f796ffd5198c) =
  Ok (to_be 100 0xe3f229ba727be17b8d122620557cd453c2aab21d07c3d495329b52d4e61edb5a6b301791e90d35c9c9a46b4e14baf9af0fa022f7077def17abfd3797c0564bab4fbc91666e9def9b97fce34f796789baa48082d122ee42c5a72e5a5110fff70187347b66).
Proof. vm_compute. reflexivity. Qed.
