(* ===== verification/Words.v ===== *)
(** Machine words and their little-endian bytes, for the crates that compute with them:
    an operation of [w] bits is one of integers and a [mod]. *)
From Stdlib Require Import ZArith Lia Strings.Byte.
From stdpp Require Import base list numbers option.
From S2P Require Import Prelude StateMonad.
#[local] Open Scope Z_scope.

(** * Words of [w] bits *)

Definition wrapping_add (w a b : Z) : Z := (a + b) `mod` 2 ^ w.
Definition wrapping_sub (w a b : Z) : Z := (a - b) `mod` 2 ^ w.
Definition wrapping_mul (w a b : Z) : Z := (a * b) `mod` 2 ^ w.
Definition wrapping_shl (w a n : Z) : Z := Z.shiftl a n `mod` 2 ^ w.
Definition rotate_right (w x n : Z) : Z := Z.lor (Z.shiftr x n) (wrapping_shl w x (w - n)).
Definition rotate_left (w x n : Z) : Z := Z.lor (wrapping_shl w x n) (Z.shiftr x (w - n)).

(** * Little-endian bytes: [to_le_bytes] and [from_le_bytes] *)

Definition to_le (n : nat) (v : Z) : list byte := reverse (to_be n v).
Definition from_le (bs : list byte) : Z := from_be (reverse bs).

Lemma length_to_le n v : length (to_le n v) = n.
Proof. unfold to_le. by rewrite length_reverse, length_to_be. Qed.

Lemma from_to_le n v : 0 ≤ v < 256 ^ Z.of_nat n → from_le (to_le n v) = v.
Proof. intros. unfold from_le, to_le. rewrite reverse_involutive. by apply from_to_be_small. Qed.

Lemma to_from_le bs : to_le (length bs) (from_le bs) = bs.
Proof.
  unfold from_le, to_le. rewrite <- (length_reverse bs), to_from_be. apply reverse_involutive.
Qed.

Lemma from_le_range bs : 0 ≤ from_le bs < 256 ^ Z.of_nat (length bs).
Proof. unfold from_le. rewrite <- (length_reverse bs). apply from_be_range. Qed.

Lemma from_le_app a b : from_le (a ++ b) = from_le a + 256 ^ Z.of_nat (length a) * from_le b.
Proof.
  unfold from_le. rewrite reverse_app. unfold from_be at 1. rewrite fold_left_app, from_be_acc.
  rewrite length_reverse. unfold from_be. lia.
Qed.

#[export] Hint Rewrite length_to_le : lens.

(** [words.iter().flat_map(to_le_bytes)] *)
Definition le_bytes (size : nat) (words : list Z) : list byte := concat (to_le size <$> words).

Lemma length_le_bytes size words : length (le_bytes size words) = (size * length words)%nat.
Proof.
  induction words as [|w l IH]; [simpl; lia|].
  change (le_bytes size (w :: l)) with (to_le size w ++ le_bytes size l).
  rewrite length_app, length_to_le, IH. simpl. lia.
Qed.

Lemma le_bytes_app size a b : le_bytes size (a ++ b) = le_bytes size a ++ le_bytes size b.
Proof. unfold le_bytes. by rewrite fmap_app, concat_app. Qed.

Lemma le_bytes_take size words n : take (size * n) (le_bytes size words) = le_bytes size (take n words).
Proof.
  rewrite <- (take_drop n words) at 1. rewrite le_bytes_app.
  destruct (decide (n ≤ length words)%nat).
  - rewrite take_app_length'; [done|]. rewrite length_le_bytes, length_take, Nat.min_l by lia. done.
  - rewrite (drop_ge words) by lia. rewrite app_nil_r.
    apply take_ge. rewrite length_le_bytes, length_take. apply Nat.mul_le_mono_l. lia.
Qed.

(** The blocks of [chunks_exact(size)], and what remains ([into_remainder]). *)
Fixpoint chunks_exact {A} (num size : nat) (l : list A) : list (list A) :=
  match num with
  | O => []
  | S num => take size l :: chunks_exact num size (drop size l)
  end.

(** [resize(n, 0)] *)
Definition vec_resize (n : nat) (l : list byte) : list byte := take n l ++ replicate (n - length l) x00.

(** [io::Write] of a vector *)
Definition vec_write_all {E} (bytes : list byte) : method (list byte) E unit := λ out, (Ok tt, out ++ bytes).

(** * Operations that are checked or not *)

(** The result of an operation of [w] bits that does not wrap by itself: with overflow
    checks it is a panic when it does not fit. *)
Definition fit_word {E} (checks : bool) (w z : Z) : res E Z :=
  if bool_decide (0 ≤ z < 2 ^ w) then Ok z else if checks then Panic else Ok (z `mod` 2 ^ w).

(** [a << n] and [a >> n]: the bits that leave the word are lost, the amount is checked. *)
Definition shl_word {E} (checks : bool) (w a n : Z) : res E Z :=
  if bool_decide (0 ≤ n < w) then Ok (wrapping_shl w a n)
  else if checks then Panic else Ok (wrapping_shl w a (n `mod` w)).
Definition shr_word {E} (checks : bool) (w a n : Z) : res E Z :=
  if bool_decide (0 ≤ n < w) then Ok (Z.shiftr a n)
  else if checks then Panic else Ok (Z.shiftr a (n `mod` w)).

Lemma fit_word_in {E} checks w z : 0 ≤ z < 2 ^ w → fit_word (E := E) checks w z = Ok z.
Proof. intros. unfold fit_word. by rewrite bool_decide_true. Qed.

Lemma shl_word_in {E} checks w a n : 0 ≤ n < w → shl_word (E := E) checks w a n = Ok (wrapping_shl w a n).
Proof. intros. unfold shl_word. by rewrite bool_decide_true. Qed.

Lemma shr_word_in {E} checks w a n : 0 ≤ n < w → shr_word (E := E) checks w a n = Ok (Z.shiftr a n).
Proof. intros. unfold shr_word. by rewrite bool_decide_true. Qed.

(** * Bits and bytes of a number *)

Lemma lor_low_high a b k : 0 ≤ k → 0 ≤ a < 2 ^ k → 0 ≤ b → Z.lor a (Z.shiftl b k) = a + 2 ^ k * b.
Proof.
  intros Hk Ha Hb. assert (Z.land a (Z.shiftl b k) = 0) as Hdisj.
  { apply Z.bits_inj'. intros i Hi. rewrite Z.land_spec, Z.bits_0.
    destruct (decide (i < k)).
    - rewrite Z.shiftl_spec_low by done. apply andb_false_r.
    - rewrite <- (Z.mod_small a (2 ^ k)) by done. rewrite Z.mod_pow2_bits_high by lia. done. }
  pose proof (Z.add_lor_land a (Z.shiftl b k)) as Hadd. rewrite Z.shiftl_mul_pow2 in * by done. lia.
Qed.

Lemma pow_256 n : 256 ^ Z.of_nat n = 2 ^ (8 * Z.of_nat n).
Proof. rewrite Z.pow_mul_r by lia. done. Qed.

Lemma from_le_split n bs :
  (n ≤ length bs)%nat → from_le bs = from_le (take n bs) + 256 ^ Z.of_nat n * from_le (drop n bs).
Proof.
  intros Hn. rewrite <- (take_drop n bs) at 1. rewrite from_le_app. do 3 f_equal. rewrite length_take. lia.
Qed.

Lemma from_le_take n bs : (n ≤ length bs)%nat → from_le (take n bs) = from_le bs `mod` 256 ^ Z.of_nat n.
Proof.
  intros Hn. rewrite (from_le_split n bs Hn), Z.mul_comm, Z.mod_add by lia.
  symmetry. apply Z.mod_small. pose proof (from_le_range (take n bs)) as Hr.
  by rewrite length_take, Nat.min_l in Hr by lia.
Qed.

Lemma from_le_drop n bs : (n ≤ length bs)%nat → from_le (drop n bs) = from_le bs `div` 256 ^ Z.of_nat n.
Proof.
  intros Hn. rewrite (from_le_split n bs Hn), Z.mul_comm, Z.div_add by lia.
  rewrite Z.div_small; [done|]. pose proof (from_le_range (take n bs)) as Hr.
  by rewrite length_take, Nat.min_l in Hr by lia.
Qed.

Lemma to_le_mod n v : to_le n (v `mod` 256 ^ Z.of_nat n) = to_le n v.
Proof.
  unfold to_le. f_equal. rewrite (Z.div_mod v (256 ^ Z.of_nat n)) at 2 by lia.
  rewrite (Z.mul_comm (256 ^ _)), Z.add_comm. by rewrite to_be_mod.
Qed.

Lemma to_le_unique n bs v : length bs = n → from_le bs = v → bs = to_le n v.
Proof. intros <- <-. by rewrite to_from_le. Qed.

Lemma take_to_le k n v : (k ≤ n)%nat → take k (to_le n v) = to_le k v.
Proof.
  intros Hk. rewrite <- (to_le_mod n), <- (to_le_mod k). apply to_le_unique.
  - rewrite length_take, length_to_le. lia.
  - rewrite from_le_take by (rewrite length_to_le; lia).
    rewrite from_to_le by (apply Z.mod_pos_bound; lia).
    rewrite !pow_256. symmetry. rewrite <- !Z.land_ones by lia.
    rewrite <- Z.land_assoc. f_equal. rewrite (Z.land_comm (Z.ones _)), !Z.land_ones by lia.
    symmetry. apply Z.mod_small. rewrite Z.ones_equiv.
    assert (2 ^ (8 * Z.of_nat k) ≤ 2 ^ (8 * Z.of_nat n)) by (apply Z.pow_le_mono_r; lia). lia.
Qed.

Lemma from_le_zeros n : from_le (replicate n x00) = 0.
Proof.
  induction n as [|n IH]; [done|]. change (replicate (S n) x00) with ([x00] ++ replicate n x00).
  rewrite from_le_app, IH. done.
Qed.

(** A field of [b] bits at bit [p] of a number, taken from the [n] bytes at byte [p / 8]. *)
Lemma field_of_bytes bs (p b : Z) (n : nat) :
  0 ≤ p → 0 ≤ b → (p `mod` 8) + b ≤ 8 * Z.of_nat n → (Z.to_nat (p `div` 8) + n ≤ length bs)%nat →
  (from_le (take n (drop (Z.to_nat (p `div` 8)) bs)) `div` 2 ^ (p `mod` 8)) `mod` 2 ^ b
  = (from_le bs `div` 2 ^ p) `mod` 2 ^ b.
Proof.
  intros Hp Hb Hfit Hlen.
  assert (0 ≤ p `div` 8) by (apply Z.div_pos; lia). pose proof (Z.mod_pos_bound p 8 ltac:(lia)).
  rewrite from_le_take by (rewrite length_drop; lia). rewrite from_le_drop by lia.
  rewrite !pow_256, Z2Nat.id by done. set (x := from_le bs).
  assert (0 ≤ x) by apply from_le_range.
  rewrite <- !Z.shiftr_div_pow2, <- !Z.land_ones by lia. apply Z.bits_inj'. intros i Hi.
  rewrite !Z.land_spec, !Z.shiftr_spec, Z.land_spec, !Z.shiftr_spec by lia.
  destruct (decide (i < b)).
  - rewrite (Z.ones_spec_low (8 * Z.of_nat n)) by lia. rewrite andb_true_r.
    do 2 f_equal. pose proof (Z.div_mod p 8). lia.
  - by rewrite (Z.ones_spec_high b), !andb_false_r by lia.
Qed.
