(* ===== verification/RandCore.v ===== *)
(** The traits and helpers of rand_core (rand/rand_core/src/lib.rs, impls.rs, le.rs):
    the interface of a generator, how bytes, 32-bit and 64-bit words are made from
    each other, and how a generator is seeded.

    A method of a generator is a [method] over its state.  The error type of
    rand_core holds an error of the system or of the user and is a parameter. *)
From Stdlib Require Import ZArith Lia Strings.Byte.
From stdpp Require Import base list numbers option.
From S2P Require Import Prelude StateMonad Words.
#[local] Open Scope Z_scope.

(** * le.rs *)

(** [out.len()] words are read; the assertion is the only panic. *)
Definition read_u_into {E} (size : nat) (src : list byte) (dst : list Z) : res E (list Z) :=
  if bool_decide (size * length dst ≤ length src)%nat
  then Ok (from_le <$> chunks_exact (length dst) size src) else Panic.
Definition read_u32_into {E} (src : list byte) (dst : list Z) : res E (list Z) := read_u_into 4 src dst.
Definition read_u64_into {E} (src : list byte) (dst : list Z) : res E (list Z) := read_u_into 8 src dst.

(** * impls.rs *)

Section impls.
Context {R E : Type}.
Variable next_u32 next_u64 : method R E Z.
Variable fill_bytes : list byte → method R E (list byte).

Definition next_u64_via_u32 : method R E Z :=
  let! x := next_u32 in
  let! y := next_u32 in
  st_ret (Z.lor (Z.shiftl y 32) x).

(** One round writes eight bytes; [fuel] rounds at most. *)
Fixpoint fill_via_next_loop (fuel : nat) (left : list byte) : method R E (list byte) :=
  match fuel with
  | O => st_try (λ _, NoFuel)
  | S fuel =>
      if bool_decide (8 ≤ length left)%nat then
        let! chunk := next_u64 in
        let! r := fill_via_next_loop fuel (drop 8 left) in
        st_ret (to_le 8 chunk ++ r)
      else
        let n := length left in
        if bool_decide (4 < n)%nat then
          let! chunk := next_u64 in st_ret (take n (to_le 8 chunk))
        else if bool_decide (0 < n)%nat then
          let! chunk := next_u32 in st_ret (take n (to_le 4 chunk))
        else st_ret left
  end.
Definition fill_bytes_via_next (dest : list byte) : method R E (list byte) :=
  fill_via_next_loop (S (length dest)) dest.

Definition next_u32_via_fill : method R E Z :=
  let! buf := fill_bytes (replicate 4 x00) in st_ret (from_le buf).
Definition next_u64_via_fill : method R E Z :=
  let! buf := fill_bytes (replicate 8 x00) in st_ret (from_le buf).

End impls.

(** * The trait [RngCore] *)

(** [fill_bytes(&mut self, dest)] takes the old contents of [dest] and returns the new. *)
Class RngCore (R E : Type) : Type := {
  next_u32 : method R E Z;
  next_u64 : method R E Z;
  fill_bytes : list byte → method R E (list byte);
  try_fill_bytes : list byte → method R E (list byte);
}.

(** What the trait asks of an implementation: the words fit their types and the
    buffer keeps its length. *)
Class RngCoreOk (R E : Type) `{RngCore R E} : Prop := {
  next_u32_range r v r' : next_u32 r = (Ok v, r') → 0 ≤ v < 2 ^ 32;
  next_u64_range r v r' : next_u64 r = (Ok v, r') → 0 ≤ v < 2 ^ 64;
  fill_bytes_length dest r out r' : fill_bytes dest r = (Ok out, r') → length out = length dest;
  try_fill_bytes_length dest r out r' : try_fill_bytes dest r = (Ok out, r') → length out = length dest;
}.

(** The words of [src] from index [i] on, one to each of [num] chunks of [dest]. *)
Fixpoint write_chunks {E} (size : nat) (src : list Z) (i num : nat) : res E (list byte) :=
  match num with
  | O => Ok []
  | S num =>
      let? x := at_index src i in
      let? r := write_chunks size src (S i) num in
      Ok (to_le size x ++ r)
  end.

(** Targets that are little-endian copy the memory of the words; others convert
    word by word, and write a part of a word into the remainder. *)
Definition fill_via_chunks {E} (little : bool) (size : nat) (src : list Z) (dest : list byte)
  : res E (nat * nat * list byte) :=
  let byte_len := Nat.min (length src * size) (length dest) in
  let num_chunks := ((byte_len + size - 1) `div` size)%nat in
  let? bytes :=
    if little : bool then
      let? chunks := slice 0 num_chunks src in
      slice 0 byte_len (le_bytes size chunks)
    else
      let i := (byte_len `div` size)%nat in
      let? full := write_chunks size src 0 i in
      let rem := (byte_len `mod` size)%nat in
      if bool_decide (rem = 0)%nat then Ok full
      else let? x := at_index src i in Ok (full ++ take rem (to_le size x)) in
  Ok (num_chunks, byte_len, splice 0 bytes dest).

Definition fill_via_u32_chunks {E} (little : bool) (src : list Z) (dest : list byte) : res E (nat * nat * list byte) :=
  fill_via_chunks little 4 src dest.
Definition fill_via_u64_chunks {E} (little : bool) (src : list Z) (dest : list byte) : res E (nat * nat * list byte) :=
  fill_via_chunks little 8 src dest.

(** * The trait [SeedableRng] *)

Class SeedableRng (R : Type) : Type := {
  seed_len : nat;
  from_seed : list byte → R;
}.

Definition PCG_MUL : Z := 6364136223846793005.
Definition PCG_INC : Z := 11634580027462260723.

(** The step of the PCG32 that turns the number into a seed: four bytes and the state. *)
Definition pcg32 (state : Z) : list byte * Z :=
  let state := wrapping_add 64 (wrapping_mul 64 state PCG_MUL) PCG_INC in
  let xorshifted := as_u32 (Z.shiftr (Z.lxor (Z.shiftr state 18) state) 27) in
  let rot := as_u32 (Z.shiftr state 59) in
  (to_le 4 (rotate_right 32 xorshifted rot), state).

(** The first [n] bytes of a seed: whole chunks of four, and the remainder. *)
Fixpoint seed_bytes (num rem : nat) (state : Z) : list byte :=
  match num with
  | O => if bool_decide (rem = 0)%nat then [] else take rem (pcg32 state).1
  | S num => let '(chunk, state) := pcg32 state in chunk ++ seed_bytes num rem state
  end.

Definition seed_from_u64 {R} `{SeedableRng R} (state : Z) : R :=
  from_seed (seed_bytes (seed_len `div` 4) (seed_len `mod` 4) state).

Definition from_rng {R S E} `{SeedableRng R} `{RngCore S E} : method S E R :=
  let! seed := try_fill_bytes (replicate seed_len x00) in st_ret (from_seed seed).

(** * What [fill_via_chunks] writes *)

Lemma write_chunks_Ok {E} size src i num :
  (i + num ≤ length src)%nat →
  write_chunks (E := E) size src i num = Ok (le_bytes size (take num (drop i src))).
Proof.
  revert i. induction num as [|num IH]; intros i Hi; simpl; [by destruct src|].
  destruct (lookup_lt_is_Some_2 src i) as [x Hx]; [lia|].
  unfold at_index. rewrite Hx. simpl. rewrite IH by lia. simpl.
  rewrite (drop_S src x i Hx). done.
Qed.

(** Both branches write the same: as many bytes of the words as fit. *)
Lemma fill_via_chunks_Ok {E} little size src dest :
  (0 < size)%nat →
  let n := Nat.min (length src * size) (length dest) in
  fill_via_chunks (E := E) little size src dest
  = Ok (((n + size - 1) `div` size)%nat, n, splice 0 (take n (le_bytes size src)) dest).
Proof.
  intros Hs. cbv zeta. set (n := Nat.min (length src * size) (length dest)).
  assert (Hn : (n ≤ length src * size)%nat) by (unfold n; lia).
  set (k := ((n + size - 1) `div` size)%nat).
  assert (Hk : (n ≤ size * k)%nat /\ (k ≤ length src)%nat).
  { pose proof (Nat.div_mod_eq (n + size - 1) size) as H1. fold k in H1.
    pose proof (Nat.mod_upper_bound (n + size - 1) size). nia. }
  unfold fill_via_chunks. fold n k. destruct little.
  - rewrite slice_Ok by lia. simpl. rewrite drop_0, Nat.sub_0_r, slice_Ok; [|lia|].
    + simpl. rewrite drop_0, Nat.sub_0_r, <- le_bytes_take, take_take.
      by rewrite Nat.min_l by lia.
    + rewrite length_le_bytes, length_take. lia.
  - pose proof (Nat.div_mod_eq n size) as Hd. pose proof (Nat.mod_upper_bound n size ltac:(lia)) as Hm.
    set (q := (n `div` size)%nat) in *. set (r := (n `mod` size)%nat) in *.
    assert (q ≤ length src)%nat by nia.
    rewrite write_chunks_Ok by lia. simpl. rewrite drop_0.
    case_bool_decide as Hr.
    + simpl. rewrite <- le_bytes_take. by replace (size * q)%nat with n by lia.
    + destruct (lookup_lt_is_Some_2 src q) as [x Hx]; [nia|].
      unfold at_index. rewrite Hx. simpl. do 2 f_equal. f_equal.
      replace (le_bytes size src) with (le_bytes size (take q src) ++ le_bytes size (drop q src))
        by (by rewrite <- le_bytes_app, take_drop).
      rewrite Hd, take_app_add'.
      2:{ rewrite length_le_bytes, length_take. by rewrite Nat.min_l by lia. }
      f_equal. rewrite (drop_S src x q Hx).
      change (le_bytes size (x :: drop (S q) src)) with (to_le size x ++ le_bytes size (drop (S q) src)).
      rewrite take_app_le by (rewrite length_to_le; lia). done.
Qed.
