(* ===== verification/RandBlock.v ===== *)
(** Generators that make blocks of words (rand/rand_core/src/block.rs): [BlockRng]
    over blocks of 32-bit words and [BlockRng64] over blocks of 64-bit words.

    [reads] says what they promise: they read one stream of words, the blocks of the
    core one after the other, and every call takes the next words of it. *)
From Stdlib Require Import ZArith Lia Strings.Byte.
From stdpp Require Import base list numbers option.
From S2P Require Import Prelude StateMonad Words RandCore.
#[local] Open Scope Z_scope.

(** * The trait [BlockRngCore] *)

(** [Results] is an array of [results_len] words; [generate(&mut self, results)] takes
    the old contents of the array and returns the new. *)
Class BlockRngCore (C E : Type) : Type := {
  results_len : nat;
  generate : list Z → method C E (list Z);
}.

(** What a core promises: the block is made by its state alone. *)
Class BlockRngCoreOk (C E : Type) `{BlockRngCore C E} : Type := {
  fresh : C → list Z;
  advanced : C → C;
  fresh_length c : length (fresh c) = results_len;
  generate_fresh c old :
    length old = results_len → generate (E := E) old c = (Ok (fresh c), advanced c);
}.

(** * The generators *)

Record BlockRng (C : Type) : Type := mkBlockRng {
  results : list Z;
  index : nat;
  core : C;
}.
Arguments mkBlockRng {C}.
Arguments results {C}.
Arguments index {C}.
Arguments core {C}.

Definition set_results {C} (x : list Z) (r : BlockRng C) : BlockRng C := mkBlockRng x (index r) (core r).
Definition set_index {C} (x : nat) (r : BlockRng C) : BlockRng C := mkBlockRng (results r) x (core r).
Definition set_core {C} (x : C) (r : BlockRng C) : BlockRng C := mkBlockRng (results r) (index r) x.

(** [BlockRng64] has the fields of [BlockRng], and whether the last word was used by half. *)
Record BlockRng64 (C : Type) : Type := mkBlockRng64 {
  base : BlockRng C;
  half_used : bool;
}.
Arguments mkBlockRng64 {C}.
Arguments base {C}.
Arguments half_used {C}.

Definition set_half_used {C} (x : bool) (r : BlockRng64 C) : BlockRng64 C := mkBlockRng64 (base r) x.

(** A method on the fields that both have. *)
Definition on_base {C E A} (m : method (BlockRng C) E A) : method (BlockRng64 C) E A := λ r,
  let '(x, b) := m (base r) in (x, mkBlockRng64 b (half_used r)).

Section block.
Context {C E : Type} `{!BlockRngCore C E}.

Definition block_new (core : C) : BlockRng C :=
  mkBlockRng (replicate (results_len (C := C) (E := E)) 0) (results_len (C := C) (E := E)) core.

Definition block_reset : method (BlockRng C) E unit := st_set (λ r, set_index (length (results r)) r).

(** [self.core.generate(&mut self.results)] *)
Definition core_generate : method (BlockRng C) E unit := λ r,
  match generate (results r) (core r) with
  | (Ok x, c) => (Ok tt, set_results x (set_core c r))
  | (Err e, c) => (Err e, set_core c r)
  | (Panic, c) => (Panic, set_core c r)
  | (NoFuel, c) => (NoFuel, set_core c r)
  end.

Definition generate_and_set (index : nat) : method (BlockRng C) E unit :=
  let! len := st_get (λ r, length (results r)) in
  if bool_decide (index < len)%nat then
    let! _ := core_generate in st_set (set_index index)
  else st_try (λ _, Panic).

(** * BlockRng *)

Definition block_next_u32 : method (BlockRng C) E Z :=
  let! (i, len) := st_get (λ r, (index r, length (results r))) in
  let! _ := if bool_decide (len ≤ i)%nat then generate_and_set 0 else st_ret tt in
  let! value := st_try (λ r, at_index (results r) (index r)) in
  let! _ := st_set (λ r, set_index (S (index r)) r) in
  st_ret value.

Definition block_read_u64 (results : list Z) (index : nat) : res E Z :=
  let? data := slice index (index + 2) results in
  let? hi := at_index data 1 in
  let? lo := at_index data 0 in
  Ok (Z.lor (Z.shiftl hi 32) lo).

Definition block_next_u64 : method (BlockRng C) E Z :=
  let! (i, len) := st_get (λ r, (index r, length (results r))) in
  if bool_decide (len = 0)%nat then st_try (λ _, Panic) else
  if bool_decide (i < len - 1)%nat then
    let! _ := st_set (λ r, set_index (index r + 2) r) in
    st_try (λ r, block_read_u64 (results r) i)
  else if bool_decide (len ≤ i)%nat then
    let! _ := generate_and_set 2 in
    st_try (λ r, block_read_u64 (results r) 0)
  else
    let! x := st_try (λ r, at_index (results r) (len - 1)) in
    let! _ := generate_and_set 1 in
    let! y := st_try (λ r, at_index (results r) 0) in
    st_ret (Z.lor (Z.shiftl y 32) x).

(** The loop of [fill_bytes], for words of [size] bytes: [gen] makes a new block. *)
Fixpoint fill_loop (little : bool) (size : nat) (gen : method (BlockRng C) E unit) (fuel read_len : nat)
  (dest : list byte) : method (BlockRng C) E (list byte) :=
  if bool_decide (read_len < length dest)%nat then
    match fuel with
    | O => st_try (λ _, NoFuel)
    | S fuel =>
        let! (i, len) := st_get (λ r, (index r, length (results r))) in
        let! _ := if bool_decide (len ≤ i)%nat then gen else st_ret tt in
        let! src := st_try (λ r, slice (index r) (length (results r)) (results r)) in
        let! (consumed, filled, out) := st_try (λ _, fill_via_chunks little size src (drop read_len dest)) in
        let! _ := st_set (λ r, set_index (index r + consumed) r) in
        fill_loop little size gen fuel (read_len + filled) (take read_len dest ++ out)
    end
  else st_ret dest.

Definition block_fill_bytes (little : bool) (dest : list byte) : method (BlockRng C) E (list byte) :=
  fill_loop little 4 (generate_and_set 0) (length dest) 0 dest.

(** The new block of [next_u64] and [fill_bytes] of [BlockRng64]. *)
Definition regenerate : method (BlockRng C) E unit :=
  let! _ := core_generate in st_set (set_index 0).

(** * BlockRng64 *)

Definition block64_new (core : C) : BlockRng64 C := mkBlockRng64 (block_new core) false.

Definition block64_reset : method (BlockRng64 C) E unit :=
  let! _ := on_base block_reset in st_set (set_half_used false).

Definition block64_generate_and_set (index : nat) : method (BlockRng64 C) E unit :=
  let! _ := on_base (generate_and_set index) in st_set (set_half_used false).

Definition block64_next_u32 : method (BlockRng64 C) E Z :=
  let! (i, half, len) := st_get (λ r, (index (base r), half_used r, length (results (base r)))) in
  if bool_decide (i < Nat.b2n half)%nat then st_try (λ _, Panic) else
  let i := (i - Nat.b2n half)%nat in
  let! i :=
    if bool_decide (len ≤ i)%nat then
      let! _ := on_base regenerate in
      let! _ := st_set (set_half_used false) in
      st_ret 0%nat
    else st_ret i in
  let! shift := st_get (λ r, 32 * Z.of_nat (Nat.b2n (half_used r))) in
  let! _ := st_set (λ r, set_half_used (negb (half_used r)) r) in
  let! half := st_get half_used in
  let! _ := on_base (st_set (λ r, set_index (index r + Nat.b2n half) r)) in
  let! w := on_base (st_try (λ r, at_index (results r) i)) in
  st_ret (as_u32 (Z.shiftr w shift)).

Definition block64_next_u64 : method (BlockRng64 C) E Z :=
  let! (i, len) := st_get (λ r, (index (base r), length (results (base r)))) in
  let! _ := if bool_decide (len ≤ i)%nat then on_base regenerate else st_ret tt in
  let! value := on_base (st_try (λ r, at_index (results r) (index r))) in
  let! _ := on_base (st_set (λ r, set_index (S (index r)) r)) in
  let! _ := st_set (set_half_used false) in
  st_ret value.

Definition block64_fill_bytes (little : bool) (dest : list byte) : method (BlockRng64 C) E (list byte) :=
  let! _ := st_set (set_half_used false) in
  on_base (fill_loop little 8 regenerate (length dest) 0 dest).

(** * Calls *)

Inductive call : Type :=
  | NextU32
  | NextU64
  | FillBytes (dest : list byte)
  | Reset
  | GenerateAndSet (i : nat).

Inductive answer : Type :=
  | AWord (w : Z)
  | ABytes (bs : list byte)
  | ADone.

Definition block_call (little : bool) (c : call) : method (BlockRng C) E answer :=
  match c with
  | NextU32 => let! w := block_next_u32 in st_ret (AWord w)
  | NextU64 => let! w := block_next_u64 in st_ret (AWord w)
  | FillBytes dest => let! bs := block_fill_bytes little dest in st_ret (ABytes bs)
  | Reset => let! _ := block_reset in st_ret ADone
  | GenerateAndSet i => let! _ := generate_and_set i in st_ret ADone
  end.

Definition block64_call (little : bool) (c : call) : method (BlockRng64 C) E answer :=
  match c with
  | NextU32 => let! w := block64_next_u32 in st_ret (AWord w)
  | NextU64 => let! w := block64_next_u64 in st_ret (AWord w)
  | FillBytes dest => let! bs := block64_fill_bytes little dest in st_ret (ABytes bs)
  | Reset => let! _ := block64_reset in st_ret ADone
  | GenerateAndSet i => let! _ := block64_generate_and_set i in st_ret ADone
  end.

End block.

(** The answers of a sequence of calls. *)
Fixpoint calls {R E} (f : call → method R E answer) (cs : list call) : method R E (list answer) :=
  match cs with
  | [] => st_ret []
  | c :: cs => let! a := f c in let! l := calls f cs in st_ret (a :: l)
  end.

Fixpoint spec_calls {S} (f : call → S → answer * S) (cs : list call) (s : S) : list answer :=
  match cs with
  | [] => []
  | c :: cs => let '(a, s) := f c s in a :: spec_calls f cs s
  end.

(** Generators over blocks are generators ([try_fill_bytes] never fails). *)
Definition block_rng_core {C E} `{BlockRngCore C E} (little : bool) : RngCore (BlockRng C) E := {|
  next_u32 := block_next_u32;
  next_u64 := block_next_u64;
  fill_bytes := block_fill_bytes little;
  try_fill_bytes := block_fill_bytes little
|}.

Definition block_rng64_core {C E} `{BlockRngCore C E} (little : bool) : RngCore (BlockRng64 C) E := {|
  next_u32 := block64_next_u32;
  next_u64 := block64_next_u64;
  fill_bytes := block64_fill_bytes little;
  try_fill_bytes := block64_fill_bytes little
|}.

Definition block_rng_seedable {C E} `{BlockRngCore C E} `{SeedableRng C} : SeedableRng (BlockRng C) := {|
  seed_len := seed_len (R := C);
  from_seed seed := block_new (E := E) (from_seed seed)
|}.

(** * The stream *)

Section stream.
Context {C E : Type} `{Hcore : BlockRngCore C E} `{Hok : !BlockRngCoreOk C E}.
Variable c0 : C.
Abbreviation len := (results_len (C := C) (E := E)).

(** The core after [b] blocks, and the words of all the blocks. *)
Definition core_after (b : nat) : C := Nat.iter b advanced c0.
Definition word (i : nat) : Z := nth (i `mod` len)%nat (fresh (core_after (i `div` len))) 0.
Definition words (i n : nat) : list Z := word <$> seq i n.

(** How many blocks hold the first [i] words. *)
Definition blocks_for (i : nat) : nat := ((i + len - 1) `div` len)%nat.

(** The specification: how many blocks are made, and the next word to be read. *)
Record reads : Type := mkReads { made : nat; pos : nat }.

Definition advance_by (n : nat) (s : reads) : reads :=
  mkReads (Nat.max (made s) (blocks_for (pos s + n))) (pos s + n).

Definition fill_words (size n : nat) : nat := ((n + size - 1) `div` size)%nat.
Definition fill_spec (size n : nat) (s : reads) : list byte := take n (le_bytes size (words (pos s) (fill_words size n))).

(** [reset] leaves what is made; [generate_and_set(i)] makes a block and starts inside. *)
Definition reset_spec (s : reads) : reads := mkReads (made s) (made s * len).
Definition skip_spec (i : nat) (s : reads) : reads := mkReads (S (made s)) (made s * len + i).

(** A generator that is at a place of the stream. *)
Record reading (r : BlockRng C) (s : reads) : Prop := {
  rd_core : core r = core_after (made s);
  rd_length : length (results r) = len;
  rd_index : (index r ≤ len)%nat;
  rd_pos : (pos s + (len - index r) = made s * len)%nat;
  rd_results : (index r < len)%nat → ∃ b, made s = S b ∧ results r = fresh (core_after b);
}.

Hypothesis len_pos : (0 < len)%nat.

Lemma blocks_for_le i b : (blocks_for i ≤ b)%nat ↔ (i ≤ b * len)%nat.
Proof.
  unfold blocks_for. split; intros Hi.
  - pose proof (Nat.div_mod_eq (i + len - 1) len).
    pose proof (Nat.mod_upper_bound (i + len - 1) len ltac:(lia)). nia.
  - apply Nat.lt_succ_r, Nat.Div0.div_lt_upper_bound. nia.
Qed.

Lemma advance_by_add a b s : advance_by a (advance_by b s) = advance_by (b + a) s.
Proof.
  unfold advance_by. simpl. f_equal; [|lia].
  assert (blocks_for (pos s + b) ≤ blocks_for (pos s + (b + a)))%nat.
  { apply blocks_for_le. pose proof (proj1 (blocks_for_le (pos s + (b + a)) _) (le_n _)). lia. }
  rewrite <- Nat.add_assoc. lia.
Qed.

Lemma advance_by_0 s : (pos s ≤ made s * len)%nat → advance_by 0 s = s.
Proof.
  intros H. unfold advance_by. destruct s as [m p]; simpl in *. rewrite Nat.add_0_r. f_equal.
  apply Nat.max_l. by apply blocks_for_le.
Qed.

Lemma words_app i a b : words i (a + b) = words i a ++ words (i + a) b.
Proof. unfold words. by rewrite seq_app, fmap_app. Qed.

Lemma length_stream_words i n : length (words i n) = n.
Proof. unfold words. by rewrite length_fmap, length_seq. Qed.

(** The words of one block. *)
Lemma fresh_words b i : (i ≤ len)%nat → drop i (fresh (core_after b)) = words (b * len + i) (len - i).
Proof.
  intros Hi. apply list_eq. intros j. rewrite lookup_drop. unfold words. rewrite list_lookup_fmap.
  pose proof (fresh_length (core_after b)) as Hl.
  destruct (decide (j < len - i)%nat) as [Hj|Hj].
  - rewrite lookup_seq_lt by lia. simpl. unfold word.
    replace (b * len + i + j)%nat with ((i + j) + b * len)%nat by lia.
    rewrite Nat.Div0.mod_add, Nat.div_add by lia.
    rewrite Nat.mod_small, Nat.div_small by lia. simpl.
    destruct (lookup_lt_is_Some_2 (fresh (core_after b)) (i + j)) as [x Hx]; [lia|].
    rewrite Hx. f_equal. symmetry. by apply nth_lookup_Some.
  - rewrite lookup_seq_ge by lia. apply lookup_ge_None. lia.
Qed.

Lemma fresh_block b : fresh (core_after b) = words (b * len) len.
Proof. pose proof (fresh_words b 0 ltac:(lia)) as Hf. by rewrite drop_0, Nat.add_0_r, Nat.sub_0_r in Hf. Qed.

Lemma lookup_words i n j : (j < n)%nat → words i n !! j = Some (word (i + j)).
Proof. intros Hj. unfold words. by rewrite list_lookup_fmap, lookup_seq_lt. Qed.

Lemma drop_words i n j : drop j (words i n) = words (i + j) (n - j).
Proof.
  destruct (decide (j ≤ n)%nat).
  - replace n with (j + (n - j))%nat at 1 by lia. rewrite words_app.
    by rewrite drop_app_length' by (by rewrite length_stream_words).
  - replace (n - j)%nat with 0%nat by lia. apply drop_ge. rewrite length_stream_words. lia.
Qed.

(** The block at hand. *)
Lemma reading_block r s :
  reading r s → (index r < len)%nat → ∃ p, pos s = (p + index r)%nat ∧ results r = words p len.
Proof.
  intros Hr Hi. destruct (rd_results _ _ Hr Hi) as (b & Hb & ->). rewrite fresh_block.
  pose proof (rd_pos _ _ Hr). exists (b * len)%nat. split; [rewrite Hb in *; lia|done].
Qed.

Lemma reading_results r s :
  reading r s → drop (index r) (results r) = words (pos s) (len - index r).
Proof.
  intros Hr. destruct (decide (index r < len)%nat) as [Hi|Hi].
  - destruct (reading_block r s Hr Hi) as (p & -> & ->). apply drop_words.
  - pose proof (rd_index _ _ Hr). replace (len - index r)%nat with 0%nat by lia.
    apply drop_ge. rewrite (rd_length _ _ Hr). lia.
Qed.

Lemma reading_bound r s : reading r s → (pos s ≤ made s * len)%nat.
Proof. intros Hr. pose proof (rd_pos _ _ Hr). lia. Qed.

(** Words of the block at hand are read. *)
Lemma reading_read r s n :
  reading r s → (index r + n ≤ len)%nat → reading (set_index (index r + n) r) (advance_by n s).
Proof.
  intros Hr Hn. pose proof (rd_pos _ _ Hr) as Hp.
  assert (Hm : made (advance_by n s) = made s).
  { unfold advance_by. simpl. apply Nat.max_l. apply blocks_for_le. lia. }
  split; rewrite ?Hm; simpl; [apply Hr|apply Hr|lia|lia|].
  intros Hi. apply (rd_results _ _ Hr). lia.
Qed.

(** A new block is made. *)
Lemma reading_generate r s i :
  reading r s → (i ≤ len)%nat →
  ∃ r', (let! _ := core_generate in st_set (set_index i)) r = (Ok (E := E) tt, r') ∧ reading r' (skip_spec i s) ∧ index r' = i ∧
    results r' = words (made s * len) len.
Proof.
  intros Hr Hi. unfold core_generate, st_bind. rewrite generate_fresh by apply Hr.
  eexists. split_and!; [done| |done|by rewrite (rd_core _ _ Hr), <- fresh_block]. split; simpl.
  - by rewrite (rd_core _ _ Hr).
  - rewrite fresh_length. done.
  - done.
  - lia.
  - intros _. exists (made s). by rewrite (rd_core _ _ Hr).
Qed.

Lemma reading_generate_and_set r s i :
  reading r s → (i < len)%nat →
  ∃ r', generate_and_set (E := E) i r = (Ok tt, r') ∧ reading r' (skip_spec i s) ∧ index r' = i ∧
    results r' = words (made s * len) len.
Proof.
  intros Hr Hi. unfold generate_and_set. rewrite st_bind_get, (rd_length _ _ Hr), bool_decide_true by done.
  apply reading_generate; [done|lia].
Qed.

(** Skipping to a new block from the end of the last is reading on. *)
Lemma skip_at_end r s i :
  reading r s → index r = len → (0 < i ≤ len)%nat → skip_spec i s = advance_by i s.
Proof.
  intros Hr He Hi. pose proof (rd_pos _ _ Hr) as Hp. unfold skip_spec, advance_by. f_equal; [|lia].
  assert (pos s = made s * len)%nat by lia.
  assert (blocks_for (pos s + i) ≤ S (made s))%nat by (apply blocks_for_le; lia).
  assert (¬ blocks_for (pos s + i) ≤ made s)%nat by (rewrite blocks_for_le; lia). lia.
Qed.

Lemma advance_in_block s n i :
  (i + n ≤ len)%nat → advance_by n (skip_spec i s) = skip_spec (i + n) s.
Proof.
  intros Hi. unfold advance_by, skip_spec. simpl. f_equal; [|lia].
  apply Nat.max_l, blocks_for_le. lia.
Qed.

Lemma reading_new : reading (block_new (E := E) c0) (mkReads 0 0).
Proof.
  split; simpl; [done|by rewrite length_replicate|done|lia|lia].
Qed.

Lemma reading_reset r s :
  reading r s → reading (block_reset (E := E) r).2 (reset_spec s).
Proof.
  intros Hr. split; simpl; rewrite ?(rd_length _ _ Hr); [apply Hr|done|lia|lia|lia].
Qed.

(** * Every call reads on *)

(** A word of a list of words at hand. *)
Lemma at_words i n j : (j < n)%nat → at_index (E := E) (words i n) j = Ok (word (i + j)).
Proof. intros Hj. unfold at_index. by rewrite lookup_words. Qed.

Definition u64_at (i : nat) : Z := Z.lor (Z.shiftl (word (S i)) 32) (word i).

Lemma block_read_u64_words i n j : (j + 2 ≤ n)%nat → block_read_u64 (E := E) (words i n) j = Ok (u64_at (i + j)).
Proof.
  intros Hj. unfold block_read_u64. rewrite slice_Ok by (rewrite ?length_stream_words; lia). simpl.
  unfold at_index. rewrite !lookup_take_lt, drop_words, !lookup_words by lia. simpl. unfold u64_at.
  do 2 f_equal; [do 2 f_equal|f_equal]; lia.
Qed.

Lemma block_next_u32_reads r s :
  reading r s →
  ∃ r', block_next_u32 (E := E) r = (Ok (word (pos s)), r') ∧ reading r' (advance_by 1 s).
Proof.
  intros Hr. unfold block_next_u32. rewrite st_bind_get. simpl. rewrite (rd_length _ _ Hr).
  pose proof (rd_index _ _ Hr). pose proof (rd_pos _ _ Hr).
  case_bool_decide as Hi.
  - destruct (reading_generate_and_set r s 0 Hr ltac:(lia)) as (r1 & E1 & Hr1 & Hi1 & Hx).
    rewrite (st_bind_ok _ _ _ _ _ E1).
    erewrite st_bind_try by (rewrite Hx; apply at_words; lia).
    rewrite st_bind_set, Hi1. unfold st_ret. eexists. split; [do 3 f_equal; lia|].
    rewrite <- (skip_at_end r s 1) by (done || lia).
    pose proof (reading_read r1 _ 1 Hr1 ltac:(lia)) as Hr2. rewrite Hi1 in Hr2.
    by rewrite advance_in_block in Hr2 by (simpl; lia).
  - rewrite (st_bind_ok _ _ _ tt r) by done.
    destruct (reading_block r s Hr) as (p & Hp & Hx); [lia|].
    erewrite st_bind_try by (rewrite Hx; apply at_words; lia).
    rewrite st_bind_set, <- Hp. eexists. split; [done|].
    replace (S (index r)) with (index r + 1)%nat by lia. apply reading_read; [done|lia].
Qed.

Lemma block_next_u64_reads r s :
  (3 ≤ len)%nat → reading r s →
  ∃ r', block_next_u64 (E := E) r = (Ok (u64_at (pos s)), r') ∧ reading r' (advance_by 2 s).
Proof.
  intros Hlen Hr. unfold block_next_u64. rewrite st_bind_get. simpl. rewrite (rd_length _ _ Hr).
  pose proof (rd_pos _ _ Hr). pose proof (rd_index _ _ Hr).
  rewrite bool_decide_false by lia.
  case_bool_decide as H1; [|case_bool_decide as H2].
  - destruct (reading_block r s Hr) as (p & Hp & Hx); [lia|].
    rewrite st_bind_set. unfold st_try. simpl. rewrite Hx, block_read_u64_words, <- Hp by lia.
    eexists. split; [done|]. apply reading_read; [done|lia].
  - destruct (reading_generate_and_set r s 2 Hr ltac:(lia)) as (r1 & E1 & Hr1 & Hi1 & Hx).
    rewrite (st_bind_ok _ _ _ _ _ E1). unfold st_try. rewrite Hx, block_read_u64_words by lia.
    rewrite <- (skip_at_end r s 2) by (done || lia). eexists. split; [do 3 f_equal; lia|done].
  - destruct (reading_block r s Hr) as (p & Hp & Hx); [lia|].
    erewrite st_bind_try by (rewrite Hx; apply at_words; lia).
    destruct (reading_generate_and_set r s 1 Hr ltac:(lia)) as (r1 & E1 & Hr1 & Hi1 & Hy).
    rewrite (st_bind_ok _ _ _ _ _ E1).
    erewrite st_bind_try by (rewrite Hy; apply at_words; lia).
    unfold st_ret, u64_at. eexists. split; [do 3 f_equal; [do 2 f_equal|f_equal]; lia|].
    assert (advance_by 2 s = skip_spec 1 s) as ->; [|done].
    unfold advance_by, skip_spec. f_equal; [|lia].
    assert (blocks_for (pos s + 2) ≤ S (made s))%nat by (apply blocks_for_le; lia).
    assert (¬ blocks_for (pos s + 2) ≤ made s)%nat by (rewrite blocks_for_le; lia). lia.
Qed.

Lemma fill_words_bounds size n :
  (0 < size)%nat → (n ≤ size * fill_words size n)%nat ∧ (∀ k, n ≤ size * k → fill_words size n ≤ k)%nat.
Proof.
  intros Hs. unfold fill_words. pose proof (Nat.div_mod_eq (n + size - 1) size).
  pose proof (Nat.mod_upper_bound (n + size - 1) size ltac:(lia)).
  split; [nia|]. intros k Hk. apply Nat.lt_succ_r, Nat.Div0.div_lt_upper_bound. nia.
Qed.

Lemma fill_words_add size m n : (0 < size)%nat → fill_words size (size * m + n) = (m + fill_words size n)%nat.
Proof.
  intros Hs. destruct (fill_words_bounds size n Hs) as [H1 H2].
  destruct (fill_words_bounds size (size * m + n) Hs) as [H3 H4].
  apply Nat.le_antisymm; [apply H4; nia|].
  assert (m ≤ fill_words size (size * m + n))%nat by nia.
  enough (fill_words size n ≤ fill_words size (size * m + n) - m)%nat by lia. apply H2. nia.
Qed.

(** More words than are needed do not matter. *)
Lemma fill_enough size p n k :
  (0 < size)%nat → (n ≤ size * k)%nat →
  take n (le_bytes size (words p k)) = take n (le_bytes size (words p (fill_words size n))).
Proof.
  intros Hs Hk. destruct (fill_words_bounds size n Hs) as [H1 H2]. specialize (H2 k Hk).
  replace k with (fill_words size n + (k - fill_words size n))%nat by lia.
  rewrite words_app, le_bytes_app, take_app_le; [done|]. by rewrite length_le_bytes, length_stream_words.
Qed.

Lemma fill_split size p m n :
  (0 < size)%nat →
  take (size * m + n) (le_bytes size (words p (fill_words size (size * m + n))))
  = le_bytes size (words p m) ++ take n (le_bytes size (words (p + m) (fill_words size n))).
Proof.
  intros Hs. rewrite fill_words_add, words_app, le_bytes_app by done.
  by rewrite take_app_add' by (by rewrite length_le_bytes, length_stream_words).
Qed.

Lemma fill_words_0 size : (0 < size)%nat → fill_words size 0 = 0%nat.
Proof. intros. unfold fill_words. apply Nat.div_small. lia. Qed.

(** One round: what it copies and what the others do make up the whole. *)
Lemma fill_round size p m n :
  (0 < size)%nat → (0 < m)%nat → (0 < n)%nat →
  let b := Nat.min (m * size) n in
  (0 < fill_words size b ≤ m)%nat ∧
  (fill_words size b + fill_words size (n - b) = fill_words size n)%nat ∧
  take b (le_bytes size (words p m))
    ++ take (n - b) (le_bytes size (words (p + fill_words size b) (fill_words size (n - b))))
  = take n (le_bytes size (words p (fill_words size n))).
Proof.
  intros Hs Hm Hn b. destruct (fill_words_bounds size b Hs) as [Hc1 Hc2].
  assert (Hb : (0 < b)%nat) by nia. specialize (Hc2 m).
  split; [nia|]. destruct (decide (n ≤ m * size)%nat) as [Hd|Hd].
  - assert (b = n) as -> by lia. rewrite Nat.sub_diag, take_0, app_nil_r, fill_words_0 by done.
    split; [lia|]. apply fill_enough; lia.
  - assert (E0 : fill_words size b = m).
    { replace b with (size * m + 0)%nat by lia. rewrite fill_words_add, fill_words_0 by done. lia. }
    assert (Eb : b = (size * m)%nat) by lia. clearbody b. rewrite E0, Eb.
    remember (n - size * m)%nat as n' eqn:En'. assert (n = size * m + n')%nat as -> by lia.
    rewrite fill_split, fill_words_add by done. split; [lia|].
    f_equal. apply take_ge. rewrite length_le_bytes, length_stream_words. lia.
Qed.

(** [gen] makes a new block when the last is read. *)
Definition makes_block (gen : method (BlockRng C) E unit) : Prop := ∀ r s,
  reading r s → index r = len →
  ∃ r', gen r = (Ok tt, r') ∧ reading r' (skip_spec 0 s) ∧ index r' = 0%nat.

(** Some word is at hand before a round copies. *)
Lemma round_ready gen r s :
  makes_block gen → reading r s →
  ∃ r1 m1, (if bool_decide (len ≤ index r)%nat then gen else st_ret tt) r = (Ok tt, r1) ∧
    reading r1 (mkReads m1 (pos s)) ∧ (index r1 < len)%nat ∧
    (∀ n, (0 < n)%nat → advance_by n (mkReads m1 (pos s)) = advance_by n s).
Proof.
  intros Hg Hr. pose proof (rd_index _ _ Hr). pose proof (rd_pos _ _ Hr). case_bool_decide as Hi.
  - destruct (Hg r s Hr) as (r1 & E1 & Hr1 & Hi1); [lia|].
    exists r1, (S (made s)). split; [done|]. unfold skip_spec in Hr1.
    replace (made s * len + 0)%nat with (pos s) in Hr1 by lia. split_and!; [done|lia|].
    intros n Hn. unfold advance_by. simpl. f_equal.
    assert (¬ blocks_for (pos s + n) ≤ made s)%nat by (rewrite blocks_for_le; lia). lia.
  - exists r, (made s). destruct s. split_and!; [done|done|lia|done].
Qed.

(** A stop of the loop. *)
Lemma fill_stop size r s (dest : list byte) :
  (0 < size)%nat → reading r s →
  reading r (advance_by (fill_words size 0) s) ∧ take (length dest) dest ++ fill_spec size 0 s = dest.
Proof.
  intros Hs Hr. unfold fill_spec. rewrite fill_words_0, take_0, app_nil_r, take_ge by done.
  by rewrite advance_by_0 by (by apply (reading_bound r)).
Qed.

Lemma fill_loop_reads little size gen fuel r s read_len dest :
  (0 < size)%nat → makes_block gen → reading r s →
  (read_len ≤ length dest)%nat → (length dest - read_len ≤ fuel)%nat →
  let n := (length dest - read_len)%nat in
  ∃ r', fill_loop little size gen fuel read_len dest r = (Ok (take read_len dest ++ fill_spec size n s), r') ∧
    reading r' (advance_by (fill_words size n) s).
Proof.
  intros Hs Hg. revert r s read_len dest. induction fuel as [|fuel IH]; intros r s read_len dest Hr Hl Hf n.
  - assert (read_len = length dest) as -> by lia. simpl. rewrite bool_decide_false by lia.
    unfold n. rewrite Nat.sub_diag. destruct (fill_stop size r s dest Hs Hr) as [H1 H2]. rewrite H2. by exists r.
  - simpl. case_bool_decide as Hd.
    2:{ assert (read_len = length dest) as -> by lia. unfold n. rewrite Nat.sub_diag.
        destruct (fill_stop size r s dest Hs Hr) as [H1 H2]. rewrite H2. by exists r. }
    rewrite st_bind_get. simpl. rewrite (rd_length _ _ Hr).
    destruct (round_ready gen r s Hg Hr) as (r1 & m1 & E1 & Hr1 & Hi1 & Hadv).
    rewrite (st_bind_ok _ _ _ _ _ E1). set (s1 := mkReads m1 (pos s)) in *.
    set (m := (len - index r1)%nat).
    rewrite (st_bind_try _ _ _ (words (pos s) m)).
    2:{ rewrite (rd_length _ _ Hr1), slice_Ok by (rewrite ?(rd_length _ _ Hr1); lia).
        rewrite (reading_results r1 s1 Hr1), take_ge by (rewrite length_stream_words; lia). done. }
    erewrite st_bind_try by (by apply fill_via_chunks_Ok). simpl.
    rewrite st_bind_set, length_stream_words, length_drop. fold n.
    destruct (fill_round size (pos s) m n Hs ltac:(lia) ltac:(lia)) as (Hc & Hsum & Hbytes).
    set (b := Nat.min (m * size) n) in *. fold (fill_words size b).
    pose proof (reading_read r1 s1 (fill_words size b) Hr1 ltac:(lia)) as Hr2.
    set (B := take b (le_bytes size (words (pos s) m))) in *.
    assert (HB : length B = b) by (unfold B; rewrite length_take, length_le_bytes, length_stream_words; lia).
    set (dest' := take read_len dest ++ splice 0 B (drop read_len dest)).
    assert (Hlen : length dest' = length dest) by (unfold dest'; lens).
    assert (Htake : take (read_len + b) dest' = take read_len dest ++ B).
    { unfold dest', splice. rewrite take_0. simpl. rewrite take_app_add' by lens. by rewrite take_app_length'. }
    assert (Hb : (0 < b)%nat) by nia.
    destruct (IH _ _ (read_len + b)%nat dest' Hr2) as (r' & E' & Hr'); [lia|lia|].
    rewrite Hlen in E', Hr'. replace (length dest - (read_len + b))%nat with (n - b)%nat in * by lia.
    exists r'. rewrite E', Htake, <- app_assoc. unfold fill_spec in *. simpl. rewrite Hbytes. split; [done|].
    rewrite advance_by_add, Hsum, Hadv in Hr' by lia. done.
Qed.

(** * BlockRng64 *)

(** [half] says that the upper half of the word before is still to be read. *)
Record reading64 (r : BlockRng64 C) (s : reads) (half : bool) : Prop := {
  rd_base : reading (base r) s;
  rd_half : half_used r = half;
  rd_last : half = true → ∃ p, results (base r) = words p len ∧ pos s = (p + index (base r))%nat ∧ (0 < index (base r))%nat;
}.

Lemma makes_block_set : makes_block (generate_and_set (E := E) 0).
Proof.
  intros r s Hr _. destruct (reading_generate_and_set r s 0 Hr) as (r' & E1 & H1 & H2 & _); [done|]. eauto.
Qed.

Lemma makes_block_regenerate : makes_block (regenerate (E := E)).
Proof.
  intros r s Hr _. destruct (reading_generate r s 0 Hr) as (r' & E1 & H1 & H2 & _); [lia|]. eauto.
Qed.

Lemma on_base_ok {A} (m : method (BlockRng C) E A) r x b :
  m (base r) = (x, b) → on_base m r = (x, mkBlockRng64 b (half_used r)).
Proof. intros Hm. unfold on_base. by rewrite Hm. Qed.

Lemma block64_next_u64_reads r s half :
  reading64 r s half →
  ∃ r', block64_next_u64 (E := E) r = (Ok (word (pos s)), r') ∧ reading64 r' (advance_by 1 s) false.
Proof.
  intros [Hr Hh _]. unfold block64_next_u64. rewrite st_bind_get. simpl. rewrite (rd_length _ _ Hr).
  destruct (round_ready _ _ _ makes_block_regenerate Hr) as (b1 & m1 & E1 & Hr1 & Hi1 & Hadv).
  rewrite (st_bind_ok _ _ _ tt (mkBlockRng64 b1 (half_used r))).
  2:{ case_bool_decide; [by apply on_base_ok|]. injection E1 as <-. by destruct r. }
  destruct (reading_block b1 _ Hr1 Hi1) as (p & Hp & Hx).
  erewrite st_bind_ok. 2:{ apply on_base_ok. unfold st_try. simpl. by rewrite Hx, at_words by lia. }
  rewrite (st_bind_ok _ _ _ tt (mkBlockRng64 (set_index (S (index b1)) b1) (half_used r))) by done.
  rewrite st_bind_set. simpl in Hp. rewrite <- Hp. unfold set_half_used. simpl.
  eexists. split; [done|]. split; simpl; [|done|done].
  rewrite <- (Hadv 1%nat) by lia. replace (S (index b1)) with (index b1 + 1)%nat by lia.
  apply reading_read; [done|lia].
Qed.

Lemma block64_next_u32_half r s :
  reading64 r s true →
  ∃ r', block64_next_u32 (E := E) r = (Ok (as_u32 (Z.shiftr (word (pos s - 1)) 32)), r') ∧ reading64 r' s false.
Proof.
  intros [Hr Hh Hl]. destruct (Hl eq_refl) as (p & Hx & Hp & Hi). pose proof (rd_index _ _ Hr).
  unfold block64_next_u32. rewrite st_bind_get. rewrite Hh, (rd_length _ _ Hr). cbv beta iota. cbn [Nat.b2n].
  rewrite bool_decide_false by lia. rewrite bool_decide_false by lia.
  rewrite (st_bind_ok _ _ _ (index (base r) - 1)%nat r) by done.
  rewrite st_bind_get, st_bind_set, st_bind_get. unfold set_half_used. simpl. rewrite Hh. simpl.
  rewrite (st_bind_ok _ _ _ tt (mkBlockRng64 (set_index (index (base r) + 0) (base r)) false)) by done.
  erewrite st_bind_ok. 2:{ apply on_base_ok. unfold st_try. simpl. by rewrite Hx, at_words by lia. }
  eexists. split; [unfold st_ret; simpl; do 5 f_equal; lia|].
  split; simpl; [|done|done].
  rewrite Nat.add_0_r. destruct (base r). exact Hr.
Qed.

Lemma block64_next_u32_new r s :
  reading64 r s false →
  ∃ r', block64_next_u32 (E := E) r = (Ok (as_u32 (word (pos s))), r') ∧ reading64 r' (advance_by 1 s) true.
Proof.
  intros [Hr Hh _]. unfold block64_next_u32. rewrite st_bind_get. rewrite Hh, (rd_length _ _ Hr). cbv beta iota. cbn [Nat.b2n].
  rewrite bool_decide_false by lia. rewrite Nat.sub_0_r.
  destruct (round_ready _ _ _ makes_block_regenerate Hr) as (b1 & m1 & E1 & Hr1 & Hi1 & Hadv).
  destruct (reading_block b1 _ Hr1 Hi1) as (p & Hp & Hx). simpl in Hp.
  rewrite (st_bind_ok _ _ _ (index b1) (mkBlockRng64 b1 false)).
  2:{ case_bool_decide as Hc.
      - rewrite (st_bind_ok _ _ _ _ _ (on_base_ok _ _ _ _ E1)), st_bind_set.
        assert (index b1 = 0%nat) as ->; [|done].
        revert E1. unfold regenerate, core_generate, st_bind, st_set.
        destruct (generate _ _) as [[]]; naive_solver.
      - injection E1 as <-. destruct r as [b h]. simpl in Hh. by subst h. }
  rewrite st_bind_get, st_bind_set, st_bind_get. unfold set_half_used. simpl.
  rewrite (st_bind_ok _ _ _ tt (mkBlockRng64 (set_index (index b1 + 1) b1) true)) by done.
  erewrite st_bind_ok. 2:{ apply on_base_ok. unfold st_try. simpl. by rewrite Hx, at_words by lia. }
  rewrite <- Hp. eexists. split; [done|].
  split; simpl; [|done|intros _; exists p; simpl; split_and!; [done|lia|lia]].
  rewrite <- (Hadv 1%nat) by lia. apply reading_read; [done|lia].
Qed.

(** * Sequences of calls *)

Definition spec_call (c : call) (s : reads) : answer * reads :=
  match c with
  | NextU32 => (AWord (word (pos s)), advance_by 1 s)
  | NextU64 => (AWord (u64_at (pos s)), advance_by 2 s)
  | FillBytes dest => (ABytes (fill_spec 4 (length dest) s), advance_by (fill_words 4 (length dest)) s)
  | Reset => (ADone, reset_spec s)
  | GenerateAndSet i => (ADone, skip_spec i s)
  end.

Definition spec_call64 (c : call) (sh : reads * bool) : answer * (reads * bool) :=
  let '(s, half) := sh in
  match c with
  | NextU32 =>
      if half : bool then (AWord (as_u32 (Z.shiftr (word (pos s - 1)) 32)), (s, false))
      else (AWord (as_u32 (word (pos s))), (advance_by 1 s, true))
  | NextU64 => (AWord (word (pos s)), (advance_by 1 s, false))
  | FillBytes dest => (ABytes (fill_spec 8 (length dest) s), (advance_by (fill_words 8 (length dest)) s, false))
  | Reset => (ADone, (reset_spec s, false))
  | GenerateAndSet i => (ADone, (skip_spec i s, false))
  end.

(** The caller keeps to the assertion of [generate_and_set]. *)
Definition call_ok (c : call) : Prop := match c with GenerateAndSet i => (i < len)%nat | _ => True end.

Lemma block_call_reads little c r s :
  (3 ≤ len)%nat → call_ok c → reading r s →
  ∃ r', block_call (E := E) little c r = (Ok (spec_call c s).1, r') ∧ reading r' (spec_call c s).2.
Proof.
  intros Hlen Hc Hr. destruct c as [| |dest| |i]; simpl.
  - destruct (block_next_u32_reads r s Hr) as (r' & E1 & H1). rewrite (st_bind_ok _ _ _ _ _ E1). eauto.
  - destruct (block_next_u64_reads r s Hlen Hr) as (r' & E1 & H1). rewrite (st_bind_ok _ _ _ _ _ E1). eauto.
  - destruct (fill_loop_reads little 4 _ (length dest) r s 0 dest ltac:(lia) makes_block_set Hr) as (r' & E1 & H1);
      [lia|lia|]. rewrite Nat.sub_0_r in *. rewrite (st_bind_ok _ _ _ _ _ E1). eauto.
  - rewrite (st_bind_ok _ _ r tt (block_reset (E := E) r).2) by done.
    eexists. split; [done|]. by apply reading_reset.
  - destruct (reading_generate_and_set r s i Hr Hc) as (r' & E1 & H1 & _). rewrite (st_bind_ok _ _ _ _ _ E1). eauto.
Qed.

Lemma block64_call_reads little c r s half :
  call_ok c → reading64 r s half →
  ∃ r', block64_call (E := E) little c r = (Ok (spec_call64 c (s, half)).1, r') ∧
    reading64 r' (spec_call64 c (s, half)).2.1 (spec_call64 c (s, half)).2.2.
Proof.
  intros Hc Hr. pose proof Hr as [Hb Hh _]. destruct c as [| |dest| |i]; simpl.
  - destruct half.
    + destruct (block64_next_u32_half r s Hr) as (r' & E1 & H1). rewrite (st_bind_ok _ _ _ _ _ E1). eauto.
    + destruct (block64_next_u32_new r s Hr) as (r' & E1 & H1). rewrite (st_bind_ok _ _ _ _ _ E1). eauto.
  - destruct (block64_next_u64_reads r s half Hr) as (r' & E1 & H1). rewrite (st_bind_ok _ _ _ _ _ E1). eauto.
  - destruct (fill_loop_reads little 8 _ (length dest) (base r) s 0 dest ltac:(lia) makes_block_regenerate Hb)
      as (r' & E1 & H1); [lia|lia|]. rewrite Nat.sub_0_r in *.
    erewrite st_bind_ok.
    2:{ unfold block64_fill_bytes. rewrite st_bind_set. by apply on_base_ok. }
    eexists. split; [done|]. by split.
  - erewrite st_bind_ok.
    2:{ unfold block64_reset. erewrite st_bind_ok by (by apply on_base_ok). done. }
    eexists. split; [done|]. split; [|done|done]. by apply (reading_reset (base r) s).
  - destruct (reading_generate_and_set (base r) s i Hb Hc) as (r' & E1 & H1 & _).
    erewrite st_bind_ok.
    2:{ unfold block64_generate_and_set. erewrite st_bind_ok by (apply on_base_ok, E1). done. }
    eexists. split; [done|]. by split.
Qed.

Lemma block_calls_reads little cs r s :
  (3 ≤ len)%nat → Forall call_ok cs → reading r s →
  (calls (block_call (E := E) little) cs r).1 = Ok (spec_calls spec_call cs s).
Proof.
  intros Hlen Hcs. revert r s. induction Hcs as [|c cs Hc _ IH]; intros r s Hr; [done|]. simpl.
  destruct (block_call_reads little c r s Hlen Hc Hr) as (r' & E1 & Hr'). rewrite (st_bind_ok _ _ _ _ _ E1).
  specialize (IH _ _ Hr'). unfold st_bind. destruct (calls _ cs r') as [y r'']. simpl in *. subst y. simpl.
  by destruct (spec_call c s).
Qed.

Lemma block64_calls_reads little cs r s half :
  Forall call_ok cs → reading64 r s half →
  (calls (block64_call (E := E) little) cs r).1 = Ok (spec_calls spec_call64 cs (s, half)).
Proof.
  intros Hcs. revert r s half. induction Hcs as [|c cs Hc _ IH]; intros r s half Hr; [done|].
  cbn [calls spec_calls].
  destruct (block64_call_reads little c r s half Hc Hr) as (r' & E1 & Hr'). rewrite (st_bind_ok _ _ _ _ _ E1).
  destruct (spec_call64 c (s, half)) as [a [s' half']]. simpl in *.
  specialize (IH _ _ _ Hr'). unfold st_bind. destruct (calls _ cs r') as [y r'']. simpl in *. by subst y.
Qed.

(** A core with blocks of one or two words: [next_u64] asserts that there are three. *)
Lemma block_next_u64_small r s :
  (len ≤ 2)%nat → reading r s → index r = len → (block_next_u64 (E := E) r).1 = Panic.
Proof.
  intros Hlen Hr Hi. unfold block_next_u64. rewrite st_bind_get. cbv beta iota. rewrite (rd_length _ _ Hr), Hi.
  rewrite bool_decide_false by lia. rewrite bool_decide_false by lia. rewrite bool_decide_true by lia.
  unfold generate_and_set. unfold st_bind at 1 2. unfold st_get. rewrite (rd_length _ _ Hr).
  by rewrite bool_decide_false by lia.
Qed.

End stream.
