(* ===== verification/RandPcg.v ===== *)
(** The PCG generators of rand (rand/rand_pcg/src/pcg64.rs, pcg128.rs, pcg128cm.rs)
    and the small generators of the crate rand (src/rngs/mock.rs,
    xoshiro256plusplus.rs).

    All PCG generators step a linear congruential generator [s * m + c] modulo a power
    of two; [advance] makes any number of steps by squaring.  [affine] is the view of a
    pair [(m, c)] as such a step. *)
From Stdlib Require Import ZArith Lia Strings.Byte.
From stdpp Require Import base list numbers option.
From coqutil Require Import Z.PushPullMod.
From S2P Require Import Prelude StateMonad Words RandCore.
#[local] Open Scope Z_scope.

(** * Affine steps modulo [2 ^ w] *)

Definition affine (w : Z) (mp : Z * Z) (s : Z) : Z := wrapping_add w (wrapping_mul w s mp.1) mp.2.

(** The loop of [advance], which is the same for all generators up to the width:
    at most [fuel] rounds. *)
Fixpoint advance_loop (w : Z) (fuel : nat) (acc cur : Z * Z) (mdelta : Z) : Z * Z :=
  match fuel with
  | O => acc
  | S fuel =>
      if bool_decide (0 < mdelta) then
        let '(acc_mult, acc_plus) := acc in
        let '(cur_mult, cur_plus) := cur in
        let acc :=
          if bool_decide (Z.land mdelta 1 ≠ 0)
          then (wrapping_mul w acc_mult cur_mult, wrapping_add w (wrapping_mul w acc_plus cur_mult) cur_plus)
          else (acc_mult, acc_plus) in
        let cur :=
          (wrapping_mul w cur_mult cur_mult, wrapping_mul w (wrapping_add w cur_mult 1) cur_plus) in
        advance_loop w fuel acc cur (Z.quot mdelta 2)
      else acc
  end.

Definition advance_state (w : Z) (mult plus delta state : Z) : Z :=
  let '(acc_mult, acc_plus) := advance_loop w (Z.to_nat w) (1, 0) (mult, plus) delta in
  wrapping_add w (wrapping_mul w acc_mult state) acc_plus.

(** * Lcg64Xsh32 *)

Record Lcg64Xsh32 : Type := mkLcg64Xsh32 { l64_state : Z; l64_increment : Z }.

Definition MULTIPLIER_64 : Z := 6364136223846793005.

Definition l64_step (r : Lcg64Xsh32) : Lcg64Xsh32 :=
  mkLcg64Xsh32 (wrapping_add 64 (wrapping_mul 64 (l64_state r) MULTIPLIER_64) (l64_increment r)) (l64_increment r).

Definition l64_advance (delta : Z) (r : Lcg64Xsh32) : Lcg64Xsh32 :=
  mkLcg64Xsh32 (advance_state 64 MULTIPLIER_64 (l64_increment r) delta (l64_state r)) (l64_increment r).

Definition l64_from_state_incr (state increment : Z) : Lcg64Xsh32 :=
  l64_step (mkLcg64Xsh32 (wrapping_add 64 state increment) increment).

Definition l64_new (state stream : Z) : Lcg64Xsh32 :=
  l64_from_state_incr state (Z.lor (wrapping_shl 64 stream 1) 1).

(** The output function XSH RR. *)
Definition l64_output (state : Z) : Z :=
  let rot := as_u32 (Z.shiftr state 59) in
  let xsh := as_u32 (Z.shiftr (Z.lxor (Z.shiftr state 18) state) 27) in
  rotate_right 32 xsh rot.

Definition l64_next_u32 {E} : method Lcg64Xsh32 E Z := λ r, (Ok (l64_output (l64_state r)), l64_step r).

(** [read_u64_into] of a seed of the right length. *)
Definition seed_words (n : nat) (seed : list byte) : list Z := from_le <$> chunks_exact n 8 seed.
Definition seed_word (seed : list byte) (i : nat) : Z := nth i (seed_words (length seed / 8) seed) 0.

#[export] Instance l64_seedable : SeedableRng Lcg64Xsh32 := {
  seed_len := 16;
  from_seed seed := l64_from_state_incr (seed_word seed 0) (Z.lor (seed_word seed 1) 1);
}.

(** [next_u64] and [fill_bytes] are those of impls.rs. *)
Definition word32_core {R E} (next : method R E Z) : RngCore R E :=
  let u64 := next_u64_via_u32 next in
  {| next_u32 := next; next_u64 := u64;
     fill_bytes := fill_bytes_via_next next u64; try_fill_bytes := fill_bytes_via_next next u64 |}.

#[export] Instance l64_core {E} : RngCore Lcg64Xsh32 E := word32_core l64_next_u32.

(** * Generators that make 64-bit words *)

Definition word64_core {R E} (low : Z → Z) (next : method R E Z) : RngCore R E :=
  let u32 := let! x := next in st_ret (low x) in
  {| next_u32 := u32; next_u64 := next;
     fill_bytes := fill_bytes_via_next u32 next; try_fill_bytes := fill_bytes_via_next u32 next |}.

(** A [u128] of a seed. *)
Definition seed_u128 (seed : list byte) (i : nat) : Z :=
  Z.lor (seed_word seed i) (Z.shiftl (seed_word seed (S i)) 64).

Definition MULTIPLIER_128 : Z := 0x2360ED051FC65DA44385DF649FCCF645.

Definition as_u64 (z : Z) : Z := z `mod` 2 ^ 64.

Definition output_xsl_rr (state : Z) : Z :=
  let rot := as_u32 (Z.shiftr state 122) in
  let xsl := Z.lxor (as_u64 (Z.shiftr state 64)) (as_u64 state) in
  rotate_right 64 xsl rot.

(** * Lcg128Xsl64 *)

Record Lcg128Xsl64 : Type := mkLcg128Xsl64 { l128_state : Z; l128_increment : Z }.

Definition l128_step (r : Lcg128Xsl64) : Lcg128Xsl64 :=
  mkLcg128Xsl64 (wrapping_add 128 (wrapping_mul 128 (l128_state r) MULTIPLIER_128) (l128_increment r)) (l128_increment r).

Definition l128_advance (delta : Z) (r : Lcg128Xsl64) : Lcg128Xsl64 :=
  mkLcg128Xsl64 (advance_state 128 MULTIPLIER_128 (l128_increment r) delta (l128_state r)) (l128_increment r).

Definition l128_from_state_incr (state increment : Z) : Lcg128Xsl64 :=
  l128_step (mkLcg128Xsl64 (wrapping_add 128 state increment) increment).

Definition l128_new (state stream : Z) : Lcg128Xsl64 :=
  l128_from_state_incr state (Z.lor (wrapping_shl 128 stream 1) 1).

Definition l128_next_u64 {E} : method Lcg128Xsl64 E Z := λ r,
  let r := l128_step r in (Ok (output_xsl_rr (l128_state r)), r).

#[export] Instance l128_seedable : SeedableRng Lcg128Xsl64 := {
  seed_len := 32;
  from_seed seed := l128_from_state_incr (seed_u128 seed 0) (Z.lor (seed_u128 seed 2) 1);
}.

#[export] Instance l128_core {E} : RngCore Lcg128Xsl64 E := word64_core as_u32 l128_next_u64.

(** * Mcg128Xsl64 *)

Record Mcg128Xsl64 : Type := mkMcg128Xsl64 { m128_state : Z }.

Definition m128_advance (delta : Z) (r : Mcg128Xsl64) : Mcg128Xsl64 :=
  mkMcg128Xsl64 (advance_state 128 MULTIPLIER_128 0 delta (m128_state r)).

Definition m128_new (state : Z) : Mcg128Xsl64 := mkMcg128Xsl64 (Z.lor state 1).

Definition m128_next_u64 {E} : method Mcg128Xsl64 E Z := λ r,
  let r := mkMcg128Xsl64 (wrapping_mul 128 (m128_state r) MULTIPLIER_128) in
  (Ok (output_xsl_rr (m128_state r)), r).

#[export] Instance m128_seedable : SeedableRng Mcg128Xsl64 := {
  seed_len := 16;
  from_seed seed := m128_new (seed_u128 seed 0);
}.

#[export] Instance m128_core {E} : RngCore Mcg128Xsl64 E := word64_core as_u32 m128_next_u64.

(** * Lcg128CmDxsm64 *)

Record Lcg128CmDxsm64 : Type := mkLcg128CmDxsm64 { cm_state : Z; cm_increment : Z }.

Definition MULTIPLIER_CM : Z := 15750249268501108917.

Definition output_dxsm (state : Z) : Z :=
  let hi := as_u64 (Z.shiftr state 64) in
  let lo := as_u64 state in
  let lo := Z.lor lo 1 in
  let hi := Z.lxor hi (Z.shiftr hi 32) in
  let hi := wrapping_mul 64 hi MULTIPLIER_CM in
  let hi := Z.lxor hi (Z.shiftr hi 48) in
  wrapping_mul 64 hi lo.

Definition cm_step (r : Lcg128CmDxsm64) : Lcg128CmDxsm64 :=
  mkLcg128CmDxsm64 (wrapping_add 128 (wrapping_mul 128 (cm_state r) MULTIPLIER_CM) (cm_increment r)) (cm_increment r).

Definition cm_advance (delta : Z) (r : Lcg128CmDxsm64) : Lcg128CmDxsm64 :=
  mkLcg128CmDxsm64 (advance_state 128 MULTIPLIER_CM (cm_increment r) delta (cm_state r)) (cm_increment r).

Definition cm_from_state_incr (state increment : Z) : Lcg128CmDxsm64 :=
  cm_step (mkLcg128CmDxsm64 (wrapping_add 128 state increment) increment).

Definition cm_new (state stream : Z) : Lcg128CmDxsm64 :=
  cm_from_state_incr state (Z.lor (wrapping_shl 128 stream 1) 1).

Definition cm_next_u64 {E} : method Lcg128CmDxsm64 E Z := λ r, (Ok (output_dxsm (cm_state r)), cm_step r).

#[export] Instance cm_seedable : SeedableRng Lcg128CmDxsm64 := {
  seed_len := 32;
  from_seed seed := cm_from_state_incr (seed_u128 seed 0) (Z.lor (seed_u128 seed 2) 1);
}.

#[export] Instance cm_core {E} : RngCore Lcg128CmDxsm64 E := word64_core as_u32 cm_next_u64.

(** * StepRng and Xoshiro256PlusPlus *)

Record StepRng : Type := mkStepRng { step_v : Z; step_a : Z }.

Definition step_next_u64 {E} : method StepRng E Z := λ r,
  (Ok (step_v r), mkStepRng (wrapping_add 64 (step_v r) (step_a r)) (step_a r)).

#[export] Instance step_core {E} : RngCore StepRng E := word64_core as_u32 step_next_u64.

Record Xoshiro256PlusPlus : Type := mkXoshiro { xo_0 : Z; xo_1 : Z; xo_2 : Z; xo_3 : Z }.

Definition xo_next_u64 {E} : method Xoshiro256PlusPlus E Z := λ r,
  let '(mkXoshiro s0 s1 s2 s3) := r in
  let result := wrapping_add 64 (rotate_left 64 (wrapping_add 64 s0 s3) 23) s0 in
  let t := wrapping_shl 64 s1 17 in
  let s2 := Z.lxor s2 s0 in
  let s3 := Z.lxor s3 s1 in
  let s1 := Z.lxor s1 s2 in
  let s0 := Z.lxor s0 s3 in
  let s2 := Z.lxor s2 t in
  let s3 := rotate_left 64 s3 45 in
  (Ok result, mkXoshiro s0 s1 s2 s3).

Definition xo_state (seed : list byte) : Xoshiro256PlusPlus :=
  mkXoshiro (seed_word seed 0) (seed_word seed 1) (seed_word seed 2) (seed_word seed 3).

(** The chunks of the seed that SplitMix64 makes. *)
Fixpoint splitmix (n : nat) (state : Z) : list byte :=
  match n with
  | O => []
  | S n =>
      let state := wrapping_add 64 state 0x9e3779b97f4a7c15 in
      let z := state in
      let z := wrapping_mul 64 (Z.lxor z (Z.shiftr z 30)) 0xbf58476d1ce4e5b9 in
      let z := wrapping_mul 64 (Z.lxor z (Z.shiftr z 27)) 0x94d049bb133111eb in
      let z := Z.lxor z (Z.shiftr z 31) in
      to_le 8 z ++ splitmix n state
  end.

(** [from_seed] calls [seed_from_u64(0)] for the seed of zeros, and that calls
    [from_seed]: [fuel] calls at most. *)
Fixpoint xo_from_seed_fuel {E} (fuel : nat) (seed : list byte) : res E Xoshiro256PlusPlus :=
  match fuel with
  | O => NoFuel
  | S fuel =>
      if bool_decide (Forall (.= x00) seed) then xo_from_seed_fuel fuel (splitmix 4 0) else Ok (xo_state seed)
  end.
Definition xo_from_seed {E} (seed : list byte) : res E Xoshiro256PlusPlus := xo_from_seed_fuel 2 seed.
Definition xo_seed_from_u64 {E} (state : Z) : res E Xoshiro256PlusPlus := xo_from_seed (splitmix 4 state).

#[export] Instance xo_core {E} : RngCore Xoshiro256PlusPlus E := word64_core (λ x, as_u32 (Z.shiftr x 32)) xo_next_u64.

(** * The values of the tests of the code *)

Fixpoint values {R} (n : nat) (next : method R unit Z) (r : R) : list Z :=
  match n with
  | O => []
  | S n => match next r with (Ok v, r) => v :: values n next r | _ => [] end
  end.

Example l64_reference :
  values 6 next_u32 (l64_new 42 54) = [0xa15c02b7; 0x7b47f409; 0xba1d3330; 0x83d2f293; 0xbfa4784b; 0xcbed606e].
Proof. vm_compute. reflexivity. Qed.

Example l128_reference :
  values 6 next_u64 (l128_new 42 54)
  = [0x86b1da1d72062b68; 0x1304aa46c9853d39; 0xa3670e9e0dd50358; 0xf9090e529a7dae00; 0xc85b9fd837996f2c; 0x606121f8e3919196].
Proof. vm_compute. reflexivity. Qed.

Example m128_reference :
  values 6 next_u64 (m128_new 42)
  = [0x63b4a3a813ce700a; 0x382954200617ab24; 0xa7fd85ae3fe950ce; 0xd715286aa2887737; 0x60c92fee2e59f32c; 0x84c4e96beff30017].
Proof. vm_compute. reflexivity. Qed.

Example cm_reference :
  values 6 next_u64 (cm_new 42 54)
  = [17331114245835578256; 10267467544499227306; 9726600296081716989; 10165951391103677450; 12131334649314727261; 10134094537930450875].
Proof. vm_compute. reflexivity. Qed.

Example xo_reference :
  values 10 next_u64 (xo_state (le_bytes 8 [1; 2; 3; 4]))
  = [41943041; 58720359; 3588806011781223; 3591011842654386; 9228616714210784205; 9973669472204895162;
     14011001112246962877; 12406186145184390807; 15849039046786891736; 10450023813501588000].
Proof. vm_compute. reflexivity. Qed.

(** Seeds: the bytes 1, 2, 3, ..., another generator, and a number. *)
Definition counted (n : nat) : list byte := (λ i, byte_of (Z.of_nat i)) <$> seq 1 n.

Definition constructions {R} `{!SeedableRng R} `{!RngCore R unit} (next : method R unit Z) : list Z :=
  match next (from_seed (counted (seed_len (R := R)))) with
  | (Ok v1, r1) =>
      match from_rng (E := unit) r1 with
      | (Ok r2, _) => v1 :: values 1 next r2 ++ values 1 next (seed_from_u64 0)
      | _ => []
      end
  | _ => []
  end.

Example l64_construction :
  constructions (R := Lcg64Xsh32) next_u64 = [1204678643940597513; 12384929573776311845; 18195738587432868099].
Proof. vm_compute. reflexivity. Qed.

Example l128_construction :
  constructions (R := Lcg128Xsl64) next_u64 = [8740028313290271629; 1922280315005786345; 2354861276966075475].
Proof. vm_compute. reflexivity. Qed.

Example m128_construction :
  constructions (R := Mcg128Xsl64) next_u64 = [7071994460355047496; 12300796107712034932; 6198063878555692194].
Proof. vm_compute. reflexivity. Qed.

Example cm_construction :
  constructions (R := Lcg128CmDxsm64) next_u64 = [12201417210360370199; 11487972556150888383; 4111470453933123814].
Proof. vm_compute. reflexivity. Qed.

(** * Jumping ahead *)

Section affine.
Variable w : Z.
Hypothesis w_pos : 0 < w.

Lemma affine_mod mp s : affine w mp s = (s * mp.1 + mp.2) `mod` 2 ^ w.
Proof. unfold affine, wrapping_add, wrapping_mul. Z.push_pull_mod. done. Qed.

(** One step after another. *)
Lemma affine_compose cur acc s :
  affine w cur (affine w acc s)
  = affine w (wrapping_mul w acc.1 cur.1, wrapping_add w (wrapping_mul w acc.2 cur.1) cur.2) s.
Proof.
  rewrite !affine_mod. unfold wrapping_add, wrapping_mul. simpl. Z.push_pull_mod. f_equal. ring.
Qed.

(** A step twice. *)
Lemma affine_twice cur s :
  affine w (wrapping_mul w cur.1 cur.1, wrapping_mul w (wrapping_add w cur.1 1) cur.2) s
  = affine w cur (affine w cur s).
Proof.
  rewrite !affine_mod. unfold wrapping_add, wrapping_mul. simpl. Z.push_pull_mod. f_equal. ring.
Qed.

Lemma iter_twice (f : Z → Z) n s : Nat.iter n (λ x, f (f x)) s = Nat.iter (2 * n) f s.
Proof.
  replace (2 * n)%nat with (n + n)%nat by lia. induction n as [|n IH]; [done|].
  replace (S n + S n)%nat with (S (S (n + n))) by lia. simpl. by rewrite IH.
Qed.

Lemma iter_ext (f g : Z → Z) n s : (∀ x, f x = g x) → Nat.iter n f s = Nat.iter n g s.
Proof. intros Hf. induction n as [|n IH]; simpl; [done|]. by rewrite IH, Hf. Qed.

Lemma iter_swap (f : Z → Z) n s : Nat.iter n f (f s) = f (Nat.iter n f s).
Proof. induction n as [|n IH]; simpl; [done|]. by rewrite IH. Qed.

(** What the loop adds to [acc] is as many steps of [cur] as [mdelta] says. *)
Lemma advance_loop_steps fuel acc cur d s :
  0 ≤ d < 2 ^ Z.of_nat fuel →
  affine w (advance_loop w fuel acc cur d) s = Nat.iter (Z.to_nat d) (affine w cur) (affine w acc s).
Proof.
  revert acc cur d. induction fuel as [|fuel IH]; intros acc cur d Hd.
  { assert (d = 0) as -> by lia. done. }
  cbn [advance_loop]. case_bool_decide as H0; [|assert (d = 0) as -> by lia; done].
  destruct acc as [am ap], cur as [cm cp].
  rewrite Nat2Z.inj_succ, Z.pow_succ_r in Hd by lia. rewrite Z.quot_div_nonneg by lia.
  pose proof (Z.div_mod d 2 ltac:(lia)) as Hdm. pose proof (Z.mod_pos_bound d 2 ltac:(lia)).
  rewrite IH by (split; [apply Z.div_pos; lia|apply Z.div_lt_upper_bound; lia]).
  rewrite (iter_ext _ (λ x, affine w (cm, cp) (affine w (cm, cp) x))) by (intros; apply (affine_twice (cm, cp))).
  rewrite iter_twice. change 1 with (Z.ones 1). rewrite Z.land_ones by lia. change (2 ^ 1) with 2.
  case_bool_decide as Hb.
  - rewrite <- (affine_compose (cm, cp) (am, ap)). rewrite iter_swap.
    replace (Z.to_nat d) with (S (2 * Z.to_nat (d `div` 2))) by lia. done.
  - by replace (Z.to_nat d) with (2 * Z.to_nat (d `div` 2))%nat by lia.
Qed.

Lemma advance_state_steps mult plus d s :
  0 ≤ d < 2 ^ w → 0 ≤ s < 2 ^ w →
  advance_state w mult plus d s = Nat.iter (Z.to_nat d) (affine w (mult, plus)) s.
Proof.
  intros Hd Hs. unfold advance_state.
  assert (E1 : affine w (advance_loop w (Z.to_nat w) (1, 0) (mult, plus) d) s
    = Nat.iter (Z.to_nat d) (affine w (mult, plus)) s).
  { rewrite advance_loop_steps by (rewrite Z2Nat.id; lia). f_equal.
    rewrite affine_mod. simpl. rewrite Z.mul_1_r, Z.add_0_r. by apply Z.mod_small. }
  rewrite <- E1. destruct (advance_loop _ _ _ _ _) as [am ap]. rewrite affine_mod.
  unfold wrapping_add, wrapping_mul. Z.push_pull_mod. simpl. f_equal. ring.
Qed.

(** The steps of an odd multiplier come round after [2 ^ w] steps: after [2 ^ k] the
    step is the identity modulo [2 ^ k]. *)
Lemma affine_iter_pow mult plus k :
  Z.odd mult = true →
  ∃ m p, (∀ s, Nat.iter (2 ^ k) (affine w (mult, plus)) s = affine w (m, p) s) ∧
    (m `mod` 2 ^ Z.of_nat k = 1 `mod` 2 ^ Z.of_nat k) ∧ p `mod` 2 ^ Z.of_nat k = 0 ∧ Z.odd m = true.
Proof.
  intros Hodd. induction k as [|k (m & p & Hs & Hm & Hp & Ho)].
  { exists mult, plus. by rewrite !Z.mod_1_r. }
  set (M := 2 ^ Z.of_nat k) in *. assert (EM : 2 ^ Z.of_nat (S k) = 2 * M).
  { rewrite Nat2Z.inj_succ, Z.pow_succ_r by lia. done. }
  assert (Hm2 : exists a, m = 1 + a * M).
  { exists (m / M - 1 / M). pose proof (Z.div_mod m M ltac:(lia)). pose proof (Z.div_mod 1 M ltac:(lia)). lia. }
  assert (Hp2 : exists b, p = b * M).
  { exists (p / M). pose proof (Z.div_mod p M ltac:(lia)). lia. }
  destruct Hm2 as [a Ha], Hp2 as [b Hb]. apply Z.odd_spec in Ho as [o Ho].
  exists (m * m), ((m + 1) * p). rewrite EM. split_and!.
  - intros s. replace (2 ^ S k)%nat with (2 ^ k + 2 ^ k)%nat by (simpl; lia).
    rewrite Nat.iter_add, !Hs, !affine_mod. simpl. Z.push_pull_mod. f_equal. ring.
  - replace (m * m) with (1 + ((1 + o) * a) * (2 * M)) by (rewrite Ha at 2; nia).
    apply Z.mod_add. lia.
  - replace ((m + 1) * p) with (((o + 1) * b) * (2 * M)) by nia. apply Z.mod_mul. lia.
  - rewrite Z.odd_mul. replace (Z.odd m) with true; [done|]. symmetry. apply Z.odd_spec. by exists o.
Qed.

Lemma affine_cycle mult plus s :
  Z.odd mult = true → 0 ≤ s < 2 ^ w → Nat.iter (2 ^ Z.to_nat w) (affine w (mult, plus)) s = s.
Proof.
  intros Hodd Hs. destruct (affine_iter_pow mult plus (Z.to_nat w) Hodd) as (m & p & E1 & Hm & Hp & _).
  rewrite E1, affine_mod. rewrite Z2Nat.id in * by lia. simpl.
  rewrite Z.add_mod, Hp, Z.add_0_r, Z.mod_mod, Z.mul_mod, Hm, <- Z.mul_mod, Z.mul_1_r by lia.
  by apply Z.mod_small.
Qed.

Lemma affine_range mp s : 0 ≤ affine w mp s < 2 ^ w.
Proof. rewrite affine_mod. apply Z.mod_pos_bound. lia. Qed.

Lemma iter_range mp n s : 0 ≤ s < 2 ^ w → 0 ≤ Nat.iter n (affine w mp) s < 2 ^ w.
Proof. intros. destruct n; simpl; [done|apply affine_range]. Qed.

(** [advance] by [2 ^ w - d] takes back [d] steps. *)
Lemma advance_state_back mult plus d s :
  Z.odd mult = true → 0 < d < 2 ^ w → 0 ≤ s < 2 ^ w →
  advance_state w mult plus (2 ^ w - d) (advance_state w mult plus d s) = s.
Proof.
  intros Hodd Hd Hs. rewrite (advance_state_steps _ _ d) by lia.
  rewrite advance_state_steps by (apply iter_range || lia; lia).
  rewrite <- Nat.iter_add. rewrite <- (affine_cycle mult plus s) at 2 by done.
  f_equal. rewrite <- Z2Nat.inj_add by lia. replace (2 ^ w - d + d) with (2 ^ w) by lia.
  apply Nat2Z.inj. rewrite Z2Nat.id, Nat2Z.inj_pow, Z2Nat.id by lia. done.
Qed.

End affine.

(** * The generators *)

(** The state of a generator after [n] calls of [next]. *)
Definition after_calls {R} (next : method R unit Z) (n : nat) (r : R) : R := Nat.iter n (λ r, (next r).2) r.

Lemma l64_after_calls n s c :
  after_calls l64_next_u32 n (mkLcg64Xsh32 s c)
  = mkLcg64Xsh32 (Nat.iter n (affine 64 (MULTIPLIER_64, c)) s) c.
Proof. unfold after_calls. induction n as [|n IH]; [done|]. rewrite !Nat.iter_succ, IH. done. Qed.

Lemma l128_after_calls n s c :
  after_calls l128_next_u64 n (mkLcg128Xsl64 s c)
  = mkLcg128Xsl64 (Nat.iter n (affine 128 (MULTIPLIER_128, c)) s) c.
Proof. unfold after_calls. induction n as [|n IH]; [done|]. rewrite !Nat.iter_succ, IH. done. Qed.

Lemma m128_after_calls n s :
  after_calls m128_next_u64 n (mkMcg128Xsl64 s)
  = mkMcg128Xsl64 (Nat.iter n (affine 128 (MULTIPLIER_128, 0)) s).
Proof.
  unfold after_calls. induction n as [|n IH]; [done|]. rewrite !Nat.iter_succ, IH. simpl. f_equal.
  unfold affine, wrapping_add, wrapping_mul. simpl. rewrite Z.add_0_r. symmetry. apply Z.mod_mod. lia.
Qed.

Lemma cm_after_calls n s c :
  after_calls cm_next_u64 n (mkLcg128CmDxsm64 s c)
  = mkLcg128CmDxsm64 (Nat.iter n (affine 128 (MULTIPLIER_CM, c)) s) c.
Proof. unfold after_calls. induction n as [|n IH]; [done|]. rewrite !Nat.iter_succ, IH. done. Qed.
