(* ===== verification/RandUniform.v ===== *)
(** Uniform integers and characters of rand (rand/src/distributions/integer.rs, uniform.rs,
    utils.rs, other.rs, slice.rs; [gen_range] of src/rng.rs).

    A sampler takes words of a generator until it accepts one.  [draw] and
    [single_draw] say what one word gives, and the loops repeat them; the theorems
    count the words that give a value. *)
From Stdlib Require Import ZArith Lia Strings.Byte.
From stdpp Require Import base list numbers option.
From S2P Require Import Prelude StateMonad Words RandCore.
#[local] Open Scope Z_scope.

(** * Integer types *)

(** The unsigned types, on a target with pointers of 64 bits. *)
Inductive uint : Type := U8 | U16 | U32 | U64 | U128 | Usize.

#[export] Instance uint_eq_dec : EqDecision uint.
Proof. solve_decision. Defined.

Definition bits (u : uint) : Z :=
  match u with U8 => 8 | U16 => 16 | U32 => 32 | U64 => 64 | U128 => 128 | Usize => 64 end.

(** The rows of [uniform_int_impl!]: [$ty] by its signedness and its [$unsigned], and [$u_large]. *)
Record int_ty : Type := mkIntTy { signed : bool; unsigned : uint; u_large : uint }.

Definition i8_ty : int_ty := mkIntTy true U8 U32.
Definition i16_ty : int_ty := mkIntTy true U16 U32.
Definition i32_ty : int_ty := mkIntTy true U32 U32.
Definition i64_ty : int_ty := mkIntTy true U64 U64.
Definition i128_ty : int_ty := mkIntTy true U128 U128.
Definition isize_ty : int_ty := mkIntTy true Usize Usize.
Definition u8_ty : int_ty := mkIntTy false U8 U32.
Definition u16_ty : int_ty := mkIntTy false U16 U32.
Definition u32_ty : int_ty := mkIntTy false U32 U32.
Definition u64_ty : int_ty := mkIntTy false U64 U64.
Definition u128_ty : int_ty := mkIntTy false U128 U128.
Definition usize_ty : int_ty := mkIntTy false Usize Usize.

Definition int_tys : list int_ty :=
  [i8_ty; i16_ty; i32_ty; i64_ty; i128_ty; isize_ty; u8_ty; u16_ty; u32_ty; u64_ty; usize_ty; u128_ty].

(** [x as $unsigned] and [x as $ty]. *)
Definition as_uint (u : uint) (x : Z) : Z := x `mod` 2 ^ bits u.
Definition as_ty (t : int_ty) (x : Z) : Z :=
  let b := bits (unsigned t) in
  if signed t then (x + 2 ^ (b - 1)) `mod` 2 ^ b - 2 ^ (b - 1) else x `mod` 2 ^ b.

Definition ty_min (t : int_ty) : Z := if signed t then - 2 ^ (bits (unsigned t) - 1) else 0.
Definition ty_max (t : int_ty) : Z :=
  if signed t then 2 ^ (bits (unsigned t) - 1) - 1 else 2 ^ bits (unsigned t) - 1.

(** * integer.rs: [Standard] *)

Section standard.
Context {R E : Type} `{RngCore R E}.

Definition gen_uint (u : uint) : method R E Z :=
  match u with
  | U8 => let! x := next_u32 in st_ret (as_uint U8 x)
  | U16 => let! x := next_u32 in st_ret (as_uint U16 x)
  | U32 => next_u32
  | U64 => next_u64
  | U128 =>
      let! x := next_u64 in
      let! y := next_u64 in
      st_ret (Z.lor (Z.shiftl y 64) x)
  | Usize => next_u64
  end.

Definition gen_int (t : int_ty) : method R E Z :=
  let! x := gen_uint (unsigned t) in st_ret (as_ty t x).

(** The [NonZero] types: at most [fuel] words are taken. *)
Fixpoint gen_nonzero (fuel : nat) (u : uint) : method R E Z :=
  match fuel with
  | O => st_try (λ _, NoFuel)
  | S fuel => let! x := gen_uint u in if bool_decide (x ≠ 0) then st_ret x else gen_nonzero fuel u
  end.

Definition gen_bool_standard : method R E bool :=
  let! x := next_u32 in st_ret (bool_decide (as_ty i32_ty x < 0)).

(** A loop that takes words until [f] accepts one. *)
Fixpoint sample_loop {A} (fuel : nat) (gen : method R E Z) (f : Z → res E (option A)) : method R E A :=
  match fuel with
  | O => st_try (λ _, NoFuel)
  | S fuel =>
      let! v := gen in
      let! o := st_try (λ _, f v) in
      match o with
      | Some x => st_ret x
      | None => sample_loop fuel gen f
      end
  end.

End standard.

(** * utils.rs: widening multiplication *)

(** [wmul_impl!]: through a type of twice the width. *)
Definition wmul_wide (w a b : Z) : Z * Z :=
  let tmp := a * b in (Z.shiftr tmp w `mod` 2 ^ w, tmp `mod` 2 ^ w).

(** [wmul_impl_large!]: by halves, without a wider type.  Sums that overflow the
    type would be a panic. *)
Definition wmul_large (w half a b : Z) : option (Z * Z) :=
  let add x y := if bool_decide (x + y < 2 ^ w) then Some (x + y) else None in
  let LOWER_MASK := Z.shiftr (2 ^ w - 1) half in
  let lo x := Z.land x LOWER_MASK in
  let low := wrapping_mul w (lo a) (lo b) in
  let t := Z.shiftr low half in
  let low := lo low in
  t ← add t (wrapping_mul w (Z.shiftr a half) (lo b));
  low ← add low (wrapping_shl w (lo t) half);
  let high := Z.shiftr t half in
  let t := Z.shiftr low half in
  let low := lo low in
  t ← add t (wrapping_mul w (Z.shiftr b half) (lo a));
  low ← add low (wrapping_shl w (lo t) half);
  high ← add high (Z.shiftr t half);
  high ← add high (wrapping_mul w (Z.shiftr a half) (Z.shiftr b half));
  Some (high, low).

Definition wmul {E} (u : uint) (a b : Z) : res E (Z * Z) :=
  match u with
  | U128 => match wmul_large 128 64 a b with Some p => Ok p | None => Panic end
  | _ => Ok (wmul_wide (bits u) a b)
  end.

(** * uniform.rs: [UniformInt] *)

Record UniformInt : Type := mkUniformInt { u_low : Z; u_range : Z; u_z : Z }.

Section uniform_int.
Variable t : int_ty.
Let w : Z := bits (u_large t).
Let unsigned_max : Z := 2 ^ w - 1.

Definition ui_new_inclusive {E} (low high : Z) : res E UniformInt :=
  if bool_decide (low ≤ high) then
    let range := as_uint (unsigned t) (as_ty t (as_ty t (high - low) + 1)) in
    let ints_to_reject :=
      if bool_decide (0 < range) then (unsigned_max - range + 1) `mod` range else 0 in
    Ok (mkUniformInt low (as_ty t range) (as_ty t (as_uint (unsigned t) ints_to_reject)))
  else Panic.

Definition ui_new {E} (low high : Z) : res E UniformInt :=
  if bool_decide (low < high) then ui_new_inclusive low (high - 1) else Panic.

(** The body of the loops: [low.wrapping_add(hi as $ty)] if the low word is in the zone. *)
Definition accept {E} (low range zone v : Z) : res E (option Z) :=
  let? (hi, lo) := wmul (u_large t) v range in
  Ok (if bool_decide (lo ≤ zone) then Some (as_ty t (low + as_ty t hi)) else None).

(** What a word gives in [sample].  When the range is that of the type, any word will do. *)
Definition draw {E} (d : UniformInt) (v : Z) : res E (option Z) :=
  let range := as_uint (unsigned t) (u_range d) in
  if bool_decide (0 < range) then
    let zone := unsigned_max - as_uint (unsigned t) (u_z d) in
    accept (u_low d) range zone v
  else Ok (Some (as_ty t (as_uint (unsigned t) v))).

(** What a word gives in [sample_single_inclusive]. *)
Definition single_zone (range : Z) : Z :=
  if bool_decide (2 ^ bits (unsigned t) - 1 ≤ 2 ^ 16 - 1) then
    let ints_to_reject := (unsigned_max - range + 1) `mod` range in
    unsigned_max - ints_to_reject
  else
    let leading_zeros := w - 1 - Z.log2 range in
    wrapping_sub w (wrapping_shl w range leading_zeros) 1.

Definition single_draw {E} (low high v : Z) : res E (option Z) :=
  let range := as_uint (unsigned t) (as_ty t (as_ty t (high - low) + 1)) in
  if bool_decide (range = 0) then Ok (Some (as_ty t (as_uint (unsigned t) v)))
  else accept low range (single_zone range) v.

Context {R E : Type} `{RngCore R E}.

Definition ui_sample (fuel : nat) (d : UniformInt) : method R E Z :=
  let range := as_uint (unsigned t) (u_range d) in
  if bool_decide (0 < range) then sample_loop fuel (gen_uint (u_large t)) (draw d)
  else gen_int t.

Definition ui_sample_single_inclusive (fuel : nat) (low high : Z) : method R E Z :=
  if bool_decide (low ≤ high) then
    let range := as_uint (unsigned t) (as_ty t (as_ty t (high - low) + 1)) in
    if bool_decide (range = 0) then gen_int t
    else sample_loop fuel (gen_uint (u_large t)) (single_draw low high)
  else st_try (λ _, Panic).

Definition ui_sample_single (fuel : nat) (low high : Z) : method R E Z :=
  if bool_decide (low < high) then ui_sample_single_inclusive fuel low (high - 1)
  else st_try (λ _, Panic).

(** [Rng::gen_range] of [low..high] and of [low..=high]. *)
Definition gen_range (fuel : nat) (low high : Z) : method R E Z :=
  if bool_decide (low < high) then ui_sample_single fuel low high else st_try (λ _, Panic).
Definition gen_range_inclusive (fuel : nat) (low high : Z) : method R E Z :=
  if bool_decide (low ≤ high) then ui_sample_single_inclusive fuel low high else st_try (λ _, Panic).

End uniform_int.

(** * Characters: [UniformChar] and [Standard] *)

Definition CHAR_SURROGATE_START : Z := 0xD800.
Definition CHAR_SURROGATE_LEN : Z := 0xE000 - CHAR_SURROGATE_START.

Definition char_to_comp_u32 (c : Z) : Z :=
  if bool_decide (CHAR_SURROGATE_START ≤ c) then c - CHAR_SURROGATE_LEN else c.

Definition uc_new {E} (low high : Z) : res E UniformInt :=
  ui_new u32_ty (char_to_comp_u32 low) (char_to_comp_u32 high).
Definition uc_new_inclusive {E} (low high : Z) : res E UniformInt :=
  ui_new_inclusive u32_ty (char_to_comp_u32 low) (char_to_comp_u32 high).

Section chars.
Context {R E : Type} `{RngCore R E}.

Definition uc_sample (fuel : nat) (d : UniformInt) : method R E Z :=
  let! x := ui_sample u32_ty fuel d in
  st_ret (if bool_decide (CHAR_SURROGATE_START ≤ x) then x + CHAR_SURROGATE_LEN else x).

Definition GAP_SIZE : Z := 0xDFFF - 0xD800 + 1.

Definition gen_char (fuel : nat) : method R E Z :=
  let! range := st_try (λ _, ui_new u32_ty GAP_SIZE 0x110000) in
  let! n := ui_sample u32_ty fuel range in
  st_ret (if bool_decide (n ≤ 0xDFFF) then n - GAP_SIZE else n).

(** [Alphanumeric] *)
Definition GEN_ASCII_STR_CHARSET : list Z := seqZ 65 26 ++ seqZ 97 26 ++ seqZ 48 10.

Definition alphanumeric_draw (v : Z) : res E (option Z) :=
  let var := Z.shiftr v (32 - 6) in
  if bool_decide (var < 26 + 26 + 10) then res_map Some (at_index GEN_ASCII_STR_CHARSET (Z.to_nat var)) else Ok None.
Definition alphanumeric_sample (fuel : nat) : method R E Z := sample_loop fuel next_u32 alphanumeric_draw.

End chars.

(** [Slice]: an element of a slice that is not empty. *)
Inductive slice_error : Type := EmptySlice.

Definition slice_new {A} (l : list A) : res slice_error (list A * UniformInt) :=
  match length l with
  | O => Err EmptySlice
  | len => let? range := ui_new usize_ty 0 (Z.of_nat len) in Ok (l, range)
  end.

Definition slice_sample {A R E} `{RngCore R E} (fuel : nat) (d : list A * UniformInt) : method R E A :=
  let! idx := ui_sample usize_ty fuel d.2 in st_try (λ _, at_index d.1 (Z.to_nat idx)).

(** * Widening multiplication *)

Lemma wmul_wide_spec w a b :
  0 ≤ w → 0 ≤ a < 2 ^ w → 0 ≤ b < 2 ^ w → wmul_wide w a b = ((a * b) `div` 2 ^ w, (a * b) `mod` 2 ^ w).
Proof.
  intros Hw Ha Hb. unfold wmul_wide. rewrite Z.shiftr_div_pow2 by done. f_equal. apply Z.mod_small.
  split; [apply Z.div_pos; nia|]. apply Z.div_lt_upper_bound; nia.
Qed.

(** The high half and the low half of a sum of two digits. *)
Lemma div_mod_digits B q r : 0 ≤ r < B → (q * B + r) `div` B = q ∧ (q * B + r) `mod` B = r.
Proof.
  intros Hr. rewrite Z.add_comm, Z.div_add, Z.mod_add by lia.
  by rewrite Z.div_small, Z.mod_small.
Qed.

(** The product of numbers of two digits, from the products of their digits. *)
Lemma wmul_digits B a1 a0 b1 b0 c0 d0 e1 f1 e2 f2 :
  0 ≤ a1 < B → 0 ≤ a0 < B → 0 ≤ b1 < B → 0 ≤ b0 < B →
  a0 * b0 = B * c0 + d0 → c0 + a1 * b0 = B * e1 + f1 → f1 + b1 * a0 = B * e2 + f2 →
  0 ≤ d0 < B → 0 ≤ f2 < B →
  let p := (B * a1 + a0) * (B * b1 + b0) in
  p `div` (B * B) = e1 + e2 + a1 * b1 ∧ p `mod` (B * B) = d0 + f2 * B ∧ e1 + e2 + a1 * b1 < B * B.
Proof.
  intros Ha1 Ha0 Hb1 Hb0 D0 D1 D2 Hd0 Hf2 p.
  assert (Hp : p = (e1 + e2 + a1 * b1) * (B * B) + (d0 + f2 * B)).
  { unfold p. replace ((B * a1 + a0) * (B * b1 + b0)) with (a1 * b1 * (B * B) + B * (a1 * b0 + b1 * a0) + a0 * b0) by ring.
    assert (Ea : a1 * b0 = B * e1 + f1 - c0) by (clear -D1; lia).
    assert (Eb : b1 * a0 = B * e2 + f2 - f1) by (clear -D2; lia).
    rewrite D0, Ea, Eb. ring. }
  assert (Hr : 0 ≤ d0 + f2 * B < B * B) by (clear -Hd0 Hf2; nia).
  assert (Hlt : p < (B * B) * (B * B)).
  { unfold p. clear -Ha1 Ha0 Hb1 Hb0. apply Z.mul_lt_mono_nonneg; nia. }
  destruct (div_mod_digits (B * B) (e1 + e2 + a1 * b1) (d0 + f2 * B) Hr) as [E1 E2].
  rewrite Hp, E1, E2. split; [done|]. split; [done|].
  apply (Z.mul_lt_mono_pos_r (B * B)); [clear -Ha0; nia|]. rewrite Hp in Hlt. clear -Hlt Hr. lia.
Qed.

Lemma wmul_large_spec h a b :
  0 < h → 0 ≤ a < 2 ^ (2 * h) → 0 ≤ b < 2 ^ (2 * h) →
  wmul_large (2 * h) h a b = Some ((a * b) `div` 2 ^ (2 * h), (a * b) `mod` 2 ^ (2 * h)).
Proof.
  intros Hh Ha Hb. unfold wmul_large, wrapping_mul, wrapping_shl.
  assert (HW : 2 ^ (2 * h) = 2 ^ h * 2 ^ h) by (rewrite <- Z.pow_add_r by lia; f_equal; lia).
  set (B := 2 ^ h) in *. assert (HB : 0 < B) by (apply Z.pow_pos_nonneg; lia).
  assert (Hmask : Z.shiftr (2 ^ (2 * h) - 1) h = B - 1).
  { rewrite Z.shiftr_div_pow2 by lia. fold B. rewrite HW.
    replace (B * B - 1) with ((B - 1) * B + (B - 1)) by ring. apply div_mod_digits. lia. }
  rewrite Hmask. assert (Hland : ∀ x, Z.land x (B - 1) = x `mod` B).
  { intros x. unfold B. rewrite <- Z.land_ones by lia. f_equal. rewrite Z.ones_equiv. lia. }
  assert (Hshr : ∀ x, Z.shiftr x h = x `div` B) by (intros; by apply Z.shiftr_div_pow2; lia).
  assert (Hshl : ∀ x, Z.shiftl x h = x * B) by (intros; by apply Z.shiftl_mul_pow2; lia).
  rewrite HW in *. rewrite !Hland, !Hshr. cbv zeta.
  pose proof (Z.div_mod a B ltac:(lia)) as Da. pose proof (Z.mod_pos_bound a B HB) as Ma.
  pose proof (Z.div_mod b B ltac:(lia)) as Db. pose proof (Z.mod_pos_bound b B HB) as Mb.
  set (a1 := a `div` B) in *. set (a0 := a `mod` B) in *. set (b1 := b `div` B) in *. set (b0 := b `mod` B) in *.
  assert (0 ≤ a1 < B) by (split; [apply Z.div_pos; lia|apply Z.div_lt_upper_bound; lia]).
  assert (0 ≤ b1 < B) by (split; [apply Z.div_pos; lia|apply Z.div_lt_upper_bound; lia]).
  clearbody a1 a0 b1 b0 B. subst a b. clear Hmask Ha Hb.
  (* the four products, and their digits *)
  assert (Hp : ∀ x y, 0 ≤ x < B → 0 ≤ y < B → 0 ≤ x * y ≤ B * B - 2 * B + 1) by (intros; nia).
  pose proof (Hp a1 b0 ltac:(lia) ltac:(lia)). pose proof (Hp b1 a0 ltac:(lia) ltac:(lia)).
  pose proof (Hp a1 b1 ltac:(lia) ltac:(lia)). pose proof (Hp a0 b0 ltac:(lia) ltac:(lia)).
  assert (Hb : ∀ x, 0 ≤ x < B → 0 ≤ x * B ≤ B * B - B) by (intros; nia).
  assert (Hq : ∀ x, 0 ≤ x < B * B → 0 ≤ x `div` B < B)
    by (intros; split; [apply Z.div_pos; lia|apply Z.div_lt_upper_bound; lia]).
  rewrite (Z.mod_small (a0 * b0)) by lia.
  pose proof (Z.div_mod (a0 * b0) B ltac:(lia)) as D0. pose proof (Z.mod_pos_bound (a0 * b0) B HB) as M0.
  pose proof (Hq (a0 * b0) ltac:(lia)).
  set (c0 := (a0 * b0) `div` B) in *. set (d0 := (a0 * b0) `mod` B) in *. clearbody c0 d0.
  rewrite (Z.mod_small (a1 * b0)), (Z.mod_small (b1 * a0)), (Z.mod_small (a1 * b1)) by lia.
  rewrite bool_decide_true by lia. cbn [mbind option_bind]. rewrite ?Hland, ?Hshr, ?Hshl.
  pose proof (Z.div_mod (c0 + a1 * b0) B ltac:(lia)) as D1. pose proof (Z.mod_pos_bound (c0 + a1 * b0) B HB) as M1.
  pose proof (Hq (c0 + a1 * b0) ltac:(lia)).
  set (e1 := (c0 + a1 * b0) `div` B) in *. set (f1 := (c0 + a1 * b0) `mod` B) in *. clearbody e1 f1.
  pose proof (Hb f1 M1). rewrite (Z.mod_small (f1 * B)) by lia. rewrite bool_decide_true by lia. cbn [mbind option_bind]. rewrite ?Hland, ?Hshr, ?Hshl.
  destruct (div_mod_digits B f1 d0 M0) as [E1 E2]. rewrite (Z.add_comm d0), E1, E2.
  rewrite bool_decide_true by lia. cbn [mbind option_bind]. rewrite ?Hland, ?Hshr, ?Hshl.
  pose proof (Z.div_mod (f1 + b1 * a0) B ltac:(lia)) as D2. pose proof (Z.mod_pos_bound (f1 + b1 * a0) B HB) as M2.
  pose proof (Hq (f1 + b1 * a0) ltac:(lia)).
  set (e2 := (f1 + b1 * a0) `div` B) in *. set (f2 := (f1 + b1 * a0) `mod` B) in *. clearbody e2 f2.
  pose proof (Hb f2 M2). rewrite (Z.mod_small (f2 * B)) by lia. rewrite bool_decide_true by lia. cbn [mbind option_bind]. rewrite ?Hland, ?Hshr, ?Hshl.
  destruct (wmul_digits B a1 a0 b1 b0 c0 d0 e1 f1 e2 f2) as (-> & -> & Hlt); [done..|].
  rewrite bool_decide_true by lia. cbn [mbind option_bind]. rewrite ?Hland, ?Hshr, ?Hshl.
  by rewrite bool_decide_true by lia.
Qed.

Lemma wmul_spec {E} u a b :
  0 ≤ a < 2 ^ bits u → 0 ≤ b < 2 ^ bits u →
  wmul (E := E) u a b = Ok ((a * b) `div` 2 ^ bits u, (a * b) `mod` 2 ^ bits u).
Proof.
  intros Ha Hb. destruct u; simpl bits in *; unfold wmul.
  5: { pose proof (wmul_large_spec 64 a b eq_refl) as E1. change (2 * 64) with 128 in E1. by rewrite E1. }
  all: by rewrite wmul_wide_spec.
Qed.

(** * Counting words *)

(** How many of the words below [W] give [x]. *)
Definition gives (f : Z → res unit (option Z)) (x v : Z) : Prop := f v = Ok (Some x).
#[export] Instance gives_dec f x v : Decision (gives f x v).
Proof.
  unfold gives. destruct (f v) as [[y|]| | |]; try (by right).
  destruct (decide (y = x)) as [->|Hy]; [by left|right; congruence].
Defined.

Definition count (f : Z → res unit (option Z)) (W x : Z) : nat := length (filter (gives f x) (seqZ 0 W)).

Lemma filter_all {A} (P : A → Prop) `{∀ x, Decision (P x)} l : Forall P l → filter P l = l.
Proof. induction 1 as [|x l Hx _ IH]; [done|]. by rewrite filter_cons_True, IH. Qed.

Lemma filter_none {A} (P : A → Prop) `{∀ x, Decision (P x)} l : Forall (λ x, ¬ P x) l → filter P l = [].
Proof. induction 1 as [|x l Hx _ IH]; [done|]. by rewrite filter_cons_False. Qed.

Lemma count_interval f W x c m :
  0 ≤ c → 0 ≤ m → c + m ≤ W → (∀ v, 0 ≤ v < W → gives f x v ↔ c ≤ v < c + m) →
  count f W x = Z.to_nat m.
Proof.
  intros Hc Hm HW Hf. unfold count.
  replace W with (c + (m + (W - c - m))) by lia. rewrite !seqZ_app by lia. rewrite !list.filter_app.
  rewrite (filter_none _ (seqZ 0 c)), (filter_all _ (seqZ (0 + c) m)), (filter_none _ (seqZ (0 + c + m) _)).
  - rewrite app_nil_l, app_nil_r. apply length_seqZ.
  - apply Forall_seqZ. intros v Hv. rewrite Hf by lia. lia.
  - apply Forall_seqZ. intros v Hv. rewrite Hf by lia. lia.
  - apply Forall_seqZ. intros v Hv. rewrite Hf by lia. lia.
Qed.

(** One word in [q] is in a residue class. *)
Lemma count_residue f x q r k :
  0 ≤ r < q → (∀ v, gives f x v ↔ v `mod` q = r) → count f (q * Z.of_nat k) x = k.
Proof.
  intros Hr Hf. unfold count. induction k as [|k IH].
  - by rewrite Z.mul_0_r.
  - replace (q * Z.of_nat (S k)) with (q * Z.of_nat k + (r + (1 + (q - r - 1))))
      by (rewrite Nat2Z.inj_succ, Z.mul_succ_r; lia).
    rewrite !seqZ_app by nia. rewrite !list.filter_app, !length_app, IH.
    rewrite (filter_none _ (seqZ _ r)), (filter_none _ (seqZ _ (q - r - 1))).
    + rewrite (seqZ_cons _ 1), filter_cons_True; [simpl; lia| |lia]. apply Hf.
      replace (0 + q * Z.of_nat k + r) with (r + Z.of_nat k * q) by lia.
      rewrite Z.mod_add by lia. by apply Z.mod_small.
    + apply Forall_seqZ. intros v Hv. rewrite Hf.
      rewrite (Z.mod_eq v q) by lia. replace (v `div` q) with (Z.of_nat k); [lia|].
      apply (Z.div_unique_pos v q _ (v - q * Z.of_nat k)); lia.
    + apply Forall_seqZ. intros v Hv. rewrite Hf.
      rewrite (Z.mod_eq v q) by lia. replace (v `div` q) with (Z.of_nat k); [lia|].
      apply (Z.div_unique_pos v q _ (v - q * Z.of_nat k)); lia.
Qed.

(** The words whose product with [n] has the high word [h] and a low word below
    [m * n] are [m] in a row. *)
Lemma zone_words W n m h :
  0 < n → 0 < m → m * n ≤ W → 0 ≤ h < n →
  let c := (h * W + n - 1) `div` n in
  0 ≤ c ∧ c + m ≤ W ∧
  ∀ v, 0 ≤ v < W → ((v * n) `div` W = h ∧ (v * n) `mod` W < m * n) ↔ c ≤ v < c + m.
Proof.
  intros Hn Hm HW Hh c.
  pose proof (Z.div_mod (h * W + n - 1) n ltac:(lia)) as Hd.
  pose proof (Z.mod_pos_bound (h * W + n - 1) n Hn) as Hr. fold c in Hd.
  assert (Hc : ∀ v, c ≤ v ↔ h * W ≤ v * n) by (intros v; split; nia).
  assert (0 < W) by nia.
  split; [apply Z.div_pos; nia|]. split.
  { apply Z.le_add_le_sub_r, Hc. nia. }
  intros v Hv. rewrite Hc. assert (Hm' : v < c + m ↔ v * n < h * W + m * n).
  { pose proof (Hc (v - m)). nia. }
  rewrite Hm'. pose proof (Z.div_mod (v * n) W ltac:(lia)) as Hd2.
  pose proof (Z.mod_pos_bound (v * n) W ltac:(lia)) as Hr2.
  split; [intros [<- ?]; lia|]. intros [H1 H2].
  assert ((v * n) `div` W = h) as E1.
  { symmetry. apply (Z.div_unique_pos _ _ _ (v * n - W * h)); lia. }
  split; [done|]. rewrite E1 in Hd2. lia.
Qed.

(** * Casts *)

Lemma bits_pos u : 8 ≤ bits u ≤ 128.
Proof. destruct u; simpl; lia. Qed.

Lemma as_ty_uint t x : as_ty t (as_uint (unsigned t) x) = as_ty t x.
Proof.
  unfold as_ty, as_uint. pose proof (bits_pos (unsigned t)).
  destruct (signed t); [|by rewrite Z.mod_mod by lia].
  by rewrite Z.add_mod_idemp_l by lia.
Qed.

Lemma as_uint_ty t x : as_uint (unsigned t) (as_ty t x) = as_uint (unsigned t) x.
Proof.
  unfold as_ty, as_uint. pose proof (bits_pos (unsigned t)).
  destruct (signed t); [|by rewrite Z.mod_mod by lia].
  rewrite Zminus_mod_idemp_l. f_equal. lia.
Qed.

Lemma as_ty_small t x : ty_min t ≤ x ≤ ty_max t → as_ty t x = x.
Proof.
  unfold ty_min, ty_max, as_ty. pose proof (bits_pos (unsigned t)).
  destruct (signed t); intros Hx; [|apply Z.mod_small; lia].
  assert (2 ^ bits (unsigned t) = 2 * 2 ^ (bits (unsigned t) - 1)).
  { rewrite <- Z.pow_succ_r by lia. f_equal. lia. }
  rewrite Z.mod_small by lia. lia.
Qed.

Lemma as_uint_small u x : 0 ≤ x < 2 ^ bits u → as_uint u x = x.
Proof. intros. by apply Z.mod_small. Qed.

Lemma as_uint_range u x : 0 ≤ as_uint u x < 2 ^ bits u.
Proof. apply Z.mod_pos_bound. pose proof (bits_pos u). lia. Qed.

Lemma as_ty_range t x : ty_min t ≤ as_ty t x ≤ ty_max t.
Proof.
  unfold ty_min, ty_max, as_ty. pose proof (bits_pos (unsigned t)).
  pose proof (Z.mod_pos_bound (x + 2 ^ (bits (unsigned t) - 1)) (2 ^ bits (unsigned t)) ltac:(lia)).
  pose proof (Z.mod_pos_bound x (2 ^ bits (unsigned t)) ltac:(lia)).
  assert (2 ^ bits (unsigned t) = 2 * 2 ^ (bits (unsigned t) - 1)).
  { rewrite <- Z.pow_succ_r by lia. f_equal. lia. }
  destruct (signed t); lia.
Qed.

(** How many values a type has. *)
Lemma ty_size t : ty_max t - ty_min t + 1 = 2 ^ bits (unsigned t).
Proof.
  unfold ty_min, ty_max. pose proof (bits_pos (unsigned t)). destruct (signed t); [|lia].
  replace (bits (unsigned t)) with (Z.succ (bits (unsigned t) - 1)) at 3 by lia.
  rewrite Z.pow_succ_r by lia. lia.
Qed.

(** A word that casts to [x]. *)
Lemma as_ty_residue t x v :
  ty_min t ≤ x ≤ ty_max t → as_ty t v = x ↔ as_uint (unsigned t) v = as_uint (unsigned t) x.
Proof.
  intros Hx. split; [intros <-; by rewrite as_uint_ty|].
  intros Hv. rewrite <- (as_ty_uint t v), Hv, as_ty_uint. by apply as_ty_small.
Qed.

(** * What a word gives *)

Section uniform_proofs.
Variable t : int_ty.
Abbreviation W := (2 ^ bits (u_large t)).
Abbreviation B := (2 ^ bits (unsigned t)).

(** The rows of the table: the larger type is large enough, and is the type itself
    unless that has 16 bits or fewer. *)
Definition row_ok : Prop :=
  bits (unsigned t) ≤ bits (u_large t) ∧ (16 < bits (unsigned t) → bits (u_large t) = bits (unsigned t)).

Hypothesis Hrow : row_ok.

Lemma row_pow : 1 < B ∧ B ≤ W.
Proof.
  destruct Hrow as [Hb _]. pose proof (bits_pos (unsigned t)). split.
  - apply (Z.pow_lt_mono_r 2 0); lia.
  - apply Z.pow_le_mono_r; lia.
Qed.

Lemma accept_spec low n zone v :
  0 ≤ n < B → 0 ≤ v < W →
  accept t low n zone v
  = Ok (E := unit) (if bool_decide ((v * n) `mod` W ≤ zone) then Some (as_ty t (low + as_ty t ((v * n) `div` W))) else None).
Proof.
  intros Hn Hv. pose proof row_pow. unfold accept. rewrite wmul_spec by lia. done.
Qed.

Section range.
Variables low high : Z.
Hypothesis Hlow : ty_min t ≤ low.
Hypothesis Hle : low ≤ high.
Hypothesis Hhigh : high ≤ ty_max t.
Let n : Z := high - low + 1.

Lemma n_range : 1 ≤ n ≤ B.
Proof. unfold n. pose proof (ty_size t). lia. Qed.

Lemma range_spec : as_uint (unsigned t) (as_ty t (as_ty t (high - low) + 1)) = n `mod` B.
Proof.
  rewrite as_uint_ty. unfold as_uint. rewrite <- Z.add_mod_idemp_l by (pose proof row_pow; lia).
  change ((as_ty t (high - low)) `mod` B) with (as_uint (unsigned t) (as_ty t (high - low))).
  rewrite as_uint_ty. unfold as_uint. rewrite Z.add_mod_idemp_l by (pose proof row_pow; lia). done.
Qed.

(** An accepted word gives a value of the range, which tells the high word. *)
Lemma accepted_value h : 0 ≤ h < n → as_ty t (low + as_ty t h) = low + h.
Proof.
  intros Hh. rewrite <- (as_ty_small t (low + h)) by (unfold n in *; lia).
  rewrite <- as_ty_uint, <- (as_ty_uint t (low + h)). f_equal. unfold as_uint.
  rewrite <- Z.add_mod_idemp_r by (pose proof row_pow; lia).
  change ((as_ty t h) `mod` B) with (as_uint (unsigned t) (as_ty t h)).
  rewrite as_uint_ty. unfold as_uint. apply Z.add_mod_idemp_r. pose proof row_pow. lia.
Qed.

(** The words that [accept] takes for [x] when the zone is a multiple of the range. *)
Lemma accept_count m x :
  n < B → 0 < m → m * n ≤ W → low ≤ x ≤ high →
  count (accept t low n (m * n - 1)) W x = Z.to_nat m.
Proof.
  intros Hn Hm HW Hx. pose proof n_range.
  destruct (zone_words W n m (x - low)) as (Hc & HcW & Hz); [unfold n in *; lia..|].
  apply (count_interval _ _ _ ((((x - low) * W + n - 1)) `div` n)); [done|lia|done|].
  intros v Hv. rewrite <- Hz by done. unfold gives. rewrite accept_spec by lia.
  assert (Hh : 0 ≤ (v * n) `div` W < n).
  { split; [apply Z.div_pos; nia|apply Z.div_lt_upper_bound; nia]. }
  rewrite accepted_value by done.
  case_bool_decide; split; [intros [=]|intros []|done|intros []]; [lia|do 2 f_equal; lia|lia].
Qed.

Lemma accept_value m v x :
  n < B → 0 ≤ v < W → accept t low n (m * n - 1) v = Ok (E := unit) (Some x) → low ≤ x ≤ high.
Proof.
  intros Hn Hv. pose proof n_range. rewrite accept_spec by lia.
  assert (Hh : 0 ≤ (v * n) `div` W < n).
  { split; [apply Z.div_pos; nia|apply Z.div_lt_upper_bound; nia]. }
  rewrite accepted_value by done. case_bool_decide; [|done]. intros [= <-]. unfold n in *. lia.
Qed.

(** Any word of a full range. *)
Lemma full_count x :
  n = B → low ≤ x ≤ high →
  count (λ v, Ok (Some (as_ty t (as_uint (unsigned t) v)))) W x
  = Z.to_nat (2 ^ (bits (u_large t) - bits (unsigned t))).
Proof.
  intros Hn Hx. pose proof row_pow. destruct Hrow as [Hb _]. pose proof (bits_pos (unsigned t)).
  replace W with (B * Z.of_nat (Z.to_nat (2 ^ (bits (u_large t) - bits (unsigned t))))).
  2:{ rewrite Z2Nat.id by lia. rewrite <- Z.pow_add_r by lia. f_equal. lia. }
  apply (count_residue _ _ _ (as_uint (unsigned t) x)); [apply as_uint_range|].
  intros v. unfold gives. rewrite as_ty_uint. change (v `mod` B) with (as_uint (unsigned t) v).
  rewrite <- as_ty_residue by lia. split; [by intros [=]|by intros ->].
Qed.

(** The zone of the modulus. *)
Definition modulus_zone : Z := W `div` n.

Lemma modulus_zone_spec :
  W - 1 - (W - 1 - n + 1) `mod` n = modulus_zone * n - 1.
Proof.
  pose proof n_range. unfold modulus_zone.
  replace (W - 1 - n + 1) with (W + (-1) * n) by lia. rewrite Z.mod_add by lia.
  pose proof (Z.div_mod W n ltac:(lia)). lia.
Qed.

Lemma modulus_zone_bounds : 0 < modulus_zone ∧ modulus_zone * n ≤ W ∧ W ≤ 2 * (modulus_zone * n).
Proof.
  pose proof n_range. pose proof row_pow. unfold modulus_zone.
  pose proof (Z.div_mod W n ltac:(lia)). pose proof (Z.mod_pos_bound W n ltac:(lia)).
  assert (0 < W `div` n) by (apply Z.div_str_pos; lia). nia.
Qed.

(** The zone of the shift. *)
Definition shift_zone : Z := 2 ^ (bits (u_large t) - 1 - Z.log2 n).

Lemma shift_zone_bounds :
  n < W → 0 < shift_zone ∧ shift_zone * n < W ∧ W ≤ 2 * (shift_zone * n).
Proof.
  intros Hn. pose proof n_range. unfold shift_zone. pose proof (Z.log2_spec n ltac:(lia)) as [H1 H2].
  pose proof (Z.log2_nonneg n). assert (Z.log2 n < bits (u_large t)) by (apply Z.log2_lt_pow2; lia).
  set (k := Z.log2 n) in *. set (l := bits (u_large t)) in *.
  assert (E1 : 2 ^ l = 2 * (2 ^ k * 2 ^ (l - 1 - k))).
  { rewrite <- Z.pow_add_r, <- Z.pow_succ_r by lia. f_equal. lia. }
  rewrite Z.pow_succ_r in H2 by lia. assert (0 < 2 ^ (l - 1 - k)) by lia. nia.
Qed.

Lemma shift_zone_spec :
  n < W → wrapping_sub (bits (u_large t)) (wrapping_shl (bits (u_large t)) n (bits (u_large t) - 1 - Z.log2 n)) 1
  = shift_zone * n - 1.
Proof.
  intros Hn. destruct (shift_zone_bounds Hn) as (H1 & H2 & H3). pose proof n_range.
  assert (Z.log2 n < bits (u_large t)) by (apply Z.log2_lt_pow2; lia).
  unfold wrapping_sub, wrapping_shl. rewrite Z.shiftl_mul_pow2 by lia. fold shift_zone.
  rewrite (Z.mul_comm n), (Z.mod_small (shift_zone * n)) by nia. apply Z.mod_small. nia.
Qed.

(** Every value of the range is given by as many words as every other, no other value
    is given, no word is a panic, and at most half of the words are turned down. *)
Definition uniform (f : Z → res unit (option Z)) : Prop :=
  (∃ m : nat, (0 < m)%nat ∧ W ≤ 2 * (Z.of_nat m * n) ∧ ∀ x, low ≤ x ≤ high → count f W x = m) ∧
  ∀ v, 0 ≤ v < W → ∃ o, f v = Ok o ∧ ∀ x, o = Some x → low ≤ x ≤ high.

Lemma accept_uniform m :
  n < B → 0 < m → m * n ≤ W → W ≤ 2 * (m * n) → uniform (accept t low n (m * n - 1)).
Proof.
  intros Hn Hm HW H2. split.
  - exists (Z.to_nat m). split_and!; [lia|by rewrite Z2Nat.id by lia|]. intros x Hx. by apply accept_count.
  - intros v Hv. pose proof n_range. pose proof (accept_value m v) as Hval.
    rewrite accept_spec in * by lia. eexists. split; [done|]. intros x Hx. apply Hval; [done|done|by rewrite Hx].
Qed.

Lemma full_uniform : n = B → uniform (λ v, Ok (Some (as_ty t (as_uint (unsigned t) v)))).
Proof.
  intros Hn. pose proof row_pow. destruct Hrow as [Hb _]. pose proof (bits_pos (unsigned t)).
  assert (HW : W = 2 ^ (bits (u_large t) - bits (unsigned t)) * B).
  { rewrite <- Z.pow_add_r by lia. f_equal. lia. }
  split.
  - exists (Z.to_nat (2 ^ (bits (u_large t) - bits (unsigned t)))).
    split_and!; [lia|rewrite Z2Nat.id by lia; lia|]. intros x Hx. by apply full_count.
  - intros v Hv. eexists. split; [done|]. intros x [= <-]. pose proof (as_ty_range t (as_uint (unsigned t) v)).
    pose proof (ty_size t). unfold n in *. lia.
Qed.

(** What [new_inclusive] makes. *)
Lemma ui_new_inclusive_spec {E} :
  ui_new_inclusive (E := E) t low high
  = Ok (mkUniformInt low (as_ty t (n `mod` B)) (as_ty t (if bool_decide (n < B) then W `mod` n else 0))).
Proof.
  unfold ui_new_inclusive. rewrite bool_decide_true by done. rewrite range_spec.
  pose proof n_range. pose proof row_pow. destruct (decide (n < B)) as [Hn|Hn].
  - rewrite (bool_decide_true (n < B)), (Z.mod_small n) by lia. rewrite bool_decide_true by lia.
    rewrite as_ty_uint. do 3 f_equal.
    replace (W - 1 - n + 1) with (W + (-1) * n) by lia. apply Z.mod_add. lia.
  - assert (n = B) as -> by lia. rewrite Z.mod_same by lia. by rewrite !bool_decide_false by lia.
Qed.

Lemma draw_uniform :
  ∃ d, ui_new_inclusive (E := unit) t low high = Ok d ∧ uniform (draw t d).
Proof.
  eexists. split; [apply ui_new_inclusive_spec|]. unfold draw. simpl u_range. simpl u_z. simpl u_low.
  rewrite !as_uint_ty. pose proof n_range as Hr. pose proof row_pow as HB.
  destruct (decide (n < B)) as [Hn|Hn].
  - rewrite (bool_decide_true (n < B)) by done.
    rewrite (as_uint_small _ (n `mod` B)), (Z.mod_small n) by (rewrite ?Z.mod_small; lia).
    pose proof (Z.mod_pos_bound W n ltac:(lia)). rewrite (as_uint_small _ (W `mod` n)) by lia.
    rewrite bool_decide_true by lia.
    assert (E1 : W - 1 - W `mod` n = modulus_zone * n - 1).
    { rewrite <- modulus_zone_spec. replace (W - 1 - n + 1) with (W + (-1) * n) by lia. by rewrite Z.mod_add by lia. }
    rewrite E1. destruct modulus_zone_bounds as (H1 & H2 & H3). by apply accept_uniform.
  - assert (n = B) as HnB by lia. rewrite HnB, Z.mod_same by lia.
    rewrite as_uint_small by lia. rewrite bool_decide_false by lia. by apply full_uniform.
Qed.

Lemma single_draw_uniform : uniform (single_draw t low high).
Proof.
  unfold single_draw. rewrite range_spec. pose proof n_range as Hr. pose proof row_pow as HB.
  destruct (decide (n < B)) as [Hn|Hn].
  - rewrite (Z.mod_small n) by lia. rewrite bool_decide_false by lia. unfold single_zone.
    case_bool_decide as Hb.
    + rewrite modulus_zone_spec. destruct modulus_zone_bounds as (H1 & H2 & H3). by apply accept_uniform.
    + destruct Hrow as [_ Hw]. rewrite shift_zone_spec by lia.
      destruct shift_zone_bounds as (H1 & H2 & H3); [lia|]. apply accept_uniform; [done|done|lia|done].
  - assert (n = B) as HnB by lia. rewrite HnB, Z.mod_same by lia. rewrite bool_decide_true by done. by apply full_uniform.
Qed.

End range.
End uniform_proofs.

Lemma int_tys_row t : t ∈ int_tys → row_ok t.
Proof.
  unfold int_tys. rewrite !elem_of_cons. intros Ht.
  destruct_or! Ht; subst; [unfold row_ok; simpl; lia..|by apply elem_of_nil in Ht].
Qed.

(** * The loops *)

Section loops.
Context {R : Type}.

(** The generator gives the words [vs], one after the other, and is then [r']. *)
Inductive takes (gen : method R unit Z) : R → list Z → R → Prop :=
  | takes_nil r : takes gen r [] r
  | takes_cons r v r1 vs r' : gen r = (Ok v, r1) → takes gen r1 vs r' → takes gen r (v :: vs) r'.

(** The loop returns what the first word that is accepted gives, and takes no more. *)
Lemma sample_loop_first {A} gen (f : Z → res unit (option A)) r vs v x r' fuel :
  takes gen r (vs ++ [v]) r' → Forall (λ u, f u = Ok None) vs → f v = Ok (Some x) → (length vs < fuel)%nat →
  sample_loop fuel gen f r = (Ok x, r').
Proof.
  intros Ht Hvs Hv. revert r fuel Ht. induction Hvs as [|u vs Hu _ IH]; intros r fuel Ht Hf.
  - destruct fuel as [|fuel]; [simpl in Hf; lia|]. inversion Ht as [|? ? r1 ? ? E1 Ht1]; subst.
    inversion Ht1; subst. simpl. rewrite (st_bind_ok _ _ _ _ _ E1).
    by rewrite (st_bind_try (λ _, f v) _ _ (Some x)).
  - destruct fuel as [|fuel]; [simpl in Hf; lia|]. inversion Ht as [|? ? r1 ? ? E1 Ht1]; subst.
    simpl. rewrite (st_bind_ok _ _ _ _ _ E1). rewrite (st_bind_try (λ _, f u) _ _ None) by done.
    apply IH; [done|simpl in Hf; lia].
Qed.

(** As long as all words are turned down, the loop goes on. *)
Lemma sample_loop_none {A} gen (f : Z → res unit (option A)) r vs r' :
  takes gen r vs r' → Forall (λ u, f u = Ok None) vs → sample_loop (length vs) gen f r = (NoFuel, r').
Proof.
  intros Ht Hvs. revert r Ht. induction Hvs as [|u vs Hu _ IH]; intros r Ht.
  - by inversion Ht.
  - inversion Ht as [|? ? r1 ? ? E1 Ht1]; subst. simpl.
    rewrite (st_bind_ok _ _ _ _ _ E1), (st_bind_try (λ _, f u) _ _ None) by done. by apply IH.
Qed.

(** Whatever the loop returns was given by a word. *)
Lemma sample_loop_inv {A} (gen : method R unit Z) (f : Z → res unit (option A)) fuel r x r' :
  sample_loop fuel gen f r = (Ok x, r') → ∃ v r1 r2, gen r1 = (Ok v, r2) ∧ f v = Ok (Some x).
Proof.
  revert r. induction fuel as [|fuel IH]; intros r; simpl; [done|].
  unfold st_bind at 1. destruct (gen r) as [[v| | |] r1] eqn:E1; try done.
  unfold st_bind, st_try. destruct (f v) as [[y|]| | |] eqn:E2; try done.
  - intros [= -> _]. eauto.
  - apply IH.
Qed.

End loops.

Lemma as_uint_idem u x : as_uint u (as_uint u x) = as_uint u x.
Proof. unfold as_uint. apply Z.mod_mod. pose proof (bits_pos u). lia. Qed.

Lemma gen_uint_small {R} `{RngCore R unit} u r v r' :
  u = U8 ∨ u = U16 → next_u32 r = (Ok v, r') → gen_uint (E := unit) u r = (Ok (as_uint u v), r').
Proof. intros [-> | ->] Hg; simpl; unfold st_bind; by rewrite Hg. Qed.

(** [gen] of a type takes one word of the larger type. *)
Lemma gen_int_word {R} `{RngCore R unit} t r v r' :
  t ∈ int_tys → gen_uint (u_large t) r = (Ok v, r') →
  gen_int (E := unit) t r = (Ok (as_ty t (as_uint (unsigned t) v)), r').
Proof.
  intros Ht Hg.
  assert (∃ v', gen_uint (unsigned t) r = (Ok v', r') ∧ as_uint (unsigned t) v' = as_uint (unsigned t) v) as (v' & E1 & E2).
  { unfold int_tys in Ht. rewrite !elem_of_cons in Ht.
    destruct_or! Ht; subst; try (by apply elem_of_nil in Ht); try (by exists v);
      (change (next_u32 r = (Ok v, r')) in Hg; eexists; split;
        [apply gen_uint_small; [by auto|exact Hg]|apply as_uint_idem]). }
  unfold gen_int. rewrite (st_bind_ok _ _ _ _ _ E1). unfold st_ret. do 2 f_equal.
  by rewrite <- as_ty_uint, E2.
Qed.

(** A generator that works: it always has a next word. *)
Class RngWorks (R : Type) `{RngCore R unit} : Prop := {
  next_u32_works r : ∃ v r', next_u32 (E := unit) r = (Ok v, r');
  next_u64_works r : ∃ v r', next_u64 (E := unit) r = (Ok v, r');
}.

(** An outcome that is good, or a loop that needs more rounds. *)
Definition good {A} (P : A → Prop) (o : res unit A) : Prop :=
  match o with Ok x => P x | NoFuel => True | Err _ | Panic => False end.

Lemma good_bind {R A B} (m : method R unit A) (f : A → method R unit B) P Q r :
  good P (m r).1 → (∀ x r', m r = (Ok x, r') → P x → good Q (f x r').1) → good Q (st_bind m f r).1.
Proof.
  intros Hm Hf. unfold st_bind. destruct (m r) as [[x| | |] r'] eqn:E1; try done. by apply Hf.
Qed.

Lemma good_mono {A} (P Q : A → Prop) o : good P o → (∀ x, P x → Q x) → good Q o.
Proof. intros Ho HPQ. destruct o; simpl in *; auto. Qed.

(** The words of a generator that keeps to the trait. *)
Lemma lor_words k x y : 0 ≤ k → 0 ≤ x < 2 ^ k → 0 ≤ y < 2 ^ k → 0 ≤ Z.lor (Z.shiftl y k) x < 2 ^ (k + k).
Proof.
  intros Hk Hx Hy. assert (0 ≤ Z.shiftl y k) by (apply Z.shiftl_nonneg; lia).
  assert (0 ≤ Z.lor (Z.shiftl y k) x) by (apply Z.lor_nonneg; lia). split; [done|].
  apply Z.bounded_iff_bits_nonneg; [lia|done|]. intros l Hl. rewrite Z.lor_spec, Z.shiftl_spec by lia.
  rewrite (proj1 (Z.bounded_iff_bits_nonneg k x ltac:(lia) ltac:(lia))) by lia.
  by rewrite (proj1 (Z.bounded_iff_bits_nonneg k y ltac:(lia) ltac:(lia))) by lia.
Qed.

Lemma gen_uint_range {R} `{RngCoreOk R unit} u r v r' : gen_uint (E := unit) u r = (Ok v, r') → 0 ≤ v < 2 ^ bits u.
Proof.
  destruct u; cbn [gen_uint bits].
  1,2: unfold st_bind; destruct (next_u32 r) as [[x| | |] r1]; intros [=]; subst; apply as_uint_range.
  1: apply next_u32_range. 1,3: apply next_u64_range.
  unfold st_bind. destruct (next_u64 r) as [[x| | |] r1] eqn:E1; try done.
  destruct (next_u64 r1) as [[y| | |] r2] eqn:E2; try done. intros [= <- _].
  apply next_u64_range in E1, E2. by apply (lor_words 64).
Qed.

Section samplers.
Context {R : Type} `{RngCore R unit}.
Variable t : int_ty.
Hypothesis Ht : t ∈ int_tys.

(** [sample] and [sample_single_inclusive] return what the first accepted word gives. *)
Lemma ui_sample_first fuel d r vs v x r' :
  takes (gen_uint (u_large t)) r (vs ++ [v]) r' →
  Forall (λ u, draw t d u = Ok (E := unit) None) vs → draw t d v = Ok (E := unit) (Some x) → (length vs < fuel)%nat →
  ui_sample t fuel d r = (Ok x, r').
Proof.
  intros Htk Hvs Hv Hf. unfold ui_sample. case_bool_decide as H0.
  - by eapply sample_loop_first.
  - unfold draw in Hvs, Hv. rewrite bool_decide_false in * by done.
    destruct vs as [|u vs]; [|by inversion Hvs]. injection Hv as <-.
    inversion Htk as [|? ? r1 ? ? E1 Ht1]; subst. inversion Ht1; subst. by apply gen_int_word.
Qed.

Lemma ui_sample_single_inclusive_first fuel low high r vs v x r' :
  low ≤ high → takes (gen_uint (u_large t)) r (vs ++ [v]) r' →
  Forall (λ u, single_draw t low high u = Ok (E := unit) None) vs →
  single_draw t low high v = Ok (E := unit) (Some x) → (length vs < fuel)%nat →
  ui_sample_single_inclusive t fuel low high r = (Ok x, r').
Proof.
  intros Hle Htk Hvs Hv Hf. unfold ui_sample_single_inclusive. rewrite bool_decide_true by done.
  case_bool_decide as H0.
  - unfold single_draw in Hvs, Hv. rewrite bool_decide_true in * by done.
    destruct vs as [|u vs]; [|by inversion Hvs]. injection Hv as <-.
    inversion Htk as [|? ? r1 ? ? E1 Ht1]; subst. inversion Ht1; subst. by apply gen_int_word.
  - by eapply sample_loop_first.
Qed.

Context `{!RngCoreOk R unit} `{!RngWorks R}.

Lemma gen_uint_works u r : ∃ v r', gen_uint (E := unit) u r = (Ok v, r').
Proof.
  destruct (next_u32_works r) as (v & r1 & E1), (next_u64_works r) as (x & r2 & E2).
  destruct u; [do 2 eexists; apply gen_uint_small; [by auto|exact E1]..| | | |]; cbn [gen_uint]; eauto.
  destruct (next_u64_works r2) as (y & r3 & E3).
  do 2 eexists. rewrite (st_bind_ok _ _ _ _ _ E2), (st_bind_ok _ _ _ _ _ E3). done.
Qed.

Lemma sample_loop_good {A} u (f : Z → res unit (option A)) (P : A → Prop) fuel r :
  (∀ v, 0 ≤ v < 2 ^ bits u → ∃ o, f v = Ok o ∧ ∀ x, o = Some x → P x) →
  good P (sample_loop fuel (gen_uint u) f r).1.
Proof.
  intros Hf. revert r. induction fuel as [|fuel IH]; intros r; [done|]. simpl.
  destruct (gen_uint_works u r) as (v & r1 & E1). rewrite (st_bind_ok _ _ _ _ _ E1).
  destruct (Hf v (gen_uint_range _ _ _ _ E1)) as (o & Ho & Hx).
  rewrite (st_bind_try (λ _, f v) _ _ o) by done. destruct o as [x|]; [by apply Hx|apply IH].
Qed.

Lemma gen_int_good r : good (λ x, ty_min t ≤ x ≤ ty_max t) (gen_int (E := unit) t r).1.
Proof.
  unfold gen_int. destruct (gen_uint_works (unsigned t) r) as (v & r1 & E1).
  rewrite (st_bind_ok _ _ _ _ _ E1). apply as_ty_range.
Qed.

(** A range of all the values of the type. *)
Lemma full_range low high :
  ty_min t ≤ low → low ≤ high → high ≤ ty_max t → (high - low + 1) `mod` 2 ^ bits (unsigned t) = 0 →
  ty_min t = low ∧ ty_max t = high.
Proof.
  intros H1 H2 H3 H0. pose proof (n_range t low high H1 H2 H3).
  assert (high - low + 1 = 2 ^ bits (unsigned t)) as Hn.
  { destruct (decide (high - low + 1 < 2 ^ bits (unsigned t))) as [Hn|Hn]; [|lia].
    rewrite Z.mod_small in H0; lia. }
  pose proof (ty_size t). lia.
Qed.

(** [sample] and [sample_single_inclusive] return a value of the range, if they return. *)
Lemma ui_sample_good fuel low high d r :
  ty_min t ≤ low → low ≤ high → high ≤ ty_max t → ui_new_inclusive (E := unit) t low high = Ok d →
  good (λ x, low ≤ x ≤ high) (ui_sample t fuel d r).1.
Proof.
  intros H1 H2 H3 Hd. destruct (draw_uniform t (int_tys_row t Ht) low high H1 H2 H3) as (d' & Hd' & _ & Hval).
  rewrite Hd in Hd'. injection Hd' as <-. unfold ui_sample. case_bool_decide as H0.
  - by apply sample_loop_good.
  - rewrite (ui_new_inclusive_spec t (int_tys_row t Ht)) in Hd by done. injection Hd as <-.
    simpl in H0. rewrite as_uint_ty in H0.
    destruct (full_range low high) as [<- <-]; [done..| |apply gen_int_good].
    pose proof (Z.mod_pos_bound (high - low + 1) (2 ^ bits (unsigned t))) as Hm.
    pose proof (row_pow t (int_tys_row t Ht)). rewrite as_uint_small in H0 by lia. lia.
Qed.

Lemma ui_sample_single_inclusive_good fuel low high r :
  ty_min t ≤ low → low ≤ high → high ≤ ty_max t →
  good (λ x, low ≤ x ≤ high) (ui_sample_single_inclusive t fuel low high r).1.
Proof.
  intros H1 H2 H3. unfold ui_sample_single_inclusive. rewrite bool_decide_true by done.
  destruct (single_draw_uniform t (int_tys_row t Ht) low high H1 H2 H3) as [_ Hval].
  case_bool_decide as H0; [|by apply sample_loop_good].
  rewrite (range_spec t (int_tys_row t Ht)) in H0.
  destruct (full_range low high) as [<- <-]; [done..|apply gen_int_good].
Qed.

Lemma gen_range_good fuel low high r :
  ty_min t ≤ low → low < high → high - 1 ≤ ty_max t →
  good (λ x, low ≤ x < high) (gen_range t fuel low high r).1.
Proof.
  intros H1 H2 H3. unfold gen_range, ui_sample_single. rewrite !bool_decide_true by done.
  pose proof (ui_sample_single_inclusive_good fuel low (high - 1) r H1 ltac:(lia) H3) as Hg.
  destruct (ui_sample_single_inclusive _ _ _ _ _) as [[x| | |] r1]; simpl in *; lia || done.
Qed.

Lemma gen_range_inclusive_good fuel low high r :
  ty_min t ≤ low → low ≤ high → high ≤ ty_max t →
  good (λ x, low ≤ x ≤ high) (gen_range_inclusive t fuel low high r).1.
Proof.
  intros H1 H2 H3. unfold gen_range_inclusive. rewrite bool_decide_true by done.
  by apply ui_sample_single_inclusive_good.
Qed.

End samplers.

(** * Characters and slices: what the unsafe blocks rely on *)

(** A [char] is a scalar value of Unicode. *)
Definition is_char (c : Z) : Prop := 0 ≤ c < 0xD800 ∨ 0xE000 ≤ c < 0x110000.

Ltac char_cases := intros; unfold is_char, char_to_comp_u32, CHAR_SURROGATE_LEN, CHAR_SURROGATE_START, GAP_SIZE in *;
  repeat case_bool_decide; lia.

Lemma char_to_comp_u32_range c : is_char c → 0 ≤ char_to_comp_u32 c < 0x110000 - 0x800.
Proof. char_cases. Qed.

Lemma u32_row : u32_ty ∈ int_tys.
Proof. unfold int_tys. repeat constructor. Qed.
Lemma usize_row : usize_ty ∈ int_tys.
Proof. unfold int_tys. repeat constructor. Qed.

Lemma u32_bounds : ty_min u32_ty = 0 ∧ ty_max u32_ty = 2 ^ 32 - 1.
Proof. done. Qed.
Lemma usize_bounds : ty_min usize_ty = 0 ∧ ty_max usize_ty = 2 ^ 64 - 1.
Proof. done. Qed.

Section chars_sound.
Context {R : Type} `{RngCoreOk R unit} `{!RngWorks R}.

Lemma uc_sample_good fuel low high d r :
  is_char low → is_char high → low ≤ high →
  uc_new_inclusive (E := unit) low high = Ok d →
  good (λ c, is_char c ∧ low ≤ c ≤ high) (uc_sample fuel d r).1.
Proof.
  intros Hl Hh Hle Hd. pose proof (char_to_comp_u32_range low Hl). pose proof (char_to_comp_u32_range high Hh).
  eapply good_bind.
  - destruct u32_bounds as [Hmin Hmax].
    apply (ui_sample_good u32_ty u32_row fuel (char_to_comp_u32 low) (char_to_comp_u32 high));
      [lia|char_cases|lia|done].
  - intros x r' _ Hx. simpl. char_cases.
Qed.

Lemma gen_char_good fuel r : good is_char (gen_char fuel r).1.
Proof.
  unfold gen_char. rewrite (st_bind_try (λ _, ui_new u32_ty GAP_SIZE 0x110000) _ _
    (mkUniformInt GAP_SIZE (0x110000 - GAP_SIZE) (2 ^ 32 `mod` (0x110000 - GAP_SIZE)))) by done.
  eapply good_bind; [apply (ui_sample_good u32_ty u32_row fuel GAP_SIZE 0x10FFFF); done|].
  intros x r' _ Hx. simpl. char_cases.
Qed.

(** The index is in the slice. *)
Lemma slice_sample_good {A} fuel (l : list A) d r :
  Z.of_nat (length l) < 2 ^ 64 → slice_new l = Ok d → good (.∈ l) (slice_sample fuel d r).1.
Proof.
  intros Hl. unfold slice_new. destruct (length l) as [|n] eqn:En; [done|].
  unfold ui_new. rewrite bool_decide_true by lia. set (high := Z.of_nat (S n) - 1).
  destruct usize_bounds as [Hmin Hmax].
  rewrite (ui_new_inclusive_spec usize_ty (int_tys_row _ usize_row) 0 high); [|lia..].
  intros [= <-]. unfold slice_sample. simpl fst. simpl snd.
  eapply good_bind; [apply (ui_sample_good usize_ty usize_row fuel 0 high); [lia..|]|].
  { apply (ui_new_inclusive_spec usize_ty (int_tys_row _ usize_row)); lia. }
  intros x r' _ Hx. unfold st_try, at_index. simpl.
  destruct (lookup_lt_is_Some_2 l (Z.to_nat x)) as [y Hy]; [rewrite En; unfold high in Hx; lia|]. rewrite Hy. simpl.
  by apply list_elem_of_lookup_2 in Hy.
Qed.

End chars_sound.

(** Every letter and every digit is given by the same number of words. *)
Lemma alphanumeric_count c : c ∈ GEN_ASCII_STR_CHARSET → count alphanumeric_draw (2 ^ 32) c = Z.to_nat (2 ^ 26).
Proof.
  intros Hc. apply list_elem_of_lookup in Hc as [i Hi].
  assert (Hlt : (i < 62)%nat) by (apply lookup_lt_Some in Hi; exact Hi).
  apply (count_interval _ _ _ (Z.of_nat i * 2 ^ 26)); [lia|lia|lia|].
  intros v Hv. unfold gives, alphanumeric_draw.
  change (32 - 6) with 26. rewrite Z.shiftr_div_pow2 by lia.
  pose proof (Z.div_mod v (2 ^ 26) ltac:(lia)). pose proof (Z.mod_pos_bound v (2 ^ 26) ltac:(lia)).
  assert (Hnd : NoDup GEN_ASCII_STR_CHARSET) by (apply (bool_decide_unpack _); vm_compute; done).
  assert (0 ≤ v `div` 2 ^ 26) by (apply Z.div_pos; lia).
  set (q := v `div` 2 ^ 26) in *. transitivity (q = Z.of_nat i); [|lia].
  case_bool_decide as Hq.
  - unfold at_index. destruct (GEN_ASCII_STR_CHARSET !! Z.to_nat q) as [y|] eqn:Ey; simpl.
    + split; [intros [= ->]; pose proof (NoDup_lookup _ _ _ _ Hnd Ey Hi); lia|].
      intros ->. rewrite Nat2Z.id in Ey. congruence.
    + apply lookup_ge_None in Ey. change (length GEN_ASCII_STR_CHARSET) with 62%nat in Ey. lia.
  - split; [done|lia].
Qed.
