(* ===== verification/RandSeq.v ===== *)
(** Random choices from slices and iterators (rand/src/seq/mod.rs, index.rs).

    [gen_index] draws below a bound; everything else is a function of what it draws.
    Loops over iterators take fuel, one round per item and one for the end; the loops
    of the generator have their own ([fuel]). *)
From Stdlib Require Import ZArith Lia Strings.Byte.
From stdpp Require Import base list numbers option gmap sets.
From Stdlib Require Import Floats.SpecFloat.
From S2P Require Import Prelude StateMonad Words RandCore RandUniform.
#[local] Open Scope Z_scope.

(** [l.swap(a, b)] *)
Definition swap {A E} (a b : nat) (l : list A) : res E (list A) :=
  let? x := at_index l a in
  let? y := at_index l b in
  Ok (<[b := x]> (<[a := y]> l)).

Section seq.
Context {R E : Type} `{RngCore R E}.
Variable fuel : nat.

Definition gen_index (ubound : nat) : method R E nat :=
  let! i :=
    if bool_decide (Z.of_nat ubound ≤ 2 ^ 32 - 1)
    then gen_range u32_ty fuel 0 (as_u32 (Z.of_nat ubound))
    else gen_range usize_ty fuel 0 (Z.of_nat ubound) in
  st_ret (Z.to_nat i).

(** * SliceRandom *)

Section slices.
Context {A : Type}.

Definition choose (l : list A) : method R E (option A) :=
  match l with
  | [] => st_ret None
  | _ => let! i := gen_index (length l) in let! x := st_try (λ _, at_index l i) in st_ret (Some x)
  end.

(** [for i in ixs { self.swap(i, gen_index(rng, i + 1)) }] *)
Fixpoint swap_loop (ixs : list nat) (l : list A) : method R E (list A) :=
  match ixs with
  | [] => st_ret l
  | i :: ixs =>
      let! j := gen_index (i + 1) in
      let! l := st_try (λ _, swap i j l) in
      swap_loop ixs l
  end.

Definition shuffle (l : list A) : method R E (list A) := swap_loop (reverse (seq 1 (length l - 1))) l.

Definition partial_shuffle (l : list A) (amount : nat) : method R E (list A * list A) :=
  let len := length l in
  let end_ := if bool_decide (len ≤ amount)%nat then 0%nat else (len - amount)%nat in
  let! l := swap_loop (reverse (seq end_ (len - end_))) l in
  st_ret (drop end_ l, take end_ l).

End slices.

(** * index.rs *)

(** [IndexVec]: the indices, and the type they are kept in. *)
Inductive IndexVec : Type :=
  | IvU32 (v : list Z)
  | IvUSize (v : list Z).
Definition into_vec (iv : IndexVec) : list Z := match iv with IvU32 v => v | IvUSize v => v end.
Definition iv_len (iv : IndexVec) : nat := length (into_vec iv).
Definition iv_index {E'} (iv : IndexVec) (i : nat) : res E' Z := at_index (into_vec iv) i.

(** [==] compares the indices, whatever type they are kept in. *)
Definition iv_eq (a b : IndexVec) : bool :=
  match a, b with
  | IvU32 v1, IvU32 v2 => bool_decide (v1 = v2)
  | IvUSize v1, IvUSize v2 => bool_decide (v1 = v2)
  | IvU32 v1, IvUSize v2 | IvUSize v1, IvU32 v2 =>
      bool_decide (length v1 = length v2) && forallb (λ p, bool_decide (p.1 = p.2)) (zip v1 v2)
  end.

(** The integer of [iter().position(|&x| x == t)]. *)
Fixpoint position (t : Z) (l : list Z) : option nat :=
  match l with
  | [] => None
  | x :: l => if bool_decide (x = t) then Some 0%nat else S <$> position t l
  end.

Definition floyd_step (floyd_shuffle : bool) (indices : list Z) (j t : Z) : list Z :=
  if floyd_shuffle then
    match position t indices with
    | Some pos => take pos indices ++ j :: drop pos indices
    | None => indices ++ [t]
    end
  else if bool_decide (t ∈ indices) then indices ++ [j]
  else indices ++ [t].

Fixpoint floyd_loop (floyd_shuffle : bool) (js : list Z) (indices : list Z) : method R E (list Z) :=
  match js with
  | [] => st_ret indices
  | j :: js =>
      let! t := gen_range_inclusive u32_ty fuel 0 j in
      floyd_loop floyd_shuffle js (floyd_step floyd_shuffle indices j t)
  end.

(** The shuffle at the end of [sample_floyd], with indices of 32 bits. *)
Fixpoint swap_loop32 (ixs : list nat) (l : list Z) : method R E (list Z) :=
  match ixs with
  | [] => st_ret l
  | i :: ixs =>
      let! j := gen_range_inclusive u32_ty fuel 0 (Z.of_nat i) in
      let! l := st_try (λ _, swap i (Z.to_nat j) l) in
      swap_loop32 ixs l
  end.

Definition sample_floyd (debug : bool) (length amount : Z) : method R E IndexVec :=
  let floyd_shuffle := bool_decide (amount < 50) in
  let! _ := st_try (λ _, debug_assert debug (bool_decide (amount ≤ length)) (Ok tt)) in
  let! indices := floyd_loop floyd_shuffle (seqZ (length - amount) amount) [] in
  let! indices :=
    if floyd_shuffle then st_ret indices
    else swap_loop32 (reverse (seq 1 (Z.to_nat amount - 1))) indices in
  st_ret (IvU32 indices).

Fixpoint inplace_loop (length : Z) (ixs : list nat) (indices : list Z) : method R E (list Z) :=
  match ixs with
  | [] => st_ret indices
  | i :: ixs =>
      let! j := gen_range u32_ty fuel (Z.of_nat i) length in
      let! indices := st_try (λ _, swap i (Z.to_nat j) indices) in
      inplace_loop length ixs indices
  end.

Definition sample_inplace (debug : bool) (length amount : Z) : method R E IndexVec :=
  let! _ := st_try (λ _, debug_assert debug (bool_decide (amount ≤ length)) (Ok tt)) in
  let! indices := inplace_loop length (seq 0 (Z.to_nat amount)) (seqZ 0 length) in
  let indices := take (Z.to_nat amount) indices in
  let! _ := st_try (λ _, debug_assert debug (bool_decide (Z.of_nat (List.length indices) = amount)) (Ok tt)) in
  st_ret (IvU32 indices).

(** One index that is not in the cache: at most [tries] samples. *)
Fixpoint reject_loop (t : int_ty) (tries : nat) (distr : UniformInt) (cache : gset Z) : method R E Z :=
  match tries with
  | O => st_try (λ _, NoFuel)
  | S tries =>
      let! pos := ui_sample t fuel distr in
      if bool_decide (pos ∈ cache) then reject_loop t tries distr cache else st_ret pos
  end.

Fixpoint rejection_loop (t : int_ty) (tries n : nat) (distr : UniformInt) (cache : gset Z) (indices : list Z)
  : method R E (list Z) :=
  match n with
  | O => st_ret indices
  | S n =>
      let! pos := reject_loop t tries distr cache in
      rejection_loop t tries n distr ({[pos]} ∪ cache) (indices ++ [pos])
  end.

Definition sample_rejection (debug : bool) (t : int_ty) (tries : nat) (length amount : Z) : method R E (list Z) :=
  let! _ := st_try (λ _, debug_assert debug (bool_decide (amount < length)) (Ok tt)) in
  let! distr := st_try (λ _, ui_new t 0 length) in
  let! indices := rejection_loop t tries (Z.to_nat amount) distr ∅ [] in
  let! _ := st_try (λ _, debug_assert debug (bool_decide (Z.of_nat (List.length indices) = amount)) (Ok tt)) in
  st_ret indices.

(** [f32]: 24 bits of precision, and the constants by one division. *)
Definition f32_of (z : Z) : spec_float := binary_normalize 24 128 z 0 false.
Definition f32_mul : spec_float → spec_float → spec_float := SFmul 24 128.
Definition f32_add : spec_float → spec_float → spec_float := SFadd 24 128.
Definition f32_div : spec_float → spec_float → spec_float := SFdiv 24 128.

Definition sample (debug : bool) (tries : nat) (length amount : Z) : method R E IndexVec :=
  if bool_decide (length < amount) then st_try (λ _, Panic)
  else if bool_decide (2 ^ 32 - 1 < length) then
    let! v := sample_rejection debug usize_ty tries length amount in st_ret (IvUSize v)
  else
    let amount_fp := f32_of amount in
    let length_fp := f32_of length in
    let small := bool_decide (length < 500000) in
    if bool_decide (amount < 163) then
      let c0 := if small then f32_div (f32_of 16) (f32_of 10) else f32_div (f32_of 8) (f32_of 45) in
      let c1 := if small then f32_of 10 else f32_div (f32_of 70) (f32_of 9) in
      let m4 := f32_mul c0 amount_fp in
      if bool_decide (11 < amount) && SFltb length_fp (f32_mul (f32_add c1 m4) amount_fp)
      then sample_inplace debug length amount
      else sample_floyd debug length amount
    else
      let c := if small then f32_of 270 else f32_div (f32_of 330) (f32_of 9) in
      if SFltb length_fp (f32_mul c amount_fp)
      then sample_inplace debug length amount
      else let! v := sample_rejection debug u32_ty tries length amount in st_ret (IvU32 v).

(** [choose_multiple] of a slice, all items of its iterator. *)
Definition slice_choose_multiple {A} (debug : bool) (tries : nat) (l : list A) (amount : nat) : method R E (list A) :=
  let amount := Nat.min amount (length l) in
  let! indices := sample debug tries (Z.of_nat (length l)) (Z.of_nat amount) in
  st_try (λ _, for_each (λ acc i, let? x := at_index l (Z.to_nat i) in Ok (acc ++ [x])) (into_vec indices) []).

End seq.

(** * IteratorRandom *)

(** What the code uses of an [Iterator], and what the trait promises: [items] are the
    items that are still to come. *)
Class Iter (I A : Type) : Type := {
  it_next : I → option A * I;
  it_nth : nat → I → option A * I;
  size_hint : I → nat * option nat;
}.

Class IterOk (I A : Type) `{Iter I A} : Type := {
  items : I → list A;
  it_next_items i : it_next i = (head (items i), (it_next i).2) ∧ items (it_next i).2 = tail (items i);
  it_nth_items n i : it_nth n i = (items i !! n, (it_nth n i).2) ∧ items (it_nth n i).2 = drop (S n) (items i);
  size_hint_items i :
    ((size_hint i).1 ≤ length (items i))%nat ∧
    ∀ u, (size_hint i).2 = Some u → (length (items i) ≤ u)%nat;
}.

Section iterators.
Context {R E I A : Type} `{RngCore R E} `{Iter I A}.
Variable fuel : nat.

(** [choose]: [upper == Some(lower)] ends the loop early. *)
Fixpoint choose_loop (rounds : nat) (it : I) (lower : nat) (upper : option nat) (consumed : nat) (result : option A)
  : method R E (option A) :=
  match rounds with
  | O => st_try (λ _, NoFuel)
  | S rounds =>
      let again it consumed result :=
        let '(lower, upper) := size_hint it in choose_loop rounds it lower upper consumed result in
      if bool_decide (1 < lower)%nat then
        let! ix := gen_index fuel (lower + consumed) in
        let '(result, skip, it) :=
          if bool_decide (ix < lower)%nat
          then let '(x, it) := it_nth ix it in (x, (lower - (ix + 1))%nat, it)
          else (result, lower, it) in
        if bool_decide (upper = Some lower) then st_ret result
        else
          let it := if bool_decide (0 < skip)%nat then (it_nth (skip - 1) it).2 else it in
          again it (consumed + lower)%nat result
      else
        match it_next it with
        | (None, _) => st_ret result
        | (elem, it) =>
            let consumed := S consumed in
            let! k := gen_index fuel consumed in
            again it consumed (if bool_decide (k = 0)%nat then elem else result)
        end
  end.

Definition iter_choose (rounds : nat) (it : I) : method R E (option A) :=
  let '(lower, upper) := size_hint it in
  if bool_decide (upper = Some lower) then
    if bool_decide (lower = 0)%nat then st_ret None
    else let! i := gen_index fuel lower in st_ret (it_nth i it).1
  else choose_loop rounds it lower upper 0 None.

(** [(0..lower).filter(|ix| gen_index(rng, consumed+ix+1) == 0).last()] *)
Fixpoint filter_last (consumed : nat) (ixs : list nat) (last : option nat) : method R E (option nat) :=
  match ixs with
  | [] => st_ret last
  | ix :: ixs =>
      let! k := gen_index fuel (consumed + ix + 1) in
      filter_last consumed ixs (if bool_decide (k = 0)%nat then Some ix else last)
  end.

Fixpoint choose_stable_loop (debug : bool) (rounds : nat) (it : I) (consumed : nat) (result : option A)
  : method R E (option A) :=
  match rounds with
  | O => st_try (λ _, NoFuel)
  | S rounds =>
      let lower := (size_hint it).1 in
      let! (it, next, consumed, result) :=
        if bool_decide (2 ≤ lower)%nat then
          let! highest_selected := filter_last consumed (seq 0 lower) None in
          match highest_selected with
          | Some ix =>
              let '(result, it) := it_nth ix it in
              let! _ := st_try (λ _, debug_assert debug (bool_decide (result ≠ None)) (Ok tt)) in
              st_ret (it, (lower - (ix + 1))%nat, (consumed + lower)%nat, result)
          | None => st_ret (it, lower, (consumed + lower)%nat, result)
          end
        else st_ret (it, 0%nat, consumed, result) in
      match it_nth next it with
      | (None, _) => st_ret result
      | (elem, it) =>
          let! k := gen_index fuel (consumed + 1) in
          choose_stable_loop debug rounds it (consumed + 1) (if bool_decide (k = 0)%nat then elem else result)
      end
  end.
Definition choose_stable (debug : bool) (rounds : nat) (it : I) : method R E (option A) :=
  choose_stable_loop debug rounds it 0 None.

(** The first items go into the buffer, as many as fit. *)
Fixpoint fill_reservoir (room : nat) (it : I) : list A * option I :=
  match room with
  | O => ([], Some it)
  | S room =>
      match it_next it with
      | (None, _) => ([], None)
      | (Some elem, it) => let '(l, o) := fill_reservoir room it in (elem :: l, o)
      end
  end.

(** [for (i, elem) in self.enumerate()]: each later item may take the place of one in the buffer. *)
Fixpoint replace_loop (rounds : nat) (amount i : nat) (it : I) (buf : list A) : method R E (list A) :=
  match rounds with
  | O => st_try (λ _, NoFuel)
  | S rounds =>
      match it_next it with
      | (None, _) => st_ret buf
      | (Some elem, it) =>
          let! k := gen_index fuel (i + 1 + amount) in
          replace_loop rounds amount (S i) it (if bool_decide (k < length buf)%nat then <[k := elem]> buf else buf)
      end
  end.

Definition choose_multiple_fill (rounds : nat) (it : I) (buf : list A) : method R E (nat * list A) :=
  let amount := length buf in
  let '(l, o) := fill_reservoir amount it in
  let buf := l ++ drop (length l) buf in
  match o with
  | None => st_ret (length l, buf)
  | Some it => let! buf := replace_loop rounds amount 0 it buf in st_ret (length l, buf)
  end.

Definition iter_choose_multiple (rounds : nat) (it : I) (amount : nat) : method R E (list A) :=
  let '(reservoir, o) := fill_reservoir amount it in
  match o with
  | Some it => replace_loop rounds amount 0 it reservoir
  | None => st_ret reservoir
  end.

End iterators.
