(* ===== verification/RandArrange.v ===== *)
(** What the algorithms of rand/src/seq/mod.rs and index.rs arrange: the result as a
    function of what is drawn, and that each arrangement comes from one choice of draws. *)
From Stdlib Require Import ZArith Lia Strings.Byte Floats.SpecFloat.
From stdpp Require Import base list numbers option gmap sets.
From S2P Require Import Prelude StateMonad Words RandCore RandUniform RandSeq.
#[local] Open Scope Z_scope.

(** * Swaps as a function of what is drawn *)

Fixpoint apply_swaps {A E} (ixs js : list nat) (l : list A) : res E (list A) :=
  match ixs, js with
  | i :: ixs, j :: js => let? l := swap i j l in apply_swaps ixs js l
  | _, _ => Ok l
  end.

Lemma exists_last_length {A} (l : list A) :
  l ≠ [] → ∃ l0 z, l = l0 ++ [z] ∧ length l = S (length l0).
Proof.
  intros Hl. destruct l as [|z l0 _] using rev_ind; [done|]. exists l0, z. split; [done|]. rewrite length_app. simpl. lia.
Qed.

Section swaps.
Context {A : Type}.
Implicit Types l t q a b : list A.

(** The [j]-th element changes places with the last. *)
Lemma swap_last l z j :
  (j ≤ length l)%nat →
  ∃ l' x, swap (E := unit) (length l) j (l ++ [z]) = Ok (l' ++ [x]) ∧ length l' = length l ∧
    (l ++ [z]) !! j = Some x ∧ l' ++ [x] ≡ₚ l ++ [z].
Proof.
  intros Hj. unfold swap, at_index. rewrite lookup_app_r, Nat.sub_diag by lia. simpl.
  destruct (decide (j = length l)) as [->|Hne].
  - rewrite lookup_app_r, Nat.sub_diag by lia. simpl. exists l, z.
    rewrite !insert_app_r_alt, Nat.sub_diag by lia. simpl. done.
  - destruct (lookup_lt_is_Some_2 l j) as [y Hy]; [lia|]. rewrite lookup_app_l, Hy by lia. simpl.
    exists (<[j := z]> l), y. rewrite insert_app_r_alt, Nat.sub_diag by lia. simpl.
    rewrite insert_app_l by lia. rewrite length_insert. split_and!; [done|done|done|].
    rewrite <- (take_drop_middle l j y Hy) at 2. rewrite insert_take_drop by lia.
    rewrite <- !app_assoc. simpl. apply Permutation_app_head.
    rewrite <- (Permutation_cons_append _ y), <- (Permutation_cons_append _ z). apply Permutation_swap.
Qed.

(** The [j]-th element changes places with the first of the rest. *)
Lemma swap_first t z l j :
  (length t ≤ j < length t + S (length l))%nat →
  ∃ l' x, swap (E := unit) (length t) j (t ++ z :: l) = Ok (t ++ x :: l') ∧ length l' = length l ∧
    (z :: l) !! (j - length t)%nat = Some x ∧ x :: l' ≡ₚ z :: l.
Proof.
  intros Hj. unfold swap, at_index. rewrite list_lookup_middle by done. simpl.
  destruct (decide (j = length t)) as [->|Hne].
  - rewrite list_lookup_middle by done. simpl. exists l, z.
    rewrite !insert_app_r_alt, Nat.sub_diag by lia. simpl. done.
  - destruct (lookup_lt_is_Some_2 l (j - S (length t))) as [y Hy]; [lia|].
    rewrite lookup_app_r by lia. replace (j - length t)%nat with (S (j - S (length t))) by lia. simpl.
    rewrite Hy. simpl. exists (<[(j - S (length t))%nat := z]> l), y.
    rewrite !insert_app_r_alt, Nat.sub_diag by lia. simpl.
    replace (j - length t)%nat with (S (j - S (length t))) by lia. simpl.
    rewrite length_insert. split_and!; [done|done|done|].
    rewrite <- (take_drop_middle l _ y Hy) at 2. rewrite insert_take_drop by (by apply lookup_lt_Some in Hy).
    rewrite <- !Permutation_middle. apply Permutation_swap.
Qed.

(** Elements behind the swapped ones stay. *)
Lemma swap_app l t i j :
  (i < length l)%nat → (j < length l)%nat →
  ∃ l', swap (E := unit) i j l = Ok l' ∧ length l' = length l ∧ swap (E := unit) i j (l ++ t) = Ok (l' ++ t).
Proof.
  intros Hi Hj. unfold swap, at_index.
  destruct (lookup_lt_is_Some_2 l i Hi) as [x Hx], (lookup_lt_is_Some_2 l j Hj) as [y Hy].
  rewrite !lookup_app_l, Hx, Hy by done. simpl. eexists. split; [done|]. split; [by rewrite !length_insert|].
  rewrite insert_app_l by done. rewrite insert_app_l by (by rewrite length_insert). done.
Qed.

Lemma apply_swaps_app ixs js l t :
  Forall (λ i, i < length l)%nat ixs → Forall (λ j, j < length l)%nat js →
  ∃ l', apply_swaps (E := unit) ixs js l = Ok l' ∧ length l' = length l ∧
    apply_swaps (E := unit) ixs js (l ++ t) = Ok (l' ++ t).
Proof.
  revert js l. induction ixs as [|i ixs IH]; intros js l Hi Hj; [by exists l|].
  destruct js as [|j js]; [by exists l|]. inversion_clear Hi. inversion_clear Hj. simpl.
  destruct (swap_app l t i j) as (l1 & E1 & Hl1 & E2); [done..|]. rewrite E1, E2. simpl.
  destruct (IH js l1) as (l' & E3 & Hl' & E4); [by rewrite Hl1..|].
  exists l'. rewrite E3, E4. by rewrite Hl', Hl1.
Qed.

(** The indices that count down to [lo], and draws that do not exceed them. *)
Definition down (lo n : nat) : list nat := reverse (seq lo n).

Lemma down_S lo n : down lo (S n) = (lo + n)%nat :: down lo n.
Proof. unfold down. by rewrite seq_S, reverse_app. Qed.

Lemma down_bounds lo n js :
  Forall2 le js (down lo n) → Forall (λ i, i < lo + n)%nat (down lo n) ∧ Forall (λ j, j < lo + n)%nat js.
Proof.
  intros Hjs. assert (Hi : Forall (λ i, i < lo + n)%nat (down lo n)).
  { unfold down. apply Forall_reverse, Forall_seq. lia. }
  split; [done|]. apply Forall_lookup. intros k j Hk.
  destruct (Forall2_lookup_l _ _ _ _ _ Hjs Hk) as (i & Hik & Hle).
  pose proof (Forall_lookup_1 _ _ _ _ Hi Hik). simpl in *. lia.
Qed.

(** The swaps below the last element, which is then what [swap] has put there. *)
Lemma apply_down_step lo n l0 z j js :
  length l0 = (lo + n)%nat → (j ≤ length l0)%nat → Forall2 le js (down lo n) →
  ∃ l1 x l2, swap (E := unit) (length l0) j (l0 ++ [z]) = Ok (l1 ++ [x]) ∧ length l1 = length l0 ∧
    (l0 ++ [z]) !! j = Some x ∧ l1 ++ [x] ≡ₚ l0 ++ [z] ∧
    apply_swaps (E := unit) (down lo n) js l1 = Ok l2 ∧
    apply_swaps (E := unit) (down lo (S n)) (j :: js) (l0 ++ [z]) = Ok (l2 ++ [x]).
Proof.
  intros Hl0 Hj Hjs. destruct (swap_last l0 z j Hj) as (l1 & x & E1 & Hl1 & Hx & Hp).
  destruct (down_bounds _ _ _ Hjs) as [Hb1 Hb2]. rewrite <- Hl0, <- Hl1 in Hb1, Hb2.
  destruct (apply_swaps_app (down lo n) js l1 [x] Hb1 Hb2) as (l2 & E2 & _ & E3).
  exists l1, x, l2. split_and!; [done..|]. rewrite down_S, <- Hl0. simpl. by rewrite E1.
Qed.

(** Whatever is drawn, the swaps give a permutation. *)
Lemma apply_down_permutation lo n js l :
  length l = (lo + n)%nat → Forall2 le js (down lo n) →
  ∃ p, apply_swaps (E := unit) (down lo n) js l = Ok p ∧ p ≡ₚ l.
Proof.
  revert js l. induction n as [|n IH]; intros js l Hl Hjs; [by exists l|].
  pose proof Hjs as Hjs'. rewrite down_S in Hjs'. inversion Hjs' as [|j i js' ixs' Hj Hjs2]; subst.
  destruct (exists_last_length l) as (l0 & z & -> & Hl0); [by destruct l; [simpl in Hl; lia|]|].
  destruct (apply_down_step lo n l0 z j js') as (l1 & x & l2 & _ & Hl1 & _ & Hp & E2 & E3); [lia|lia|done|].
  destruct (IH js' l1) as (p & E4 & Hp4); [lia|done|]. rewrite E2 in E4. injection E4 as ->.
  exists (p ++ [x]). split; [done|]. by rewrite Hp4.
Qed.

(** Each arrangement of the last elements comes from exactly one choice of draws. *)
Lemma apply_down_unique lo n l q :
  length l = (lo + n)%nat → NoDup l → length q = n → NoDup q → q ⊆ l →
  exists! js, Forall2 le js (down lo n) ∧ ∃ a, apply_swaps (E := unit) (down lo n) js l = Ok (a ++ q).
Proof.
  revert l q. induction n as [|n IH]; intros l q Hl Hnd Hq Hndq Hsub.
  { destruct q; [|done]. exists []. split; [split; [constructor|exists l; by rewrite app_nil_r]|].
    intros js [Hjs _]. unfold down in Hjs. simpl in Hjs. by inversion Hjs. }
  destruct (exists_last_length l) as (l0 & z & -> & Hl0); [by destruct l; [simpl in Hl; lia|]|].
  destruct (exists_last_length q) as (q' & x & -> & Hq'); [by destruct q|].
  assert (Hl0' : length l0 = (lo + n)%nat) by lia.
  assert (Hx : x ∈ l0 ++ [z]) by (apply Hsub; set_solver).
  apply list_elem_of_lookup in Hx as [j Hj].
  assert (Hjl : (j ≤ length l0)%nat) by (apply lookup_lt_Some in Hj; lia).
  destruct (swap_last l0 z j Hjl) as (l1 & x' & E1 & Hl1 & Hx' & Hp). simplify_eq.
  apply list.NoDup_app in Hndq as (Hndq & Hxq & _).
  destruct (IH l1 q') as (js & [Hjs [a Ha]] & Huniq); [lia| |lia|done| |].
  { rewrite <- Hp in Hnd. by apply list.NoDup_app in Hnd as [? _]. }
  { intros y Hy. assert (y ∈ l1 ++ [x]) as Hy1 by (rewrite Hp; apply Hsub; set_solver).
    apply elem_of_app in Hy1 as [?|Hy1]; [done|]. apply list_elem_of_singleton in Hy1 as ->.
    exfalso. apply (Hxq x Hy). set_solver. }
  exists (j :: js). split.
  - split; [rewrite down_S, <- Hl0'; by constructor|].
    destruct (apply_down_step lo n l0 z j js) as (l1' & x1 & l2 & E1' & _ & _ & _ & E2 & E3); [done..|].
    rewrite E1 in E1'. injection E1' as E1'. apply app_inj_tail in E1' as [<- <-].
    rewrite Ha in E2. injection E2 as <-. exists a. by rewrite app_assoc.
  - intros js2 [Hjs2 [a' Ha']]. pose proof Hjs2 as Hjs2'. rewrite down_S in Hjs2. inversion Hjs2 as [|j2 i js3 ixs Hle Hjs3]; subst.
    destruct (apply_down_step lo n l0 z j2 js3) as (l1' & x1 & l2 & E1' & _ & Hx1 & _ & E2 & E3); [done|lia|done|].
    rewrite Ha' in E3. injection E3 as E3. rewrite app_assoc in E3. apply app_inj_tail in E3 as [E3 <-].
    assert (j2 = j) as -> by (eapply NoDup_lookup; [exact Hnd|eassumption|eassumption]).
    rewrite E1 in E1'. injection E1' as E1'. apply app_inj_tail in E1' as [<- _]. f_equal.
    apply Huniq. split; [done|]. exists a'. by rewrite E2, <- E3.
Qed.
End swaps.

(** * Swaps from the front: [sample_inplace] *)

Section front.
Context {A : Type}.
Implicit Types l t q : list A.

(** Draws from the index on. *)
Definition from_index (len : nat) (j i : nat) : Prop := (i ≤ j < len)%nat.

(** What comes first is in its place: the swaps after it leave it there. *)
Lemma apply_up_permutation n t l js :
  (n ≤ length l)%nat → Forall2 (from_index (length t + length l)) js (seq (length t) n) →
  ∃ p, apply_swaps (E := unit) (seq (length t) n) js (t ++ l) = Ok (t ++ p) ∧ p ≡ₚ l.
Proof.
  revert t l js. induction n as [|n IH]; intros t l js Hn Hjs; [by exists l; destruct js|].
  inversion Hjs as [|j i js' ixs' Hj Hjs']; subst. simpl.
  destruct l as [|z l]; [simpl in Hn; lia|]. unfold from_index in Hj. simpl in Hj, Hn.
  destruct (swap_first t z l j) as (l1 & x & E1 & Hl1 & _ & Hp); [lia|]. rewrite E1. simpl.
  destruct (IH (t ++ [x]) l1 js') as (p & E2 & Hp2); [lia| |].
  { rewrite length_app. simpl. rewrite Nat.add_1_r.
    replace (S (length t) + length l1)%nat with (length t + length (z :: l))%nat by (simpl; lia). done. }
  rewrite length_app in E2. simpl in E2. rewrite Nat.add_1_r, <- !app_assoc in E2. simpl in E2.
  exists (x :: p). split; [done|]. by rewrite <- Hp, Hp2.
Qed.

(** Each arrangement of the first elements comes from exactly one choice of draws. *)
Lemma apply_up_unique n t l q :
  length q = n → NoDup q → q ⊆ l → NoDup l →
  exists! js, Forall2 (from_index (length t + length l)) js (seq (length t) n) ∧
    ∃ b, apply_swaps (E := unit) (seq (length t) n) js (t ++ l) = Ok (t ++ q ++ b).
Proof.
  revert t l q. induction n as [|n IH]; intros t l q Hq Hndq Hsub Hnd.
  { destruct q; [|done]. exists []. split; [split; [constructor|by exists l]|].
    intros js [Hjs _]. simpl in Hjs. by inversion Hjs. }
  destruct q as [|x q]; [done|]. simpl in Hq.
  assert (Hx : x ∈ l) by (apply Hsub; set_solver). destruct l as [|z l]; [by apply elem_of_nil in Hx|].
  apply list_elem_of_lookup in Hx as [k Hk]. pose proof (lookup_lt_Some _ _ _ Hk) as Hkl. simpl in Hkl.
  inversion Hndq as [|? ? Hxq Hndq']; subst.
  destruct (swap_first t z l (length t + k)) as (l1 & x' & E1 & Hl1 & Hx' & Hp); [lia|].
  replace (length t + k - length t)%nat with k in Hx' by lia. simplify_eq.
  assert (Hlen : ∀ l2 : list A, length l2 = length l → (length (t ++ [x]) + length l2 = length t + length (z :: l))%nat).
  { intros l2 Hl2. rewrite length_app. simpl. lia. }
  assert (Hseq : seq (length (t ++ [x])) (length q) = seq (S (length t)) (length q)).
  { rewrite length_app. simpl. by rewrite Nat.add_1_r. }
  destruct (IH (t ++ [x]) l1 q) as (js & [Hjs [b Hb]] & Huniq); [done|done| | |].
  { intros y Hy. assert (y ∈ x :: l1) as Hy1 by (rewrite Hp; apply Hsub; set_solver).
    apply elem_of_cons in Hy1 as [->|?]; done. }
  { rewrite <- Hp in Hnd. by inversion Hnd. }
  rewrite Hseq, (Hlen l1 Hl1) in *. rewrite <- !app_assoc in Hb. simpl in Hb.
  exists ((length t + k)%nat :: js). split.
  - split; [constructor; [unfold from_index; simpl; lia|done]|]. exists b. simpl. rewrite E1. simpl. done.
  - intros js2 [Hjs2 [b' Hb']]. simpl in Hjs2, Hb'. inversion Hjs2 as [|j2 i js3 ixs Hj2 Hjs3]; subst.
    unfold from_index in Hj2. simpl in Hj2.
    destruct (swap_first t z l j2) as (l1' & x1 & E1' & Hl1' & Hx1 & Hp1); [lia|]. rewrite E1' in Hb'. simpl in Hb'.
    assert (Ht1 : t ++ x1 :: l1' = (t ++ [x1]) ++ l1') by (by rewrite <- app_assoc).
    assert (Hseq1 : seq (S (length t)) (length q) = seq (length (t ++ [x1])) (length q)).
    { rewrite length_app. simpl. by rewrite Nat.add_1_r. }
    rewrite Ht1, Hseq1 in Hb'.
    destruct (apply_up_permutation (length q) (t ++ [x1]) l1' js3) as (p & E3 & _).
    { apply NoDup_submseteq, submseteq_length in Hsub; [|done]. simpl in Hsub. lia. }
    { rewrite <- Hseq1. replace (length (t ++ [x1]) + length l1')%nat with (length t + length (z :: l))%nat; [done|].
      rewrite length_app. simpl. lia. }
    assert (x1 = x) as ->.
    { rewrite Hb' in E3. injection E3 as E3. rewrite <- (app_assoc t [x1] p) in E3. apply app_inv_head in E3. simpl in E3. by injection E3. }
    assert (j2 = length t + k)%nat as ->.
    { enough (j2 - length t = k)%nat by lia. eapply NoDup_lookup; [exact Hnd|eassumption|eassumption]. }
    rewrite E1 in E1'. injection E1' as E1'. apply app_inv_head in E1' as [= <-]. f_equal.
    apply Huniq. split; [done|]. exists b'. rewrite Hseq1, Hb'. by rewrite <- (app_assoc t [x]).
Qed.
End front.

(** * Floyd's algorithm: [sample_floyd] *)

(** The indices after the draws [ts]. *)
Fixpoint floyd_indices (b : bool) (js ts indices : list Z) : list Z :=
  match js, ts with
  | j :: js, t :: ts => floyd_indices b js ts (floyd_step b indices j t)
  | _, _ => indices
  end.

#[local] Arguments floyd_step : simpl never.

(** Indices below [j], each once. *)
Definition below (j : Z) (l : list Z) : Prop := NoDup l ∧ Forall (λ x, 0 ≤ x < j) l.

Lemma position_Some t l pos :
  position t l = Some pos → ∃ a b, l = a ++ (t :: b) ∧ (t ∉ a) ∧ take pos l = a ∧ drop pos l = (t :: b).
Proof.
  revert pos. induction l as [|x l IH]; intros pos; simpl; [done|].
  case_bool_decide as Hx; [intros [= <-]; subst; exists [], l; set_solver|].
  destruct (position t l) as [p|]; simpl; [|done]. intros [= <-].
  destruct (IH p eq_refl) as (a & b & -> & Hta & Ht & Hd). exists (x :: a), b. simpl.
  split_and!; [done|set_solver|by rewrite Ht|done].
Qed.

Lemma position_None t l : position t l = None → ¬ t ∈ l.
Proof.
  induction l as [|x l IH]; simpl; [set_solver|]. case_bool_decide; [done|].
  destruct (position t l); simpl; [done|]. set_solver.
Qed.

Lemma position_not t l : ¬ t ∈ l → position t l = None.
Proof.
  intros Ht. destruct (position t l) as [p|] eqn:E1; [|done].
  apply position_Some in E1 as (a & b & -> & _). set_solver.
Qed.

Lemma position_first t a b : t ∉ a → position t (a ++ t :: b) = Some (length a).
Proof.
  induction a as [|x a IH]; simpl; intros Ht; [by rewrite bool_decide_true|].
  rewrite bool_decide_false by set_solver. by rewrite IH by set_solver.
Qed.

(** The two cases of a step. *)
Lemma floyd_step_cases l j t :
  (∃ a b, l = a ++ (t :: b) ∧ (t ∉ a) ∧ floyd_step true l j t = a ++ (j :: t :: b)) ∨
  (¬ t ∈ l ∧ floyd_step true l j t = l ++ [t]).
Proof.
  unfold floyd_step. destruct (position t l) as [p|] eqn:E1.
  - apply position_Some in E1 as (a & b & -> & Ht & Ha & Hd). left. exists a, b. by rewrite Ha, Hd.
  - apply position_None in E1. by right.
Qed.

Lemma below_app j l t : below j l → t ∉ l → 0 ≤ t ≤ j → below (j + 1) (l ++ [t]).
Proof.
  intros [Hnd Hb] Ht Hle. split.
  - apply list.NoDup_app. split_and!; [done|set_solver|apply NoDup_singleton].
  - apply Forall_app. split; [eapply Forall_impl; [exact Hb|]; simpl; lia|]. apply Forall_singleton. lia.
Qed.

Lemma below_Permutation j l l' : l ≡ₚ l' → below j l → below j l'.
Proof. intros Hp [Hnd Hb]. unfold below. by rewrite <- Hp. Qed.

Lemma below_not j l : below j l → j ∉ l.
Proof. intros [_ Hb] Hj. rewrite list.Forall_forall in Hb. specialize (Hb j Hj). lia. Qed.

(** A step adds an index, of those up to [j]. *)
Lemma floyd_step_below b l j t :
  0 ≤ t ≤ j → below j l →
  below (j + 1) (floyd_step b l j t) ∧ length (floyd_step b l j t) = S (length l).
Proof.
  intros Ht Hl. pose proof (below_not j l Hl) as Hj. destruct b.
  - destruct (floyd_step_cases l j t) as [(a & c & -> & Hta & ->)|[Htl ->]].
    + split; [|rewrite !length_app; simpl; lia].
      apply (below_Permutation _ ((a ++ t :: c) ++ [j])); [|apply below_app; [done|done|lia]].
      rewrite <- app_assoc. apply Permutation_app_head. by rewrite <- Permutation_cons_append.
    + split; [by apply below_app|]. rewrite length_app. simpl. lia.
  - unfold floyd_step. case_bool_decide as Htl; (split; [|rewrite length_app; simpl; lia]); apply below_app; auto; lia.
Qed.

Lemma floyd_indices_below b n lo ts l :
  below lo l → Forall2 (λ t j, 0 ≤ t ≤ j) ts (seqZ lo (Z.of_nat n)) →
  below (lo + Z.of_nat n) (floyd_indices b (seqZ lo (Z.of_nat n)) ts l) ∧
  length (floyd_indices b (seqZ lo (Z.of_nat n)) ts l) = (n + length l)%nat.
Proof.
  revert lo ts l. induction n as [|n IH]; intros lo ts l Hl Hts.
  { simpl. by rewrite Z.add_0_r. }
  rewrite seqZ_cons in * by lia. replace (Z.pred (Z.of_nat (S n))) with (Z.of_nat n) in * by lia.
  inversion Hts as [|t j ts' js' Ht Hts']; subst. cbn [floyd_indices].
  destruct (floyd_step_below b l lo t Ht Hl) as [Hb Hlen].
  destruct (IH (Z.succ lo) ts' (floyd_step b l lo t)) as [H1 H2]; [by rewrite <- Z.add_1_r|done|].
  split; [|lia]. by replace (lo + Z.of_nat (S n)) with (Z.succ lo + Z.of_nat n) by lia.
Qed.

Lemma app_middle_inj {A} (j : A) a1 c1 a2 c2 :
  j ∉ a1 → j ∉ a2 → a1 ++ j :: c1 = a2 ++ j :: c2 → a1 = a2 ∧ c1 = c2.
Proof.
  revert a2. induction a1 as [|x a1 IH]; intros [|y a2] H1 H2; simpl; [naive_solver|set_solver..|].
  intros [= -> Heq]. destruct (IH a2) as [-> ->]; [set_solver..|done|done].
Qed.

(** Different indices or draws make different steps. *)
Lemma floyd_step_inj j l1 t1 l2 t2 :
  below j l1 → below j l2 → floyd_step true l1 j t1 = floyd_step true l2 j t2 → l1 = l2 ∧ t1 = t2.
Proof.
  intros H1 H2. apply below_not in H1, H2.
  destruct (floyd_step_cases l1 j t1) as [(a1 & b1 & -> & _ & ->)|[Ht1 ->]],
    (floyd_step_cases l2 j t2) as [(a2 & b2 & -> & _ & ->)|[Ht2 ->]]; intros Heq.
  - destruct (app_middle_inj j a1 (t1 :: b1) a2 (t2 :: b2)) as [-> Hc]; [set_solver..|done|]. by injection Hc as -> ->.
  - exfalso. destruct (exists_last_length (t1 :: b1)) as (c & z & Hc & _); [done|].
    rewrite Hc in Heq, H1. rewrite app_comm_cons, app_assoc in Heq. apply app_inj_tail in Heq as [<- ->]. set_solver.
  - exfalso. destruct (exists_last_length (t2 :: b2)) as (c & z & Hc & _); [done|].
    rewrite Hc in Heq, H2. rewrite app_comm_cons, app_assoc in Heq. apply app_inj_tail in Heq as [-> <-]. set_solver.
  - by apply app_inj_tail in Heq.
Qed.

(** Every arrangement up to [j] is made by a step. *)
Lemma floyd_step_surj j q :
  q ≠ [] → 0 ≤ j → below (j + 1) q → ∃ l t, below j l ∧ 0 ≤ t ≤ j ∧ length q = S (length l) ∧ floyd_step true l j t = q.
Proof.
  intros Hq Hj0 [Hnd Hb]. destruct (exists_last_length q Hq) as (q0 & x & -> & _).
  assert (Hlow : ∀ l, (∀ y, y ∈ l → y ∈ q0 ++ [x] ∧ y ≠ j) → Forall (λ y, 0 ≤ y < j) l).
  { intros l Hl. apply list.Forall_forall. intros y Hy. destruct (Hl y Hy) as [Hyq Hyj].
    rewrite list.Forall_forall in Hb. specialize (Hb y Hyq). simpl in Hb. lia. }
  assert (Hx : 0 ≤ x < j + 1) by (rewrite list.Forall_forall in Hb; apply Hb; set_solver).
  destruct (decide (j ∈ q0)) as [Hj|Hj].
  - apply list_elem_of_split in Hj as (a & b0 & ->). rewrite <- app_assoc in *. simpl in *.
    destruct (b0 ++ [x]) as [|t b] eqn:Eb; [by destruct b0|].
    assert (Hp : a ++ j :: t :: b ≡ₚ j :: a ++ t :: b) by (by rewrite <- Permutation_middle).
    rewrite Hp in Hnd. inversion Hnd as [|? ? Hja Hnd']; subst.
    assert (Hbl : below j (a ++ t :: b)).
    { split; [done|]. apply Hlow. intros y Hy. split; [set_solver|]. intros ->. done. }
    exists (a ++ t :: b), t. split; [done|].
    assert (Ht : 0 ≤ t < j) by (destruct Hbl as [_ Hbl]; rewrite list.Forall_forall in Hbl; apply Hbl; set_solver).
    split; [lia|]. split; [rewrite !length_app; simpl; lia|].
    destruct (floyd_step_cases (a ++ t :: b) j t) as [(a' & b' & Hl & Hta' & ->)|[Hn _]]; [|set_solver].
    apply list.NoDup_app in Hnd' as (_ & Hta & _).
    destruct (app_middle_inj t a b a' b') as [-> ->]; [|done..]. intros Hta2. apply (Hta t Hta2). set_solver.
  - apply list.NoDup_app in Hnd as (Hnd & Hxq & _). exists q0, x.
    split; [split; [done|]; apply Hlow; intros y Hy; split; [set_solver|by intros ->]|].
    split; [lia|]. split; [rewrite length_app; simpl; lia|].
    destruct (floyd_step_cases q0 j x) as [(a & b & -> & _)|[_ ->]]; [|done].
    exfalso. apply (Hxq x); set_solver.
Qed.

Lemma floyd_indices_snoc b js ts j t l :
  length js = length ts →
  floyd_indices b (js ++ [j]) (ts ++ [t]) l = floyd_step b (floyd_indices b js ts l) j t.
Proof.
  revert ts l. induction js as [|j1 js IH]; intros [|t1 ts] l Hl; try done. simpl in *. apply IH. lia.
Qed.

(** Each arrangement comes from exactly one choice of draws. *)
Lemma floyd_indices_unique lo n q :
  0 ≤ lo → below (lo + Z.of_nat n) q → length q = n →
  exists! ts, Forall2 (λ t j, 0 ≤ t ≤ j) ts (seqZ lo (Z.of_nat n)) ∧
    floyd_indices true (seqZ lo (Z.of_nat n)) ts [] = q.
Proof.
  intros Hlo. revert q. induction n as [|n IH]; intros q Hq Hlen.
  { destruct q; [|done]. exists []. split; [split; [constructor|done]|].
    intros ts [Hts _]. simpl in Hts. by inversion Hts. }
  set (j := lo + Z.of_nat n). assert (Ej : lo + Z.of_nat (S n) = j + 1) by lia. rewrite Ej in Hq.
  destruct (floyd_step_surj j q) as (q' & t & Hq' & Ht & Hlen' & Hstep); [by destruct q|lia|done|].
  destruct (IH q') as (ts & [Hts Hind] & Huniq); [done|lia|].
  assert (Eseq : seqZ lo (Z.of_nat (S n)) = seqZ lo (Z.of_nat n) ++ [j]).
  { replace (Z.of_nat (S n)) with (Z.of_nat n + 1) by lia. rewrite seqZ_app by lia. f_equal. }
  rewrite Eseq. pose proof (Forall2_length _ _ _ Hts) as Hl.
  exists (ts ++ [t]). split.
  - split; [apply Forall2_app; [done|by constructor]|]. by rewrite floyd_indices_snoc, Hind.
  - intros ts2 [Hts2 Hind2]. apply Forall2_app_inv_r in Hts2 as (ts3 & u & Hts3 & Hu & ->).
    inversion Hu as [|t2 ? u' ? Ht2 Hu']; subst. inversion Hu'; subst.
    pose proof (Forall2_length _ _ _ Hts3) as Hl3. rewrite floyd_indices_snoc in Hind2 by lia.
    destruct (floyd_indices_below true n lo ts3 []) as [Hb3 _]; [split; constructor|done|].
    apply floyd_step_inj in Hind2 as [H1 ->]; [|done|done]. f_equal. apply Huniq. by split.
Qed.

(** * The draws *)

(** Loops that draw for each item of a list and then change what they work on. *)
Fixpoint draw_each {R D B} (f : D → method R unit B) (l : list D) : method R unit (list B) :=
  match l with
  | [] => st_ret []
  | x :: l => let! d := f x in let! ds := draw_each f l in st_ret (d :: ds)
  end.

Fixpoint draw_fold {R D B S} (f : D → method R unit B) (g : D → B → S → res unit S) (l : list D) (s : S)
  : method R unit S :=
  match l with
  | [] => st_ret s
  | x :: l => let! d := f x in let! s := st_try (λ _, g x d s) in draw_fold f g l s
  end.

Fixpoint pure_fold {D B S} (g : D → B → S → res unit S) (l : list D) (ds : list B) (s : S) : res unit S :=
  match l, ds with
  | x :: l, d :: ds => let? s := g x d s in pure_fold g l ds s
  | _, _ => Ok s
  end.

(** What such a loop comes to is decided by its draws. *)
Definition decided {R D B S} (P : B → D → Prop) (draws : method R unit (list B)) (loop : method R unit S)
  (l : list D) (g : list B → res unit S) (r : R) : Prop :=
  match draws r with
  | (Ok ds, r') => Forall2 P ds l ∧ loop r = (g ds, r')
  | (NoFuel, _) => (loop r).1 = NoFuel
  | (_, _) => False
  end.

Lemma draw_fold_decided {R D B S} (f : D → method R unit B) g (P : B → D → Prop) (I : S → Prop) l s r :
  (∀ x r, x ∈ l → good (λ d, P d x) (f x r).1) →
  (∀ x d s, x ∈ l → P d x → I s → ∃ s', g x d s = Ok s' ∧ I s') → I s →
  decided P (draw_each f l) (draw_fold f g l s) l (λ ds, pure_fold g l ds s) r.
Proof.
  revert s r. induction l as [|x l IH]; intros s r Hf Hg Hs; [by split|]. unfold decided. cbn [draw_each draw_fold].
  pose proof (Hf x r ltac:(left)) as Hx. destruct (f x r) as [[d| | |] r1] eqn:Ef; simpl in Hx; try done.
  2:{ rewrite !(st_bind_nofuel _ _ _ _ Ef). done. }
  rewrite !(st_bind_ok _ _ _ _ _ Ef). destruct (Hg x d s) as (s' & E1 & Hs'); [left|done..|].
  rewrite (st_bind_try (λ _, g x d s) _ r1 s' E1).
  assert (IH' : decided P (draw_each f l) (draw_fold f g l s') l (λ ds, pure_fold g l ds s') r1).
  { apply IH; [intros; apply Hf; by right|intros; apply Hg; [by right|done..]|done]. }
  unfold decided in IH'. destruct (draw_each f l r1) as [[ds| | |] r2] eqn:Ed; try done.
  - rewrite (st_bind_ok _ _ _ _ _ Ed). destruct IH' as [Hds E2]. split; [by constructor|].
    cbn [pure_fold]. by rewrite E1.
  - by rewrite (st_bind_nofuel _ _ _ _ Ed).
Qed.

Lemma decided_ext {R D B S} (P : B → D → Prop) draws (m m' : method R unit S) l (g g' : list B → res unit S) r :
  m r = m' r → (∀ ds, g ds = g' ds) → decided P draws m' l g' r → decided P draws m l g r.
Proof.
  intros Hm Hg. unfold decided. rewrite Hm. destruct (draws r) as [[ds| | |] r']; try done. by rewrite Hg.
Qed.

Section draws.
Context {R : Type} `{RngCoreOk R unit} `{!RngWorks R}.
Variable fuel : nat.

Lemma gen_index_good n r : (0 < n)%nat → Z.of_nat n < 2 ^ 64 → good (λ i, i < n)%nat (gen_index fuel n r).1.
Proof.
  intros Hn Hmax. unfold gen_index. destruct usize_bounds as [Hmin64 Hmax64], u32_bounds as [Hmin32 Hmax32].
  case_bool_decide as Hc.
  - unfold as_u32. rewrite Z.mod_small by lia.
    eapply good_bind; [apply (gen_range_good u32_ty u32_row); lia|].
    intros x r' _ Hx. simpl in Hx |- *. lia.
  - eapply good_bind; [apply (gen_range_good usize_ty usize_row); lia|].
    intros x r' _ Hx. simpl in Hx |- *. lia.
Qed.

(** Shuffles. *)
Definition swap_draws (ixs : list nat) : method R unit (list nat) := draw_each (λ i, gen_index fuel (i + 1)) ixs.

Lemma swap_total {A} (l : list A) i j :
  (i < length l)%nat → (j < length l)%nat → ∃ l', swap (E := unit) i j l = Ok l' ∧ length l' = length l.
Proof. intros Hi Hj. destruct (swap_app l [] i j Hi Hj) as (l' & E1 & Hl & _). eauto. Qed.

Lemma swap_loop_fold {A} ixs (l : list A) r :
  swap_loop fuel ixs l r = draw_fold (λ i, gen_index fuel (i + 1)) swap ixs l r.
Proof.
  revert l r. induction ixs as [|i ixs IH]; intros l r; [done|]. cbn [swap_loop draw_fold]. unfold st_bind.
  destruct (gen_index fuel (i + 1) r) as [[j| | |] r1]; try done. unfold st_try. by destruct (swap i j l).
Qed.

Lemma apply_swaps_fold {A} ixs js (l : list A) : apply_swaps ixs js l = pure_fold swap ixs js l.
Proof. revert js l. induction ixs as [|i ixs IH]; intros [|j js] l; try done. simpl. by destruct (swap i j l); simpl. Qed.

Lemma swap_loop_decided {A} ixs (l : list A) r :
  Forall (λ i, i < length l)%nat ixs → Z.of_nat (length l) < 2 ^ 64 →
  decided le (swap_draws ixs) (swap_loop fuel ixs l) ixs (λ js, apply_swaps ixs js l) r.
Proof.
  intros Hi Hmax. rewrite list.Forall_forall in Hi.
  eapply decided_ext; [apply swap_loop_fold|intros; apply apply_swaps_fold|].
  apply (draw_fold_decided _ _ _ (λ l', length l' = length l)); [| |done].
  - intros x r1 Hx. specialize (Hi x Hx). simpl in Hi.
    eapply good_mono; [apply gen_index_good; lia|]. simpl. lia.
  - intros x d s Hx Hd Hs. specialize (Hi x Hx). simpl in Hi.
    destruct (swap_total s x d) as (l' & E1 & Hl'); [lia..|]. exists l'. by rewrite Hl', Hs.
Qed.

(** [sample_floyd]: the draws of the indices, and those of the shuffle at its end. *)
Definition floyd_draws (js : list Z) : method R unit (list Z) := draw_each (λ j, gen_range_inclusive u32_ty fuel 0 j) js.
Definition in_u32 (j : Z) : Prop := 0 ≤ j < 2 ^ 32.

Lemma floyd_loop_decided b js l r :
  Forall in_u32 js →
  decided (λ t j, 0 ≤ t ≤ j) (floyd_draws js) (floyd_loop fuel b js l) js (λ ts, Ok (floyd_indices b js ts l)) r.
Proof.
  intros Hj. rewrite list.Forall_forall in Hj.
  eapply decided_ext; [| |apply (draw_fold_decided _ (λ j t l, Ok (floyd_step b l j t)) _ (λ _, True)); [|by eauto|done]].
  - clear Hj. revert l r. induction js as [|j js IH]; intros l r; [done|]. cbn [floyd_loop draw_fold]. unfold st_bind.
    destruct (gen_range_inclusive u32_ty fuel 0 j r) as [[t| | |] r1]; [apply IH|done..].
  - clear Hj. intros ts. revert l ts. induction js as [|j js IH]; intros l [|t ts]; try done. simpl. apply IH.
  - intros x r1 Hx. specialize (Hj x Hx). destruct u32_bounds as [Hmin Hmax]. unfold in_u32 in Hj.
    apply (gen_range_inclusive_good u32_ty u32_row); lia.
Qed.

Definition swap_draws32 (ixs : list nat) : method R unit (list nat) :=
  draw_each (λ i, let! j := gen_range_inclusive u32_ty fuel 0 (Z.of_nat i) in st_ret (Z.to_nat j)) ixs.

Lemma swap_loop32_decided ixs l r :
  Forall (λ i, i < length l)%nat ixs → Z.of_nat (length l) < 2 ^ 32 →
  decided le (swap_draws32 ixs) (swap_loop32 fuel ixs l) ixs (λ js, apply_swaps ixs js l) r.
Proof.
  intros Hi Hmax. rewrite list.Forall_forall in Hi. destruct u32_bounds as [Hmin32 Hmax32].
  eapply decided_ext; [|intros; apply apply_swaps_fold|
    apply (draw_fold_decided _ _ _ (λ l', length l' = length l)); [| |done]].
  - clear Hi Hmax. revert l r. induction ixs as [|i ixs IH]; intros l r; [done|]. cbn [swap_loop32 draw_fold]. unfold st_bind.
    destruct (gen_range_inclusive u32_ty fuel 0 (Z.of_nat i) r) as [[j| | |] r1]; try done. unfold st_ret, st_try.
    by destruct (swap i (Z.to_nat j) l).
  - intros x r1 Hx. specialize (Hi x Hx). simpl in Hi.
    eapply good_bind; [apply (gen_range_inclusive_good u32_ty u32_row); lia|]. intros j r2 _ Hj. simpl in Hj |- *. lia.
  - intros x d s Hx Hd Hs. specialize (Hi x Hx). simpl in Hi.
    destruct (swap_total s x d) as (l' & E1 & Hl'); [lia..|]. exists l'. by rewrite Hl', Hs.
Qed.

(** [sample_inplace]. *)
Definition inplace_draws (length : Z) (ixs : list nat) : method R unit (list nat) :=
  draw_each (λ i, let! j := gen_range u32_ty fuel (Z.of_nat i) length in st_ret (Z.to_nat j)) ixs.

Lemma inplace_loop_decided ixs l r :
  Forall (λ i, i < length l)%nat ixs → Z.of_nat (length l) < 2 ^ 32 →
  decided (from_index (length l)) (inplace_draws (Z.of_nat (length l)) ixs)
    (inplace_loop fuel (Z.of_nat (length l)) ixs l) ixs (λ js, apply_swaps ixs js l) r.
Proof.
  intros Hi Hmax. rewrite list.Forall_forall in Hi. destruct u32_bounds as [Hmin32 Hmax32].
  eapply decided_ext; [|intros; apply apply_swaps_fold|
    apply (draw_fold_decided _ _ _ (λ l', length l' = length l)); [| |done]].
  - clear Hi Hmax. generalize (Z.of_nat (length l)) as n. revert l r.
    induction ixs as [|i ixs IH]; intros l r n; [done|]. cbn [inplace_loop draw_fold]. unfold st_bind.
    destruct (gen_range u32_ty fuel (Z.of_nat i) n r) as [[j| | |] r1]; try done. unfold st_ret, st_try.
    by destruct (swap i (Z.to_nat j) l).
  - intros x r1 Hx. specialize (Hi x Hx). simpl in Hi.
    eapply good_bind; [apply (gen_range_good u32_ty u32_row); lia|]. intros j r2 _ Hj. simpl in Hj |- *.
    unfold from_index. lia.
  - intros x d s Hx Hd Hs. specialize (Hi x Hx). unfold from_index in Hd.
    destruct (swap_total s x d) as (l' & E1 & Hl'); [lia..|]. exists l'. by rewrite Hl', Hs.
Qed.
End draws.

(** * Distinct indices *)

Section distinct.
Context {R : Type} `{RngCoreOk R unit} `{!RngWorks R}.
Variables fuel tries : nat.

Lemma decided_good {D B S} (P : B → D → Prop) draws (loop : method R unit S) l g (Q : S → Prop) r :
  decided P draws loop l g r → (∀ ds, Forall2 P ds l → good Q (g ds)) → good Q (loop r).1.
Proof.
  unfold decided. intros Hd Hg. destruct (draws r) as [[ds| | |] r']; try done.
  - destruct Hd as [Hds ->]. by apply Hg.
  - by rewrite Hd.
Qed.

(** [amount] indices below [length], each once. *)
Definition sampled (length amount : Z) (v : list Z) : Prop := below length v ∧ Z.of_nat (List.length v) = amount.

Lemma good_assert {A} debug (c : bool) (f : unit → method R unit A) (Q : A → Prop) r :
  (debug = true → c = true) → good Q (f tt r).1 →
  good Q (st_bind (st_try (λ _, debug_assert debug c (Ok tt))) f r).1.
Proof.
  intros Hc Hf. rewrite (st_bind_try (λ _, debug_assert debug c (Ok tt)) _ _ tt); [done|].
  unfold debug_assert. destruct debug; [by rewrite Hc|done].
Qed.

Lemma good_ret {A} (Q : A → Prop) x (r : R) : Q x → good Q (st_ret (E := unit) x r).1.
Proof. done. Qed.

Lemma seqZ_in_u32 lo n : 0 ≤ lo → lo + n ≤ 2 ^ 32 → Forall in_u32 (seqZ lo n).
Proof. intros H1 H2. apply Forall_seqZ. intros x Hx. unfold in_u32. lia. Qed.

Lemma sample_floyd_good debug length amount r :
  0 ≤ amount ≤ length → length < 2 ^ 32 →
  good (λ iv, sampled length amount (into_vec iv)) (sample_floyd fuel debug length amount r).1.
Proof.
  intros Ha Hl. unfold sample_floyd. apply good_assert; [intros _; apply bool_decide_true; lia|].
  eapply (good_bind _ _ (sampled length amount)).
  - eapply decided_good; [apply floyd_loop_decided, seqZ_in_u32; lia|]. intros ts Hts.
    rewrite <- (Z2Nat.id amount) in Hts |- * by lia.
    destruct (floyd_indices_below (bool_decide (Z.of_nat (Z.to_nat amount) < 50)) (Z.to_nat amount) (length - Z.of_nat (Z.to_nat amount)) ts [])
      as [Hb Hlen]; [split; constructor|done|].
    split; [|rewrite Hlen; simpl; lia]. by rewrite Z.sub_add in Hb.
  - intros v r1 _ [Hb Hv]. eapply (good_bind _ _ (sampled length amount)); [|by intros w r2 _ Hw].
    case_bool_decide; [done|]. eapply decided_good; [apply swap_loop32_decided|].
    + apply Forall_reverse, Forall_seq. lia.
    + lia.
    + intros js Hjs. destruct (apply_down_permutation 1 (Z.to_nat amount - 1) js v) as (p & E1 & Hp); [lia|done|].
      unfold down in E1. rewrite E1. split; [by apply (below_Permutation _ v)|]. by rewrite Hp.
Qed.

Lemma below_seqZ n : 0 ≤ n → below n (seqZ 0 n).
Proof. intros Hn. split; [apply NoDup_seqZ|]. apply Forall_seqZ. lia. Qed.

Lemma sample_inplace_good debug length amount r :
  0 ≤ amount ≤ length → length < 2 ^ 32 →
  good (λ iv, sampled length amount (into_vec iv)) (sample_inplace fuel debug length amount r).1.
Proof.
  intros Ha Hl. unfold sample_inplace. apply good_assert; [intros _; apply bool_decide_true; lia|].
  assert (Hlen : List.length (seqZ 0 length) = Z.to_nat length) by apply length_seqZ.
  eapply (good_bind _ _ (λ v, v ≡ₚ seqZ 0 length)).
  - replace length with (Z.of_nat (List.length (seqZ 0 length))) at 1 by lia.
    eapply decided_good; [apply inplace_loop_decided; [apply Forall_seq; lia|lia]|]. intros js Hjs.
    destruct (apply_up_permutation (Z.to_nat amount) [] (seqZ 0 length) js) as (p & E1 & Hp); [lia|done|].
    simpl in E1. by rewrite E1.
  - intros v r1 _ Hv. assert (Hvl : List.length v = Z.to_nat length) by (by rewrite Hv).
    apply good_assert; [intros _; apply bool_decide_true; rewrite length_take; lia|].
    split; [|simpl; rewrite length_take; lia]. simpl.
    assert (below length v) as [Hnd Hb] by (apply (below_Permutation _ (seqZ 0 length)); [done|apply below_seqZ; lia]).
    rewrite <- (take_drop (Z.to_nat amount) v) in Hnd, Hb.
    apply list.NoDup_app in Hnd as [Hnd _]. apply Forall_app in Hb as [Hb _]. by split.
Qed.

Lemma reject_loop_good t n distr length cache r :
  (∀ r, good (λ x, 0 ≤ x < length) (ui_sample t fuel distr r).1) →
  good (λ x, 0 ≤ x < length ∧ x ∉ cache) (reject_loop fuel t n distr cache r).1.
Proof.
  intros Hs. revert r. induction n as [|n IH]; intros r; [done|]. simpl.
  eapply good_bind; [apply Hs|]. intros x r1 _ Hx. simpl in Hx. case_bool_decide as Hc; [apply IH|by apply good_ret].
Qed.

Lemma rejection_loop_good t n distr length (cache : gset Z) v r :
  (∀ r, good (λ x, 0 ≤ x < length) (ui_sample t fuel distr r).1) →
  (∀ x, x ∈ cache ↔ x ∈ v) → below length v →
  good (sampled length (Z.of_nat (n + List.length v))) (rejection_loop fuel t tries n distr cache v r).1.
Proof.
  intros Hs. revert cache v r. induction n as [|n IH]; intros cache v r Hc Hv; [by apply good_ret|].
  simpl. eapply good_bind; [by apply reject_loop_good|]. intros x r1 _ [Hx Hxc].
  rewrite Hc in Hxc.
  replace (Z.of_nat (S (n + List.length v))) with (Z.of_nat (n + List.length (v ++ [x]))) by (rewrite length_app; simpl; lia).
  apply IH.
  - intros y. rewrite elem_of_union, elem_of_singleton, elem_of_app, list_elem_of_singleton, Hc. naive_solver.
  - destruct Hv as [Hnd Hb]. split; [|apply Forall_app; split; [done|by apply Forall_singleton]].
    apply list.NoDup_app. split_and!; [done| |apply NoDup_singleton].
    intros y Hy Hyx. apply list_elem_of_singleton in Hyx as ->. done.
Qed.

Lemma sample_rejection_good debug t length amount r :
  t ∈ int_tys → ty_min t = 0 → length - 1 ≤ ty_max t → 0 ≤ amount ≤ length → 0 < length →
  (debug = true → amount < length) →
  good (sampled length amount) (sample_rejection fuel debug t tries length amount r).1.
Proof.
  intros Ht Hmin Hmax Ha Hl Hd. unfold sample_rejection.
  apply good_assert; [intros Hdb; by apply bool_decide_true, Hd|].
  destruct (draw_uniform t (int_tys_row t Ht) 0 (length - 1)) as (d & Ed & _); [lia..|].
  assert (En : ui_new (E := unit) t 0 length = Ok d) by (unfold ui_new; by rewrite bool_decide_true).
  rewrite (st_bind_try (λ _, ui_new t 0 length) _ _ d En).
  eapply (good_bind _ _ (sampled length amount)).
  - replace amount with (Z.of_nat (Z.to_nat amount + List.length (@nil Z))) at 1 by (simpl; lia).
    apply rejection_loop_good; [|set_solver|split; constructor].
    intros r1. apply (good_mono (λ x, 0 ≤ x ≤ length - 1)); [|lia].
    apply (ui_sample_good t Ht); [lia..|done].
  - intros v r1 _ Hv. apply good_assert; [intros _; apply bool_decide_true, Hv|done].
Qed.

(** In builds with debug assertions, the algorithm by rejection asks for fewer indices
    than there are; it is not used for few indices of a length of 32 bits. *)
Lemma sample_good debug length amount r :
  0 ≤ amount ≤ length → length < 2 ^ 64 →
  (debug = true → amount < length ∨ amount < 163 ∧ length < 2 ^ 32) →
  good (λ iv, sampled length amount (into_vec iv)) (sample fuel debug tries length amount r).1.
Proof.
  intros Ha Hl Hd. unfold sample. rewrite bool_decide_false by lia.
  destruct u32_bounds as [Hmin32 Hmax32], usize_bounds as [Hmin64 Hmax64].
  case_bool_decide as H1.
  - eapply good_bind; [apply (sample_rejection_good debug usize_ty); [apply usize_row|lia..|intros Hdb; destruct (Hd Hdb); lia]|]. by intros v r1 _ Hv.
  - cbv zeta. case_bool_decide as H2.
    + destruct (_ && _); [apply sample_inplace_good; lia|apply sample_floyd_good; lia].
    + destruct (SFltb _ _); [apply sample_inplace_good; lia|].
      eapply good_bind; [apply (sample_rejection_good debug u32_ty); [apply u32_row|lia..|intros Hdb; destruct (Hd Hdb); lia]|]. by intros v r1 _ Hv.
Qed.

(** In builds with debug assertions, all indices of a length over 32 bits are too many. *)
Lemma sample_all_panics length r :
  2 ^ 32 ≤ length → (sample fuel true tries length length r).1 = Panic (E := unit).
Proof.
  intros Hl. unfold sample. rewrite bool_decide_false by lia. rewrite bool_decide_true by lia.
  unfold sample_rejection, st_bind, st_try, debug_assert. by rewrite bool_decide_false by lia.
Qed.
End distinct.
