(* ===== verification/RandChoice.v ===== *)
(** Choices from slices and iterators (rand/src/seq/mod.rs): [choose_stable] draws as if
    it did not know how many items there are; what is chosen was there. *)
From Stdlib Require Import ZArith Lia Strings.Byte.
From stdpp Require Import base list numbers option sets.
From S2P Require Import Prelude StateMonad Words RandCore RandUniform RandSeq RandArrange.
#[local] Open Scope Z_scope.

Lemma st_bind_assoc {S E A B C} (m : method S E A) (f : A → method S E B) (g : B → method S E C) s :
  st_bind (st_bind m f) g s = st_bind m (λ a, st_bind (f a) g) s.
Proof. unfold st_bind. by destruct (m s) as [[a| | |] s']. Qed.

Lemma st_bind_ext {S E A B} (m : method S E A) (f g : A → method S E B) s :
  (∀ a s', m s = (Ok a, s') → f a s' = g a s') → st_bind m f s = st_bind m g s.
Proof. intros Hf. unfold st_bind. destruct (m s) as [[a| | |] s'] eqn:E1; try done. by apply Hf. Qed.

Lemma st_bind_cong {S E A B} (m m' : method S E A) (f : A → method S E B) s :
  m s = m' s → st_bind m f s = st_bind m' f s.
Proof. intros Hm. unfold st_bind. by rewrite Hm. Qed.

(** * [choose_stable] *)

Section stable.
Context {R E I A : Type} `{RngCore R E} `{IterOk I A}.
Variable fuel : nat.

(** The items one by one: the [n]-th takes the place of the last choice if the index
    drawn below [n] is 0. *)
Fixpoint choose_each (l : list A) (consumed : nat) (result : option A) : method R E (option A) :=
  match l with
  | [] => st_ret result
  | x :: l =>
      let! k := gen_index fuel (consumed + 1) in
      choose_each l (consumed + 1) (if bool_decide (k = 0)%nat then Some x else result)
  end.

Lemma choose_each_app p q c result r :
  choose_each (p ++ q) c result r
  = (let! result := choose_each p c result in choose_each q (c + length p) result) r.
Proof.
  revert c result r. induction p as [|x p IH]; intros c result r; simpl.
  - by rewrite Nat.add_0_r.
  - rewrite st_bind_assoc. apply st_bind_ext. intros k r1 _. rewrite IH. by rewrite <- Nat.add_assoc.
Qed.

(** The draws of [filter(..).last()] are those of the items one by one. *)
Lemma filter_last_each (all : list A) result c a n last r :
  (a + n ≤ length all)%nat →
  let sel o := match o with Some ix => all !! ix | None => result end in
  choose_each (take n (drop a all)) (c + a) (sel last) r
  = (let! o := filter_last fuel c (seq a n) last in st_ret (sel o)) r.
Proof.
  intros Hn sel. revert a last r Hn. induction n as [|n IH]; intros a last r Hn; [done|].
  destruct (lookup_lt_is_Some_2 all a) as [x Hx]; [lia|]. rewrite (drop_S all x a Hx). simpl.
  rewrite st_bind_assoc. apply st_bind_ext. intros k r1 _.
  rewrite <- (IH (S a)) by lia. replace (c + S a)%nat with (c + a + 1)%nat by lia. f_equal.
  case_bool_decide; [by rewrite <- Hx|done].
Qed.

Lemma filter_last_range c a n last r o r' :
  filter_last fuel c (seq a n) last r = (Ok o, r') → (∀ ix, last = Some ix → ix < a + n)%nat →
  ∀ ix, o = Some ix → (ix < a + n)%nat.
Proof.
  revert a last r. induction n as [|n IH]; intros a last r; cbn [seq filter_last].
  { intros [= <- _] Hl. exact Hl. }
  unfold st_bind. destruct (gen_index fuel (c + a + 1) r) as [[k| | |] r1]; try done.
  intros Hf Hl ix Hix. replace (a + S n)%nat with (S a + n)%nat by lia. eapply IH; [exact Hf| |exact Hix].
  intros ix' Hix'. case_bool_decide; [injection Hix' as <-; lia|]. specialize (Hl ix' Hix'). lia.
Qed.

(** The part of a round before its last item. *)
Definition stable_skip (debug : bool) (it : I) (consumed : nat) (result : option A)
  : method R E (I * nat * nat * option A) :=
  let lower := (size_hint it).1 in
  if bool_decide (2 ≤ lower)%nat then
    let! highest_selected := filter_last fuel consumed (seq 0 lower) None in
    match highest_selected with
    | Some ix =>
        let '(result, it) := it_nth ix it in
        let! _ := st_try (λ _, debug_assert debug (bool_decide (result ≠ None)) (Ok tt)) in
        st_ret (it, (lower - (ix + 1))%nat, (consumed + lower)%nat, result)
    | None => st_ret (it, lower, (consumed + lower)%nat, result)
    end
  else st_ret (it, 0%nat, consumed, result).

(** How many items a round draws for before its last. *)
Definition skipped (it : I) : nat := if bool_decide (2 ≤ (size_hint it).1)%nat then (size_hint it).1 else 0%nat.

Lemma skipped_le it : (skipped it ≤ length (items it))%nat.
Proof. unfold skipped. pose proof (proj1 (size_hint_items it)). case_bool_decide; lia. Qed.

(** It draws for the items that the hint promises, and leaves the iterator [next] items
    before the one after them. *)
Lemma stable_skip_spec debug it c result (k : I * nat * nat * option A → method R E (option A)) k' r :
  (∀ it' next c' result' r',
    drop next (items it') = drop (skipped it) (items it) → c' = (c + skipped it)%nat →
    k (it', next, c', result') r' = k' result' r') →
  st_bind (stable_skip debug it c result) k r = st_bind (choose_each (take (skipped it) (items it)) c result) k' r.
Proof.
  intros Hk. pose proof (skipped_le it) as Hle. unfold stable_skip, skipped in *. case_bool_decide as H2.
  2:{ apply Hk; [done|lia]. }
  set (lower := (size_hint it).1) in *.
  pose proof (filter_last_each (items it) result c 0 lower None r Hle) as Hf.
  rewrite drop_0, Nat.add_0_r in Hf. rewrite (st_bind_cong _ _ k' r Hf). clear Hf.
  unfold st_bind. destruct (filter_last fuel c (seq 0 lower) None r) as [[o| | |] r1] eqn:Ef; try done.
  unfold st_ret. destruct o as [ix|]; [|by apply Hk].
  assert (Hix : (ix < lower)%nat) by (by eapply (filter_last_range _ _ _ _ _ _ _ Ef)).
  destruct (it_nth_items ix it) as [En Ei]. destruct (it_nth ix it) as [x it']. injection En as ->. simpl in Ei.
  destruct (lookup_lt_is_Some_2 (items it) ix) as [y Hy]; [lia|]. rewrite Hy.
  unfold st_try, debug_assert. rewrite bool_decide_true by done. rewrite andb_false_r.
  apply Hk; [|done]. rewrite Ei, drop_drop. f_equal. lia.
Qed.

Lemma choose_stable_each debug rounds it c result r :
  (length (items it) < rounds)%nat →
  choose_stable_loop fuel debug rounds it c result r = choose_each (items it) c result r.
Proof.
  revert it c result r. induction rounds as [|rounds IH]; intros it c result r Hlen; [lia|].
  pose proof (skipped_le it) as Hle.
  rewrite <- (take_drop (skipped it) (items it)) at 1. rewrite choose_each_app.
  change (choose_stable_loop fuel debug (S rounds) it c result r) with
    (st_bind (stable_skip debug it c result) (λ '(it, next, consumed, result),
      match it_nth next it with
      | (None, _) => st_ret result
      | (elem, it) =>
          let! k := gen_index fuel (consumed + 1) in
          choose_stable_loop fuel debug rounds it (consumed + 1) (if bool_decide (k = 0)%nat then elem else result)
      end) r).
  apply stable_skip_spec. intros it' next c' result' r' Hd ->.
  rewrite length_take, Nat.min_l by done.
  destruct (it_nth_items next it') as [En Ei]. destruct (it_nth next it') as [x it2]. injection En as ->. simpl in Ei.
  assert (Hx : items it' !! next = head (drop (skipped it) (items it))).
  { rewrite <- Hd. rewrite head_lookup, lookup_drop. f_equal. lia. }
  rewrite Hx. destruct (drop (skipped it) (items it)) as [|y q] eqn:Eq; [done|]. simpl.
  apply st_bind_ext. intros k r1 _.
  assert (Hq : items it2 = q).
  { rewrite Ei. replace (S next) with (next + 1)%nat by lia. by rewrite <- drop_drop, Hd. }
  rewrite IH; [by rewrite Hq|]. rewrite Hq. apply (f_equal length) in Eq. rewrite length_drop in Eq. simpl in Eq. lia.
Qed.

End stable.

(** * What is chosen *)

(** One of the items, if there is one. *)
Definition one_of {A} (l : list A) (o : option A) : Prop :=
  match o with Some x => x ∈ l | None => l = [] end.

(** [n] of the items, or all if there are fewer: each item at most once. *)
Definition some_of {A} (n : nat) (l out : list A) : Prop := out ⊆+ l ∧ length out = Nat.min n (length l).

Section chosen.
Context {R : Type} `{RngCoreOk R unit} `{!RngWorks R}.
Variables fuel tries : nat.

Lemma choose_good {A} (l : list A) r :
  Z.of_nat (length l) < 2 ^ 64 → good (one_of l) (choose fuel l r).1.
Proof.
  intros Hl. unfold choose. destruct l as [|x l]; [done|].
  eapply good_bind; [apply gen_index_good; [simpl; lia|done]|]. intros i r1 _ Hi. simpl in Hi.
  destruct (lookup_lt_is_Some_2 (x :: l) i) as [y Hy]; [simpl; lia|].
  rewrite (st_bind_try (λ _, at_index (x :: l) i) _ r1 y) by (unfold at_index; by rewrite Hy).
  by apply list_elem_of_lookup_2 in Hy.
Qed.

Section iter.
Context {I A : Type} `{IterOk I A}.

Lemma iter_items_le (it : I) : ((size_hint it).1 ≤ length (items it))%nat.
Proof. apply size_hint_items. Qed.

(** The invariant of the loop of [choose]: what is left, and a choice once an item was consumed. *)
Definition choosing (all : list A) (it : I) (consumed : nat) (result : option A) : Prop :=
  (consumed + length (items it) = length all)%nat ∧ items it ⊆ all ∧
  match result with Some x => x ∈ all | None => consumed = 0%nat end.

Lemma choosing_end all it c result : choosing all it c result → items it = [] → one_of all result.
Proof.
  intros (Hl & _ & Hr) E1. destruct result as [x|]; [done|]. rewrite E1 in Hl. simpl in *.
  destruct all; [done|simpl in *; lia].
Qed.

Lemma drop_incl {B} n (l : list B) : drop n l ⊆ l.
Proof. intros x Hx. rewrite <- (take_drop n l). apply elem_of_app. by right. Qed.

Lemma choose_loop_good (all : list A) rounds it c result r :
  Z.of_nat (length all) < 2 ^ 64 → choosing all it c result →
  good (one_of all) (choose_loop fuel rounds it (size_hint it).1 (size_hint it).2 c result r).1.
Proof.
  intros Hmax. revert it c result r. induction rounds as [|rounds IH]; intros it c result r Hinv; [done|].
  pose proof Hinv as (Hlen & Hsub & Hres). pose proof (iter_items_le it) as Hle.
  simpl. destruct (size_hint it) as [lower upper] eqn:Eh. simpl in Hle |- *. case_bool_decide as Hlow.
  - eapply good_bind; [apply gen_index_good; lia|]. intros ix r1 _ Hix. simpl in Hix.
    set (st := if bool_decide (ix < lower)%nat then _ else _).
    assert (Hst : ∃ result' skip it', st = (result', skip, it') ∧
      match result' with Some x => x ∈ all | None => False end ∧
      drop skip (items it') = drop lower (items it)).
    { unfold st. case_bool_decide as Hd.
      - destruct (it_nth_items ix it) as [En Ei]. destruct (it_nth ix it) as [x it']. injection En as ->. simpl in Ei.
        do 3 eexists. split; [done|].
        destruct (lookup_lt_is_Some_2 (items it) ix) as [y Hy]; [lia|]. rewrite Hy. split.
        + apply Hsub. by apply list_elem_of_lookup_2 in Hy.
        + rewrite Ei, drop_drop. f_equal. lia.
      - do 3 eexists. split; [done|]. split; [|done]. destruct result; [done|lia]. }
    destruct Hst as (result' & skip & it' & -> & Hr' & Hd). case_bool_decide.
    { by destruct result'; [apply good_ret|]. }
    set (it2 := if bool_decide (0 < skip)%nat then _ else _).
    assert (Hi2 : items it2 = drop lower (items it)).
    { unfold it2. case_bool_decide as Hs.
      - destruct (it_nth_items (skip - 1) it') as [_ ->]. by replace (S (skip - 1)) with skip by lia.
      - replace skip with 0%nat in Hd by lia. by rewrite drop_0 in Hd. }
    destruct (size_hint it2) as [l2 u2] eqn:E2. specialize (IH it2 (c + lower)%nat result' r1). rewrite E2 in IH. apply IH.
    split_and!; [rewrite Hi2, length_drop; lia| |by destruct result'].
    rewrite Hi2. etransitivity; [apply drop_incl|done].
  - destruct (it_next_items it) as [En Ei]. destruct (it_next it) as [x it']. injection En as ->. simpl in Ei.
    destruct (items it) as [|y q] eqn:Eq; simpl; [by apply (choosing_end all it c)|].
    eapply good_bind; [apply gen_index_good; simpl in *; lia|]. intros k r1 _ Hk. simpl in Hk.
    destruct (size_hint it') as [l2 u2] eqn:E2.
    specialize (IH it' (S c) (if bool_decide (k = 0)%nat then Some y else result) r1). rewrite E2 in IH. apply IH.
    unfold choosing. rewrite Ei. split_and!; [simpl in *; lia|set_solver|].
    case_bool_decide; [set_solver|]. destruct result; [done|]. simpl in *. lia.
Qed.

Lemma iter_choose_good rounds it r :
  Z.of_nat (length (items it)) < 2 ^ 64 → good (one_of (items it)) (iter_choose fuel rounds it r).1.
Proof.
  intros Hmax. unfold iter_choose. pose proof (size_hint_items it) as [Hlo Hup].
  pose proof (choose_loop_good (items it) rounds it 0 None r Hmax) as Hloop.
  destruct (size_hint it) as [lower upper]. simpl in *. case_bool_decide as Hu.
  - specialize (Hup lower Hu). case_bool_decide as Hz.
    + simpl. destruct (items it); [done|simpl in *; lia].
    + eapply good_bind; [apply gen_index_good; lia|]. intros i r1 _ Hi. simpl in Hi |- *.
      destruct (it_nth_items i it) as [-> _]. simpl.
      destruct (lookup_lt_is_Some_2 (items it) i) as [y Hy]; [lia|]. rewrite Hy.
      by apply list_elem_of_lookup_2 in Hy.
  - apply Hloop. by split_and!.
Qed.

(** * Several items *)

Lemma fill_reservoir_spec n it :
  (fill_reservoir n it).1 = take n (items it) ∧
  match (fill_reservoir n it).2 with
  | Some it' => (n ≤ length (items it))%nat ∧ items it' = drop n (items it)
  | None => (length (items it) < n)%nat
  end.
Proof.
  revert it. induction n as [|n IH]; intros it; simpl.
  { split; [done|]. split; [lia|done]. }
  destruct (it_next_items it) as [En Ei]. destruct (it_next it) as [x it']. injection En as ->. simpl in Ei.
  destruct (items it) as [|y q]; simpl; [split; [done|lia]|].
  specialize (IH it'). rewrite Ei in IH. simpl in IH. destruct (fill_reservoir n it') as [l o]. simpl in *.
  destruct IH as [-> Ho]. split; [done|]. destruct o; [split; [lia|apply Ho]|lia].
Qed.

Lemma replace_incl {B} (k : nat) (x : B) (l : list B) : (k < length l)%nat → <[k := x]> l ⊆+ l ++ [x].
Proof.
  intros Hk. destruct (lookup_lt_is_Some_2 l k Hk) as [y Hy].
  rewrite <- (take_drop_middle l k y Hy) at 2. rewrite insert_take_drop by done.
  rewrite (Permutation_app_comm _ [x]). simpl. rewrite <- Permutation_middle.
  apply submseteq_skip, submseteq_skips_l. by apply submseteq_cons.
Qed.

Lemma replace_loop_good rounds amount i it buf r :
  Z.of_nat (i + amount + length (items it)) < 2 ^ 64 →
  good (λ out, out ⊆+ buf ++ items it ∧ length out = length buf) (replace_loop fuel rounds amount i it buf r).1.
Proof.
  revert i it buf r. induction rounds as [|rounds IH]; intros i it buf r Hmax; [done|]. simpl.
  destruct (it_next_items it) as [En Ei]. destruct (it_next it) as [x it']. injection En as ->. simpl in Ei.
  destruct (items it) as [|y q] eqn:Eq; simpl.
  { split; [|done]. by rewrite app_nil_r. }
  eapply good_bind; [apply gen_index_good; simpl in *; lia|]. intros k r1 _ Hk. simpl in Hk.
  eapply good_mono; [apply IH; rewrite Ei; simpl in *; lia|]. simpl. rewrite Ei. simpl.
  case_bool_decide as Hkl; intros out [Hsub Hlen].
  - rewrite length_insert in Hlen. split; [|done]. etransitivity; [exact Hsub|].
    change (y :: q) with ([y] ++ q). rewrite app_assoc. by apply submseteq_app; [apply replace_incl|].
  - split; [|done]. etransitivity; [exact Hsub|]. apply submseteq_skips_l. by apply submseteq_cons.
Qed.

Lemma iter_choose_multiple_good rounds it amount r :
  Z.of_nat (amount + length (items it)) < 2 ^ 64 →
  good (some_of amount (items it)) (iter_choose_multiple fuel rounds it amount r).1.
Proof.
  intros Hmax. unfold iter_choose_multiple. destruct (fill_reservoir_spec amount it) as [E1 Ho].
  destruct (fill_reservoir amount it) as [l o]. simpl in *. subst l. destruct o as [it'|].
  - destruct Ho as [Hn Hi]. eapply good_mono; [apply replace_loop_good; rewrite Hi, length_drop; lia|].
    simpl. rewrite Hi, take_drop. intros out [Hsub Hlen]. split; [done|]. rewrite Hlen. apply length_take.
  - simpl. unfold some_of. rewrite take_ge by lia. split; [done|lia].
Qed.

(** [choose_multiple_fill] leaves the rest of the buffer. *)
Lemma choose_multiple_fill_good rounds it (buf : list A) r :
  Z.of_nat (length buf + length (items it)) < 2 ^ 64 →
  good (λ '(n, out), n = Nat.min (length buf) (length (items it)) ∧
      some_of (length buf) (items it) (take n out) ∧ drop n out = drop n buf)
    (choose_multiple_fill fuel rounds it buf r).1.
Proof.
  intros Hmax. unfold choose_multiple_fill. destruct (fill_reservoir_spec (length buf) it) as [E1 Ho].
  destruct (fill_reservoir (length buf) it) as [l o]. simpl in *. subst l. destruct o as [it'|].
  - destruct Ho as [Hn Hi]. assert (Ht : length (take (length buf) (items it)) = length buf) by (rewrite length_take; lia).
    rewrite Ht, drop_all, app_nil_r.
    eapply good_bind; [apply replace_loop_good; rewrite Hi, length_drop; lia|]. simpl.
    rewrite Hi, take_drop, Ht. intros out r1 _ [Hsub Hlen]. simpl. split; [lia|].
    rewrite take_ge by lia. rewrite !drop_ge by lia. split; [|done]. split; [done|]. lia.
  - simpl. rewrite (take_ge (items it)) by lia. split; [lia|]. unfold some_of.
    rewrite take_app_length, drop_app_length. split; [|done]. split; [done|lia].
Qed.
End iter.

(** The elements of a slice at indices that are distinct. *)
Lemma lookups_incl {A} (l : list A) (v : list Z) :
  below (Z.of_nat (length l)) v →
  ∃ out, for_each (E := unit) (λ acc i, let? x := at_index l (Z.to_nat i) in Ok (acc ++ [x])) v [] = Ok out ∧
    out ⊆+ l ∧ length out = length v.
Proof.
  intros [Hnd Hb].
  assert (Hloop : ∀ acc, Forall (λ x, 0 ≤ x < Z.of_nat (length l)) v →
    ∃ xs, for_each (E := unit) (λ acc i, let? x := at_index l (Z.to_nat i) in Ok (acc ++ [x])) v acc = Ok (acc ++ xs) ∧
      Forall2 (λ i x, l !! Z.to_nat i = Some x) v xs).
  { clear Hnd Hb. induction v as [|i v IH]; intros acc Hv; [exists []; by rewrite app_nil_r|].
    inversion_clear Hv as [|? ? Hi Hv']. destruct (lookup_lt_is_Some_2 l (Z.to_nat i)) as [x Hx]; [lia|].
    simpl. unfold at_index at 1. rewrite Hx. simpl. destruct (IH (acc ++ [x]) Hv') as (xs & -> & Hxs).
    exists (x :: xs). rewrite <- app_assoc. by split; [|constructor]. }
  destruct (Hloop [] Hb) as (xs & E1 & Hxs). exists xs. split; [done|]. split; [|by rewrite (Forall2_length _ _ _ Hxs)].
  destruct xs as [|d xs']; [apply submseteq_nil_l|]. set (xs := d :: xs') in *.
  assert (Hfm : xs = (λ i, nth i l d) <$> (Z.to_nat <$> v)).
  { clear -Hxs. clearbody xs. induction Hxs as [|i x v xs Hx _ IH]; [done|]. rewrite !fmap_cons, <- IH. f_equal.
    symmetry. by apply nth_lookup_Some. }
  assert (Hall : l = (λ i, nth i l d) <$> seq 0 (length l)).
  { apply list_eq. intros i. rewrite list_lookup_fmap. destruct (l !! i) as [x|] eqn:Ex.
    - rewrite lookup_seq_lt by (by eapply lookup_lt_Some). simpl. f_equal. symmetry. by apply nth_lookup_Some.
    - apply lookup_ge_None in Ex. by rewrite lookup_seq_ge. }
  assert (Hsub : Z.to_nat <$> v ⊆+ seq 0 (length l)).
  { apply NoDup_submseteq.
    - apply NoDup_fmap_2_strong; [|done]. intros x y Hx Hy Hxy. rewrite list.Forall_forall in Hb.
      pose proof (Hb x Hx). pose proof (Hb y Hy). lia.
    - intros i Hi. apply list_elem_of_fmap in Hi as (x & -> & Hx). rewrite list.Forall_forall in Hb.
      specialize (Hb x Hx). apply elem_of_seq. lia. }
  apply (fmap_submseteq (λ i, nth i l d)) in Hsub. by rewrite <- Hfm, <- Hall in Hsub.
Qed.

Lemma slice_choose_multiple_good {A} debug (l : list A) amount r :
  Z.of_nat (length l) < 2 ^ 64 →
  (debug = true → amount < length l ∨ length l < 163)%nat →
  good (some_of amount l) (slice_choose_multiple fuel debug tries l amount r).1.
Proof.
  intros Hmax Hd. unfold slice_choose_multiple.
  eapply good_bind; [apply sample_good; [lia|done|intros Hdb; destruct (Hd Hdb); [left|right]; lia]|].
  intros iv r1 _ [Hb Hlen]. destruct (lookups_incl l (into_vec iv) Hb) as (out & E1 & Hout & Hl).
  unfold st_try. rewrite E1. split; [done|]. lia.
Qed.

(** Shuffles. *)
Lemma shuffle_good {A} (l : list A) r : Z.of_nat (length l) < 2 ^ 64 → good (λ p, p ≡ₚ l) (shuffle fuel l r).1.
Proof.
  intros Hmax. unfold shuffle. eapply decided_good; [apply swap_loop_decided; [|done]|].
  - apply Forall_reverse, Forall_seq. lia.
  - intros js Hjs. destruct l as [|x l]; [simpl in *; inversion Hjs; by subst|].
    destruct (apply_down_permutation 1 (length (x :: l) - 1) js (x :: l)) as (p & E1 & Hp); [simpl; lia|done|].
    unfold down in E1. by rewrite E1.
Qed.

Lemma partial_shuffle_good {A} (l : list A) amount r :
  Z.of_nat (length l) < 2 ^ 64 →
  good (λ '(a, b), a ++ b ≡ₚ l ∧ length a = Nat.min amount (length l)) (partial_shuffle fuel l amount r).1.
Proof.
  intros Hmax. unfold partial_shuffle. set (e := if bool_decide _ then 0%nat else _).
  assert (He : (e ≤ length l ∧ length l - e = Nat.min amount (length l))%nat) by (unfold e; case_bool_decide; lia).
  eapply (good_bind _ _ (λ p, p ≡ₚ l)).
  - eapply decided_good; [apply swap_loop_decided; [|done]|].
    + apply Forall_reverse, Forall_seq. lia.
    + intros js Hjs. destruct (apply_down_permutation e (length l - e) js l) as (p & E1 & Hp); [lia|done|].
      unfold down in E1. by rewrite E1.
  - intros p r1 _ Hp. simpl. split; [by rewrite Permutation_app_comm, take_drop|].
    rewrite length_drop, Hp. lia.
Qed.
End chosen.

(** [partial_shuffle] is the loop of swaps, and its result cut in two. *)
Lemma partial_shuffle_loop {R A} `{RngCore R unit} fuel (l : list A) amount r :
  (amount ≤ length l)%nat →
  (let! (chosen, rest) := partial_shuffle fuel l amount in st_ret (rest ++ chosen)) r
  = swap_loop fuel (down (length l - amount) amount) l r.
Proof.
  intros Ha. unfold partial_shuffle, down.
  assert ((if bool_decide (length l ≤ amount)%nat then 0%nat else (length l - amount)%nat) = (length l - amount)%nat) as ->
    by (case_bool_decide; lia).
  replace (length l - (length l - amount))%nat with amount by lia. rewrite st_bind_assoc. unfold st_bind, st_ret.
  destruct (swap_loop fuel _ l r) as [[p| | |] r']; try done. by rewrite take_drop.
Qed.

(** Each order of a list comes from exactly one choice of draws. *)
Lemma shuffle_unique {A} (l p : list A) :
  NoDup l → l ≠ [] → p ≡ₚ l →
  exists! js, Forall2 le js (down 1 (length l - 1)) ∧ apply_swaps (E := unit) (down 1 (length l - 1)) js l = Ok p.
Proof.
  intros Hnd Hne Hp. assert (Hl : (0 < length l)%nat) by (destruct l; [done|simpl; lia]).
  pose proof (Permutation_length Hp) as Hpl. destruct p as [|x q]; [simpl in Hpl; lia|].
  assert (Hndp : NoDup (x :: q)) by (by rewrite Hp). inversion Hndp as [|? ? Hx Hq]; subst.
  destruct (apply_down_unique 1 (length l - 1) l q) as (js & [Hjs [a Ha]] & Hu); [lia|done|simpl in Hpl; lia|done| |].
  { intros y Hy. rewrite <- Hp. by right. }
  assert (Ha1 : ∀ a' js', Forall2 le js' (down 1 (length l - 1)) →
    apply_swaps (E := unit) (down 1 (length l - 1)) js' l = Ok (a' ++ q) → a' = [x]).
  { intros a' js' Hjs' Ha'. destruct (apply_down_permutation 1 (length l - 1) js' l) as (p' & E1 & Hp'); [lia|done|].
    rewrite E1 in Ha'. injection Ha' as ->. rewrite <- Hp in Hp'. change (x :: q) with ([x] ++ q) in Hp'.
    apply Permutation_app_inv_r in Hp'. by apply Permutation_singleton_r in Hp'. }
  exists js. split.
  - split; [done|]. rewrite Ha. by rewrite (Ha1 a js Hjs Ha).
  - intros js' [Hjs' Ha']. apply Hu. split; [done|]. by exists [x].
Qed.
