(* ===== verification/RandSample.v ===== *)
(** What [index::sample] (rand/src/seq/index.rs) returns as a function of what it draws:
    which algorithm it uses is settled by the length and the amount, and each algorithm
    gives every list of distinct indices an equal share of its draws. *)
From Stdlib Require Import ZArith Lia Strings.Byte Floats.SpecFloat.
From stdpp Require Import base list numbers option gmap sets.
From S2P Require Import Prelude StateMonad Words RandCore RandUniform RandSeq RandArrange RandChoice.
#[local] Open Scope Z_scope.

(** * What is sampled as a function of what is drawn *)

(** [decided], for draws of any kind. *)
Definition decided_by {R B S} (ok : B → Prop) (draws : method R unit B) (loop : method R unit S)
  (g : B → res unit S) (r : R) : Prop :=
  match draws r with
  | (Ok ds, r') => ok ds ∧ loop r = (g ds, r')
  | (NoFuel, _) => (loop r).1 = NoFuel
  | (_, _) => False
  end.

Lemma decided_by_bind {R B S S'} ok draws loop g (k : S → method R unit S') (h : B → res unit S') r :
  decided_by ok draws loop g r →
  (∀ ds r', ok ds → ∃ s, g ds = Ok s ∧ k s r' = (h ds, r')) →
  decided_by ok draws (st_bind loop k) h r.
Proof.
  unfold decided_by. intros Hd Hk. destruct (draws r) as [[ds| | |] r'] eqn:E1; try done.
  - destruct Hd as [Hok E2]. split; [done|]. destruct (Hk ds r' Hok) as (s & Es & Ek). rewrite Es in E2.
    by rewrite (st_bind_ok _ _ _ _ _ E2).
  - destruct (loop r) as [[?| | |] r1] eqn:E2; try done. by rewrite (st_bind_nofuel _ _ _ _ E2).
Qed.

(** Two rounds of draws. *)
Lemma decided_by_two {R B B' S S'} ok draws loop g ok' draws' (k : S → method R unit S') (h : B → B' → res unit S') r :
  decided_by ok draws loop g r →
  (∀ ds r', ok ds → ∃ s, g ds = Ok s ∧ decided_by ok' draws' (k s) (h ds) r') →
  decided_by (λ p, ok p.1 ∧ ok' p.2) (let! ds := draws in let! ds' := draws' in st_ret (ds, ds')) (st_bind loop k)
    (λ p, h p.1 p.2) r.
Proof.
  unfold decided_by. intros Hd Hk. destruct (draws r) as [[ds| | |] r1] eqn:E1; try done.
  2:{ rewrite (st_bind_nofuel _ _ _ _ E1). destruct (loop r) as [[?| | |] r2] eqn:E2; try done.
      by rewrite (st_bind_nofuel _ _ _ _ E2). }
  destruct Hd as [Hok E2]. destruct (Hk ds r1 Hok) as (s & Es & Hd'). rewrite Es in E2.
  rewrite (st_bind_ok _ _ _ _ _ E1), (st_bind_ok _ _ _ _ _ E2).
  destruct (draws' r1) as [[ds'| | |] r2] eqn:E3; try done.
  - rewrite (st_bind_ok _ _ _ _ _ E3). destruct Hd' as [Hok' E4]. by split.
  - by rewrite (st_bind_nofuel _ _ _ _ E3).
Qed.

Lemma decided_by_assert {R B S A} debug (c : bool) (f : A → method R unit S) ok (draws : method R unit B) g r a :
  (debug = true → c = true) → decided_by ok draws (f a) g r →
  decided_by ok draws (st_bind (st_try (λ _, debug_assert debug c (Ok a))) f) g r.
Proof.
  intros Hc. unfold decided_by. rewrite (st_bind_try (λ _, debug_assert debug c (Ok a)) f r a); [done|].
  unfold debug_assert. destruct debug; [by rewrite Hc|done].
Qed.

(** The values of a list, each where it comes first, behind those that were seen. *)
Fixpoint firsts (seen vs : list Z) : list Z :=
  match vs with
  | [] => seen
  | x :: vs => firsts (if bool_decide (x ∈ seen) then seen else seen ++ [x]) vs
  end.

(** [firsts] has [n] values, and the last of the list is new. *)
Definition completes (n : nat) (seen vs : list Z) : Prop :=
  length (firsts seen vs) = n ∧ ∀ vs' x, vs = vs' ++ [x] → (length (firsts seen vs') < n)%nat.

Lemma firsts_length seen vs : (length seen ≤ length (firsts seen vs))%nat.
Proof.
  revert seen. induction vs as [|x vs IH]; intros seen; [done|]. simpl.
  etrans; [|apply IH]. case_bool_decide; [done|]. rewrite length_app. lia.
Qed.

Lemma completes_nil n seen : length seen = n → completes n seen [].
Proof. intros Hn. split; [done|]. intros vs' x Hv. by destruct vs'. Qed.

Lemma completes_cons n seen x vs :
  (length seen < n)%nat →
  completes n seen (x :: vs) ↔ completes n (if bool_decide (x ∈ seen) then seen else seen ++ [x]) vs.
Proof.
  intros Hn. unfold completes. simpl. split; intros [Hl Hlast]; (split; [done|]); intros vs' y Hv.
  - apply (Hlast (x :: vs') y). by rewrite Hv.
  - destruct vs' as [|z vs']; [done|]. injection Hv as <- Hv. simpl. by apply (Hlast vs' y).
Qed.

(** When the list is complete there is nothing more. *)
Lemma completes_done n seen vs : length seen = n → completes n seen vs → vs = [].
Proof.
  intros Hn [Hl Hlast]. destruct vs as [|x vs _] using rev_ind; [done|].
  specialize (Hlast vs x eq_refl). pose proof (firsts_length seen vs). lia.
Qed.

(** Values that were seen change nothing; a new one is taken. *)
Lemma firsts_skip seen us x vs :
  Forall (.∈ seen) us → x ∉ seen → firsts seen (us ++ x :: vs) = firsts (seen ++ [x]) vs.
Proof.
  intros Hus Hx. induction Hus as [|u us Hu _ IH]; simpl; [by rewrite bool_decide_false|]. by rewrite bool_decide_true.
Qed.

Lemma completes_skip n seen us x vs :
  (length seen < n)%nat → Forall (.∈ seen) us → x ∉ seen →
  completes n seen (us ++ x :: vs) ↔ completes n (seen ++ [x]) vs.
Proof.
  intros Hn Hus Hx. induction Hus as [|u us Hu _ IH]; simpl; rewrite completes_cons by done.
  - by rewrite bool_decide_false.
  - by rewrite bool_decide_true.
Qed.

Lemma firsts_new seen vs :
  (length seen < length (firsts seen vs))%nat → ∃ us x vs', vs = us ++ x :: vs' ∧ Forall (.∈ seen) us ∧ x ∉ seen.
Proof.
  induction vs as [|x vs IH]; simpl; [lia|]. case_bool_decide as Hx.
  - intros Hl. destruct (IH Hl) as (us & y & vs' & -> & Hus & Hy). exists (x :: us), y, vs'. split_and!; [done|by constructor|done].
  - intros _. by exists [], x, vs.
Qed.

Section rejection.
Context {R : Type} `{RngCoreOk R unit} `{!RngWorks R}.
Variables (fuel : nat) (t : int_ty) (d : UniformInt).
Abbreviation draws := (takes (ui_sample t fuel d)).

Lemma takes_app r us vs r1 r' : draws r us r1 → draws r1 vs r' → draws r (us ++ vs) r'.
Proof. induction 1 as [|r v ra us rb E1 _ IH]; intros Hv; [done|]. econstructor; [exact E1|by apply IH]. Qed.

Lemma takes_app_inv r us vs r' : draws r (us ++ vs) r' → ∃ r1, draws r us r1 ∧ draws r1 vs r'.
Proof.
  revert r. induction us as [|u us IH]; intros r; [exists r; split; [constructor|done]|].
  inversion 1 as [|? ? ra ? ? E1 Ht]; subst. destruct (IH ra Ht) as (r1 & Hus & Hvs).
  exists r1. split; [by econstructor|done].
Qed.

Lemma reject_loop_takes tries (cache : gset Z) x r r' :
  reject_loop fuel t tries d cache r = (Ok x, r') →
  ∃ us, draws r (us ++ [x]) r' ∧ Forall (.∈ cache) us ∧ x ∉ cache.
Proof.
  revert r. induction tries as [|tries IH]; intros r; simpl; [done|]. unfold st_bind.
  destruct (ui_sample t fuel d r) as [[y| | |] r1] eqn:E1; try done. case_bool_decide as Hy.
  - intros Hr. destruct (IH r1 Hr) as (us & Ht & Hus & Hx). exists (y :: us).
    split_and!; [by econstructor|by constructor|done].
  - intros [= <- <-]. exists []. split_and!; [econstructor; [done|constructor]|constructor|done].
Qed.

Lemma reject_loop_returns tries (cache : gset Z) us x r r' :
  draws r (us ++ [x]) r' → Forall (.∈ cache) us → x ∉ cache → (length us < tries)%nat →
  reject_loop fuel t tries d cache r = (Ok x, r').
Proof.
  intros Ht Hus Hx. revert r tries Ht. induction Hus as [|u us Hu _ IH]; intros r [|tries] Ht Hl; simpl in *; try lia;
    inversion Ht as [|? ? ra ? ? E1 Ht1]; subst; rewrite (st_bind_ok _ _ _ _ _ E1).
  - inversion Ht1; subst. by rewrite bool_decide_false.
  - rewrite bool_decide_true by done. apply IH; [done|lia].
Qed.

(** The indices are the first values of the samples, up to the last one that is needed. *)
Lemma rejection_loop_takes tries n (cache : gset Z) v w r r' :
  (∀ x, x ∈ cache ↔ x ∈ v) → rejection_loop fuel t tries n d cache v r = (Ok w, r') →
  ∃ vs, draws r vs r' ∧ completes (n + length v) v vs ∧ w = firsts v vs.
Proof.
  revert cache v r. induction n as [|n IH]; intros cache v r Hc; simpl.
  { intros [= <- <-]. exists []. split_and!; [constructor|by apply completes_nil|done]. }
  unfold st_bind. destruct (reject_loop fuel t tries d cache r) as [[x| | |] r1] eqn:E1; try done.
  apply reject_loop_takes in E1 as (us & Ht & Hus & Hx). rewrite Hc in Hx. intros Hr.
  apply IH in Hr as (vs & Hvs & Hcomp & ->); [|intros y; rewrite elem_of_union, elem_of_app, Hc; set_solver].
  assert (Husv : Forall (.∈ v) us) by (eapply list.Forall_impl; [exact Hus|]; simpl; intros y; by rewrite Hc).
  rewrite length_app, Nat.add_1_r, <- Nat.add_succ_comm in Hcomp.
  exists (us ++ x :: vs). split_and!.
  - replace (us ++ x :: vs) with ((us ++ [x]) ++ vs) by (by rewrite <- app_assoc). by eapply takes_app.
  - apply completes_skip; [lia|done|done|exact Hcomp].
  - by rewrite firsts_skip.
Qed.

Lemma rejection_loop_returns tries n (cache : gset Z) v vs r r' :
  (∀ x, x ∈ cache ↔ x ∈ v) → draws r vs r' → completes (n + length v) v vs → (length vs ≤ tries)%nat →
  rejection_loop fuel t tries n d cache v r = (Ok (firsts v vs), r').
Proof.
  revert cache v vs r. induction n as [|n IH]; intros cache v vs r Hc Ht Hcomp Hl; simpl.
  { pose proof (completes_done _ _ _ eq_refl Hcomp) as ->. by inversion Ht. }
  destruct (firsts_new v vs) as (us & x & vs' & -> & Hus & Hx); [rewrite (proj1 Hcomp); lia|].
  rewrite length_app in Hl. simpl in Hl.
  replace (us ++ x :: vs') with ((us ++ [x]) ++ vs') in Ht by (by rewrite <- app_assoc).
  apply takes_app_inv in Ht as (r1 & Ht1 & Ht2). apply completes_skip in Hcomp; [|lia|done..].
  assert (Husc : Forall (.∈ cache) us) by (eapply list.Forall_impl; [exact Hus|]; simpl; intros y; by rewrite Hc).
  rewrite (st_bind_ok _ _ _ _ _ (reject_loop_returns tries cache us x r r1 Ht1 Husc ltac:(by rewrite Hc) ltac:(lia))).
  rewrite firsts_skip by done. apply IH; [|done| |lia].
  - intros y. rewrite elem_of_union, elem_of_app, Hc. set_solver.
  - rewrite length_app. simpl. by replace (n + (length v + 1))%nat with (S n + length v)%nat by lia.
Qed.
End rejection.

(** * The same draws under other names *)

Lemma firsts_fmap (f : Z → Z) `{!Inj (=) (=) f} seen vs : firsts (f <$> seen) (f <$> vs) = f <$> firsts seen vs.
Proof.
  revert seen. induction vs as [|x vs IH]; intros seen; [done|]. simpl. rewrite <- IH. f_equal.
  assert (Hx : f x ∈ f <$> seen ↔ x ∈ seen) by (apply list_elem_of_fmap_inj; done).
  case_bool_decide; case_bool_decide; [done|tauto|tauto|]. by rewrite fmap_app.
Qed.

(** What stands in [l'] where the value stands in [l]. *)
Definition rename (l l' : list Z) (x : Z) : Z :=
  match position x l with Some i => default x (l' !! i) | None => x end.

Lemma position_lookup l x i : NoDup l → position x l = Some i ↔ l !! i = Some x.
Proof.
  intros Hnd. split.
  - intros Hp. apply position_Some in Hp as (a & b & -> & _ & Ht & _). assert (i = length a) as ->.
    { apply (f_equal length) in Ht. rewrite length_take, length_app in Ht. simpl in Ht. lia. }
    by apply list_lookup_middle.
  - intros Hl. destruct (position x l) as [j|] eqn:E1.
    + f_equal. apply position_Some in E1 as (a & b & -> & _ & Ht & _).
      apply (NoDup_lookup _ _ _ x Hnd); [|done]. apply list_lookup_middle.
      apply (f_equal length) in Ht. rewrite length_take, length_app in Ht. simpl in Ht. lia.
    + apply position_None in E1. exfalso. apply E1. by apply list_elem_of_lookup_2 in Hl.
Qed.

Lemma rename_lookup l l' i x y : NoDup l → l !! i = Some x → l' !! i = Some y → rename l l' x = y.
Proof. intros Hnd Hx Hy. unfold rename. apply position_lookup in Hx as ->; [|done]. by rewrite Hy. Qed.

(** Two lists of distinct indices differ by the names of the indices. *)
Lemma rename_exists length q q' :
  0 ≤ length → below length q → below length q' → List.length q = List.length q' →
  ∃ f : Z → Z, Inj (=) (=) f ∧ (∀ x, 0 ≤ x < length ↔ 0 ≤ f x < length) ∧ f <$> q = q'.
Proof.
  intros Hl Hq Hq' Hlen.
  assert (Hall : ∀ p, below length p → ∃ rest, p ++ rest ≡ₚ seqZ 0 length ∧ NoDup (p ++ rest)).
  { intros p [Hnd Hb]. rewrite list.Forall_forall in Hb.
    destruct (submseteq_Permutation p (seqZ 0 length)) as [rest Hp].
    { apply NoDup_submseteq; [done|]. intros x Hx. apply elem_of_seqZ. specialize (Hb x Hx). lia. }
    exists rest. split; [by symmetry|]. rewrite <- Hp. apply NoDup_seqZ. }
  destruct (Hall q Hq) as (a & Ha & Hna), (Hall q' Hq') as (b & Hb & Hnb).
  assert (Hsame : List.length (q ++ a) = List.length (q' ++ b)) by (by rewrite Ha, Hb).
  assert (Hin : ∀ p c x, p ++ c ≡ₚ seqZ 0 length → 0 ≤ x < length ↔ ∃ i, (p ++ c) !! i = Some x).
  { intros p c x Hp. rewrite <- list_elem_of_lookup, Hp, elem_of_seqZ. lia. }
  set (f := rename (q ++ a) (q' ++ b)).
  assert (Hf : ∀ x i, (q ++ a) !! i = Some x → (q' ++ b) !! i = Some (f x)).
  { intros x i Hx. destruct (lookup_lt_is_Some_2 (q' ++ b) i) as [y Hy]; [rewrite <- Hsame; by eapply lookup_lt_Some|].
    unfold f. by rewrite (rename_lookup _ _ i x y). }
  assert (Hout : ∀ x, ¬ 0 ≤ x < length → f x = x).
  { intros x Hx. unfold f, rename. rewrite position_not; [done|]. rewrite Ha, elem_of_seqZ. lia. }
  assert (Hrange : ∀ x, 0 ≤ x < length ↔ 0 ≤ f x < length).
  { intros x. split; intros Hx.
    - apply (Hin q a x Ha) in Hx as [i Hi]. apply (Hin q' b _ Hb). exists i. by apply Hf.
    - destruct (decide (0 ≤ x < length)) as [|Hn]; [done|]. by rewrite (Hout x Hn) in Hx. }
  exists f. split_and!; [|done|].
  - intros x y Hxy. destruct (decide (0 ≤ x < length)) as [Hx|Hx].
    + assert (Hy : 0 ≤ y < length) by (apply (proj2 (Hrange y)); rewrite <- Hxy; exact (proj1 (Hrange x) Hx)).
      apply (Hin q a _ Ha) in Hx as [i Hi], Hy as [j Hj]. pose proof (Hf x i Hi) as H1. pose proof (Hf y j Hj) as H2.
      rewrite <- Hxy in H2. pose proof (NoDup_lookup _ _ _ _ Hnb H1 H2) as ->. congruence.
    + assert (Hy : ¬ 0 ≤ y < length).
      { intros Hy. apply Hx, (proj2 (Hrange x)). rewrite Hxy. apply (proj1 (Hrange y) Hy). }
      by rewrite (Hout x Hx), (Hout y Hy) in Hxy.
  - apply list_eq. intros i. rewrite list_lookup_fmap. destruct (q !! i) as [x|] eqn:Ex; simpl.
    + pose proof (lookup_lt_Some _ _ _ Ex) as Hi.
      pose proof (Hf x i) as H1. rewrite !lookup_app_l in H1 by lia. by rewrite (H1 Ex).
    + symmetry. apply lookup_ge_None. apply lookup_ge_None in Ex. lia.
Qed.

(** * The algorithms *)

(** Floyd's algorithm finds the same indices whether it shuffles or not. *)
Lemma floyd_step_same l l' j t : l ≡ₚ l' → floyd_step false l j t ≡ₚ floyd_step true l' j t.
Proof.
  intros Hp. destruct (floyd_step_cases l' j t) as [(a & b & -> & _ & ->)|[Ht ->]]; unfold floyd_step.
  - rewrite bool_decide_true by (rewrite Hp; set_solver). rewrite Hp, <- Permutation_cons_append. apply Permutation_middle.
  - rewrite bool_decide_false by (by rewrite Hp). by rewrite Hp.
Qed.

Lemma floyd_indices_same js ts l l' : l ≡ₚ l' → floyd_indices false js ts l ≡ₚ floyd_indices true js ts l'.
Proof.
  revert ts l l'. induction js as [|j js IH]; intros [|t ts] l l' Hp; try done. simpl. by apply IH, floyd_step_same.
Qed.

Inductive algorithm : Type := Inplace | Floyd | FloydThenShuffle | Rejection (t : int_ty).

Section algorithms.
Variables length amount : Z.

(** What the loops draw for: the places that are filled, the largest values, the places of
    the shuffle. *)
Definition places : list nat := seq 0 (Z.to_nat amount).
Definition tops : list Z := seqZ (length - amount) amount.
Definition orders : list nat := down 1 (Z.to_nat amount - 1).

Definition up_to (t j : Z) : Prop := 0 ≤ t ≤ j.

Definition inplace_of (js : list nat) : res unit (list Z) :=
  let? l := apply_swaps places js (seqZ 0 length) in Ok (take (Z.to_nat amount) l).
Definition floyd_of (ts : list Z) : list Z := floyd_indices true tops ts [].
Definition floyd_then_shuffle_of (d : list Z * list nat) : res unit (list Z) :=
  apply_swaps orders d.2 (floyd_indices false tops d.1 []).

Definition inplace_ok (js : list nat) : Prop := Forall2 (from_index (Z.to_nat length)) js places.
Definition floyd_ok (ts : list Z) : Prop := Forall2 up_to ts tops.
Definition floyd_then_shuffle_ok (d : list Z * list nat) : Prop := floyd_ok d.1 ∧ Forall2 le d.2 orders.

(** Every list of distinct indices comes from as many draws as any other: from one choice;
    from one for each of its orders; or it differs by the names of the indices. *)
Definition fair (a : algorithm) : Prop :=
  match a with
  | Inplace => ∀ q, sampled length amount q → exists! js, inplace_ok js ∧ inplace_of js = Ok q
  | Floyd => ∀ q, sampled length amount q → exists! ts, floyd_ok ts ∧ floyd_of ts = q
  | FloydThenShuffle => ∀ q, sampled length amount q →
      (∀ d, floyd_then_shuffle_ok d → floyd_then_shuffle_of d = Ok q → floyd_of d.1 ≡ₚ q) ∧
      ∀ p, p ≡ₚ q → exists! d, floyd_then_shuffle_ok d ∧ floyd_of d.1 = p ∧ floyd_then_shuffle_of d = Ok q
  | Rejection _ => ∀ q q', sampled length amount q → sampled length amount q' →
      ∃ f : Z → Z, Inj (=) (=) f ∧ (∀ x, 0 ≤ x < length ↔ 0 ≤ f x < length) ∧ f <$> q = q' ∧
        ∀ vs, firsts [] (f <$> vs) = f <$> firsts [] vs
  end.

Lemma inplace_fair : 0 ≤ amount ≤ length → fair Inplace.
Proof.
  intros Ha q [[Hnd Hb] Hlen]. pose proof (apply_up_unique (Z.to_nat amount) [] (seqZ 0 length) q) as Hu.
  rewrite length_seqZ in Hu. simpl in Hu. rewrite list.Forall_forall in Hb.
  destruct Hu as (js & [Hjs [b Hq]] & Huniq); [lia|done| |apply NoDup_seqZ|].
  { intros x Hx. apply elem_of_seqZ. specialize (Hb x Hx). lia. }
  assert (Hn : Z.to_nat amount = List.length q) by lia. exists js. split.
  - split; [done|]. unfold inplace_of, places. rewrite Hq. simpl. by rewrite Hn, take_app_length.
  - intros js' [Hjs' Hq']. apply Huniq. split; [done|]. unfold inplace_of, places in Hq'.
    destruct (apply_swaps _ js' _) as [l| | |]; try done. injection Hq' as Hq'.
    exists (drop (Z.to_nat amount) l). by rewrite <- Hq', take_drop.
Qed.

Lemma floyd_fair : 0 ≤ amount ≤ length → fair Floyd.
Proof.
  intros Ha q [Hb Hlen]. unfold floyd_ok, floyd_of, tops. rewrite <- Hlen.
  apply floyd_indices_unique; [lia| |done]. by rewrite Hlen, Z.sub_add.
Qed.

Lemma floyd_indices_sampled b ts : 0 ≤ amount ≤ length → floyd_ok ts → sampled length amount (floyd_indices b tops ts []).
Proof.
  intros Ha Hts. unfold floyd_ok, tops in *. rewrite <- (Z2Nat.id amount) in Hts |- * by lia.
  destruct (floyd_indices_below b (Z.to_nat amount) (length - Z.of_nat (Z.to_nat amount)) ts []) as [Hb Hl];
    [split; constructor|done|].
  split; [by rewrite Z.sub_add in Hb|]. rewrite Hl. simpl. lia.
Qed.

(** The shuffle: an order of the indices, which comes from one choice. *)
Lemma orders_permutation (l p : list Z) ks :
  0 ≤ amount → Z.of_nat (List.length l) = amount → Forall2 le ks orders →
  apply_swaps (E := unit) orders ks l = Ok p → p ≡ₚ l.
Proof.
  intros Ha Hl Hks Ep. destruct (decide (l = [])) as [->|Hne].
  - unfold orders in Ep. replace (Z.to_nat amount - 1)%nat with 0%nat in Ep by (simpl in Hl; lia). by injection Ep as <-.
  - destruct (apply_down_permutation 1 (Z.to_nat amount - 1) ks l) as (p' & Ep' & Hp); [destruct l; [done|simpl in *; lia]|done|].
    unfold orders in Ep. rewrite Ep in Ep'. by injection Ep' as ->.
Qed.

Lemma orders_unique (l p : list Z) :
  Z.of_nat (List.length l) = amount → NoDup l → p ≡ₚ l →
  exists! ks, Forall2 le ks orders ∧ apply_swaps (E := unit) orders ks l = Ok p.
Proof.
  intros Hl Hnd Hp. unfold orders. destruct (decide (l = [])) as [->|Hne].
  - apply Permutation_nil_r in Hp as ->. simpl in Hl. replace (Z.to_nat amount - 1)%nat with 0%nat by lia.
    exists []. split; [split; [constructor|done]|]. intros ks [Hks _]. unfold down in Hks. simpl in Hks. by inversion Hks.
  - replace (Z.to_nat amount - 1)%nat with (List.length l - 1)%nat by lia. by apply shuffle_unique.
Qed.

Lemma floyd_then_shuffle_fair : 0 ≤ amount ≤ length → fair FloydThenShuffle.
Proof.
  intros Ha q Hq. assert (Hsame : ∀ ts, floyd_indices false tops ts [] ≡ₚ floyd_of ts) by (intros ts; by apply floyd_indices_same).
  split.
  - intros [ts ks] [Hts Hks] Ed. simpl in *. rewrite <- Hsame. symmetry.
    eapply orders_permutation; [lia|by apply floyd_indices_sampled|exact Hks|exact Ed].
  - intros p Hp. destruct (floyd_fair Ha p) as (ts & [Hts Ep] & Huniq).
    { destruct Hq as [Hb Hl]. split; [by apply (below_Permutation _ q)|by rewrite Hp]. }
    destruct (floyd_indices_sampled false ts Ha Hts) as [[Hnd _] Hl].
    destruct (orders_unique (floyd_indices false tops ts []) q Hl Hnd) as (ks & [Hks Eq] & Huniq');
      [by rewrite Hsame, Ep, Hp|].
    exists (ts, ks). split; [by split_and!|]. intros [ts' ks'] ([Hts' Hks'] & Ep' & Eq'). simpl in *.
    pose proof (Huniq ts' (conj Hts' Ep')) as <-. f_equal. by apply Huniq'.
Qed.

Lemma rejection_fair t : 0 ≤ amount ≤ length → fair (Rejection t).
Proof.
  intros Ha q q' [Hq Hl] [Hq' Hl']. destruct (rename_exists length q q') as (f & Hf & Hrange & Hfq); [lia|done|done|lia|].
  exists f. split_and!; [done..|]. intros vs. by apply (firsts_fmap f []).
Qed.
End algorithms.

Section runs.
Context {R : Type} `{RngCoreOk R unit} `{!RngWorks R}.
Variables (fuel : nat) (debug : bool) (tries : nat).
Variables length amount : Z.

Definition indices (m : method R unit IndexVec) : method R unit (list Z) := let! iv := m in st_ret (into_vec iv).

(** The indices that are sampled are those of the draws, and the generator is left where
    the draws leave it. *)
Definition samples_by (a : algorithm) (r : R) : Prop :=
  let run := indices (sample fuel debug tries length amount) in
  match a with
  | Inplace => decided_by (inplace_ok length amount) (inplace_draws fuel length (places amount)) run (inplace_of length amount) r
  | Floyd => decided_by (floyd_ok length amount) (floyd_draws fuel (tops length amount)) run (λ ts, Ok (floyd_of length amount ts)) r
  | FloydThenShuffle =>
      decided_by (floyd_then_shuffle_ok length amount)
        (let! ts := floyd_draws fuel (tops length amount) in
         let! ks := swap_draws32 fuel (orders amount) in st_ret (ts, ks))
        run (floyd_then_shuffle_of length amount) r
  | Rejection t => ∃ d,
      ui_new t 0 length = Ok (E := unit) d ∧ uniform t 0 (length - 1) (draw t d) ∧
      (∀ v r', run r = (Ok v, r') →
         ∃ vs, takes (ui_sample t fuel d) r vs r' ∧ completes (Z.to_nat amount) [] vs ∧ v = firsts [] vs) ∧
      (∀ vs r', takes (ui_sample t fuel d) r vs r' → completes (Z.to_nat amount) [] vs → (List.length vs ≤ tries)%nat →
         run r = (Ok (firsts [] vs), r'))
  end.

Hypothesis amount_le : 0 ≤ amount ≤ length.

Lemma sample_inplace_decided r :
  length < 2 ^ 32 →
  decided_by (inplace_ok length amount) (inplace_draws fuel length (places amount))
    (indices (sample_inplace fuel debug length amount)) (inplace_of length amount) r.
Proof.
  intros Hl. assert (Hlen : List.length (seqZ 0 length) = Z.to_nat length) by apply length_seqZ.
  pose proof (inplace_loop_decided fuel (places amount) (seqZ 0 length) r) as Hd.
  rewrite Hlen, Z2Nat.id in Hd by lia.
  apply (decided_by_bind _ _ _ (λ js, let? l := inplace_of length amount js in Ok (IvU32 l))).
  - apply (decided_by_assert debug _ (λ _ : unit, _) _ _ _ r tt); [intros _; apply bool_decide_true; lia|].
    eapply decided_by_bind; [apply Hd; [apply Forall_seq; lia|lia]|]. intros js r' Hjs.
    destruct (apply_up_permutation (Z.to_nat amount) [] (seqZ 0 length) js) as (p & E1 & Hp); [lia|by rewrite Hlen|].
    simpl in E1. fold (places amount) in E1. exists p. split; [done|]. unfold inplace_of. rewrite E1. simpl.
    rewrite (st_bind_try (λ _, debug_assert debug _ (Ok tt)) _ r' tt); [done|].
    unfold debug_assert. rewrite bool_decide_true by (rewrite length_take, Hp; lia). by destruct debug.
  - intros js r' Hjs. unfold inplace_of.
    destruct (apply_up_permutation (Z.to_nat amount) [] (seqZ 0 length) js) as (p & E1 & Hp); [lia|by rewrite Hlen|].
    simpl in E1. fold (places amount) in E1. rewrite E1. simpl. eexists. by split.
Qed.

Lemma floyd_first r :
  length < 2 ^ 32 →
  decided_by (floyd_ok length amount) (floyd_draws fuel (tops length amount))
    (floyd_loop fuel (bool_decide (amount < 50)) (tops length amount) [])
    (λ ts, Ok (floyd_indices (bool_decide (amount < 50)) (tops length amount) ts [])) r.
Proof. intros Hl. apply floyd_loop_decided, seqZ_in_u32; lia. Qed.

Lemma sample_floyd_decided r :
  length < 2 ^ 32 → amount < 50 →
  decided_by (floyd_ok length amount) (floyd_draws fuel (tops length amount))
    (indices (sample_floyd fuel debug length amount)) (λ ts, Ok (floyd_of length amount ts)) r.
Proof.
  intros Hl Hs. pose proof (floyd_first r Hl) as Hd. unfold indices, sample_floyd. rewrite (bool_decide_true (amount < 50)) in Hd |- * by done.
  eapply decided_by_bind.
  - apply (decided_by_assert debug _ (λ _ : unit, _) _ _ _ r tt); [intros _; apply bool_decide_true; lia|].
    eapply (decided_by_bind _ _ _ _ _ (λ ts, Ok (IvU32 (floyd_of length amount ts)))); [exact Hd|].
    intros ts r' Hts. eexists. by split.
  - intros ts r' Hts. eexists. by split.
Qed.

Lemma sample_floyd_shuffled_decided r :
  length < 2 ^ 32 → 50 ≤ amount →
  decided_by (floyd_then_shuffle_ok length amount)
    (let! ts := floyd_draws fuel (tops length amount) in let! ks := swap_draws32 fuel (orders amount) in st_ret (ts, ks))
    (indices (sample_floyd fuel debug length amount)) (floyd_then_shuffle_of length amount) r.
Proof.
  intros Hl Hs. pose proof (floyd_first r Hl) as Hd. unfold indices, sample_floyd. rewrite (bool_decide_false (amount < 50)) in Hd |- * by lia.
  assert (Hloop : ∀ ts r', floyd_ok length amount ts →
    decided_by (λ ks, Forall2 le ks (orders amount)) (swap_draws32 fuel (orders amount))
      (swap_loop32 fuel (orders amount) (floyd_indices false (tops length amount) ts []))
      (λ ks, floyd_then_shuffle_of length amount (ts, ks)) r').
  { intros ts r' Hts. destruct (floyd_indices_sampled length amount false ts amount_le Hts) as [_ Hlen].
    apply swap_loop32_decided; [|lia]. apply Forall_reverse, Forall_seq. lia. }
  assert (Hok : ∀ d, floyd_then_shuffle_ok length amount d → ∃ p, floyd_then_shuffle_of length amount d = Ok p).
  { intros [ts ks] [Hts Hks]. destruct (floyd_indices_sampled length amount false ts amount_le Hts) as [_ Hlen].
    destruct (apply_down_permutation 1 (Z.to_nat amount - 1) ks (floyd_indices false (tops length amount) ts []))
      as (p & E1 & _); [lia|done|]. by exists p. }
  apply (decided_by_bind _ _ _ (λ d, let? l := floyd_then_shuffle_of length amount d in Ok (IvU32 l))).
  - apply (decided_by_assert debug _ (λ _ : unit, _) _ _ _ r tt); [intros _; apply bool_decide_true; lia|].
    apply (decided_by_two _ _ _ _ (λ ks, Forall2 le ks (orders amount)) _ _
      (λ ts ks, let? l := floyd_then_shuffle_of length amount (ts, ks) in Ok (IvU32 l)) r Hd).
    intros ts r' Hts. eexists. split; [done|]. apply (decided_by_bind _ _ _ _ _ _ r' (Hloop ts r' Hts)).
    intros ks r2 Hks. destruct (Hok (ts, ks)) as [p Ep]; [by split|]. exists p. split; [done|]. by rewrite Ep.
  - intros d r' Hd'. destruct (Hok d Hd') as [p Ep]. rewrite Ep. eexists. by split.
Qed.

Lemma indices_wrap (wrap : list Z → IndexVec) m r :
  (∀ v, into_vec (wrap v) = v) → indices (let! v := m in st_ret (wrap v)) r = m r.
Proof. intros Hw. unfold indices, st_bind, st_ret. destruct (m r) as [[v| | |] r']; by rewrite ?Hw. Qed.

(** What [sample_rejection] does when its checks pass. *)
Lemma sample_rejection_eq t d r :
  ui_new (E := unit) t 0 length = Ok d → (debug = true → amount < length) →
  (∀ r, good (λ x, 0 ≤ x < length) (ui_sample t fuel d r).1) →
  sample_rejection fuel debug t tries length amount r = rejection_loop fuel t tries (Z.to_nat amount) d ∅ [] r.
Proof.
  intros Ed Hdb Hs. unfold sample_rejection.
  assert (Hassert : ∀ c : bool, (debug = true → c = true) → debug_assert debug c (Ok (E := unit) tt) = Ok tt).
  { intros c Hc. unfold debug_assert. destruct debug; [by rewrite Hc|done]. }
  rewrite (st_bind_try (λ _, debug_assert debug _ (Ok tt)) _ r tt) by (apply Hassert; intros Hd; by apply bool_decide_true, Hdb).
  rewrite (st_bind_try (λ _, ui_new t 0 length) _ r d) by done.
  pose proof (rejection_loop_good fuel tries t (Z.to_nat amount) d length ∅ [] r Hs ltac:(set_solver) ltac:(split; constructor)) as Hg.
  destruct (rejection_loop _ _ _ _ _ _ _ r) as [[v| | |] r'] eqn:E1; try done; [|by rewrite (st_bind_nofuel _ _ _ _ E1)].
  destruct Hg as [_ Hl]. simpl in Hl. rewrite (st_bind_ok _ _ _ _ _ E1).
  rewrite (st_bind_try (λ _, debug_assert debug _ (Ok tt)) _ r' tt); [done|].
  apply Hassert. intros _. apply bool_decide_true. lia.
Qed.

Lemma sample_rejection_decided t (wrap : list Z → IndexVec) r :
  t ∈ int_tys → ty_min t = 0 → length - 1 ≤ ty_max t → 0 < length → (debug = true → amount < length) →
  (∀ v, into_vec (wrap v) = v) →
  let run := indices (let! v := sample_rejection fuel debug t tries length amount in st_ret (wrap v)) in
  ∃ d, ui_new t 0 length = Ok (E := unit) d ∧ uniform t 0 (length - 1) (draw t d) ∧
    (∀ v r', run r = (Ok v, r') →
       ∃ vs, takes (ui_sample t fuel d) r vs r' ∧ completes (Z.to_nat amount) [] vs ∧ v = firsts [] vs) ∧
    (∀ vs r', takes (ui_sample t fuel d) r vs r' → completes (Z.to_nat amount) [] vs → (List.length vs ≤ tries)%nat →
       run r = (Ok (firsts [] vs), r')).
Proof.
  intros Ht Hmin Hmax Hl Hdb Hw run. destruct (draw_uniform t (int_tys_row t Ht) 0 (length - 1)) as (d & Ed & Hu); [lia..|].
  assert (En : ui_new (E := unit) t 0 length = Ok d) by (unfold ui_new; by rewrite bool_decide_true).
  assert (Hrun : run r = rejection_loop fuel t tries (Z.to_nat amount) d ∅ [] r).
  { unfold run. rewrite indices_wrap by done. apply sample_rejection_eq; [done..|]. intros r1.
    apply (good_mono (λ x, 0 ≤ x ≤ length - 1)); [|lia]. apply (ui_sample_good t Ht); [lia..|done]. }
  exists d. rewrite Hrun. split_and!; [done|done| |].
  - intros v r' Hr. apply rejection_loop_takes in Hr; [|set_solver]. by rewrite Nat.add_0_r in Hr.
  - intros vs r' Hvs Hc Hn. apply rejection_loop_returns; [set_solver|done| |done]. by rewrite Nat.add_0_r.
Qed.
End runs.

(** The length and the amount settle the algorithm, whatever the generator. *)
Lemma sample_algorithm {R} `{RngCoreOk R unit} `{!RngWorks R} length amount :
  0 ≤ amount ≤ length → length < 2 ^ 64 →
  ∃ a, ∀ fuel debug tries (r : R), (debug = true → amount < length ∨ amount < 163 ∧ length < 2 ^ 32) →
    samples_by fuel debug tries length amount a r.
Proof.
  intros Ha Hl. destruct u32_bounds as [Hmin32 Hmax32], usize_bounds as [Hmin64 Hmax64].
  unfold samples_by, sample. rewrite (bool_decide_false (length < amount)) by lia.
  case_bool_decide as H1.
  { exists (Rejection usize_ty). intros fuel debug tries r Hd.
    apply (sample_rejection_decided fuel debug tries _ _ Ha _ IvUSize); [apply usize_row|lia..| |done]. intros Hdb. destruct (Hd Hdb); lia. }
  cbv zeta. case_bool_decide as H2.
  - destruct (_ && _); [exists Inplace; intros; by apply sample_inplace_decided; [..|lia]|].
    destruct (decide (amount < 50)).
    + exists Floyd. intros. by apply sample_floyd_decided; [..|lia|].
    + exists FloydThenShuffle. intros. by apply sample_floyd_shuffled_decided; [..|lia|lia].
  - destruct (SFltb _ _); [exists Inplace; intros; by apply sample_inplace_decided; [..|lia]|].
    exists (Rejection u32_ty). intros fuel debug tries r Hd.
    apply (sample_rejection_decided fuel debug tries _ _ Ha _ IvU32); [apply u32_row|lia..| |done]. intros Hdb. destruct (Hd Hdb); lia.
Qed.

Lemma algorithms_fair length amount a : 0 ≤ amount ≤ length → fair length amount a.
Proof.
  intros Ha. destruct a; [by apply inplace_fair|by apply floyd_fair|by apply floyd_then_shuffle_fair|by apply rejection_fair].
Qed.
