(* ===== verification/RandWeighted.v ===== *)
(** Weighted choices (rand/src/distributions/weighted_index.rs) over an integer type.

    Where builds differ in what an overflow does, the definitions take [checks]: with
    overflow checks it is a panic, without the value wraps. *)
From Stdlib Require Import ZArith Lia Strings.Byte Sorting.Sorted.
From stdpp Require Import base list numbers option.
From S2P Require Import Prelude StateMonad Words RandCore RandUniform.
#[local] Open Scope Z_scope.

Inductive WeightedError : Type := NoItem | InvalidWeight | AllWeightsZero | TooMany.

Record WeightedIndex : Type := mkWeightedIndex {
  cumulative_weights : list Z;
  total_weight : Z;
  weight_distribution : UniformInt;
}.

Section weighted.
Variable t : int_ty.
Variable checks : bool.

(** [a += b] and [a -= b] *)
Definition fit {E} (z : Z) : res E Z :=
  if bool_decide (ty_min t ≤ z ≤ ty_max t) then Ok z
  else if checks then Panic else Ok (as_ty t z).
Definition add_assign {E} (a b : Z) : res E Z := fit (a + b).
Definition sub_assign {E} (a b : Z) : res E Z := fit (a - b).

Fixpoint new_loop (iter weights : list Z) (total : Z) : res WeightedError (list Z * Z) :=
  match iter with
  | [] => Ok (weights, total)
  | w :: iter =>
      if bool_decide (0 ≤ w) then
        let weights := weights ++ [total] in
        let? total := add_assign total w in
        new_loop iter weights total
      else Err InvalidWeight
  end.

Definition wi_new (weights : list Z) : res WeightedError WeightedIndex :=
  match weights with
  | [] => Err NoItem
  | total :: iter =>
      if bool_decide (0 ≤ total) then
        let? (weights, total) := new_loop iter [] total in
        if bool_decide (total = 0) then Err AllWeightsZero
        else
          let? distr := ui_new t 0 total in
          Ok (mkWeightedIndex weights total distr)
      else Err InvalidWeight
  end.

(** The first loop of [update_weights] looks for errors. *)
Fixpoint check_loop (wi : WeightedIndex) (new_weights : list (nat * Z)) (prev_i : option nat) (total : Z)
  : res WeightedError Z :=
  match new_weights with
  | [] => Ok total
  | (i, w) :: new_weights =>
      let ordered := match prev_i with Some old_i => bool_decide (old_i < i)%nat | None => true end in
      if negb ordered then Err InvalidWeight
      else if negb (bool_decide (0 ≤ w)) then Err InvalidWeight
      else if bool_decide (length (cumulative_weights wi) < i)%nat then Err TooMany
      else
        let? old_w :=
          if bool_decide (i < length (cumulative_weights wi))%nat
          then at_index (cumulative_weights wi) i else Ok (total_weight wi) in
        let? old_w :=
          match i with
          | O => Ok old_w
          | S k => let? before := at_index (cumulative_weights wi) k in sub_assign old_w before
          end in
        let? total := sub_assign total old_w in
        let? total := add_assign total w in
        check_loop wi new_weights (Some i) total
  end.

(** The second loop writes the new sums, for [i] and the [n] indices from there. *)
Fixpoint update_loop (n i : nat) (next : list (nat * Z)) (prev_weight cumulative_weight : Z) (cumulative : list Z)
  : res WeightedError (list Z) :=
  match n with
  | O => Ok cumulative
  | S n =>
      let? (cumulative_weight, next) :=
        match next with
        | (j, w) :: iter =>
            if bool_decide (i = j) then let? c := add_assign cumulative_weight w in Ok (c, iter)
            else
              let? tmp := at_index cumulative i in
              let? tmp := sub_assign tmp prev_weight in
              let? c := add_assign cumulative_weight tmp in Ok (c, next)
        | [] =>
            let? tmp := at_index cumulative i in
            let? tmp := sub_assign tmp prev_weight in
            let? c := add_assign cumulative_weight tmp in Ok (c, next)
        end in
      let? prev_weight := at_index cumulative i in
      update_loop n (S i) next prev_weight cumulative_weight (<[i := cumulative_weight]> cumulative)
  end.

Definition updated (new_weights : list (nat * Z)) (wi : WeightedIndex) : res WeightedError WeightedIndex :=
  match new_weights with
  | [] => Ok wi
  | (first, _) :: _ =>
      let? total := check_loop wi new_weights None (total_weight wi) in
      if bool_decide (total ≤ 0) then Err AllWeightsZero
      else
        let? start := match first with O => Ok 0 | S k => at_index (cumulative_weights wi) k end in
        let? cumulative :=
          update_loop (length (cumulative_weights wi) - first) first new_weights 0 start (cumulative_weights wi) in
        let? distr := ui_new t 0 total in
        Ok (mkWeightedIndex cumulative total distr)
  end.

(** An error leaves the object as it was. *)
Definition update_weights (new_weights : list (nat * Z)) : method WeightedIndex WeightedError unit := λ wi,
  match updated new_weights wi with
  | Ok wi' => (Ok tt, wi')
  | Err e => (Err e, wi)
  | Panic => (Panic, wi)
  | NoFuel => (NoFuel, wi)
  end.

(** [binary_search_by] of a slice, with a comparison that never says [Equal]: the
    place where [less] stops. *)
Fixpoint binary_search {E} (fuel : nat) (less : Z → bool) (l : list Z) (left right : nat) : res E nat :=
  match fuel with
  | O => NoFuel
  | S fuel =>
      if bool_decide (left < right)%nat then
        let mid := (left + (right - left) `div` 2)%nat in
        let? x := at_index l mid in
        if less x then binary_search fuel less l (S mid) right
        else binary_search fuel less l left mid
      else Ok left
  end.

Definition chosen_index {E} (wi : WeightedIndex) (chosen_weight : Z) : res E nat :=
  let l := cumulative_weights wi in
  binary_search (S (length l)) (λ w, bool_decide (w ≤ chosen_weight)) l 0 (length l).

Definition wi_sample {R E} `{RngCore R E} (fuel : nat) (wi : WeightedIndex) : method R E nat :=
  let! chosen_weight := ui_sample t fuel (weight_distribution wi) in
  st_try (λ _, chosen_index wi chosen_weight).

End weighted.

(** [choose_weighted] of a slice; [weight] is called once for each element. *)
Definition choose_weighted {A R} `{RngCore R WeightedError} (t : int_ty) (checks : bool) (fuel : nat) (l : list A) (weight : A → Z)
  : method R WeightedError A :=
  let! distr := st_try (λ _, wi_new t checks (weight <$> l)) in
  let! i := wi_sample t fuel distr in
  st_try (λ _, at_index l i).

(** * Sums of weights *)

Definition sum (l : list Z) : Z := foldr Z.add 0 l.
Definition psum (l : list Z) (k : nat) : Z := sum (take k l).

(** The weights after an update, one index after the other. *)
Definition apply_updates (upd : list (nat * Z)) (ws : list Z) : list Z :=
  foldl (λ ws p, <[p.1 := p.2]> ws) ws upd.

(** The sums that a distribution keeps: all but the last. *)
Definition cums (ws : list Z) : list Z := (λ k, psum ws (S k)) <$> seq 0 (length ws - 1).

Lemma sum_app a b : sum (a ++ b) = sum a + sum b.
Proof. induction a as [|x a IH]; simpl; [done|]. unfold sum in *. simpl. lia. Qed.

Lemma psum_S l k x : l !! k = Some x → psum l (S k) = psum l k + x.
Proof. intros Hx. unfold psum. rewrite (take_S_r l k x Hx), sum_app. simpl. lia. Qed.

Lemma psum_all l k : (length l ≤ k)%nat → psum l k = sum l.
Proof. intros. unfold psum. by rewrite take_ge. Qed.

Lemma psum_insert l i w k : (k ≤ i)%nat → psum (<[i := w]> l) k = psum l k.
Proof. intros. unfold psum. by rewrite take_insert_ge. Qed.

Lemma sum_insert l i w x : l !! i = Some x → sum (<[i := w]> l) = sum l - x + w.
Proof.
  intros Hx. pose proof (lookup_lt_Some _ _ _ Hx). rewrite insert_take_drop by done.
  rewrite <- (take_drop_middle l i x Hx) at 3. rewrite !sum_app. simpl. lia.
Qed.

Lemma sum_nonneg l : Forall (λ w, 0 ≤ w) l → 0 ≤ sum l.
Proof. induction 1; simpl; [done|]. unfold sum in *. simpl. lia. Qed.

Lemma psum_bounds l k : Forall (λ w, 0 ≤ w) l → 0 ≤ psum l k ≤ sum l.
Proof.
  intros Hl. assert (E1 : sum l = psum l k + sum (drop k l)) by (unfold psum; by rewrite <- sum_app, take_drop).
  pose proof (sum_nonneg (take k l) (Forall_take _ k _ Hl)). pose proof (sum_nonneg (drop k l) (Forall_drop _ k _ Hl)).
  unfold psum in *. lia.
Qed.

Lemma sum_lookup l i x : Forall (λ w, 0 ≤ w) l → l !! i = Some x → x ≤ sum l.
Proof.
  intros Hl Hx. pose proof (psum_bounds l i Hl). pose proof (psum_bounds l (S i) Hl) as Hb.
  rewrite (psum_S l i x Hx) in Hb. lia.
Qed.

Lemma psum_mono l a b : Forall (λ w, 0 ≤ w) l → (a ≤ b)%nat → psum l a ≤ psum l b.
Proof.
  intros Hl Hab. pose proof (psum_bounds (take b l) a (Forall_take _ b _ Hl)) as Hp.
  unfold psum in *. rewrite take_take, Nat.min_l in Hp by done. lia.
Qed.

Lemma length_cums ws : length (cums ws) = (length ws - 1)%nat.
Proof. unfold cums. by rewrite length_fmap, length_seq. Qed.

Lemma lookup_cums ws k : (k < length ws - 1)%nat → cums ws !! k = Some (psum ws (S k)).
Proof. intros Hk. unfold cums. by rewrite list_lookup_fmap, lookup_seq_lt. Qed.

Lemma length_apply_updates upd ws : length (apply_updates upd ws) = length ws.
Proof.
  revert ws. induction upd as [|[i w] upd IH]; intros ws; [done|]. simpl. rewrite IH. apply length_insert.
Qed.

Lemma cums_snoc ws w : ws ≠ [] → cums (ws ++ [w]) = cums ws ++ [sum ws].
Proof.
  intros Hws. assert (0 < length ws)%nat by (destruct ws; [done|simpl; lia]). unfold cums.
  rewrite length_app. cbn [length]. replace (length ws + 1 - 1)%nat with (S (length ws - 1)) by lia.
  rewrite seq_S, fmap_app. f_equal.
  - apply list_fmap_ext. intros i k Hk. apply lookup_seq in Hk as [-> Hk]. unfold psum. by rewrite take_app_le by lia.
  - cbn [fmap list_fmap]. f_equal. unfold psum. by rewrite take_app_length' by lia.
Qed.

(** Updates from [k] on leave the sums up to [k]. *)
Lemma psum_updates upd ws k : Forall (λ p, k ≤ p.1)%nat upd → psum (apply_updates upd ws) k = psum ws k.
Proof.
  intros Hu. revert ws. induction Hu as [|[i w] upd Hi _ IH]; intros ws; [done|]. simpl in *.
  rewrite IH. by apply psum_insert.
Qed.

(** * New distributions *)

Section weighted_proofs.
Variable t : int_ty.
Variable checks : bool.
Hypothesis Ht : t ∈ int_tys.

Definition distr_of (total : Z) : UniformInt := match ui_new (E := unit) t 0 total with Ok d => d | _ => mkUniformInt 0 0 0 end.
Definition wi_of (ws : list Z) : WeightedIndex := mkWeightedIndex (cums ws) (sum ws) (distr_of (sum ws)).

Lemma ty_zero : ty_min t ≤ 0 ≤ ty_max t.
Proof.
  unfold ty_min, ty_max. pose proof (bits_pos (unsigned t)).
  assert (0 < 2 ^ (bits (unsigned t) - 1)) by lia. destruct (signed t); lia.
Qed.

Lemma ui_new_distr {E} total : 0 < total → total ≤ ty_max t → ui_new (E := E) t 0 total = Ok (distr_of total).
Proof.
  intros H0 H1. pose proof ty_zero. unfold distr_of, ui_new. rewrite bool_decide_true by done.
  rewrite !(ui_new_inclusive_spec t (int_tys_row t Ht)) by lia. done.
Qed.

Lemma fit_in {E} z : ty_min t ≤ z ≤ ty_max t → fit (E := E) t checks z = Ok z.
Proof. intros. unfold fit. by rewrite bool_decide_true. Qed.

Lemma new_loop_spec iter ws :
  ws ≠ [] → Forall (λ w, 0 ≤ w) (ws ++ iter) → sum (ws ++ iter) ≤ ty_max t →
  new_loop t checks iter (cums ws) (sum ws) = Ok (cums (ws ++ iter), sum (ws ++ iter)).
Proof.
  revert ws. induction iter as [|w iter IH]; intros ws Hws Hnn Hmax; simpl; [by rewrite app_nil_r|].
  pose proof Hnn as Hnn'. apply Forall_app in Hnn as [H1 H2]. inversion_clear H2 as [|? ? Hw Hi].
  rewrite bool_decide_true by done. pose proof ty_zero. pose proof (sum_nonneg _ H1). pose proof (sum_nonneg _ Hi).
  rewrite sum_app in Hmax. simpl in Hmax. unfold add_assign. rewrite fit_in by (unfold sum in *; lia). simpl.
  pose proof (cums_snoc ws w Hws) as E1.
  assert (E2 : sum (ws ++ [w]) = sum ws + w) by (rewrite sum_app; simpl; lia).
  rewrite <- E1, <- E2. rewrite IH; [by rewrite <- app_assoc|by destruct ws| |]; rewrite <- app_assoc; [done|].
  rewrite sum_app. simpl. unfold sum in *. lia.
Qed.

Lemma wi_new_spec ws :
  ws ≠ [] → Forall (λ w, 0 ≤ w) ws → sum ws ≤ ty_max t →
  wi_new t checks ws = if bool_decide (sum ws = 0) then Err AllWeightsZero else Ok (wi_of ws).
Proof.
  intros Hws Hnn Hmax. destruct ws as [|w ws]; [done|]. unfold wi_new.
  pose proof (sum_nonneg _ Hnn) as Hs. inversion Hnn as [|? ? Hw Hws']; subst. rewrite bool_decide_true by done.
  pose proof (new_loop_spec ws [w]) as Hl. simpl in Hl. rewrite Z.add_0_r in Hl.
  change (cums [w]) with (@nil Z) in Hl. rewrite Hl by done. simpl.
  change (w + sum ws) with (sum (w :: ws)). case_bool_decide as H0; [done|].
  by rewrite ui_new_distr by lia.
Qed.

(** * Updates *)

(** What an update asks for: indices in order, and weights. *)
Definition update_ok (n : nat) (upd : list (nat * Z)) : Prop :=
  StronglySorted lt (fst <$> upd) ∧ Forall (λ p, p.1 < n)%nat upd ∧ Forall (λ p, 0 ≤ p.2 ≤ ty_max t) upd.

Lemma as_ty_cong a b : as_ty t a = as_ty t b ↔ as_uint (unsigned t) a = as_uint (unsigned t) b.
Proof.
  split; intros Hab; [by rewrite <- (as_uint_ty t a), Hab, as_uint_ty|by rewrite <- (as_ty_uint t a), Hab, as_ty_uint].
Qed.

Lemma as_ty_add a b c : as_ty t a = as_ty t b → as_ty t (a + c) = as_ty t (b + c).
Proof.
  rewrite !as_ty_cong. unfold as_uint. intros Hab. pose proof (bits_pos (unsigned t)).
  rewrite <- (Z.add_mod_idemp_l a), <- (Z.add_mod_idemp_l b) by lia. by rewrite Hab.
Qed.

Lemma as_ty_inj a b : ty_min t ≤ a ≤ ty_max t → ty_min t ≤ b ≤ ty_max t → as_ty t a = as_ty t b → a = b.
Proof. intros Ha Hb He. by rewrite (as_ty_small t a Ha), (as_ty_small t b Hb) in He. Qed.

Lemma as_ty_idem a : as_ty t (as_ty t a) = as_ty t a.
Proof. apply as_ty_cong. apply as_uint_ty. Qed.

(** An assignment gives the sum up to wrapping. *)
Lemma fit_spec {E} z : (checks = true → ty_min t ≤ z ≤ ty_max t) →
  ∃ z', fit (E := E) t checks z = Ok z' ∧ ty_min t ≤ z' ≤ ty_max t ∧ as_ty t z' = as_ty t z.
Proof.
  intros Hz. unfold fit. case_bool_decide as Hd; [by exists z|]. destruct checks; [by destruct (Hd (Hz eq_refl))|].
  exists (as_ty t z). split; [done|]. split; [apply as_ty_range|apply as_ty_idem].
Qed.

(** The weight that an update takes away. *)
Lemma old_sum ws i :
  (i < length ws)%nat →
  (if bool_decide (i < length (cumulative_weights (wi_of ws)))%nat
   then at_index (cumulative_weights (wi_of ws)) i else Ok (total_weight (wi_of ws)))
  = Ok (E := WeightedError) (psum ws (S i)).
Proof.
  intros Hi. simpl. rewrite length_cums. case_bool_decide as Hd; [unfold at_index; by rewrite lookup_cums|].
  f_equal. symmetry. apply psum_all. lia.
Qed.

Lemma old_weight ws i x :
  Forall (λ w, 0 ≤ w) ws → sum ws ≤ ty_max t → ws !! i = Some x →
  match i with
  | O => Ok (psum ws (S i))
  | S k => let? before := at_index (cumulative_weights (wi_of ws)) k in sub_assign t checks (psum ws (S i)) before
  end = Ok (E := WeightedError) x.
Proof.
  intros Hnn Hmax Hx. pose proof (lookup_lt_Some _ _ _ Hx) as Hi. rewrite (psum_S ws i x Hx).
  destruct i as [|k]; [by unfold psum|]. simpl. unfold at_index. rewrite lookup_cums by lia. simpl.
  unfold sub_assign. rewrite Z.add_simpl_l. apply fit_in. pose proof ty_zero.
  pose proof (psum_bounds ws (S k) Hnn) as Hb1. pose proof (psum_bounds ws (S (S k)) Hnn) as Hb2.
  rewrite (psum_S ws (S k) x Hx) in Hb2. rewrite list.Forall_forall in Hnn.
  assert (0 ≤ x) by (apply Hnn; by eapply list_elem_of_lookup_2). lia.
Qed.

Lemma lookup_updates_out upd ws k : Forall (λ p, p.1 ≠ k) upd → apply_updates upd ws !! k = ws !! k.
Proof.
  intros Hu. revert ws. induction Hu as [|[i w] upd Hi _ IH]; intros ws; [done|]. simpl in *.
  rewrite IH. by apply list_lookup_insert_ne.
Qed.

Lemma lookup_updates_ext upd ws ws' k :
  length ws = length ws' → ws !! k = ws' !! k → apply_updates upd ws !! k = apply_updates upd ws' !! k.
Proof.
  revert ws ws'. induction upd as [|[i w] upd IH]; intros ws ws' Hlen Hk; [done|]. simpl.
  apply IH; [by rewrite !length_insert|]. destruct (decide (i = k)) as [->|Hne].
  - destruct (decide (k < length ws)%nat); [rewrite !list_lookup_insert_eq by lia; done|].
    by rewrite !list_insert_ge by lia.
  - by rewrite !list_lookup_insert_ne by done.
Qed.

Lemma updates_nonneg upd ws :
  Forall (λ w, 0 ≤ w) ws → Forall (λ p, 0 ≤ p.2 ≤ ty_max t) upd → Forall (λ w, 0 ≤ w) (apply_updates upd ws).
Proof.
  intros Hws Hu. revert ws Hws. induction Hu as [|[i w] upd Hi _ IH]; intros ws Hws; [done|]. simpl in *.
  apply IH. apply Forall_insert; [done|lia].
Qed.

(** The totals on the way: with overflow checks they must not leave the type. *)
Definition totals_fit (upd : list (nat * Z)) (ws : list Z) : Prop :=
  checks = true → ∀ k, sum (apply_updates (take k upd) ws) ≤ ty_max t.

Definition after_prev (prev : option nat) (i : nat) : Prop := match prev with Some j => (j < i)%nat | None => True end.

Lemma check_loop_spec ws upd prev cur total :
  Forall (λ w, 0 ≤ w) ws → sum ws ≤ ty_max t → Forall (λ w, 0 ≤ w) cur → length cur = length ws →
  update_ok (length ws) upd → totals_fit upd cur →
  Forall (λ p, after_prev prev p.1 ∧ cur !! p.1 = ws !! p.1) upd →
  ty_min t ≤ total ≤ ty_max t → as_ty t total = as_ty t (sum cur) →
  ∃ total', check_loop t checks (wi_of ws) upd prev total = Ok total' ∧
    ty_min t ≤ total' ≤ ty_max t ∧ as_ty t total' = as_ty t (sum (apply_updates upd cur)).
Proof.
  intros Hnn Hmax. revert prev cur total. induction upd as [|[i w] upd IH]; intros prev cur total Hcur Hlen Hu Hfit Hp Hr He.
  { by exists total. }
  destruct Hu as (Hs & Hb & Hw). rewrite fmap_cons in Hs. apply StronglySorted_inv in Hs as [Hs Hall].
  inversion_clear Hb as [|? ? Hi Hb']. inversion_clear Hw as [|? ? Hw0 Hw']. inversion_clear Hp as [|? ? [Hord Hcu] Hp'].
  cbn [fst snd] in *. cbn [check_loop]. destruct (lookup_lt_is_Some_2 ws i Hi) as [old Hx]. rewrite Hx in Hcu.
  assert ((match prev with Some old_i => bool_decide (old_i < i)%nat | None => true end) = true) as ->.
  { destruct prev; [by apply bool_decide_eq_true|done]. }
  rewrite (bool_decide_true (0 ≤ w)) by lia. rewrite (bool_decide_false (_ < i)%nat) by (simpl; rewrite length_cums; lia).
  cbn [negb]. rewrite (old_sum ws i Hi). cbn [res_bind].
  pose proof (old_weight ws i old Hnn Hmax Hx) as Hold. rewrite Hold. cbn [res_bind].
  pose proof (sum_insert cur i w old Hcu) as Hsum. pose proof ty_zero as Hz.
  assert (Hc : checks = true → total = sum cur ∧ sum cur - old + w ≤ ty_max t ∧ 0 ≤ old ∧ 0 ≤ sum cur - old).
  { intros Hc. assert (sum cur ≤ ty_max t) as H0 by exact (Hfit Hc 0%nat).
    assert (sum (<[i := w]> cur) ≤ ty_max t) as H1 by exact (Hfit Hc 1%nat). rewrite Hsum in H1.
    pose proof (sum_nonneg _ Hcur). assert (total = sum cur) by (apply as_ty_inj; [done|lia|done]).
    pose proof (Forall_lookup_1 _ _ _ _ Hnn Hx) as H0old. simpl in H0old.
    pose proof (sum_lookup cur i old Hcur Hcu). lia. }
  unfold sub_assign, add_assign.
  destruct (fit_spec (E := WeightedError) (total - old)) as (t1 & -> & Hr1 & He1); [intros Hch; destruct (Hc Hch); lia|].
  cbn [res_bind].
  assert (Hc1 : checks = true → t1 = total - old).
  { intros Hch. destruct (Hc Hch) as (-> & H1 & H2 & H3). rewrite !as_ty_small in He1 by lia. done. }
  destruct (fit_spec (E := WeightedError) (t1 + w)) as (t2 & -> & Hr2 & He2).
  { intros Hch. rewrite (Hc1 Hch). destruct (Hc Hch). lia. }
  cbn [res_bind]. apply IH; try done.
  - apply Forall_insert; [done|simpl; lia].
  - by rewrite length_insert.
  - intros Hch k. apply (Hfit Hch (S k)).
  - apply Forall_forall. intros p Hpin.
    assert (i < p.1)%nat by (rewrite List.Forall_forall in Hall; apply Hall; by apply List.in_map).
    rewrite List.Forall_forall in Hp'. destruct (Hp' p Hpin) as [_ Hk]. split; [done|].
    cbn [fst snd]. by rewrite list_lookup_insert_ne by lia.
  - cbn [fst snd]. rewrite He2, Hsum. apply as_ty_add. rewrite He1. unfold Z.sub. by apply as_ty_add.
Qed.

(** The sums up to [i] of the new weights, the rest of the old ones. *)
Definition mixed (ws ws' : list Z) (i : nat) (l : list Z) : Prop :=
  length l = (length ws - 1)%nat ∧
  ∀ k, (k < length ws - 1)%nat → l !! k = Some (psum (if bool_decide (k < i)%nat then ws' else ws) (S k)).

Lemma mixed_lookup ws ws' i l {E} : mixed ws ws' i l → (i < length ws - 1)%nat → at_index (E := E) l i = Ok (psum ws (S i)).
Proof. intros [_ Hl] Hi. unfold at_index. rewrite Hl by done. by rewrite bool_decide_false by lia. Qed.

Lemma mixed_step ws ws' i l :
  mixed ws ws' i l → (i < length ws - 1)%nat → mixed ws ws' (S i) (<[i := psum ws' (S i)]> l).
Proof.
  intros [Hlen Hl] Hi. split; [by rewrite length_insert|]. intros k Hk. destruct (decide (k = i)) as [->|Hne].
  - rewrite list_lookup_insert_eq by lia. by rewrite bool_decide_true by lia.
  - rewrite list_lookup_insert_ne, Hl by done. destruct (decide (k < i)%nat).
    + by rewrite !bool_decide_true by lia.
    + by rewrite !bool_decide_false by lia.
Qed.

Lemma mixed_all ws ws' i l : length ws' = length ws → mixed ws ws' i l → (length ws - 1 ≤ i)%nat → l = cums ws'.
Proof.
  intros Hws [Hlen Hl] Hi. apply list_eq. intros k. destruct (decide (k < length ws - 1)%nat) as [Hk|Hk].
  - rewrite Hl, lookup_cums by lia. by rewrite bool_decide_true by lia.
  - rewrite !lookup_ge_None_2; [done|rewrite length_cums|]; lia.
Qed.

(** The weight at [i] of the sums of a list. *)
Lemma psum_diff ws i x : Forall (λ w, 0 ≤ w) ws → sum ws ≤ ty_max t → ws !! i = Some x →
  ∃ p, psum ws i = p ∧ psum ws (S i) = p + x ∧ 0 ≤ x ∧ 0 ≤ p ∧ p + x ≤ ty_max t.
Proof.
  intros Hnn Hmax Hx. exists (psum ws i). pose proof (psum_bounds ws i Hnn). pose proof (psum_bounds ws (S i) Hnn).
  pose proof (Forall_lookup_1 _ _ _ _ Hnn Hx) as H0x. simpl in H0x. pose proof (psum_S ws i x Hx). lia.
Qed.

Lemma after_not i (l : list (nat * Z)) : Forall (λ p, S i ≤ p.1)%nat l → Forall (λ p, p.1 ≠ i) l.
Proof. intros Hl. eapply list.Forall_impl; [exact Hl|]. intros q Hq. simpl in Hq. lia. Qed.

Lemma update_loop_spec ws ws' n i next prev l :
  Forall (λ w, 0 ≤ w) ws → sum ws ≤ ty_max t → Forall (λ w, 0 ≤ w) ws' → sum ws' ≤ ty_max t →
  length ws' = length ws → n = (length ws - 1 - i)%nat →
  StronglySorted lt (fst <$> next) → Forall (λ p, i ≤ p.1)%nat next →
  (∀ k, (i ≤ k)%nat → ws' !! k = apply_updates next ws !! k) →
  (match next with p :: _ => p.1 ≠ i | [] => True end → prev = psum ws i) →
  mixed ws ws' i l →
  update_loop t checks n i next prev (psum ws' i) l = Ok (cums ws').
Proof.
  intros Hnn Hmax Hnn' Hmax' Hlen. revert i next prev l.
  induction n as [|n IH]; intros i next prev l Hn Hs Hge Hnext Hprev Hl; simpl.
  { f_equal. eapply mixed_all; [done..|lia]. }
  assert (Hi : (i < length ws - 1)%nat) by lia. pose proof ty_zero as Hz.
  destruct (lookup_lt_is_Some_2 ws' i ltac:(lia)) as [x' Hx']. destruct (lookup_lt_is_Some_2 ws i ltac:(lia)) as [x Hx].
  destruct (psum_diff ws i x Hnn Hmax Hx) as (p & Ep & ESp & Hp). destruct (psum_diff ws' i x' Hnn' Hmax' Hx') as (p' & Ep' & ESp' & Hp').
  pose proof (mixed_lookup ws ws' i l (E := WeightedError) Hl Hi) as Hat. pose proof (mixed_step ws ws' i l Hl Hi) as Hl'.
  (* where the list has no new weight at [i] *)
  assert (Hkeep : Forall (λ p, S i ≤ p.1)%nat next →
    (let? tmp := at_index l i in let? tmp := sub_assign t checks tmp prev in
     let? c := add_assign t checks (psum ws' i) tmp in Ok (c, next)) = Ok (E := WeightedError) (psum ws' (S i), next)).
  { intros Hgt. rewrite Hat. simpl. rewrite Hprev, Ep, ESp.
    2: { destruct next as [|q ?]; [done|]. inversion_clear Hgt. lia. }
    unfold sub_assign, add_assign. rewrite fit_in by lia. simpl. rewrite Hnext in Hx' by lia.
    rewrite lookup_updates_out, Hx in Hx' by (by apply (after_not i)).
    injection Hx' as ->. rewrite fit_in by lia. simpl. repeat f_equal. lia. }
  assert (Hrest : ∀ next', StronglySorted lt (fst <$> next') → Forall (λ p, S i ≤ p.1)%nat next' →
    (∀ k, (S i ≤ k)%nat → ws' !! k = apply_updates next' ws !! k) →
    update_loop t checks n (S i) next' (psum ws (S i)) (psum ws' (S i)) (<[i := psum ws' (S i)]> l) = Ok (cums ws')).
  { intros next' Hs' Hge' Hn'. apply IH; [lia|done..]. }
  assert (Hsame : Forall (λ p, S i ≤ p.1)%nat next →
    (let? (cumulative_weight, next) :=
       let? tmp := at_index l i in let? tmp := sub_assign t checks tmp prev in
       let? c := add_assign t checks (psum ws' i) tmp in Ok (c, next) in
     let? prev_weight := at_index l i in
     update_loop t checks n (S i) next prev_weight cumulative_weight (<[i := cumulative_weight]> l)) = Ok (cums ws')).
  { intros Hgt. rewrite Hkeep by done. cbn [res_bind]. rewrite Hat. cbn [res_bind].
    apply Hrest; [done..|]. intros k Hk. apply Hnext. lia. }
  destruct next as [|[j w] rest]; [by apply Hsame|].
  rewrite fmap_cons in Hs. apply StronglySorted_inv in Hs as [Hs' Hall]. cbn [fst] in Hall.
  assert (Hgt : Forall (λ p, S j ≤ p.1)%nat rest) by (rewrite Forall_fmap in Hall; exact Hall).
  inversion_clear Hge as [|? ? Hj _]. cbn [fst] in Hj.
  case_bool_decide as Hij.
  - subst j. assert (x' = w) as ->.
    { rewrite Hnext in Hx' by lia. simpl in Hx'. rewrite lookup_updates_out in Hx' by (by apply (after_not i)).
      rewrite list_lookup_insert_eq in Hx' by lia. by injection Hx'. }
    unfold add_assign. rewrite Ep', fit_in by lia. cbn [res_bind]. rewrite Hat. cbn [res_bind]. rewrite <- ESp'.
    apply Hrest; [done..|]. intros k Hk. rewrite Hnext by lia. simpl.
    apply lookup_updates_ext; [by rewrite length_insert|]. by rewrite list_lookup_insert_ne by lia.
  - apply Hsame. constructor; [simpl; lia|]. eapply list.Forall_impl; [exact Hgt|]. intros q Hq. simpl in *. lia.
Qed.

(** An update gives the distribution of the new weights. *)
Lemma updated_spec ws upd :
  upd ≠ [] → Forall (λ w, 0 ≤ w) ws → sum ws ≤ ty_max t → update_ok (length ws) upd →
  sum (apply_updates upd ws) ≤ ty_max t → totals_fit upd ws →
  updated t checks upd (wi_of ws) =
    if bool_decide (sum (apply_updates upd ws) = 0) then Err AllWeightsZero else Ok (wi_of (apply_updates upd ws)).
Proof.
  intros Hne Hnn Hmax Hu Hmax' Hfit. destruct upd as [|[i w] rest] eqn:Hupd; [done|]. rewrite <- Hupd in *.
  assert (Hp : Forall (λ p, after_prev None p.1 ∧ ws !! p.1 = ws !! p.1) upd) by (apply list.Forall_forall; by intros).
  pose proof ty_zero as Hz. pose proof (sum_nonneg ws Hnn).
  destruct (check_loop_spec ws upd None ws (sum ws)) as (total & Hc & Hr & He); [done..|lia|done|].
  pose proof Hu as (Hs & Hb & Hw). pose proof (updates_nonneg upd ws Hnn Hw) as Hnn'.
  pose proof (sum_nonneg _ Hnn'). apply as_ty_inj in He; [|done|lia]. subst total.
  unfold updated. rewrite Hupd at 1. cbn [total_weight wi_of]. rewrite Hc. cbn [res_bind].
  destruct (decide (sum (apply_updates upd ws) = 0)) as [Hs0|Hs0].
  { by rewrite !bool_decide_true by lia. }
  rewrite !bool_decide_false by lia. cbn [cumulative_weights wi_of]. rewrite length_cums.
  assert (Hge : Forall (λ p, i ≤ p.1)%nat upd).
  { rewrite Hupd in Hs |- *. rewrite fmap_cons in Hs. apply StronglySorted_inv in Hs as [_ Hall].
    rewrite Forall_fmap in Hall. constructor; [done|]. eapply list.Forall_impl; [exact Hall|].
    intros q Hq. simpl in Hq. lia. }
  assert (Hi : (i < length ws)%nat) by (rewrite Hupd in Hb; by inversion_clear Hb).
  assert ((match i with O => Ok 0 | S k => at_index (cums ws) k end) = Ok (E := WeightedError) (psum (apply_updates upd ws) i)) as ->.
  { rewrite psum_updates by done. destruct i as [|k]; [done|]. unfold at_index. by rewrite lookup_cums by lia. }
  cbn [res_bind]. rewrite (update_loop_spec ws (apply_updates upd ws)); try done.
  - cbn [res_bind]. rewrite ui_new_distr by lia. done.
  - apply length_apply_updates.
  - intros Hh. rewrite Hupd in Hh. by destruct Hh.
  - split; [apply length_cums|]. intros k Hk. rewrite lookup_cums by done. case_bool_decide; [|done].
    by rewrite !psum_updates by (eapply list.Forall_impl; [exact Hge|]; intros q Hq; simpl in Hq; lia).
Qed.

(** * Sampling *)

Lemma binary_search_spec {E} less (l : list Z) pos fuel left right :
  (∀ k x, l !! k = Some x → less x = bool_decide (k < pos)%nat) →
  (left ≤ pos ≤ right)%nat → (right ≤ length l)%nat → (right - left < fuel)%nat →
  binary_search (E := E) fuel less l left right = Ok pos.
Proof.
  intros Hless. revert left right. induction fuel as [|fuel IH]; intros left right Hpos Hr Hf; [lia|]. cbn [binary_search].
  case_bool_decide as Hlt; [|f_equal; lia].
  pose proof (Nat.div_lt (right - left) 2 ltac:(lia) ltac:(lia)). set (mid := (left + (right - left) `div` 2)%nat) in *.
  destruct (lookup_lt_is_Some_2 l mid ltac:(lia)) as [x Hx]. unfold at_index. rewrite Hx. cbn [res_bind].
  rewrite (Hless mid x Hx). case_bool_decide; apply IH; lia.
Qed.

Lemma chosen_index_spec {E} ws i c :
  Forall (λ w, 0 ≤ w) ws → (i < length ws)%nat → psum ws i ≤ c < psum ws (S i) →
  chosen_index (E := E) (wi_of ws) c = Ok i.
Proof.
  intros Hnn Hi Hc. unfold chosen_index. cbn [cumulative_weights wi_of]. pose proof (length_cums ws).
  apply binary_search_spec; [|lia..]. intros k x Hx. pose proof (lookup_lt_Some _ _ _ Hx).
  rewrite lookup_cums in Hx by lia. injection Hx as <-. apply bool_decide_ext. split; intros Hk.
  - destruct (decide (k < i)%nat); [done|]. pose proof (psum_mono ws (S i) (S k) Hnn ltac:(lia)). lia.
  - pose proof (psum_mono ws (S k) i Hnn ltac:(lia)). lia.
Qed.

Lemma psum_find ws c : Forall (λ w, 0 ≤ w) ws → 0 ≤ c < sum ws → ∃ i, (i < length ws)%nat ∧ psum ws i ≤ c < psum ws (S i).
Proof.
  intros Hnn Hc. assert (Hk : ∀ k, c < psum ws k → ∃ i, (i < length ws)%nat ∧ psum ws i ≤ c < psum ws (S i)).
  { induction k as [|k IH]; intros Hk; [unfold psum in Hk; simpl in Hk; lia|].
    destruct (decide (c < psum ws k)) as [Hl|Hl]; [by apply IH|]. exists k. split; [|lia].
    destruct (decide (k < length ws)%nat); [done|]. rewrite !psum_all in * by lia. lia. }
  apply (Hk (length ws)). rewrite psum_all by lia. lia.
Qed.

(** What a word gives: the index of the weight that its number falls in. *)
Definition index_draw (wi : WeightedIndex) (v : Z) : res unit (option Z) :=
  let? o := draw t (weight_distribution wi) v in
  match o with
  | Some c => let? i := chosen_index wi c in Ok (Some (Z.of_nat i))
  | None => Ok None
  end.

Definition within (f : Z → res unit (option Z)) (a : Z) (k : nat) (v : Z) : Prop :=
  match f v with Ok (Some x) => a ≤ x < a + Z.of_nat k | _ => False end.
#[local] Instance within_dec f a k v : Decision (within f a k v).
Proof. unfold within. destruct (f v) as [[x|]| | |]; apply _. Defined.

Lemma filter_split {A} (P Q S : A → Prop) `{∀ x, Decision (P x)} `{∀ x, Decision (Q x)} `{∀ x, Decision (S x)} l :
  (∀ x, P x ↔ Q x ∨ S x) → (∀ x, Q x → ¬ S x) → length (filter P l) = (length (filter Q l) + length (filter S l))%nat.
Proof.
  intros HP HQ. induction l as [|x l IH]; [done|]. rewrite !filter_cons. specialize (HP x). specialize (HQ x).
  repeat case_decide; simpl; try lia; tauto.
Qed.

Lemma filter_length_ext {A} (P Q : A → Prop) `{∀ x, Decision (P x)} `{∀ x, Decision (Q x)} l :
  Forall (λ x, P x ↔ Q x) l → length (filter P l) = length (filter Q l).
Proof. induction 1 as [|x l Hx _ IH]; [done|]. rewrite !filter_cons. repeat case_decide; simpl; tauto || lia. Qed.

Lemma count_within f W a k m :
  (∀ x, a ≤ x < a + Z.of_nat k → count f W x = m) → length (filter (within f a k) (seqZ 0 W)) = (m * k)%nat.
Proof.
  induction k as [|k IH]; intros Hm.
  { rewrite filter_none, Nat.mul_0_r; [done|]. apply list.Forall_forall. intros v _. unfold within.
    destruct (f v) as [[x|]| | |]; simpl; [|tauto..]. lia. }
  rewrite (filter_split _ (within f a k) (gives f (a + Z.of_nat k))).
  - rewrite IH by (intros; apply Hm; lia). fold (count f W (a + Z.of_nat k)). rewrite Hm by lia. lia.
  - intros v. unfold within, gives. destruct (f v) as [[x|]| | |]; [|by split; [done|intros [?|?]]..].
    split; [|intros [?|[= ->]]; lia]. intros Hx. destruct (decide (x = a + Z.of_nat k)) as [->|]; [by right|left; lia].
  - intros v. unfold within, gives. destruct (f v) as [[x|]| | |]; [|done..]. intros Hx [= ->]. lia.
Qed.

(** Every index is given by a number of words in proportion to its weight. *)
Lemma index_draw_proportional ws :
  Forall (λ w, 0 ≤ w) ws → 0 < sum ws → sum ws ≤ ty_max t →
  (∃ m : nat, (0 < m)%nat ∧ 2 ^ bits (u_large t) ≤ 2 * (Z.of_nat m * sum ws) ∧
     ∀ i w, ws !! i = Some w → count (index_draw (wi_of ws)) (2 ^ bits (u_large t)) (Z.of_nat i) = (m * Z.to_nat w)%nat) ∧
  ∀ v, 0 ≤ v < 2 ^ bits (u_large t) → ∃ o, index_draw (wi_of ws) v = Ok o ∧
    ∀ x, o = Some x → ∃ i w, x = Z.of_nat i ∧ ws !! i = Some w ∧ 0 < w.
Proof.
  intros Hnn Hpos Hmax. pose proof ty_zero as Hz.
  destruct (draw_uniform t (int_tys_row t Ht) 0 (sum ws - 1)) as (d & Hd & (m & Hm & HW & Hcount) & Hval); [lia..|].
  assert (distr_of (sum ws) = d) as Ed.
  { unfold distr_of, ui_new. by rewrite bool_decide_true, Hd by done. }
  replace (sum ws - 1 - 0 + 1) with (sum ws) in HW by lia.
  assert (Hidx : ∀ v c, 0 ≤ v < 2 ^ bits (u_large t) → draw t d v = Ok (E := unit) (Some c) →
    ∃ i, (i < length ws)%nat ∧ psum ws i ≤ c < psum ws (S i) ∧ index_draw (wi_of ws) v = Ok (Some (Z.of_nat i))).
  { intros v c Hv Hc. destruct (Hval v Hv) as (o & Ho & Hrange). rewrite Hc in Ho. injection Ho as <-.
    destruct (psum_find ws c Hnn) as (i & Hi & Hci); [specialize (Hrange c eq_refl); lia|].
    exists i. split_and!; [done|lia..|]. unfold index_draw. cbn [weight_distribution wi_of]. rewrite Ed, Hc. cbn [res_bind].
    by rewrite (chosen_index_spec ws i c). }
  split.
  - exists m. split_and!; [done|done|]. intros i w Hw. pose proof (lookup_lt_Some _ _ _ Hw) as Hi.
    pose proof (Forall_lookup_1 _ _ _ _ Hnn Hw) as Hw0. simpl in Hw0.
    pose proof (psum_bounds ws i Hnn). pose proof (psum_bounds ws (S i) Hnn) as Hb. rewrite (psum_S ws i w Hw) in Hb.
    rewrite <- (count_within (draw t d) (2 ^ bits (u_large t)) (psum ws i)) by (intros; apply Hcount; lia).
    apply filter_length_ext, Forall_seqZ. intros v Hv. unfold gives, within. split.
    + unfold index_draw at 1. cbn [weight_distribution wi_of]. rewrite Ed. destruct (draw t d v) as [[c|]| | |] eqn:Hc; try done.
      destruct (Hidx v c Hv Hc) as (j & Hj & Hcj & _). cbn [res_bind]. rewrite (chosen_index_spec ws j c) by done.
      cbn [res_bind]. intros [= Heq]. apply Nat2Z.inj in Heq as ->. rewrite (psum_S ws i w Hw) in Hcj. lia.
    + destruct (draw t d v) as [[c|]| | |] eqn:Hc; try done. intros Hci. rewrite Z2Nat.id in Hci by done.
      unfold index_draw. cbn [weight_distribution wi_of]. rewrite Ed, Hc. cbn [res_bind].
      rewrite (chosen_index_spec ws i c); [done..|]. rewrite (psum_S ws i w Hw). lia.
  - intros v Hv. destruct (Hval v Hv) as ([c|] & Ho & _).
    + destruct (Hidx v c Hv Ho) as (i & Hi & Hc & ->). eexists. split; [done|]. intros x [= <-].
      destruct (lookup_lt_is_Some_2 ws i Hi) as [w Hw]. exists i, w. split_and!; [done..|].
      rewrite (psum_S ws i w Hw) in Hc. lia.
    + exists None. split; [|done]. unfold index_draw. cbn [weight_distribution wi_of]. by rewrite Ed, Ho.
Qed.

(** [sample] returns the index that the first accepted word gives. *)
Lemma wi_sample_first {R} `{RngCore R unit} fuel wi r vs v i r' :
  takes (gen_uint (u_large t)) r (vs ++ [v]) r' →
  Forall (λ u, index_draw wi u = Ok None) vs → index_draw wi v = Ok (Some (Z.of_nat i)) → (length vs < fuel)%nat →
  wi_sample t (E := unit) fuel wi r = (Ok i, r').
Proof.
  intros Htk Hvs Hv Hf. unfold index_draw in Hv. apply res_bind_ok in Hv as ([c|] & Hc & Hi); [|done].
  apply res_bind_ok in Hi as (j & Hj & [= Hij]). apply Nat2Z.inj in Hij as ->.
  unfold wi_sample. rewrite (st_bind_ok _ _ _ c r'); [unfold st_try; by rewrite Hj|].
  eapply ui_sample_first; try done. eapply list.Forall_impl; [exact Hvs|]. intros u Hu.
  unfold index_draw in Hu. apply res_bind_ok in Hu as ([x|] & Hx & Hn); [|done].
  by apply res_bind_ok in Hn as (? & ? & ?).
Qed.
End weighted_proofs.
