(* ===== verification/RandReseed.v ===== *)
(** The generator that reseeds itself (rand/src/rngs/adapter/reseeding.rs).

    [get_fork_counter] reads a number that the handlers of [fork] count up; each block
    is made with what it reads, the argument [global].  [checks] says whether an overflow
    is a panic.  The specification [spec_block] counts the bytes that a seed has given and the attempts to
    replace it that failed. *)
From Stdlib Require Import ZArith Lia Strings.Byte Sorting.Sorted.
From stdpp Require Import base list numbers option.
From S2P Require Import Prelude StateMonad Words RandCore RandBlock RandUniform RandWeighted.
#[local] Open Scope Z_scope.

Record ReseedingCore (C S : Type) : Type := mkReseedingCore {
  inner : C;
  reseeder : S;
  threshold : Z;
  bytes_until_reseed : Z;
  fork_counter : Z;
}.
Arguments mkReseedingCore {C S}.
Arguments inner {C S}.
Arguments reseeder {C S}.
Arguments threshold {C S}.
Arguments bytes_until_reseed {C S}.
Arguments fork_counter {C S}.

Section reseeding.
Context {C S E : Type} `{BlockRngCore C E} `{SeedableRng C} `{RngCore S E}.
(** [size_of::<Item>()] *)
Variable item_size : Z.
Variable checks : bool.

Definition set_inner (x : C) (c : ReseedingCore C S) : ReseedingCore C S :=
  mkReseedingCore x (reseeder c) (threshold c) (bytes_until_reseed c) (fork_counter c).
Definition set_reseeder (x : S) (c : ReseedingCore C S) : ReseedingCore C S :=
  mkReseedingCore (inner c) x (threshold c) (bytes_until_reseed c) (fork_counter c).
Definition set_bytes (x : Z) (c : ReseedingCore C S) : ReseedingCore C S :=
  mkReseedingCore (inner c) (reseeder c) (threshold c) x (fork_counter c).
Definition set_fork_counter (x : Z) (c : ReseedingCore C S) : ReseedingCore C S :=
  mkReseedingCore (inner c) (reseeder c) (threshold c) (bytes_until_reseed c) x.

Definition rc_new (rng : C) (threshold : Z) (reseeder : S) : ReseedingCore C S :=
  let MAX := ty_max i64_ty in
  let threshold :=
    if bool_decide (threshold = 0) then MAX
    else if bool_decide (threshold ≤ MAX) then as_ty i64_ty threshold
    else MAX in
  mkReseedingCore rng reseeder threshold threshold 0.

Definition reseed : method (ReseedingCore C S) E unit := λ c,
  match from_rng (R := C) (E := E) (reseeder c) with
  | (Ok result, s) => (Ok tt, set_inner result (set_bytes (threshold c) (set_reseeder s c)))
  | (Err e, s) => (Err e, set_reseeder s c)
  | (Panic, s) => (Panic, set_reseeder s c)
  | (NoFuel, s) => (NoFuel, set_reseeder s c)
  end.

Definition is_forked (global : Z) (c : ReseedingCore C S) : bool :=
  bool_decide (as_ty isize_ty (wrapping_sub 64 (fork_counter c) global) < 0).

(** [self.inner.generate(results)] *)
Definition inner_generate (results : list Z) : method (ReseedingCore C S) E (list Z) := λ c,
  let '(x, i) := generate results (inner c) in (x, set_inner i c).

(** An error is logged and forgotten. *)
Definition logged {A} (m : method A E unit) : method A E unit := λ s,
  match m s with
  | (Err _, s') => (Ok tt, s')
  | r => r
  end.

Definition num_bytes (results : list Z) : Z := as_ty i64_ty (Z.of_nat (length results) * item_size).

Definition reseed_and_generate (global : Z) (results : list Z) : method (ReseedingCore C S) E (list Z) :=
  let! _ := logged reseed in
  let! _ := st_set (set_fork_counter global) in
  let! n := st_try (λ c, sub_assign i64_ty checks (threshold c) (num_bytes results)) in
  let! _ := st_set (set_bytes n) in
  inner_generate results.

Definition reseeding_generate (global : Z) (results : list Z) : method (ReseedingCore C S) E (list Z) :=
  let! now := st_get (λ c, bool_decide (bytes_until_reseed c ≤ 0) || is_forked global c) in
  if now : bool then reseed_and_generate global results
  else
    let! n := st_try (λ c, sub_assign i64_ty checks (bytes_until_reseed c) (num_bytes results)) in
    let! _ := st_set (set_bytes n) in
    inner_generate results.

(** A clone reseeds on its first use. *)
Definition rc_clone (c : ReseedingCore C S) : ReseedingCore C S := set_bytes 0 c.

(** [ReseedingRng] is a [BlockRng] over this core, while the counter is [global]. *)
Definition reseeding_core (global : Z) : BlockRngCore (ReseedingCore C S) E := {|
  results_len := results_len (C := C) (E := E);
  generate := reseeding_generate global
|}.
Definition reseeding_new (rng : C) (threshold : Z) (reseeder : S) : BlockRng (ReseedingCore C S) :=
  @block_new _ E (reseeding_core 0) (rc_new rng threshold reseeder).
Definition reseeding_rng (global : Z) (little : bool) : RngCore (BlockRng (ReseedingCore C S)) E :=
  @block_rng_core _ E (reseeding_core global) little.
Definition reseeding_clone (r : BlockRng (ReseedingCore C S)) : BlockRng (ReseedingCore C S) :=
  @block_new _ E (reseeding_core 0) (rc_clone (core r)).

(** A block for each reading of the counter. *)
Fixpoint reseeding_blocks (globals : list Z) (results : list Z) : method (ReseedingCore C S) E (list (list Z)) :=
  match globals with
  | [] => st_ret []
  | g :: gs =>
      let! b := reseeding_generate g results in
      let! bs := reseeding_blocks gs b in
      st_ret (b :: bs)
  end.

End reseeding.

(** * The specification *)

(** The generator, where its seeds come from, and the forks that were seen; of the seed in
    place, how many bytes it has given and how often its replacement failed; [used] counts
    the bytes since the last attempt. *)
Record seeded (C S : Type) : Type :=
  mkSeeded { gen : C; source : S; used : Z; seen : Z; given : Z; failed : Z }.
Arguments mkSeeded {C S}.
Arguments gen {C S}.
Arguments source {C S}.
Arguments used {C S}.
Arguments seen {C S}.
Arguments given {C S}.
Arguments failed {C S}.

Section spec.
Context {C S E : Type} `{Hcore : BlockRngCore C E} `{Hok : !BlockRngCoreOk C E} `{SeedableRng C} `{RngCore S E}.
Variable item_size : Z.
Variable checks : bool.

(** The bytes of a block. *)
Definition block_bytes : Z := Z.of_nat (results_len (C := C) (E := E)) * item_size.

Definition due (limit g : Z) (s : seeded C S) : bool := bool_decide (limit ≤ used s ∨ seen s ≠ g).

(** An attempt to take a new seed.  When the source fails, the seed in place goes on and
    what it has given still counts; only the next attempt is put off. *)
Definition new_seed (g : Z) (s : seeded C S) : seeded C S :=
  match from_rng (R := C) (E := E) (source s) with
  | (Ok r, src) => mkSeeded r src 0 g 0 0
  | (_, src) => mkSeeded (gen s) src 0 g (given s) (failed s + 1)
  end.

Definition spec_block (limit g : Z) (s : seeded C S) : list Z * seeded C S :=
  let s := if due limit g s then new_seed g s else s in
  (fresh (gen s), mkSeeded (advanced (gen s)) (source s) (used s + block_bytes) (seen s)
    (given s + block_bytes) (failed s)).

Fixpoint spec_blocks (limit : Z) (gs : list Z) (s : seeded C S) : list (list Z) * seeded C S :=
  match gs with
  | [] => ([], s)
  | g :: gs => let '(b, s) := spec_block limit g s in let '(bs, s) := spec_blocks limit gs s in (b :: bs, s)
  end.

(** The limit of a threshold: zero is none. *)
Definition limit_of (threshold : Z) : Z := if bool_decide (threshold = 0) then 2 ^ 63 - 1 else Z.min threshold (2 ^ 63 - 1).

(** What the core holds. *)
Record holds_seed (limit : Z) (c : ReseedingCore C S) (s : seeded C S) : Prop := {
  hs_inner : inner c = gen s;
  hs_reseeder : reseeder c = source s;
  hs_threshold : threshold c = limit;
  hs_bytes : bytes_until_reseed c = limit - used s;
  hs_forks : fork_counter c = seen s;
  hs_used : 0 ≤ used s < limit + block_bytes;
  hs_seen : 0 ≤ seen s;
}.

(** The source answers: a seed or an error. *)
Hypothesis answers : ∀ src : S, ∃ src', (∃ r, from_rng (R := C) (E := E) src = (Ok r, src')) ∨
  (∃ e, from_rng (R := C) (E := E) src = (Err e, src')).
Hypothesis block_fits : 0 < block_bytes ≤ 2 ^ 62.

Lemma i64_bounds : ty_min i64_ty = - 2 ^ 63 ∧ ty_max i64_ty = 2 ^ 63 - 1.
Proof. done. Qed.

Lemma num_bytes_block results : length results = results_len (C := C) (E := E) → num_bytes item_size results = block_bytes.
Proof.
  intros Hl. unfold num_bytes. rewrite Hl. fold block_bytes. apply as_ty_small. destruct i64_bounds. lia.
Qed.

Lemma forked_iff g (c : ReseedingCore C S) :
  0 ≤ fork_counter c → fork_counter c ≤ g → g ≤ 2 ^ 63 → is_forked g c = bool_decide (fork_counter c ≠ g).
Proof.
  intros Hf0 Hfg Hg. unfold is_forked. apply bool_decide_ext.
  destruct (decide (fork_counter c = g)) as [->|Hne].
  { unfold wrapping_sub. rewrite Z.sub_diag. split; [by vm_compute|done]. }
  split; [done|]. intros _. set (d := fork_counter c - g). assert (- 2 ^ 63 ≤ d < 0) by lia.
  assert (E1 : wrapping_sub 64 (fork_counter c) g = 2 ^ 64 + d).
  { unfold wrapping_sub. fold d. replace d with (2 ^ 64 + d + (-1) * 2 ^ 64) at 1 by lia.
    rewrite Z.mod_add by lia. apply Z.mod_small. lia. }
  rewrite E1. change (as_ty isize_ty (2 ^ 64 + d)) with ((2 ^ 64 + d + 2 ^ 63) `mod` 2 ^ 64 - 2 ^ 63).
  replace (2 ^ 64 + d + 2 ^ 63) with (d + 2 ^ 63 + 1 * 2 ^ 64) by lia.
  rewrite Z.mod_add, Z.mod_small by lia. lia.
Qed.

(** Every block is that of the specification, and its seed does not go past the limit. *)
Lemma reseeding_generate_spec limit g results c s :
  0 < limit < 2 ^ 63 → holds_seed limit c s → length results = results_len (C := C) (E := E) →
  seen s ≤ g → g ≤ 2 ^ 63 →
  ∃ c', reseeding_generate (E := E) item_size checks g results c = (Ok (spec_block limit g s).1, c') ∧
    holds_seed limit c' (spec_block limit g s).2 ∧ seen (spec_block limit g s).2 ≤ g.
Proof.
  intros Hl Hc Hlen Hsg Hg. destruct Hc as [Hi Hr Ht Hb Hf Hu Hs0]. destruct i64_bounds as [Hmin Hmax].
  unfold reseeding_generate. rewrite st_bind_get, forked_iff by lia.
  assert (Hdue : (bool_decide (bytes_until_reseed c ≤ 0) || bool_decide (fork_counter c ≠ g)) = due limit g s).
  { unfold due. rewrite Hb, Hf. rewrite <- bool_decide_or. apply bool_decide_ext. split; (intros [?|?]; [left; lia|by right]). }
  rewrite Hdue. unfold spec_block. destruct (due limit g s) eqn:Ed.
  - assert (Hlog : ∃ c1, logged reseed c = (Ok tt, c1) ∧ inner c1 = gen (new_seed g s) ∧
      reseeder c1 = source (new_seed g s) ∧ threshold c1 = limit ∧ used (new_seed g s) = 0 ∧ seen (new_seed g s) = g).
    { unfold logged, reseed, new_seed. rewrite Hr.
      destruct (answers (source s)) as (src & [[r Ha]|[e Ha]]); rewrite Ha; eexists; (split; [done|]); by simpl. }
    destruct Hlog as (c1 & E1 & Hin & Hrs & Hth & Hu1 & Hs1). unfold reseed_and_generate.
    rewrite (st_bind_ok _ _ _ _ _ E1), st_bind_set.
    unfold sub_assign. rewrite (st_bind_try _ _ _ (limit - block_bytes)).
    2:{ rewrite num_bytes_block by done. simpl. rewrite Hth. apply fit_in. lia. }
    rewrite st_bind_set. unfold inner_generate. simpl. rewrite Hin, generate_fresh by done.
    eexists. split; [done|]. split; [split; simpl; try done; lia|]. simpl. lia.
  - unfold due in Ed. apply bool_decide_eq_false in Ed.
    unfold sub_assign. rewrite (st_bind_try _ _ _ (limit - used s - block_bytes)).
    2:{ rewrite num_bytes_block by done. rewrite Hb. apply fit_in. lia. }
    rewrite st_bind_set. unfold inner_generate. simpl. rewrite Hi, generate_fresh by done.
    eexists. split; [done|]. split; [split; simpl; try done; lia|]. simpl. lia.
Qed.

Lemma reseeding_blocks_spec limit gs results c s :
  0 < limit < 2 ^ 63 → holds_seed limit c s → length results = results_len (C := C) (E := E) →
  StronglySorted Z.le (seen s :: gs) → Forall (λ g, g ≤ 2 ^ 63) gs →
  ∃ c', reseeding_blocks (E := E) item_size checks gs results c = (Ok (spec_blocks limit gs s).1, c') ∧
    holds_seed limit c' (spec_blocks limit gs s).2.
Proof.
  intros Hl. revert results c s. induction gs as [|g gs IH]; intros results c s Hc Hlen Hs Hg; [by exists c|].
  apply StronglySorted_inv in Hs as [Hs Hle]. inversion_clear Hg as [|? ? Hg1 Hg2]. inversion_clear Hle as [|? ? Hsg Hle'].
  pose proof Hs as Hs'. apply StronglySorted_inv in Hs' as [Hs' Hall].
  destruct (reseeding_generate_spec limit g results c s) as (c1 & E1 & Hc1 & Hseen); [done..|].
  cbn [reseeding_blocks spec_blocks]. rewrite (st_bind_ok _ _ _ _ _ E1).
  assert (Hb : length (spec_block limit g s).1 = results_len (C := C) (E := E)).
  { unfold spec_block. destruct (due limit g s); apply fresh_length. }
  destruct (spec_block limit g s) as [b s1]. simpl in *.
  destruct (IH b c1 s1 Hc1 Hb) as (c2 & E2 & Hc2); [|done|].
  { constructor; [done|]. eapply list.Forall_impl; [exact Hall|]. simpl. lia. }
  rewrite (st_bind_ok _ _ _ _ _ E2). unfold st_ret. destruct (spec_blocks limit gs s1) as [bs s2]. by exists c2.
Qed.

(** What the seed in place has given: the bytes since the last attempt, and a threshold and
    a block at most for each attempt that failed. *)
Record accounted (limit : Z) (s : seeded C S) : Prop := {
  ac_used : 0 ≤ used s < limit + block_bytes;
  ac_failed : 0 ≤ failed s;
  ac_given : 0 ≤ given s ≤ used s + failed s * (limit + block_bytes);
}.

Lemma new_seed_accounted limit g s : 0 < limit → accounted limit s → accounted limit (new_seed g s) ∧ used (new_seed g s) = 0.
Proof.
  intros Hl [Hu Hf Hg]. unfold new_seed. destruct (answers (source s)) as (src & [[r Ha]|[e Ha]]); rewrite Ha;
    (split; [|done]); split; simpl; lia.
Qed.

Lemma spec_block_accounted limit g s : 0 < limit → accounted limit s → accounted limit (spec_block limit g s).2.
Proof.
  intros Hl Hs. unfold spec_block. destruct (due limit g s) eqn:Ed.
  - destruct (new_seed_accounted limit g s Hl Hs) as [[Hu Hf Hg] Hu0]. split; simpl; lia.
  - unfold due in Ed. apply bool_decide_eq_false in Ed. destruct Hs as [Hu Hf Hg]. split; simpl; lia.
Qed.

Lemma spec_blocks_accounted limit gs s : 0 < limit → accounted limit s → accounted limit (spec_blocks limit gs s).2.
Proof.
  intros Hl. revert s. induction gs as [|g gs IH]; intros s Hs; [done|]. cbn [spec_blocks].
  pose proof (spec_block_accounted limit g s Hl Hs) as H1. destruct (spec_block limit g s) as [b s1].
  specialize (IH s1 H1). by destruct (spec_blocks limit gs s1).
Qed.

(** A source that gives a seed each time. *)
Lemma spec_blocks_none_failed limit gs s :
  (∀ src : S, ∃ r src', from_rng (R := C) (E := E) src = (Ok r, src')) → failed s = 0 → failed (spec_blocks limit gs s).2 = 0.
Proof.
  intros Hgives. revert s. induction gs as [|g gs IH]; intros s Hs; [done|]. cbn [spec_blocks]. unfold spec_block.
  assert (H1 : failed (if due limit g s then new_seed g s else s) = 0).
  { destruct (due limit g s); [|done]. unfold new_seed. destruct (Hgives (source s)) as (r & src & E1). by rewrite E1. }
  set (s1 := mkSeeded _ _ _ _ _ _). specialize (IH s1 H1). by destruct (spec_blocks limit gs s1).
Qed.

(** A new core has a seed that has given nothing; a clone has one that is used up. *)
Lemma rc_new_holds rng t src :
  0 ≤ t → 0 < limit_of t < 2 ^ 63 ∧ holds_seed (limit_of t) (rc_new rng t src) (mkSeeded rng src 0 0 0 0).
Proof.
  intros Ht. destruct i64_bounds as [Hmin Hmax].
  assert (Hthr : threshold (rc_new rng t src) = limit_of t).
  { unfold rc_new, limit_of. simpl. rewrite Hmax. case_bool_decide; [done|].
    case_bool_decide; [rewrite as_ty_small; lia|lia]. }
  assert (Hl : 0 < limit_of t < 2 ^ 63) by (unfold limit_of; case_bool_decide; lia).
  split; [done|]. split; try done; cbn [used seen]; [|lia].
  rewrite Z.sub_0_r. exact Hthr.
Qed.

Lemma rc_clone_holds limit c s :
  0 < limit → holds_seed limit c s →
  holds_seed limit (rc_clone c) (mkSeeded (gen s) (source s) limit (seen s) (given s) (failed s)).
Proof. intros Hl [Hi Hr Ht Hb Hf Hu Hs0]. split; simpl; try done; lia. Qed.
End spec.
