(* ===== verification/RandWorks.v ===== *)
(** The PCG generators keep to the trait [RngCore] and always have a next word. *)
From Stdlib Require Import ZArith Lia Strings.Byte.
From stdpp Require Import base list numbers option.
From S2P Require Import Prelude StateMonad Words RandCore RandPcg RandUniform.
#[local] Open Scope Z_scope.

(** A method that returns, and whose values are below a power of two. *)
Definition gives_words {R} (w : Z) (next : method R unit Z) : Prop :=
  ∀ r, ∃ v r', next r = (Ok v, r') ∧ 0 ≤ v < 2 ^ w.

Lemma gives_words_range {R} w (next : method R unit Z) r v r' :
  gives_words w next → next r = (Ok v, r') → 0 ≤ v < 2 ^ w.
Proof. intros Hw Hn. destruct (Hw r) as (x & r1 & E1 & Hx). rewrite Hn in E1. by injection E1 as <- _. Qed.

Lemma as_u32_range x : 0 ≤ as_u32 x < 2 ^ 32.
Proof. unfold as_u32. apply Z.mod_pos_bound. lia. Qed.

(** [fill_bytes_via_next] fills the whole buffer. *)
Lemma fill_via_next_loop_length {R} (n32 n64 : method R unit Z) fuel left r out r' :
  fill_via_next_loop n32 n64 fuel left r = (Ok out, r') → length out = length left.
Proof.
  revert left r out r'. induction fuel as [|fuel IH]; intros left r out r'; cbn [fill_via_next_loop]; [done|].
  case_bool_decide as H8.
  - unfold st_bind, st_ret. destruct (n64 r) as [[v| | |] r1]; try done.
    destruct (fill_via_next_loop n32 n64 fuel (drop 8 left) r1) as [[o| | |] r2] eqn:E1; try done.
    intros Ho. assert (out = to_le 8 v ++ o) as -> by congruence. apply IH in E1. rewrite length_app, length_to_le, E1, length_drop. lia.
  - case_bool_decide as H4; [|case_bool_decide as H0].
    + unfold st_bind, st_ret. destruct (n64 r) as [[v| | |] r1]; try done.
      intros Ho. assert (out = take (length left) (to_le 8 v)) as -> by congruence. rewrite length_take, length_to_le. lia.
    + unfold st_bind, st_ret. destruct (n32 r) as [[v| | |] r1]; try done.
      intros Ho. assert (out = take (length left) (to_le 4 v)) as -> by congruence. rewrite length_take, length_to_le. lia.
    + unfold st_ret. by intros [= <- _].
Qed.

(** A round takes eight bytes or is the last: the fuel is enough. *)
Lemma fill_via_next_loop_returns {R} (n32 n64 : method R unit Z) fuel left r :
  (∀ r, ∃ v r', n32 r = (Ok v, r')) → (∀ r, ∃ v r', n64 r = (Ok v, r')) → (length left < fuel)%nat →
  ∃ out r', fill_via_next_loop n32 n64 fuel left r = (Ok out, r').
Proof.
  intros H32 H64. revert left r. induction fuel as [|fuel IH]; intros left r Hf; [lia|]. cbn [fill_via_next_loop].
  destruct (H64 r) as (v & r1 & E64), (H32 r) as (u & r2 & E32).
  case_bool_decide as H8.
  - rewrite (st_bind_ok _ _ _ _ _ E64).
    destruct (IH (drop 8 left) r1) as (out & r3 & E1); [rewrite length_drop; lia|].
    rewrite (st_bind_ok _ _ _ _ _ E1). unfold st_ret. eauto.
  - case_bool_decide; [rewrite (st_bind_ok _ _ _ _ _ E64); unfold st_ret; eauto|].
    case_bool_decide; [rewrite (st_bind_ok _ _ _ _ _ E32); unfold st_ret; eauto|]. unfold st_ret. eauto.
Qed.

Section cores.
Context {R : Type}.

(** Generators of 32-bit words, and of 64-bit words. *)
Lemma word32_core_ok (next : method R unit Z) :
  gives_words 32 next → @RngCoreOk R unit (word32_core next) ∧ @RngWorks R (word32_core next).
Proof.
  intros Hw.
  assert (H64 : gives_words 64 (next_u64_via_u32 next)).
  { intros r. destruct (Hw r) as (x & r1 & E1 & Hx), (Hw r1) as (y & r2 & E2 & Hy).
    exists (Z.lor (Z.shiftl y 32) x), r2. unfold next_u64_via_u32.
    rewrite (st_bind_ok _ _ _ _ _ E1), (st_bind_ok _ _ _ _ _ E2). split; [done|]. by apply (lor_words 32). }
  split; split; simpl.
  - intros r v r'. by apply gives_words_range.
  - intros r v r'. by apply gives_words_range.
  - intros dest r out r'. apply fill_via_next_loop_length.
  - intros dest r out r'. apply fill_via_next_loop_length.
  - intros r. destruct (Hw r) as (x & r1 & E1 & _). eauto.
  - intros r. destruct (H64 r) as (x & r1 & E1 & _). eauto.
Qed.

Lemma word64_core_ok (low : Z → Z) (next : method R unit Z) :
  gives_words 64 next → (∀ x, 0 ≤ x < 2 ^ 64 → 0 ≤ low x < 2 ^ 32) →
  @RngCoreOk R unit (word64_core low next) ∧ @RngWorks R (word64_core low next).
Proof.
  intros Hw Hlow.
  assert (H32 : gives_words 32 (let! x := next in st_ret (low x))).
  { intros r. destruct (Hw r) as (x & r1 & E1 & Hx). rewrite (st_bind_ok _ _ _ _ _ E1).
    unfold st_ret. eauto. }
  split; split; simpl.
  - intros r v r'. by apply gives_words_range.
  - intros r v r'. by apply gives_words_range.
  - intros dest r out r'. apply fill_via_next_loop_length.
  - intros dest r out r'. apply fill_via_next_loop_length.
  - intros r. destruct (H32 r) as (x & r1 & E1 & _). eauto.
  - intros r. destruct (Hw r) as (x & r1 & E1 & _). eauto.
Qed.
End cores.

(** * Rotations stay in the word *)

Lemma lor_bound w a b : 0 ≤ w → 0 ≤ a < 2 ^ w → 0 ≤ b < 2 ^ w → 0 ≤ Z.lor a b < 2 ^ w.
Proof.
  intros Hw Ha Hb. assert (0 ≤ Z.lor a b) by (apply Z.lor_nonneg; lia). split; [done|].
  apply Z.bounded_iff_bits_nonneg; [lia|done|]. intros l Hl. rewrite Z.lor_spec.
  rewrite (proj1 (Z.bounded_iff_bits_nonneg w a ltac:(lia) ltac:(lia))) by lia.
  by rewrite (proj1 (Z.bounded_iff_bits_nonneg w b ltac:(lia) ltac:(lia))) by lia.
Qed.

Lemma lxor_bound w a b : 0 ≤ w → 0 ≤ a < 2 ^ w → 0 ≤ b < 2 ^ w → 0 ≤ Z.lxor a b < 2 ^ w.
Proof.
  intros Hw Ha Hb. assert (0 ≤ Z.lxor a b) by (apply Z.lxor_nonneg; lia). split; [done|].
  apply Z.bounded_iff_bits_nonneg; [lia|done|]. intros l Hl. rewrite Z.lxor_spec.
  rewrite (proj1 (Z.bounded_iff_bits_nonneg w a ltac:(lia) ltac:(lia))) by lia.
  by rewrite (proj1 (Z.bounded_iff_bits_nonneg w b ltac:(lia) ltac:(lia))) by lia.
Qed.

Lemma rotate_right_bound w x n : 0 ≤ w → 0 ≤ n → 0 ≤ x < 2 ^ w → 0 ≤ rotate_right w x n < 2 ^ w.
Proof.
  intros Hw Hn Hx. unfold rotate_right. apply lor_bound; [done| |apply Z.mod_pos_bound; lia].
  rewrite Z.shiftr_div_pow2 by done. assert (0 < 2 ^ n) by lia. split; [by apply Z.div_pos; lia|].
  apply Z.div_lt_upper_bound; nia.
Qed.

Lemma as_u64_range x : 0 ≤ as_u64 x < 2 ^ 64.
Proof. unfold as_u64. apply Z.mod_pos_bound. lia. Qed.

Lemma output_xsl_rr_range s : 0 ≤ output_xsl_rr s < 2 ^ 64.
Proof.
  unfold output_xsl_rr. apply rotate_right_bound; [lia|apply as_u32_range|].
  apply lxor_bound; [lia|apply as_u64_range..].
Qed.

Lemma l64_ok : RngCoreOk Lcg64Xsh32 unit ∧ RngWorks Lcg64Xsh32.
Proof.
  apply word32_core_ok. intros r. do 2 eexists. split; [done|].
  apply rotate_right_bound; [lia|apply as_u32_range..].
Qed.

Lemma l128_ok : RngCoreOk Lcg128Xsl64 unit ∧ RngWorks Lcg128Xsl64.
Proof.
  apply word64_core_ok; [|intros; apply as_u32_range]. intros r. do 2 eexists. split; [done|]. apply output_xsl_rr_range.
Qed.

Lemma m128_ok : RngCoreOk Mcg128Xsl64 unit ∧ RngWorks Mcg128Xsl64.
Proof.
  apply word64_core_ok; [|intros; apply as_u32_range]. intros r. do 2 eexists. split; [done|]. apply output_xsl_rr_range.
Qed.

Lemma cm_ok : RngCoreOk Lcg128CmDxsm64 unit ∧ RngWorks Lcg128CmDxsm64.
Proof.
  apply word64_core_ok; [|intros; apply as_u32_range]. intros r. do 2 eexists. split; [done|].
  apply Z.mod_pos_bound. lia.
Qed.

#[export] Instance l64_core_ok : RngCoreOk Lcg64Xsh32 unit := proj1 l64_ok.
#[export] Instance l64_works : RngWorks Lcg64Xsh32 := proj2 l64_ok.
#[export] Instance l128_core_ok : RngCoreOk Lcg128Xsl64 unit := proj1 l128_ok.
#[export] Instance l128_works : RngWorks Lcg128Xsl64 := proj2 l128_ok.
#[export] Instance m128_core_ok : RngCoreOk Mcg128Xsl64 unit := proj1 m128_ok.
#[export] Instance m128_works : RngWorks Mcg128Xsl64 := proj2 m128_ok.
#[export] Instance cm_core_ok : RngCoreOk Lcg128CmDxsm64 unit := proj1 cm_ok.
#[export] Instance cm_works : RngWorks Lcg128CmDxsm64 := proj2 cm_ok.
