(* ===== verification/RandVectors.v ===== *)
(** The values that the tests of rand expect of its samplers, from the same generator
    ([test::rng] of rand/src/lib.rs is [l64_new seed PCG_INC]). *)
From Stdlib Require Import ZArith Lia Strings.Byte.
From stdpp Require Import base list numbers option.
From S2P Require Import Prelude StateMonad Words RandCore RandPcg RandUniform RandSeq RandWeighted.
#[local] Open Scope Z_scope.

Definition test_rng (seed : Z) : Lcg64Xsh32 := l64_new seed PCG_INC.

(** The values of methods, one after the other. *)
Fixpoint in_turn {R A} (ms : list (method R unit A)) (r : R) : list A :=
  match ms with
  | [] => []
  | m :: ms => match m r with (Ok v, r) => v :: in_turn ms r | _ => [] end
  end.

(** [uniform.rs]: three values by [sample_single], and three from a distribution. *)
Definition uniform_values (t : int_ty) (low high : Z) : list Z :=
  in_turn (replicate 3 (gen_range t 9 low high) ++
    replicate 3 (let! d := st_try (λ _, ui_new t low high) in ui_sample t 9 d)) (test_rng 897).
Example uniform_stability :
  uniform_values u8_ty 11 219 = [17; 66; 214; 181; 93; 165] ∧ uniform_values u32_ty 11 219 = [17; 66; 214; 181; 93; 165].
Proof. vm_compute. done. Qed.

(** [other.rs]: characters, letters, booleans, integers. *)
Example char_stability : values 5 (gen_char 9) (test_rng 807) = [0x8cdac; 0xa346a; 0x80120; 0xed692; 0x35888].
Proof. vm_compute. done. Qed.
Example alphanumeric_stability : values 5 (alphanumeric_sample 9) (test_rng 807) = [104; 109; 101; 51; 77].
Proof. vm_compute. done. Qed.
Example bool_stability :
  values 5 (let! b := gen_bool_standard in st_ret (Z.b2z b)) (test_rng 807) = [1; 1; 0; 1; 0].
Proof. vm_compute. done. Qed.
Example int_stability :
  values 5 (gen_int i32_ty) (test_rng 807) = [-2074640887; -1719949321; 2018088303; -547181756; 838957336].
Proof. vm_compute. done. Qed.

(** [index.rs]: the algorithms of [sample]. *)
Definition sampled_values (length amount : Z) : list Z :=
  match (sample (E := unit) 9 true 9 length amount (test_rng 410)).1 with
  | Ok iv => take 8 (into_vec iv)
  | _ => []
  end.
Example sample_stability :
  sampled_values 10 6 = [8; 0; 3; 5; 9; 6] ∧
  sampled_values 25 10 = [18; 15; 14; 9; 0; 13; 5; 24] ∧
  sampled_values 300 8 = [30; 283; 150; 1; 73; 13; 285; 35] ∧
  sampled_values 300 80 = [31; 289; 248; 154; 5; 78; 19; 286] ∧
  sampled_values 300 180 = [31; 289; 248; 154; 5; 78; 19; 286] ∧
  sampled_values 1000000 8 = [103717; 963485; 826422; 509101; 736394; 807035; 5327; 632573] ∧
  sampled_values 1000000 180 = [103718; 963490; 826426; 509103; 736396; 807036; 5327; 632573].
Proof. vm_compute. done. Qed.

(** [seq/mod.rs]: slices. *)
Definition nums : list Z := seqZ 0 13.
Example slice_stability :
  in_turn [(let! x := choose 9 (seqZ 97 14) in st_ret (from_option id 0 x));
           (let! x := choose 9 nums in st_ret (from_option id 0 x))] (test_rng 413) = [108; 10].
Proof. vm_compute. done. Qed.
Example shuffle_stability :
  in_turn [shuffle 9 nums; (let! (chosen, rest) := partial_shuffle 9 nums 6 in st_ret (chosen ++ rest))] (test_rng 414)
  = [[9; 5; 3; 10; 7; 12; 8; 11; 6; 4; 0; 2; 1]; [7; 4; 8; 6; 9; 3; 0; 1; 2; 12; 11; 5; 10]].
Proof. vm_compute. done. Qed.

(** [weighted_index.rs]. *)
Example weighted_stability :
  match wi_new i32_ty true [1; 1; 1; 1; 1; 1; 1; 1; 1] with
  | Ok wi => values 10 (let! i := wi_sample i32_ty 9 wi in st_ret (Z.of_nat i)) (test_rng 701)
  | _ => []
  end = [0; 6; 2; 6; 3; 4; 7; 8; 2; 5].
Proof. vm_compute. done. Qed.
