(* ===== verification/RandProperties.v ===== *)
(** The properties of rand: what the samplers return, how often, and that nothing
    they do depends on how words are fetched.  Witnesses run the PCG generators. *)
From Stdlib Require Import ZArith Lia Strings.Byte Sorting.Sorted.
From stdpp Require Import base list numbers option gmap sets.
From S2P Require Import Prelude StateMonad Words RandCore RandBlock RandPcg RandUniform RandSeq RandArrange RandChoice RandSample.
From S2P Require Import RandWeighted RandWorks RandReseed.
#[local] Open Scope Z_scope.

(** * Block generators *)

(** C23: A block generator reads the stream of words that its core makes, and nothing
    else: in every sequence of calls of [next_u32], [next_u64], [fill_bytes], [reset]
    and [generate_and_set], each answer is that of a specification that knows only the
    words, the number of blocks made and the next position, for blocks of three words
    or more; the same for generators of 64-bit words (any blocks), where two calls of
    [next_u32] share a word.  The order of bytes on the machine does not matter. *)
Theorem block_rng_reads_stream {C E} `{BlockRngCore C E} `{!BlockRngCoreOk C E} (c0 : C) little cs :
  Forall (call_ok (C := C) (E := E)) cs → (0 < results_len (C := C) (E := E))%nat →
  ((3 ≤ results_len (C := C) (E := E))%nat →
   (calls (block_call (E := E) little) cs (block_new (E := E) c0)).1
     = Ok (spec_calls (spec_call (E := E) c0) cs (mkReads 0 0))) ∧
  (calls (block64_call (E := E) little) cs (block64_new (E := E) c0)).1
    = Ok (spec_calls (spec_call64 (E := E) c0) cs (mkReads 0 0, false)).
Proof.
  intros Hcs Hlen. split; [intros H3; by apply block_calls_reads; [lia|..|by apply reading_new]|].
  apply block64_calls_reads; [done..|]. split; simpl; [by apply reading_new|done|done].
Qed.

(** A core that counts: 16 words to a block. *)
#[local] Instance counter_core : BlockRngCore Z unit := {
  results_len := 16;
  generate _ := λ c, (Ok ((λ i, (c + Z.of_nat i * 3511615421) `mod` 2 ^ 32) <$> seq 0 16), c + 16);
}.
#[local] Instance counter_core_ok : BlockRngCoreOk Z unit := {
  fresh c := (λ i, (c + Z.of_nat i * 3511615421) `mod` 2 ^ 32) <$> seq 0 16;
  advanced c := c + 16;
  fresh_length c := eq_refl;
  generate_fresh c old _ := eq_refl;
}.

Lemma block_rng_reads_stream_witness :
  let cs := [NextU32; GenerateAndSet 15; NextU64; FillBytes (replicate 7 x00); Reset; NextU32] in
  (calls (block_call (E := unit) true) cs (block_new (E := unit) 1)).1
  = Ok (spec_calls (spec_call (E := unit) 1) cs (mkReads 0 0)).
Proof.
  intros cs. refine (proj1 (block_rng_reads_stream (E := unit) 1 true cs _ _) _).
  - repeat constructor.
  - simpl. lia.
  - simpl. lia.
Defined.

(** * Uniform integers *)

(** C21: Integers are uniform: for every integer type and every range of it, [UniformInt]
    and [sample_single_inclusive] turn each word of the generator into a value of the range
    or turn it down, at most half of the words are turned down, every value of the range
    comes from the same number of words, and sampling returns the value of the first word
    that is not turned down. *)
Theorem uniform_integers {R} `{RngCore R unit} t low high :
  t ∈ int_tys → ty_min t ≤ low → low ≤ high → high ≤ ty_max t →
  ∃ d, ui_new_inclusive t low high = Ok (E := unit) d ∧
    uniform t low high (draw t d) ∧ uniform t low high (single_draw t low high) ∧
    ∀ fuel r vs v x r', takes (gen_uint (u_large t)) r (vs ++ [v]) r' → (length vs < fuel)%nat →
      (Forall (λ u, draw t d u = Ok (E := unit) None) vs → draw t d v = Ok (E := unit) (Some x) →
       ui_sample t fuel d r = (Ok x, r')) ∧
      (Forall (λ u, single_draw t low high u = Ok (E := unit) None) vs →
       single_draw t low high v = Ok (E := unit) (Some x) →
       gen_range_inclusive t fuel low high r = (Ok x, r')).
Proof.
  intros Ht H1 H2 H3. destruct (draw_uniform t (int_tys_row t Ht) low high) as (d & Hd & Hu); [done..|].
  exists d. split_and!; [done|done|by apply (single_draw_uniform t (int_tys_row t Ht))|].
  intros fuel r vs v x r' Htk Hf. split; intros Hvs Hv; [by eapply ui_sample_first|].
  unfold gen_range_inclusive. rewrite bool_decide_true by done. by eapply ui_sample_single_inclusive_first.
Qed.

(** The bytes from 11 to 218, and the next one of a generator. *)
Lemma uniform_integers_witness :
  ∃ d, ui_new_inclusive u8_ty 11 218 = Ok (E := unit) d ∧ uniform u8_ty 11 218 (draw u8_ty d) ∧
    (ui_sample (E := unit) u8_ty 1 d (l64_new 897 11634580027462260723)).1 = Ok 17.
Proof.
  destruct (uniform_integers (R := Lcg64Xsh32) u8_ty 11 218) as (d & Hd & Hu & _ & Hs);
    [by do 6 right; left|vm_compute; congruence..|].
  exists d. split; [exact Hd|]. split; [exact Hu|].
  destruct (gen_uint (E := unit) U32 (l64_new 897 11634580027462260723)) as [[v| | |] r1] eqn:E1;
    [|by (vm_compute in E1)..].
  assert (E2 : draw u8_ty d v = Ok (E := unit) (Some 17)).
  { vm_compute in E1. injection E1 as <- _. vm_compute in Hd. injection Hd as <-. by vm_compute. }
  rewrite (proj1 (Hs 1%nat _ [] v 17 r1 (takes_cons _ _ _ _ _ _ E1 (takes_nil _ _)) ltac:(simpl; lia)) ltac:(constructor) E2).
  done.
Defined.

(** * Arrangements *)

(** C22: [shuffle] and [partial_shuffle] make every order equally likely if the draws
    are: the result is a function of the draws, which do not exceed their index, it is a
    permutation of the list, and each order (for [partial_shuffle] each arrangement of the
    chosen part) comes from exactly one choice of draws. *)
Theorem shuffle_orders {R A} `{RngCoreOk R unit} `{!RngWorks R} fuel (l : list A) amount r :
  Z.of_nat (length l) < 2 ^ 64 → NoDup l → l ≠ [] → (amount ≤ length l)%nat →
  let all := down 1 (length l - 1) in
  let some := down (length l - amount) amount in
  decided le (swap_draws fuel all) (shuffle fuel l) all (λ js, apply_swaps all js l) r ∧
  decided le (swap_draws fuel some)
    (let! (chosen, rest) := partial_shuffle fuel l amount in st_ret (rest ++ chosen)) some (λ js, apply_swaps some js l) r ∧
  (∀ js, Forall2 le js all → ∃ p, apply_swaps all js l = Ok (E := unit) p ∧ p ≡ₚ l) ∧
  (∀ p, p ≡ₚ l → exists! js, Forall2 le js all ∧ apply_swaps all js l = Ok (E := unit) p) ∧
  (∀ q, length q = amount → NoDup q → q ⊆ l →
     exists! js, Forall2 le js some ∧ ∃ rest, apply_swaps some js l = Ok (E := unit) (rest ++ q)).
Proof.
  intros Hmax Hnd Hne Ha all some. assert (Hl : (0 < length l)%nat) by (destruct l; [done|simpl; lia]).
  split_and!.
  - apply swap_loop_decided; [|done]. apply Forall_reverse, Forall_seq. lia.
  - eapply decided_ext; [|done|apply swap_loop_decided; [|done]; apply Forall_reverse, Forall_seq; lia].
    apply partial_shuffle_loop. lia.
  - intros js Hjs. apply apply_down_permutation; [lia|done].
  - intros p Hp. apply shuffle_unique; done.
  - intros q Hq Hndq Hsub. apply apply_down_unique; [lia|done..].
Qed.

Lemma shuffle_orders_witness :
  ∃ js, Forall2 le js [2; 1]%nat ∧ apply_swaps [2; 1]%nat js [10; 20; 30] = Ok (E := unit) [30; 10; 20].
Proof.
  destruct (shuffle_orders (R := Lcg64Xsh32) 1 [10; 20; 30] 1 (l64_new 414 11634580027462260723))
    as (_ & _ & _ & Hp & _).
  - simpl. lia.
  - by apply (bool_decide_unpack _).
  - done.
  - simpl. lia.
  - destruct (Hp [30; 10; 20]) as (js & Hjs & _).
    + by apply (bool_decide_unpack _).
    + exists js. exact Hjs.
Defined.

(** C28: [index::sample] gives [amount] distinct indices below [length], each list of them as
    likely as any other if the draws are uniform.  The length and the amount settle which of
    four algorithms runs, and what it returns is a function of the numbers that it draws:
    the swaps in place (each list comes from exactly one choice of the draws); Floyd's
    algorithm with insertion (one choice as well); Floyd's algorithm and then a shuffle (one
    choice for each order of the list); or the first distinct ones of the samples of a uniform
    distribution over the indices (renaming the indices renames the result).  It
    panics in no case, and the algorithm by rejection returns as soon as the samples have
    enough distinct values.  In builds with debug assertions that algorithm asks for fewer
    indices than there are. *)
Theorem sample_distinct {R} `{RngCoreOk R unit} `{!RngWorks R} length amount :
  0 ≤ amount ≤ length → length < 2 ^ 64 →
  ∃ a, fair length amount a ∧
    ∀ fuel debug tries (r : R), (debug = true → amount < length ∨ amount < 163 ∧ length < 2 ^ 32) →
      samples_by fuel debug tries length amount a r ∧
      good (λ iv, sampled length amount (into_vec iv)) (sample fuel debug tries length amount r).1.
Proof.
  intros Ha Hl. destruct (sample_algorithm length amount Ha Hl) as [a Hs]. exists a.
  split; [by apply algorithms_fair|]. intros fuel debug tries r Hd. split; [by apply Hs|by apply sample_good].
Qed.

(** Eight of 300 (Floyd's algorithm), and what they are for one generator. *)
Lemma sample_distinct_witness :
  (sample (E := unit) 4 true 9 300 8 (l64_new 410 11634580027462260723)).1 = Ok (IvU32 [30; 283; 150; 1; 73; 13; 285; 35]) ∧
  sampled 300 8 [30; 283; 150; 1; 73; 13; 285; 35].
Proof.
  destruct (sample_distinct (R := Lcg64Xsh32) 300 8) as (a & _ & Hs); [lia|lia|].
  destruct (Hs 4%nat true 9%nat (l64_new 410 11634580027462260723) ltac:(intros _; lia)) as [_ Hg].
  assert (E1 : (sample (E := unit) 4 true 9 300 8 (l64_new 410 11634580027462260723)).1 = Ok (IvU32 [30; 283; 150; 1; 73; 13; 285; 35])) by (vm_compute; reflexivity).
  split; [exact E1|]. rewrite E1 in Hg. exact Hg.
Defined.

(** * Weighted choices *)

(** C24: [WeightedIndex] chooses in proportion: from weights that are not negative,
    whose sum is positive and fits the type, [new] makes a distribution in which every
    index comes from a number of words that is its weight times a constant; an index of
    weight zero is never chosen, no word is a panic, at most half are turned down, and
    [sample] returns the index of the first word that is not. *)
Theorem weighted_proportional {R} `{RngCore R unit} t checks ws :
  t ∈ int_tys → ws ≠ [] → Forall (λ w, 0 ≤ w) ws → 0 < sum ws → sum ws ≤ ty_max t →
  ∃ wi m, wi_new t checks ws = Ok wi ∧ (0 < m)%nat ∧
    2 ^ bits (u_large t) ≤ 2 * (Z.of_nat m * sum ws) ∧
    (∀ i w, ws !! i = Some w → count (index_draw t wi) (2 ^ bits (u_large t)) (Z.of_nat i) = (m * Z.to_nat w)%nat) ∧
    (∀ v, 0 ≤ v < 2 ^ bits (u_large t) → ∃ o, index_draw t wi v = Ok o ∧
       ∀ x, o = Some x → ∃ i w, x = Z.of_nat i ∧ ws !! i = Some w ∧ 0 < w) ∧
    ∀ fuel r vs v i r', takes (gen_uint (u_large t)) r (vs ++ [v]) r' → (length vs < fuel)%nat →
      Forall (λ u, index_draw t wi u = Ok None) vs → index_draw t wi v = Ok (Some (Z.of_nat i)) →
      wi_sample t (E := unit) fuel wi r = (Ok i, r').
Proof.
  intros Ht Hne Hnn Hpos Hmax. destruct (index_draw_proportional t Ht ws Hnn Hpos Hmax) as [(m & Hm & HW & Hc) Hv].
  exists (wi_of t ws), m. split_and!; [|done..|].
  - rewrite wi_new_spec by done. by rewrite bool_decide_false by lia.
  - intros. by eapply wi_sample_first.
Qed.

Lemma weighted_proportional_witness :
  ∃ wi m, wi_new u32_ty true [1; 0; 3] = Ok wi ∧
    count (index_draw u32_ty wi) (2 ^ 32) 0 = (m * 1)%nat ∧ count (index_draw u32_ty wi) (2 ^ 32) 2 = (m * 3)%nat.
Proof.
  destruct (weighted_proportional (R := Lcg64Xsh32) u32_ty true [1; 0; 3]) as (wi & m & Hn & _ & _ & Hc & _).
  - by do 8 right; left.
  - done.
  - by apply (bool_decide_unpack _).
  - done.
  - done.
  - exists wi, m. split; [exact Hn|]. split; [exact (Hc 0%nat 1 eq_refl)|exact (Hc 2%nat 3 eq_refl)].
Defined.

(** C25: [update_weights] is [new] with the new weights: for indices in order and weights
    of the type, it makes the distribution that [new] makes of the list with these weights
    replaced, and reports [AllWeightsZero] where [new] does, leaving the object as it was.
    With overflow checks this asks for all the totals on the way, one update after the
    other, to fit the type. *)
Theorem update_weights_is_new t checks ws upd :
  t ∈ int_tys → upd ≠ [] → Forall (λ w, 0 ≤ w) ws → 0 < sum ws → sum ws ≤ ty_max t →
  update_ok t (length ws) upd → sum (apply_updates upd ws) ≤ ty_max t → totals_fit t checks upd ws →
  ∃ wi, wi_new t checks ws = Ok wi ∧
    update_weights t checks upd wi =
      match wi_new t checks (apply_updates upd ws) with
      | Ok wi' => (Ok tt, wi')
      | Err e => (Err e, wi)
      | Panic => (Panic, wi)
      | NoFuel => (NoFuel, wi)
      end.
Proof.
  intros Ht Hu Hnn Hpos Hmax Hok Hmax' Hfit. assert (Hne : ws ≠ []) by (intros ->; simpl in Hpos; lia).
  exists (wi_of t ws). split.
  - rewrite wi_new_spec by done. by rewrite bool_decide_false by lia.
  - unfold update_weights. rewrite updated_spec, wi_new_spec; try done.
    + intros Hn. apply (f_equal length) in Hn. rewrite length_apply_updates in Hn. by destruct ws.
    + by eapply updates_nonneg; [exact Hnn|apply Hok].
Qed.

Lemma update_weights_is_new_witness :
  ∃ wi wi', wi_new u32_ty true [10; 2; 3; 4] = Ok wi ∧ wi_new u32_ty true [10; 100; 4; 4] = Ok wi' ∧
    update_weights u32_ty true [(1%nat, 100); (2%nat, 4)] wi = (Ok tt, wi').
Proof.
  destruct (update_weights_is_new u32_ty true [10; 2; 3; 4] [(1%nat, 100); (2%nat, 4)]) as (wi & Hn & Hu).
  - by do 8 right; left.
  - done.
  - by apply (bool_decide_unpack _).
  - done.
  - done.
  - split; [repeat constructor|split; by apply (bool_decide_unpack _)].
  - done.
  - intros _ [|[|[|k]]]; done.
  - exists wi. eexists. split; [exact Hn|]. split; [vm_compute; reflexivity|]. rewrite Hu. vm_compute. reflexivity.
Defined.

(** An intermediate total that does not fit: with overflow checks, moving a weight
    of bytes from the second place to the first panics, though the weights are fine. *)
Example update_weights_overflow :
  ∃ wi, wi_new u8_ty true [10; 200] = Ok wi ∧ (update_weights u8_ty true [(0%nat, 200); (1%nat, 10)] wi).1 = Panic ∧
    ∃ wi', wi_new u8_ty true [200; 10] = Ok wi'.
Proof. eexists. split; [vm_compute; reflexivity|]. split; [vm_compute; reflexivity|]. eexists. vm_compute. reflexivity. Qed.

(** * Jumping ahead *)

(** C27: [advance] of the PCG generators is that many calls, in at most as many rounds as
    the state has bits, and advancing by [2 ^ w - d] goes back: for each of the four
    generators, a generator advanced by [d] is the generator after [d] calls, and
    advanced by [2 ^ w - d] from there it is as it was. *)
Theorem advance_is_calls d s c :
  0 < d →
  (d < 2 ^ 64 → 0 ≤ s < 2 ^ 64 → ∀ r, r = mkLcg64Xsh32 s c →
   l64_advance d r = after_calls l64_next_u32 (Z.to_nat d) r ∧ l64_advance (2 ^ 64 - d) (l64_advance d r) = r) ∧
  (d < 2 ^ 128 → 0 ≤ s < 2 ^ 128 →
   (∀ r, r = mkLcg128Xsl64 s c →
    l128_advance d r = after_calls l128_next_u64 (Z.to_nat d) r ∧ l128_advance (2 ^ 128 - d) (l128_advance d r) = r) ∧
   (∀ r, r = mkMcg128Xsl64 s →
    m128_advance d r = after_calls m128_next_u64 (Z.to_nat d) r ∧ m128_advance (2 ^ 128 - d) (m128_advance d r) = r) ∧
   (∀ r, r = mkLcg128CmDxsm64 s c →
    cm_advance d r = after_calls cm_next_u64 (Z.to_nat d) r ∧ cm_advance (2 ^ 128 - d) (cm_advance d r) = r)).
Proof.
  intros Hd. split; [intros Hd2 Hs r ->|intros Hd2 Hs; split_and!; intros r ->].
  - rewrite l64_after_calls. unfold l64_advance. cbn [l64_state l64_increment].
    by rewrite advance_state_back, advance_state_steps by (done || lia).
  - rewrite l128_after_calls. unfold l128_advance. cbn [l128_state l128_increment].
    by rewrite advance_state_back, advance_state_steps by (done || lia).
  - rewrite m128_after_calls. unfold m128_advance. cbn [m128_state].
    by rewrite advance_state_back, advance_state_steps by (done || lia).
  - rewrite cm_after_calls. unfold cm_advance. cbn [cm_state cm_increment].
    by rewrite advance_state_back, advance_state_steps by (done || lia).
Qed.

Lemma advance_is_calls_witness :
  let r := l64_new 42 54 in l64_advance 20 r = after_calls l64_next_u32 20 r ∧ l64_advance (2 ^ 64 - 20) (l64_advance 20 r) = r.
Proof.
  refine (proj1 (advance_is_calls 20 (l64_state (l64_new 42 54)) (l64_increment (l64_new 42 54)) _) _ _ (l64_new 42 54) _).
  - lia.
  - lia.
  - by apply (bool_decide_unpack _).
  - reflexivity.
Defined.

(** * Iterators *)

(** [choose_stable] depends on the items alone: whatever an iterator says about its
    length in [size_hint], as long as it is true, and however it skips, the choice and the
    words drawn are those of taking the items one by one; so are the builds with debug
    assertions.  A round per item, and one more, is enough. *)
Theorem choose_stable_hints {R E I J A} `{RngCore R E} `{IterOk I A} `{IterOk J A} fuel debug debug' rounds rounds'
    (it : I) (jt : J) r :
  items it = items jt → (length (items it) < rounds)%nat → (length (items jt) < rounds')%nat →
  choose_stable fuel debug rounds it r = choose_each fuel (items it) 0 None r ∧
  choose_stable fuel debug rounds it r = choose_stable fuel debug' rounds' jt r.
Proof.
  intros Hi Hrd Hrd'. unfold choose_stable.
  split; [by rewrite (choose_stable_each fuel debug rounds it) by lia|].
  rewrite (choose_stable_each fuel debug rounds it), (choose_stable_each fuel debug' rounds' jt) by lia. by rewrite Hi.
Qed.

(** Lists that know their length, and lists that do not. *)
#[local] Instance list_iter : Iter (list Z) Z := {
  it_next l := (head l, tail l);
  it_nth n l := (l !! n, drop (S n) l);
  size_hint l := (length l, Some (length l));
}.
#[local] Program Instance list_iter_ok : IterOk (list Z) Z := { items l := l }.
Next Obligation. done. Qed.
Next Obligation. done. Qed.
Next Obligation. intros l. split; [done|]. by intros u [= <-]. Qed.

Inductive unhinted : Type := Unhinted (l : list Z).
#[local] Instance unhinted_iter : Iter unhinted Z := {
  it_next '(Unhinted l) := (head l, Unhinted (tail l));
  it_nth n '(Unhinted l) := (l !! n, Unhinted (drop (S n) l));
  size_hint _ := (0%nat, None);
}.
#[local] Program Instance unhinted_iter_ok : IterOk unhinted Z := { items '(Unhinted l) := l }.
Next Obligation. by intros [l]. Qed.
Next Obligation. by intros n [l]. Qed.
Next Obligation. intros [l]. split; [simpl; lia|done]. Qed.

Lemma choose_stable_hints_witness :
  let r := l64_new 411 11634580027462260723 in let l := [10; 20; 30; 40; 50] in
  choose_stable (E := unit) 1 true 6 l r = choose_stable 1 false 6 (Unhinted l) r.
Proof.
  intros r l. refine (proj2 (choose_stable_hints 1 true false 6 6 l (Unhinted l) r _ _ _)).
  - reflexivity.
  - simpl. lia.
  - simpl. lia.
Defined.

(** * What the unsafe blocks rely on *)

(** C29: The values that the code makes without a check are valid: a sampled number in a
    range of characters, and one of the standard distribution, is a [char] (and in the
    range), so [from_u32_unchecked] is sound; the index that [Slice] samples is in the
    slice, so [get_unchecked] is sound; and an index that [gen_index] draws is below its
    bound. *)
Theorem unchecked_values_valid {R} `{RngCoreOk R unit} `{!RngWorks R} fuel r :
  (∀ low high, is_char low → is_char high → low ≤ high →
     ∃ d, uc_new_inclusive low high = Ok (E := unit) d ∧
       good (λ c, is_char c ∧ low ≤ c ≤ high) (uc_sample fuel d r).1) ∧
  good is_char (gen_char fuel r).1 ∧
  (∀ A (l : list A), l ≠ [] → Z.of_nat (length l) < 2 ^ 64 →
     ∃ d, slice_new l = Ok d ∧ good (.∈ l) (slice_sample fuel d r).1) ∧
  (∀ n, (0 < n)%nat → Z.of_nat n < 2 ^ 64 → good (λ i, i < n)%nat (gen_index fuel n r).1).
Proof.
  split_and!.
  - intros low high Hl Hh Hle. destruct (uc_new_inclusive (E := unit) low high) as [d| | |] eqn:Hd.
    { exists d. split; [done|]. by apply uc_sample_good. }
    all: pose proof (char_to_comp_u32_range low Hl); pose proof (char_to_comp_u32_range high Hh);
      destruct u32_bounds as [Hmin Hmax]; unfold uc_new_inclusive in Hd;
      rewrite (ui_new_inclusive_spec u32_ty (int_tys_row _ u32_row)) in Hd; [done|lia|char_cases|lia].
  - apply gen_char_good.
  - intros A l Hne Hmax. destruct (slice_new l) as [d| | |] eqn:Hd.
    { exists d. split; [done|]. by apply slice_sample_good. }
    all: unfold slice_new in Hd; destruct (length l) as [|n] eqn:En; [by destruct l|];
      destruct usize_bounds as [Hmin64 Hmax64]; unfold ui_new in Hd; rewrite bool_decide_true in Hd by lia;
      rewrite (ui_new_inclusive_spec usize_ty (int_tys_row _ usize_row)) in Hd; [done|lia..].
  - intros n Hn Hmax. by apply gen_index_good.
Qed.

Lemma unchecked_values_valid_witness :
  (gen_char (E := unit) 1 (l64_new 807 11634580027462260723)).1 = Ok 0x8cdac ∧ is_char 0x8cdac.
Proof.
  assert (E1 : (gen_char (E := unit) 1 (l64_new 807 11634580027462260723)).1 = Ok 0x8cdac) by (vm_compute; reflexivity).
  split; [exact E1|]. pose proof (proj1 (proj2 (unchecked_values_valid (R := Lcg64Xsh32) 1 (l64_new 807 11634580027462260723)))) as Hg.
  rewrite E1 in Hg. exact Hg.
Defined.

(** * Reseeding *)

(** C26: A reseeding generator asks for a new seed on time: for every history of the counter
    of forks (not decreasing, at most [2^63]) its blocks are those of the specification, which
    asks the source before a block when the bytes since the last attempt have reached the
    threshold (none for zero) or there was a fork since.  A seed that the source gives starts
    at once.  When the source fails, the old seed goes on, the fork counts as seen (although
    the comment in the code says that it does not), and the next attempt is a threshold of
    bytes or another fork away.  So the seed in place has given less than a threshold and a
    block for each attempt since it was taken, the failed ones and one more; less than a
    threshold and a block when the source always gives a seed.  No overflow happens, whether
    it is checked or not, and a clone asks for a seed before its first block. *)
Theorem reseeding_on_time {C S E} `{BlockRngCore C E} `{!BlockRngCoreOk C E} `{SeedableRng C} `{RngCore S E}
    item_size checks rng t src gs :
  (∀ src : S, ∃ src', (∃ r, from_rng (R := C) (E := E) src = (Ok r, src')) ∨
    (∃ e, from_rng (R := C) (E := E) src = (Err e, src'))) →
  0 < block_bytes (C := C) (E := E) item_size ≤ 2 ^ 62 → 0 ≤ t →
  StronglySorted Z.le (0 :: gs) → Forall (λ g, g ≤ 2 ^ 63) gs →
  let out := spec_blocks (E := E) item_size (limit_of t) gs (mkSeeded rng src 0 0 0 0) in
  let most := limit_of t + block_bytes (C := C) (E := E) item_size in
  ∃ c, reseeding_blocks (E := E) item_size checks gs (replicate (results_len (C := C) (E := E)) 0) (rc_new rng t src)
      = (Ok out.1, c) ∧
    holds_seed (E := E) item_size (limit_of t) c out.2 ∧
    0 ≤ given out.2 < (failed out.2 + 1) * most ∧
    ((∀ src : S, ∃ r src', from_rng (R := C) (E := E) src = (Ok r, src')) → failed out.2 = 0 ∧ given out.2 < most) ∧
    ∀ g, seen out.2 ≤ g → g ≤ 2 ^ 63 →
      let s := new_seed (E := E) g out.2 in
      (reseeding_generate (E := E) item_size checks g (replicate (results_len (C := C) (E := E)) 0) (rc_clone c)).1
        = Ok (fresh (gen s)).
Proof.
  intros Hans Hfit Ht Hs Hg out most. destruct (rc_new_holds (E := E) item_size Hfit rng t src Ht) as [Hl Hc].
  destruct (reseeding_blocks_spec item_size checks Hans Hfit (limit_of t) gs
    (replicate (results_len (C := C) (E := E)) 0) _ _ Hl Hc) as (c & E1 & Hc1); [apply length_replicate|done..|].
  assert (Ha : accounted (E := E) item_size (limit_of t) out.2).
  { apply spec_blocks_accounted; try done; [lia|]. split; simpl; lia. }
  destruct Ha as [Hu Hf Hgiven]. fold most in Hu, Hgiven.
  exists c. split_and!; [done|done|lia|lia| |].
  { intros Hok. assert (failed out.2 = 0) by (by apply spec_blocks_none_failed). split; [done|lia]. }
  intros g Hsg Hg63 s.
  pose proof (rc_clone_holds (E := E) item_size Hfit _ _ _ (proj1 Hl) Hc1) as Hc2.
  destruct (reseeding_generate_spec item_size checks Hans Hfit (limit_of t) g
    (replicate (results_len (C := C) (E := E)) 0) _ _ Hl Hc2) as (c2 & E2 & _); [apply length_replicate|done|done|].
  rewrite E2. cbn [fst]. unfold spec_block, due. cbn [used seen]. rewrite bool_decide_true by lia. done.
Qed.

(** Seeds of a counter are its bytes. *)
#[local] Instance counter_seedable : SeedableRng Z := { seed_len := 4; from_seed seed := from_le seed }.

Lemma l64_answers src :
  ∃ src', (∃ r, from_rng (R := Z) (S := Lcg64Xsh32) (E := unit) src = (Ok r, src')) ∨
    (∃ e, from_rng (R := Z) (S := Lcg64Xsh32) (E := unit) src = (Err e, src')).
Proof.
  destruct (fill_via_next_loop_returns (next_u32 (R := Lcg64Xsh32)) next_u64 5 (replicate 4 x00) src) as (out & src' & E1);
    [apply next_u32_works|apply next_u64_works|simpl; lia|].
  exists src'. left. exists (from_le out). unfold from_rng. by rewrite (st_bind_ok _ _ _ _ _ E1).
Qed.

(** A threshold of one block, and a fork before the third. *)
Lemma reseeding_on_time_witness :
  let out := spec_blocks (E := unit) 4 64 [0; 0; 1; 1] (mkSeeded (7 : Z) (l64_new 42 54) 0 0 0 0) in
  seen out.2 = 1 ∧ given out.2 = 64 ∧
  ∃ c, reseeding_blocks (E := unit) 4 true [0; 0; 1; 1] (replicate 16 0) (rc_new 7 64 (l64_new 42 54)) = (Ok out.1, c).
Proof.
  intros out. split; [vm_compute; reflexivity|]. split; [vm_compute; reflexivity|].
  destruct (reseeding_on_time (C := Z) (S := Lcg64Xsh32) (E := unit) 4 true 7 64 (l64_new 42 54) [0; 0; 1; 1]) as (c & Hc & _).
  - exact l64_answers.
  - split; [done|by apply (bool_decide_unpack _)].
  - done.
  - repeat constructor; done.
  - repeat constructor; done.
  - exists c. exact Hc.
Defined.

(** A source that fails.  After a fork the seed of the parent is kept, and the next block
    does not try again: the counter of forks counts as seen. *)
Inductive broken : Type := Broken (asked : nat).
#[local] Instance broken_core : RngCore broken unit :=
  let fail {A} : method broken unit A := λ '(Broken n), (Err tt, Broken (S n)) in
  {| next_u32 := fail; next_u64 := fail; fill_bytes _ := fail; try_fill_bytes _ := fail |}.

Example failed_reseed_not_tried_again :
  let '(o, c) := reseeding_blocks (E := unit) 4 true [1; 1; 1] (replicate 16 0) (rc_new (7 : Z) 0 (Broken 0)) in
  reseeder c = Broken 1 ∧ o = Ok [fresh (E := unit) 7; fresh (E := unit) 23; fresh (E := unit) 39].
Proof. vm_compute. done. Qed.
