(* ===== verification/TanBitpacker.v ===== *)
(** The bit packer of tantivy (tantivy/bitpacker/src/bitpacker.rs, lib.rs, blocked_bitpacker.rs).

    A [BitPacker] and the writer it is given are one state.  The writer is any [write_all];
    theorems are about vectors of bytes, on which it appends.  [checks] says whether an
    overflow is a panic, [debug] whether assertions for debugging are compiled in. *)
From Stdlib Require Import ZArith Lia Strings.Byte.
From stdpp Require Import base list numbers option.
From S2P Require Import Prelude StateMonad Words.
#[local] Open Scope Z_scope.

(** * BitPacker *)

Record BitPacker : Type := mkBitPacker { mini_buffer : Z; mini_buffer_written : Z }.

Definition BitPacker_new : BitPacker := mkBitPacker 0 0.

Section packer.
Context {W E : Type}.
(** [output.write_all(bytes)] *)
Variable write_all : list byte → method W E unit.
Variable checks : bool.

Definition set_packer (p : BitPacker) : method (BitPacker * W) E unit := λ s, (Ok tt, (p, s.2)).
Definition on_output (m : method W E unit) : method (BitPacker * W) E unit := λ s,
  let '(x, o) := m s.2 in (x, (s.1, o)).

Definition bp_write (val num_bits : Z) : method (BitPacker * W) E unit :=
  let! p := st_get fst in
  let! total := st_try (λ _, fit_word checks 64 (mini_buffer_written p + num_bits)) in
  if bool_decide (64 < total) then
    let buffer := Z.lor (mini_buffer p) (wrapping_shl 64 val (mini_buffer_written p `mod` 64)) in
    let! _ := set_packer (mkBitPacker buffer (mini_buffer_written p)) in
    let! _ := on_output (write_all (to_le 8 buffer)) in
    let! rest := st_try (λ _, fit_word checks 64 (64 - mini_buffer_written p)) in
    set_packer (mkBitPacker (Z.shiftr val (rest `mod` 64)) (total - 64))
  else
    let! shifted := st_try (λ _, shl_word checks 64 val (mini_buffer_written p)) in
    let buffer := Z.lor (mini_buffer p) shifted in
    let! _ := set_packer (mkBitPacker buffer total) in
    if bool_decide (total = 64) then
      let! _ := on_output (write_all (to_le 8 buffer)) in
      set_packer (mkBitPacker 0 0)
    else st_ret tt.

Definition bp_flush : method (BitPacker * W) E unit :=
  let! p := st_get fst in
  if bool_decide (0 < mini_buffer_written p) then
    let num_bytes := Z.to_nat ((mini_buffer_written p + 7) `div` 8) in
    let! bytes := st_try (λ _, slice 0 num_bytes (to_le 8 (mini_buffer p))) in
    let! _ := on_output (write_all bytes) in
    set_packer (mkBitPacker 0 0)
  else st_ret tt.

Definition bp_close : method (BitPacker * W) E unit :=
  let! _ := bp_flush in on_output (write_all (replicate 7 x00)).

End packer.

(** * BitUnpacker *)

Record BitUnpacker : Type := mkBitUnpacker { bu_num_bits : Z; bu_mask : Z }.

Definition BitUnpacker_new {E} (checks : bool) (num_bits : Z) : res E BitUnpacker :=
  let? mask :=
    if bool_decide (num_bits = 64) then Ok (2 ^ 64 - 1)
    else let? x := shl_word checks 64 1 num_bits in fit_word checks 64 (x - 1) in
  Ok (mkBitUnpacker num_bits mask).

Definition bit_width (u : BitUnpacker) : Z := bu_num_bits u.

Definition bu_get {E} (debug checks : bool) (u : BitUnpacker) (idx : Z) (data : list byte) : res E Z :=
  if bool_decide (bu_num_bits u = 0) then Ok 0
  else
    let? addr_in_bits := fit_word checks 32 (idx * bu_num_bits u) in
    let addr := Z.shiftr addr_in_bits 3 in
    let bit_shift := Z.land addr_in_bits 7 in
    let? until := (if debug then fit_word checks 32 (addr + 8) else Ok 0) in
    let? _ := debug_assert debug (bool_decide (until ≤ as_u32 (Z.of_nat (length data)))) (Ok tt) in
    let? bytes := slice (Z.to_nat addr) (Z.to_nat addr + 8) data in
    let val_unshifted_unmasked := from_le bytes in
    let val_shifted := Z.shiftr val_unshifted_unmasked bit_shift in
    Ok (Z.land val_shifted (bu_mask u)).

(** * lib.rs *)

(** [64 - n.leading_zeros()] *)
Definition bit_length (n : Z) : Z := if bool_decide (0 < n) then Z.log2 n + 1 else 0.

Definition compute_num_bits (n : Z) : Z :=
  let amplitude := bit_length n in
  if bool_decide (amplitude ≤ 64 - 8) then amplitude else 64.

Definition minmax (vals : list Z) : option (Z * Z) :=
  match vals with
  | [] => None
  | first_el :: vals => Some (foldl (λ m el, (Z.min m.1 el, Z.max m.2 el)) (first_el, first_el) vals)
  end.

(** * BlockedBitpacker *)

Definition BLOCK_SIZE : nat := 128.

Record EntryMetaData : Type := mkEntryMetaData { encoded : Z; base_value : Z }.

Definition md_new (offset num_bits base_value : Z) : EntryMetaData :=
  mkEntryMetaData (Z.lor offset (wrapping_shl 64 num_bits (64 - 8))) base_value.
Definition md_offset (m : EntryMetaData) : Z := Z.shiftr (wrapping_shl 64 (encoded m) 8) 8.
Definition md_num_bits (m : EntryMetaData) : Z := Z.shiftr (encoded m) 56 `mod` 2 ^ 8.

Record BlockedBitpacker : Type := mkBlockedBitpacker {
  compressed_blocks : list byte;
  buffer : list Z;
  offset_and_bits : list EntryMetaData;
}.

Definition BlockedBitpacker_new : BlockedBitpacker := mkBlockedBitpacker (replicate 8 x00) [] [].

Section blocked.
Context {E : Type}.
Variable checks debug : bool.

(** The values of a block, one after the other; a write to a vector does not fail. *)
Fixpoint pack_loop (vals : list Z) (min_value num_bits : Z) : method (BitPacker * list byte) E unit :=
  match vals with
  | [] => st_ret tt
  | val :: vals =>
      let! v := st_try (λ _, fit_word checks 64 (val - min_value)) in
      let! _ := bp_write vec_write_all checks v num_bits in
      pack_loop vals min_value num_bits
  end.

(** [compressed_blocks.len() - 8] *)
Definition without_padding (blocks : list byte) : res E nat :=
  if bool_decide (8 ≤ length blocks)%nat then Ok (length blocks - 8)%nat
  else Panic.

Definition bbp_flush : method BlockedBitpacker E unit := λ b,
  match minmax (buffer b) with
  | None => (Ok tt, b)
  | Some (min_value, max_value) =>
      let num_bits_block := compute_num_bits (max_value - min_value) in
      match without_padding (compressed_blocks b) with
      | Ok n =>
          let blocks := vec_resize n (compressed_blocks b) in
          let offset := Z.of_nat (length blocks) in
          match (let! _ := pack_loop (buffer b) min_value num_bits_block in bp_flush vec_write_all)
                  (BitPacker_new, blocks) with
          | (Ok _, (_, blocks)) =>
              (Ok tt, mkBlockedBitpacker (vec_resize (length blocks + 8) blocks) []
                        (offset_and_bits b ++ [md_new offset num_bits_block min_value]))
          | (Err e, (_, blocks)) => (Panic, mkBlockedBitpacker blocks (buffer b) (offset_and_bits b))
          | (Panic, (_, blocks)) => (Panic, mkBlockedBitpacker blocks (buffer b) (offset_and_bits b))
          | (NoFuel, (_, blocks)) => (NoFuel, mkBlockedBitpacker blocks (buffer b) (offset_and_bits b))
          end
      | _ => (Panic, b)
      end
  end.

Definition bbp_add (val : Z) : method BlockedBitpacker E unit :=
  let! _ := st_set (λ b, mkBlockedBitpacker (compressed_blocks b) (buffer b ++ [val]) (offset_and_bits b)) in
  let! full := st_get (λ b, bool_decide (length (buffer b) = BLOCK_SIZE)) in
  if full : bool then bbp_flush else st_ret tt.

Definition bbp_get (b : BlockedBitpacker) (idx : nat) : res E Z :=
  let metadata_pos := (idx `div` BLOCK_SIZE)%nat in
  let pos_in_block := (idx `mod` BLOCK_SIZE)%nat in
  match offset_and_bits b !! metadata_pos with
  | Some metadata =>
      let? data := slice (Z.to_nat (md_offset metadata)) (length (compressed_blocks b)) (compressed_blocks b) in
      let? u := BitUnpacker_new checks (md_num_bits metadata) in
      let? unpacked := bu_get debug checks u (Z.of_nat pos_in_block) data in
      fit_word checks 64 (unpacked + base_value metadata)
  | None => at_index (buffer b) pos_in_block
  end.

(** [iter().collect()] *)
Fixpoint get_all (b : BlockedBitpacker) (idxs : list nat) : res E (list Z) :=
  match idxs with
  | [] => Ok []
  | idx :: idxs => let? x := bbp_get b idx in let? l := get_all b idxs in Ok (x :: l)
  end.
Definition bbp_iter (b : BlockedBitpacker) : res E (list Z) :=
  let bitpacked_elems := (length (offset_and_bits b) * BLOCK_SIZE)%nat in
  let? l := get_all b (seq 0 bitpacked_elems) in Ok (l ++ buffer b).

Fixpoint bbp_add_all (vals : list Z) : method BlockedBitpacker E unit :=
  match vals with
  | [] => st_ret tt
  | val :: vals => let! _ := bbp_add val in bbp_add_all vals
  end.
End blocked.

(** * What is packed

    The number whose digits of [b] bits are the values, the first value the lowest: the bytes
    written are this number, little-endian. *)
Definition packed (b : Z) (vals : list Z) : Z := foldr (λ v acc, v + 2 ^ b * acc) 0 vals.

(** Values of [b] bits *)
Abbreviation fits b := (Forall (λ v, 0 ≤ v < 2 ^ b)).

Lemma pow_digit b n : 0 ≤ b → 2 ^ (b * Z.of_nat (S n)) = 2 ^ b * 2 ^ (b * Z.of_nat n).
Proof. intros. rewrite <- Z.pow_add_r by lia. f_equal. lia. Qed.

Lemma packed_app b l v : 0 ≤ b → packed b (l ++ [v]) = packed b l + 2 ^ (b * Z.of_nat (length l)) * v.
Proof.
  intros Hb. induction l as [|x l IH]; [simpl; rewrite !Z.mul_0_r; lia|]. cbn [packed foldr app length]. fold (packed b l) (packed b (l ++ [v])).
  rewrite IH, pow_digit by done. lia.
Qed.

Lemma packed_range b l : 0 ≤ b → fits b l → 0 ≤ packed b l < 2 ^ (b * Z.of_nat (length l)).
Proof.
  intros Hb. induction 1 as [|x l Hx _ IH]; [simpl; rewrite Z.mul_0_r; lia|].
  cbn [packed foldr length]. fold (packed b l). rewrite pow_digit by done. nia.
Qed.

Lemma packed_lookup b l i v :
  0 ≤ b → fits b l → l !! i = Some v → (packed b l `div` 2 ^ (b * Z.of_nat i)) `mod` 2 ^ b = v.
Proof.
  intros Hb Hl. revert i. induction Hl as [|x l Hx _ IH]; intros i Hi; [done|].
  assert (0 < 2 ^ b) by (apply Z.pow_pos_nonneg; lia). cbn [packed foldr]. fold (packed b l). destruct i as [|i].
  - injection Hi as ->. rewrite Z.mul_0_r, Z.pow_0_r, Z.div_1_r, Z.mul_comm, Z.mod_add by lia.
    by apply Z.mod_small.
  - rewrite <- (IH i Hi). f_equal. rewrite pow_digit by done.
    rewrite <- Z.div_div, (Z.mul_comm (2 ^ b) (packed b l)), Z.div_add by lia.
    by rewrite (Z.div_small x), Z.add_0_l.
Qed.

(** The packer [p] after the values [vals] of [b] bits: whole words are in [out]. *)
Record packing (b : Z) (vals : list Z) (p : BitPacker) (out : list byte) : Prop := mk_packing {
  pk_written : 0 ≤ mini_buffer_written p < 64;
  pk_buffer : 0 ≤ mini_buffer p < 2 ^ mini_buffer_written p;
  pk_bits : 8 * Z.of_nat (length out) + mini_buffer_written p = b * Z.of_nat (length vals);
  pk_value : from_le out + 2 ^ (8 * Z.of_nat (length out)) * mini_buffer p = packed b vals;
}.

Lemma packing_new b : packing b [] BitPacker_new [].
Proof. split; cbn; lia. Qed.

Section packing.
Context {E : Type}.
Variable checks : bool.
Abbreviation write_v := (bp_write (E := E) vec_write_all checks).

Lemma shl_split w v : 0 ≤ w ≤ 64 →
  v * 2 ^ w = wrapping_shl 64 v w + 2 ^ 64 * Z.shiftr v (64 - w).
Proof.
  intros Hw. unfold wrapping_shl. rewrite Z.shiftl_mul_pow2, Z.shiftr_div_pow2 by lia.
  replace (2 ^ 64) with (2 ^ (64 - w) * 2 ^ w) by (rewrite <- Z.pow_add_r by lia; f_equal; lia).
  rewrite Z.mul_mod_distr_r by (apply Z.pow_nonzero; lia).
  rewrite (Z.div_mod v (2 ^ (64 - w))) at 1 by (apply Z.pow_nonzero; lia). lia.
Qed.

(** A value into the buffer, above the bits that are there *)
Lemma buffer_or p v : 0 ≤ mini_buffer_written p < 64 → 0 ≤ mini_buffer p < 2 ^ mini_buffer_written p → 0 ≤ v →
  Z.lor (mini_buffer p) (wrapping_shl 64 v (mini_buffer_written p))
    = mini_buffer p + wrapping_shl 64 v (mini_buffer_written p)
  ∧ 0 ≤ mini_buffer p + wrapping_shl 64 v (mini_buffer_written p) < 2 ^ 64.
Proof.
  intros Hw Hb Hv. set (w := mini_buffer_written p) in *.
  assert (wrapping_shl 64 v w = Z.shiftl (v `mod` 2 ^ (64 - w)) w) as ->.
  { unfold wrapping_shl. rewrite !Z.shiftl_mul_pow2 by lia.
    replace (2 ^ 64) with (2 ^ (64 - w) * 2 ^ w) by (rewrite <- Z.pow_add_r by lia; f_equal; lia).
    apply Z.mul_mod_distr_r; apply Z.pow_nonzero; lia. }
  assert (0 < 2 ^ (64 - w)) by (apply Z.pow_pos_nonneg; lia).
  pose proof (Z.mod_pos_bound v (2 ^ (64 - w)) ltac:(lia)) as Hm.
  rewrite lor_low_high, Z.shiftl_mul_pow2 by lia. split; [lia|].
  replace (2 ^ 64) with (2 ^ (64 - w) * 2 ^ w) by (rewrite <- Z.pow_add_r by lia; f_equal; lia). nia.
Qed.

Lemma write_packs b vals p out v base :
  0 ≤ b ≤ 64 → 0 ≤ v < 2 ^ b → packing b vals p out →
  ∃ p' out', write_v v b (p, base ++ out) = (Ok tt, (p', base ++ out')) ∧ packing b (vals ++ [v]) p' out'.
Proof.
  intros Hb Hv [Hw Hm Hbits Hval]. unfold bp_write.
  destruct (buffer_or p v Hw Hm ltac:(lia)) as [Hor Hrange]. pose proof (shl_split (mini_buffer_written p) v ltac:(lia)) as Hs.
  set (w := mini_buffer_written p) in *.
  rewrite st_bind_get. cbn [fst]. rewrite (st_bind_try _ _ _ (w + b)) by (apply fit_word_in; lia).
  assert (∀ x, 0 ≤ x < 2 ^ 64 → from_le (to_le 8 x) = x) as Hle by (intros; apply from_to_le; lia).
  destruct (decide (64 < w + b)); [rewrite bool_decide_true by done|rewrite bool_decide_false by done].
  - rewrite (Z.mod_small w) by lia. rewrite Hor. unfold st_bind, st_try, on_output, set_packer, vec_write_all. cbn [fst snd].
    rewrite fit_word_in by (fold w; lia). rewrite <- app_assoc. eexists _, _. split; [done|].
    rewrite Z.mod_small by lia.
    split; cbn [mini_buffer mini_buffer_written]; fold w.
    + lia.
    + split; [apply Z.shiftr_nonneg; lia|]. rewrite Z.shiftr_div_pow2 by lia.
      apply Z.div_lt_upper_bound; [apply Z.pow_pos_nonneg; lia|]. rewrite <- Z.pow_add_r by lia.
      replace (64 - w + (w + b - 64)) with b by lia. lia.
    + rewrite !length_app, length_to_le. simpl. lia.
    + rewrite from_le_app, Hle, !length_app, length_to_le, pow_256, packed_app, <- Hval by lia.
      rewrite <- Hbits, Z.pow_add_r by lia.
      replace (8 * Z.of_nat (length out + 8)) with (8 * Z.of_nat (length out) + 64) by lia.
      rewrite Z.pow_add_r by lia.
      apply (f_equal (Z.mul (2 ^ (8 * Z.of_nat (length out))))) in Hs. lia.
  - unfold st_bind, st_try, on_output, set_packer, vec_write_all, st_ret. fold w.
    rewrite shl_word_in, Hor by lia. cbn [fst snd].
    assert (wrapping_shl 64 v w = v * 2 ^ w) as Hshl.
    { unfold wrapping_shl. rewrite Z.shiftl_mul_pow2 by lia. apply Z.mod_small.
      assert (2 ^ b * 2 ^ w ≤ 2 ^ 64) by (rewrite <- Z.pow_add_r by lia; apply Z.pow_le_mono_r; lia). nia. }
    assert (packed b (vals ++ [v]) = from_le out + 2 ^ (8 * Z.of_nat (length out)) * (mini_buffer p + wrapping_shl 64 v w)) as Hp.
    { rewrite packed_app, <- Hbits, Z.pow_add_r, Hshl by lia. lia. }
    destruct (decide (w + b = 64)); [rewrite bool_decide_true by done|rewrite bool_decide_false by done].
    + cbn [fst snd]. rewrite <- app_assoc. eexists _, _. split; [done|]. split; cbn [mini_buffer mini_buffer_written]; fold w.
      * lia.
      * lia.
      * rewrite !length_app, length_to_le. simpl. lia.
      * rewrite from_le_app, Hle, pow_256 by lia. lia.
    + eexists _, _. split; [done|]. split; cbn [mini_buffer mini_buffer_written]; fold w.
      * lia.
      * split; [lia|]. rewrite Hshl, (Z.add_comm w), Z.pow_add_r by lia. nia.
      * rewrite length_app. simpl. lia.
      * lia.
Qed.

(** A list of values, one [write] after the other *)
Fixpoint write_each {W} (write_all : list byte → method W E unit) (vals : list Z) (num_bits : Z) :
    method (BitPacker * W) E unit :=
  match vals with
  | [] => st_ret tt
  | val :: vals => let! _ := bp_write write_all checks val num_bits in write_each write_all vals num_bits
  end.

Lemma write_each_packs b more vals p out base :
  0 ≤ b ≤ 64 → fits b more → packing b vals p out →
  ∃ p' out', write_each vec_write_all more b (p, base ++ out) = (Ok tt, (p', base ++ out'))
    ∧ packing b (vals ++ more) p' out'.
Proof.
  intros Hb Hmore. revert vals p out. induction Hmore as [|v more Hv _ IH]; intros vals p out Hp.
  - exists p, out. by rewrite app_nil_r.
  - destruct (write_packs b vals p out v base Hb Hv Hp) as (p' & out' & Hw & Hp').
    cbn [write_each]. rewrite (st_bind_ok _ _ _ _ _ Hw).
    destruct (IH _ _ _ Hp') as (p'' & out'' & Hw' & Hp''). exists p'', out''.
    by rewrite <- app_assoc in Hp''.
Qed.

(** The bytes of [vals]: as many as their bits need *)
Definition packed_bytes (b : Z) (vals : list Z) : list byte :=
  to_le (Z.to_nat ((b * Z.of_nat (length vals) + 7) `div` 8)) (packed b vals).

Lemma flush_packs b vals p out base :
  packing b vals p out →
  bp_flush (E := E) vec_write_all (p, base ++ out) = (Ok tt, (BitPacker_new, base ++ packed_bytes b vals)).
Proof.
  intros [Hw Hm Hbits Hval]. unfold bp_flush. rewrite st_bind_get. cbn [fst].
  assert (∀ n, (n ≤ 8)%nat → Z.of_nat n = (mini_buffer_written p + 7) `div` 8 →
    out ++ to_le n (mini_buffer p) = packed_bytes b vals) as Hbytes.
  { intros n Hn Hz. apply to_le_unique.
    - rewrite length_app, length_to_le, <- Hbits.
      replace (8 * Z.of_nat (length out) + mini_buffer_written p + 7)
        with (mini_buffer_written p + 7 + Z.of_nat (length out) * 8) by lia.
      rewrite Z.div_add, <- Hz by lia. lia.
    - rewrite from_le_app, from_to_le, pow_256; [done|].
      rewrite pow_256. split; [lia|]. eapply Z.lt_le_trans; [apply Hm|]. apply Z.pow_le_mono_r; [lia|].
      pose proof (Z.div_mod (mini_buffer_written p + 7) 8). pose proof (Z.mod_pos_bound (mini_buffer_written p + 7) 8). lia. }
  destruct (decide (0 < mini_buffer_written p)) as [Hpos|Hz]; [rewrite bool_decide_true by done|rewrite bool_decide_false by done].
  - set (n := Z.to_nat _).
    assert (Z.of_nat n = (mini_buffer_written p + 7) `div` 8) as Hn
      by (apply Z2Nat.id, Z.div_pos; lia).
    assert (n ≤ 8)%nat.
    { assert ((mini_buffer_written p + 7) `div` 8 < 9) by (apply Z.div_lt_upper_bound; lia). lia. }
    rewrite (st_bind_try _ _ _ (take (n - 0) (to_le 8 (mini_buffer p))))
      by (apply slice_Ok; [lia|rewrite length_to_le; lia]).
    rewrite Nat.sub_0_r, take_to_le by done.
    unfold st_bind, on_output, set_packer, vec_write_all. cbn [fst snd]. rewrite <- app_assoc. by rewrite Hbytes.
  - assert (mini_buffer_written p = 0) as H0 by lia. unfold st_ret.
    rewrite <- (Hbytes 0%nat), app_nil_r; [|lia|by rewrite H0].
    do 2 f_equal. destruct p as [m w]. cbn in *. subst. f_equal. change (2 ^ 0) with 1 in Hm. lia.
Qed.

Lemma length_packed_bytes b vals : 0 ≤ b →
  Z.of_nat (length (packed_bytes b vals)) = (b * Z.of_nat (length vals) + 7) `div` 8.
Proof. intros. unfold packed_bytes. rewrite length_to_le. apply Z2Nat.id, Z.div_pos; lia. Qed.

Lemma from_packed_bytes b vals : 0 ≤ b → fits b vals → from_le (packed_bytes b vals) = packed b vals.
Proof.
  intros Hb Hv. apply from_to_le. pose proof (packed_range b vals Hb Hv).
  split; [lia|]. rewrite pow_256. eapply Z.lt_le_trans; [apply H|]. apply Z.pow_le_mono_r; [lia|].
  set (n := b * _) in *. assert (0 ≤ n) by lia.
  rewrite Z2Nat.id by (apply Z.div_pos; lia).
  pose proof (Z.div_mod (n + 7) 8). pose proof (Z.mod_pos_bound (n + 7) 8). lia.
Qed.
End packing.

(** * Reading a value *)

(** The field is in the eight bytes that the reader takes. *)
Definition readable (b : Z) : Prop := 0 ≤ b ≤ 56 ∨ b = 64.

Lemma compute_num_bits_readable n : 0 ≤ n < 2 ^ 64 →
  readable (compute_num_bits n) ∧ n < 2 ^ compute_num_bits n.
Proof.
  intros Hn. unfold compute_num_bits, readable, bit_length.
  destruct (decide (0 < n));
    [rewrite (bool_decide_true (0 < n)) by done|rewrite (bool_decide_false (0 < n)) by done].
  - pose proof (Z.log2_spec n ltac:(lia)) as [_ Hl]. pose proof (Z.log2_nonneg n).
    rewrite <- Z.add_1_r in Hl. case_bool_decide; lia.
  - case_bool_decide; simpl; lia.
Qed.

Lemma bit_unpacker_of {E} checks b : readable b →
  BitUnpacker_new (E := E) checks b = Ok (mkBitUnpacker b (Z.ones b)).
Proof.
  intros Hb. unfold BitUnpacker_new, readable in *.
  destruct (decide (b = 64)) as [->|]; [done|]. rewrite bool_decide_false by done.
  assert (0 < 2 ^ b) by (apply Z.pow_pos_nonneg; lia).
  assert (2 ^ b ≤ 2 ^ 56) by (apply Z.pow_le_mono_r; lia).
  rewrite shl_word_in by lia. unfold wrapping_shl. rewrite Z.shiftl_1_l, Z.mod_small by lia. cbn [res_bind].
  rewrite fit_word_in by lia. cbn [res_bind]. by rewrite Z.ones_equiv, Z.sub_1_r.
Qed.

Lemma get_field {E} debug checks b idx data :
  readable b → 0 ≤ idx → idx * b < 2 ^ 32 →
  (b = 0 ∨ (idx * b) `div` 8 + 8 ≤ Z.of_nat (length data)) →
  (debug = true → Z.of_nat (length data) < 2 ^ 32) →
  bu_get (E := E) debug checks (mkBitUnpacker b (Z.ones b)) idx data
  = Ok ((from_le data `div` 2 ^ (idx * b)) `mod` 2 ^ b).
Proof.
  intros Hb Hidx Hfit Hlen Hdebug. unfold bu_get. cbn [bu_num_bits bu_mask].
  destruct (decide (b = 0)) as [->|Hnz].
  { rewrite bool_decide_true by done. by rewrite Z.mod_1_r. }
  rewrite bool_decide_false by done. destruct Hlen as [?|Hlen]; [done|].
  set (a := idx * b) in *. assert (0 ≤ a) by (destruct Hb; nia).
  assert (0 ≤ a `div` 8) by (apply Z.div_pos; lia).
  assert (a `mod` 8 + b ≤ 8 * Z.of_nat 8) as H8.
  { pose proof (Z.mod_pos_bound a 8). destruct Hb as [?| ->]; [lia|].
    unfold a. replace (idx * 64) with (idx * 8 * 8) by lia. rewrite Z.mod_mul; lia. }
  rewrite fit_word_in by lia. cbn [res_bind].
  rewrite Z.shiftr_div_pow2 by lia. change (2 ^ 3) with 8.
  change 7 with (Z.ones 3). rewrite Z.land_ones by lia. change (2 ^ 3) with 8.
  assert (∃ until, (if debug then fit_word (E := E) checks 32 (a `div` 8 + 8) else Ok 0) = Ok until
    ∧ ∀ k, debug_assert (E := E) (A := unit) debug (bool_decide (until ≤ as_u32 (Z.of_nat (length data)))) k = k)
    as (until & -> & Hassert).
  { destruct debug; [|by exists 0]. specialize (Hdebug eq_refl). exists (a `div` 8 + 8).
    rewrite fit_word_in by lia. split; [done|]. intros k. unfold debug_assert.
    rewrite bool_decide_true; [done|]. unfold as_u32. rewrite Z.mod_small; lia. }
  cbn [res_bind]. rewrite Hassert. cbn [res_bind].
  rewrite slice_Ok by lia. cbn [res_bind]. f_equal.
  rewrite Z.land_ones, Z.shiftr_div_pow2 by (destruct Hb; lia || (apply Z.mod_pos_bound; lia)).
  replace (Z.to_nat (a `div` 8) + 8 - Z.to_nat (a `div` 8))%nat with 8%nat by lia.
  apply field_of_bytes; destruct Hb; lia.
Qed.

Lemma low_field x y m a b :
  0 ≤ a → 0 ≤ b → a + b ≤ m → ((x + 2 ^ m * y) `div` 2 ^ a) `mod` 2 ^ b = (x `div` 2 ^ a) `mod` 2 ^ b.
Proof.
  intros Ha Hb Hm. replace m with (a + b + (m - a - b)) by lia. rewrite !Z.pow_add_r by lia.
  replace (2 ^ a * 2 ^ b * 2 ^ (m - a - b) * y) with (2 ^ b * (2 ^ (m - a - b) * y) * 2 ^ a) by ring.
  rewrite Z.div_add by (apply Z.pow_nonzero; lia). rewrite Z.mul_comm. apply Z.mod_add.
  apply Z.pow_nonzero; lia.
Qed.

(** A value of the bytes that were packed, at least seven bytes before the end *)
Lemma read_packed {E} debug checks b vals rest i v :
  readable b → fits b vals → vals !! i = Some v → (7 ≤ length rest)%nat →
  Z.of_nat i * b < 2 ^ 32 →
  (debug = true → Z.of_nat (length (packed_bytes b vals ++ rest)) < 2 ^ 32) →
  bu_get (E := E) debug checks (mkBitUnpacker b (Z.ones b)) (Z.of_nat i) (packed_bytes b vals ++ rest) = Ok v.
Proof.
  intros Hb Hvals Hi Hrest Hsmall Hdebug. assert (0 ≤ b) as Hb0 by (destruct Hb; lia).
  pose proof (lookup_lt_Some _ _ _ Hi). pose proof (length_packed_bytes b vals Hb0) as Hlen.
  set (t := b * Z.of_nat (length vals)) in *.
  assert (Z.of_nat i * b + b ≤ t) by nia. assert (0 ≤ Z.of_nat i * b) by nia.
  pose proof (Z.div_mod (t + 7) 8 ltac:(lia)). pose proof (Z.mod_pos_bound (t + 7) 8 ltac:(lia)).
  pose proof (Z.div_mod (Z.of_nat i * b) 8 ltac:(lia)). pose proof (Z.mod_pos_bound (Z.of_nat i * b) 8 ltac:(lia)).
  rewrite get_field; [|done|lia|done| |done].
  2:{ rewrite length_app, Nat2Z.inj_add, Hlen. destruct (decide (b = 0)); [by left|right]. lia. }
  rewrite from_le_app, pow_256, low_field by lia. rewrite from_packed_bytes, Z.mul_comm by done.
  by rewrite (packed_lookup b vals i v).
Qed.

(** The whole life of a packer of values of one width *)
Lemma pack_close {E} checks b vals : 0 ≤ b ≤ 64 → fits b vals →
  (let! _ := write_each (E := E) checks vec_write_all vals b in bp_close vec_write_all) (BitPacker_new, [])
  = (Ok tt, (BitPacker_new, packed_bytes b vals ++ replicate 7 x00)).
Proof.
  intros Hb Hv.
  destruct (write_each_packs (E := E) checks b vals [] BitPacker_new [] [] Hb Hv (packing_new b)) as (p & out & Hw & Hp).
  cbn [app] in *. rewrite (st_bind_ok _ _ _ _ _ Hw). unfold bp_close.
  by rewrite (st_bind_ok _ _ _ _ _ (flush_packs b vals p out [] Hp)).
Qed.

(** * Blocks *)

Lemma minmax_bounds blk mn mx : minmax blk = Some (mn, mx) →
  Forall (λ v, mn ≤ v ≤ mx) blk ∧ mn ∈ blk ∧ mx ∈ blk.
Proof.
  destruct blk as [|x l]; [done|]. cbn [minmax]. intros [= Hf].
  assert (∀ l m, let r := foldl (λ m el, (m.1 `min` el, m.2 `max` el)) m l in
    r.1 ≤ m.1 ∧ m.2 ≤ r.2 ∧ Forall (λ v, r.1 ≤ v ≤ r.2) l ∧ (r.1 = m.1 ∨ r.1 ∈ l) ∧ (r.2 = m.2 ∨ r.2 ∈ l)) as Hfold.
  { clear. induction l as [|y l IH]; intros m; cbn [foldl].
    - repeat split; auto; lia.
    - destruct (IH (m.1 `min` y, m.2 `max` y)) as (H1 & H2 & H3 & H4 & H5). cbn [fst snd] in *.
      repeat split; [lia|lia|constructor; [lia|done]| |].
      + destruct H4 as [H4|H4]; [|right; by right]. rewrite H4.
        destruct (Z.min_spec m.1 y) as [[_ ->]|[_ ->]]; [by left|right; by left].
      + destruct H5 as [H5|H5]; [|right; by right]. rewrite H5.
        destruct (Z.max_spec m.2 y) as [[_ ->]|[_ ->]]; [right; by left|by left]. }
  specialize (Hfold l (x, x)). rewrite Hf in Hfold. cbn [fst snd] in Hfold.
  destruct Hfold as (H1 & H2 & H3 & H4 & H5). split; [constructor; [lia|done]|].
  split; [destruct H4 as [->|?]|destruct H5 as [->|?]]; by (left || right).
Qed.

Abbreviation words := (Forall (λ v, 0 ≤ v < 2 ^ 64)).

(** The lowest value of a block, and the bits of what the others are above it *)
Definition block_min (blk : list Z) : Z := default 0 (fst <$> minmax blk).
Definition block_bits (blk : list Z) : Z := compute_num_bits (default 0 (snd <$> minmax blk) - block_min blk).
Definition deltas (blk : list Z) : list Z := (λ v, v - block_min blk) <$> blk.
Definition block_bytes (blk : list Z) : list byte := packed_bytes (block_bits blk) (deltas blk).

Lemma block_good blk : words blk →
  readable (block_bits blk) ∧ fits (block_bits blk) (deltas blk) ∧ 0 ≤ block_min blk < 2 ^ 64.
Proof.
  intros Hw. unfold block_bits, deltas, block_min. destruct blk as [|x l]; [by split; [left|split; [constructor|]]|].
  destruct (minmax (x :: l)) as [[mn mx]|] eqn:Hm; [|done]. cbn.
  destruct (minmax_bounds _ _ _ Hm) as (Hall & Hmn & Hmx).
  pose proof (proj1 (list.Forall_forall _ _) Hw) as Hw'. pose proof (Hw' _ Hmn). pose proof (Hw' _ Hmx).
  pose proof (proj1 (list.Forall_forall _ _) Hall _ Hmx) as Hle. cbn in *.
  destruct (compute_num_bits_readable (mx - mn)) as [Hr Hlt]; [lia|]. split; [done|]. split; [|lia].
  change (fits (compute_num_bits (mx - mn)) ((λ v, v - mn) <$> (x :: l))).
  apply Forall_fmap. eapply list.Forall_impl; [exact Hall|]. cbn. intros v Hv. lia.
Qed.

(** The entries of the blocks from the byte [off] on *)
Fixpoint metas (off : nat) (blocks : list (list Z)) : list EntryMetaData :=
  match blocks with
  | [] => []
  | blk :: blocks => md_new (Z.of_nat off) (block_bits blk) (block_min blk)
                     :: metas (off + length (block_bytes blk)) blocks
  end.

Definition all_bytes (blocks : list (list Z)) : list byte := concat (block_bytes <$> blocks).

(** The packer whose full blocks are [blocks] *)
Definition layout (blocks : list (list Z)) (buf : list Z) : BlockedBitpacker :=
  mkBlockedBitpacker (all_bytes blocks ++ replicate 8 x00) buf (metas 0 blocks).

Lemma all_bytes_app a b : all_bytes (a ++ b) = all_bytes a ++ all_bytes b.
Proof. unfold all_bytes. by rewrite fmap_app, concat_app. Qed.

Lemma all_bytes_one blk : all_bytes [blk] = block_bytes blk.
Proof. apply app_nil_r. Qed.

Lemma metas_app off a b : metas off (a ++ b) = metas off a ++ metas (off + length (all_bytes a)) b.
Proof.
  revert off. induction a as [|blk a IH]; intros off; cbn [metas app]; [by rewrite Nat.add_0_r|].
  rewrite IH. unfold all_bytes. cbn. rewrite length_app. by rewrite Nat.add_assoc.
Qed.

Lemma length_metas off blocks : length (metas off blocks) = length blocks.
Proof. revert off. induction blocks; intros; cbn; auto. Qed.

Lemma lookup_metas off a blk b :
  metas off (a ++ blk :: b) !! length a
  = Some (md_new (Z.of_nat (off + length (all_bytes a))) (block_bits blk) (block_min blk)).
Proof. rewrite metas_app, lookup_app_r by (by rewrite length_metas). by rewrite length_metas, Nat.sub_diag. Qed.

Lemma md_fields offset b base : 0 ≤ offset < 2 ^ 56 → 0 ≤ b < 256 →
  md_offset (md_new offset b base) = offset ∧ md_num_bits (md_new offset b base) = b
  ∧ base_value (md_new offset b base) = base.
Proof.
  intros Ho Hb. unfold md_offset, md_num_bits, md_new. cbn [encoded base_value].
  unfold wrapping_shl. change (64 - 8) with 56.
  rewrite (Z.mod_small (Z.shiftl b 56)) by (rewrite Z.shiftl_mul_pow2; lia).
  rewrite lor_low_high, Z.shiftl_mul_pow2, !Z.shiftr_div_pow2 by lia.
  change (2 ^ 64) with (2 ^ 56 * 2 ^ 8). rewrite Z.mul_mod_distr_r, Z.div_mul by lia.
  rewrite (Z.mul_comm (2 ^ 56) b), Z.mod_add, Z.div_add, Z.div_small, !Z.mod_small by lia. repeat split; lia.
Qed.

Section blocks.
Context {E : Type}.
Variable checks debug : bool.

Lemma pack_loop_is vals mn b s :
  Forall (λ v, 0 ≤ v - mn < 2 ^ 64) vals →
  pack_loop (E := E) checks vals mn b s = write_each checks vec_write_all ((λ v, v - mn) <$> vals) b s.
Proof.
  intros Hv. revert s. induction Hv as [|v vals Hv _ IH]; intros s; [done|].
  cbn [pack_loop fmap list_fmap write_each]. rewrite (st_bind_try _ _ _ (v - mn)) by by apply fit_word_in.
  unfold st_bind. by destruct (bp_write _ _ _ _ s) as [[] ?].
Qed.

Lemma vec_resize_grow n l : vec_resize (length l + n) l = l ++ replicate n x00.
Proof. unfold vec_resize. rewrite take_ge by lia. do 2 f_equal. lia. Qed.

Lemma cut_padding l : vec_resize (length (l ++ replicate 8 x00) - 8) (l ++ replicate 8 x00) = l.
Proof.
  unfold vec_resize. rewrite length_app, length_replicate, Nat.add_sub, take_app_length.
  replace (length l - (length l + 8))%nat with 0%nat by lia. apply app_nil_r.
Qed.

Lemma flush_block blocks blk : words blk → blk ≠ [] →
  bbp_flush (E := E) checks (layout blocks blk) = (Ok tt, layout (blocks ++ [blk]) []).
Proof.
  intros Hw Hne. destruct (block_good blk Hw) as (Hr & Hd & Hmin).
  unfold bbp_flush. cbn [buffer layout compressed_blocks offset_and_bits].
  destruct (minmax blk) as [[mn mx]|] eqn:Hm; [|by destruct blk].
  assert (block_min blk = mn) as Hbm by (unfold block_min; by rewrite Hm).
  assert (compute_num_bits (mx - mn) = block_bits blk) as -> by (unfold block_bits; by rewrite Hbm, Hm).
  unfold without_padding. rewrite bool_decide_true by (rewrite length_app, length_replicate; lia).
  rewrite cut_padding.
  assert (0 ≤ block_bits blk ≤ 64) as Hb by (destruct Hr; lia).
  destruct (write_each_packs (E := E) checks (block_bits blk) (deltas blk) [] BitPacker_new [] (all_bytes blocks)
              Hb Hd (packing_new _)) as (p & out & Hwr & Hp).
  rewrite app_nil_r in Hwr. cbn [app] in Hp.
  assert (pack_loop (E := E) checks blk mn (block_bits blk) (BitPacker_new, all_bytes blocks)
          = (Ok tt, (p, all_bytes blocks ++ out))) as Hloop.
  { rewrite pack_loop_is; [unfold deltas in Hwr; by rewrite Hbm in Hwr|].
    unfold deltas in Hd. rewrite Hbm, Forall_fmap in Hd. eapply list.Forall_impl; [exact Hd|].
    cbn. intros v Hv. split; [lia|]. eapply Z.lt_le_trans; [apply Hv|]. apply Z.pow_le_mono_r; lia. }
  rewrite (st_bind_ok _ _ _ _ _ Hloop), (flush_packs _ _ _ _ (all_bytes blocks) Hp).
  rewrite vec_resize_grow. unfold layout. rewrite all_bytes_app, all_bytes_one, metas_app. cbn [metas].
  by rewrite Hbm, Nat.add_0_l.
Qed.

(** The values that are added are in full blocks and in the buffer. *)
Inductive holds : list Z → BlockedBitpacker → Prop :=
  | holds_intro blocks buf :
      Forall (λ blk, words blk ∧ length blk = BLOCK_SIZE) blocks →
      words buf → (length buf < BLOCK_SIZE)%nat → holds (concat blocks ++ buf) (layout blocks buf).

Lemma new_holds : holds [] BlockedBitpacker_new.
Proof. apply (holds_intro [] []); [constructor..|unfold BLOCK_SIZE; simpl; lia]. Qed.

Lemma add_holds vals b v : 0 ≤ v < 2 ^ 64 → holds vals b →
  ∃ b', bbp_add (E := E) checks v b = (Ok tt, b') ∧ holds (vals ++ [v]) b'.
Proof.
  intros Hv [blocks buf Hblocks Hbuf Hlen]. unfold bbp_add. rewrite st_bind_set, st_bind_get.
  cbn [compressed_blocks buffer offset_and_bits layout]. rewrite <- app_assoc.
  change (mkBlockedBitpacker _ _ _) with (layout blocks (buf ++ [v])).
  assert (words (buf ++ [v])) by (apply Forall_app; auto).
  destruct (decide (length (buf ++ [v]) = BLOCK_SIZE)); [rewrite bool_decide_true by done|rewrite bool_decide_false by done].
  - eexists. split; [apply flush_block; [done|by destruct buf]|].
    replace (concat blocks ++ buf ++ [v]) with (concat (blocks ++ [buf ++ [v]]) ++ [])
      by (rewrite concat_app; cbn; by rewrite !app_nil_r).
    apply holds_intro; [apply Forall_app; auto|constructor|unfold BLOCK_SIZE; simpl; lia].
  - eexists. split; [done|]. apply holds_intro; [done..|].
    rewrite length_app in *. simpl in *. lia.
Qed.

Lemma add_all_holds more vals b : words more → holds vals b →
  ∃ b', bbp_add_all (E := E) checks more b = (Ok tt, b') ∧ holds (vals ++ more) b'.
Proof.
  intros Hmore. revert vals b. induction Hmore as [|v more Hv _ IH]; intros vals b Hb.
  - exists b. by rewrite app_nil_r.
  - destruct (add_holds vals b v Hv Hb) as (b' & Ha & Hb'). cbn [bbp_add_all].
    rewrite (st_bind_ok _ _ _ _ _ Ha). destruct (IH _ _ Hb') as (b'' & Haa & Hb'').
    exists b''. by rewrite <- app_assoc in Hb''.
Qed.

(** * Reading *)

Lemma length_block_bytes blk : words blk → length blk = BLOCK_SIZE → (length (block_bytes blk) ≤ 1024)%nat.
Proof.
  intros Hw Hl. destruct (block_good blk Hw) as (Hr & _).
  pose proof (length_packed_bytes (block_bits blk) (deltas blk) ltac:(destruct Hr; lia)) as Hlen.
  unfold deltas at 2 in Hlen. rewrite length_fmap, Hl in Hlen. fold (block_bytes blk) in Hlen.
  assert ((block_bits blk * Z.of_nat BLOCK_SIZE + 7) `div` 8 < 1025)
    by (apply Z.div_lt_upper_bound; unfold BLOCK_SIZE; destruct Hr; lia).
  lia.
Qed.

(** Blocks of 128 values are the values. *)
Lemma concat_blocks (blocks : list (list Z)) : Forall (λ blk, words blk ∧ length blk = BLOCK_SIZE) blocks →
  length (concat blocks) = (length blocks * BLOCK_SIZE)%nat.
Proof. induction 1 as [|blk blocks [_ Hl] _ IH]; [done|]. cbn. rewrite length_app, IH, Hl. done. Qed.

Lemma lookup_blocks blocks i v : Forall (λ blk, words blk ∧ length blk = BLOCK_SIZE) blocks →
  concat blocks !! i = Some v →
  ∃ blk, blocks !! (i `div` BLOCK_SIZE)%nat = Some blk ∧ blk !! (i `mod` BLOCK_SIZE)%nat = Some v.
Proof.
  intros Hb. revert i. induction Hb as [|blk blocks [_ Hl] _ IH]; intros i; [done|]. cbn [concat foldr].
  destruct (decide (i < BLOCK_SIZE)%nat).
  - rewrite lookup_app_l by lia. rewrite Nat.div_small, Nat.mod_small by done. intros. by exists blk.
  - rewrite lookup_app_r by lia. intros Hi. destruct (IH _ Hi) as (blk' & H1 & H2). exists blk'.
    rewrite Hl in *.
    replace i with (i - BLOCK_SIZE + 1 * BLOCK_SIZE)%nat by lia.
    rewrite Nat.div_add, Nat.Div0.mod_add by done. by rewrite Nat.add_1_r.
Qed.

Lemma all_bytes_length blocks : Forall (λ blk, words blk ∧ length blk = BLOCK_SIZE) blocks →
  (length (all_bytes blocks) ≤ 1024 * length blocks)%nat.
Proof.
  induction 1 as [|blk blocks [Hw Hl] _ IH]; [simpl; lia|].
  change (all_bytes (blk :: blocks)) with (block_bytes blk ++ all_bytes blocks).
  rewrite length_app. pose proof (length_block_bytes blk Hw Hl). simpl. lia.
Qed.

(** The largest number of values that the offsets, and in a debug build the assertion of the
    reader, allow *)
Definition max_values : Z := if debug then 2 ^ 28 else 2 ^ 52.

Lemma get_holds vals b i v : holds vals b → Z.of_nat (length vals) < max_values →
  vals !! i = Some v → bbp_get (E := E) checks debug b i = Ok v.
Proof.
  intros [blocks buf Hblocks Hbuf Hlen] Hmax Hi. unfold bbp_get.
  cbn [offset_and_bits compressed_blocks buffer layout].
  pose proof (concat_blocks blocks Hblocks) as Hc.
  destruct (decide (i < length (concat blocks))%nat) as [Hlt|Hge].
  - rewrite lookup_app_l in Hi by done. destruct (lookup_blocks blocks i v Hblocks Hi) as (blk & Hblk & Hv).
    destruct (list_elem_of_split_length _ _ _ Hblk) as (bs & bs' & -> & Hbs).
    rewrite Hbs, lookup_metas. cbn [Nat.add].
    pose proof (all_bytes_length _ Hblocks) as Htotal. rewrite length_app in Hc, Hmax. rewrite Hc in Hmax.
    apply Forall_app in Hblocks as [_ Hblocks]. destruct (Forall_inv Hblocks) as [Hw Hl].
    destruct (block_good blk Hw) as (Hr & Hd & Hmin).
    change (all_bytes (bs ++ blk :: bs')) with (all_bytes (bs ++ [blk] ++ bs')) in *.
    rewrite !all_bytes_app, all_bytes_one in *. rewrite !length_app in *.
    unfold max_values in Hmax. unfold BLOCK_SIZE in Hmax.
    destruct (md_fields (Z.of_nat (length (all_bytes bs))) (block_bits blk) (block_min blk)) as (-> & -> & ->);
      [destruct debug; lia|destruct Hr; lia|].
    rewrite Nat2Z.id, slice_Ok by (rewrite ?length_app; lia). cbn [res_bind].
    rewrite take_ge by (rewrite length_drop, !length_app; lia).
    rewrite <- !app_assoc, drop_app_length, bit_unpacker_of by done. cbn [res_bind].
    assert (deltas blk !! (i `mod` BLOCK_SIZE)%nat = Some (v - block_min blk)) as Hdl
      by (unfold deltas; by rewrite list_lookup_fmap, Hv).
    pose proof (Nat.mod_upper_bound i BLOCK_SIZE ltac:(done)).
    unfold block_bytes. rewrite (read_packed _ _ _ _ _ _ _ Hr Hd Hdl).
    + cbn [res_bind]. pose proof (proj1 (list.Forall_forall _ _) Hw _ (list_elem_of_lookup_2 _ _ _ Hv)) as Hv64.
      cbn in Hv64. rewrite fit_word_in by lia. f_equal. lia.
    + rewrite length_app, length_replicate. lia.
    + set (j := (i `mod` BLOCK_SIZE)%nat) in *. unfold BLOCK_SIZE in *. destruct Hr; nia.
    + intros ->. fold (block_bytes blk). rewrite !length_app, length_replicate. lia.
  - rewrite lookup_app_r in Hi by lia. pose proof (lookup_lt_Some _ _ _ Hi).
    assert (length blocks = (i `div` BLOCK_SIZE)%nat ∧ (i `mod` BLOCK_SIZE)%nat = (i - length (concat blocks))%nat) as [Hd Hm].
    { rewrite Hc. replace i with (i - length blocks * BLOCK_SIZE + length blocks * BLOCK_SIZE)%nat at 1 2 by lia.
      rewrite Nat.div_add, Nat.Div0.mod_add by done. rewrite Nat.div_small, Nat.mod_small by lia. lia. }
    rewrite lookup_ge_None_2 by (rewrite length_metas; lia). unfold at_index. by rewrite Hm, Hi.
Qed.

Lemma get_all_holds vals b idxs : holds vals b → Z.of_nat (length vals) < max_values →
  Forall (λ i, i < length vals)%nat idxs →
  get_all (E := E) checks debug b idxs = Ok ((λ i, vals !!! i) <$> idxs).
Proof.
  intros Hb Hmax. induction 1 as [|i idxs Hi _ IH]; [done|]. cbn [get_all fmap list_fmap].
  rewrite (get_holds vals b i (vals !!! i)) by (done || by apply list_lookup_lookup_total_lt).
  cbn [res_bind]. by rewrite IH.
Qed.

Lemma iter_holds vals b : holds vals b → Z.of_nat (length vals) < max_values →
  bbp_iter (E := E) checks debug b = Ok vals.
Proof.
  intros Hb Hmax. unfold bbp_iter.
  destruct Hb as [blocks buf Hblocks Hbuf Hlen] eqn:Heq. clear Heq.
  pose proof (concat_blocks blocks Hblocks) as Hc.
  cbn [offset_and_bits buffer layout]. rewrite length_metas, <- Hc.
  rewrite (get_all_holds (concat blocks ++ buf)).
  - cbn [res_bind]. do 2 f_equal. apply list_eq. intros i.
    rewrite list_lookup_fmap. destruct (decide (i < length (concat blocks))%nat) as [Hi|Hi].
    + rewrite lookup_seq_lt by done. cbn. symmetry.
      rewrite <- (lookup_app_l _ buf) by done. apply list_lookup_lookup_total_lt. rewrite length_app. lia.
    + by rewrite !lookup_ge_None_2 by (rewrite ?length_seq; lia).
  - by apply holds_intro.
  - done.
  - apply list.Forall_forall. intros i Hi. apply elem_of_seq in Hi. rewrite length_app. lia.
Qed.
End blocks.
