(* ===== verification/TanBitset.v ===== *)
(** The bit sets of tantivy (tantivy/common/src/bitset.rs) and the bytes that they are read
    from (tantivy/ownedbytes/src/lib.rs).

    A [TinySet] is a word of 64 bits, a [BitSet] a slice of them with the number of its
    elements, a [ReadOnlyBitSet] the bytes of such a slice.  The abstract value of all of them
    is a finite set of numbers. *)
From Stdlib Require Import ZArith Lia Strings.Byte Sorted.
From stdpp Require Import base list numbers option gmap sets.
From S2P Require Import Prelude StateMonad Words.
#[local] Open Scope Z_scope.

(** * OwnedBytes

    What is seen of one is its slice; the reference that keeps the memory is not modelled. *)
Abbreviation OwnedBytes := (list byte).

Section owned.
Context {E : Type}.
Abbreviation res := (Prelude.res E).

Definition ob_slice (data : OwnedBytes) (a b : nat) : res OwnedBytes := slice a b data.

Definition ob_split (data : OwnedBytes) (split_len : nat) : res (OwnedBytes * OwnedBytes) :=
  let? lhs := slice 0 split_len data in
  let? rhs := slice split_len (length data) data in
  Ok (lhs, rhs).

(** [data_len - split_len] would wrap to a length that no slice has. *)
Definition ob_rsplit (data : OwnedBytes) (split_len : nat) : res (OwnedBytes * OwnedBytes) :=
  if bool_decide (split_len ≤ length data)%nat then ob_split data (length data - split_len) else Panic.

Definition ob_split_off (split_len : nat) : method OwnedBytes E OwnedBytes :=
  let! right_piece := st_try (λ data, slice split_len (length data) data) in
  let! lhs := st_try (slice 0 split_len) in
  let! _ := st_set (λ _, lhs) in st_ret right_piece.

Definition ob_advance (advance_len : nat) : method OwnedBytes E unit :=
  let! rest := st_try (λ data, slice advance_len (length data) data) in
  st_set (λ _, rest).

Definition ob_read_u8 : method OwnedBytes E byte :=
  let! b := st_try (λ data, at_index data 0) in
  let! _ := ob_advance 1 in st_ret b.

Definition ob_read_u64 : method OwnedBytes E Z :=
  let! octlet := st_try (slice 0 8) in
  let! _ := ob_advance 8 in st_ret (from_le octlet).

(** The bytes that [fmt::Debug] shows *)
Definition ob_debug (data : OwnedBytes) : res (list byte) :=
  if bool_decide (8 < length data)%nat then slice 0 10 data else Ok data.
End owned.

(** * TinySet *)

(** [count_ones] and [trailing_zeros] of a word of 64 bits *)
Definition bits64 : list Z := seqZ 0 64.
Definition count_ones (s : Z) : Z := Z.of_nat (length (filter (λ i, Z.testbit s i = true) bits64)).
Definition trailing_zeros (s : Z) : Z :=
  match list_find (λ i, Z.testbit s i = true) bits64 with Some (_, i) => i | None => 64 end.

Abbreviation TinySet := Z.

Definition ts_into_bytes (s : TinySet) : list byte := to_le 8 s.
Definition ts_serialize {W E} (write_all : list byte → method W E unit) (s : TinySet) : method W E unit :=
  write_all (to_le 8 s).
Definition ts_deserialize (data : list byte) : TinySet := from_le data.
Definition ts_empty : TinySet := 0.
Definition complement (s : TinySet) : TinySet := Z.ldiff (Z.ones 64) s.
Definition ts_full : TinySet := complement ts_empty.
Definition intersect (s other : TinySet) : TinySet := Z.land s other.
Definition union_ts (s other : TinySet) : TinySet := Z.lor s other.
Definition ts_is_empty (s : TinySet) : bool := bool_decide (s = 0).
Definition ts_len (s : TinySet) : Z := count_ones s.

Section tiny.
Context {E : Type}.
Variable checks : bool.
Abbreviation res := (Prelude.res E).

Definition singleton (el : Z) : res TinySet := shl_word checks 64 1 el.
Definition ts_contains (s : TinySet) (el : Z) : res bool :=
  let? one := singleton el in Ok (negb (ts_is_empty (intersect s one))).
Definition ts_insert (s : TinySet) (el : Z) : res TinySet :=
  let? one := singleton el in Ok (union_ts s one).
Definition ts_remove (s : TinySet) (el : Z) : res TinySet :=
  let? one := singleton el in Ok (intersect s (complement one)).

Definition ts_clear : method TinySet E unit := st_set (λ _, 0).
Definition insert_mut (el : Z) : method TinySet E bool :=
  let! old := st_get id in
  let! new := st_try (λ s, ts_insert s el) in
  let! _ := st_set (λ _, new) in
  st_ret (negb (bool_decide (old = new))).
Definition remove_mut (el : Z) : method TinySet E bool :=
  let! old := st_get id in
  let! new := st_try (λ s, ts_remove s el) in
  let! _ := st_set (λ _, new) in
  st_ret (negb (bool_decide (old = new))).

Definition pop_lowest : method TinySet E (option Z) :=
  let! empty := st_get ts_is_empty in
  if empty : bool then st_ret None
  else
    let! lowest := st_get trailing_zeros in
    let! one := st_try (λ _, singleton lowest) in
    let! _ := st_set (λ s, Z.lxor s one) in
    st_ret (Some lowest).

(** [into_iter().collect()]: a [next] is a [pop_lowest] *)
Fixpoint ts_collect (fuel : nat) (s : TinySet) : res (list Z) :=
  match fuel with
  | O => NoFuel
  | S fuel =>
      match pop_lowest s with
      | (Ok None, _) => Ok []
      | (Ok (Some el), s) => let? l := ts_collect fuel s in Ok (el :: l)
      | (Err e, _) => Err e
      | (Panic, _) => Panic
      | (NoFuel, _) => NoFuel
      end
  end.

Definition range_lower (upper_bound : Z) : res TinySet :=
  let? x := shl_word checks 64 1 (upper_bound `mod` 64) in fit_word checks 64 (x - 1).
Definition range_greater_or_equal (from_included : Z) : res TinySet :=
  let? s := range_lower from_included in Ok (complement s).
End tiny.

(** * BitSet *)

Record BitSet : Type := mkBitSet { tinysets : list TinySet; bs_len : Z; bs_max_value : Z }.

Section bitset.
Context {E : Type}.
Variable checks : bool.
Abbreviation res := (Prelude.res E).

Definition num_buckets (max_val : Z) : res Z :=
  let? x := fit_word checks 32 (max_val + 63) in Ok (x `div` 64).

(** [write_all] and [flush] are the writer's. *)
Definition bs_serialize {W} (write_all : list byte → method W E unit) (flush : method W E unit)
    (b : BitSet) : method W E unit :=
  let! _ := write_all (to_le 4 (bs_max_value b)) in
  let! _ := st_each (λ s, write_all (ts_into_bytes s)) (tinysets b) in
  flush.

Definition with_max_value (max_value : Z) : res BitSet :=
  let? n := num_buckets max_value in
  Ok (mkBitSet (replicate (Z.to_nat n) ts_empty) 0 max_value).

Definition with_max_value_and_full (max_value : Z) : res BitSet :=
  let? n := num_buckets max_value in
  let tinybitsets := replicate (Z.to_nat n) ts_full in
  let lower := max_value `mod` 64 in
  let? tinybitsets :=
    if bool_decide (lower = 0) then Ok tinybitsets
    else
      if bool_decide (tinybitsets = []) then Panic
      else let? s := range_lower checks lower in write_at tinybitsets (length tinybitsets - 1) s in
  Ok (mkBitSet tinybitsets max_value max_value).

Definition set_tinysets (f : list TinySet → list TinySet) (b : BitSet) : BitSet :=
  mkBitSet (f (tinysets b)) (bs_len b) (bs_max_value b).
Definition set_len (n : Z) (b : BitSet) : BitSet := mkBitSet (tinysets b) n (bs_max_value b).

Definition bs_clear : method BitSet E unit := st_set (set_tinysets (fmap (λ _, ts_empty))).

(** The loop over [tinysets.iter_mut().zip(other)]: what becomes of the words, and the sum *)
Fixpoint intersect_loop (lhs other : list TinySet) (len : Z) : res (list TinySet * Z) :=
  match lhs, other with
  | l :: lhs, r :: other =>
      let l := intersect l r in
      let? len := fit_word checks 64 (len + ts_len l) in
      let? (lhs, len) := intersect_loop lhs other len in
      Ok (l :: lhs, len)
  | lhs, _ => Ok (lhs, len)
  end.
Definition intersect_update_with_iter (other : list TinySet) : method BitSet E unit :=
  let! (lhs, len) := st_try (λ b, intersect_loop (tinysets b) other 0) in
  st_set (λ b, set_len len (set_tinysets (λ _, lhs) b)).

Definition bs_length (b : BitSet) : Z := bs_len b.

(** The element [i] of a slice, changed in place *)
Definition at_mut {A R} (i : nat) (f : method A E R) : method (list A) E R := λ l,
  match l !! i with
  | Some x => let '(r, x) := f x in (r, <[i := x]> l)
  | None => (Panic, l)
  end.
Definition on_tinysets {R} (f : method (list TinySet) E R) : method BitSet E R := λ b,
  let '(r, l) := f (tinysets b) in (r, set_tinysets (λ _, l) b).

Definition bs_insert (el : Z) : method BitSet E unit :=
  let higher := el `div` 64 in
  let lower := el `mod` 64 in
  let! changed := on_tinysets (at_mut (Z.to_nat higher) (insert_mut checks lower)) in
  let! n := st_try (λ b, fit_word checks 64 (bs_len b + Z.b2z changed)) in
  st_set (set_len n).
Definition bs_remove (el : Z) : method BitSet E unit :=
  let higher := el `div` 64 in
  let lower := el `mod` 64 in
  let! changed := on_tinysets (at_mut (Z.to_nat higher) (remove_mut checks lower)) in
  let! n := st_try (λ b, fit_word checks 64 (bs_len b - Z.b2z changed)) in
  st_set (set_len n).

Definition bs_tinyset (b : BitSet) (bucket : Z) : res TinySet := at_index (tinysets b) (Z.to_nat bucket).
Definition bs_contains (b : BitSet) (el : Z) : res bool :=
  let? s := bs_tinyset b (el `div` 64) in ts_contains checks s (el `mod` 64).

Definition first_non_empty_bucket (b : BitSet) (bucket : Z) : res (option Z) :=
  let? rest := slice (Z.to_nat bucket) (length (tinysets b)) (tinysets b) in
  match list_find (λ s, ts_is_empty s = false) rest with
  | Some (delta_bucket, _) =>
      let? x := fit_word checks 32 (bucket + as_u32 (Z.of_nat delta_bucket)) in Ok (Some x)
  | None => Ok None
  end.
End bitset.

(** * ReadOnlyBitSet *)

Record ReadOnlyBitSet : Type := mkReadOnlyBitSet { ro_data : OwnedBytes; ro_max_value : Z }.

Section readonly.
Context {E : Type}.
Variable checks : bool.
Abbreviation res := (Prelude.res E).

Definition ro_open (data : OwnedBytes) : res ReadOnlyBitSet :=
  let? (max_value_data, data) := ob_split data 4 in
  if bool_decide (length data `mod` 8 = 0)%nat then Ok (mkReadOnlyBitSet data (from_le max_value_data)) else Panic.

Definition iter_tinysets (r : ReadOnlyBitSet) : list TinySet :=
  ts_deserialize <$> chunks_exact (length (ro_data r) / 8) 8 (ro_data r).

(** [sum()] of values that are [usize] *)
Fixpoint sum_lens (l : list TinySet) (acc : Z) : res Z :=
  match l with
  | [] => Ok acc
  | s :: l => let? acc := fit_word checks 64 (acc + ts_len s) in sum_lens l acc
  end.
Definition ro_len (r : ReadOnlyBitSet) : res Z := sum_lens (iter_tinysets r) 0.

(** The elements of the word number [chunk_num]: those that are under [max_value], up to the
    first that is not *)
Fixpoint chunk_docs (base max_value : Z) (vals : list Z) : res (list Z) :=
  match vals with
  | [] => Ok []
  | val :: vals =>
      let? doc := fit_word checks 32 (val + base) in
      if bool_decide (doc < max_value) then
        let? l := chunk_docs base max_value vals in Ok (doc :: l)
      else Ok []
  end.
Fixpoint ro_docs (chunk_num : nat) (max_value : Z) (l : list TinySet) : res (list Z) :=
  match l with
  | [] => Ok []
  | s :: l =>
      let? chunk_base_val := fit_word checks 32 (as_u32 (Z.of_nat chunk_num) * 64) in
      let? vals := ts_collect checks 65 s in
      let? docs := chunk_docs chunk_base_val max_value vals in
      let? rest := ro_docs (S chunk_num) max_value l in
      Ok (docs ++ rest)
  end.
(** [iter().collect()] *)
Definition ro_iter (r : ReadOnlyBitSet) : res (list Z) := ro_docs 0 (ro_max_value r) (iter_tinysets r).

Definition ro_contains (r : ReadOnlyBitSet) (el : Z) : res bool :=
  let byte_offset := el `div` 8 in
  let? b := at_index (ro_data r) (Z.to_nat byte_offset) in
  let? one := shl_word checks 8 1 (el `mod` 8) in
  Ok (negb (bool_decide (Z.land (byte_val b) one = 0))).

Definition num_bytes (r : ReadOnlyBitSet) : nat := length (ro_data r).

Definition intersect_bitsets (lhs other : ReadOnlyBitSet) : res ReadOnlyBitSet :=
  if bool_decide (ro_max_value lhs = ro_max_value other) then
    if bool_decide (length (ro_data lhs) = length (ro_data other)) then
      Ok (mkReadOnlyBitSet
        (concat (ts_into_bytes <$> zip_with intersect (iter_tinysets lhs) (iter_tinysets other)))
        (ro_max_value lhs))
    else Panic
  else Panic.

Definition intersect_update (other : ReadOnlyBitSet) : method BitSet E unit :=
  intersect_update_with_iter checks (iter_tinysets other).

(** [ReadOnlyBitSet::from(&bitset)]: a vector takes all that is written to it *)
Definition ro_from (b : BitSet) : res ReadOnlyBitSet :=
  match bs_serialize (E := E) vec_write_all (st_ret tt) b [] with
  | (Ok _, buffer) => ro_open buffer
  | (Err _, _) | (Panic, _) => Panic
  | (NoFuel, _) => NoFuel
  end.
End readonly.

(** * The bits of a word *)

Definition word (s : TinySet) : Prop := 0 ≤ s < 2 ^ 64.

Lemma filter_agree {A} (P Q : A → Prop) `{!∀ x, Decision (P x), !∀ x, Decision (Q x)} (l : list A) :
  (∀ x, x ∈ l → P x ↔ Q x) → filter P l = filter Q l.
Proof.
  induction l as [|x l IH]; intros Hpq; [done|]. rewrite !filter_cons.
  assert (filter P l = filter Q l) as -> by (apply IH; intros; apply Hpq; by right).
  pose proof (Hpq x ltac:(by left)). destruct (decide (P x)), (decide (Q x)); tauto.
Qed.

(** The elements of a word, ascending *)
Definition elems (s : TinySet) : list Z := filter (λ i, Z.testbit s i = true) bits64.

Lemma elem_of_elems s i : i ∈ elems s ↔ 0 ≤ i < 64 ∧ Z.testbit s i = true.
Proof. unfold elems, bits64. rewrite list_elem_of_filter, elem_of_seqZ. intuition lia. Qed.

Lemma word_high s i : word s → 64 ≤ i → Z.testbit s i = false.
Proof. intros Hs Hi. rewrite <- (Z.mod_small s (2 ^ 64)) by exact Hs. apply Z.mod_pow2_bits_high. lia. Qed.

Lemma word_ext a b : word a → word b → (∀ i, 0 ≤ i < 64 → Z.testbit a i = Z.testbit b i) → a = b.
Proof.
  intros Ha Hb Hab. apply Z.bits_inj'. intros i Hi. destruct (decide (i < 64)); [apply Hab; lia|].
  by rewrite !word_high by (done || lia).
Qed.

Lemma word_bits s : 0 ≤ s → (∀ i, 64 ≤ i → Z.testbit s i = false) → word s.
Proof.
  intros Hs Hhigh. split; [done|].
  assert (s = s `mod` 2 ^ 64) as ->; [|apply Z.mod_pos_bound; lia].
  apply Z.bits_inj'. intros i Hi. destruct (decide (i < 64)); [by rewrite Z.mod_pow2_bits_low|].
  rewrite Z.mod_pow2_bits_high, Hhigh by lia. done.
Qed.

Lemma word_land a b : word a → word b → word (Z.land a b).
Proof.
  intros Ha Hb. apply word_bits; [apply Z.land_nonneg; destruct Ha; lia|].
  intros i Hi. by rewrite Z.land_spec, word_high.
Qed.

Lemma word_lor a b : word a → word b → word (Z.lor a b).
Proof.
  intros Ha Hb. apply word_bits; [apply Z.lor_nonneg; destruct Ha, Hb; lia|].
  intros i Hi. by rewrite Z.lor_spec, !word_high.
Qed.

Lemma word_complement s : word (complement s).
Proof.
  apply word_bits; [apply Z.ldiff_nonneg; left; by vm_compute|].
  intros i Hi. unfold complement. by rewrite Z.ldiff_spec, Z.ones_spec_high by lia.
Qed.

Lemma complement_bit s i : 0 ≤ i < 64 → Z.testbit (complement s) i = negb (Z.testbit s i).
Proof. intros. unfold complement. by rewrite Z.ldiff_spec, Z.ones_spec_low by lia. Qed.

Lemma singleton_is {E} checks el : 0 ≤ el < 64 → singleton (E := E) checks el = Ok (2 ^ el).
Proof.
  intros. unfold singleton. rewrite shl_word_in by done. unfold wrapping_shl.
  rewrite Z.shiftl_1_l, Z.mod_small; [done|]. split; [lia|]. apply Z.pow_lt_mono_r; lia.
Qed.

Lemma word_pow el : 0 ≤ el < 64 → word (2 ^ el).
Proof. split; [lia|]. apply Z.pow_lt_mono_r; lia. Qed.

Lemma pow_bit el i : 0 ≤ el → Z.testbit (2 ^ el) i = bool_decide (el = i).
Proof. intros. rewrite Z.pow2_bits_eqb by done. rewrite Z.eqb_compare. case_bool_decide; subst; [by rewrite Z.compare_refl|]. by destruct (Z.compare_spec el i). Qed.

(** ** The operations *)

Section tiny_laws.
Context {E : Type}.
Variable checks : bool.

Lemma ts_contains_is s el : word s → 0 ≤ el < 64 → ts_contains (E := E) checks s el = Ok (Z.testbit s el).
Proof.
  intros Hs Hel. unfold ts_contains. rewrite singleton_is by done. cbn [res_bind]. f_equal.
  unfold ts_is_empty, intersect. destruct (Z.testbit s el) eqn:Hb.
  - rewrite bool_decide_false; [done|]. intros H0. apply (f_equal (λ x, Z.testbit x el)) in H0.
    rewrite Z.land_spec, pow_bit, Hb, bool_decide_true, Z.bits_0 in H0 by lia. done.
  - rewrite bool_decide_true; [done|]. apply Z.bits_inj'. intros i Hi. rewrite Z.land_spec, pow_bit, Z.bits_0 by lia.
    case_bool_decide; subst; [by rewrite Hb|apply andb_false_r].
Qed.

Lemma ts_insert_is s el : word s → 0 ≤ el < 64 → ∃ s', ts_insert (E := E) checks s el = Ok s' ∧ word s' ∧
  ∀ i, Z.testbit s' i = Z.testbit s i || bool_decide (el = i).
Proof.
  intros Hs Hel. unfold ts_insert. rewrite singleton_is by done. cbn [res_bind]. eexists. split; [done|].
  split; [apply word_lor; [done|by apply word_pow]|]. intros i. unfold union_ts. by rewrite Z.lor_spec, pow_bit by lia.
Qed.

Lemma ts_remove_is s el : word s → 0 ≤ el < 64 → ∃ s', ts_remove (E := E) checks s el = Ok s' ∧ word s' ∧
  ∀ i, 0 ≤ i → Z.testbit s' i = Z.testbit s i && negb (bool_decide (el = i)).
Proof.
  intros Hs Hel. unfold ts_remove. rewrite singleton_is by done. cbn [res_bind]. eexists. split; [done|].
  split; [apply word_land; [done|apply word_complement]|]. intros i Hi. unfold intersect. rewrite Z.land_spec.
  destruct (decide (i < 64)); [by rewrite complement_bit, pow_bit by lia|].
  by rewrite (word_high s) by (done || lia).
Qed.

Lemma insert_mut_is s el : word s → 0 ≤ el < 64 → ∃ s', insert_mut (E := E) checks el s = (Ok (negb (Z.testbit s el)), s')
  ∧ word s' ∧ ∀ i, Z.testbit s' i = Z.testbit s i || bool_decide (el = i).
Proof.
  intros Hs Hel. destruct (ts_insert_is s el Hs Hel) as (s' & Hi & Hw & Hbits). exists s'. split; [|done].
  unfold insert_mut. rewrite st_bind_get, (st_bind_try (λ s, ts_insert checks s el) _ _ _ Hi), st_bind_set.
  unfold st_ret, id. do 3 f_equal.
  destruct (Z.testbit s el) eqn:Hb.
  - rewrite bool_decide_true; [done|]. apply Z.bits_inj'. intros i _. rewrite Hbits.
    case_bool_decide; subst; [by rewrite Hb|by rewrite orb_false_r].
  - rewrite bool_decide_false; [done|]. intros ->. rewrite Hbits, bool_decide_true, orb_true_r in Hb by done. done.
Qed.

Lemma remove_mut_is s el : word s → 0 ≤ el < 64 → ∃ s', remove_mut (E := E) checks el s = (Ok (Z.testbit s el), s')
  ∧ word s' ∧ ∀ i, 0 ≤ i → Z.testbit s' i = Z.testbit s i && negb (bool_decide (el = i)).
Proof.
  intros Hs Hel. destruct (ts_remove_is s el Hs Hel) as (s' & Hi & Hw & Hbits). exists s'. split; [|done].
  unfold remove_mut. rewrite st_bind_get, (st_bind_try (λ s, ts_remove checks s el) _ _ _ Hi), st_bind_set.
  unfold st_ret, id. do 2 f_equal.
  destruct (Z.testbit s el) eqn:Hb.
  - rewrite bool_decide_false; [done|]. intros ->. rewrite Hbits, bool_decide_true, andb_false_r in Hb by (done || lia). done.
  - rewrite bool_decide_true; [done|]. apply Z.bits_inj'. intros i Hi0. rewrite Hbits by done.
    case_bool_decide; subst; [by rewrite Hb|by rewrite andb_true_r].
Qed.

Lemma elems_nil s : word s → elems s = [] → s = 0.
Proof.
  intros Hs Hn. apply word_ext; [done|by split|]. intros i Hi. rewrite Z.bits_0.
  destruct (Z.testbit s i) eqn:Hb; [|done]. assert (i ∈ elems s) as Hin by by apply elem_of_elems.
  rewrite Hn in Hin. by apply not_elem_of_nil in Hin.
Qed.

(** The lowest element leaves, the others stay in order. *)
Lemma pop_lowest_is s : word s → match elems s with
  | [] => pop_lowest (E := E) checks s = (Ok None, s)
  | el :: l => ∃ s', pop_lowest (E := E) checks s = (Ok (Some el), s') ∧ word s' ∧ elems s' = l
  end.
Proof.
  intros Hs. unfold pop_lowest. rewrite st_bind_get. unfold ts_is_empty.
  destruct (elems s) as [|el l] eqn:He.
  { apply elems_nil in He as ->; done. }
  assert (el ∈ elems s) as Hel by (rewrite He; by left). apply elem_of_elems in Hel as [Hel Hb].
  rewrite bool_decide_false by (intros ->; by rewrite Z.bits_0 in Hb).
  assert (NoDup bits64) as Hnd by apply NoDup_seqZ.
  unfold elems in He. rewrite st_bind_get. unfold trailing_zeros.
  destruct (list_find _ bits64) as [[k x]|] eqn:Hf.
  2:{ apply list_find_None in Hf. rewrite list.Forall_forall in Hf. destruct (Hf el); [|done]. apply elem_of_seqZ. lia. }
  destruct (proj1 (list_find_Some _ _ _ _) Hf) as (Hk & Hx & Hbefore).
  destruct (list_elem_of_split_length _ _ _ Hk) as (l1 & l2 & Hsplit & ->).
  assert (Forall (λ i, ¬ Z.testbit s i = true) l1) as Hl1.
  { apply Forall_lookup. intros i y Hy. eapply Hbefore; [|by eapply lookup_lt_Some].
    rewrite Hsplit. by apply lookup_app_l_Some. }
  rewrite Hsplit in He, Hnd. rewrite filter_app, filter_cons_True in He by done.
  assert (filter (λ i, Z.testbit s i = true) l1 = []) as Hnone.
  { clear -Hl1. induction Hl1 as [|y l1 Hy _ IH]; [done|]. by rewrite filter_cons_False. }
  rewrite Hnone in He. injection He as -> <-.
  rewrite (st_bind_try (λ _, singleton checks el) _ _ _ (singleton_is checks el Hel)), st_bind_set. eexists. split; [done|].
  assert (∀ i, Z.testbit (Z.lxor s (2 ^ el)) i = Z.testbit s i && negb (bool_decide (el = i))) as Hbits.
  { intros i. rewrite Z.lxor_spec, pow_bit by lia. case_bool_decide; subst; [by rewrite Hb|].
    by rewrite xorb_false_r, andb_true_r. }
  split.
  - apply word_bits; [apply Z.lxor_nonneg; destruct Hs; split; intros; lia|]. intros i Hi.
    by rewrite Hbits, word_high.
  - apply list.NoDup_app in Hnd as (_ & Hdis & Hnd). apply NoDup_cons in Hnd as [Hnel _].
    unfold elems. rewrite Hsplit, filter_app, filter_cons_False
      by (rewrite Hbits, bool_decide_true, andb_false_r; done).
    rewrite (filter_agree _ (λ i, Z.testbit s i = true) l1), Hnone; [apply filter_agree|].
    + intros i Hi. rewrite Hbits, bool_decide_false, andb_true_r; [done|]. by intros ->.
    + intros i Hi. rewrite Hbits, bool_decide_false, andb_true_r; [done|]. intros ->.
      apply (Hdis i Hi). by left.
Qed.

Lemma ts_collect_is fuel s : word s → (length (elems s) < fuel)%nat → ts_collect (E := E) checks fuel s = Ok (elems s).
Proof.
  revert s. induction fuel as [|fuel IH]; intros s Hs Hf; [lia|]. pose proof (pop_lowest_is s Hs) as Hpop.
  cbn [ts_collect]. destruct (elems s) as [|el l]; [by rewrite Hpop|].
  destruct Hpop as (s' & -> & Hs' & <-). rewrite IH; [done|done|simpl in Hf; lia].
Qed.

Lemma length_elems s : (length (elems s) ≤ 64)%nat.
Proof. unfold elems. etrans; [apply length_filter|]. done. Qed.

Lemma ts_collect_64 s : word s → ts_collect (E := E) checks 65 s = Ok (elems s).
Proof. intros Hs. apply ts_collect_is; [done|]. pose proof (length_elems s). lia. Qed.
End tiny_laws.

(** * The set of a slice of words *)

Fixpoint elements_from (k : nat) (tss : list TinySet) : list Z :=
  match tss with
  | [] => []
  | s :: tss => ((λ i, i + Z.of_nat k * 64) <$> elems s) ++ elements_from (S k) tss
  end.

(** A number and the place of its bit *)
Lemma split64 e j r : 0 ≤ r < 64 → e = Z.of_nat j * 64 + r ↔ 0 ≤ e ∧ Z.to_nat (e `div` 64) = j ∧ e `mod` 64 = r.
Proof.
  intros Hr. pose proof (Z.div_mod e 64 ltac:(lia)) as Hd. pose proof (Z.mod_pos_bound e 64 ltac:(lia)). split.
  - intros He. assert (e `div` 64 = Z.of_nat j) as Hj by (symmetry; apply Z.div_unique with r; lia). lia.
  - intros (He & <- & <-). rewrite Z2Nat.id by (apply Z.div_pos; lia). lia.
Qed.

Lemma elem_of_from e k tss : e ∈ elements_from k tss ↔
  ∃ j s r, tss !! j = Some s ∧ 0 ≤ r < 64 ∧ Z.testbit s r = true ∧ e = Z.of_nat (k + j) * 64 + r.
Proof.
  revert k. induction tss as [|s tss IH]; intros k; cbn [elements_from].
  - split; [by intros ?%not_elem_of_nil|by intros (? & ? & ? & ? & _)].
  - rewrite elem_of_app, list_elem_of_fmap, IH. split.
    + intros [(i & -> & [Hi Hb]%elem_of_elems)|(j & s' & r & Hj & Hr & Hb & ->)].
      * exists 0%nat, s, i. rewrite Nat.add_0_r. split_and!; [done|lia|lia|done|lia].
      * exists (S j), s', r. split_and!; [done|lia|lia|done|lia].
    + intros (j & s' & r & Hj & Hr & Hb & ->). destruct j as [|j].
      * left. injection Hj as <-. exists r. rewrite elem_of_elems. split; [lia|]. by split; [lia|].
      * right. exists j, s', r. split_and!; [done|lia|lia|done|lia].
Qed.

Lemma elem_of_set e tss : e ∈ elements_from 0 tss ↔
  0 ≤ e ∧ ∃ s, tss !! Z.to_nat (e `div` 64) = Some s ∧ Z.testbit s (e `mod` 64) = true.
Proof.
  rewrite elem_of_from. split.
  - intros (j & s & r & Hj & Hr & Hb & He). cbn [Nat.add] in He. apply split64 in He as (He & <- & <-); [|done]. eauto.
  - intros (He & s & Hs & Hb). pose proof (Z.mod_pos_bound e 64 ltac:(lia)).
    exists (Z.to_nat (e `div` 64)), s, (e `mod` 64). split_and!; [done|lia|lia|done|]. cbn [Nat.add]. by apply split64.
Qed.

Lemma sorted_elems s : StronglySorted Z.lt (elems s).
Proof.
  unfold elems. assert (StronglySorted Z.lt bits64) as Hs.
  { unfold bits64. generalize 64 0. clear. intros n m. unfold seqZ.
    assert (∀ l (k : nat), StronglySorted Z.lt ((λ i : nat, Z.add (Z.of_nat i) m) <$> seq k l)) as Hs; [|apply Hs].
    induction l as [|l IH]; intros k; constructor; [apply IH|]. apply Forall_fmap, list.Forall_forall.
    intros i Hi%elem_of_seq. cbn. lia. }
  induction Hs as [|i l _ IH Hl]; [constructor|]. rewrite filter_cons. destruct (decide _); [|done].
  constructor; [done|]. apply list.Forall_forall. intros j [_ Hj]%list_elem_of_filter.
  by apply (proj1 (list.Forall_forall _ _) Hl).
Qed.

Lemma sorted_from k tss : StronglySorted Z.lt (elements_from k tss).
Proof.
  revert k. induction tss as [|s tss IH]; intros k; cbn [elements_from]; [constructor|].
  pose proof (IH (S k)) as Hrest.
  assert (Forall (λ i, 0 ≤ i < 64) (elems s)) as Hb by (apply list.Forall_forall; intros i [Hi _]%elem_of_elems; done).
  induction (sorted_elems s) as [|i l _ IHl Hl]; [done|]. cbn [fmap list_fmap app].
  apply Forall_cons in Hb as [Hi Hb]. constructor; [by apply IHl|]. apply Forall_app. split.
  - apply Forall_fmap. eapply list.Forall_impl; [exact Hl|]. cbn. lia.
  - apply list.Forall_forall. intros e (j & s' & r & _ & Hr & _ & ->)%elem_of_from. lia.
Qed.

Lemma sorted_nodup l : StronglySorted Z.lt l → NoDup l.
Proof.
  induction 1 as [|x l _ IH Hl]; constructor; [|done]. intros Hx.
  pose proof (proj1 (list.Forall_forall _ _) Hl _ Hx). lia.
Qed.

(** The set *)
Definition set_of (tss : list TinySet) : gset Z := list_to_set (elements_from 0 tss).

Lemma elem_of_set_of e tss : e ∈ set_of tss ↔
  0 ≤ e ∧ ∃ s, tss !! Z.to_nat (e `div` 64) = Some s ∧ Z.testbit s (e `mod` 64) = true.
Proof. unfold set_of. by rewrite elem_of_list_to_set, elem_of_set. Qed.

Lemma size_set_of tss : size (set_of tss) = length (elements_from 0 tss).
Proof. apply size_list_to_set, sorted_nodup, sorted_from. Qed.

Lemma length_from k tss : Z.of_nat (length (elements_from k tss)) = foldr (λ s n, ts_len s + n) 0 tss.
Proof.
  revert k. induction tss as [|s tss IH]; intros k; [done|]. cbn [elements_from foldr].
  rewrite length_app, length_fmap, Nat2Z.inj_add, IH. done.
Qed.

Lemma length_from_bound k tss : (length (elements_from k tss) ≤ 64 * length tss)%nat.
Proof.
  revert k. induction tss as [|s tss IH]; intros k; [simpl; lia|]. cbn [elements_from length].
  rewrite length_app, length_fmap. pose proof (length_elems s). specialize (IH (S k)). lia.
Qed.

(** * The representation of a set of numbers under [max] *)

Definition buckets_of (max : Z) : nat := Z.to_nat ((max + 63) `div` 64).

Record repr (max : Z) (X : gset Z) (b : BitSet) : Prop := mk_repr {
  rp_max : bs_max_value b = max;
  rp_words : Forall word (tinysets b);
  rp_buckets : length (tinysets b) = buckets_of max;
  rp_set : set_of (tinysets b) = X;
  rp_len : bs_len b = Z.of_nat (size X);
  rp_below : ∀ e, e ∈ X → e < max;
}.

(** The maximum a set can be made for *)
Definition max_ok (max : Z) : Prop := 0 ≤ max ≤ 2 ^ 32 - 64.

Lemma buckets_bound max : max_ok max → max ≤ 64 * Z.of_nat (buckets_of max) < max + 64.
Proof.
  intros Hm. unfold buckets_of, max_ok in *. pose proof (Z.div_mod (max + 63) 64 ltac:(lia)).
  pose proof (Z.mod_pos_bound (max + 63) 64 ltac:(lia)). lia.
Qed.

Lemma num_buckets_is {E} checks max : max_ok max → num_buckets (E := E) checks max = Ok (Z.of_nat (buckets_of max)).
Proof.
  intros Hm. unfold num_buckets, buckets_of, max_ok in *. rewrite fit_word_in by lia. cbn [res_bind].
  rewrite Z2Nat.id by (apply Z.div_pos; lia). done.
Qed.

Lemma repr_size max X b : max_ok max → repr max X b → Z.of_nat (size X) < 2 ^ 32.
Proof.
  intros Hm [_ _ Hb <- _ _]. rewrite size_set_of. pose proof (length_from_bound 0 (tinysets b)).
  pose proof (buckets_bound max Hm). unfold max_ok in Hm. rewrite Hb in *. lia.
Qed.

(** The bucket of an element *)
Lemma repr_bucket max X b el : max_ok max → repr max X b → 0 ≤ el < max →
  ∃ s, tinysets b !! Z.to_nat (el `div` 64) = Some s ∧ word s ∧ Z.testbit s (el `mod` 64) = bool_decide (el ∈ X)
    ∧ 0 ≤ el `mod` 64 < 64.
Proof.
  intros Hm [_ Hw Hb <- _ _] Hel. pose proof (buckets_bound max Hm).
  pose proof (Z.div_mod el 64 ltac:(lia)). pose proof (Z.mod_pos_bound el 64 ltac:(lia)).
  assert (0 ≤ el `div` 64) by (apply Z.div_pos; lia).
  destruct (lookup_lt_is_Some_2 (tinysets b) (Z.to_nat (el `div` 64))) as [s Hs]; [lia|]. exists s.
  split_and!; [done|apply (proj1 (Forall_lookup _ _) Hw _ _ Hs)..| |lia|lia].
  case_bool_decide as Hin.
  - apply elem_of_set_of in Hin as (_ & s' & Hs' & Hbit). by simplify_eq.
  - destruct (Z.testbit s (el `mod` 64)) eqn:Hbit; [|done]. destruct Hin. apply elem_of_set_of. split; [lia|eauto].
Qed.

(** A bucket that is changed: the elements of the others stay. *)
Lemma set_of_insert tss el s' : 0 ≤ el → (Z.to_nat (el `div` 64) < length tss)%nat →
  ∀ e, e ∈ set_of (<[Z.to_nat (el `div` 64) := s']> tss) ↔
    0 ≤ e ∧ if decide (e `div` 64 = el `div` 64) then Z.testbit s' (e `mod` 64) = true else e ∈ set_of tss.
Proof.
  intros Hel Hlt e. rewrite elem_of_set_of. destruct (decide (0 ≤ e)); [|naive_solver].
  assert (0 ≤ el `div` 64) by (apply Z.div_pos; lia). assert (0 ≤ e `div` 64) by (apply Z.div_pos; lia).
  destruct (decide (e `div` 64 = el `div` 64)) as [->|Hne].
  - rewrite list_lookup_insert_eq by done. naive_solver.
  - rewrite list_lookup_insert_ne by lia. rewrite elem_of_set_of. naive_solver.
Qed.

Lemma same_place e el : e `div` 64 = el `div` 64 → el `mod` 64 = e `mod` 64 → e = el.
Proof. intros Hd Hm. rewrite (Z.div_mod e 64), (Z.div_mod el 64), Hd, Hm by lia. done. Qed.

(** * The operations on the set *)

Section bitset_laws.
Context {E : Type}.
Variable checks : bool.
Variable max : Z.
Hypothesis max_is_ok : max_ok max.

Lemma set_of_zeros n : set_of (replicate n 0) = ∅.
Proof.
  apply set_eq. intros e. rewrite elem_of_set_of. split; [|by intros ?%not_elem_of_empty].
  intros (_ & s & [-> _]%lookup_replicate & Hb). by rewrite Z.bits_0 in Hb.
Qed.

Lemma with_max_value_repr : ∃ b, with_max_value (E := E) checks max = Ok b ∧ repr max ∅ b.
Proof.
  unfold with_max_value. rewrite num_buckets_is by done. cbn [res_bind]. eexists. split; [done|].
  rewrite Nat2Z.id. split; cbn [bs_max_value tinysets bs_len].
  - done.
  - by apply Forall_replicate.
  - apply length_replicate.
  - apply set_of_zeros.
  - by rewrite size_empty.
  - intros e He. by apply not_elem_of_empty in He.
Qed.

Lemma clear_words tss : (λ _ : TinySet, ts_empty) <$> tss = replicate (length tss) 0.
Proof. induction tss as [|s tss IH]; [done|]. cbn. by f_equal. Qed.

Lemma insert_repr el X b : 0 ≤ el < max → repr max X b →
  ∃ b', bs_insert (E := E) checks el b = (Ok tt, b') ∧ repr max ({[ el ]} ∪ X) b'.
Proof.
  intros Hel Hb. destruct (repr_bucket max X b el max_is_ok Hb Hel) as (s & Hs & Hword & Hbit & Hlow).
  pose proof (repr_size max X b max_is_ok Hb). destruct Hb as [Hmax Hwords Hbuckets Hset Hlen Hbelow].
  destruct (insert_mut_is (E := E) checks s (el `mod` 64) Hword Hlow) as (s' & Hins & Hword' & Hbits).
  unfold bs_insert. set (h := Z.to_nat (el `div` 64)) in *.
  assert (on_tinysets (at_mut h (insert_mut (E := E) checks (el `mod` 64))) b
    = (Ok (negb (bool_decide (el ∈ X))), set_tinysets (λ _, <[h := s']> (tinysets b)) b)) as Hon.
  { unfold on_tinysets, at_mut. by rewrite Hs, Hins, Hbit. }
  rewrite (st_bind_ok _ _ _ _ _ Hon).
  assert (Z.of_nat (size ({[ el ]} ∪ X)) = bs_len b + Z.b2z (negb (bool_decide (el ∈ X)))) as Hsize.
  { rewrite Hlen. case_bool_decide as Hin.
    - assert ({[ el ]} ∪ X = X) as -> by set_solver. simpl. lia.
    - rewrite size_union by set_solver. rewrite size_singleton. simpl. lia. }
  rewrite (st_bind_try _ _ _ (bs_len b + Z.b2z (negb (bool_decide (el ∈ X)))))
    by (apply fit_word_in; cbn [bs_len set_tinysets]; destruct (bool_decide _); simpl; lia).
  eexists. split; [done|]. split; cbn [bs_max_value tinysets bs_len set_tinysets set_len].
  - done.
  - by apply Forall_insert.
  - by rewrite length_insert.
  - apply set_eq. intros e. unfold h.
    rewrite set_of_insert by (lia || by eapply lookup_lt_Some). rewrite elem_of_union, elem_of_singleton, <- Hset.
    destruct (decide (e `div` 64 = el `div` 64)) as [Hd|Hd].
    + rewrite Hbits, elem_of_set_of, Hd. fold h. rewrite Hs. split.
      * intros [He Hor]. destruct (Z.testbit s (e `mod` 64)) eqn:Hbe; [right; eauto|]. left.
        cbn in Hor. apply bool_decide_eq_true in Hor. by apply same_place.
      * intros [->|(He & s0 & Hs0 & Hbe)]; [rewrite bool_decide_true, orb_true_r by done; split; [lia|done]|].
        simplify_eq. rewrite Hbe. done.
    + split; [naive_solver|]. intros [->|He]; [done|]. split; [|done]. by apply elem_of_set_of in He as [? _].
  - by rewrite Hsize.
  - intros e. rewrite elem_of_union, elem_of_singleton. intros [->|He]; [lia|auto].
Qed.

Lemma remove_repr el X b : 0 ≤ el < max → repr max X b →
  ∃ b', bs_remove (E := E) checks el b = (Ok tt, b') ∧ repr max (X ∖ {[ el ]}) b'.
Proof.
  intros Hel Hb. destruct (repr_bucket max X b el max_is_ok Hb Hel) as (s & Hs & Hword & Hbit & Hlow).
  pose proof (repr_size max X b max_is_ok Hb). destruct Hb as [Hmax Hwords Hbuckets Hset Hlen Hbelow].
  destruct (remove_mut_is (E := E) checks s (el `mod` 64) Hword Hlow) as (s' & Hrem & Hword' & Hbits).
  unfold bs_remove. set (h := Z.to_nat (el `div` 64)) in *.
  assert (on_tinysets (at_mut h (remove_mut (E := E) checks (el `mod` 64))) b
    = (Ok (bool_decide (el ∈ X)), set_tinysets (λ _, <[h := s']> (tinysets b)) b)) as Hon.
  { unfold on_tinysets, at_mut. by rewrite Hs, Hrem, Hbit. }
  rewrite (st_bind_ok _ _ _ _ _ Hon).
  assert (Z.of_nat (size (X ∖ {[ el ]})) = bs_len b - Z.b2z (bool_decide (el ∈ X))) as Hsize.
  { rewrite Hlen. case_bool_decide as Hin.
    - rewrite size_difference by set_solver. rewrite size_singleton.
      assert (size X ≠ 0%nat) by (intros H0%size_empty_inv; set_solver). simpl. lia.
    - assert (X ∖ {[ el ]} = X) as -> by set_solver. simpl. lia. }
  rewrite (st_bind_try _ _ _ (bs_len b - Z.b2z (bool_decide (el ∈ X))))
    by (apply fit_word_in; cbn [bs_len set_tinysets]; rewrite <- Hsize;
        pose proof (subseteq_size (X ∖ {[ el ]}) X ltac:(set_solver)); lia).
  eexists. split; [done|]. split; cbn [bs_max_value tinysets bs_len set_tinysets set_len].
  - done.
  - by apply Forall_insert.
  - by rewrite length_insert.
  - apply set_eq. intros e. unfold h.
    rewrite set_of_insert by (lia || by eapply lookup_lt_Some). rewrite elem_of_difference, elem_of_singleton, <- Hset.
    pose proof (Z.mod_pos_bound e 64 ltac:(lia)).
    destruct (decide (e `div` 64 = el `div` 64)) as [Hd|Hd].
    + rewrite Hbits, elem_of_set_of, Hd by lia. fold h. rewrite Hs. split.
      * intros [He [Hbe Hne]%andb_prop]. split; [eauto|]. intros ->. by rewrite bool_decide_true in Hne.
      * intros [(He & s0 & Hs0 & Hbe) Hne]. simplify_eq. rewrite Hbe, bool_decide_false; [done|].
        intros Hm. apply Hne. by apply same_place.
    + split; [|intros [He Hne]; split; [by apply elem_of_set_of in He as [? _]|done]].
      intros [He Hin]. split; [done|]. by intros ->.
  - by rewrite Hsize.
  - intros e [He _]%elem_of_difference. auto.
Qed.

Lemma contains_repr el X b : 0 ≤ el < max → repr max X b →
  bs_contains (E := E) checks b el = Ok (bool_decide (el ∈ X)).
Proof.
  intros Hel Hb. destruct (repr_bucket max X b el max_is_ok Hb Hel) as (s & Hs & Hword & Hbit & Hlow).
  unfold bs_contains, bs_tinyset, at_index. rewrite Hs. cbn [res_bind]. by rewrite ts_contains_is, Hbit.
Qed.

(** ** The intersection *)

Lemma intersect_loop_is l1 l2 len : length l1 = length l2 → Forall word l1 →
  0 ≤ len → len + 64 * Z.of_nat (length l1) < 2 ^ 64 →
  intersect_loop (E := E) checks l1 l2 len
  = Ok (zip_with intersect l1 l2, len + foldr (λ s n, ts_len s + n) 0 (zip_with intersect l1 l2)).
Proof.
  revert l2 len. induction l1 as [|s l1 IH]; intros [|r l2] len Hl Hw Hlen Hmax; try done.
  - cbn. by rewrite Z.add_0_r.
  - injection Hl as Hl. apply Forall_cons in Hw as [Hs Hw]. cbn [length] in Hmax. cbn [intersect_loop zip_with foldr].
    pose proof (length_elems (intersect s r)) as H64. unfold elems in H64.
    assert (0 ≤ ts_len (intersect s r) ≤ 64) by (unfold ts_len, count_ones; lia).
    rewrite fit_word_in by lia. cbn [res_bind]. rewrite IH by (done || lia). cbn [res_bind]. do 2 f_equal. lia.
Qed.

Lemma set_of_intersect l1 l2 : set_of (zip_with intersect l1 l2) = set_of l1 ∩ set_of l2.
Proof.
  apply set_eq. intros e. rewrite elem_of_intersection, !elem_of_set_of.
  rewrite lookup_zip_with. unfold intersect. pose proof (Z.mod_pos_bound e 64).
  destruct (l1 !! _) as [s|], (l2 !! _) as [r|]; cbn; try naive_solver.
  split.
  - intros (He & x & [= <-] & Hb). rewrite Z.land_spec in Hb. apply andb_prop in Hb as [Hb1 Hb2]. naive_solver.
  - intros [(He & x & [= <-] & Hb1) (_ & y & [= <-] & Hb2)]. split; [done|]. eexists. split; [done|].
    by rewrite Z.land_spec, Hb1, Hb2.
Qed.

Lemma words_intersect l1 l2 : Forall word l1 → Forall word l2 → Forall word (zip_with intersect l1 l2).
Proof.
  intros H1. revert l2. induction H1 as [|s l1 Hs _ IH]; intros l2 H2; [constructor|].
  destruct H2 as [|r l2 Hr H2]; constructor; [by apply word_land|by apply IH].
Qed.

Lemma intersect_repr other X Y b : repr max X b → Forall word other → length other = length (tinysets b) →
  set_of other = Y →
  ∃ b', intersect_update_with_iter (E := E) checks other b = (Ok tt, b') ∧ repr max (X ∩ Y) b'.
Proof.
  intros [Hmax Hwords Hbuckets <- Hlen Hbelow] Ho Hl <-. pose proof (buckets_bound max max_is_ok).
  pose proof max_is_ok as Hm. unfold max_ok in Hm. unfold intersect_update_with_iter.
  rewrite (st_bind_try (λ b, intersect_loop checks (tinysets b) other 0) _ _ _
             (intersect_loop_is _ _ 0 (eq_sym Hl) Hwords ltac:(lia) ltac:(lia))).
  eexists. split; [done|]. split; cbn [bs_max_value tinysets bs_len set_tinysets set_len].
  - done.
  - by apply words_intersect.
  - rewrite length_zip_with. lia.
  - apply set_of_intersect.
  - by rewrite <- set_of_intersect, size_set_of, length_from.
  - intros e [He _]%elem_of_intersection. auto.
Qed.
End bitset_laws.

Lemma full_word i : 0 ≤ i → Z.testbit ts_full i = bool_decide (i < 64).
Proof.
  intros Hi. unfold ts_full. case_bool_decide.
  - by rewrite complement_bit, Z.bits_0 by lia.
  - apply word_high; [apply word_complement|lia].
Qed.

Lemma range_lower_is {E} checks n : 0 ≤ n < 64 → range_lower (E := E) checks n = Ok (Z.ones n).
Proof.
  intros Hn. unfold range_lower. rewrite Z.mod_small by lia.
  change (shl_word checks 64 1 n) with (singleton (E := E) checks n). rewrite singleton_is by done. cbn [res_bind].
  assert (0 < 2 ^ n) by (apply Z.pow_pos_nonneg; lia). pose proof (word_pow n Hn) as Hw. unfold word in Hw.
  rewrite fit_word_in by lia. by rewrite Z.ones_equiv, Z.sub_1_r.
Qed.

Lemma range_greater_is {E} checks n : 0 ≤ n < 64 → ∃ s, range_greater_or_equal (E := E) checks n = Ok s ∧
  ∀ i, 0 ≤ i < 64 → Z.testbit s i = bool_decide (n ≤ i).
Proof.
  intros Hn. unfold range_greater_or_equal. rewrite range_lower_is by done. eexists. split; [done|].
  intros i Hi. rewrite complement_bit by done. case_bool_decide.
  - by rewrite Z.ones_spec_high by lia.
  - by rewrite Z.ones_spec_low by lia.
Qed.

(** Word [j] of a full set *)
Lemma full_repr {E} checks max : max_ok max → ∃ b, with_max_value_and_full (E := E) checks max = Ok b ∧
  repr max (list_to_set (seqZ 0 max)) b.
Proof.
  intros Hm. pose proof (buckets_bound max Hm) as Hbb. pose proof Hm as Hm'. unfold max_ok in Hm'.
  pose proof (Z.div_mod max 64 ltac:(lia)) as Hdm. pose proof (Z.mod_pos_bound max 64 ltac:(lia)) as Hmb.
  set (n := buckets_of max) in *.
  assert (∃ tss, with_max_value_and_full (E := E) checks max = Ok (mkBitSet tss max max) ∧ length tss = n ∧
    Forall word tss ∧ ∀ j, (j < n)%nat → ∃ s, tss !! j = Some s ∧
      ∀ i, 0 ≤ i < 64 → Z.testbit s i = bool_decide (Z.of_nat j * 64 + i < max)) as (tss & -> & Hl & Hw & Hbits).
  { unfold with_max_value_and_full. rewrite num_buckets_is by done. cbn [res_bind]. fold n. rewrite Nat2Z.id.
    assert (Forall word (replicate n ts_full)) as Hfull by (apply Forall_replicate, word_complement).
    destruct (decide (max `mod` 64 = 0)) as [Hz|Hnz];
      [rewrite bool_decide_true by done|rewrite bool_decide_false by done].
    - exists (replicate n ts_full). split_and!; [done|apply length_replicate|done|].
      intros j Hj. exists ts_full. split; [by apply lookup_replicate_2|]. intros i Hi.
      rewrite full_word, bool_decide_true by lia. symmetry. apply bool_decide_eq_true. lia.
    - rewrite bool_decide_false by (destruct n; [lia|done]).
      rewrite range_lower_is by lia. cbn [res_bind]. rewrite write_at_Ok by (rewrite length_replicate; lia). cbn [res_bind].
      rewrite length_replicate. eexists. split_and!; [done|by rewrite length_insert, length_replicate| |].
      + apply Forall_insert; [done|]. apply word_bits; [rewrite Z.ones_equiv; assert (0 < 2 ^ (max `mod` 64)) by (apply Z.pow_pos_nonneg; lia); lia|].
        intros i Hi. apply Z.ones_spec_high. lia.
      + intros j Hj. destruct (decide (j = n - 1)%nat) as [->|Hne].
        * exists (Z.ones (max `mod` 64)). rewrite list_lookup_insert_eq by (rewrite length_replicate; lia).
          split; [done|]. intros i Hi. case_bool_decide; [apply Z.ones_spec_low|apply Z.ones_spec_high]; lia.
        * exists ts_full. rewrite list_lookup_insert_ne by done. split; [by apply lookup_replicate_2|]. intros i Hi.
          rewrite full_word, bool_decide_true by lia. symmetry. apply bool_decide_eq_true. lia. }
  assert (set_of tss = list_to_set (seqZ 0 max)) as Hset.
  { apply set_eq. intros e. rewrite elem_of_set_of, elem_of_list_to_set, elem_of_seqZ.
    pose proof (Z.div_mod e 64 ltac:(lia)). pose proof (Z.mod_pos_bound e 64 ltac:(lia)). split.
    - intros (He & s & Hs & Hb). assert (0 ≤ e `div` 64) by (apply Z.div_pos; lia).
      destruct (Hbits (Z.to_nat (e `div` 64))) as (s' & Hs' & Hbit); [rewrite <- Hl; by eapply lookup_lt_Some|].
      simplify_eq. rewrite Hbit in Hb by lia. apply bool_decide_eq_true in Hb. lia.
    - intros He. assert (0 ≤ e `div` 64) by (apply Z.div_pos; lia). split; [lia|].
      destruct (Hbits (Z.to_nat (e `div` 64))) as (s & Hs & Hbit); [lia|]. exists s. split; [done|].
      rewrite Hbit by lia. apply bool_decide_eq_true. lia. }
  exists (mkBitSet tss max max). split; [done|]. split; cbn [bs_max_value tinysets bs_len]; [done|done|done|done| |].
  - rewrite size_list_to_set by apply NoDup_seqZ. rewrite length_seqZ. lia.
  - intros e. rewrite elem_of_list_to_set, elem_of_seqZ. lia.
Qed.

(** The first bucket, from [bucket] on, that has an element *)
Lemma first_bucket_repr {E} checks max X b bucket : max_ok max → repr max X b →
  0 ≤ bucket ≤ Z.of_nat (buckets_of max) →
  ∃ q, first_non_empty_bucket (E := E) checks b bucket = Ok q ∧ match q with
  | Some q => bucket ≤ q ∧ (∃ e, e ∈ X ∧ e `div` 64 = q) ∧ (∀ e, e ∈ X → bucket ≤ e `div` 64 → q ≤ e `div` 64)
  | None => ∀ e, e ∈ X → e `div` 64 < bucket
  end.
Proof.
  intros Hm [Hmax Hwords Hbuckets <- Hlen Hbelow] Hbucket. unfold first_non_empty_bucket.
  pose proof (buckets_bound max Hm). pose proof Hm as Hm'. unfold max_ok in Hm'.
  rewrite slice_Ok by lia. cbn [res_bind]. rewrite take_ge by (rewrite length_drop; lia).
  assert (∀ e, e ∈ set_of (tinysets b) → 0 ≤ e `div` 64 ∧ bucket ≤ e `div` 64 → ∃ s,
    drop (Z.to_nat bucket) (tinysets b) !! (Z.to_nat (e `div` 64) - Z.to_nat bucket)%nat = Some s ∧ ts_is_empty s = false) as Hin.
  { intros e (He & s & Hs & Hb)%elem_of_set_of Hle. exists s. rewrite lookup_drop.
    replace (Z.to_nat bucket + (Z.to_nat (e `div` 64) - Z.to_nat bucket))%nat with (Z.to_nat (e `div` 64)) by lia.
    split; [done|]. unfold ts_is_empty. apply bool_decide_eq_false. intros ->. by rewrite Z.bits_0 in Hb. }
  assert (∀ e, e ∈ set_of (tinysets b) → 0 ≤ e `div` 64) as Hpos
    by (intros e [? _]%elem_of_set_of; apply Z.div_pos; lia).
  destruct (list_find _ _) as [[d s]|] eqn:Hf.
  - apply list_find_Some in Hf as (Hd & Hs & Hbefore). rewrite lookup_drop in Hd.
    pose proof (lookup_lt_Some _ _ _ Hd). pose proof (proj1 (Forall_lookup _ _) Hwords _ _ Hd) as Hword.
    unfold as_u32. rewrite Z.mod_small by lia. rewrite fit_word_in by lia. cbn [res_bind].
    exists (Some (bucket + Z.of_nat d)). split; [done|]. split; [lia|]. split.
    + destruct (elems s) as [|r l] eqn:He.
      { apply elems_nil in He; [|done]. subst s. discriminate Hs. }
      assert (r ∈ elems s) as [Hr Hb]%elem_of_elems by (rewrite He; by left).
      destruct (proj1 (split64 _ (Z.to_nat bucket + d) r Hr) eq_refl) as (Hp & Hq & Hmod).
      exists (Z.of_nat (Z.to_nat bucket + d) * 64 + r). set (e := Z.of_nat (Z.to_nat bucket + d) * 64 + r) in *.
      assert (0 ≤ e `div` 64) by (apply Z.div_pos; lia). split; [|lia]. apply elem_of_set_of. rewrite Hq, Hmod. eauto.
    + intros e He Hle. pose proof (Hpos e He). destruct (decide (bucket + Z.of_nat d ≤ e `div` 64)); [done|].
      destruct (Hin e He) as (s' & Hs' & Hne); [done|]. exfalso. by apply (Hbefore _ _ Hs'); [lia|].
  - apply list_find_None in Hf. exists None. split; [done|]. intros e He. pose proof (Hpos e He).
    destruct (decide (e `div` 64 < bucket)); [done|]. destruct (Hin e He) as (s & Hs & Hne); [lia|].
    exfalso. by apply (proj1 (Forall_lookup _ _) Hf _ _ Hs).
Qed.

(** * The serialized set *)

Record ro_repr (max : Z) (X : gset Z) (r : ReadOnlyBitSet) : Prop := mk_ro_repr {
  rr_max : ro_max_value r = max;
  rr_data : ro_data r = le_bytes 8 (iter_tinysets r);
  rr_words : Forall word (iter_tinysets r);
  rr_buckets : length (iter_tinysets r) = buckets_of max;
  rr_set : set_of (iter_tinysets r) = X;
  rr_below : ∀ e, e ∈ X → e < max;
}.

Lemma chunks_of_words size tss : Forall (λ s, 0 ≤ s < 256 ^ Z.of_nat size) tss →
  from_le <$> chunks_exact (length tss) size (le_bytes size tss) = tss.
Proof.
  induction 1 as [|s tss Hs _ IH]; [done|]. cbn [length chunks_exact].
  change (le_bytes size (s :: tss)) with (to_le size s ++ le_bytes size tss).
  rewrite take_app_length' by by rewrite length_to_le. rewrite drop_app_length' by by rewrite length_to_le.
  rewrite fmap_cons, IH, from_to_le by done. done.
Qed.

Lemma iter_of_words tss m : Forall word tss → iter_tinysets (mkReadOnlyBitSet (le_bytes 8 tss) m) = tss.
Proof.
  intros Hw. unfold iter_tinysets, ts_deserialize. cbn [ro_data].
  rewrite length_le_bytes, Nat.mul_comm, Nat.div_mul by done. apply chunks_of_words. exact Hw.
Qed.

Lemma serialize_words {E} tss out :
  st_each (E := E) (λ s, vec_write_all (ts_into_bytes s)) tss out = (Ok tt, out ++ le_bytes 8 tss).
Proof.
  revert out. induction tss as [|s tss IH]; intros out; [by rewrite app_nil_r|].
  cbn [st_each]. unfold st_bind, vec_write_all at 1. rewrite IH. by rewrite <- app_assoc.
Qed.

Lemma serialize_is {E} b out : bs_serialize (E := E) vec_write_all (st_ret tt) b out
  = (Ok tt, out ++ to_le 4 (bs_max_value b) ++ le_bytes 8 (tinysets b)).
Proof.
  unfold bs_serialize. unfold st_bind, vec_write_all at 1. rewrite serialize_words. by rewrite <- app_assoc.
Qed.

Lemma ro_from_repr {E} max X b : max_ok max → repr max X b → ∃ r, ro_from (E := E) b = Ok r ∧ ro_repr max X r.
Proof.
  intros Hm [Hmax Hwords Hbuckets Hset Hlen Hbelow]. unfold ro_from.
  rewrite serialize_is. cbn [app].
  unfold ro_open, ob_split. unfold max_ok in Hm.
  rewrite slice_Ok by (rewrite ?length_app, ?length_to_le; lia). cbn [res_bind].
  rewrite slice_Ok by (rewrite ?length_app, ?length_to_le; lia). cbn [res_bind].
  rewrite drop_0, Nat.sub_0_r, take_app_length' by by rewrite length_to_le.
  rewrite drop_app_length' by by rewrite length_to_le.
  rewrite take_ge by (rewrite length_app, length_to_le; lia).
  rewrite bool_decide_true by (rewrite length_le_bytes, Nat.mul_comm, Nat.Div0.mod_mul; done).
  rewrite from_to_le by (change (256 ^ Z.of_nat 4) with (2 ^ 32); lia). eexists. split; [done|].
  split; cbn [ro_max_value ro_data]; rewrite ?iter_of_words by done; done.
Qed.

Section ro_laws.
Context {E : Type}.
Variable checks : bool.
Variables (max : Z) (X : gset Z) (r : ReadOnlyBitSet).
Hypothesis max_is_ok : max_ok max.
Hypothesis r_holds : ro_repr max X r.

Lemma sum_lens_is l acc : 0 ≤ acc → acc + 64 * Z.of_nat (length l) < 2 ^ 64 →
  sum_lens (E := E) checks l acc = Ok (acc + foldr (λ s n, ts_len s + n) 0 l).
Proof.
  revert acc. induction l as [|s l IH]; intros acc Ha Hl; cbn [sum_lens foldr length] in *; [by rewrite Z.add_0_r|].
  pose proof (length_elems s) as H64. unfold elems in H64.
  assert (0 ≤ ts_len s ≤ 64) by (unfold ts_len, count_ones; lia).
  rewrite fit_word_in by lia. cbn [res_bind]. rewrite IH by lia. f_equal. lia.
Qed.

Lemma ro_len_is : ro_len (E := E) checks r = Ok (Z.of_nat (size X)).
Proof.
  destruct r_holds as [_ _ _ Hb <- _]. pose proof (buckets_bound max max_is_ok). pose proof max_is_ok as Hm. unfold max_ok in Hm.
  unfold ro_len. rewrite sum_lens_is by lia. by rewrite size_set_of, length_from.
Qed.

Lemma chunk_docs_is base vals : Forall (λ v, 0 ≤ v + base < max) vals →
  chunk_docs (E := E) checks base max vals = Ok ((λ v, v + base) <$> vals).
Proof.
  intros Hv. pose proof max_is_ok as Hm. unfold max_ok in Hm.
  induction Hv as [|v vals Hv _ IH]; [done|]. cbn [chunk_docs]. rewrite fit_word_in by lia. cbn [res_bind].
  rewrite bool_decide_true by lia. rewrite IH. done.
Qed.

Lemma ro_docs_is k tss : Forall word tss → (k + length tss ≤ buckets_of max)%nat →
  (∀ e, e ∈ elements_from k tss → e < max) →
  ro_docs (E := E) checks k max tss = Ok (elements_from k tss).
Proof.
  intros Hw. revert k. pose proof (buckets_bound max max_is_ok). pose proof max_is_ok as Hm. unfold max_ok in Hm.
  induction Hw as [|s tss Hs _ IH]; intros k Hk Hbelow; [done|].
  cbn [ro_docs elements_from length] in *. unfold as_u32. rewrite Z.mod_small by lia.
  rewrite fit_word_in by lia. cbn [res_bind]. rewrite ts_collect_64 by done. cbn [res_bind].
  rewrite chunk_docs_is.
  - cbn [res_bind]. rewrite IH by (lia || (intros; apply Hbelow, elem_of_app; by right)). done.
  - apply list.Forall_forall. intros i Hi. pose proof (proj1 (elem_of_elems _ _) Hi) as [Hr _]. split; [lia|].
    apply Hbelow, elem_of_app. left. apply list_elem_of_fmap. eauto.
Qed.

Lemma ro_iter_is : ro_iter (E := E) checks r = Ok (elements_from 0 (iter_tinysets r)).
Proof.
  destruct r_holds as [Hmax _ Hw Hb <- Hbelow]. unfold ro_iter. rewrite Hmax. apply ro_docs_is; [done|lia|].
  intros e He. apply Hbelow. by apply elem_of_list_to_set.
Qed.

Lemma le_bytes_lookup tss j s k : tss !! j = Some s → (k < 8)%nat → le_bytes 8 tss !! (8 * j + k)%nat = to_le 8 s !! k.
Proof.
  intros Hj Hk. revert j Hj. induction tss as [|x tss IH]; intros j Hj; [done|].
  change (le_bytes 8 (x :: tss)) with (to_le 8 x ++ le_bytes 8 tss). destruct j as [|j].
  - injection Hj as ->. rewrite lookup_app_l by (rewrite length_to_le; lia). f_equal; lia.
  - rewrite lookup_app_r by (rewrite length_to_le; lia). rewrite length_to_le, <- (IH j Hj). f_equal. lia.
Qed.

Lemma byte_of_le n v k b i : 0 ≤ v < 256 ^ Z.of_nat n → to_le n v !! k = Some b → 0 ≤ i < 8 →
  Z.testbit (byte_val b) i = Z.testbit v (8 * Z.of_nat k + i).
Proof.
  intros Hv Hb Hi. pose proof (lookup_lt_Some _ _ _ Hb) as Hlt.
  assert (drop k (to_le n v) = b :: drop (S k) (to_le n v)) as Hd by by apply drop_S.
  apply (f_equal from_le) in Hd. rewrite from_le_drop in Hd by lia. rewrite from_to_le in Hd by done.
  change (b :: drop (S k) (to_le n v)) with ([b] ++ drop (S k) (to_le n v)) in Hd.
  rewrite from_le_app in Hd. change (256 ^ Z.of_nat (length [b])) with (2 ^ 8) in Hd.
  assert (byte_val b = (v `div` 256 ^ Z.of_nat k) `mod` 2 ^ 8) as ->.
  { rewrite Hd, (Z.mul_comm (2 ^ 8)), Z.mod_add by lia. unfold from_le, from_be. cbn [reverse rev_append foldl fold_left].
    change (fold_left _ _ _) with (0 * 256 + byte_val b). pose proof (byte_val_range b). rewrite Z.mod_small; lia. }
  rewrite Z.mod_pow2_bits_low, pow_256, Z.div_pow2_bits by lia. f_equal. lia.
Qed.

Lemma ro_contains_is el : 0 ≤ el < max → ro_contains (E := E) checks r el = Ok (bool_decide (el ∈ X)).
Proof.
  intros Hel. destruct r_holds as [_ Hdata Hw Hb Hset _]. unfold ro_contains.
  pose proof (buckets_bound max max_is_ok).
  pose proof (Z.div_mod el 8 ltac:(lia)). pose proof (Z.mod_pos_bound el 8 ltac:(lia)).
  pose proof (Z.div_mod el 64 ltac:(lia)). pose proof (Z.mod_pos_bound el 64 ltac:(lia)).
  assert (0 ≤ el `div` 64) by (apply Z.div_pos; lia). assert (0 ≤ el `div` 8) by (apply Z.div_pos; lia).
  set (j := Z.to_nat (el `div` 64)). set (k := (Z.to_nat (el `div` 8) - 8 * j)%nat).
  assert (Z.of_nat k = (el `mod` 64) `div` 8) as Hk.
  { apply Z.div_unique with (el `mod` 8); [lia|]. unfold k, j. lia. }
  destruct (lookup_lt_is_Some_2 (iter_tinysets r) j) as [s Hs]; [lia|].
  pose proof (proj1 (Forall_lookup _ _) Hw _ _ Hs) as Hword.
  assert (k < 8)%nat as Hk8 by (assert ((el `mod` 64) `div` 8 < 8) by (apply Z.div_lt_upper_bound; lia); lia).
  destruct (lookup_lt_is_Some_2 (to_le 8 s) k) as [b Hbyte]; [by rewrite length_to_le|].
  unfold at_index. rewrite Hdata. replace (Z.to_nat (el `div` 8)) with (8 * j + k)%nat by (unfold k, j; lia).
  rewrite (le_bytes_lookup _ j s k Hs Hk8), Hbyte. cbn [res_bind].
  rewrite shl_word_in by lia. cbn [res_bind]. f_equal. unfold wrapping_shl. rewrite Z.shiftl_1_l, Z.mod_small
    by (split; [lia|apply Z.pow_lt_mono_r; lia]).
  assert (Z.testbit (byte_val b) (el `mod` 8) = bool_decide (el ∈ X)) as Hbit.
  { rewrite (byte_of_le 8 s k b) by (done || lia). replace (8 * Z.of_nat k + el `mod` 8) with (el `mod` 64) by (unfold k, j; lia).
    case_bool_decide as Hin; rewrite <- Hset, elem_of_set_of in Hin.
    - destruct Hin as (_ & s' & Hs' & Hbit). fold j in Hs'. by simplify_eq.
    - destruct (Z.testbit s (el `mod` 64)) eqn:Hbit; [|done]. destruct Hin. split; [lia|]. eauto. }
  rewrite <- Hbit. destruct (Z.testbit (byte_val b) (el `mod` 8)) eqn:Hbe.
  - rewrite bool_decide_false; [done|]. intros Hz. apply (f_equal (λ x, Z.testbit x (el `mod` 8))) in Hz.
    rewrite Z.land_spec, pow_bit, Hbe, bool_decide_true, Z.bits_0 in Hz by lia. done.
  - rewrite bool_decide_true; [done|]. apply Z.bits_inj'. intros i Hi. rewrite Z.land_spec, pow_bit, Z.bits_0 by lia.
    clear Hbit. case_bool_decide as Hi'; [by rewrite <- Hi', Hbe|apply andb_false_r].
Qed.
End ro_laws.

(** ** Intersections with a serialized set *)

Lemma intersect_update_repr {E} checks max X Y b r : max_ok max → repr max X b → ro_repr max Y r →
  ∃ b', intersect_update (E := E) checks r b = (Ok tt, b') ∧ repr max (X ∩ Y) b'.
Proof.
  intros Hm Hb [_ _ Hw Hl Hs _]. apply intersect_repr; [done..| |done].
  by rewrite Hl, (rp_buckets _ _ _ Hb).
Qed.

Lemma intersect_bitsets_repr {E} max X Y l r : ro_repr max X l → ro_repr max Y r →
  ∃ i, intersect_bitsets (E := E) l r = Ok i ∧ ro_repr max (X ∩ Y) i.
Proof.
  intros [Hm Hd Hw Hl Hs Hb] [Hm' Hd' Hw' Hl' Hs' Hb']. unfold intersect_bitsets.
  rewrite bool_decide_true by by rewrite Hm, Hm'.
  rewrite bool_decide_true by (by rewrite Hd, Hd', !length_le_bytes, Hl, Hl').
  eexists. split; [done|]. change (concat (ts_into_bytes <$> ?l)) with (le_bytes 8 l).
  pose proof (words_intersect _ _ Hw Hw') as Hwi.
  split; cbn [ro_max_value ro_data]; rewrite ?iter_of_words by done; [done|done|done| | |].
  - rewrite length_zip_with. lia.
  - by rewrite set_of_intersect, Hs, Hs'.
  - intros e [He _]%elem_of_intersection. auto.
Qed.

(** * A set that is used

    What a user asks of a set, the answers of the code and those of a set of numbers *)
Inductive request : Type := Insert (el : Z) | Remove (el : Z) | Contains (el : Z) | Len | FirstBucket (bucket : Z).
Inductive answer : Type := Done | Is (b : bool) | Count (n : Z) | Bucket (q : option Z).

Section requests.
Context {E : Type}.
Variable checks : bool.

Definition serve (q : request) : method BitSet E answer :=
  match q with
  | Insert el => let! _ := bs_insert checks el in st_ret Done
  | Remove el => let! _ := bs_remove checks el in st_ret Done
  | Contains el => let! b := st_try (λ b, bs_contains checks b el) in st_ret (Is b)
  | Len => let! n := st_get bs_length in st_ret (Count n)
  | FirstBucket bucket => let! q := st_try (λ b, first_non_empty_bucket checks b bucket) in st_ret (Bucket q)
  end.

Fixpoint serve_all (qs : list request) : method BitSet E (list answer) :=
  match qs with
  | [] => st_ret []
  | q :: qs => let! a := serve q in let! l := serve_all qs in st_ret (a :: l)
  end.
End requests.

(** The same, of a set *)
Definition answers (q : request) (X : gset Z) (a : answer) (X' : gset Z) : Prop :=
  match q with
  | Insert el => a = Done ∧ X' = {[ el ]} ∪ X
  | Remove el => a = Done ∧ X' = X ∖ {[ el ]}
  | Contains el => a = Is (bool_decide (el ∈ X)) ∧ X' = X
  | Len => a = Count (Z.of_nat (size X)) ∧ X' = X
  | FirstBucket bucket => X' = X ∧ ∃ q, a = Bucket q ∧ match q with
      | Some q => bucket ≤ q ∧ (∃ e, e ∈ X ∧ e `div` 64 = q) ∧ (∀ e, e ∈ X → bucket ≤ e `div` 64 → q ≤ e `div` 64)
      | None => ∀ e, e ∈ X → e `div` 64 < bucket
      end
  end.

Inductive answers_all : list request → gset Z → list answer → gset Z → Prop :=
  | answers_nil X : answers_all [] X [] X
  | answers_cons q qs X a X' l X'' :
      answers q X a X' → answers_all qs X' l X'' → answers_all (q :: qs) X (a :: l) X''.

(** What is asked is of elements and buckets that the set has room for. *)
Definition request_ok (max : Z) (q : request) : Prop :=
  match q with
  | Insert el | Remove el | Contains el => 0 ≤ el < max
  | Len => True
  | FirstBucket bucket => 0 ≤ bucket ≤ Z.of_nat (buckets_of max)
  end.

Lemma serve_repr {E} checks max X b q : max_ok max → repr max X b → request_ok max q →
  ∃ a b' X', serve (E := E) checks q b = (Ok a, b') ∧ repr max X' b' ∧ answers q X a X'.
Proof.
  intros Hm Hb Hq. destruct q as [el|el|el| |bucket]; cbn [serve answers request_ok] in *.
  - destruct (insert_repr (E := E) checks max Hm el X b Hq Hb) as (b' & Hi & Hb').
    rewrite (st_bind_ok _ _ _ _ _ Hi). by eexists _, _, _.
  - destruct (remove_repr (E := E) checks max Hm el X b Hq Hb) as (b' & Hi & Hb').
    rewrite (st_bind_ok _ _ _ _ _ Hi). by eexists _, _, _.
  - rewrite (st_bind_try (λ b, bs_contains checks b el) _ _ _ (contains_repr checks max Hm el X b Hq Hb)).
    by eexists _, _, X.
  - rewrite st_bind_get. eexists _, _, X. split; [done|]. split; [done|]. split; [|done].
    unfold bs_length. by rewrite (rp_len _ _ _ Hb).
  - destruct (first_bucket_repr (E := E) checks max X b bucket Hm Hb Hq) as (q & Hf & Hspec).
    rewrite (st_bind_try (λ b, first_non_empty_bucket checks b bucket) _ _ _ Hf).
    eexists _, _, X. split; [done|]. split; [done|]. eauto.
Qed.

Lemma serve_all_repr {E} checks max qs X b : max_ok max → repr max X b → Forall (request_ok max) qs →
  ∃ l b' X', serve_all (E := E) checks qs b = (Ok l, b') ∧ repr max X' b' ∧ answers_all qs X l X'.
Proof.
  intros Hm Hb Hqs. revert X b Hb. induction Hqs as [|q qs Hq _ IH]; intros X b Hb.
  - exists [], b, X. split; [done|]. split; [done|constructor].
  - destruct (serve_repr (E := E) checks max X b q Hm Hb Hq) as (a & b' & X' & Hs & Hb' & Ha).
    destruct (IH X' b' Hb') as (l & b'' & X'' & Hs' & Hb'' & Hl).
    cbn [serve_all]. rewrite (st_bind_ok _ _ _ _ _ Hs), (st_bind_ok _ _ _ _ _ Hs').
    eexists _, _, X''. split; [done|]. split; [done|]. by econstructor.
Qed.
