(* ===== verification/TanVint.v ===== *)
(** Integers of variable length in tantivy (tantivy/common/src/vint.rs,
    tantivy/src/postings/compression/vint.rs and
    tantivy/src/termdict/sstable_termdict/sstable/vint.rs).

    All of them write the digits of a number in base 128, the lowest first; the first two mark
    the last byte with the bit 128, the last one marks the others.  A reader of bytes is a
    method that returns its next byte, if it has one. *)
From Stdlib Require Import ZArith Lia Strings.Byte.
From stdpp Require Import base list numbers option.
From S2P Require Import Prelude StateMonad Words.
#[local] Open Scope Z_scope.

(** The errors of [std::io] that this code makes or tells apart *)
Inductive IoError : Type := InvalidData | UnexpectedEof | OtherError.

Definition STOP_BIT : Z := 128.

(** [bytes().next()] of the reader [&[u8]] *)
Definition slice_next {E} : method (list byte) E (option byte) := λ l,
  match l with [] => (Ok None, []) | b :: l => (Ok (Some b), l) end.

(** * common/src/vint.rs *)

Section vint.
Variable checks : bool.
Abbreviation res := (Prelude.res IoError).

(** [loop] of [serialize_vint_u128], with the bytes that it pushes *)
Fixpoint serialize_vint_u128 (fuel : nat) (val : Z) (output : list byte) : res (list byte) :=
  match fuel with
  | O => NoFuel
  | S fuel =>
      let next_byte := val `mod` 128 in
      let val := val `div` 128 in
      if bool_decide (val = 0) then Ok (output ++ [byte_of (Z.lor next_byte STOP_BIT)])
      else serialize_vint_u128 fuel val (output ++ [byte_of next_byte])
  end.

(** The loop over [i] with [n] steps left; [data[i]] panics at the end of the data. *)
Fixpoint u128_loop (n i : nat) (data : list byte) (result shift : Z) : res (Z * list byte) :=
  match n with
  | O => Err InvalidData
  | S n =>
      let? b := at_index data i in
      let? x := shl_word checks 128 (byte_val b `mod` 128) shift in
      let result := Z.lor result x in
      if bool_decide (STOP_BIT ≤ byte_val b) then
        let? rest := slice (i + 1) (length data) data in Ok (result, rest)
      else u128_loop n (S i) data result (shift + 7)
  end.
Definition deserialize_vint_u128 (data : list byte) : res (Z * list byte) := u128_loop 19 0 data 0 0.

(** The loop over a reader, for words of [w] bits: the end and an error of the reader are the
    same error. *)
Fixpoint vint_loop {R} (next : method R IoError (option byte)) (w : Z) (fuel : nat) (result shift : Z) :
    method R IoError Z := λ r,
  match fuel with
  | O => (NoFuel, r)
  | S fuel =>
      match next r with
      | (Ok (Some b), r) =>
          (let! x := st_try (λ _, shl_word checks w (byte_val b `mod` 128) shift) in
           let result := Z.lor result x in
           if bool_decide (STOP_BIT ≤ byte_val b) then st_ret result
           else vint_loop next w fuel result (shift + 7)) r
      | (Ok None, r) | (Err _, r) => (Err InvalidData, r)
      | (Panic, r) => (Panic, r)
      | (NoFuel, r) => (NoFuel, r)
      end
  end.
Definition VInt_deserialize {R} (next : method R IoError (option byte)) (fuel : nat) : method R IoError Z :=
  vint_loop next 64 fuel 0 0.
Definition VIntU128_deserialize {R} (next : method R IoError (option byte)) (fuel : nat) : method R IoError Z :=
  vint_loop next 128 fuel 0 0.

(** The loop over the places of [buffer.iter_mut().enumerate()] *)
Fixpoint into_loop (places : nat) (i : nat) (remaining : Z) (buffer : list byte) : res (nat * list byte) :=
  match places with
  | O => Panic
  | S places =>
      let next_byte := remaining `mod` 128 in
      let remaining := remaining `div` 128 in
      if bool_decide (remaining = 0) then
        let? buffer := write_at buffer i (byte_of (Z.lor next_byte STOP_BIT)) in Ok ((i + 1)%nat, buffer)
      else
        let? buffer := write_at buffer i (byte_of next_byte) in into_loop places (S i) remaining buffer
  end.
Definition serialize_into (val : Z) (buffer : list byte) : res (nat * list byte) :=
  into_loop (length buffer) 0 val buffer.

Definition VInt_serialize {W} (write_all : list byte → method W IoError unit) (val : Z) : method W IoError unit :=
  let! (num_bytes, buffer) := st_try (λ _, serialize_into val (replicate 10 x00)) in
  let! bytes := st_try (λ _, slice 0 num_bytes buffer) in
  write_all bytes.
Definition VIntU128_serialize {W} (write_all : list byte → method W IoError unit) (fuel : nat) (val : Z) :
    method W IoError unit :=
  let! buffer := st_try (λ _, serialize_vint_u128 fuel val []) in write_all buffer.

Definition serialize_into_vec (val : Z) (output : list byte) : res (list byte) :=
  let? (num_bytes, buffer) := serialize_into val (replicate 10 x00) in
  let? bytes := slice 0 num_bytes buffer in Ok (output ++ bytes).

(** [LittleEndian::write_u64(&mut buf[..], res)] sets the eight bytes of the buffer. *)
Definition serialize_vint_u32 (val : Z) : res (list byte) :=
  let START_2 := Z.shiftl 1 7 in
  let START_3 := Z.shiftl 1 14 in
  let START_4 := Z.shiftl 1 21 in
  let START_5 := Z.shiftl 1 28 in
  let MASK_1 := 127 in
  let MASK_2 := Z.shiftl MASK_1 7 in
  let MASK_3 := Z.shiftl MASK_2 7 in
  let MASK_4 := Z.shiftl MASK_3 7 in
  let MASK_5 := Z.shiftl MASK_4 7 in
  let part mask k := Z.shiftl (Z.land val mask) k in
  let stop k := Z.shiftl 128 (8 * k) in
  let '(res, num_bytes) :=
    if bool_decide (val ≤ START_2 - 1) then (Z.lor val 128, 1%nat)
    else if bool_decide (val ≤ START_3 - 1) then
      (Z.lor (Z.lor (part MASK_1 0) (part MASK_2 1)) (stop 1), 2%nat)
    else if bool_decide (val ≤ START_4 - 1) then
      (Z.lor (Z.lor (Z.lor (part MASK_1 0) (part MASK_2 1)) (part MASK_3 2)) (stop 2), 3%nat)
    else if bool_decide (val ≤ START_5 - 1) then
      (Z.lor (Z.lor (Z.lor (Z.lor (part MASK_1 0) (part MASK_2 1)) (part MASK_3 2)) (part MASK_4 3)) (stop 3), 4%nat)
    else
      (Z.lor (Z.lor (Z.lor (Z.lor (Z.lor (part MASK_1 0) (part MASK_2 1)) (part MASK_3 2)) (part MASK_4 3))
        (part MASK_5 4)) (stop 4), 5%nat) in
  slice 0 num_bytes (to_le 8 res).
Definition write_u32_vint {W} (write_all : list byte → method W IoError unit) (val : Z) : method W IoError unit :=
  let! data := st_try (λ _, serialize_vint_u32 val) in write_all data.

(** The loop of [vint_len] over [data.iter().enumerate().take(5)] *)
Fixpoint len_loop (n i : nat) (data : list byte) : res nat :=
  match n, data with
  | S n, val :: data => if bool_decide (STOP_BIT ≤ byte_val val) then Ok (i + 1)%nat else len_loop n (S i) data
  | _, _ => Panic
  end.
Definition vint_len (data : list byte) : res nat := len_loop 5 0 data.

Fixpoint u32_loop (data : list byte) (result shift : Z) : res Z :=
  match data with
  | [] => Ok result
  | b :: data =>
      let? x := shl_word checks 32 (Z.land (byte_val b) 127) shift in
      u32_loop data (Z.lor result x) (shift + 7)
  end.
Definition read_u32_vint_no_advance (data : list byte) : res (Z * nat) :=
  let? vlen := vint_len data in
  let? bytes := slice 0 vlen data in
  let? result := u32_loop bytes 0 0 in Ok (result, vlen).
Definition read_u32_vint : method (list byte) IoError Z :=
  let! (result, vlen) := st_try read_u32_vint_no_advance in
  let! rest := st_try (λ data, slice vlen (length data) data) in
  let! _ := st_set (λ _, rest) in st_ret result.
End vint.

(** * postings/compression/vint.rs *)

Section postings.
Variable checks : bool.
Abbreviation res := (Prelude.res IoError).

(** The bytes of one value, from the place [byte_written] of [output] on *)
Fixpoint encode_loop (fuel : nat) (to_encode : Z) (output : list byte) (byte_written : nat) : res (list byte * nat) :=
  match fuel with
  | O => NoFuel
  | S fuel =>
      let next_byte := to_encode `mod` 128 in
      let to_encode := to_encode `div` 128 in
      if bool_decide (to_encode = 0) then
        let? output := write_at output byte_written (byte_of (Z.lor next_byte 128)) in Ok (output, (byte_written + 1)%nat)
      else
        let? output := write_at output byte_written (byte_of next_byte) in
        encode_loop fuel to_encode output (byte_written + 1)%nat
  end.

Fixpoint compress_sorted_loop (fuel : nat) (input : list Z) (output : list byte) (offset : Z) (byte_written : nat) :
    res (list byte) :=
  match input with
  | [] => slice 0 byte_written output
  | v :: input =>
      let? to_encode := fit_word checks 32 (v - offset) in
      let? (output, byte_written) := encode_loop fuel to_encode output byte_written in
      compress_sorted_loop fuel input output v byte_written
  end.
Definition compress_sorted (fuel : nat) (input : list Z) (output : list byte) (offset : Z) : res (list byte) :=
  compress_sorted_loop fuel input output offset 0.

Fixpoint compress_unsorted_loop (fuel : nat) (input : list Z) (output : list byte) (byte_written : nat) : res (list byte) :=
  match input with
  | [] => slice 0 byte_written output
  | v :: input =>
      let? (output, byte_written) := encode_loop fuel v output byte_written in
      compress_unsorted_loop fuel input output byte_written
  end.
Definition compress_unsorted (fuel : nat) (input : list Z) (output : list byte) : res (list byte) :=
  compress_unsorted_loop fuel input output 0.

(** One value, added to [result]; the index panics at the end of the data. *)
Fixpoint decode_loop (fuel : nat) (data : list byte) (read_byte : nat) (result shift : Z) : res (nat * Z) :=
  match fuel with
  | O => NoFuel
  | S fuel =>
      let? cur_byte := at_index data read_byte in
      let? x := shl_word checks 32 (byte_val cur_byte `mod` 128) shift in
      let? result := fit_word checks 32 (result + x) in
      if bool_decide (Z.land (byte_val cur_byte) 128 = 0) then
        decode_loop fuel data (read_byte + 1) result (shift + 7)
      else Ok ((read_byte + 1)%nat, result)
  end.

(** The loop over the [n] places of the output: what is read, and what becomes of them *)
Fixpoint uncompress_sorted (fuel : nat) (data : list byte) (n : nat) (read_byte : nat) (result : Z) : res (nat * list Z) :=
  match n with
  | O => Ok (read_byte, [])
  | S n =>
      let? (read_byte, result) := decode_loop fuel data read_byte result 0 in
      let? (read_byte, l) := uncompress_sorted fuel data n read_byte result in
      Ok (read_byte, result :: l)
  end.
Fixpoint uncompress_unsorted (fuel : nat) (data : list byte) (n : nat) (num_read_bytes : nat) : res (nat * list Z) :=
  match n with
  | O => Ok (num_read_bytes, [])
  | S n =>
      let? (num_read_bytes, result) := decode_loop fuel data num_read_bytes 0 0 in
      let? (num_read_bytes, l) := uncompress_unsorted fuel data n num_read_bytes in
      Ok (num_read_bytes, result :: l)
  end.
(** The places that are not reached keep their values: what is returned is the part of the
    output that is written, whose length is the result of the code. *)
Fixpoint uncompress_unsorted_until_end (fuel : nat) (data : list byte) (n : nat) (num_read_bytes : nat) : res (list Z) :=
  match n with
  | O => Ok []
  | S n =>
      if bool_decide (length data = num_read_bytes) then Ok []
      else
        let? (num_read_bytes, result) := decode_loop fuel data num_read_bytes 0 0 in
        let? l := uncompress_unsorted_until_end fuel data n num_read_bytes in Ok (result :: l)
  end.
End postings.

(** * sstable/vint.rs *)

Definition CONTINUE_BIT : Z := 128.

Section sstable_vint.
Context {E : Type}.
Variable checks : bool.
Abbreviation res := (Prelude.res E).

(** The loop over the places of the buffer, which gives 10 when there are no more *)
Fixpoint sv_loop (places : nat) (i : nat) (val : Z) (buffer : list byte) : res (nat * list byte) :=
  match places with
  | O => Ok (10%nat, buffer)
  | S places =>
      let next_byte := Z.land val 127 in
      let val := Z.shiftr val 7 in
      if bool_decide (val = 0) then
        let? buffer := write_at buffer i (byte_of next_byte) in Ok ((i + 1)%nat, buffer)
      else
        let? buffer := write_at buffer i (byte_of (Z.lor next_byte CONTINUE_BIT)) in sv_loop places (S i) val buffer
  end.
Definition sv_serialize (val : Z) (buffer : list byte) : res (nat * list byte) := sv_loop (length buffer) 0 val buffer.
Definition sv_serialize_into_vec (val : Z) (buffer : list byte) : res (list byte) :=
  let? (num_bytes, buf) := sv_serialize val (replicate 10 x00) in
  let? bytes := slice 0 num_bytes buf in Ok (buffer ++ bytes).

Fixpoint read_loop (buf : list byte) (consumed : nat) (result shift : Z) : res (nat * Z) :=
  match buf with
  | [] => Ok (consumed, result)
  | b :: buf =>
      let? x := shl_word checks 64 (byte_val b `mod` 128) shift in
      let result := Z.lor result x in
      if bool_decide (byte_val b < CONTINUE_BIT) then Ok ((consumed + 1)%nat, result)
      else read_loop buf (consumed + 1) result (shift + 7)
  end.
Definition deserialize_read (buf : list byte) : res (nat * Z) := read_loop buf 0 0 0.
End sstable_vint.

(** * The digits

    The reference: the digits in base 128 of a number, the lowest first; [last] and [more] mark
    the last one and the others. *)
Fixpoint digits (n : nat) (last more : Z → Z) (v : Z) : list byte :=
  match n with
  | O => []
  | S n => if bool_decide (v `div` 128 = 0) then [byte_of (last (v `mod` 128))]
           else byte_of (more (v `mod` 128)) :: digits n last more (v `div` 128)
  end.

(** The last byte has the bit 128, at most 19 bytes are needed for 128 bits *)
Definition vint (v : Z) : list byte := digits 19 (λ d, d + 128) id v.
(** The bytes before the last one have the bit 128. *)
Definition cint (v : Z) : list byte := digits 10 id (λ d, d + 128) v.

Lemma digits_fuel n k last more v : (0 < n)%nat → 0 ≤ v < 128 ^ Z.of_nat n →
  digits (n + k) last more v = digits n last more v.
Proof.
  revert v. induction n as [|n IH]; intros v Hn Hv; [lia|]. cbn [digits Nat.add].
  destruct (decide (v `div` 128 = 0)) as [Hz|Hz]; [by rewrite bool_decide_true|].
  rewrite bool_decide_false by done. f_equal.
  rewrite Nat2Z.inj_succ, Z.pow_succ_r in Hv by lia.
  assert (0 ≤ v `div` 128) by (apply Z.div_pos; lia).
  assert (v `div` 128 < 128 ^ Z.of_nat n) by (apply Z.div_lt_upper_bound; lia).
  destruct n; [simpl in *; lia|]. apply IH; lia.
Qed.

Lemma length_digits n last more v : (length (digits n last more v) ≤ n)%nat.
Proof.
  revert v. induction n as [|n IH]; intros v; [simpl; lia|]. cbn [digits].
  case_bool_decide; simpl; [lia|]. pose proof (IH (v `div` 128)). lia.
Qed.

Lemma vint_fuel n v : (0 < n ≤ 19)%nat → 0 ≤ v < 128 ^ Z.of_nat n → vint v = digits n (λ d, d + 128) id v.
Proof. intros Hn Hv. unfold vint. replace 19%nat with (n + (19 - n))%nat by lia. apply digits_fuel; [lia|done]. Qed.

Lemma digit_range v : 0 ≤ v `mod` 128 < 128.
Proof. apply Z.mod_pos_bound. lia. Qed.

Lemma lor_stop d : 0 ≤ d < 128 → Z.lor d 128 = d + 128.
Proof. intros Hd. change 128 with (Z.shiftl 1 7) at 1. rewrite lor_low_high by lia. lia. Qed.

Lemma stop_byte v : byte_val (byte_of (v `mod` 128 + 128)) = v `mod` 128 + 128.
Proof. pose proof (digit_range v). apply byte_val_of_small. lia. Qed.

Lemma plain_byte v : byte_val (byte_of (v `mod` 128)) = v `mod` 128.
Proof. pose proof (digit_range v). apply byte_val_of_small. lia. Qed.

Lemma stop_mod v : (v `mod` 128 + 128) `mod` 128 = v `mod` 128.
Proof.
  replace (v `mod` 128 + 128) with (v `mod` 128 + 1 * 128) by lia. rewrite Z.mod_add by lia.
  by rewrite Z.mod_mod.
Qed.

(** ** Writing the digits *)

Section encoders.
Abbreviation res := (Prelude.res IoError).

Lemma serialize_u128_is n v output : 0 ≤ v < 128 ^ Z.of_nat n → (0 < n)%nat →
  serialize_vint_u128 n v output = Ok (output ++ digits n (λ d, d + 128) id v).
Proof.
  revert v output. induction n as [|n IH]; intros v output Hv Hn; [lia|]. cbn [serialize_vint_u128 digits].
  unfold STOP_BIT. rewrite lor_stop by apply digit_range.
  destruct (decide (v `div` 128 = 0)) as [Hz|Hz]; [by rewrite !bool_decide_true|].
  rewrite !bool_decide_false by done. rewrite Nat2Z.inj_succ, Z.pow_succ_r in Hv by lia.
  assert (0 ≤ v `div` 128) by (apply Z.div_pos; lia).
  assert (v `div` 128 < 128 ^ Z.of_nat n) by (apply Z.div_lt_upper_bound; lia).
  destruct n as [|n]; [simpl in *; lia|]. rewrite IH by lia. by rewrite <- app_assoc.
Qed.

(** One more byte behind those that are written at [i] *)
Lemma write_behind {E} i bs (buffer : list byte) x : (i + length bs < length buffer)%nat →
  write_at (E := E) (splice i bs buffer) (i + length bs) x = Ok (splice i (bs ++ [x]) buffer).
Proof.
  intros Hlt. rewrite write_at_Ok by (rewrite length_splice; lia). f_equal. unfold splice.
  destruct (lookup_lt_is_Some_2 buffer (i + length bs)) as [y Hy]; [done|].
  rewrite (drop_S _ _ _ Hy), length_app. cbn [length]. rewrite Nat.add_assoc, (Nat.add_1_r (i + length bs)), !app_assoc.
  assert (i + length bs = length (take i buffer ++ bs))%nat as Hl by (rewrite length_app, length_take; lia).
  rewrite Hl at 1. rewrite insert_app_r_alt by done. rewrite Nat.sub_diag. cbn. rewrite <- !app_assoc. done.
Qed.

Lemma quot_bounds n v : 0 ≤ v < 128 ^ Z.of_nat (S n) → v `div` 128 ≠ 0 →
  0 < v `div` 128 < 128 ^ Z.of_nat n ∧ (0 < n)%nat.
Proof.
  intros Hv Hz. rewrite Nat2Z.inj_succ, Z.pow_succ_r in Hv by lia.
  assert (0 ≤ v `div` 128) by (apply Z.div_pos; lia).
  assert (v `div` 128 < 128 ^ Z.of_nat n) by (apply Z.div_lt_upper_bound; lia).
  split; [lia|]. destruct n; [simpl in *; lia|lia].
Qed.

Lemma encode_loop_is n v i bs output : 0 ≤ v < 128 ^ Z.of_nat n → (0 < n)%nat →
  let ds := digits n (λ d, d + 128) id v in
  (i + length bs + length ds ≤ length output)%nat →
  encode_loop n v (splice i bs output) (i + length bs)
  = Ok (splice i (bs ++ ds) output, (i + length bs + length ds)%nat).
Proof.
  revert v bs. induction n as [|n IH]; intros v bs Hv Hn ds Hfit; [lia|]. subst ds. cbn [encode_loop digits] in *.
  rewrite lor_stop by apply digit_range.
  destruct (decide (v `div` 128 = 0)) as [Hz|Hz].
  - rewrite bool_decide_true in * by done. simpl in Hfit.
    rewrite write_behind by lia. done.
  - rewrite bool_decide_false in * by done. simpl in Hfit.
    destruct (quot_bounds n v Hv Hz) as [Hq Hn']. rewrite write_behind by lia. cbn [res_bind].
    replace (i + length bs + 1)%nat with (i + length (bs ++ [byte_of (v `mod` 128)]))%nat by (rewrite length_app; simpl; lia).
    rewrite IH by (rewrite ?length_app; simpl; lia). rewrite <- app_assoc, length_app. cbn [length app].
    do 2 f_equal. lia.
Qed.

(** Without room for all the digits the index is out of range. *)
Lemma encode_loop_short n v i (output : list byte) : 0 ≤ v < 128 ^ Z.of_nat n → (0 < n)%nat →
  (length output < i + length (digits n (λ d, (d + 128)%Z) id v))%nat → encode_loop n v output i = Panic.
Proof.
  revert v i output. induction n as [|n IH]; intros v i output Hv Hn Hshort; [lia|]. cbn [encode_loop digits] in *.
  unfold write_at.
  destruct (decide (v `div` 128 = 0)) as [Hz|Hz].
  - rewrite bool_decide_true in * by done. simpl in Hshort. by rewrite bool_decide_false by lia.
  - rewrite bool_decide_false in * by done. simpl in Hshort.
    destruct (quot_bounds n v Hv Hz) as [Hq Hn']. case_bool_decide; [|done]. cbn [res_bind].
    apply IH; [lia|exact Hn'|]. rewrite length_insert. unfold id in *. lia.
Qed.

Lemma into_loop_is n v bs buffer : 0 ≤ v < 128 ^ Z.of_nat n → (0 < n)%nat → (length bs + n ≤ length buffer)%nat →
  let ds := digits n (λ d, d + 128) id v in
  into_loop n (length bs) v (splice 0 bs buffer) = Ok (length (bs ++ ds), splice 0 (bs ++ ds) buffer).
Proof.
  revert v bs. induction n as [|n IH]; intros v bs Hv Hn Hfit ds; [lia|]. subst ds. cbn [into_loop digits].
  unfold STOP_BIT. rewrite lor_stop by apply digit_range.
  destruct (decide (v `div` 128 = 0)) as [Hz|Hz].
  - rewrite !bool_decide_true by done. rewrite (write_behind 0) by lia. cbn [res_bind].
    by rewrite length_app.
  - rewrite !bool_decide_false by done.
    destruct (quot_bounds n v Hv Hz) as [Hq Hn']. rewrite (write_behind 0) by lia. cbn [res_bind].
    replace (S (length bs)) with (length (bs ++ [byte_of (v `mod` 128)])) by (rewrite length_app; simpl; lia).
    rewrite IH by (rewrite ?length_app; simpl; lia). by rewrite <- app_assoc.
Qed.

Lemma splice_empty {A} (l : list A) : splice 0 [] l = l.
Proof. done. Qed.

Lemma take_splice {A} i (bs l : list A) : (i + length bs ≤ length l)%nat → take (i + length bs) (splice i bs l) = take i l ++ bs.
Proof.
  intros Hl. unfold splice. rewrite app_assoc. apply take_app_length'. rewrite length_app, length_take. lia.
Qed.

(** [VInt] fills as many places of its buffer of ten as there are digits. *)
Lemma serialize_into_is v buffer : 0 ≤ v < 2 ^ 64 → length buffer = 10%nat →
  serialize_into v buffer = Ok (length (vint v), splice 0 (vint v) buffer).
Proof.
  intros Hv Hl. unfold serialize_into. rewrite Hl.
  pose proof (into_loop_is 10 v [] buffer) as Hi. cbn [length app] in Hi. rewrite splice_empty in Hi.
  assert (0 ≤ v < 128 ^ Z.of_nat 10) by (change (128 ^ Z.of_nat 10) with (2 ^ 70); lia).
  rewrite (vint_fuel 10) by (done || lia). apply Hi; [done|lia|lia].
Qed.

Lemma length_vint64 v : 0 ≤ v < 2 ^ 64 → (length (vint v) ≤ 10)%nat.
Proof.
  intros Hv. rewrite (vint_fuel 10) by (change (128 ^ Z.of_nat 10) with (2 ^ 70); lia). apply length_digits.
Qed.

(** What is taken of the buffer *)
Lemma vint_taken v : 0 ≤ v < 2 ^ 64 →
  slice 0 (length (vint v)) (splice 0 (vint v) (replicate 10 x00)) = Ok (E := IoError) (vint v).
Proof.
  intros Hv. pose proof (length_vint64 v Hv). rewrite slice_Ok by (rewrite ?length_splice, ?length_replicate; simpl; lia).
  rewrite drop_0, Nat.sub_0_r. pose proof (take_splice 0 (vint v) (replicate 10 x00)) as Ht. cbn [Nat.add] in Ht.
  rewrite Ht by (rewrite length_replicate; lia). done.
Qed.

Lemma serialize_into_vec_is v output : 0 ≤ v < 2 ^ 64 → serialize_into_vec v output = Ok (output ++ vint v).
Proof.
  intros Hv. unfold serialize_into_vec. rewrite serialize_into_is by done. cbn [res_bind]. by rewrite vint_taken.
Qed.

Lemma VInt_serialize_is {W} (write_all : list byte → method W IoError unit) v : 0 ≤ v < 2 ^ 64 →
  ∀ w, VInt_serialize write_all v w = write_all (vint v) w.
Proof.
  intros Hv w. unfold VInt_serialize, st_bind, st_try. rewrite serialize_into_is by done. by rewrite vint_taken.
Qed.

Lemma sv_loop_is {E} n v bs buffer : 0 ≤ v < 128 ^ Z.of_nat n → (0 < n)%nat → (length bs + n ≤ length buffer)%nat →
  let ds := digits n id (λ d, d + 128) v in
  sv_loop (E := E) n (length bs) v (splice 0 bs buffer) = Ok (length (bs ++ ds), splice 0 (bs ++ ds) buffer).
Proof.
  revert v bs. induction n as [|n IH]; intros v bs Hv Hn Hfit ds; [lia|]. subst ds. cbn [sv_loop digits].
  change 127 with (Z.ones 7). rewrite Z.land_ones, Z.shiftr_div_pow2 by lia. change (2 ^ 7) with 128.
  unfold CONTINUE_BIT. rewrite lor_stop by apply digit_range.
  destruct (decide (v `div` 128 = 0)) as [Hz|Hz].
  - rewrite !bool_decide_true by done. rewrite (write_behind 0) by lia. cbn [res_bind].
    by rewrite length_app.
  - rewrite !bool_decide_false by done.
    destruct (quot_bounds n v Hv Hz) as [Hq Hn']. rewrite (write_behind 0) by lia. cbn [res_bind].
    replace (S (length bs)) with (length (bs ++ [byte_of (v `mod` 128 + 128)])) by (rewrite length_app; simpl; lia).
    rewrite IH by (rewrite ?length_app; simpl; lia). by rewrite <- app_assoc.
Qed.

(** The eight bytes of a buffer that starts with [b1] and is at least ten long *)
Lemma sv_serialize_is {E} v buffer n : 0 ≤ v < 2 ^ 64 → length buffer = n → (10 ≤ n)%nat →
  sv_serialize (E := E) v buffer = Ok (length (cint v), splice 0 (cint v) buffer).
Proof.
  intros Hv Hl Hn. unfold sv_serialize. rewrite Hl.
  assert (0 ≤ v < 128 ^ Z.of_nat 10) by (change (128 ^ Z.of_nat 10) with (2 ^ 70); lia).
  assert (0 ≤ v < 128 ^ Z.of_nat n).
  { assert (128 ^ Z.of_nat 10 ≤ 128 ^ Z.of_nat n) by (apply Z.pow_le_mono_r; lia). lia. }
  pose proof (sv_loop_is (E := E) n v [] buffer) as Hi. cbn [length app] in Hi. rewrite splice_empty in Hi.
  rewrite Hi by lia. unfold cint. replace n with (10 + (n - 10))%nat by lia. by rewrite digits_fuel by lia.
Qed.

Lemma length_cint v : (length (cint v) ≤ 10)%nat.
Proof. apply length_digits. Qed.

Lemma sv_into_vec_is {E} v output : 0 ≤ v < 2 ^ 64 → sv_serialize_into_vec (E := E) v output = Ok (output ++ cint v).
Proof.
  intros Hv. unfold sv_serialize_into_vec. rewrite (sv_serialize_is v _ 10) by done. cbn [res_bind].
  pose proof (length_cint v).
  rewrite slice_Ok by (rewrite ?length_splice, ?length_replicate; simpl; lia). cbn [res_bind].
  rewrite drop_0, Nat.sub_0_r. pose proof (take_splice 0 (cint v) (replicate 10 x00)) as Ht. cbn [Nat.add] in Ht.
  rewrite Ht by (rewrite length_replicate; lia). done.
Qed.

(** The masks of [serialize_vint_u32] pick the digits. *)
Lemma mask_digit v k : 0 ≤ v → 0 ≤ k →
  Z.shiftl (Z.land v (Z.shiftl 127 (7 * k))) k = Z.shiftl ((v `div` 2 ^ (7 * k)) `mod` 128) (8 * k).
Proof.
  intros Hv Hk. change 128 with (2 ^ 7). change 127 with (Z.ones 7). apply Z.bits_inj'. intros i Hi.
  rewrite !Z.shiftl_spec by done. destruct (decide (i < k)).
  { rewrite !Z.testbit_neg_r by lia. done. }
  rewrite Z.land_spec. destruct (decide (i - 8 * k < 0)).
  { rewrite (Z.testbit_neg_r _ (i - 8 * k)) by lia. rewrite Z.shiftl_spec by lia.
    rewrite (Z.testbit_neg_r _ (i - k - 7 * k)) by lia. apply andb_false_r. }
  rewrite Z.shiftl_spec by lia. destruct (decide (i - 8 * k < 7)).
  - rewrite Z.ones_spec_low, Z.mod_pow2_bits_low, Z.div_pow2_bits by lia. rewrite andb_true_r. f_equal. lia.
  - rewrite Z.ones_spec_high, Z.mod_pow2_bits_high by lia. apply andb_false_r.
Qed.

Lemma from_le_one b : from_le [b] = byte_val b.
Proof. done. Qed.

Lemma from_le_cons b l : from_le (b :: l) = byte_val b + 256 * from_le l.
Proof. change (b :: l) with ([b] ++ l). by rewrite from_le_app. Qed.
End encoders.

Section u32.
Abbreviation res := (Prelude.res IoError).
Abbreviation d v k := ((v `div` 2 ^ (7 * k)) `mod` 128).

Lemma digits_one v : 0 ≤ v < 2 ^ 7 → vint v = [byte_of (v + 128)].
Proof.
  intros Hv. rewrite (vint_fuel 1) by lia. cbn [digits].
  rewrite Z.div_small, Z.mod_small by lia. done.
Qed.

Lemma digits_S n last more v : digits (S n) last more v =
  if bool_decide (v `div` 128 = 0) then [byte_of (last (v `mod` 128))]
  else byte_of (more (v `mod` 128)) :: digits n last more (v `div` 128).
Proof. done. Qed.

Lemma digits_more v : 2 ^ 7 ≤ v < 2 ^ 70 → vint v = byte_of (v `mod` 128) :: vint (v `div` 128).
Proof.
  intros Hv. assert (0 < v `div` 128) by (apply Z.div_str_pos; lia).
  assert (v `div` 128 < 2 ^ 63) by (apply Z.div_lt_upper_bound; lia).
  change (vint v) with (digits (S 18) (λ d, d + 128) id v). rewrite digits_S.
  rewrite bool_decide_false by lia. unfold id at 1. f_equal. symmetry. apply vint_fuel; [lia|]. split; [lia|]. etrans; [eassumption|]. by vm_compute.
Qed.

(** The word of a number of [n + 1] digits, whose bytes are those of its [vint] *)
Fixpoint vint_word (n : nat) (v : Z) : Z :=
  match n with O => v + 128 | S n => v `mod` 128 + 256 * vint_word n (v `div` 128) end.

Lemma vint_word_bytes n v : 2 ^ (7 * Z.of_nat n) ≤ v < 2 ^ (7 * Z.of_nat n + 7) ∨ (n = 0%nat ∧ 0 ≤ v < 128) → (n < 8)%nat →
  length (vint v) = S n ∧ from_le (vint v) = vint_word n v.
Proof.
  revert v. induction n as [|n IH]; intros v Hv Hn.
  - assert (0 ≤ v < 128) as Hv'.
    { destruct Hv as [[Hl Hu]|[_ Hv]]; [|done]. change (2 ^ (7 * Z.of_nat 0)) with 1 in Hl.
      change (2 ^ (7 * Z.of_nat 0 + 7)) with 128 in Hu. lia. }
    rewrite digits_one by done. split; [done|]. rewrite from_le_one. apply (byte_val_of_small (v + 128)). lia.
  - destruct Hv as [Hv|[? _]]; [|done].
    replace (7 * Z.of_nat (S n)) with (7 * Z.of_nat n + 7) in Hv by lia.
    rewrite !Z.pow_add_r in Hv by lia. change (2 ^ 7) with 128 in Hv.
    assert (1 ≤ 2 ^ (7 * Z.of_nat n)) by (apply (Z.pow_le_mono_r 2 0); lia).
    assert (2 ^ (7 * Z.of_nat n) ≤ 2 ^ 49) by (apply Z.pow_le_mono_r; lia).
    assert (2 ^ (7 * Z.of_nat n) ≤ v `div` 128) by (apply Z.div_le_lower_bound; lia).
    assert (v `div` 128 < 2 ^ (7 * Z.of_nat n) * 128) by (apply Z.div_lt_upper_bound; lia).
    rewrite digits_more by lia. destruct (IH (v `div` 128)) as [Hl Hf]; [|lia|].
    { left. rewrite Z.pow_add_r by lia. change (2 ^ 7) with 128. lia. }
    cbn [length vint_word]. rewrite Hl, from_le_cons, Hf, plain_byte. done.
Qed.

Lemma d_range v k : 0 ≤ d v k < 128.
Proof. apply digit_range. Qed.

(** Digits that are put above one another *)
Lemma lor_digit a v k : 0 ≤ v → 0 ≤ k → 0 ≤ a < 2 ^ (8 * k) →
  Z.lor a (Z.shiftl (Z.land v (Z.shiftl 127 (7 * k))) k) = a + 2 ^ (8 * k) * d v k.
Proof. intros Hv Hk Ha. rewrite mask_digit by done. apply lor_low_high; [lia|done|]. pose proof (d_range v k). lia. Qed.

Lemma d_below v k : 0 ≤ v → v < 2 ^ (7 * k + 7) → 0 ≤ k → d v k = v `div` 2 ^ (7 * k).
Proof.
  intros Hv Hlt Hk. rewrite Z.pow_add_r in Hlt by lia. apply Z.mod_small. split; [apply Z.div_pos; lia|].
  apply Z.div_lt_upper_bound; lia.
Qed.

(** The powers that appear in a word of up to five digits *)
Ltac powers :=
  rewrite ?Z.div_div by lia;
  change (128 * 128) with 16384; change (16384 * 128) with 2097152; change (2097152 * 128) with 268435456;
  change (128 * 16384) with 2097152; change (128 * 2097152) with 268435456;
  change (2 ^ (7 * 0)) with 1; change (2 ^ (7 * 1)) with 128; change (2 ^ (7 * 2)) with 16384;
  change (2 ^ (7 * 3)) with 2097152; change (2 ^ (7 * 4)) with 268435456;
  change (2 ^ (8 * 1)) with 256; change (2 ^ (8 * 2)) with 65536; change (2 ^ (8 * 3)) with 16777216;
  change (2 ^ (8 * 4)) with 4294967296; rewrite Z.div_1_r; lia.

Lemma serialize_u32_is v : 0 ≤ v < 2 ^ 32 → serialize_vint_u32 v = Ok (vint v).
Proof.
  intros Hv. unfold serialize_vint_u32.
  change (Z.shiftl 127 7) with (Z.shiftl 127 (7 * 1)).
  change (Z.shiftl (Z.shiftl 127 (7 * 1)) 7) with (Z.shiftl 127 (7 * 2)).
  change (Z.shiftl (Z.shiftl 127 (7 * 2)) 7) with (Z.shiftl 127 (7 * 3)).
  change (Z.shiftl (Z.shiftl 127 (7 * 3)) 7) with (Z.shiftl 127 (7 * 4)).
  change (Z.land v 127) with (Z.land v (Z.shiftl 127 (7 * 0))).
  change (Z.shiftl 1 7) with 128. change (Z.shiftl 1 14) with 16384. change (Z.shiftl 1 21) with 2097152.
  change (Z.shiftl 1 28) with 268435456. cbv zeta.
  assert (∀ k a, 0 ≤ k → 0 ≤ a < 2 ^ (8 * k + 7) → Z.lor a (Z.shiftl 128 (8 * k)) = a + 2 ^ (8 * k) * 128) as Hstop.
  { intros k a Hk Ha. replace (Z.shiftl 128 (8 * k)) with (Z.shiftl 1 (8 * k + 7))
      by (rewrite <- (Z.shiftl_shiftl 128) || idtac; rewrite !Z.shiftl_mul_pow2, Z.pow_add_r by lia; lia).
    rewrite lor_low_high, Z.pow_add_r by lia. lia. }
  assert (Z.shiftl (Z.land v (Z.shiftl 127 (7 * 0))) 0 = d v 0) as H0.
  { rewrite mask_digit by lia. apply Z.shiftl_0_r. }
  assert (∀ n x, length (vint v) = S n → from_le (vint v) = x → (n < 8)%nat → slice (E := IoError) 0 (S n) (to_le 8 x) = Ok (vint v)) as Hslice.
  { intros n x Hl Hf Hn. rewrite slice_Ok by (rewrite ?length_to_le; lia). rewrite drop_0, Nat.sub_0_r, take_to_le by lia.
    f_equal. symmetry. by apply to_le_unique. }
  pose proof (d_range v 0). pose proof (d_range v 1). pose proof (d_range v 2). pose proof (d_range v 3). pose proof (d_range v 4).
  destruct (decide (v ≤ 128 - 1)); [rewrite bool_decide_true by done|rewrite bool_decide_false by done].
  { destruct (vint_word_bytes 0 v) as [Hl Hf]; [right; lia|lia|]. apply Hslice; [done| |lia].
    rewrite Hf, lor_stop by lia. done. }
  assert (∀ k, 0 ≤ k → v < 2 ^ (7 * k + 7) → d v k = v `div` 2 ^ (7 * k)) as Hlast by (intros; apply d_below; lia).
  destruct (decide (v ≤ 16384 - 1)); [rewrite bool_decide_true by done|rewrite bool_decide_false by done].
  { destruct (vint_word_bytes 1 v) as [Hl Hf]; [left; lia|lia|]. apply Hslice; [done| |lia].
    rewrite Hf. cbn [vint_word]. rewrite H0, lor_digit, Hstop by lia. rewrite (Hlast 1) by lia. powers. }
  destruct (decide (v ≤ 2097152 - 1)); [rewrite bool_decide_true by done|rewrite bool_decide_false by done].
  { destruct (vint_word_bytes 2 v) as [Hl Hf]; [left; lia|lia|]. apply Hslice; [done| |lia].
    rewrite Hf. cbn [vint_word]. rewrite H0, (lor_digit _ v 1), (lor_digit _ v 2), Hstop by lia. rewrite (Hlast 2) by lia. powers. }
  destruct (decide (v ≤ 268435456 - 1)); [rewrite bool_decide_true by done|rewrite bool_decide_false by done].
  { destruct (vint_word_bytes 3 v) as [Hl Hf]; [left; lia|lia|]. apply Hslice; [done| |lia].
    rewrite Hf. cbn [vint_word]. rewrite H0, (lor_digit _ v 1), (lor_digit _ v 2), (lor_digit _ v 3), Hstop by lia. rewrite (Hlast 3) by lia. powers. }
  destruct (vint_word_bytes 4 v) as [Hl Hf]; [left; lia|lia|]. apply Hslice; [done| |lia].
  rewrite Hf. cbn [vint_word]. rewrite H0, (lor_digit _ v 1), (lor_digit _ v 2), (lor_digit _ v 3), (lor_digit _ v 4), Hstop by lia. rewrite (Hlast 4) by lia. powers.
Qed.
End u32.

(** ** Reading the digits *)

Lemma vint_S n v : digits (S n) (λ d, d + 128) id v =
  if bool_decide (v `div` 128 = 0) then [byte_of (v `mod` 128 + 128)]
  else byte_of (v `mod` 128) :: digits n (λ d, d + 128) id (v `div` 128).
Proof. done. Qed.

(** What a digit adds to what is read: there is room for it. *)
Lemma digit_step {E} checks w v s r : 0 ≤ s → 0 ≤ w → 0 ≤ v → 0 < v ∨ s = 0 ∧ 0 < w → 0 ≤ r < 2 ^ s → r + 2 ^ s * v < 2 ^ w →
  shl_word (E := E) checks w (v `mod` 128) s = Ok (Z.shiftl (v `mod` 128) s)
  ∧ Z.lor r (Z.shiftl (v `mod` 128) s) = r + 2 ^ s * (v `mod` 128)
  ∧ 0 ≤ r + 2 ^ s * (v `mod` 128) < 2 ^ (s + 7)
  ∧ r + 2 ^ s * (v `mod` 128) + 2 ^ (s + 7) * (v `div` 128) = r + 2 ^ s * v
  ∧ r + 2 ^ s * (v `mod` 128) < 2 ^ w.
Proof.
  intros Hs Hw Hv Hpos Hr Hfit. pose proof (digit_range v). pose proof (Z.div_mod v 128 ltac:(lia)).
  assert (0 < 2 ^ s) by (apply Z.pow_pos_nonneg; lia). assert (0 ≤ v `div` 128) by (apply Z.div_pos; lia).
  assert (s < w) as Hsw.
  { destruct Hpos as [?|[-> ?]]; [|done]. apply (Z.pow_lt_mono_r_iff 2); [lia|lia|]. nia. }
  assert (2 ^ s * (v `mod` 128) < 2 ^ w) by nia.
  split; [|split; [by apply lor_low_high; lia|]].
  - rewrite shl_word_in by lia. unfold wrapping_shl. rewrite Z.shiftl_mul_pow2, Z.mod_small by lia.
    done.
  - rewrite Z.pow_add_r by lia. change (2 ^ 7) with 128. nia.
Qed.

(** [next] gives the bytes, and leads from one state of the reader to another. *)
Inductive reads {R E} (next : method R E (option byte)) : list byte → R → R → Prop :=
  | reads_nil r : reads next [] r r
  | reads_cons b bs r r' r'' : next r = (Ok (Some b), r') → reads next bs r' r'' → reads next (b :: bs) r r''.

Lemma slice_reads {E} bs rest : reads (slice_next (E := E)) bs (bs ++ rest) rest.
Proof. induction bs; econstructor; done. Qed.

Section decoders.
Variable checks : bool.

Lemma stop_is_last v : bool_decide (STOP_BIT ≤ byte_val (byte_of (v `mod` 128 + 128))) = true
  ∧ bool_decide (STOP_BIT ≤ byte_val (byte_of (v `mod` 128))) = false.
Proof.
  rewrite stop_byte, plain_byte. pose proof (digit_range v). unfold STOP_BIT.
  by rewrite bool_decide_true, bool_decide_false by lia.
Qed.

Lemma vint_loop_is {R} (next : method R IoError (option byte)) w n k v r s st st' :
  reads next (digits n (λ d, d + 128) id v) st st' →
  0 ≤ v < 128 ^ Z.of_nat n → (0 < n)%nat → 0 ≤ s → 0 ≤ w → 0 < v ∨ s = 0 ∧ 0 < w → 0 ≤ r < 2 ^ s → r + 2 ^ s * v < 2 ^ w →
  vint_loop checks next w (n + k) r s st = (Ok (r + 2 ^ s * v), st').
Proof.
  revert v r s st. induction n as [|n IH]; intros v r s st Hreads Hv Hn Hs Hw Hpos Hr Hfit; [lia|].
  cbn [Nat.add vint_loop]. rewrite vint_S in Hreads.
  destruct (digit_step (E := IoError) checks w v s r Hs Hw ltac:(lia) Hpos Hr Hfit) as (Hshl & Hlor & Hnew & Hsum & _).
  destruct (stop_is_last v) as [Hstop Hplain].
  destruct (decide (v `div` 128 = 0)) as [Hz|Hz].
  - rewrite bool_decide_true in Hreads by done.
    inversion Hreads as [|b bs st1 st2 st3 Hnext Hrest]; subst. rewrite Hnext. inversion Hrest; subst.
    rewrite stop_byte, stop_mod. rewrite (st_bind_try (λ _, shl_word checks w (v `mod` 128) s) _ _ _ Hshl), Hlor. rewrite stop_byte in Hstop. rewrite Hstop.
    unfold st_ret. do 2 f_equal. rewrite Hz in Hsum. lia.
  - rewrite bool_decide_false in Hreads by done.
    inversion Hreads as [|b bs st1 st2 st3 Hnext Hrest]; subst. rewrite Hnext. clear Hreads.
    rewrite plain_byte, Z.mod_mod by lia. rewrite (st_bind_try (λ _, shl_word checks w (v `mod` 128) s) _ _ _ Hshl), Hlor. rewrite plain_byte in Hplain. rewrite Hplain.
    destruct (quot_bounds n v Hv Hz) as [Hq Hn'].
    rewrite (IH (v `div` 128)) by (done || lia). by rewrite Hsum.
Qed.

Lemma u128_loop_is n m v i r s data rest : 0 ≤ v < 128 ^ Z.of_nat n → (0 < n ≤ m)%nat → 0 ≤ s → 0 < v ∨ s = 0 →
  0 ≤ r < 2 ^ s → r + 2 ^ s * v < 2 ^ 128 → (i ≤ length data)%nat →
  drop i data = digits n (λ d, d + 128) id v ++ rest →
  u128_loop checks m i data r s = Ok (r + 2 ^ s * v, rest).
Proof.
  revert m v i r s. induction n as [|n IH]; intros m v i r s Hv Hn Hs Hpos Hr Hfit Hi Hdata; [lia|].
  destruct m as [|m]; [lia|]. cbn [u128_loop]. rewrite vint_S in Hdata.
  destruct (digit_step (E := IoError) checks 128 v s r Hs ltac:(lia) ltac:(lia) ltac:(lia) Hr Hfit) as (Hshl & Hlor & Hnew & Hsum & _).
  destruct (stop_is_last v) as [Hstop Hplain].
  assert (∀ b tl, drop i data = b :: tl → at_index (E := IoError) data i = Ok b ∧ drop (S i) data = tl ∧ (S i ≤ length data)%nat) as Hhead.
  { intros b tl Hd. assert (data !! i = Some b) as Hl by (rewrite <- (Nat.add_0_r i), <- lookup_drop, Hd; done).
    unfold at_index. rewrite Hl. split; [done|]. split; [|by eapply lookup_lt_Some].
    rewrite (drop_S _ _ _ Hl) in Hd. by injection Hd. }
  destruct (decide (v `div` 128 = 0)) as [Hz|Hz].
  - rewrite bool_decide_true in Hdata by done. destruct (Hhead _ _ Hdata) as (-> & Hrest & Hlen). cbn [res_bind].
    rewrite stop_byte in *. rewrite stop_mod, Hshl. cbn [res_bind]. rewrite Hlor, Hstop.
    rewrite slice_Ok by lia. cbn [res_bind]. rewrite Nat.add_1_r, Hrest, take_ge.
    + rewrite Hz in Hsum. do 2 f_equal. lia.
    + cbn [app] in Hrest. rewrite <- Hrest, length_drop. lia.
  - rewrite bool_decide_false in Hdata by done. destruct (Hhead _ _ Hdata) as (-> & Hrest & Hlen). cbn [res_bind].
    rewrite plain_byte in *. rewrite Z.mod_mod, Hshl by lia. cbn [res_bind]. rewrite Hlor, Hplain.
    destruct (quot_bounds n v Hv Hz) as [Hq Hn'].
    rewrite (IH m (v `div` 128)) by (done || lia). by rewrite Hsum.
Qed.

(** [read_u32_vint]: the length first, then the digits *)
Lemma len_loop_is n m v i rest : 0 ≤ v < 128 ^ Z.of_nat n → (0 < n ≤ m)%nat →
  len_loop m i (digits n (λ d, d + 128) id v ++ rest) = Ok (i + length (digits n (λ d, d + 128)%Z id v))%nat.
Proof.
  revert m v i. induction n as [|n IH]; intros m v i Hv Hn; [lia|]. destruct m as [|m]; [lia|].
  destruct (stop_is_last v) as [Hstop Hplain]. rewrite vint_S.
  destruct (decide (v `div` 128 = 0)) as [Hz|Hz].
  - rewrite bool_decide_true by done. cbn [app len_loop length]. by rewrite Hstop.
  - rewrite bool_decide_false by done. cbn [app len_loop length]. rewrite Hplain.
    destruct (quot_bounds n v Hv Hz) as [Hq Hn']. rewrite IH by lia. f_equal. lia.
Qed.

Lemma u32_loop_is n v r s : 0 ≤ v < 128 ^ Z.of_nat n → (0 < n)%nat → 0 ≤ s → 0 < v ∨ s = 0 →
  0 ≤ r < 2 ^ s → r + 2 ^ s * v < 2 ^ 32 →
  u32_loop checks (digits n (λ d, d + 128) id v) r s = Ok (r + 2 ^ s * v).
Proof.
  revert v r s. induction n as [|n IH]; intros v r s Hv Hn Hs Hpos Hr Hfit; [lia|].
  destruct (digit_step (E := IoError) checks 32 v s r Hs ltac:(lia) ltac:(lia) ltac:(lia) Hr Hfit) as (Hshl & Hlor & Hnew & Hsum & _).
  rewrite vint_S. change 127 with (Z.ones 7).
  assert (∀ x, Z.land x (Z.ones 7) = x `mod` 128) as Hland by (intros; by rewrite Z.land_ones).
  destruct (decide (v `div` 128 = 0)) as [Hz|Hz].
  - rewrite bool_decide_true by done. cbn [u32_loop]. change 127 with (Z.ones 7).
    rewrite Hland, stop_byte, stop_mod, Hshl. cbn [res_bind]. rewrite Hlor. rewrite Hz in Hsum. f_equal. lia.
  - rewrite bool_decide_false by done. cbn [u32_loop]. change 127 with (Z.ones 7).
    rewrite Hland, plain_byte, Z.mod_mod, Hshl by lia. cbn [res_bind]. rewrite Hlor.
    destruct (quot_bounds n v Hv Hz) as [Hq Hn']. rewrite (IH (v `div` 128)) by (done || lia). by rewrite Hsum.
Qed.

Lemma read_u32_is v rest : 0 ≤ v < 2 ^ 32 → read_u32_vint checks (vint v ++ rest) = (Ok v, rest).
Proof.
  intros Hv. assert (0 ≤ v < 128 ^ Z.of_nat 5) as H5 by (change (128 ^ Z.of_nat 5) with (2 ^ 35); lia).
  rewrite (vint_fuel 5) by (done || lia). unfold read_u32_vint, read_u32_vint_no_advance, vint_len.
  set (bs := digits 5 _ _ _). unfold st_bind at 1, st_try at 1. unfold bs at 1. rewrite len_loop_is by (done || lia). fold bs.
  cbn [res_bind Nat.add]. rewrite slice_Ok by (rewrite ?length_app; lia). cbn [res_bind].
  rewrite drop_0, Nat.sub_0_r, take_app_length. unfold bs at 1. rewrite u32_loop_is by (done || lia). cbn [res_bind].
  rewrite (st_bind_try _ _ _ rest).
  - rewrite st_bind_set. unfold st_ret. rewrite Z.pow_0_r. do 2 f_equal. lia.
  - rewrite slice_Ok by (rewrite ?length_app; lia). rewrite drop_app_length, take_ge; [done|]. rewrite length_app. lia.
Qed.
End decoders.

Lemma high_bit b : bool_decide (Z.land (byte_val b) 128 = 0) = bool_decide (byte_val b < 128).
Proof. destruct b; by vm_compute. Qed.

Lemma head_of {E A} (data : list A) i b tl : drop i data = b :: tl →
  at_index (E := E) data i = Ok b ∧ drop (i + 1) data = tl.
Proof.
  intros Hd. assert (data !! i = Some b) as Hl by (rewrite <- (Nat.add_0_r i), <- lookup_drop, Hd; done).
  unfold at_index. rewrite Hl. split; [done|]. rewrite (drop_S _ _ _ Hl) in Hd. rewrite Nat.add_1_r. by injection Hd.
Qed.

Lemma cint_S n v : digits (S n) id (λ d, d + 128) v =
  if bool_decide (v `div` 128 = 0) then [byte_of (v `mod` 128)]
  else byte_of (v `mod` 128 + 128) :: digits n id (λ d, d + 128) (v `div` 128).
Proof. done. Qed.

Section lists.
Variable checks : bool.

Lemma decode_loop_is n k v i r s data rest : 0 ≤ v < 128 ^ Z.of_nat n → (0 < n)%nat → 0 ≤ s → 0 < v ∨ s = 0 →
  0 ≤ r → r + 2 ^ s * v < 2 ^ 32 → drop i data = digits n (λ d, d + 128) id v ++ rest →
  ∃ j, decode_loop checks (n + k) data i r s = Ok (j, r + 2 ^ s * v) ∧ drop j data = rest
    ∧ j = (i + length (digits n (λ d, d + 128)%Z id v))%nat.
Proof.
  revert v i r s. induction n as [|n IH]; intros v i r s Hv Hn Hs Hpos Hr Hfit Hdata; [lia|].
  assert (0 < 2 ^ s) by (apply Z.pow_pos_nonneg; lia).
  cbn [decode_loop Nat.add]. rewrite vint_S in *.
  destruct (digit_step (E := IoError) checks 32 v s 0 Hs ltac:(lia) ltac:(lia) ltac:(lia) ltac:(lia) ltac:(lia))
    as (Hshl & _ & _ & Hsum & Hlt). pose proof (digit_range v).
  assert (0 ≤ v `div` 128) by (apply Z.div_pos; lia).
  assert (0 ≤ 2 ^ (s + 7) * (v `div` 128)) by (apply Z.mul_nonneg_nonneg; lia).
  assert (r + Z.shiftl (v `mod` 128) s = r + 2 ^ s * (v `mod` 128)) as Hadd by (rewrite Z.shiftl_mul_pow2; lia).
  assert (0 ≤ 2 ^ s * (v `mod` 128)) by (apply Z.mul_nonneg_nonneg; lia).
  destruct (decide (v `div` 128 = 0)) as [Hz|Hz].
  - rewrite bool_decide_true in * by done. destruct (head_of (E := IoError) _ _ _ _ Hdata) as [-> Hrest]. cbn [res_bind].
    rewrite high_bit, stop_byte, stop_mod, Hshl. cbn [res_bind]. rewrite fit_word_in, Hadd by (rewrite Hadd; lia). cbn [res_bind].
    rewrite bool_decide_false by lia. eexists. split; [rewrite Hz in Hsum; do 2 f_equal; lia|].
    by split.
  - rewrite bool_decide_false in * by done. destruct (head_of (E := IoError) _ _ _ _ Hdata) as [-> Hrest]. cbn [res_bind].
    rewrite high_bit, plain_byte, Z.mod_mod, Hshl by lia. cbn [res_bind]. rewrite fit_word_in, Hadd by (rewrite Hadd; lia). cbn [res_bind].
    rewrite bool_decide_true by lia.
    destruct (quot_bounds n v Hv Hz) as [Hq Hn'].
    destruct (IH (v `div` 128) (i + 1)%nat (r + 2 ^ s * (v `mod` 128)) (s + 7)) as (j & Hj & Hd & Hlen); [lia..|exact Hrest|].
    exists j. split; [rewrite Hj; do 2 f_equal; lia|]. split; [done|]. cbn [length]. lia.
Qed.

Lemma vint5 v : 0 ≤ v < 2 ^ 32 → 0 ≤ v < 128 ^ Z.of_nat 5 ∧ vint v = digits 5 (λ d, d + 128) id v.
Proof.
  intros Hv. assert (0 ≤ v < 128 ^ Z.of_nat 5) by (change (128 ^ Z.of_nat 5) with (2 ^ 35); lia).
  split; [done|]. by apply vint_fuel; [lia|].
Qed.

Lemma decode_one v i r data rest : 0 ≤ v → 0 ≤ r → r + v < 2 ^ 32 → drop i data = vint v ++ rest →
  ∃ j, decode_loop checks 5 data i r 0 = Ok (j, r + v) ∧ drop j data = rest ∧ j = (i + length (vint v))%nat.
Proof.
  intros Hv Hr Hfit Hd. destruct (vint5 v ltac:(lia)) as [H5 Hvint]. rewrite Hvint in *.
  destruct (decode_loop_is 5 0 v i r 0 data rest) as (j & Hj & Hrest & Hlen); [lia..|done|].
  exists j. change (5 + 0)%nat with 5%nat in Hj. rewrite Hj. split; [|done]. do 2 f_equal. lia.
Qed.

Abbreviation word32s := (Forall (λ v, 0 ≤ v < 2 ^ 32)).

(** The differences of a list *)
Fixpoint gaps (offset : Z) (l : list Z) : list Z :=
  match l with [] => [] | v :: l => (v - offset) :: gaps v l end.

Fixpoint ascending (offset : Z) (l : list Z) : Prop :=
  match l with [] => True | v :: l => offset ≤ v ∧ ascending v l end.

Definition vints (l : list Z) : list byte := concat (vint <$> l).

Lemma vints_cons v l : vints (v :: l) = vint v ++ vints l.
Proof. done. Qed.

Lemma encode_one v bs output : 0 ≤ v < 2 ^ 32 → (length bs + length (vint v) ≤ length output)%nat →
  encode_loop 5 v (splice 0 bs output) (length bs) = Ok (splice 0 (bs ++ vint v) output, length (bs ++ vint v)).
Proof.
  intros Hv Hfit. destruct (vint5 v Hv) as [H5 Hvint]. rewrite Hvint in *.
  rewrite length_app. apply (encode_loop_is 5 v 0 bs output); [done|lia|done].
Qed.

Lemma encode_one_short v i (output : list byte) : 0 ≤ v < 2 ^ 32 → (length output < i + length (vint v))%nat →
  encode_loop 5 v output i = Panic.
Proof.
  intros Hv Hshort. destruct (vint5 v Hv) as [H5 Hvint]. rewrite Hvint in *. by apply encode_loop_short; [..|lia|].
Qed.

Lemma compress_sorted_loop_is l offset bs output : ascending offset l → word32s l → 0 ≤ offset →
  (length bs + length (vints (gaps offset l)) ≤ length output)%nat →
  compress_sorted_loop checks 5 l (splice 0 bs output) offset (length bs) = Ok (bs ++ vints (gaps offset l)).
Proof.
  revert offset bs. induction l as [|v l IH]; intros offset bs Hasc Hw Hoff Hfit.
  - cbn [compress_sorted_loop gaps]. unfold vints in *. cbn in *. rewrite app_nil_r.
    rewrite slice_Ok by (rewrite ?length_splice; lia). rewrite drop_0, Nat.sub_0_r.
    f_equal. apply (take_splice 0). lia.
  - destruct Hasc as [Hle Hasc]. pose proof (Forall_inv Hw) as Hv; cbn beta in Hv; apply Forall_inv_tail in Hw. cbn [compress_sorted_loop gaps] in *.
    rewrite vints_cons in *. rewrite length_app in Hfit.
    rewrite fit_word_in by lia. cbn [res_bind]. rewrite encode_one by lia. cbn [res_bind].
    rewrite IH by (rewrite ?length_app; done || lia). by rewrite <- app_assoc.
Qed.

Lemma compress_unsorted_loop_is l bs output : word32s l → (length bs + length (vints l) ≤ length output)%nat →
  compress_unsorted_loop 5 l (splice 0 bs output) (length bs) = Ok (bs ++ vints l).
Proof.
  revert bs. induction l as [|v l IH]; intros bs Hw Hfit.
  - cbn [compress_unsorted_loop]. unfold vints in *. cbn in *. rewrite app_nil_r.
    rewrite slice_Ok by (rewrite ?length_splice; lia). rewrite drop_0, Nat.sub_0_r.
    f_equal. apply (take_splice 0). lia.
  - pose proof (Forall_inv Hw) as Hv; cbn beta in Hv; apply Forall_inv_tail in Hw. cbn [compress_unsorted_loop].
    rewrite vints_cons in *. rewrite length_app in Hfit.
    rewrite encode_one by lia. cbn [res_bind].
    rewrite IH by (rewrite ?length_app; done || lia). by rewrite <- app_assoc.
Qed.

(** The loops panic when the output is too short. *)
Lemma compress_sorted_loop_short l offset bs output : ascending offset l → word32s l → 0 ≤ offset →
  (length bs ≤ length output < length bs + length (vints (gaps offset l)))%nat →
  compress_sorted_loop checks 5 l (splice 0 bs output) offset (length bs) = Panic.
Proof.
  revert offset bs. induction l as [|v l IH]; intros offset bs Hasc Hw Hoff Hshort; [unfold vints in Hshort; simpl in Hshort; lia|].
  destruct Hasc as [Hle Hasc]. pose proof (Forall_inv Hw) as Hv; cbn beta in Hv; apply Forall_inv_tail in Hw. cbn [compress_sorted_loop gaps] in *.
  rewrite vints_cons, length_app in Hshort. rewrite fit_word_in by lia. cbn [res_bind].
  destruct (decide (length bs + length (vint (v - offset)) ≤ length output)%nat) as [Hfit|Hno].
  - rewrite encode_one by lia. cbn [res_bind]. apply IH; [done|done|lia|]. rewrite length_app. lia.
  - by rewrite encode_one_short by (rewrite ?length_splice; lia).
Qed.

Lemma compress_unsorted_loop_short l bs output : word32s l →
  (length bs ≤ length output < length bs + length (vints l))%nat →
  compress_unsorted_loop 5 l (splice 0 bs output) (length bs) = Panic.
Proof.
  revert bs. induction l as [|v l IH]; intros bs Hw Hshort; [unfold vints in Hshort; simpl in Hshort; lia|].
  pose proof (Forall_inv Hw) as Hv; cbn beta in Hv; apply Forall_inv_tail in Hw. cbn [compress_unsorted_loop].
  rewrite vints_cons, length_app in Hshort.
  destruct (decide (length bs + length (vint v) ≤ length output)%nat) as [Hfit|Hno].
  - rewrite encode_one by lia. cbn [res_bind]. apply IH; [done|]. rewrite length_app. lia.
  - by rewrite encode_one_short by (rewrite ?length_splice; lia).
Qed.

Lemma uncompress_sorted_is l offset i data rest : ascending offset l → word32s l → 0 ≤ offset →
  drop i data = vints (gaps offset l) ++ rest →
  ∃ j, uncompress_sorted checks 5 data (length l) i offset = Ok (j, l) ∧ drop j data = rest
    ∧ j = (i + length (vints (gaps offset l)))%nat.
Proof.
  revert offset i. induction l as [|v l IH]; intros offset i Hasc Hw Hoff Hd.
  - exists i. split; [done|]. split; [done|]. unfold vints. simpl. lia.
  - destruct Hasc as [Hle Hasc]. pose proof (Forall_inv Hw) as Hv; cbn beta in Hv; apply Forall_inv_tail in Hw. cbn [gaps length uncompress_sorted] in *.
    rewrite vints_cons, <- app_assoc in Hd.
    destruct (decode_one (v - offset) i offset data _ ltac:(lia) Hoff ltac:(lia) Hd) as (j & -> & Hj & Hjl). cbn [res_bind].
    replace (offset + (v - offset)) with v by lia.
    destruct (IH v j Hasc Hw ltac:(lia) Hj) as (k & -> & Hk & Hkl). cbn [res_bind].
    exists k. split; [done|]. split; [done|]. rewrite vints_cons, length_app. lia.
Qed.

Lemma uncompress_unsorted_is l i data rest : word32s l → drop i data = vints l ++ rest →
  ∃ j, uncompress_unsorted checks 5 data (length l) i = Ok (j, l) ∧ drop j data = rest
    ∧ j = (i + length (vints l))%nat.
Proof.
  revert i. induction l as [|v l IH]; intros i Hw Hd.
  - exists i. split; [done|]. split; [done|]. unfold vints. simpl. lia.
  - pose proof (Forall_inv Hw) as Hv; cbn beta in Hv; apply Forall_inv_tail in Hw. cbn [length uncompress_unsorted] in *.
    rewrite vints_cons, <- app_assoc in Hd.
    destruct (decode_one v i 0 data _ ltac:(lia) ltac:(lia) ltac:(lia) Hd) as (j & -> & Hj & Hjl). cbn [res_bind].
    destruct (IH j Hw Hj) as (k & -> & Hk & Hkl). cbn [res_bind].
    exists k. split; [done|]. split; [done|]. rewrite vints_cons, length_app. lia.
Qed.

Lemma vint_not_nil v : vint v ≠ [].
Proof. unfold vint. rewrite digits_S. by case_bool_decide. Qed.

Lemma uncompress_until_end_is l n i data : word32s l → drop i data = vints l → (i ≤ length data)%nat → (length l ≤ n)%nat →
  uncompress_unsorted_until_end checks 5 data n i = Ok l.
Proof.
  revert n i. induction l as [|v l IH]; intros n i Hw Hd Hi Hn.
  - destruct n as [|n]; [done|]. cbn [uncompress_unsorted_until_end]. rewrite bool_decide_true; [done|].
    apply (f_equal length) in Hd. rewrite length_drop in Hd. simpl in Hd. lia.
  - pose proof (Forall_inv Hw) as Hv; cbn beta in Hv; apply Forall_inv_tail in Hw. destruct n as [|n]; [simpl in Hn; lia|]. cbn [uncompress_unsorted_until_end].
    rewrite vints_cons in Hd.
    rewrite bool_decide_false.
    2:{ intros Hl. rewrite drop_ge in Hd by lia. pose proof (vint_not_nil v). by destruct (vint v). }
    pose proof (f_equal length Hd) as Hlen. rewrite length_drop, length_app in Hlen.
    destruct (decode_one v i 0 data _ ltac:(lia) ltac:(lia) ltac:(lia) Hd) as (j & -> & Hj & Hjl). cbn [res_bind].
    simpl in Hn. rewrite (IH n j) by (done || lia). done.
Qed.

(** ** sstable *)

Lemma read_loop_is {E} n v c r s rest : 0 ≤ v < 128 ^ Z.of_nat n → (0 < n)%nat → 0 ≤ s → 0 < v ∨ s = 0 →
  0 ≤ r < 2 ^ s → r + 2 ^ s * v < 2 ^ 64 →
  read_loop (E := E) checks (digits n id (λ d, d + 128) v ++ rest) c r s
  = Ok ((c + length (digits n id (λ d, d + 128)%Z v))%nat, r + 2 ^ s * v).
Proof.
  revert v c r s. induction n as [|n IH]; intros v c r s Hv Hn Hs Hpos Hr Hfit; [lia|].
  destruct (digit_step (E := E) checks 64 v s r Hs ltac:(lia) ltac:(lia) ltac:(lia) Hr Hfit) as (Hshl & Hlor & Hnew & Hsum & _).
  pose proof (digit_range v). rewrite cint_S. unfold CONTINUE_BIT.
  destruct (decide (v `div` 128 = 0)) as [Hz|Hz].
  - rewrite bool_decide_true by done. cbn [app read_loop length]. unfold CONTINUE_BIT.
    rewrite plain_byte, Z.mod_mod, Hshl by lia. cbn [res_bind].
    rewrite Hlor, bool_decide_true by lia. rewrite Hz in Hsum. do 2 f_equal. lia.
  - rewrite bool_decide_false by done. cbn [app read_loop length]. unfold CONTINUE_BIT.
    rewrite stop_byte, stop_mod, Hshl by lia. cbn [res_bind]. rewrite Hlor, bool_decide_false by lia.
    destruct (quot_bounds n v Hv Hz) as [Hq Hn']. rewrite (IH (v `div` 128)) by (done || lia). rewrite Hsum. do 2 f_equal. lia.
Qed.

Lemma deserialize_read_is {E} v rest : 0 ≤ v < 2 ^ 64 →
  deserialize_read (E := E) checks (cint v ++ rest) = Ok (length (cint v), v).
Proof.
  intros Hv. unfold deserialize_read, cint.
  rewrite read_loop_is by (lia || (change (128 ^ Z.of_nat 10) with (2 ^ 70); lia)).
  do 2 f_equal. lia.
Qed.

(** ** The readers of [VInt] and [VIntU128] *)

Lemma vint_read {R} (next : method R IoError (option byte)) w v st st' fuel : 0 < w ≤ 128 → 0 ≤ v < 2 ^ w →
  reads next (vint v) st st' → (19 ≤ fuel)%nat → vint_loop checks next w fuel 0 0 st = (Ok v, st').
Proof.
  intros Hw Hv Hr Hf. replace fuel with (19 + (fuel - 19))%nat by lia.
  rewrite (vint_loop_is checks next w 19 _ v 0 0 st st' Hr); [do 2 f_equal; lia|..]; try lia.
  split; [lia|]. eapply Z.lt_le_trans; [apply Hv|]. change (128 ^ Z.of_nat 19) with (2 ^ 133). apply Z.pow_le_mono_r; lia.
Qed.
End lists.
