(* ===== verification/TanSstable.v ===== *)
(** The sorted string table of tantivy (tantivy/src/termdict/sstable_termdict/sstable/).

    Keys in increasing order, each with a value, are written in blocks: a key is the length of
    the prefix that it shares with the key before it and the rest of its bytes, and the values
    of a block stand before its keys.  An index has, for every block, a string between its last
    key and the first key of the next one.  The table is read back key by key, or one block of
    it for one key. *)
From Stdlib Require Import ZArith Lia Strings.Byte Sorted.
From stdpp Require Import base list numbers option.
From S2P Require Import Prelude StateMonad Words TanVint.
#[local] Open Scope Z_scope.

(** * Keys: slices of bytes in their order *)

Abbreviation key := (list byte).

Fixpoint key_cmp (a b : key) : comparison :=
  match a, b with
  | [], [] => Eq
  | [], _ :: _ => Lt
  | _ :: _, [] => Gt
  | x :: a, y :: b => match byte_val x ?= byte_val y with Eq => key_cmp a b | c => c end
  end.
Definition key_lt (a b : key) : bool := match key_cmp a b with Lt => true | _ => false end.
Definition key_le (a b : key) : bool := match key_cmp a b with Gt => false | _ => true end.

Fixpoint common_prefix_len (lhs rhs : list byte) : nat :=
  match lhs, rhs with
  | x :: lhs, y :: rhs => if bool_decide (x = y) then S (common_prefix_len lhs rhs) else O
  | _, _ => O
  end.

(** * BlockReader (block_reader.rs)

    Its reader is any reader with [read_exact]. *)
Record BlockReader (R : Type) : Type := mkBlockReader { br_buffer : list byte; br_reader : R; br_offset : nat }.
Arguments mkBlockReader {R} _ _ _.
Arguments br_buffer {R} _.
Arguments br_reader {R} _.
Arguments br_offset {R} _.

Section block_reader.
Context {R : Type}.
Variable checks : bool.
Variable read_exact : nat → method R IoError (list byte).
Abbreviation BR := (BlockReader R).

Definition BlockReader_new (reader : R) : BR := mkBlockReader [] reader 0.

Definition set_offset (n : nat) (r : BR) : BR := mkBlockReader (br_buffer r) (br_reader r) n.
Definition set_buffer (b : list byte) (r : BR) : BR := mkBlockReader b (br_reader r) (br_offset r).
Definition br_read_exact (n : nat) : method BR IoError (list byte) := λ r,
  let '(x, reader) := read_exact n (br_reader r) in (x, mkBlockReader (br_buffer r) reader (br_offset r)).

Definition br_advance {E} (num_bytes : nat) : method BR E unit := st_set (λ r, set_offset (br_offset r + num_bytes) r).
Definition br_rest {E} (r : BR) : res E (list byte) := slice (br_offset r) (length (br_buffer r)) (br_buffer r).
Definition buffer_from_to {E} (r : BR) (start fin : nat) : res E (list byte) := slice start fin (br_buffer r).

Definition deserialize_u64 : method BR IoError Z :=
  let! buffer := st_try br_rest in
  let! (num_bytes, val) := st_try (λ _, deserialize_read checks buffer) in
  let! _ := br_advance num_bytes in st_ret val.

(** The length of a block: an end of the file there is the end of the table. *)
Definition read_block : method BR IoError bool := λ r,
  match br_read_exact 4 (set_offset 0 r) with
  | (Ok bytes, r) =>
      let block_len := from_le bytes in
      if bool_decide (block_len = 0) then (Ok false, set_buffer [] r)
      else
        (let! _ := st_set (λ r, set_buffer (vec_resize (Z.to_nat block_len) (br_buffer r)) r) in
         let! bytes := br_read_exact (Z.to_nat block_len) in
         let! _ := st_set (set_buffer bytes) in st_ret true) r
  | (Err UnexpectedEof, r) => (Ok false, r)
  | (Err e, r) => (Err e, r)
  | (Panic, r) => (Panic, r)
  | (NoFuel, r) => (NoFuel, r)
  end.

(** A byte of [bytes()], which reads it by [io::Read::read] *)
Definition br_next : method BR IoError (option byte) :=
  let! buffer := st_try br_rest in
  match buffer with
  | [] => st_ret None
  | b :: _ => let! _ := br_advance 1 in st_ret (Some b)
  end.
End block_reader.

(** [read_exact] of a slice *)
Definition slice_read_exact (n : nat) : method (list byte) IoError (list byte) := λ l,
  if bool_decide (n ≤ length l)%nat then (Ok (take n l), drop n l) else (Err UnexpectedEof, []).

(** * Values (value.rs)

    What a table asks of the type of its values: a writer that collects the values of a block,
    and a reader that takes them from the start of a block. *)
Class ValueWriter (V VW : Type) := {
  vw_default : VW;
  vw_write : V → VW → VW;
  (** what the block becomes, and the writer *)
  vw_write_block : VW → list byte → res IoError (list byte * VW);
}.
Class ValueReader (V VR : Type) := {
  vr_default : VR;
  vr_value : VR → nat → res IoError V;
  vr_read : ∀ R : Type, VR → method (BlockReader R) IoError VR;
}.
Arguments vr_read {V VR _ R} _ _.

(** ** No values *)
#[export] Instance VoidWriter : ValueWriter unit unit := {|
  vw_default := tt; vw_write _ w := w; vw_write_block w block := Ok (block, w) |}.
#[export] Instance VoidReader : ValueReader unit unit := {|
  vr_default := tt; vr_value _ _ := Ok tt; vr_read R r := st_ret r |}.

(** ** Increasing numbers: their differences *)
Record U64Monotonic : Type := mkU64Monotonic { u64_vals : list Z }.

Fixpoint write_deltas (checks : bool) (vals : list Z) (prev_val : Z) (writer : list byte) : res IoError (list byte) :=
  match vals with
  | [] => Ok writer
  | val :: vals =>
      let? delta := fit_word checks 64 (val - prev_val) in
      let? writer := sv_serialize_into_vec delta writer in
      write_deltas checks vals val writer
  end.
Definition u64_write_block (checks : bool) (w : U64Monotonic) (writer : list byte) : res IoError (list byte * U64Monotonic) :=
  let? writer := sv_serialize_into_vec (Z.of_nat (length (u64_vals w))) writer in
  let? writer := write_deltas checks (u64_vals w) 0 writer in
  Ok (writer, mkU64Monotonic []).
#[export] Instance U64MonotonicWriter (checks : bool) : ValueWriter Z U64Monotonic := {|
  vw_default := mkU64Monotonic [];
  vw_write val w := mkU64Monotonic (u64_vals w ++ [val]);
  vw_write_block := u64_write_block checks |}.

Fixpoint read_deltas {R} (checks : bool) (n : nat) (prev_val : Z) (vals : list Z) : method (BlockReader R) IoError (list Z) :=
  match n with
  | O => st_ret vals
  | S n =>
      let! delta := deserialize_u64 checks in
      let! val := st_try (λ _, fit_word checks 64 (prev_val + delta)) in
      read_deltas checks n val (vals ++ [val])
  end.
Definition u64_read {R} (checks : bool) (_ : U64Monotonic) : method (BlockReader R) IoError U64Monotonic :=
  let! len := deserialize_u64 checks in
  let! vals := read_deltas checks (Z.to_nat len) 0 [] in st_ret (mkU64Monotonic vals).
#[export] Instance U64MonotonicReader (checks : bool) : ValueReader Z U64Monotonic := {|
  vr_default := mkU64Monotonic [];
  vr_value r idx := at_index (u64_vals r) idx;
  vr_read R := u64_read checks |}.

(** * The keys of a block (delta.rs) *)

Definition FOUR_BIT_LIMITS : nat := 16.
Definition VINT_MODE : byte := x01.
Definition BLOCK_LEN : Z := 32000.

(** The bytes before the suffix of a key, in the place they are written *)
Definition encode_keep_add {E} (keep_len add_len : nat) (block : list byte) : res E (list byte) :=
  if bool_decide (keep_len < FOUR_BIT_LIMITS)%nat && bool_decide (add_len < FOUR_BIT_LIMITS)%nat then
    let b := as_u8 (Z.lor (Z.of_nat keep_len) (Z.shiftl (Z.of_nat add_len) 4)) in
    Ok (block ++ [byte_of b])
  else
    let buf := replicate 20 VINT_MODE in
    let? (n, tail) := sv_serialize (Z.of_nat keep_len) (drop 1 buf) in
    let buf := splice 1 tail buf in
    let len := (1 + n)%nat in
    let? (n, tail) := sv_serialize (Z.of_nat add_len) (drop len buf) in
    let buf := splice len tail buf in
    let len := (len + n)%nat in
    let? bytes := slice 0 len buf in Ok (block ++ bytes).

Section delta_writer.
Context {V VW W : Type} `{ValueWriter V VW}.
Variable write_all : list byte → method W IoError unit.

(** [write] is the writer with the number of bytes that are written to it ([CountingWriter]). *)
Record DeltaWriter : Type := mkDeltaWriter {
  dw_block : list byte; dw_underlying : W; dw_written : nat; dw_values : VW }.

Definition DeltaWriter_new (wrt : W) : DeltaWriter := mkDeltaWriter [] wrt 0 vw_default.

Definition set_dw_block (b : list byte) (d : DeltaWriter) := mkDeltaWriter b (dw_underlying d) (dw_written d) (dw_values d).
Definition set_dw_values (v : VW) (d : DeltaWriter) := mkDeltaWriter (dw_block d) (dw_underlying d) (dw_written d) v.

Definition counting_write_all (buf : list byte) : method DeltaWriter IoError unit := λ d,
  let '(x, w) := write_all buf (dw_underlying d) in
  match x with
  | Ok _ => (x, mkDeltaWriter (dw_block d) w (dw_written d + length buf) (dw_values d))
  | _ => (x, mkDeltaWriter (dw_block d) w (dw_written d) (dw_values d))
  end.

Definition dw_flush_block : method DeltaWriter IoError (option (nat * nat)) :=
  let! block := st_get dw_block in
  if bool_decide (block = []) then st_ret None
  else
    let! start_offset := st_get dw_written in
    let! (buffer, values) := st_try (λ d, vw_write_block (dw_values d) []) in
    let! _ := st_set (set_dw_values values) in
    let block_len := Z.of_nat (length buffer + length block) in
    let! _ := counting_write_all (to_le 4 (as_u32 block_len)) in
    let! _ := counting_write_all buffer in
    let! _ := counting_write_all block in
    let! end_offset := st_get dw_written in
    let! _ := st_set (set_dw_block []) in
    st_ret (Some (start_offset, end_offset)).

Definition write_suffix (common_prefix_len : nat) (suffix : list byte) : method DeltaWriter IoError unit :=
  let! block := st_try (λ d, encode_keep_add common_prefix_len (length suffix) (dw_block d)) in
  st_set (set_dw_block (block ++ suffix)).

Definition dw_write_value (value : V) : method DeltaWriter IoError unit :=
  st_set (λ d, set_dw_values (vw_write value (dw_values d)) d).

Definition dw_flush_block_if_required : method DeltaWriter IoError (option (nat * nat)) :=
  let! n := st_get (λ d, length (dw_block d)) in
  if bool_decide (BLOCK_LEN < Z.of_nat n) then dw_flush_block else st_ret None.
End delta_writer.
Arguments DeltaWriter : clear implicits.

Section delta_reader.
Context {V VR R : Type} `{ValueReader V VR}.
Variable checks : bool.
Variable read_exact : nat → method R IoError (list byte).

Record DeltaReader : Type := mkDeltaReader {
  dr_common_prefix_len : nat; dr_suffix_start : nat; dr_suffix_end : nat;
  dr_values : VR; dr_blocks : BlockReader R; dr_idx : nat }.

Definition DeltaReader_new (reader : R) : DeltaReader := mkDeltaReader 0 0 0 vr_default (BlockReader_new reader) 0.

Definition set_dr_idx (n : nat) (d : DeltaReader) :=
  mkDeltaReader (dr_common_prefix_len d) (dr_suffix_start d) (dr_suffix_end d) (dr_values d) (dr_blocks d) n.
Definition set_dr_values (v : VR) (d : DeltaReader) :=
  mkDeltaReader (dr_common_prefix_len d) (dr_suffix_start d) (dr_suffix_end d) v (dr_blocks d) (dr_idx d).
Definition on_blocks {A} (m : method (BlockReader R) IoError A) : method DeltaReader IoError A := λ d,
  let '(x, b) := m (dr_blocks d) in
  (x, mkDeltaReader (dr_common_prefix_len d) (dr_suffix_start d) (dr_suffix_end d) (dr_values d) b (dr_idx d)).

Definition read_keep_add : method (BlockReader R) IoError (option (nat * nat)) :=
  let! buf := st_try br_rest in
  match buf with
  | [] => st_ret None
  | b :: _ =>
      let! _ := br_advance 1 in
      if bool_decide (b = VINT_MODE) then
        let! keep := deserialize_u64 checks in
        let! add := deserialize_u64 checks in
        st_ret (Some (Z.to_nat keep, Z.to_nat add))
      else
        let keep := Z.land (byte_val b) 15 in
        let add := Z.shiftr (byte_val b) 4 in
        st_ret (Some (Z.to_nat keep, Z.to_nat add))
  end.

Definition read_delta_key : method DeltaReader IoError bool :=
  let! ka := on_blocks read_keep_add in
  match ka with
  | Some (keep, add) =>
      let! _ := st_set (λ d, mkDeltaReader keep (br_offset (dr_blocks d)) (br_offset (dr_blocks d) + add)
                               (dr_values d) (dr_blocks d) (dr_idx d)) in
      let! _ := on_blocks (br_advance add) in st_ret true
  | None => st_ret false
  end.

Definition dr_advance : method DeltaReader IoError bool :=
  let! buffer := st_try (λ d, br_rest (dr_blocks d)) in
  let! more :=
    if bool_decide (buffer = []) then
      let! more := on_blocks (read_block read_exact) in
      if more : bool then
        let! values := st_get dr_values in
        let! values := on_blocks (vr_read values) in
        let! _ := st_set (set_dr_values values) in
        let! _ := st_set (set_dr_idx 0) in st_ret true
      else st_ret false
    else let! _ := st_set (λ d, set_dr_idx (dr_idx d + 1) d) in st_ret true in
  if more : bool then read_delta_key else st_ret false.

Definition dr_suffix (d : DeltaReader) : res IoError (list byte) :=
  buffer_from_to (dr_blocks d) (dr_suffix_start d) (dr_suffix_end d).
Definition dr_value (d : DeltaReader) : res IoError V := vr_value (dr_values d) (dr_idx d).
End delta_reader.
Arguments DeltaReader : clear implicits.

(** * The index of the blocks (sstable_index.rs) *)

Record BlockAddr : Type := mkBlockAddr { byte_range : nat * nat; first_ordinal : nat }.
Record BlockMeta : Type := mkBlockMeta { last_key_or_greater : key; block_addr : BlockAddr }.

Definition search (blocks : list BlockMeta) (k : key) : option BlockAddr :=
  (λ b, block_addr b.2) <$> list_find (λ b, key_le k (last_key_or_greater b) = true) blocks.

(** The loop over the positions from [pos] on, [n] of them *)
Fixpoint shorten_loop (n pos : nat) (lhs : key) : res IoError key :=
  match n with
  | O => Ok lhs
  | S n =>
      let? c := at_index lhs pos in
      if bool_decide (byte_val c ≠ 255) then
        let? lhs := write_at lhs pos (byte_of (byte_val c + 1)) in Ok (take (pos + 1) lhs)
      else shorten_loop n (S pos) lhs
  end.
Definition find_shorter_str_in_between (lhs rhs : key) : res IoError key :=
  if key_lt lhs rhs then
    let common_len := common_prefix_len lhs rhs in
    if bool_decide (length lhs = common_len) then Ok lhs
    else shorten_loop (length lhs - (common_len + 1)) (common_len + 1) lhs
  else Panic.

(** The change of the last element ([last_mut]) *)
Fixpoint shorten_last_block_key_given_next_key (next_key : key) (blocks : list BlockMeta) : res IoError (list BlockMeta) :=
  match blocks with
  | [] => Ok []
  | [last_block] =>
      let? k := find_shorter_str_in_between (last_key_or_greater last_block) next_key in
      Ok [mkBlockMeta k (block_addr last_block)]
  | b :: blocks => let? blocks := shorten_last_block_key_given_next_key next_key blocks in Ok (b :: blocks)
  end.

Definition add_block (last_key : key) (range : nat * nat) (ordinal : nat) (blocks : list BlockMeta) : list BlockMeta :=
  blocks ++ [mkBlockMeta last_key (mkBlockAddr range ordinal)].

(** * The table (mod.rs) *)

Section writer.
Context {V VW W : Type} `{ValueWriter V VW}.
Variable write_all : list byte → method W IoError unit.

Record Writer : Type := mkWriter {
  previous_key : key; wr_index : list BlockMeta; wr_delta : DeltaWriter VW W;
  num_terms : nat; first_ordinal_of_the_block : nat }.

Definition Writer_new (wrt : W) : Writer := mkWriter [] [] (DeltaWriter_new wrt) 0 0.

Definition set_previous_key (k : key) (w : Writer) :=
  mkWriter k (wr_index w) (wr_delta w) (num_terms w) (first_ordinal_of_the_block w).
Definition set_index (l : list BlockMeta) (w : Writer) :=
  mkWriter (previous_key w) l (wr_delta w) (num_terms w) (first_ordinal_of_the_block w).
Definition set_num_terms (n : nat) (w : Writer) :=
  mkWriter (previous_key w) (wr_index w) (wr_delta w) n (first_ordinal_of_the_block w).
Definition set_first_ordinal (n : nat) (w : Writer) :=
  mkWriter (previous_key w) (wr_index w) (wr_delta w) (num_terms w) n.
Definition on_delta {A} (m : method (DeltaWriter VW W) IoError A) : method Writer IoError A := λ w,
  let '(x, d) := m (wr_delta w) in
  (x, mkWriter (previous_key w) (wr_index w) d (num_terms w) (first_ordinal_of_the_block w)).

(** The condition of the assertion, with the indexing that it can fail at *)
Definition increasing_keys (previous_key key : key) (keep_len add_len : nat) : res IoError bool :=
  if bool_decide (0 < add_len)%nat && bool_decide (length previous_key = keep_len) then Ok true
  else if bool_decide (previous_key = []) then Ok true
  else
    let? x := at_index previous_key keep_len in
    let? y := at_index key keep_len in Ok (bool_decide (byte_val x < byte_val y)).

Definition write_key (key : key) : method Writer IoError unit :=
  let! first := st_get (λ w, bool_decide (first_ordinal_of_the_block w = num_terms w)) in
  let! _ :=
    if first : bool then
      let! index := st_try (λ w, shorten_last_block_key_given_next_key key (wr_index w)) in
      st_set (set_index index)
    else st_ret tt in
  let! previous := st_get previous_key in
  let keep_len := common_prefix_len previous key in
  let add_len := (length key - keep_len)%nat in
  let! increasing := st_try (λ _, increasing_keys previous key keep_len add_len) in
  let! _ := st_try (λ _, if increasing : bool then Ok tt else Panic) in
  let! _ := st_set (set_previous_key (splice keep_len (drop keep_len key) (vec_resize (length key) previous))) in
  on_delta (write_suffix keep_len (drop keep_len key)).

(** What is done with a block that is flushed *)
Definition block_done (clear : bool) (range : option (nat * nat)) : method Writer IoError unit :=
  match range with
  | Some byte_range =>
      let! _ := st_set (λ w, set_index (add_block (previous_key w) byte_range (first_ordinal_of_the_block w) (wr_index w)) w) in
      let! _ := st_set (λ w, set_first_ordinal (num_terms w) w) in
      if clear then st_set (set_previous_key []) else st_ret tt
  | None => st_ret tt
  end.

Definition flush_block_if_required : method Writer IoError unit :=
  let! byte_range := on_delta (dw_flush_block_if_required write_all) in block_done true byte_range.

Definition write_value (value : V) : method Writer IoError unit :=
  let! _ := on_delta (dw_write_value value) in
  let! _ := st_set (λ w, set_num_terms (num_terms w + 1) w) in
  flush_block_if_required.

Definition write (key : key) (value : V) : method Writer IoError unit :=
  let! _ := write_key key in write_value value.

(** [index_bytes] is what the serializer of the index writes, [into_inner] the end of the
    buffered writer. *)
Definition finalize (index_bytes : list BlockMeta → list byte) (into_inner : method W IoError unit) :
    method Writer IoError unit :=
  let! byte_range := on_delta (dw_flush_block write_all) in
  let! _ := block_done false byte_range in
  let! _ := on_delta (counting_write_all write_all (to_le 4 0)) in
  let! offset := st_get (λ w, dw_written (wr_delta w)) in
  let! _ := λ w, on_delta (counting_write_all write_all (index_bytes (wr_index w))) w in
  let! _ := on_delta (counting_write_all write_all (to_le 8 (Z.of_nat offset))) in
  let! n := st_get num_terms in
  let! _ := on_delta (counting_write_all write_all (to_le 8 (Z.of_nat n))) in
  on_delta (λ d, let '(x, u) := into_inner (dw_underlying d) in (x, mkDeltaWriter (dw_block d) u (dw_written d) (dw_values d))).

(** [write] of all the entries *)
Fixpoint write_entries (entries : list (key * V)) : method Writer IoError unit :=
  match entries with
  | [] => st_ret tt
  | (k, v) :: entries => let! _ := write k v in write_entries entries
  end.
End writer.
Arguments Writer : clear implicits.

Section reader.
Context {V VR R : Type} `{ValueReader V VR}.
Variable checks : bool.
Variable read_exact : nat → method R IoError (list byte).

Record Reader : Type := mkReader { rd_key : key; rd_delta : DeltaReader VR R }.

Definition Reader_new (reader : R) : Reader := mkReader [] (DeltaReader_new reader).

(** [self.key[common_prefix_len..].copy_from_slice(suffix)] after [resize] *)
Definition rd_advance : method Reader IoError bool :=
  let! more := λ r, let '(x, d) := dr_advance checks read_exact (rd_delta r) in (x, mkReader (rd_key r) d) in
  if more : bool then
    let! keep := st_get (λ r, dr_common_prefix_len (rd_delta r)) in
    let! suffix := st_try (λ r, dr_suffix (rd_delta r)) in
    let! key := st_try (λ r, copy_at keep suffix (vec_resize (keep + length suffix) (rd_key r))) in
    let! _ := st_set (λ r, mkReader key (rd_delta r)) in st_ret true
  else st_ret false.

Definition rd_value (r : Reader) : res IoError V := dr_value (rd_delta r).

(** The keys and values of [n] calls at most, up to the first that gives [false] *)
Fixpoint read_entries (n : nat) : method Reader IoError (list (key * V)) :=
  match n with
  | O => λ r, (NoFuel, r)
  | S n =>
      let! more := rd_advance in
      if more : bool then
        let! k := st_get rd_key in
        let! v := st_try rd_value in
        let! l := read_entries n in st_ret ((k, v) :: l)
      else st_ret []
  end.
End reader.
Arguments Reader : clear implicits.
