(* ===== verification/TanBlocks.v ===== *)
(** What a block of a sorted table of tantivy holds: keys in their order, the string between two
    keys, the bytes of a block's keys, and values that are read as they were written. *)
From Stdlib Require Import ZArith Lia Strings.Byte Sorted.
From stdpp Require Import base list numbers option.
From S2P Require Import Prelude StateMonad Words TanVint TanSstable.
#[local] Open Scope Z_scope.

(** * Keys in order *)

Lemma key_lt_app_head p a b : key_lt (p ++ a) (p ++ b) = key_lt a b.
Proof. induction p as [|x p IH]; [done|]. unfold key_lt in *. cbn [app key_cmp]. by rewrite Z.compare_refl. Qed.

Lemma key_lt_nil_l k : key_lt [] k = true ↔ k ≠ [].
Proof. by destruct k. Qed.

Lemma key_lt_cons x a y b : key_lt (x :: a) (y :: b) = true ↔
  byte_val x < byte_val y ∨ x = y ∧ key_lt a b = true.
Proof.
  unfold key_lt. cbn [key_cmp]. destruct (Z.compare_spec (byte_val x) (byte_val y)) as [He|Hl|Hg].
  - apply byte_val_inj in He as ->. split; [by right|]. intros [?|[_ ?]]; [lia|done].
  - split; [by left|done].
  - split; [done|]. intros [?|[-> _]]; lia.
Qed.

Lemma key_le_lt a b : key_le a b = true ↔ a = b ∨ key_lt a b = true.
Proof.
  unfold key_le, key_lt. revert b. induction a as [|x a IH]; intros [|y b]; cbn [key_cmp]; try (split; [auto|intros [?|?]; done]).
  destruct (Z.compare_spec (byte_val x) (byte_val y)) as [He|Hl|Hg].
  - apply byte_val_inj in He as ->. rewrite IH. split; intros [?|?]; auto; left; congruence.
  - split; [by right|done].
  - split; [done|]. intros [[= -> ->]|?]; [lia|done].
Qed.

Lemma key_lt_trans a b c : key_lt a b = true → key_lt b c = true → key_lt a c = true.
Proof.
  revert b c. induction a as [|x a IH]; intros [|y b] [|z c]; try done.
  rewrite !key_lt_cons. intros [?|[-> ?]] [?|[-> ?]]; [left; lia|by left|by left|right; split; [done|]].
  by eapply IH.
Qed.

Lemma key_lt_irrefl a : key_lt a a = false.
Proof. induction a as [|x a IH]; [done|]. unfold key_lt in *. cbn [key_cmp]. by rewrite Z.compare_refl. Qed.

Lemma key_le_lt_trans a b c : key_le a b = true → key_lt b c = true → key_lt a c = true.
Proof. intros [->|Hab]%key_le_lt Hbc; [done|]. by eapply key_lt_trans. Qed.

Lemma key_le_total a b : key_le a b = false → key_lt b a = true.
Proof.
  unfold key_le, key_lt. revert b. induction a as [|x a IH]; intros [|y b]; cbn [key_cmp]; try done.
  rewrite (Z.compare_antisym (byte_val x)). destruct (byte_val x ?= byte_val y); try done. apply IH.
Qed.

(** ** The common prefix *)

Lemma common_prefix_spec a b : let n := common_prefix_len a b in
  (n ≤ length a)%nat ∧ (n ≤ length b)%nat ∧ take n a = take n b.
Proof.
  revert b. induction a as [|x a IH]; intros [|y b]; cbn; try (split_and!; [lia..|done]).
  case_bool_decide as He; [|split_and!; [lia..|done]]. destruct (IH b) as (H1 & H2 & H3). cbn.
  split_and!; [lia..|]. by rewrite He, H3.
Qed.

Lemma common_prefix_join a b : take (common_prefix_len a b) a ++ drop (common_prefix_len a b) b = b.
Proof. destruct (common_prefix_spec a b) as (_ & _ & ->). apply take_drop. Qed.

(** Behind the common prefix the smaller key ends or has a smaller byte. *)
Lemma lt_behind_prefix a b : key_lt a b = true → let n := common_prefix_len a b in
  (n < length b)%nat ∧ (length a = n ∨ ∃ x y, a !! n = Some x ∧ b !! n = Some y ∧ byte_val x < byte_val y).
Proof.
  revert b. induction a as [|x a IH]; intros [|y b]; cbn [common_prefix_len length]; try done.
  - intros _. split; [lia|by left].
  - rewrite key_lt_cons. case_bool_decide as He.
    + subst. intros [?|[_ Hl]]; [lia|]. destruct (IH b Hl) as [Hlen Hcase]. cbn. split; [lia|].
      destruct Hcase as [?|?]; [left; lia|by right].
    + intros [Hl|[? _]]; [|done]. cbn. split; [lia|]. right. eauto.
Qed.

Lemma increasing_is a b : a = [] ∨ key_lt a b = true →
  increasing_keys a b (common_prefix_len a b) (length b - common_prefix_len a b) = Ok true.
Proof.
  intros Hab. unfold increasing_keys. destruct (decide (a = [])) as [->|Hne].
  { rewrite (bool_decide_true ([] = [])) by done. by destruct (_ && _). }
  destruct Hab as [?|Hab]; [done|]. destruct (lt_behind_prefix a b Hab) as [Hlen Hcase].
  rewrite (bool_decide_true (0 < _)%nat) by lia. cbn [andb].
  destruct (decide (length a = common_prefix_len a b)); [by rewrite bool_decide_true|].
  rewrite !bool_decide_false by done. destruct Hcase as [?|(x & y & Hx & Hy & Hxy)]; [done|].
  unfold at_index. rewrite Hx, Hy. cbn [res_bind]. by rewrite bool_decide_true.
Qed.

(** Keys that are not increasing are a panic, the second one of two empty keys excepted. *)
Lemma not_increasing a b : a ≠ [] → key_lt a b = false →
  increasing_keys a b (common_prefix_len a b) (length b - common_prefix_len a b) ≠ Ok true.
Proof.
  intros Hne Hlt. unfold increasing_keys. rewrite (bool_decide_false (a = [])) by done.
  assert (∀ c d, key_lt c d = false → (common_prefix_len c d < length d)%nat ∧ length c = common_prefix_len c d ∨
     (∃ x y, c !! common_prefix_len c d = Some x ∧ d !! common_prefix_len c d = Some y ∧ byte_val x < byte_val y) → False) as Hno.
  { clear. induction c as [|x c IH]; intros [|y d] Hf; cbn [common_prefix_len length lookup list_lookup].
    - intros [[? _]|(? & ? & ? & _)]; [simpl in *; lia|done].
    - done.
    - intros [[? ?]|(? & ? & ? & ? & _)]; [simpl in *; lia|done].
    - case_bool_decide as He.
      + subst. intros Hcase. apply (IH d).
        * destruct (key_lt c d) eqn:Hcd; [|done]. assert (key_lt (y :: c) (y :: d) = true) by (apply key_lt_cons; by right). congruence.
        * destruct Hcase as [[? ?]|Hc]; [left; simpl in *; lia|by right].
      + intros [[? ?]|(x' & y' & [= <-] & [= <-] & Hxy)]; [done|].
        assert (key_lt (x :: c) (y :: d) = true) by (apply key_lt_cons; by left). congruence. }
  destruct (bool_decide (0 < _)%nat && _) eqn:Hb.
  - apply andb_prop in Hb as [H1%bool_decide_eq_true H2%bool_decide_eq_true]. intros _.
    apply (Hno a b Hlt). left. split; [lia|done].
  - clear Hb. unfold at_index. destruct (a !! _) as [x|] eqn:Hx; [|done]. destruct (b !! _) as [y|] eqn:Hy; [|done].
    cbn [res_bind]. case_bool_decide; [|done]. intros _. apply (Hno a b Hlt). right. eauto.
Qed.

(** ** The string between two keys *)

Lemma shorten_loop_is n pos a b : (pos + n)%nat = length a → key_lt (take pos a) b = true →
  (∀ s, key_lt (take pos a ++ s) b = true) →
  ∃ a', shorten_loop n pos a = Ok a' ∧ key_le a a' = true ∧ key_lt a' b = true ∧ (length a' ≤ length a)%nat.
Proof.
  intros Hlen Hlt Hany. revert pos Hlen Hlt Hany. induction n as [|n IH]; intros pos Hlen Hlt Hany.
  - exists a. split; [done|]. rewrite take_ge in Hlt by lia. split; [apply key_le_lt; by left|]. split; [done|lia].
  - cbn [shorten_loop]. destruct (lookup_lt_is_Some_2 a pos) as [c Hc]; [lia|]. unfold at_index. rewrite Hc. cbn [res_bind].
    pose proof (byte_val_range c). destruct (decide (byte_val c = 255)) as [He|Hne].
    + rewrite bool_decide_false by (intros Hn; by apply Hn). apply IH.
      * lia.
      * rewrite (take_S_r _ _ _ Hc). apply Hany.
      * intros s. rewrite (take_S_r _ _ _ Hc), <- app_assoc. apply Hany.
    + rewrite bool_decide_true by done. rewrite write_at_Ok by lia. cbn [res_bind]. eexists. split; [done|].
      rewrite insert_take_drop by lia.
      rewrite Nat.add_1_r. assert (length (take pos a) = pos) as Hl by (rewrite length_take; lia).
      assert (take (S pos) (take pos a ++ byte_of (byte_val c + 1) :: drop (S pos) a) = take pos a ++ [byte_of (byte_val c + 1)]) as ->.
      { rewrite take_app, Hl. rewrite take_take, Nat.min_r by lia. f_equal. replace (S pos - pos)%nat with 1%nat by lia. done. }
      split; [|split; [apply Hany|rewrite length_app, Hl; simpl; lia]].
      apply key_le_lt. right. rewrite <- (take_drop_middle a pos c Hc) at 1.
      rewrite key_lt_app_head. apply key_lt_cons. left. rewrite byte_val_of_small by lia. lia.
Qed.

Lemma find_shorter_is a b : key_lt a b = true →
  ∃ a', find_shorter_str_in_between a b = Ok a' ∧ key_le a a' = true ∧ key_lt a' b = true ∧ (length a' ≤ length a)%nat.
Proof.
  intros Hab. unfold find_shorter_str_in_between. rewrite Hab.
  destruct (common_prefix_spec a b) as (Hla & Hlb & Htake). destruct (lt_behind_prefix a b Hab) as [Hlen Hcase].
  set (n := common_prefix_len a b) in *. destruct (decide (length a = n)) as [He|Hne].
  { rewrite bool_decide_true by done. exists a. split; [done|]. split; [apply key_le_lt; by left|]. split; [done|lia]. }
  rewrite bool_decide_false by done. destruct Hcase as [?|(x & y & Hx & Hy & Hxy)]; [done|].
  assert (∀ s, key_lt (take (n + 1) a ++ s) b = true) as Hany.
  { intros s. rewrite Nat.add_1_r, (take_S_r _ _ _ Hx), <- app_assoc, Htake.
    rewrite <- (take_drop_middle b n y Hy) at 2. rewrite key_lt_app_head. cbn. apply key_lt_cons. by left. }
  apply shorten_loop_is; [lia| |done]. specialize (Hany []). by rewrite app_nil_r in Hany.
Qed.

(** * The bytes of a block *)

Definition keep_add_bytes (keep add : nat) : list byte :=
  if bool_decide (keep < 16)%nat && bool_decide (add < 16)%nat then [byte_of (Z.of_nat keep + 16 * Z.of_nat add)]
  else VINT_MODE :: cint (Z.of_nat keep) ++ cint (Z.of_nat add).

Definition suffix_of (prev k : key) : list byte := drop (common_prefix_len prev k) k.

Definition entry_bytes (prev k : key) : list byte :=
  keep_add_bytes (common_prefix_len prev k) (length k - common_prefix_len prev k) ++ suffix_of prev k.

Fixpoint keys_bytes (prev : key) (keys : list key) : list byte :=
  match keys with [] => [] | k :: keys => entry_bytes prev k ++ keys_bytes k keys end.

Lemma keys_bytes_app prev a b : keys_bytes prev (a ++ b) = keys_bytes prev a ++ keys_bytes (List.last a prev) b.
Proof.
  revert prev. induction a as [|k a IH]; intros prev; [done|]. cbn [app keys_bytes]. rewrite IH, <- app_assoc.
  do 2 f_equal. f_equal. clear. revert k prev. induction a as [|x a IH]; intros k prev; [done|]. cbn [List.last].
  destruct a; [done|]. apply (IH k prev) || apply IH.
Qed.

(** A slice has at most [isize::MAX] bytes. *)
Definition slice_size (n : nat) : Prop := Z.of_nat n < 2 ^ 63.

Lemma length_cint9 v : 0 ≤ v < 2 ^ 63 → (length (cint v) ≤ 9)%nat.
Proof.
  intros Hv. unfold cint. replace 10%nat with (9 + 1)%nat by done.
  rewrite digits_fuel by (change (128 ^ Z.of_nat 9) with (2 ^ 63); lia). apply length_digits.
Qed.

(** What is written into the rest of a buffer *)
Lemma fill_rest {A} (pre bs fill : list A) : (length bs ≤ length fill)%nat →
  splice (length pre) (splice 0 bs (drop (length pre) (pre ++ fill))) (pre ++ fill) = (pre ++ bs) ++ drop (length bs) fill.
Proof.
  intros Hl. rewrite drop_app_length. unfold splice. cbn [take app Nat.add]. rewrite take_app_length.
  rewrite (drop_ge (pre ++ fill)) by (rewrite !length_app, length_drop; lia). by rewrite app_nil_r, <- app_assoc.
Qed.

Lemma encode_keep_add_is {E} keep add block : slice_size keep → slice_size add →
  encode_keep_add (E := E) keep add block = Ok (block ++ keep_add_bytes keep add).
Proof.
  intros Hk Ha. unfold encode_keep_add, keep_add_bytes, slice_size, FOUR_BIT_LIMITS in *.
  destruct (bool_decide (keep < 16)%nat && bool_decide (add < 16)%nat) eqn:Hsmall.
  - apply andb_prop in Hsmall as [H1%bool_decide_eq_true H2%bool_decide_eq_true].
    do 4 f_equal. unfold as_u8. rewrite (lor_low_high (Z.of_nat keep) (Z.of_nat add) 4) by lia.
    rewrite Z.mod_small by lia. lia.
  - set (buf := replicate 20 VINT_MODE).
    rewrite (sv_serialize_is (Z.of_nat keep) (drop 1 buf) 19) by (done || lia). cbn [res_bind].
    pose proof (length_cint9 (Z.of_nat keep) ltac:(lia)). pose proof (length_cint (Z.of_nat add)).
    set (ck := cint (Z.of_nat keep)) in *. set (ca := cint (Z.of_nat add)) in *.
    change buf with ([VINT_MODE] ++ replicate 19 VINT_MODE). change (drop 1 ?l) with (drop (length [VINT_MODE]) l).
    change (splice 1 ?l) with (splice (length [VINT_MODE]) l).
    rewrite (fill_rest [VINT_MODE]) by (rewrite length_replicate; lia). rewrite drop_replicate.
    replace (1 + length ck)%nat with (length ([VINT_MODE] ++ ck)) by done.
    set (fill := replicate (19 - length ck) VINT_MODE).
    assert (length fill = (19 - length ck)%nat) as Hfill by apply length_replicate.
    rewrite (sv_serialize_is (Z.of_nat add) _ (19 - length ck)); [|lia|by rewrite drop_app_length|lia].
    cbn [res_bind]. fold ca. rewrite fill_rest by lia.
    rewrite slice_Ok by (rewrite ?length_app; lia). cbn [res_bind].
    rewrite drop_0, Nat.sub_0_r, take_app_length' by (rewrite !length_app; lia). done.
Qed.

(** * Values that are read as they were written *)

Class ValueCodec (V VW VR : Type) `{!ValueWriter V VW, !ValueReader V VR} := {
  (** the values that a block can have *)
  vc_ok : list V → Prop;
  vc_bytes : list V → list byte;
  vc_ok_app a b : vc_ok (a ++ b) → vc_ok a ∧ vc_ok b;
  vc_length vs : vc_ok vs → Z.of_nat (length vs) < 2 ^ 32 → (length (vc_bytes vs) ≤ 30 * (length vs + 1))%nat;
  vc_write_block vs block : vs ≠ [] → vc_ok vs → Z.of_nat (length vs) < 2 ^ 32 →
    vw_write_block (foldl (λ w v, vw_write v w) vw_default vs) block = Ok (block ++ vc_bytes vs, vw_default);
  vc_read {R} vs vr (r : BlockReader R) rest : vs ≠ [] → vc_ok vs → Z.of_nat (length vs) < 2 ^ 32 →
    drop (br_offset r) (br_buffer r) = vc_bytes vs ++ rest → (br_offset r ≤ length (br_buffer r))%nat →
    ∃ vr', vr_read vr r = (Ok vr', set_offset (br_offset r + length (vc_bytes vs)) r)
      ∧ ∀ i v, vs !! i = Some v → vr_value vr' i = Ok v;
}.
Arguments vc_ok {V VW VR _ _ _} _.
Arguments vc_bytes {V VW VR _ _ _} _.

Lemma set_offset_same {R} (r : BlockReader R) : set_offset (br_offset r) r = r.
Proof. by destruct r. Qed.

#[export] Program Instance VoidCodec : ValueCodec unit unit unit := {| vc_ok _ := True; vc_bytes _ := [] |}.
Next Obligation. done. Qed.
Next Obligation. simpl. lia. Qed.
Next Obligation. intros vs block _ _ _. cbn. rewrite app_nil_r. by destruct (foldl _ _ _). Qed.
Next Obligation.
  intros R vs vr r rest _ _ _ _ _. exists vr. cbn. rewrite Nat.add_0_r, set_offset_same. split; [done|]. by intros i [] _.
Qed.

(** ** A number in a block *)
Lemma br_rest_is {R E} (r : BlockReader R) bs : (br_offset r ≤ length (br_buffer r))%nat →
  drop (br_offset r) (br_buffer r) = bs → br_rest (E := E) r = Ok bs.
Proof. intros Hr <-. unfold br_rest. rewrite slice_Ok by lia. f_equal. apply take_ge. rewrite length_drop. lia. Qed.

Lemma deserialize_u64_is {R} checks v (r : BlockReader R) rest : 0 ≤ v < 2 ^ 64 →
  drop (br_offset r) (br_buffer r) = cint v ++ rest → (br_offset r ≤ length (br_buffer r))%nat →
  deserialize_u64 checks r = (Ok v, set_offset (br_offset r + length (cint v)) r)
  ∧ drop (br_offset r + length (cint v)) (br_buffer r) = rest ∧ (br_offset r + length (cint v) ≤ length (br_buffer r))%nat.
Proof.
  intros Hv Hd Ho. split; [|split].
  - unfold deserialize_u64. rewrite (st_bind_try _ _ _ (cint v ++ rest)) by by apply br_rest_is.
    rewrite (st_bind_try (λ _, deserialize_read checks (cint v ++ rest)) _ _ _ (deserialize_read_is checks v rest Hv)).
    unfold br_advance. rewrite st_bind_set. done.
  - by apply drop_app_inv.
  - apply (f_equal length) in Hd. rewrite length_drop, length_app in Hd. lia.
Qed.

(** ** Increasing numbers *)

Definition deltas_bytes (prev : Z) (vals : list Z) : list byte := concat (cint <$> gaps prev vals).
Definition u64_bytes (vals : list Z) : list byte := cint (Z.of_nat (length vals)) ++ deltas_bytes 0 vals.
Definition u64_ok (vals : list Z) : Prop := ∃ prev, 0 ≤ prev ∧ ascending prev vals ∧ Forall (λ v, 0 ≤ v < 2 ^ 64) vals.

Lemma ascending_weaken p q l : q ≤ p → ascending p l → ascending q l.
Proof. destruct l as [|v l]; [done|]. cbn. intros ? [? ?]. split; [lia|done]. Qed.

Lemma ascending_app p a b : ascending p (a ++ b) → ascending p a ∧ ∃ q, p ≤ q ∧ ascending q b.
Proof.
  revert p. induction a as [|v a IH]; intros p; cbn [app ascending].
  { intros Hb. split; [done|]. exists p. split; [lia|done]. }
  intros [Hle Hasc].
  destruct (IH _ Hasc) as (Ha & q & Hq & Hb). split; [by split|]. exists q. split; [lia|done].
Qed.

Lemma write_deltas_is checks vals prev writer : ascending prev vals → 0 ≤ prev → Forall (λ v, 0 ≤ v < 2 ^ 64) vals →
  write_deltas checks vals prev writer = Ok (writer ++ deltas_bytes prev vals).
Proof.
  intros Hasc Hp Hv. revert prev writer Hasc Hp. induction Hv as [|v vals Hv _ IH]; intros prev writer Hasc Hp.
  - cbn. by rewrite app_nil_r.
  - destruct Hasc as [Hle Hasc]. cbn [write_deltas]. rewrite fit_word_in by lia. cbn [res_bind].
    rewrite sv_into_vec_is by lia. cbn [res_bind]. rewrite IH by (done || lia).
    unfold deltas_bytes. cbn. by rewrite <- app_assoc.
Qed.

Lemma read_deltas_is {R} checks vals prev acc (r : BlockReader R) rest :
  ascending prev vals → 0 ≤ prev → Forall (λ v, 0 ≤ v < 2 ^ 64) vals →
  drop (br_offset r) (br_buffer r) = deltas_bytes prev vals ++ rest → (br_offset r ≤ length (br_buffer r))%nat →
  read_deltas checks (length vals) prev acc r = (Ok (acc ++ vals), set_offset (br_offset r + length (deltas_bytes prev vals)) r).
Proof.
  intros Hasc Hp Hv. revert prev acc r Hasc Hp. induction Hv as [|v vals Hv _ IH]; intros prev acc r Hasc Hp Hd Ho.
  - cbn. by rewrite app_nil_r, Nat.add_0_r, set_offset_same.
  - destruct Hasc as [Hle Hasc]. cbn [read_deltas length].
    unfold deltas_bytes in Hd. cbn in Hd. fold (deltas_bytes v vals) in Hd. rewrite <- app_assoc in Hd.
    destruct (deserialize_u64_is checks (v - prev) r _ ltac:(lia) Hd Ho) as (Hdes & Hd' & Ho').
    rewrite (st_bind_ok _ _ _ _ _ Hdes). replace (prev + (v - prev)) with v by lia.
    rewrite (st_bind_try (λ _, fit_word checks 64 v) _ _ v) by by apply fit_word_in.
    rewrite IH by (done || lia). rewrite <- app_assoc. cbn [br_offset set_offset].
    unfold deltas_bytes at 2. cbn. fold (deltas_bytes v vals). rewrite length_app. f_equal. unfold set_offset. cbn. f_equal. lia.
Qed.

Lemma length_deltas prev vals : (length (deltas_bytes prev vals) ≤ 10 * length vals)%nat.
Proof.
  revert prev. induction vals as [|v vals IH]; intros prev; [simpl; lia|].
  unfold deltas_bytes. cbn [gaps fmap list_fmap concat foldr]. fold (deltas_bytes v vals).
  rewrite length_app. pose proof (length_cint (v - prev)). specialize (IH v). cbn [length]. lia.
Qed.

Lemma foldl_u64 checks vals acc :
  foldl (λ w v, vw_write (ValueWriter := U64MonotonicWriter checks) v w) (mkU64Monotonic acc) vals = mkU64Monotonic (acc ++ vals).
Proof.
  revert acc. induction vals as [|v vals IH]; intros acc; [cbn; by rewrite app_nil_r|]. cbn [foldl].
  etrans; [apply (IH (acc ++ [v]))|]. by rewrite <- app_assoc.
Qed.

#[export] Program Instance U64Codec checks : ValueCodec Z U64Monotonic U64Monotonic
    (ValueWriter0 := U64MonotonicWriter checks) (ValueReader0 := U64MonotonicReader checks) := {|
  vc_ok := u64_ok; vc_bytes := u64_bytes |}.
Next Obligation.
  intros checks a b (prev & Hp & [Ha (q & Hq & Hb)]%ascending_app & [Hva Hvb]%Forall_app). split; [by exists prev|].
  exists q. split; [lia|done].
Qed.
Next Obligation.
  intros checks vs _ _. unfold u64_bytes. rewrite length_app. pose proof (length_cint (Z.of_nat (length vs))).
  pose proof (length_deltas 0 vs). lia.
Qed.
Next Obligation.
  intros checks vs block _ (prev & Hp & Hasc & Hv) Hl. cbn [vw_default U64MonotonicWriter vw_write_block].
  etrans; [apply (f_equal (λ w, u64_write_block checks w block)), foldl_u64|]. unfold u64_write_block. cbn [u64_vals app].
  rewrite sv_into_vec_is by lia. cbn [res_bind].
  rewrite write_deltas_is by (done || by apply (ascending_weaken prev)). cbn [res_bind].
  unfold u64_bytes. by rewrite <- app_assoc.
Qed.
Next Obligation.
  intros checks R vs vr r rest _ (prev & Hp & Hasc & Hv) Hl Hd Ho. cbn [vr_read vr_value U64MonotonicReader].
  unfold u64_bytes in *. rewrite <- app_assoc in Hd. exists (mkU64Monotonic vs).
  destruct (deserialize_u64_is checks (Z.of_nat (length vs)) r _ ltac:(lia) Hd Ho) as (Hdes & Hd' & Ho'). split.
  - unfold u64_read. rewrite (st_bind_ok _ _ _ _ _ Hdes). rewrite Nat2Z.id.
    unfold st_bind. rewrite (read_deltas_is checks vs 0 [] _ rest); [|by apply (ascending_weaken prev)|done|done|done|done].
    unfold st_ret. f_equal. unfold set_offset. cbn. rewrite length_app. f_equal. lia.
  - intros i v Hi. unfold at_index. cbn [u64_vals]. by rewrite Hi.
Qed.
