(* ===== verification/TanTable.v ===== *)
(** The tables of tantivy from end to end: what a writer of sorted entries leaves in the file,
    what readers of the whole file and of one block give back, and the search in the index. *)
From Stdlib Require Import ZArith Lia Strings.Byte Sorted.
From stdpp Require Import base list numbers option.
From S2P Require Import Prelude StateMonad Words TanVint TanSstable TanBlocks.
#[local] Open Scope Z_scope.

(** * What is written

    [done] are the entries of the blocks that are written, [cur] those of the block that is
    not. *)
Section table.
Context {V VW VR : Type} `{HW : !ValueWriter V VW} `{HR : !ValueReader V VR} `{HC : !ValueCodec V VW VR}.
Abbreviation entry := (key * V)%type.
Abbreviation keys := (fmap fst).
Abbreviation vals := (fmap snd).

Definition payload (b : list entry) : list byte := vc_bytes (vals b) ++ keys_bytes [] (keys b).
Definition block_bytes (b : list entry) : list byte := to_le 4 (Z.of_nat (length (payload b))) ++ payload b.
Definition all_blocks (blocks : list (list entry)) : list byte := concat (block_bytes <$> blocks).
Definition last_key (b : list entry) : key := List.last (keys b) [].

Lemma all_blocks_app a b : all_blocks (a ++ b) = all_blocks a ++ all_blocks b.
Proof. unfold all_blocks. by rewrite fmap_app, concat_app. Qed.

Lemma all_blocks_one b : all_blocks [b] = block_bytes b.
Proof. apply app_nil_r. Qed.

(** The key after a block: the first one of the next block, or [next] *)
Definition key_after (blocks : list (list entry)) (next : option key) : option key :=
  match blocks with [] => next | b :: _ => head (keys b) end.

(** The entry of the index for a block: where it is, and a string between its last key and the
    key after it *)
Definition meta_ok (off ord : nat) (b : list entry) (m : BlockMeta) (next : option key) : Prop :=
  block_addr m = mkBlockAddr (off, (off + length (block_bytes b))%nat) ord ∧
  match next with
  | None => last_key_or_greater m = last_key b
  | Some k => key_le (last_key b) (last_key_or_greater m) = true ∧ key_lt (last_key_or_greater m) k = true
  end.

Fixpoint index_ok (off ord : nat) (blocks : list (list entry)) (metas : list BlockMeta) (next : option key) : Prop :=
  match blocks, metas with
  | [], [] => True
  | b :: blocks, m :: metas =>
      meta_ok off ord b m (key_after blocks next) ∧
      index_ok (off + length (block_bytes b)) (ord + length b) blocks metas next
  | _, _ => False
  end.

Lemma index_shorten off ord blocks metas k :
  index_ok off ord blocks metas None → (∀ b, list.last blocks = Some b → key_lt (last_key b) k = true) →
  ∃ metas', shorten_last_block_key_given_next_key k metas = Ok metas' ∧ index_ok off ord blocks metas' (Some k).
Proof.
  revert off ord metas. induction blocks as [|b blocks IH]; intros off ord [|m metas] Hi Hlast; try done.
  { by exists []. }
  destruct Hi as [Hm Hi]. destruct blocks as [|b' blocks].
  - destruct metas as [|? ?]; [|done]. cbn [shorten_last_block_key_given_next_key].
    destruct Hm as [Haddr Hkey]. cbn in Hkey. rewrite Hkey.
    destruct (find_shorter_is (last_key b) k) as (s & -> & Hle & Hlt & _); [by apply Hlast|]. cbn [res_bind].
    eexists. split; [done|]. cbn [index_ok]. split; [|done]. split; [done|]. by split.
  - destruct metas as [|m' metas]; [done|].
    destruct (IH _ _ (m' :: metas) Hi) as (metas' & Hs & Hi'); [by intros b0 Hb0; apply Hlast|].
    cbn [shorten_last_block_key_given_next_key] in *. rewrite Hs. cbn [res_bind]. eexists. split; [done|].
    cbn [index_ok] in *. by split.
Qed.

Lemma length_all_blocks blocks : length (all_blocks blocks) = foldr (λ b n, length (block_bytes b) + n)%nat 0%nat blocks.
Proof.
  induction blocks as [|b blocks IH]; [done|]. change (all_blocks (b :: blocks)) with (block_bytes b ++ all_blocks blocks).
  by rewrite length_app, IH.
Qed.

Lemma index_add off ord blocks metas cur :
  index_ok off ord blocks metas (head (keys cur)) → cur ≠ [] →
  index_ok off ord (blocks ++ [cur])
    (add_block (last_key cur) ((off + length (all_blocks blocks))%nat, (off + length (all_blocks blocks) + length (block_bytes cur))%nat)
       (ord + length (concat blocks))%nat metas) None.
Proof.
  intros Hi Hne. revert off ord metas Hi. induction blocks as [|b blocks IH]; intros off ord [|m metas] Hi; try done.
  - cbn. rewrite !Nat.add_0_r. done.
  - destruct Hi as [Hm Hi]. unfold add_block in *. cbn [app index_ok]. split.
    + destruct blocks as [|b' blocks]; [|done]. cbn [app key_after] in *. done.
    + specialize (IH _ _ _ Hi). rewrite length_all_blocks in *. cbn [foldr concat] in *. rewrite length_app.
      rewrite !Nat.add_assoc in *. done.
Qed.

(** ** The state of the writer *)

Definition collect (vs : list V) : VW := foldl (λ w v, vw_write v w) vw_default vs.

Definition writer_at (done cur : list entry) (blocks : list (list entry)) (metas : list BlockMeta) : Writer VW (list byte) :=
  mkWriter (last_key cur) metas
    (mkDeltaWriter (keys_bytes [] (keys cur)) (all_blocks blocks) (length (all_blocks blocks)) (collect (vals cur)))
    (length done + length cur) (length done).

Definition key_size (k : key) : Prop := Z.of_nat (length k) < 2 ^ 31.

(** The state between two entries *)
Record writing (cur : list entry) (blocks : list (list entry)) (metas : list BlockMeta) : Prop := mk_writing {
  wg_index : index_ok 0 0 blocks metas (head (keys cur));
  wg_nonempty : Forall (λ b, b ≠ []) blocks;
  wg_sizes : Forall (λ b, Z.of_nat (length (payload b)) < 2 ^ 32 ∧ Z.of_nat (length b) < 2 ^ 32) blocks;
  wg_short : Z.of_nat (length (keys_bytes [] (keys cur))) ≤ 32000;
}.

Lemma keep_add_not_nil keep add : keep_add_bytes keep add ≠ [].
Proof. unfold keep_add_bytes. by case_match. Qed.

Lemma entry_length prev k : key_size k → (1 ≤ length (entry_bytes prev k) ≤ 21 + length k)%nat.
Proof.
  intros Hk. unfold entry_bytes, suffix_of. rewrite length_app, length_drop.
  assert (∀ a b, 1 ≤ length (keep_add_bytes a b) ≤ 21)%nat as Hka.
  { intros a b. unfold keep_add_bytes. case_match; [simpl; lia|]. cbn [length]. rewrite length_app.
    pose proof (length_cint (Z.of_nat a)). pose proof (length_cint (Z.of_nat b)). lia. }
  pose proof (Hka (common_prefix_len prev k) (length k - common_prefix_len prev k)%nat). lia.
Qed.

Lemma keys_bytes_many prev ks : Forall key_size ks → (length ks ≤ length (keys_bytes prev ks))%nat.
Proof.
  intros Hk. revert prev. induction Hk as [|k ks Hk _ IH]; intros prev; [simpl; lia|]. cbn [keys_bytes length].
  rewrite length_app. pose proof (entry_length prev k Hk). specialize (IH k). lia.
Qed.

Lemma last_key_snoc cur k v : last_key (cur ++ [(k, v)]) = k.
Proof. unfold last_key. rewrite fmap_app. cbn. apply List.last_last. Qed.

Lemma keys_bytes_snoc cur k v : keys_bytes [] (keys (cur ++ [(k, v)])) = keys_bytes [] (keys cur) ++ entry_bytes (last_key cur) k.
Proof. rewrite fmap_app, keys_bytes_app. cbn [fmap list_fmap keys_bytes]. by rewrite app_nil_r. Qed.

Lemma collect_snoc cur (k : key) v : collect (vals (cur ++ [(k, v)])) = vw_write v (collect (vals cur)).
Proof. unfold collect. rewrite fmap_app, foldl_app. done. Qed.

(** The previous key becomes the new one. *)
Lemma previous_key_becomes a k : splice (common_prefix_len a k) (drop (common_prefix_len a k) k) (vec_resize (length k) a) = k.
Proof.
  destruct (common_prefix_spec a k) as (Ha & Hk & Htake). set (n := common_prefix_len a k) in *.
  unfold splice, vec_resize. rewrite (drop_ge (take _ _ ++ _)) by (rewrite length_app, length_take, length_replicate, length_drop; lia).
  rewrite app_nil_r, take_app_le by (rewrite length_take; lia). rewrite take_take, Nat.min_l by lia.
  rewrite Htake. apply take_drop.
Qed.

(** The key is greater than those that are written. *)
Definition fits_after (k : key) (cur : list entry) (blocks : list (list entry)) : Prop :=
  (cur ≠ [] → key_lt (last_key cur) k = true) ∧ (∀ b, list.last blocks = Some b → cur = [] → key_lt (last_key b) k = true).

Lemma write_key_is done cur blocks metas k v : length done = length (concat blocks) →
  writing cur blocks metas → key_size k → fits_after k cur blocks →
  ∃ metas', write_key k (writer_at done cur blocks metas)
    = (Ok tt, mkWriter k metas' (mkDeltaWriter (keys_bytes [] (keys (cur ++ [(k, v)]))) (all_blocks blocks) (length (all_blocks blocks)) (collect (vals cur)))
                (length done + length cur) (length done))
    ∧ index_ok 0 0 blocks metas' (head (keys (cur ++ [(k, v)]))).
Proof.
  intros Hdone [Hindex Hne Hsizes Hshort] Hk [Hcur Hlast]. unfold write_key. rewrite st_bind_get.
  cbn [first_ordinal_of_the_block num_terms writer_at].
  assert (∃ metas', (if bool_decide (length done = length done + length cur)%nat then
      let! index := st_try (λ w, shorten_last_block_key_given_next_key k (wr_index w)) in st_set (set_index index)
      else st_ret tt) (writer_at done cur blocks metas) = (Ok tt, writer_at done cur blocks metas')
    ∧ index_ok 0 0 blocks metas' (head (keys (cur ++ [(k, v)])))) as (metas' & Hshorten & Hindex').
  { destruct cur as [|e cur].
    - rewrite bool_decide_true by (simpl; lia).
      destruct (index_shorten 0 0 blocks metas k Hindex) as (metas' & Hs & Hi); [by intros b Hb; apply Hlast|].
      exists metas'. split; [|done]. unfold st_bind, st_try. cbn [wr_index writer_at]. by rewrite Hs.
    - rewrite bool_decide_false by (simpl; lia). by exists metas. }
  rewrite (st_bind_ok _ _ _ _ _ Hshorten). exists metas'. split; [|done]. rewrite st_bind_get.
  cbn [previous_key writer_at].
  assert (increasing_keys (last_key cur) k (common_prefix_len (last_key cur) k) (length k - common_prefix_len (last_key cur) k) = Ok true) as Hinc.
  { apply increasing_is. destruct cur as [|e cur]; [by left|]. right. by apply Hcur. }
  rewrite (st_bind_try (λ _, increasing_keys _ _ _ _) _ _ _ Hinc).
  rewrite (st_bind_try _ _ _ tt) by done. rewrite st_bind_set, previous_key_becomes.
  unfold on_delta, set_previous_key, writer_at. cbn [previous_key wr_index wr_delta num_terms first_ordinal_of_the_block].
  unfold write_suffix. cbn [dw_block]. unfold st_bind, st_try. cbn [dw_block].
  unfold key_size in Hk. destruct (common_prefix_spec (last_key cur) k) as (_ & Hpk & _).
  rewrite encode_keep_add_is by (unfold slice_size; rewrite ?length_drop; lia).
  unfold st_set, set_dw_block. cbn [dw_underlying dw_written dw_values]. do 2 f_equal.
  rewrite keys_bytes_snoc, length_drop. unfold entry_bytes, suffix_of. by rewrite <- app_assoc.
Qed.

(** A block that is written *)
Lemma flush_block_is done cur blocks metas : cur ≠ [] → vc_ok (vals cur) →
  Z.of_nat (length (payload cur)) < 2 ^ 32 → Z.of_nat (length cur) < 2 ^ 32 →
  dw_flush_block vec_write_all (wr_delta (writer_at done cur blocks metas))
  = (Ok (Some (length (all_blocks blocks), (length (all_blocks blocks) + length (block_bytes cur))%nat)),
     mkDeltaWriter [] (all_blocks (blocks ++ [cur])) (length (all_blocks (blocks ++ [cur]))) vw_default).
Proof.
  intros Hne Hok Hsize Hcount. unfold dw_flush_block. rewrite st_bind_get. cbn [wr_delta writer_at dw_block].
  rewrite bool_decide_false.
  2:{ destruct cur as [|[k v] cur]; [done|]. cbn. unfold entry_bytes. pose proof (keep_add_not_nil (common_prefix_len [] k) (length k - common_prefix_len [] k)).
      by destruct (keep_add_bytes _ _). }
  rewrite st_bind_get. cbn [dw_written].
  assert (vw_write_block (collect (vals cur)) [] = Ok (vc_bytes (vals cur), vw_default)) as Hblock.
  { unfold collect. rewrite vc_write_block; [done|by destruct cur|done|by rewrite length_fmap]. }
  unfold st_bind, st_try. cbn [dw_values]. rewrite Hblock.
  unfold counting_write_all, vec_write_all, set_dw_values, st_get, st_set, st_ret, set_dw_block.
  cbn [dw_underlying dw_written dw_block dw_values].
  assert (as_u32 (Z.of_nat (length (vc_bytes (vals cur)) + length (keys_bytes [] (keys cur)))) = Z.of_nat (length (payload cur))) as ->.
  { unfold as_u32, payload. rewrite <- length_app. apply Z.mod_small. unfold payload in Hsize. lia. }
  rewrite all_blocks_app, all_blocks_one. unfold block_bytes, payload. rewrite !length_app, !length_to_le.
  rewrite <- !app_assoc. f_equal; [do 3 f_equal; lia|f_equal; lia].
Qed.

Lemma payload_bound cur k v : Z.of_nat (length (keys_bytes [] (keys cur))) ≤ 32000 →
  Forall key_size (keys (cur ++ [(k, v)])) → vc_ok (vals (cur ++ [(k, v)])) →
  Z.of_nat (length (payload (cur ++ [(k, v)]))) < 2 ^ 32 ∧ Z.of_nat (length (cur ++ [(k, v)])) < 2 ^ 32.
Proof.
  intros Hshort Hk Hok. unfold payload. rewrite keys_bytes_snoc, !length_app.
  pose proof (vc_length (vals (cur ++ [(k, v)])) Hok) as Hv. rewrite length_fmap, length_app in Hv.
  rewrite fmap_app in Hk. apply Forall_app in Hk as [Hk Hlast].
  pose proof (Forall_inv Hlast) as Hkk. cbn in Hkk. pose proof (entry_length (last_key cur) k Hkk).
  pose proof (keys_bytes_many [] (keys cur) Hk) as Hn. rewrite length_fmap in Hn. unfold key_size in Hkk.
  cbn [length] in *. lia.
Qed.

Lemma collect_nil : collect [] = vw_default.
Proof. done. Qed.

Lemma write_is cur blocks metas k v :
  writing cur blocks metas → Forall key_size (keys (cur ++ [(k, v)])) → vc_ok (vals (cur ++ [(k, v)])) →
  fits_after k cur blocks →
  ∃ cur' blocks' metas',
    write vec_write_all k v (writer_at (concat blocks) cur blocks metas) = (Ok tt, writer_at (concat blocks') cur' blocks' metas')
    ∧ writing cur' blocks' metas' ∧ concat blocks' ++ cur' = (concat blocks ++ cur) ++ [(k, v)]
    ∧ (cur' = cur ++ [(k, v)] ∧ blocks' = blocks ∨ cur' = [] ∧ blocks' = blocks ++ [cur ++ [(k, v)]]).
Proof.
  intros Hw Hks Hok Hfits. pose proof Hks as Hks'. rewrite fmap_app in Hks'. apply Forall_app in Hks' as [_ Hk].
  pose proof (Forall_inv Hk) as Hkk. cbn in Hkk.
  destruct (write_key_is (concat blocks) cur blocks metas k v eq_refl Hw Hkk Hfits) as (metas' & Hkey & Hindex).
  destruct Hw as [_ Hne Hsizes Hshort]. destruct (payload_bound cur k v Hshort Hks Hok) as [Hsize Hcount].
  unfold write. rewrite (st_bind_ok _ _ _ _ _ Hkey). unfold write_value.
  set (w := writer_at (concat blocks) (cur ++ [(k, v)]) blocks metas').
  assert ((let! _ := on_delta (dw_write_value v) in
           let! _ := st_set (λ w, set_num_terms (num_terms w + 1)%nat w) in flush_block_if_required vec_write_all)
          (mkWriter k metas' (mkDeltaWriter (keys_bytes [] (keys (cur ++ [(k, v)]))) (all_blocks blocks) (length (all_blocks blocks)) (collect (vals cur)))
                (length (concat blocks) + length cur) (length (concat blocks)))
        = flush_block_if_required vec_write_all w) as ->.
  { unfold st_bind at 1, on_delta, dw_write_value, st_set, st_bind, set_dw_values, set_num_terms.
    cbn [wr_delta previous_key wr_index num_terms first_ordinal_of_the_block dw_block dw_underlying dw_written dw_values].
    f_equal. unfold w, writer_at. rewrite collect_snoc, last_key_snoc, length_app. f_equal. simpl. lia. }
  unfold flush_block_if_required, dw_flush_block_if_required, on_delta, st_bind at 1.
  unfold st_bind at 1, st_get at 1. change (dw_block (wr_delta w)) with (keys_bytes [] (keys (cur ++ [(k, v)]))).
  unfold BLOCK_LEN.
  destruct (decide (32000 < Z.of_nat (length (keys_bytes [] (keys (cur ++ [(k, v)])))))) as [Hlong|Hnot];
    [rewrite bool_decide_true by done|rewrite bool_decide_false by done].
  - unfold w at 1. rewrite flush_block_is by (done || by destruct cur). unfold block_done.
    unfold st_bind, st_set, set_index, set_first_ordinal, set_previous_key.
    cbn [previous_key wr_index wr_delta num_terms first_ordinal_of_the_block writer_at w].
    eexists [], (blocks ++ [cur ++ [(k, v)]]), _. split; [|split; [|split]].
    + unfold writer_at. f_equal. rewrite concat_app. cbn [fmap list_fmap keys_bytes concat foldr].
      rewrite app_nil_r, !length_app, Nat.add_0_r. unfold last_key at 2. cbn [fmap list_fmap List.last length].
      done.
    + split; cbn [fmap list_fmap keys_bytes length list.head].
      * apply (index_add 0 0 blocks metas' (cur ++ [(k, v)])); [done|by destruct cur].
      * apply Forall_app. split; [done|]. constructor; [by destruct cur|constructor].
      * apply Forall_app. split; [done|]. constructor; [done|constructor].
      * lia.
    + rewrite concat_app. cbn. by rewrite !app_nil_r, app_assoc.
    + right. done.
  - unfold st_ret, block_done. exists (cur ++ [(k, v)]), blocks, metas'. split; [|split; [|split]].
    + reflexivity.
    + split; [done|done|done|lia].
    + by rewrite app_assoc.
    + by left.
Qed.

(** ** A whole table *)

Definition sorted (entries : list entry) : Prop := StronglySorted (λ a b, key_lt a b = true) (keys entries).

Lemma sorted_snoc_lt (l : list key) k x : StronglySorted (λ a b, key_lt a b = true) (l ++ [k]) → x ∈ l → key_lt x k = true.
Proof.
  induction l as [|y l IH]; intros Hs Hx; [by apply not_elem_of_nil in Hx|]. inversion Hs as [|? ? Hs' Hall]; subst.
  apply elem_of_cons in Hx as [->|Hx]; [|by apply IH].
  apply Forall_app in Hall as [_ Hk]. by apply Forall_inv in Hk.
Qed.

Lemma sorted_prefix (a b : list key) : StronglySorted (λ a b, key_lt a b = true) (a ++ b) → StronglySorted (λ a b, key_lt a b = true) a.
Proof.
  induction a as [|y a IH]; intros Hs; [constructor|]. inversion Hs as [|? ? Hs' Hall]; subst. constructor; [by apply IH|].
  by apply Forall_app in Hall as [? _].
Qed.

Lemma last_key_in cur : cur ≠ [] → last_key cur ∈ keys cur.
Proof.
  intros Hne. destruct cur as [|e cur] using rev_ind; [done|]. destruct e as [k v]. rewrite last_key_snoc, fmap_app.
  apply elem_of_app. right. by left.
Qed.

Lemma sorted_fits entries k v blocks cur : concat blocks ++ cur = entries → sorted (entries ++ [(k, v)]) →
  Forall (λ b, b ≠ []) blocks → fits_after k cur blocks.
Proof.
  intros <- Hs Hne. unfold sorted in Hs. rewrite fmap_app in Hs. split.
  - intros Hcur. apply (sorted_snoc_lt _ _ _ Hs). rewrite fmap_app. apply elem_of_app. right. by apply last_key_in.
  - intros b Hb _. apply (sorted_snoc_lt _ _ _ Hs). rewrite fmap_app. apply elem_of_app. left.
    apply last_Some in Hb as [l ->]. rewrite concat_app, fmap_app. apply elem_of_app. right. cbn. rewrite app_nil_r.
    apply last_key_in. apply Forall_app in Hne as [_ Hne]. by apply Forall_inv in Hne.
Qed.

Lemma write_entries_is more entries blocks cur metas :
  concat blocks ++ cur = entries → writing cur blocks metas → sorted (entries ++ more) →
  Forall key_size (keys (entries ++ more)) → vc_ok (vals (entries ++ more)) →
  ∃ cur' blocks' metas',
    write_entries vec_write_all more (writer_at (concat blocks) cur blocks metas) = (Ok tt, writer_at (concat blocks') cur' blocks' metas')
    ∧ writing cur' blocks' metas' ∧ concat blocks' ++ cur' = entries ++ more.
Proof.
  revert entries blocks cur metas. induction more as [|[k v] more IH]; intros entries blocks cur metas He Hw Hs Hk Hv.
  - exists cur, blocks, metas. by rewrite app_nil_r.
  - replace (entries ++ (k, v) :: more) with ((entries ++ [(k, v)]) ++ more) in * by by rewrite <- app_assoc.
    assert (sorted (entries ++ [(k, v)])) as Hs1 by (unfold sorted in *; rewrite fmap_app in Hs; by apply sorted_prefix in Hs).
    assert (Forall key_size (keys (cur ++ [(k, v)]))) as Hk1.
    { rewrite fmap_app in Hk. apply Forall_app in Hk as [Hk _]. rewrite <- He, <- app_assoc, fmap_app in Hk. by apply Forall_app in Hk as [_ ?]. }
    assert (vc_ok (vals (cur ++ [(k, v)]))) as Hv1.
    { rewrite fmap_app in Hv. apply vc_ok_app in Hv as [Hv _]. rewrite <- He, <- app_assoc, fmap_app in Hv. by apply vc_ok_app in Hv as [_ ?]. }
    destruct (write_is cur blocks metas k v Hw Hk1 Hv1) as (cur1 & blocks1 & metas1 & Hwr & Hw1 & He1 & _).
    { by apply (sorted_fits entries k v blocks cur He Hs1), Hw. }
    cbn [write_entries]. rewrite (st_bind_ok _ _ _ _ _ Hwr).
    destruct (IH (entries ++ [(k, v)]) blocks1 cur1 metas1) as (cur' & blocks' & metas' & Hwe & Hw' & He');
      [by rewrite He1, He|done|done|done|done|]. by exists cur', blocks', metas'.
Qed.

(** What is in the file: the blocks, the end, the index, and where it starts and how many terms *)
Definition table_bytes (index_bytes : list BlockMeta → list byte) (blocks : list (list entry)) (metas : list BlockMeta) : list byte :=
  all_blocks blocks ++ to_le 4 0 ++ index_bytes metas ++ to_le 8 (Z.of_nat (length (all_blocks blocks) + 4))
    ++ to_le 8 (Z.of_nat (length (concat blocks))).

(** The blocks that entries are cut into, and their index *)
Record table (entries : list entry) (blocks : list (list entry)) (metas : list BlockMeta) : Prop := mk_table {
  tb_entries : concat blocks = entries;
  tb_index : index_ok 0 0 blocks metas None;
  tb_nonempty : Forall (λ b, b ≠ []) blocks;
  tb_sizes : Forall (λ b, Z.of_nat (length (payload b)) < 2 ^ 32 ∧ Z.of_nat (length b) < 2 ^ 32) blocks;
}.

Lemma counting_is bytes (d : DeltaWriter VW (list byte)) :
  counting_write_all vec_write_all bytes d
  = (Ok tt, mkDeltaWriter (dw_block d) (dw_underlying d ++ bytes) (dw_written d + length bytes) (dw_values d)).
Proof. done. Qed.

Lemma finalize_is index_bytes cur blocks metas : writing cur blocks metas → Forall key_size (keys cur) → vc_ok (vals cur) →
  ∃ blocks' metas' w', finalize vec_write_all index_bytes (st_ret tt) (writer_at (concat blocks) cur blocks metas) = (Ok tt, w')
    ∧ dw_underlying (wr_delta w') = table_bytes index_bytes blocks' metas' ∧ wr_index w' = metas'
    ∧ table (concat blocks ++ cur) blocks' metas'.
Proof.
  intros [Hindex Hne Hsizes Hshort] Hk Hv.
  assert (∃ blocks' metas' prev values, (let! byte_range := on_delta (dw_flush_block vec_write_all) in block_done false byte_range)
      (writer_at (concat blocks) cur blocks metas)
    = (Ok tt, mkWriter prev metas' (mkDeltaWriter [] (all_blocks blocks') (length (all_blocks blocks')) values)
         (length (concat blocks')) (length (concat blocks')))
    ∧ table (concat blocks ++ cur) blocks' metas') as (blocks' & metas' & prev & values & Hflush & Htable).
  { destruct cur as [|[k v] cur] using rev_ind.
    - exists blocks, metas. eexists _, _. split; [|split; [by rewrite app_nil_r|done..]].
      unfold on_delta, st_bind, dw_flush_block, st_bind at 1, st_get at 1. cbn. unfold st_ret. rewrite Nat.add_0_r. done.
    - clear IHcur. destruct (payload_bound cur k v) as [Hsize Hcount]; [|done|done|].
      { rewrite keys_bytes_snoc, length_app in Hshort. lia. }
      exists (blocks ++ [cur ++ [(k, v)]]). eexists _, _, _. split.
      + unfold on_delta, st_bind at 1. rewrite flush_block_is by (done || by destruct cur). unfold block_done.
        unfold st_bind, st_set, set_index, set_first_ordinal, st_ret.
        cbn [previous_key wr_index wr_delta num_terms first_ordinal_of_the_block writer_at].
        rewrite concat_app. cbn [concat foldr]. rewrite app_nil_r, (length_app (concat blocks)). done.
      + split.
        * rewrite concat_app. cbn. by rewrite app_nil_r.
        * apply (index_add 0 0 blocks metas (cur ++ [(k, v)])); [done|by destruct cur].
        * apply Forall_app. split; [done|]. constructor; [by destruct cur|constructor].
        * apply Forall_app. split; [done|]. constructor; [done|constructor]. }
  exists blocks', metas'. unfold finalize. unfold st_bind at 1.
  unfold st_bind at 1 in Hflush. destruct (on_delta _ _) as [[range| | |] w1]; try done.
  rewrite (st_bind_ok _ _ _ _ _ Hflush). unfold st_bind, on_delta, st_get.
  rewrite !counting_is.
  cbn [wr_delta wr_index num_terms previous_key first_ordinal_of_the_block dw_written dw_underlying dw_block dw_values st_ret].
  eexists. split; [done|]. split; [|by split]. cbn [wr_delta dw_underlying]. unfold table_bytes.
  rewrite <- !app_assoc, length_to_le. done.
Qed.

(** All the entries, and the end *)
Lemma table_is index_bytes entries : sorted entries → Forall key_size (keys entries) → vc_ok (vals entries) →
  ∃ blocks metas w, (let! _ := write_entries vec_write_all entries in finalize vec_write_all index_bytes (st_ret tt)) (Writer_new [])
      = (Ok tt, w)
    ∧ dw_underlying (wr_delta w) = table_bytes index_bytes blocks metas ∧ wr_index w = metas ∧ table entries blocks metas.
Proof.
  intros Hs Hk Hv.
  destruct (write_entries_is entries [] [] [] []) as (cur & blocks & metas & Hwrite & Hw & Hcat); [done|by split|done..|].
  cbn [app] in Hcat. rewrite <- Hcat in Hk, Hv. rewrite fmap_app in Hk. rewrite fmap_app in Hv. apply Forall_app in Hk as [_ Hk]. apply vc_ok_app in Hv as [_ Hv].
  destruct (finalize_is index_bytes cur blocks metas Hw Hk Hv) as (blocks' & metas' & w & Hfin & Hout & Hmetas & Htable).
  exists blocks', metas', w. rewrite Hcat in Htable. by rewrite (st_bind_ok _ _ _ _ _ Hwrite), Hfin.
Qed.

(** * What is read

    The key is [prev], [es] are the entries of the block that are not read yet, [more] is what
    follows the block. *)
Variable checks : bool.
Abbreviation rd := (Reader VR (list byte)).
Abbreviation advance := (rd_advance checks slice_read_exact).

Record at_delta (d : DeltaReader VR (list byte)) (prev : key) (es : list entry) (more : list byte) : Prop := mk_at_delta {
  ad_keys : drop (br_offset (dr_blocks d)) (br_buffer (dr_blocks d)) = keys_bytes prev (keys es);
  ad_offset : (br_offset (dr_blocks d) ≤ length (br_buffer (dr_blocks d)))%nat;
  ad_more : br_reader (dr_blocks d) = more;
  ad_values : ∀ i v, vals es !! i = Some v → vr_value (dr_values d) (dr_idx d + 1 + i) = Ok v;
}.

Lemma read_keep_add_is (r : BlockReader (list byte)) keep add rest : slice_size keep → slice_size add →
  ¬ (keep = 1 ∧ add = 0)%nat →
  drop (br_offset r) (br_buffer r) = keep_add_bytes keep add ++ rest → (br_offset r ≤ length (br_buffer r))%nat →
  read_keep_add checks r = (Ok (Some (keep, add)), set_offset (br_offset r + length (keep_add_bytes keep add)) r).
Proof.
  intros Hk Ha Hno Hd Ho. unfold slice_size in *. unfold read_keep_add. rewrite (st_bind_try _ _ _ _ (br_rest_is r _ Ho Hd)).
  unfold keep_add_bytes in *. destruct (bool_decide (keep < 16)%nat && bool_decide (add < 16)%nat) eqn:Hsmall.
  - apply andb_prop in Hsmall as [H1%bool_decide_eq_true H2%bool_decide_eq_true]. cbn [app].
    unfold br_advance. rewrite st_bind_set.
    assert (byte_val (byte_of (Z.of_nat keep + 16 * Z.of_nat add)) = Z.of_nat keep + 16 * Z.of_nat add) as Hb
      by (apply byte_val_of_small; lia).
    rewrite bool_decide_false.
    2:{ intros He. apply (f_equal byte_val) in He. rewrite Hb in He. change (byte_val VINT_MODE) with 1 in He. lia. }
    rewrite Hb. change 15 with (Z.ones 4). rewrite Z.land_ones, Z.shiftr_div_pow2 by lia. change (2 ^ 4) with 16.
    replace (Z.of_nat keep + 16 * Z.of_nat add) with (Z.of_nat keep + Z.of_nat add * 16) by lia.
    rewrite Z.mod_add, Z.div_add, Z.mod_small, Z.div_small by lia. unfold st_ret.
    rewrite Z.add_0_l, !Nat2Z.id. done.
  - cbn [app] in *. unfold br_advance. rewrite st_bind_set. rewrite bool_decide_true by done.
    assert (drop (br_offset r + 1) (br_buffer r) = cint (Z.of_nat keep) ++ cint (Z.of_nat add) ++ rest) as Hd1.
    { rewrite <- drop_drop, Hd. cbn [drop]. by rewrite <- app_assoc. }
    assert (br_offset r + 1 ≤ length (br_buffer r))%nat as Ho1.
    { apply (f_equal length) in Hd. rewrite length_drop in Hd. cbn [length] in Hd. lia. }
    set (r1 := set_offset (br_offset r + 1) r).
    destruct (deserialize_u64_is checks (Z.of_nat keep) r1 _ ltac:(lia) Hd1 Ho1) as (Hdes & Hd2 & Ho2).
    rewrite (st_bind_ok _ _ _ _ _ Hdes).
    set (r2 := set_offset (br_offset r1 + length (cint (Z.of_nat keep))) r1) in *.
    destruct (deserialize_u64_is checks (Z.of_nat add) r2 _ ltac:(lia) Hd2 Ho2) as (Hdes' & Hd3 & Ho3).
    rewrite (st_bind_ok _ _ _ _ _ Hdes'). unfold st_ret. rewrite !Nat2Z.id. f_equal.
    unfold r2, r1, set_offset. cbn [br_buffer br_reader br_offset length]. rewrite length_app. f_equal. lia.
Qed.

(** The key of a delta: the part of the previous one that is kept, and the suffix *)
Lemma read_delta_key_is (d : DeltaReader VR (list byte)) prev k rest :
  prev = [] ∨ key_lt prev k = true → key_size k →
  drop (br_offset (dr_blocks d)) (br_buffer (dr_blocks d)) = entry_bytes prev k ++ rest →
  (br_offset (dr_blocks d) ≤ length (br_buffer (dr_blocks d)))%nat →
  ∃ d', read_delta_key checks d = (Ok true, d') ∧ dr_common_prefix_len d' = common_prefix_len prev k
    ∧ dr_suffix d' = Ok (suffix_of prev k)
    ∧ drop (br_offset (dr_blocks d')) (br_buffer (dr_blocks d')) = rest
    ∧ (br_offset (dr_blocks d') ≤ length (br_buffer (dr_blocks d')))%nat
    ∧ br_reader (dr_blocks d') = br_reader (dr_blocks d)
    ∧ dr_values d' = dr_values d ∧ dr_idx d' = dr_idx d.
Proof.
  intros Hlt Hk Hd Ho. destruct (common_prefix_spec prev k) as (_ & Hpk & _). unfold key_size in Hk.
  unfold entry_bytes in Hd. rewrite <- app_assoc in Hd.
  set (keep := common_prefix_len prev k) in *. set (add := (length k - keep)%nat) in *.
  assert (¬ (keep = 1 ∧ add = 0)%nat) as Hno.
  { intros [H1 H0]. destruct Hlt as [->|Hlt]; [by destruct k|].
    destruct (lt_behind_prefix prev k Hlt) as [Hl _]. fold keep in Hl. lia. }
  pose proof (read_keep_add_is (dr_blocks d) keep add _ ltac:(unfold slice_size; lia) ltac:(unfold slice_size; lia) Hno Hd Ho) as Hka.
  unfold read_delta_key. unfold st_bind at 1, on_blocks at 1. rewrite Hka.
  unfold st_bind, st_set, on_blocks, br_advance, st_set, st_ret. cbn [dr_blocks br_offset set_offset].
  pose proof (drop_app_inv _ _ _ _ Hd) as Hd'.
  assert (length (suffix_of prev k) = add) as Hsuffix by (unfold suffix_of; by rewrite length_drop).
  pose proof (drop_app_inv _ _ _ _ Hd') as Hd''. rewrite Hsuffix in Hd''.
  assert (br_offset (dr_blocks d) + length (keep_add_bytes keep add) + add ≤ length (br_buffer (dr_blocks d)))%nat as Hlen.
  { apply (f_equal length) in Hd. rewrite length_drop, !length_app, Hsuffix in Hd. lia. }
  eexists. split; [done|]. cbn. split_and!; try done.
  unfold dr_suffix, buffer_from_to. cbn. rewrite slice_Ok by lia. f_equal.
  replace (_ + _ - _)%nat with (length (suffix_of prev k)) by lia. rewrite Hd'. apply take_app_length.
Qed.

(** [resize] and the copy of the suffix *)
Lemma key_becomes prev k old : old = prev ∨ prev = [] →
  copy_at (E := IoError) (common_prefix_len prev k) (suffix_of prev k)
    (vec_resize (common_prefix_len prev k + length (suffix_of prev k)) old) = Ok k.
Proof.
  intros Hold. destruct (common_prefix_spec prev k) as (Hp & Hk & Htake).
  set (n := common_prefix_len prev k) in *. unfold suffix_of. fold n. rewrite length_drop.
  replace (n + (length k - n))%nat with (length k) by lia.
  assert (length (vec_resize (length k) old) = length k) as Hl
    by (unfold vec_resize; rewrite length_app, length_take, length_replicate; lia).
  rewrite copy_at_Ok by (rewrite Hl, length_drop; lia). f_equal. unfold splice.
  rewrite length_drop, (drop_ge (vec_resize _ _)) by lia. rewrite app_nil_r.
  assert (take n (vec_resize (length k) old) = take n k) as ->; [|apply take_drop].
  destruct Hold as [->| ->]; [|by change n with 0%nat].
  unfold vec_resize. rewrite take_app_le by (rewrite length_take; lia). by rewrite take_take, Nat.min_l by lia.
Qed.

(** The end of [rd_advance], when there is one more key *)
Lemma rd_advance_key r d prev k :
  dr_advance checks slice_read_exact (rd_delta r) = (Ok true, d) → dr_common_prefix_len d = common_prefix_len prev k →
  dr_suffix d = Ok (suffix_of prev k) → rd_key r = prev ∨ prev = [] →
  advance r = (Ok true, mkReader k d).
Proof.
  intros Hd Hkeep Hsuffix Hprev. unfold rd_advance. unfold st_bind at 1. rewrite Hd.
  rewrite st_bind_get. unfold st_bind, st_try. cbn [rd_delta rd_key]. rewrite Hsuffix, Hkeep.
  rewrite key_becomes by done. done.
Qed.

(** The reader of deltas at the next key, whose prefix is that of [p] *)
Definition moves_to (d : DeltaReader VR (list byte)) (p k : key) (v : V) (es : list entry) (more : list byte) : Prop :=
  ∃ d', dr_advance checks slice_read_exact d = (Ok true, d') ∧ dr_common_prefix_len d' = common_prefix_len p k
    ∧ dr_suffix d' = Ok (suffix_of p k) ∧ dr_value d' = Ok v ∧ at_delta d' k es more.

Lemma delta_entry d prev k v es more : at_delta d prev ((k, v) :: es) more →
  prev = [] ∨ key_lt prev k = true → key_size k → moves_to d prev k v es more.
Proof.
  intros [Hkeys Ho Hmore Hvals] Hlt Hk. cbn [fmap list_fmap keys_bytes fst] in Hkeys.
  set (d1 := set_dr_idx (dr_idx d + 1) d).
  destruct (read_delta_key_is d1 prev k (keys_bytes k (keys es)) Hlt Hk Hkeys Ho)
    as (d' & Hread & Hkeep & Hsuffix & Hrest & Ho' & Hreader & Hvalues & Hidx).
  exists d'. split; [|split; [done|split; [done|split]]].
  - unfold dr_advance. rewrite (st_bind_try (λ d, br_rest (dr_blocks d)) _ _ _ (br_rest_is _ _ Ho Hkeys)).
    rewrite bool_decide_false.
    2:{ unfold entry_bytes. pose proof (keep_add_not_nil (common_prefix_len prev k) (length k - common_prefix_len prev k)).
        by destruct (keep_add_bytes _ _). }
    unfold st_bind at 1 2, st_set. exact Hread.
  - unfold dr_value. rewrite Hvalues, Hidx. unfold d1. cbn [dr_values dr_idx set_dr_idx].
    rewrite <- (Nat.add_0_r (_ + 1)). by apply Hvals.
  - split; [done|done|by rewrite Hreader|].
    intros i v' Hi. rewrite Hvalues, Hidx. unfold d1. cbn [dr_values dr_idx set_dr_idx].
    rewrite <- (Hvals (S i) v' Hi). f_equal. lia.
Qed.

Lemma delta_block d prev k v es more : at_delta d prev [] (block_bytes ((k, v) :: es) ++ more) →
  key_size k → vc_ok (vals ((k, v) :: es)) → Z.of_nat (length (payload ((k, v) :: es))) < 2 ^ 32 →
  Z.of_nat (length ((k, v) :: es)) < 2 ^ 32 → moves_to d [] k v es more.
Proof.
  intros [Hkeys Ho Hmore Hvals] Hk Hok Hsize Hcount. set (b := (k, v) :: es) in *.
  cbn [fmap list_fmap keys_bytes] in Hkeys. set (r0 := dr_blocks d) in *.
  assert (0 < Z.of_nat (length (payload b))) as Hpos.
  { unfold payload. cbn [b fmap list_fmap keys_bytes fst]. rewrite !length_app. pose proof (entry_length [] k Hk). lia. }
  assert (read_block slice_read_exact r0 = (Ok true, mkBlockReader (payload b) more 0)) as Hblock.
  { unfold read_block, br_read_exact. cbn [set_offset br_reader]. rewrite Hmore. unfold block_bytes. rewrite <- app_assoc.
    unfold slice_read_exact. rewrite bool_decide_true by (rewrite length_app, length_to_le; lia).
    rewrite take_app_length', drop_app_length' by by rewrite length_to_le.
    rewrite from_to_le by (change (256 ^ Z.of_nat 4) with (2 ^ 32); lia).
    rewrite bool_decide_false by lia. unfold st_bind, st_set. cbn [br_reader set_buffer].
    rewrite Nat2Z.id, bool_decide_true by (rewrite length_app; lia).
    rewrite take_app_length, drop_app_length. done. }
  set (r1 := mkBlockReader (payload b) more 0) in *.
  destruct (vc_read (vals b) (dr_values d) r1 (keys_bytes [] (keys b))) as (vr' & Hread & Hvr);
    [done|done|by rewrite length_fmap|done|cbn; lia|].
  set (r2 := set_offset (br_offset r1 + length (vc_bytes (vals b))) r1) in *.
  assert (drop (br_offset r2) (br_buffer r2) = entry_bytes [] k ++ keys_bytes k (keys es)) as Hd2
    by (cbn; unfold payload; apply drop_app_length).
  assert (br_offset r2 ≤ length (br_buffer r2))%nat as Ho2
    by (unfold r2, r1, payload; cbn [br_offset br_buffer set_offset]; rewrite length_app; lia).
  set (d1 := mkDeltaReader (dr_common_prefix_len d) (dr_suffix_start d) (dr_suffix_end d) vr' r2 0).
  destruct (read_delta_key_is d1 [] k (keys_bytes k (keys es)) (or_introl eq_refl) Hk Hd2 Ho2)
    as (d' & Hrd & Hkeep & Hsuffix & Hrest & Ho' & Hreader & Hvalues & Hidx).
  exists d'. split; [|split; [done|split; [done|split]]].
  - unfold dr_advance. rewrite (st_bind_try (λ d, br_rest (dr_blocks d)) _ _ _ (br_rest_is _ _ Ho Hkeys)).
    rewrite bool_decide_true by done.
    unfold st_bind at 1 2. unfold on_blocks at 1. fold r0. rewrite Hblock.
    rewrite st_bind_get. unfold st_bind at 1, on_blocks at 1. cbn [dr_blocks dr_values]. rewrite Hread.
    unfold st_bind, st_set, st_ret. exact Hrd.
  - unfold dr_value. rewrite Hvalues, Hidx. by apply Hvr.
  - split; [done|done|by rewrite Hreader|]. intros i v' Hi. rewrite Hvalues, Hidx. by apply Hvr.
Qed.

(** The end: there is nothing more, or a block of length 0 *)
Definition ends (more : list byte) : Prop := more = [] ∨ ∃ tail, more = to_le 4 0 ++ tail.

Lemma delta_end d prev more : at_delta d prev [] more → ends more →
  ∃ d', dr_advance checks slice_read_exact d = (Ok false, d').
Proof.
  intros [Hkeys Ho Hmore Hvals] Hend. cbn [fmap list_fmap keys_bytes] in Hkeys. set (r0 := dr_blocks d) in *.
  assert (∃ r1, read_block slice_read_exact r0 = (Ok false, r1)) as [r1 Hblock].
  { unfold read_block, br_read_exact. cbn [set_offset br_reader]. rewrite Hmore. destruct Hend as [->|[tail ->]].
    - unfold slice_read_exact. cbn. by eexists.
    - unfold slice_read_exact. rewrite bool_decide_true by (rewrite length_app, length_to_le; lia).
      rewrite take_app_length', drop_app_length' by by rewrite length_to_le. rewrite from_to_le by lia.
      rewrite bool_decide_true by done. by eexists. }
  unfold dr_advance. eexists. rewrite (st_bind_try (λ d, br_rest (dr_blocks d)) _ _ _ (br_rest_is _ _ Ho Hkeys)).
  rewrite bool_decide_true by done. unfold st_bind, on_blocks. fold r0. rewrite Hblock. done.
Qed.

(** All the entries: the keys of a block increase, the first one follows any key. *)
Fixpoint ordered (prev : key) (ks : list key) : Prop :=
  match ks with [] => True | k :: ks => (prev = [] ∨ key_lt prev k = true) ∧ ordered k ks end.

Lemma sorted_ordered prev ks : StronglySorted (λ a b, key_lt a b = true) ks →
  (prev = [] ∨ Forall (λ k, key_lt prev k = true) ks) → ordered prev ks.
Proof.
  intros Hs. revert prev. induction Hs as [|k ks _ IH Hk]; intros prev Hprev; [done|]. cbn [ordered]. split.
  - destruct Hprev as [?|Hall]; [by left|]. right. by apply Forall_inv in Hall.
  - apply IH. by right.
Qed.

Definition block_ok (b : list entry) : Prop :=
  b ≠ [] ∧ Z.of_nat (length (payload b)) < 2 ^ 32 ∧ Z.of_nat (length b) < 2 ^ 32
  ∧ ordered [] (keys b) ∧ Forall key_size (keys b) ∧ vc_ok (vals b).

(** ** The entries that remain *)

Definition remains (d : DeltaReader VR (list byte)) (prev : key) (l : list entry) : Prop :=
  ∃ es blocks more, at_delta d prev es (all_blocks blocks ++ more) ∧ l = es ++ concat blocks ∧ ends more
    ∧ ordered prev (keys es) ∧ Forall key_size (keys es) ∧ Forall block_ok blocks.

Lemma remains_next d prev k v l : remains d prev ((k, v) :: l) → ∃ p d', (p = prev ∨ p = [])
  ∧ dr_advance checks slice_read_exact d = (Ok true, d') ∧ dr_common_prefix_len d' = common_prefix_len p k
  ∧ dr_suffix d' = Ok (suffix_of p k) ∧ dr_value d' = Ok v ∧ remains d' k l.
Proof.
  intros (es & blocks & more & Hat & Hl & Hends & Hes & Hsizes & Hblocks).
  destruct es as [|e es].
  - destruct blocks as [|b blocks]; [done|].
    pose proof (Forall_inv Hblocks) as (Hne & Hsize & Hcount & Hord & Hks & Hok). apply Forall_inv_tail in Hblocks.
    destruct b as [|e es]; [done|]. injection Hl as <- Hl.
    change (all_blocks (?b :: ?l)) with (block_bytes b ++ all_blocks l) in Hat. rewrite <- app_assoc in Hat.
    pose proof (Forall_inv Hks) as Hk. apply Forall_inv_tail in Hks.
    destruct (delta_block d prev k v es _ Hat Hk Hok Hsize Hcount) as (d' & Hd & Hkeep & Hsuffix & Hv & Hat').
    exists [], d'. split; [by right|]. split_and!; [done..|]. exists es, blocks, more. split_and!; try done. apply Hord.
  - injection Hl as <- Hl. cbn [fmap list_fmap ordered fst] in Hes. destruct Hes as [Hlt Hes].
    pose proof (Forall_inv Hsizes) as Hk. apply Forall_inv_tail in Hsizes.
    destruct (delta_entry d prev k v es _ Hat Hlt Hk) as (d' & Hd & Hkeep & Hsuffix & Hv & Hat').
    exists prev, d'. split; [by left|]. split_and!; [done..|]. by exists es, blocks, more.
Qed.

Lemma remains_end d prev : remains d prev [] → ∃ d', dr_advance checks slice_read_exact d = (Ok false, d').
Proof.
  intros (es & blocks & more & Hat & Hl & Hends & _ & _ & Hblocks). destruct es; [|done].
  destruct blocks as [|b blocks]; [by eapply delta_end|]. pose proof (Forall_inv Hblocks) as (Hne & _).
  by destruct b.
Qed.

(** The reader of keys is where the reader of deltas is. *)
Definition reader_at (r : rd) (l : list entry) : Prop := ∃ prev, rd_key r = prev ∧ remains (rd_delta r) prev l.

Lemma reader_next r k v l : reader_at r ((k, v) :: l) →
  ∃ r', advance r = (Ok true, r') ∧ rd_key r' = k ∧ rd_value r' = Ok v ∧ reader_at r' l.
Proof.
  intros (prev & Hkey & Hr). destruct (remains_next _ _ _ _ _ Hr) as (p & d & Hp & Hd & Hkeep & Hsuffix & Hv & Hrest).
  exists (mkReader k d). split.
  - apply (rd_advance_key r d p k); [done..|]. rewrite Hkey. by destruct Hp as [->|?]; [left|right].
  - split; [done|]. split; [done|]. by exists k.
Qed.

Lemma reader_end r : reader_at r [] → ∃ r', advance r = (Ok false, r').
Proof.
  intros (prev & _ & Hr). destruct (remains_end _ _ Hr) as [d' Hd]. unfold rd_advance, st_bind. rewrite Hd. by eexists.
Qed.

Lemma read_entries_is n r l : reader_at r l → (length l < n)%nat →
  ∃ r', read_entries checks slice_read_exact n r = (Ok l, r').
Proof.
  revert r l. induction n as [|n IH]; intros r l Hr Hn; [lia|]. cbn [read_entries]. destruct l as [|[k v] l].
  - destruct (reader_end r Hr) as [r' Hadv]. rewrite (st_bind_ok _ _ _ _ _ Hadv). by exists r'.
  - destruct (reader_next r k v l Hr) as (r' & Hadv & Hk & Hv & Hr'). rewrite (st_bind_ok _ _ _ _ _ Hadv), st_bind_get.
    rewrite (st_bind_try _ _ _ _ Hv). destruct (IH r' l Hr') as [r'' Hrest]; [simpl in Hn; lia|].
    rewrite (st_bind_ok _ _ _ _ _ Hrest). exists r''. by rewrite Hk.
Qed.

(** Readers of blocks, and of blocks behind which the table ends *)
Lemma start_at blocks more : Forall block_ok blocks → ends more →
  remains (DeltaReader_new (all_blocks blocks ++ more)) [] (concat blocks).
Proof. intros Hb He. exists [], blocks, more. split; [by split|]. by repeat split. Qed.

(** The blocks of a table are well formed. *)
Lemma sorted_app (a b : list key) : StronglySorted (λ a b, key_lt a b = true) (a ++ b) →
  StronglySorted (λ a b, key_lt a b = true) a ∧ StronglySorted (λ a b, key_lt a b = true) b
  ∧ ∀ x y, x ∈ a → y ∈ b → key_lt x y = true.
Proof.
  induction a as [|x a IH]; intros Hs; [split; [constructor|split; [done|]]; by intros ? ? ?%not_elem_of_nil|].
  inversion Hs as [|? ? Hs' Hall]; subst. destruct (IH Hs') as (Ha & Hb & Hab).
  apply Forall_app in Hall as [Hxa Hxb]. split; [by constructor|]. split; [done|].
  intros z y [->|Hz]%elem_of_cons Hy; [|by apply Hab]. by apply (proj1 (list.Forall_forall _ _) Hxb).
Qed.

Lemma table_blocks entries blocks metas : table entries blocks metas → sorted entries →
  Forall key_size (keys entries) → vc_ok (vals entries) → Forall block_ok blocks.
Proof.
  intros [<- _ Hne Hsizes] Hs Hk Hv. unfold sorted in Hs. revert Hs Hk Hv.
  induction Hne as [|b blocks Hb _ IH]; intros Hs Hk Hv; [constructor|].
  cbn [concat] in *. rewrite fmap_app in Hs. rewrite fmap_app in Hk. rewrite fmap_app in Hv. apply sorted_app in Hs as (Hsb & Hs & _).
  apply Forall_app in Hk as [Hkb Hk]. apply vc_ok_app in Hv as [Hvb Hv].
  pose proof (Forall_inv Hsizes) as [? ?]. apply Forall_inv_tail in Hsizes.
  constructor; [|by apply IH]. split_and!; try done. apply sorted_ordered; [done|by left].
Qed.

(** ** The index finds the block of a key *)

Lemma le_last (ks : list key) x : StronglySorted (λ a b, key_lt a b = true) ks → x ∈ ks → key_le x (List.last ks []) = true.
Proof.
  intros Hs Hx. destruct ks as [|y ks] using rev_ind; [by apply not_elem_of_nil in Hx|]. rewrite List.last_last.
  apply key_le_lt. apply elem_of_app in Hx as [Hx|Hx%list_elem_of_singleton]; [right|by left].
  by apply (sorted_snoc_lt _ _ _ Hs).
Qed.

Lemma search_is off ord blocks metas k : index_ok off ord blocks metas None → Forall (λ b, b ≠ []) blocks →
  sorted (concat blocks) →
  match search metas k with
  | Some a => ∃ pre b post, blocks = pre ++ b :: post
      ∧ a = mkBlockAddr ((off + length (all_blocks pre))%nat, (off + length (all_blocks pre) + length (block_bytes b))%nat)
              (ord + length (concat pre))
      ∧ ∀ v, (k, v) ∈ concat blocks → (k, v) ∈ b
  | None => ∀ v, (k, v) ∉ concat blocks
  end.
Proof.
  revert off ord metas. induction blocks as [|b blocks IH]; intros off ord [|m metas] Hi Hne Hs; try done.
  { cbn. intros v. apply not_elem_of_nil. }
  destruct Hi as [[Haddr Hkey] Hi]. pose proof (Forall_inv Hne) as Hb. apply Forall_inv_tail in Hne.
  unfold sorted in Hs. cbn [concat] in Hs. rewrite fmap_app in Hs. apply sorted_app in Hs as (Hsb & Hs & Hcross).
  assert (key_le (last_key b) (last_key_or_greater m) = true) as Hle.
  { destruct (key_after blocks None); [by destruct Hkey|]. rewrite Hkey. apply key_le_lt. by left. }
  unfold search. cbn [list_find]. destruct (decide (key_le k (last_key_or_greater m) = true)) as [Hfound|Hnot].
  - cbn [fmap option_fmap option_map snd]. rewrite Haddr. exists [], b, blocks. split; [done|]. split; [cbn; by rewrite !Nat.add_0_r|].
    intros v [Hin|Hin]%elem_of_app; [done|]. exfalso.
    destruct blocks as [|b' blocks]; [by apply not_elem_of_nil in Hin|].
    pose proof (Forall_inv Hne) as Hb'. destruct b' as [|[k' v'] b']; [done|]. cbn in Hkey. destruct Hkey as [_ Hlt].
    assert (key_le k' k = true) as Hk'.
    { cbn in Hs, Hin. inversion Hs as [|? ? _ Hall]; subst. apply elem_of_cons in Hin as [[= -> ->]|Hin]; [by apply key_le_lt; left|].
      apply key_le_lt. right. apply (proj1 (list.Forall_forall _ _) Hall). change k with (fst (k, v)). by apply list_elem_of_fmap_2. }
    pose proof (key_le_lt_trans _ _ _ Hfound Hlt) as Hkk'. apply key_le_lt in Hk' as [->|Hk'].
    + by rewrite key_lt_irrefl in Hkk'.
    + pose proof (key_lt_trans _ _ _ Hkk' Hk') as Hc. by rewrite key_lt_irrefl in Hc.
  - assert (∀ v, (k, v) ∉ b) as Hnb.
    { intros v Hin. apply Hnot. assert (k ∈ keys b) as Hk by (change k with (fst (k, v)); by apply list_elem_of_fmap_2).
      pose proof (le_last _ _ Hsb Hk) as Hlast. fold (last_key b) in Hlast.
      apply key_le_lt in Hlast as [->|Hlast]; [done|]. apply key_le_lt in Hle as [<-|Hle]; apply key_le_lt; right; [done|].
      by eapply key_lt_trans. }
    specialize (IH _ _ metas Hi Hne Hs). unfold search in IH.
    destruct (list_find _ metas) as [[j m']|]; cbn [fmap option_fmap option_map prod_map snd] in *.
    + destruct IH as (pre & b0 & post & -> & Ha & Hin). exists (b :: pre), b0, post. split; [done|].
      split.
      * unfold id. rewrite Ha. change (all_blocks (b :: pre)) with (block_bytes b ++ all_blocks pre). cbn [concat].
        rewrite !length_app, !Nat.add_assoc. done.
      * intros v [Hv|Hv]%elem_of_app; [by destruct (Hnb v)|by apply Hin].
    + intros v [Hv|Hv]%elem_of_app; [by destruct (Hnb v)|by apply (IH v)].
Qed.

(** The bytes of a block in the file *)
Lemma block_slice index_bytes pre b post metas :
  take (length (block_bytes b)) (drop (length (all_blocks pre)) (table_bytes index_bytes (pre ++ b :: post) metas)) = block_bytes b.
Proof.
  unfold table_bytes. change (b :: post) with ([b] ++ post). rewrite !all_blocks_app, all_blocks_one, <- !app_assoc.
  rewrite drop_app_length. apply take_app_length.
Qed.
End table.
