(* ===== verification/TanTermDict.v ===== *)
(** The term dictionary of tantivy on sorted tables
    (tantivy/src/termdict/sstable_termdict/mod.rs, termdict.rs and streamer.rs).

    A term has the [TermInfo] of its postings.  The file of a dictionary is a slice of bytes
    here: reading it does not fail. *)
From Stdlib Require Import ZArith Lia Strings.Byte Sorted.
From stdpp Require Import base list numbers option.
From S2P Require Import Prelude StateMonad Words TanVint TanSstable TanBlocks TanTable.
#[local] Open Scope Z_scope.

(** * TermInfo *)

Record TermInfo : Type := mkTermInfo { doc_freq : Z; postings_range : Z * Z; positions_range : Z * Z }.
Definition TermInfo_default : TermInfo := mkTermInfo 0 (0, 0) (0, 0).

(** [len()] of a range *)
Definition range_len (r : Z * Z) : Z := if bool_decide (r.1 < r.2) then r.2 - r.1 else 0.

Record TermInfos : Type := mkTermInfos { term_infos : list TermInfo }.

Fixpoint write_infos (l : list TermInfo) (buffer : list byte) : res IoError (list byte) :=
  match l with
  | [] => Ok buffer
  | term_info :: l =>
      let? buffer := serialize_into_vec (doc_freq term_info) buffer in
      let? buffer := serialize_into_vec (range_len (postings_range term_info)) buffer in
      let? buffer := serialize_into_vec (range_len (positions_range term_info)) buffer in
      write_infos l buffer
  end.
Definition infos_write_block (w : TermInfos) (buffer : list byte) : res IoError (list byte * TermInfos) :=
  let? buffer := serialize_into_vec (Z.of_nat (length (term_infos w))) buffer in
  match term_infos w with
  | [] => Ok (buffer, w)
  | first :: _ =>
      let? buffer := serialize_into_vec (postings_range first).1 buffer in
      let? buffer := serialize_into_vec (positions_range first).1 buffer in
      let? buffer := write_infos (term_infos w) buffer in
      Ok (buffer, mkTermInfos [])
  end.
#[export] Instance TermInfoWriter : ValueWriter TermInfo TermInfos := {|
  vw_default := mkTermInfos [];
  vw_write term_info w := mkTermInfos (term_infos w ++ [term_info]);
  vw_write_block := infos_write_block |}.

Section term_info_reader.
Context {R : Type}.
Variable checks : bool.

(** [VInt::deserialize_u64(reader)]: a step of its loop takes a byte of the block. *)
Definition read_vint : method (BlockReader R) IoError Z := λ r,
  VInt_deserialize checks br_next (19 + length (br_buffer r)) r.

Fixpoint read_infos (n : nat) (postings_start positions_start : Z) (acc : list TermInfo) :
    method (BlockReader R) IoError (list TermInfo) :=
  match n with
  | O => st_ret acc
  | S n =>
      let! doc_freq := read_vint in
      let! postings_num_bytes := read_vint in
      let! positions_num_bytes := read_vint in
      let! postings_end := st_try (λ _, fit_word checks 64 (postings_start + postings_num_bytes)) in
      let! positions_end := st_try (λ _, fit_word checks 64 (positions_start + positions_num_bytes)) in
      read_infos n postings_end positions_end
        (acc ++ [mkTermInfo (as_u32 doc_freq) (postings_start, postings_end) (positions_start, positions_end)])
  end.
Definition infos_read : method (BlockReader R) IoError TermInfos :=
  let! num_els := read_vint in
  let! postings_start := read_vint in
  let! positions_start := read_vint in
  let! l := read_infos (Z.to_nat num_els) postings_start positions_start [] in
  st_ret (mkTermInfos l).
End term_info_reader.
#[export] Instance TermInfoReader (checks : bool) : ValueReader TermInfo TermInfos := {|
  vr_default := mkTermInfos [];
  vr_value r idx := at_index (term_infos r) idx;
  vr_read R _ := infos_read checks |}.

(** * The dictionary *)

Section dictionary.
Variable checks : bool.
(** What the serializer of the index writes, and what it loads *)
Variable index_bytes : list BlockMeta → list byte.
Variable index_load : list byte → res IoError (list BlockMeta).

(** [TermDictionaryBuilder]: [insert] of every term, then [finish] *)
Definition build (entries : list (key * TermInfo)) : res IoError (list byte) :=
  match (let! _ := write_entries vec_write_all entries in finalize vec_write_all index_bytes (st_ret tt))
          (Writer_new []) with
  | (Ok _, w) => Ok (dw_underlying (wr_delta w))
  | (Err e, _) => Err e
  | (Panic, _) => Panic
  | (NoFuel, _) => NoFuel
  end.

Record TermDictionary : Type := mkTermDictionary {
  sstable_slice : list byte; sstable_index : list BlockMeta; td_num_terms : Z }.

(** [split]; [split_from_end] subtracts first. *)
Definition split_at (n : nat) (data : list byte) : res IoError (list byte * list byte) :=
  let? lhs := slice 0 n data in let? rhs := slice n (length data) data in Ok (lhs, rhs).

Definition td_open (file : list byte) : res IoError TermDictionary :=
  let? left_len := if bool_decide (16 ≤ length file)%nat then Ok (length file - 16)%nat else Panic in
  let? (main_slice, footer) := split_at left_len file in
  let index_offset := from_le (take 8 footer) in
  let num_terms := from_le (drop 8 footer) in
  let? (sstable_slice, index_slice) := split_at (Z.to_nat index_offset) main_slice in
  let? sstable_index := index_load index_slice in
  Ok (mkTermDictionary sstable_slice sstable_index num_terms).

Abbreviation TermReader := (Reader TermInfos (list byte)).

Definition sstable_reader (d : TermDictionary) : TermReader :=
  Reader_new (H := TermInfoReader checks) (sstable_slice d).
Definition sstable_reader_block (d : TermDictionary) (a : BlockAddr) : res IoError TermReader :=
  let? data := slice (byte_range a).1 (byte_range a).2 (sstable_slice d) in Ok (Reader_new (H := TermInfoReader checks) data).

(** [advance().unwrap_or(false)] *)
Definition advance_or_false : method TermReader IoError bool := λ r,
  match rd_advance (H := TermInfoReader checks) checks slice_read_exact r with
  | (Err _, r) => (Ok false, r)
  | x => x
  end.

(** The loop of [get] *)
Fixpoint get_loop (fuel : nat) (k : key) : method TermReader IoError (option TermInfo) :=
  match fuel with
  | O => λ r, (NoFuel, r)
  | S fuel =>
      let! more := advance_or_false in
      if more : bool then
        let! found := st_get (λ r, bool_decide (rd_key r = k)) in
        if found : bool then let! v := st_try (rd_value (H := TermInfoReader checks)) in st_ret (Some v) else get_loop fuel k
      else st_ret None
  end.
Definition td_get (fuel : nat) (d : TermDictionary) (k : key) : res IoError (option TermInfo) :=
  match search (sstable_index d) k with
  | Some addr => let? r := sstable_reader_block d addr in (get_loop fuel k r).1
  | None => Ok None
  end.

Fixpoint ord_loop (fuel : nat) (k : key) (ord : nat) : method TermReader IoError (option nat) :=
  match fuel with
  | O => λ r, (NoFuel, r)
  | S fuel =>
      let! more := advance_or_false in
      if more : bool then
        let! found := st_get (λ r, bool_decide (rd_key r = k)) in
        if found : bool then st_ret (Some ord) else ord_loop fuel k (S ord)
      else st_ret None
  end.
Definition td_term_ord (fuel : nat) (d : TermDictionary) (k : key) : res IoError (option nat) :=
  (ord_loop fuel k 0 (sstable_reader d)).1.

(** [n] times [advance]: is there an entry after all of them? *)
Fixpoint advance_times (n : nat) : method TermReader IoError bool :=
  match n with
  | O => st_ret true
  | S n => let! more := advance_or_false in if more : bool then advance_times n else st_ret false
  end.
(** The term that is left in the buffer, or [None] when the result is [false] *)
Definition ord_to_term (d : TermDictionary) (ord : nat) : res IoError (option key) :=
  fst ((let! found := advance_times (ord + 1) in
   if found : bool then let! k := st_get rd_key in st_ret (Some k) else st_ret None) (sstable_reader d)).
Definition term_info_from_ord (d : TermDictionary) (ord : nat) : res IoError TermInfo :=
  fst ((let! found := advance_times (ord + 1) in
   if found : bool then st_try (rd_value (H := TermInfoReader checks)) else st_ret TermInfo_default) (sstable_reader d)).

(** * The stream of terms *)

Inductive bound : Type := Unbounded | Included (k : key) | Excluded (k : key).
Definition match_lower (b : bound) (k : key) : bool :=
  match b with Unbounded => true | Included l => key_le l k | Excluded l => key_lt l k end.
Definition match_upper (b : bound) (k : key) : bool :=
  match b with Unbounded => true | Included u => key_le k u | Excluded u => key_lt k u end.

Section streamer.
(** The automaton is a trait of another crate. *)
Context {A : Type}.
Variables (accept : A → byte → A) (is_match : A → bool).

Record TermStreamer : Type := mkTermStreamer {
  ts_states : list A; ts_delta : DeltaReader TermInfos (list byte); ts_key : key;
  ts_term_ord : option nat; ts_lower : bound; ts_upper : bound }.

Definition into_stream (d : TermDictionary) (start_state : A) (lower upper : bound) : TermStreamer :=
  mkTermStreamer [start_state] (DeltaReader_new (H := TermInfoReader checks) (sstable_slice d)) [] None lower upper.

Definition set_ts_lower (b : bound) (s : TermStreamer) :=
  mkTermStreamer (ts_states s) (ts_delta s) (ts_key s) (ts_term_ord s) b (ts_upper s).
Definition on_ts_delta {B} (m : method (DeltaReader TermInfos (list byte)) IoError B) : method TermStreamer IoError B := λ s,
  let '(x, d) := m (ts_delta s) in
  (x, mkTermStreamer (ts_states s) d (ts_key s) (ts_term_ord s) (ts_lower s) (ts_upper s)).

(** [unwrap()]: an error is a panic. *)
Definition unwrap {S B} (m : method S IoError B) : method S IoError B := λ s,
  match m s with (Err _, s) => (Panic, s) | x => x end.

(** The states that the bytes of the suffix lead to *)
Fixpoint push_states (state : A) (suffix : list byte) (states : list A) : A * list A :=
  match suffix with
  | [] => (state, states)
  | b :: suffix => let state := accept state b in push_states state suffix (states ++ [state])
  end.

Fixpoint stream_advance (fuel : nat) : method TermStreamer IoError bool :=
  match fuel with
  | O => λ s, (NoFuel, s)
  | S fuel =>
      let! more := unwrap (on_ts_delta (dr_advance (H := TermInfoReader checks) checks slice_read_exact)) in
      if more : bool then
        let! _ := st_set (λ s, mkTermStreamer (ts_states s) (ts_delta s) (ts_key s)
                    (Some (match ts_term_ord s with Some o => (o + 1)%nat | None => 0%nat end)) (ts_lower s) (ts_upper s)) in
        let! keep := st_get (λ s, dr_common_prefix_len (ts_delta s)) in
        let! suffix := st_try (λ s, dr_suffix (ts_delta s)) in
        let! states := st_get (λ s, take (keep + 1) (ts_states s)) in
        let! state := st_try (λ _, match list.last states with Some x => Ok x | None => Panic end) in
        let '(state, states) := push_states state suffix states in
        let! _ := st_set (λ s, mkTermStreamer states (ts_delta s) (take keep (ts_key s) ++ suffix)
                    (ts_term_ord s) (ts_lower s) (ts_upper s)) in
        let! lower_ok := st_get (λ s, match_lower (ts_lower s) (ts_key s)) in
        if negb lower_ok then stream_advance fuel
        else
          let! _ := st_set (set_ts_lower Unbounded) in
          let! upper_ok := st_get (λ s, match_upper (ts_upper s) (ts_key s)) in
          if negb upper_ok then st_ret false
          else if is_match state then st_ret true else stream_advance fuel
      else st_ret false
  end.

Definition stream_value (s : TermStreamer) : res IoError TermInfo := dr_value (H := TermInfoReader checks) (ts_delta s).
Definition term_ord (s : TermStreamer) : nat := match ts_term_ord s with Some o => o | None => 0 end.

(** The terms that [n] calls at most give, with their ordinals *)
Fixpoint stream_all (fuel n : nat) : method TermStreamer IoError (list (nat * (key * TermInfo))) :=
  match n with
  | O => λ s, (NoFuel, s)
  | S n =>
      let! more := stream_advance fuel in
      if more : bool then
        let! o := st_get term_ord in
        let! k := st_get ts_key in
        let! v := st_try stream_value in
        let! l := stream_all fuel n in st_ret ((o, (k, v)) :: l)
      else st_ret []
  end.
End streamer.
End dictionary.

(** * The values of a block *)

Definition info_bytes (i : TermInfo) : list byte :=
  vint (doc_freq i) ++ vint (range_len (postings_range i)) ++ vint (range_len (positions_range i)).

(** The ranges of the terms of a segment follow one another. *)
Fixpoint chained (p q : Z) (l : list TermInfo) : Prop :=
  match l with
  | [] => True
  | i :: l => 0 ≤ doc_freq i < 2 ^ 32
      ∧ (postings_range i).1 = p ∧ p ≤ (postings_range i).2 < 2 ^ 64
      ∧ (positions_range i).1 = q ∧ q ≤ (positions_range i).2 < 2 ^ 64
      ∧ chained (postings_range i).2 (positions_range i).2 l
  end.
Definition infos_ok (l : list TermInfo) : Prop := ∃ p q, 0 ≤ p < 2 ^ 64 ∧ 0 ≤ q < 2 ^ 64 ∧ chained p q l.

Definition starts_bytes (l : list TermInfo) : list byte :=
  match l with [] => [] | i :: _ => vint (postings_range i).1 ++ vint (positions_range i).1 end.
Definition infos_bytes (l : list TermInfo) : list byte :=
  vint (Z.of_nat (length l)) ++ starts_bytes l ++ concat (info_bytes <$> l).

Lemma range_len_of a b : a ≤ b → range_len (a, b) = b - a.
Proof. intros Hab. unfold range_len. cbn. case_bool_decide; lia. Qed.

Lemma chained_app p q a b : 0 ≤ p < 2 ^ 64 → 0 ≤ q < 2 ^ 64 → chained p q (a ++ b) →
  chained p q a ∧ ∃ p' q', 0 ≤ p' < 2 ^ 64 ∧ 0 ≤ q' < 2 ^ 64 ∧ chained p' q' b.
Proof.
  revert p q. induction a as [|i a IH]; intros p q Hp Hq; cbn [app chained].
  { intros Hb. split; [done|]. by exists p, q. }
  intros (Hd & H1 & H2 & H3 & H4 & H5). destruct (IH (postings_range i).2 (positions_range i).2 ltac:(lia) ltac:(lia) H5) as [Ha Hb]. split; [tauto|done].
Qed.

Lemma write_infos_is l p q buffer : 0 ≤ p → 0 ≤ q → chained p q l →
  write_infos l buffer = Ok (buffer ++ concat (info_bytes <$> l)).
Proof.
  revert p q buffer. induction l as [|i l IH]; intros p q buffer Hp Hq Hc; [by rewrite app_nil_r|].
  destruct Hc as (Hd & H1 & H2 & H3 & H4 & H5). destruct i as [d [p1 p2] [q1 q2]].
  cbn [doc_freq postings_range positions_range fst snd write_infos] in *. subst p1 q1.
  rewrite !range_len_of by lia.
  rewrite serialize_into_vec_is by lia. cbn [res_bind]. rewrite serialize_into_vec_is by lia. cbn [res_bind].
  rewrite serialize_into_vec_is by lia. cbn [res_bind]. rewrite (IH p2 q2) by (done || lia).
  cbn [fmap list_fmap concat]. unfold info_bytes at 2. cbn [doc_freq postings_range positions_range].
  rewrite !range_len_of by lia. by rewrite <- !app_assoc.
Qed.

Lemma length_infos p q l : 0 ≤ p → 0 ≤ q → chained p q l → (length (concat (info_bytes <$> l)) ≤ 30 * length l)%nat.
Proof.
  revert p q. induction l as [|i l IH]; intros p q Hp Hq Hc; [simpl; lia|].
  destruct Hc as (Hd & H1 & H2 & H3 & H4 & H5). specialize (IH (postings_range i).2 (positions_range i).2 ltac:(lia) ltac:(lia) H5).
  destruct i as [d [p1 p2] [q1 q2]]. cbn in H1, H2, H3, H4, Hd. subst.
  cbn [fmap list_fmap concat length]. rewrite length_app. unfold info_bytes at 1. cbn [doc_freq postings_range positions_range].
  rewrite !length_app, !range_len_of by lia.
  pose proof (length_vint64 d ltac:(lia)). pose proof (length_vint64 (p2 - p) ltac:(lia)). pose proof (length_vint64 (q2 - q) ltac:(lia)).
  lia.
Qed.

(** The bytes of a block, one by one *)
Lemma br_reads {R} bs (r : BlockReader R) rest : drop (br_offset r) (br_buffer r) = bs ++ rest →
  (br_offset r ≤ length (br_buffer r))%nat → reads br_next bs r (set_offset (br_offset r + length bs) r).
Proof.
  revert r. induction bs as [|b bs IH]; intros r Hd Ho.
  - cbn. rewrite Nat.add_0_r, set_offset_same. constructor.
  - eapply reads_cons.
    + unfold br_next. rewrite (st_bind_try _ _ _ _ (br_rest_is r _ Ho Hd)). cbn [app]. unfold br_advance.
      rewrite st_bind_set. done.
    + assert (drop (br_offset r + 1) (br_buffer r) = bs ++ rest) as Hd' by (rewrite <- drop_drop, Hd; done).
      assert (br_offset r + 1 ≤ length (br_buffer r))%nat as Ho'
        by (apply (f_equal length) in Hd; rewrite length_drop in Hd; simpl in Hd; lia).
      specialize (IH (set_offset (br_offset r + 1) r) Hd' Ho').
      replace (br_offset r + length (b :: bs))%nat with (br_offset r + 1 + length bs)%nat by (simpl; lia). exact IH.
Qed.

Lemma read_vint_is {R} checks v (r : BlockReader R) rest : 0 ≤ v < 2 ^ 64 →
  drop (br_offset r) (br_buffer r) = vint v ++ rest → (br_offset r ≤ length (br_buffer r))%nat →
  read_vint checks r = (Ok v, set_offset (br_offset r + length (vint v)) r)
  ∧ drop (br_offset r + length (vint v)) (br_buffer r) = rest ∧ (br_offset r + length (vint v) ≤ length (br_buffer r))%nat.
Proof.
  intros Hv Hd Ho. split; [|split].
  - unfold read_vint, VInt_deserialize. apply vint_read; [lia|done| |lia]. by eapply br_reads.
  - by apply drop_app_inv.
  - apply (f_equal length) in Hd. rewrite length_drop, length_app in Hd. lia.
Qed.

Lemma read_infos_is {R} checks l p q acc (r : BlockReader R) rest : 0 ≤ p → 0 ≤ q → chained p q l →
  drop (br_offset r) (br_buffer r) = concat (info_bytes <$> l) ++ rest → (br_offset r ≤ length (br_buffer r))%nat →
  read_infos checks (length l) p q acc r
  = (Ok (acc ++ l), set_offset (br_offset r + length (concat (info_bytes <$> l))) r).
Proof.
  revert p q acc r. induction l as [|i l IH]; intros p q acc r Hp Hq Hc Hd Ho.
  - cbn. by rewrite app_nil_r, Nat.add_0_r, set_offset_same.
  - destruct Hc as (Hdf & H1 & H2 & H3 & H4 & H5). destruct i as [d [p1 p2] [q1 q2]].
    cbn [doc_freq postings_range positions_range fst snd] in *. subst p1 q1.
    cbn [fmap list_fmap concat] in Hd. unfold info_bytes at 1 in Hd. cbn [doc_freq postings_range positions_range] in Hd.
    rewrite !range_len_of in Hd by lia. rewrite <- !app_assoc in Hd. cbn [length read_infos].
    destruct (read_vint_is checks d r _ ltac:(lia) Hd Ho) as (Hr1 & Hd1 & Ho1). rewrite (st_bind_ok _ _ _ _ _ Hr1).
    set (r1 := set_offset (br_offset r + length (vint d)) r) in *.
    destruct (read_vint_is checks (p2 - p) r1 _ ltac:(lia) Hd1 Ho1) as (Hr2 & Hd2 & Ho2). rewrite (st_bind_ok _ _ _ _ _ Hr2).
    set (r2 := set_offset (br_offset r1 + length (vint (p2 - p))) r1) in *.
    destruct (read_vint_is checks (q2 - q) r2 _ ltac:(lia) Hd2 Ho2) as (Hr3 & Hd3 & Ho3). rewrite (st_bind_ok _ _ _ _ _ Hr3).
    set (r3 := set_offset (br_offset r2 + length (vint (q2 - q))) r2) in *.
    replace (p + (p2 - p)) with p2 by lia. replace (q + (q2 - q)) with q2 by lia.
    rewrite (st_bind_try (λ _, fit_word checks 64 p2) _ _ p2) by (apply fit_word_in; lia).
    rewrite (st_bind_try (λ _, fit_word checks 64 q2) _ _ q2) by (apply fit_word_in; lia).
    rewrite (IH p2 q2 _ r3) by (done || lia). rewrite <- app_assoc. unfold as_u32. rewrite Z.mod_small by lia.
    cbn [app]. f_equal. unfold r3, r2, r1, set_offset. cbn [br_offset br_buffer br_reader fmap list_fmap concat].
    rewrite length_app. unfold info_bytes at 2. cbn [doc_freq postings_range positions_range].
    rewrite !range_len_of, !length_app by lia. f_equal. lia.
Qed.

Lemma foldl_infos l acc : foldl (λ w v, vw_write v w) (mkTermInfos acc) l = mkTermInfos (acc ++ l).
Proof.
  revert acc. induction l as [|v l IH]; intros acc; [cbn; by rewrite app_nil_r|]. cbn [foldl].
  etrans; [apply (IH (acc ++ [v]))|]. by rewrite <- app_assoc.
Qed.

#[export] Program Instance TermInfoCodec checks : ValueCodec TermInfo TermInfos TermInfos
    (ValueReader0 := TermInfoReader checks) := {| vc_ok := infos_ok; vc_bytes := infos_bytes |}.
Next Obligation.
  intros checks a b (p & q & Hp & Hq & Hc). destruct (chained_app p q a b Hp Hq Hc) as [Ha (p' & q' & Hp' & Hq' & Hb)].
  split; [by exists p, q|by exists p', q'].
Qed.
Next Obligation.
  intros checks l (p & q & Hp & Hq & Hc) Hl. unfold infos_bytes. rewrite !length_app.
  pose proof (length_infos p q l ltac:(lia) ltac:(lia) Hc). pose proof (length_vint64 (Z.of_nat (length l)) ltac:(lia)).
  assert (length (starts_bytes l) ≤ 20)%nat; [|lia]. destruct l as [|i l]; [simpl; lia|].
  destruct Hc as (_ & H1 & _ & H3 & _). unfold starts_bytes. rewrite length_app, H1, H3.
  pose proof (length_vint64 p ltac:(lia)). pose proof (length_vint64 q ltac:(lia)). lia.
Qed.
Next Obligation.
  intros checks l block Hne (p & q & Hp & Hq & Hc) Hl. cbn [vw_default TermInfoWriter vw_write_block].
  etrans; [apply (f_equal (λ w, infos_write_block w block)), foldl_infos|]. unfold infos_write_block. cbn [term_infos app].
  rewrite serialize_into_vec_is by lia. cbn [res_bind].
  destruct l as [|i l]; [done|]. pose proof Hc as (_ & H1 & _ & H3 & _).
  rewrite serialize_into_vec_is by lia. cbn [res_bind]. rewrite serialize_into_vec_is by lia. cbn [res_bind].
  rewrite (write_infos_is _ p q) by (done || lia). cbn [res_bind]. unfold infos_bytes, starts_bytes. by rewrite <- !app_assoc.
Qed.
Next Obligation.
  intros checks R l vr r rest Hne (p & q & Hp & Hq & Hc) Hl Hd Ho. cbn [vr_read vr_value TermInfoReader].
  unfold infos_bytes in *. rewrite <- !app_assoc in Hd. exists (mkTermInfos l).
  destruct (read_vint_is checks (Z.of_nat (length l)) r _ ltac:(lia) Hd Ho) as (Hr0 & Hd0 & Ho0).
  set (r0 := set_offset (br_offset r + length (vint (Z.of_nat (length l)))) r) in *.
  destruct l as [|i l]; [done|]. pose proof Hc as (_ & H1 & _ & H3 & _). unfold starts_bytes in *. rewrite H1, H3 in *.
  rewrite <- app_assoc in Hd0.
  destruct (read_vint_is checks p r0 _ Hp Hd0 Ho0) as (Hr1 & Hd1 & Ho1).
  set (r1 := set_offset (br_offset r0 + length (vint p)) r0) in *.
  destruct (read_vint_is checks q r1 _ Hq Hd1 Ho1) as (Hr2 & Hd2 & Ho2).
  set (r2 := set_offset (br_offset r1 + length (vint q)) r1) in *. split.
  - unfold infos_read. rewrite (st_bind_ok _ _ _ _ _ Hr0), (st_bind_ok _ _ _ _ _ Hr1), (st_bind_ok _ _ _ _ _ Hr2).
    rewrite Nat2Z.id. unfold st_bind.
    rewrite (read_infos_is checks (i :: l) p q [] r2 rest) by (done || lia). unfold st_ret. f_equal.
    unfold r2, r1, r0, set_offset. cbn [br_offset br_buffer br_reader]. rewrite !length_app. f_equal. lia.
  - intros j v Hj. unfold at_index. cbn [term_infos]. by rewrite Hj.
Qed.

(** * What a dictionary gives *)

Section dictionary_laws.
Variable checks : bool.
Variable index_bytes : list BlockMeta → list byte.
Variable index_load : list byte → res IoError (list BlockMeta).
Abbreviation at_list := (reader_at (HC := TermInfoCodec checks)).
Abbreviation table_of := (table (HC := TermInfoCodec checks)).
Abbreviation file_of := (table_bytes (HC := TermInfoCodec checks)).
Abbreviation blocks_of := (all_blocks (HC := TermInfoCodec checks)).
Abbreviation block_of := (block_bytes (HC := TermInfoCodec checks)).
Abbreviation good_block := (block_ok (HC := TermInfoCodec checks)).

(** Terms that can be written: increasing, of the size of a slice, with chained ranges *)
Record terms_ok (entries : list (key * TermInfo)) : Prop := mk_terms_ok {
  to_sorted : sorted entries;
  to_sizes : Forall key_size entries.*1;
  to_infos : infos_ok entries.*2;
}.

Lemma build_is entries : terms_ok entries →
  ∃ blocks metas, build index_bytes entries = Ok (file_of index_bytes blocks metas) ∧ table_of entries blocks metas.
Proof.
  intros [Hs Hk Hv].
  destruct (table_is (HC := TermInfoCodec checks) index_bytes entries Hs Hk Hv) as (blocks & metas & w & Hw & Hout & _ & Htable).
  exists blocks, metas. unfold build. by rewrite Hw, Hout.
Qed.

(** A table whose file has a length of 64 bits is opened as it was built. *)
Lemma open_is entries blocks metas : table_of entries blocks metas → index_load (index_bytes metas) = Ok metas →
  Z.of_nat (length (file_of index_bytes blocks metas)) < 2 ^ 64 → Z.of_nat (length entries) < 2 ^ 64 →
  td_open index_load (file_of index_bytes blocks metas)
  = Ok (mkTermDictionary (blocks_of blocks ++ to_le 4 0) metas (Z.of_nat (length entries))).
Proof.
  intros [Hcat _ _ _] Hload Hfile Hcount. unfold td_open, split_at.
  assert (file_of index_bytes blocks metas = ((blocks_of blocks ++ to_le 4 0) ++ index_bytes metas)
    ++ (to_le 8 (Z.of_nat (length (blocks_of blocks) + 4)) ++ to_le 8 (Z.of_nat (length entries)))) as Hbytes
    by (unfold TanTable.table_bytes; rewrite Hcat, <- !app_assoc; done).
  rewrite Hbytes in *. clear Hbytes. rewrite !length_app, !length_to_le in *.
  rewrite bool_decide_true by lia. cbn [res_bind].
  rewrite slice_Ok by (rewrite ?length_app, ?length_to_le; lia). cbn [res_bind].
  rewrite slice_Ok by (rewrite ?length_app, ?length_to_le; lia). cbn [res_bind].
  rewrite drop_0, Nat.sub_0_r, take_app_length', drop_app_length' by (rewrite ?length_app, ?length_to_le; lia).
  rewrite (take_ge (to_le 8 _ ++ _)) by (rewrite ?length_app, ?length_to_le; lia).
  rewrite take_app_length', drop_app_length' by by rewrite length_to_le.
  rewrite !from_to_le by (change (256 ^ Z.of_nat 8) with (2 ^ 64); lia). rewrite Nat2Z.id.
  rewrite slice_Ok by (rewrite ?length_app, ?length_to_le; lia). cbn [res_bind].
  rewrite slice_Ok by (rewrite ?length_app, ?length_to_le; lia). cbn [res_bind].
  rewrite drop_0, Nat.sub_0_r, take_app_length', drop_app_length' by (rewrite ?length_app, ?length_to_le; lia).
  rewrite take_ge by (rewrite ?length_app, ?length_to_le; lia). rewrite Hload. done.
Qed.

Lemma next_or_false r k v l : at_list r ((k, v) :: l) →
  ∃ r', advance_or_false checks r = (Ok true, r') ∧ rd_key r' = k ∧ rd_value (H := TermInfoReader checks) r' = Ok v ∧ at_list r' l.
Proof.
  intros Hr. destruct (reader_next checks r k v l Hr) as (r' & Hadv & Hrest). exists r'. split; [|done].
  unfold advance_or_false. by rewrite Hadv.
Qed.

Lemma end_or_false r : at_list r [] → ∃ r', advance_or_false checks r = (Ok false, r').
Proof. intros Hr. destruct (reader_end checks r Hr) as [r' Hadv]. exists r'. unfold advance_or_false. by rewrite Hadv. Qed.

(** The first entry with a key, and its place *)
Fixpoint lookup_term (k : key) (l : list (key * TermInfo)) : option TermInfo :=
  match l with [] => None | (k', v) :: l => if bool_decide (k' = k) then Some v else lookup_term k l end.
Fixpoint place_of (k : key) (l : list (key * TermInfo)) (i : nat) : option nat :=
  match l with [] => None | (k', _) :: l => if bool_decide (k' = k) then Some i else place_of k l (S i) end.

Lemma get_loop_is fuel k r l : at_list r l → (length l < fuel)%nat →
  (get_loop checks fuel k r).1 = Ok (lookup_term k l).
Proof.
  revert r l. induction fuel as [|fuel IH]; intros r l Hr Hf; [lia|]. cbn [get_loop]. destruct l as [|[k' v] l].
  - destruct (end_or_false r Hr) as [r' Hadv]. by rewrite (st_bind_ok _ _ _ _ _ Hadv).
  - destruct (next_or_false r k' v l Hr) as (r' & Hadv & Hk & Hv & Hr'). rewrite (st_bind_ok _ _ _ _ _ Hadv), st_bind_get, Hk.
    cbn [lookup_term]. case_bool_decide.
    + by rewrite (st_bind_try _ _ _ _ Hv).
    + apply IH; [done|simpl in Hf; lia].
Qed.

Lemma ord_loop_is fuel k ord r l : at_list r l → (length l < fuel)%nat →
  (ord_loop checks fuel k ord r).1 = Ok (place_of k l ord).
Proof.
  revert ord r l. induction fuel as [|fuel IH]; intros ord r l Hr Hf; [lia|]. cbn [ord_loop]. destruct l as [|[k' v] l].
  - destruct (end_or_false r Hr) as [r' Hadv]. by rewrite (st_bind_ok _ _ _ _ _ Hadv).
  - destruct (next_or_false r k' v l Hr) as (r' & Hadv & Hk & Hv & Hr'). rewrite (st_bind_ok _ _ _ _ _ Hadv), st_bind_get, Hk.
    cbn [place_of]. case_bool_decide; [done|]. apply IH; [done|simpl in Hf; lia].
Qed.

(** [n + 1] calls end at the entry [n], if there is one. *)
Lemma advance_times_is n r l : at_list r l →
  ∃ found r', advance_times checks (n + 1) r = (Ok found, r') ∧ match l !! n with
  | Some (k, v) => found = true ∧ rd_key r' = k ∧ rd_value (H := TermInfoReader checks) r' = Ok v
  | None => found = false
  end.
Proof.
  revert r l. induction n as [|n IH]; intros r l Hr; cbn [Nat.add advance_times].
  - destruct l as [|[k v] l].
    + destruct (end_or_false r Hr) as [r' Hadv]. rewrite (st_bind_ok _ _ _ _ _ Hadv). by eexists _, _.
    + destruct (next_or_false r k v l Hr) as (r' & Hadv & Hk & Hv & Hr'). rewrite (st_bind_ok _ _ _ _ _ Hadv). by eexists _, _.
  - destruct l as [|[k v] l].
    + destruct (end_or_false r Hr) as [r' Hadv]. rewrite (st_bind_ok _ _ _ _ _ Hadv). by eexists _, _.
    + destruct (next_or_false r k v l Hr) as (r' & Hadv & _ & _ & Hr'). rewrite (st_bind_ok _ _ _ _ _ Hadv).
      destruct (IH r' l Hr') as (found & r'' & Ht & Hspec). by exists found, r''.
Qed.

Lemma lookup_in k v l : sorted l → (k, v) ∈ l → lookup_term k l = Some v.
Proof.
  intros Hs. induction l as [|[k' v'] l IH]; [by intros ?%not_elem_of_nil|]. intros [[= -> ->]|Hin]%elem_of_cons; cbn [lookup_term].
  - by rewrite bool_decide_true.
  - unfold sorted in Hs. cbn in Hs. inversion Hs as [|? ? Hs' Hall]; subst. rewrite bool_decide_false; [by apply IH|].
    intros ->. assert (k ∈ l.*1) as Hk by (change k with (fst (k, v)); by apply list_elem_of_fmap_2).
    pose proof (proj1 (list.Forall_forall _ _) Hall k Hk) as Hc. cbn in Hc. by rewrite key_lt_irrefl in Hc.
Qed.

Lemma lookup_not_in k l : (∀ v, (k, v) ∉ l) → lookup_term k l = None.
Proof.
  induction l as [|[k' v'] l IH]; intros Hn; [done|]. cbn [lookup_term]. rewrite bool_decide_false.
  - apply IH. intros v Hv. apply (Hn v). by right.
  - intros ->. apply (Hn v'). by left.
Qed.

Lemma lookup_term_in k v l : lookup_term k l = Some v → (k, v) ∈ l.
Proof.
  induction l as [|[k' v'] l IH]; [done|]. cbn [lookup_term]. case_bool_decide; [intros [= ->]; subst; by left|].
  intros Hl. right. by apply IH.
Qed.

(** The reader of the file, and that of one block *)
(** The term and the info of a place *)
Lemma at_place d l i : at_list (sstable_reader checks d) l →
  ord_to_term checks d i = Ok (fst <$> l !! i)
  ∧ term_info_from_ord checks d i = Ok (default TermInfo_default (snd <$> l !! i)).
Proof.
  intros Hr. destruct (advance_times_is i _ l Hr) as (found & r' & Hadv & Hspec).
  unfold ord_to_term, term_info_from_ord. rewrite !(st_bind_ok _ _ _ _ _ Hadv).
  destruct (l !! i) as [[k v]|]; [|by rewrite Hspec]. destruct Hspec as (-> & Hk & Hv).
  rewrite st_bind_get, Hk. split; [done|]. unfold st_try. by rewrite Hv.
Qed.

Lemma place_of_lookup i k v l o : sorted l → l !! i = Some (k, v) → place_of k l o = Some (o + i)%nat.
Proof.
  revert i o. induction l as [|[k' v'] l IH]; intros i o Hs Hi; [done|]. unfold sorted in Hs. cbn in Hs.
  inversion Hs as [|? ? Hs' Hall]; subst. cbn [place_of]. destruct i as [|i].
  - injection Hi as -> ->. rewrite bool_decide_true by done. f_equal. lia.
  - cbn in Hi. rewrite bool_decide_false.
    + rewrite (IH i (S o) Hs' Hi). f_equal. lia.
    + intros ->. assert (k ∈ l.*1) as Hin by (change k with (fst (k, v)); apply list_elem_of_fmap_2; by eapply list_elem_of_lookup_2).
      pose proof (proj1 (list.Forall_forall _ _) Hall _ Hin) as Hlt. cbn in Hlt. by rewrite key_lt_irrefl in Hlt.
Qed.

Lemma place_of_none k l o : k ∉ l.*1 → place_of k l o = None.
Proof.
  revert o. induction l as [|[k' v] l IH]; intros o Hk; [done|]. cbn in *. rewrite not_elem_of_cons in Hk. destruct Hk as [Hne Hk].
  rewrite bool_decide_false by congruence. by apply IH.
Qed.

Lemma reader_of_file entries blocks metas n : table_of entries blocks metas → terms_ok entries →
  at_list (sstable_reader checks (mkTermDictionary (blocks_of blocks ++ to_le 4 0) metas n)) entries.
Proof.
  intros Ht [Hs Hk Hv]. exists []. split; [done|]. unfold sstable_reader, Reader_new. cbn [rd_delta sstable_slice].
  pose proof (table_blocks entries blocks metas Ht Hs Hk Hv) as Hb. destruct Ht as [<- _ _ _].
  apply start_at; [done|]. right. exists []. by rewrite app_nil_r.
Qed.

Lemma td_get_is fuel entries blocks metas n k : table_of entries blocks metas → terms_ok entries →
  (length entries < fuel)%nat →
  td_get checks fuel (mkTermDictionary (blocks_of blocks ++ to_le 4 0) metas n) k = Ok (lookup_term k entries).
Proof.
  intros Ht Hok Hf. pose proof (table_blocks entries blocks metas Ht (to_sorted _ Hok) (to_sizes _ Hok) (to_infos _ Hok)) as Hb.
  destruct Ht as [Hcat Hindex Hne _]. pose proof (to_sorted _ Hok) as Hs.
  rewrite <- Hcat in Hs. pose proof (search_is 0 0 blocks metas k Hindex Hne Hs) as Hsearch.
  unfold td_get. cbn [sstable_index]. destruct (search metas k) as [a|].
  - destruct Hsearch as (pre & b & post & -> & -> & Hin). unfold sstable_reader_block. cbn [byte_range fst snd sstable_slice Nat.add].
    assert (blocks_of (pre ++ b :: post) ++ to_le 4 0 = blocks_of pre ++ block_of b ++ blocks_of post ++ to_le 4 0) as ->
      by (change (b :: post) with ([b] ++ post); rewrite !all_blocks_app, all_blocks_one, <- !app_assoc; done).
    rewrite slice_Ok by (rewrite ?length_app; lia). cbn [res_bind].
    rewrite drop_app_length, Nat.add_comm, Nat.add_sub, take_app_length.
    assert (Forall good_block [b]) as Hbb by (apply Forall_app in Hb as [_ Hb]; constructor; [by apply Forall_inv in Hb|constructor]).
    rewrite (get_loop_is fuel k _ (concat [b])).
    + cbn [concat]. rewrite app_nil_r. f_equal.
      assert (sorted b) as Hsb.
      { unfold sorted in *. rewrite concat_app, fmap_app in Hs. apply sorted_app in Hs as (_ & Hs & _).
        cbn [concat] in Hs. rewrite fmap_app in Hs. by apply sorted_app in Hs as (Hs & _ & _). }
      destruct (lookup_term k entries) as [v|] eqn:Hl.
      * apply lookup_in; [done|]. apply Hin. rewrite Hcat. by apply lookup_term_in.
      * apply lookup_not_in. intros v Hv. assert ((k, v) ∈ entries) as He.
        { rewrite <- Hcat, concat_app. apply elem_of_app. right. cbn. apply elem_of_app. by left. }
        rewrite (lookup_in k v entries) in Hl; [done|exact (to_sorted _ Hok)|done].
    + exists []. split; [done|]. unfold Reader_new. cbn [rd_delta].
      rewrite <- (app_nil_r (block_of b)), <- all_blocks_one. apply start_at; [done|by left].
    + cbn [concat]. rewrite app_nil_r. rewrite <- Hcat, concat_app, length_app in Hf. cbn [concat] in Hf.
      rewrite length_app in Hf. lia.
  - f_equal. symmetry. apply lookup_not_in. by rewrite <- Hcat.
Qed.

(** ** The stream *)

Section streamer_laws.
Context {A : Type}.
Variables (accept : A → byte → A) (is_match : A → bool) (start : A) (lower upper : bound).
Abbreviation run := (foldl accept start).
Abbreviation streamer := (TermStreamer (A := A)).

(** The states behind the bytes of a key *)
Fixpoint scan (st : A) (bs : key) : list A :=
  match bs with [] => [] | b :: bs => accept st b :: scan (accept st b) bs end.
Definition states_of (k : key) : list A := start :: scan start k.

Lemma scan_app st a b : scan st (a ++ b) = scan st a ++ scan (foldl accept st a) b.
Proof. revert st. induction a as [|x a IH]; intros st; [done|]. cbn. by rewrite IH. Qed.

Lemma length_scan st k : length (scan st k) = length k.
Proof. revert st. induction k as [|x k IH]; intros st; [done|]. cbn. by rewrite IH. Qed.

Lemma take_states n k : (n ≤ length k)%nat → take (n + 1) (states_of k) = states_of (take n k).
Proof.
  intros Hn. rewrite Nat.add_1_r. unfold states_of. cbn [take]. f_equal.
  rewrite <- (take_drop n k) at 1. rewrite scan_app. apply take_app_length'. rewrite length_scan, length_take. lia.
Qed.

Lemma last_states k : list.last (states_of k) = Some (run k).
Proof.
  unfold states_of. generalize start. induction k as [|b k IH]; intros st; [done|]. cbn [scan foldl]. rewrite <- IH. done.
Qed.

Lemma push_is suffix st states : push_states accept st suffix states = (foldl accept st suffix, states ++ scan st suffix).
Proof.
  revert st states. induction suffix as [|b suffix IH]; intros st states; [by rewrite app_nil_r|].
  cbn [push_states scan foldl]. by rewrite IH, <- app_assoc.
Qed.

(** A term that is given: in the range, and accepted *)
Definition selects (k : key) : bool := match_lower lower k && match_upper upper k && is_match (run k).

(** The stream before the entries [l], the first of which has the ordinal [o] *)
Record stream_at (s : streamer) (l : list (key * TermInfo)) (o : nat) : Prop := mk_stream_at {
  sa_reader : remains (HC := TermInfoCodec checks) (ts_delta s) (ts_key s) l;
  sa_states : ts_states s = states_of (ts_key s);
  sa_ord : match ts_term_ord s with Some i => S i | None => O end = o;
  sa_upper : ts_upper s = upper;
  sa_lower : ts_lower s = lower ∨ ts_lower s = Unbounded ∧ Forall (λ e, match_lower lower e.1 = true) l;
}.

Lemma lower_monotone a b : match_lower lower a = true → key_lt a b = true → match_lower lower b = true.
Proof.
  destruct lower as [|k|k]; cbn; intros Ha Hb; [done| |by eapply key_lt_trans].
  apply key_le_lt. right. by eapply key_le_lt_trans.
Qed.

Lemma upper_monotone a b : match_upper upper b = true → key_lt a b = true → match_upper upper a = true.
Proof.
  destruct upper as [|k|k]; cbn; intros Hb Ha; [done| |by eapply key_lt_trans].
  apply key_le_lt in Hb as [->|Hb]; apply key_le_lt; right; [done|by eapply key_lt_trans].
Qed.

(** What a call passes over, and what it stops at *)
Definition passed (l : list (key * TermInfo)) : Prop := Forall (λ e, selects e.1 = false) l.

Lemma stream_advance_is fuel s l o : stream_at s l o → sorted l → (length l < fuel)%nat →
  ∃ found s', stream_advance checks accept is_match fuel s = (Ok found, s') ∧
  if found : bool then ∃ skipped k v l', l = skipped ++ (k, v) :: l' ∧ passed skipped ∧ selects k = true
    ∧ ts_key s' = k ∧ stream_value checks s' = Ok v ∧ term_ord s' = (o + length skipped)%nat
    ∧ stream_at s' l' (o + length skipped + 1)
  else passed l.
Proof.
  revert s l o. induction fuel as [|fuel IH]; intros s l o [Hr Hst Ho Hup Hlow] Hs Hf; [lia|]. cbn [stream_advance].
  destruct l as [|[k v] l].
  { destruct (remains_end checks _ _ Hr) as [d' Hd]. unfold st_bind at 1, unwrap, on_ts_delta. rewrite Hd.
    eexists false, _. split; [done|]. constructor. }
  destruct (remains_next checks _ _ _ _ _ Hr) as (p & d' & Hp & Hd & Hkeep & Hsuffix & Hv & Hrest).
  unfold st_bind at 1, unwrap at 1, on_ts_delta at 1. rewrite Hd.
  rewrite st_bind_set, st_bind_get. cbn [ts_delta ts_states ts_key ts_term_ord ts_lower ts_upper]. rewrite Hkeep.
  unfold st_bind at 1, st_try at 1. cbn [ts_delta]. rewrite Hsuffix, st_bind_get. cbn [ts_states].
  destruct (common_prefix_spec p k) as (Hpl & Hkl & Htake). set (n := common_prefix_len p k) in *.
  assert (take n (ts_key s) = take n k ∧ (n ≤ length (ts_key s))%nat) as [Hprefix Hnl].
  { destruct Hp as [->| ->]; [done|]. change n with 0%nat. split; [done|lia]. }
  rewrite Hst, take_states, Hprefix by done. rewrite (st_bind_try _ _ _ (run (take n k))) by by rewrite last_states.
  rewrite push_is. unfold suffix_of. fold n. rewrite <- foldl_app, take_drop.
  assert (states_of (take n k) ++ scan (run (take n k)) (drop n k) = states_of k) as ->.
  { unfold states_of. cbn [app]. f_equal. rewrite <- scan_app. by rewrite take_drop. }
  rewrite st_bind_set, st_bind_get. cbn [ts_delta ts_states ts_key ts_term_ord ts_lower ts_upper]. rewrite Hprefix, take_drop.
  set (s1 := mkTermStreamer (states_of k) d' k (Some (match ts_term_ord s with Some o0 => (o0 + 1)%nat | None => 0%nat end)) (ts_lower s) (ts_upper s)).
  assert (match ts_term_ord s with Some o0 => (o0 + 1)%nat | None => 0%nat end = o) as Hord
    by (rewrite <- Ho; destruct (ts_term_ord s); lia).
  unfold sorted in Hs. cbn [fmap list_fmap fst] in Hs. apply StronglySorted_inv in Hs as [Hs' Hall].
  assert (∀ lo, (lo = lower ∨ lo = Unbounded ∧ Forall (λ e, match_lower lower e.1 = true) l) →
    stream_at (set_ts_lower lo s1) l (o + 1)) as Hat.
  { intros lo Hlo. split; [done|done| |done|done]. cbn. rewrite Hord. lia. }
  simpl in Hf. destruct (match_lower (ts_lower s) k) eqn:Hml; cbn [negb].
  - assert (match_lower lower k = true) as Hlk.
    { destruct Hlow as [<-|[_ Hlow]]; [done|]. by apply Forall_inv in Hlow. }
    assert (Forall (λ e : key * TermInfo, match_lower lower e.1 = true) l) as Hlall.
    { apply list.Forall_forall. intros [k' v'] He. apply (lower_monotone k); [done|].
      apply (proj1 (list.Forall_forall _ _) Hall). change k' with (fst (k', v')). by apply list_elem_of_fmap_2. }
    rewrite st_bind_set, st_bind_get. cbn [ts_upper ts_key set_ts_lower s1]. rewrite Hup.
    specialize (Hat Unbounded ltac:(by right)).
    destruct (match_upper upper k) eqn:Hmu; cbn [negb].
    + destruct (is_match (run k)) eqn:Hm.
      * eexists true, _. split; [done|]. exists [], k, v, l. split; [done|]. split; [constructor|].
        split; [unfold selects; by rewrite Hlk, Hmu, Hm|]. split; [done|]. split; [done|].
        split; [unfold term_ord; cbn; lia|]. cbn [length]. rewrite Nat.add_0_r. exact Hat.
      * destruct (IH _ l (o + 1)%nat Hat Hs' ltac:(lia)) as (found & s' & Hadv & Hspec). exists found, s'. split; [exact Hadv|].
        assert (selects k = false) as Hsel by (unfold selects; by rewrite Hm, andb_false_r).
        destruct found; [|by constructor].
        destruct Hspec as (skipped & k' & v' & l' & -> & Hskip & Hrest').
        exists ((k, v) :: skipped), k', v', l'. split; [done|]. split; [by constructor|]. cbn [length].
        replace (o + S (length skipped))%nat with (o + 1 + length skipped)%nat by lia. done.
    + eexists false, _. split; [done|]. constructor; [cbn [fst]; unfold selects; by rewrite Hmu, andb_false_r|].
      apply list.Forall_forall. intros [k' v'] He. cbn [fst]. unfold selects.
      destruct (match_upper upper k') eqn:Hmu'; [|by rewrite andb_false_r].
      assert (key_lt k k' = true) as Hlt.
      { apply (proj1 (list.Forall_forall _ _) Hall). change k' with (fst (k', v')). by apply list_elem_of_fmap_2. }
      rewrite (upper_monotone k k' Hmu' Hlt) in Hmu. done.
  - assert (ts_lower s = lower) as Hlo.
    { destruct Hlow as [?|[Hu _]]; [done|]. by rewrite Hu in Hml. }
    assert (stream_at s1 l (o + 1)) as Hat1 by (specialize (Hat (ts_lower s) ltac:(by left)); exact Hat).
    destruct (IH s1 l (o + 1)%nat Hat1 Hs' ltac:(lia)) as (found & s' & Hadv & Hspec). exists found, s'. split; [exact Hadv|].
    assert (selects k = false) as Hsel by (unfold selects; rewrite <- Hlo, Hml; done).
    destruct found; [|by constructor].
    destruct Hspec as (skipped & k' & v' & l' & -> & Hskip & Hrest').
    exists ((k, v) :: skipped), k', v', l'. split; [done|]. split; [by constructor|]. cbn [length].
    replace (o + S (length skipped))%nat with (o + 1 + length skipped)%nat by lia. done.
Qed.

(** The terms that are selected, with their places *)
Fixpoint selected (o : nat) (l : list (key * TermInfo)) : list (nat * (key * TermInfo)) :=
  match l with
  | [] => []
  | e :: l => if selects e.1 then (o, e) :: selected (S o) l else selected (S o) l
  end.

Lemma selected_passed o skipped l : passed skipped → selected o (skipped ++ l) = selected (o + length skipped) l.
Proof.
  intros Hp. revert o. induction Hp as [|e skipped He _ IH]; intros o; cbn [app selected length]; [by rewrite Nat.add_0_r|].
  rewrite He, IH. f_equal. lia.
Qed.

Lemma stream_all_is fuel n s l o : stream_at s l o → sorted l → (length l < fuel)%nat → (length l < n)%nat →
  (stream_all checks accept is_match fuel n s).1 = Ok (selected o l).
Proof.
  revert s l o. induction n as [|n IH]; intros s l o Hat Hs Hf Hn; [lia|]. cbn [stream_all].
  destruct (stream_advance_is fuel s l o Hat Hs Hf) as (found & s' & Hadv & Hspec). rewrite (st_bind_ok _ _ _ _ _ Hadv).
  destruct found.
  - destruct Hspec as (skipped & k & v & l' & -> & Hskip & Hsel & Hk & Hv & Hord & Hat').
    rewrite !st_bind_get, (st_bind_try _ _ _ _ Hv), Hk, Hord. rewrite length_app in *. cbn [length] in *.
    assert (sorted l') as Hs'.
    { unfold sorted in *. rewrite fmap_app in Hs. apply sorted_app in Hs as (_ & Hs & _). by inversion Hs. }
    specialize (IH s' l' _ Hat' Hs' ltac:(lia) ltac:(lia)).
    unfold st_bind. destruct (stream_all _ _ _ fuel n s') as [[rest| | |] s'']; cbn in IH |- *; try done.
    injection IH as ->. rewrite selected_passed by done. cbn [selected fst]. rewrite Hsel. do 3 f_equal. lia.
  - rewrite <- (app_nil_r l), (selected_passed o l []) by done. done.
Qed.
(** The selected terms are those of the numbered terms that pass the conditions. *)
Lemma selected_filter o l : selected o l
  = filter (λ e, match_lower lower e.2.1 && match_upper upper e.2.1 && is_match (run e.2.1) = true) (imap (λ i e, ((o + i)%nat, e)) l).
Proof.
  revert o. induction l as [|[k v] l IH]; intros o; [done|]. cbn [selected imap]. rewrite Nat.add_0_r.
  assert (imap ((λ i e, ((o + i)%nat, e)) ∘ S) l = imap (λ i e, ((S o + i)%nat, e)) l) as ->
    by (apply imap_ext; intros i x _; cbn; f_equal; lia).
  unfold selects at 1. cbn [fst]. destruct (match_lower lower k && match_upper upper k && is_match (run k)) eqn:Hsel.
  - rewrite filter_cons_True by done. by rewrite IH.
  - rewrite filter_cons_False by (cbn; by rewrite Hsel). apply IH.
Qed.

(** The stream of a dictionary starts before its first term. *)
Lemma into_stream_at entries blocks metas n : table_of entries blocks metas → terms_ok entries →
  stream_at (into_stream checks (mkTermDictionary (blocks_of blocks ++ to_le 4 0) metas n) start lower upper) entries 0.
Proof.
  intros Ht Hok. destruct (reader_of_file entries blocks metas n Ht Hok) as (prev & Hk & Hr). cbn in Hk. subst prev.
  split; [exact Hr|done|done|done|by left].
Qed.
End streamer_laws.
End dictionary_laws.
