(* ===== verification/TanProperties.v ===== *)
(** What the modelled parts of tantivy promise: the bit packers, the bit sets, the integers of
    variable length, the sorted tables and the term dictionary. *)
From Stdlib Require Import ZArith Lia Strings.Byte Sorted.
From stdpp Require Import base list numbers option gmap sets.
From S2P Require Import Prelude StateMonad Words TanBitpacker TanBitset TanVint TanSstable TanBlocks TanTable TanTermDict.
#[local] Open Scope Z_scope.

(** * Bit packers *)

(** C36: Packed values are read back. A packer of values of one width, of at most 56 bits or of
    64, that is closed never fails and leaves as many bytes as the bits need and seven more;
    an unpacker of that width gives the value of every index whose first bit has an address
    of 32 bits, with and without overflow checks; with debug assertions, when the data has
    less than 2^32 bytes. *)
Theorem bitpack_roundtrip {E} (checks debug : bool) (b : Z) (vals : list Z) : readable b → fits b vals →
  ∃ data p, (let! _ := write_each (E := E) checks vec_write_all vals b in bp_close vec_write_all) (BitPacker_new, [])
      = (Ok tt, (p, data))
    ∧ Z.of_nat (length data) = (b * Z.of_nat (length vals) + 7) `div` 8 + 7
    ∧ ((debug = true → Z.of_nat (length data) < 2 ^ 32) → ∀ i v, vals !! i = Some v → Z.of_nat i * b < 2 ^ 32 →
       (let? u := BitUnpacker_new (E := E) checks b in bu_get debug checks u (Z.of_nat i) data) = Ok v).
Proof.
  intros Hb Hv. assert (0 ≤ b ≤ 64) as Hb64 by (destruct Hb; lia).
  eexists _, _. split; [by apply pack_close|]. split.
  - rewrite length_app, length_replicate, Nat2Z.inj_add, length_packed_bytes by lia. done.
  - intros Hdebug i v Hi Hsmall. rewrite bit_unpacker_of by done. cbn [res_bind]. by apply read_packed.
Qed.

Lemma bitpack_roundtrip_witness :
  (∃ data p, (let! _ := write_each (E := unit) true vec_write_all [3; 0; 5] 3 in bp_close vec_write_all) (BitPacker_new, [])
      = (Ok tt, (p, data))
    ∧ Z.of_nat (length data) = (3 * Z.of_nat (length [3; 0; 5]) + 7) `div` 8 + 7
    ∧ ((true = true → Z.of_nat (length data) < 2 ^ 32) → ∀ i v, [3; 0; 5] !! i = Some v → Z.of_nat i * 3 < 2 ^ 32 →
       (let? u := BitUnpacker_new (E := unit) true 3 in bu_get true true u (Z.of_nat i) data) = Ok v))
  ∧ packed_bytes 3 [3; 0; 5] = [x43; x01].
Proof. split; [apply bitpack_roundtrip; [left; lia|repeat constructor; lia]|vm_compute; reflexivity]. Defined.

(** The address of a value is computed with 32 bits: beyond them it is a panic, or without
    checks the value of another index. *)
Lemma unpack_address_overflows {E} debug b data idx : 0 < b ≤ 64 → 0 ≤ idx → 2 ^ 32 ≤ idx * b →
  bu_get (E := E) debug true (mkBitUnpacker b (Z.ones b)) idx data = Panic.
Proof.
  intros Hb Hi Ha. unfold bu_get. cbn [bu_num_bits]. rewrite bool_decide_false by lia.
  unfold fit_word. rewrite bool_decide_false by lia. done.
Qed.
Lemma unpack_address_wraps {E} data j : 0 ≤ j < 2 ^ 26 →
  bu_get (E := E) false false (mkBitUnpacker 32 (Z.ones 32)) (2 ^ 27 + j) data
  = bu_get false false (mkBitUnpacker 32 (Z.ones 32)) j data.
Proof.
  intros Hj. unfold bu_get. cbn [bu_num_bits]. rewrite !bool_decide_false by lia. unfold fit_word.
  rewrite bool_decide_false by lia. rewrite bool_decide_true by lia. cbn [res_bind].
  replace ((2 ^ 27 + j) * 32) with (j * 32 + 1 * 2 ^ 32) by lia. rewrite Z.mod_add, Z.mod_small by lia. done.
Qed.

(** C33: A blocked packer is a vector of words. Adding values never fails; afterwards [get] gives
    every value that was added at its index and [iter] all of them in order, for up to 2^52
    values, with debug assertions up to 2^28. *)
Theorem blocked_packer_is_vector {E} (checks debug : bool) (vals : list Z) :
  Forall (λ v, 0 ≤ v < 2 ^ 64) vals → Z.of_nat (length vals) < max_values debug →
  ∃ b, bbp_add_all (E := E) checks vals BlockedBitpacker_new = (Ok tt, b)
    ∧ (∀ i v, vals !! i = Some v → bbp_get (E := E) checks debug b i = Ok v)
    ∧ bbp_iter (E := E) checks debug b = Ok vals.
Proof.
  intros Hv Hmax. destruct (add_all_holds (E := E) checks vals [] _ Hv new_holds) as (b & Hadd & Hb).
  exists b. split; [done|]. split; [intros i v; by apply get_holds|by apply iter_holds].
Qed.

Lemma blocked_packer_is_vector_witness :
  ∃ b, bbp_add_all (E := unit) true (Z.of_nat <$> seq 7 130) BlockedBitpacker_new = (Ok tt, b)
    ∧ (∀ i v, (Z.of_nat <$> seq 7 130) !! i = Some v → bbp_get (E := unit) true true b i = Ok v)
    ∧ bbp_iter (E := unit) true true b = Ok (Z.of_nat <$> seq 7 130).
Proof.
  apply blocked_packer_is_vector; [|rewrite length_fmap, length_seq; unfold max_values; lia].
  apply Forall_fmap, list.Forall_forall. intros i Hi%elem_of_seq. cbn. lia.
Defined.

(** A block that is flushed before it is full counts as one of 128 values. *)
Lemma early_flush_miscounts :
  (bbp_add (E := unit) true 50000 BlockedBitpacker_new).1 = Ok tt ∧
  let b := (bbp_flush (E := unit) true (bbp_add (E := unit) true 50000 BlockedBitpacker_new).2).2 in
  bbp_iter (E := unit) true true b = Ok (replicate 128 50000).
Proof. by vm_compute. Qed.

(** * Bit sets *)

(** C32: A bit set is a set of numbers. One that is made empty, or full, for elements under
    [max], at most 2^32 - 64, answers every sequence of insertions, removals and questions (is an element in it,
    how many are, which is the first bucket of 64 that has one) as a finite set does, and the
    set stays in its representation. *)
Theorem bitset_is_set {E} (checks full : bool) (max : Z) (qs : list request) :
  max_ok max → Forall (request_ok max) qs →
  ∃ b l b' X, (if full then with_max_value_and_full (E := E) checks max else with_max_value checks max) = Ok b
    ∧ serve_all (E := E) checks qs b = (Ok l, b') ∧ repr max X b'
    ∧ answers_all qs (if full then list_to_set (seqZ 0 max) else ∅) l X.
Proof.
  intros Hm Hqs.
  assert (∃ b, (if full then with_max_value_and_full (E := E) checks max else with_max_value checks max) = Ok b
    ∧ repr max (if full then list_to_set (seqZ 0 max) else ∅) b) as (b & Hnew & Hb)
    by (destruct full; [by apply full_repr|by apply with_max_value_repr]).
  destruct (serve_all_repr (E := E) checks max qs _ b Hm Hb Hqs) as (l & b' & X & Hs & Hr & Ha).
  by exists b, l, b', X.
Qed.

Lemma bitset_is_set_witness :
  ∃ b l b' X, with_max_value (E := unit) true 100 = Ok b
    ∧ serve_all (E := unit) true [Insert 70; Contains 70; Len] b = (Ok l, b') ∧ repr 100 X b'
    ∧ answers_all [Insert 70; Contains 70; Len] ∅ l X.
Proof. apply (bitset_is_set (E := unit) true false 100); [unfold max_ok; lia|repeat constructor; simpl; lia]. Defined.

(** C35: A bit set survives its serialization. What is written of a set is opened as a set that
    says of every element whether it is in it, counts the elements, gives them in ascending
    order, each once, and whose intersections, with another serialized set or into a set that
    can change, are those of the sets. *)
Theorem bitset_serialized {E} (checks : bool) (max : Z) (X Y : gset Z) (b c : BitSet) :
  max_ok max → repr max X b → repr max Y c →
  ∃ r s i c' l, ro_from (E := E) b = Ok r ∧ ro_from (E := E) c = Ok s
    ∧ (∀ el, 0 ≤ el < max → ro_contains (E := E) checks r el = Ok (bool_decide (el ∈ X)))
    ∧ ro_len (E := E) checks r = Ok (Z.of_nat (size X))
    ∧ ro_iter (E := E) checks r = Ok l ∧ StronglySorted Z.lt l ∧ (∀ el, el ∈ l ↔ el ∈ X)
    ∧ intersect_bitsets (E := E) r s = Ok i ∧ ro_len (E := E) checks i = Ok (Z.of_nat (size (X ∩ Y)))
    ∧ (∀ el, 0 ≤ el < max → ro_contains (E := E) checks i el = Ok (bool_decide (el ∈ X ∩ Y)))
    ∧ intersect_update (E := E) checks r c = (Ok tt, c') ∧ repr max (Y ∩ X) c'.
Proof.
  intros Hm Hb Hc. destruct (ro_from_repr (E := E) max X b Hm Hb) as (r & Hr & Hrr).
  destruct (ro_from_repr (E := E) max Y c Hm Hc) as (s & Hs & Hss).
  destruct (intersect_bitsets_repr (E := E) max X Y r s Hrr Hss) as (i & Hi & Hii).
  destruct (intersect_update_repr (E := E) checks max Y X c r Hm Hc Hrr) as (c' & Hu & Hcc).
  exists r, s, i, c', (elements_from 0 (iter_tinysets r)). split_and!; try done.
  - intros el Hel. by apply (ro_contains_is checks max).
  - by apply (ro_len_is checks max).
  - by apply (ro_iter_is checks max X).
  - apply sorted_from.
  - intros el. rewrite <- (rr_set _ _ _ Hrr). unfold set_of. by rewrite elem_of_list_to_set.
  - by apply (ro_len_is checks max).
  - intros el Hel. by apply (ro_contains_is checks max).
Qed.

Lemma bitset_serialized_witness : ∃ b c, with_max_value (E := unit) true 70 = Ok b ∧ with_max_value_and_full (E := unit) true 70 = Ok c ∧
  ∃ r s i c' l, ro_from (E := unit) b = Ok r ∧ ro_from (E := unit) c = Ok s
    ∧ (∀ el, 0 ≤ el < 70 → ro_contains (E := unit) true r el = Ok (bool_decide (el ∈ (∅ : gset Z))))
    ∧ ro_len (E := unit) true r = Ok (Z.of_nat (size (∅ : gset Z)))
    ∧ ro_iter (E := unit) true r = Ok l ∧ StronglySorted Z.lt l ∧ (∀ el, el ∈ l ↔ el ∈ (∅ : gset Z))
    ∧ intersect_bitsets (E := unit) r s = Ok i ∧ ro_len (E := unit) true i = Ok (Z.of_nat (size ((∅ : gset Z) ∩ list_to_set (seqZ 0 70))))
    ∧ (∀ el, 0 ≤ el < 70 → ro_contains (E := unit) true i el = Ok (bool_decide (el ∈ (∅ : gset Z) ∩ list_to_set (seqZ 0 70))))
    ∧ intersect_update (E := unit) true r c = (Ok tt, c') ∧ repr 70 (list_to_set (seqZ 0 70) ∩ ∅) c'.
Proof.
  assert (max_ok 70) as Hm by (unfold max_ok; lia).
  destruct (with_max_value_repr (E := unit) true 70 Hm) as (b & Hb & Hrb).
  destruct (full_repr (E := unit) true 70 Hm) as (c & Hc & Hrc). exists b, c. split; [exact Hb|]. split; [exact Hc|].
  exact (bitset_serialized (E := unit) true 70 _ _ b c Hm Hrb Hrc).
Defined.

(** [clear] empties the words and leaves the number of elements as it was. *)
Lemma clear_keeps_len {E} max X b : repr max X b → ∃ b', bs_clear (E := E) b = (Ok tt, b')
  ∧ set_of (tinysets b') = ∅ ∧ bs_length b' = Z.of_nat (size X).
Proof.
  intros Hb. eexists. split; [done|]. split.
  - cbn [tinysets set_tinysets]. rewrite clear_words. apply set_of_zeros.
  - unfold bs_length. cbn [bs_len set_tinysets]. apply (rp_len _ _ _ Hb).
Qed.

(** [fmt::Debug] of bytes panics for a slice of nine. *)
Lemma debug_of_nine_panics {E} (data : OwnedBytes) : ob_debug (E := E) data = Panic ↔ length data = 9%nat.
Proof.
  unfold ob_debug, slice. case_bool_decide as H8.
  - cbn [Nat.leb andb]. rewrite (bool_decide_true (0 ≤ 10)%nat) by lia. cbn [andb]. case_bool_decide; split; intros; try done; lia.
  - split; [done|lia].
Qed.

(** * Integers of variable length *)

(** C37: All the encoders of an integer agree, and all the decoders undo them. The encoders of 32
    and 64 and 128 bits write the digits [vint] of the number, of which the last one is marked;
    what reads words of that width gives back the number and leaves the bytes behind it, from a
    slice and from any reader. The digits of the sorted tables, of which all but the last are
    marked, are read back as well. *)
Theorem vints_agree {R} (checks : bool) (next : method R IoError (option byte)) (fuel : nat) (v : Z) (output rest : list byte) (st st' : R) :
  0 ≤ v < 2 ^ 128 → (19 ≤ fuel)%nat → reads next (vint v) st st' →
  serialize_vint_u128 fuel v output = Ok (output ++ vint v)
  ∧ VIntU128_serialize vec_write_all fuel v output = (Ok tt, output ++ vint v)
  ∧ deserialize_vint_u128 checks (vint v ++ rest) = Ok (v, rest)
  ∧ VIntU128_deserialize checks next fuel st = (Ok v, st')
  ∧ VIntU128_deserialize checks slice_next fuel (vint v ++ rest) = (Ok v, rest)
  ∧ (v < 2 ^ 64 →
      VInt_serialize vec_write_all v output = (Ok tt, output ++ vint v)
      ∧ serialize_into_vec v output = Ok (output ++ vint v)
      ∧ VInt_deserialize checks next fuel st = (Ok v, st')
      ∧ VInt_deserialize checks slice_next fuel (vint v ++ rest) = (Ok v, rest)
      ∧ sv_serialize_into_vec v output = Ok (E := IoError) (output ++ cint v)
      ∧ deserialize_read checks (cint v ++ rest) = Ok (E := IoError) (length (cint v), v))
  ∧ (v < 2 ^ 32 → serialize_vint_u32 v = Ok (vint v)
      ∧ write_u32_vint vec_write_all v output = (Ok tt, output ++ vint v)
      ∧ read_u32_vint checks (vint v ++ rest) = (Ok v, rest)).
Proof.
  intros Hv Hf Hnext. assert (0 ≤ v < 128 ^ Z.of_nat 19) as H19 by (change (128 ^ Z.of_nat 19) with (2 ^ 133); lia).
  assert (∀ output, serialize_vint_u128 fuel v output = Ok (output ++ vint v)) as Hu128.
  { intros out. replace fuel with (19 + (fuel - 19))%nat by lia. unfold vint. rewrite <- (digits_fuel 19 (fuel - 19)) by (done || lia).
    apply serialize_u128_is; [|lia]. split; [lia|]. eapply Z.lt_le_trans; [apply H19|]. apply Z.pow_le_mono_r; lia. }
  assert (reads (slice_next (E := IoError)) (vint v) (vint v ++ rest) rest) as Hslice by apply slice_reads.
  split_and!; try (intros Hsmall; split_and!).
  - apply Hu128.
  - unfold VIntU128_serialize. by rewrite (st_bind_try (λ _, serialize_vint_u128 fuel v []) _ _ _ (Hu128 [])).
  - unfold deserialize_vint_u128. rewrite (u128_loop_is checks 19 19 v 0 0 0 _ rest) by (done || lia). do 2 f_equal. lia.
  - by apply vint_read.
  - by apply (vint_read checks _ _ _ _ rest).
  - rewrite VInt_serialize_is by lia. done.
  - by apply serialize_into_vec_is; lia.
  - by apply vint_read; [lia|lia|..].
  - by apply (vint_read checks _ _ _ _ rest); [lia|lia|..].
  - apply sv_into_vec_is. lia.
  - apply deserialize_read_is. lia.
  - apply serialize_u32_is. lia.
  - unfold write_u32_vint. by rewrite (st_bind_try (λ _, serialize_vint_u32 v) _ _ _ (serialize_u32_is v ltac:(lia))).
  - apply read_u32_is. lia.
Qed.

Lemma vints_agree_witness :
  (serialize_vint_u128 19 300 [] = Ok ([] ++ vint 300)
  ∧ VIntU128_serialize vec_write_all 19 300 [] = (Ok tt, [] ++ vint 300)
  ∧ deserialize_vint_u128 true (vint 300 ++ [x07]) = Ok (300, [x07])
  ∧ VIntU128_deserialize true slice_next 19 [x2c; x82; x07] = (Ok 300, [x07])
  ∧ VIntU128_deserialize true slice_next 19 (vint 300 ++ [x07]) = (Ok 300, [x07])
  ∧ (300 < 2 ^ 64 →
      VInt_serialize vec_write_all 300 [] = (Ok tt, [] ++ vint 300)
      ∧ serialize_into_vec 300 [] = Ok ([] ++ vint 300)
      ∧ VInt_deserialize true slice_next 19 [x2c; x82; x07] = (Ok 300, [x07])
      ∧ VInt_deserialize true slice_next 19 (vint 300 ++ [x07]) = (Ok 300, [x07])
      ∧ sv_serialize_into_vec 300 [] = Ok (E := IoError) ([] ++ cint 300)
      ∧ deserialize_read true (cint 300 ++ [x07]) = Ok (E := IoError) (length (cint 300), 300))
  ∧ (300 < 2 ^ 32 → serialize_vint_u32 300 = Ok (vint 300)
      ∧ write_u32_vint vec_write_all 300 [] = (Ok tt, [] ++ vint 300)
      ∧ read_u32_vint true (vint 300 ++ [x07]) = (Ok 300, [x07])))
  ∧ vint 300 = [x2c; x82] ∧ cint 300 = [xac; x02].
Proof.
  split; [|by vm_compute].
  apply (vints_agree true slice_next 19 300 [] [x07] [x2c; x82; x07] [x07]); [lia|lia|].
  exact (slice_reads [x2c; x82] [x07]).
Defined.

(** C38: Compressed lists of document ids are read back. A list that does not decrease from its
    offset on is written as the digits of its differences, a list in any order as its own
    digits: exactly these bytes, if the output has room for them and no more is asked of it,
    and else a panic. The decoders give back the list and say how many bytes they read,
    whatever follows, and the one that goes on to the end of the bytes reads them all. *)
Theorem postings_compress_roundtrip (checks : bool) (l : list Z) (offset : Z) (output rest : list byte) :
  Forall (λ v, 0 ≤ v < 2 ^ 32) l →
  (0 ≤ offset → ascending offset l → let bytes := vints (gaps offset l) in
    compress_sorted checks 5 l output offset = (if bool_decide (length bytes ≤ length output)%nat then Ok bytes else Panic)
    ∧ uncompress_sorted checks 5 (bytes ++ rest) (length l) 0 offset = Ok (length bytes, l))
  ∧ let bytes := vints l in
    compress_unsorted 5 l output = (if bool_decide (length bytes ≤ length output)%nat then Ok bytes else Panic)
    ∧ uncompress_unsorted checks 5 (bytes ++ rest) (length l) 0 = Ok (length bytes, l)
    ∧ ∀ n, (length l ≤ n)%nat → uncompress_unsorted_until_end checks 5 bytes n 0 = Ok l.
Proof.
  intros Hl. split.
  - intros Hoff Hasc bytes. split.
    + case_bool_decide; [by apply (compress_sorted_loop_is checks l offset [])|].
      apply (compress_sorted_loop_short checks l offset []); [done..|]. simpl. fold bytes. lia.
    + destruct (uncompress_sorted_is checks l offset 0 (bytes ++ rest) rest) as (j & Hj & _ & Hlen); try done.
      by rewrite Hj, Hlen.
  - intros bytes. split; [|split].
    + case_bool_decide; [by apply (compress_unsorted_loop_is l [])|].
      apply (compress_unsorted_loop_short l []); [done|]. simpl. fold bytes. lia.
    + destruct (uncompress_unsorted_is checks l 0 (bytes ++ rest) rest) as (j & Hj & _ & Hlen); try done. by rewrite Hj, Hlen.
    + intros n Hn. apply uncompress_until_end_is; (done || lia).
Qed.

(** Differences of one and two digits: four bytes are enough, three are not. *)
Lemma postings_compress_roundtrip_witness :
  ascending 3 [5; 5; 400] ∧
  compress_sorted true 5 [5; 5; 400] (replicate 4 x00) 3 = Ok [x82; x80; x0b; x83] ∧
  compress_sorted true 5 [5; 5; 400] (replicate 3 x00) 3 = Panic ∧
  uncompress_sorted true 5 [x82; x80; x0b; x83; x01] 3 0 3 = Ok (4%nat, [5; 5; 400]).
Proof.
  assert (Hasc : ascending 3 [5; 5; 400]) by (simpl; lia). assert (Hw : Forall (λ v, 0 ≤ v < 2 ^ 32) [5; 5; 400]) by (repeat constructor; lia).
  destruct (postings_compress_roundtrip true [5; 5; 400] 3 (replicate 4 x00) [x01] Hw) as [H4 _].
  destruct (postings_compress_roundtrip true [5; 5; 400] 3 (replicate 3 x00) [x01] Hw) as [H3 _].
  destruct (H4 ltac:(lia) Hasc) as [E4 Eu], (H3 ltac:(lia) Hasc) as [E3 _].
  split; [exact Hasc|]. split; [exact E4|]. split; [exact E3|exact Eu].
Defined.

(** * Sorted tables *)

(** C31: A sorted table holds its entries. Keys that increase, of less than 2^31 bytes (a
    block has its length in 32 bits), are written with their values without an error; the file gives back all the entries in their
    order. For a key the index names a part of the file and an ordinal: that part is read as
    the entries from this ordinal on, and if the table has the key it is among them; where it
    names none the table does not have the key. It holds for every codec of values, those of
    no value, of increasing numbers and of term infos for instance. *)
Theorem sstable_roundtrip `{HC : ValueCodec V VW VR} (checks : bool) (index_bytes : list BlockMeta → list byte)
    (entries : list (key * V)) :
  sorted entries → Forall key_size entries.*1 → vc_ok entries.*2 →
  ∃ w, (let! _ := write_entries vec_write_all entries in finalize vec_write_all index_bytes (st_ret tt)) (Writer_new [])
      = (Ok tt, w)
    ∧ (∃ r, read_entries checks slice_read_exact (S (length entries)) (Reader_new (dw_underlying (wr_delta w))) = (Ok entries, r))
    ∧ ∀ k, match search (wr_index w) k with
      | Some (mkBlockAddr (start, stop) ord) => ∃ b r, take (length b) (drop ord entries) = b
          ∧ read_entries checks slice_read_exact (S (length b))
              (Reader_new (take (stop - start) (drop start (dw_underlying (wr_delta w))))) = (Ok b, r)
          ∧ ∀ v, (k, v) ∈ entries → (k, v) ∈ b
      | None => ∀ v, (k, v) ∉ entries
      end.
Proof.
  intros Hs Hk Hv. destruct (table_is index_bytes entries Hs Hk Hv) as (blocks & metas & w & Hw & Hout & Hmetas & Ht).
  exists w. rewrite Hout, Hmetas. clear Hmetas Hout. pose proof (table_blocks entries blocks metas Ht Hs Hk Hv) as Hb.
  destruct Ht as [<- Hindex Hne _]. split; [done|]. split.
  - apply read_entries_is; [|lia]. exists []. split; [done|]. apply start_at; [done|]. right. by eexists.
  - intros k. pose proof (search_is 0 0 blocks metas k Hindex Hne Hs) as Hsearch.
    destruct (search metas k) as [a|]; [|done]. destruct Hsearch as (pre & b & post & -> & -> & Hin). cbn [Nat.add].
    rewrite Nat.add_comm, Nat.add_sub, block_slice. exists b.
    destruct (read_entries_is checks (S (length b)) (Reader_new (block_bytes b)) (concat [b])) as [r Hr].
    { exists []. split; [done|]. rewrite <- (app_nil_r (block_bytes b)), <- all_blocks_one. apply start_at; [|by left].
      apply Forall_app in Hb as [_ Hb]. constructor; [by apply Forall_inv in Hb|constructor]. }
    { cbn [concat]. rewrite app_nil_r. lia. }
    cbn [concat] in Hr. rewrite app_nil_r in Hr. exists r. split; [|by split].
    rewrite concat_app, drop_app_length. apply take_app_length.
Qed.

Lemma sstable_roundtrip_witness :
  ∃ w, (let! _ := write_entries (H := U64MonotonicWriter true) vec_write_all [([], 4); ([x61], 4); ([x61; x62], 900)] in
        finalize (H := U64MonotonicWriter true) vec_write_all (λ _, [x2a]) (st_ret tt)) (Writer_new (H := U64MonotonicWriter true) [])
      = (Ok tt, w)
    ∧ (∃ r, read_entries (H := U64MonotonicReader true) true slice_read_exact (S (length [([], 4); ([x61], 4); ([x61; x62], 900)]))
          (Reader_new (H := U64MonotonicReader true) (dw_underlying (wr_delta w))) = (Ok [([], 4); ([x61], 4); ([x61; x62], 900)], r))
    ∧ ∀ k, match search (wr_index w) k with
      | Some (mkBlockAddr (start, stop) ord) => ∃ b r,
          take (length b) (drop ord [([], 4); ([x61], 4); ([x61; x62], 900)]) = b
          ∧ read_entries (H := U64MonotonicReader true) true slice_read_exact (S (length b))
              (Reader_new (H := U64MonotonicReader true) (take (stop - start) (drop start (dw_underlying (wr_delta w))))) = (Ok b, r)
          ∧ ∀ v, (k, v) ∈ [([], 4); ([x61], 4); ([x61; x62], 900)] → (k, v) ∈ b
      | None => ∀ v, (k, v) ∉ [([], 4); ([x61], 4); ([x61; x62], 900)]
      end.
Proof.
  apply (sstable_roundtrip (HC := U64Codec true) true (λ _, [x2a])).
  - unfold sorted. cbn. repeat constructor.
  - cbn. repeat constructor; unfold key_size; simpl; lia.
  - exists 0. cbn. repeat split; try lia. repeat constructor; lia.
Defined.

(** The assertion that keys increase is passed by the empty key as often as it is written. *)
Lemma empty_key_twice : ∃ w : Writer unit (list byte),
  write_entries vec_write_all [([], tt); ([], tt)] (Writer_new []) = (Ok tt, w)
  ∧ ∃ r, read_entries true slice_read_exact 3 (Reader_new (all_blocks [[([], tt); ([], tt)]])) = (Ok [([], tt); ([], tt)], r).
Proof. eexists. split; [by vm_compute|]. eexists. by vm_compute. Qed.

(** * The term dictionary *)

Section dictionary_properties.
Variables (checks : bool) (index_bytes : list BlockMeta → list byte) (index_load : list byte → res IoError (list BlockMeta)).
(** What is serialized of an index is loaded. *)
Hypothesis index_loads : ∀ metas, index_load (index_bytes metas) = Ok metas.

(** The terms are fit to be written, and the file has a length of 64 bits. *)
Definition dictionary_ok (entries : list (key * TermInfo)) : Prop :=
  terms_ok entries ∧ Z.of_nat (length entries) < 2 ^ 64
  ∧ ∀ file, build index_bytes entries = Ok file → Z.of_nat (length file) < 2 ^ 64.

Lemma dictionary_is entries : dictionary_ok entries → ∃ blocks metas file,
  build index_bytes entries = Ok file ∧ table (HC := TermInfoCodec checks) entries blocks metas
  ∧ td_open index_load file = Ok (mkTermDictionary (all_blocks (HC := TermInfoCodec checks) blocks ++ to_le 4 0) metas (Z.of_nat (length entries))).
Proof.
  intros (Hok & Hcount & Hfile). destruct (build_is checks index_bytes entries Hok) as (blocks & metas & Hbuild & Ht).
  exists blocks, metas. eexists. split; [exact Hbuild|]. split; [done|]. apply (open_is checks); auto.
Qed.

(** C30: The term dictionary is a map from its terms to their infos, ordered. What is built of
    terms that increase, of less than 2^31 bytes, with infos whose ranges follow each other, opens as a dictionary that
    finds the info of every term and its place among the terms, finds nothing for what is not a
    term, and gives back the term and the info of every place, however the terms were cut into
    blocks. *)
Theorem term_dictionary_lookup (entries : list (key * TermInfo)) (fuel : nat) :
  dictionary_ok entries → (length entries < fuel)%nat →
  ∃ file d, build index_bytes entries = Ok file ∧ td_open index_load file = Ok d
    ∧ td_num_terms d = Z.of_nat (length entries)
    ∧ (∀ i k info, entries !! i = Some (k, info) →
        td_get checks fuel d k = Ok (Some info) ∧ td_term_ord checks fuel d k = Ok (Some i)
        ∧ ord_to_term checks d i = Ok (Some k) ∧ term_info_from_ord checks d i = Ok info)
    ∧ (∀ k, k ∉ entries.*1 → td_get checks fuel d k = Ok None ∧ td_term_ord checks fuel d k = Ok None)
    ∧ (∀ i, (length entries ≤ i)%nat → ord_to_term checks d i = Ok None ∧ term_info_from_ord checks d i = Ok TermInfo_default).
Proof.
  intros Hd Hf. destruct (dictionary_is entries Hd) as (blocks & metas & file & Hbuild & Ht & Hopen).
  pose proof (proj1 Hd) as Hok. exists file. eexists. split; [done|]. split; [exact Hopen|]. split; [done|].
  pose proof (reader_of_file checks entries blocks metas (Z.of_nat (length entries)) Ht Hok) as Hr.
  assert (∀ k, td_term_ord checks fuel _ k = Ok (place_of k entries 0)) as Hord
    by (intros k; apply (ord_loop_is checks fuel k 0 _ entries Hr Hf)).
  assert (∀ i, ord_to_term checks _ i = Ok (fst <$> entries !! i)
    ∧ term_info_from_ord checks _ i = Ok (default TermInfo_default (snd <$> entries !! i))) as Hplace
    by (intros i; by apply (at_place checks)).
  split; [|split].
  - intros i k info Hi. destruct (Hplace i) as [H1 H2]. rewrite H1, H2, Hi, Hord, (td_get_is checks fuel entries) by done.
    split; [|split; [|done]].
    + f_equal. apply lookup_in; [apply Hok|]. by eapply list_elem_of_lookup_2.
    + f_equal. by apply (place_of_lookup i k info entries 0), Hi; apply Hok.
  - intros k Hk. rewrite Hord, (td_get_is checks fuel entries) by done. split; f_equal.
    + apply lookup_not_in. intros v Hin. apply Hk. change k with (fst (k, v)). by apply list_elem_of_fmap_2.
    + by apply place_of_none.
  - intros i Hi. destruct (Hplace i) as [H1 H2]. by rewrite H1, H2, lookup_ge_None_2 by lia.
Qed.

(** C34: The stream of a dictionary, whose terms have less than 2^31 bytes, gives the terms that
    are selected. For bounds on both
    sides and an automaton, it gives the terms in the bounds that the automaton accepts, and no
    others, in their order and each with its place in the dictionary and its info; the states
    of the automaton it keeps for the common prefix of two terms are those of running it over
    each term. *)
Theorem term_stream_selects {A} (accept : A → byte → A) (is_match : A → bool) (start : A) (lower upper : bound)
    (entries : list (key * TermInfo)) (fuel n : nat) :
  dictionary_ok entries → (length entries < fuel)%nat → (length entries < n)%nat →
  ∃ file d, build index_bytes entries = Ok file ∧ td_open index_load file = Ok d
    ∧ (stream_all checks accept is_match fuel n (into_stream checks d start lower upper)).1
      = Ok (filter (λ e, match_lower lower e.2.1 && match_upper upper e.2.1 && is_match (foldl accept start e.2.1) = true)
             (imap pair entries)).
Proof.
  intros Hd Hf Hn. destruct (dictionary_is entries Hd) as (blocks & metas & file & Hbuild & Ht & Hopen).
  pose proof (proj1 Hd) as Hok. exists file. eexists. split; [done|]. split; [exact Hopen|].
  rewrite (stream_all_is checks accept is_match start lower upper fuel n _ entries 0); [|..|done|done].
  - f_equal. exact (selected_filter accept is_match start lower upper 0 entries).
  - by apply (into_stream_at checks).
  - apply Hok.
Qed.
End dictionary_properties.

(** ** A dictionary of two terms *)

(** An index whose numbers are written as that many bytes *)
Fixpoint put_nat (n : nat) : list byte := match n with O => [x00] | S n => x01 :: put_nat n end.
Fixpoint get_nat (l : list byte) : nat * list byte :=
  match l with x01 :: l => let '(n, rest) := get_nat l in (S n, rest) | _ :: l => (O, l) | [] => (O, []) end.
Definition put_meta (m : BlockMeta) : list byte :=
  put_nat (byte_range (block_addr m)).1 ++ put_nat (byte_range (block_addr m)).2 ++ put_nat (first_ordinal (block_addr m))
    ++ put_nat (length (last_key_or_greater m)) ++ last_key_or_greater m.
Fixpoint get_metas (n : nat) (l : list byte) : list BlockMeta :=
  match n with
  | O => []
  | S n =>
      let '(start, l) := get_nat l in let '(stop, l) := get_nat l in let '(ord, l) := get_nat l in
      let '(size, l) := get_nat l in
      mkBlockMeta (take size l) (mkBlockAddr (start, stop) ord) :: get_metas n (drop size l)
  end.
Definition put_index (metas : list BlockMeta) : list byte := put_nat (length metas) ++ concat (put_meta <$> metas).
Definition get_index (l : list byte) : res IoError (list BlockMeta) := let '(n, l) := get_nat l in Ok (get_metas n l).

Lemma get_put_nat n rest : get_nat (put_nat n ++ rest) = (n, rest).
Proof. induction n as [|n IH]; [done|]. cbn. by rewrite IH. Qed.

Lemma get_put_index metas : get_index (put_index metas) = Ok metas.
Proof.
  unfold get_index, put_index. rewrite get_put_nat. f_equal. induction metas as [|[k [[start stop] ord]] metas IH]; [done|].
  cbn [length get_metas fmap list_fmap concat foldr]. unfold put_meta at 1.
  cbn [block_addr byte_range fst snd first_ordinal last_key_or_greater]. rewrite <- !app_assoc, !get_put_nat.
  rewrite take_app_length, drop_app_length. f_equal. exact IH.
Qed.

Definition two_terms : list (key * TermInfo) :=
  [([x61], mkTermInfo 3 (0, 10) (0, 4)); ([x61; x62], mkTermInfo 1 (10, 12) (4, 9))].

Lemma two_terms_ok : dictionary_ok put_index two_terms.
Proof.
  split; [|split; [simpl; lia|]].
  - split; [unfold sorted; cbn; repeat constructor|cbn; repeat constructor; unfold key_size; simpl; lia|].
    exists 0, 0. cbn. repeat split; lia.
  - intros file Hfile. assert (match build put_index two_terms with Ok f => Z.of_nat (length f) <? 2 ^ 64 | _ => false end = true) as Hsize
      by by vm_compute. rewrite Hfile in Hsize. lia.
Qed.

Lemma term_dictionary_lookup_witness :
  ∃ file d, build put_index two_terms = Ok file ∧ td_open get_index file = Ok d
    ∧ td_num_terms d = Z.of_nat (length two_terms)
    ∧ (∀ i k info, two_terms !! i = Some (k, info) →
        td_get true 3 d k = Ok (Some info) ∧ td_term_ord true 3 d k = Ok (Some i)
        ∧ ord_to_term true d i = Ok (Some k) ∧ term_info_from_ord true d i = Ok info)
    ∧ (∀ k, k ∉ two_terms.*1 → td_get true 3 d k = Ok None ∧ td_term_ord true 3 d k = Ok None)
    ∧ (∀ i, (length two_terms ≤ i)%nat → ord_to_term true d i = Ok None ∧ term_info_from_ord true d i = Ok TermInfo_default).
Proof. apply (term_dictionary_lookup true put_index get_index get_put_index two_terms 3 two_terms_ok). simpl. lia. Defined.

(** An automaton that counts to two: it accepts the terms of two bytes. *)
Lemma term_stream_selects_witness :
  ∃ file d, build put_index two_terms = Ok file ∧ td_open get_index file = Ok d
    ∧ (stream_all true (λ n _, S n) (λ n, bool_decide (n = 2%nat)) 3 3 (into_stream true d 0%nat (Included [x61]) Unbounded)).1
      = Ok (filter (λ e, match_lower (Included [x61]) e.2.1 && match_upper Unbounded e.2.1
                         && bool_decide (foldl (λ n _, S n) 0%nat e.2.1 = 2%nat) = true)
             (imap pair two_terms)).
Proof.
  apply (term_stream_selects true put_index get_index get_put_index (λ n _, S n) (λ n, bool_decide (n = 2%nat)) 0%nat
    (Included [x61]) Unbounded two_terms 3 3 two_terms_ok); simpl; lia.
Defined.
